(* ===== verification/_CoqProject ===== *)
-Q . S2P
Prelude.v
Uint256.v
Params.v
Stack.v
Memory.v
Analysis.v
Common.v
AccessList.v
StateTypes.v
State.v
StateRollback.v
StateSnapshots.v
StateTheorems.v
Receipts.v
Dao.v
Finalise.v
FinaliseTheorems.v
StateTyping.v
Wire.v
PlainState.v
PlainTheorems.v
Commit.v
EvmTypes.v
Contract.v
Instructions.v
GasTable.v
Opcodes.v
JumpTable.v
Rlp.v
RlpTheorems.v
Contracts.v
Interpreter.v
Evm.v
EvmLogic.v
EvmState.v
OpSpecs.v
GasSpecs.v
TableSpecs.v
GasSafety.v
EvmTheorems.v
InstructionTheorems.v
EvmExamples.v
Config.v
Header.v
Transaction.v
StateTransition.v
StateTransitionTheorems.v
Settlement.v
Processor.v
ProcessorTheorems.v
AddressText.v
Apos.v
AposTheorems.v
AposEngine.v
AposEngineTheorems.v
Deposit.v
Rewards.v
RewardsTheorems.v
Heap.v
Prque.v
TxList.v
TxListTheorems.v
TxLookup.v
TxPriced.v
TxPool.v
Ends.v
TxPricedTheorems.v
TxPoolBase.v
TxPoolOps.v
TxPoolAdd.v
TxPoolPromote.v
TxPoolDemote.v
TxPoolLimits.v
TxPoolRuns.v
TxPoolTheorems.v
TxSchedule.v
TxSystem.v
TxPoolExamples.v
Chain.v
ChainTheorems.v
