(* ===== verification/Prelude.v ===== *)
(** * AmazeChain execution core

    A verification of the part of the AmazeChain node that decides what a
    transaction does: the chain rules, the transactions, the execution of a
    message, the virtual machine and the state it works on.  Sources are under
    [src/], and every definition keeps the name of the Go function or type it
    translates where Rocq allows it.

    ** The program and the files that model it

    A block is executed transaction by transaction.  A transaction
    ([common/transaction]) becomes a message; [internal/state_transition.go] checks
    it, buys its gas from the sender and from the gas pool of the block
    ([common/gaspool.go]), runs it on the virtual machine ([internal/vm]), refunds
    and pays the fees.  The machine reads and writes accounts through the
    intra-block state ([modules/state]), which journals every change so that a
    failed call can be undone.  Which rules apply at a block follows from the chain
    configuration ([params/config.go]) and from the headers.  Before that a transaction
    waits in the pool ([internal/txspool]), which follows the head of the chain; the head
    is chosen by the import of blocks ([internal/blockchain.go]).

    - [Prelude], [Uint256], [Params], [Common]: machine integers with their
      wrap-around, byte strings, the outcome and state monads, the class
      [uint256.Uint256] with the documented laws of the third-party 256-bit
      integers, protocol constants, the overflow tests of [common/math].
    - [Stack], [Memory], [Analysis]: the operand stack, the memory and the jump
      destination bitmap of the machine ([internal/vm/stack], [memory.go],
      [common.go], [memory_table.go], [analysis.go]).
    - [EvmTypes], [Contract], [Instructions], [GasTable], [Opcodes], [JumpTable],
      [Contracts], [Interpreter], [Evm]: the data, contracts, instructions, gas
      functions, jump tables of all forks, precompiled contracts, interpreter loop
      and calls of [internal/vm].  [EvmTypes.ibs.IntraBlockState] is the Go
      interface of the state as a class; [Calls] is the interface of the machine.
    - [AccessList], [StateTypes], [State]: access lists, accounts, state objects,
      the journal and the intra-block state of [modules/state] with its invariant.
      [StateRollback], [StateSnapshots], [StateTheorems]: the
      equivalence of states that no read can tell apart, and the theorems about
      snapshots and balances.  [EvmState]: the state implements the class.
    - [Rlp], [RlpTheorems]: the encoder buffer and the splitter of
      [internal/avm/rlp], and the reference encoding.
    - [Config], [Header]: fork schedules and rules; headers, base fee, gas limit,
      ancestor hashes ([params/config.go], [internal/consensus/misc],
      [internal/evm.go]), with their theorems.
    - [Wire], [Transaction]: the wire integers of
      [utils/util.go], transactions, messages and the protobuf form.
    - [StateTransition], [StateTransitionTheorems], [Settlement]: the execution of a
      message, with examples of transitions.
    - [EvmLogic], [OpSpecs], [GasSpecs], [TableSpecs], [GasSafety]: a program logic
      for frames and calls, and what it shows of every instruction, gas function
      and table.  [EvmTheorems], [InstructionTheorems]: the theorems.
      [EvmExamples]: a concrete machine on a concrete state.
    - [Finalise], [FinaliseTheorems], [StateTyping]: the end of a transaction and of a
      block ([FinalizeTx], [SoftFinalise], [CommitBlock] of
      [modules/state/intra_block_state.go]) as calls of a state writer, which calls
      these are, the widths of everything a reachable state holds, and that the storage it
      caches is the storage of the database.
    - [PlainState], [PlainTheorems], [Commit]: the account encoding
      ([common/account]), the plain reader and writer with the collection of change
      sets ([modules/state]), and what is in the database after a commit.
    - [Receipts], [Dao], [Processor], [ProcessorTheorems]: receipts and
      bloom filters ([common/block]), the DAO refund, and the processing of a
      block ([internal/state_processor.go], [internal/blockhelp.go]).
    - [Apos], [AposTheorems], [AposEngine], [AposEngineTheorems]: the votes
      of the signers ([internal/consensus/apos/snapshot.go]), the search for the
      snapshot of a block, and the verification and preparation of headers
      ([internal/consensus/apos/apos.go]).
    - [AddressText], [Deposit], [Rewards], [RewardsTheorems]: the text of addresses
      ([common/types]), the records of deposits with the lookup of the transactions that
      carried them ([contracts/deposit], [modules/rawdb]),
      and the rewards of an epoch ([internal/consensus/apos/reward.go]), whose shared pointers are cells of a store.
    - [Heap]: [container/heap] of the standard library, on lists and
      through its interface, as a class with what an implementation must satisfy.
      [Prque]: the priority queue of [common/prque] on it.
    - [TxList], [TxListTheorems]: the lists of pooled transactions of an account
      ([internal/txspool/txs_list.go]).  [TxLookup], [TxPriced], [TxPricedTheorems]: sets
      of accounts, the lookup, the virtual nonces ([tx_noncer.go]) and the heaps by price;
      transactions are cells of a store, since comparing prices changes them.
    - [TxPool]: the pool ([internal/txspool/txs_pool.go]), every operation that runs under
      its lock.  [Ends]: rules to show that an operation ends and what it leaves, or what
      it leaves if it returns.
      [TxPoolBase], [TxPoolOps], [TxPoolAdd], [TxPoolPromote], [TxPoolDemote],
      [TxPoolLimits], [TxPoolRuns]: the invariant of the pool and what each operation does
      to it.  [TxPoolTheorems]: the theorems.
    - [TxSchedule], [TxSystem]: the scheduler, and the goroutines around the pool as one
      system; [TxPoolExamples]: concrete runs.
    - [Chain], [ChainTheorems]: the tables of the chain, the fork choice, the iterator over
      a batch and the import with its reorganisations, side chains and future blocks
      ([internal/blockchain.go], [blockchain_insert.go], [forkchoice.go],
      [block_validator.go], [modules/rawdb]), what it keeps and what it does, with a fork of
      concrete blocks.

    ** How the code is represented

    A Go integer is a [Z] with the wrap-around of its width written out ([u64],
    [i64], [u8]); addresses, hashes and 256-bit integers are their values; a byte
    slice is a list of bytes.  A pointer that can be nil is an option.  Code that
    changes state is a function of type [M S A]: it finishes with a result and a
    new state, panics ([GoPanic]: an index out of range, a nil dereference, an
    explicit panic), or runs out of fuel ([NoFuel], only for the loops that Go does
    not bound).  Maps are [gmap]s; a Go map shared by several contracts is a cell
    of a heap.

    Parameters stand for code that is not in the repository: Keccak ([Crypto]), the
    bodies of the precompiled contracts that call hash and curve libraries
    ([Native]), 256-bit arithmetic ([Uint256], with laws and a computed instance),
    the bytes of a protobuf account ([AccountProto], with its round trip) and the
    key-value store ([KV], where a read gives what was put last; [StateReader], with
    the law that what it returns is well-formed).  The order in which Go ranges over
    a map is the parameter [iter], any permutation.  The hash of a header in [Chain] is a
    parameter as well, taken to be without collisions and never zero; the caches there may
    forget anything at any time.

    ** What is proved

    - The machine: every call and creation ends and returns at most the gas it was
      given; every reachable frame keeps its stack within 1024 operands and its
      memory in whole words that are paid for; jumps go only to jump destinations,
      whatever the caches hold; EXP and the shifts agree with arithmetic; read-only
      frames do not write; the prices of memory and of calls are exact.
    - The state: reverting to a snapshot restores every answer the state can give,
      after any guarded sequence of operations with nested snapshots; transfers
      conserve funds; the access list implements sets and its journal undoes it.
    - Messages: executing one always ends; it uses no more gas than it bought, the
      gas pool loses exactly what it used; the refund is the capped counter, and the
      prepaid gas is handed out completely to sender, producer and fee collector, or burnt
      where there is no collector; the intrinsic gas is exact.
    - The chain: a checked fork schedule enables forks in order, which discharges
      the side condition of the gas theorems; a changed schedule is compared with
      the chain and the reported block is compatible; the base fee moves by at most
      an eighth; header checks accept what they describe; the cached ancestor
      lookup agrees with the chain.
    - Encodings: the RLP encoder with deferred list headers computes the recursive
      encoding, splitting inverts it and accepts canonical forms only; wire
      integers and protobuf transactions survive a round trip.
    - Blocks: a commit names, for every slot it writes, the value that the database
      holds; after it a fresh state over the new database answers for every account the
      block dirtied as the committed state does, with code of the same hash, and reads
      every other account as before; this is for states that execution reaches over a
      database that answers, with contracts created under unused incarnations; processing a block always ends, and
      an accepted block has one receipt per transaction with exact cumulative gas
      that meets the header and its limit; bloom filters have no false negatives.
    - Consensus: the cached tally is always the recount of the pending votes; signers
      change by majority only; at least half of the signers can always sign next; the
      seal check and the replay of a header agree from the block on where the waiting
      window has filled, and disagree before; the snapshot of a block is a replay of
      headers linked from the genesis or a trusted checkpoint to that very block, whatever
      the caches hold; prepared headers pass verification.
    - Deposits and rewards: the database records the ledger that the events of the
      deposit contract describe; an epoch pays or carries over exactly what the tasks
      earned, which the maximum of a plan does not bound, and reports what it paid; the
      epoch that starts at the genesis block is not paid.
    - Transaction lists: the map with heap and cache implements a sorted list; a filter
      removes exactly what is not covered, and in a strict list what is behind it;
      replacements follow the rule of the code.
    - The transaction pool: no sequence of operations panics, whatever branches the head
      takes; lists and lookup agree; while no head takes a nonce back, the pending
      nonces of an account are contiguous up to the one the pool reports; background runs
      keep the limits, and those without a new head promote whatever can be executed,
      whatever heads came before; a batch gets its answers in
      order.  The scheduler merges exactly the requests that it answered with the channel
      of a run and runs one at a time; no interleaving of callers, head changes, scheduler
      and background run panics, and who waits for a channel finds the work done.
    - Chain management: whatever is imported in whatever order, with restarts between, the
      markers are those of a chain of stored blocks from the genesis block to the head, and
      the total difficulty of the head never decreases; every import ends; a batch on top
      of the head is imported up to the first block whose receipts the append-only table
      refuses, a heavier block below the head is adopted unless its receipts are refused, a
      heavier sibling is refused and a block on a side chain panics.  The steps are
      operations that return: a crash inside one is not covered.
    - Defects the models show: state that a revert keeps or loses, EIP numbers that are
      skipped, an offset that panics, a tip that is the wrong one of two, access
      lists that do not survive the wire, a gap between pending transactions, a change of
      branch that the pool misses, a reorganisation that compares addresses, a total
      difficulty that is not written.

    ** Bounds

    [run_loop] takes fuel for its turns and [runner_of] for nested runs.  Every turn
    that goes on pays at least one unit of gas, and a call deeper than 1024 is
    refused, so the gas of the call plus one and 1025 levels suffice; the
    termination theorems say so.  [CheckCompatible] needs the height plus two,
    [GetHashFn] more than the number of the block.  A transaction of a block
    runs with its gas limit plus one as the fuel.  The search for a snapshot runs
    with the block number plus one, the rewards of an epoch with its number of
    blocks plus one.  The loops of the pool run with the length of the heaps (twice for the
    one whose entries move to the other), of the list, the number of pending
    transactions or the number of the block, plus one or two; [pool_total] and
    [system_total] show that it is enough.  The loops of an import run with the length of
    the batch plus one, the walks of a reorganisation with the number of the block plus two;
    [import_ends] shows that this is enough.

    ** Not modelled

    The Debug tracer, which only observes; logging; the pools that recycle stacks
    and memories.  Curve, hash and signature code (partly assembly and C), the
    databases, networking and synchronisation, the RPC
    server and the services behind it, wallets and ABI encoding, tracers, mining
    (goroutines around the modelled transition), the consensus engines' sealing, generated protobuf code,
    and the second copy of the virtual machine under [internal/avm/vm], which the
    node does not run.  Of chain management, the messages to peers, the accessors of the RPC
    and [recoverAncestors], which nothing calls, are not modelled, and verification and
    execution of a block are parameters.  Of the consensus engine, the
    goroutines and timers of [Seal] and the JSON-RPC interface are not modelled, the
    recovery of a signer is a parameter, and so are JSON, the BLS library and the ABI
    decoder; the older engine [apoa] has the same snapshot file.  Of the pool, the
    fetcher that talks to peers, [Stop] and logging are not modelled, and [ResetState] is
    the lookup of a state by the hash of a block; of [common/prque], the lazy queue, which
    depends on a clock, is not modelled.  The encoding of change sets and the bitmap
    indexes, and reads of the history, are not modelled either. *)

From stdpp Require Export base numbers list gmap fin_maps strings option.
From Stdlib Require Export ZArith Lia.

#[global] Open Scope Z_scope.

(** ** Machine integers

    A Go integer of width [w] is a [Z] in its range; the wrap-around that Go
    performs on overflow is written out at every operation that can overflow. *)

Notation two8 := 256.
Notation two16 := 65536.
Notation two63 := 9223372036854775808.
Notation two64 := 18446744073709551616.
Notation two160 := 1461501637330902918203684832716283019655932542976.
Notation two255 := 57896044618658097711785492504343953926634992332820282019728792003956564819968.
Notation two256 := 115792089237316195423570985008687907853269984665640564039457584007913129639936.

(** Conversion to [uint64], [uint16] and to a byte: the low bits. *)
Definition u64 (z : Z) : Z := z mod two64.
Definition u16 (z : Z) : Z := z mod two16.
Definition u8 (z : Z) : Z := z mod two8.

(** Conversion to [int64] (and to [int], which is 64 bits wide): the low 64
    bits read as a two's complement number. *)
Definition i64 (z : Z) : Z := (z + two63) mod two64 - two63.

(** [math.MaxUint64]. *)
Definition MaxUint64 : Z := two64 - 1.

Lemma u64_range z : 0 <= u64 z < two64.
Proof. unfold u64. apply Z.mod_pos_bound. lia. Qed.

Lemma u64_small z : 0 <= z < two64 -> u64 z = z.
Proof. apply Z.mod_small. Qed.

Lemma u8_range z : 0 <= u8 z < 256.
Proof. unfold u8. apply Z.mod_pos_bound. lia. Qed.

Lemma u8_small z : 0 <= z < 256 -> u8 z = z.
Proof. apply Z.mod_small. Qed.

Lemma i64_small z : - two63 <= z < two63 -> i64 z = z.
Proof. intros H. unfold i64. rewrite Z.mod_small; lia. Qed.

(** Wrapping addition of two [uint64] either keeps the exact sum or is
    smaller than both operands: the overflow test of the Go code. *)
Lemma u64_add_overflow x y :
  0 <= x < two64 -> 0 <= y < two64 ->
  (u64 (x + y) < x <-> two64 <= x + y).
Proof.
  intros Hx Hy. unfold u64. destruct (Z_lt_ge_dec (x + y) two64).
  - rewrite Z.mod_small; lia.
  - replace ((x + y) mod two64) with (x + y - two64); [lia|].
    apply (Z.mod_unique _ _ 1); lia.
Qed.

(** ** Bytes

    A byte slice is a list of integers in [0, 256). *)

Notation bytes := (list Z).

Definition is_byte (b : Z) : Prop := 0 <= b < 256.
Definition wf_bytes (bs : bytes) : Prop := Forall is_byte bs.

(** Length of a slice as the Go [len]. *)
Definition zlen {A} (l : list A) : Z := Z.of_nat (length l).

Lemma zlen_nonneg {A} (l : list A) : 0 <= zlen l.
Proof. unfold zlen. lia. Qed.

Lemma zlen_app {A} (l k : list A) : zlen (l ++ k) = zlen l + zlen k.
Proof. unfold zlen. rewrite length_app. lia. Qed.

Lemma zlen_cons {A} (x : A) l : zlen (x :: l) = zlen l + 1.
Proof. unfold zlen. cbn [length]. lia. Qed.

Lemma zlen_replicate {A} n (x : A) : 0 <= n -> zlen (replicate (Z.to_nat n) x) = n.
Proof. intros H. unfold zlen. rewrite length_replicate. lia. Qed.

Lemma zlen_nil {A} : zlen (@nil A) = 0.
Proof. reflexivity. Qed.

(** Arithmetic on lengths. *)
Ltac zlen_lia :=
  unfold zlen in *;
  repeat (rewrite ?length_app, ?length_take, ?length_drop, ?length_insert, ?length_replicate in *;
          cbn [length] in *);
  lia.

(** Indexing with a Go [int]: [None] is the out-of-range panic. *)
Definition znth {A} (l : list A) (i : Z) : option A :=
  if i <? 0 then None else l !! Z.to_nat i.

(** [l[i] = x], with the same range check. *)
Definition zset {A} (l : list A) (i : Z) (x : A) : option (list A) :=
  if (i <? 0) || (zlen l <=? i) then None else Some (<[Z.to_nat i := x]> l).

Lemma znth_Some {A} (l : list A) i : 0 <= i < zlen l -> exists x, znth l i = Some x.
Proof.
  intros H. unfold znth, zlen in *. destruct (Z.ltb_spec i 0); [lia|].
  destruct (lookup_lt_is_Some_2 l (Z.to_nat i)) as [x Hx]; [lia|eauto].
Qed.

Lemma znth_app_r {A} (l k : list A) i : 0 <= i -> znth (l ++ k) (zlen l + i) = znth k i.
Proof.
  intros H. unfold znth, zlen. destruct (Z.ltb_spec (Z.of_nat (length l) + i) 0); [lia|].
  destruct (Z.ltb_spec i 0); [lia|]. rewrite lookup_app_r by lia. f_equal; lia.
Qed.

Lemma znth_snoc {A} (l : list A) x : znth (l ++ [x]) (zlen l) = Some x.
Proof. rewrite <- (Z.add_0_r (zlen l)). by rewrite znth_app_r. Qed.

Lemma znth_Forall {A} (P : A -> Prop) l i x : Forall P l -> znth l i = Some x -> P x.
Proof.
  unfold znth. destruct (i <? 0); [done|]. intros Hl Hx. by eapply Forall_lookup_1.
Qed.

Lemma zset_length {A} (l l' : list A) i x : zset l i x = Some l' -> zlen l' = zlen l.
Proof.
  unfold zset, zlen. destruct (_ || _); [done|]. intros [= <-]. by rewrite length_insert.
Qed.

Lemma zset_Some {A} (l : list A) i x :
  0 <= i < zlen l -> zset l i x = Some (<[Z.to_nat i := x]> l).
Proof.
  intros H. unfold zset. destruct (Z.ltb_spec i 0), (Z.leb_spec (zlen l) i); try lia; done.
Qed.

Lemma znth_zset {A} (l l' : list A) i x j :
  zset l i x = Some l' -> znth l' j = if j =? i then Some x else znth l j.
Proof.
  unfold zset, znth. destruct (Z.ltb_spec i 0), (Z.leb_spec (zlen l) i); try done. intros [= <-].
  destruct (Z.ltb_spec j 0), (Z.eqb_spec j i); try lia; try done; subst.
  - rewrite list_lookup_insert_eq by zlen_lia. done.
  - rewrite list_lookup_insert_ne by lia. done.
Qed.

(** [s[lo:hi]] on a slice; the caller checks the bounds. *)
Definition slice {A} (l : list A) (lo hi : Z) : list A :=
  take (Z.to_nat (hi - lo)) (drop (Z.to_nat lo) l).

Lemma slice_length {A} (l : list A) lo hi :
  0 <= lo <= hi -> hi <= zlen l -> zlen (slice l lo hi) = hi - lo.
Proof.
  intros H1 H2. unfold slice, zlen in *. rewrite length_take, length_drop. lia.
Qed.

(** [copy(l[off:], v)] for a range that fits: overwrite from [off] on. *)
Definition overwrite {A} (l : list A) (off : Z) (v : list A) : list A :=
  take (Z.to_nat off) l ++ v ++ drop (Z.to_nat off + length v)%nat l.

Lemma overwrite_length {A} (l : list A) off v :
  0 <= off -> off + zlen v <= zlen l -> zlen (overwrite l off v) = zlen l.
Proof.
  intros H1 H2. unfold overwrite, zlen in *.
  rewrite !length_app, length_take, length_drop. lia.
Qed.

Lemma overwrite_slice {A} (l : list A) off v :
  0 <= off -> off + zlen v <= zlen l ->
  slice (overwrite l off v) off (off + zlen v) = v.
Proof.
  intros H1 H2. unfold slice, overwrite, zlen in *.
  rewrite drop_app_le by (rewrite length_take; lia).
  rewrite drop_ge by (rewrite length_take; lia). cbn.
  replace (Z.to_nat (off + Z.of_nat (length v) - off)) with (length v) by lia.
  apply take_app_length.
Qed.

Lemma overwrite_lookup_out {A} (l : list A) off v (i : nat) :
  0 <= off -> off + zlen v <= zlen l ->
  (Z.of_nat i < off \/ off + zlen v <= Z.of_nat i) ->
  overwrite l off v !! i = l !! i.
Proof.
  intros H1 H2 H3. unfold overwrite, zlen in *. destruct H3 as [H3|H3].
  - rewrite lookup_app_l by (rewrite length_take; lia).
    by rewrite lookup_take_lt by lia.
  - rewrite lookup_app_r by (rewrite length_take; lia).
    rewrite lookup_app_r by (rewrite length_take; lia).
    rewrite lookup_drop. f_equal. rewrite length_take. lia.
Qed.

(** *** Big-endian integers *)

Definition be_to_Z (bs : bytes) : Z := foldl (fun acc b => acc * 256 + b) 0 bs.

Fixpoint Z_to_be (n : nat) (z : Z) : bytes :=
  match n with
  | O => []
  | S n' => Z_to_be n' (z / 256) ++ [z mod 256]
  end.

Lemma Z_to_be_length n z : length (Z_to_be n z) = n.
Proof. revert z; induction n as [|n IH]; intros z; [done|]. cbn. rewrite length_app, IH. cbn; lia. Qed.

Lemma Z_to_be_wf n z : wf_bytes (Z_to_be n z).
Proof.
  revert z; induction n as [|n IH]; intros z; cbn; [constructor|].
  apply Forall_app; split; [apply IH|]. constructor; [|constructor].
  apply Z.mod_pos_bound; lia.
Qed.

Lemma be_to_Z_snoc bs b : be_to_Z (bs ++ [b]) = be_to_Z bs * 256 + b.
Proof. unfold be_to_Z. by rewrite foldl_app. Qed.

Lemma be_to_Z_to_be n z : be_to_Z (Z_to_be n z) = z mod 256 ^ Z.of_nat n.
Proof.
  revert z; induction n as [|n IH]; intros z; cbn [Z_to_be].
  - by rewrite Z.mod_1_r.
  - rewrite be_to_Z_snoc, IH, Nat2Z.inj_succ. rewrite Z.pow_succ_r by apply Nat2Z.is_nonneg.
    pose proof (Z.pow_pos_nonneg 256 (Z.of_nat n)).
    rewrite Z.rem_mul_r by lia. lia.
Qed.

Lemma Z_to_be_inj n a b : 0 <= a < 256 ^ Z.of_nat n -> 0 <= b < 256 ^ Z.of_nat n ->
  Z_to_be n a = Z_to_be n b -> a = b.
Proof.
  intros Ha Hb E. apply (f_equal be_to_Z) in E. rewrite !be_to_Z_to_be in E. by rewrite !Z.mod_small in E.
Qed.

Lemma be_to_Z_range bs : wf_bytes bs -> 0 <= be_to_Z bs < 256 ^ zlen bs.
Proof.
  induction bs as [|b bs IH] using rev_ind; intros H; [by vm_compute|].
  apply Forall_app in H as [H1 H2]. inversion_clear H2 as [|? ? Hb _].
  rewrite be_to_Z_snoc, zlen_app. specialize (IH H1).
  rewrite Z.pow_add_r by apply zlen_nonneg.
  unfold is_byte in Hb. change (256 ^ zlen [b]) with 256. lia.
Qed.

Lemma Z_to_be_be_to_Z bs : wf_bytes bs -> Z_to_be (length bs) (be_to_Z bs) = bs.
Proof.
  induction bs as [|b bs IH] using rev_ind; intros H; [done|].
  apply Forall_app in H as [H1 H2]. inversion_clear H2 as [|? ? Hb _].
  unfold is_byte in Hb.
  rewrite length_app, Nat.add_comm. cbn [length Nat.add Z_to_be].
  rewrite be_to_Z_snoc. f_equal; [|f_equal].
  - rewrite Z.div_add_l by lia. rewrite Z.div_small by lia.
    rewrite Z.add_0_r. by apply IH.
  - rewrite Z.add_comm, Z.mod_add by lia. by apply Z.mod_small.
Qed.

(** Big-endian without leading zero bytes. *)
Definition min_be (z : Z) : bytes := if z =? 0 then [] else Z_to_be (Z.to_nat (Z.log2 z / 8 + 1)) z.

Lemma be_to_Z_min_be z : 0 <= z -> be_to_Z (min_be z) = z.
Proof.
  intros Hz. unfold min_be. destruct (Z.eqb_spec z 0) as [->|Hn]; [done|].
  pose proof (Z.log2_nonneg z). pose proof (Z.div_pos (Z.log2 z) 8).
  rewrite be_to_Z_to_be, Z2Nat.id by lia. apply Z.mod_small. split; [done|].
  change 256 with (2 ^ 8). rewrite <-Z.pow_mul_r by lia.
  apply Z.lt_le_trans with (2 ^ (Z.log2 z + 1)); [apply Z.log2_spec; lia|].
  apply Z.pow_le_mono_r; [lia|]. pose proof (Z.mod_pos_bound (Z.log2 z) 8). pose proof (Z.div_mod (Z.log2 z) 8). lia.
Qed.

Lemma min_be_wf z : wf_bytes (min_be z).
Proof. unfold min_be. destruct (z =? 0); [by apply Forall_nil_2|apply Z_to_be_wf]. Qed.

(** ** Outcomes of Go code

    A Go computation finishes ([Done]), panics ([GoPanic]: an index out of
    range, a nil dereference, an explicit [panic]), or, for the bounded
    models of unbounded loops, runs out of fuel ([NoFuel]). *)

Inductive outcome (A : Type) : Type :=
| Done (a : A)
| GoPanic
| NoFuel.
Arguments Done {A} a.
Arguments GoPanic {A}.
Arguments NoFuel {A}.

#[global] Instance outcome_ret : MRet outcome := fun A a => Done a.
#[global] Instance outcome_bind : MBind outcome := fun A B f m =>
  match m with
  | Done a => f a
  | GoPanic => GoPanic
  | NoFuel => NoFuel
  end.

(** Stateful Go code: a state transformer with an outcome. *)
Definition M (S A : Type) : Type := S -> outcome (A * S).

#[global] Instance M_ret S : MRet (M S) := fun A a s => Done (a, s).
#[global] Instance M_bind S : MBind (M S) := fun A B f m s =>
  match m s with
  | Done (a, s') => f a s'
  | GoPanic => GoPanic
  | NoFuel => NoFuel
  end.

Section StateOps.
Context {S : Type}.

Definition get : M S S := fun s => Done (s, s).
Definition gets {A} (f : S -> A) : M S A := fun s => Done (f s, s).
Definition modify (f : S -> S) : M S () := fun s => Done ((), f s).
Definition panic {A} : M S A := fun _ => GoPanic.

(** A partial read: [None] is a Go panic (nil pointer, index out of range). *)
Definition must {A} (o : option A) : M S A :=
  match o with Some a => mret a | None => panic end.

(** Code that does not touch the state. *)
Definition outcome_to_M {A} (o : outcome A) : M S A := fun s =>
  match o with Done a => Done (a, s) | GoPanic => GoPanic | NoFuel => NoFuel end.

(** Run an operation of a component of the state. *)
Definition zoom {T A} (proj : S -> T) (put : T -> S -> S) (m : M T A) : M S A :=
  fun s => match m (proj s) with
           | Done (a, t) => Done (a, put t s)
           | GoPanic => GoPanic
           | NoFuel => NoFuel
           end.
End StateOps.

Declare Scope go_scope.
Delimit Scope go_scope with go.
Notation "'if!' b 'then' m" := (if b then m else mret ()) (at level 200, b at level 200, m at level 200) : go_scope.

(** *** Reasoning about stateful code *)

Lemma bind_Done {S A B} (m : M S A) (f : A -> M S B) s r :
  (m ≫= f) s = Done r -> exists a s', m s = Done (a, s') /\ f a s' = Done r.
Proof.
  unfold mbind, M_bind. destruct (m s) as [[a s']| |]; [|done..]. by eauto.
Qed.

Lemma ret_Done {S A} (a : A) (s : S) r : mret (M:=M S) a s = Done r -> r = (a, s).
Proof. by intros [= <-]. Qed.

Lemma zoom_Done {S T A} (proj : S -> T) put (m : M T A) s r :
  zoom proj put m s = Done r ->
  exists a t, m (proj s) = Done (a, t) /\ r = (a, put t s).
Proof.
  unfold zoom. destruct (m (proj s)) as [[a t]| |]; [|done..].
  intros [= <-]. by eauto.
Qed.

(** Invert an equation [m s = Done r] through binds, returns and reads. *)
Ltac go_inv :=
  repeat match goal with
  | H : mbind _ _ _ = Done _ |- _ =>
      let a := fresh "a" in let s := fresh "s" in
      let H1 := fresh "Hm" in let H2 := fresh "Hk" in
      apply bind_Done in H as (a & s & H1 & H2)
  | H : zoom _ _ _ _ = Done _ |- _ =>
      let a := fresh "a" in let t := fresh "t" in
      let H1 := fresh "Hz" in let H2 := fresh "He" in
      apply zoom_Done in H as (a & t & H1 & H2)
  | H : mret _ _ = Done _ |- _ => apply ret_Done in H
  | H : get _ = Done _ |- _ => unfold get in H
  | H : gets _ _ = Done _ |- _ => unfold gets in H
  | H : modify _ _ = Done _ |- _ => unfold modify in H
  | H : panic _ = Done _ |- _ => discriminate H
  | H : Done _ = Done _ |- _ => injection H as H
  | H : (_, _) = (_, _) |- _ => injection H as ? H
  | H : GoPanic = Done _ |- _ => discriminate H
  | H : NoFuel = Done _ |- _ => discriminate H
  end; subst.

(** [preserves R m]: every finished run of [m] relates its initial and final
    states by [R]. *)
Definition preserves {S A} (R : S -> S -> Prop) (m : M S A) : Prop :=
  forall s a s', m s = Done (a, s') -> R s s'.

(** Weakest preconditions: [wp] excludes Go panics, [wlp] does not. *)
Definition wp {S A} (m : M S A) (Q : A -> S -> Prop) (s : S) : Prop :=
  match m s with Done (a, s') => Q a s' | GoPanic => False | NoFuel => True end.

Definition wlp {S A} (m : M S A) (Q : A -> S -> Prop) (s : S) : Prop :=
  match m s with Done (a, s') => Q a s' | _ => True end.

Section Wp.
Context {S : Type}.
Implicit Types s : S.

Lemma wp_ret {A} (a : A) (Q : A -> S -> Prop) s : Q a s -> wp (mret a) Q s.
Proof. done. Qed.

Lemma wp_bind {A B} (m : M S A) (f : A -> M S B) Q s :
  wp m (fun a => wp (f a) Q) s -> wp (m ≫= f) Q s.
Proof. unfold wp, mbind, M_bind. by destruct (m s) as [[a s']| |]. Qed.

Lemma wp_mono {A} (m : M S A) (Q Q' : A -> S -> Prop) s :
  (forall a s', Q a s' -> Q' a s') -> wp m Q s -> wp m Q' s.
Proof. unfold wp. destruct (m s) as [[a s']| |]; eauto. Qed.

Lemma wlp_bind {A B} (m : M S A) (f : A -> M S B) Q s :
  wlp m (fun a => wlp (f a) Q) s -> wlp (m ≫= f) Q s.
Proof. unfold wlp, mbind, M_bind. by destruct (m s) as [[a s']| |]. Qed.

Lemma wlp_mono {A} (m : M S A) (Q Q' : A -> S -> Prop) s :
  (forall a s', Q a s' -> Q' a s') -> wlp m Q s -> wlp m Q' s.
Proof. unfold wlp. destruct (m s) as [[a s']| |]; eauto. Qed.

Lemma wp_wlp {A} (m : M S A) Q s : wp m Q s -> wlp m Q s.
Proof. unfold wp, wlp. destruct (m s) as [[a s']| |]; done. Qed.
End Wp.

Section Preserves.
Context {S : Type} (R : S -> S -> Prop) `{!Reflexive R, !Transitive R}.

Lemma preserves_ret {A} (a : A) : preserves R (mret a : M S A).
Proof. intros s b s' [= -> ->]. done. Qed.

Lemma preserves_bind {A B} (m : M S A) (f : A -> M S B) :
  preserves R m -> (forall a, preserves R (f a)) -> preserves R (m ≫= f).
Proof.
  intros Hm Hf s b s' H. apply bind_Done in H as (a & s1 & H1 & H2).
  transitivity s1; [by eapply Hm | by eapply Hf].
Qed.

Lemma preserves_get : preserves R get.
Proof. intros s b s' [= -> ->]. done. Qed.

Lemma preserves_gets {A} (f : S -> A) : preserves R (gets f).
Proof. intros s b s' [= <- ->]. done. Qed.

Lemma preserves_modify (f : S -> S) : (forall s, R s (f s)) -> preserves R (modify f).
Proof. intros H s b s' [= <- <-]. apply H. Qed.

Lemma preserves_panic {A} : preserves R (panic : M S A).
Proof. intros s b s' [=]. Qed.

Lemma preserves_must {A} (o : option A) : preserves R (must o).
Proof. destruct o; [apply preserves_ret | apply preserves_panic]. Qed.

Lemma preserves_if {A} (b : bool) (m1 m2 : M S A) :
  preserves R m1 -> preserves R m2 -> preserves R (if b then m1 else m2).
Proof. by destruct b. Qed.

Lemma preserves_zoom {T A} (proj : S -> T) put (m : M T A) :
  (forall s t, R s (put t s)) -> preserves R (zoom proj put m).
Proof. intros H s b s' Hz. apply zoom_Done in Hz as (a & t & _ & [= -> ->]). apply H. Qed.
End Preserves.

(** ** Automation

    [amc] resolves the routine side conditions on machine integers;
    [preserves] closes the frame conditions of stateful code. *)
Create HintDb amc.
Create HintDb preserves.

#[export] Hint Resolve u64_range u8_range zlen_nonneg Z_to_be_wf : amc.
#[export] Hint Resolve preserves_ret preserves_get preserves_gets preserves_panic
  preserves_must preserves_if : preserves.
#[export] Hint Extern 2 (preserves _ (mbind _ _)) =>
  apply preserves_bind; [try typeclasses eauto.. | | intros ?] : preserves.
#[export] Hint Extern 3 (preserves _ (match ?x with _ => _ end)) => destruct x : preserves.
#[export] Hint Extern 4 (preserves _ (modify _)) =>
  apply preserves_modify; intros ? : preserves.

(** Walk through the binds and branches of a stateful definition; the leaves are
    closed by the [preserves] database, the updates by the given tactic. *)
Ltac preserves_with tac :=
  repeat lazymatch goal with
  | |- preserves _ (mbind _ _) => apply preserves_bind; [typeclasses eauto..| |intros ?]
  | |- preserves _ (match ?x with _ => _ end) => destruct x
  | |- preserves _ (mret _) => apply preserves_ret; typeclasses eauto
  | |- preserves _ get => apply preserves_get; typeclasses eauto
  | |- preserves _ (gets _) => apply preserves_gets; typeclasses eauto
  | |- preserves _ panic => apply preserves_panic
  | |- preserves _ (must _) => apply preserves_must; typeclasses eauto
  | |- preserves _ (modify _) => apply preserves_modify; intros ?; tac
  | |- preserves _ _ => solve [eauto with preserves nocore]
  end.

(** Case analysis on the boolean comparisons of [Z] in the goal and context. *)
Ltac zbool :=
  repeat match goal with
  | |- context [?x <? ?y] => destruct (Z.ltb_spec x y)
  | |- context [?x <=? ?y] => destruct (Z.leb_spec x y)
  | |- context [?x =? ?y] => destruct (Z.eqb_spec x y)
  | H : context [?x <? ?y] |- _ => destruct (Z.ltb_spec x y)
  | H : context [?x <=? ?y] |- _ => destruct (Z.leb_spec x y)
  | H : context [?x =? ?y] |- _ => destruct (Z.eqb_spec x y)
  end.

#[global] Arguments znth : simpl never.
#[global] Arguments zset : simpl never.
#[global] Arguments zlen : simpl never.
#[global] Arguments slice : simpl never.
#[global] Arguments overwrite : simpl never.
#[global] Arguments u64 : simpl never.
#[global] Arguments u8 : simpl never.
#[global] Arguments i64 : simpl never.
