(* ===== verification/Uint256.v ===== *)
(** * The 256-bit integer library

    The Go code computes on words with [github.com/holiman/uint256], a
    third-party package.  Its operations are a parameter of the model: the
    class [Uint256] lists the methods the code calls, on a word represented by
    its value (a [Z] in [0, 2^256)); the class [Uint256Laws] states what the
    package documents of each of them, for arguments in range.  [ref_uint256]
    is a concrete instance, used to evaluate the model on examples; it shows
    that the laws are consistent. *)

From S2P Require Import Prelude.

Definition word (x : Z) : Prop := 0 <= x < two256.

(** Two's complement reading of a word, and back. *)
Definition signed (x : Z) : Z := if x <? two255 then x else x - two256.
Definition wrap256 (z : Z) : Z := z mod two256.

Lemma wrap256_word z : word (wrap256 z).
Proof. unfold word, wrap256. apply Z.mod_pos_bound. lia. Qed.

Lemma wrap256_small z : word z -> wrap256 z = z.
Proof. apply Z.mod_small. Qed.

Module uint256.

Class Uint256 : Type := {
  (** arithmetic *)
  Add : Z -> Z -> Z;
  Sub : Z -> Z -> Z;
  Mul : Z -> Z -> Z;
  Div : Z -> Z -> Z;
  SDiv : Z -> Z -> Z;
  Mod : Z -> Z -> Z;
  SMod : Z -> Z -> Z;
  Exp : Z -> Z -> Z;
  AddMod : Z -> Z -> Z -> Z;
  MulMod : Z -> Z -> Z -> Z;
  AddOverflow : Z -> Z -> Z * bool;
  MulOverflow : Z -> Z -> Z * bool;
  ExtendSign : Z -> Z -> Z;
  (** comparisons and tests *)
  Lt : Z -> Z -> bool;
  Gt : Z -> Z -> bool;
  Slt : Z -> Z -> bool;
  Sgt : Z -> Z -> bool;
  Eq : Z -> Z -> bool;
  IsZero : Z -> bool;
  LtUint64 : Z -> Z -> bool;
  GtUint64 : Z -> Z -> bool;
  Sign : Z -> Z;
  BitLen : Z -> Z;
  (** bit operations *)
  Not : Z -> Z;
  And : Z -> Z -> Z;
  Or : Z -> Z -> Z;
  Xor : Z -> Z -> Z;
  Byte : Z -> Z -> Z;
  Lsh : Z -> Z -> Z;
  Rsh : Z -> Z -> Z;
  SRsh : Z -> Z -> Z;
  (** conversions *)
  Uint64 : Z -> Z;
  IsUint64 : Z -> bool;
  Uint64WithOverflow : Z -> Z * bool;
  SetBytes : bytes -> Z;
  Bytes20 : Z -> Z;
  Bytes32 : Z -> Z;
  WriteToSlice : Z -> nat -> bytes;
  Bytes : Z -> bytes;
  FromBig : Z -> Z * bool
}.

(** What the package documents.  [Byte x n] is [x.Byte(n)]: the [n]-th byte
    counted from the most significant one.  [Bytes20] and [Bytes32] give the
    address or hash made of the low 20 or 32 bytes (both are represented by
    their big-endian value). [WriteToSlice x n] is the content [x.WriteToSlice]
    leaves in a slice of [n] zero bytes.  [Bytes] is big-endian without leading
    zero bytes.  [Uint64_type] and
    [SetBytes_type] are the Go types of the results. *)
Class Uint256Laws (U : Uint256) : Prop := {
  Add_spec x y : word x -> word y -> Add x y = wrap256 (x + y);
  Sub_spec x y : word x -> word y -> Sub x y = wrap256 (x - y);
  Mul_spec x y : word x -> word y -> Mul x y = wrap256 (x * y);
  Div_spec x y : word x -> word y -> Div x y = if y =? 0 then 0 else x / y;
  SDiv_spec x y : word x -> word y ->
    SDiv x y = if y =? 0 then 0 else wrap256 (Z.quot (signed x) (signed y));
  Mod_spec x y : word x -> word y -> Mod x y = if y =? 0 then 0 else x mod y;
  SMod_spec x y : word x -> word y ->
    SMod x y = if y =? 0 then 0 else wrap256 (Z.rem (signed x) (signed y));
  Exp_spec x y : word x -> word y -> Exp x y = wrap256 (x ^ y);
  AddMod_spec x y m : word x -> word y -> word m ->
    AddMod x y m = if m =? 0 then 0 else (x + y) mod m;
  MulMod_spec x y m : word x -> word y -> word m ->
    MulMod x y m = if m =? 0 then 0 else (x * y) mod m;
  AddOverflow_spec x y : word x -> word y ->
    AddOverflow x y = (wrap256 (x + y), two256 <=? x + y);
  MulOverflow_spec x y : word x -> word y ->
    MulOverflow x y = (wrap256 (x * y), two256 <=? x * y);
  ExtendSign_spec x b : word x -> word b ->
    ExtendSign x b =
      if b <? 31
      then if Z.testbit x (8 * b + 7)
           then wrap256 (x mod 2 ^ (8 * b + 8) - 2 ^ (8 * b + 8))
           else x mod 2 ^ (8 * b + 8)
      else x;
  Lt_spec x y : word x -> word y -> Lt x y = (x <? y);
  Gt_spec x y : word x -> word y -> Gt x y = (y <? x);
  Slt_spec x y : word x -> word y -> Slt x y = (signed x <? signed y);
  Sgt_spec x y : word x -> word y -> Sgt x y = (signed y <? signed x);
  Eq_spec x y : word x -> word y -> Eq x y = (x =? y);
  IsZero_spec x : word x -> IsZero x = (x =? 0);
  LtUint64_spec x n : word x -> 0 <= n < two64 -> LtUint64 x n = (x <? n);
  GtUint64_spec x n : word x -> 0 <= n < two64 -> GtUint64 x n = (n <? x);
  Sign_spec x : word x -> Sign x = Z.sgn (signed x);
  BitLen_spec x : word x -> BitLen x = if x =? 0 then 0 else Z.log2 x + 1;
  Not_spec x : word x -> Not x = two256 - 1 - x;
  And_spec x y : word x -> word y -> And x y = Z.land x y;
  Or_spec x y : word x -> word y -> Or x y = Z.lor x y;
  Xor_spec x y : word x -> word y -> Xor x y = Z.lxor x y;
  Byte_spec x n : word x -> word n ->
    Byte x n = if n <? 32 then (x / 256 ^ (31 - n)) mod 256 else 0;
  Lsh_spec x n : word x -> 0 <= n < two64 -> Lsh x n = wrap256 (Z.shiftl x n);
  Rsh_spec x n : word x -> 0 <= n < two64 -> Rsh x n = Z.shiftr x n;
  SRsh_spec x n : word x -> 0 <= n < two64 -> SRsh x n = wrap256 (Z.shiftr (signed x) n);
  Uint64_spec x : word x -> Uint64 x = u64 x;
  Uint64_type x : 0 <= Uint64 x < two64;
  IsUint64_spec x : word x -> IsUint64 x = (x <? two64);
  Uint64WithOverflow_spec x : word x -> Uint64WithOverflow x = (u64 x, two64 <=? x);
  SetBytes_spec bs : wf_bytes bs -> SetBytes bs = wrap256 (be_to_Z bs);
  SetBytes_type bs : word (SetBytes bs);
  Bytes20_spec x : word x -> Bytes20 x = x mod two160;
  Bytes32_spec x : word x -> Bytes32 x = x;
  WriteToSlice_spec x n : word x -> WriteToSlice x n = Z_to_be n x;
  Bytes_spec x : word x -> Bytes x = min_be x;
  FromBig_spec z : 0 <= z -> FromBig z = (wrap256 z, two256 <=? z)
}.

(** A concrete instance: the documented behaviour itself, computed. *)
Definition pow_wrap (x y : Z) : Z :=
  match y with
  | Zpos p => Pos.iter_op (fun a b => wrap256 (a * b)) p (wrap256 x)
  | _ => 1
  end.

Definition ref_uint256 : Uint256 := {|
  Add x y := wrap256 (x + y);
  Sub x y := wrap256 (x - y);
  Mul x y := wrap256 (x * y);
  Div x y := if y =? 0 then 0 else x / y;
  SDiv x y := if y =? 0 then 0 else wrap256 (Z.quot (signed x) (signed y));
  Mod x y := if y =? 0 then 0 else x mod y;
  SMod x y := if y =? 0 then 0 else wrap256 (Z.rem (signed x) (signed y));
  Exp x y := pow_wrap x y;
  AddMod x y m := if m =? 0 then 0 else (x + y) mod m;
  MulMod x y m := if m =? 0 then 0 else (x * y) mod m;
  AddOverflow x y := (wrap256 (x + y), two256 <=? x + y);
  MulOverflow x y := (wrap256 (x * y), two256 <=? x * y);
  ExtendSign x b :=
    if b <? 31
    then if Z.testbit x (8 * b + 7)
         then wrap256 (x mod 2 ^ (8 * b + 8) - 2 ^ (8 * b + 8))
         else x mod 2 ^ (8 * b + 8)
    else x;
  Lt x y := x <? y;
  Gt x y := y <? x;
  Slt x y := signed x <? signed y;
  Sgt x y := signed y <? signed x;
  Eq x y := x =? y;
  IsZero x := x =? 0;
  LtUint64 x n := x <? n;
  GtUint64 x n := n <? x;
  Sign x := Z.sgn (signed x);
  BitLen x := if x =? 0 then 0 else Z.log2 x + 1;
  Not x := two256 - 1 - x;
  And x y := Z.land x y;
  Or x y := Z.lor x y;
  Xor x y := Z.lxor x y;
  Byte x n := if n <? 32 then (x / 256 ^ (31 - n)) mod 256 else 0;
  Lsh x n := wrap256 (Z.shiftl x n);
  Rsh x n := Z.shiftr x n;
  SRsh x n := wrap256 (Z.shiftr (signed x) n);
  Uint64 x := u64 x;
  IsUint64 x := x <? two64;
  Uint64WithOverflow x := (u64 x, two64 <=? x);
  SetBytes bs := wrap256 (be_to_Z bs);
  Bytes20 x := x mod two160;
  Bytes32 x := x;
  WriteToSlice x n := Z_to_be n x;
  Bytes x := min_be x;
  FromBig z := (wrap256 z, two256 <=? z)
|}.

Lemma pow_wrap_spec x y : 0 <= y -> pow_wrap x y = wrap256 (x ^ y).
Proof.
  intros Hy. destruct y as [|p|p]; [done| |lia]. unfold pow_wrap. clear Hy.
  assert (Hm : forall a b, wrap256 (wrap256 a * wrap256 b) = wrap256 (a * b)).
  { intros a b. unfold wrap256. by rewrite <-Zmult_mod. }
  revert x; induction p as [p IH|p IH|]; intros x; cbn [Pos.iter_op].
  - rewrite Hm, IH, Hm. f_equal.
    rewrite Pos2Z.inj_xI, Z.pow_add_r, Z.pow_mul_r by lia.
    rewrite Z.pow_2_r, Z.pow_1_r. lia.
  - rewrite Hm, IH. f_equal. rewrite Pos2Z.inj_xO, Z.pow_mul_r by lia. by rewrite Z.pow_2_r.
  - by rewrite Z.pow_1_r.
Qed.

#[global] Instance ref_uint256_laws : Uint256Laws ref_uint256.
Proof.
  constructor; intros; try reflexivity.
  - cbn. apply pow_wrap_spec. match goal with H : word ?y |- 0 <= ?y => apply H end.
  - apply u64_range.
  - apply wrap256_word.
Qed.

(** The conversions the code applies to every operand stay in range. *)
Section Ranges.
Context {U : Uint256} {UL : Uint256Laws U}.

Lemma Uint64_range x : word x -> 0 <= Uint64 x < two64.
Proof. intros H. rewrite Uint64_spec by done. apply u64_range. Qed.

Lemma Add_word x y : word x -> word y -> word (Add x y).
Proof. intros Hx Hy. rewrite Add_spec by done. apply wrap256_word. Qed.

Lemma Sub_word x y : word x -> word y -> word (Sub x y).
Proof. intros Hx Hy. rewrite Sub_spec by done. apply wrap256_word. Qed.

Lemma SetBytes_word bs : wf_bytes bs -> word (SetBytes bs).
Proof. intros _. apply SetBytes_type. Qed.

Lemma SetBytes_Bytes x : word x -> SetBytes (Bytes x) = x.
Proof.
  intros H. rewrite Bytes_spec by done. rewrite SetBytes_spec by apply min_be_wf.
  rewrite be_to_Z_min_be by apply H. by apply wrap256_small.
Qed.

Lemma Bytes_nil x : word x -> Bytes x = [] <-> x = 0.
Proof.
  intros H. rewrite Bytes_spec by done. unfold min_be. destruct (Z.eqb_spec x 0) as [->|Hn]; [done|].
  split; [|done]. intros E. apply (f_equal length) in E. rewrite Z_to_be_length in E. cbn in E.
  pose proof (Z.div_pos (Z.log2 x) 8 (Z.log2_nonneg x)). lia.
Qed.
End Ranges.

End uint256.

Notation Uint256 := uint256.Uint256.
Notation Uint256Laws := uint256.Uint256Laws.
Notation ref_uint256 := uint256.ref_uint256.

#[export] Hint Resolve wrap256_word uint256.Add_word uint256.Sub_word uint256.SetBytes_word
  uint256.Uint64_range : amc.
