(* ===== verification/Params.v ===== *)
(** * Protocol constants and 64-bit arithmetic

    The gas schedule of [params/protocol_params.go], the step costs of
    [internal/vm/gas.go], the overflow-checked arithmetic of
    [common/math/integer.go] and the slice padding of [common/types/bytes.go]. *)

From S2P Require Import Prelude.

(** ** [params/protocol_params.go] *)

Definition CallValueTransferGas : Z := 9000.
Definition CallNewAccountGas : Z := 25000.
Definition QuadCoeffDiv : Z := 512.
Definition LogDataGas : Z := 8.
Definition CallStipend : Z := 2300.

Definition SstoreSetGas : Z := 20000.
Definition SstoreResetGas : Z := 5000.
Definition SstoreClearGas : Z := 5000.
Definition SstoreRefundGas : Z := 15000.

Definition NetSstoreNoopGas : Z := 200.
Definition NetSstoreInitGas : Z := 20000.
Definition NetSstoreCleanGas : Z := 5000.
Definition NetSstoreDirtyGas : Z := 200.
Definition NetSstoreClearRefund : Z := 15000.
Definition NetSstoreResetRefund : Z := 4800.
Definition NetSstoreResetClearRefund : Z := 19800.

Definition Keccak256Gas : Z := 30.
Definition Keccak256WordGas : Z := 6.
Definition InitCodeWordGas : Z := 2.

Definition SstoreSentryGasEIP2200 : Z := 2300.
Definition SstoreSetGasEIP2200 : Z := 20000.
Definition SstoreResetGasEIP2200 : Z := 5000.
Definition SstoreClearsScheduleRefundEIP2200 : Z := 15000.

Definition ColdAccountAccessCostEIP2929 : Z := 2600.
Definition ColdSloadCostEIP2929 : Z := 2100.
Definition WarmStorageReadCostEIP2929 : Z := 100.

Definition TxAccessListStorageKeyGas : Z := 1900.
Definition SstoreClearsScheduleRefundEIP3529 : Z :=
  SstoreResetGasEIP2200 - ColdSloadCostEIP2929 + TxAccessListStorageKeyGas.

Definition JumpdestGas : Z := 1.
Definition CreateDataGas : Z := 200.
Definition CallCreateDepth : Z := 1024.
Definition ExpGas : Z := 10.
Definition LogGas : Z := 375.
Definition CopyGas : Z := 3.
Definition StackLimit : Z := 1024.
Definition LogTopicGas : Z := 375.
Definition CreateGas : Z := 32000.
Definition Create2Gas : Z := 32000.
Definition SelfdestructRefundGas : Z := 24000.
Definition MemoryGas : Z := 3.

Definition CallGasFrontier : Z := 40.
Definition CallGasEIP150 : Z := 700.
Definition BalanceGasFrontier : Z := 20.
Definition BalanceGasEIP150 : Z := 400.
Definition BalanceGasEIP1884 : Z := 700.
Definition ExtcodeSizeGasFrontier : Z := 20.
Definition ExtcodeSizeGasEIP150 : Z := 700.
Definition SloadGasFrontier : Z := 50.
Definition SloadGasEIP150 : Z := 200.
Definition SloadGasEIP1884 : Z := 800.
Definition SloadGasEIP2200 : Z := 800.
Definition ExtcodeHashGasConstantinople : Z := 400.
Definition ExtcodeHashGasEIP1884 : Z := 700.
Definition SelfdestructGasEIP150 : Z := 5000.
Definition ExpByteFrontier : Z := 10.
Definition ExpByteEIP160 : Z := 50.
Definition ExtcodeCopyBaseFrontier : Z := 20.
Definition ExtcodeCopyBaseEIP150 : Z := 700.
Definition CreateBySelfdestructGas : Z := 25000.

Definition MaxCodeSize : Z := 24576.
Definition MaxInitCodeSize : Z := 2 * MaxCodeSize.

(** ** [internal/vm/gas.go]: step costs *)

Definition GasQuickStep : Z := 2.
Definition GasFastestStep : Z := 3.
Definition GasFastStep : Z := 5.
Definition GasMidStep : Z := 8.
Definition GasSlowStep : Z := 10.
Definition GasExtStep : Z := 20.

(** ** [common/math/integer.go]

    [bits.Add64], [bits.Sub64] and [bits.Mul64] give the low word and the
    carry, borrow or high word. *)

Definition SafeSub (x y : Z) : Z * bool := (u64 (x - y), negb (x - y =? u64 (x - y))).
Definition SafeAdd (x y : Z) : Z * bool := (u64 (x + y), negb ((x + y) / two64 =? 0)).
Definition SafeMul (x y : Z) : Z * bool := (u64 (x * y), negb ((x * y) / two64 =? 0)).

Definition AbsoluteDifference (x y : Z) : Z := if y <? x then u64 (x - y) else u64 (y - x).

(** ** [common/types/bytes.go] *)

Definition RightPadBytes (s : bytes) (l : Z) : bytes :=
  if l <=? zlen s then s else s ++ replicate (Z.to_nat l - length s) 0.

Definition LeftPadBytes (s : bytes) (l : Z) : bytes :=
  if l <=? zlen s then s else replicate (Z.to_nat l - length s) 0 ++ s.

Definition CopyBytes (b : bytes) : bytes := b.

Fixpoint TrimLeftZeroes (s : bytes) : bytes :=
  match s with
  | b :: s' => if b =? 0 then TrimLeftZeroes s' else s
  | [] => []
  end.

Fixpoint TrimRightZeroes (s : bytes) : bytes :=
  match s with
  | [] => []
  | b :: s' =>
      match TrimRightZeroes s' with
      | [] => if b =? 0 then [] else [b]
      | t => b :: t
      end
  end.

(** ** Facts *)

Definition is_u64 (x : Z) : Prop := 0 <= x < two64.

Lemma SafeAdd_ok x y r : is_u64 x -> is_u64 y -> SafeAdd x y = (r, false) -> r = x + y /\ x + y < two64.
Proof.
  unfold SafeAdd, is_u64. intros Hx Hy [= <- H].
  apply negb_false_iff, Z.eqb_eq in H.
  assert (x + y < two64) by (apply Z.div_small_iff in H; lia).
  split; [apply u64_small; lia | done].
Qed.

Lemma SafeAdd_overflow x y : is_u64 x -> is_u64 y -> (SafeAdd x y).2 = true <-> two64 <= x + y.
Proof.
  unfold SafeAdd, is_u64; cbn. intros Hx Hy. rewrite negb_true_iff, Z.eqb_neq.
  split; intros H.
  - destruct (Z_lt_ge_dec (x + y) two64); [|lia]. rewrite Z.div_small in H; lia.
  - intros E. apply Z.div_small_iff in E; lia.
Qed.

Lemma SafeMul_ok x y r : is_u64 x -> is_u64 y -> SafeMul x y = (r, false) -> r = x * y /\ x * y < two64.
Proof.
  unfold SafeMul, is_u64. intros Hx Hy [= <- H].
  apply negb_false_iff, Z.eqb_eq in H.
  assert (x * y < two64) by (apply Z.div_small_iff in H; nia).
  split; [apply u64_small; nia | done].
Qed.

Lemma SafeMul_overflow x y : is_u64 x -> is_u64 y -> (SafeMul x y).2 = true <-> two64 <= x * y.
Proof.
  unfold SafeMul, is_u64; cbn. intros Hx Hy. rewrite negb_true_iff, Z.eqb_neq.
  split; intros H.
  - destruct (Z_lt_ge_dec (x * y) two64); [|lia]. rewrite Z.div_small in H; nia.
  - intros E. apply Z.div_small_iff in E; nia.
Qed.

Lemma RightPadBytes_length s l : 0 <= l -> zlen (RightPadBytes s l) = Z.max l (zlen s).
Proof.
  intros Hl. unfold RightPadBytes. destruct (Z.leb_spec l (zlen s)); [lia|].
  unfold zlen in *. rewrite length_app, length_replicate. lia.
Qed.

Lemma replicate0_wf n : wf_bytes (replicate n 0).
Proof. apply Forall_replicate. unfold is_byte. lia. Qed.

Lemma RightPadBytes_wf s l : wf_bytes s -> wf_bytes (RightPadBytes s l).
Proof.
  intros H. unfold RightPadBytes. destruct (l <=? zlen s); [done|].
  apply Forall_app. split; [done|]. apply replicate0_wf.
Qed.

#[export] Hint Resolve RightPadBytes_wf replicate0_wf : amc.
