(* ===== verification/Stack.v ===== *)
(** * The EVM operand stack ([internal/vm/stack/stack.go])

    [Data] is the Go slice: the top of the stack is its last element.  A method
    that returns a pointer into the slice ([Peek], [Back]) is modelled by the
    read; a write through the pointer of [Peek] is [SetPeek].  Every index the
    Go code computes can panic, and does so here. *)

From S2P Require Import Prelude Uint256 Params.

Module stack.

Record Stack : Type := mkStack { Data : list Z }.

(** What [stackPool.Get] hands out: a stack put back earlier, or the fresh one
    of the pool's [New] function. *)
Definition New (pooled : option Stack) : Stack :=
  match pooled with Some st => st | None => mkStack [] end.

Definition Len (st : Stack) : Z := zlen (Data st).

Definition Push (d : Z) : M Stack () := modify (fun st => mkStack (Data st ++ [d])).

Definition PushN (ds : list Z) : M Stack () := modify (fun st => mkStack (Data st ++ ds)).

Definition Pop : M Stack Z :=
  st ← get;
  ret ← must (znth (Data st) (Len st - 1));
  _ ← modify (fun st => mkStack (take (length (Data st) - 1) (Data st)));
  mret ret.

Definition Swap (n : Z) : M Stack () :=
  st ← get;
  a ← must (znth (Data st) (Len st - 1));
  b ← must (znth (Data st) (Len st - n));
  d1 ← must (zset (Data st) (Len st - n) a);
  d2 ← must (zset d1 (Len st - 1) b);
  modify (fun _ => mkStack d2).

Definition Dup (n : Z) : M Stack () :=
  st ← get;
  d ← must (znth (Data st) (Len st - n));
  Push d.

Definition Peek : M Stack Z := st ← get; must (znth (Data st) (Len st - 1)).

Definition SetPeek (v : Z) : M Stack () :=
  st ← get;
  d ← must (zset (Data st) (Len st - 1) v);
  modify (fun _ => mkStack d).

Definition Back (n : Z) : M Stack Z := st ← get; must (znth (Data st) (Len st - n - 1)).

Definition Reset : M Stack () := modify (fun _ => mkStack []).

(** The stack [ReturnNormalStack] puts into the pool. *)
Definition ReturnNormalStack (s : Stack) : Stack := mkStack [].

(** ** The return stack *)

Record ReturnStack : Type := mkReturnStack { data : list Z }.

Definition NewReturnStack (pooled : option ReturnStack) : ReturnStack :=
  match pooled with Some rs => rs | None => mkReturnStack [] end.

Definition ReturnRStack (rs : ReturnStack) : ReturnStack := mkReturnStack [].

Definition RPush (d : Z) : M ReturnStack () :=
  modify (fun rs => mkReturnStack (data rs ++ [d])).

Definition RPop : M ReturnStack Z :=
  rs ← get;
  ret ← must (znth (data rs) (zlen (data rs) - 1));
  _ ← modify (fun rs => mkReturnStack (take (length (data rs) - 1) (data rs)));
  mret ret.

(** ** Behaviour on a stack with its top elements named *)

(** All elements are 256-bit words. *)
Definition wf (st : Stack) : Prop := Forall word (Data st).

Lemma znth_last {A} (d : list A) x : znth (d ++ [x]) (zlen (d ++ [x]) - 1) = Some x.
Proof.
  replace (zlen (d ++ [x]) - 1) with (zlen d + 0); [|zlen_lia].
  by rewrite znth_app_r.
Qed.

Lemma Push_run d x : Push x (mkStack d) = Done ((), mkStack (d ++ [x])).
Proof. reflexivity. Qed.

Lemma Pop_run d x : Pop (mkStack (d ++ [x])) = Done (x, mkStack d).
Proof.
  unfold Pop, mbind, M_bind, get, modify, must, Len. cbn [Data]. rewrite znth_last. cbn.
  rewrite length_app; cbn. replace (length d + 1 - 1)%nat with (length d) by lia.
  by rewrite take_app_length.
Qed.

Lemma Peek_run d x : Peek (mkStack (d ++ [x])) = Done (x, mkStack (d ++ [x])).
Proof. unfold Peek, mbind, M_bind, get, must, Len. cbn [Data]. by rewrite znth_last. Qed.

Lemma SetPeek_run d x y : SetPeek y (mkStack (d ++ [x])) = Done ((), mkStack (d ++ [y])).
Proof.
  unfold SetPeek, mbind, M_bind, get, must, Len. cbn [Data].
  rewrite zset_Some by zlen_lia. cbn.
  do 3 f_equal.
  replace (Z.to_nat _) with (length d + 0)%nat by zlen_lia.
  by rewrite insert_app_r.
Qed.

Lemma znth_mid {A} (d k : list A) x n :
  n = zlen k -> znth (d ++ x :: k) (zlen (d ++ x :: k) - n - 1) = Some x.
Proof.
  intros ->. replace (_ - _) with (zlen d + 0); [by rewrite znth_app_r|].
  zlen_lia.
Qed.

Lemma Back_run d x k n :
  n = zlen k -> Back n (mkStack (d ++ x :: k)) = Done (x, mkStack (d ++ x :: k)).
Proof.
  intros Hn. unfold Back, mbind, M_bind, get, must, Len. cbn [Data].
  by rewrite znth_mid.
Qed.

Lemma Dup_run d x k n :
  n = zlen k + 1 -> Dup n (mkStack (d ++ x :: k)) = Done ((), mkStack ((d ++ x :: k) ++ [x])).
Proof.
  intros ->. unfold Dup, mbind, M_bind, get, must, Len. cbn [Data].
  rewrite Z.sub_add_distr, znth_mid by done. done.
Qed.

Lemma Swap_run d x k y n :
  n = zlen k + 2 ->
  Swap n (mkStack (d ++ x :: k ++ [y])) = Done ((), mkStack (d ++ y :: k ++ [x])).
Proof.
  intros ->. unfold Swap, mbind, M_bind, get, must, Len. cbn [Data].
  assert (zlen (d ++ x :: k ++ [y]) = zlen d + zlen k + 2) as Hl.
  { zlen_lia. }
  rewrite Hl.
  replace (zlen d + zlen k + 2 - 1) with (zlen d + (1 + zlen k)) by lia.
  replace (zlen d + zlen k + 2 - (zlen k + 2)) with (zlen d + 0) by lia.
  rewrite znth_app_r by (pose proof (zlen_nonneg k); lia).
  rewrite znth_app_r by lia.
  replace (znth (x :: k ++ [y]) (1 + zlen k)) with (Some y).
  2:{ change (x :: k ++ [y]) with ((x :: k) ++ [y]).
      replace (1 + zlen k) with (zlen (x :: k) + 0) by (unfold zlen; cbn; lia).
      by rewrite znth_app_r. }
  cbn [znth mret M_ret]. change (znth (x :: k ++ [y]) 0) with (Some x). cbn [mret M_ret].
  pose proof (zlen_nonneg d). pose proof (zlen_nonneg k).
  rewrite zset_Some by (rewrite Hl; lia). cbn [mret M_ret].
  rewrite zset_Some by zlen_lia.
  cbn [mret M_ret]. unfold modify. do 3 f_equal.
  replace (Z.to_nat (zlen d + 0)) with (length d + 0)%nat by (unfold zlen; lia).
  rewrite insert_app_r. change (<[0%nat:=y]> (x :: k ++ [y])) with ((y :: k) ++ [y]).
  rewrite app_assoc.
  replace (Z.to_nat _) with (length (d ++ y :: k) + 0)%nat by zlen_lia.
  rewrite insert_app_r. by rewrite <- app_assoc.
Qed.

End stack.
