(* ===== verification/Memory.v ===== *)
(** * EVM memory

    [internal/vm/memory.go] (the byte store of a frame), [internal/vm/common.go]
    (size computations and padded reads) and [internal/vm/memory_table.go] (the
    memory an instruction needs, read off its stack operands).

    A slice expression [m.store[lo:hi]] is modelled with the bound [len]; Go
    would also accept a [hi] up to the capacity.  The model is stricter, and the
    interpreter theorems show that no execution reaches the difference. *)

From S2P Require Import Prelude Uint256 Params Stack.

(** [l[lo:hi]]: [None] is the bounds panic. *)
Definition go_slice {A} (l : list A) (lo hi : Z) : option (list A) :=
  if (0 <=? lo) && (lo <=? hi) && (hi <=? zlen l) then Some (slice l lo hi) else None.

(** [copy(l[lo:hi], v)]. *)
Definition go_copy (l : bytes) (lo hi : Z) (v : bytes) : option bytes :=
  if (0 <=? lo) && (lo <=? hi) && (hi <=? zlen l)
  then Some (overwrite l lo (take (Z.to_nat (hi - lo)) v)) else None.

Module memory.

Record Memory : Type := mkMemory { store : bytes; lastGasCost : Z }.

Definition NewMemory : Memory := mkMemory [] 0.

Section Memory.
Context {U : Uint256}.

Definition Len (m : Memory) : Z := zlen (store m).

Definition set_store (v : bytes) (m : Memory) : Memory := mkMemory v (lastGasCost m).
Definition set_lastGasCost (v : Z) (m : Memory) : Memory := mkMemory (store m) v.

Definition Set_ (offset size : Z) (value : bytes) : M Memory () :=
  if 0 <? size then
    m ← get;
    if Len m <? u64 (offset + size) then panic else
    s ← must (go_copy (store m) offset (u64 (offset + size)) value);
    modify (set_store s)
  else mret ().

Definition zeroes : bytes := replicate (Z.to_nat 16384) 0.

Definition Set32 (offset : Z) (val : Z) : M Memory () :=
  m ← get;
  if Len m <? u64 (offset + 32) then panic else
  s1 ← must (go_copy (store m) offset (u64 (offset + 32)) zeroes);
  s2 ← must (go_copy s1 offset (u64 (offset + 32)) (uint256.WriteToSlice val 32));
  modify (set_store s2).

Definition Resize (size : Z) : M Memory () :=
  m ← get;
  let l := i64 (i64 size - Len m) in
  if l <=? 0 then mret () else
  if 16384 <=? l
  then modify (fun m => set_store (store m ++ replicate (Z.to_nat l) 0) m)
  else modify (fun m => set_store (store m ++ take (Z.to_nat l) zeroes) m).

Definition Reset : M Memory () := modify (fun _ => mkMemory [] 0).

Definition GetCopy (offset size : Z) : M Memory bytes :=
  if size =? 0 then mret [] else
  m ← get;
  if offset <? Len m then
    if (size <? 0) || (offset <? 0) then panic
    else mret (overwrite (replicate (Z.to_nat size) 0) 0
                 (take (Z.to_nat size) (drop (Z.to_nat offset) (store m))))
  else mret [].

Definition GetPtr (offset size : Z) : M Memory bytes :=
  if size =? 0 then mret [] else
  m ← get;
  if offset <? Len m then must (go_slice (store m) offset (offset + size)) else mret [].

End Memory.
End memory.

(** ** [common.go] *)

Section Common.
Context {U : Uint256}.

Definition calcMemSize64WithUint (off : Z) (length64 : Z) : Z * bool :=
  if length64 =? 0 then (0, false) else
  let '(offset64, overflow) := uint256.Uint64WithOverflow off in
  if overflow : bool then (0, true) else
  let val := u64 (offset64 + length64) in
  (val, val <? offset64).

Definition calcMemSize64 (off l : Z) : Z * bool :=
  if negb (uint256.IsUint64 l) then (0, true)
  else calcMemSize64WithUint off (uint256.Uint64 l).

Definition getData (data : bytes) (start size : Z) : option bytes :=
  let length := zlen data in
  let start := if length <? start then length else start in
  let end_ := u64 (start + size) in
  let end_ := if length <? end_ then length else end_ in
  d ← go_slice data start end_;
  mret (RightPadBytes d (i64 size)).

Definition getDataBig (data : bytes) (start : Z) (size : Z) : option bytes :=
  let '(start64, overflow) := uint256.Uint64WithOverflow start in
  let start64 := if overflow : bool then MaxUint64 else start64 in
  getData data start64 size.

Definition ToWordSize (size : Z) : Z :=
  if MaxUint64 - 31 <? size then MaxUint64 / 32 + 1 else u64 (size + 31) / 32.

Fixpoint allZero (b : bytes) : bool :=
  match b with
  | [] => true
  | x :: b' => if negb (x =? 0) then false else allZero b'
  end.

End Common.

(** ** [memory_table.go] *)

Section MemoryTable.
Context {U : Uint256}.

Definition memorySizeFunc : Type := M stack.Stack (Z * bool).

Definition memoryBack (off l : Z) : memorySizeFunc :=
  o ← stack.Back off; n ← stack.Back l; mret (calcMemSize64 o n).

Definition memoryBackUint (off l : Z) : memorySizeFunc :=
  o ← stack.Back off; mret (calcMemSize64WithUint o l).

Definition memoryKeccak256 : memorySizeFunc := memoryBack 0 1.
Definition memoryCallDataCopy : memorySizeFunc := memoryBack 0 2.
Definition memoryReturnDataCopy : memorySizeFunc := memoryBack 0 2.
Definition memoryCodeCopy : memorySizeFunc := memoryBack 0 2.
Definition memoryExtCodeCopy : memorySizeFunc := memoryBack 1 3.
Definition memoryMLoad : memorySizeFunc := memoryBackUint 0 32.
Definition memoryMStore8 : memorySizeFunc := memoryBackUint 0 1.
Definition memoryMStore : memorySizeFunc := memoryBackUint 0 32.
Definition memoryCreate : memorySizeFunc := memoryBack 1 2.
Definition memoryCreate2 : memorySizeFunc := memoryBack 1 2.

(** The larger of two areas: the shape of the three call variants. *)
Definition memoryMax (x y : memorySizeFunc) : memorySizeFunc :=
  '(x, overflow) ← x;
  if overflow : bool then mret (0, true) else
  '(y, overflow) ← y;
  if overflow : bool then mret (0, true) else
  if y <? x then mret (x, false) else mret (y, false).

Definition memoryCall : memorySizeFunc := memoryMax (memoryBack 5 6) (memoryBack 3 4).
Definition memoryDelegateCall : memorySizeFunc := memoryMax (memoryBack 4 5) (memoryBack 2 3).
Definition memoryStaticCall : memorySizeFunc := memoryMax (memoryBack 4 5) (memoryBack 2 3).
Definition memoryReturn : memorySizeFunc := memoryBack 0 1.
Definition memoryRevert : memorySizeFunc := memoryBack 0 1.
Definition memoryLog : memorySizeFunc := memoryBack 0 1.

End MemoryTable.

(** ** Facts *)

Lemma go_slice_Some {A} (l : list A) lo hi :
  0 <= lo <= hi -> hi <= zlen l -> go_slice l lo hi = Some (slice l lo hi).
Proof.
  intros H1 H2. unfold go_slice.
  destruct (Z.leb_spec 0 lo), (Z.leb_spec lo hi), (Z.leb_spec hi (zlen l)); try lia; done.
Qed.

Lemma go_copy_Some l lo hi v :
  0 <= lo <= hi -> hi <= zlen l ->
  go_copy l lo hi v = Some (overwrite l lo (take (Z.to_nat (hi - lo)) v)).
Proof.
  intros H1 H2. unfold go_copy.
  destruct (Z.leb_spec 0 lo), (Z.leb_spec lo hi), (Z.leb_spec hi (zlen l)); try lia; done.
Qed.

(** A byte slice read as an unbounded, zero-extended sequence: the abstract
    memory of the EVM. *)
Definition byte_at (bs : bytes) (i : Z) : Z := default 0 (znth bs i).

Lemma byte_at_out bs i : zlen bs <= i -> byte_at bs i = 0.
Proof.
  intros H. unfold byte_at, znth. destruct (i <? 0); [done|].
  rewrite lookup_ge_None_2; [done|]. unfold zlen in H. lia.
Qed.

Lemma byte_at_app_zero bs n i : byte_at (bs ++ replicate n 0) i = byte_at bs i.
Proof.
  unfold byte_at, znth. destruct (i <? 0); [done|].
  rewrite lookup_app. destruct (bs !! Z.to_nat i) eqn:E; [done|]. cbn.
  destruct (decide (Z.to_nat i - length bs < n)%nat) as [Hl|Hl].
  - by rewrite lookup_replicate_2.
  - rewrite lookup_ge_None_2; [done|]. rewrite length_replicate. lia.
Qed.

Lemma byte_at_slice bs lo hi i :
  0 <= lo -> byte_at (slice bs lo hi) i =
    if (0 <=? i) && (i <? hi - lo) then byte_at bs (lo + i) else 0.
Proof.
  intros Hlo. unfold byte_at, znth, slice.
  destruct (Z.leb_spec 0 i); cbn; [|by rewrite (proj2 (Z.ltb_lt i 0)) by lia].
  rewrite (proj2 (Z.ltb_ge i 0)) by lia.
  destruct (Z.ltb_spec i (hi - lo)); cbn.
  - rewrite (proj2 (Z.ltb_ge (lo + i) 0)) by lia.
    rewrite lookup_take_lt by lia. rewrite lookup_drop. do 2 f_equal. lia.
  - by rewrite lookup_take_ge by lia.
Qed.

Lemma byte_at_overwrite bs off v i :
  0 <= off -> off + zlen v <= zlen bs ->
  byte_at (overwrite bs off v) i =
    if (off <=? i) && (i <? off + zlen v) then byte_at v (i - off) else byte_at bs i.
Proof.
  intros H1 H2. destruct (Z.leb_spec off i), (Z.ltb_spec i (off + zlen v)); cbn.
  2-4: unfold byte_at, znth; destruct (Z.ltb_spec i 0); [done|];
       rewrite overwrite_lookup_out by (try done; lia); done.
  unfold byte_at, znth, overwrite. destruct (Z.ltb_spec i 0), (Z.ltb_spec (i - off) 0); try lia.
  rewrite lookup_app_r by zlen_lia. rewrite lookup_app_l by zlen_lia.
  do 2 f_equal. zlen_lia.
Qed.

(** Two slices of the same length with the same bytes are equal. *)
Lemma bytes_ext (a b : bytes) :
  length a = length b -> (forall i, 0 <= i < zlen a -> byte_at a i = byte_at b i) -> a = b.
Proof.
  intros Hl H. apply list_eq_same_length with (length a); [done..|].
  intros i x y Hi Hx Hy. specialize (H (Z.of_nat i)).
  unfold byte_at, znth, zlen in H.
  destruct (Z.ltb_spec (Z.of_nat i) 0); [lia|].
  rewrite Nat2Z.id, Hx, Hy in H. apply H. lia.
Qed.

Section Facts.
Context {U : Uint256} {UL : Uint256Laws U}.

Lemma Resize_run m size :
  0 <= size < two63 -> zlen (memory.store m) < two63 ->
  memory.Resize size m =
    Done ((), memory.set_store
                (memory.store m ++ replicate (Z.to_nat (size - zlen (memory.store m))) 0) m).
Proof.
  intros Hs Hm. unfold memory.Resize, mbind, M_bind, get, memory.Len.
  pose proof (zlen_nonneg (memory.store m)).
  rewrite (i64_small size) by lia. rewrite i64_small by lia.
  destruct (Z.leb_spec (size - zlen (memory.store m)) 0).
  - rewrite Z2Nat.nonpos by lia. cbn. rewrite app_nil_r. by destruct m.
  - destruct (Z.leb_spec 16384 (size - zlen (memory.store m))); [done|].
    unfold modify, memory.zeroes. rewrite take_replicate. do 5 f_equal. lia.
Qed.

Lemma Set_run m offset size value :
  0 <= offset -> 0 < size -> offset + size <= zlen (memory.store m) ->
  zlen (memory.store m) < two64 ->
  memory.Set_ offset size value m =
    Done ((), memory.set_store
                (overwrite (memory.store m) offset (take (Z.to_nat size) value)) m).
Proof.
  intros Ho Hs Hl Hm. unfold memory.Set_. destruct (Z.ltb_spec 0 size); [|lia].
  unfold mbind, M_bind, get, memory.Len. rewrite u64_small by lia.
  destruct (Z.ltb_spec (zlen (memory.store m)) (offset + size)); [lia|].
  rewrite go_copy_Some by lia. cbn. unfold modify. do 4 f_equal. f_equal. lia.
Qed.

Lemma overwrite_twice {A} (l : list A) off v w :
  0 <= off -> off + zlen v <= zlen l -> length v = length w ->
  overwrite (overwrite l off v) off w = overwrite l off w.
Proof.
  intros H1 H2 H3. unfold overwrite.
  rewrite take_app_le by zlen_lia. rewrite take_take, Nat.min_id. f_equal. f_equal.
  rewrite drop_app_ge by zlen_lia. rewrite drop_app_ge by zlen_lia.
  rewrite drop_drop. f_equal. zlen_lia.
Qed.

Lemma Set32_run m offset val :
  0 <= offset -> offset + 32 <= zlen (memory.store m) ->
  zlen (memory.store m) < two64 -> word val ->
  memory.Set32 offset val m =
    Done ((), memory.set_store (overwrite (memory.store m) offset (Z_to_be 32 val)) m).
Proof.
  intros Ho Hl Hm Hv. unfold memory.Set32.
  unfold mbind, M_bind, get, memory.Len. rewrite u64_small by lia.
  destruct (Z.ltb_spec (zlen (memory.store m)) (offset + 32)); [lia|].
  rewrite go_copy_Some by lia. cbn [must mret M_ret].
  replace (Z.to_nat (offset + 32 - offset)) with 32%nat by lia.
  assert (length (take 32 memory.zeroes) = 32%nat) as Hz.
  { rewrite length_take. unfold memory.zeroes. rewrite length_replicate. lia. }
  assert (zlen (overwrite (memory.store m) offset (take 32 memory.zeroes)) = zlen (memory.store m)).
  { apply overwrite_length; [lia|]. unfold zlen at 1. rewrite Hz. lia. }
  rewrite go_copy_Some by lia. cbn [must mret M_ret].
  replace (Z.to_nat (offset + 32 - offset)) with 32%nat by lia.
  rewrite uint256.WriteToSlice_spec by done.
  rewrite (take_ge (Z_to_be 32 val)) by (rewrite Z_to_be_length; lia).
  rewrite overwrite_twice; [done|lia| |].
  - unfold zlen at 1. rewrite Hz. lia.
  - by rewrite Hz, Z_to_be_length.
Qed.

Lemma GetPtr_run m offset size :
  0 <= offset -> 0 <= size -> (size = 0 \/ offset + size <= zlen (memory.store m)) ->
  memory.GetPtr offset size m = Done (slice (memory.store m) offset (offset + size), m).
Proof.
  intros Ho Hs Hl. unfold memory.GetPtr. destruct (Z.eqb_spec size 0).
  - subst. unfold slice. by replace (Z.to_nat (offset + 0 - offset)) with 0%nat by lia.
  - unfold mbind, M_bind, get, memory.Len.
    destruct (Z.ltb_spec offset (zlen (memory.store m))); [|lia].
    by rewrite go_slice_Some by lia.
Qed.

Lemma GetCopy_run m offset size :
  0 <= offset -> 0 <= size -> (size = 0 \/ offset + size <= zlen (memory.store m)) ->
  memory.GetCopy offset size m = Done (slice (memory.store m) offset (offset + size), m).
Proof.
  intros Ho Hs Hl. unfold memory.GetCopy. destruct (Z.eqb_spec size 0).
  - subst. unfold slice. by replace (Z.to_nat (offset + 0 - offset)) with 0%nat by lia.
  - unfold mbind, M_bind, get, memory.Len.
    destruct (Z.ltb_spec offset (zlen (memory.store m))); [|lia].
    destruct (Z.ltb_spec size 0), (Z.ltb_spec offset 0); try lia. cbn.
    unfold mret, M_ret. do 2 f_equal. unfold slice, overwrite.
    change (Z.to_nat 0) with 0%nat. cbn [take app].
    replace (offset + size - offset) with size by lia.
    rewrite (drop_ge (replicate _ _)) by zlen_lia. by rewrite app_nil_r.
Qed.

(** The exact size an access needs, when it fits 64 bits. *)
Definition access_size (off l : Z) : Z := if l =? 0 then 0 else off + l.

Lemma calcMemSize64_spec off l :
  word off -> word l ->
  if two64 <=? access_size off l
  then (calcMemSize64 off l).2 = true
  else calcMemSize64 off l = (access_size off l, false).
Proof.
  intros Ho Hl. unfold calcMemSize64, access_size. rewrite uint256.IsUint64_spec by done.
  unfold word in *.
  destruct (Z.ltb_spec l two64); cbn.
  2:{ destruct (Z.eqb_spec l 0); [lia|]. destruct (Z.leb_spec two64 (off + l)); [done|lia]. }
  rewrite uint256.Uint64_spec by done. rewrite (u64_small l) by lia.
  unfold calcMemSize64WithUint.
  destruct (Z.eqb_spec l 0); [done|].
  rewrite uint256.Uint64WithOverflow_spec by done.
  destruct (Z.leb_spec two64 off); cbn.
  { destruct (Z.leb_spec two64 (off + l)); [done|lia]. }
  rewrite (u64_small off) by lia.
  pose proof (u64_add_overflow off l ltac:(lia) ltac:(lia)).
  destruct (Z.leb_spec two64 (off + l)); [apply Z.ltb_lt; lia|].
  rewrite u64_small by lia. f_equal. apply Z.ltb_ge. lia.
Qed.

Lemma calcMemSize64_ok off l v :
  word off -> word l -> calcMemSize64 off l = (v, false) ->
  v = access_size off l /\ 0 <= v < two64.
Proof.
  intros Ho Hl E. pose proof (calcMemSize64_spec off l Ho Hl) as H.
  destruct (Z.leb_spec two64 (access_size off l)); [by rewrite E in H|].
  rewrite E in H. injection H as ->. split; [done|].
  unfold access_size, word in *. destruct (l =? 0); lia.
Qed.

Lemma calcMemSize64WithUint_ok off n v :
  word off -> 0 < n < two64 -> calcMemSize64WithUint off n = (v, false) ->
  v = off + n /\ 0 <= v < two64.
Proof.
  intros Ho Hn E. apply (calcMemSize64_ok off n v) in Ho; [|unfold word; lia|].
  - destruct Ho as [-> ?]. unfold access_size in *. destruct (Z.eqb_spec n 0); lia.
  - unfold calcMemSize64. rewrite uint256.IsUint64_spec, uint256.Uint64_spec by (unfold word; lia).
    rewrite u64_small by lia. destruct (Z.ltb_spec n two64); [done|lia].
Qed.

Lemma ToWordSize_spec size :
  0 <= size < two64 -> ToWordSize size = (size + 31) / 32 /\ 0 <= ToWordSize size <= 2 ^ 59.
Proof.
  intros H. unfold ToWordSize, MaxUint64. zbool.
  - change ((two64 - 1) / 32 + 1) with (2 ^ 59). split; [|lia].
    apply Z.div_unique with (size + 31 - 32 * 2 ^ 59); lia.
  - rewrite u64_small by lia. split; [done|]. split; [apply Z.div_pos; lia|].
    apply Z.div_le_upper_bound; lia.
Qed.

Lemma getData_spec data start size :
  0 <= start -> 0 <= size < two63 -> zlen data < two63 ->
  exists r, getData data start size = Some r /\ zlen r = size /\
    forall i, 0 <= i < size -> byte_at r i = byte_at data (start + i).
Proof.
  intros Hs Hn Hd. unfold getData. pose proof (zlen_nonneg data).
  set (st := if zlen data <? start then zlen data else start).
  assert (0 <= st <= zlen data /\ (st = start \/ (st = zlen data /\ zlen data < start))) as [Hst Hst'].
  { subst st. zbool; lia. }
  rewrite u64_small by lia.
  set (e := if zlen data <? st + size then zlen data else st + size).
  assert (st <= e <= zlen data /\ e = Z.min (zlen data) (st + size)) as [He He'].
  { subst e. zbool; lia. }
  rewrite go_slice_Some by lia. cbn. eexists; split; [done|].
  rewrite i64_small by lia. split.
  - rewrite RightPadBytes_length by lia. rewrite slice_length by lia. lia.
  - intros i Hi. unfold RightPadBytes.
    assert (byte_at (slice data st e) i = byte_at data (start + i)) as Hb.
    { rewrite byte_at_slice by lia.
      destruct (Z.leb_spec 0 i); [|lia]. destruct (Z.ltb_spec i (e - st)); cbn.
      - f_equal. lia.
      - symmetry. apply byte_at_out. lia. }
    destruct (size <=? zlen (slice data st e)); [done|].
    by rewrite byte_at_app_zero.
Qed.

End Facts.

(** ** Properties *)

Section Properties.
Context {U : Uint256} {UL : Uint256Laws U}.

(** A store into memory that was resized for it does what the abstract,
    zero-extended memory prescribes: the call does not panic, the written bytes
    are read back by [GetPtr] and [GetCopy], every other byte keeps its value
    (bytes beyond the old length read as zero before and after), and the length
    becomes the larger of the old length and the requested size. *)
Theorem memory_write_read m off n v size :
  0 <= off -> 0 < n -> off + n <= size < two63 ->
  zlen (memory.store m) < two63 -> zlen v = n ->
  exists m', (memory.Resize size ≫= fun _ => memory.Set_ off n v) m = Done ((), m') /\
    memory.GetPtr off n m' = Done (v, m') /\
    memory.GetCopy off n m' = Done (v, m') /\
    memory.Len m' = Z.max (memory.Len m) size /\
    forall i, byte_at (memory.store m') i =
      if (off <=? i) && (i <? off + n) then byte_at v (i - off)
      else byte_at (memory.store m) i.
Proof.
  intros Ho Hn Hs Hm Hv. pose proof (zlen_nonneg (memory.store m)).
  unfold mbind, M_bind. rewrite Resize_run by lia.
  set (st := memory.store m ++ replicate (Z.to_nat (size - zlen (memory.store m))) 0).
  assert (zlen st = Z.max (zlen (memory.store m)) size) as Hst by (subst st; zlen_lia).
  rewrite Set_run by (cbn; lia). cbn [memory.set_store memory.store memory.lastGasCost].
  rewrite (take_ge v) by zlen_lia.
  eexists; split; [done|].
  assert (zlen (overwrite st off v) = zlen st) as Hw by (apply overwrite_length; lia).
  assert (slice (overwrite st off v) off (off + n) = v) as Hsl.
  { rewrite <- Hv. apply overwrite_slice; lia. }
  rewrite GetPtr_run, GetCopy_run by (cbn; lia). cbn. rewrite Hsl.
  split_and!; [done..| |].
  - unfold memory.Len. cbn. lia.
  - intros i. rewrite byte_at_overwrite by lia. rewrite Hv.
    destruct (_ && _); [done|]. apply byte_at_app_zero.
Qed.

(** The memory size an instruction asks for is exact: [calcMemSize64] reports
    an overflow exactly when offset plus length does not fit 64 bits, and
    otherwise returns the sum, or zero for an empty area at any offset. *)
Theorem calcMemSize64_exact off l :
  word off -> word l ->
  (calcMemSize64 off l = (if l =? 0 then 0 else off + l, false)
     /\ (l = 0 \/ off + l < two64))
  \/ ((calcMemSize64 off l).2 = true /\ l <> 0 /\ two64 <= off + l).
Proof.
  intros Ho Hl. pose proof (calcMemSize64_spec off l Ho Hl) as H.
  unfold access_size in H. destruct (Z.eqb_spec l 0).
  - left. split; [exact H | by left].
  - destruct (Z.leb_spec two64 (off + l)); [by right | left; auto].
Qed.

(** [getData] is a zero-padded read: for any start offset and any size below
    2^63 it returns exactly [size] bytes, the [i]-th being the byte at
    [start + i] of the data, or zero past its end. *)
Theorem getData_padded data start size :
  0 <= start -> 0 <= size < two63 -> zlen data < two63 ->
  exists r, getData data start size = Some r /\ zlen r = size /\
    forall i, 0 <= i < size -> byte_at r i = byte_at data (start + i).
Proof. apply getData_spec. Qed.

(** [getData] is not safe for every size although its comment says it is:
    when [start + size] wraps around 64 bits the end falls before the start and
    the slice expression panics. *)
Theorem getData_overflow_panics data start size :
  0 <= start <= zlen data -> two64 - start <= size < two64 -> zlen data < two64 ->
  getData data start size = None.
Proof.
  intros Hs Hn Hd. unfold getData. destruct (Z.ltb_spec (zlen data) start); [lia|].
  assert (u64 (start + size) = start + size - two64) as ->.
  { unfold u64. symmetry. apply (Z.mod_unique _ _ 1); lia. }
  destruct (Z.ltb_spec (zlen data) (start + size - two64)); [lia|].
  unfold go_slice. destruct (Z.leb_spec start (start + size - two64)); [lia|].
  by rewrite andb_false_r.
Qed.

(** [ToWordSize] rounds up to whole words for every 64-bit size, the sizes
    within 31 of the maximum included, where the plain sum would wrap. *)
Theorem ToWordSize_exact size :
  0 <= size < two64 -> 32 * (ToWordSize size - 1) < size <= 32 * ToWordSize size.
Proof.
  intros H. destruct (ToWordSize_spec size H) as [-> _].
  pose proof (Z.div_mod (size + 31) 32 ltac:(lia)).
  pose proof (Z.mod_pos_bound (size + 31) 32 ltac:(lia)). lia.
Qed.

End Properties.

(** ** Witnesses *)

Lemma memory_write_read_witness : exists m',
  (memory.Resize 64 ≫= fun _ => memory.Set_ 3 2 [7; 8]) memory.NewMemory = Done ((), m')
  /\ memory.Len m' = 64.
Proof.
  destruct (memory_write_read memory.NewMemory 3 2 [7; 8] 64) as (m' & H & _ & _ & Hl & _);
    [lia | lia | lia | reflexivity | reflexivity |].
  exists m'. split; [exact H | exact Hl].
Defined.

Lemma calcMemSize64_exact_witness :
  word (two64 - 1) /\ word 2 /\
  (calcMemSize64 (U := ref_uint256) (two64 - 1) 2).2 = true.
Proof.
  split; [done|]. split; [done|].
  destruct (calcMemSize64_exact (U := ref_uint256) (UL := uint256.ref_uint256_laws)
              (two64 - 1) 2) as [[H _]|[H _]];
    [done | done | discriminate H | exact H].
Defined.

Lemma getData_padded_witness : exists r, getData [1; 2; 3] 2 4 = Some r /\ byte_at r 0 = 3.
Proof.
  destruct (getData_padded [1; 2; 3] 2 4) as (r & H & _ & Hb); [lia | lia | reflexivity |].
  exists r. split; [exact H | exact (Hb 0 ltac:(lia))].
Defined.

Lemma getData_overflow_panics_witness : getData [1; 2; 3; 4; 5] 3 MaxUint64 = None.
Proof. apply getData_overflow_panics; vm_compute; split; congruence. Defined.

Lemma ToWordSize_exact_witness : 32 * (ToWordSize MaxUint64 - 1) < MaxUint64.
Proof. apply (ToWordSize_exact MaxUint64). vm_compute. split; congruence. Defined.
