(* ===== verification/Analysis.v ===== *)
(** * Jump destination analysis ([internal/vm/analysis.go])

    [codeBitmap] marks the positions of a contract's code that are data of a
    PUSH instruction, in an array of 64-bit words.  The reference definition
    [push_data] reads the code from left to right; the theorem is that the
    packed bitmap agrees with it on every position and that no array access of
    the loop is out of range. *)

From S2P Require Import Prelude Uint256 Params.

Definition PUSH1 : Z := 96.
Definition PUSH32 : Z := 127.
Definition JUMPDEST : Z := 91.

(** The loop of [codeBitmap], from position [pc].  Each turn consumes at least
    one byte, so [length code] turns are enough. *)
Fixpoint codeBitmap_loop (fuel : nat) (code : bytes) (pc : Z) (bits : list Z) : outcome (list Z) :=
  if zlen code <=? pc then Done bits else
  match fuel with
  | O => NoFuel
  | S fuel =>
      match znth code pc with
      | None => GoPanic
      | Some op =>
          let pc := pc + 1 in
          if (PUSH1 <=? op) && (op <=? PUSH32) then
            let numbits := op - PUSH1 + 1 in
            let x := u64 (Z.shiftl 1 (op - PUSH1)) in
            let x := Z.lor x (u64 (x - 1)) in
            let idx := pc / 64 in
            let shift := Z.land pc 63 in
            match znth bits idx with
            | None => GoPanic
            | Some w =>
                match zset bits idx (Z.lor w (u64 (Z.shiftl x shift))) with
                | None => GoPanic
                | Some bits =>
                    if 64 <? shift + shift then
                      match znth bits (idx + 1) with
                      | None => GoPanic
                      | Some w' =>
                          match zset bits (idx + 1) (Z.lor w' (Z.shiftr x (64 - shift))) with
                          | None => GoPanic
                          | Some bits => codeBitmap_loop fuel code (pc + numbits) bits
                          end
                      end
                    else codeBitmap_loop fuel code (pc + numbits) bits
                end
            end
          else codeBitmap_loop fuel code pc bits
      end
  end.

Definition codeBitmap (code : bytes) : outcome (list Z) :=
  codeBitmap_loop (length code) code 0
    (replicate (Z.to_nat ((zlen code + 32 + 63) / 64)) 0).

(** [isCodeFromAnalysis] of [contract.go]; [None] is the index panic. *)
Definition isCodeFromAnalysis (analysis : list Z) (udest : Z) : option bool :=
  w ← znth analysis (udest / 64);
  mret (Z.land w (u64 (Z.shiftl 1 (Z.land udest 63))) =? 0).

(** ** Reference *)

(** The number of immediate bytes of an opcode. *)
Definition push_size (op : Z) : nat :=
  if (PUSH1 <=? op) && (op <=? PUSH32) then Z.to_nat (op - PUSH1 + 1) else 0.

(** For every position, whether it is PUSH data; [skip] immediate bytes are
    still to come. *)
Fixpoint push_data (skip : nat) (code : bytes) : list bool :=
  match code with
  | [] => []
  | op :: code' =>
      match skip with
      | S k => true :: push_data k code'
      | O => false :: push_data (push_size op) code'
      end
  end.

Definition is_push_data (code : bytes) (i : Z) : bool :=
  default false (znth (push_data 0 code) i).

(** ** The packed bitmap *)

Definition getbit (bits : list Z) (i : Z) : bool :=
  Z.testbit (default 0 (znth bits (i / 64))) (i mod 64).

Lemma land63 z : Z.land z 63 = z mod 64.
Proof. change 63 with (Z.ones 6). rewrite Z.land_ones by lia. done. Qed.

Lemma smear op : PUSH1 <= op <= PUSH32 ->
  Z.lor (u64 (Z.shiftl 1 (op - PUSH1))) (u64 (u64 (Z.shiftl 1 (op - PUSH1)) - 1))
  = Z.ones (op - PUSH1 + 1).
Proof.
  unfold PUSH1, PUSH32. intros H. set (k := op - 96).
  assert (0 <= k <= 31) as Hk by lia. rewrite Z.shiftl_1_l.
  assert (1 <= 2 ^ k <= 2 ^ 31) as Hp.
  { split; [change 1 with (2 ^ 0) | idtac]; apply Z.pow_le_mono_r; lia. }
  rewrite (u64_small (2 ^ k)) by lia. rewrite u64_small by lia.
  replace (2 ^ k - 1) with (Z.ones k) by (rewrite Z.ones_equiv; lia).
  apply Z.bits_inj'. intros n Hn. rewrite Z.lor_spec, Z.pow2_bits_eqb by lia.
  rewrite !Z.testbit_ones_nonneg by lia.
  destruct (Z.eqb_spec k n), (Z.ltb_spec n k), (Z.ltb_spec n (k + 1)); try lia; done.
Qed.

Lemma getbit_or bits bits' idx w v i :
  znth bits idx = Some w -> zset bits idx (Z.lor w v) = Some bits' ->
  getbit bits' i = getbit bits i || ((i / 64 =? idx) && Z.testbit v (i mod 64)).
Proof.
  intros Hw Hs. unfold getbit. rewrite (znth_zset _ _ _ _ (i / 64) Hs).
  destruct (Z.eqb_spec (i / 64) idx) as [->|]; cbn.
  - by rewrite Hw, Z.lor_spec.
  - by rewrite orb_false_r.
Qed.

Lemma testbit_u64 z i : 0 <= i < 64 -> Z.testbit (u64 z) i = Z.testbit z i.
Proof. intros H. unfold u64. change two64 with (2 ^ 64). apply Z.mod_pow2_bits_low. lia. Qed.

(** The two words a PUSH can touch, as one range of bits. *)
Lemma smear_low n pc i : 1 <= n <= 32 -> 0 <= i -> 0 <= pc ->
  (i / 64 =? pc / 64) && Z.testbit (u64 (Z.shiftl (Z.ones n) (pc mod 64))) (i mod 64)
  = (i / 64 =? pc / 64) && ((pc <=? i) && (i <? pc + n)).
Proof.
  intros Hn Hi Hpc. destruct (Z.eqb_spec (i / 64) (pc / 64)) as [E|]; [|done]. cbn [andb].
  pose proof (Z.div_mod i 64 ltac:(lia)). pose proof (Z.div_mod pc 64 ltac:(lia)).
  pose proof (Z.mod_pos_bound i 64 ltac:(lia)). pose proof (Z.mod_pos_bound pc 64 ltac:(lia)).
  rewrite testbit_u64 by lia. rewrite Z.shiftl_spec by lia.
  destruct (Z_lt_ge_dec (i mod 64) (pc mod 64)).
  - rewrite Z.testbit_neg_r by lia.
    destruct (Z.leb_spec pc i); [lia|done].
  - rewrite Z.testbit_ones_nonneg by lia.
    destruct (Z.leb_spec pc i), (Z.ltb_spec i (pc + n)), (Z.ltb_spec (i mod 64 - pc mod 64) n); try lia; done.
Qed.

Lemma smear_high n pc i : 1 <= n <= 32 -> 0 <= i -> 0 <= pc ->
  (i / 64 =? pc / 64 + 1) && Z.testbit (Z.shiftr (Z.ones n) (64 - pc mod 64)) (i mod 64)
  = (i / 64 =? pc / 64 + 1) && ((pc <=? i) && (i <? pc + n)).
Proof.
  intros Hn Hi Hpc. destruct (Z.eqb_spec (i / 64) (pc / 64 + 1)) as [E|]; [|done]. cbn [andb].
  pose proof (Z.div_mod i 64 ltac:(lia)). pose proof (Z.div_mod pc 64 ltac:(lia)).
  pose proof (Z.mod_pos_bound i 64 ltac:(lia)). pose proof (Z.mod_pos_bound pc 64 ltac:(lia)).
  rewrite Z.shiftr_spec by lia. rewrite Z.testbit_ones_nonneg by lia.
  destruct (Z.leb_spec pc i), (Z.ltb_spec i (pc + n)),
    (Z.ltb_spec (i mod 64 + (64 - pc mod 64)) n); try lia; done.
Qed.

(** Which word a marked position lies in. *)
Lemma range_words n pc i : 1 <= n <= 32 -> 0 <= i -> 0 <= pc ->
  (pc <=? i) && (i <? pc + n) = true ->
  i / 64 = pc / 64 \/ (i / 64 = pc / 64 + 1 /\ 64 < pc mod 64 + pc mod 64).
Proof.
  intros Hn Hi Hpc [H1%Z.leb_le H2%Z.ltb_lt]%andb_prop.
  pose proof (Z.div_mod i 64 ltac:(lia)). pose proof (Z.div_mod pc 64 ltac:(lia)).
  pose proof (Z.mod_pos_bound i 64 ltac:(lia)). pose proof (Z.mod_pos_bound pc 64 ltac:(lia)). lia.
Qed.

Lemma push_data_skip k code :
  push_data k code = replicate (k `min` length code) true ++ push_data 0 (drop k code).
Proof.
  revert k; induction code as [|op code IH]; intros [|k]; try done.
  cbn. f_equal. apply IH.
Qed.

Lemma push_data_length k code : length (push_data k code) = length code.
Proof. revert k; induction code as [|op code IH]; intros [|k]; cbn; auto. Qed.

(** The marks contributed by the code from an instruction start [pc] on. *)
Definition data_from (code : bytes) (pc i : Z) : bool :=
  if i <? pc then false else is_push_data (drop (Z.to_nat pc) code) (i - pc).

Lemma data_from_step code pc op i :
  0 <= pc -> znth code pc = Some op -> 0 <= i < zlen code ->
  data_from code pc i =
    ((pc + 1 <=? i) && (i <? pc + 1 + Z.of_nat (push_size op)))
    || data_from code (pc + 1 + Z.of_nat (push_size op)) i.
Proof.
  intros Hpc Hop Hi. unfold znth in Hop. destruct (Z.ltb_spec pc 0); [lia|].
  unfold data_from, is_push_data.
  rewrite (drop_S code op (Z.to_nat pc)) by done. cbn [push_data].
  rewrite push_data_skip, drop_drop. set (n := push_size op).
  replace (S (Z.to_nat pc) + n)%nat with (Z.to_nat (pc + 1 + Z.of_nat n)) by lia.
  unfold znth.
  destruct (Z.ltb_spec i pc), (Z.leb_spec (pc + 1) i), (Z.ltb_spec i (pc + 1 + Z.of_nat n)),
    (Z.ltb_spec (i - pc) 0); try lia; try done; cbn [andb orb].
  - replace (Z.to_nat (i - pc)) with (S (Z.to_nat (i - pc - 1))) by lia. rewrite lookup_cons. cbn match.
    rewrite lookup_app_l by (rewrite length_replicate; zlen_lia).
    by rewrite lookup_replicate_2 by zlen_lia.
  - destruct (Z.ltb_spec (i - (pc + 1 + Z.of_nat n)) 0); [lia|].
    replace (Z.to_nat (i - pc)) with (S (Z.to_nat (i - pc - 1))) by lia. rewrite lookup_cons. cbn match.
    rewrite lookup_app_r by (rewrite length_replicate; zlen_lia).
    rewrite length_replicate. f_equal. f_equal. zlen_lia.
  - by replace (Z.to_nat (i - pc)) with 0%nat by lia.
Qed.

Lemma push_size_spec op :
  (PUSH1 <=? op) && (op <=? PUSH32) = true ->
  PUSH1 <= op <= PUSH32 /\ Z.of_nat (push_size op) = op - PUSH1 + 1 /\
  1 <= op - PUSH1 + 1 <= 32.
Proof.
  intros H. unfold push_size. rewrite H.
  apply andb_prop in H as [H1%Z.leb_le H2%Z.leb_le]. unfold PUSH1, PUSH32 in *. lia.
Qed.

(** One PUSH marks exactly its immediate bytes. *)
Lemma mark_bits bits b1 b2 n pc w (w' : Z) i :
  1 <= n <= 32 -> 0 <= i -> 0 <= pc ->
  znth bits (pc / 64) = Some w ->
  zset bits (pc / 64) (Z.lor w (u64 (Z.shiftl (Z.ones n) (pc mod 64)))) = Some b1 ->
  (if 64 <? pc mod 64 + pc mod 64
   then znth b1 (pc / 64 + 1) = Some w' /\
        zset b1 (pc / 64 + 1) (Z.lor w' (Z.shiftr (Z.ones n) (64 - pc mod 64))) = Some b2
   else b2 = b1) ->
  getbit b2 i = getbit bits i || ((pc <=? i) && (i <? pc + n)).
Proof.
  intros Hn Hi Hpc Hw H1 H2. pose proof (getbit_or _ _ _ _ _ i Hw H1) as E1.
  rewrite smear_low in E1 by lia.
  pose proof (range_words n pc i Hn Hi Hpc) as Hr.
  destruct (Z.ltb_spec 64 (pc mod 64 + pc mod 64)).
  - destruct H2 as [Hw' H2]. rewrite (getbit_or _ _ _ _ _ i Hw' H2), E1.
    rewrite smear_high by lia. destruct ((pc <=? i) && (i <? pc + n)).
    + destruct (Hr eq_refl) as [->|[-> _]]; rewrite Z.eqb_refl; cbn; by rewrite ?orb_true_r.
    + rewrite !andb_false_r, !orb_false_r. done.
  - subst b2. rewrite E1. destruct ((pc <=? i) && (i <? pc + n)).
    + destruct (Hr eq_refl) as [->|[_ ?]]; [|lia]. by rewrite Z.eqb_refl.
    + by rewrite andb_false_r.
Qed.

Lemma codeBitmap_loop_spec fuel code pc bits :
  0 <= pc -> zlen code - pc <= Z.of_nat fuel -> zlen bits = (zlen code + 95) / 64 ->
  exists bits', codeBitmap_loop fuel code pc bits = Done bits' /\ zlen bits' = zlen bits /\
    forall i, 0 <= i < zlen code -> getbit bits' i = getbit bits i || data_from code pc i.
Proof.
  revert pc bits; induction fuel as [|fuel IH]; intros pc bits Hpc Hf Hb; cbn [codeBitmap_loop];
    destruct (Z.leb_spec (zlen code) pc) as [Hle|Hlt]; try lia.
  1,2: exists bits; split_and!; [done..|]; intros i Hi; unfold data_from;
       destruct (Z.ltb_spec i pc); [by rewrite orb_false_r|lia].
  destruct (znth_Some code pc) as [op Hop]; [lia|]. rewrite Hop.
  destruct ((PUSH1 <=? op) && (op <=? PUSH32)) eqn:Hp.
  2:{ destruct (IH (pc + 1) bits) as (bits' & E & Hl & H); [lia..|].
      exists bits'. split_and!; [done..|]. intros i Hi. rewrite H by done.
      rewrite (data_from_step code pc op i) by done. unfold push_size. rewrite Hp. cbn.
      rewrite Z.add_0_r. destruct (Z.leb_spec (pc + 1) i), (Z.ltb_spec i (pc + 1)); try lia; done. }
  destruct (push_size_spec op Hp) as (Hop' & Hps & Hn).
  rewrite smear, land63 by done. set (n := op - PUSH1 + 1) in *.
  pose proof (Z.div_mod (pc + 1) 64 ltac:(lia)). pose proof (Z.mod_pos_bound (pc + 1) 64 ltac:(lia)).
  pose proof (Z.div_mod (zlen code + 95) 64 ltac:(lia)).
  pose proof (Z.mod_pos_bound (zlen code + 95) 64 ltac:(lia)).
  destruct (znth_Some bits ((pc + 1) / 64)) as [w Hw]; [lia|]. rewrite Hw.
  destruct (zset bits ((pc + 1) / 64) (Z.lor w (u64 (Z.shiftl (Z.ones n) ((pc + 1) mod 64))))) as [b1|] eqn:Hz1.
  2:{ rewrite zset_Some in Hz1 by lia. done. }
  pose proof (zset_length _ _ _ _ Hz1) as Hl1.
  assert (forall b2 w',
    (if 64 <? (pc + 1) mod 64 + (pc + 1) mod 64
     then znth b1 ((pc + 1) / 64 + 1) = Some w' /\
          zset b1 ((pc + 1) / 64 + 1) (Z.lor w' (Z.shiftr (Z.ones n) (64 - (pc + 1) mod 64))) = Some b2
     else b2 = b1) -> zlen b2 = zlen b1 ->
    exists bits', codeBitmap_loop fuel code (pc + 1 + n) b2 = Done bits' /\ zlen bits' = zlen bits /\
      forall i, 0 <= i < zlen code -> getbit bits' i = getbit bits i || data_from code pc i) as Hstep.
  { intros b2 w' Hb2 Hl2. destruct (IH (pc + 1 + n) b2) as (bits' & E & Hl & H'); [lia..|].
    exists bits'. split_and!; [done|lia|]. intros i Hi. rewrite H' by done.
    rewrite (mark_bits bits b1 b2 n (pc + 1) w w' i) by (lia || done).
    rewrite (data_from_step code pc op i), Hps by done. by rewrite orb_assoc. }
  destruct (Z.ltb_spec 64 ((pc + 1) mod 64 + (pc + 1) mod 64)).
  - destruct (znth_Some b1 ((pc + 1) / 64 + 1)) as [w' Hw']; [lia|]. rewrite Hw'.
    destruct (zset b1 ((pc + 1) / 64 + 1) _) as [b2|] eqn:Hz2.
    2:{ rewrite zset_Some in Hz2 by lia. done. }
    apply (Hstep b2 w'); [done|]. by apply zset_length in Hz2.
  - by apply (Hstep b1 0).
Qed.

Lemma getbit_zero n i : getbit (replicate n 0) i = false.
Proof.
  unfold getbit, znth. destruct (i / 64 <? 0); [apply Z.bits_0|].
  destruct (replicate n 0 !! Z.to_nat (i / 64)) eqn:E; [|apply Z.bits_0].
  apply lookup_replicate in E as [-> _]. apply Z.bits_0.
Qed.

Lemma codeBitmap_spec code :
  exists bits, codeBitmap code = Done bits /\ zlen bits = (zlen code + 95) / 64 /\
    forall i, 0 <= i < zlen code -> getbit bits i = is_push_data code i.
Proof.
  pose proof (zlen_nonneg code).
  assert (0 <= (zlen code + 95) / 64) by (apply Z.div_pos; lia).
  destruct (codeBitmap_loop_spec (length code) code 0
    (replicate (Z.to_nat ((zlen code + 32 + 63) / 64)) 0)) as (bits & E & Hl & H').
  - lia.
  - unfold zlen. lia.
  - rewrite zlen_replicate; [f_equal; lia|]. apply Z.div_pos; lia.
  - exists bits. split_and!; [done| |].
    + rewrite Hl, zlen_replicate; [f_equal; lia|]. apply Z.div_pos; lia.
    + intros i Hi. rewrite H' by done. rewrite getbit_zero. cbn.
      unfold data_from. destruct (Z.ltb_spec i 0); [lia|]. by rewrite Z.sub_0_r.
Qed.

Lemma isCodeFromAnalysis_getbit bits i :
  0 <= i -> i / 64 < zlen bits -> isCodeFromAnalysis bits i = Some (negb (getbit bits i)).
Proof.
  intros Hi Hl. unfold isCodeFromAnalysis, getbit.
  pose proof (Z.div_pos i 64 ltac:(lia) ltac:(lia)).
  destruct (znth_Some bits (i / 64)) as [w Hw]; [lia|]. rewrite Hw. cbn.
  rewrite land63, Z.shiftl_1_l. pose proof (Z.mod_pos_bound i 64 ltac:(lia)).
  rewrite u64_small.
  2:{ split; [lia|]. change two64 with (2 ^ 64). apply Z.pow_lt_mono_r; lia. }
  unfold mret, option_ret. f_equal. destruct (Z.testbit w (i mod 64)) eqn:Hb; cbn.
  - apply Z.eqb_neq. intros E. apply (f_equal (fun z => Z.testbit z (i mod 64))) in E.
    rewrite Z.land_spec, Hb, Z.pow2_bits_true, Z.bits_0 in E by lia. done.
  - apply Z.eqb_eq, Z.bits_inj'. intros k Hk. rewrite Z.land_spec, Z.bits_0, Z.pow2_bits_eqb by lia.
    destruct (Z.eqb_spec (i mod 64) k) as [<-|]; [by rewrite Hb | by rewrite andb_false_r].
Qed.

(** The jump destination bitmap is the reference analysis: for every code,
    [codeBitmap] returns without an index out of range, and for every position
    of the code [isCodeFromAnalysis] answers true exactly when the position is
    not an immediate byte of a PUSH instruction read from the start. *)
Theorem codeBitmap_correct code :
  exists bits, codeBitmap code = Done bits /\
    forall i, 0 <= i < zlen code ->
      isCodeFromAnalysis bits i = Some (negb (is_push_data code i)).
Proof.
  destruct (codeBitmap_spec code) as (bits & E & Hl & H). exists bits. split; [done|].
  intros i Hi. rewrite <- H by done. apply isCodeFromAnalysis_getbit; [lia|].
  rewrite Hl. apply Z.div_lt_upper_bound; [lia|].
  pose proof (Z.div_mod (zlen code + 95) 64 ltac:(lia)).
  pose proof (Z.mod_pos_bound (zlen code + 95) 64 ltac:(lia)). lia.
Qed.
