(* ===== verification/Common.v ===== *)
(** * Data shared by the state and the virtual machine

    The log record of [common/block/log.go] and the hash function. *)

From S2P Require Import Prelude Uint256 Params.

(** Keccak-256, from a third-party package: the value of its 32 bytes. *)
Class Crypto : Type := { Keccak256 : bytes -> Z }.

Class CryptoLaws (C : Crypto) : Prop := {
  Keccak256_word bs : word (Keccak256 bs)
}.

(** A concrete instance for examples: any function into the words does. *)
Definition ref_crypto : Crypto := {| Keccak256 bs := wrap256 (be_to_Z (1 :: bs)) |}.

Lemma ref_crypto_laws : CryptoLaws ref_crypto.
Proof. split. intros bs. apply wrap256_word. Qed.

(** [block.Log]; the fields the emitter of a log does not fill in are derived. *)
Record Log : Type := mkLog {
  log_Address : Z;
  log_Topics : list Z;
  log_Data : bytes;
  log_BlockNumber : Z;
  log_TxHash : Z;
  log_TxIndex : Z;
  log_BlockHash : Z;
  log_Index : Z;
  log_Removed : bool
}.

