(* ===== verification/AccessList.v ===== *)
(** * The EIP-2930 access list ([modules/state/access_list.go])

    [addresses] maps an address to the index of its slot set in [slots], or to
    -1 when it has none.  The abstract view is a set of addresses and a set of
    (address, slot) pairs; the theorems state that every operation implements
    its effect on the view, and that the deletions the journal performs undo
    the additions exactly. *)

From S2P Require Import Prelude Uint256 Params.

Module accessList.

Record accessList : Type := mkAccessList {
  addresses : gmap Z Z;
  slots : list (gset Z)
}.

Definition ContainsAddress (al : accessList) (address : Z) : bool :=
  match addresses al !! address with Some _ => true | None => false end.

Definition Contains (address slot : Z) : M accessList (bool * bool) :=
  al ← get;
  match addresses al !! address with
  | None => mret (false, false)
  | Some idx =>
      if idx =? -1 then mret (true, false) else
      slotmap ← must (znth (slots al) idx);
      mret (true, bool_decide (slot ∈ slotmap))
  end.

Definition newAccessList : accessList := mkAccessList ∅ [].

Definition Copy (al : accessList) : accessList :=
  mkAccessList (map_fold (fun k v m => <[k := v]> m) ∅ (addresses al))
    (map (fun slotMap => set_fold (fun k m => {[k]} ∪ m) ∅ slotMap) (slots al)).

Definition AddAddress (address : Z) : M accessList bool :=
  al ← get;
  match addresses al !! address with
  | Some _ => mret false
  | None =>
      _ ← modify (fun al => mkAccessList (<[address := -1]> (addresses al)) (slots al));
      mret true
  end.

Definition AddSlot (address slot : Z) : M accessList (bool * bool) :=
  al ← get;
  let new addrPresent :=
    _ ← modify (fun al => mkAccessList (<[address := zlen (slots al)]> (addresses al))
                           (slots al ++ [{[slot]}]));
    mret (negb addrPresent, true) in
  match addresses al !! address with
  | None => new false
  | Some idx =>
      if idx =? -1 then new true else
      slotmap ← must (znth (slots al) idx);
      if bool_decide (slot ∈ slotmap) then mret (false, false) else
      s ← must (zset (slots al) idx ({[slot]} ∪ slotmap));
      _ ← modify (fun al => mkAccessList (addresses al) s);
      mret (false, true)
  end.

Definition DeleteSlot (address slot : Z) : M accessList () :=
  al ← get;
  idx ← must (addresses al !! address);
  slotmap ← must (znth (slots al) idx);
  let slotmap := slotmap ∖ {[slot]} in
  s ← must (zset (slots al) idx slotmap);
  _ ← modify (fun al => mkAccessList (addresses al) s);
  if bool_decide (slotmap = ∅)
  then modify (fun al => mkAccessList (<[address := -1]> (addresses al))
                          (take (Z.to_nat idx) (slots al)))
  else mret ().

Definition DeleteAddress (address : Z) : M accessList () :=
  modify (fun al => mkAccessList (delete address (addresses al)) (slots al)).

(** ** Well-formedness and the abstract view *)

(** Every index is -1 or points to a non-empty set of its own. *)
Record wf (al : accessList) : Prop := {
  wf_idx a i : addresses al !! a = Some i ->
    i = -1 \/ exists s, 0 <= i /\ znth (slots al) i = Some s /\ s <> ∅;
  wf_inj a b i : addresses al !! a = Some i -> addresses al !! b = Some i -> i <> -1 -> a = b
}.

(** The pair [(a, k)] is in the list. *)
Definition has_slot (al : accessList) (a k : Z) : Prop :=
  exists i s, addresses al !! a = Some i /\ i <> -1 /\ znth (slots al) i = Some s /\ k ∈ s.

Lemma newAccessList_wf : wf newAccessList.
Proof. split; intros *; unfold newAccessList; cbn; by rewrite lookup_empty. Qed.

Lemma ContainsAddress_true al a : ContainsAddress al a = true <-> is_Some (addresses al !! a).
Proof.
  unfold ContainsAddress. destruct (addresses al !! a); split; eauto; done.
Qed.

Lemma Contains_run al a k :
  wf al ->
  exists b, Contains a k al = Done ((ContainsAddress al a, b), al) /\ (b = true <-> has_slot al a k).
Proof.
  intros [Hi _]. unfold Contains, ContainsAddress, mbind, M_bind, get, has_slot.
  destruct (addresses al !! a) as [i|] eqn:E.
  2:{ exists false. split; [done|]. split; [done|]. intros (i & s & E' & _). congruence. }
  destruct (Hi a i E) as [->|(s & H0 & Hs & Hne)].
  { exists false. split; [done|]. split; [done|]. intros (i & s & E' & ? & _). congruence. }
  destruct (Z.eqb_spec i (-1)); [lia|]. rewrite Hs. cbn.
  exists (bool_decide (k ∈ s)). split; [done|]. rewrite bool_decide_eq_true. split.
  - intros Hk. exists i, s. auto.
  - intros (i' & s' & E' & _ & Hs' & Hk). congruence.
Qed.

Lemma AddAddress_run al a :
  AddAddress a al = Done (negb (ContainsAddress al a),
    if ContainsAddress al a then al else mkAccessList (<[a := -1]> (addresses al)) (slots al)).
Proof.
  unfold AddAddress, ContainsAddress, mbind, M_bind, get.
  destruct (addresses al !! a) eqn:E; done.
Qed.

Lemma AddAddress_wf al a b al' : wf al -> AddAddress a al = Done (b, al') -> wf al'.
Proof.
  intros Hw. rewrite AddAddress_run. intros [= _ <-].
  destruct (ContainsAddress al a) eqn:E; [done|].
  assert (addresses al !! a = None) as Ha.
  { unfold ContainsAddress in E. by destruct (addresses al !! a). }
  split; cbn.
  - intros c i [[<- <-]|[? Hc]]%lookup_insert_Some; [by left | by apply Hw in Hc].
  - intros c d i [[<- <-]|[? Hc]]%lookup_insert_Some [[<- ?]|[? Hd]]%lookup_insert_Some ?;
      try congruence. by eapply wf_inj.
Qed.

Lemma AddAddress_undo al a al' :
  AddAddress a al = Done (true, al') -> DeleteAddress a al' = Done ((), al).
Proof.
  rewrite AddAddress_run. intros [= E <-].
  destruct (ContainsAddress al a) eqn:E'; [done|].
  unfold DeleteAddress, modify. cbn. rewrite delete_insert_id; [by destruct al|].
  unfold ContainsAddress in E'. by destruct (addresses al !! a).
Qed.

(** The three outcomes of [AddSlot]: a fresh slot set, a larger slot set, and
    no change. *)
Inductive add_slot_spec (al : accessList) (a k : Z) : bool * bool -> accessList -> Prop :=
| add_slot_fresh :
    (addresses al !! a = None \/ addresses al !! a = Some (-1)) ->
    add_slot_spec al a k (negb (ContainsAddress al a), true)
      (mkAccessList (<[a := zlen (slots al)]> (addresses al)) (slots al ++ [{[k]}]))
| add_slot_more i s :
    addresses al !! a = Some i -> 0 <= i -> znth (slots al) i = Some s -> s <> ∅ -> k ∉ s ->
    add_slot_spec al a k (false, true)
      (mkAccessList (addresses al) (<[Z.to_nat i := {[k]} ∪ s]> (slots al)))
| add_slot_same :
    has_slot al a k -> add_slot_spec al a k (false, false) al.

Lemma znth_lt {A} (l : list A) i x : znth l i = Some x -> 0 <= i < zlen l.
Proof.
  unfold znth. destruct (Z.ltb_spec i 0); [done|]. intros Hx%lookup_lt_Some. unfold zlen. lia.
Qed.

Lemma AddSlot_run al a k :
  wf al -> exists r al', AddSlot a k al = Done (r, al') /\ add_slot_spec al a k r al'.
Proof.
  intros [Hi _]. unfold AddSlot, mbind, M_bind, get.
  destruct (addresses al !! a) as [i|] eqn:E.
  2:{ eexists _, _. split; [done|]. pose proof (add_slot_fresh al a k (or_introl E)) as Hf.
      unfold ContainsAddress in Hf. by rewrite E in Hf. }
  destruct (Hi a i E) as [->|(s & H0 & Hs & Hne)].
  { eexists _, _. split; [done|]. pose proof (add_slot_fresh al a k (or_intror E)) as Hf.
    unfold ContainsAddress in Hf. by rewrite E in Hf. }
  destruct (Z.eqb_spec i (-1)); [lia|]. rewrite Hs. cbn.
  case_bool_decide as Hk; cbn.
  { eexists _, _. split; [done|]. apply add_slot_same. by exists i, s. }
  apply znth_lt in Hs as Hlt. rewrite zset_Some by done. cbn.
  eexists _, _. split; [done|]. by apply (add_slot_more al a k i s).
Qed.

Lemma znth_app_l {A} (l k : list A) i x : znth l i = Some x -> znth (l ++ k) i = Some x.
Proof.
  intros H. apply znth_lt in H as Hl. unfold znth in *. destruct (i <? 0); [done|].
  by apply lookup_app_l_Some.
Qed.

Lemma znth_insert {A} (l : list A) i x j :
  0 <= i < zlen l -> znth (<[Z.to_nat i := x]> l) j = if j =? i then Some x else znth l j.
Proof.
  intros Hi. unfold znth. destruct (Z.eqb_spec j i) as [->|];
    [destruct (Z.ltb_spec i 0) | destruct (Z.ltb_spec j 0)]; try lia; try done.
  - apply list_lookup_insert_eq. unfold zlen in Hi. lia.
  - apply list_lookup_insert_ne. lia.
Qed.

Lemma add_slot_wf al a k r al' : wf al -> add_slot_spec al a k r al' -> wf al'.
Proof.
  intros Hw [Ha'|i s E H0 Hs Hne Hk|?]; [| |done]; split; cbn.
  - intros c i [[<- <-]|[? Hc]]%lookup_insert_Some.
    + right. exists {[k]}. split_and!; [apply zlen_nonneg| |set_solver].
      apply znth_snoc.
    + destruct (wf_idx _ Hw c i Hc) as [->|(s & ? & Hs & ?)]; [by left|right].
      exists s. split_and!; [done| |done]. by apply znth_app_l.
  - intros c d i [[<- <-]|[? Hc]]%lookup_insert_Some [[<- Hd]|[? Hd]]%lookup_insert_Some ?;
      [done| | |by eapply wf_inj].
    + destruct (wf_idx _ Hw d _ Hd) as [?|(s & ? & Hs%znth_lt & ?)]; [congruence|lia].
    + subst i. destruct (wf_idx _ Hw c _ Hc) as [?|(s & ? & Hs%znth_lt & ?)]; [congruence|lia].
  - intros c j Hc. destruct (wf_idx _ Hw c j Hc) as [->|(s' & ? & Hs' & ?)]; [by left|right].
    rewrite znth_insert by (by eapply znth_lt).
    destruct (Z.eqb_spec j i); [exists ({[k]} ∪ s)|exists s']; split_and!; done || set_solver.
  - apply Hw.
Qed.

(** The deletions of the journal undo an addition exactly. *)
Lemma AddSlot_undo al a k r al' :
  wf al -> add_slot_spec al a k r al' ->
  match r with
  | (addrChange, true) =>
      exists al1, DeleteSlot a k al' = Done ((), al1) /\
        if addrChange : bool then DeleteAddress a al1 = Done ((), al) else al1 = al
  | _ => al' = al
  end.
Proof.
  intros Hw [Ha'|i s E H0 Hs Hne Hk|?]; [| |done];
    unfold DeleteSlot, mbind, M_bind, get, modify; cbn.
  - rewrite lookup_insert_eq. cbn.
    rewrite znth_snoc. cbn.
    rewrite zset_Some by zlen_lia. cbn.
    replace (({[k]} : gset Z) ∖ {[k]}) with (∅ : gset Z) by set_solver.
    rewrite bool_decide_eq_true_2 by done. eexists; split; [done|].
    cbn [addresses slots].
    replace (Z.to_nat (zlen (slots al))) with (length (slots al)) by zlen_lia.
    rewrite take_insert_ge by lia. rewrite take_app_length, insert_insert_eq.
    unfold ContainsAddress. destruct Ha' as [Ea|Ea]; rewrite Ea; cbn.
    + unfold DeleteAddress, modify. cbn. rewrite delete_insert_id by done. by destruct al.
    + rewrite insert_id by done. by destruct al.
  - rewrite E. cbn. apply znth_lt in Hs as Hlt.
    rewrite znth_insert, Z.eqb_refl by done. cbn.
    rewrite zset_Some by zlen_lia. cbn.
    replace (({[k]} ∪ s) ∖ {[k]}) with s by set_solver.
    rewrite bool_decide_eq_false_2 by done. eexists; split; [done|].
    rewrite list_insert_insert_eq. rewrite list_insert_id; [by destruct al|].
    unfold znth in Hs. by destruct (i <? 0).
Qed.

(** What [AddSlot] does to the view. *)
Lemma add_slot_view al a k r al' :
  wf al -> add_slot_spec al a k r al' ->
  (forall b, is_Some (addresses al' !! b) <-> b = a \/ is_Some (addresses al !! b)) /\
  (forall b j, has_slot al' b j <-> (b = a /\ j = k) \/ has_slot al b j) /\
  (r.1 = true <-> ~ is_Some (addresses al !! a)) /\
  (r.2 = true <-> ~ has_slot al a k).
Proof.
  intros Hw [Hfr|i s E H0 Hs Hne Hk|Hh].
  - split_and!; cbn.
    + intros b. rewrite lookup_insert_is_Some. destruct (decide (b = a)); naive_solver.
    + intros b j. unfold has_slot; cbn. destruct (decide (b = a)) as [->|Hb].
      * rewrite lookup_insert_eq. split.
        -- intros (i & s & [= <-] & _ & Hs & Hj). rewrite znth_snoc in Hs. left. set_solver.
        -- intros [[_ ->]|(i & s & E & ? & _)].
           ++ exists (zlen (slots al)), {[k]}. rewrite znth_snoc. pose proof (zlen_nonneg (slots al)).
              split_and!; [done|lia|done|set_solver].
           ++ destruct Hfr; congruence.
      * rewrite lookup_insert_ne by done. split.
        -- intros (i & s & E & ? & Hs & Hj). right. exists i, s. split_and!; [done..| |done].
           destruct (wf_idx _ Hw b i E) as [?|(s' & ? & Hs' & ?)]; [done|].
           rewrite (znth_app_l _ _ _ _ Hs') in Hs. congruence.
        -- intros [[? _]|(i & s & E & ? & Hs & Hj)]; [done|].
           exists i, s. split_and!; [done..| |done]. by apply znth_app_l.
    + unfold ContainsAddress. destruct (addresses al !! a); cbn; split; try done; intros H; by destruct H.
    + split; [|done]. intros _ (i & s & E & ? & _). destruct Hfr; congruence.
  - apply znth_lt in Hs as Hlt. split_and!; cbn.
    + intros b. split; [auto|]. intros [->|?]; [by rewrite E|done].
    + intros b j. unfold has_slot; cbn. split.
      * intros (i' & s' & E' & ? & Hs' & Hj). rewrite znth_insert in Hs' by done.
        destruct (Z.eqb_spec i' i) as [->|].
        -- assert (b = a) as -> by (eapply wf_inj; done).
           injection Hs' as <-. apply elem_of_union in Hj as [Hj%elem_of_singleton|Hj]; [by left|].
           right. by exists i, s.
        -- right. by exists i', s'.
      * intros [[-> ->]|(i' & s' & E' & ? & Hs' & Hj)].
        -- exists i, ({[k]} ∪ s). rewrite znth_insert, Z.eqb_refl by done.
           split_and!; [done|lia|done|set_solver].
        -- exists i'. rewrite znth_insert by done. destruct (Z.eqb_spec i' i) as [->|].
           ++ exists ({[k]} ∪ s). split_and!; [done..|]. simplify_eq. set_solver.
           ++ by exists s'.
    + split; [done|]. rewrite E. intros H. by destruct H.
    + split; [|done]. intros _ (i' & s' & E' & ? & Hs' & Hj). congruence.
  - split_and!; cbn.
    + intros b. split; [auto|]. intros [->|?]; [|done]. destruct Hh as (i & s & E & _). by rewrite E.
    + intros b j. split; [auto|]. by intros [[-> ->]|?].
    + split; [done|]. destruct Hh as (i & s & E & _). rewrite E. intros H. by destruct H.
    + split; [done|]. intros H. by destruct H.
Qed.

Lemma Copy_id al : Copy al = al.
Proof.
  destruct al as [ad sl]. unfold Copy; cbn. f_equal.
  - apply (map_fold_weak_ind (fun r m => r = m)); [done|]. intros k v m r Hk ->. done.
  - rewrite <- (map_id sl) at 2. apply map_ext. intros X.
    apply (set_fold_ind_L (fun r Y => r = Y)); [done|]. intros x Y r _ ->. done.
Qed.

(** Adding a slot implements set insertion on the abstract view of the access
    list: the call never indexes out of range on a well-formed list, the result
    is well-formed, the address and the (address, slot) pair are added and
    nothing else changes, and the two flags report exactly whether the address
    and the pair were new. *)
Theorem AddSlot_refines al a k :
  wf al ->
  exists r al', AddSlot a k al = Done (r, al') /\ wf al' /\
    (forall b, ContainsAddress al' b = true <-> b = a \/ ContainsAddress al b = true) /\
    (forall b j, has_slot al' b j <-> (b = a /\ j = k) \/ has_slot al b j) /\
    (r.1 = true <-> ContainsAddress al a = false) /\
    (r.2 = true <-> ~ has_slot al a k).
Proof.
  intros Hw. destruct (AddSlot_run al a k Hw) as (r & al' & E & H).
  exists r, al'. destruct (add_slot_view _ _ _ _ _ Hw H) as (H1 & H2 & H3 & H4).
  split_and!; [done|by eapply add_slot_wf| |done| |done].
  - intros b. rewrite !ContainsAddress_true. apply H1.
  - rewrite H3, <- ContainsAddress_true. apply not_true_iff_false.
Qed.

(** Reverting an access list addition is exact: when the journal deletes the
    slot, and then the address when [AddSlot] reported it as new, the list is
    the one before the addition, down to the layout of the slot array, and no
    deletion panics. *)
Theorem AddSlot_undone al a k r al' :
  wf al -> AddSlot a k al = Done (r, al') ->
  match r with
  | (true, _) => (DeleteSlot a k ≫= fun _ => DeleteAddress a) al' = Done ((), al)
  | (false, true) => DeleteSlot a k al' = Done ((), al)
  | (false, false) => al' = al
  end.
Proof.
  intros Hw E. destruct (AddSlot_run al a k Hw) as (r' & al'' & E' & H).
  rewrite E in E'. injection E' as <- <-. pose proof (AddSlot_undo _ _ _ _ _ Hw H) as Hu.
  destruct r as [[] []]; try done.
  - destruct Hu as (al1 & E1 & E2). unfold mbind, M_bind. by rewrite E1.
  - inversion H; subst; done.
  - by destruct Hu as (al1 & E1 & ->).
Qed.

Lemma AddSlot_refines_witness : exists r al',
  AddSlot 1 2 newAccessList = Done (r, al') /\ ContainsAddress al' 1 = true.
Proof.
  destruct (AddSlot_refines newAccessList 1 2 newAccessList_wf) as (r & al' & E & _ & H & _).
  exists r, al'. split; [exact E|]. apply H. left. reflexivity.
Defined.

Lemma AddSlot_undone_witness :
  (DeleteSlot 1 2 ≫= fun _ => DeleteAddress 1) (mkAccessList {[1 := 0]} [{[2]}])
  = Done ((), newAccessList).
Proof.
  apply (AddSlot_undone newAccessList 1 2 (true, true));
    [exact newAccessList_wf | vm_compute; reflexivity].
Defined.

End accessList.
