(* ===== verification/StateTypes.v ===== *)
(** * Accounts, state objects, the journal and the intra-block state: data

    [common/account/state_account.go], [modules/state/state_object.go],
    [modules/state/journal.go], [modules/state/entire.go] (the execution
    snapshot) and the state record of [modules/state/intra_block_state.go].

    Addresses, hashes and 256-bit integers are represented by their values.  The
    Go maps from addresses to pointers ([stateObjects], [balanceInc]) are maps
    to values: an object is always reached through the map, and a journal entry
    that keeps a pointer to a replaced object keeps a value that nobody can
    change any more. *)

From S2P Require Import Prelude Uint256 Params Common AccessList.

(** ** What the state reads from outside

    [StateReader] is the database interface of [modules/state/database.go]; a
    Go pair [(value, err)] is a pair here, because some callers use the value
    although the error is set. *)

Inductive error : Type :=
| ReadError (msg : string)
| RefundBelowZero
| CantLoadCode (codeHash : Z) (err : error).

(** [account.StateAccount]. *)
Record StateAccount : Type := mkStateAccount {
  Initialised : bool;
  Nonce : Z;
  Balance : Z;
  Root : Z;
  CodeHash : Z;
  Incarnation : Z
}.

Definition set_Initialised (v : bool) (x : StateAccount) : StateAccount :=
  mkStateAccount v (Nonce x) (Balance x) (Root x) (CodeHash x) (Incarnation x).
Definition set_Nonce (v : Z) (x : StateAccount) : StateAccount :=
  mkStateAccount (Initialised x) v (Balance x) (Root x) (CodeHash x) (Incarnation x).
Definition set_Balance (v : Z) (x : StateAccount) : StateAccount :=
  mkStateAccount (Initialised x) (Nonce x) v (Root x) (CodeHash x) (Incarnation x).
Definition set_Root (v : Z) (x : StateAccount) : StateAccount :=
  mkStateAccount (Initialised x) (Nonce x) (Balance x) v (CodeHash x) (Incarnation x).
Definition set_CodeHash (v : Z) (x : StateAccount) : StateAccount :=
  mkStateAccount (Initialised x) (Nonce x) (Balance x) (Root x) v (Incarnation x).
Definition set_Incarnation (v : Z) (x : StateAccount) : StateAccount :=
  mkStateAccount (Initialised x) (Nonce x) (Balance x) (Root x) (CodeHash x) v.

Record StateReader : Type := mkStateReader {
  ReadAccountData : Z -> option StateAccount * option error;
  ReadAccountStorage : Z -> Z -> Z -> option bytes * option error;
  ReadAccountCode : Z -> Z -> Z -> option bytes * option error;
  ReadAccountCodeSize : Z -> Z -> Z -> Z * option error;
  ReadAccountIncarnation : Z -> Z * option error
}.

(** The protobuf encoding of an account, a third-party codec. *)
Class AccountCodec : Type := { EncodeForStorage : StateAccount -> bytes }.

Definition zero_account : StateAccount := mkStateAccount false 0 0 0 0 0.

(** [StateAccount.Copy]: every field is copied. *)
Definition Copy_account (image : StateAccount) : StateAccount :=
  mkStateAccount (Initialised image) (Nonce image) (Balance image) (Root image)
    (CodeHash image) (Incarnation image).

(** ** State objects *)

Notation Storage := (gmap Z Z).

(** [stateObject]; the pointer [db] back to the state is the state itself. *)
Record stateObject : Type := mkStateObject {
  address : Z;
  data : StateAccount;
  original : StateAccount;
  code : option bytes;
  originStorage : Storage;
  blockOriginStorage : Storage;
  dirtyStorage : Storage;
  fakeStorage : option Storage;
  dirtyCode : bool;
  selfdestructed : bool;
  deleted : bool;
  created : bool
}.

Definition set_data (v : StateAccount) (x : stateObject) : stateObject :=
  mkStateObject (address x) v (original x) (code x) (originStorage x) (blockOriginStorage x) (dirtyStorage x) (fakeStorage x) (dirtyCode x) (selfdestructed x) (deleted x) (created x).
Definition set_original (v : StateAccount) (x : stateObject) : stateObject :=
  mkStateObject (address x) (data x) v (code x) (originStorage x) (blockOriginStorage x) (dirtyStorage x) (fakeStorage x) (dirtyCode x) (selfdestructed x) (deleted x) (created x).
Definition set_code (v : option bytes) (x : stateObject) : stateObject :=
  mkStateObject (address x) (data x) (original x) v (originStorage x) (blockOriginStorage x) (dirtyStorage x) (fakeStorage x) (dirtyCode x) (selfdestructed x) (deleted x) (created x).
Definition set_originStorage (v : Storage) (x : stateObject) : stateObject :=
  mkStateObject (address x) (data x) (original x) (code x) v (blockOriginStorage x) (dirtyStorage x) (fakeStorage x) (dirtyCode x) (selfdestructed x) (deleted x) (created x).
Definition set_blockOriginStorage (v : Storage) (x : stateObject) : stateObject :=
  mkStateObject (address x) (data x) (original x) (code x) (originStorage x) v (dirtyStorage x) (fakeStorage x) (dirtyCode x) (selfdestructed x) (deleted x) (created x).
Definition set_dirtyStorage (v : Storage) (x : stateObject) : stateObject :=
  mkStateObject (address x) (data x) (original x) (code x) (originStorage x) (blockOriginStorage x) v (fakeStorage x) (dirtyCode x) (selfdestructed x) (deleted x) (created x).
Definition set_fakeStorage (v : option Storage) (x : stateObject) : stateObject :=
  mkStateObject (address x) (data x) (original x) (code x) (originStorage x) (blockOriginStorage x) (dirtyStorage x) v (dirtyCode x) (selfdestructed x) (deleted x) (created x).
Definition set_dirtyCode (v : bool) (x : stateObject) : stateObject :=
  mkStateObject (address x) (data x) (original x) (code x) (originStorage x) (blockOriginStorage x) (dirtyStorage x) (fakeStorage x) v (selfdestructed x) (deleted x) (created x).
Definition set_selfdestructed (v : bool) (x : stateObject) : stateObject :=
  mkStateObject (address x) (data x) (original x) (code x) (originStorage x) (blockOriginStorage x) (dirtyStorage x) (fakeStorage x) (dirtyCode x) v (deleted x) (created x).
Definition set_deleted (v : bool) (x : stateObject) : stateObject :=
  mkStateObject (address x) (data x) (original x) (code x) (originStorage x) (blockOriginStorage x) (dirtyStorage x) (fakeStorage x) (dirtyCode x) (selfdestructed x) v (created x).
Definition set_created (v : bool) (x : stateObject) : stateObject :=
  mkStateObject (address x) (data x) (original x) (code x) (originStorage x) (blockOriginStorage x) (dirtyStorage x) (fakeStorage x) (dirtyCode x) (selfdestructed x) (deleted x) v.

(** ** The execution snapshot of [entire.go] *)

Record Item : Type := mkItem { Key : bytes; Value : bytes }.

Record Snapshot : Type := mkSnapshot {
  Items : list Item;
  OutHash : Z;
  accounts : gmap bytes Z;
  storage : gmap bytes Z;
  written : bool;
  getOneFun : option (bytes -> option bytes * option error)
}.

(** ** Balance increases *)

Record BalanceIncrease : Type := mkBalanceIncrease {
  increase : Z;
  transferred : bool;
  count : Z
}.

(** ** The journal *)

Inductive journalEntry : Type :=
| createObjectChange (account : Z)
| resetObjectChange (account : Z) (prev : stateObject)
| selfdestructChange (account : Z) (prev : bool) (prevbalance : Z)
| balanceChange (account : Z) (prev : Z)
| balanceIncrease (account : Z) (incr : Z)
| balanceIncreaseTransfer (account : Z)
| nonceChange (account : Z) (prev : Z)
| storageChange (account key prevalue : Z)
| fakeStorageChange (account key prevalue : Z)
| codeChange (account : Z) (prevcode : option bytes) (prevhash : Z)
| refundChange (prev : Z)
| addLogChange (txhash : Z)
| touchChange (account : Z)
| accessListAddAccountChange (address : Z)
| accessListAddSlotChange (address slot : Z).

Definition dirtied (e : journalEntry) : option Z :=
  match e with
  | createObjectChange a | selfdestructChange a _ _ | touchChange a | balanceChange a _
  | balanceIncrease a _ | nonceChange a _ | codeChange a _ _ | storageChange a _ _
  | fakeStorageChange a _ _ => Some a
  | resetObjectChange _ _ | balanceIncreaseTransfer _ | refundChange _ | addLogChange _
  | accessListAddAccountChange _ | accessListAddSlotChange _ _ => None
  end.

Record journal : Type := mkJournal {
  entries : list journalEntry;
  dirties : gmap Z Z
}.

Definition newJournal : journal := mkJournal [] ∅.

(** [j.dirties[addr]++]. *)
Definition journal_dirty (addr : Z) (j : journal) : journal :=
  mkJournal (entries j) (<[addr := default 0 (dirties j !! addr) + 1]> (dirties j)).

Definition journal_append (e : journalEntry) (j : journal) : journal :=
  let j := mkJournal (entries j ++ [e]) (dirties j) in
  match dirtied e with Some addr => journal_dirty addr j | None => j end.

Definition journal_length (j : journal) : Z := zlen (entries j).

(** The bookkeeping [journal.revert] does for a reverted entry. *)
Definition journal_undirty (e : journalEntry) (j : journal) : journal :=
  match dirtied e with
  | None => j
  | Some addr =>
      let n := default 0 (dirties j !! addr) - 1 in
      mkJournal (entries j)
        (if n =? 0 then delete addr (dirties j) else <[addr := n]> (dirties j))
  end.

Record revision : Type := mkRevision { id : Z; journalIndex : Z }.

(** ** The intra-block state *)

Record IntraBlockState : Type := mkIntraBlockState {
  stateObjects : gmap Z stateObject;
  stateObjectsDirty : gset Z;
  nilAccounts : gset Z;
  savedErr : option error;
  refund : Z;
  thash : Z;
  bhash : Z;
  txIndex : Z;
  logs : gmap Z (list Log);
  logSize : Z;
  journal_ : journal;
  validRevisions : list revision;
  nextRevisionID : Z;
  accessList_ : accessList.accessList;
  balanceInc : gmap Z BalanceIncrease;
  snap : option Snapshot;
  codeMap : gmap Z bytes;
  height : Z
}.

Definition set_stateObjects (v : gmap Z stateObject) (x : IntraBlockState) : IntraBlockState :=
  mkIntraBlockState v (stateObjectsDirty x) (nilAccounts x) (savedErr x) (refund x) (thash x) (bhash x) (txIndex x) (logs x) (logSize x) (journal_ x) (validRevisions x) (nextRevisionID x) (accessList_ x) (balanceInc x) (snap x) (codeMap x) (height x).
Definition set_stateObjectsDirty (v : gset Z) (x : IntraBlockState) : IntraBlockState :=
  mkIntraBlockState (stateObjects x) v (nilAccounts x) (savedErr x) (refund x) (thash x) (bhash x) (txIndex x) (logs x) (logSize x) (journal_ x) (validRevisions x) (nextRevisionID x) (accessList_ x) (balanceInc x) (snap x) (codeMap x) (height x).
Definition set_nilAccounts (v : gset Z) (x : IntraBlockState) : IntraBlockState :=
  mkIntraBlockState (stateObjects x) (stateObjectsDirty x) v (savedErr x) (refund x) (thash x) (bhash x) (txIndex x) (logs x) (logSize x) (journal_ x) (validRevisions x) (nextRevisionID x) (accessList_ x) (balanceInc x) (snap x) (codeMap x) (height x).
Definition set_savedErr (v : option error) (x : IntraBlockState) : IntraBlockState :=
  mkIntraBlockState (stateObjects x) (stateObjectsDirty x) (nilAccounts x) v (refund x) (thash x) (bhash x) (txIndex x) (logs x) (logSize x) (journal_ x) (validRevisions x) (nextRevisionID x) (accessList_ x) (balanceInc x) (snap x) (codeMap x) (height x).
Definition set_refund (v : Z) (x : IntraBlockState) : IntraBlockState :=
  mkIntraBlockState (stateObjects x) (stateObjectsDirty x) (nilAccounts x) (savedErr x) v (thash x) (bhash x) (txIndex x) (logs x) (logSize x) (journal_ x) (validRevisions x) (nextRevisionID x) (accessList_ x) (balanceInc x) (snap x) (codeMap x) (height x).
Definition set_thash (v : Z) (x : IntraBlockState) : IntraBlockState :=
  mkIntraBlockState (stateObjects x) (stateObjectsDirty x) (nilAccounts x) (savedErr x) (refund x) v (bhash x) (txIndex x) (logs x) (logSize x) (journal_ x) (validRevisions x) (nextRevisionID x) (accessList_ x) (balanceInc x) (snap x) (codeMap x) (height x).
Definition set_bhash (v : Z) (x : IntraBlockState) : IntraBlockState :=
  mkIntraBlockState (stateObjects x) (stateObjectsDirty x) (nilAccounts x) (savedErr x) (refund x) (thash x) v (txIndex x) (logs x) (logSize x) (journal_ x) (validRevisions x) (nextRevisionID x) (accessList_ x) (balanceInc x) (snap x) (codeMap x) (height x).
Definition set_txIndex (v : Z) (x : IntraBlockState) : IntraBlockState :=
  mkIntraBlockState (stateObjects x) (stateObjectsDirty x) (nilAccounts x) (savedErr x) (refund x) (thash x) (bhash x) v (logs x) (logSize x) (journal_ x) (validRevisions x) (nextRevisionID x) (accessList_ x) (balanceInc x) (snap x) (codeMap x) (height x).
Definition set_logs (v : gmap Z (list Log)) (x : IntraBlockState) : IntraBlockState :=
  mkIntraBlockState (stateObjects x) (stateObjectsDirty x) (nilAccounts x) (savedErr x) (refund x) (thash x) (bhash x) (txIndex x) v (logSize x) (journal_ x) (validRevisions x) (nextRevisionID x) (accessList_ x) (balanceInc x) (snap x) (codeMap x) (height x).
Definition set_logSize (v : Z) (x : IntraBlockState) : IntraBlockState :=
  mkIntraBlockState (stateObjects x) (stateObjectsDirty x) (nilAccounts x) (savedErr x) (refund x) (thash x) (bhash x) (txIndex x) (logs x) v (journal_ x) (validRevisions x) (nextRevisionID x) (accessList_ x) (balanceInc x) (snap x) (codeMap x) (height x).
Definition set_journal (v : journal) (x : IntraBlockState) : IntraBlockState :=
  mkIntraBlockState (stateObjects x) (stateObjectsDirty x) (nilAccounts x) (savedErr x) (refund x) (thash x) (bhash x) (txIndex x) (logs x) (logSize x) v (validRevisions x) (nextRevisionID x) (accessList_ x) (balanceInc x) (snap x) (codeMap x) (height x).
Definition set_validRevisions (v : list revision) (x : IntraBlockState) : IntraBlockState :=
  mkIntraBlockState (stateObjects x) (stateObjectsDirty x) (nilAccounts x) (savedErr x) (refund x) (thash x) (bhash x) (txIndex x) (logs x) (logSize x) (journal_ x) v (nextRevisionID x) (accessList_ x) (balanceInc x) (snap x) (codeMap x) (height x).
Definition set_nextRevisionID (v : Z) (x : IntraBlockState) : IntraBlockState :=
  mkIntraBlockState (stateObjects x) (stateObjectsDirty x) (nilAccounts x) (savedErr x) (refund x) (thash x) (bhash x) (txIndex x) (logs x) (logSize x) (journal_ x) (validRevisions x) v (accessList_ x) (balanceInc x) (snap x) (codeMap x) (height x).
Definition set_accessList (v : accessList.accessList) (x : IntraBlockState) : IntraBlockState :=
  mkIntraBlockState (stateObjects x) (stateObjectsDirty x) (nilAccounts x) (savedErr x) (refund x) (thash x) (bhash x) (txIndex x) (logs x) (logSize x) (journal_ x) (validRevisions x) (nextRevisionID x) v (balanceInc x) (snap x) (codeMap x) (height x).
Definition set_balanceInc (v : gmap Z BalanceIncrease) (x : IntraBlockState) : IntraBlockState :=
  mkIntraBlockState (stateObjects x) (stateObjectsDirty x) (nilAccounts x) (savedErr x) (refund x) (thash x) (bhash x) (txIndex x) (logs x) (logSize x) (journal_ x) (validRevisions x) (nextRevisionID x) (accessList_ x) v (snap x) (codeMap x) (height x).
Definition set_snap (v : option Snapshot) (x : IntraBlockState) : IntraBlockState :=
  mkIntraBlockState (stateObjects x) (stateObjectsDirty x) (nilAccounts x) (savedErr x) (refund x) (thash x) (bhash x) (txIndex x) (logs x) (logSize x) (journal_ x) (validRevisions x) (nextRevisionID x) (accessList_ x) (balanceInc x) v (codeMap x) (height x).
Definition set_codeMap (v : gmap Z bytes) (x : IntraBlockState) : IntraBlockState :=
  mkIntraBlockState (stateObjects x) (stateObjectsDirty x) (nilAccounts x) (savedErr x) (refund x) (thash x) (bhash x) (txIndex x) (logs x) (logSize x) (journal_ x) (validRevisions x) (nextRevisionID x) (accessList_ x) (balanceInc x) (snap x) v (height x).
Definition set_height (v : Z) (x : IntraBlockState) : IntraBlockState :=
  mkIntraBlockState (stateObjects x) (stateObjectsDirty x) (nilAccounts x) (savedErr x) (refund x) (thash x) (bhash x) (txIndex x) (logs x) (logSize x) (journal_ x) (validRevisions x) (nextRevisionID x) (accessList_ x) (balanceInc x) (snap x) (codeMap x) v.
