(* ===== verification/State.v ===== *)
(** * The intra-block state: operations

    The methods of [stateObject] ([modules/state/state_object.go]), of the
    execution snapshot ([modules/state/entire.go]) and of [IntraBlockState]
    ([modules/state/intra_block_state.go]), and the reverts of the journal
    ([modules/state/journal.go]).

    A method of a state object is an operation of the state that names the
    object by its address.  The tracer hooks only observe and are left out; a
    nil dereference or an explicit [panic] of the Go code is [GoPanic]. *)

From S2P Require Import Prelude Uint256 Params Common AccessList StateTypes.

Section State.
Context {U : Uint256} {C : Crypto} {K : AccountCodec} (R : StateReader).

Notation MS := (M IntraBlockState).

Definition emptyCodeHash : Z := Keccak256 [].
Definition ripemd : Z := 3.

(** [modules.PlainGenerateCompositeStorageKey]. *)
Definition PlainGenerateCompositeStorageKey (address incarnation key : Z) : bytes :=
  Z_to_be 20 address ++ Z_to_be 2 incarnation ++ Z_to_be 32 key.

(** ** The execution snapshot *)

Definition NewWritableSnapshot : Snapshot := mkSnapshot [] emptyCodeHash ∅ ∅ true None.
Definition NewReadableSnapshot : Snapshot := mkSnapshot [] emptyCodeHash ∅ ∅ false None.

(** [None] is the panic of the index [s.Items[index]]. *)
Definition Snapshot_ReadAccountStorage (s : Snapshot) (address incarnation key : Z)
  : option (option bytes * option error) :=
  if written s then Some (None, None) else
  let compositeKey := PlainGenerateCompositeStorageKey address incarnation key in
  match storage s !! compositeKey with
  | None =>
      match getOneFun s with
      | Some f => Some (f compositeKey)
      | None => Some (None, None)
      end
  | Some index => item ← znth (Items s) index; mret (Some (Value item), None)
  end.

Definition AddAccount (address : Z) (account : StateAccount) (s : Snapshot) : Snapshot :=
  if negb (written s) then s else
  let items := Items s ++ [mkItem (Z_to_be 20 address) (EncodeForStorage account)] in
  mkSnapshot items (OutHash s) (<[Z_to_be 20 address := zlen items]> (accounts s))
    (storage s) (written s) (getOneFun s).

Definition AddStorage (address key incarnation : Z) (value : bytes) (s : Snapshot) : Snapshot :=
  if negb (written s) || (zlen value =? 0) then s else
  let compositeKey := PlainGenerateCompositeStorageKey address incarnation key in
  mkSnapshot (Items s ++ [mkItem compositeKey value]) (OutHash s) (accounts s)
    (<[compositeKey := zlen (map_to_list (storage s))]> (storage s)) (written s) (getOneFun s).

(** ** Access to an object through the map *)

Definition obj (addr : Z) : MS stateObject := s ← get; must (stateObjects s !! addr).

Definition upd (addr : Z) (f : stateObject -> stateObject) : MS () :=
  so ← obj addr;
  modify (fun s => set_stateObjects (<[addr := f so]> (stateObjects s)) s).

Definition jappend (e : journalEntry) : MS () :=
  modify (fun s => set_journal (journal_append e (journal_ s)) s).

Definition setError (err : error) : MS () :=
  modify (fun s => match savedErr s with None => set_savedErr (Some err) s | Some _ => s end).

(** ** [state_object.go] *)

Definition empty (so : stateObject) : bool :=
  (Nonce (data so) =? 0) && uint256.IsZero (Balance (data so)) &&
  (CodeHash (data so) =? emptyCodeHash).

Definition newObject (addr : Z) (data original : StateAccount) : stateObject :=
  let d := Copy_account data in
  let d := if negb (Initialised d) then set_Initialised true (set_Balance 0 d) else d in
  let d := if CodeHash d =? 0 then set_CodeHash emptyCodeHash d else d in
  mkStateObject addr d (Copy_account original) None ∅ ∅ ∅ None false false false false.

Definition touch (addr : Z) : MS () :=
  _ ← jappend (touchChange addr);
  if addr =? ripemd
  then modify (fun s => set_journal (journal_dirty addr (journal_ s)) s)
  else mret ().

(** The tail of [GetCommittedState]: remember the value read. *)
Definition so_cacheStorage (addr key out : Z) : MS Z :=
  _ ← upd addr (fun so => set_blockOriginStorage (<[key := out]> (blockOriginStorage so))
                            (set_originStorage (<[key := out]> (originStorage so)) so));
  mret out.

(** The part of [GetCommittedState] that reads the database. *)
Definition so_loadStorage (addr key : Z) (so : stateObject) : MS Z :=
  match ReadAccountStorage R addr (Incarnation (data so)) key with
  | (_, Some err) => _ ← setError err; mret 0
  | (Some enc, None) =>
      _ ← modify (fun s =>
            match snap s with
            | Some sn =>
                if written sn
                then set_snap (Some (AddStorage addr key (Incarnation (data so)) enc sn)) s
                else s
            | None => s
            end);
      so_cacheStorage addr key (uint256.SetBytes enc)
  | (None, None) => so_cacheStorage addr key 0
  end.

Definition so_GetCommittedState (addr key : Z) : MS Z :=
  so ← obj addr;
  match fakeStorage so with
  | Some fs => mret (default 0 (fs !! key))
  | None =>
  match originStorage so !! key with
  | Some value => mret value
  | None =>
  if created so then mret 0 else
  s ← get;
  match snap s with
  | Some sn =>
      if negb (written sn) then
        '(enc, err) ← must (Snapshot_ReadAccountStorage sn addr (Incarnation (data so)) key);
        match err with
        | Some err => _ ← setError err; mret 0
        | None =>
            match enc with
            | Some enc => so_cacheStorage addr key (uint256.SetBytes enc)
            | None => so_cacheStorage addr key 0
            end
        end
      else so_loadStorage addr key so
  | None => so_loadStorage addr key so
  end
  end
  end.

Definition so_GetState (addr key : Z) : MS Z :=
  so ← obj addr;
  match fakeStorage so with
  | Some fs => mret (default 0 (fs !! key))
  | None =>
      match dirtyStorage so !! key with
      | Some value => mret value
      | None => so_GetCommittedState addr key
      end
  end.

Definition setState (key value : Z) (so : stateObject) : stateObject :=
  set_dirtyStorage (<[key := value]> (dirtyStorage so)) so.

Definition so_SetState (addr key value : Z) : MS () :=
  so ← obj addr;
  match fakeStorage so with
  | Some fs =>
      _ ← jappend (fakeStorageChange addr key (default 0 (fs !! key)));
      upd addr (set_fakeStorage (Some (<[key := value]> fs)))
  | None =>
      prev ← so_GetState addr key;
      if prev =? value then mret () else
      _ ← jappend (storageChange addr key prev);
      upd addr (setState key value)
  end.

Definition so_SetStorage (addr : Z) (storage : Storage) : MS () :=
  upd addr (fun so =>
    set_fakeStorage (Some (storage ∪ default ∅ (fakeStorage so))) so).

Definition setBalance (amount : Z) (so : stateObject) : stateObject :=
  set_data (set_Initialised true (set_Balance amount (data so))) so.

Definition so_SetBalance (addr amount : Z) : MS () :=
  so ← obj addr;
  _ ← jappend (balanceChange addr (Balance (data so)));
  upd addr (setBalance amount).

Definition so_AddBalance (addr amount : Z) : MS () :=
  so ← obj addr;
  if uint256.IsZero amount
  then if empty so then touch addr else mret ()
  else so_SetBalance addr (uint256.Add (Balance (data so)) amount).

Definition so_SubBalance (addr amount : Z) : MS () :=
  so ← obj addr;
  if uint256.IsZero amount then mret ()
  else so_SetBalance addr (uint256.Sub (Balance (data so)) amount).

Definition so_setIncarnation (incarnation : Z) (so : stateObject) : stateObject :=
  set_data (set_Incarnation incarnation (data so)) so.

Definition so_Code (addr : Z) : MS (option bytes) :=
  so ← obj addr;
  match code so with
  | Some c => mret (Some c)
  | None =>
      if CodeHash (data so) =? emptyCodeHash then mret None else
      let '(c, err) := ReadAccountCode R addr (Incarnation (data so)) (CodeHash (data so)) in
      _ ← match err with
          | Some err => setError (CantLoadCode (CodeHash (data so)) err)
          | None => mret ()
          end;
      _ ← upd addr (set_code c);
      mret c
  end.

Definition setCode (codeHash : Z) (c : option bytes) (so : stateObject) : stateObject :=
  set_dirtyCode true (set_data (set_CodeHash codeHash (data so)) (set_code c so)).

Definition so_SetCode (addr codeHash : Z) (c : option bytes) : MS () :=
  prevcode ← so_Code addr;
  so ← obj addr;
  _ ← jappend (codeChange addr prevcode (CodeHash (data so)));
  upd addr (setCode codeHash c).

Definition setNonce (nonce : Z) (so : stateObject) : stateObject :=
  set_data (set_Nonce nonce (data so)) so.

Definition so_SetNonce (addr nonce : Z) : MS () :=
  so ← obj addr;
  _ ← jappend (nonceChange addr (Nonce (data so)));
  upd addr (setNonce nonce).

(** ** [intra_block_state.go]: objects *)

Definition New : IntraBlockState :=
  mkIntraBlockState ∅ ∅ ∅ None 0 0 0 0 ∅ 0 newJournal [] 0 accessList.newAccessList ∅ None ∅ 0.

Definition BeginWriteSnapshot : MS () := modify (set_snap (Some NewWritableSnapshot)).
Definition BeginWriteCodes : MS () := modify (set_codeMap ∅).
Definition SetHeight (height : Z) : MS () := modify (set_height height).

Definition setStateObject (addr : Z) (object : stateObject) : MS () :=
  s ← get;
  object ←
    match balanceInc s !! addr with
    | Some bi =>
        if negb (transferred bi) then
          let object := set_data (set_Balance
            (uint256.Add (Balance (data object)) (increase bi)) (data object)) object in
          _ ← modify (fun s => set_balanceInc
                (<[addr := mkBalanceIncrease (increase bi) true (count bi)]> (balanceInc s)) s);
          _ ← jappend (balanceIncreaseTransfer addr);
          mret object
        else mret object
    | None => mret object
    end;
  modify (fun s => set_stateObjects (<[addr := object]> (stateObjects s)) s).

Definition createObject (addr : Z) (previous : option stateObject) : MS () :=
  let original := match previous with None => zero_account | Some p => original p end in
  let newobj := setNonce 0 (newObject addr zero_account original) in
  _ ← match previous with
      | None => jappend (createObjectChange addr)
      | Some p => jappend (resetObjectChange addr p)
      end;
  setStateObject addr newobj.

(** The object is returned by value: [None] is the nil pointer. *)
Definition getStateObject (addr : Z) : MS (option stateObject) :=
  s ← get;
  match stateObjects s !! addr with
  | Some o => mret (Some o)
  | None =>
      let absent : MS (option stateObject) :=
        match balanceInc s !! addr with
        | Some bi =>
            if negb (transferred bi)
            then _ ← createObject addr None; so ← obj addr; mret (Some so)
            else mret None
        | None => mret None
        end in
      if bool_decide (addr ∈ nilAccounts s) then absent else
      match ReadAccountData R addr with
      | (_, Some err) => _ ← setError err; mret None
      | (None, None) =>
          _ ← modify (fun s => set_nilAccounts ({[addr]} ∪ nilAccounts s) s);
          absent
      | (Some account, None) =>
          _ ← modify (fun s =>
                match snap s with
                | Some sn => if written sn then set_snap (Some (AddAccount addr account sn)) s else s
                | None => s
                end);
          _ ← setStateObject addr (newObject addr account account);
          so ← obj addr;
          mret (Some so)
      end
  end.

Definition GetOrNewStateObject (addr : Z) : MS stateObject :=
  so ← getStateObject addr;
  match so with
  | Some o => if deleted o then _ ← createObject addr (Some o); obj addr else mret o
  | None => _ ← createObject addr None; obj addr
  end.

(** ** Getters *)

Definition live {A} (so : option stateObject) (dflt : A) (k : stateObject -> MS A) : MS A :=
  match so with
  | Some o => if deleted o then mret dflt else k o
  | None => mret dflt
  end.

Definition Exist (addr : Z) : MS bool :=
  so ← getStateObject addr; live so false (fun _ => mret true).

Definition Empty (addr : Z) : MS bool :=
  so ← getStateObject addr; live so true (fun o => mret (empty o)).

Definition GetBalance (addr : Z) : MS Z :=
  so ← getStateObject addr; live so 0 (fun o => mret (Balance (data o))).

Definition GetNonce (addr : Z) : MS Z :=
  so ← getStateObject addr; live so 0 (fun o => mret (Nonce (data o))).

Definition GetCode (addr : Z) : MS (option bytes) :=
  so ← getStateObject addr; live so None (fun _ => so_Code addr).

Definition GetCodeSize (addr : Z) : MS Z :=
  so ← getStateObject addr;
  live so 0 (fun o =>
    match code o with
    | Some c => mret (zlen c)
    | None =>
        let '(n, err) := ReadAccountCodeSize R addr (Incarnation (data o)) (CodeHash (data o)) in
        _ ← match err with Some err => setError err | None => mret () end;
        mret n
    end).

Definition GetCodeHash (addr : Z) : MS Z :=
  so ← getStateObject addr; live so 0 (fun o => mret (CodeHash (data o))).

Definition GetState (addr key : Z) : MS Z :=
  so ← getStateObject addr; live so 0 (fun _ => so_GetState addr key).

Definition GetCommittedState (addr key : Z) : MS Z :=
  so ← getStateObject addr; live so 0 (fun _ => so_GetCommittedState addr key).

Definition HasSelfdestructed (addr : Z) : MS bool :=
  so ← getStateObject addr;
  live so false (fun o => mret (if created o then false else selfdestructed o)).

(** [HasSuicided] has the same body. *)
Definition HasSuicided (addr : Z) : MS bool := HasSelfdestructed addr.

Definition GetIncarnation (addr : Z) : MS Z :=
  so ← getStateObject addr;
  match so with Some o => mret (Incarnation (data o)) | None => mret 0 end.

(** The field is a [uint64]. *)
Definition GetRefund : MS Z := gets (fun s => u64 (refund s)).

Definition GetLogs (hash : Z) : MS (list Log) := gets (fun s => default [] (logs s !! hash)).

(** ** Setters *)

Definition AddLog (log2 : Log) : MS () :=
  s ← get;
  _ ← jappend (addLogChange (thash s));
  let log2 := mkLog (log_Address log2) (log_Topics log2) (log_Data log2) (log_BlockNumber log2)
                (thash s) (txIndex s) (bhash s) (logSize s) (log_Removed log2) in
  _ ← modify (fun s => set_logs (<[thash s := default [] (logs s !! thash s) ++ [log2]]> (logs s)) s);
  modify (fun s => set_logSize (u64 (logSize s + 1)) s).

Definition AddRefund (gas : Z) : MS () :=
  s ← get;
  _ ← jappend (refundChange (refund s));
  modify (fun s => set_refund (u64 (refund s + gas)) s).

Definition SubRefund (gas : Z) : MS () :=
  s ← get;
  _ ← jappend (refundChange (refund s));
  _ ← (if refund s <? gas then setError RefundBelowZero else mret ());
  modify (fun s => set_refund (u64 (refund s - gas)) s).

Definition AddBalance (addr amount : Z) : MS () :=
  s ← get;
  let needAccount := match stateObjects s !! addr with Some _ => true | None => false end in
  let needAccount :=
    if negb needAccount && (addr =? ripemd) && uint256.IsZero amount then true else needAccount in
  if negb needAccount then
    _ ← jappend (balanceIncrease addr amount);
    let bi := default (mkBalanceIncrease 0 false 0) (balanceInc s !! addr) in
    modify (fun s => set_balanceInc
      (<[addr := mkBalanceIncrease (uint256.Add (increase bi) amount) (transferred bi) (count bi + 1)]>
         (balanceInc s)) s)
  else
    _ ← GetOrNewStateObject addr;
    so_AddBalance addr amount.

Definition SubBalance (addr amount : Z) : MS () :=
  _ ← GetOrNewStateObject addr; so_SubBalance addr amount.

Definition SetBalance (addr amount : Z) : MS () :=
  _ ← GetOrNewStateObject addr; so_SetBalance addr amount.

Definition SetNonce (addr nonce : Z) : MS () :=
  _ ← GetOrNewStateObject addr; so_SetNonce addr nonce.

Definition SetCode (addr : Z) (c : option bytes) : MS () :=
  _ ← GetOrNewStateObject addr; so_SetCode addr (Keccak256 (default [] c)) c.

Definition SetState (addr key value : Z) : MS () :=
  _ ← GetOrNewStateObject addr; so_SetState addr key value.

Definition SetStorage (addr : Z) (storage : Storage) : MS () :=
  _ ← GetOrNewStateObject addr; so_SetStorage addr storage.

Definition SetIncarnation (addr incarnation : Z) : MS () :=
  _ ← GetOrNewStateObject addr; upd addr (so_setIncarnation incarnation).

Definition Selfdestruct (addr : Z) : MS bool :=
  so ← getStateObject addr;
  live so false (fun o =>
    _ ← jappend (selfdestructChange addr (selfdestructed o) (Balance (data o)));
    _ ← upd addr (fun o => set_selfdestructed true o);
    _ ← upd addr (fun o => set_created false o);
    _ ← upd addr (fun o => set_data (set_Balance 0 (data o)) o);
    mret true).

(** [Suicide] has the same body. *)
Definition Suicide (addr : Z) : MS bool := Selfdestruct addr.

Definition CreateAccount (addr : Z) (contractCreation : bool) : MS () :=
  previous ← getStateObject addr;
  let prevInc :=
    if contractCreation then
      let from_db :=
        match ReadAccountIncarnation R addr with
        | (inc, None) => inc
        | (_, Some _) => 0
        end in
      match previous with
      | Some p => if selfdestructed p then Incarnation (data p) else from_db
      | None => from_db
      end
    else 0 in
  _ ← createObject addr previous;
  _ ← match previous with
      | Some p => upd addr (setBalance (Balance (data p)))
      | None => mret ()
      end;
  if contractCreation
  then upd addr (fun o => set_data (set_Incarnation (u16 (prevInc + 1)) (data o)) (set_created true o))
  else upd addr (set_selfdestructed false).

(** ** Access list *)

Definition zoom_al {A} (m : M accessList.accessList A) : MS A := zoom accessList_ set_accessList m.

Definition AddAddressToAccessList (addr : Z) : MS () :=
  b ← zoom_al (accessList.AddAddress addr);
  if b : bool then jappend (accessListAddAccountChange addr) else mret ().

Definition AddSlotToAccessList (addr slot : Z) : MS () :=
  '(addrMod, slotMod) ← zoom_al (accessList.AddSlot addr slot);
  _ ← (if addrMod : bool then jappend (accessListAddAccountChange addr) else mret ());
  if slotMod : bool then jappend (accessListAddSlotChange addr slot) else mret ().

Definition AddressInAccessList (addr : Z) : MS bool :=
  gets (fun s => accessList.ContainsAddress (accessList_ s) addr).

Definition SlotInAccessList (addr slot : Z) : MS (bool * bool) :=
  zoom_al (accessList.Contains addr slot).

Fixpoint for_each {A} (f : A -> MS ()) (l : list A) : MS () :=
  match l with
  | [] => mret ()
  | x :: l => _ ← f x; for_each f l
  end.

Definition PrepareAccessList (sender : Z) (dst : option Z) (precompiles : list Z)
    (list : list (Z * list Z)) : MS () :=
  _ ← AddAddressToAccessList sender;
  _ ← match dst with Some d => AddAddressToAccessList d | None => mret () end;
  _ ← for_each AddAddressToAccessList precompiles;
  for_each (fun '(addr, keys) =>
    _ ← AddAddressToAccessList addr;
    for_each (AddSlotToAccessList addr) keys) list.

(** ** Journal reverts *)

Definition revert_entry (e : journalEntry) : MS () :=
  let on_object addr f : MS () :=
    so ← getStateObject addr;
    match so with Some _ => upd addr f | None => panic end in
  match e with
  | createObjectChange a =>
      _ ← modify (fun s => set_stateObjects (delete a (stateObjects s)) s);
      modify (fun s => set_stateObjectsDirty (stateObjectsDirty s ∖ {[a]}) s)
  | resetObjectChange a prev => setStateObject a prev
  | selfdestructChange a prev prevbalance =>
      so ← getStateObject a;
      match so with
      | Some _ =>
          _ ← upd a (set_selfdestructed prev);
          upd a (setBalance prevbalance)
      | None => mret ()
      end
  | touchChange _ => mret ()
  | balanceChange a prev => on_object a (setBalance prev)
  | balanceIncrease a incr =>
      modify (fun s =>
        match balanceInc s !! a with
        | Some bi =>
            let bi := mkBalanceIncrease (uint256.Sub (increase bi) incr) (transferred bi) (count bi - 1) in
            set_balanceInc (if count bi =? 0 then delete a (balanceInc s)
                            else <[a := bi]> (balanceInc s)) s
        | None => s
        end)
  | balanceIncreaseTransfer a =>
      modify (fun s =>
        match balanceInc s !! a with
        | Some bi => set_balanceInc (<[a := mkBalanceIncrease (increase bi) false (count bi)]> (balanceInc s)) s
        | None => s
        end)
  | nonceChange a prev => on_object a (setNonce prev)
  | codeChange a prevcode prevhash => on_object a (setCode prevhash prevcode)
  | storageChange a key prevalue => on_object a (setState key prevalue)
  | fakeStorageChange a key prevalue =>
      so ← getStateObject a;
      match so with
      | Some o =>
          match fakeStorage o with
          | Some fs => upd a (set_fakeStorage (Some (<[key := prevalue]> fs)))
          | None => panic
          end
      | None => panic
      end
  | refundChange prev => modify (set_refund prev)
  | addLogChange txhash =>
      s ← get;
      let l := default [] (logs s !! txhash) in
      _ ← (if zlen l =? 1 then modify (fun s => set_logs (delete txhash (logs s)) s)
           else if zlen l =? 0 then panic
           else modify (fun s => set_logs (<[txhash := take (length l - 1) l]> (logs s)) s));
      modify (fun s => set_logSize (u64 (logSize s - 1)) s)
  | accessListAddAccountChange a => zoom_al (accessList.DeleteAddress a)
  | accessListAddSlotChange a slot => zoom_al (accessList.DeleteSlot a slot)
  end.

(** The loop of [journal.revert]: entries [snapshot + n - 1] down to [snapshot]. *)
Fixpoint journal_revert_loop (n : nat) (snapshot : nat) : MS () :=
  match n with
  | O => mret ()
  | S n =>
      s ← get;
      e ← must (entries (journal_ s) !! (snapshot + n)%nat);
      _ ← revert_entry e;
      _ ← modify (fun s => set_journal (journal_undirty e (journal_ s)) s);
      journal_revert_loop n snapshot
  end.

Definition journal_revert (snapshot : Z) : MS () :=
  s ← get;
  _ ← journal_revert_loop (length (entries (journal_ s)) - Z.to_nat snapshot) (Z.to_nat snapshot);
  s ← get;
  if (snapshot <? 0) || (journal_length (journal_ s) <? snapshot) then panic else
  modify (fun s => set_journal
    (mkJournal (take (Z.to_nat snapshot) (entries (journal_ s))) (dirties (journal_ s))) s).

Definition Snapshot_ : MS Z :=
  s ← get;
  let id := nextRevisionID s in
  _ ← modify (set_nextRevisionID (id + 1));
  _ ← modify (fun s => set_validRevisions
        (validRevisions s ++ [mkRevision id (journal_length (journal_ s))]) s);
  mret id.

(** [sort.Search] of the standard library: the least index in [i, j) at which
    the predicate holds, by bisection. *)
Fixpoint sort_Search (fuel : nat) (f : Z -> option bool) (i j : Z) : outcome Z :=
  if negb (i <? j) then Done i else
  match fuel with
  | O => NoFuel
  | S fuel =>
      let h := Z.shiftr (i + j) 1 in
      match f h with
      | None => GoPanic
      | Some false => sort_Search fuel f (h + 1) j
      | Some true => sort_Search fuel f i h
      end
  end.

Definition RevertToSnapshot (revid : Z) : MS () :=
  s ← get;
  idx ← (fun s0 => match sort_Search (S (length (validRevisions s)))
                          (fun i => r ← znth (validRevisions s) i; mret (revid <=? id r))
                          0 (zlen (validRevisions s)) with
                   | Done i => Done (i, s0) | GoPanic => GoPanic | NoFuel => NoFuel end);
  if idx =? zlen (validRevisions s) then panic else
  r ← must (znth (validRevisions s) idx);
  if negb (id r =? revid) then panic else
  _ ← journal_revert (journalIndex r);
  modify (fun s => set_validRevisions (take (Z.to_nat idx) (validRevisions s)) s).

(** ** Transfers ([internal/evm.go]) *)

Definition CanTransfer (addr amount : Z) : MS bool :=
  b ← GetBalance addr; mret (negb (uint256.Lt b amount)).

Definition Transfer (sender recipient amount : Z) (bailout : bool) : MS () :=
  _ ← (if negb bailout then SubBalance sender amount else mret ());
  AddBalance recipient amount.

(** [BorTransfer] differs only by comments. *)
Definition BorTransfer (sender recipient amount : Z) (bailout : bool) : MS () :=
  _ ← (if negb bailout then SubBalance sender amount else mret ());
  AddBalance recipient amount.

End State.

(** * The intra-block state: invariant and observational equivalence

    [Inv] is what every operation of the state preserves.  [eqv] relates two
    states that no sequence of reads can tell apart: which database accounts
    happen to be loaded, which storage slots and codes are cached, the memory of
    missing accounts and the sticky read error do not count.  The dirty-code mark
    is not part of it either: a reverted code change leaves it set. *)

Section StateInv.
Context {U : Uint256} {UL : Uint256Laws U} {C : Crypto} {K : AccountCodec} (R : StateReader).

(** The database has no account at this address (or cannot read it). *)
Definition absent (a : Z) : Prop := forall acc, ReadAccountData R a <> (Some acc, None).

(** Balances the database returns are 256-bit words. *)
Definition reader_wf : Prop :=
  forall a acc, ReadAccountData R a = (Some acc, None) -> word (Balance acc).

(** ** The effective object of an address *)

Definition db_object (a : Z) : option stateObject :=
  match ReadAccountData R a with
  | (Some acc, None) => Some (newObject a acc acc)
  | _ => None
  end.

Definition eff (s : IntraBlockState) (a : Z) : option stateObject :=
  match stateObjects s !! a with Some o => Some o | None => db_object a end.

(** The snapshot storage is read from, if it is not being written. *)
Definition readable (s : IntraBlockState) : option Snapshot :=
  match snap s with Some sn => if written sn then None else Some sn | None => None end.

Definition db_value (rs : option Snapshot) (a inc k : Z) : Z :=
  match rs with
  | Some sn =>
      match Snapshot_ReadAccountStorage sn a inc k with
      | Some (Some enc, None) => uint256.SetBytes enc
      | _ => 0
      end
  | None =>
      match ReadAccountStorage R a inc k with
      | (Some enc, None) => uint256.SetBytes enc
      | _ => 0
      end
  end.

(** What [GetCommittedState], [GetState] and [Code] answer on an object. *)
Definition committed_view (rs : option Snapshot) (o : stateObject) (k : Z) : Z :=
  match originStorage o !! k with
  | Some v => v
  | None => if created o then 0 else db_value rs (address o) (Incarnation (data o)) k
  end.

Definition state_view (rs : option Snapshot) (o : stateObject) (k : Z) : Z :=
  match dirtyStorage o !! k with Some v => v | None => committed_view rs o k end.

Definition code_view (o : stateObject) : option bytes :=
  match code o with
  | Some c => Some c
  | None =>
      if CodeHash (data o) =? emptyCodeHash then None
      else (ReadAccountCode R (address o) (Incarnation (data o)) (CodeHash (data o))).1
  end.

Record obj_eqv (rs : option Snapshot) (o o' : stateObject) : Prop := {
  oe_address : address o = address o';
  oe_data : data o = data o';
  oe_original : original o = original o';
  oe_fake : fakeStorage o = fakeStorage o';
  oe_sd : selfdestructed o = selfdestructed o';
  oe_deleted : deleted o = deleted o';
  oe_created : created o = created o';
  oe_code : code_view o = code_view o';
  oe_committed k : committed_view rs o k = committed_view rs o' k;
  oe_state k : state_view rs o k = state_view rs o' k
}.

#[global] Instance obj_eqv_equiv rs : Equivalence (obj_eqv rs).
Proof.
  split.
  - intros o. by constructor.
  - intros o o' []. by constructor.
  - intros o1 o2 o3 [] []. constructor; intros; etransitivity; eauto.
Qed.

(** Everything but the objects. *)
Record same_rest (s s' : IntraBlockState) : Prop := {
  sr_bi : balanceInc s = balanceInc s';
  sr_refund : refund s = refund s';
  sr_logs h : default [] (logs s !! h) = default [] (logs s' !! h);
  sr_logSize : logSize s = logSize s';
  sr_al : accessList_ s = accessList_ s';
  sr_thash : thash s = thash s';
  sr_bhash : bhash s = bhash s';
  sr_txIndex : txIndex s = txIndex s';
  sr_snap : readable s = readable s'
}.

#[global] Instance same_rest_equiv : Equivalence same_rest.
Proof.
  split.
  - intros s. by constructor.
  - intros s s' []. by constructor.
  - intros s1 s2 s3 [] []. constructor; intros; etransitivity; eauto.
Qed.

Record eqv (s s' : IntraBlockState) : Prop := {
  eq_obj a : option_Forall2 (obj_eqv (readable s)) (eff s a) (eff s' a);
  eq_rest : same_rest s s'
}.

#[global] Instance eqv_equiv : Equivalence eqv.
Proof.
  split.
  - intros s. by constructor.
  - intros s s' [Ho Hr]. constructor; [|by symmetry].
    intros a. rewrite <- (sr_snap _ _ Hr). by symmetry.
  - intros s1 s2 s3 [Ho1 Hr1] [Ho2 Hr2]. constructor; [|by etransitivity].
    intros a. rewrite <- (sr_snap _ _ Hr1) in Ho2. etransitivity; eauto.
Qed.

(** ** The invariant *)

Record obj_wf (a : Z) (o : stateObject) : Prop := {
  ow_address : address o = a;
  ow_init : Initialised (data o) = true;
  ow_balance : word (Balance (data o));
  ow_fake : fakeStorage o = None
}.

Record Inv (s : IntraBlockState) : Prop := {
  inv_obj a o : stateObjects s !! a = Some o -> obj_wf a o;
  inv_nil a : a ∈ nilAccounts s -> ReadAccountData R a = (None, None);
  inv_bi a bi : balanceInc s !! a = Some bi ->
    absent a /\ (transferred bi = true <-> is_Some (stateObjects s !! a)) /\
    word (increase bi) /\ 0 < count bi;
  inv_al : accessList.wf (accessList_ s);
  inv_log : 0 <= logSize s < two64
}.

Lemma absent_db a : absent a <-> db_object a = None.
Proof.
  unfold absent, db_object. destruct (ReadAccountData R a) as [[acc|] [err|]]; split; try done.
  intros H. by destruct (H acc).
Qed.

Lemma eff_in s a o : stateObjects s !! a = Some o -> eff s a = Some o.
Proof. unfold eff. by intros ->. Qed.

Lemma eff_absent s a : absent a -> eff s a = stateObjects s !! a.
Proof. intros H%absent_db. unfold eff. rewrite H. by destruct (stateObjects s !! a). Qed.

Lemma newObject_wf a acc orig : word (Balance acc) -> obj_wf a (newObject a acc orig).
Proof.
  intros Hb. unfold newObject, Copy_account. split; cbn; try done.
  - destruct (Initialised acc); cbn; by destruct (CodeHash acc =? 0).
  - destruct (Initialised acc); cbn; by destruct (CodeHash acc =? 0).
Qed.

Lemma db_object_wf a o : reader_wf -> db_object a = Some o -> obj_wf a o.
Proof.
  intros Hr. unfold db_object. destruct (ReadAccountData R a) as [[acc|] [err|]] eqn:E; try done.
  intros [= <-]. apply newObject_wf. eauto.
Qed.

Lemma eff_wf s a o : reader_wf -> Inv s -> eff s a = Some o -> obj_wf a o.
Proof.
  intros Hr Hi. unfold eff. destruct (stateObjects s !! a) eqn:E.
  - intros [= <-]. by apply Hi.
  - by apply db_object_wf.
Qed.

End StateInv.
