(* ===== verification/StateRollback.v ===== *)
(** * The intra-block state: snapshots roll back

    Every operation leaves behind journal entries whose reverts lead back to an
    equivalent state; operations compose; and therefore [RevertToSnapshot]
    restores the state in which the snapshot was taken, whatever guarded
    operations, nested snapshots and nested reverts came in between. *)

From S2P Require Import Prelude Uint256 Params Common AccessList StateTypes State.

Section Rollback.
Context {U : Uint256} {UL : Uint256Laws U} {C : Crypto} {K : AccountCodec} (R : StateReader).
Context (HR : reader_wf R).

Notation MS := (M IntraBlockState).
Notation absent := (absent R).
Notation eff := (eff R).
Notation eqv := (eqv R).
Notation obj_eqv := (obj_eqv R).
Notation Inv := (Inv R).

(** ** Control data: what a quiet step leaves alone *)

Record ctl_eq (s s' : IntraBlockState) : Prop := {
  ce_journal : journal_ s = journal_ s';
  ce_revs : validRevisions s = validRevisions s';
  ce_next : nextRevisionID s = nextRevisionID s'
}.

#[global] Instance ctl_eq_equiv : Equivalence ctl_eq.
Proof.
  split; [intros s; by constructor | intros s s' []; by constructor |].
  intros s1 s2 s3 [] []. constructor; etransitivity; eauto.
Qed.

(** A step that only fills caches. *)
Record quiet (s s' : IntraBlockState) : Prop := {
  q_inv : Inv s';
  q_eqv : eqv s' s;
  q_ctl : ctl_eq s' s
}.

Lemma quiet_trans s1 s2 s3 : quiet s1 s2 -> quiet s2 s3 -> quiet s1 s3.
Proof. intros [] []. split; [done|by etransitivity..]. Qed.

(** ** Replacing one object *)

Definition with_obj (a : Z) (o : stateObject) (s : IntraBlockState) : IntraBlockState :=
  set_stateObjects (<[a := o]> (stateObjects s)) s.

Lemma obj_Done a s r : obj a s = Done r -> exists o, stateObjects s !! a = Some o /\ r = (o, s).
Proof.
  unfold obj, mbind, M_bind, get, must. destruct (stateObjects s !! a) as [o|]; [|done].
  intros [= <-]. eauto.
Qed.

Lemma obj_run a s o : stateObjects s !! a = Some o -> obj a s = Done (o, s).
Proof. intros H. unfold obj, mbind, M_bind, get, must. by rewrite H. Qed.

Lemma upd_run a f s o : stateObjects s !! a = Some o -> upd a f s = Done ((), with_obj a (f o) s).
Proof. intros H. unfold upd, mbind, M_bind. by rewrite (obj_run _ _ _ H). Qed.

Lemma upd_Done a f s r :
  upd a f s = Done r -> exists o, stateObjects s !! a = Some o /\ r = ((), with_obj a (f o) s).
Proof.
  unfold upd. intros (o & s1 & H & Hk)%bind_Done. apply obj_Done in H as (o' & Ho & [= -> ->]).
  unfold modify in Hk. injection Hk as <-. by exists o'.
Qed.

Lemma eff_with_obj a o s b : eff (with_obj a o s) b = if decide (b = a) then Some o else eff s b.
Proof.
  unfold State.eff, with_obj. cbn. destruct (decide (b = a)) as [->|].
  - by rewrite lookup_insert_eq.
  - by rewrite lookup_insert_ne.
Qed.

Lemma with_obj_rest a o s : same_rest (with_obj a o s) s.
Proof. by constructor. Qed.

Lemma Inv_with_obj a o o' s :
  Inv s -> stateObjects s !! a = Some o -> obj_wf a o' -> Inv (with_obj a o' s).
Proof.
  intros [] Ho Hw. split; cbn; try done.
  - intros b x [[<- <-]|[? Hx]]%lookup_insert_Some; eauto.
  - intros b bi Hb. destruct (inv_bi b bi Hb) as (? & Ht & ? & ?). split_and!; try done.
    rewrite Ht, lookup_insert_is_Some'. destruct (decide (b = a)) as [->|]; [|naive_solver].
    rewrite Ho. naive_solver.
Qed.

(** Two states that agree outside [a] and have equivalent objects at [a]. *)
Lemma eqv_at t s a o1 o2 :
  same_rest t s -> eff t a = Some o1 -> eff s a = Some o2 -> obj_eqv (readable t) o1 o2 ->
  (forall b, b <> a -> option_Forall2 (obj_eqv (readable t)) (eff t b) (eff s b)) -> eqv t s.
Proof.
  intros Hr H1 H2 Ho Hb. split; [|done]. intros b. destruct (decide (b = a)) as [->|]; [|auto].
  rewrite H1, H2. by constructor.
Qed.

(** ** [getStateObject] *)

(** A database account that is not loaded yet is loaded. *)
Definition load_snap (a : Z) (account : StateAccount) (s : IntraBlockState) : IntraBlockState :=
  match snap s with
  | Some sn => if written sn then set_snap (Some (AddAccount a account sn)) s else s
  | None => s
  end.

Lemma load_snap_fields a acc s :
  stateObjects (load_snap a acc s) = stateObjects s /\
  balanceInc (load_snap a acc s) = balanceInc s /\
  same_rest (load_snap a acc s) s /\ ctl_eq (load_snap a acc s) s /\
  (Inv s -> Inv (load_snap a acc s)).
Proof.
  unfold load_snap. destruct (snap s) as [sn|] eqn:E; [|split_and!; try done; reflexivity].
  destruct (written sn) eqn:Hw; [|split_and!; try done; reflexivity].
  split_and!; try done; [|intros []; by constructor].
  constructor; try done. unfold readable. cbn. rewrite E, Hw.
  unfold AddAccount. by rewrite Hw.
Qed.

Lemma setStateObject_nobi a o s :
  balanceInc s !! a = None -> setStateObject a o s = Done ((), with_obj a o s).
Proof. intros H. unfold setStateObject, mbind, M_bind, get. by rewrite H. Qed.

Lemma getStateObject_eff t a o :
  Inv t -> eff t a = Some o ->
  exists t1, getStateObject R a t = Done (Some o, t1) /\ stateObjects t1 !! a = Some o /\ quiet t t1.
Proof.
  intros Hi Ho. unfold getStateObject. unfold State.eff in Ho.
  unfold mbind at 1, M_bind at 1, get. destruct (stateObjects t !! a) as [o'|] eqn:E.
  { injection Ho as ->. exists t. split_and!; try done. }
  unfold db_object in Ho. destruct (ReadAccountData R a) as [[acc|] [err|]] eqn:Er; try done.
  injection Ho as <-. case_bool_decide as Hn.
  { apply (inv_nil _ _ Hi) in Hn. congruence. }
  destruct (load_snap_fields a acc t) as (L1 & L2 & L3 & L4 & L5).
  assert (balanceInc t !! a = None) as Hb.
  { destruct (balanceInc t !! a) as [bi|] eqn:Hb; [|done].
    destruct (inv_bi _ _ Hi a bi Hb) as (Ha & _). by destruct (Ha acc). }
  unfold modify, mbind, M_bind. fold (load_snap a acc t).
  rewrite setStateObject_nobi by (by rewrite L2).
  rewrite (obj_run _ _ (newObject a acc acc)) by (cbn; apply lookup_insert_eq).
  eexists; split; [done|]. split; [cbn; apply lookup_insert_eq|].
  assert (obj_wf a (newObject a acc acc)) as Hw by (apply newObject_wf; eauto).
  split.
  - specialize (L5 Hi). destruct L5. split; cbn; try done.
    + intros b x [[<- <-]|[? Hx]]%lookup_insert_Some; eauto.
    + intros b bi Hb'. destruct (inv_bi b bi Hb') as (Ha & Ht & ? & ?). split_and!; try done.
      rewrite Ht. destruct (decide (b = a)) as [->|]; [by destruct (Ha acc)|].
      by rewrite lookup_insert_ne.
  - split; [|etransitivity; [apply with_obj_rest | exact L3]].
    intros b. rewrite eff_with_obj. destruct (decide (b = a)) as [->|].
    + unfold State.eff, db_object. rewrite E, Er. by constructor.
    + unfold State.eff. rewrite L1. reflexivity.
  - etransitivity; [|exact L4]. by constructor.
Qed.

(** The object [getStateObject] builds for a missing account that has received
    a balance increase. *)
Definition fresh_obj (a : Z) (bi : BalanceIncrease) : stateObject :=
  let o := setNonce 0 (newObject a zero_account zero_account) in
  set_data (set_Balance (uint256.Add (Balance (data o)) (increase bi)) (data o)) o.

(** The state after a missing account was created. *)
Definition created_state (a : Z) (s : IntraBlockState) : IntraBlockState :=
  let s := set_journal (journal_append (createObjectChange a) (journal_ s)) s in
  match balanceInc s !! a with
  | Some bi =>
      with_obj a (fresh_obj a bi)
        (set_journal (journal_append (balanceIncreaseTransfer a) (journal_ s))
          (set_balanceInc (<[a := mkBalanceIncrease (increase bi) true (count bi)]> (balanceInc s)) s))
  | None => with_obj a (setNonce 0 (newObject a zero_account zero_account)) s
  end.

Lemma untransferred s a bi :
  Inv s -> stateObjects s !! a = None -> balanceInc s !! a = Some bi -> transferred bi = false.
Proof.
  intros Hi Ha Hb. destruct (inv_bi _ _ Hi a bi Hb) as (_ & Ht & _).
  destruct (transferred bi); [|done]. destruct (proj1 Ht eq_refl) as [x Hx]. congruence.
Qed.

Lemma createObject_None s a :
  Inv s -> stateObjects s !! a = None -> createObject a None s = Done ((), created_state a s).
Proof.
  intros Hi Ha. unfold createObject, setStateObject, jappend, mbind, M_bind, get, modify, created_state.
  cbn [balanceInc set_journal]. destruct (balanceInc s !! a) as [bi|] eqn:Hb; [|done].
  rewrite (untransferred s a bi) by done. done.
Qed.

(** The three ways [getStateObject] can return. *)
Inductive gso_spec (a : Z) (s : IntraBlockState) : option stateObject -> IntraBlockState -> Prop :=
| gso_found o s1 :
    eff s a = Some o -> stateObjects s1 !! a = Some o -> quiet s s1 -> gso_spec a s (Some o) s1
| gso_none s1 :
    absent a -> stateObjects s1 !! a = None ->
    (balanceInc s !! a = None \/ is_Some (ReadAccountData R a).2) -> quiet s s1 ->
    gso_spec a s None s1
| gso_created s1 o :
    absent a -> stateObjects s1 !! a = None -> is_Some (balanceInc s !! a) -> quiet s s1 ->
    ReadAccountData R a = (None, None) ->
    stateObjects (created_state a s1) !! a = Some o -> gso_spec a s (Some o) (created_state a s1).

Lemma quiet_refl s : Inv s -> quiet s s.
Proof. intros H. by split. Qed.

Lemma quiet_savedErr s v : Inv s -> quiet s (set_savedErr v s).
Proof. intros Hi. split; [destruct Hi; by split | split; [intros a; reflexivity | by constructor] | by constructor]. Qed.

Lemma quiet_setError s err : Inv s -> exists s1, setError err s = Done ((), s1) /\ quiet s s1.
Proof.
  intros Hi. unfold setError, modify. eexists; split; [done|].
  destruct (savedErr s); [by apply quiet_refl | by apply quiet_savedErr].
Qed.

Lemma quiet_nil s a : Inv s -> ReadAccountData R a = (None, None) -> quiet s (set_nilAccounts ({[a]} ∪ nilAccounts s) s).
Proof.
  intros Hi Ha. split; [destruct Hi; split; try done | split; [intros b; reflexivity | by constructor] | by constructor].
  cbn. intros b [->%elem_of_singleton|?]%elem_of_union; auto.
Qed.

Lemma setError_fields err s r : setError err s = Done r ->
  stateObjects r.2 = stateObjects s /\ balanceInc r.2 = balanceInc s.
Proof. unfold setError, modify. intros [= <-]. cbn. by destruct (savedErr s). Qed.

Lemma getStateObject_spec s a :
  Inv s -> exists r s', getStateObject R a s = Done (r, s') /\ gso_spec a s r s'.
Proof.
  intros Hi. destruct (eff s a) as [o|] eqn:He.
  { destruct (getStateObject_eff s a o Hi He) as (s1 & E & H1 & H2).
    exists (Some o), s1. split; [done|]. by constructor. }
  assert (absent a) as Ha.
  { apply absent_db. unfold State.eff in He. by destruct (stateObjects s !! a). }
  rewrite (eff_absent _ _ _ Ha) in He.
  assert (forall s1, quiet s s1 -> stateObjects s1 = stateObjects s -> balanceInc s1 = balanceInc s ->
    ReadAccountData R a = (None, None) -> exists r s', (match balanceInc s !! a with
      | Some bi => if negb (transferred bi)
                   then _ ← createObject a None; so ← obj a; mret (Some so)
                   else mret None
      | None => mret None
      end : MS (option stateObject)) s1 = Done (r, s') /\ gso_spec a s r s') as Habs.
  { intros s1 Hq Hs Hb1 Hnn. destruct (balanceInc s !! a) as [bi|] eqn:Hb.
    2:{ exists None, s1. split; [done|]. constructor; try done; [by rewrite Hs | by left]. }
    rewrite (untransferred s a bi) by done. cbn [negb].
    unfold mbind, M_bind. rewrite createObject_None by (apply Hq || by rewrite Hs).
    assert (exists o, stateObjects (created_state a s1) !! a = Some o) as [o Ho].
    { unfold created_state. cbn [balanceInc set_journal]. rewrite Hb1, Hb.
      eexists. cbn. apply lookup_insert_eq. }
    rewrite (obj_run _ _ _ Ho). exists (Some o), (created_state a s1). split; [done|].
    apply gso_created; rewrite ?Hs, ?Hb; done. }
  unfold getStateObject. unfold mbind at 1, M_bind at 1, get. rewrite He.
  case_bool_decide as Hn.
  { apply Habs; [by apply quiet_refl|done|done|by apply (inv_nil _ _ Hi)]. }
  destruct (ReadAccountData R a) as [[acc|] [err|]] eqn:Er; [| by destruct (Ha acc) | |].
  1,2: destruct (quiet_setError s err Hi) as (s1 & E & Hq);
       destruct (setError_fields _ _ _ E) as [Hs Hb];
       unfold mbind, M_bind; rewrite E; exists None, s1; split; [done|];
       constructor; try done; [cbn in Hs; by rewrite Hs | right; rewrite Er; by eexists].
  unfold mbind at 1, M_bind at 1, modify. apply Habs; [by apply quiet_nil|done..].
Qed.

(** ** Undoing journal entries *)

Lemma for_each_app {A} (f : A -> MS ()) l k s :
  for_each f (l ++ k) s = (for_each f l ≫= fun _ => for_each f k) s.
Proof.
  revert s; induction l as [|x l IH]; intros s; [done|]. cbn [app for_each].
  unfold mbind, M_bind in *. destruct (f x s) as [[[] s1]| |]; done || apply IH.
Qed.

(** One turn of the loop of [journal.revert]. *)
Definition revert_step (e : journalEntry) : MS () :=
  _ ← revert_entry R e;
  modify (fun s => set_journal (journal_undirty e (journal_ s)) s).

(** The control data after the entries [es] were reverted, in this order. *)
Record rewound (es : list journalEntry) (t t' : IntraBlockState) : Prop := {
  rw_journal : journal_ t' = foldl (fun j e => journal_undirty e j) (journal_ t) es;
  rw_revs : validRevisions t' = validRevisions t;
  rw_next : nextRevisionID t' = nextRevisionID t
}.

Lemma rewound_app es1 es2 t1 t2 t3 :
  rewound es1 t1 t2 -> rewound es2 t2 t3 -> rewound (es1 ++ es2) t1 t3.
Proof. intros [] []. split; [rewrite foldl_app|..]; congruence. Qed.

(** From any state equivalent to [s'], reverting [es] from the last entry to the
    first succeeds and ends in a state equivalent to [s]. *)
Definition undo (es : list journalEntry) (s' s : IntraBlockState) : Prop :=
  forall t, Inv t -> eqv t s' ->
    exists t', for_each revert_step (rev es) t = Done ((), t') /\
      Inv t' /\ eqv t' s /\ rewound (rev es) t t'.

Lemma undo_nil s' s : eqv s' s -> undo [] s' s.
Proof. intros H t Hi Ht. exists t. split_and!; try done; by etransitivity. Qed.

Lemma undo_app es1 es2 s2 s1 s0 : undo es2 s2 s1 -> undo es1 s1 s0 -> undo (es1 ++ es2) s2 s0.
Proof.
  intros H2 H1 t Hi Ht. destruct (H2 t Hi Ht) as (t1 & E1 & Hi1 & Ht1 & Hc1).
  destruct (H1 t1 Hi1 Ht1) as (t2 & E2 & Hi2 & Ht2 & Hc2). exists t2.
  rewrite rev_app_distr, for_each_app. unfold mbind, M_bind. rewrite E1, E2.
  split_and!; try done. by eapply rewound_app.
Qed.

Lemma undo_eqv es s'' s' s s0 : eqv s'' s' -> undo es s' s -> eqv s s0 -> undo es s'' s0.
Proof.
  intros H1 H H2 t Hi Ht. destruct (H t Hi) as (t' & E & Hi' & Ht' & Hc); [by etransitivity|].
  exists t'. split_and!; try done; by etransitivity.
Qed.

Lemma undo_one e s' s :
  (forall t, Inv t -> eqv t s' ->
     exists t', revert_entry R e t = Done ((), t') /\ Inv t' /\ eqv t' s /\ ctl_eq t' t) ->
  undo [e] s' s.
Proof.
  intros H t Hi Ht. destruct (H t Hi Ht) as (t' & E & Hi' & Ht' & [Hj Hv Hn]).
  exists (set_journal (journal_undirty e (journal_ t')) t'). split_and!.
  - cbn [rev app for_each]. unfold revert_step, mbind, M_bind. by rewrite E.
  - destruct Hi'. by split.
  - destruct Ht' as [Ho Hr]. split; [exact Ho|]. destruct Hr. by split.
  - split; cbn; congruence.
Qed.

(** The dirty counters an entry list adds to; the RIPEMD precompile is exempt. *)
Definition bump (d : gmap Z Z) (e : journalEntry) : gmap Z Z :=
  match dirtied e with Some a => <[a := default 0 (d !! a) + 1]> d | None => d end.

Definition dirt_eq (d d' : gmap Z Z) : Prop := forall b, b <> ripemd -> d !! b = d' !! b.

#[global] Instance dirt_eq_equiv : Equivalence dirt_eq.
Proof.
  split; [by intros d b | intros d d' H b ?; symmetry; auto |].
  intros d1 d2 d3 H1 H2 b ?. rewrite H1, H2; auto.
Qed.

#[global] Instance bump_proper : Proper (dirt_eq ==> eq ==> dirt_eq) bump.
Proof.
  intros d d' H e _ <- b Hb. unfold bump. destruct (dirtied e) as [a|]; [|auto].
  destruct (decide (b = a)) as [->|].
  - rewrite !lookup_insert_eq, H; done.
  - rewrite !lookup_insert_ne by done. auto.
Qed.

Lemma bumps_proper es d d' : dirt_eq d d' -> dirt_eq (foldl bump d es) (foldl bump d' es).
Proof.
  revert d d'; induction es as [|e es IH]; intros d d' H; cbn; [done|].
  apply IH. by apply bump_proper.
Qed.

Lemma entries_append e j : entries (journal_append e j) = entries j ++ [e].
Proof. unfold journal_append, journal_dirty. by destruct (dirtied e). Qed.

Lemma dirties_append e j : dirties (journal_append e j) = bump (dirties j) e.
Proof. unfold journal_append, journal_dirty, bump. by destruct (dirtied e). Qed.

(** The journal grew by [es]. *)
Record grown (es : list journalEntry) (s s' : IntraBlockState) : Prop := {
  gr_entries : entries (journal_ s') = entries (journal_ s) ++ es;
  gr_dirties : dirt_eq (dirties (journal_ s')) (foldl bump (dirties (journal_ s)) es);
  gr_revs : validRevisions s' = validRevisions s;
  gr_next : nextRevisionID s' = nextRevisionID s
}.

Lemma grown_quiet s s' : ctl_eq s' s -> grown [] s s'.
Proof. intros [E1 E2 E3]. split; rewrite ?E1; cbn; try done. by rewrite app_nil_r. Qed.

Lemma grown_app es1 es2 s s1 s2 : grown es1 s s1 -> grown es2 s1 s2 -> grown (es1 ++ es2) s s2.
Proof.
  intros [E1 D1 V1 N1] [E2 D2 V2 N2]. split; try congruence.
  - by rewrite E2, E1, app_assoc.
  - rewrite foldl_app. etransitivity; [exact D2|]. by apply bumps_proper.
Qed.

Lemma grown_append e s s' :
  journal_ s' = journal_append e (journal_ s) -> validRevisions s' = validRevisions s ->
  nextRevisionID s' = nextRevisionID s -> grown [e] s s'.
Proof.
  intros E1 E2 E3. split; try done.
  - by rewrite E1, entries_append.
  - by rewrite E1, dirties_append.
Qed.

(** A run that keeps the invariant and can be undone. *)
Definition undoable (s s' : IntraBlockState) : Prop :=
  Inv s' /\ exists es, grown es s s' /\ undo es s' s.

Lemma undoable_quiet s s' : quiet s s' -> undoable s s'.
Proof.
  intros []. split; [done|]. exists []. split; [by apply grown_quiet | by apply undo_nil].
Qed.

Lemma undoable_trans s1 s2 s3 : undoable s1 s2 -> undoable s2 s3 -> undoable s1 s3.
Proof.
  intros (_ & es1 & G1 & U1) (Hi & es2 & G2 & U2). split; [done|]. exists (es1 ++ es2).
  split; [by eapply grown_app | by eapply undo_app].
Qed.

Lemma undoable_one e s s' :
  Inv s' -> journal_ s' = journal_append e (journal_ s) -> validRevisions s' = validRevisions s ->
  nextRevisionID s' = nextRevisionID s ->
  (forall t, Inv t -> eqv t s' ->
     exists t', revert_entry R e t = Done ((), t') /\ Inv t' /\ eqv t' s /\ ctl_eq t' t) ->
  undoable s s'.
Proof.
  intros Hi E1 E2 E3 H. split; [done|]. exists [e].
  split; [by apply grown_append | by apply undo_one].
Qed.

(** [good s m]: from [s], every finished run of [m] is undoable. *)
Definition good {A} (s : IntraBlockState) (m : MS A) : Prop :=
  forall r s', m s = Done (r, s') -> undoable s s'.

Lemma good_bind {A B} s (m : MS A) (f : A -> MS B) :
  good s m -> (forall a s1, m s = Done (a, s1) -> Inv s1 -> good s1 (f a)) -> good s (m ≫= f).
Proof.
  intros Hm Hf r s' (a & s1 & E1 & E2)%bind_Done. pose proof (Hm _ _ E1) as H1.
  eapply undoable_trans; [exact H1|]. eapply Hf; [done| |done]. apply H1.
Qed.

Lemma good_ret {A} s (a : A) : Inv s -> good s (mret a).
Proof. intros Hi r s' [= _ <-]. by apply undoable_quiet, quiet_refl. Qed.

Lemma good_obj s a : Inv s -> good s (obj a).
Proof.
  intros Hi r s' H. apply obj_Done in H as (o & _ & [= -> ->]). by apply undoable_quiet, quiet_refl.
Qed.

Lemma good_setError s err : Inv s -> good s (setError err).
Proof.
  intros Hi r s' H. destruct (quiet_setError s err Hi) as (s1 & E & Hq).
  rewrite E in H. injection H as _ <-. by apply undoable_quiet.
Qed.

(** ** Changes of one object *)

Record changed (a : Z) (o o' : stateObject) (s s' : IntraBlockState) : Prop := {
  ch_old : eff s a = Some o;
  ch_new : eff s' a = Some o';
  ch_frame b : b <> a -> eff s' b = eff s b;
  ch_rest : same_rest s' s
}.

(** An object transformer that an equivalent object cannot tell apart. *)
Record respectful (g : stateObject -> stateObject) : Prop := {
  rs_eqv rs x y : obj_eqv rs x y -> obj_eqv rs (g x) (g y);
  rs_wf a x : obj_wf a x -> obj_wf a (g x)
}.

Definition on_object (a : Z) (g : stateObject -> stateObject) : MS () :=
  so ← getStateObject R a;
  match so with Some _ => upd a g | None => panic end.

Lemma eqv_eff t s a o : eqv t s -> eff s a = Some o ->
  exists ot, eff t a = Some ot /\ obj_eqv (readable t) ot o.
Proof.
  intros [Ho _] E. specialize (Ho a). rewrite E in Ho. inversion Ho; subst. eauto.
Qed.

Lemma eqv_changed a o o' g s s' t t1 ot :
  changed a o o' s s' -> eqv t s' -> quiet t t1 -> obj_eqv (readable t) ot o' ->
  respectful g -> obj_eqv (readable t) (g o') o -> eqv (with_obj a (g ot) t1) s.
Proof.
  intros [Hold Hnew Hfr Hrest] Ht [_ Hq _] Hot Hg Hgo.
  assert (same_rest t1 s) as Hr.
  { etransitivity; [apply (eq_rest _ _ _ Hq)|]. etransitivity; [apply (eq_rest _ _ _ Ht)|done]. }
  assert (readable t1 = readable t) as Hrd by apply (eq_rest _ _ _ Hq).
  eapply eqv_at.
  - etransitivity; [apply with_obj_rest|done].
  - rewrite eff_with_obj. by rewrite decide_True.
  - done.
  - change (readable (with_obj a (g ot) t1)) with (readable t1). rewrite Hrd.
    etransitivity; [by apply (rs_eqv g Hg)|done].
  - intros b Hb. change (readable (with_obj a (g ot) t1)) with (readable t1).
    rewrite eff_with_obj, decide_False, <- Hfr by done.
    etransitivity; [apply (eq_obj _ _ _ Hq)|]. rewrite Hrd. apply (eq_obj _ _ _ Ht).
Qed.

Lemma on_object_undo a o o' g s s' t :
  changed a o o' s s' -> respectful g -> obj_eqv (readable s) (g o') o ->
  Inv t -> eqv t s' ->
  exists t', on_object a g t = Done ((), t') /\ Inv t' /\ eqv t' s /\ ctl_eq t' t.
Proof.
  intros Hch Hg Hgo Hi Ht. destruct (eqv_eff t s' a o' Ht (ch_new _ _ _ _ _ Hch)) as (ot & Eot & Hot).
  destruct (getStateObject_eff t a ot Hi Eot) as (t1 & E1 & Et1 & Hq).
  exists (with_obj a (g ot) t1). split_and!.
  - unfold on_object, mbind, M_bind. rewrite E1. by apply upd_run.
  - eapply Inv_with_obj; [apply Hq|done|]. apply (rs_wf g Hg). by eapply inv_obj; [apply Hq|].
  - assert (readable s = readable t) as Hrd.
    { symmetry. etransitivity; [apply (eq_rest _ _ _ Ht) | apply (ch_rest _ _ _ _ _ Hch)]. }
    rewrite Hrd in Hgo. by eapply eqv_changed.
  - etransitivity; [|apply Hq]. by constructor.
Qed.

Lemma changed_upd a o f s s' :
  stateObjects s !! a = Some o -> stateObjects s' = <[a := f o]> (stateObjects s) -> same_rest s' s ->
  changed a o (f o) s s'.
Proof.
  intros Ho Hs Hr. split; try done.
  - by apply eff_in.
  - apply eff_in. rewrite Hs. apply lookup_insert_eq.
  - intros b Hb. unfold State.eff. rewrite Hs. by rewrite lookup_insert_ne.
Qed.

Definition journaled (e : journalEntry) (s : IntraBlockState) : IntraBlockState :=
  set_journal (journal_append e (journal_ s)) s.

Lemma Inv_journaled e s : Inv s -> Inv (journaled e s).
Proof. intros []. by split. Qed.

(** One journaled update of an object. *)
Lemma good_change a o f e g s :
  Inv s -> stateObjects s !! a = Some o -> obj_wf a (f o) ->
  (forall t, Inv t -> is_Some (eff t a) -> revert_entry R e t = on_object a g t) ->
  respectful g -> obj_eqv (readable s) (g (f o)) o ->
  good s (jappend e ≫= fun _ => upd a f).
Proof.
  intros Hi Ho Hw He Hg Hgo r s' (u & s1 & E1 & E2)%bind_Done.
  unfold jappend, modify in E1. injection E1 as _ <-. fold (journaled e s) in E2.
  rewrite (upd_run a f (journaled e s) o) in E2 by done. injection E2 as _ <-.
  apply (undoable_one e); try done.
  - eapply Inv_with_obj; [by apply Inv_journaled|done..].
  - intros t Hit Ht. set (s' := with_obj a (f o) (journaled e s)) in *.
    assert (changed a o (f o) s s') as Hch by (by apply changed_upd).
    rewrite He; [by eapply on_object_undo|done|].
    destruct (eqv_eff _ _ _ _ Ht (ch_new _ _ _ _ _ Hch)) as (ot & -> & _). by eexists.
Qed.

Lemma setBalance_respectful v : word v -> respectful (setBalance v).
Proof.
  intros Hv. split.
  - intros rs x y []. constructor; cbn; try done; try congruence.
  - intros a x []. by split.
Qed.

Lemma setNonce_respectful v : respectful (setNonce v).
Proof.
  split; [|intros a x []; by split].
  intros rs x y []. constructor; cbn; try done; try congruence.
Qed.

Lemma setState_respectful k v : respectful (setState k v).
Proof.
  split; [|intros a x []; by split].
  intros rs x y H. pose proof (oe_state _ _ _ _ H) as Hst.
  destruct H. constructor; cbn; try done.
  intros k'. unfold state_view. cbn. destruct (decide (k' = k)) as [->|].
  - by rewrite !lookup_insert_eq.
  - rewrite !lookup_insert_ne by done. apply Hst.
Qed.

Lemma setCode_respectful h c : respectful (setCode h c).
Proof.
  split; [|intros a x []; by split].
  intros rs x y H. pose proof (oe_address _ _ _ _ H) as Ha. pose proof (oe_data _ _ _ _ H) as Hd.
  destruct H. constructor; cbn; try done; try congruence.
  unfold code_view. cbn. destruct c; [done|]. by rewrite Ha, Hd.
Qed.

Lemma setBalance_undo rs a v o :
  obj_wf a o -> obj_eqv rs (setBalance (Balance (data o)) (setBalance v o)) o.
Proof.
  intros [_ Hinit _ _]. destruct o as [? [] ? ? ? ? ? ? ? ? ? ?]; cbn in *; subst. by constructor.
Qed.

Lemma setNonce_undo rs v o : obj_eqv rs (setNonce (Nonce (data o)) (setNonce v o)) o.
Proof. destruct o as [? [] ? ? ? ? ? ? ? ? ? ?]. by constructor. Qed.

Lemma setState_undo rs k v o : obj_eqv rs (setState k (state_view R rs o k) (setState k v o)) o.
Proof.
  constructor; try done. intros k'. unfold state_view at 1. cbn.
  destruct (decide (k' = k)) as [->|].
  - by rewrite lookup_insert_eq.
  - by rewrite !lookup_insert_ne by done.
Qed.

Lemma setCode_undo rs h c o :
  obj_eqv rs (setCode (CodeHash (data o)) (code_view R o) (setCode h c o)) o.
Proof.
  destruct o as [ad [] ? cd ? ? ? ? ? ? ? ?]. constructor; try done.
  unfold code_view; cbn. destruct cd as [cd|]; [done|].
  destruct (_ =? emptyCodeHash) eqn:E; [done|].
  destruct (ReadAccountCode _ _ _ _) as [[x|] e] eqn:E'; done.
Qed.

(** ** Reads *)

(** The storage cache agrees with the view. *)
Lemma quiet_cache s a o k v :
  Inv s -> stateObjects s !! a = Some o -> v = committed_view R (readable s) o k ->
  quiet s (with_obj a (set_blockOriginStorage (<[k := v]> (blockOriginStorage o))
                        (set_originStorage (<[k := v]> (originStorage o)) o)) s).
Proof.
  intros Hi Ho Hv. split; [| |by constructor].
  - eapply Inv_with_obj; [done..|]. destruct (inv_obj _ _ Hi a o Ho). by split.
  - eapply eqv_at; [apply with_obj_rest| | by apply eff_in | |].
    + rewrite eff_with_obj. by rewrite decide_True.
    + change (readable (with_obj _ _ _)) with (readable s).
      assert (forall k', committed_view R (readable s)
        (set_blockOriginStorage (<[k := v]> (blockOriginStorage o))
           (set_originStorage (<[k := v]> (originStorage o)) o)) k'
        = committed_view R (readable s) o k') as Hc.
      { intros k'. unfold committed_view at 1. cbn. destruct (decide (k' = k)) as [->|].
        - by rewrite lookup_insert_eq.
        - by rewrite lookup_insert_ne. }
      constructor; try done. intros k'. unfold state_view. cbn.
      destruct (dirtyStorage o !! k'); [done|]. apply Hc.
    + intros b Hb. rewrite eff_with_obj, decide_False by done. reflexivity.
Qed.

Lemma quiet_snap s sn' :
  Inv s -> readable (set_snap sn' s) = readable s -> quiet s (set_snap sn' s).
Proof.
  intros Hi Hr. split; [destruct Hi; by split | | by constructor].
  split; [intros a; reflexivity | by constructor].
Qed.

Definition store_snap (a k inc : Z) (enc : bytes) (s : IntraBlockState) : IntraBlockState :=
  match snap s with
  | Some sn => if written sn then set_snap (Some (AddStorage a k inc enc sn)) s else s
  | None => s
  end.

Lemma quiet_store_snap s a k inc enc : Inv s -> quiet s (store_snap a k inc enc s).
Proof.
  intros Hi. unfold store_snap. destruct (snap s) as [sn|] eqn:E; [|by apply quiet_refl].
  destruct (written sn) eqn:Hw; [|by apply quiet_refl].
  apply quiet_snap; [done|]. unfold readable. cbn. rewrite E, Hw.
  unfold AddStorage. rewrite Hw. cbn. destruct (zlen enc =? 0); cbn; by rewrite ?Hw.
Qed.

Lemma store_snap_objs a k inc enc s : stateObjects (store_snap a k inc enc s) = stateObjects s.
Proof. unfold store_snap. destruct (snap s) as [sn|]; [|done]. by destruct (written sn). Qed.

(** Every finished read of committed state returns the view and is quiet. *)
Lemma so_GetCommittedState_spec s a o k r s' :
  Inv s -> stateObjects s !! a = Some o -> so_GetCommittedState R a k s = Done (r, s') ->
  r = committed_view R (readable s) o k /\ quiet s s'.
Proof.
  intros Hi Ho. destruct (inv_obj _ _ Hi a o Ho) as [Had _ _ Hfk].
  unfold so_GetCommittedState. unfold mbind at 1, M_bind at 1. rewrite (obj_run _ _ _ Ho), Hfk.
  destruct (originStorage o !! k) as [v|] eqn:Hk.
  { intros [= <- <-]. unfold committed_view. rewrite Hk. split; [done|by apply quiet_refl]. }
  destruct (created o) eqn:Hcr.
  { intros [= <- <-]. unfold committed_view. rewrite Hk, Hcr. split; [done|by apply quiet_refl]. }
  unfold mbind at 1, M_bind at 1, get.
  assert (forall s1 v r s', quiet s s1 -> stateObjects s1 !! a = Some o ->
    v = committed_view R (readable s) o k -> so_cacheStorage a k v s1 = Done (r, s') -> r = v /\ quiet s s') as Hcache.
  { intros s1 v r0 s0 Hq Ho1 Hv. unfold so_cacheStorage, mbind, M_bind.
    erewrite upd_run by exact Ho1. intros [= <- <-]. split; [done|].
    eapply quiet_trans; [exact Hq|]. apply quiet_cache; [apply Hq|done|].
    by rewrite (sr_snap _ _ (eq_rest _ _ _ (q_eqv _ _ Hq))). }
  assert (forall err v r s', v = committed_view R (readable s) o k -> v = 0 ->
    (setError err ≫= fun _ => mret 0) s = Done (r, s') -> r = v /\ quiet s s') as Herr.
  { intros err v r0 s0 _ -> (u & s1 & E & E2)%bind_Done. destruct (quiet_setError s err Hi) as (s2 & E' & Hq).
    rewrite E' in E. injection E as _ <-. injection E2 as <- <-. by split. }
  assert (committed_view R (readable s) o k = db_value R (readable s) a (Incarnation (data o)) k) as Hcv.
  { unfold committed_view. by rewrite Hk, Hcr, Had. }
  rewrite Hcv in *. clear Hcv.
  assert (readable s = None -> so_loadStorage R a k o s = Done (r, s') ->
    r = db_value R (readable s) a (Incarnation (data o)) k /\ quiet s s') as Hdb.
  { intros Hrd. unfold so_loadStorage, db_value in *. rewrite Hrd in *.
    destruct (ReadAccountStorage R a (Incarnation (data o)) k) as [[enc|] [err|]].
    - by apply Herr.
    - unfold mbind at 1, M_bind at 1, modify. fold (store_snap a k (Incarnation (data o)) enc s).
      apply Hcache; [by apply quiet_store_snap| |done]. by rewrite store_snap_objs.
    - by apply Herr.
    - apply Hcache; [by apply quiet_refl|done..]. }
  destruct (snap s) as [sn|] eqn:Hsn.
  2:{ apply Hdb. unfold readable. by rewrite Hsn. }
  destruct (written sn) eqn:Hw; cbn [negb].
  { apply Hdb. unfold readable. by rewrite Hsn, Hw. }
  assert (readable s = Some sn) as Hrd by (unfold readable; by rewrite Hsn, Hw).
  unfold db_value in *. rewrite Hrd in *. unfold mbind at 1, M_bind at 1, must.
  destruct (Snapshot_ReadAccountStorage sn a (Incarnation (data o)) k) as [[[enc|] [err|]]|]; cbn; [| | | |done].
  - by apply Herr.
  - apply Hcache; [by apply quiet_refl|done..].
  - by apply Herr.
  - apply Hcache; [by apply quiet_refl|done..].
Qed.

Lemma so_GetState_spec s a o k r s' :
  Inv s -> stateObjects s !! a = Some o -> so_GetState R a k s = Done (r, s') ->
  r = state_view R (readable s) o k /\ quiet s s'.
Proof.
  intros Hi Ho. destruct (inv_obj _ _ Hi a o Ho) as [_ _ _ Hfk].
  unfold so_GetState, mbind, M_bind. rewrite (obj_run _ _ _ Ho), Hfk. unfold state_view.
  destruct (dirtyStorage o !! k).
  - intros [= <- <-]. split; [done|by apply quiet_refl].
  - by apply so_GetCommittedState_spec.
Qed.

Lemma quiet_code s a o :
  Inv s -> stateObjects s !! a = Some o -> code o = None ->
  quiet s (with_obj a (set_code (code_view R o) o) s).
Proof.
  intros Hi Ho Hc. split; [| |by constructor].
  - eapply Inv_with_obj; [done..|]. destruct (inv_obj _ _ Hi a o Ho). by split.
  - eapply eqv_at; [apply with_obj_rest| | by apply eff_in | |].
    + rewrite eff_with_obj. by rewrite decide_True.
    + constructor; try done. unfold code_view. cbn. rewrite Hc.
      destruct (_ =? emptyCodeHash); [done|].
      by destruct (ReadAccountCode _ _ _ _) as [[x|] e].
    + intros b Hb. rewrite eff_with_obj, decide_False by done. reflexivity.
Qed.

Lemma quiet_obj_keep s s1 a o :
  quiet s s1 -> Inv s -> stateObjects s !! a = Some o -> absent a -> is_Some (stateObjects s1 !! a).
Proof.
  intros [_ [Ho _] _] _ Ha Hab. specialize (Ho a).
  rewrite !(eff_absent _ _ _ Hab), Ha in Ho. inversion Ho; subst; eauto.
Qed.

Lemma so_Code_spec s a o r s' :
  Inv s -> stateObjects s !! a = Some o -> so_Code R a s = Done (r, s') ->
  r = code_view R o /\ quiet s s' /\
  exists o', stateObjects s' !! a = Some o' /\ data o' = data o.
Proof.
  intros Hi Ho. destruct (inv_obj _ _ Hi a o Ho) as [Had _ _ _].
  unfold so_Code. unfold mbind at 1, M_bind at 1. rewrite (obj_run _ _ _ Ho).
  destruct (code o) as [c|] eqn:Hc.
  { intros [= <- <-]. unfold code_view. rewrite Hc. split_and!; [done|by apply quiet_refl|eauto]. }
  destruct (CodeHash (data o) =? emptyCodeHash) eqn:Hh.
  { intros [= <- <-]. unfold code_view. rewrite Hc, Hh. split_and!; [done|by apply quiet_refl|eauto]. }
  destruct (ReadAccountCode R a (Incarnation (data o)) (CodeHash (data o))) as [c err] eqn:Hr.
  assert (code_view R o = c) as Hv.
  { unfold code_view. by rewrite Hc, Hh, Had, Hr. }
  intros (u & s1 & E1 & E2)%bind_Done.
  assert (quiet s s1 /\ stateObjects s1 = stateObjects s) as [Hq Hs].
  { destruct err as [err|].
    - destruct (quiet_setError s (CantLoadCode (CodeHash (data o)) err) Hi) as (s2 & E & Hq).
      destruct (setError_fields _ _ _ E) as [Hs _]. rewrite E in E1. by injection E1 as _ <-.
    - injection E1 as _ <-. split; [by apply quiet_refl|done]. }
  assert (stateObjects s1 !! a = Some o) as Ho1 by (by rewrite Hs).
  unfold mbind, M_bind in E2. rewrite (upd_run _ _ _ _ Ho1) in E2. injection E2 as <- <-.
  split_and!; [done| |eexists; split; [cbn; apply lookup_insert_eq|done]].
  eapply quiet_trans; [exact Hq|]. rewrite <- Hv. by apply quiet_code; [apply Hq|..].
Qed.

(** ** The journaled operations of a state object *)

Lemma good_read {A} s (m : MS A) (Q : Prop) :
  (forall r s', m s = Done (r, s') -> Q /\ quiet s s') -> good s m.
Proof. intros H r s' E. apply undoable_quiet. by eapply H. Qed.

Lemma good_so_SetBalance s a v : Inv s -> word v -> good s (so_SetBalance a v).
Proof.
  intros Hi Hv. apply good_bind; [by apply good_obj|].
  intros o s1 E _. apply obj_Done in E as (o' & Ho & [= -> ->]).
  destruct (inv_obj _ _ Hi a o' Ho) as [? ? ? ?] eqn:Hw.
  apply (good_change a o' _ _ (setBalance (Balance (data o')))); try done.
  - by apply setBalance_respectful.
  - by eapply setBalance_undo, (inv_obj _ _ Hi).
Qed.

Lemma good_so_SetNonce s a v : Inv s -> good s (so_SetNonce a v).
Proof.
  intros Hi. apply good_bind; [by apply good_obj|].
  intros o s1 E _. apply obj_Done in E as (o' & Ho & [= -> ->]).
  destruct (inv_obj _ _ Hi a o' Ho) as [? ? ? ?] eqn:Hw.
  apply (good_change a o' _ _ (setNonce (Nonce (data o')))); try done.
  - apply setNonce_respectful.
  - apply setNonce_undo.
Qed.

Lemma good_so_SetCode s a h c : Inv s -> good s (so_SetCode R a h c).
Proof.
  intros Hi r s' (pc & s1 & E1 & E2)%bind_Done. revert E2.
  assert (exists o, stateObjects s !! a = Some o) as [o Ho].
  { unfold so_Code in E1. apply bind_Done in E1 as (o & ? & E & _).
    apply obj_Done in E as (o' & Ho & _). by exists o'. }
  destruct (so_Code_spec s a o _ _ Hi Ho E1) as (-> & Hq & o1 & Ho1 & Hd).
  unfold mbind at 1, M_bind at 1. rewrite (obj_run _ _ _ Ho1). intros E2.
  eapply undoable_trans; [by apply undoable_quiet|].
  assert (code_view R o = code_view R o1) as Hcv.
  { assert (eff s1 a = Some o1) as He1 by (by apply eff_in).
    destruct (eqv_eff s s1 a o1 (symmetry (q_eqv _ _ Hq)) He1) as (ot & Hot & Hoe).
    rewrite (eff_in _ _ _ _ Ho) in Hot. injection Hot as ->. apply Hoe. }
  rewrite Hcv in E2. destruct (inv_obj _ _ (q_inv _ _ Hq) a o1 Ho1) as [? ? ? ?] eqn:Hw.
  eapply (good_change a o1 _ _ (setCode (CodeHash (data o1)) (code_view R o1))); try exact E2; try done.
  - apply Hq.
  - apply setCode_respectful.
  - apply setCode_undo.
Qed.

Lemma good_so_SetState s a k v : Inv s -> good s (so_SetState R a k v).
Proof.
  intros Hi r s' (o & s0 & E0 & E)%bind_Done. apply obj_Done in E0 as (o' & Ho & [= -> ->]).
  destruct (inv_obj _ _ Hi a o' Ho) as [_ _ _ Hfk]. rewrite Hfk in E.
  apply bind_Done in E as (prev & s1 & E1 & E2).
  destruct (so_GetState_spec s a o' k _ _ Hi Ho E1) as [-> Hq].
  eapply undoable_trans; [by apply undoable_quiet|].
  destruct (_ =? v); [injection E2 as _ <-; by apply undoable_quiet, quiet_refl, Hq|].
  assert (exists o1, stateObjects s1 !! a = Some o1) as [o1 Ho1].
  { apply bind_Done in E2 as (u & s2 & E2 & E3). apply upd_Done in E3 as (o1 & Ho1 & _).
    unfold jappend, modify in E2. injection E2 as _ <-. by exists o1. }
  assert (state_view R (readable s) o' k = state_view R (readable s1) o1 k) as Hsv.
  { destruct (eqv_eff s s1 a o1 (symmetry (q_eqv _ _ Hq)) (eff_in _ _ _ _ Ho1)) as (ot & Hot & Hoe).
    rewrite (eff_in _ _ _ _ Ho) in Hot. injection Hot as ->.
    rewrite (oe_state _ _ _ _ Hoe k).
    by rewrite (sr_snap _ _ (eq_rest _ _ _ (q_eqv _ _ Hq))). }
  rewrite Hsv in E2.
  assert (Inv s1) as Hi1 by apply Hq. destruct (inv_obj _ _ Hi1 a o1 Ho1) as [? ? ? ?] eqn:Hw.
  eapply (good_change a o1 _ _ (setState k (state_view R (readable s1) o1 k))); try exact E2; try done.
  - apply setState_respectful.
  - apply setState_undo.
Qed.

Lemma good_touch s a : Inv s -> good s (touch a).
Proof.
  intros Hi r s' E. split.
  - unfold touch, jappend, mbind, M_bind, modify in E.
    destruct (a =? ripemd); injection E as _ <-; destruct Hi; by split.
  - exists [touchChange a]. unfold touch, jappend, mbind, M_bind, modify in E.
    assert (eqv s' s /\ validRevisions s' = validRevisions s /\ nextRevisionID s' = nextRevisionID s)
      as (He & Hv & Hn).
    { destruct (a =? ripemd); injection E as _ <-; (split; [|done]);
        (split; [intros b; reflexivity|by constructor]). }
    split.
    + split; try done; destruct (Z.eqb_spec a ripemd) as [->|]; injection E as _ <-; cbn; try done.
      intros b Hb. cbn. by rewrite !lookup_insert_ne by done.
    + apply undo_one. intros t Hit Ht. exists t. split_and!; try done. by etransitivity.
Qed.

Lemma good_so_AddBalance s a v : Inv s -> word v -> good s (so_AddBalance a v).
Proof.
  intros Hi Hv. apply good_bind; [by apply good_obj|].
  intros o s1 E _. apply obj_Done in E as (o' & Ho & [= -> ->]).
  destruct (uint256.IsZero v); [destruct (empty o'); [by apply good_touch|by apply good_ret]|].
  apply good_so_SetBalance; [done|]. apply uint256.Add_word; [|done].
  by eapply ow_balance, (inv_obj _ _ Hi).
Qed.

Lemma good_so_SubBalance s a v : Inv s -> word v -> good s (so_SubBalance a v).
Proof.
  intros Hi Hv. apply good_bind; [by apply good_obj|].
  intros o s1 E _. apply obj_Done in E as (o' & Ho & [= -> ->]).
  destruct (uint256.IsZero v); [by apply good_ret|].
  apply good_so_SetBalance; [done|]. apply uint256.Sub_word; [|done].
  by eapply ow_balance, (inv_obj _ _ Hi).
Qed.

(** ** Creating objects *)

Lemma Inv_insert a o s :
  Inv s -> obj_wf a o -> (is_Some (stateObjects s !! a) \/ balanceInc s !! a = None) ->
  Inv (with_obj a o s).
Proof.
  intros Hi Hw [[x Hx]|Hb]; [by eapply Inv_with_obj|]. destruct Hi. split; cbn; try done.
  - intros b x [[<- <-]|[? Hx]]%lookup_insert_Some; eauto.
  - intros b bi Hb'. destruct (inv_bi b bi Hb') as (? & Ht & ? & ?). split_and!; try done.
    rewrite Ht. destruct (decide (b = a)) as [->|]; [congruence|]. by rewrite lookup_insert_ne.
Qed.

Lemma word_0 : word 0.
Proof. done. Qed.

Lemma zero_obj_wf a : obj_wf a (setNonce 0 (newObject a zero_account zero_account)).
Proof.
  pose proof (newObject_wf a zero_account zero_account word_0) as [].
  by split.
Qed.

Lemma fresh_obj_wf a bi : word (increase bi) -> obj_wf a (fresh_obj a bi).
Proof.
  intros Hw. destruct (zero_obj_wf a). split; try done. cbn. by apply uint256.Add_word.
Qed.

Lemma created_state_bi a s : Inv s -> stateObjects s !! a = None ->
  balanceInc (created_state a s) =
    match balanceInc s !! a with
    | Some bi => <[a := mkBalanceIncrease (increase bi) true (count bi)]> (balanceInc s)
    | None => balanceInc s
    end.
Proof. intros Hi Ha. unfold created_state. cbn. by destruct (balanceInc s !! a). Qed.

Lemma created_state_objs a s : exists o,
  stateObjects (created_state a s) = <[a := o]> (stateObjects s) /\
  (Inv s -> obj_wf a o).
Proof.
  unfold created_state. cbn. destruct (balanceInc s !! a) as [bi|] eqn:E.
  - eexists; split; [done|]. intros Hi. apply fresh_obj_wf. by apply (inv_bi _ _ Hi a bi).
  - eexists; split; [done|]. intros _. apply zero_obj_wf.
Qed.

Lemma Inv_created a s : Inv s -> absent a -> stateObjects s !! a = None -> Inv (created_state a s).
Proof.
  intros Hi Hab Ha. destruct (created_state_objs a s) as (o & Hs & Hw). specialize (Hw Hi).
  pose proof (created_state_bi a s Hi Ha) as Hb. destruct Hi. split.
  - rewrite Hs. intros b x [[<- <-]|[? Hx]]%lookup_insert_Some; eauto.
  - unfold created_state. cbn. destruct (balanceInc s !! a); done.
  - rewrite Hs, Hb. intros b bi Hbi. destruct (decide (b = a)) as [->|Hne].
    + rewrite lookup_insert_eq. destruct (balanceInc s !! a) as [bi'|] eqn:E; [|congruence].
      rewrite lookup_insert_eq in Hbi. injection Hbi as <-.
      destruct (inv_bi a bi' E) as (? & ? & ? & ?). cbn. split_and!; try done; naive_solver.
    + rewrite lookup_insert_ne by done. apply inv_bi.
      destruct (balanceInc s !! a); [by rewrite lookup_insert_ne in Hbi|done].
  - unfold created_state. cbn. destruct (balanceInc s !! a); done.
  - unfold created_state. cbn. destruct (balanceInc s !! a); done.
Qed.

Definition created_entries (a : Z) (s : IntraBlockState) : list journalEntry :=
  match balanceInc s !! a with
  | Some _ => [createObjectChange a; balanceIncreaseTransfer a]
  | None => [createObjectChange a]
  end.

Lemma created_grown a s : grown (created_entries a s) s (created_state a s).
Proof.
  unfold created_state, created_entries. cbn [balanceInc set_journal].
  destruct (balanceInc s !! a) as [bi|].
  - apply (grown_app [createObjectChange a] [balanceIncreaseTransfer a] s
      (journaled (createObjectChange a) s)); by apply grown_append.
  - by apply grown_append.
Qed.

Lemma created_rest a s o :
  let s' := with_obj a o (created_state a s) in
  refund s' = refund s /\ logs s' = logs s /\ logSize s' = logSize s /\
  accessList_ s' = accessList_ s /\ thash s' = thash s /\ bhash s' = bhash s /\
  txIndex s' = txIndex s /\ readable s' = readable s.
Proof. unfold created_state. cbn. destruct (balanceInc s !! a); done. Qed.

Definition dropped (a : Z) (t : IntraBlockState) : IntraBlockState :=
  set_stateObjectsDirty (stateObjectsDirty t ∖ {[a]})
    (set_stateObjects (delete a (stateObjects t)) t).

Lemma eff_dropped a t b : eff (dropped a t) b = if decide (b = a) then db_object R a else eff t b.
Proof.
  unfold State.eff, dropped. cbn. destruct (decide (b = a)) as [->|].
  - by rewrite lookup_delete_eq.
  - by rewrite lookup_delete_ne.
Qed.

(** Dropping a created object, with the balance increase handed back, leads to
    the state before the creation. *)
Lemma dropped_eqv a s o' t (bi : gmap Z BalanceIncrease) :
  Inv s -> absent a -> stateObjects s !! a = None ->
  eqv t (with_obj a o' (created_state a s)) -> bi = balanceInc s ->
  eqv (dropped a (set_balanceInc bi t)) s.
Proof.
  intros Hi Hab Ha [Ho Hr] ->. destruct (created_rest a s o') as (R1 & R2 & R3 & R4 & R5 & R6 & R7 & R8).
  assert (readable t = readable s) as Hrd by (rewrite <- R8; apply Hr).
  split.
  - intros b. rewrite eff_dropped. change (readable (dropped _ _)) with (readable t).
    destruct (decide (b = a)) as [->|].
    + rewrite (eff_absent _ _ _ Hab), Ha. apply absent_db in Hab. rewrite Hab. constructor.
    + specialize (Ho b). rewrite eff_with_obj, decide_False in Ho by done.
      destruct (created_state_objs a s) as (o & Hs & _).
      unfold State.eff at 2 in Ho. rewrite Hs, lookup_insert_ne in Ho by done. apply Ho.
  - destruct Hr. split; cbn; try done; congruence.
Qed.

Lemma Inv_dropped a t bi' :
  Inv t -> (forall b, b <> a -> bi' !! b = balanceInc t !! b) ->
  (forall bi, bi' !! a = Some bi ->
     absent a /\ transferred bi = false /\ word (increase bi) /\ 0 < count bi) ->
  Inv (dropped a (set_balanceInc bi' t)).
Proof.
  intros [] Hb Hba. split; cbn; try done.
  - intros b o [_ Ho]%lookup_delete_Some. eauto.
  - intros b bi Hbi. destruct (decide (b = a)) as [->|].
    + destruct (Hba bi Hbi) as (? & Ht & ? & ?). split_and!; try done.
      rewrite Ht, lookup_delete_eq. split; [done|]. by intros [].
    + rewrite lookup_delete_ne by done. apply inv_bi. by rewrite <- Hb.
Qed.

Lemma undo_created a s o' :
  Inv s -> absent a -> stateObjects s !! a = None ->
  undo (created_entries a s) (with_obj a o' (created_state a s)) s.
Proof.
  intros Hi Hab Ha t Hit Ht.
  assert (balanceInc t = balanceInc (created_state a s)) as Hbt by apply (eq_rest _ _ _ Ht).
  rewrite (created_state_bi a s Hi Ha) in Hbt.
  assert (exists t', for_each revert_step (rev (created_entries a s)) t = Done ((), t') /\
    rewound (rev (created_entries a s)) t t' /\
    exists j, t' = set_journal j (dropped a (set_balanceInc (balanceInc s) t))) as (t' & E & Hrw & j & ->).
  { unfold created_entries. destruct (balanceInc s !! a) as [bi|] eqn:Hb.
    - cbn [rev app for_each]. unfold revert_step, mbind, M_bind, revert_entry, modify.
      rewrite Hbt, lookup_insert_eq. cbn [increase count].
      rewrite insert_insert_eq.
      assert (mkBalanceIncrease (increase bi) false (count bi) = bi) as ->.
      { rewrite <- (untransferred s a bi Hi Ha Hb). by destruct bi. }
      rewrite insert_id by done. eexists. split; [done|]. split; [by split|]. by eexists.
    - cbn [rev app for_each]. unfold revert_step, mbind, M_bind, revert_entry, modify.
      eexists. split; [done|]. split; [by split|]. eexists. rewrite <- Hbt. by destruct t. }
  eexists. split; [exact E|]. split_and!; [| |done].
  - assert (Inv (dropped a (set_balanceInc (balanceInc s) t))) as [].
    { apply Inv_dropped; [done| |].
      + intros b Hne. rewrite Hbt. destruct (balanceInc s !! a); [by rewrite lookup_insert_ne|done].
      + intros bi Hbi. destruct (inv_bi _ _ Hi a bi Hbi) as (? & ? & ? & ?).
        split_and!; try done. by apply (untransferred s a). }
    by split.
  - destruct (dropped_eqv a s o' t _ Hi Hab Ha Ht eq_refl) as [Ho Hr].
    split; [exact Ho|]. destruct Hr. by split.
Qed.

Lemma created_undoable a s o' :
  Inv s -> absent a -> stateObjects s !! a = None -> obj_wf a o' ->
  undoable s (with_obj a o' (created_state a s)).
Proof.
  intros Hi Hab Ha Hw. split.
  - destruct (created_state_objs a s) as (o & Hs & _).
    apply (Inv_with_obj a o); [by apply Inv_created| |done]. rewrite Hs. apply lookup_insert_eq.
  - exists (created_entries a s). split; [|by apply undo_created].
    destruct (created_grown a s). by split.
Qed.

Lemma with_obj_same a o s : stateObjects s !! a = Some o -> with_obj a o s = s.
Proof. intros H. unfold with_obj. rewrite insert_id by done. by destruct s. Qed.

Lemma with_obj_twice a o o' s : with_obj a o' (with_obj a o s) = with_obj a o' s.
Proof. unfold with_obj, set_stateObjects. cbn. by rewrite insert_insert_eq. Qed.

Lemma gso_undoable a s r s' : gso_spec a s r s' -> undoable s s'.
Proof.
  intros [o s1 _ _ Hq|s1 _ _ _ Hq|s1 o Hab Ha _ Hq _ Ho].
  - by apply undoable_quiet.
  - by apply undoable_quiet.
  - eapply undoable_trans; [by apply undoable_quiet|].
    rewrite <- (with_obj_same a o) by done. apply created_undoable; [apply Hq|done..|].
    destruct (created_state_objs a s1) as (o' & Hs & Hw).
    rewrite Hs, lookup_insert_eq in Ho. injection Ho as <-. apply Hw, Hq.
Qed.

Lemma getStateObject_Done a s r s' :
  Inv s -> getStateObject R a s = Done (r, s') -> gso_spec a s r s'.
Proof.
  intros Hi E. destruct (getStateObject_spec s a Hi) as (r' & s'' & E' & H).
  rewrite E in E'. by injection E' as <- <-.
Qed.

Lemma good_getStateObject s a : Inv s -> good s (getStateObject R a).
Proof. intros Hi r s' E. by eapply gso_undoable, getStateObject_Done. Qed.

Lemma gso_in a s r s' o : gso_spec a s r s' -> r = Some o -> stateObjects s' !! a = Some o.
Proof. intros []; by intros [= <-]. Qed.

Lemma gso_not_in a s s' : gso_spec a s None s' -> absent a /\ stateObjects s' !! a = None.
Proof. inversion 1; auto. Qed.

(** Replacing an object that exists. *)
Lemma reset_undoable a prev o' s :
  Inv s -> stateObjects s !! a = Some prev -> obj_wf a o' ->
  undoable s (with_obj a o' (journaled (resetObjectChange a prev) s)).
Proof.
  intros Hi Ha Hw. apply (undoable_one (resetObjectChange a prev)); try done.
  { eapply Inv_with_obj; [by apply Inv_journaled|done..]. }
  set (s' := with_obj a o' _). intros t Hit Ht.
  assert (changed a prev o' s s') as Hch by (by apply (changed_upd a prev (fun _ => o'))).
  destruct (eqv_eff _ _ _ _ Ht (ch_new _ _ _ _ _ Hch)) as (ot & Hot & _).
  assert (is_Some (stateObjects t !! a) \/ balanceInc t !! a = None) as Hcase.
  { destruct (balanceInc t !! a) as [bi|] eqn:Hb; [left|by right].
    destruct (inv_bi _ _ Hit a bi Hb) as (Hab & _). rewrite (eff_absent _ _ _ Hab) in Hot. by eexists. }
  exists (with_obj a prev t). split_and!.
  - cbn [revert_entry]. unfold setStateObject, mbind, M_bind, get.
    destruct (balanceInc t !! a) as [bi|] eqn:Hb; [|done].
    destruct (inv_bi _ _ Hit a bi Hb) as (_ & Htr & _).
    destruct Hcase as [Hc|]; [|done]. rewrite (proj2 Htr Hc). done.
  - apply Inv_insert; [done| |done]. by apply (inv_obj _ _ Hi).
  - eapply eqv_at; [| |by apply eff_in| |].
    + etransitivity; [apply with_obj_rest|]. etransitivity; [apply (eq_rest _ _ _ Ht)|apply Hch].
    + rewrite eff_with_obj. by rewrite decide_True.
    + reflexivity.
    + intros b Hb. rewrite eff_with_obj, decide_False by done.
      rewrite <- (ch_frame _ _ _ _ _ Hch) by done. apply (eq_obj _ _ _ Ht).
  - by constructor.
Qed.

Definition reset_obj (a : Z) (p : stateObject) : stateObject :=
  setNonce 0 (newObject a zero_account (original p)).

Lemma reset_obj_wf a p : obj_wf a (reset_obj a p).
Proof. destruct (newObject_wf a zero_account (original p) word_0). by split. Qed.

Lemma createObject_Some s a p :
  Inv s -> stateObjects s !! a = Some p ->
  createObject a (Some p) s
  = Done ((), with_obj a (reset_obj a p) (journaled (resetObjectChange a p) s)).
Proof.
  intros Hi Ha. unfold createObject, setStateObject, jappend, mbind, M_bind, get, modify.
  fold (journaled (resetObjectChange a p) s). cbn [balanceInc journaled set_journal].
  destruct (balanceInc s !! a) as [bi|] eqn:Hb; [|done].
  destruct (inv_bi _ _ Hi a bi Hb) as (_ & Ht & _).
  rewrite (proj2 Ht) by (by eexists). done.
Qed.

Lemma GetOrNew_good s a : Inv s -> good s (GetOrNewStateObject R a).
Proof.
  intros Hi r s' (so & s1 & E1 & E2)%bind_Done.
  pose proof (getStateObject_Done _ _ _ _ Hi E1) as Hg. pose proof (gso_undoable _ _ _ _ Hg) as Hu.
  eapply undoable_trans; [exact Hu|]. assert (Inv s1) as Hi1 by apply Hu.
  destruct so as [o|].
  - pose proof (gso_in _ _ _ _ o Hg eq_refl) as Ho.
    destruct (deleted o); [|injection E2 as _ <-; by apply undoable_quiet, quiet_refl].
    apply bind_Done in E2 as (u & s2 & E2 & E3). rewrite createObject_Some in E2 by done.
    injection E2 as _ <-. apply obj_Done in E3 as (? & _ & [= _ ->]).
    apply reset_undoable; [done..|]. apply reset_obj_wf.
  - destruct (gso_not_in _ _ _ Hg) as [Hab Ha].
    apply bind_Done in E2 as (u & s2 & E2 & E3). rewrite createObject_None in E2 by done.
    injection E2 as _ <-. apply obj_Done in E3 as (? & _ & [= _ ->]).
    destruct (created_state_objs a s1) as (o' & Hs & Hw).
    rewrite <- (with_obj_same a o') by (rewrite Hs; apply lookup_insert_eq).
    apply created_undoable; auto.
Qed.

(** The operations that update an account through [GetOrNewStateObject]. *)
Lemma good_via {A B} s (m : MS A) (k : MS B) :
  good s m -> (forall s1, Inv s1 -> good s1 k) -> good s (m ≫= fun _ => k).
Proof. intros Hm Hk. apply good_bind; [done|]. intros ? s1 _ Hi. by apply Hk. Qed.

Lemma good_SubBalance s a v : Inv s -> word v -> good s (SubBalance R a v).
Proof. intros. apply good_via; [by apply GetOrNew_good|]. intros. by apply good_so_SubBalance. Qed.

Lemma good_SetBalance s a v : Inv s -> word v -> good s (SetBalance R a v).
Proof. intros. apply good_via; [by apply GetOrNew_good|]. intros. by apply good_so_SetBalance. Qed.

Lemma good_SetNonce s a v : Inv s -> good s (SetNonce R a v).
Proof. intros. apply good_via; [by apply GetOrNew_good|]. intros. by apply good_so_SetNonce. Qed.

Lemma good_SetCode s a c : Inv s -> good s (SetCode R a c).
Proof. intros. apply good_via; [by apply GetOrNew_good|]. intros. by apply good_so_SetCode. Qed.

Lemma good_SetState s a k v : Inv s -> good s (SetState R a k v).
Proof. intros. apply good_via; [by apply GetOrNew_good|]. intros. by apply good_so_SetState. Qed.

(** ** [AddBalance] *)

Definition add_bi (a v : Z) (s : IntraBlockState) : IntraBlockState :=
  let bi := default (mkBalanceIncrease 0 false 0) (balanceInc s !! a) in
  set_balanceInc
    (<[a := mkBalanceIncrease (uint256.Add (increase bi) v) (transferred bi) (count bi + 1)]>
       (balanceInc s)) s.

Lemma Inv_add_bi a v s :
  Inv s -> word v -> absent a -> stateObjects s !! a = None -> Inv (add_bi a v s).
Proof.
  intros Hi Hv Hab Ha. destruct (balanceInc s !! a) as [b0|] eqn:Hb0.
  - pose proof (untransferred s a b0 Hi Ha Hb0) as Ht. destruct Hi. split; try done.
    unfold add_bi. rewrite Hb0. cbn. intros b bi [[<- <-]|[? Hb]]%lookup_insert_Some; [|auto].
    destruct (inv_bi a b0 Hb0) as (_ & ? & ? & ?). cbn. split_and!; try done; [|lia].
    by apply uint256.Add_word.
  - destruct Hi. split; try done. unfold add_bi. rewrite Hb0. cbn.
    intros b bi [[<- <-]|[? Hb]]%lookup_insert_Some; [|auto].
    split_and!; try done; [|by apply uint256.Add_word]. rewrite Ha. split; [done|]. by intros [].
Qed.

Lemma undo_add_bi bi v :
  word (increase bi) -> word v ->
  uint256.Sub (uint256.Add (increase bi) v) v = increase bi.
Proof.
  intros Hi Hv. rewrite uint256.Add_spec by done. rewrite uint256.Sub_spec by auto with amc.
  unfold wrap256, word in *. rewrite Zminus_mod_idemp_l.
  replace (increase bi + v - v) with (increase bi) by lia. by apply Z.mod_small.
Qed.

Lemma add_bi_undone a v s t :
  Inv s -> word v -> stateObjects s !! a = None -> balanceInc t = balanceInc (add_bi a v s) ->
  revert_entry R (balanceIncrease a v) t = Done ((), set_balanceInc (balanceInc s) t).
Proof.
  intros Hi Hv Ha Hbt. cbn [revert_entry]. unfold modify. rewrite Hbt. unfold add_bi. cbn.
  rewrite lookup_insert_eq. cbn. destruct (balanceInc s !! a) as [bi|] eqn:Hb; cbn.
  - destruct (inv_bi _ _ Hi a bi Hb) as (_ & _ & ? & ?).
    rewrite undo_add_bi by done. replace (count bi + 1 - 1) with (count bi) by lia.
    destruct (Z.eqb_spec (count bi) 0); [lia|].
    rewrite insert_insert_eq.
    replace (mkBalanceIncrease (increase bi) (transferred bi) (count bi)) with bi by (by destruct bi).
    by rewrite insert_id.
  - by rewrite delete_insert_id.
Qed.

Lemma good_AddBalance s a v :
  Inv s -> word v -> (is_Some (stateObjects s !! a) \/ absent a) -> good s (AddBalance R a v).
Proof.
  intros Hi Hv Hg. unfold AddBalance. intros r s' E. unfold mbind at 1, M_bind at 1, get in E.
  assert (good s (GetOrNewStateObject R a ≫= fun _ => so_AddBalance a v)) as Hgood.
  { apply good_via; [by apply GetOrNew_good|]. intros. by apply good_so_AddBalance. }
  destruct (stateObjects s !! a) as [o|] eqn:Ha; cbn in E; [by apply (Hgood r)|].
  destruct ((a =? ripemd) && uint256.IsZero v); cbn in E; [by apply (Hgood r)|].
  destruct Hg as [[]|Hab]; [done|]. injection E as _ <-.
  fold (journaled (balanceIncrease a v) s).
  change (undoable s (add_bi a v (journaled (balanceIncrease a v) s))).
  apply (undoable_one (balanceIncrease a v)); try done.
  { apply Inv_add_bi; try done. by apply Inv_journaled. }
  intros t Hit Ht. assert (balanceInc t = balanceInc (add_bi a v s)) as Hbt by apply (eq_rest _ _ _ Ht).
  exists (set_balanceInc (balanceInc s) t). split_and!.
  - by apply (add_bi_undone a v s).
  - assert (forall b, is_Some (eff t b) <-> is_Some (eff s b)) as Heff.
    { intros b. pose proof (eq_obj _ _ _ Ht b) as Hb.
      change (eff (add_bi a v (journaled (balanceIncrease a v) s)) b) with (eff s b) in Hb.
      inversion Hb as [? ? ? Hx Hy|Hx Hy]; split; eauto; intros []; congruence. }
    destruct Hit. split; try done. cbn. intros b bi Hb.
    destruct (State.inv_bi _ _ Hi b bi Hb) as (Habs & Htr & ? & ?). split_and!; try done.
    rewrite Htr, <- !(eff_absent R) by done. symmetry. apply Heff.
  - destruct Ht as [Ho Hr]. split; [exact Ho|]. destruct Hr. by split.
  - by constructor.
Qed.

(** ** [Selfdestruct] and [CreateAccount] *)

Lemma upd_upd a f g s : (upd a f ≫= fun _ => upd a g) s = upd a (fun o => g (f o)) s.
Proof.
  destruct (stateObjects s !! a) as [o|] eqn:Ho.
  - unfold mbind, M_bind. rewrite (upd_run _ _ _ _ Ho), (upd_run _ (fun o => g (f o)) _ _ Ho).
    rewrite (upd_run _ _ _ (f o)) by (cbn; apply lookup_insert_eq). by rewrite with_obj_twice.
  - unfold upd, obj, mbind, M_bind, get, must. cbn. by rewrite Ho.
Qed.

Definition destroy (o : stateObject) : stateObject :=
  let o := set_created false (set_selfdestructed true o) in set_data (set_Balance 0 (data o)) o.

Definition undestroy (prev : bool) (bal : Z) (o : stateObject) : stateObject :=
  setBalance bal (set_selfdestructed prev o).

Lemma undestroy_respectful p v : word v -> respectful (undestroy p v).
Proof.
  intros Hv. split; [|intros a x []; by split].
  intros rs x y []. constructor; cbn; try done; congruence.
Qed.

Lemma good_Selfdestruct s a :
  Inv s -> (forall o, eff s a = Some o -> created o = false) -> good s (Selfdestruct R a).
Proof.
  intros Hi Hcr r s' (so & s1 & E1 & E2)%bind_Done.
  pose proof (getStateObject_Done _ _ _ _ Hi E1) as Hg. pose proof (gso_undoable _ _ _ _ Hg) as Hu.
  eapply undoable_trans; [exact Hu|]. assert (Inv s1) as Hi1 by apply Hu.
  destruct so as [o|]; [|injection E2 as _ <-; by apply undoable_quiet, quiet_refl].
  pose proof (gso_in _ _ _ _ o Hg eq_refl) as Ho. cbn in E2.
  destruct (deleted o); [injection E2 as _ <-; by apply undoable_quiet, quiet_refl|].
  assert (created o = false) as Hc.
  { inversion Hg as [? ? Heff| |? ? Hab Ha [bi Hbi] Hq Hnn Ho1]; subst; [eauto|].
    unfold created_state in Ho1. cbn in Ho1.
    destruct (balanceInc s0 !! a); cbn in Ho1; rewrite lookup_insert_eq in Ho1; by injection Ho1 as <-. }
  destruct (inv_obj _ _ Hi1 a o Ho) as [Had Hin Hbal Hfk].
  apply (good_change a o destroy (selfdestructChange a (selfdestructed o) (Balance (data o)))
    (undestroy (selfdestructed o) (Balance (data o))) s1) with (r := ()); try done.
  - intros t Hit [x Hx]. destruct (getStateObject_eff t a x Hit Hx) as (t1 & E & Ex & _).
    cbn [revert_entry]. unfold on_object. unfold mbind at 1, M_bind at 1. unfold mbind at 2, M_bind at 2.
    rewrite E. apply (upd_upd a (set_selfdestructed (selfdestructed o)) (setBalance _)).
  - by apply undestroy_respectful.
  - destruct o as [? [] ? ? ? ? ? ? ? ? ? ?]; cbn in *; subst. by constructor.
  - apply bind_Done in E2 as (u & s2 & E2 & E3). unfold mbind at 1, M_bind at 1. rewrite E2.
    apply bind_Done in E3 as (u1 & s3 & E3 & E4). apply bind_Done in E4 as (u2 & s4 & E4 & E5).
    apply bind_Done in E5 as (u3 & s5 & E5 & [= _ <-]).
    apply upd_Done in E3 as (o3 & Ho3 & [= -> ->]). apply upd_Done in E4 as (o4 & Ho4 & [= -> ->]).
    apply upd_Done in E5 as (o5 & Ho5 & [= -> ->]). cbn in Ho4, Ho5.
    rewrite lookup_insert_eq in Ho4. injection Ho4 as <-.
    rewrite lookup_insert_eq in Ho5. injection Ho5 as <-.
    rewrite (upd_run _ _ _ _ Ho3), !with_obj_twice. done.
Qed.

(** After the object of [a] was created or replaced, further changes to it are
    covered by the same journal entry. *)
Lemma created_then_upd a s s1 s2 f o :
  Inv s -> (s1 = created_state a s /\ absent a /\ stateObjects s !! a = None \/
            exists p, s1 = with_obj a (reset_obj a p) (journaled (resetObjectChange a p) s) /\
              stateObjects s !! a = Some p) ->
  stateObjects s1 !! a = Some o -> obj_wf a (f o) -> s2 = with_obj a (f o) s1 -> undoable s s2.
Proof.
  intros Hi [(-> & Hab & Ha)|(p & -> & Ha)] Ho Hw ->.
  - by apply created_undoable.
  - rewrite with_obj_twice. by apply reset_undoable.
Qed.

Lemma good_CreateAccount s a cc : Inv s -> good s (CreateAccount R a cc).
Proof.
  intros Hi r s' (prev & s1 & E1 & E2)%bind_Done.
  pose proof (getStateObject_Done _ _ _ _ Hi E1) as Hg. pose proof (gso_undoable _ _ _ _ Hg) as Hu.
  eapply undoable_trans; [exact Hu|]. assert (Inv s1) as Hi1 by apply Hu. clear Hu.
  apply bind_Done in E2 as (u & s2 & E2 & E3). apply bind_Done in E3 as (u' & s3 & E3 & E4).
  assert (exists o, stateObjects s2 !! a = Some o /\ obj_wf a o /\
    (s2 = created_state a s1 /\ absent a /\ stateObjects s1 !! a = None \/
     exists p, s2 = with_obj a (reset_obj a p) (journaled (resetObjectChange a p) s1) /\
       stateObjects s1 !! a = Some p)) as (o & Ho & Hw & Hshape).
  { destruct prev as [p|].
    - pose proof (gso_in _ _ _ _ p Hg eq_refl) as Hp. rewrite createObject_Some in E2 by done.
      injection E2 as _ <-. exists (reset_obj a p). split; [cbn; apply lookup_insert_eq|].
      split; [apply reset_obj_wf|]. right. eauto.
    - destruct (gso_not_in _ _ _ Hg) as [Hab Ha]. rewrite createObject_None in E2 by done.
      injection E2 as _ <-. destruct (created_state_objs a s1) as (o & Hs & Hw). exists o.
      rewrite Hs, lookup_insert_eq. split; [done|]. split; [by apply Hw|]. left. auto. }
  assert (exists o', obj_wf a o' /\ s3 = with_obj a o' s2) as (o3 & Hw3 & ->).
  { destruct prev as [p|].
    - rewrite (upd_run _ _ _ _ Ho) in E3. injection E3 as _ <-. eexists; split; [|done].
      apply setBalance_respectful; [|done].
      by eapply ow_balance, (inv_obj _ _ Hi1), gso_in.
    - injection E3 as _ <-. exists o. split; [done|]. by rewrite with_obj_same. }
  assert (exists o', obj_wf a o' /\ s' = with_obj a o' s2) as (o4 & Hw4 & ->).
  { destruct cc; rewrite (upd_run _ _ _ o3) in E4 by (cbn; apply lookup_insert_eq);
      injection E4 as _ <-; rewrite with_obj_twice; (eexists; split; [|done]);
      destruct Hw3; by split. }
  by apply (created_then_upd a s1 s2 _ (fun _ => o4) o).
Qed.

End Rollback.
