(* ===== verification/StateSnapshots.v ===== *)
(** * The intra-block state: sequences of operations and [RevertToSnapshot]

    The commands a transaction can issue, as one type; the guards under which
    they are reversible; and the theorem that reverting to a snapshot leads back
    to the state in which it was taken. *)

From stdpp Require Import sorting.
From S2P Require Import Prelude Uint256 Params Common AccessList StateTypes State StateRollback.

Section Snapshots.
Context {U : Uint256} {UL : Uint256Laws U} {C : Crypto} {K : AccountCodec} (R : StateReader).
Context (HR : reader_wf R).

Notation MS := (M IntraBlockState).
Notation absent := (absent R).
Notation eff := (eff R).
Notation eqv := (eqv R).
Notation Inv := (Inv R).
Notation good := (good R).
Notation undo := (undo R).
Notation undoable := (undoable R).

(** ** Logs, refunds and the access list *)

Lemma good_AddLog s l : Inv s -> good s (AddLog l).
Proof.
  intros Hi r s' E. unfold AddLog, jappend, mbind, M_bind, get, modify in E. injection E as _ <-.
  set (s' := set_logSize _ _). apply (undoable_one R (addLogChange (thash s))); try done.
  { destruct Hi. split; try done. cbn. apply u64_range. }
  intros t Hit Ht. set (l0 := default [] (logs s !! thash s)).
  assert (exists x, default [] (logs t !! thash s) = l0 ++ [x]) as [x Hl].
  { rewrite (sr_logs _ _ (eq_rest _ _ _ Ht) (thash s)). subst s'. cbn.
    rewrite lookup_insert_eq. by eexists. }
  assert (logSize t = u64 (logSize s + 1)) as Hsz by apply (eq_rest _ _ _ Ht).
  assert (u64 (u64 (logSize s + 1) - 1) = logSize s) as Hsz'.
  { unfold u64. rewrite Zminus_mod_idemp_l. replace (logSize s + 1 - 1) with (logSize s) by lia.
    apply Z.mod_small, Hi. }
  assert (exists lg, revert_entry R (addLogChange (thash s)) t
            = Done ((), set_logSize (logSize s) (set_logs lg t)) /\
          forall h, default [] (lg !! h) = default [] (logs s !! h)) as (lg & E & Hlg).
  { cbn [revert_entry]. unfold mbind, M_bind, get. rewrite Hl, zlen_app.
    change (zlen [x]) with 1.
    assert (forall h, h <> thash s -> default [] (logs t !! h) = default [] (logs s !! h)) as Hoth.
    { intros h Hh. rewrite (sr_logs _ _ (eq_rest _ _ _ Ht) h). subst s'. cbn.
      by rewrite lookup_insert_ne. }
    pose proof (zlen_nonneg l0). destruct (Z.eqb_spec (zlen l0 + 1) 1).
    - exists (delete (thash s) (logs t)). split.
      + unfold modify. cbn. by rewrite Hsz, Hsz'.
      + intros h. destruct (decide (h = thash s)) as [->|]; [|rewrite lookup_delete_ne by done; auto].
        rewrite lookup_delete_eq. fold l0. destruct l0; [done|]. unfold zlen in *. cbn in *. lia.
    - destruct (Z.eqb_spec (zlen l0 + 1) 0); [lia|].
      exists (<[thash s := take (length (l0 ++ [x]) - 1) (l0 ++ [x])]> (logs t)). split.
      + unfold modify. cbn. by rewrite Hsz, Hsz'.
      + intros h. destruct (decide (h = thash s)) as [->|]; [|rewrite lookup_insert_ne by done; auto].
        rewrite lookup_insert_eq. cbn. fold l0. rewrite length_app. cbn.
        replace (length l0 + 1 - 1)%nat with (length l0) by lia. apply take_app_length. }
  eexists. split; [exact E|]. split_and!; [|split|by constructor].
  - destruct Hit. split; try done. apply Hi.
  - apply (eq_obj _ _ _ Ht).
  - destruct (eq_rest _ _ _ Ht). split; done.
Qed.

Lemma undoable_refund s v s1 : Inv s1 -> eqv s1 s -> ctl_eq s1 s ->
  forall j, j = journal_append (refundChange (refund s)) (journal_ s) ->
  undoable s (set_refund v (set_journal j s1)).
Proof.
  intros Hi1 He Hc j ->. apply (undoable_one R (refundChange (refund s))); try done.
  { destruct Hi1. by split. }
  { apply Hc. } { apply Hc. }
  intros t Hit Ht. exists (set_refund (refund s) t). split_and!; [done| | |by constructor].
  - destruct Hit. by split.
  - split.
    + intros a. etransitivity; [apply (eq_obj _ _ _ Ht)|].
      pose proof (eq_obj _ _ _ He a) as Ho.
      assert (readable t = readable s1) as Hrd by apply (eq_rest _ _ _ Ht).
      change (readable (set_refund (refund s) t)) with (readable t). rewrite Hrd. exact Ho.
    + pose proof (eq_rest _ _ _ Ht) as Hr. pose proof (eq_rest _ _ _ He) as Hr'.
      split; try done; intros; (etransitivity; [apply Hr|apply Hr']).
Qed.

Lemma good_AddRefund s g : Inv s -> good s (AddRefund g).
Proof. intros Hi r s' [= _ <-]. by apply (undoable_refund s _ s). Qed.

Lemma good_SubRefund s g : Inv s -> good s (SubRefund g).
Proof.
  intros Hi r s' E. unfold SubRefund, jappend, mbind, M_bind, get, modify in E.
  destruct (refund s <? g); [|injection E as _ <-; by apply (undoable_refund s _ s)].
  destruct (quiet_setError R s RefundBelowZero Hi) as (s1 & E1 & [Hi1 He1 Hc1]).
  unfold setError, modify in *. injection E1 as E1. cbn in E. destruct (savedErr s).
  - injection E as _ <-. by apply (undoable_refund s _ s).
  - injection E as _ <-. subst s1. by apply (undoable_refund s _ (set_savedErr (Some RefundBelowZero) s)).
Qed.

Lemma al_undone s t al : Inv t -> eqv t (set_accessList al s) -> accessList.wf (accessList_ s) ->
  Inv (set_accessList (accessList_ s) t) /\ eqv (set_accessList (accessList_ s) t) s.
Proof.
  intros Hit Ht Hw. split; [destruct Hit; by split|].
  split; [apply (eq_obj _ _ _ Ht)|]. destruct (eq_rest _ _ _ Ht). by split.
Qed.

Lemma good_AddAddress s a : Inv s -> good s (AddAddressToAccessList a).
Proof.
  intros Hi r s' E. unfold AddAddressToAccessList, zoom_al in E.
  apply bind_Done in E as (b & s1 & E1 & E2). apply zoom_Done in E1 as (b' & al & E1 & [= -> ->]).
  pose proof (accessList.AddAddress_wf _ _ _ _ (inv_al _ _ Hi) E1) as Hw.
  destruct b'.
  - injection E2 as _ <-. apply (undoable_one R (accessListAddAccountChange a)); try done.
    { destruct Hi. by split. }
    intros t Hit Ht. destruct (al_undone s t al Hit) as [H1 H2]; [|apply Hi|].
    { etransitivity; [exact Ht|]. split; [intros b; reflexivity|by constructor]. }
    exists (set_accessList (accessList_ s) t). split_and!; try done.
    cbn [revert_entry]. unfold zoom_al, zoom.
    assert (accessList_ t = al) as -> by apply (eq_rest _ _ _ Ht).
    by rewrite (accessList.AddAddress_undo _ _ _ E1).
  - injection E2 as _ <-. rewrite accessList.AddAddress_run in E1. injection E1 as E1 <-.
    destruct (accessList.ContainsAddress (accessList_ s) a); [|done].
    apply undoable_quiet. split; [destruct Hi; by split| |by constructor].
    split; [intros b; reflexivity|by constructor].
Qed.

Lemma good_AddSlot s a k : Inv s -> good s (AddSlotToAccessList a k).
Proof.
  intros Hi r s' E. unfold AddSlotToAccessList, zoom_al in E.
  apply bind_Done in E as ([b c] & s1 & E1 & E2). apply zoom_Done in E1 as (b' & al & E1 & [= <- ->]).
  destruct (accessList.AddSlot_run _ a k (inv_al _ _ Hi)) as (r' & al' & E1' & Hs).
  rewrite E1 in E1'. injection E1' as <- <-.
  pose proof (accessList.add_slot_wf _ _ _ _ _ (inv_al _ _ Hi) Hs) as Hw.
  pose proof (accessList.AddSlot_undo _ _ _ _ _ (inv_al _ _ Hi) Hs) as Hu.
  set (s1 := set_accessList al s) in *.
  assert (Inv s1) as Hi1 by (destruct Hi; by split).
  destruct c; cycle 1.
  { assert (b = false) as -> by (inversion Hs; done). injection E2 as _ <-. subst al.
    apply undoable_quiet. split; [done| |by constructor].
    split; [intros b; reflexivity|by constructor]. }
  destruct Hu as (al1 & D1 & D2).
  assert (forall es s2, Inv s2 -> eqv s2 s1 -> grown es s s2 ->
    (forall t, accessList_ t = al -> exists j,
       for_each (revert_step R) (rev es) t = Done ((), set_journal j (set_accessList (accessList_ s) t)) /\
       j = foldl (fun j e => journal_undirty e j) (journal_ t) (rev es)) ->
    undoable s s2) as Hfin.
  { intros es s2 Hi2 He2 Hg Hrev. split; [done|]. exists es. split; [done|]. intros t Hit Ht.
    assert (eqv t s1) as Ht1 by (by etransitivity).
    destruct (Hrev t) as (j & Ej & Hj); [apply (eq_rest _ _ _ Ht1)|].
    eexists. split; [exact Ej|]. destruct (al_undone s t al Hit Ht1) as [[] [Ho Hr]]; [apply Hi|].
    split_and!; [by split|split; [exact Ho|destruct Hr; by split]|by split]. }
  destruct b; injection E2 as _ <-.
  - apply (Hfin [accessListAddAccountChange a; accessListAddSlotChange a k]).
    + destruct Hi1. by split.
    + split; [intros b; reflexivity|by constructor].
    + apply (grown_app [_] [_] _ (journaled (accessListAddAccountChange a) s1)); by apply grown_append.
    + intros t Hal. cbn [rev app for_each]. unfold revert_step, mbind, M_bind, revert_entry, zoom_al, zoom.
      rewrite Hal, D1. cbn [accessList_ set_accessList modify set_journal]. rewrite D2.
      eexists. split; done.
  - subst al1. apply (Hfin [accessListAddSlotChange a k]).
    + destruct Hi1. by split.
    + split; [intros b; reflexivity|by constructor].
    + by apply grown_append.
    + intros t Hal. cbn [rev app for_each]. unfold revert_step, mbind, M_bind, revert_entry, zoom_al, zoom.
      rewrite Hal, D1. eexists. split; done.
Qed.

(** ** The loop of [journal.revert] *)

(** No operation of a revert removes journal entries. *)
Definition jmono (s s' : IntraBlockState) : Prop :=
  entries (journal_ s) `prefix_of` entries (journal_ s').

#[local] Instance jmono_refl : Reflexive jmono.
Proof. intros s. unfold jmono. done. Qed.
#[local] Instance jmono_trans : Transitive jmono.
Proof. intros s1 s2 s3. unfold jmono. intros; by etransitivity. Qed.

Lemma jmono_upd a f : preserves jmono (upd a f).
Proof. intros s r s' E. apply upd_Done in E as (o & _ & [= _ ->]). unfold jmono. done. Qed.

Lemma jmono_obj a : preserves jmono (obj a).
Proof. intros s r s' E. apply obj_Done in E as (o & _ & [= _ ->]). unfold jmono. done. Qed.

Lemma jmono_jappend e : preserves jmono (jappend e).
Proof. intros s r s' [= _ <-]. unfold jmono. cbn. rewrite entries_append. by eexists. Qed.

Lemma jmono_setError e : preserves jmono (setError e).
Proof. intros s r s' [= _ <-]. unfold jmono. by destruct (savedErr s). Qed.

Lemma jmono_zoom_al {A} (m : M accessList.accessList A) : preserves jmono (zoom_al m).
Proof. apply preserves_zoom. intros s t. unfold jmono. done. Qed.

(** An update that leaves the journal alone. *)
Ltac jmono_tac := unfold jmono; cbn; repeat (case_match; cbn); done.

Lemma jmono_setStateObject a o : preserves jmono (setStateObject a o).
Proof. pose proof jmono_jappend. unfold setStateObject. preserves_with jmono_tac. Qed.

Hint Resolve jmono_upd jmono_obj jmono_jappend jmono_setError jmono_zoom_al
  jmono_setStateObject : preserves.

Lemma jmono_createObject a p : preserves jmono (createObject a p).
Proof. unfold createObject. preserves_with jmono_tac. Qed.

Hint Resolve jmono_createObject : preserves.

Lemma jmono_getStateObject a : preserves jmono (getStateObject R a).
Proof. unfold getStateObject. preserves_with jmono_tac. Qed.

Hint Resolve jmono_getStateObject : preserves.

Lemma jmono_revert_entry e : preserves jmono (revert_entry R e).
Proof. destruct e; cbn [revert_entry]; preserves_with jmono_tac. Qed.

Lemma jmono_revert_step e : preserves jmono (revert_step R e).
Proof.
  apply preserves_bind; [typeclasses eauto..|apply jmono_revert_entry|].
  intros _. apply preserves_modify. intros s. unfold jmono, journal_undirty. cbn.
  by destruct (dirtied e).
Qed.

Lemma revert_step_run e t : revert_step R e t =
  match revert_entry R e t with
  | Done (_, t') => Done ((), set_journal (journal_undirty e (journal_ t')) t')
  | GoPanic => GoPanic
  | NoFuel => NoFuel
  end.
Proof. reflexivity. Qed.

(** Read back to front, the loop reverts the entries after the snapshot. *)
Lemma journal_revert_loop_spec pre es t :
  (pre ++ es) `prefix_of` entries (journal_ t) ->
  journal_revert_loop R (length es) (length pre) t = for_each (revert_step R) (rev es) t.
Proof.
  revert t. induction es as [|e es IH] using rev_ind; intros t Hp; [done|].
  rewrite length_app, Nat.add_comm, rev_unit. cbn [length Nat.add journal_revert_loop for_each].
  unfold mbind at 1, M_bind at 1, get.
  assert (entries (journal_ t) !! (length pre + length es)%nat = Some e) as He.
  { eapply prefix_lookup_Some; [|exact Hp].
    rewrite app_assoc, lookup_app_r by (rewrite length_app; lia).
    rewrite length_app, Nat.sub_diag. done. }
  rewrite He. unfold must, mret, M_ret, mbind, M_bind. rewrite revert_step_run.
  destruct (revert_entry R e t) as [[[] t1]| |] eqn:E1; [|done..]. cbn.
  apply IH. pose proof (jmono_revert_entry e t _ _ E1) as Hm. unfold jmono in Hm.
  cbn. unfold journal_undirty. destruct (dirtied e); cbn;
  (etransitivity; [|exact Hm]); (etransitivity; [|exact Hp]); rewrite app_assoc; by eexists.
Qed.

(** ** [sort.Search] *)

Lemma sort_Search_spec fuel (P : Z -> bool) f i j :
  0 <= i <= j -> j - i < Z.of_nat fuel ->
  (forall h, i <= h < j -> f h = Some (P h)) ->
  (forall h h', i <= h <= h' -> h' < j -> P h = true -> P h' = true) ->
  exists k, sort_Search fuel f i j = Done k /\ i <= k <= j /\
    (forall h, i <= h < k -> P h = false) /\ (forall h, k <= h < j -> P h = true).
Proof.
  revert i j. induction fuel as [|fuel IH]; intros i j Hij Hf Hd Hm; [lia|].
  cbn [sort_Search]. destruct (Z.ltb_spec i j) as [Hlt|Hge]; cbn [negb].
  2:{ exists i. split_and!; [done|lia|lia|intros; lia|intros; lia]. }
  set (h := Z.shiftr (i + j) 1). assert (i <= h < j) as Hh.
  { subst h. rewrite Z.shiftr_div_pow2 by lia. change (2 ^ 1) with 2.
    pose proof (Z.div_mod (i + j) 2 ltac:(lia)). pose proof (Z.mod_pos_bound (i + j) 2 ltac:(lia)). lia. }
  rewrite (Hd h Hh). destruct (P h) eqn:Ph.
  - destruct (IH i h) as (k & E & Hk & H1 & H2); [lia|lia| | |].
    { intros; apply Hd; lia. } { intros x y ? ? ?; apply (Hm x); [lia|lia|done]. }
    exists k. split_and!; [done|lia|lia|done|].
    intros x Hx. destruct (Z_lt_ge_dec x h); [apply H2; lia|]. apply (Hm h); [lia|lia|done].
  - destruct (IH (h + 1) j) as (k & E & Hk & H1 & H2); [lia|lia| | |].
    { intros; apply Hd; lia. } { intros x y ? ? ?; apply (Hm x); [lia|lia|done]. }
    exists k. split_and!; [done|lia|lia| |done].
    intros x Hx. destruct (Z_lt_ge_dec x (h + 1)) as [Hlt'|]; [|apply H1; lia].
    destruct (P x) eqn:Px; [|done]. rewrite <- Ph. symmetry. apply (Hm x); [lia|lia|done].
Qed.

Lemma search_revision V1 r V2 :
  Forall (fun x => id x < id r) V1 -> Forall (fun x => id r < id x) V2 ->
  let V := V1 ++ r :: V2 in
  sort_Search (S (length V)) (fun i => x ← znth V i; mret (id r <=? id x)) 0 (zlen V)
  = Done (zlen V1).
Proof.
  intros H1 H2 V. set (P := fun i => id r <=? id (default r (znth V i))).
  assert (forall h, 0 <= h < zlen V -> exists x, znth V h = Some x) as Hex by (intros; by apply znth_Some).
  assert (forall h, 0 <= h < zlen V -> P h = (zlen V1 <=? h)) as HP.
  { intros h Hh. destruct (Hex h Hh) as [x Hx]. unfold P. rewrite Hx. cbn.
    unfold znth in Hx. destruct (Z.ltb_spec h 0); [lia|].
    destruct (Z.leb_spec (zlen V1) h).
    - apply Z.leb_le. unfold V in Hx. rewrite lookup_app_r in Hx by (unfold zlen in *; lia).
      destruct (Z.to_nat h - length V1)%nat; cbn in Hx; [by injection Hx as <-|].
      eapply Forall_lookup_1 in H2; [|exact Hx]. lia.
    - apply Z.leb_gt. unfold V in Hx. rewrite lookup_app_l in Hx by (unfold zlen in *; lia).
      eapply Forall_lookup_1 in H1; [|exact Hx]. done. }
  pose proof (zlen_nonneg V1).
  assert (zlen V1 < zlen V) by (unfold V; zlen_lia).
  destruct (sort_Search_spec (S (length V)) P
    (fun i => x ← znth V i; mret (id r <=? id x)) 0 (zlen V)) as (k & E & Hk & K1 & K2).
  - split; [lia|apply zlen_nonneg].
  - unfold zlen. lia.
  - intros h Hh. destruct (Hex h Hh) as [x Hx]. unfold P. by rewrite Hx.
  - intros x y ? ? Hx. rewrite HP in * by lia. apply Z.leb_le in Hx. apply Z.leb_le. lia.
  - rewrite E. f_equal. destruct (Z_lt_ge_dec k (zlen V1)) as [Hlt|].
    + pose proof (K2 k ltac:(lia)) as Hc. rewrite HP in Hc by lia. apply Z.leb_le in Hc. lia.
    + destruct (Z_lt_ge_dec (zlen V1) k) as [Hlt|]; [|lia].
      pose proof (K1 (zlen V1) ltac:(lia)) as Hc. rewrite HP in Hc by lia.
      apply Z.leb_gt in Hc. lia.
Qed.

(** ** Dirty counters *)

Definition undirt (d : gmap Z Z) (e : journalEntry) : gmap Z Z :=
  match dirtied e with
  | None => d
  | Some a =>
      let n := default 0 (d !! a) - 1 in if n =? 0 then delete a d else <[a := n]> d
  end.

Lemma rewound_dirties es j :
  dirties (foldl (fun j e => journal_undirty e j) j es) = foldl undirt (dirties j) es /\
  entries (foldl (fun j e => journal_undirty e j) j es) = entries j.
Proof.
  revert j; induction es as [|e es IH]; intros j; [done|]. cbn. destruct (IH (journal_undirty e j)) as [-> ->].
  unfold journal_undirty, undirt. by destruct (dirtied e).
Qed.

Definition counted (d : gmap Z Z) : Prop := forall a n, a <> ripemd -> d !! a = Some n -> 0 < n.

Lemma counted_bump d e : counted d -> counted (bump d e).
Proof.
  intros H a n Ha. unfold bump. destruct (dirtied e) as [b|]; [|by apply H].
  intros [[<- <-]|[_ Hn]]%lookup_insert_Some; [|exact (H a n Ha Hn)].
  destruct (d !! b) as [m|] eqn:E; cbn; [|lia]. apply H in E; [lia|done].
Qed.

Lemma undirt_bump d d' e : counted d -> dirt_eq d' (bump d e) -> dirt_eq (undirt d' e) d.
Proof.
  intros Hc Hd b Hb. unfold undirt, bump in *. destruct (dirtied e) as [a|]; [|by apply Hd].
  destruct (decide (b = a)) as [->|Hne].
  - rewrite (Hd a Hb), lookup_insert_eq. cbn.
    replace (default 0 (d !! a) + 1 - 1) with (default 0 (d !! a)) by lia.
    destruct (d !! a) as [n|] eqn:E; cbn.
    + pose proof (Hc a n Hb E). destruct (Z.eqb_spec n 0); [lia|]. apply lookup_insert_eq.
    + apply lookup_delete_eq.
  - specialize (Hd b Hb). rewrite lookup_insert_ne in Hd by done.
    destruct (_ =? 0); [by rewrite lookup_delete_ne|by rewrite lookup_insert_ne].
Qed.

Lemma undirt_bumps es d d' :
  counted d -> dirt_eq d' (foldl bump d es) -> dirt_eq (foldl undirt d' (rev es)) d.
Proof.
  revert d'. induction es as [|e es IH] using rev_ind; intros d' Hc Hd; [done|].
  rewrite rev_unit. cbn. rewrite foldl_app in Hd. cbn in Hd. apply IH; [done|].
  apply undirt_bump; [|done]. clear -Hc.
  revert d Hc; induction es as [|e es IH]; intros d Hc; cbn; [done|].
  apply IH. by apply counted_bump.
Qed.

Lemma counted_bumps es d : counted d -> counted (foldl bump d es).
Proof. revert d; induction es; intros d Hc; cbn; auto using counted_bump. Qed.

Lemma counted_proper d d' : dirt_eq d d' -> counted d' -> counted d.
Proof. intros Hd Hc a n Ha Hn. rewrite Hd in Hn by done. by eapply Hc. Qed.

(** ** Commands *)

Inductive cmd : Type :=
| CExist (a : Z) | CEmpty (a : Z) | CGetBalance (a : Z) | CGetNonce (a : Z) | CGetCode (a : Z)
| CGetCodeSize (a : Z) | CGetCodeHash (a : Z) | CGetState (a k : Z) | CGetCommittedState (a k : Z)
| CHasSelfdestructed (a : Z) | CGetIncarnation (a : Z)
| CAddBalance (a v : Z) | CSubBalance (a v : Z) | CSetBalance (a v : Z) | CSetNonce (a n : Z)
| CSetCode (a : Z) (c : option bytes) | CSetState (a k v : Z) | CSelfdestruct (a : Z)
| CCreateAccount (a : Z) (contractCreation : bool)
| CAddLog (l : Log) | CAddRefund (g : Z) | CSubRefund (g : Z)
| CAddAddressToAccessList (a : Z) | CAddSlotToAccessList (a k : Z)
| CSnapshot | CRevertToSnapshot (revid : Z).

Definition ignore {A} (m : MS A) : MS () := _ ← m; mret ().

Definition exec (c : cmd) : MS () :=
  match c with
  | CExist a => ignore (Exist R a)
  | CEmpty a => ignore (Empty R a)
  | CGetBalance a => ignore (GetBalance R a)
  | CGetNonce a => ignore (GetNonce R a)
  | CGetCode a => ignore (GetCode R a)
  | CGetCodeSize a => ignore (GetCodeSize R a)
  | CGetCodeHash a => ignore (GetCodeHash R a)
  | CGetState a k => ignore (GetState R a k)
  | CGetCommittedState a k => ignore (GetCommittedState R a k)
  | CHasSelfdestructed a => ignore (HasSelfdestructed R a)
  | CGetIncarnation a => ignore (GetIncarnation R a)
  | CAddBalance a v => AddBalance R a v
  | CSubBalance a v => SubBalance R a v
  | CSetBalance a v => SetBalance R a v
  | CSetNonce a n => SetNonce R a n
  | CSetCode a c => SetCode R a c
  | CSetState a k v => SetState R a k v
  | CSelfdestruct a => ignore (Selfdestruct R a)
  | CCreateAccount a b => CreateAccount R a b
  | CAddLog l => AddLog l
  | CAddRefund g => AddRefund g
  | CSubRefund g => SubRefund g
  | CAddAddressToAccessList a => AddAddressToAccessList a
  | CAddSlotToAccessList a k => AddSlotToAccessList a k
  | CSnapshot => ignore Snapshot_
  | CRevertToSnapshot revid => RevertToSnapshot R revid
  end.

(** The guards: amounts are words; a balance is added to an account that is
    loaded or missing from the database; an object created in this transaction
    is not destroyed; nested reverts stay inside the snapshot [base]. *)
Definition guard (base : Z) (c : cmd) (s : IntraBlockState) : Prop :=
  match c with
  | CAddBalance a v => word v /\ (is_Some (stateObjects s !! a) \/ absent a)
  | CSubBalance _ v | CSetBalance _ v => word v
  | CSelfdestruct a => forall o, eff s a = Some o -> created o = false
  | CRevertToSnapshot revid => base < revid
  | _ => True
  end.

Inductive steps (base : Z) : IntraBlockState -> IntraBlockState -> Prop :=
| steps_refl s : steps base s s
| steps_cons c s s1 s2 :
    guard base c s -> exec c s = Done ((), s1) -> steps base s1 s2 -> steps base s s2.

Lemma good_ignore {A} s (m : MS A) : Inv s -> good s m -> good s (ignore m).
Proof. intros Hi Hm. apply good_bind; [done|]. intros ? s1 _ Hi1. by apply good_ret. Qed.

Lemma good_live {A} s a (d : A) (k : stateObject -> MS A) :
  Inv s -> (forall o s1, Inv s1 -> stateObjects s1 !! a = Some o -> good s1 (k o)) ->
  good s (so ← getStateObject R a; live so d k).
Proof.
  intros Hi Hk. apply good_bind; [by apply good_getStateObject|].
  intros [o|] s1 E Hi1; cbn; [|by apply good_ret].
  destruct (deleted o); [by apply good_ret|]. apply Hk; [done|].
  exact (gso_in R _ _ _ _ _ (getStateObject_Done R HR _ _ _ _ Hi E) eq_refl).
Qed.

Definition is_control (c : cmd) : bool :=
  match c with CSnapshot | CRevertToSnapshot _ => true | _ => false end.

Lemma good_exec base c s : Inv s -> is_control c = false -> guard base c s -> good s (exec c).
Proof.
  intros Hi Hc Hg. destruct c; cbn [exec guard] in *; try discriminate Hc;
    try (apply good_ignore; [done|]); try (by apply good_Selfdestruct); try (apply good_live; [done|]; intros o s1 Hi1 Ho);
    try (by apply good_ret).
  - intros r s' E. apply undoable_quiet. by eapply so_Code_spec.
  - destruct (code o); [by apply good_ret|].
    destruct (ReadAccountCodeSize R a (Incarnation (data o)) (CodeHash (data o))) as [n [err|]].
    + apply good_bind; [by apply good_setError|]. intros. by apply good_ret.
    + apply good_bind; [by apply good_ret|]. intros. by apply good_ret.
  - intros r s' E. apply undoable_quiet. by eapply so_GetState_spec.
  - intros r s' E. apply undoable_quiet. by eapply so_GetCommittedState_spec.
  - apply good_bind; [by apply good_getStateObject|]. intros [o|] s1 E Hi1; by apply good_ret.
  - destruct Hg. by apply good_AddBalance.
  - by apply good_SubBalance.
  - by apply good_SetBalance.
  - by apply good_SetNonce.
  - by apply good_SetCode.
  - by apply good_SetState.
  - by apply good_CreateAccount.
  - by apply good_AddLog.
  - by apply good_AddRefund.
  - by apply good_SubRefund.
  - by apply good_AddAddress.
  - by apply good_AddSlot.
Qed.

(** ** Nested snapshots *)

(** [s] leads back to [σ] by undoing the entries journaled since. *)
Definition link (s σ : IntraBlockState) : Prop :=
  exists es, entries (journal_ s) = entries (journal_ σ) ++ es /\ undo es s σ /\
    dirt_eq (dirties (journal_ s)) (foldl bump (dirties (journal_ σ)) es).

Lemma link_undoable s s' σ : link s σ -> undoable s s' -> link s' σ.
Proof.
  intros (es & E & Hu & Hd) (_ & es' & [E' Hd' _ _] & Hu'). exists (es ++ es'). split_and!.
  - by rewrite E', E, app_assoc.
  - by eapply undo_app.
  - rewrite foldl_app. etransitivity; [exact Hd'|]. by apply bumps_proper.
Qed.

Lemma link_same s s' σ :
  eqv s' s -> entries (journal_ s') = entries (journal_ s) ->
  dirt_eq (dirties (journal_ s')) (dirties (journal_ s)) -> link s σ -> link s' σ.
Proof.
  intros He E Hd (es & E' & Hu & Hd'). exists es. split_and!; [congruence| |by etransitivity].
  by eapply undo_eqv.
Qed.

Lemma link_refl s : link s s.
Proof. exists []. split_and!; [by rewrite app_nil_r|by apply undo_nil|done]. Qed.

Lemma link_trans s1 s2 s3 : link s1 s2 -> link s2 s3 -> link s1 s3.
Proof.
  intros (es & E & Hu & Hd) (es' & E' & Hu' & Hd'). exists (es' ++ es). split_and!.
  - by rewrite E, E', app_assoc.
  - by eapply undo_app.
  - rewrite foldl_app. etransitivity; [exact Hd|]. by apply bumps_proper.
Qed.

(** The snapshots that are still valid, the most recent first, each with the
    state in which it was taken. *)
Fixpoint chained (gs : list (revision * IntraBlockState)) (s : IntraBlockState) : Prop :=
  match gs with
  | [] => True
  | (r, σ) :: gs =>
      link s σ /\ journalIndex r = journal_length (journal_ σ) /\
      counted (dirties (journal_ σ)) /\ chained gs σ
  end.

Lemma chained_link gs s s' : (forall σ, link s σ -> link s' σ) -> chained gs s -> chained gs s'.
Proof. intros H. destruct gs as [|[r σ] gs]; [done|]. cbn. intros (? & ? & ? & ?). auto. Qed.

Lemma chained_split gs1 r σ gs2 s :
  chained (gs1 ++ (r, σ) :: gs2) s ->
  link s σ /\ journalIndex r = journal_length (journal_ σ) /\
  counted (dirties (journal_ σ)) /\ chained gs2 σ.
Proof.
  revert s. induction gs1 as [|[r1 σ1] gs1 IH]; intros s; [done|].
  cbn. intros (Hl & _ & _ & Hc). apply IH in Hc as (Hl' & ? & ? & ?).
  split_and!; try done. by eapply link_trans.
Qed.

(** Revision identifiers grow along the list and are below the next one. *)
Definition revs_wf (s : IntraBlockState) : Prop :=
  StronglySorted (fun x y => id x < id y) (validRevisions s) /\
  Forall (fun x => id x < nextRevisionID s) (validRevisions s).

Record tracked (V0 : list revision) (gs : list (revision * IntraBlockState)) (s : IntraBlockState) : Prop := {
  tr_inv : Inv s;
  tr_counted : counted (dirties (journal_ s));
  tr_revs : validRevisions s = V0 ++ rev (map fst gs);
  tr_wf : revs_wf s;
  tr_chained : chained gs s
}.

Lemma tracked_undoable V0 gs s s' : tracked V0 gs s -> undoable s s' -> tracked V0 gs s'.
Proof.
  intros [Hi Hc Hr [Hs Hn] Hch] Hu. pose proof Hu as (Hi' & es & [_ Hd Hv Hx] & _). split; try done.
  - eapply counted_proper; [exact Hd|]. by apply counted_bumps.
  - congruence.
  - split; rewrite ?Hv, ?Hx; done.
  - eapply chained_link; [|exact Hch]. intros σ Hl. by eapply link_undoable.
Qed.

Lemma tracked_snapshot V0 gs s id s' :
  tracked V0 gs s -> Snapshot_ s = Done (id, s') ->
  id = nextRevisionID s /\
  tracked V0 ((mkRevision id (journal_length (journal_ s)), s) :: gs) s'.
Proof.
  intros [Hi Hc Hr [Hs Hn] Hch] [= <- <-]. split; [done|]. split.
  - destruct Hi. by split.
  - done.
  - cbn. by rewrite Hr, app_assoc.
  - split; cbn.
    + apply StronglySorted_app_2; [|done|by repeat constructor].
      intros x y Hx ->%list_elem_of_singleton. apply list_elem_of_lookup in Hx as [i Hx].
      by eapply Forall_lookup_1 in Hn; [|exact Hx].
    + apply Forall_app. split; [|by repeat constructor; cbn; lia].
      eapply Forall_impl; [|exact Hn]. cbn. lia.
  - cbn. split_and!; try done. eapply link_same; [| | |apply link_refl]; try done.
Qed.

Lemma RevertToSnapshot_run V1 r V2 s :
  validRevisions s = V1 ++ r :: V2 ->
  Forall (fun x => id x < id r) V1 -> Forall (fun x => id r < id x) V2 ->
  RevertToSnapshot R (id r) s
  = (journal_revert R (journalIndex r) ≫= fun _ =>
       modify (fun s => set_validRevisions (take (length V1) (validRevisions s)) s)) s.
Proof.
  intros HV H1 H2. unfold RevertToSnapshot. unfold mbind at 1, M_bind at 1, get.
  unfold mbind at 1, M_bind at 1. rewrite HV, search_revision by done.
  destruct (Z.eqb_spec (zlen V1) (zlen (V1 ++ r :: V2))); [zlen_lia|].
  assert (znth (V1 ++ r :: V2) (zlen V1) = Some r) as ->.
  { rewrite <- (Z.add_0_r (zlen V1)). by rewrite znth_app_r. }
  unfold mbind at 1, M_bind at 1, must, mret, M_ret. rewrite Z.eqb_refl. cbn [negb].
  replace (Z.to_nat (zlen V1)) with (length V1) by zlen_lia. done.
Qed.

Lemma journal_revert_run s σ es t :
  entries (journal_ s) = entries (journal_ σ) ++ es ->
  for_each (revert_step R) (rev es) s = Done ((), t) -> rewound (rev es) s t ->
  journal_revert R (journal_length (journal_ σ)) s
  = Done ((), set_journal (mkJournal (entries (journal_ σ)) (dirties (journal_ t))) t).
Proof.
  intros E Hl [Hj _ _]. unfold journal_revert. unfold mbind at 1, M_bind at 1, get.
  unfold journal_length, zlen. rewrite Nat2Z.id, E, length_app.
  replace (length (entries (journal_ σ)) + length es - length (entries (journal_ σ)))%nat
    with (length es) by lia.
  unfold mbind, M_bind. rewrite journal_revert_loop_spec by (by rewrite E). rewrite Hl.
  destruct (rewound_dirties (rev es) (journal_ s)) as [_ Ee]. rewrite <- Hj in Ee.
  unfold journal_length, zlen. rewrite Ee, E, length_app.
  destruct (Z.ltb_spec (Z.of_nat (length (entries (journal_ σ)))) 0); [lia|].
  destruct (Z.ltb_spec (Z.of_nat (length (entries (journal_ σ)) + length es))
    (Z.of_nat (length (entries (journal_ σ))))); [lia|]. cbn [orb].
  unfold modify. rewrite Ee, E, take_app_length. done.
Qed.

Lemma tracked_revert V0 gs1 r σ gs2 s :
  tracked V0 (gs1 ++ (r, σ) :: gs2) s ->
  exists s3, RevertToSnapshot R (id r) s = Done ((), s3) /\ tracked V0 gs2 s3 /\ eqv s3 σ /\
    entries (journal_ s3) = entries (journal_ σ) /\
    dirt_eq (dirties (journal_ s3)) (dirties (journal_ σ)).
Proof.
  intros [Hi Hc Hr [Hs Hn] Hch].
  destruct (chained_split _ _ _ _ _ Hch) as ((es & E & Hu & Hd) & Hj & Hcσ & Hch2).
  destruct (Hu s Hi) as (t & Hl & Hit & Ht & Hrw); [reflexivity|].
  set (V1 := V0 ++ rev (map fst gs2)). set (V2 := rev (map fst gs1)).
  assert (validRevisions s = V1 ++ r :: V2) as HV.
  { rewrite Hr, map_app, rev_app_distr. unfold V1, V2. cbn. by rewrite <- !app_assoc. }
  rewrite HV in Hs, Hn. apply StronglySorted_app in Hs as (Hs12 & Hs1 & Hs2).
  inversion Hs2 as [|? ? _ HV2]; subst.
  assert (Forall (fun x => id x < id r) V1) as HV1.
  { apply Forall_lookup. intros i x Hx. apply Hs12; [by eapply list_elem_of_lookup_2|].
    apply elem_of_cons. by left. }
  assert (dirt_eq (dirties (journal_ t)) (dirties (journal_ σ))) as Hdt.
  { rewrite (rw_journal _ _ _ Hrw). destruct (rewound_dirties (rev es) (journal_ s)) as [-> _].
    by apply undirt_bumps. }
  rewrite (RevertToSnapshot_run V1 r V2 s HV HV1 HV2), Hj.
  unfold mbind, M_bind. rewrite (journal_revert_run s σ es t E Hl Hrw). unfold modify.
  eexists. split; [done|]. cbn [validRevisions set_journal set_validRevisions].
  rewrite (rw_revs _ _ _ Hrw), HV, take_app_length.
  set (s3 := set_validRevisions _ _).
  assert (eqv s3 σ) as He.
  { destruct Ht as [Ho Hrest]. split; [exact Ho|]. destruct Hrest. by split. }
  split_and!; try done. split; try done.
  - destruct Hit. by split.
  - by eapply counted_proper.
  - split; [done|]. cbn. rewrite (rw_next _ _ _ Hrw). by apply Forall_app in Hn as [Hn _].
  - eapply chained_link; [|exact Hch2]. intros σ' Hl'. by eapply link_same.
Qed.

Lemma revert_found revid s s' :
  RevertToSnapshot R revid s = Done ((), s') ->
  exists r, r ∈ validRevisions s /\ id r = revid.
Proof.
  unfold RevertToSnapshot. unfold mbind at 1, M_bind at 1, get.
  unfold mbind at 1, M_bind at 1. destruct (sort_Search _ _ _ _) as [idx| |]; [|done..].
  destruct (idx =? _); [done|]. destruct (znth (validRevisions s) idx) as [r|] eqn:E; [|done].
  unfold mbind at 1, M_bind at 1, must, mret, M_ret.
  destruct (Z.eqb_spec (id r) revid); [|done]. intros _. exists r. split; [|done].
  unfold znth in E. destruct (idx <? 0); [done|]. by eapply list_elem_of_lookup_2.
Qed.

(** The base snapshot stays in the list whatever the commands do. *)
Lemma tracked_step V0 gs r0 s0 c s s1 :
  tracked V0 (gs ++ [(r0, s0)]) s -> guard (id r0) c s -> exec c s = Done ((), s1) ->
  exists gs', tracked V0 (gs' ++ [(r0, s0)]) s1.
Proof.
  intros Ht Hg E. destruct (is_control c) eqn:Hc.
  2:{ exists gs. eapply tracked_undoable; [exact Ht|].
      eapply (good_exec (id r0) c s); [apply Ht|done..]. }
  destruct c; try discriminate Hc; cbn [exec guard] in *.
  - apply bind_Done in E as (i & s2 & E & [= <-]).
    destruct (tracked_snapshot _ _ _ _ _ Ht E) as [_ Ht']. by eexists (_ :: gs).
  - destruct (revert_found _ _ _ E) as (r & Hr & Hid). rewrite (tr_revs _ _ _ Ht) in Hr.
    assert (exists gs1 σ gs2, gs = gs1 ++ (r, σ) :: gs2) as (gs1 & σ & gs2 & ->).
    { pose proof (tr_wf _ _ _ Ht) as [Hs _]. rewrite (tr_revs _ _ _ Ht) in Hs.
      rewrite map_app, rev_app_distr in Hr, Hs. cbn in Hr, Hs.
      apply elem_of_app in Hr as [Hr|Hr].
      - apply StronglySorted_app in Hs as (H12 & _ & _).
        pose proof (H12 r r0 Hr (list_elem_of_here _ _)). lia.
      - apply elem_of_cons in Hr as [->|Hr]; [lia|].
        apply list_elem_of_In, in_rev, in_map_iff in Hr as ([r' σ] & <- & Hin).
        apply list_elem_of_In, list_elem_of_split in Hin as (gs1 & gs2 & ->). by eexists _, _, _. }
    rewrite <- app_assoc in Ht. cbn in Ht.
    destruct (tracked_revert _ _ _ _ _ _ Ht) as (s3 & E3 & Ht3 & _).
    rewrite Hid, E in E3. injection E3 as <-. by exists gs2.
Qed.

End Snapshots.
