(* ===== verification/StateTheorems.v ===== *)
(** * The intra-block state: properties

    The rollback theorem with its observational reading, the behaviour of the
    account operations on the view of the state, and the two places where the
    journal does not restore what was changed. *)

From S2P Require Import Prelude Uint256 Params Common AccessList StateTypes State.
From S2P Require Import StateRollback StateSnapshots.

Section Theorems.
Context {U : Uint256} {UL : Uint256Laws U} {C : Crypto} {K : AccountCodec} (R : StateReader).
Context (HR : reader_wf R).

Notation MS := (M IntraBlockState).
Notation eff := (eff R).
Notation eqv := (eqv R).
Notation Inv := (Inv R).

Lemma steps_tracked V0 gs r0 s0 s s' :
  tracked R V0 (gs ++ [(r0, s0)]) s -> steps R (id r0) s s' ->
  exists gs', tracked R V0 (gs' ++ [(r0, s0)]) s'.
Proof.
  intros Ht Hs. revert gs Ht. induction Hs as [s|c s s1 s2 Hg E Hs IH]; intros gs Ht; [by exists gs|].
  destruct (tracked_step R HR _ _ _ _ _ _ _ Ht Hg E) as (gs' & Ht'). by eapply IH.
Qed.

Lemma Inv_New : Inv New.
Proof.
  by split.
Qed.

(** ** What reads observe *)

Inductive answer : Type := ABool (b : bool) | AInt (z : Z) | ACode (c : option bytes).

Inductive query : Type :=
| QExist (a : Z) | QEmpty (a : Z) | QBalance (a : Z) | QNonce (a : Z) | QCode (a : Z)
| QCodeHash (a : Z) | QState (a k : Z) | QCommitted (a k : Z) | QSelfdestructed (a : Z)
| QRefund | QLogCount (h : Z) | QAddress (a : Z) | QSlot (a k : Z).

Definition observe (q : query) : MS answer :=
  match q with
  | QExist a => b ← Exist R a; mret (ABool b)
  | QEmpty a => b ← Empty R a; mret (ABool b)
  | QBalance a => z ← GetBalance R a; mret (AInt z)
  | QNonce a => z ← GetNonce R a; mret (AInt z)
  | QCode a => c ← GetCode R a; mret (ACode c)
  | QCodeHash a => z ← GetCodeHash R a; mret (AInt z)
  | QState a k => z ← GetState R a k; mret (AInt z)
  | QCommitted a k => z ← GetCommittedState R a k; mret (AInt z)
  | QSelfdestructed a => b ← HasSelfdestructed R a; mret (ABool b)
  | QRefund => z ← GetRefund; mret (AInt z)
  | QLogCount h => l ← GetLogs h; mret (AInt (zlen l))
  | QAddress a => b ← AddressInAccessList a; mret (ABool b)
  | QSlot a k => p ← SlotInAccessList a k; mret (ABool (snd p))
  end.

(** The object [getStateObject] returns. *)
Definition view_obj (s : IntraBlockState) (a : Z) : option stateObject :=
  match eff s a with
  | Some o => Some o
  | None =>
      match ReadAccountData R a, balanceInc s !! a with
      | (_, None), Some bi => Some (fresh_obj a bi)
      | _, _ => None
      end
  end.

Lemma gso_view a s r t :
  Inv s -> gso_spec R a s r t ->
  r = view_obj s a /\ readable t = readable s /\ Inv t /\
  (forall o, r = Some o -> stateObjects t !! a = Some o).
Proof.
  intros Hi Hg. assert (Inv t) as Hit by (by eapply gso_undoable).
  assert (forall o, r = Some o -> stateObjects t !! a = Some o) as Hin by (intros; by eapply gso_in).
  split_and!; try done; destruct Hg as [o s1 E _ Hq|s1 Hab E1 Hnb Hq|s1 o Hab E1 [bi Hbi] Hq Hnn Ho].
  - unfold view_obj. by rewrite E.
  - assert (eff s a = None) as He.
    { pose proof (eq_obj _ _ _ (q_eqv _ _ _ Hq) a) as H. rewrite !(eff_absent _ _ _ Hab), E1 in H.
      rewrite (eff_absent _ _ _ Hab). by inversion H. }
    unfold view_obj. rewrite He. destruct Hnb as [->|[err Herr]].
    + by destruct (ReadAccountData R a) as [? []].
    + by destruct (ReadAccountData R a) as [? []]; [destruct (balanceInc s !! a)|].
  - assert (eff s a = None) as He.
    { pose proof (eq_obj _ _ _ (q_eqv _ _ _ Hq) a) as H. rewrite !(eff_absent _ _ _ Hab), E1 in H.
      rewrite (eff_absent _ _ _ Hab). by inversion H. }
    unfold view_obj. rewrite He, Hnn, Hbi.
    assert (balanceInc s1 = balanceInc s) as Hb by apply (eq_rest _ _ _ (q_eqv _ _ _ Hq)).
    unfold created_state in Ho. cbn in Ho. rewrite Hb, Hbi in Ho. cbn in Ho.
    by rewrite lookup_insert_eq in Ho.
  - apply (eq_rest _ _ _ (q_eqv _ _ _ Hq)).
  - apply (eq_rest _ _ _ (q_eqv _ _ _ Hq)).
  - destruct (created_rest a s1 o) as (_ & _ & _ & _ & _ & _ & _ & Hrd).
    rewrite with_obj_same in Hrd by done. rewrite Hrd. apply (eq_rest _ _ _ (q_eqv _ _ _ Hq)).
Qed.

Lemma view_obj_eqv s s' a :
  eqv s s' -> option_Forall2 (obj_eqv R (readable s)) (view_obj s a) (view_obj s' a).
Proof.
  intros He. pose proof (eq_obj _ _ _ He a) as Ho. unfold view_obj.
  rewrite <- (sr_bi _ _ (eq_rest _ _ _ He)).
  inversion Ho as [x y Hxy Hx Hy|Hx Hy]; [by constructor|].
  destruct (ReadAccountData R a) as [? []], (balanceInc s !! a); by constructor.
Qed.

Lemma getStateObject_view a s :
  Inv s -> exists t, getStateObject R a s = Done (view_obj s a, t) /\ Inv t /\
    readable t = readable s /\ (forall o, view_obj s a = Some o -> stateObjects t !! a = Some o).
Proof.
  intros Hi. destruct (getStateObject_spec R HR s a Hi) as (r & t & E & Hg).
  destruct (gso_view a s r t Hi Hg) as (-> & ? & ? & ?). eauto 6.
Qed.

(** Reads through [live]: the answer is a function of the viewed object. *)
Lemma live_observed {A} (s s' : IntraBlockState) a (d : A) (k : stateObject -> MS A) r t r' t' :
  Inv s -> Inv s' -> eqv s s' ->
  (forall o o' s1 s1' x y v w, obj_eqv R (readable s) o o' -> Inv s1 -> Inv s1' ->
     readable s1 = readable s -> readable s1' = readable s ->
     stateObjects s1 !! a = Some o -> stateObjects s1' !! a = Some o' ->
     k o s1 = Done (x, v) -> k o' s1' = Done (y, w) -> x = y) ->
  (so ← getStateObject R a; live so d k) s = Done (r, t) ->
  (so ← getStateObject R a; live so d k) s' = Done (r', t') -> r = r'.
Proof.
  intros Hi Hi' He Hk. unfold mbind, M_bind.
  destruct (getStateObject_view a s Hi) as (u & -> & Hu & Hur & Huo).
  destruct (getStateObject_view a s' Hi') as (u' & -> & Hu' & Hur' & Huo').
  pose proof (view_obj_eqv s s' a He) as Hv.
  assert (readable s' = readable s) as Hrd by (symmetry; apply (eq_rest _ _ _ He)).
  inversion Hv as [o o' Ho E1 E2|E1 E2]; cbn; [|by intros [= <- _] [= <- _]].
  rewrite <- (oe_deleted _ _ _ _ Ho). destruct (deleted o); [by intros [= <- _] [= <- _]|].
  apply (Hk o o'); try done; [congruence|by apply Huo|by apply Huo'].
Qed.

Lemma bind_ret_Done {A B} (m : MS A) (f : A -> B) s r t :
  (x ← m; mret (f x)) s = Done (r, t) -> exists x, m s = Done (x, t) /\ r = f x.
Proof. intros (x & s1 & E & [= <- <-])%bind_Done. eauto. Qed.

Lemma observe_eqv q s s' r t r' t' :
  Inv s -> Inv s' -> eqv s s' ->
  observe q s = Done (r, t) -> observe q s' = Done (r', t') -> r = r'.
Proof.
  intros Hi Hi' He E E'.
  destruct q; cbn [observe] in E, E'; apply bind_ret_Done in E as (x & E & ->);
    apply bind_ret_Done in E' as (x' & E' & ->);
    lazymatch goal with
    | |- AInt (zlen _) = _ => idtac
    | |- ABool (snd _) = _ => idtac
    | _ => f_equal
    end.
  - refine (live_observed _ _ _ _ _ _ _ _ _ Hi Hi' He _ E E').
    by intros o o' s1 s1' y y' v w Ho _ _ _ _ _ _ [= <- _] [= <- _].
  - refine (live_observed _ _ _ _ _ _ _ _ _ Hi Hi' He _ E E').
    intros o o' s1 s1' y y' v w Ho _ _ _ _ _ _ [= <- _] [= <- _].
    unfold empty. by rewrite (oe_data _ _ _ _ Ho).
  - refine (live_observed _ _ _ _ _ _ _ _ _ Hi Hi' He _ E E').
    intros o o' s1 s1' y y' v w Ho _ _ _ _ _ _ [= <- _] [= <- _]. by rewrite (oe_data _ _ _ _ Ho).
  - refine (live_observed _ _ _ _ _ _ _ _ _ Hi Hi' He _ E E').
    intros o o' s1 s1' y y' v w Ho _ _ _ _ _ _ [= <- _] [= <- _]. by rewrite (oe_data _ _ _ _ Ho).
  - refine (live_observed _ _ _ _ _ _ _ _ _ Hi Hi' He _ E E').
    intros o o' s1 s1' y y' v w Ho Hi1 Hi1' _ _ H1 H2 E1 E2.
    destruct (so_Code_spec R s1 a o _ _ Hi1 H1 E1) as [-> _].
    destruct (so_Code_spec R s1' a o' _ _ Hi1' H2 E2) as [-> _]. apply Ho.
  - refine (live_observed _ _ _ _ _ _ _ _ _ Hi Hi' He _ E E').
    intros o o' s1 s1' y y' v w Ho _ _ _ _ _ _ [= <- _] [= <- _]. by rewrite (oe_data _ _ _ _ Ho).
  - refine (live_observed _ _ _ _ _ _ _ _ _ Hi Hi' He _ E E').
    intros o o' s1 s1' y y' v w Ho Hi1 Hi1' R1 R2 H1 H2 E1 E2.
    destruct (so_GetState_spec R s1 a o k _ _ Hi1 H1 E1) as [-> _].
    destruct (so_GetState_spec R s1' a o' k _ _ Hi1' H2 E2) as [-> _].
    rewrite R1, R2. apply Ho.
  - refine (live_observed _ _ _ _ _ _ _ _ _ Hi Hi' He _ E E').
    intros o o' s1 s1' y y' v w Ho Hi1 Hi1' R1 R2 H1 H2 E1 E2.
    destruct (so_GetCommittedState_spec R s1 a o k _ _ Hi1 H1 E1) as [-> _].
    destruct (so_GetCommittedState_spec R s1' a o' k _ _ Hi1' H2 E2) as [-> _].
    rewrite R1, R2. apply Ho.
  - refine (live_observed _ _ _ _ _ _ _ _ _ Hi Hi' He _ E E').
    intros o o' s1 s1' y y' v w Ho _ _ _ _ _ _ [= <- _] [= <- _].
    by rewrite (oe_created _ _ _ _ Ho), (oe_sd _ _ _ _ Ho).
  - injection E as <- _. injection E' as <- _. f_equal; apply (eq_rest _ _ _ He).
  - injection E as <- _. injection E' as <- _. do 2 f_equal. apply (eq_rest _ _ _ He).
  - injection E as <- _. injection E' as <- _. by rewrite (sr_al _ _ (eq_rest _ _ _ He)).
  - unfold SlotInAccessList, zoom_al, zoom in E, E'. rewrite (sr_al _ _ (eq_rest _ _ _ He)) in E.
    destruct (accessList.Contains a k (accessList_ s')) as [[p al]| |]; [|done..].
    injection E as <- _. by injection E' as <- _.
Qed.

(** C3: reverting to a snapshot undoes everything done since.  From a state that
    satisfies the invariant, take a snapshot and then run any sequence of reads,
    balance, nonce, code and storage writes, account creations, self-destructs,
    logs, refunds and access-list additions, with further snapshots and reverts
    to them nested at will (under the guards).  [RevertToSnapshot] then does not
    panic, and every read (existence, balance, nonce, code, storage, committed
    storage, destruction, refund, logs, access list) answers as it did when the
    snapshot was taken; the journal and the list of valid revisions are back, and
    the dirty counters too, the RIPEMD exception apart. *)
Theorem RevertToSnapshot_restores s rid s1 s2 :
  Inv s -> counted (dirties (journal_ s)) -> revs_wf s ->
  Snapshot_ s = Done (rid, s1) -> steps R rid s1 s2 ->
  exists s3, RevertToSnapshot R rid s2 = Done ((), s3) /\ Inv s3 /\
    (forall q r t r' t', observe q s = Done (r, t) -> observe q s3 = Done (r', t') -> r' = r) /\
    validRevisions s3 = validRevisions s /\
    entries (journal_ s3) = entries (journal_ s) /\
    (forall a, a <> ripemd -> dirties (journal_ s3) !! a = dirties (journal_ s) !! a).
Proof.
  intros Hi Hc Hw E Hs.
  assert (tracked R (validRevisions s) [] s) as Ht.
  { split; try done. cbn. by rewrite app_nil_r. }
  destruct (tracked_snapshot R _ _ _ _ _ Ht E) as [-> Ht1].
  destruct (steps_tracked _ [] _ _ _ _ Ht1 Hs) as (gs & Ht2).
  destruct (tracked_revert R _ _ _ _ [] _ Ht2) as (s3 & E3 & Ht3 & He & Hj & Hd).
  exists s3. split_and!; try done.
  - apply Ht3.
  - intros q r t r' t' Eq Eq'. by eapply observe_eqv; [apply Ht3|exact Hi|..].
  - rewrite (tr_revs _ _ _ _ Ht3). cbn. apply app_nil_r.
Qed.

(** ** Operations on one account leave the others alone *)

Definition only (a : Z) (s s' : IntraBlockState) : Prop :=
  forall b, b <> a -> stateObjects s' !! b = stateObjects s !! b /\
                      balanceInc s' !! b = balanceInc s !! b.

#[local] Instance only_refl a : Reflexive (only a).
Proof. by intros s b Hb. Qed.
#[local] Instance only_trans a : Transitive (only a).
Proof. intros s1 s2 s3 H1 H2 b Hb. destruct (H1 b Hb), (H2 b Hb). split; congruence. Qed.

Lemma only_upd a f : preserves (only a) (upd a f).
Proof.
  intros s r s' E. apply upd_Done in E as (o & _ & [= _ ->]). intros b Hb. cbn.
  by rewrite lookup_insert_ne.
Qed.

Lemma only_obj a b : preserves (only a) (obj b).
Proof. intros s r s' E. apply obj_Done in E as (o & _ & [= _ ->]). done. Qed.

Lemma only_jappend a e : preserves (only a) (jappend e).
Proof. by intros s r s' [= _ <-] b Hb. Qed.

Lemma only_setError a e : preserves (only a) (setError e).
Proof. intros s r s' [= _ <-] b Hb. by destruct (savedErr s). Qed.

Hint Resolve only_upd only_obj only_jappend only_setError : preserves.

(** An update of one map entry, or of neither map. *)
Ltac only_tac :=
  idtac; let b := fresh "b" in let Hb := fresh "Hb" in intros b Hb; cbn;
  rewrite ?lookup_insert_ne by done; first [done | repeat (case_match; cbn); done].

Lemma only_setStateObject a o : preserves (only a) (setStateObject a o).
Proof. unfold setStateObject. preserves_with only_tac. Qed.

Lemma only_createObject a p : preserves (only a) (createObject a p).
Proof. unfold createObject. pose proof only_setStateObject. preserves_with only_tac. Qed.

Hint Resolve only_setStateObject only_createObject : preserves.

Lemma only_getStateObject a : preserves (only a) (getStateObject R a).
Proof. unfold getStateObject. preserves_with only_tac. Qed.

Hint Resolve only_getStateObject : preserves.

Lemma only_GetOrNew a : preserves (only a) (GetOrNewStateObject R a).
Proof. unfold GetOrNewStateObject. preserves_with only_tac. Qed.

Lemma only_so_SetBalance a v : preserves (only a) (so_SetBalance a v).
Proof. unfold so_SetBalance. preserves_with only_tac. Qed.

Hint Resolve only_GetOrNew only_so_SetBalance : preserves.

Lemma only_AddBalance a v : preserves (only a) (AddBalance R a v).
Proof. unfold AddBalance, so_AddBalance, touch. preserves_with only_tac. Qed.

Lemma only_SubBalance a v : preserves (only a) (SubBalance R a v).
Proof. unfold SubBalance, so_SubBalance. preserves_with only_tac. Qed.

(** ** Balances *)

Definition bal_of (v : option stateObject) : Z :=
  match v with Some o => if deleted o then 0 else Balance (data o) | None => 0 end.

Definition bal (s : IntraBlockState) (a : Z) : Z := bal_of (view_obj s a).

Lemma GetBalance_bal s a : Inv s -> exists t, GetBalance R a s = Done (bal s a, t) /\ Inv t.
Proof.
  intros Hi. destruct (getStateObject_view a s Hi) as (t & E & Hit & _ & _). exists t.
  unfold GetBalance, bal, mbind, M_bind. rewrite E. split; [|done].
  destruct (view_obj s a) as [o|]; [|done]. cbn. by destruct (deleted o).
Qed.

Lemma fresh_obj_balance a bi : word (increase bi) -> Balance (data (fresh_obj a bi)) = increase bi.
Proof.
  intros Hw. unfold fresh_obj, newObject, zero_account, Copy_account. cbn.
  rewrite uint256.Add_spec by done. cbn. by apply wrap256_small.
Qed.

Lemma view_obj_wf s a o : Inv s -> view_obj s a = Some o -> obj_wf a o.
Proof.
  intros Hi. unfold view_obj. destruct (eff s a) as [x|] eqn:E.
  - intros [= <-]. by eapply eff_wf.
  - destruct (ReadAccountData R a) as [? []]; [done|].
    destruct (balanceInc s !! a) as [bi|] eqn:Hb; [|done]. intros [= <-].
    apply fresh_obj_wf. by apply (inv_bi _ _ Hi a bi).
Qed.

Lemma bal_word s a : Inv s -> word (bal s a).
Proof.
  intros Hi. unfold bal, bal_of. destruct (view_obj s a) as [o|] eqn:E; [|done].
  destruct (deleted o); [done|]. by eapply ow_balance, view_obj_wf.
Qed.

Lemma bal_in s a o : stateObjects s !! a = Some o -> bal s a = if deleted o then 0 else Balance (data o).
Proof. intros H. unfold bal, view_obj. by rewrite (eff_in _ _ _ _ H). Qed.

Lemma bal_only a s s' b : only a s s' -> b <> a -> bal s' b = bal s b.
Proof.
  intros H Hb. destruct (H b Hb) as [H1 H2]. unfold bal, view_obj, State.eff. by rewrite H1, H2.
Qed.

Lemma GetOrNew_bal s a o s1 :
  Inv s -> (ReadAccountData R a).2 = None -> GetOrNewStateObject R a s = Done (o, s1) ->
  Inv s1 /\ stateObjects s1 !! a = Some o /\ deleted o = false /\ Balance (data o) = bal s a.
Proof.
  intros Hi Hne E. split; [by eapply (GetOrNew_good R HR)|].
  apply bind_Done in E as (so & t & E & E2).
  pose proof (getStateObject_Done R HR _ _ _ _ Hi E) as Hg.
  destruct (gso_view a s so t Hi Hg) as (Hso & _ & Hit & Hin). unfold bal, bal_of. rewrite <- Hso.
  destruct so as [x|].
  - specialize (Hin x eq_refl). destruct (deleted x) eqn:Hd.
    + apply bind_Done in E2 as (u & t2 & E2 & E3). rewrite (createObject_Some R) in E2 by done.
      injection E2 as _ <-. apply obj_Done in E3 as (y & Hy & [= -> ->]).
      split; [done|]. cbn in Hy. rewrite lookup_insert_eq in Hy. by injection Hy as <-.
    + by injection E2 as -> ->.
  - destruct (gso_not_in R _ _ _ Hg) as [Hab Hat].
    assert (balanceInc t !! a = None) as Hb.
    { inversion Hg as [|? _ _ Hc Hq|]; subst. destruct Hc as [Hc|[? Hc]]; [|congruence].
      by rewrite (sr_bi _ _ (eq_rest _ _ _ (q_eqv _ _ _ Hq))). }
    apply bind_Done in E2 as (u & t2 & E2 & E3). rewrite (createObject_None R) in E2 by done.
    injection E2 as _ <-. apply obj_Done in E3 as (y & Hy & [= -> ->]). split; [done|].
    unfold created_state in Hy. cbn in Hy. rewrite Hb in Hy. cbn in Hy.
    rewrite lookup_insert_eq in Hy. by injection Hy as <-.
Qed.

Lemma so_SetBalance_bal s a v o u s' :
  stateObjects s !! a = Some o -> deleted o = false -> so_SetBalance a v s = Done (u, s') ->
  bal s' a = v.
Proof.
  intros Ho Hd E. unfold so_SetBalance, jappend, mbind, M_bind in E. rewrite (obj_run _ _ _ Ho) in E.
  cbn [modify] in E. erewrite upd_run in E by exact Ho. injection E as _ <-.
  erewrite bal_in by (cbn; apply lookup_insert_eq). cbn. by rewrite Hd.
Qed.

Lemma wrap256_id z : word z -> z = wrap256 z.
Proof. intros H. symmetry. by apply wrap256_small. Qed.

Lemma AddBalance_bal s a v u s' :
  Inv s -> word v -> (is_Some (stateObjects s !! a) \/ absent R a) ->
  (ReadAccountData R a).2 = None -> AddBalance R a v s = Done (u, s') ->
  Inv s' /\ bal s' a = wrap256 (bal s a + v) /\ (forall b, b <> a -> bal s' b = bal s b).
Proof.
  intros Hi Hv Hg Hne E. pose proof (good_AddBalance R HR s a v Hi Hv Hg _ _ E) as [Hi' _].
  split; [done|]. split; [|intros b Hb; eapply bal_only; [|done]; by eapply only_AddBalance].
  unfold AddBalance in E. unfold mbind at 1, M_bind at 1, get in E.
  assert ((GetOrNewStateObject R a ≫= fun _ => so_AddBalance a v) s = Done (u, s') ->
    bal s' a = wrap256 (bal s a + v)) as Hobj.
  { intros (o & s1 & E1 & E2)%bind_Done.
    destruct (GetOrNew_bal s a o s1 Hi Hne E1) as (Hi1 & Ho & Hd & Hbal). rewrite <- Hbal.
    destruct (inv_obj _ _ Hi1 a o Ho) as [_ _ Hw _].
    unfold so_AddBalance, mbind at 1, M_bind at 1 in E2. rewrite (obj_run _ _ _ Ho) in E2.
    rewrite uint256.IsZero_spec in E2 by done. destruct (Z.eqb_spec v 0) as [->|].
    - rewrite Z.add_0_r. rewrite <- wrap256_id by done.
      assert (stateObjects s' !! a = Some o) as Ho'.
      { destruct (empty o); [|by injection E2 as _ <-].
        unfold touch, jappend, mbind, M_bind, modify in E2.
        destruct (a =? ripemd); injection E2 as _ <-; done. }
      rewrite (bal_in _ _ _ Ho'). by rewrite Hd.
    - rewrite (so_SetBalance_bal _ _ _ _ _ _ Ho Hd E2). by apply uint256.Add_spec. }
  destruct (stateObjects s !! a) as [o|] eqn:Ha; cbn in E; [by apply Hobj|].
  destruct ((a =? ripemd) && uint256.IsZero v); cbn in E; [by apply Hobj|]. clear Hobj.
  destruct Hg as [[]|Hab]; [done|]. injection E as _ <-.
  unfold bal, view_obj. rewrite !(eff_absent R _ _ Hab). cbn. rewrite Ha, lookup_insert_eq.
  destruct (ReadAccountData R a) as [? []]; [done|]. unfold bal_of.
  destruct (balanceInc s !! a) as [bi|] eqn:Hb; cbn -[fresh_obj].
  - destruct (inv_bi _ _ Hi a bi Hb) as (_ & _ & Hw & _).
    rewrite !fresh_obj_balance by (cbn; try apply uint256.Add_word; done). cbn. by apply uint256.Add_spec.
  - rewrite fresh_obj_balance by (cbn; try apply uint256.Add_word; done). cbn. by apply uint256.Add_spec.
Qed.

Lemma SubBalance_bal s a v u s' :
  Inv s -> word v -> (ReadAccountData R a).2 = None -> SubBalance R a v s = Done (u, s') ->
  Inv s' /\ is_Some (stateObjects s' !! a) /\ bal s' a = wrap256 (bal s a - v) /\
  (forall b, b <> a -> bal s' b = bal s b).
Proof.
  intros Hi Hv Hne E. pose proof (good_SubBalance R HR s a v Hi Hv _ _ E) as [Hi' _].
  split; [done|]. pose proof (only_SubBalance a v _ _ _ E) as Hon.
  apply bind_Done in E as (o & s1 & E1 & E2).
  destruct (GetOrNew_bal s a o s1 Hi Hne E1) as (Hi1 & Ho & Hd & Hbal). rewrite <- Hbal.
  destruct (inv_obj _ _ Hi1 a o Ho) as [_ _ Hw _].
  unfold so_SubBalance, mbind at 1, M_bind at 1 in E2. rewrite (obj_run _ _ _ Ho) in E2.
  rewrite uint256.IsZero_spec in E2 by done.
  split_and!; [| |intros b Hb; by eapply bal_only].
  - destruct (v =? 0); [injection E2 as _ <-; by eexists|].
    unfold so_SetBalance, jappend, mbind, M_bind in E2. rewrite (obj_run _ _ _ Ho) in E2.
    cbn [modify] in E2. erewrite upd_run in E2 by exact Ho. injection E2 as _ <-.
    cbn. rewrite lookup_insert_eq. by eexists.
  - destruct (Z.eqb_spec v 0) as [->|].
    + injection E2 as _ <-. rewrite (bal_in _ _ _ Ho), Hd, Z.sub_0_r. by apply wrap256_id.
    + rewrite (so_SetBalance_bal _ _ _ _ _ _ Ho Hd E2). by apply uint256.Sub_spec.
Qed.

(** adding to a balance is exact on the view of the state, whether the
    account is loaded, destroyed, missing, or only known by an earlier increase
    that has not been transferred: [GetBalance] of the account afterwards answers
    the old balance plus the amount modulo 2^256, and the balance of every other
    account is unchanged. *)
Theorem AddBalance_exact s a v u s' :
  Inv s -> word v -> (is_Some (stateObjects s !! a) \/ absent R a) ->
  (ReadAccountData R a).2 = None -> AddBalance R a v s = Done (u, s') ->
  (exists t, GetBalance R a s' = Done (wrap256 (bal s a + v), t)) /\
  (forall b, b <> a -> bal s' b = bal s b).
Proof.
  intros Hi Hv Hg Hne E. destruct (AddBalance_bal s a v u s' Hi Hv Hg Hne E) as (Hi' & Hb & Hoth).
  split; [|done]. destruct (GetBalance_bal s' a Hi') as (t & Et & _). exists t. by rewrite Et, Hb.
Qed.

(** C31: a transfer conserves funds: when the sender has the amount
    ([CanTransfer] answers true) and the recipient's balance does not overflow,
    the sender's balance goes down by the amount, the recipient's goes up by it,
    and no other balance changes; a transfer to oneself changes nothing. *)
Theorem Transfer_conserves s x y v t u s' :
  Inv s -> word v -> (ReadAccountData R x).2 = None -> (ReadAccountData R y).2 = None ->
  (is_Some (stateObjects s !! y) \/ absent R y) ->
  CanTransfer R x v s = Done (true, t) -> bal s y + v < two256 ->
  Transfer R x y v false s = Done (u, s') ->
  forall b, bal s' b = bal s b - (if b =? x then v else 0) + (if b =? y then v else 0).
Proof.
  intros Hi Hv Hx Hy Hg Hc Hov (u1 & s1 & E1 & E2)%bind_Done b. cbn [negb] in E1.
  assert (v <= bal s x) as Hle.
  { apply bind_ret_Done in Hc as (z & Ez & Hz). destruct (GetBalance_bal s x Hi) as (t' & Eb & _).
    rewrite Eb in Ez. injection Ez as <- _. rewrite uint256.Lt_spec in Hz by (try apply bal_word; done).
    symmetry in Hz. apply negb_true_iff, Z.ltb_ge in Hz. done. }
  destruct (SubBalance_bal s x v u1 s1 Hi Hv Hx E1) as (Hi1 & Hin & B1 & F1).
  assert (is_Some (stateObjects s1 !! y) \/ absent R y) as Hg1.
  { destruct (decide (y = x)) as [->|Hne]; [by left|].
    destruct (only_SubBalance x v _ _ _ E1 y Hne) as [-> _]. done. }
  destruct (AddBalance_bal s1 y v u s' Hi1 Hv Hg1 Hy E2) as (_ & B2 & F2).
  pose proof (bal_word s x Hi) as Wx. pose proof (bal_word s y Hi) as Wy. unfold word in *.
  assert (bal s1 x = bal s x - v) as B1' by (rewrite B1; apply wrap256_small; unfold word; lia).
  destruct (Z.eqb_spec b y) as [->|Hby].
  - rewrite B2. destruct (Z.eqb_spec y x) as [->|Hne].
    + rewrite B1'. apply wrap256_small. unfold word. lia.
    + rewrite F1 by done. rewrite wrap256_small by (unfold word; lia). lia.
  - rewrite F2 by done. destruct (Z.eqb_spec b x) as [->|Hbx]; [lia|]. rewrite F1 by done. lia.
Qed.

End Theorems.

(** ** Examples

    A database without accounts, and one with a single account of balance 100
    at address 7. *)

Definition empty_reader : StateReader := mkStateReader
  (fun _ => (None, None)) (fun _ _ _ => (None, None)) (fun _ _ _ => (None, None))
  (fun _ _ _ => (0, None)) (fun _ => (0, None)).

Definition one_account : StateReader := mkStateReader
  (fun a => if a =? 7 then (Some (mkStateAccount true 1 100 0 0 0), None) else (None, None))
  (fun _ _ _ => (None, None)) (fun _ _ _ => (None, None))
  (fun _ _ _ => (0, None)) (fun _ => (0, None)).

Lemma empty_reader_wf : reader_wf empty_reader.
Proof. by intros a acc. Qed.

Lemma one_account_wf : reader_wf one_account.
Proof. intros a acc. cbn. destruct (a =? 7); [|done]. by intros [= <-]. Qed.

#[local] Existing Instance uint256.ref_uint256.
#[local] Existing Instance uint256.ref_uint256_laws.
#[local] Existing Instance ref_crypto.
#[local] Instance ref_codec : AccountCodec := {| EncodeForStorage a := [] |}.

(** The result of a run that finishes. *)
Definition result {A} (m : M IntraBlockState A) : option A :=
  match m New with Done (a, _) => Some a | _ => None end.

(** A balance increase of an account that is in the database but not loaded
    survives a revert: the increase is added to the loaded object and the revert
    of [balanceIncreaseTransfer] does not take it back.  Account 7 has balance
    100; after a snapshot, [AddBalance] of 5, a read and a revert to the
    snapshot, the read answers 105. *)
Theorem revert_keeps_increase :
  result (GetBalance one_account 7) = Some 100 /\
  result (rid ← Snapshot_;
          _ ← AddBalance one_account 7 5;
          _ ← GetBalance one_account 7;
          _ ← RevertToSnapshot one_account rid;
          GetBalance one_account 7) = Some 105.
Proof. split; vm_compute; reflexivity. Qed.

(** A self-destruct that is reverted loses the mark of a newly created
    contract: [Selfdestruct] clears [created] and the revert of its journal entry
    restores the destruction flag and the balance only. *)
Theorem revert_loses_created :
  result (_ ← CreateAccount empty_reader 7 true; o ← obj 7; mret (created o)) = Some true /\
  result (_ ← CreateAccount empty_reader 7 true;
          rid ← Snapshot_;
          _ ← Selfdestruct empty_reader 7;
          _ ← RevertToSnapshot empty_reader rid;
          o ← obj 7; mret (created o, selfdestructed o)) = Some (false, false).
Proof. split; vm_compute; reflexivity. Qed.

(** ** Witnesses *)

(** Run a list of commands. *)
Fixpoint exec_all (R : StateReader) (cs : list cmd) : M IntraBlockState () :=
  match cs with
  | [] => mret ()
  | c :: cs => _ ← exec R c; exec_all R cs
  end.

(** Commands whose guard holds in every state over the empty database. *)
Definition free (base : Z) (c : cmd) : Prop :=
  match c with
  | CAddBalance _ v | CSubBalance _ v | CSetBalance _ v => word v
  | CSelfdestruct _ => False
  | CRevertToSnapshot revid => base < revid
  | _ => True
  end.

Lemma exec_all_steps base cs s s' :
  Forall (free base) cs -> exec_all empty_reader cs s = Done ((), s') ->
  steps empty_reader base s s'.
Proof.
  revert s; induction cs as [|c cs IH]; intros s Hf E.
  - injection E as <-. constructor.
  - inversion_clear Hf as [|? ? Hc Hcs]. apply bind_Done in E as ([] & s1 & E1 & E2).
    eapply steps_cons; [|exact E1|by apply IH]. destruct c; cbn in *; try done.
    split; [done|]. right. by intros acc.
Qed.

Definition sample : list cmd :=
  [CSetNonce 5 1; CSetState 5 1 7; CSnapshot; CAddBalance 9 10; CCreateAccount 5 true;
   CRevertToSnapshot 1; CAddSlotToAccessList 5 1].

Definition after_snapshot : IntraBlockState :=
  set_validRevisions [mkRevision 0 0] (set_nextRevisionID 1 New).

Lemma sample_runs :
  exists s2, exec_all empty_reader sample after_snapshot = Done ((), s2).
Proof.
  destruct (exec_all empty_reader sample after_snapshot) as [[[] s2]| |] eqn:E; [by exists s2|..].
  all: exfalso; assert (match exec_all empty_reader sample after_snapshot with
                        | Done _ => true | _ => false end = true) as H by (vm_compute; reflexivity);
       by rewrite E in H.
Qed.

Lemma RevertToSnapshot_restores_witness : exists s2 s3,
  exec_all empty_reader sample after_snapshot = Done ((), s2) /\
  RevertToSnapshot empty_reader 0 s2 = Done ((), s3) /\
  validRevisions s3 = [].
Proof.
  destruct sample_runs as [s2 E].
  destruct (RevertToSnapshot_restores empty_reader empty_reader_wf New 0 after_snapshot s2)
    as (s3 & E3 & _ & _ & Hv & _).
  - apply Inv_New.
  - intros a n _ H. discriminate H.
  - split; constructor.
  - reflexivity.
  - apply (exec_all_steps 0 sample); [|exact E].
    repeat (constructor; [vm_compute; try exact I; try (split; congruence); try reflexivity|]). constructor.
  - exists s2, s3. split; [exact E|]. split; [exact E3|exact Hv].
Defined.

Lemma AddBalance_exact_witness : exists s' t,
  AddBalance empty_reader 5 3 New = Done ((), s') /\
  GetBalance empty_reader 5 s' = Done (3, t).
Proof.
  destruct (AddBalance empty_reader 5 3 New) as [[[] s']| |] eqn:E; [|discriminate E..].
  destruct (AddBalance_exact empty_reader empty_reader_wf New 5 3 () s') as [[t Ht] _].
  - apply Inv_New.
  - split; reflexivity || discriminate.
  - right. intros acc. discriminate.
  - reflexivity.
  - exact E.
  - exists s', t. split; [reflexivity|exact Ht].
Defined.

Lemma Transfer_conserves_witness : exists t u s',
  CanTransfer one_account 7 40 New = Done (true, t) /\
  Transfer one_account 7 6 40 false New = Done (u, s') /\ bal one_account s' 6 = 40.
Proof.
  destruct (CanTransfer one_account 7 40 New) as [[b t]| |] eqn:Ec; [|discriminate Ec..].
  destruct (Transfer one_account 7 6 40 false New) as [[u s']| |] eqn:E; [|discriminate E..].
  assert (b = true) as -> by (injection Ec as <- _; reflexivity).
  exists t, u, s'. split; [reflexivity|]. split; [reflexivity|].
  rewrite (Transfer_conserves one_account one_account_wf New 7 6 40 t u s' (Inv_New _)); [vm_compute; reflexivity|..].
  - split; reflexivity || discriminate.
  - reflexivity.
  - reflexivity.
  - right. intros acc. discriminate.
  - exact Ec.
  - vm_compute. reflexivity.
  - exact E.
Defined.
