(* ===== verification/Receipts.v ===== *)
(** * Receipts and their bloom filters

    The receipt of [common/block/receipt.go] and the 2048-bit filter of
    [common/block/bloom9.go] over the addresses and topics of its logs. *)

From S2P Require Import Prelude Uint256 Params Common.

Definition ReceiptStatusFailed : Z := 0.
Definition ReceiptStatusSuccessful : Z := 1.

Record Receipt : Type := mkReceipt {
  r_Type : Z;
  r_PostState : bytes;
  r_Status : Z;
  r_CumulativeGasUsed : Z;
  r_Bloom : bytes;
  r_Logs : list Log;
  r_TxHash : Z;
  r_ContractAddress : Z;
  r_GasUsed : Z;
  r_BlockHash : Z;
  r_BlockNumber : option Z;
  r_TransactionIndex : Z
}.

Definition BloomByteLength : Z := 256.

Section Bloom.
Context {C : Crypto}.

(** The index of a byte and the bit to set in it, from two bytes of the hash. *)
Definition bloomValue (hashbuf : bytes) (off : nat) : Z * Z :=
  let hi := nth off hashbuf 0 in
  let lo := nth (S off) hashbuf 0 in
  (BloomByteLength - Z.shiftr (Z.land (hi * 256 + lo) 0x7ff) 3 - 1, u8 (Z.shiftl 1 (Z.land lo 0x7))).

(** [sha.Read] gives the first six bytes of the hash. *)
Definition bloomValues (data : bytes) : list (Z * Z) :=
  let hashbuf := take 6 (Z_to_be 32 (Keccak256 data)) in
  [bloomValue hashbuf 0; bloomValue hashbuf 2; bloomValue hashbuf 4].

(** [b[i] |= v] *)
Definition or_at (b : bytes) (iv : Z * Z) : outcome bytes :=
  match znth b iv.1 with
  | Some x => match zset b iv.1 (Z.lor x iv.2) with Some b => Done b | None => GoPanic end
  | None => GoPanic
  end.

(** A loop that threads the filter. *)
Fixpoint fold_bloom {A} (f : bytes -> A -> outcome bytes) (l : list A) (b : bytes) : outcome bytes :=
  match l with
  | [] => Done b
  | x :: l => b ← f b x; fold_bloom f l b
  end.

Definition Bloom_add (b : bytes) (d : bytes) : outcome bytes := fold_bloom or_at (bloomValues d) b.

(** [v == v & b[i]], for the three pairs. *)
Fixpoint test_values (b : bytes) (l : list (Z * Z)) : outcome bool :=
  match l with
  | [] => Done true
  | (i, v) :: l =>
      match znth b i with
      | None => GoPanic
      | Some x => if v =? Z.land v x then test_values b l else Done false
      end
  end.

Definition Bloom_Test (b : bytes) (topic : bytes) : outcome bool := test_values b (bloomValues topic).

(** What a log puts into the filter. *)
Definition log_entries (log : Log) : list bytes :=
  Z_to_be 20 (log_Address log) :: map (Z_to_be 32) (log_Topics log).

Definition add_log (b : bytes) (log : Log) : outcome bytes := fold_bloom Bloom_add (log_entries log) b.

Definition LogsBloom (logs : list Log) : outcome bytes := fold_bloom add_log logs (repeat 0 256).

Definition CreateBloom (receipts : list Receipt) : outcome bytes :=
  fold_bloom (fun b receipt => fold_bloom add_log (r_Logs receipt) b) receipts (repeat 0 256).

(** ** No entry is lost *)



Definition covers (b : bytes) (iv : Z * Z) : Prop := exists x, znth b iv.1 = Some x /\ Z.land iv.2 x = iv.2.

(** [b'] has all the bits of [b]. *)
Definition grows (b b' : bytes) : Prop :=
  zlen b' = zlen b /\ forall iv, covers b iv -> covers b' iv.

#[global] Instance grows_preorder : PreOrder grows.
Proof.
  split; [by intros b|]. intros b1 b2 b3 [H1 H2] [H3 H4]. split; [congruence|]. auto.
Qed.

Lemma land_lor_kept u x v : Z.land u x = u -> Z.land u (Z.lor x v) = u.
Proof.
  intros H. apply Z.bits_inj'. intros n Hn. apply (f_equal (fun z => Z.testbit z n)) in H.
  rewrite Z.land_spec in *. rewrite Z.lor_spec. by destruct (Z.testbit u n), (Z.testbit x n).
Qed.

Lemma land_lor_new x v : Z.land v (Z.lor x v) = v.
Proof.
  apply Z.bits_inj'. intros n Hn. rewrite Z.land_spec, Z.lor_spec.
  by destruct (Z.testbit v n), (Z.testbit x n).
Qed.

Lemma or_at_spec b iv : 0 <= iv.1 < zlen b -> exists b', or_at b iv = Done b' /\ grows b b' /\ covers b' iv.
Proof.
  intros Hi. unfold or_at. destruct (znth_Some b iv.1 Hi) as [x Hx]. rewrite Hx. pose proof (zset_Some b iv.1 (Z.lor x iv.2) Hi) as Hs.
  rewrite Hs. eexists. split; [done|]. split; [split|].
  - unfold zlen. by rewrite length_insert.
  - intros [j u] (y & Hy & Hu). unfold covers. cbn in *. rewrite (znth_zset _ _ _ _ j Hs).
    destruct (Z.eqb_spec j iv.1) as [->|]; [|by exists y]. simplify_eq. eexists. split; [done|]. by apply land_lor_kept.
  - unfold covers. rewrite (znth_zset _ _ _ _ iv.1 Hs), Z.eqb_refl. eexists. split; [done|]. apply land_lor_new.
Qed.

(** Folding a step that grows the filter and covers its entry. *)
Lemma fold_bloom_spec {A} (f : bytes -> A -> outcome bytes) (P : A -> bytes -> Prop) l :
  (forall b b' x, P x b -> grows b b' -> P x b') ->
  (forall b x, x ∈ l -> zlen b = BloomByteLength -> exists b', f b x = Done b' /\ grows b b' /\ P x b') ->
  forall b, zlen b = BloomByteLength ->
  exists b', fold_bloom f l b = Done b' /\ grows b b' /\ Forall (fun x => P x b') l.
Proof.
  intros Hmono. induction l as [|x l IH]; intros Hf b Hb; cbn.
  { exists b. split; [done|]. split; [done|by apply Forall_nil_2]. }
  destruct (Hf b x ltac:(by left) Hb) as (b1 & -> & Hg1 & HP1). cbn.
  destruct (IH (fun b' y Hy => Hf b' y (proj2 (elem_of_cons _ _ _) (or_intror Hy))) b1) as (b2 & E2 & Hg2 & HP2).
  { by rewrite (proj1 Hg1). }
  exists b2. split; [exact E2|]. split; [by etransitivity|]. apply Forall_cons_2; [by eapply Hmono|done].
Qed.

Lemma bloomValue_range h off : Forall is_byte h -> 0 <= (bloomValue h off).1 < BloomByteLength.
Proof.
  intros Hh. cbn. unfold BloomByteLength. change 0x7ff with (Z.ones 11).
  rewrite Z.land_ones, Z.shiftr_div_pow2 by lia. set (z := _ mod _).
  assert (0 <= z < 2 ^ 11) by (apply Z.mod_pos_bound; lia).
  assert (0 <= z / 2 ^ 3 < 256) by (split; [apply Z.div_pos; lia|apply Z.div_lt_upper_bound; lia]). lia.
Qed.

Lemma bloomValues_range d : Forall (fun iv => 0 <= iv.1 < BloomByteLength) (bloomValues d).
Proof.
  assert (Hw : Forall is_byte (take 6 (Z_to_be 32 (Keccak256 d)))) by apply Forall_take, Z_to_be_wf.
  unfold bloomValues. repeat (apply Forall_cons_2; [by apply bloomValue_range|]). by apply Forall_nil_2.
Qed.

Definition contains (d b : bytes) : Prop := Forall (covers b) (bloomValues d).

Lemma contains_grows b b' d : contains d b -> grows b b' -> contains d b'.
Proof. intros H [_ Hg]. eapply list.Forall_impl; [exact H|]. intros iv. apply Hg. Qed.

Lemma add_contains b d : zlen b = BloomByteLength -> exists b', Bloom_add b d = Done b' /\ grows b b' /\ contains d b'.
Proof.
  intros Hb. apply (fold_bloom_spec or_at (fun iv b => covers b iv)); [| |done].
  - intros b1 b2 iv Hc [_ Hg]. by apply Hg.
  - intros b1 iv Hiv Hb1. apply or_at_spec. rewrite Hb1.
    by eapply list.Forall_forall in Hiv; [|apply bloomValues_range].
Qed.

Lemma contains_Test b d : contains d b -> Bloom_Test b d = Done true.
Proof.
  unfold contains, Bloom_Test. induction (bloomValues d) as [|[i v] l IH]; [done|].
  intros [(x & Hx & Hv) Hl]%Forall_cons_iff. cbn in *. rewrite Hx, Hv, Z.eqb_refl. by apply IH.
Qed.

Definition logged (log : Log) (b : bytes) : Prop := Forall (fun d => contains d b) (log_entries log).

Lemma logged_grows b b' log : logged log b -> grows b b' -> logged log b'.
Proof. intros H Hg. eapply list.Forall_impl; [exact H|]. intros d Hd. eapply contains_grows; [exact Hd|exact Hg]. Qed.

Lemma add_log_spec b log : zlen b = BloomByteLength -> exists b', add_log b log = Done b' /\ grows b b' /\ logged log b'.
Proof.
  intros Hb. apply (fold_bloom_spec Bloom_add contains); [intros b1 b2 d; apply contains_grows| |done].
  intros b1 d _ Hb1. by apply add_contains.
Qed.

Lemma add_logs_spec b logs : zlen b = BloomByteLength ->
  exists b', fold_bloom add_log logs b = Done b' /\ grows b b' /\ Forall (fun log => logged log b') logs.
Proof.
  intros Hb. apply fold_bloom_spec; [intros b1 b2 log; apply logged_grows| |done]. intros b1 log _ Hb1. by apply add_log_spec.
Qed.

(** The filter of a list of receipts, with what it contains. *)
Lemma CreateBloom_spec receipts : exists b, CreateBloom receipts = Done b /\ zlen b = BloomByteLength /\
  Forall (fun r => Forall (fun log => logged log b) (r_Logs r)) receipts.
Proof.
  destruct (fold_bloom_spec (fun b r => fold_bloom add_log (r_Logs r) b)
    (fun r b => Forall (fun log => logged log b) (r_Logs r)) receipts) with (b := repeat 0 256) as (b & E & [Hlen _] & Hall).
  - intros b b' r H Hg. eapply list.Forall_impl; [exact H|]. intros log Hl. eapply logged_grows; [exact Hl|exact Hg].
  - intros b r _ Hb. by apply add_logs_spec.
  - done.
  - by exists b.
Qed.

Lemma CreateBloom_built receipts : exists b, CreateBloom receipts = Done b.
Proof. destruct (CreateBloom_spec receipts) as (b & E & _). by exists b. Qed.

(** C32: the filter of a list of receipts has no false negatives: it is built without an index out of range, and it answers true for the address and for every topic of every log of every receipt. *)
Theorem CreateBloom_complete receipts : exists b, CreateBloom receipts = Done b /\ zlen b = BloomByteLength /\
  forall r log d, r ∈ receipts -> log ∈ r_Logs r -> d ∈ log_entries log -> Bloom_Test b d = Done true.
Proof.
  destruct (CreateBloom_spec receipts) as (b & E & Hlen & Hall).
  exists b. split; [exact E|]. split; [exact Hlen|]. intros r log d Hr Hl Hd. apply contains_Test.
  eapply list.Forall_forall in Hall; [|exact Hr]. eapply list.Forall_forall in Hall; [|exact Hl].
  by eapply list.Forall_forall in Hall; [|exact Hd].
Qed.
End Bloom.
