(* ===== verification/Finalise.v ===== *)
(** * The intra-block state: finalisation and commit

    The end of a transaction and of a block in
    [modules/state/intra_block_state.go] and [state_object.go]: the objects that
    changed are written through the [StateWriter] of [modules/state/database.go],
    and the journal is cleared.

    A call of a writer's method is a value of [WriteOp]; a writer is what those
    calls do to its own state, of any type [W].  Go visits the entries of a map in
    an unspecified order: [iter] is that order, of which the theorems assume only
    that every entry is visited once. *)

From S2P Require Import Prelude Uint256 Params Common AccessList StateTypes State.

(** The methods of [StateWriter]. *)
Inductive WriteOp : Type :=
| UpdateAccountData (address : Z) (original account : StateAccount)
| UpdateAccountCode (address incarnation codeHash : Z) (code : bytes)
| DeleteAccount (address : Z) (original : StateAccount)
| WriteAccountStorage (address incarnation key original value : Z)
| CreateContract (address : Z).

Definition StateWriter (W : Type) : Type := WriteOp -> M W (option error).

(** [NoopWriter] accepts everything and does nothing. *)
Definition NoopWriter {W} : StateWriter W := fun _ => mret None.

(** A writer that keeps the calls it receives, for examples. *)
Definition recorder : StateWriter (list WriteOp) :=
  fun op => _ ← modify (fun l => l ++ [op]); mret None.

(** [if err := m; err != nil { return err }; k] *)
Definition then_ {S} (m k : M S (option error)) : M S (option error) :=
  err ← m; match err with Some err => mret (Some err) | None => k end.

(** A loop that stops at the first error. *)
Fixpoint each {S A} (f : A -> M S (option error)) (l : list A) : M S (option error) :=
  match l with
  | [] => mret None
  | x :: l => then_ (f x) (each f l)
  end.

Section Finalise.
Context {U : Uint256} {C : Crypto} {K : AccountCodec} (R : StateReader).
Context (iter : forall A : Type, list A -> list A) {W : Type} (stateWriter : StateWriter W).

Notation MW := (M (IntraBlockState * W)).

Definition on_sdb {A} (m : M IntraBlockState A) : MW A := zoom fst (fun s p => (s, p.2)) m.

Definition write (op : WriteOp) : MW (option error) :=
  zoom snd (fun w p => (p.1, w)) (stateWriter op).

Definition state_SystemAddress : Z := 0xfffffffffffffffffffffffffffffffffffffffe.

Definition updateTrie (addr : Z) : MW (option error) :=
  so ← on_sdb (obj addr);
  each (fun '(key, value) =>
          so ← on_sdb (obj addr);
          let original := default 0 (blockOriginStorage so !! key) in
          _ ← on_sdb (upd addr (fun so => set_originStorage (<[key := value]> (originStorage so)) so));
          write (WriteAccountStorage (address so) (Incarnation (data so)) key original value))
       (iter _ (map_to_list (dirtyStorage so))).

Definition updateAccount (EIP161Enabled isAura : bool) (addr : Z) (isDirty : bool) : MW (option error) :=
  so ← on_sdb (obj addr);
  let emptyRemoval := EIP161Enabled && empty so && (negb isAura || negb (addr =? state_SystemAddress)) in
  then_ (if selfdestructed so || (isDirty && emptyRemoval) then
           then_ (write (DeleteAccount addr (original so)))
             (_ ← on_sdb (upd addr (set_deleted true)); mret None)
         else mret None)
  (if isDirty && (created so || negb (selfdestructed so)) && negb emptyRemoval then
     _ ← on_sdb (upd addr (set_deleted false));
     then_ (match code so with
            | Some c => if dirtyCode so
                        then write (UpdateAccountCode addr (Incarnation (data so)) (CodeHash (data so)) c)
                        else mret None
            | None => mret None
            end)
     (then_ (if created so then write (CreateContract addr) else mret None)
     (then_ (updateTrie addr)
     (write (UpdateAccountData addr (original so) (data so)))))
   else mret None).

Definition clearJournalAndRefund : M IntraBlockState () :=
  modify (fun s => set_refund 0 (set_validRevisions [] (set_journal newJournal s))).

(** The loop over [sdb.balanceInc] at the head of [FinalizeTx] and [CommitBlock]. *)
Definition load_increases : M IntraBlockState () :=
  s ← get;
  for_each (fun '(addr, _) =>
    s ← get;
    match balanceInc s !! addr with
    | Some bi => if negb (transferred bi) then _ ← getStateObject R addr; mret () else mret ()
    | None => mret ()
    end) (iter _ (map_to_list (balanceInc s))).

Definition mark_dirty (addr : Z) : M IntraBlockState () :=
  modify (fun s => set_stateObjectsDirty ({[addr]} ∪ stateObjectsDirty s) s).

Definition FinalizeTx (IsSpuriousDragon IsAura : bool) : MW (option error) :=
  _ ← on_sdb load_increases;
  s ← on_sdb get;
  then_ (each (fun '(addr, _) =>
                 s ← on_sdb get;
                 match stateObjects s !! addr with
                 | None => mret None
                 | Some _ =>
                     then_ (updateAccount IsSpuriousDragon IsAura addr true)
                       (_ ← on_sdb (mark_dirty addr); mret None)
                 end) (iter _ (map_to_list (dirties (journal_ s)))))
  (_ ← on_sdb clearJournalAndRefund; mret None).

Definition SoftFinalise : M IntraBlockState () :=
  s ← get;
  _ ← for_each (fun '(addr, _) =>
        s ← get;
        match stateObjects s !! addr with None => mret () | Some _ => mark_dirty addr end)
      (iter _ (map_to_list (dirties (journal_ s))));
  clearJournalAndRefund.

Definition MakeWriteSet (IsSpuriousDragon IsAura : bool) : MW (option error) :=
  s ← on_sdb get;
  _ ← on_sdb (for_each (fun '(addr, _) => mark_dirty addr) (iter _ (map_to_list (dirties (journal_ s)))));
  s ← on_sdb get;
  then_ (each (fun '(addr, _) =>
                 s ← on_sdb get;
                 updateAccount IsSpuriousDragon IsAura addr (bool_decide (addr ∈ stateObjectsDirty s)))
              (iter _ (map_to_list (stateObjects s))))
  (_ ← on_sdb clearJournalAndRefund; mret None).

Definition CommitBlock (IsSpuriousDragon IsAura : bool) : MW (option error) :=
  _ ← on_sdb load_increases;
  MakeWriteSet IsSpuriousDragon IsAura.

Definition BalanceIncreaseSet (s : IntraBlockState) : gmap Z Z :=
  omap (fun bi => if transferred bi then None else Some (increase bi)) (balanceInc s).

Definition Prepare (thash bhash ti : Z) : M IntraBlockState () :=
  modify (fun s => set_accessList accessList.newAccessList (set_txIndex ti (set_bhash bhash (set_thash thash s)))).

Definition Reset : M IntraBlockState () :=
  _ ← modify (fun s => set_logSize 0 (set_logs ∅ (set_txIndex 0 (set_bhash 0 (set_thash 0
        (set_stateObjectsDirty ∅ (set_stateObjects ∅ s)))))));
  _ ← clearJournalAndRefund;
  modify (fun s => set_balanceInc ∅ (set_accessList accessList.newAccessList s)).

(** The logs of all transactions: the map is visited in some order. *)
Definition Logs (s : IntraBlockState) : list Log := concat (iter _ (map_to_list (logs s))).*2.

(** The code of the objects that will be written. *)
Definition CodeHashes : M IntraBlockState (gmap Z bytes) :=
  s ← get;
  _ ← for_each (fun '(addr, so) =>
        match code so with
        | Some c =>
            if bool_decide (addr ∈ stateObjectsDirty s) && (created so || negb (selfdestructed so)) && dirtyCode so
            then modify (fun s => set_codeMap (<[CodeHash (data so) := c]> (codeMap s)) s)
            else mret ()
        | None => mret ()
        end) (iter _ (map_to_list (stateObjects s)));
  gets codeMap.

End Finalise.
