(* ===== verification/FinaliseTheorems.v ===== *)
(** * What finalisation writes

    A finalisation step run with any writer makes exactly the calls of a list of
    write operations that depends on the state alone, stops at the first call that
    fails, and otherwise leaves the state the pure function says ([runs]).  The
    lists: [object_ops] for one object, their concatenation for [MakeWriteSet]. *)

From S2P Require Import Prelude Uint256 Params Common AccessList StateTypes State Finalise.

(** ** The calls of one object *)

Section Ops.
Context {U : Uint256} {C : Crypto}.
Context (iter : forall A : Type, list A -> list A).

Definition empty_removal (EIP161Enabled isAura : bool) (addr : Z) (so : stateObject) : bool :=
  EIP161Enabled && empty so && (negb isAura || negb (addr =? state_SystemAddress)).

(** What happens to an object: its account is deleted, and it is written. *)
Definition removed (e a : bool) (addr : Z) (so : stateObject) (isDirty : bool) : bool :=
  selfdestructed so || (isDirty && empty_removal e a addr so).
Definition rewritten (e a : bool) (addr : Z) (so : stateObject) (isDirty : bool) : bool :=
  isDirty && (created so || negb (selfdestructed so)) && negb (empty_removal e a addr so).

Definition slot_op (so : stateObject) (kv : Z * Z) : WriteOp :=
  WriteAccountStorage (address so) (Incarnation (data so)) kv.1
    (default 0 (blockOriginStorage so !! kv.1)) kv.2.

Definition write_ops (addr : Z) (so : stateObject) : list WriteOp :=
  match code so with
  | Some c => if dirtyCode so then [UpdateAccountCode addr (Incarnation (data so)) (CodeHash (data so)) c] else []
  | None => []
  end ++ (if created so then [CreateContract addr] else [])
  ++ map (slot_op so) (iter _ (map_to_list (dirtyStorage so)))
  ++ [UpdateAccountData addr (original so) (data so)].

Definition object_ops (e a : bool) (addr : Z) (so : stateObject) (isDirty : bool) : list WriteOp :=
  (if removed e a addr so isDirty then [DeleteAccount addr (original so)] else [])
  ++ (if rewritten e a addr so isDirty then write_ops addr so else []).

(** The object afterwards: its flag, and the storage that counts as committed. *)
Definition store_slot (so : stateObject) (kv : Z * Z) : stateObject :=
  set_originStorage (<[kv.1 := kv.2]> (originStorage so)) so.

Definition object_after (e a : bool) (addr : Z) (so : stateObject) (isDirty : bool) : stateObject :=
  let so := if removed e a addr so isDirty then set_deleted true so else so in
  if rewritten e a addr so isDirty
  then foldl store_slot (set_deleted false so) (iter _ (map_to_list (dirtyStorage so)))
  else so.
End Ops.

Definition put_object (addr : Z) (so : stateObject) (s : IntraBlockState) : IntraBlockState :=
  set_stateObjects (<[addr := so]> (stateObjects s)) s.

(** ** Runs with a writer *)

Section Runs.
Context {W : Type} (stateWriter : StateWriter W).
Notation MW := (M (IntraBlockState * W)).

Definition runs (m : MW (option error)) (s : IntraBlockState) (ops : list WriteOp) (s' : IntraBlockState) : Prop :=
  forall w, match each stateWriter ops w with
  | Done (None, w') => m (s, w) = Done (None, (s', w'))
  | Done (Some err, w') => exists s'', m (s, w) = Done (Some err, (s'', w'))
  | GoPanic => m (s, w) = GoPanic
  | NoFuel => m (s, w) = NoFuel
  end.

Lemma runs_ret s : runs (mret None) s [] s.
Proof. by intros w. Qed.

Lemma runs_write op s : runs (write stateWriter op) s [op] s.
Proof.
  intros w. cbn. unfold then_, mbind, M_bind, write, zoom. cbn.
  destruct (stateWriter op w) as [[[err|] w']| |]; cbn; eauto.
Qed.

Lemma each_app {S A} (f : A -> M S (option error)) l k s :
  each f (l ++ k) s = then_ (each f l) (each f k) s.
Proof.
  revert s; induction l as [|x l IH]; intros s; [done|]. cbn. unfold then_, mbind, M_bind in *.
  destruct (f x s) as [[[err|] s']| |]; [done| |done..]. apply IH.
Qed.

Lemma runs_then m k s o1 s1 o2 s2 : runs m s o1 s1 -> runs k s1 o2 s2 -> runs (then_ m k) s (o1 ++ o2) s2.
Proof.
  intros Hm Hk w. rewrite each_app. unfold then_, mbind, M_bind. specialize (Hm w).
  destruct (each stateWriter o1 w) as [[[err|] w']| |].
  - destruct Hm as [s'' ->]. cbn. eauto.
  - rewrite Hm. apply Hk.
  - by rewrite Hm.
  - by rewrite Hm.
Qed.

Lemma runs_sdb {A} (m : M IntraBlockState A) (k : A -> MW (option error)) s a s1 ops s2 :
  m s = Done (a, s1) -> runs (k a) s1 ops s2 -> runs (on_sdb m ≫= k) s ops s2.
Proof.
  intros Hm Hk w. specialize (Hk w). unfold on_sdb, zoom, mbind, M_bind. cbn. by rewrite Hm.
Qed.

(** A loop: [P] relates the entries still to visit with the state. *)
Lemma runs_each {A} (f : A -> MW (option error)) (g : A -> list WriteOp) (st : IntraBlockState -> A -> IntraBlockState)
    (P : list A -> IntraBlockState -> Prop) l s :
  (forall x l s, P (x :: l) s -> runs (f x) s (g x) (st s x) /\ P l (st s x)) ->
  P l s -> runs (each f l) s (flat_map g l) (foldl st s l).
Proof.
  intros Hf. revert s; induction l as [|x l IH]; intros s HP; cbn; [apply runs_ret|].
  destruct (Hf x l s HP) as [Hx HP']. eapply runs_then; eauto.
Qed.
End Runs.

Section Objects.
Context {U : Uint256} {C : Crypto}.
Context (iter : forall A : Type, list A -> list A) {W : Type} (stateWriter : StateWriter W).

Lemma obj_at addr s so : stateObjects s !! addr = Some so -> obj addr s = Done (so, s).
Proof. intros H. unfold obj, get, mbind, M_bind, must. by rewrite H. Qed.

Lemma upd_at addr f s so : stateObjects s !! addr = Some so -> upd addr f s = Done ((), put_object addr (f so) s).
Proof. intros H. unfold upd, mbind, M_bind. rewrite (obj_at _ _ _ H). done. Qed.

Lemma put_object_at addr so s : stateObjects (put_object addr so s) !! addr = Some so.
Proof. cbn. by simplify_map_eq. Qed.

Lemma put_object_put addr so so' s : put_object addr so' (put_object addr so s) = put_object addr so' s.
Proof. unfold put_object. cbn. by rewrite insert_insert_eq. Qed.

Lemma put_object_id addr so s : stateObjects s !! addr = Some so -> put_object addr so s = s.
Proof. intros H. unfold put_object. rewrite insert_id by done. by destruct s. Qed.

Lemma store_slots_fields l so :
  let so' := foldl store_slot so l in
  address so' = address so /\ data so' = data so /\ original so' = original so /\
  blockOriginStorage so' = blockOriginStorage so /\ dirtyStorage so' = dirtyStorage so /\
  created so' = created so /\ selfdestructed so' = selfdestructed so /\ deleted so' = deleted so.
Proof. revert so; induction l as [|kv l IH]; intros so; cbn; [done|]. apply (IH (store_slot so kv)). Qed.

Lemma map_as_flat_map {A B} (f : A -> B) l : map f l = flat_map (fun x => [f x]) l.
Proof. induction l as [|x l IH]; cbn; [done|]. by rewrite IH. Qed.

Lemma updateTrie_runs addr so s : stateObjects s !! addr = Some so ->
  runs stateWriter (updateTrie iter stateWriter addr) s
    (map (slot_op so) (iter _ (map_to_list (dirtyStorage so))))
    (put_object addr (foldl store_slot so (iter _ (map_to_list (dirtyStorage so)))) s).
Proof.
  intros H. unfold updateTrie. eapply runs_sdb; [by apply obj_at|].
  set (l := iter _ _). clearbody l.
  rewrite map_as_flat_map.
  assert (E : put_object addr (foldl store_slot so l) s
              = foldl (fun s kv => match stateObjects s !! addr with
                                   | Some so => put_object addr (store_slot so kv) s | None => s end) s l).
  { clear -H. revert so s H; induction l as [|kv l IH]; intros so s H; cbn.
    - by apply put_object_id.
    - rewrite H. rewrite <-(IH (store_slot so kv)) by apply put_object_at. by rewrite put_object_put. }
  rewrite E. apply runs_each with (P := fun _ s => exists so', stateObjects s !! addr = Some so' /\
    address so' = address so /\ Incarnation (data so') = Incarnation (data so) /\
    blockOriginStorage so' = blockOriginStorage so); [|eauto 6].
  intros [key v] l' s' (so' & Hs' & Ha & Hi & Hb). rewrite Hs'. split.
  - eapply runs_sdb; [by apply obj_at|]. eapply runs_sdb; [by apply upd_at|].
    unfold slot_op. cbn. rewrite Ha, Hi, Hb. apply runs_write.
  - eexists. split; [apply put_object_at|]. done.
Qed.

Lemma updateAccount_runs e a addr so isDirty s : stateObjects s !! addr = Some so ->
  runs stateWriter (updateAccount iter stateWriter e a addr isDirty) s
    (object_ops iter e a addr so isDirty)
    (put_object addr (object_after iter e a addr so isDirty) s).
Proof.
  intros H. unfold updateAccount, object_ops, object_after, removed, rewritten.
  fold (empty_removal e a addr so).
  eapply runs_sdb; [by apply obj_at|]. fold (empty_removal e a addr so).
  set (del := selfdestructed so || _). set (so1 := if del then set_deleted true so else so).
  assert (Hc : empty_removal e a addr so1 = empty_removal e a addr so /\ created so1 = created so /\
               selfdestructed so1 = selfdestructed so /\ dirtyStorage so1 = dirtyStorage so) by (by subst so1; destruct del).
  destruct Hc as (-> & -> & -> & ->). eapply runs_then with (s1 := put_object addr so1 s).
  - subst so1. destruct del; [|by rewrite put_object_id; [apply runs_ret|]].
    eapply (runs_then _ _ _ _ [_] _ []); [apply runs_write|].
    eapply runs_sdb; [by apply upd_at|apply runs_ret].
  - clearbody del. destruct (isDirty && _ && _); [|apply runs_ret].
    eapply runs_sdb; [apply upd_at, put_object_at|]. rewrite put_object_put.
    replace (set_deleted false so1) with (set_deleted false so) by (by subst so1; destruct del).
    unfold write_ops. repeat eapply runs_then.
    + destruct (code so); [|apply runs_ret]. destruct (dirtyCode so); [apply runs_write|apply runs_ret].
    + destruct (created so); [apply runs_write|apply runs_ret].
    + eapply (updateTrie_runs _ (set_deleted false so)), put_object_at.
    + rewrite put_object_put. apply runs_write.
Qed.

Definition object_of (s : IntraBlockState) (x : Z * stateObject) : Prop := stateObjects s !! x.1 = Some x.2.

Lemma mark_dirties_run {A} (f : Z * A -> M IntraBlockState ()) l s :
  (forall x s, f x s = mark_dirty x.1 s) ->
  for_each f l s = Done ((), set_stateObjectsDirty (list_to_set (l.*1) ∪ stateObjectsDirty s) s).
Proof.
  intros Hf. revert s; induction l as [|x l IH]; intros s; cbn.
  - rewrite union_empty_l_L. by destruct s.
  - unfold mbind, M_bind. rewrite Hf. cbn. rewrite IH. unfold set_stateObjectsDirty. cbn.
    replace (list_to_set l.*1 ∪ ({[x.1]} ∪ stateObjectsDirty s))
      with ({[x.1]} ∪ list_to_set l.*1 ∪ stateObjectsDirty s) by set_solver. done.
Qed.

Definition cleared (s : IntraBlockState) : IntraBlockState :=
  set_refund 0 (set_validRevisions [] (set_journal newJournal s)).

(** The addresses [MakeWriteSet] takes for changed. *)
Definition dirty_set (s : IntraBlockState) : gset Z := dom (dirties (journal_ s)) ∪ stateObjectsDirty s.
Definition is_dirty (s : IntraBlockState) (addr : Z) : bool := bool_decide (addr ∈ dirty_set s).

Definition write_set (e a : bool) (s : IntraBlockState) : list WriteOp :=
  flat_map (fun '(addr, so) => object_ops iter e a addr so (is_dirty s addr))
    (iter _ (map_to_list (stateObjects s))).

Definition write_set_after (e a : bool) (s : IntraBlockState) : IntraBlockState :=
  cleared (set_stateObjectsDirty (dirty_set s)
    (set_stateObjects (map_imap (fun addr so => Some (object_after iter e a addr so (is_dirty s addr))) (stateObjects s)) s)).

(** The states inside the loop of [MakeWriteSet]. *)
Definition updated (e a : bool) (dirty : Z -> bool) (s : IntraBlockState) (x : Z * stateObject) : IntraBlockState :=
  put_object x.1 (object_after iter e a x.1 x.2 (dirty x.1)) s.

Lemma foldl_updated e a dirty l s :
  foldl (updated e a dirty) s l
  = set_stateObjects (foldl (fun m x => <[x.1 := object_after iter e a x.1 x.2 (dirty x.1)]> m) (stateObjects s) l) s.
Proof.
  revert s; induction l as [|x l IH]; intros s; cbn; [by destruct s|]. by rewrite IH.
Qed.

Lemma foldl_inserts {B} (f : Z * B -> B) l (m : gmap Z B) k : NoDup l.*1 ->
  foldl (fun m x => <[x.1 := f x]> m) m l !! k
  = match list_to_map (M := gmap Z B) l !! k with Some v => Some (f (k, v)) | None => m !! k end.
Proof.
  revert m; induction l as [|[i v] l IH]; intros m Hnd; [done|]. cbn in *.
  apply list.NoDup_cons in Hnd as [Hi Hnd]. rewrite IH by done.
  destruct (decide (k = i)) as [->|Hk].
  - rewrite not_elem_of_list_to_map_1 by done. by simplify_map_eq.
  - by rewrite !lookup_insert_ne by done.
Qed.

Context (iter_perm : forall A (l : list A), iter A l ≡ₚ l).

Lemma iter_keys {B} (m : gmap Z B) : NoDup (iter _ (map_to_list m)).*1.
Proof. rewrite iter_perm. apply NoDup_fst_map_to_list. Qed.

Lemma iter_map {B} (m : gmap Z B) : list_to_map (M := gmap Z B) (iter _ (map_to_list m)) = m.
Proof.
  rewrite <-(list_to_map_to_list m) at 2. apply list_to_map_proper; [apply iter_keys|apply iter_perm].
Qed.

Lemma iter_in {B} (m : gmap Z B) k v : (k, v) ∈ iter _ (map_to_list m) <-> m !! k = Some v.
Proof. by rewrite iter_perm, elem_of_map_to_list. Qed.

Lemma foldl_objects_after e a dirty (m : gmap Z stateObject) :
  foldl (fun m x => <[x.1 := object_after iter e a x.1 x.2 (dirty x.1)]> m) m (iter _ (map_to_list m))
  = map_imap (fun addr so => Some (object_after iter e a addr so (dirty addr))) m.
Proof.
  apply map_eq. intros k.
  rewrite (foldl_inserts (fun x => object_after iter e a x.1 x.2 (dirty x.1))) by apply iter_keys.
  rewrite iter_map, map_lookup_imap. by destruct (m !! k).
Qed.

Lemma MakeWriteSet_runs e a s :
  runs stateWriter (MakeWriteSet iter stateWriter e a) s (write_set e a s) (write_set_after e a s).
Proof.
  unfold MakeWriteSet. eapply runs_sdb; [done|].
  eapply runs_sdb; [apply mark_dirties_run; by intros [? ?] ?|].
  eapply runs_sdb; [done|]. cbn [stateObjects set_stateObjectsDirty].
  set (s1 := set_stateObjectsDirty _ s).
  assert (Hd : stateObjectsDirty s1 = dirty_set s).
  { subst s1. cbn. unfold dirty_set. f_equal. rewrite iter_perm. apply set_eq. intros x.
    rewrite elem_of_list_to_set, elem_of_dom, list_elem_of_fmap. split.
    - intros ((k & v) & -> & Hk%elem_of_map_to_list). by exists v.
    - intros [v Hv]. exists (x, v). by rewrite elem_of_map_to_list. }
  rewrite <-(app_nil_r (write_set e a s)).
  eapply runs_then with (s1 := foldl (updated e a (is_dirty s)) s1 (iter _ (map_to_list (stateObjects s)))).
  - unfold write_set.
    apply (runs_each stateWriter _ (fun '(addr, so) => object_ops iter e a addr so (is_dirty s addr)) _
      (fun l s' => NoDup l.*1 /\ Forall (object_of s') l /\ stateObjectsDirty s' = dirty_set s)).
    + intros [addr so] l s' (Hnd & [Ho Hl]%Forall_cons_iff & Hs'). apply list.NoDup_cons in Hnd as [Hi Hnd]. split.
      * eapply runs_sdb; [done|]. rewrite Hs'. fold (is_dirty s addr). by apply updateAccount_runs.
      * split_and!; [done| |done]. apply list.Forall_forall. intros x Hx.
        unfold object_of, updated, put_object. cbn.
        rewrite lookup_insert_ne; [by eapply list.Forall_forall in Hl|].
        intros ->. apply Hi. apply list_elem_of_fmap. by exists x.
    + split_and!; [apply iter_keys| |done]. apply list.Forall_forall. intros [k v] Hk. by apply iter_in in Hk.
  - eapply runs_sdb; [|apply runs_ret]. rewrite foldl_updated, foldl_objects_after.
    subst s1. cbn in Hd. by rewrite Hd.
Qed.

(** *** The end of a transaction *)

Context {K : AccountCodec} (R : StateReader).

Definition finalized (e a : bool) (s : IntraBlockState) (x : Z * Z) : IntraBlockState :=
  match stateObjects s !! x.1 with
  | None => s
  | Some so =>
      let s := put_object x.1 (object_after iter e a x.1 so true) s in
      set_stateObjectsDirty ({[x.1]} ∪ stateObjectsDirty s) s
  end.

Lemma FinalizeTx_runs e a s s1 : load_increases R iter s = Done ((), s1) ->
  runs stateWriter (FinalizeTx R iter stateWriter e a) s
    (flat_map (fun x => match stateObjects s1 !! x.1 with Some so => object_ops iter e a x.1 so true | None => [] end)
       (iter _ (map_to_list (dirties (journal_ s1)))))
    (cleared (foldl (finalized e a) s1 (iter _ (map_to_list (dirties (journal_ s1)))))).
Proof.
  intros Hl. unfold FinalizeTx. eapply runs_sdb; [done|]. eapply runs_sdb; [done|].
  rewrite <-(app_nil_r (flat_map _ _)). eapply runs_then; [|eapply runs_sdb; [done|apply runs_ret]].
  apply (runs_each stateWriter _ _ _ (fun l s' => NoDup l.*1 /\
    forall x, x ∈ l -> stateObjects s' !! x.1 = stateObjects s1 !! x.1)).
  - intros [addr n] l s' [Hnd Hs']. apply list.NoDup_cons in Hnd as [Hi Hnd].
    pose proof (Hs' (addr, n) ltac:(by left)) as H0. cbn in H0. unfold finalized. cbn. rewrite <-H0. split.
    + eapply runs_sdb; [done|]. destruct (stateObjects s' !! addr) as [so|] eqn:Hso; [|apply runs_ret].
      rewrite <-(app_nil_r (object_ops _ _ _ _ _ _)).
      eapply runs_then; [by apply updateAccount_runs|]. eapply runs_sdb; [done|apply runs_ret].
    + split; [done|]. intros x Hx. rewrite <-(Hs' x) by (by right).
      destruct (stateObjects s' !! addr); [|done]. cbn. apply lookup_insert_ne. intros ->.
      apply Hi. apply list_elem_of_fmap. by exists x.
  - split; [apply iter_keys|done].
Qed.

End Objects.
