(* ===== verification/StateTyping.v ===== *)
(** * The intra-block state is well-typed and faithful to the database

    Two invariants of every operation of the state, of the journal's reverts and of the
    finalisation of a transaction.  First, every field of a state object keeps the range
    of its Go type, every object is filed under its own address, and the code an object
    carries has the hash its account names.  Second, the storage an object takes for
    the values before the block is the storage of the database. *)

From S2P Require Import Prelude Uint256 Params Common AccessList StateTypes State StateRollback StateSnapshots Finalise FinaliseTheorems.

Definition wf_account (a : StateAccount) : Prop :=
  0 <= Nonce a < two64 /\ word (Balance a) /\ word (Root a) /\ word (CodeHash a) /\ 0 <= Incarnation a < two16.

Definition wf_address (a : Z) : Prop := 0 <= a < two160.

Definition wf_slots (st : Storage) : Prop := map_Forall (fun k v => word k /\ word v) st.

Section Typing.
Context {U : Uint256} {UL : Uint256Laws U} {C : Crypto} {CL : CryptoLaws C} {K : AccountCodec} (R : StateReader).
Notation MS := (M IntraBlockState).

Definition code_ok (c : option bytes) (h : Z) : Prop :=
  word h /\ forall b, c = Some b -> Keccak256 b = h.

Record object_ok (addr : Z) (o : stateObject) : Prop := {
  ok_address : address o = addr;
  ok_range : wf_address addr;
  ok_data : wf_account (data o);
  ok_init : Initialised (data o) = true;
  ok_code : code_ok (code o) (CodeHash (data o));
  ok_dirty : wf_slots (dirtyStorage o);
  ok_origin : wf_slots (originStorage o);
  ok_fake fs : fakeStorage o = Some fs -> wf_slots fs
}.

(** What the database returns has the Go types too, and code has the hash it is
    stored under. *)
Definition reader_ok : Prop :=
  (forall a acc, ReadAccountData R a = (Some acc, None) -> wf_account acc) /\
  (forall a i h c err, word h -> ReadAccountCode R a i h = (Some c, err) -> Keccak256 c = h).

Definition entry_ok (e : journalEntry) : Prop :=
  match e with
  | createObjectChange a | touchChange a | balanceIncreaseTransfer a => wf_address a
  | resetObjectChange a prev => object_ok a prev
  | selfdestructChange a _ b | balanceChange a b | balanceIncrease a b => wf_address a /\ word b
  | nonceChange a n => wf_address a /\ 0 <= n < two64
  | storageChange a k v | fakeStorageChange a k v => wf_address a /\ word k /\ word v
  | codeChange a c h => wf_address a /\ code_ok c h
  | refundChange _ | addLogChange _ | accessListAddAccountChange _ | accessListAddSlotChange _ _ => True
  end.

Record typed (s : IntraBlockState) : Prop := {
  ty_objects : map_Forall object_ok (stateObjects s);
  ty_increases : map_Forall (fun a bi => wf_address a /\ word (increase bi)) (balanceInc s);
  ty_journal : Forall entry_ok (entries (journal_ s))
}.

(** ** A Hoare logic for the invariant *)

Definition types {A} (m : MS A) (Q : A -> Prop) : Prop :=
  forall s a s', typed s -> m s = Done (a, s') -> typed s' /\ Q a.

Lemma types_ret {A} (a : A) (Q : A -> Prop) : Q a -> types (mret a) Q.
Proof. intros Hq s b s' Hs [= <- <-]. done. Qed.

Lemma types_bind {A B} (m : MS A) (k : A -> MS B) (P : A -> Prop) (Q : B -> Prop) :
  types m P -> (forall a, P a -> types (k a) Q) -> types (m ≫= k) Q.
Proof. intros Hm Hk s b s' Hs E. go_inv. destruct (Hm _ _ _ Hs Hm0) as [Hs0 HP]. by eapply Hk. Qed.

Lemma types_get : types get typed.
Proof. by intros s a s' Hs [= <- <-]. Qed.

Lemma types_gets {A} (f : IntraBlockState -> A) : types (gets f) (fun _ => True).
Proof. by intros s a s' Hs [= <- <-]. Qed.

Lemma types_panic {A} (Q : A -> Prop) : types panic Q.
Proof. by intros s a s' Hs [=]. Qed.

Lemma types_must {A} (o : option A) (Q : A -> Prop) : (forall a, o = Some a -> Q a) -> types (must o) Q.
Proof. intros H. destruct o; [by apply types_ret, H|apply types_panic]. Qed.

Lemma types_modify f : (forall s, typed s -> typed (f s)) -> types (modify f) (fun _ => True).
Proof. intros H s a s' Hs [= <- <-]. split; [by apply H|done]. Qed.

Lemma types_weaken {A} (m : MS A) (P Q : A -> Prop) : types m P -> (forall a, P a -> Q a) -> types m Q.
Proof. intros Hm H s a s' Hs E. destruct (Hm _ _ _ Hs E). split; [done|by apply H]. Qed.

Lemma types_for_each {A} (f : A -> MS ()) l : (forall x, x ∈ l -> types (f x) (fun _ => True)) -> types (for_each f l) (fun _ => True).
Proof.
  induction l as [|x l IH]; intros H; cbn; [by apply types_ret|].
  eapply types_bind; [apply H; by left|]. intros _ _. apply IH. intros y Hy. apply H. by right.
Qed.

(** Changes outside the objects, increases and journal. *)
Lemma typed_other f :
  (forall s, stateObjects (f s) = stateObjects s /\ balanceInc (f s) = balanceInc s /\ journal_ (f s) = journal_ s) ->
  types (modify f) (fun _ => True).
Proof.
  intros H. apply types_modify. intros s [H1 H2 H3]. destruct (H s) as (E1 & E2 & E3).
  split; by rewrite ?E1, ?E2, ?E3.
Qed.

Lemma typed_put a o s : typed s -> object_ok a o -> typed (put_object a o s).
Proof. intros [H1 H2 H3] Ho. split; cbn; [by apply map_Forall_insert_2|done..]. Qed.

Lemma types_obj a : types (obj a) (object_ok a).
Proof.
  intros s o s' Hs E. apply obj_Done in E as (o' & Ho & [= -> ->]). split; [done|].
  by apply (ty_objects _ Hs).
Qed.

Lemma types_upd a f : (forall o, object_ok a o -> object_ok a (f o)) -> types (upd a f) (fun _ => True).
Proof.
  intros H. eapply types_bind; [apply types_obj|]. intros o Ho. apply types_modify. intros s Hs.
  apply typed_put; [done|by apply H].
Qed.

Lemma types_jappend e : entry_ok e -> types (jappend e) (fun _ => True).
Proof.
  intros He. apply types_modify. intros s [H1 H2 H3]. split; [done..|]. cbn.
  rewrite entries_append. apply Forall_app. split; [done|]. by apply Forall_cons_2; [|apply Forall_nil_2].
Qed.

Lemma types_setError err : types (setError err) (fun _ => True).
Proof. apply typed_other. intros s. by destruct (savedErr s). Qed.

(** ** Objects and fields *)

Lemma types_lookup_slots (st : Storage) k v : wf_slots st -> st !! k = Some v -> word v.
Proof. intros H Hk. by apply (H k v). Qed.

Lemma wf_slots_insert k v st : word k -> word v -> wf_slots st -> wf_slots (<[k := v]> st).
Proof. intros Hk Hv H. by apply map_Forall_insert_2. Qed.

Lemma wf_set_Balance v acc : word v -> wf_account acc -> wf_account (set_Balance v acc).
Proof. unfold wf_account. cbn. tauto. Qed.
Lemma wf_set_Initialised v acc : wf_account acc -> wf_account (set_Initialised v acc).
Proof. unfold wf_account. cbn. tauto. Qed.
Lemma wf_set_Nonce v acc : 0 <= v < two64 -> wf_account acc -> wf_account (set_Nonce v acc).
Proof. unfold wf_account. cbn. tauto. Qed.
Lemma wf_set_CodeHash v acc : word v -> wf_account acc -> wf_account (set_CodeHash v acc).
Proof. unfold wf_account. cbn. tauto. Qed.
Lemma wf_set_Incarnation v acc : 0 <= v < two16 -> wf_account acc -> wf_account (set_Incarnation v acc).
Proof. unfold wf_account. cbn. tauto. Qed.

Lemma ok_balance a o : object_ok a o -> word (Balance (data o)).
Proof. intros []. by destruct ok_data0 as (_ & ? & _). Qed.

Lemma ok_setBalance a v o : word v -> object_ok a o -> object_ok a (setBalance v o).
Proof. intros Hv []. split; try done. cbn. by apply wf_set_Initialised, wf_set_Balance. Qed.
Lemma ok_setNonce a v o : 0 <= v < two64 -> object_ok a o -> object_ok a (setNonce v o).
Proof. intros Hv []. split; try done. cbn. by apply wf_set_Nonce. Qed.
Lemma ok_setState a k v o : word k -> word v -> object_ok a o -> object_ok a (setState k v o).
Proof. intros Hk Hv []. split; try done. cbn. by apply wf_slots_insert. Qed.
Lemma ok_setCode a c h o : code_ok c h -> object_ok a o -> object_ok a (setCode h c o).
Proof. intros Hc []. split; try done. cbn. apply wf_set_CodeHash; [apply Hc|done]. Qed.
Lemma ok_setIncarnation a v o : 0 <= v < two16 -> object_ok a o -> object_ok a (so_setIncarnation v o).
Proof. intros Hv []. split; try done. cbn. by apply wf_set_Incarnation. Qed.
Lemma ok_set_fakeStorage a fs o : wf_slots fs -> object_ok a o -> object_ok a (set_fakeStorage (Some fs) o).
Proof. intros Hf []. split; try done. by intros ? [= <-]. Qed.
Lemma ok_flags a b o : object_ok a o ->
  object_ok a (set_selfdestructed b o) /\ object_ok a (set_created b o) /\ object_ok a (set_deleted b o).
Proof. intros []. by split_and!. Qed.

Lemma ok_newObject a acc orig : wf_address a -> wf_account acc -> object_ok a (newObject a acc orig).
Proof.
  intros Ha Hacc. unfold newObject.
  set (d := if negb _ then _ else _).
  assert (Hd : wf_account d /\ Initialised d = true).
  { subst d. unfold Copy_account. cbn. unfold wf_account in *. pose proof word_0.
    destruct (Initialised acc) eqn:E; cbn; tauto. }
  destruct Hd as [Hd Hi]. clearbody d.
  assert (He : word emptyCodeHash) by apply Keccak256_word.
  destruct (Z.eqb_spec (CodeHash d) 0); split; cbn; try done.
  - by apply wf_set_CodeHash.
  - split; [apply Hd|done].
Qed.

Lemma wf_zero_account : wf_account zero_account.
Proof. done. Qed.

Context (HR : reader_ok).

Lemma types_setStateObject a o : object_ok a o -> types (setStateObject a o) (fun _ => True).
Proof.
  intros Ho. eapply types_bind; [apply types_get|]. intros s Hs.
  eapply (types_bind _ _ (object_ok a)).
  - destruct (balanceInc s !! a) as [bi|] eqn:Hbi; [|by apply types_ret].
    destruct (negb (transferred bi)); [|by apply types_ret]. destruct (ty_increases _ Hs _ _ Hbi) as [Ha Hw].
    eapply types_bind.
    { apply types_modify. intros s' [H1 H2 H3]. split; cbn; [done| |done]. by apply map_Forall_insert_2. }
    intros _ _. eapply types_bind; [by apply types_jappend|]. intros _ _. apply types_ret.
    pose proof (ok_balance _ _ Ho). destruct Ho. split; try done. cbn. apply wf_set_Balance; [|done].
    by apply uint256.Add_word.
  - intros o' Ho'. apply types_modify. intros s' Hs'. by apply typed_put.
Qed.

Lemma types_createObject a p : wf_address a -> (forall o, p = Some o -> object_ok a o) ->
  types (createObject a p) (fun _ => True).
Proof.
  intros Ha Hp. eapply types_bind.
  { destruct p as [o|]; apply types_jappend; [by apply Hp|done]. }
  intros _ _. apply types_setStateObject, ok_setNonce; [done|]. by apply ok_newObject.
Qed.

Lemma types_getStateObject a : wf_address a -> types (getStateObject R a) (fun so => forall o, so = Some o -> object_ok a o).
Proof.
  intros Ha. eapply types_bind; [apply types_get|]. intros s Hs.
  destruct (stateObjects s !! a) as [o|] eqn:Ho.
  { apply types_ret. intros ? [= <-]. by apply (ty_objects _ Hs). }
  assert (Habs : types (match balanceInc s !! a with
        | Some bi => if negb (transferred bi) then _ ← createObject a None; so ← obj a; mret (Some so) else mret None
        | None => mret None end) (fun so => forall o, so = Some o -> object_ok a o)).
  { destruct (balanceInc s !! a) as [bi|]; [|by apply types_ret]. destruct (negb _); [|by apply types_ret].
    eapply types_bind; [by apply types_createObject|]. intros _ _. eapply types_bind; [apply types_obj|].
    intros o Hok. apply types_ret. by intros ? [= <-]. }
  destruct (bool_decide _); [done|].
  destruct (ReadAccountData R a) as [[acc|] [err|]] eqn:E.
  - eapply types_bind; [apply types_setError|]. intros _ _. by apply types_ret.
  - eapply types_bind.
    { apply typed_other. intros s'. destruct (snap s') as [sn|]; [|done]. by destruct (written sn). }
    intros _ _. eapply types_bind; [apply types_setStateObject, ok_newObject; [done|]; by eapply (proj1 HR)|].
    intros _ _. eapply types_bind; [apply types_obj|]. intros o Hok. apply types_ret. by intros ? [= <-].
  - eapply types_bind; [apply types_setError|]. intros _ _. by apply types_ret.
  - eapply types_bind; [by apply typed_other|]. done.
Qed.

Lemma types_GetOrNew a : wf_address a -> types (GetOrNewStateObject R a) (object_ok a).
Proof.
  intros Ha. eapply types_bind; [by apply types_getStateObject|]. intros [o|] Ho; cbn beta iota.
  - destruct (deleted o); [|by apply types_ret, Ho].
    eapply types_bind; [by apply types_createObject|]. intros _ _. apply types_obj.
  - eapply types_bind; [by apply types_createObject|]. intros _ _. apply types_obj.
Qed.

(** Step through an operation: reads give their facts, writes ask for theirs. *)
Ltac types_step :=
  lazymatch goal with
  | |- types (mbind _ (obj _)) _ => eapply types_bind; [apply types_obj|intros ? ?]
  | |- types (mbind _ get) _ => eapply types_bind; [apply types_get|intros ? ?]
  | |- types (mbind _ (getStateObject _ _)) _ => eapply types_bind; [by apply types_getStateObject|intros [?|] ?]
  | |- types (mbind _ (GetOrNewStateObject _ _)) _ => eapply types_bind; [by apply types_GetOrNew|intros ? ?]
  | |- types (mbind _ (jappend _)) _ => eapply types_bind; [apply types_jappend|intros ? _]
  | |- types (mbind _ (setError _)) _ => eapply types_bind; [apply types_setError|intros ? _]
  | |- types (mbind _ (upd _ _)) _ => eapply types_bind; [apply types_upd; intros ? ?|intros ? _]
  | |- types (mret _) _ => apply types_ret
  | |- types panic _ => apply types_panic
  | |- types (jappend _) _ => apply types_jappend
  | |- types (setError _) _ => apply types_setError
  | |- types (upd _ _) _ => apply types_upd; intros ? ?
  | |- types (live _ _ _) _ => unfold live
  | |- types (match ?x with _ => _ end) _ => destruct x eqn:?
  end.

Lemma types_so_SetBalance a v : word v -> types (so_SetBalance a v) (fun _ => True).
Proof. intros Hv. unfold so_SetBalance. repeat types_step; [|by apply ok_setBalance]. split; [by eapply ok_range|by eapply ok_balance]. Qed.

Lemma types_touch a : wf_address a -> types (touch a) (fun _ => True).
Proof.
  intros Ha. unfold touch. repeat types_step; [done| |done].
  apply types_modify. intros s []. by split.
Qed.

Lemma types_so_AddBalance a v : word v -> types (so_AddBalance a v) (fun _ => True).
Proof.
  intros Hv. unfold so_AddBalance. repeat types_step; [apply types_touch; by eapply ok_range|done|].
  apply types_so_SetBalance, uint256.Add_word; [by eapply ok_balance|done].
Qed.

Lemma types_so_SubBalance a v : word v -> types (so_SubBalance a v) (fun _ => True).
Proof.
  intros Hv. unfold so_SubBalance. repeat types_step; [done|].
  apply types_so_SetBalance, uint256.Sub_word; [by eapply ok_balance|done].
Qed.

Lemma types_so_SetNonce a v : 0 <= v < two64 -> types (so_SetNonce a v) (fun _ => True).
Proof.
  intros Hv. unfold so_SetNonce. repeat types_step; [|by apply ok_setNonce].
  split; [by eapply ok_range|]. by destruct (ok_data _ _ H) as (? & _).
Qed.

Lemma types_so_cacheStorage a k v : word k -> word v -> types (so_cacheStorage a k v) word.
Proof.
  intros Hk Hv. unfold so_cacheStorage. repeat types_step; [|done].
  destruct H. split; try done. cbn. by apply wf_slots_insert.
Qed.

Lemma types_so_loadStorage a k so : word k -> types (so_loadStorage R a k so) word.
Proof.
  intros Hk. unfold so_loadStorage. destruct (ReadAccountStorage _ _ _ _) as [[enc|] [err|]].
  - by repeat types_step.
  - eapply types_bind.
    { apply typed_other. intros s. destruct (snap s) as [sn|]; [|done]. by destruct (written sn). }
    intros _ _. apply types_so_cacheStorage; [done|]. apply uint256.SetBytes_type.
  - by repeat types_step.
  - by apply types_so_cacheStorage.
Qed.

Lemma word_default st k : wf_slots st -> word (default 0 (st !! k)).
Proof. intros H. destruct (st !! k) as [v|] eqn:E; [|done]. by eapply types_lookup_slots. Qed.

Lemma types_so_GetCommittedState a k : word k -> types (so_GetCommittedState R a k) word.
Proof.
  intros Hk. unfold so_GetCommittedState. types_step. destruct (fakeStorage _) as [fs|] eqn:Hf.
  { apply types_ret, word_default. by eapply ok_fake. }
  destruct (originStorage _ !! k) as [v|] eqn:Ho.
  { apply types_ret. eapply types_lookup_slots; [by eapply ok_origin|done]. }
  destruct (created _); [by apply types_ret|]. types_step.
  destruct (snap _) as [sn|]; [|by apply types_so_loadStorage].
  destruct (negb (written sn)); [|by apply types_so_loadStorage].
  eapply types_bind; [by apply (types_must _ (fun _ => True))|]. intros [enc [err|]] _.
  - by repeat types_step.
  - destruct enc; apply types_so_cacheStorage; [done|apply uint256.SetBytes_type|done|done].
Qed.

Lemma types_so_GetState a k : word k -> types (so_GetState R a k) word.
Proof.
  intros Hk. unfold so_GetState. types_step. destruct (fakeStorage _) as [fs|] eqn:Hf.
  { apply types_ret, word_default. by eapply ok_fake. }
  destruct (dirtyStorage _ !! k) as [v|] eqn:Ho; [|by apply types_so_GetCommittedState].
  apply types_ret. eapply types_lookup_slots; [by eapply ok_dirty|done].
Qed.

Lemma types_so_SetState a k v : word k -> word v -> types (so_SetState R a k v) (fun _ => True).
Proof.
  intros Hk Hv. unfold so_SetState. types_step. destruct (fakeStorage _) as [fs|] eqn:Hf.
  - assert (wf_slots fs) by by eapply ok_fake. repeat types_step.
    + split_and!; [by eapply ok_range|done|by apply word_default].
    + apply ok_set_fakeStorage; [by apply wf_slots_insert|done].
  - eapply types_bind; [by apply types_so_GetState|]. intros prev Hp. repeat types_step; [done|..].
    + split_and!; [by eapply ok_range|done..].
    + by apply ok_setState.
Qed.

Lemma setError_typed err s r s' : typed s -> setError err s = Done (r, s') ->
  typed s' /\ stateObjects s' = stateObjects s.
Proof.
  intros Hs E. split; [by apply (types_setError err s r s')|].
  unfold setError, modify in E. injection E as _ <-. by destruct (savedErr s).
Qed.

(** The code read and the account's hash agree in the state reached. *)
Lemma so_Code_typed a s r s' : typed s -> so_Code R a s = Done (r, s') ->
  typed s' /\ exists o, stateObjects s' !! a = Some o /\ object_ok a o /\ code_ok r (CodeHash (data o)).
Proof.
  intros Hs E. unfold so_Code in E. go_inv. apply obj_Done in Hm as (o & Ho & [= -> ->]).
  pose proof (ty_objects _ Hs _ _ Ho) as Hok. destruct (code o) as [c|] eqn:Hc.
  { go_inv. simplify_eq. split; [done|]. exists o. rewrite <-Hc. split_and!; [done..|apply Hok]. }
  assert (Hw : word (CodeHash (data o))) by apply Hok.
  destruct (CodeHash (data o) =? emptyCodeHash).
  { go_inv. simplify_eq. split; [done|]. by exists o. }
  destruct (ReadAccountCode _ _ _ _) as [c err] eqn:Er. go_inv. simplify_eq.
  assert (Hs0 : typed s0 /\ stateObjects s0 = stateObjects s).
  { destruct err; [by eapply setError_typed|]. go_inv. by simplify_eq. }
  destruct Hs0 as [Hs0 E0]. rewrite <-E0 in Ho. rewrite (upd_at _ _ _ _ Ho) in Hm0. go_inv. simplify_eq.
  assert (Hcode : code_ok c (CodeHash (data o))) by (split; [done|]; intros b ->; by eapply (proj2 HR)).
  assert (Hok' : object_ok a (set_code c o)) by (destruct Hok; by split).
  split; [by apply typed_put|]. exists (set_code c o). split; [apply put_object_at|done].
Qed.

Lemma types_so_SetCode a h c : code_ok c h -> types (so_SetCode R a h c) (fun _ => True).
Proof.
  intros Hc s u s' Hs E. unfold so_SetCode in E. apply bind_Done in E as (prev & s1 & E1 & E).
  destruct (so_Code_typed _ _ _ _ Hs E1) as (Hs1 & o & Ho & Hok & Hp).
  apply bind_Done in E as (o' & s2 & E2 & E). apply obj_Done in E2 as (o2 & Ho2 & [= -> ->]). simplify_eq.
  assert (Ht : types (_ ← jappend (codeChange a prev (CodeHash (data o2))); upd a (setCode h c)) (fun _ => True)).
  { repeat types_step; [split; [by eapply ok_range|done]|by apply ok_setCode]. }
  exact (Ht _ _ _ Hs1 E).
Qed.

(** ** The operations of the state *)

Lemma types_live {A} (so : option stateObject) (d : A) (k : stateObject -> MS A) (P : stateObject -> Prop) (Q : A -> Prop) :
  (forall o, so = Some o -> P o) -> Q d -> (forall o, P o -> types (k o) Q) -> types (live so d k) Q.
Proof. intros HP Hd Hk. destruct so as [o|]; cbn; [destruct (deleted o)|]; [by apply types_ret|by apply Hk, HP|by apply types_ret]. Qed.

(** A getter that loads the object and then reads. *)
Lemma types_read {A} a (d : A) (k : stateObject -> MS A) :
  wf_address a -> (forall o, object_ok a o -> types (k o) (fun _ => True)) ->
  types (so ← getStateObject R a; live so d k) (fun _ => True).
Proof.
  intros Ha Hk. eapply types_bind; [by apply types_getStateObject|]. intros so Hso. by apply (types_live _ _ _ (object_ok a)).
Qed.

Lemma types_AddBalance a v : wf_address a -> word v -> types (AddBalance R a v) (fun _ => True).
Proof.
  intros Ha Hv. unfold AddBalance. types_step. match goal with H : typed ?s |- _ => rename H into Hs end.
  destruct (negb _).
  - types_step; [done|]. apply types_modify. intros s' [H1 H2 H3]. split; cbn; [done| |done].
    apply map_Forall_insert_2; [|done]. split; [done|]. cbn. apply uint256.Add_word; [|done].
    destruct (balanceInc _ !! a) as [bi|] eqn:Hbi; [|done]. by destruct (ty_increases _ Hs _ _ Hbi).
  - types_step. by apply types_so_AddBalance.
Qed.

Lemma types_Selfdestruct a : wf_address a -> types (Selfdestruct R a) (fun _ => True).
Proof.
  intros Ha. apply types_read; [done|]. intros o Ho. repeat types_step; [|by apply ok_flags..| |done].
  - split; [done|by eapply ok_balance].
  - destruct H. split; try done. cbn. by apply wf_set_Balance.
Qed.

Lemma types_CreateAccount a b : wf_address a -> types (CreateAccount R a b) (fun _ => True).
Proof.
  intros Ha. unfold CreateAccount. eapply types_bind; [by apply types_getStateObject|]. intros p Hp. cbn zeta.
  eapply types_bind; [by apply types_createObject|]. intros _ _.
  eapply (types_bind _ _ (fun _ => True)).
  { destruct p as [o|]; [|by apply types_ret]. apply types_upd. intros o' Ho'.
    apply ok_setBalance; [|done]. by eapply ok_balance, Hp. }
  intros _ _. destruct b; apply types_upd; intros o Ho; [|by apply ok_flags].
  apply (ok_setIncarnation a _ (set_created true o)); [apply Z.mod_pos_bound; lia|by apply ok_flags].
Qed.

Lemma types_zoom_al {A} (m : M accessList.accessList A) : types (zoom_al m) (fun _ => True).
Proof. intros s r s' [H1 H2 H3] E. unfold zoom_al in E. go_inv. simplify_eq. by split. Qed.

Lemma types_AddAddressToAccessList a : types (AddAddressToAccessList a) (fun _ => True).
Proof. eapply types_bind; [apply types_zoom_al|]. intros b _. by repeat types_step. Qed.

Lemma types_AddSlotToAccessList a k : types (AddSlotToAccessList a k) (fun _ => True).
Proof.
  eapply types_bind; [apply types_zoom_al|]. intros [b c] _.
  eapply (types_bind _ _ (fun _ => True)); [by repeat types_step|]. intros _ _. by repeat types_step.
Qed.

(** ** Reverts *)

Lemma types_on_object a f : wf_address a -> (forall o, object_ok a o -> object_ok a (f o)) ->
  types (so ← getStateObject R a; match so with Some _ => upd a f | None => panic end) (fun _ => True).
Proof. intros Ha Hf. types_step; [by apply types_upd|apply types_panic]. Qed.

Lemma types_revert_entry e : entry_ok e -> types (revert_entry R e) (fun _ => True).
Proof.
  intros He. destruct e; cbn [revert_entry entry_ok] in *.
  - eapply types_bind; [|intros _ _; by apply typed_other].
    apply types_modify. intros s [H1 H2 H3]. split; [|done..]. by apply map_Forall_delete.
  - by apply types_setStateObject.
  - destruct He. types_step; [|by apply types_ret]. repeat types_step; [by apply ok_flags|by apply ok_setBalance].
  - destruct He. apply types_on_object; [done|]. intros. by apply ok_setBalance.
  - destruct He as [Ha Hw]. apply types_modify. intros s [H1 H2 H3].
    destruct (balanceInc s !! account) as [bi|] eqn:Hbi; [|done]. split; [done| |done]. cbn.
    destruct (_ =? 0); [by apply map_Forall_delete|]. apply map_Forall_insert_2; [|done].
    split; [done|]. apply uint256.Sub_word; [by apply (H2 _ _ Hbi)|done].
  - apply types_modify. intros s [H1 H2 H3]. destruct (balanceInc s !! account) as [bi|] eqn:Hbi; [|done].
    split; [done| |done]. apply map_Forall_insert_2; [|done]. by apply (H2 _ _ Hbi).
  - destruct He. apply types_on_object; [done|]. intros. by apply ok_setNonce.
  - destruct He as (? & ? & ?). apply types_on_object; [done|]. intros. by apply ok_setState.
  - destruct He as (? & ? & ?). types_step; [|apply types_panic].
    destruct (fakeStorage _) as [fs|] eqn:Hf; [|apply types_panic]. types_step. apply ok_set_fakeStorage; [|done].
    apply wf_slots_insert; [done..|]. eapply ok_fake; [|done]. eauto.
  - destruct He. apply types_on_object; [done|]. intros. by apply ok_setCode.
  - by apply typed_other.
  - types_step. eapply (types_bind _ _ (fun _ => True)); [|intros _ _; by apply typed_other].
    repeat case_match; [by apply typed_other|apply types_panic|by apply typed_other].
  - by apply types_ret.
  - apply types_zoom_al.
  - apply types_zoom_al.
Qed.

Lemma types_journal_revert_loop n k : types (journal_revert_loop R n k) (fun _ => True).
Proof.
  induction n as [|n IH]; cbn [journal_revert_loop]; [by apply types_ret|].
  types_step. eapply types_bind.
  { apply (types_must _ entry_ok). intros e He. eapply list.Forall_lookup_1; [|done]. by apply ty_journal. }
  intros e He. eapply types_bind; [by apply types_revert_entry|]. intros _ _.
  eapply types_bind; [|by intros].
  apply types_modify. intros s' [H1 H2 H3]. split; [done..|]. cbn. unfold journal_undirty. by destruct (dirtied e).
Qed.

Lemma types_RevertToSnapshot revid : types (RevertToSnapshot R revid) (fun _ => True).
Proof.
  unfold RevertToSnapshot. types_step. eapply (types_bind _ _ (fun _ => True)).
  { intros s' i s'' Hs' E. destruct (sort_Search _ _ _ _); [|done..]. by simplify_eq. }
  intros idx _. case_match; [apply types_panic|]. eapply types_bind; [by apply (types_must _ (fun _ => True))|].
  intros r _. case_match; [apply types_panic|]. eapply types_bind; [|intros _ _; by apply typed_other].
  unfold journal_revert. types_step. eapply types_bind; [apply types_journal_revert_loop|]. intros _ _. types_step.
  case_match; [apply types_panic|]. apply types_modify. intros s' [Ht1 Ht2 Ht3]. split; [done..|]. cbn.
  by apply Forall_take.
Qed.

(** ** Any sequence of calls *)

Context (iter : forall A : Type, list A -> list A) (iter_perm : forall A (l : list A), iter A l ≡ₚ l).

(** The exported operations of the state: those of [cmd], the ones that set storage
    and incarnation from outside, and those between transactions.  A transaction is
    finalised with a [NoopWriter], as block processing does. *)
Inductive call : Type :=
| CCmd (c : cmd)
| CSetStorage (a : Z) (st : Storage)
| CSetIncarnation (a i : Z)
| CPrepareAccessList (sender : Z) (dst : option Z) (precompiles : list Z) (list : list (Z * list Z))
| CPrepare (thash bhash ti : Z)
| CReset
| CSoftFinalise
| CFinalizeTx (IsSpuriousDragon IsAura : bool).

Definition exec_call (c : call) : MS () :=
  match c with
  | CCmd c => exec R c
  | CSetStorage a st => SetStorage R a st
  | CSetIncarnation a i => SetIncarnation R a i
  | CPrepareAccessList sender dst precompiles list => PrepareAccessList sender dst precompiles list
  | CPrepare thash bhash ti => Prepare thash bhash ti
  | CReset => Reset
  | CSoftFinalise => SoftFinalise iter
  | CFinalizeTx e a => fun s =>
      match FinalizeTx R iter NoopWriter e a (s, ()) with
      | Done (_, (s', _)) => Done ((), s')
      | GoPanic => GoPanic
      | NoFuel => NoFuel
      end
  end.

(** Arguments of the Go types. *)
Definition cmd_ok (c : cmd) : Prop :=
  match c with
  | CExist a | CEmpty a | CGetBalance a | CGetNonce a | CGetCode a | CGetCodeSize a | CGetCodeHash a
  | CHasSelfdestructed a | CGetIncarnation a | CSelfdestruct a | CCreateAccount a _ | CSetCode a _ => wf_address a
  | CGetState a k | CGetCommittedState a k => wf_address a /\ word k
  | CAddBalance a v | CSubBalance a v | CSetBalance a v => wf_address a /\ word v
  | CSetNonce a n => wf_address a /\ 0 <= n < two64
  | CSetState a k v => wf_address a /\ word k /\ word v
  | CAddLog _ | CAddRefund _ | CSubRefund _ | CAddAddressToAccessList _ | CAddSlotToAccessList _ _
  | CSnapshot | CRevertToSnapshot _ => True
  end.

Definition call_ok (c : call) : Prop :=
  match c with
  | CCmd c => cmd_ok c
  | CSetStorage a st => wf_address a /\ wf_slots st
  | CSetIncarnation a i => wf_address a /\ 0 <= i < two16
  | _ => True
  end.

Inductive reachable : IntraBlockState -> Prop :=
| reach_New : reachable New
| reach_call c s s' : reachable s -> call_ok c -> exec_call c s = Done ((), s') -> reachable s'.

Lemma types_ignore {A} (m : MS A) Q : types m Q -> types (ignore m) (fun _ => True).
Proof. intros Hm. eapply types_bind; [done|]. intros _ _. by apply types_ret. Qed.

Lemma types_setter a (m : MS ()) : wf_address a -> types m (fun _ => True) ->
  types (_ ← GetOrNewStateObject R a; m) (fun _ => True).
Proof. intros Ha Hm. eapply types_bind; [by apply types_GetOrNew|]. by intros. Qed.

Lemma types_exec c : cmd_ok c -> types (exec R c) (fun _ => True).
Proof.
  destruct c; cbn [exec cmd_ok]; intros Hc.
  - eapply types_ignore, types_read; [done|]. intros. by apply types_ret.
  - eapply types_ignore, types_read; [done|]. intros. by apply types_ret.
  - eapply types_ignore, types_read; [done|]. intros. by apply types_ret.
  - eapply types_ignore, types_read; [done|]. intros. by apply types_ret.
  - eapply types_ignore, types_read; [done|]. intros o Ho s r s' Hs E. split; [by eapply so_Code_typed|done].
  - eapply types_ignore, types_read; [done|]. intros o Ho. destruct (code o); [by apply types_ret|].
    destruct (ReadAccountCodeSize _ _ _ _) as [n err].
    eapply (types_bind _ _ (fun _ => True)); [|intros; by apply types_ret].
    destruct err; [apply types_setError|by apply types_ret].
  - eapply types_ignore, types_read; [done|]. intros. by apply types_ret.
  - destruct Hc. eapply types_ignore, types_read; [done|]. intros. eapply types_weaken; [by apply types_so_GetState|done].
  - destruct Hc. eapply types_ignore, types_read; [done|]. intros. eapply types_weaken; [by apply types_so_GetCommittedState|done].
  - eapply types_ignore, types_read; [done|]. intros. by apply types_ret.
  - eapply types_ignore, types_bind; [by apply types_getStateObject|]. intros [o|] _; by apply (types_ret _ (fun _ => True)).
  - destruct Hc. by apply types_AddBalance.
  - destruct Hc. apply types_setter; [done|by apply types_so_SubBalance].
  - destruct Hc. apply types_setter; [done|by apply types_so_SetBalance].
  - destruct Hc. apply types_setter; [done|by apply types_so_SetNonce].
  - apply types_setter; [done|]. apply types_so_SetCode. split; [apply Keccak256_word|]. by intros b ->.
  - destruct Hc as (? & ? & ?). apply types_setter; [done|by apply types_so_SetState].
  - eapply types_ignore. by apply types_Selfdestruct.
  - by apply types_CreateAccount.
  - unfold AddLog. repeat types_step; [done|]. eapply types_bind; [by apply typed_other|]. intros _ _. by apply typed_other.
  - unfold AddRefund. repeat types_step; [done|by apply typed_other].
  - unfold SubRefund. repeat types_step; [done|]. eapply (types_bind _ _ (fun _ => True)); [by repeat types_step|].
    intros _ _. by apply typed_other.
  - apply types_AddAddressToAccessList.
  - apply types_AddSlotToAccessList.
  - eapply types_ignore. unfold Snapshot_. types_step. eapply types_bind; [by apply typed_other|]. intros _ _.
    eapply types_bind; [by apply typed_other|]. intros _ _. by apply (types_ret _ (fun _ => True)).
  - apply types_RevertToSnapshot.
Qed.

Lemma ok_store_slots a l o : Forall (fun kv => word kv.1 /\ word kv.2) l -> object_ok a o ->
  object_ok a (foldl store_slot o l).
Proof.
  revert o; induction l as [|[k v] l IH]; intros o Hl Ho; [done|]. cbn.
  apply Forall_cons_iff in Hl as [[Hk Hv] Hl]. apply IH; [done|].
  destruct Ho. split; try done. cbn. by apply wf_slots_insert.
Qed.

Lemma iter_slots (st : Storage) : wf_slots st -> Forall (fun kv => word kv.1 /\ word kv.2) (iter _ (map_to_list st)).
Proof. intros H. apply list.Forall_forall. intros [k v] Hkv. apply iter_in in Hkv; [|done]. by apply H. Qed.

Lemma ok_object_after e a addr o d : object_ok addr o -> object_ok addr (object_after iter e a addr o d).
Proof.
  intros Ho. unfold object_after. set (o1 := if removed _ _ _ _ _ then _ else _).
  assert (Ho1 : object_ok addr o1) by (subst o1; destruct (removed _ _ _ _ _); [by apply ok_flags|done]).
  clearbody o1. destruct (rewritten _ _ _ _ _); [|done].
  apply ok_store_slots; [apply iter_slots; by eapply ok_dirty|by apply ok_flags].
Qed.

Lemma typed_cleared s : typed s -> typed (cleared s).
Proof. intros [H1 H2 H3]. split; [done..|]. by apply Forall_nil_2. Qed.

Lemma typed_finalized e a l s : typed s -> typed (foldl (finalized iter e a) s l).
Proof.
  revert s; induction l as [|x l IH]; intros s Hs; [done|]. cbn. apply IH. unfold finalized.
  destruct (stateObjects s !! x.1) as [o|] eqn:Ho; [|done].
  assert (Hs' : typed (put_object x.1 (object_after iter e a x.1 o true) s)).
  { apply typed_put; [done|]. apply ok_object_after. by apply (ty_objects _ Hs). }
  by destruct Hs'.
Qed.

Lemma types_load_increases : types (load_increases R iter) (fun _ => True).
Proof.
  unfold load_increases. eapply types_bind; [apply types_get|]. intros s Hs. apply types_for_each.
  intros [a bi] Hin. apply iter_in in Hin; [|done]. destruct (ty_increases _ Hs _ _ Hin) as [Ha _].
  eapply types_bind; [apply types_get|]. intros s' _. destruct (balanceInc s' !! a) as [bi'|]; [|by apply types_ret].
  destruct (negb _); [|by apply types_ret]. eapply types_bind; [by apply types_getStateObject|].
  intros _ _. by apply types_ret.
Qed.

Lemma NoopWriter_each ops : each (NoopWriter (W := ())) ops () = Done (None, ()).
Proof. induction ops as [|op ops IH]; [done|]. cbn. apply IH. Qed.

Lemma FinalizeTx_noop e a s err s' u : typed s -> FinalizeTx R iter NoopWriter e a (s, ()) = Done (err, (s', u)) ->
  err = None /\ typed s'.
Proof.
  intros Hs E. pose proof E as E0. unfold FinalizeTx in E0. apply bind_Done in E0 as (u1 & [s1 u2] & E1 & _).
  apply zoom_Done in E1 as ([] & t & E1 & _). cbn in E1.
  pose proof (FinalizeTx_runs iter NoopWriter iter_perm R e a s t E1 ()) as Hr.
  rewrite NoopWriter_each in Hr. rewrite Hr in E. injection E as <- <- _. split; [done|].
  apply typed_cleared, typed_finalized. by destruct (types_load_increases _ _ _ Hs E1).
Qed.

Lemma types_mark_dirty a : types (mark_dirty a) (fun _ => True).
Proof. by apply typed_other. Qed.

Lemma types_clear : types clearJournalAndRefund (fun _ => True).
Proof. apply types_modify. intros s Hs. by apply typed_cleared. Qed.

Lemma types_exec_call c : call_ok c -> types (exec_call c) (fun _ => True).
Proof.
  destruct c; cbn [exec_call call_ok]; intros Hc.
  - by apply types_exec.
  - destruct Hc as [Ha Hst]. apply types_setter; [done|]. apply types_upd. intros o Ho. apply ok_set_fakeStorage; [|done].
    apply map_Forall_union_2; [done|]. destruct (fakeStorage o) as [fs|] eqn:Hf; [by eapply ok_fake|]. apply map_Forall_empty.
  - destruct Hc as [Ha Hi]. apply types_setter; [done|]. apply types_upd. intros o Ho. by apply ok_setIncarnation.
  - unfold PrepareAccessList. eapply types_bind; [apply types_AddAddressToAccessList|]. intros _ _.
    eapply (types_bind _ _ (fun _ => True)); [destruct dst; [apply types_AddAddressToAccessList|by apply types_ret]|].
    intros _ _. eapply types_bind; [apply types_for_each; intros; apply types_AddAddressToAccessList|]. intros _ _.
    apply types_for_each. intros [a keys] _. eapply types_bind; [apply types_AddAddressToAccessList|]. intros _ _.
    apply types_for_each. intros. apply types_AddSlotToAccessList.
  - by apply typed_other.
  - unfold Reset. eapply types_bind; [|intros _ _; eapply types_bind; [apply types_clear|]; intros _ _].
    + apply types_modify. intros s [H1 H2 H3]. by split; [apply map_Forall_empty|..].
    + apply types_modify. intros s [H1 H2 H3]. by split; [|apply map_Forall_empty|].
  - unfold SoftFinalise. eapply types_bind; [apply types_get|]. intros s Hs.
    eapply types_bind; [|intros _ _; apply types_clear]. apply types_for_each. intros [a n] _.
    eapply types_bind; [apply types_get|]. intros s' Hs'. destruct (stateObjects s' !! a); [apply types_mark_dirty|by apply types_ret].
  - intros s u s' Hs E. split; [|done]. destruct (FinalizeTx _ _ _ _ _ _) as [[err [s1 u1]]| |] eqn:Ef; [|done..].
    injection E as <- <-. by eapply FinalizeTx_noop.
Qed.

Lemma typed_New : typed New.
Proof. split; [apply map_Forall_empty|apply map_Forall_empty|by apply Forall_nil_2]. Qed.

(** Whatever calls with arguments of their Go types are made on a new state over a database of well-typed accounts, the state stays typed. *)
Lemma reachable_typed s : reachable s -> typed s.
Proof.
  intros Hr. induction Hr as [|c s s' _ IH Hc E]; [apply typed_New|].
  by destruct (types_exec_call c Hc s () s' IH E).
Qed.
End Typing.

(** * The cached storage is what the database holds

    A commit hands the writer, with every changed slot, the value the slot had before
    the block: [blockOriginStorage], a cache that [GetCommittedState] fills.  It is
    the value in the database for every slot that was read or written, because
    [SetState] reads before it writes and because a revert never writes a slot into an
    object that had not read it. *)

(** The value a storage read stands for. *)
Definition slot_value {U : Uint256} (r : option bytes * option error) : option Z :=
  match r with (enc, None) => Some (uint256.SetBytes (default [] enc)) | (_, Some _) => None end.

Section Coherence.
Context {U : Uint256} {UL : Uint256Laws U} {C : Crypto} {K : AccountCodec} (R : StateReader).
Notation MS := (M IntraBlockState).

(** What the object takes for the value before the block is what the database holds. *)
Definition agree (a : Z) (o : stateObject) (k : Z) : Prop :=
  slot_value (ReadAccountStorage R a (Incarnation (data o)) k) = Some (default 0 (blockOriginStorage o !! k)).

Record faithful (a : Z) (o : stateObject) : Prop := mk_faithful {
  fa_fake : fakeStorage o = None;
  fa_agree k : is_Some (dirtyStorage o !! k) \/ is_Some (originStorage o !! k) \/ created o = true -> agree a o k;
  fa_origin k v : dirtyStorage o !! k = None -> originStorage o !! k = Some v -> default 0 (blockOriginStorage o !! k) = v;
  fa_block k : is_Some (blockOriginStorage o !! k) -> is_Some (originStorage o !! k);
  fa_code c : code o = Some c -> dirtyCode o = true \/ exists i, (ReadAccountCode R a i (CodeHash (data o))).1 = Some c
}.

(** The journal, last entry first: undoing an entry meets the object it was made for. *)
Fixpoint undoable (es : list journalEntry) (objs : gmap Z stateObject) : Prop :=
  match es with
  | [] => True
  | storageChange a k _ :: es => (exists o, objs !! a = Some o /\ agree a o k) /\ undoable es objs
  | createObjectChange a :: es => undoable es (delete a objs)
  | resetObjectChange a prev :: es => faithful a prev /\ undoable es (<[a := prev]> objs)
  | _ :: es => undoable es objs
  end.

(** More objects, which have read more. *)
Definition extends (objs objs' : gmap Z stateObject) : Prop :=
  forall a o, objs !! a = Some o -> exists o', objs' !! a = Some o' /\ forall k, agree a o k -> agree a o' k.

#[local] Instance extends_refl : Reflexive extends.
Proof. intros objs a o H. eauto. Qed.

#[local] Instance extends_trans : Transitive extends.
Proof.
  intros x y z Hxy Hyz a o H. destruct (Hxy _ _ H) as (o1 & H1 & K1). destruct (Hyz _ _ H1) as (o2 & H2 & K2). eauto.
Qed.

Lemma extends_delete a objs objs' : extends objs objs' -> extends (delete a objs) (delete a objs').
Proof.
  intros H b o Hb. apply lookup_delete_Some in Hb as [Hne Hb]. destruct (H _ _ Hb) as (o' & H' & ?).
  exists o'. by rewrite lookup_delete_ne.
Qed.

Lemma extends_insert a o o' objs objs' : extends objs objs' -> (forall k, agree a o k -> agree a o' k) ->
  extends (<[a := o]> objs) (<[a := o']> objs').
Proof.
  intros H Ho b x Hb. destruct (decide (b = a)) as [->|Hne].
  - rewrite lookup_insert_eq in Hb |- *. injection Hb as <-. eauto.
  - rewrite lookup_insert_ne in Hb |- * by done. by apply H.
Qed.

Lemma extends_update a o o' objs : objs !! a = Some o -> (forall k, agree a o k -> agree a o' k) ->
  extends objs (<[a := o']> objs).
Proof. intros Ho H. rewrite <-(insert_id objs a o Ho) at 1. by apply extends_insert. Qed.

Lemma extends_new a o objs : objs !! a = None -> extends objs (<[a := o]> objs).
Proof. intros Ha b x Hb. exists x. rewrite lookup_insert_ne by congruence. auto. Qed.

Lemma undoable_extends es objs objs' : undoable es objs -> extends objs objs' -> undoable es objs'.
Proof.
  revert objs objs'. induction es as [|e es IH]; intros objs objs' H He; [done|].
  destruct e; cbn in *; try (by eapply IH).
  - eapply IH; [done|by apply extends_delete].
  - destruct H. split; [done|]. eapply IH; [done|by apply extends_insert].
  - destruct H as [(o & Ho & Hk) H]. split; [|by eapply IH]. destruct (He _ _ Ho) as (o' & ? & ?). eauto.
Qed.

(** The state relative to a journal [es], last entry first. *)
Record safe (es : list journalEntry) (s : IntraBlockState) : Prop := mk_safe {
  sf_objects : map_Forall faithful (stateObjects s);
  sf_journal : undoable es (stateObjects s);
  sf_snap : readable s = None
}.

Definition coherent (s : IntraBlockState) : Prop := safe (rev (entries (journal_ s))) s.

(** An operation that keeps the state coherent. *)
Definition coheres (s s' : IntraBlockState) : Prop := coherent s -> coherent s'.

#[local] Instance coheres_refl : Reflexive coheres.
Proof. by intros s H. Qed.
#[local] Instance coheres_trans : Transitive coheres.
Proof. intros x y z H1 H2 H. by apply H2, H1. Qed.

Lemma safe_other es s s' : stateObjects s' = stateObjects s -> readable s' = readable s -> safe es s -> safe es s'.
Proof. intros E1 E2 [H1 H2 H3]. split; by rewrite ?E1, ?E2. Qed.

Lemma coheres_other (f : IntraBlockState -> IntraBlockState) :
  (forall s, stateObjects (f s) = stateObjects s /\ readable (f s) = readable s /\ entries (journal_ (f s)) = entries (journal_ s)) ->
  preserves coheres (modify f).
Proof.
  intros H. apply preserves_modify. intros s Hs. destruct (H s) as (E1 & E2 & E3). unfold coherent. rewrite E3.
  by eapply safe_other.
Qed.

(** An update of an object that forgets nothing it has read. *)
Definition keeping (a : Z) (f : stateObject -> stateObject) : Prop :=
  forall o, faithful a o -> faithful a (f o) /\ forall k, agree a o k -> agree a (f o) k.

Lemma safe_put es a o o' s : safe es s -> stateObjects s !! a = Some o -> faithful a o' ->
  (forall k, agree a o k -> agree a o' k) -> safe es (put_object a o' s).
Proof.
  intros [H1 H2 H3] Ho Hf Hk. split; cbn; [by apply map_Forall_insert_2| |done].
  eapply undoable_extends; [done|]. by eapply extends_update.
Qed.

Lemma safe_upd es a f s u s' : keeping a f -> safe es s -> upd a f s = Done (u, s') -> safe es s' /\ journal_ s' = journal_ s.
Proof.
  intros Hf Hs E. apply upd_Done in E as (o & Ho & [= _ ->]). destruct (Hf o (sf_objects _ _ Hs _ _ Ho)).
  split; [|done]. by eapply safe_put.
Qed.

Lemma coheres_upd a f : keeping a f -> preserves coheres (upd a f).
Proof. intros Hf s u s' E Hs. destruct (safe_upd _ _ _ _ _ _ Hf Hs E) as [H Ej]. unfold coherent. by rewrite Ej. Qed.

Definition neutral (e : journalEntry) : Prop :=
  match e with createObjectChange _ | resetObjectChange _ _ | storageChange _ _ _ => False | _ => True end.

Lemma neutral_undoable e es objs : neutral e -> undoable (e :: es) objs <-> undoable es objs.
Proof. by destruct e. Qed.

Lemma coherent_append e s : coherent s -> (undoable (rev (entries (journal_ s))) (stateObjects s) ->
  undoable (e :: rev (entries (journal_ s))) (stateObjects s)) ->
  coherent (set_journal (journal_append e (journal_ s)) s).
Proof.
  intros [H1 H2 H3] He. unfold coherent. cbn. rewrite entries_append, rev_app_distr. split; [done|by apply He|done].
Qed.

Lemma coheres_jappend e : neutral e -> preserves coheres (jappend e).
Proof. intros He. apply preserves_modify. intros s Hs. apply coherent_append; [done|]. by rewrite neutral_undoable. Qed.

Lemma coheres_setError err : preserves coheres (setError err).
Proof. apply coheres_other. intros s. by destruct (savedErr s) eqn:E; rewrite ?E. Qed.

(** ** Loading and creating objects *)

Record blank (o : stateObject) : Prop := mk_blank {
  bl_dirty : dirtyStorage o = ∅;
  bl_origin : originStorage o = ∅;
  bl_block : blockOriginStorage o = ∅;
  bl_fake : fakeStorage o = None;
  bl_created : created o = false;
  bl_code : code o = None
}.

Lemma blank_faithful a o : blank o -> faithful a o.
Proof.
  intros [E1 E2 E3 E4 E5 E6]. split; rewrite ?E1, ?E2, ?E3, ?E4, ?E5, ?E6; try done.
  intros k. rewrite !lookup_empty. by intros [[]|[[]|]].
Qed.

Lemma blank_newObject a acc orig : blank (newObject a acc orig).
Proof. by split. Qed.

(** [setStateObject] may add an increase to the balance; nothing else of the object changes. *)
Definition rebalanced (o o' : stateObject) : Prop := exists b, o' = set_data (set_Balance b (data o)) o.

Lemma rebalanced_refl o : rebalanced o o.
Proof. exists (Balance (data o)). destruct o as [? []]. done. Qed.

Lemma rebalanced_agree a o o' k : rebalanced o o' -> agree a o k -> agree a o' k.
Proof. by intros [b ->]. Qed.

Lemma rebalanced_faithful a o o' : rebalanced o o' -> faithful a o -> faithful a o'.
Proof. intros [b ->] []. by split. Qed.

Lemma rebalanced_blank o o' : rebalanced o o' -> blank o -> blank o'.
Proof. intros [b ->] []. by split. Qed.

Definition appended (s s' : IntraBlockState) (new : list journalEntry) : Prop :=
  entries (journal_ s') = entries (journal_ s) ++ new.

Lemma setStateObject_puts a o s u s' : setStateObject a o s = Done (u, s') ->
  exists o' new, rebalanced o o' /\ stateObjects s' = <[a := o']> (stateObjects s) /\ readable s' = readable s /\
    appended s s' new /\ Forall neutral new.
Proof.
  unfold setStateObject, jappend, mbind, M_bind, get, modify, mret, M_ret.
  destruct (balanceInc s !! a) as [bi|]; [destruct (transferred bi)|]; cbn [negb]; intros [= _ <-].
  - exists o, []. split_and!; [apply rebalanced_refl|done|done|unfold appended; by rewrite app_nil_r|done].
  - eexists _, [balanceIncreaseTransfer a]. split_and!; [by eexists|done|done|done|].
    by repeat constructor.
  - exists o, []. split_and!; [apply rebalanced_refl|done|done|unfold appended; by rewrite app_nil_r|done].
Qed.

(** The entry of a new object, and neutral ones after it. *)
Definition create_entry (a : Z) (p : option stateObject) : journalEntry :=
  match p with None => createObjectChange a | Some p => resetObjectChange a p end.

Lemma createObject_puts a p s u s' : createObject a p s = Done (u, s') ->
  exists o new, blank o /\ stateObjects s' = <[a := o]> (stateObjects s) /\ readable s' = readable s /\
    appended s s' (create_entry a p :: new) /\ Forall neutral new.
Proof.
  intros E. unfold createObject in E. apply bind_Done in E as (u1 & s1 & E1 & E).
  apply setStateObject_puts in E as (o & new & Hr & Eo & Er & Ea & Hn). exists o, new.
  assert (s1 = set_journal (journal_append (create_entry a p) (journal_ s)) s) as -> by (by destruct p; injection E1).
  split_and!; [|done|done| |done].
  - eapply rebalanced_blank; [done|]. by destruct p.
  - unfold appended in *. rewrite Ea. cbn. by rewrite entries_append, <-app_assoc.
Qed.

Lemma neutrals_undoable new es objs : Forall neutral new -> undoable (rev new ++ es) objs <-> undoable es objs.
Proof.
  intros Hn. apply Forall_rev in Hn. induction Hn as [|e l He _ IH]; [done|]. cbn [app]. by rewrite neutral_undoable.
Qed.

Inductive fetched (a : Z) (s : IntraBlockState) : option stateObject -> IntraBlockState -> Prop :=
| fetched_same so s' : so = stateObjects s !! a -> stateObjects s' = stateObjects s -> readable s' = readable s ->
    appended s s' [] -> fetched a s so s'
| fetched_new o s' new : stateObjects s !! a = None -> blank o -> stateObjects s' = <[a := o]> (stateObjects s) ->
    readable s' = readable s -> appended s s' new ->
    Forall neutral new \/ (exists new', new = createObjectChange a :: new' /\ Forall neutral new') -> fetched a s (Some o) s'.

Lemma getStateObject_fetched a s so s' : getStateObject R a s = Done (so, s') -> fetched a s so s'.
Proof.
  assert (forall s, appended s s []) as Happ by (intros ?; unfold appended; by rewrite app_nil_r).
  unfold getStateObject. intros E. unfold mbind at 1, M_bind at 1, get in E.
  destruct (stateObjects s !! a) as [o|] eqn:Eo; [injection E as <- <-; by constructor|].
  assert (forall s1, stateObjects s1 = stateObjects s -> readable s1 = readable s -> journal_ s1 = journal_ s ->
    (match balanceInc s !! a with
     | Some bi => if negb (transferred bi) then _ ← createObject a None; so ← obj a; mret (Some so) else mret None
     | None => mret None end : MS (option stateObject)) s1 = Done (so, s') -> fetched a s so s') as Habs.
  { intros s1 E1 E2 E3 H.
    assert (forall r, Done (None, s1) = Done (r, s') -> fetched a s r s') as Hnone.
    { intros r [= <- <-]. constructor; [done..|]. unfold appended. by rewrite E3, app_nil_r. }
    destruct (balanceInc s !! a) as [bi|]; [destruct (transferred bi)|]; cbn [negb] in H; [by apply Hnone| |by apply Hnone].
    apply bind_Done in H as (u & s2 & H & H2). apply createObject_puts in H as (o & new & Hb & Eo2 & Er & Ea & Hn).
    rewrite E1 in Eo2. rewrite E2 in Er. unfold appended in Ea. rewrite E3 in Ea.
    apply bind_Done in H2 as (o' & s3 & H2 & H3). apply obj_Done in H2 as (o2 & Ho2 & [= -> ->]). injection H3 as <- <-.
    rewrite Eo2, lookup_insert_eq in Ho2. injection Ho2 as <-. eapply fetched_new; eauto. }
  destruct (bool_decide _); [by apply (Habs s)|].
  destruct (ReadAccountData R a) as [[acc|] [err|]].
  - apply bind_Done in E as (u & s1 & [= _ <-] & [= <- <-]). apply fetched_same; [done|by destruct (savedErr s)..|unfold appended; destruct (savedErr s); apply (Happ s)].
  - apply bind_Done in E as (u & s1 & E1 & E). apply bind_Done in E as (u2 & s2 & E & E2).
    assert (stateObjects s1 = stateObjects s /\ readable s1 = readable s /\ journal_ s1 = journal_ s) as (F1 & F2 & F3).
    { injection E1 as _ <-. unfold readable. destruct (snap s) as [sn|] eqn:Es; [|by rewrite Es].
      destruct (written sn) eqn:Ew; [|by rewrite Es, Ew]. cbn. unfold AddAccount. rewrite Ew. by case_match; cbn; rewrite ?Ew. }
    apply setStateObject_puts in E as (o & new & Hb & Eo2 & Er & Ea & Hn).
    apply bind_Done in E2 as (o' & s3 & E2 & E3). apply obj_Done in E2 as (o2 & Ho2 & [= -> ->]). injection E3 as <- <-.
    rewrite Eo2, lookup_insert_eq in Ho2. injection Ho2 as <-.
    eapply (fetched_new _ _ _ _ new); [done|eapply rebalanced_blank; [done|by apply blank_newObject]|congruence|congruence| |by left].
    unfold appended in *. by rewrite Ea, F3.
  - apply bind_Done in E as (u & s1 & [= _ <-] & [= <- <-]). apply fetched_same; [done|by destruct (savedErr s)..|unfold appended; destruct (savedErr s); apply (Happ s)].
  - apply bind_Done in E as (u & s1 & [= _ <-] & E). by eapply Habs; [..|exact E].
Qed.

Lemma fetched_at a s so s' : fetched a s so s' -> so = stateObjects s' !! a.
Proof. intros [? ? ? E ? ?|? ? ? ? ? E ? ? ?]; rewrite E; [done|by rewrite lookup_insert_eq]. Qed.

(** Relative to any journal: used when entries are undone. *)
Lemma fetched_safe es a s so s' : fetched a s so s' -> safe es s -> safe es s'.
Proof.
  intros [? ? ? E1 E2 ?|o ? ? Ha Hb E1 E2 ? ?] Hs; [by eapply safe_other|].
  destruct Hs as [H1 H2 H3]. split; rewrite ?E1, ?E2; [|by eapply undoable_extends, extends_new|done].
  apply map_Forall_insert_2; [by apply blank_faithful|done].
Qed.

Lemma fetched_coherent a s so s' : fetched a s so s' -> coherent s -> coherent s'.
Proof.
  intros Hf Hs. pose proof (fetched_safe _ _ _ _ _ Hf Hs) as Hs'. destruct Hs' as [H1 H2 H3].
  destruct Hf as [? ? ? E1 E2 Ea|o ? new Ha Hb E1 E2 Ea Hn].
  - unfold coherent. rewrite Ea, app_nil_r. by split.
  - unfold coherent. rewrite Ea, rev_app_distr. split; [done| |done].
    destruct Hn as [Hn|(new' & -> & Hn)]; [by apply neutrals_undoable|].
    cbn [rev]. rewrite <-app_assoc. apply neutrals_undoable; [done|]. cbn. rewrite E1, delete_insert_id by done. apply Hs.
Qed.

Lemma coheres_getStateObject a : preserves coheres (getStateObject R a).
Proof. intros s r s' E Hs. by eapply fetched_coherent; [eapply getStateObject_fetched|]. Qed.

Lemma coheres_createObject a p s u s' : coherent s -> stateObjects s !! a = p -> createObject a p s = Done (u, s') ->
  coherent s' /\ exists o, stateObjects s' !! a = Some o /\ blank o.
Proof.
  intros [H1 H2 H3] Hp E. apply createObject_puts in E as (o & new & Hb & Eo & Er & Ea & Hn).
  split; [|exists o; by rewrite Eo, lookup_insert_eq]. unfold coherent. rewrite Ea, rev_app_distr. cbn [rev].
  rewrite <-app_assoc. split; rewrite ?Eo, ?Er; [|apply neutrals_undoable; [done|]|done].
  - apply map_Forall_insert_2; [by apply blank_faithful|done].
  - destruct p as [p|]; cbn; [|by rewrite delete_insert_id]. split; [by apply H1|]. by rewrite insert_insert_eq, insert_id.
Qed.

Lemma GetOrNew_coherent a s o s' : coherent s -> GetOrNewStateObject R a s = Done (o, s') ->
  coherent s' /\ stateObjects s' !! a = Some o.
Proof.
  intros Hs E. apply bind_Done in E as (so & s1 & E1 & E). apply getStateObject_fetched in E1.
  pose proof (fetched_coherent _ _ _ _ E1 Hs) as Hs1. pose proof (fetched_at _ _ _ _ E1) as Hso.
  assert ((_ ← createObject a so; obj a) s1 = Done (o, s') -> coherent s' /\ stateObjects s' !! a = Some o) as Hc.
  { intros H. apply bind_Done in H as (u & s2 & H & H2). apply obj_Done in H2 as (o2 & Ho2 & [= -> ->]).
    split; [|done]. by eapply coheres_createObject. }
  destruct so as [o1|]; [|by apply Hc]. destruct (deleted o1); [by apply Hc|]. by injection E as <- <-.
Qed.

Lemma coheres_GetOrNew a : preserves coheres (GetOrNewStateObject R a).
Proof. intros s r s' E Hs. by eapply GetOrNew_coherent. Qed.

(** ** Storage *)

(** The database answers storage reads. *)
Context (reads : forall a i k, (ReadAccountStorage R a i k).2 = None).

Definition cached (k v : Z) (o : stateObject) : stateObject :=
  set_blockOriginStorage (<[k := v]> (blockOriginStorage o)) (set_originStorage (<[k := v]> (originStorage o)) o).

Lemma cached_faithful a k v o : faithful a o -> slot_value (ReadAccountStorage R a (Incarnation (data o)) k) = Some v ->
  faithful a (cached k v o) /\ (forall k', agree a o k' -> agree a (cached k v o) k') /\ agree a (cached k v o) k.
Proof.
  intros [H1 H2 H3 H4 H5] Hv.
  assert (agree a (cached k v o) k) as Hk by (unfold agree; cbn; by rewrite lookup_insert_eq).
  assert (forall k', k' <> k -> agree a o k' -> agree a (cached k v o) k') as Hne.
  { intros k' Hn. unfold agree. cbn. by rewrite lookup_insert_ne. }
  split_and!; [|intros k' Hk'; destruct (decide (k' = k)) as [->|]; auto|done].
  split; cbn; [done| | | |done]; intros k'; destruct (decide (k' = k)) as [->|Hn];
    rewrite ?lookup_insert_eq, ?lookup_insert_ne by done; try done; eauto.
  by intros v' _ [= <-].
Qed.

Lemma so_cacheStorage_coherent a k v o s r s' : coherent s -> stateObjects s !! a = Some o ->
  slot_value (ReadAccountStorage R a (Incarnation (data o)) k) = Some v ->
  so_cacheStorage a k v s = Done (r, s') -> coherent s' /\ exists o', stateObjects s' !! a = Some o' /\ agree a o' k.
Proof.
  intros Hs Ho Hv E. apply bind_Done in E as (u & s1 & E & [= _ <-]). rewrite (upd_at _ _ _ _ Ho) in E. injection E as _ <-.
  fold (cached k v o). destruct (cached_faithful a k v o (sf_objects _ _ Hs _ _ Ho) Hv) as (H1 & H2 & H3).
  split; [|exists (cached k v o); split; [apply put_object_at|done]].
  by apply (safe_put _ a o).
Qed.

Lemma so_loadStorage_coherent a k o s r s' : coherent s -> stateObjects s !! a = Some o ->
  so_loadStorage R a k o s = Done (r, s') -> coherent s' /\ exists o', stateObjects s' !! a = Some o' /\ agree a o' k.
Proof.
  intros Hs Ho E. unfold so_loadStorage in E. pose proof (reads a (Incarnation (data o)) k) as Hr.
  pose proof (so_cacheStorage_coherent a k) as Hc.
  destruct (ReadAccountStorage R a (Incarnation (data o)) k) as [[enc|] [err|]] eqn:ER; try done.
  - apply bind_Done in E as (u & s1 & [= _ <-] & E).
    eapply Hc; [| |by rewrite ER|exact E]; [|by repeat case_match].
    unfold coherent. destruct (snap s) as [sn|] eqn:Es; [|done]. destruct (written sn) eqn:Ew; [|done].
    cbn. destruct Hs as [H1 H2 H3]. split; [done|done|]. unfold readable, AddStorage. cbn. rewrite Ew. cbn.
    by destruct (zlen enc =? 0); cbn; rewrite ?Ew.
  - eapply Hc; [done|done| |exact E]. rewrite ER. cbn. by rewrite uint256.SetBytes_spec by by apply Forall_nil_2.
Qed.

Lemma so_GetCommittedState_coherent a k s r s' : coherent s -> so_GetCommittedState R a k s = Done (r, s') ->
  coherent s' /\ exists o, stateObjects s' !! a = Some o /\ agree a o k.
Proof.
  intros Hs E. apply bind_Done in E as (o & s1 & E1 & E). apply obj_Done in E1 as (o1 & Ho & [= -> ->]).
  pose proof (sf_objects _ _ Hs _ _ Ho) as Hf. rewrite (fa_fake _ _ Hf) in E.
  destruct (originStorage o1 !! k) as [v|] eqn:Ev.
  { injection E as _ <-. split; [done|]. exists o1. split; [done|]. apply Hf. rewrite Ev. eauto. }
  destruct (created o1) eqn:Ec.
  { injection E as _ <-. split; [done|]. exists o1. split; [done|]. apply Hf. auto. }
  apply bind_Done in E as (s2 & s3 & [= <- <-] & E). pose proof (sf_snap _ _ Hs) as Hr. unfold readable in Hr.
  destruct (snap s) as [sn|]; [|by eapply so_loadStorage_coherent]. destruct (written sn); [|done].
  by eapply so_loadStorage_coherent.
Qed.

Lemma so_GetState_coherent a k s r s' : coherent s -> so_GetState R a k s = Done (r, s') ->
  coherent s' /\ exists o, stateObjects s' !! a = Some o /\ agree a o k.
Proof.
  intros Hs E. apply bind_Done in E as (o & s1 & E1 & E). apply obj_Done in E1 as (o1 & Ho & [= -> ->]).
  pose proof (sf_objects _ _ Hs _ _ Ho) as Hf. rewrite (fa_fake _ _ Hf) in E.
  destruct (dirtyStorage o1 !! k) as [v|] eqn:Ev; [|by eapply so_GetCommittedState_coherent].
  injection E as _ <-. split; [done|]. exists o1. split; [done|]. apply Hf. rewrite Ev. eauto.
Qed.

(** A write to a slot that was read. *)
Lemma setState_faithful a k v o : faithful a o -> agree a o k -> faithful a (setState k v o).
Proof.
  intros [H1 H2 H3 H4 H5] Hk. split; cbn; [done| | |done|done].
  - intros k'. destruct (decide (k' = k)) as [->|]; [done|]. rewrite lookup_insert_ne by done. apply H2.
  - intros k' v'. destruct (decide (k' = k)) as [->|]; [by rewrite lookup_insert_eq|]. rewrite lookup_insert_ne by done. apply H3.
Qed.

Lemma so_SetState_coheres a k v : preserves coheres (so_SetState R a k v).
Proof.
  intros s u s' E Hs. apply bind_Done in E as (o & s1 & E1 & E). apply obj_Done in E1 as (o1 & Ho & [= -> ->]).
  rewrite (fa_fake _ _ (sf_objects _ _ Hs _ _ Ho)) in E. clear o1 Ho.
  apply bind_Done in E as (prev & s1 & E1 & E). destruct (so_GetState_coherent _ _ _ _ _ Hs E1) as (Hs1 & o & Ho & Hk).
  destruct (prev =? v); [by injection E as _ <-|]. apply bind_Done in E as (u2 & s2 & [= _ <-] & E).
  rewrite (upd_at _ _ _ o) in E by done. injection E as _ <-.
  eapply (safe_put _ a o); [|done|by apply setState_faithful, Hk; apply Hs1|done].
  apply (coherent_append (storageChange a k prev)); [done|]. cbn. eauto.
Qed.

(** ** Updates of the other fields *)

Lemma keeping_data a f : (forall acc, Incarnation (f acc) = Incarnation acc /\ CodeHash (f acc) = CodeHash acc) ->
  keeping a (fun o => set_data (f (data o)) o).
Proof.
  intros H o [H1 H2 H3 H4 H5]. destruct (H (data o)) as [E1 E2].
  assert (forall k, agree a o k -> agree a (set_data (f (data o)) o) k) as Hk by (intros k; unfold agree; cbn; by rewrite E1).
  split; [|done]. split; cbn; try done; [intros k Hd; by apply Hk, H2|]. rewrite E2. done.
Qed.

Lemma keeping_setBalance a v : keeping a (setBalance v).
Proof. by apply (keeping_data a (fun acc => set_Initialised true (set_Balance v acc))). Qed.
Lemma keeping_setNonce a v : keeping a (setNonce v).
Proof. by apply (keeping_data a (set_Nonce v)). Qed.
Lemma keeping_selfdestructed a b : keeping a (set_selfdestructed b).
Proof. intros o []. split; [by split|done]. Qed.
Lemma keeping_uncreated a : keeping a (set_created false).
Proof. intros o [H1 H2 H3 H4 H5]. split; [split; cbn; try done|done]. intros k [?|[?|]]; [apply H2; auto..|done]. Qed.
Lemma keeping_setCode a h c : keeping a (setCode h c).
Proof. intros o []. split; [split; cbn; try done; auto|done]. Qed.

#[local] Hint Resolve coheres_upd coheres_setError coheres_getStateObject coheres_GetOrNew so_SetState_coheres
  keeping_setBalance keeping_setNonce keeping_selfdestructed keeping_uncreated keeping_setCode : preserves.
#[local] Hint Extern 1 (preserves coheres (jappend _)) => apply coheres_jappend; exact I : preserves.

Lemma coheres_obj a : preserves coheres (obj a).
Proof. intros s r s' E. apply obj_Done in E as (o & _ & [= _ ->]). done. Qed.

Lemma coheres_cached_code a : preserves coheres (so_Code R a).
Proof.
  intros s r s' E Hs. apply bind_Done in E as (o & s1 & E1 & E). apply obj_Done in E1 as (o1 & Ho & [= -> ->]).
  destruct (code o1); [by injection E as _ <-|]. destruct (_ =? _); [by injection E as _ <-|].
  destruct (ReadAccountCode R a (Incarnation (data o1)) (CodeHash (data o1))) as [c err] eqn:ER.
  apply bind_Done in E as (u & s1 & E1 & E). apply bind_Done in E as (u2 & s2 & E2 & [= _ <-]).
  assert (coherent s1 /\ stateObjects s1 = stateObjects s) as [Hs1 Eo].
  { destruct err as [err|]; [|by injection E1 as _ <-]. split; [by eapply coheres_setError|].
    injection E1 as _ <-. by destruct (savedErr s). }
  rewrite <-Eo in Ho. rewrite (upd_at _ _ _ _ Ho) in E2. injection E2 as _ <-.
  eapply (safe_put _ a o1); [done|done| |done]. destruct (sf_objects _ _ Hs1 _ _ Ho) as [H1 H2 H3 H4 H5].
  split; cbn; try done. intros b ->. right. eexists. by rewrite ER.
Qed.
#[local] Hint Resolve coheres_obj coheres_cached_code : preserves.

Lemma coheres_so_SetBalance a v : preserves coheres (so_SetBalance a v).
Proof. unfold so_SetBalance. preserves_with fail. Qed.
#[local] Hint Resolve coheres_so_SetBalance : preserves.

(** ** The operations *)

Lemma coheres_touch a : preserves coheres (touch a).
Proof. unfold touch. preserves_with fail. by apply (coheres_other (fun s => set_journal (journal_dirty a (journal_ s)) s)). Qed.

Lemma coheres_so_GetState a k : preserves coheres (so_GetState R a k).
Proof. intros s r s' E Hs. by eapply so_GetState_coherent. Qed.

Lemma coheres_so_GetCommittedState a k : preserves coheres (so_GetCommittedState R a k).
Proof. intros s r s' E Hs. by eapply so_GetCommittedState_coherent. Qed.

#[local] Hint Resolve coheres_touch coheres_so_GetState coheres_so_GetCommittedState : preserves.

Lemma coheres_zoom_al {A} (m : M accessList.accessList A) : preserves coheres (zoom_al m).
Proof. intros s r s' E Hs. unfold zoom_al in E. apply zoom_Done in E as (x & y & _ & [= _ ->]). by eapply safe_other; [..|exact Hs]. Qed.

Lemma coheres_AddAddressToAccessList a : preserves coheres (AddAddressToAccessList a).
Proof. pose proof @coheres_zoom_al. unfold AddAddressToAccessList. preserves_with fail. Qed.

Lemma coheres_AddSlotToAccessList a k : preserves coheres (AddSlotToAccessList a k).
Proof. pose proof @coheres_zoom_al. unfold AddSlotToAccessList. preserves_with fail. Qed.

Lemma coheres_for_each {A} (f : A -> MS ()) l : (forall x, preserves coheres (f x)) -> preserves coheres (for_each f l).
Proof. intros H. induction l as [|x l IH]; cbn; [apply preserves_ret; typeclasses eauto|]. apply preserves_bind; [typeclasses eauto|done|done]. Qed.

Lemma coheres_AddBalance a v : preserves coheres (AddBalance R a v).
Proof.
  unfold AddBalance, so_AddBalance. preserves_with ltac:(idtac). all: intros Hs; by eapply safe_other; [..|exact Hs].
Qed.

Lemma coheres_Selfdestruct a : preserves coheres (Selfdestruct R a).
Proof.
  unfold Selfdestruct, live. preserves_with fail.
  by apply coheres_upd, (keeping_data a (set_Balance 0)).
Qed.

(** A contract is created under an incarnation for which the database holds no slot. *)
Definition unused (a i : Z) : Prop := forall k, slot_value (ReadAccountStorage R a i k) = Some 0.

Lemma CreateAccount_coherent a b s u s' : coherent s -> CreateAccount R a b s = Done (u, s') ->
  (b = true -> forall o, stateObjects s' !! a = Some o -> unused a (Incarnation (data o))) -> coherent s'.
Proof.
  intros Hs E Hb. apply bind_Done in E as (p & s1 & E1 & E). apply getStateObject_fetched in E1.
  pose proof (fetched_coherent _ _ _ _ E1 Hs) as Hs1. pose proof (fetched_at _ _ _ _ E1) as Hp. cbv zeta in E.
  apply bind_Done in E as (u2 & s2 & E2 & E). destruct (coheres_createObject _ _ _ _ _ Hs1 (eq_sym Hp) E2) as (Hs2 & o & Ho & Hbl).
  apply bind_Done in E as (u3 & s3 & E3 & E).
  assert (coherent s3 /\ exists o, stateObjects s3 !! a = Some o /\ blank o) as (Hs3 & o3 & Ho3 & Hbl3).
  { destruct p as [p|]; [|injection E3 as _ <-; eauto]. split; [by eapply coheres_upd; [apply keeping_setBalance|..]|].
    rewrite (upd_at _ _ _ _ Ho) in E3. injection E3 as _ <-. eexists. split; [apply put_object_at|]. by destruct Hbl. }
  destruct b; [|by eapply coheres_upd; [apply keeping_selfdestructed|..]].
  rewrite (upd_at _ _ _ _ Ho3) in E. injection E as _ <-.
  pose proof (Hb eq_refl _ (put_object_at _ _ _)) as Hu. cbn in Hu. destruct Hbl3 as [B1 B2 B3 B4 B5 B6].
  assert (forall k, agree a (set_data (set_Incarnation (u16 ((match p with Some p => if selfdestructed p then Incarnation (data p)
    else match ReadAccountIncarnation R a with (inc, None) => inc | (_, Some _) => 0 end
    | None => match ReadAccountIncarnation R a with (inc, None) => inc | (_, Some _) => 0 end end) + 1)) (data o3)) (set_created true o3)) k) as Hk.
  { intros k. unfold agree. cbn. rewrite B3, lookup_empty. apply Hu. }
  eapply (safe_put _ a o3); [done|done| |done]. split; cbn; rewrite ?B1, ?B2, ?B3, ?B6; try done.
Qed.

Lemma keeping_setIncarnation a i : (forall i, unused a i) -> keeping a (so_setIncarnation i).
Proof.
  intros Hu o [H1 H2 H3 H4 H5].
  assert (forall k, agree a o k -> agree a (so_setIncarnation i o) k) as Hk.
  { intros k. unfold agree. cbn. by rewrite !Hu. }
  split; [|done]. split; cbn; try done. intros k Hd. by apply Hk, H2.
Qed.

(** ** Reverts *)

Lemma appended_trans s1 s2 s3 n1 n2 : appended s1 s2 n1 -> appended s2 s3 n2 -> appended s1 s3 (n1 ++ n2).
Proof. unfold appended. intros E1 E2. by rewrite E2, E1, app_assoc. Qed.

Lemma fetched_appended a s so s' : fetched a s so s' -> exists new, appended s s' new.
Proof. intros []; eauto. Qed.

(** An entry that changes the object at its address. *)
Lemma on_object_safe es a f s u s' : safe es s -> keeping a f ->
  (so ← getStateObject R a; match so with Some _ => upd a f | None => panic end) s = Done (u, s') ->
  safe es s' /\ exists new, appended s s' new.
Proof.
  intros Hs Hf E. apply bind_Done in E as (so & s1 & E1 & E). apply getStateObject_fetched in E1.
  pose proof (fetched_safe _ _ _ _ _ E1 Hs) as Hs1. destruct (fetched_appended _ _ _ _ E1) as [new Ha].
  destruct so; [|done]. destruct (safe_upd _ _ _ _ _ _ Hf Hs1 E) as [Hs' Ej]. split; [done|]. exists new.
  unfold appended. by rewrite Ej.
Qed.

Lemma appended_nil s s' : entries (journal_ s') = entries (journal_ s) -> exists new, appended s s' new.
Proof. intros E. exists []. unfold appended. by rewrite E, app_nil_r. Qed.

Lemma modify_safe es s s' : safe es s -> stateObjects s' = stateObjects s -> readable s' = readable s ->
  journal_ s' = journal_ s -> safe es s' /\ exists new, appended s s' new.
Proof. intros Hs E1 E2 E3. split; [by eapply safe_other|]. apply appended_nil. by rewrite E3. Qed.

Lemma revert_entry_safe e es s u s' : safe (e :: es) s -> revert_entry R e s = Done (u, s') ->
  safe es s' /\ exists new, appended s s' new.
Proof.
  intros [H1 H2 H3] E.
  assert (neutral e -> safe es s) as Hn by (intros He; split; [done| |done]; by apply neutral_undoable in H2).
  destruct e; cbn [revert_entry undoable] in E, H2.
  - apply bind_Done in E as (u1 & s1 & [= _ <-] & [= _ <-]). split; [|by apply appended_nil].
    split; [by apply map_Forall_delete|done|done].
  - destruct H2 as [Hp H2]. apply setStateObject_puts in E as (o & new & Hr & Eo & Er & Ea & _).
    split; [|eauto]. split; rewrite ?Eo, ?Er; [|eapply undoable_extends; [exact H2|]|done].
    + apply map_Forall_insert_2; [by eapply rebalanced_faithful|done].
    + apply extends_insert; [done|]. intros k. by apply rebalanced_agree.
  - specialize (Hn I). apply bind_Done in E as (so & s1 & E1 & E). apply getStateObject_fetched in E1.
    pose proof (fetched_safe _ _ _ _ _ E1 Hn) as Hs1. destruct (fetched_appended _ _ _ _ E1) as [new Ha].
    destruct so; [|by injection E as _ <-; eauto]. apply bind_Done in E as (u2 & s2 & E2 & E).
    destruct (safe_upd _ _ _ _ _ _ (keeping_selfdestructed _ _) Hs1 E2) as [Hs2 J2].
    destruct (safe_upd _ _ _ _ _ _ (keeping_setBalance _ _) Hs2 E) as [Hs3 J3]. split; [done|]. exists new.
    unfold appended. by rewrite J3, J2.
  - by eapply on_object_safe; [apply Hn|apply keeping_setBalance|].
  - injection E as _ <-. apply modify_safe; [by apply Hn|by case_match..].
  - injection E as _ <-. apply modify_safe; [by apply Hn|by case_match..].
  - by eapply on_object_safe; [apply Hn|apply keeping_setNonce|].
  - destruct H2 as [(o & Ho & Hk) H2]. assert (safe es s) as Hs by by split.
    apply bind_Done in E as (so & s1 & E1 & E). apply getStateObject_fetched in E1.
    pose proof (fetched_safe _ _ _ _ _ E1 Hs) as Hs1. destruct (fetched_appended _ _ _ _ E1) as [new Ha].
    assert (stateObjects s1 !! account = Some o) as Ho1 by (destruct E1 as [? ? ? E1|]; [by rewrite E1|congruence]).
    destruct so; [|done]. rewrite (upd_at _ _ _ _ Ho1) in E. injection E as _ <-.
    split; [|exists new; done]. eapply safe_put; [done|done|apply setState_faithful; [by apply Hs1|done]|done].
  - apply bind_Done in E as (so & s1 & E1 & E). apply getStateObject_fetched in E1.
    pose proof (fetched_safe _ _ _ _ _ E1 (Hn I)) as Hs1. pose proof (fetched_at _ _ _ _ E1) as Hso.
    destruct so as [o|]; [|done]. by rewrite (fa_fake _ _ (sf_objects _ _ Hs1 _ _ (eq_sym Hso))) in E.
  - by eapply on_object_safe; [apply Hn|apply keeping_setCode|].
  - injection E as _ <-. by apply modify_safe; [apply Hn|..].
  - specialize (Hn I). apply bind_Done in E as (t & s1 & [= <- <-] & E). apply bind_Done in E as (u1 & s1 & E1 & [= _ <-]).
    apply (modify_safe es s _ Hn);
      repeat (case_match; [by injection E1 as _ <-|]); (case_match; [done|by injection E1 as _ <-]).
  - injection E as _ <-. split; [by apply Hn|by apply appended_nil].
  - unfold zoom_al in E. apply zoom_Done in E as (x & y & _ & [= _ ->]). by apply (modify_safe es s); [apply Hn|..].
  - unfold zoom_al in E. apply zoom_Done in E as (x & y & _ & [= _ ->]). by apply (modify_safe es s); [apply Hn|..].
Qed.

Lemma revert_loop_safe n k s u s' : (k + n <= length (entries (journal_ s)))%nat ->
  safe (rev (take (k + n) (entries (journal_ s)))) s -> journal_revert_loop R n k s = Done (u, s') ->
  safe (rev (take k (entries (journal_ s')))) s' /\ exists new, appended s s' new.
Proof.
  revert s. induction n as [|n IH]; intros s Hl Hs E; cbn [journal_revert_loop] in E.
  { injection E as _ <-. rewrite Nat.add_0_r in Hs. split; [done|by apply appended_nil]. }
  apply bind_Done in E as (s0 & s1 & [= <- <-] & E). apply bind_Done in E as (e & s1 & E1 & E).
  destruct (entries (journal_ s) !! (k + n)%nat) as [e'|] eqn:Ee; [|done]. injection E1 as <- <-.
  apply bind_Done in E as (u1 & s1 & E1 & E). apply bind_Done in E as (u2 & s2 & [= _ <-] & E).
  rewrite Nat.add_succ_r, (take_S_r _ _ _ Ee), rev_app_distr in Hs. cbn [rev app] in Hs.
  destruct (revert_entry_safe _ _ _ _ _ Hs E1) as [Hs1 [new Ha]].
  set (s2 := set_journal _ s1) in E.
  assert (entries (journal_ s2) = entries (journal_ s1)) as E2 by (subst s2; cbn; unfold journal_undirty; by destruct (dirtied e')).
  assert (k + n <= length (entries (journal_ s)))%nat as Hl' by lia.
  destruct (IH s2) as [Hs' [new' Ha']]; [rewrite E2, Ha, length_app; lia| |done|].
  - rewrite E2, Ha, take_app_le by done. by eapply safe_other; [..|exact Hs1].
  - split; [done|]. exists (new ++ new'). eapply appended_trans; [exact Ha|]. unfold appended in *. by rewrite Ha', E2.
Qed.

Lemma coheres_RevertToSnapshot revid : preserves coheres (RevertToSnapshot R revid).
Proof.
  intros s u s' E Hs. apply bind_Done in E as (s0 & s1 & [= <- <-] & E). apply bind_Done in E as (idx & s1 & E1 & E).
  assert (s1 = s) as -> by (destruct (sort_Search _ _ _ _); [by injection E1|done..]).
  clear E1. destruct (idx =? _); [done|]. apply bind_Done in E as (r & s1 & E2 & E).
  assert (s1 = s) as -> by (destruct (znth _ _); [by injection E2|done]). destruct (negb _); [done|].
  apply bind_Done in E as (u1 & s2 & E & [= _ <-]). apply bind_Done in E as (s0 & s1 & [= <- <-] & E).
  apply bind_Done in E as (u2 & s3 & E3 & E). apply bind_Done in E as (s0 & s1 & [= <- <-] & E).
  destruct (_ || _) eqn:Eb in E; [done|]. injection E as _ <-. apply orb_false_iff in Eb as [_ Hlen].
  assert (safe (rev (take (Z.to_nat (journalIndex r)) (entries (journal_ s3)))) s3) as Hs3.
  { set (i := Z.to_nat _) in *. destruct (decide (i <= length (entries (journal_ s))))%nat as [Hi|Hi].
    - eapply (revert_loop_safe (length (entries (journal_ s)) - i) i s); [lia| |exact E3].
      rewrite take_ge by lia. done.
    - replace (length _ - i)%nat with 0%nat in E3 by lia. injection E3 as _ <-. rewrite take_ge by lia. done. }
  unfold coherent. cbn. by eapply safe_other; [..|exact Hs3].
Qed.

#[local] Hint Resolve coheres_AddAddressToAccessList coheres_AddSlotToAccessList coheres_AddBalance
  coheres_Selfdestruct coheres_RevertToSnapshot : preserves.

(** ** Any sequence of calls *)

Context (iter : forall A : Type, list A -> list A) (iter_perm : forall A (l : list A), iter A l ≡ₚ l).

(** Contracts are created under unused incarnations, incarnations are set from outside
    only where the database has no storage (as the genesis block does), and storage is
    not overridden (an option of the simulated calls of the API, which are never
    committed). *)
Definition storage_ok (c : call) (s' : IntraBlockState) : Prop :=
  match c with
  | CCmd (CCreateAccount a true) => forall o, stateObjects s' !! a = Some o -> unused a (Incarnation (data o))
  | CSetIncarnation a _ => forall i, unused a i
  | CSetStorage _ _ => False
  | _ => True
  end.

Lemma coheres_exec c s s' : storage_ok (CCmd c) s' -> exec R c s = Done ((), s') -> coherent s -> coherent s'.
Proof.
  intros Hok E. revert E. set (r := ()). clearbody r. revert r.
  enough (match c with CCreateAccount _ _ => True | _ => preserves coheres (exec R c) end) as H.
  { intros r E Hs. destruct c; try (by eapply H; [exact E|]).
    eapply CreateAccount_coherent; [done|exact E|]. intros ->. exact Hok. }
  destruct c; cbn [exec]; unfold ignore, Exist, Empty, GetBalance, GetNonce, GetCode, GetCodeSize, GetCodeHash, GetState,
    GetCommittedState, HasSelfdestructed, GetIncarnation, SubBalance, so_SubBalance, SetBalance, SetNonce, so_SetNonce,
    SetCode, so_SetCode, SetState, AddLog, AddRefund, SubRefund, Snapshot_, live; try exact I;
    preserves_with ltac:(idtac).
  all: intros Hs; by eapply safe_other; [..|exact Hs].
Qed.

Lemma coheres_load_increases : preserves coheres (load_increases R iter).
Proof.
  unfold load_increases. apply preserves_bind; [typeclasses eauto|apply preserves_get; typeclasses eauto|]. intros s.
  apply coheres_for_each. intros [a bi]. preserves_with fail.
Qed.

Lemma faithful_stored a l o : faithful a o -> (forall kv, kv ∈ l -> is_Some (dirtyStorage o !! kv.1)) ->
  faithful a (foldl store_slot o l).
Proof.
  revert o. induction l as [|[k v] l IH]; intros o Ho Hl; [done|]. cbn. apply IH; [|intros kv Hkv; apply Hl; by right].
  pose proof (Hl (k, v) ltac:(by left)) as Hk. cbn in Hk. destruct Ho as [H1 H2 H3 H4 H5]. split; cbn; [done| | | |done].
  - intros k'. destruct (decide (k' = k)) as [->|]; [intros _; apply H2; auto|]. rewrite lookup_insert_ne by done. apply H2.
  - intros k' v'. destruct (decide (k' = k)) as [->|]; [by destruct Hk as [? ->]|]. rewrite lookup_insert_ne by done. apply H3.
  - intros k' Hk'. destruct (decide (k' = k)) as [->|]; [rewrite lookup_insert_eq; eauto|]. rewrite lookup_insert_ne by done. by apply H4.
Qed.

Lemma faithful_after e a addr o d : faithful addr o -> faithful addr (object_after iter e a addr o d).
Proof.
  intros Ho. unfold object_after. set (o1 := if removed _ _ _ _ _ then _ else _).
  assert (faithful addr o1) as Ho1 by (subst o1; destruct (removed _ _ _ _ _); [by destruct Ho|done]).
  clearbody o1. destruct (rewritten _ _ _ _ _); [|done]. apply faithful_stored; [by destruct Ho1|].
  intros [k v] Hkv. apply iter_in in Hkv; [|done]. by exists v.
Qed.

Lemma coherent_cleared s : map_Forall faithful (stateObjects s) -> readable s = None -> coherent (cleared s).
Proof. intros H1 H2. by split. Qed.

Lemma coherent_FinalizeTx e a s err s' u : coherent s -> FinalizeTx R iter NoopWriter e a (s, ()) = Done (err, (s', u)) -> coherent s'.
Proof.
  intros Hs E. pose proof E as E0. unfold FinalizeTx in E0. apply bind_Done in E0 as (u1 & [s1 u2] & E1 & _).
  apply zoom_Done in E1 as ([] & t & E1 & _). cbn in E1.
  pose proof (FinalizeTx_runs iter NoopWriter iter_perm R e a s t E1 ()) as Hr.
  rewrite NoopWriter_each in Hr. rewrite Hr in E. injection E as <- <- _.
  destruct (coheres_load_increases _ _ _ E1 Hs) as [H1 _ H3]. clear E1 Hr Hs.
  enough (forall l t, map_Forall faithful (stateObjects t) -> readable t = None ->
    map_Forall faithful (stateObjects (foldl (finalized iter e a) t l)) /\ readable (foldl (finalized iter e a) t l) = None) as H.
  { by apply coherent_cleared; apply H. }
  clear H1 H3 t. intros l. induction l as [|x l IH]; intros t H1 H3; [done|]. cbn. apply IH; unfold finalized;
    destruct (stateObjects t !! x.1) as [o|] eqn:Ho; try done. cbn. apply map_Forall_insert_2; [|done]. by apply faithful_after, H1.
Qed.

Lemma coheres_mark_dirty a : preserves coheres (mark_dirty a).
Proof. by apply coheres_other. Qed.

Lemma coheres_clear : preserves coheres clearJournalAndRefund.
Proof. apply preserves_modify. intros s [H1 H2 H3]. by apply coherent_cleared. Qed.
#[local] Hint Resolve coheres_mark_dirty coheres_clear : preserves.

Lemma coheres_exec_call c s s' : storage_ok c s' -> exec_call R iter c s = Done ((), s') -> coherent s -> coherent s'.
Proof.
  destruct c; intros Hok E; [by eapply coheres_exec|done|..]; cbn [exec_call] in E.
  - revert E. enough (preserves coheres (SetIncarnation R a i)) as H by (intros E; by eapply H).
    unfold SetIncarnation. pose proof (keeping_setIncarnation a i Hok). preserves_with fail.
  - revert E. enough (preserves coheres (PrepareAccessList sender dst precompiles list)) as H by (intros E; by eapply H).
    pose proof @coheres_for_each. unfold PrepareAccessList. preserves_with fail.
  - injection E as <-. intros Hs. by eapply safe_other; [..|exact Hs].
  - apply bind_Done in E as (u & s1 & [= _ <-] & E). apply bind_Done in E as (u2 & s2 & [= _ <-] & [= <-]).
    intros [H1 H2 H3]. by split.
  - revert E. enough (preserves coheres (SoftFinalise iter)) as H by (intros E; by eapply H).
    unfold SoftFinalise. preserves_with fail. apply coheres_for_each. intros [x n]. preserves_with fail.
  - intros Hs. destruct (FinalizeTx _ _ _ _ _ _) as [[err [s1 u1]]| |] eqn:Ef; [|done..]. injection E as <-.
    by eapply coherent_FinalizeTx.
Qed.

(** States of block execution. *)
Inductive executed : IntraBlockState -> Prop :=
| executed_New : executed New
| executed_call c s s' : executed s -> call_ok c -> exec_call R iter c s = Done ((), s') -> storage_ok c s' -> executed s'.

Lemma executed_reachable s : executed s -> reachable R iter s.
Proof. induction 1; [constructor|by eapply reach_call]. Qed.

Lemma executed_coherent s : executed s -> coherent s.
Proof. induction 1 as [|c s s' _ IH _ E Hok]; [by split|]. by eapply coheres_exec_call. Qed.

(** ** The commit *)

Lemma getStateObject_returns a s : exists so s', getStateObject R a s = Done (so, s').
Proof.
  assert (forall o s, exists o' s', setStateObject a o s = Done ((), s') /\ stateObjects s' !! a = Some o') as Hset.
  { intros o t. unfold setStateObject, jappend, mbind, M_bind, get, modify, mret, M_ret.
    destruct (balanceInc t !! a) as [bi|]; [destruct (transferred bi)|]; cbn [negb]; eexists _, _; (split; [reflexivity|]);
      apply lookup_insert_eq. }
  assert (forall o s, exists so s', (_ ← setStateObject a o; so ← obj a; mret (Some so)) s = Done (so, s')) as Hload.
  { intros o t. unfold mbind, M_bind. destruct (Hset o t) as (o' & t' & -> & Ho). rewrite (obj_run _ _ _ Ho). by eexists _, _. }
  unfold getStateObject. unfold mbind at 1, M_bind at 1, get. destruct (stateObjects s !! a); [by eexists _, _|].
  assert (forall s1, exists so s', (match balanceInc s !! a with
     | Some bi => if negb (transferred bi) then _ ← createObject a None; so ← obj a; mret (Some so) else mret None
     | None => mret None end : MS (option stateObject)) s1 = Done (so, s')) as Habs.
  { intros s1. destruct (balanceInc s !! a) as [bi|]; [destruct (transferred bi)|]; [by eexists _, _| |by eexists _, _].
    cbn [negb]. unfold createObject, jappend, modify. unfold mbind at 1 3, M_bind at 1 3. apply Hload. }
  destruct (bool_decide _); [apply Habs|].
  destruct (ReadAccountData R a) as [[acc|] [err|]]; [by eexists _, _| |by eexists _, _|].
  - unfold modify. unfold mbind at 1, M_bind at 1. apply Hload.
  - unfold modify. unfold mbind at 1, M_bind at 1. apply Habs.
Qed.

Lemma load_increases_returns s : exists s', load_increases R iter s = Done ((), s').
Proof.
  unfold load_increases. unfold mbind at 1, M_bind at 1, get. generalize s at 2. intros t.
  revert t. induction (iter _ _) as [|[a bi] l IH]; intros t; [by eexists|]. cbn [for_each].
  unfold mbind at 1, M_bind at 1. unfold mbind at 1, M_bind at 1, get.
  destruct (balanceInc t !! a) as [b|]; [|apply IH]. destruct (negb _); [|apply IH].
  unfold mbind, M_bind. destruct (getStateObject_returns a t) as (so & t' & ->). apply IH.
Qed.

Lemma recorder_each ops l : each recorder ops l = Done (None, l ++ ops).
Proof.
  revert l. induction ops as [|op ops IH]; intros l; [cbn; by rewrite app_nil_r|].
  change (each recorder (op :: ops) l) with (each recorder ops (l ++ [op])). by rewrite IH, <-app_assoc.
Qed.

Lemma CommitBlock_runs {W} (w : StateWriter W) e a s :
  exists s1, load_increases R iter s = Done ((), s1) /\
  runs w (CommitBlock R iter w e a) s (write_set iter e a s1) (write_set_after iter e a s1).
Proof.
  destruct (load_increases_returns s) as [s1 E]. exists s1. split; [done|].
  eapply runs_sdb; [exact E|]. by apply MakeWriteSet_runs.
Qed.

End Coherence.
