(* ===== verification/Wire.v ===== *)
(** * Wire integers ([utils/util.go])

    The protobuf messages [H128] ... [H2048] of [api/protocol/types_pb] and the
    conversions between them and addresses, hashes, keys, signatures and bloom
    filters, with their round trips.

    A field of message type is a pointer, nil in a message that leaves it out;
    reading through it panics.  Fixed-size byte arrays are byte lists. *)

From S2P Require Import Prelude.

Record H128 : Type := mkH128 { H128_Hi : Z; H128_Lo : Z }.
Record H160 : Type := mkH160 { H160_Hi : option H128; H160_Lo : Z }.
Record H256 : Type := mkH256 { H256_Hi : option H128; H256_Lo : option H128 }.
Record H384 : Type := mkH384 { H384_Hi : option H256; H384_Lo : option H128 }.
Record H512 : Type := mkH512 { H512_Hi : option H256; H512_Lo : option H256 }.
Record H768 : Type := mkH768 { H768_Hi : option H384; H768_Lo : option H384 }.
Record H1024 : Type := mkH1024 { H1024_Hi : option H512; H1024_Lo : option H512 }.
Record H2048 : Type := mkH2048 { H2048_Hi : option H1024; H2048_Lo : option H1024 }.

(** Following a pointer. *)
Definition deref {A} (p : option A) : outcome A :=
  match p with Some a => Done a | None => GoPanic end.

(** [binary.BigEndian.PutUint64], [PutUint32] and [Uint64], [Uint32] at an offset. *)
Definition put64 (x : Z) : bytes := Z_to_be 8 x.
Definition put32 (x : Z) : bytes := Z_to_be 4 x.
Definition get64 (b : bytes) (off : Z) : Z := be_to_Z (slice b off (off + 8)).
Definition get32 (b : bytes) (off : Z) : Z := be_to_Z (slice b off (off + 4)).

(** [limb z k] is the word [z[k]] of a [uint256.Int]. *)
Definition limb (z : Z) (k : Z) : Z := (z / two64 ^ k) mod two64.

Definition ConvertH256ToUint256Int (h256 : option H256) : outcome Z :=
  h256 ← deref h256;
  hi ← deref (H256_Hi h256);
  lo ← deref (H256_Lo h256);
  mret (H128_Hi hi * two64 ^ 3 + H128_Lo hi * two64 ^ 2 + H128_Hi lo * two64 + H128_Lo lo).

Definition ConvertUint256IntToH256 (i : Z) : H256 :=
  mkH256 (Some (mkH128 (limb i 3) (limb i 2))) (Some (mkH128 (limb i 1) (limb i 0))).

(** The 16 bytes of an [H128]. *)
Definition bytes128 (h : option H128) : outcome bytes :=
  h ← deref h; mret (put64 (H128_Hi h) ++ put64 (H128_Lo h)).

Definition ConvertH256ToHash (h256 : option H256) : outcome bytes :=
  h256 ← deref h256;
  hi ← bytes128 (H256_Hi h256);
  lo ← bytes128 (H256_Lo h256);
  mret (hi ++ lo).

Definition ConvertH512ToHash (h512 : option H512) : outcome bytes :=
  h512 ← deref h512;
  hi ← ConvertH256ToHash (H512_Hi h512);
  lo ← ConvertH256ToHash (H512_Lo h512);
  mret (hi ++ lo).

(** [H128{Lo: Uint64(b[off+8:]), Hi: Uint64(b[off:])}] *)
Definition h128_at (b : bytes) (off : Z) : option H128 :=
  Some (mkH128 (get64 b off) (get64 b (off + 8))).
Definition h256_at (b : bytes) (off : Z) : H256 := mkH256 (h128_at b off) (h128_at b (off + 16)).

Definition ConvertHashToH256 (hash : bytes) : H256 := h256_at hash 0.

Definition ConvertH160toAddress (h160 : option H160) : outcome bytes :=
  h160 ← deref h160;
  hi ← bytes128 (H160_Hi h160);
  mret (hi ++ put32 (H160_Lo h160)).

Definition ConvertAddressToH160 (addr : bytes) : H160 := mkH160 (h128_at addr 0) (get32 addr 16).

Definition ConvertH512ToBytes (h512 : option H512) : outcome bytes := ConvertH512ToHash h512.

Definition ConvertBytesToH512 (b : bytes) : H512 :=
  let b := if zlen b <? 64 then b ++ replicate (64 - length b) 0 else b in
  mkH512 (Some (h256_at b 0)) (Some (h256_at b 32)).

Definition ConvertHashToH512 (hash : bytes) : H512 := ConvertBytesToH512 hash.

Definition ConvertH384ToPublicKey (h384 : option H384) : outcome bytes :=
  h384 ← deref h384;
  hi ← ConvertH256ToHash (H384_Hi h384);
  lo ← bytes128 (H384_Lo h384);
  mret (hi ++ lo).

Definition ConvertPublicKeyToH384 (p : bytes) : H384 := mkH384 (Some (h256_at p 0)) (h128_at p 32).

Definition ConvertH768ToSignature (h768 : option H768) : outcome bytes :=
  h768 ← deref h768;
  hi ← ConvertH384ToPublicKey (H768_Hi h768);
  lo ← ConvertH384ToPublicKey (H768_Lo h768);
  mret (hi ++ lo).

Definition ConvertSignatureToH768 (p : bytes) : H768 :=
  mkH768 (Some (mkH384 (Some (h256_at p 0)) (h128_at p 32)))
         (Some (mkH384 (Some (h256_at p 48)) (h128_at p 80))).

Definition ConvertH2048ToBloom (h2048 : option H2048) : outcome bytes :=
  h ← deref h2048;
  hi ← deref (H2048_Hi h);
  a ← ConvertH512ToBytes (H1024_Hi hi);
  b ← ConvertH512ToBytes (H1024_Lo hi);
  lo ← deref (H2048_Lo h);
  c ← ConvertH512ToBytes (H1024_Hi lo);
  d ← ConvertH512ToBytes (H1024_Lo lo);
  mret (a ++ b ++ c ++ d).

(** [data[192:]] panics on shorter data. *)
Definition ConvertBytesToH2048 (data : bytes) : outcome H2048 :=
  if zlen data <? 192 then GoPanic else
  mret (mkH2048
    (Some (mkH1024 (Some (ConvertBytesToH512 data)) (Some (ConvertBytesToH512 (drop 64 data)))))
    (Some (mkH1024 (Some (ConvertBytesToH512 (drop 128 data))) (Some (ConvertBytesToH512 (drop 192 data)))))).

(** ** Round trips *)

Lemma slice_wf b lo hi : wf_bytes b -> wf_bytes (slice b lo hi).
Proof. intros H. unfold slice. by apply Forall_take, Forall_drop. Qed.

Lemma slice_app {A} (l : list A) x y z : 0 <= x <= y -> y <= z -> slice l x y ++ slice l y z = slice l x z.
Proof.
  intros H1 H2. unfold slice.
  replace (drop (Z.to_nat y) l) with (drop (Z.to_nat (y - x)) (drop (Z.to_nat x) l))
    by (rewrite drop_drop; f_equal; lia).
  replace (Z.to_nat (z - x)) with (Z.to_nat (y - x) + Z.to_nat (z - y))%nat by lia.
  by rewrite <- take_take_drop.
Qed.

Lemma slice_all {A} (l : list A) : slice l 0 (zlen l) = l.
Proof. unfold slice, zlen. rewrite Z.sub_0_r, Nat2Z.id. by apply take_ge. Qed.

Lemma slice_full {A} (l : list A) n : zlen l = n -> slice l 0 n = l.
Proof. intros <-. apply slice_all. Qed.

Lemma slice_slice_drop {A} (l : list A) n lo hi : 0 <= lo -> slice (drop n l) lo hi = slice l (Z.of_nat n + lo) (Z.of_nat n + hi).
Proof. intros H. unfold slice. rewrite drop_drop. f_equal; [lia|]. f_equal. lia. Qed.

Section RoundTrip.
Context (b : bytes) (Hb : wf_bytes b).

Lemma put64_get64 off : 0 <= off -> off + 8 <= zlen b -> put64 (get64 b off) = slice b off (off + 8).
Proof.
  intros H1 H2. unfold put64, get64. pose proof (slice_length b off (off + 8) ltac:(lia) ltac:(lia)) as Hl.
  replace 8%nat with (length (slice b off (off + 8))) by (unfold zlen in Hl; lia).
  by apply Z_to_be_be_to_Z, slice_wf.
Qed.

Lemma put32_get32 off : 0 <= off -> off + 4 <= zlen b -> put32 (get32 b off) = slice b off (off + 4).
Proof.
  intros H1 H2. unfold put32, get32. pose proof (slice_length b off (off + 4) ltac:(lia) ltac:(lia)) as Hl.
  replace 4%nat with (length (slice b off (off + 4))) by (unfold zlen in Hl; lia).
  by apply Z_to_be_be_to_Z, slice_wf.
Qed.

Lemma bytes128_at off : 0 <= off -> off + 16 <= zlen b -> bytes128 (h128_at b off) = Done (slice b off (off + 16)).
Proof.
  intros H1 H2. unfold bytes128, h128_at. cbn -[put64]. rewrite !put64_get64 by lia.
  replace (off + 8 + 8) with (off + 16) by lia. by rewrite slice_app by lia.
Qed.

Lemma bytes256_at off : 0 <= off -> off + 32 <= zlen b ->
  ConvertH256ToHash (Some (h256_at b off)) = Done (slice b off (off + 32)).
Proof.
  intros H1 H2. unfold ConvertH256ToHash, h256_at. cbn -[bytes128 h128_at]. rewrite !bytes128_at by lia. cbn.
  replace (off + 16 + 16) with (off + 32) by lia. by rewrite slice_app by lia.
Qed.

Lemma bytes512_at : 64 <= zlen b -> ConvertH512ToHash (Some (ConvertBytesToH512 b)) = Done (slice b 0 64).
Proof.
  intros H. unfold ConvertH512ToHash, ConvertBytesToH512. destruct (Z.ltb_spec (zlen b) 64); [lia|].
  cbn -[ConvertH256ToHash h256_at]. rewrite !bytes256_at by lia. cbn. by rewrite slice_app by lia.
Qed.

Lemma bytes384_at off off' : 0 <= off -> off + 48 <= zlen b -> off' = off + 32 ->
  ConvertH384ToPublicKey (Some (mkH384 (Some (h256_at b off)) (h128_at b off'))) = Done (slice b off (off + 48)).
Proof.
  intros H1 H2 ->. unfold ConvertH384ToPublicKey. cbn -[ConvertH256ToHash h256_at bytes128 h128_at].
  rewrite bytes256_at, bytes128_at by lia. cbn.
  replace (off + 32 + 16) with (off + 48) by lia. by rewrite slice_app by lia.
Qed.
End RoundTrip.

Lemma limbs z : 0 <= z < two256 ->
  limb z 3 * two64 ^ 3 + limb z 2 * two64 ^ 2 + limb z 1 * two64 + limb z 0 = z.
Proof.
  intros Hz. unfold limb. change (two64 ^ 0) with 1. change (two64 ^ 1) with two64.
  rewrite Z.div_1_r. change (two64 ^ 2) with (two64 * two64). change (two64 ^ 3) with (two64 * (two64 * two64)).
  rewrite <- !Z.div_div by lia.
  rewrite (Z.mod_small (z / two64 / two64 / two64) two64);
    [|split; [repeat apply Z.div_pos; lia|repeat (apply Z.div_lt_upper_bound; [lia|]); lia]].
  pose proof (Z.div_mod z two64). pose proof (Z.div_mod (z / two64) two64).
  pose proof (Z.div_mod (z / two64 / two64) two64). lia.
Qed.

Lemma uint256_roundtrip z : 0 <= z < two256 ->
  ConvertH256ToUint256Int (Some (ConvertUint256IntToH256 z)) = Done z.
Proof. intros Hz. unfold ConvertH256ToUint256Int, ConvertUint256IntToH256. cbn -[limb Z.pow Z.mul]. by rewrite limbs. Qed.

Lemma address_roundtrip b : wf_bytes b -> zlen b = 20 ->
  ConvertH160toAddress (Some (ConvertAddressToH160 b)) = Done b.
Proof.
  intros Hw H. unfold ConvertH160toAddress, ConvertAddressToH160. cbn -[bytes128 h128_at put32].
  rewrite bytes128_at, put32_get32 by (done || lia). cbn. rewrite slice_app by lia. change (16 + 4) with 20.
  f_equal. by apply slice_full.
Qed.

Lemma bloom_roundtrip b : wf_bytes b -> zlen b = 256 ->
  (h ← ConvertBytesToH2048 b; ConvertH2048ToBloom (Some h)) = Done b.
Proof.
  intros Hw H. unfold ConvertBytesToH2048. destruct (Z.ltb_spec (zlen b) 192); [lia|].
  unfold ConvertH2048ToBloom, ConvertH512ToBytes. cbn -[ConvertH512ToHash ConvertBytesToH512].
  assert (forall n, (n <= 192)%nat -> ConvertH512ToHash (Some (ConvertBytesToH512 (drop n b)))
    = Done (slice b (Z.of_nat n) (Z.of_nat n + 64))) as E.
  { intros n Hn. rewrite bytes512_at; [|by apply Forall_drop|zlen_lia].
    rewrite slice_slice_drop by lia. by rewrite Z.add_0_r. }
  pose proof (E 0%nat ltac:(lia)) as E0. rewrite drop_0 in E0. rewrite E0, !E by lia. cbn.
  rewrite !slice_app by lia. f_equal. etransitivity; [|apply slice_all]. f_equal; lia.
Qed.

(** ** Properties *)

(** Addresses, hashes, public keys, 64-byte hashes, signatures, bloom filters and 256-bit integers
    survive the conversion to the wire format and back. *)
Theorem wire_roundtrip b : wf_bytes b ->
  (zlen b = 20 -> ConvertH160toAddress (Some (ConvertAddressToH160 b)) = Done b) /\
  (zlen b = 32 -> ConvertH256ToHash (Some (ConvertHashToH256 b)) = Done b) /\
  (zlen b = 48 -> ConvertH384ToPublicKey (Some (ConvertPublicKeyToH384 b)) = Done b) /\
  (zlen b = 64 -> ConvertH512ToHash (Some (ConvertHashToH512 b)) = Done b) /\
  (zlen b = 96 -> ConvertH768ToSignature (Some (ConvertSignatureToH768 b)) = Done b) /\
  (zlen b = 256 -> (h ← ConvertBytesToH2048 b; ConvertH2048ToBloom (Some h)) = Done b) /\
  (forall z, 0 <= z < two256 -> ConvertH256ToUint256Int (Some (ConvertUint256IntToH256 z)) = Done z).
Proof.
  intros Hw. split_and!; [by apply address_roundtrip|intros H..|by apply bloom_roundtrip|apply uint256_roundtrip].
  - unfold ConvertHashToH256. rewrite bytes256_at by (done || lia). f_equal. by apply slice_full.
  - unfold ConvertPublicKeyToH384. rewrite (bytes384_at b Hw 0 32) by lia. f_equal. by apply slice_full.
  - unfold ConvertHashToH512. rewrite bytes512_at by (done || lia). f_equal. by apply slice_full.
  - unfold ConvertH768ToSignature, ConvertSignatureToH768. cbn -[ConvertH384ToPublicKey h256_at h128_at].
    rewrite (bytes384_at b Hw 0 32), (bytes384_at b Hw 48 80) by lia. cbn. rewrite slice_app by lia.
    f_equal. by apply slice_full.
Qed.

(** ** Witness *)

Lemma wire_roundtrip_witness :
  ConvertH160toAddress (Some (ConvertAddressToH160 (Z_to_be 20 123456789))) = Done (Z_to_be 20 123456789).
Proof.
  destruct (wire_roundtrip (Z_to_be 20 123456789) (Z_to_be_wf _ _)) as [H _]. apply H. reflexivity.
Defined.
