(* ===== verification/PlainState.v ===== *)
(** * The plain state: accounts, storage and code in the database

    [common/account/state_account.go] (the storage encoding of an account),
    [modules/state/plain_state_reader.go], [plain_state_writer.go] and
    [change_set_writer.go] with [originalAccountData] of [db_state_writer.go]: the reader and
    the writer the block processor gives to the intra-block state.

    The key-value store and the protobuf runtime are third-party packages: the
    classes [KV] and [AccountProto] list what the code calls, [KVLaws] and
    [AccountProtoLaws] what they document. *)

From S2P Require Import Prelude Uint256 Params Common AccessList Wire StateTypes State Finalise.

(** ** The key-value store ([kv.Getter], [kv.Putter], [kv.Deleter]) *)

Class KV (T : Type) : Type := {
  GetOne : T -> string -> bytes -> option bytes * option error;
  Put : string -> bytes -> bytes -> T -> option error * T;
  Delete : string -> bytes -> T -> option error * T
}.

(** A call that returned no error changed the entry it names and no other. *)
Class KVLaws {T} (D : KV T) : Prop := {
  Put_spec db db' t k v t' k' : Put t k v db = (None, db') ->
    GetOne db' t' k' = if decide ((t', k') = (t, k)) then (Some v, None) else GetOne db t' k';
  Delete_spec db db' t k t' k' : Delete t k db = (None, db') ->
    GetOne db' t' k' = if decide ((t', k') = (t, k)) then (None, None) else GetOne db t' k'
}.

Module modules.
Definition Code : string := "Code".
Definition Account : string := "Account".
Definition Storage : string := "Storage".
Definition PlainContractCode : string := "PlainCodeHash".
Definition IncarnationMap : string := "IncarnationMap".
End modules.

(** [modules.PlainGenerateStoragePrefix]: the address and eight bytes, of which the
    incarnation fills the first two. *)
Definition PlainGenerateStoragePrefix (address incarnation : Z) : bytes :=
  Z_to_be 20 address ++ Z_to_be 2 incarnation ++ repeat 0 6.

(** ** The storage encoding of an account *)

(** [state.Account] of [api/protocol/state]. *)
Record pbAccount : Type := mkPbAccount {
  pb_Initialised : bool;
  pb_Nonce : Z;
  pb_Balance : option H256;
  pb_Root : option H256;
  pb_CodeHash : option H256;
  pb_Incarnation : Z
}.

Class AccountProto : Type := {
  Marshal : pbAccount -> bytes;
  Unmarshal : bytes -> pbAccount + error
}.

Definition wf_H128 (h : H128) : Prop := 0 <= H128_Hi h < two64 /\ 0 <= H128_Lo h < two64.
Definition wf_H256 (h : H256) : Prop :=
  (exists hi, H256_Hi h = Some hi /\ wf_H128 hi) /\ (exists lo, H256_Lo h = Some lo /\ wf_H128 lo).

(** A message whose fields have the values of their Go types and are all present. *)
Definition wf_pbAccount (p : pbAccount) : Prop :=
  0 <= pb_Nonce p < two64 /\ 0 <= pb_Incarnation p < two64 /\
  Forall (fun h => exists x, h = Some x /\ wf_H256 x) [pb_Balance p; pb_Root p; pb_CodeHash p].

(** Parsing inverts serialising, and a message with a field set is not serialised to
    the empty string. *)
Class AccountProtoLaws (P : AccountProto) : Prop := {
  Unmarshal_Marshal p : wf_pbAccount p -> Unmarshal (Marshal p) = inl p;
  Marshal_nonempty p : wf_pbAccount p -> Marshal p <> []
}.

Section Account.
Context {C : Crypto} {P : AccountProto}.

(** [emptyRoot] and [emptyCodeHash] are both the hash of the empty string. *)
Definition NewAccount : StateAccount := mkStateAccount false 0 0 (Keccak256 []) (Keccak256 []) 0.

Definition Reset_account (a : StateAccount) : StateAccount :=
  mkStateAccount true 0 0 (Keccak256 []) (Keccak256 []) 0.

Definition SelfCopy (a : StateAccount) : StateAccount := Copy_account a.

Definition IsEmptyCodeHash (codeHash : Z) : bool := (codeHash =? Keccak256 []) || (codeHash =? 0).

Definition account_ToProtoMessage (a : StateAccount) : pbAccount :=
  mkPbAccount (Initialised a) (Nonce a)
    (Some (ConvertUint256IntToH256 (Balance a)))
    (Some (ConvertHashToH256 (Z_to_be 32 (Root a))))
    (Some (ConvertHashToH256 (Z_to_be 32 (CodeHash a))))
    (Incarnation a).

(** The fields of [pAccount] into [a]; a missing field is a nil pointer. *)
Definition account_FromProtoMessage (pAccount : pbAccount) : outcome StateAccount :=
  balance ← ConvertH256ToUint256Int (pb_Balance pAccount);
  root ← ConvertH256ToHash (pb_Root pAccount);
  codeHash ← ConvertH256ToHash (pb_CodeHash pAccount);
  mret (mkStateAccount (pb_Initialised pAccount) (pb_Nonce pAccount) balance
          (be_to_Z root) (be_to_Z codeHash) (u16 (pb_Incarnation pAccount))).

Definition account_Unmarshal (v : bytes) : outcome (StateAccount + error) :=
  match Unmarshal v with
  | inr err => mret (inr err)
  | inl pAccount => a ← account_FromProtoMessage pAccount; mret (inl a)
  end.

Definition account_Marshal (a : StateAccount) : bytes := Marshal (account_ToProtoMessage a).

Definition EncodingLengthForStorage (a : StateAccount) : Z := zlen (account_Marshal a).

(** [copy(buffer, data)]. *)
Definition account_EncodeForStorage (a : StateAccount) (buffer : bytes) : bytes :=
  let data := account_Marshal a in
  take (length buffer) data ++ drop (length data) buffer.

Definition DecodeForStorage (a : StateAccount) (enc : bytes) : outcome (StateAccount + error) :=
  if zlen enc =? 0 then mret (inl (Reset_account a)) else account_Unmarshal enc.

Definition originalAccountData (original : StateAccount) (omitHashes : bool) : bytes :=
  if negb (Initialised original) then []
  else if omitHashes then
    let testAcc := set_Root (Keccak256 []) (set_CodeHash (Keccak256 []) (SelfCopy original)) in
    account_EncodeForStorage testAcc (repeat 0 (Z.to_nat (EncodingLengthForStorage testAcc)))
  else account_EncodeForStorage original (repeat 0 (Z.to_nat (EncodingLengthForStorage original))).

End Account.

(** ** [PlainStateReader] *)

Section Reader.
Context {C : Crypto} {P : AccountProto} {T : Type} {D : KV T}.

Definition plain_ReadAccountData (db : T) (address : Z) : outcome (option StateAccount * option error) :=
  let '(enc, err) := GetOne db modules.Account (Z_to_be 20 address) in
  match err with
  | Some err => mret (None, Some err)
  | None =>
      let enc := default [] enc in
      if zlen enc =? 0 then mret (None, None) else
      a ← DecodeForStorage zero_account enc;
      match a with
      | inr err => mret (None, Some err)
      | inl a => mret (Some a, None)
      end
  end.

Definition plain_ReadAccountStorage (db : T) (address incarnation key : Z) : option bytes * option error :=
  let compositeKey := PlainGenerateCompositeStorageKey address incarnation key in
  let '(enc, err) := GetOne db modules.Storage compositeKey in
  match err with
  | Some err => (None, Some err)
  | None => if zlen (default [] enc) =? 0 then (None, None) else (enc, None)
  end.

Definition plain_ReadAccountCode (db : T) (address incarnation codeHash : Z) : option bytes * option error :=
  if codeHash =? emptyCodeHash then (None, None) else
  let '(code, err) := GetOne db modules.Code (Z_to_be 32 codeHash) in
  if zlen (default [] code) =? 0 then (None, None) else (code, err).

Definition plain_ReadAccountCodeSize (db : T) (address incarnation codeHash : Z) : Z * option error :=
  let '(code, err) := plain_ReadAccountCode db address incarnation codeHash in
  (zlen (default [] code), err).

(** [binary.BigEndian.Uint16] panics on fewer than two bytes. *)
Definition plain_ReadAccountIncarnation (db : T) (address : Z) : outcome (Z * option error) :=
  let '(b, err) := GetOne db modules.IncarnationMap (Z_to_be 20 address) in
  match err with
  | Some err => mret (0, Some err)
  | None =>
      let b := default [] b in
      if zlen b =? 0 then mret (0, None)
      else if zlen b <? 2 then GoPanic
      else mret (be_to_Z (take 2 b), None)
  end.

(** [R] answers at the address [a] as a [PlainStateReader] of [db] does. *)
Definition plain_reader (db : T) (R : StateReader) (a : Z) : Prop :=
  plain_ReadAccountData db a = Done (ReadAccountData R a) /\
  (forall i k, plain_ReadAccountStorage db a i k = ReadAccountStorage R a i k) /\
  (forall i h, plain_ReadAccountCode db a i h = ReadAccountCode R a i h) /\
  (forall i h, plain_ReadAccountCodeSize db a i h = ReadAccountCodeSize R a i h) /\
  plain_ReadAccountIncarnation db a = Done (ReadAccountIncarnation R a).

End Reader.

(** ** [ChangeSetWriter] *)

Record ChangeSetWriter : Type := mkChangeSetWriter {
  accountChanges : gmap Z bytes;
  storageChanged : gmap Z bool;
  storageChanges : gmap bytes bytes;
  csw_blockNumber : Z
}.

Definition NewChangeSetWriterPlain (blockNumber : Z) : ChangeSetWriter := mkChangeSetWriter ∅ ∅ ∅ blockNumber.

Section ChangeSets.
Context {U : Uint256} {C : Crypto} {P : AccountProto}.

Definition accountsEqual (a1 a2 : StateAccount) : bool :=
  if negb (Nonce a1 =? Nonce a2) then false else
  if (if negb (Initialised a1) then Initialised a2
      else if negb (Initialised a2) then true
      else negb (uint256.Eq (Balance a1) (Balance a2))) then false else
  if (if IsEmptyCodeHash (CodeHash a1) then negb (IsEmptyCodeHash (CodeHash a2))
      else if IsEmptyCodeHash (CodeHash a2) then true
      else negb (CodeHash a1 =? CodeHash a2)) then false else
  true.

Definition csw_UpdateAccountData (address : Z) (original account : StateAccount) (w : ChangeSetWriter) : ChangeSetWriter :=
  if negb (accountsEqual original account) || default false (storageChanged w !! address) then
    mkChangeSetWriter (<[address := originalAccountData original true]> (accountChanges w))
      (storageChanged w) (storageChanges w) (csw_blockNumber w)
  else w.

Definition csw_DeleteAccount (address : Z) (original : StateAccount) (w : ChangeSetWriter) : ChangeSetWriter :=
  if negb (Initialised original) then w else
  mkChangeSetWriter (<[address := originalAccountData original false]> (accountChanges w))
    (storageChanged w) (storageChanges w) (csw_blockNumber w).

Definition csw_WriteAccountStorage (address incarnation key original value : Z) (w : ChangeSetWriter) : ChangeSetWriter :=
  if original =? value then w else
  let compositeKey := PlainGenerateCompositeStorageKey address incarnation key in
  mkChangeSetWriter (accountChanges w) (<[address := true]> (storageChanged w))
    (<[compositeKey := uint256.Bytes original]> (storageChanges w)) (csw_blockNumber w).

(** The methods return nil always; [UpdateAccountCode] and [CreateContract] do nothing else. *)
Definition csw_op (op : WriteOp) (w : ChangeSetWriter) : ChangeSetWriter :=
  match op with
  | UpdateAccountData address original account => csw_UpdateAccountData address original account w
  | UpdateAccountCode _ _ _ _ => w
  | DeleteAccount address original => csw_DeleteAccount address original w
  | WriteAccountStorage address incarnation key original value =>
      csw_WriteAccountStorage address incarnation key original value w
  | CreateContract _ => w
  end.

End ChangeSets.

(** ** [PlainStateWriter] *)

Record PlainStateWriter (T : Type) : Type := mkPlainStateWriter { psw_db : T; psw_csw : option ChangeSetWriter }.
Arguments mkPlainStateWriter {T}.
Arguments psw_db {T}.
Arguments psw_csw {T}.

Section Writer.
Context {U : Uint256} {C : Crypto} {P : AccountProto} {T : Type} {D : KV T}.
Notation MP := (M (PlainStateWriter T)).

Definition NewPlainStateWriter (db : T) (blockNumber : Z) : PlainStateWriter T :=
  mkPlainStateWriter db (Some (NewChangeSetWriterPlain blockNumber)).
Definition NewPlainStateWriterNoHistory (db : T) : PlainStateWriter T := mkPlainStateWriter db None.

(** A call on [w.db]. *)
Definition on_db (f : T -> option error * T) : MP (option error) :=
  fun w => let '(err, db) := f (psw_db w) in Done (err, mkPlainStateWriter db (psw_csw w)).

(** [if w.csw != nil { ... }] *)
Definition on_csw (op : WriteOp) : MP () :=
  modify (fun w => mkPlainStateWriter (psw_db w) (csw_op op <$> psw_csw w)).

Definition psw_UpdateAccountData (address : Z) (original account : StateAccount) : MP (option error) :=
  _ ← on_csw (UpdateAccountData address original account);
  on_db (Put modules.Account (Z_to_be 20 address) (account_Marshal account)).

Definition psw_UpdateAccountCode (address incarnation codeHash : Z) (code : bytes) : MP (option error) :=
  _ ← on_csw (UpdateAccountCode address incarnation codeHash code);
  then_ (on_db (Put modules.Code (Z_to_be 32 codeHash) code))
    (on_db (Put modules.PlainContractCode (PlainGenerateStoragePrefix address incarnation) (Z_to_be 32 codeHash))).

Definition psw_DeleteAccount (address : Z) (original : StateAccount) : MP (option error) :=
  _ ← on_csw (DeleteAccount address original);
  then_ (on_db (Delete modules.Account (Z_to_be 20 address)))
    (if 0 <? Incarnation original
     then on_db (Put modules.IncarnationMap (Z_to_be 20 address) (Z_to_be 2 (Incarnation original) ++ repeat 0 6))
     else mret None).

Definition psw_WriteAccountStorage (address incarnation key original value : Z) : MP (option error) :=
  _ ← on_csw (WriteAccountStorage address incarnation key original value);
  if original =? value then mret None else
  let compositeKey := PlainGenerateCompositeStorageKey address incarnation key in
  let v := uint256.Bytes value in
  if zlen v =? 0 then on_db (Delete modules.Storage compositeKey)
  else on_db (Put modules.Storage compositeKey v).

Definition psw_CreateContract (address : Z) : MP (option error) :=
  _ ← on_csw (CreateContract address); mret None.

Definition plain_writer : StateWriter (PlainStateWriter T) := fun op =>
  match op with
  | UpdateAccountData address original account => psw_UpdateAccountData address original account
  | UpdateAccountCode address incarnation codeHash code => psw_UpdateAccountCode address incarnation codeHash code
  | DeleteAccount address original => psw_DeleteAccount address original
  | WriteAccountStorage address incarnation key original value =>
      psw_WriteAccountStorage address incarnation key original value
  | CreateContract address => psw_CreateContract address
  end.

End Writer.
