(* ===== verification/PlainTheorems.v ===== *)
(** * What a committed block reads back

    The accounts, storage slots and code a [PlainStateWriter] receives from
    [MakeWriteSet] are what a [PlainStateReader] of the resulting database finds, and
    what a fresh [IntraBlockState] over it answers. *)

From S2P Require Import Prelude Uint256 Params Common AccessList Wire StateTypes State Finalise FinaliseTheorems StateTyping PlainState.

(** ** The last of a sequence of writes to a database entry *)

Notation entry := (string * bytes)%type.

Fixpoint last_put (e : entry) (l : list (entry * option bytes)) : option (option bytes) :=
  match l with
  | [] => None
  | (e', v) :: l =>
      match last_put e l with
      | Some v => Some v
      | None => if decide (e = e') then Some v else None
      end
  end.

Lemma last_put_app e l k :
  last_put e (l ++ k) = match last_put e k with Some v => Some v | None => last_put e l end.
Proof.
  induction l as [|[e' v] l IH]; cbn; [by destruct (last_put e k)|].
  rewrite IH. by destruct (last_put e k).
Qed.

Lemma last_put_none e l : (forall v, (e, v) ∉ l) -> last_put e l = None.
Proof.
  induction l as [|[e' v] l IH]; intros H; cbn; [done|].
  rewrite IH by (intros v' Hv'; apply (H v'); by right).
  rewrite decide_False; [done|]. intros <-. apply (H v). by left.
Qed.

Lemma last_put_in e l v : last_put e l = Some v -> (e, v) ∈ l.
Proof.
  induction l as [|[e' v'] l IH]; cbn; [done|].
  destruct (last_put e l); [intros [= ->]; right; by apply IH|].
  case_decide; [|done]. intros [= ->]. subst. by left.
Qed.

Lemma last_put_some e l v : (e, v) ∈ l -> exists v', last_put e l = Some v'.
Proof.
  induction l as [|[e' v'] l IH]; [by intros ?%elem_of_nil|]. intros [E|H]%elem_of_cons; cbn.
  - injection E as <- <-. rewrite decide_True by done. destruct (last_put e l); eauto.
  - destruct (IH H) as [v'' ->]. eauto.
Qed.

(** The entries of distinct groups do not meet. *)
Lemma last_put_flat_map {A} (f : A -> list (entry * option bytes)) (x : A) l e :
  NoDup l -> x ∈ l -> (forall y, y ∈ l -> y <> x -> last_put e (f y) = None) ->
  last_put e (flat_map f l) = last_put e (f x).
Proof.
  induction l as [|y l IH]; intros Hnd Hx Hy; [by apply elem_of_nil in Hx|].
  apply list.NoDup_cons in Hnd as [Hn Hnd]. cbn. rewrite last_put_app.
  apply elem_of_cons in Hx as [->|Hx].
  - replace (last_put e (flat_map f l)) with (None (A := option bytes)); [done|].
    symmetry. clear IH Hnd. induction l as [|z l IH]; [done|]. cbn. rewrite last_put_app, IH.
    + apply Hy; [by right; left|]. intros ->. apply Hn. by left.
    + intros H. apply Hn. by right.
    + intros z' Hz. apply Hy. set_solver.
  - rewrite IH; [|done|done|intros z Hz; apply Hy; by right].
    rewrite (Hy y); [by destruct (last_put e (f x))|by left|]. intros ->. done.
Qed.

Lemma last_put_flat_map_none {A} (f : A -> list (entry * option bytes)) l e :
  (forall y, y ∈ l -> last_put e (f y) = None) -> last_put e (flat_map f l) = None.
Proof.
  induction l as [|y l IH]; intros Hy; [done|]. cbn. rewrite last_put_app, IH.
  - apply Hy. by left.
  - intros z Hz. apply Hy. by right.
Qed.

(** ** The database after a sequence of calls *)

Section Puts.
Context {U : Uint256} {C : Crypto} {P : AccountProto} {T : Type} {D : KV T} {DL : KVLaws D}.

Definition op_puts (op : WriteOp) : list (entry * option bytes) :=
  match op with
  | UpdateAccountData a _ acc => [((modules.Account, Z_to_be 20 a), Some (account_Marshal acc))]
  | UpdateAccountCode a i h c =>
      [((modules.Code, Z_to_be 32 h), Some c);
       ((modules.PlainContractCode, PlainGenerateStoragePrefix a i), Some (Z_to_be 32 h))]
  | DeleteAccount a o =>
      ((modules.Account, Z_to_be 20 a), None) ::
      (if 0 <? Incarnation o
       then [((modules.IncarnationMap, Z_to_be 20 a), Some (Z_to_be 2 (Incarnation o) ++ repeat 0 6))] else [])
  | WriteAccountStorage a i k o v =>
      if o =? v then [] else
      [((modules.Storage, PlainGenerateCompositeStorageKey a i k),
        if zlen (uint256.Bytes v) =? 0 then None else Some (uint256.Bytes v))]
  | CreateContract _ => []
  end.

Definition after_puts (db : T) (l : list (entry * option bytes)) (t : string) (k : bytes) : option bytes * option error :=
  match last_put (t, k) l with Some v => (v, None) | None => GetOne db t k end.

Definition holds (db db' : T) (l : list (entry * option bytes)) : Prop :=
  forall t k, GetOne db' t k = after_puts db l t k.

Lemma holds_nil db : holds db db [].
Proof. by intros t k. Qed.

Lemma holds_app db db1 db2 l k : holds db db1 l -> holds db1 db2 k -> holds db db2 (l ++ k).
Proof.
  intros H1 H2 t q. rewrite H2. unfold after_puts. rewrite last_put_app.
  destruct (last_put (t, q) k); [done|]. apply H1.
Qed.

Lemma holds_put db db' t k v : Put t k v db = (None, db') -> holds db db' [((t, k), Some v)].
Proof. intros H t' k'. rewrite (Put_spec _ _ _ _ _ _ _ H). unfold after_puts. cbn. by case_decide. Qed.

Lemma holds_delete db db' t k : Delete t k db = (None, db') -> holds db db' [((t, k), None)].
Proof. intros H t' k'. rewrite (Delete_spec _ _ _ _ _ _ H). unfold after_puts. cbn. by case_decide. Qed.

Lemma on_db_holds f (w w' : PlainStateWriter T) l :
  on_db f w = Done (None, w') -> (forall db db', f db = (None, db') -> holds db db' l) ->
  holds (psw_db w) (psw_db w') l.
Proof.
  unfold on_db. intros Hf Hl. destruct (f (psw_db w)) as [err db'] eqn:E. injection Hf as -> <-. by apply Hl.
Qed.

(** A sequence of two calls that both succeed. *)
Lemma then_Done {S} (m k : M S (option error)) s s' :
  then_ m k s = Done (None, s') -> exists s1, m s = Done (None, s1) /\ k s1 = Done (None, s').
Proof.
  unfold then_, mbind, M_bind. destruct (m s) as [[[err|] s1]| |]; [done| |done..]. by eauto.
Qed.

Lemma plain_writer_holds op (w w' : PlainStateWriter T) :
  plain_writer op w = Done (None, w') -> holds (psw_db w) (psw_db w') (op_puts op).
Proof.
  destruct op; cbn [plain_writer op_puts]; intros H;
  unfold psw_UpdateAccountData, psw_UpdateAccountCode, psw_DeleteAccount, psw_WriteAccountStorage,
    psw_CreateContract, on_csw in H; go_inv.
  - eapply (on_db_holds _ _ _ _ Hk). intros ? ?. apply holds_put.
  - apply then_Done in Hk as (w1 & H1 & H2).
    apply (holds_app _ (psw_db w1) _ [_] [_]).
    + apply (on_db_holds _ _ _ _ H1). intros ? ?. apply holds_put.
    + apply (on_db_holds _ _ _ _ H2). intros ? ?. apply holds_put.
  - apply then_Done in Hk as (w1 & H1 & H2). apply (holds_app _ (psw_db w1) _ [_]).
    + apply (on_db_holds _ _ _ _ H1). intros ? ?. apply holds_delete.
    + destruct (0 <? _).
      * apply (on_db_holds _ _ _ _ H2). intros ? ?. apply holds_put.
      * go_inv. simplify_eq. apply holds_nil.
  - destruct (_ =? _); [go_inv; simplify_eq; apply holds_nil|].
    destruct (zlen _ =? 0); apply (on_db_holds _ _ _ _ Hk); intros ? ?; [apply holds_delete|apply holds_put].
  - simplify_eq. apply holds_nil.
Qed.

Lemma plain_writes_hold ops (w w' : PlainStateWriter T) :
  each plain_writer ops w = Done (None, w') -> holds (psw_db w) (psw_db w') (flat_map op_puts ops).
Proof.
  revert w; induction ops as [|op ops IH]; intros w H; cbn in *.
  - go_inv. simplify_eq. apply holds_nil.
  - apply then_Done in H as (w1 & H1 & H2). eapply holds_app; [by apply plain_writer_holds|by apply IH].
Qed.

(** The writer always returns. *)
Definition answers {S} (m : M S (option error)) : Prop := forall s, exists err s', m s = Done (err, s').

Lemma answers_ret {S} err : answers (S := S) (mret err).
Proof. intros s. by eexists _, _. Qed.

Lemma answers_on_db f : answers (on_db (T := T) f).
Proof. intros w. unfold on_db. destruct (f (psw_db w)). by eexists _, _. Qed.

Lemma answers_then {S} (m k : M S (option error)) : answers m -> answers k -> answers (then_ m k).
Proof.
  intros Hm Hk s. unfold then_, mbind, M_bind.
  destruct (Hm s) as ([err|] & s' & ->); [by eexists _, _|apply Hk].
Qed.

Lemma answers_csw op (k : () -> M (PlainStateWriter T) (option error)) :
  (forall u, answers (k u)) -> answers (on_csw op ≫= k).
Proof. intros Hk w. apply Hk. Qed.

Lemma plain_writer_returns op : answers (plain_writer (T := T) op).
Proof.
  destruct op; apply answers_csw; intros _;
    repeat first [apply answers_on_db | apply answers_ret | apply answers_then | progress cbn beta zeta | case_match].
Qed.

Lemma plain_writes_return ops (w : PlainStateWriter T) : exists err w', each plain_writer ops w = Done (err, w').
Proof.
  revert w; induction ops as [|op ops IH]; intros w; cbn; [by eexists _, _|].
  unfold then_, mbind, M_bind. destruct (plain_writer_returns op w) as ([err|] & w1 & ->); [by eexists _, _|].
  apply IH.
Qed.
End Puts.

(** ** Encodings *)

Lemma composite_key_inj a i k a' i' k' :
  0 <= a < two160 -> 0 <= a' < two160 -> 0 <= i < two16 -> 0 <= i' < two16 -> word k -> word k' ->
  PlainGenerateCompositeStorageKey a i k = PlainGenerateCompositeStorageKey a' i' k' ->
  a = a' /\ i = i' /\ k = k'.
Proof.
  intros ? ? ? ? ? ? E. unfold PlainGenerateCompositeStorageKey in E.
  apply app_inj_1 in E as [E1 E]; [|by rewrite !Z_to_be_length].
  apply app_inj_1 in E as [E2 E3]; [|by rewrite !Z_to_be_length].
  by apply Z_to_be_inj in E1, E2, E3.
Qed.

Section Codec.
Context {C : Crypto} {P : AccountProto} {PL : AccountProtoLaws P}.

Lemma limb_range z k : 0 <= limb z k < two64.
Proof. apply Z.mod_pos_bound. lia. Qed.

Lemma get64_range b off : wf_bytes b -> 0 <= get64 b off < two64.
Proof.
  intros H. unfold get64. assert (Hs : wf_bytes (slice b off (off + 8))) by by apply slice_wf.
  pose proof (be_to_Z_range _ Hs) as [H0 H1]. split; [done|]. eapply Z.lt_le_trans; [done|].
  change two64 with (256 ^ 8). apply Z.pow_le_mono_r; [lia|]. unfold slice, zlen. rewrite length_take. lia.
Qed.

Lemma wf_ToProtoMessage a : wf_account a -> wf_pbAccount (account_ToProtoMessage a).
Proof.
  intros (Hn & Hb & Hr & Hc & Hi). split_and!; cbn; [lia|lia|lia|change two16 with 65536 in *; lia|].
  assert (Hh : forall h, exists x, Some (ConvertHashToH256 (Z_to_be 32 h)) = Some x /\ wf_H256 x).
  { intros h. eexists. split; [done|]. split; (eexists; split; [done|]); split; apply get64_range, Z_to_be_wf. }
  apply Forall_cons_2; [|apply Forall_cons_2; [apply Hh|apply Forall_cons_2; [apply Hh|by apply Forall_nil_2]]].
  eexists. split; [done|]. split; (eexists; split; [done|]); split; apply limb_range.
Qed.

Lemma hash_roundtrip h : word h -> ConvertH256ToHash (Some (ConvertHashToH256 (Z_to_be 32 h))) = Done (Z_to_be 32 h).
Proof.
  intros H. unfold ConvertHashToH256. rewrite bytes256_at.
  - done.
  - apply Z_to_be_wf.
  - lia.
  - unfold zlen. rewrite Z_to_be_length. lia.
Qed.

Lemma DecodeForStorage_Marshal a b : wf_account a -> DecodeForStorage b (account_Marshal a) = Done (inl a).
Proof.
  intros H. pose proof (wf_ToProtoMessage _ H) as Hp. destruct H as (Hn & Hb & Hr & Hc & Hi).
  unfold DecodeForStorage, account_Marshal. destruct (Z.eqb_spec (zlen (Marshal (account_ToProtoMessage a))) 0) as [E|_].
  { exfalso. apply (Marshal_nonempty _ Hp). apply length_zero_iff_nil. unfold zlen in E. lia. }
  unfold account_Unmarshal. rewrite Unmarshal_Marshal by done. unfold account_FromProtoMessage. cbn [pb_Balance pb_Root pb_CodeHash account_ToProtoMessage].
  rewrite uint256_roundtrip by done. cbn [mbind outcome_bind]. rewrite !hash_roundtrip by done.
  cbn -[Z_to_be be_to_Z u16]. rewrite !be_to_Z_to_be, !Z.mod_small by done. unfold u16. rewrite Z.mod_small by done. by destruct a.
Qed.
End Codec.
