(* ===== verification/Commit.v ===== *)
(** * Committing a block and reading it back

    [CommitBlock] with a [PlainStateWriter], then a fresh [IntraBlockState] over a
    [PlainStateReader] of the same database. *)

From S2P Require Import Prelude Uint256 Params Common AccessList Wire StateTypes State StateRollback StateSnapshots StateTheorems Finalise FinaliseTheorems StateTyping PlainState PlainTheorems.

Definition op_address (op : WriteOp) : Z :=
  match op with
  | UpdateAccountData a _ _ | UpdateAccountCode a _ _ _ | DeleteAccount a _
  | WriteAccountStorage a _ _ _ _ | CreateContract a => a
  end.

Section ObjectPuts.
Context {U : Uint256} {C : Crypto} {P : AccountProto}.
Context (iter : forall A : Type, list A -> list A) (iter_perm : forall A (l : list A), iter A l ≡ₚ l).
Context (e a : bool).

Definition object_puts (addr : Z) (so : stateObject) (d : bool) : list (entry * option bytes) :=
  flat_map op_puts (object_ops iter e a addr so d).

Lemma object_ops_address addr so d op : address so = addr -> op ∈ object_ops iter e a addr so d -> op_address op = addr.
Proof.
  intros Ha. unfold object_ops, write_ops. intros H.
  repeat first [apply elem_of_app in H as [H|H] | case_match]; try (by apply elem_of_nil in H);
    try (apply list_elem_of_singleton in H; by subst).
  apply list_elem_of_fmap in H as (kv & -> & _). done.
Qed.

(** Which entries a call changes. *)
Ltac put_inv H :=
  repeat match type of H with
  | _ ∈ [] => apply elem_of_nil in H; destruct H
  | _ ∈ _ :: _ => apply elem_of_cons in H as [H|H]; [try discriminate H|]
  | _ ∈ (if ?b then _ else _) => destruct b eqn:?
  end.

Lemma op_puts_account op k v : ((modules.Account, k), v) ∈ op_puts op -> k = Z_to_be 20 (op_address op).
Proof. intros H. destruct op; cbn [op_puts] in H; put_inv H; by injection H. Qed.

Lemma op_puts_storage op k v : ((modules.Storage, k), v) ∈ op_puts op ->
  exists inc key o x, op = WriteAccountStorage (op_address op) inc key o x /\
    k = PlainGenerateCompositeStorageKey (op_address op) inc key /\ o <> x /\
    v = if zlen (uint256.Bytes x) =? 0 then None else Some (uint256.Bytes x).
Proof.
  intros H. destruct op; cbn [op_puts] in H; put_inv H. injection H as -> ->. apply Z.eqb_neq in Heqb. by exists incarnation, key, original, value.
Qed.

Lemma op_puts_code op k v : ((modules.Code, k), v) ∈ op_puts op ->
  exists inc h c, op = UpdateAccountCode (op_address op) inc h c /\ k = Z_to_be 32 h /\ v = Some c.
Proof. intros H. destruct op; cbn [op_puts] in H; put_inv H. injection H as -> ->. by exists incarnation, codeHash, code. Qed.

Lemma object_puts_in addr so d ent v : (ent, v) ∈ object_puts addr so d ->
  exists op, op ∈ object_ops iter e a addr so d /\ (ent, v) ∈ op_puts op.
Proof. unfold object_puts. intros (op & H1 & H2)%list_elem_of_In%in_flat_map. exists op. by rewrite !list_elem_of_In. Qed.

Lemma object_account addr so d :
  last_put (modules.Account, Z_to_be 20 addr) (object_puts addr so d) =
  if rewritten e a addr so d then Some (Some (account_Marshal (data so)))
  else if removed e a addr so d then Some None else None.
Proof.
  unfold object_puts, object_ops. rewrite flat_map_app, last_put_app.
  destruct (rewritten e a addr so d).
  - unfold write_ops. rewrite !flat_map_app, !last_put_app. cbn [flat_map op_puts app last_put].
    by rewrite decide_True by done.
  - destruct (removed e a addr so d); [|done]. cbn [flat_map op_puts app last_put].
    destruct (0 <? _); cbn [app last_put].
    + rewrite decide_False by discriminate. by rewrite decide_True.
    + by rewrite decide_True.
Qed.

Lemma object_account_other addr addr' so d : address so = addr' ->
  0 <= addr < two160 -> 0 <= addr' < two160 -> addr <> addr' ->
  last_put (modules.Account, Z_to_be 20 addr) (object_puts addr' so d) = None.
Proof.
  intros Ha H H' Hn. apply last_put_none. intros v (op & Ho & Hv)%object_puts_in.
  apply op_puts_account in Hv. apply (object_ops_address _ _ _ _ Ha) in Ho. rewrite Ho in Hv.
  apply Hn. by eapply Z_to_be_inj in Hv.
Qed.

Definition slot_put (so : stateObject) (k : Z) : option (option bytes) :=
  match dirtyStorage so !! k with
  | Some v => if default 0 (blockOriginStorage so !! k) =? v then None
              else Some (if zlen (uint256.Bytes v) =? 0 then None else Some (uint256.Bytes v))
  | None => None
  end.

Lemma slot_op_in addr so d a' inc k o v : WriteAccountStorage a' inc k o v ∈ object_ops iter e a addr so d ->
  rewritten e a addr so d = true /\ a' = address so /\ inc = Incarnation (data so) /\
  o = default 0 (blockOriginStorage so !! k) /\ dirtyStorage so !! k = Some v.
Proof.
  unfold object_ops, write_ops. intros H.
  repeat first [apply elem_of_app in H as [H|H] | case_match]; try (by apply elem_of_nil in H);
    try (by apply list_elem_of_singleton in H).
  apply list_elem_of_fmap in H as ([k' v'] & E & Hkv). apply iter_in in Hkv; [|done].
  by injection E as -> -> -> -> ->.
Qed.

Lemma object_storage addr so d inc k : object_ok addr so -> 0 <= inc < two16 -> word k ->
  last_put (modules.Storage, PlainGenerateCompositeStorageKey addr inc k) (object_puts addr so d) =
  if rewritten e a addr so d && (inc =? Incarnation (data so)) then slot_put so k else None.
Proof.
  intros [Ha Hr Hw _ _ Hs _ _] Hi Hk.
  destruct (last_put _ _) as [v|] eqn:E.
  - apply last_put_in, object_puts_in in E as (op & Ho & Hv).
    apply op_puts_storage in Hv as (inc' & k' & o & x & Eop & Ek & Hox & ->).
    rewrite Eop in Ho. apply slot_op_in in Ho as (-> & Ea & -> & -> & Hd). rewrite Ea, Ha in Ek.
    apply composite_key_inj in Ek as (_ & -> & ->); [|done..|apply Hw|done|by apply Hs in Hd as [? _]].
    rewrite Z.eqb_refl. cbn. unfold slot_put. rewrite Hd. by destruct (Z.eqb_spec (default 0 (blockOriginStorage so !! k')) x).
  - destruct (rewritten e a addr so d) eqn:Hrw; [|done]. destruct (Z.eqb_spec inc (Incarnation (data so))) as [->|]; [|done].
    cbn. unfold slot_put. destruct (dirtyStorage so !! k) as [v|] eqn:Hd; [|done]. destruct (_ =? v) eqn:Hov; [done|].
    exfalso. eassert (Hin : (modules.Storage, PlainGenerateCompositeStorageKey addr (Incarnation (data so)) k, _) ∈ object_puts addr so d).
    { unfold object_puts. apply list_elem_of_In, in_flat_map. exists (slot_op so (k, v)). split.
      - unfold object_ops, write_ops. rewrite Hrw. apply list_elem_of_In.
        apply elem_of_app. right. do 2 (apply elem_of_app; right). apply elem_of_app. left.
        apply list_elem_of_fmap. exists (k, v). by rewrite iter_in.
      - cbn [slot_op op_puts fst snd]. rewrite Hov, Ha. left. reflexivity. }
    apply last_put_some in Hin as [v' Hv']. congruence.
Qed.

Lemma object_storage_other addr addr' so d inc k : object_ok addr' so -> addr <> addr' ->
  0 <= addr < two160 -> 0 <= inc < two16 -> word k ->
  last_put (modules.Storage, PlainGenerateCompositeStorageKey addr inc k) (object_puts addr' so d) = None.
Proof.
  intros [Ha Hr Hw _ _ Hs _ _] Hn Hr' Hi Hk. apply last_put_none. intros v (op & Ho & Hv)%object_puts_in.
  apply op_puts_storage in Hv as (inc' & k' & o & x & Eop & Ek & _).
  rewrite Eop in Ho. apply slot_op_in in Ho as (_ & Ea & -> & _ & Hd). rewrite Ea, Ha in Ek.
  apply composite_key_inj in Ek as (? & _); [done..|apply Hw|done|by apply Hs in Hd as [? _]].
Qed.

(** The code written under a hash has that hash. *)
Lemma object_code addr so d h v : object_ok addr so -> word h ->
  ((modules.Code, Z_to_be 32 h), v) ∈ object_puts addr so d -> exists c, v = Some c /\ Keccak256 c = h.
Proof.
  intros [Ha Hr Hw _ [_ Hc] _ _ _] Hh (op & Ho & Hv)%object_puts_in.
  apply op_puts_code in Hv as (inc & h' & c & Eop & Eh & ->). exists c. split; [done|].
  rewrite Eop in Ho. revert Ho. unfold object_ops, write_ops. intros H.
  repeat first [apply elem_of_app in H as [H|H] | case_match]; try (by apply elem_of_nil in H);
    try (by apply list_elem_of_singleton in H).
  - apply list_elem_of_singleton in H. injection H as _ _ -> ->. rewrite (Hc _ eq_refl).
    symmetry. eapply Z_to_be_inj; [| |done]; [done|apply Hw].
  - by apply list_elem_of_fmap in H as (kv & ? & _).
Qed.

Lemma object_code_in addr so d c : rewritten e a addr so d = true -> code so = Some c -> dirtyCode so = true ->
  ((modules.Code, Z_to_be 32 (CodeHash (data so))), Some c) ∈ object_puts addr so d.
Proof.
  intros Hr Hc Hd. unfold object_puts, object_ops, write_ops. rewrite Hr, Hc, Hd.
  apply list_elem_of_In, in_flat_map.
  exists (UpdateAccountCode addr (Incarnation (data so)) (CodeHash (data so)) c). split; [|by left].
  apply in_or_app. right. by left.
Qed.
End ObjectPuts.

(** ** The database after [MakeWriteSet] *)

Section Commit.
Context {U : Uint256} {UL : Uint256Laws U} {C : Crypto} {P : AccountProto} {PL : AccountProtoLaws P}.
Context {T : Type} {D : KV T} {DL : KVLaws D}.
Context (iter : forall A : Type, list A -> list A) (iter_perm : forall A (l : list A), iter A l ≡ₚ l).
Context (e a : bool) (s : IntraBlockState) (objects : map_Forall object_ok (stateObjects s)).

Definition commit_puts : list (entry * option bytes) :=
  flat_map (fun x => object_puts iter e a x.1 x.2 (is_dirty s x.1)) (iter _ (map_to_list (stateObjects s))).

Lemma write_set_puts : flat_map op_puts (write_set iter e a s) = commit_puts.
Proof.
  unfold write_set, commit_puts. induction (iter _ _) as [|[addr so] l IH]; [done|]. cbn.
  by rewrite flat_map_app, IH.
Qed.

Lemma objects_nodup : NoDup (iter _ (map_to_list (stateObjects s))).
Proof. rewrite iter_perm. apply NoDup_map_to_list. Qed.

(** Only the object of an address touches an entry that belongs to the address. *)
Lemma commit_puts_at ent addr :
  (forall addr' so, stateObjects s !! addr' = Some so -> addr' <> addr ->
     last_put ent (object_puts iter e a addr' so (is_dirty s addr')) = None) ->
  last_put ent commit_puts =
  match stateObjects s !! addr with
  | Some so => last_put ent (object_puts iter e a addr so (is_dirty s addr))
  | None => None
  end.
Proof.
  intros H. unfold commit_puts. destruct (stateObjects s !! addr) as [so|] eqn:Hso.
  - rewrite (last_put_flat_map _ (addr, so)); [done|apply objects_nodup|by apply iter_in|].
    intros [addr' so'] Hin Hne. apply iter_in in Hin; [|done]. cbn. apply H; [done|]. intros ->. congruence.
  - apply last_put_flat_map_none. intros [addr' so'] Hin. apply iter_in in Hin; [|done].
    cbn. apply H; [done|]. intros ->. congruence.
Qed.

Context (db db' : T) (committed : holds db db' commit_puts).

Lemma commit_account addr : 0 <= addr < two160 ->
  plain_ReadAccountData db' addr =
  match stateObjects s !! addr with
  | Some so => if rewritten e a addr so (is_dirty s addr) then Done (Some (data so), None)
               else if removed e a addr so (is_dirty s addr) then Done (None, None)
               else plain_ReadAccountData db addr
  | None => plain_ReadAccountData db addr
  end.
Proof.
  intros Hr. unfold plain_ReadAccountData. rewrite committed. unfold after_puts. rewrite (commit_puts_at _ addr).
  - destruct (stateObjects s !! addr) as [so|] eqn:Hso; [|done]. rewrite object_account.
    destruct (rewritten _ _ _ _ _); [|by destruct (removed _ _ _ _ _)].
    pose proof (ok_data _ _ (objects _ _ Hso)) as Hw. cbn [default Datatypes.id].
    destruct (Z.eqb_spec (zlen (account_Marshal (data so))) 0) as [E|_].
    + exfalso. apply (Marshal_nonempty (account_ToProtoMessage (data so))); [by apply wf_ToProtoMessage|].
      apply length_zero_iff_nil. unfold zlen, account_Marshal in E. lia.
    + by rewrite DecodeForStorage_Marshal.
  - intros addr' so Hso Hne. destruct (objects _ _ Hso) as [Ha Hr'].
    apply object_account_other; [done..|congruence].
Qed.

Lemma commit_slot addr so k v : stateObjects s !! addr = Some so ->
  rewritten e a addr so (is_dirty s addr) = true -> dirtyStorage so !! k = Some v ->
  slot_value (plain_ReadAccountStorage db addr (Incarnation (data so)) k)
    = Some (default 0 (blockOriginStorage so !! k)) ->
  slot_value (plain_ReadAccountStorage db' addr (Incarnation (data so)) k) = Some v.
Proof.
  intros Hso Hrw Hd. destruct (objects _ _ Hso) as [Ha Hr Hw _ _ Hs _ _].
  destruct (Hs _ _ Hd) as [Hk Hv]. assert (Hi : 0 <= Incarnation (data so) < two16) by apply Hw.
  unfold plain_ReadAccountStorage. rewrite committed. unfold after_puts. rewrite (commit_puts_at _ addr).
  - rewrite Hso, object_storage by (first [done|by apply objects]). rewrite Hrw, Z.eqb_refl. cbn [andb]. unfold slot_put. rewrite Hd.
    destruct (Z.eqb_spec (default 0 (blockOriginStorage so !! k)) v) as [<-|Hne]; [done|]. intros _.
    destruct (Z.eqb_spec (zlen (uint256.Bytes v)) 0) as [E|E]; cbn.
    + assert (Hb : uint256.Bytes v = []) by (apply length_zero_iff_nil; unfold zlen in E; lia).
      apply uint256.Bytes_nil in Hb as ->; [|done]. change (Some (uint256.SetBytes []) = Some 0). by rewrite uint256.SetBytes_spec by by apply Forall_nil_2.
    + destruct (Z.eqb_spec (zlen (uint256.Bytes v)) 0); [done|]. cbn. by rewrite uint256.SetBytes_Bytes.
  - intros addr' so' Hso' Hne. apply object_storage_other; [done|by apply objects|congruence|done..].
Qed.

Lemma commit_storage_kept addr i k : 0 <= addr < two160 -> 0 <= i < two16 -> word k ->
  (forall so, stateObjects s !! addr = Some so ->
     rewritten e a addr so (is_dirty s addr) = false \/ dirtyStorage so !! k = None) ->
  plain_ReadAccountStorage db' addr i k = plain_ReadAccountStorage db addr i k.
Proof.
  intros Hr Hi Hk Hd. unfold plain_ReadAccountStorage. rewrite committed. unfold after_puts.
  rewrite (commit_puts_at _ addr).
  - destruct (stateObjects s !! addr) as [so|] eqn:Hso; [|done]. rewrite object_storage by (try done; by apply objects).
    unfold slot_put. by destruct (Hd so eq_refl) as [->| ->]; [|destruct (_ && _)].
  - intros addr' so' Hso' Hne. apply object_storage_other; [done|by apply objects|congruence|done..].
Qed.

Lemma commit_code addr so c i : stateObjects s !! addr = Some so ->
  rewritten e a addr so (is_dirty s addr) = true -> code so = Some c -> dirtyCode so = true ->
  CodeHash (data so) <> Keccak256 [] ->
  exists c', plain_ReadAccountCode db' addr i (CodeHash (data so)) = (Some c', None) /\ Keccak256 c' = CodeHash (data so).
Proof.
  intros Hso Hrw Hc Hd Hne. assert (Hw : word (CodeHash (data so))) by (destruct (ok_data _ _ (objects _ _ Hso)) as (_ & _ & _ & ? & _); done).
  assert (Hin : ((modules.Code, Z_to_be 32 (CodeHash (data so))), Some c) ∈ commit_puts).
  { apply list_elem_of_In, in_flat_map. exists (addr, so). split; [by apply list_elem_of_In, iter_in|].
    apply list_elem_of_In. by apply object_code_in. }
  destruct (last_put_some _ _ _ Hin) as [v Hv]. pose proof (last_put_in _ _ _ Hv) as Hin'.
  apply list_elem_of_In, in_flat_map in Hin' as ([addr' so'] & Hx & Hp).
  apply list_elem_of_In, iter_in in Hx; [|done]. apply list_elem_of_In, object_code in Hp as (c' & -> & Hc'); [|by apply objects|done].
  exists c'. split; [|done]. unfold plain_ReadAccountCode, emptyCodeHash.
  destruct (Z.eqb_spec (CodeHash (data so)) (Keccak256 [])); [done|].
  rewrite committed. unfold after_puts. rewrite Hv. cbn.
  destruct (Z.eqb_spec (zlen c') 0) as [E|]; [|done]. exfalso. apply Hne. rewrite <-Hc'. f_equal.
  apply length_zero_iff_nil. unfold zlen in E. lia.
Qed.

(** A code read afterwards: what it was, or code of the same hash. *)
Lemma commit_code_kept addr i h : word h ->
  plain_ReadAccountCode db' addr i h = plain_ReadAccountCode db addr i h \/
  exists c, plain_ReadAccountCode db' addr i h = (Some c, None) /\ Keccak256 c = h.
Proof.
  intros Hw. unfold plain_ReadAccountCode, emptyCodeHash. destruct (Z.eqb_spec h (Keccak256 [])) as [|Hne]; [by left|].
  rewrite committed. unfold after_puts. destruct (last_put _ _) as [v|] eqn:Hv; [|by left]. right.
  rewrite ?committed. unfold after_puts. rewrite ?Hv.
  apply last_put_in, list_elem_of_In, in_flat_map in Hv as ([addr' so'] & Hx & Hp).
  apply list_elem_of_In, iter_in in Hx; [|done].
  apply list_elem_of_In, object_code in Hp as (c & -> & Hc); [|by apply objects|done]. exists c. split; [|done]. cbn.
  destruct (Z.eqb_spec (zlen c) 0) as [E|]; [|done]. exfalso. apply Hne. rewrite <-Hc. f_equal.
  apply length_zero_iff_nil. unfold zlen in E. lia.
Qed.
End Commit.

(** ** A fresh state over the database *)

Definition yields {S A} (m : M S A) (s : S) (v : A) : Prop := exists s', m s = Done (v, s').

Section Fresh.
Context {U : Uint256} {C : Crypto} {K : AccountCodec} (R : StateReader).

Definition loaded (addr : Z) (so : stateObject) : IntraBlockState := set_stateObjects {[addr := so]} New.

(** [newObject] names the empty code where the account has no hash. *)
Definition with_hash (acc : StateAccount) : StateAccount :=
  if CodeHash acc =? 0 then set_CodeHash emptyCodeHash acc else acc.

Lemma newObject_data addr acc : Initialised acc = true -> data (newObject addr acc acc) = with_hash acc.
Proof. intros Hi. destruct acc as [i n b r h inc]. cbn in *. by subst i. Qed.

Lemma with_hash_fields acc : Balance (with_hash acc) = Balance acc /\ Nonce (with_hash acc) = Nonce acc /\
  Incarnation (with_hash acc) = Incarnation acc /\ CodeHash (with_hash acc) = if CodeHash acc =? 0 then emptyCodeHash else CodeHash acc.
Proof. unfold with_hash. by destruct (CodeHash acc =? 0). Qed.

Lemma getStateObject_New addr :
  getStateObject R addr New =
  match ReadAccountData R addr with
  | (_, Some err) => (_ ← setError err; mret None) New
  | (None, None) => Done (None, set_nilAccounts ({[addr]} ∪ ∅) New)
  | (Some account, None) =>
      (_ ← modify (fun s =>
             match snap s with
             | Some sn => if written sn then set_snap (Some (AddAccount addr account sn)) s else s
             | None => s
             end);
       _ ← setStateObject addr (newObject addr account account);
       so ← obj addr;
       mret (Some so)) New
  end.
Proof.
  unfold getStateObject, get, mbind, M_bind. cbn [New stateObjects nilAccounts balanceInc].
  rewrite !lookup_empty. rewrite bool_decide_eq_false_2 by set_solver.
  by destruct (ReadAccountData R addr) as [[acc|] [err|]].
Qed.

Lemma fresh_getStateObject addr acc : ReadAccountData R addr = (Some acc, None) ->
  getStateObject R addr New = Done (Some (newObject addr acc acc), loaded addr (newObject addr acc acc)).
Proof.
  intros H. rewrite getStateObject_New, H. unfold modify, setStateObject, get, mbind, M_bind.
  cbn [New snap balanceInc]. rewrite lookup_empty. cbn [mret M_ret]. unfold modify.
  rewrite (obj_at addr _ (newObject addr acc acc)); [done|apply lookup_insert_eq].
Qed.

(** ** What an account answers *)

(** The queries about one account, its code apart. *)
Definition account_query (q : query) (addr : Z) : Prop :=
  match q with
  | QExist a | QEmpty a | QBalance a | QNonce a | QCodeHash a | QSelfdestructed a => a = addr
  | QState a k | QCommitted a k => a = addr /\ word k
  | _ => False
  end.

(** The answer where there is no account. *)
Definition nothing (q : query) : answer :=
  match q with
  | QExist _ | QSelfdestructed _ => ABool false
  | QEmpty _ => ABool true
  | _ => AInt 0
  end.

(** The answer for a live object, its storage apart. *)
Definition from_object (q : query) (o : stateObject) : option answer :=
  match q with
  | QExist _ => Some (ABool true)
  | QEmpty _ => Some (ABool (empty o))
  | QBalance _ => Some (AInt (Balance (data o)))
  | QNonce _ => Some (AInt (Nonce (data o)))
  | QCodeHash _ => Some (AInt (CodeHash (data o)))
  | QSelfdestructed _ => Some (ABool (if created o then false else selfdestructed o))
  | _ => None
  end.

(** The storage queries of a live object. *)
Definition from_storage (q : query) : M IntraBlockState Z :=
  match q with
  | QState a k => so_GetState R a k
  | QCommitted a k => so_GetCommittedState R a k
  | _ => mret 0
  end.

Lemma observe_live q addr s o s1 : getStateObject R addr s = Done (Some o, s1) -> account_query q addr ->
  observe R q s =
  if deleted o then Done (nothing q, s1) else
  match from_object q o with
  | Some r => Done (r, s1)
  | None => (z ← from_storage q; mret (AInt z)) s1
  end.
Proof.
  intros E Hq. destruct q; cbn [account_query] in Hq; try done; (lazymatch type of Hq with _ /\ _ => destruct Hq as [Hq _] | _ => idtac end); subst;
    cbn [observe]; unfold Exist, Empty, GetBalance, GetNonce, GetCodeHash, HasSelfdestructed, GetState, GetCommittedState;
    unfold mbind, M_bind; rewrite E; unfold live; by destruct (deleted o).
Qed.

Lemma observe_none q addr s s1 : getStateObject R addr s = Done (None, s1) -> account_query q addr ->
  observe R q s = Done (nothing q, s1).
Proof.
  intros E Hq. destruct q; cbn [account_query] in Hq; try done; (lazymatch type of Hq with _ /\ _ => destruct Hq as [Hq _] | _ => idtac end); subst;
    cbn [observe]; unfold Exist, Empty, GetBalance, GetNonce, GetCodeHash, HasSelfdestructed, GetState, GetCommittedState;
    unfold mbind, M_bind; by rewrite E.
Qed.

Lemma fresh_absent addr q : ReadAccountData R addr = (None, None) -> account_query q addr ->
  yields (observe R q) New (nothing q).
Proof.
  intros H Hq. eexists. apply (observe_none q addr); [|done]. rewrite getStateObject_New, H. done.
Qed.

(** A slot of an object that has not written it: the value in the database, whatever
    the object remembers. *)
Lemma committed_value addr k o s r s' : (forall a i k, (ReadAccountStorage R a i k).2 = None) -> uint256.SetBytes [] = 0 ->
  faithful R addr o -> stateObjects s !! addr = Some o -> readable s = None -> dirtyStorage o !! k = None ->
  so_GetCommittedState R addr k s = Done (r, s') ->
  slot_value (ReadAccountStorage R addr (Incarnation (data o)) k) = Some r.
Proof.
  intros Hreads H0 Hf Ho Hr Hd E. apply bind_Done in E as (o1 & s1 & E1 & E). rewrite (obj_at _ _ _ Ho) in E1. injection E1 as <- <-.
  rewrite (fa_fake _ _ _ Hf) in E. destruct (originStorage o !! k) as [v|] eqn:Ev.
  { injection E as <- _. rewrite <-(fa_origin _ _ _ Hf k v Hd Ev). apply Hf. rewrite Ev. eauto. }
  destruct (created o) eqn:Ec.
  { injection E as <- _. rewrite (fa_agree _ _ _ Hf k) by auto. destruct (blockOriginStorage o !! k) eqn:Eb; [|done].
    destruct (fa_block _ _ _ Hf k) as [? Hx]; [by rewrite Eb|congruence]. }
  apply bind_Done in E as (s2 & s3 & [= <- <-] & E). unfold readable in Hr.
  assert (so_loadStorage R addr k o s = Done (r, s')) as El by (destruct (snap s) as [sn|]; [destruct (written sn)|]; done).
  clear E. unfold so_loadStorage in El. pose proof (Hreads addr (Incarnation (data o)) k) as Hrd.
  destruct (ReadAccountStorage R addr (Incarnation (data o)) k) as [[enc|] [err|]]; try done.
  - apply bind_Done in El as (u & s2 & _ & El). apply bind_Done in El as (u2 & s3 & _ & [= <- _]). done.
  - apply bind_Done in El as (u2 & s3 & _ & [= <- _]). cbn. by rewrite H0.
Qed.

Lemma fresh_storage addr acc q v : ReadAccountData R addr = (Some acc, None) -> Initialised acc = true ->
  uint256.SetBytes [] = 0 -> (exists k, (q = QState addr k \/ q = QCommitted addr k) /\
    slot_value (ReadAccountStorage R addr (Incarnation acc) k) = Some v) -> yields (observe R q) New (AInt v).
Proof.
  intros H Hi H0 (k & Hq & Hs). set (so := newObject addr acc acc). set (s1 := loaded addr so).
  assert (Hat : stateObjects s1 !! addr = Some so) by apply lookup_insert_eq.
  assert (exists s2, so_GetCommittedState R addr k s1 = Done (v, s2)) as [s2 E2].
  { unfold so_GetCommittedState, get, mbind, M_bind. rewrite (obj_at _ _ _ Hat).
    change (fakeStorage so) with (None (A := Storage)). change (originStorage so !! k) with (None (A := Z)).
    change (created so) with false. change (snap s1) with (None (A := Snapshot)). cbn iota beta.
    unfold so_loadStorage. unfold so. rewrite newObject_data by done. destruct (with_hash_fields acc) as (_ & _ & -> & _).
    destruct (ReadAccountStorage R addr (Incarnation acc) k) as [[enc|] [err|]]; cbn in Hs; simplify_eq;
      unfold so_cacheStorage, modify, mbind, M_bind;
      change (snap s1) with (None (A := Snapshot)); cbv beta iota; rewrite (upd_at _ _ _ _ Hat); cbn [default]; rewrite ?H0; by eexists. }
  exists s2. destruct Hq as [->| ->]; cbn [observe]; unfold GetState, GetCommittedState, mbind, M_bind;
    rewrite (fresh_getStateObject _ _ H); unfold live; change (deleted (newObject addr acc acc)) with false; cbn iota; fold so s1.
  - unfold so_GetState, mbind, M_bind. rewrite (obj_at _ _ _ Hat). change (fakeStorage so) with (None (A := Storage)).
    change (dirtyStorage so !! k) with (None (A := Z)). cbn iota. by rewrite E2.
  - by rewrite E2.
Qed.

Lemma fresh_code addr acc : ReadAccountData R addr = (Some acc, None) -> Initialised acc = true -> CodeHash acc <> 0 ->
  yields (GetCode R addr) New
    (if CodeHash acc =? emptyCodeHash then None else (ReadAccountCode R addr (Incarnation acc) (CodeHash acc)).1).
Proof.
  intros H Hi Hh. unfold yields, GetCode, mbind, M_bind. rewrite (fresh_getStateObject _ _ H). unfold live.
  set (so := newObject addr acc acc). set (s1 := loaded addr so).
  assert (Hat : stateObjects s1 !! addr = Some so) by apply lookup_insert_eq.
  change (deleted so) with false. cbn iota. unfold so_Code, mbind, M_bind. rewrite (obj_at _ _ _ Hat).
  change (code so) with (None (A := bytes)). cbn iota. unfold so. rewrite newObject_data by done.
  assert (with_hash acc = acc) as -> by (unfold with_hash; by destruct (Z.eqb_spec (CodeHash acc) 0)).
  destruct (CodeHash acc =? emptyCodeHash); [by eexists|].
  destruct (ReadAccountCode R addr (Incarnation acc) (CodeHash acc)) as [c err].
  assert (forall s', stateObjects s' = stateObjects s1 -> exists s2, upd addr (set_code c) s' = Done ((), s2)) as Hu.
  { intros s' E. eexists. apply (upd_at _ _ _ so). by rewrite E. }
  destruct err as [err|]; cbn -[upd newObject loaded];
    match goal with |- context [upd addr (set_code c) ?s'] => destruct (Hu s') as [s2 ->]; [|by eexists] end; done.
Qed.
End Fresh.

(** ** The objects after the commit *)

Section After.
Context {U : Uint256} {C : Crypto}.
Context (iter : forall A : Type, list A -> list A) (iter_perm : forall A (l : list A), iter A l ≡ₚ l).

Lemma stored_code l so : code (foldl store_slot so l) = code so /\ dirtyCode (foldl store_slot so l) = dirtyCode so.
Proof. revert so; induction l as [|kv l IH]; intros so; cbn; [done|]. apply (IH (store_slot so kv)). Qed.

Lemma stored_other l so k : k ∉ l.*1 -> originStorage (foldl store_slot so l) !! k = originStorage so !! k.
Proof.
  revert so; induction l as [|kv l IH]; intros so Hk; cbn in *; [done|]. apply not_elem_of_cons in Hk as [Hne Hk].
  rewrite IH by done. cbn. by rewrite lookup_insert_ne.
Qed.

Lemma stored_slot l so k v : NoDup l.*1 -> (k, v) ∈ l -> originStorage (foldl store_slot so l) !! k = Some v.
Proof.
  revert so; induction l as [|kv l IH]; intros so Hnd Hin; [by apply elem_of_nil in Hin|]. cbn in *.
  apply list.NoDup_cons in Hnd as [Hk Hnd]. apply elem_of_cons in Hin as [<-|Hin]; [|by apply IH].
  rewrite stored_other by done. cbn. apply lookup_insert_eq.
Qed.

Lemma object_after_fields e a addr so d (so' := object_after iter e a addr so d) :
  data so' = data so /\ dirtyStorage so' = dirtyStorage so /\ code so' = code so /\ dirtyCode so' = dirtyCode so /\
  created so' = created so /\ selfdestructed so' = selfdestructed so /\
  deleted so' = (if rewritten e a addr so d then false else if removed e a addr so d then true else deleted so) /\
  (rewritten e a addr so d = true -> forall k v, dirtyStorage so !! k = Some v -> originStorage so' !! k = Some v).
Proof.
  subst so'. unfold object_after. set (o1 := if removed _ _ _ _ _ then _ else _).
  assert (data o1 = data so /\ dirtyStorage o1 = dirtyStorage so /\ code o1 = code so /\ dirtyCode o1 = dirtyCode so /\
    created o1 = created so /\ selfdestructed o1 = selfdestructed so /\
    deleted o1 = if removed e a addr so d then true else deleted so) as (E1 & E2 & E3 & E4 & E5 & E6 & E7)
    by (subst o1; by destruct (removed _ _ _ _ _)).
  assert (rewritten e a addr o1 d = rewritten e a addr so d) as ->.
  { unfold rewritten, empty_removal, empty. by rewrite E1, E5, E6. }
  clearbody o1. destruct (rewritten e a addr so d); [|done].
  destruct (store_slots_fields (iter _ (map_to_list (dirtyStorage o1))) (set_deleted false o1)) as (_ & F1 & _ & _ & F2 & F3 & F4 & F5).
  destruct (stored_code (iter _ (map_to_list (dirtyStorage o1))) (set_deleted false o1)) as [F6 F7].
  rewrite F1, F2, F3, F4, F5, F6, F7. cbn. split_and!; try done. intros _ k v Hk. rewrite <-E2 in Hk.
  apply stored_slot; [by apply iter_keys|by apply iter_in].
Qed.

Lemma after_at e a s addr so : stateObjects s !! addr = Some so ->
  stateObjects (write_set_after iter e a s) !! addr = Some (object_after iter e a addr so (is_dirty s addr)).
Proof. intros H. cbn. by rewrite map_lookup_imap, H. Qed.

Lemma after_none e a s addr : stateObjects s !! addr = None -> stateObjects (write_set_after iter e a s) !! addr = None.
Proof. intros H. cbn. by rewrite map_lookup_imap, H. Qed.
End After.

(** ** Reading back *)

Section Reload.
Context {U : Uint256} {UL : Uint256Laws U} {C : Crypto} {CL : CryptoLaws C} {K : AccountCodec}.
Context {P : AccountProto} {PL : AccountProtoLaws P} {T : Type} {D : KV T} {DL : KVLaws D}.
Context (iter : forall A : Type, list A -> list A) (Hiter : forall A (l : list A), iter A l ≡ₚ l) (e a : bool).
Context (R : StateReader) (Hreader : reader_ok R) (Hreads : forall a i k, (ReadAccountStorage R a i k).2 = None).
Context (s : IntraBlockState) (Htyped : typed s) (Hcoherent : coherent R s).
Context (db db' : T) (Hcommit : holds db db' (commit_puts iter e a s)).
Context (addr : Z) (Haddr : wf_address addr) (R' : StateReader) (HR : plain_reader db R addr) (HR' : plain_reader db' R' addr).
Notation s' := (write_set_after iter e a s).

(** No account names the code hash zero. *)
Definition hashed (s : IntraBlockState) (addr : Z) : Prop :=
  forall o, stateObjects s !! addr = Some o -> CodeHash (data o) <> 0.

Lemma SetBytes_nil : uint256.SetBytes [] = 0.
Proof. by rewrite uint256.SetBytes_spec by by apply Forall_nil_2. Qed.

Lemma reload_account :
  ReadAccountData R' addr =
  match stateObjects s !! addr with
  | Some so => if rewritten e a addr so (is_dirty s addr) then (Some (data so), None)
               else if removed e a addr so (is_dirty s addr) then (None, None) else ReadAccountData R addr
  | None => ReadAccountData R addr
  end.
Proof.
  pose proof (commit_account iter Hiter e a s (ty_objects _ Htyped) _ _ Hcommit addr Haddr) as H.
  destruct HR as (HRa & _), HR' as (HRa' & _). rewrite HRa', HRa in H. destruct (stateObjects s !! addr) as [so|]; [|by injection H].
  destruct (rewritten _ _ _ _ _); [by injection H|]. destruct (removed _ _ _ _ _); by injection H.
Qed.

Lemma reload_storage_kept i k : 0 <= i < two16 -> word k ->
  (forall so, stateObjects s !! addr = Some so ->
     rewritten e a addr so (is_dirty s addr) = false \/ dirtyStorage so !! k = None) ->
  ReadAccountStorage R' addr i k = ReadAccountStorage R addr i k.
Proof.
  intros Hi Hk H. destruct HR as (_ & HRs & _), HR' as (_ & HRs' & _). rewrite <-HRs, <-HRs'.
  by apply (commit_storage_kept iter Hiter e a s (ty_objects _ Htyped) db db' Hcommit).
Qed.

Lemma reload_code_kept i h : word h ->
  ReadAccountCode R' addr i h = ReadAccountCode R addr i h \/
  exists c, ReadAccountCode R' addr i h = (Some c, None) /\ Keccak256 c = h.
Proof.
  intros Hh. destruct HR as (_ & _ & HRc & _), HR' as (_ & _ & HRc' & _). rewrite <-HRc, <-HRc'.
  by apply (commit_code_kept iter Hiter e a s (ty_objects _ Htyped) db db' Hcommit).
Qed.

(** What a storage query of the committed state answers is in the new database. *)
Lemma reload_slot so q k r t :
  stateObjects s !! addr = Some so -> rewritten e a addr so (is_dirty s addr) = true ->
  q = QState addr k \/ q = QCommitted addr k -> word k ->
  (z ← from_storage R q; mret (AInt z)) s' = Done (r, t) ->
  exists v, r = AInt v /\ slot_value (ReadAccountStorage R' addr (Incarnation (data so)) k) = Some v.
Proof.
  intros Hso Hrw Hq Hk E. apply bind_Done in E as (v & t1 & E & [= <- _]). exists v. split; [done|].
  pose proof (sf_objects _ _ _ Hcoherent _ _ Hso) as Hf. pose proof (ty_objects _ Htyped _ _ Hso) as Hok.
  destruct (object_after_fields iter Hiter e a addr so (is_dirty s addr)) as (E1 & E2 & _ & _ & _ & _ & _ & E8).
  set (so' := object_after _ _ _ _ _ _) in *. pose proof (after_at iter e a s addr so Hso) as Hat. fold so' in Hat.
  pose proof (faithful_after R iter Hiter e a addr so (is_dirty s addr) Hf) as Hf'. fold so' in Hf'.
  destruct (dirtyStorage so !! k) as [x|] eqn:Hd.
  - assert (v = x) as ->.
    { destruct Hq as [->| ->]; cbn in E; apply bind_Done in E as (o1 & t2 & E0 & E); rewrite (obj_at _ _ _ Hat) in E0; injection E0 as <- <-;
        rewrite (fa_fake _ _ _ Hf'), ?E2, ?Hd, ?(E8 Hrw _ _ Hd) in E; by injection E. }
    destruct HR as (_ & HRs & _), HR' as (_ & HRs' & _). rewrite <-HRs'.
    eapply (commit_slot iter Hiter e a s (ty_objects _ Htyped) db db' Hcommit); [done..|]. rewrite HRs. apply Hf. rewrite Hd. eauto.
  - rewrite reload_storage_kept; [|by apply Hok|done|intros so0 Hso0; simplify_eq; auto]. rewrite <-E1.
    assert (so_GetCommittedState R addr k s' = Done (v, t1)) as Ec.
    { destruct Hq as [->| ->]; [|done]. cbn in E. apply bind_Done in E as (o1 & t2 & E0 & E). rewrite (obj_at _ _ _ Hat) in E0.
      injection E0 as <- <-. by rewrite (fa_fake _ _ _ Hf'), E2, Hd in E. }
    eapply committed_value; [done|apply SetBytes_nil|exact Hf'|exact Hat|exact (sf_snap _ _ _ Hcoherent)|by rewrite E2|exact Ec].
Qed.

Lemma storage_answers so' q t : stateObjects t !! addr = Some so' -> faithful R addr so' -> readable t = None ->
  account_query q addr -> exists v t', from_storage R q t = Done (v, t').
Proof.
  intros Ho Hf Hr Hq.
  assert (forall k, exists v t', so_GetCommittedState R addr k t = Done (v, t')) as Hc.
  { intros k. unfold so_GetCommittedState, mbind, M_bind, get. rewrite (obj_at _ _ _ Ho), (fa_fake _ _ _ Hf).
    destruct (originStorage so' !! k); [by eexists _, _|]. destruct (created so'); [by eexists _, _|].
    assert (exists v t', so_loadStorage R addr k so' t = Done (v, t')) as Hl.
    { unfold so_loadStorage, so_cacheStorage, mbind, M_bind, modify. pose proof (Hreads addr (Incarnation (data so')) k) as Hrd.
      destruct (ReadAccountStorage _ _ _ _) as [[enc|] [err|]]; try done; erewrite upd_at by (repeat case_match; exact Ho); by eexists _, _. }
    unfold readable in Hr. destruct (snap t) as [sn|]; [|done]. by destruct (written sn). }
  destruct q; cbn [account_query from_storage] in *; try done; try (by eexists _, _); destruct Hq as [-> _]; [|apply Hc].
  unfold so_GetState, mbind, M_bind. rewrite (obj_at _ _ _ Ho), (fa_fake _ _ _ Hf).
  destruct (dirtyStorage so' !! k); [by eexists _, _|apply Hc].
Qed.

Lemma committed_answers so q : stateObjects s !! addr = Some so -> account_query q addr -> exists r, yields (observe R q) s' r.
Proof.
  intros Hso Hq. pose proof (after_at iter e a s addr so Hso) as Hat.
  pose proof (faithful_after R iter Hiter e a addr so (is_dirty s addr) (sf_objects _ _ _ Hcoherent _ _ Hso)) as Hf.
  set (so' := object_after _ _ _ _ _ _) in *.
  assert (getStateObject R addr s' = Done (Some so', s')) as Hg by (unfold getStateObject, mbind, M_bind, get; by rewrite Hat).
  unfold yields. rewrite (observe_live R q addr _ _ _ Hg Hq). destruct (deleted so'); [by eexists _, _|].
  destruct (from_object q so'); [by eexists _, _|].
  destruct (storage_answers so' q s' Hat Hf (sf_snap _ _ _ Hcoherent) Hq) as (v & t' & E).
  unfold mbind, M_bind. rewrite E. by eexists _, _.
Qed.

Lemma reload_query q r : addr ∈ dirty_set s -> is_Some (stateObjects s !! addr) -> hashed s addr -> account_query q addr ->
  yields (observe R q) s' r -> yields (observe R' q) New r.
Proof.
  intros Hdirty [so Hso] Hh Hq [t E]. pose proof reload_account as Hacc. rewrite Hso in Hacc.
  destruct (object_after_fields iter Hiter e a addr so (is_dirty s addr)) as (E1 & _ & _ & _ & E5 & E6 & E7 & _).
  set (so' := object_after _ _ _ _ _ _) in *. pose proof (after_at iter e a s addr so Hso) as Hat. fold so' in Hat.
  assert (getStateObject R addr s' = Done (Some so', s')) as Hg by (unfold getStateObject, mbind, M_bind, get; by rewrite Hat).
  rewrite (observe_live R q addr _ _ _ Hg Hq), E7 in E. pose proof (ok_init _ _ (ty_objects _ Htyped _ _ Hso)) as Hi.
  destruct (rewritten e a addr so (is_dirty s addr)) eqn:Hrw.
  - set (n := newObject addr (data so) (data so)).
    assert (data n = data so) as En.
    { subst n. rewrite newObject_data by done. unfold with_hash. by destruct (Z.eqb_spec (CodeHash (data so)) 0) as [E0|]; [destruct (Hh so Hso)|]. }
    destruct (from_object q so') as [x|] eqn:Ex.
    + injection E as <- _. eexists. rewrite (observe_live R' q addr _ _ _ (fresh_getStateObject R' addr _ Hacc) Hq).
      change (deleted n) with false. cbn iota. fold n.
      assert (from_object q n = Some x) as ->; [|done]. rewrite <-Ex. clear Ex.
      assert ((if created so' then false else selfdestructed so') = false) as Hsd.
      { rewrite E5, E6. unfold rewritten in Hrw. destruct (created so), (selfdestructed so); try done. by rewrite andb_false_r in Hrw. }
      destruct q; cbn [from_object] in *; try done; rewrite ?Hsd, ?E1, ?En; try done.
      unfold empty. by rewrite En, E1.
    + destruct q; cbn [account_query from_object] in Hq, Ex; try done; destruct Hq as [-> Hk];
        (eapply reload_slot in E as (v & -> & Hv); [|done|done|by auto|done]; eapply fresh_storage; [exact Hacc|done|apply SetBytes_nil|eauto]).
  - assert (removed e a addr so (is_dirty s addr) = true) as Hrm.
    { unfold is_dirty in *. rewrite bool_decide_eq_true_2 in * by done. unfold removed, rewritten in *. cbn [andb] in *.
      destruct (selfdestructed so); [done|]. rewrite orb_true_r in Hrw. cbn in *. by destruct (empty_removal e a addr so). }
    rewrite Hrm in *. injection E as <- _. by apply (fresh_absent R' addr).
Qed.

Lemma reload_code c : addr ∈ dirty_set s -> is_Some (stateObjects s !! addr) -> hashed s addr ->
  yields (GetCode R addr) s' (Some c) ->
  exists c', yields (GetCode R' addr) New c' /\ Keccak256 (default [] c') = Keccak256 c.
Proof.
  intros Hdirty [so Hso] Hh [t E]. pose proof reload_account as Hacc. rewrite Hso in Hacc.
  destruct (object_after_fields iter Hiter e a addr so (is_dirty s addr)) as (E1 & _ & E3 & _ & _ & _ & E7 & _).
  set (so' := object_after _ _ _ _ _ _) in *. pose proof (after_at iter e a s addr so Hso) as Hat. fold so' in Hat.
  unfold GetCode, mbind, M_bind in E.
  assert (getStateObject R addr s' = Done (Some so', s')) as Hg by (unfold getStateObject, mbind, M_bind, get; by rewrite Hat).
  rewrite Hg in E. unfold live in E. rewrite E7 in E.
  destruct (rewritten e a addr so (is_dirty s addr)) eqn:Hrw.
  2:{ unfold removed, rewritten, is_dirty in *. rewrite bool_decide_eq_true_2 in * by done. cbn [andb] in *.
      destruct (selfdestructed so); [done|]. rewrite orb_true_r in Hrw. cbn in *. by destruct (empty_removal e a addr so). }
  pose proof (ty_objects _ Htyped _ _ Hso) as Hok. pose proof (sf_objects _ _ _ Hcoherent _ _ Hso) as Hf.
  set (h := CodeHash (data so)) in *.
  assert (Keccak256 c = h /\ (code so = Some c /\ dirtyCode so = true \/ exists i, (ReadAccountCode R addr i h).1 = Some c)) as [Hc Hcode].
  { apply bind_Done in E as (o1 & t1 & E0 & E). rewrite (obj_at _ _ _ Hat) in E0. injection E0 as <- <-.
    rewrite E3, E1 in E. fold h in E. destruct (code so) as [c0|] eqn:Ecode.
    { injection E as -> _. split; [by apply Hok|]. destruct (fa_code _ _ _ Hf c Ecode); auto. }
    destruct (h =? emptyCodeHash); [done|].
    destruct (ReadAccountCode R addr (Incarnation (data so)) h) as [c1 err] eqn:ER.
    apply bind_Done in E as (u & t1 & _ & E). apply bind_Done in E as (u2 & t2 & _ & [= -> _]).
    split; [eapply (proj2 Hreader); [by apply Hok|done]|]. right. eexists. by rewrite ER. }
  eexists. split; [apply fresh_code; [exact Hacc|apply Hok|by apply Hh]|]. fold h.
  destruct (Z.eqb_spec h emptyCodeHash) as [Eh|Hne]; [cbn; by rewrite Hc, Eh|].
  assert (exists c', (ReadAccountCode R' addr (Incarnation (data so)) h).1 = Some c' /\ Keccak256 c' = h) as (c' & -> & Hc');
    [|cbn; congruence].
  destruct Hcode as [[Hx Hd]|[i Hi]].
  - destruct (commit_code iter Hiter e a s (ty_objects _ Htyped) _ _ Hcommit addr so c (Incarnation (data so)) Hso Hrw Hx Hd Hne) as (c' & Hr & Hk).
    destruct HR' as (_ & _ & HRc' & _). exists c'. unfold h. by rewrite <-HRc', Hr.
  - destruct (reload_code_kept (Incarnation (data so)) h) as [Hr|(c' & Hr & Hk)]; [apply Hok| |exists c'; by rewrite Hr].
    exists c. split; [|done]. rewrite Hr. destruct HR as (_ & _ & HRc & _). rewrite <-HRc. by rewrite <-HRc in Hi.
Qed.
End Reload.

(** A database entry that the commit leaves alone. *)
Definition unchanged {C : Crypto} (R R' : StateReader) (addr : Z) : Prop :=
  ReadAccountData R' addr = ReadAccountData R addr /\
  (forall i k, 0 <= i < two16 -> word k -> ReadAccountStorage R' addr i k = ReadAccountStorage R addr i k) /\
  (forall i h, word h -> ReadAccountCode R' addr i h = ReadAccountCode R addr i h \/
     exists c, ReadAccountCode R' addr i h = (Some c, None) /\ Keccak256 c = h).

(** Loading the pending increases replaces no object and keeps what is dirty. *)
Section Load.
Context {U : Uint256} {C : Crypto} {K : AccountCodec} (R : StateReader) (iter : forall A : Type, list A -> list A).

Definition gains (s s' : IntraBlockState) : Prop :=
  (forall addr so, stateObjects s !! addr = Some so -> stateObjects s' !! addr = Some so) /\ dirty_set s ⊆ dirty_set s'.

#[local] Instance gains_refl : Reflexive gains.
Proof. by split. Qed.
#[local] Instance gains_trans : Transitive gains.
Proof. intros x y z [H1 H2] [H3 H4]. split; [auto|by etransitivity]. Qed.

Lemma gains_same s s' : stateObjects s' = stateObjects s -> dirty_set s ⊆ dirty_set s' -> gains s s'.
Proof. intros E H. by split; [rewrite E|]. Qed.

Lemma gains_jappend e : preserves gains (jappend e).
Proof.
  apply preserves_modify. intros s. apply gains_same; [done|]. unfold dirty_set. cbn. unfold journal_append.
  destruct (dirtied e) as [a|]; cbn; [|set_solver]. unfold journal_dirty. cbn. rewrite dom_insert_L. set_solver.
Qed.

Lemma gains_setStateObject a o s u s' : stateObjects s !! a = None -> setStateObject a o s = Done (u, s') -> gains s s'.
Proof.
  intros Ha E. pose proof (setStateObject_puts a o s u s' E) as (o' & new & _ & Eo & _).
  split; [intros b so Hb; rewrite Eo, lookup_insert_ne by congruence; done|].
  revert E. unfold setStateObject. intros E. apply bind_Done in E as (s0 & s1 & [= <- <-] & E).
  apply bind_Done in E as (o1 & s1 & E1 & [= _ <-]). change (dirty_set s ⊆ dirty_set s1).
  destruct (balanceInc s !! a) as [bi|]; [|by injection E1 as _ <-]. destruct (negb _); [|by injection E1 as _ <-].
  apply bind_Done in E1 as (u1 & s2 & [= _ <-] & E1). apply bind_Done in E1 as (u2 & s2 & E2 & [= _ <-]).
  by apply gains_jappend in E2 as [_ ?].
Qed.

Lemma gains_createObject a s u s' : stateObjects s !! a = None -> createObject a None s = Done (u, s') -> gains s s'.
Proof.
  intros Ha E. apply bind_Done in E as (u1 & s1 & E1 & E). etransitivity; [by eapply gains_jappend|].
  eapply gains_setStateObject; [|exact E]. by injection E1 as _ <-.
Qed.

Lemma gains_getStateObject a : preserves gains (getStateObject R a).
Proof.
  intros s so s' E. unfold getStateObject in E. apply bind_Done in E as (s0 & s1 & [= <- <-] & E).
  destruct (stateObjects s !! a) as [o|] eqn:Eo; [by injection E as _ <-|].
  assert (forall s1, stateObjects s1 = stateObjects s -> dirty_set s1 = dirty_set s ->
    (match balanceInc s !! a with
     | Some bi => if negb (transferred bi) then _ ← createObject a None; so ← obj a; mret (Some so) else mret None
     | None => mret None end : M IntraBlockState (option stateObject)) s1 = Done (so, s') -> gains s s') as Habs.
  { intros s1 E1 E2 H. assert (gains s s1) as Hg by (apply gains_same; [done|by rewrite E2]).
    destruct (balanceInc s !! a) as [bi|]; [|by injection H as _ <-]. destruct (negb _); [|by injection H as _ <-].
    apply bind_Done in H as (u & s2 & H & H2). apply bind_Done in H2 as (o & s3 & H2 & [= _ <-]).
    apply obj_Done in H2 as (o2 & _ & [= _ ->]). etransitivity; [exact Hg|]. eapply gains_createObject; [by rewrite E1|done]. }
  destruct (bool_decide _); [by apply (Habs s)|].
  destruct (ReadAccountData R a) as [[acc|] [err|]].
  - apply bind_Done in E as (u & s1 & [= _ <-] & [= _ <-]). by destruct (savedErr s).
  - apply bind_Done in E as (u & s1 & E1 & E). apply bind_Done in E as (u2 & s2 & E2 & E).
    apply bind_Done in E as (o & s3 & E3 & [= _ <-]). apply obj_Done in E3 as (o2 & _ & [= _ ->]).
    assert (gains s s1 /\ stateObjects s1 = stateObjects s) as [Hg Es].
    { injection E1 as _ <-. by destruct (snap s) as [sn|]; [destruct (written sn)|]. }
    etransitivity; [exact Hg|]. eapply gains_setStateObject; [by rewrite Es|done].
  - apply bind_Done in E as (u & s1 & [= _ <-] & [= _ <-]). by destruct (savedErr s).
  - apply bind_Done in E as (u & s1 & [= _ <-] & E). by eapply Habs; [..|exact E].
Qed.

Lemma gains_load_increases : preserves gains (load_increases R iter).
Proof.
  unfold load_increases. apply preserves_bind; [typeclasses eauto|apply preserves_get; typeclasses eauto|]. intros s.
  pose proof gains_getStateObject as Hg. induction (iter _ _) as [|[a bi] l IH]; cbn [for_each]; [apply preserves_ret; typeclasses eauto|].
  apply preserves_bind; [typeclasses eauto| |intros; exact IH]. preserves_with fail.
Qed.
End Load.

(** C4: a block that is committed is what the next block reads.  Whatever calls execution
    made on a new state over a database, [CommitBlock] with a [PlainStateWriter] returns.
    If no database call failed, the journal, the revisions and the refund counter are
    reset, the objects keep their data, written slots and code, and what a fresh state
    over the new database answers is, address by address:
    - for an account the block dirtied, exactly what the committed state answers:
      existence, emptiness, balance, nonce, code hash, destruction, and every storage
      slot, written or not, through [GetState] and [GetCommittedState]; and code, where
      the committed state has it, of the same hash;
    - for an account that was destroyed without being dirty, nothing;
    - for every other account, the entry of the old database: account, storage of every
      incarnation, and code (or code of the same hash).
    The order in which Go visits its maps does not matter.  Conditions: the reader of the
    block is that of the old database, which holds accounts of the Go types and answers
    storage reads; the calls satisfy [storage_ok]; no code hashes to zero. *)
Theorem commit_reload {U : Uint256} {UL : Uint256Laws U} {C : Crypto} {CL : CryptoLaws C} {K : AccountCodec}
    {P : AccountProto} {PL : AccountProtoLaws P} {T : Type} {D : KV T} {DL : KVLaws D}
    (R : StateReader) (iter : forall A : Type, list A -> list A) (e a : bool) (s : IntraBlockState) (w : PlainStateWriter T) :
  (forall A (l : list A), iter A l ≡ₚ l) -> reader_ok R -> (forall a i k, (ReadAccountStorage R a i k).2 = None) ->
  (forall addr, wf_address addr -> plain_reader (psw_db w) R addr) -> executed R iter s ->
  exists err s' w', CommitBlock R iter plain_writer e a (s, w) = Done (err, (s', w')) /\
  (err = None ->
   journal_ s' = newJournal /\ validRevisions s' = [] /\ refund s' = 0 /\ dirty_set s ⊆ stateObjectsDirty s' /\
   (forall addr so, stateObjects s !! addr = Some so -> exists so', stateObjects s' !! addr = Some so' /\
      data so' = data so /\ dirtyStorage so' = dirtyStorage so /\ code so' = code so) /\
   forall addr R', wf_address addr -> plain_reader (psw_db w') R' addr -> hashed s' addr ->
   match stateObjects s' !! addr with
   | Some so =>
       if bool_decide (addr ∈ stateObjectsDirty s') then
         (forall q, account_query q addr -> exists r, yields (observe R q) s' r /\ yields (observe R' q) New r) /\
         (forall c, yields (GetCode R addr) s' (Some c) ->
            exists c', yields (GetCode R' addr) New c' /\ Keccak256 (default [] c') = Keccak256 c)
       else if selfdestructed so then forall q, account_query q addr -> yields (observe R' q) New (nothing q)
       else unchanged R R' addr
   | None => unchanged R R' addr
   end).
Proof.
  intros Hiter HRok Hreads HR Hex. destruct (CommitBlock_runs R iter Hiter plain_writer e a s) as (s1 & El & Hrun).
  specialize (Hrun w). destruct (plain_writes_return (write_set iter e a s1) w) as ([err|] & w' & E); rewrite E in Hrun.
  { destruct Hrun as [s' ->]. by eexists _, _, _. }
  exists None, (write_set_after iter e a s1), w'. split; [done|]. intros _. do 3 (split; [done|]).
  pose proof (plain_writes_hold _ _ _ E) as Hh. rewrite write_set_puts in Hh. clear E Hrun.
  assert (typed s1) as Ht.
  { eapply (types_load_increases R HRok iter Hiter); [|exact El].
    by apply (reachable_typed R HRok iter Hiter), executed_reachable. }
  pose proof (coheres_load_increases R iter _ _ _ El (executed_coherent R Hreads iter Hiter s Hex)) as Hc.
  destruct (gains_load_increases R iter _ _ _ El) as [Hobj Hdirty]. split; [done|]. split.
  { intros addr so Hso%Hobj. destruct (object_after_fields iter Hiter e a addr so (is_dirty s1 addr)) as (E1 & E2 & E3 & _).
    eexists. split; [by apply after_at|done]. }
  intros addr R' Ha HR' Hz. pose proof (HR addr Ha) as HRa.
  pose proof (reload_account iter Hiter e a R s1 Ht _ _ Hh addr Ha R' HRa HR') as Hacc.
  pose proof (reload_storage_kept iter Hiter e a R s1 Ht _ _ Hh addr Ha R' HRa HR') as Hst.
  pose proof (reload_code_kept iter Hiter e a R s1 Ht _ _ Hh addr R' HRa HR') as Hco.
  destruct (stateObjects s1 !! addr) as [so|] eqn:Hso.
  2:{ rewrite (after_none iter e a s1 addr Hso). split_and!; [done| |done]. intros i k Hi Hk. by apply Hst. }
  rewrite (after_at iter e a s1 addr so Hso). change (stateObjectsDirty (write_set_after iter e a s1)) with (dirty_set s1).
  destruct (object_after_fields iter Hiter e a addr so (is_dirty s1 addr)) as (E1 & _ & _ & _ & _ & -> & _).
  assert (hashed s1 addr) as Hz1.
  { intros o Ho. simplify_eq. rewrite <-E1. apply Hz. by apply after_at. }
  case_bool_decide as Hd.
  - split; [|by intros c; eapply (reload_code iter Hiter e a R HRok s1)].
    intros q Hq. destruct (committed_answers iter Hiter e a R Hreads s1 Hc addr so q Hso Hq) as [r Hr]. exists r. split; [done|].
    eapply (reload_query iter Hiter e a R Hreads s1); eauto.
  - assert (is_dirty s1 addr = false) as Hnd by (by apply bool_decide_eq_false_2).
    rewrite Hnd in Hacc. unfold rewritten, removed in Hacc. cbn [andb] in Hacc. rewrite orb_false_r in Hacc.
    destruct (selfdestructed so); [intros q Hq; by apply (fresh_absent R' addr)|].
    split_and!; [done| |done]. intros i k Hi Hk. apply Hst; [done..|]. intros so0 Hso0. left. unfold rewritten. by rewrite Hnd.
Qed.

(** C20: the commit of a block tells the writer the truth about what it overwrites.
    Whatever calls execution made on a new state - reads, writes, self-destructs,
    account creations, snapshots, reverts, finalisations of transactions - [CommitBlock]
    returns, and with every storage slot it writes it passes, as the original value from
    which the writer skips unchanged slots and records the history, the value the database
    holds for that slot.  Conditions: the database holds accounts of the Go types and
    answers storage reads, contracts are created under incarnations for which it holds no
    slot, incarnations are set from outside only for accounts without storage, and
    storage is not overridden. *)
Theorem original_slots {U : Uint256} {UL : Uint256Laws U} {C : Crypto} {CL : CryptoLaws C} {K : AccountCodec}
    (R : StateReader) (iter : forall A : Type, list A -> list A) (e a : bool) (s : IntraBlockState) :
  reader_ok R -> (forall a i k, (ReadAccountStorage R a i k).2 = None) -> (forall A (l : list A), iter A l ≡ₚ l) ->
  executed R iter s ->
  exists s' ops, CommitBlock R iter recorder e a (s, []) = Done (None, (s', ops)) /\
    forall addr i k original value, WriteAccountStorage addr i k original value ∈ ops ->
      slot_value (ReadAccountStorage R addr i k) = Some original.
Proof.
  intros HR Hreads Hiter Hs. destruct (CommitBlock_runs R iter Hiter recorder e a s) as (s1 & E & Hrun).
  specialize (Hrun []). rewrite recorder_each in Hrun. eexists _, _. split; [exact Hrun|]. cbn [app].
  assert (typed s1) as Ht.
  { eapply types_load_increases; [done..| |exact E]. by eapply reachable_typed, executed_reachable. }
  pose proof (coheres_load_increases R iter _ _ _ E (executed_coherent R Hreads iter Hiter s Hs)) as Hc.
  intros addr i k o v Hin. apply list_elem_of_In, in_flat_map in Hin as ([x so] & Hx & Hop).
  apply list_elem_of_In, iter_in in Hx; [|done]. apply list_elem_of_In in Hop.
  apply slot_op_in in Hop as (_ & -> & -> & -> & Hd); [|done].
  rewrite (ok_address _ _ (ty_objects _ Ht _ _ Hx)). apply (sf_objects _ _ _ Hc _ _ Hx). eauto.
Qed.

(** * A block is committed: a concrete run

    A key-value store and a protobuf codec with the documented behaviour, and the
    commit theorems applied to two blocks: the second one runs over the database
    that the first one left. *)

(** ** A database *)

Notation table_map := (gmap (string * bytes) bytes).

Definition map_kv : KV table_map := {|
  GetOne db t k := (db !! (t, k), None);
  Put t k v db := (None, <[(t, k) := v]> db);
  Delete t k db := (None, delete (t, k) db)
|}.

Lemma map_kv_laws : KVLaws map_kv.
Proof.
  split; cbn; intros db db' t k.
  - intros v t' k' [= <-]. case_decide as E; [rewrite E; by rewrite lookup_insert_eq|by rewrite lookup_insert_ne].
  - intros t' k' [= <-]. case_decide as E; [rewrite E; by rewrite lookup_delete_eq|by rewrite lookup_delete_ne].
Qed.

(** ** A codec: the message as one number *)

#[global] Instance H128_eq : EqDecision H128.
Proof. solve_decision. Defined.
#[global] Instance H128_countable : Countable H128.
Proof. refine (inj_countable' (fun h => (H128_Hi h, H128_Lo h)) (fun p => mkH128 p.1 p.2) _). by intros []. Defined.
#[global] Instance H256_eq : EqDecision H256.
Proof. solve_decision. Defined.
#[global] Instance H256_countable : Countable H256.
Proof. refine (inj_countable' (fun h => (H256_Hi h, H256_Lo h)) (fun p => mkH256 p.1 p.2) _). by intros []. Defined.
#[global] Instance pbAccount_eq : EqDecision pbAccount.
Proof. solve_decision. Defined.
#[global] Instance pbAccount_countable : Countable pbAccount.
Proof.
  refine (inj_countable'
    (fun p => (pb_Initialised p, pb_Nonce p, pb_Balance p, pb_Root p, pb_CodeHash p, pb_Incarnation p))
    (fun '(i, n, b, r, h, inc) => mkPbAccount i n b r h inc) _). by intros [].
Defined.

Definition count_proto : AccountProto := {|
  Marshal p := 1 :: min_be (Zpos (encode p));
  Unmarshal bs :=
    match bs with
    | _ :: r => match decode (Z.to_pos (be_to_Z r)) with Some p => inl p | None => inr (ReadError "malformed") end
    | [] => inr (ReadError "empty")
    end
|}.

Lemma count_proto_laws : AccountProtoLaws count_proto.
Proof.
  split; intros p _; [|done]. cbn [Marshal Unmarshal count_proto]. rewrite be_to_Z_min_be by lia. cbn. by rewrite decode_encode.
Qed.

(** ** Two blocks *)

Section Run.
#[local] Existing Instances ref_uint256 uint256.ref_uint256_laws ref_crypto ref_crypto_laws map_kv map_kv_laws count_proto count_proto_laws.
#[local] Instance codec : AccountCodec := {| EncodeForStorage := account_Marshal |}.

Notation in_order := (fun (A : Type) (l : list A) => l).

(** The reader of a database whose entries can be decoded. *)
Definition reader_of (db : table_map) : StateReader := mkStateReader
  (fun a => match plain_ReadAccountData db a with Done r => r | _ => (None, None) end)
  (plain_ReadAccountStorage db) (plain_ReadAccountCode db) (plain_ReadAccountCodeSize db)
  (fun a => match plain_ReadAccountIncarnation db a with Done r => r | _ => (0, None) end).

Definition wf_account_b (a : StateAccount) : bool :=
  (0 <=? Nonce a) && (Nonce a <? two64) && (0 <=? Balance a) && (Balance a <? two256) && (0 <=? Root a) && (Root a <? two256) &&
  (0 <=? CodeHash a) && (CodeHash a <? two256) && (0 <=? Incarnation a) && (Incarnation a <? two16).

Lemma wf_account_b_ok a : wf_account_b a = true -> wf_account a.
Proof. unfold wf_account_b, wf_account, word. intros H. repeat apply andb_prop in H as [H ?]. lia. Qed.

(** What the theorems ask of a database, checked entry by entry. *)
Definition sound_entry (p : (string * bytes) * bytes) : bool :=
  let '((t, k), v) := p in
  (if bool_decide (t = modules.Account) then
     (zlen v =? 0) || match DecodeForStorage zero_account v with Done (inl acc) => wf_account_b acc | _ => false end
   else true) &&
  (if bool_decide (t = modules.IncarnationMap) then (zlen v =? 0) || (2 <=? zlen v) else true) &&
  (if bool_decide (t = modules.Code) then bool_decide (Z_to_be 32 (Keccak256 v) = k) else true).

Definition sound_db (db : table_map) : bool := forallb sound_entry (map_to_list db).

Lemma sound_at db t k v : sound_db db = true -> db !! (t, k) = Some v -> sound_entry ((t, k), v) = true.
Proof.
  unfold sound_db. intros H Hv. rewrite forallb_forall in H. apply H, list_elem_of_In. by apply elem_of_map_to_list.
Qed.

Lemma sound_account db a : sound_db db = true ->
  exists r, plain_ReadAccountData db a = Done r /\ forall acc, r = (Some acc, None) -> wf_account acc.
Proof.
  intros Hs. unfold plain_ReadAccountData. cbn [GetOne map_kv].
  destruct (db !! (modules.Account, Z_to_be 20 a)) as [v|] eqn:Hv; cbn [default]; [|by eexists].
  apply (sound_at _ _ _ _ Hs) in Hv. unfold sound_entry in Hv. rewrite bool_decide_eq_true_2 in Hv by done.
  apply andb_prop in Hv as [Hv _]. apply andb_prop in Hv as [Hv _]. apply orb_prop in Hv as [Hv|Hv].
  { apply Z.eqb_eq in Hv. cbn. rewrite Hv. by eexists. }
  cbn [default Datatypes.id from_option]. destruct (zlen v =? 0); [by eexists|].
  destruct (DecodeForStorage zero_account v) as [[acc|err]| |]; try done. eexists. split; [done|].
  intros acc' [= <-]. by apply wf_account_b_ok.
Qed.

Lemma sound_incarnation db a : sound_db db = true -> exists r, plain_ReadAccountIncarnation db a = Done r.
Proof.
  intros Hs. unfold plain_ReadAccountIncarnation. cbn [GetOne map_kv].
  destruct (db !! (modules.IncarnationMap, Z_to_be 20 a)) as [v|] eqn:Hv; [|by eexists].
  apply (sound_at _ _ _ _ Hs) in Hv. unfold sound_entry in Hv. rewrite (bool_decide_eq_true_2 (modules.IncarnationMap = modules.IncarnationMap)) in Hv by done.
  apply andb_prop in Hv as [Hv _]. apply andb_prop in Hv as [_ Hv].
  change (default [] (Some v)) with v. destruct (Z.eqb_spec (zlen v) 0); [by eexists|]. cbn in Hv.
  destruct (Z.ltb_spec (zlen v) 2); [|by eexists]. apply Z.leb_le in Hv. lia.
Qed.

Lemma sound_reader db a : sound_db db = true -> plain_reader db (reader_of db) a.
Proof.
  intros Hs. unfold plain_reader, reader_of. cbn [ReadAccountData ReadAccountStorage ReadAccountCode ReadAccountCodeSize ReadAccountIncarnation].
  destruct (sound_account db a Hs) as (r & -> & _). destruct (sound_incarnation db a Hs) as (r' & ->). by split_and!.
Qed.

Lemma sound_reader_ok db : sound_db db = true -> reader_ok (reader_of db).
Proof.
  intros Hs. split; cbn [reader_of ReadAccountData ReadAccountCode].
  - intros a acc. destruct (sound_account db a Hs) as (r & -> & Hr). apply Hr.
  - intros a i h c err Hw. unfold plain_ReadAccountCode. destruct (h =? emptyCodeHash); [done|]. cbn [GetOne map_kv].
    destruct (db !! (modules.Code, Z_to_be 32 h)) as [v|] eqn:Hv; [|done]. change (default [] (Some v)) with v.
    destruct (zlen v =? 0); [done|]. intros [= <- _]. apply (sound_at _ _ _ _ Hs) in Hv. unfold sound_entry in Hv.
    apply andb_prop in Hv as [_ Hv]. rewrite bool_decide_eq_true_2 in Hv by done. apply bool_decide_eq_true_1 in Hv.
    eapply Z_to_be_inj; [| |exact Hv]; [apply Keccak256_word|done].
Qed.

Lemma reader_of_reads db a i k : (ReadAccountStorage (reader_of db) a i k).2 = None.
Proof. cbn [reader_of ReadAccountStorage]. unfold plain_ReadAccountStorage. cbn [GetOne map_kv]. by destruct (_ =? 0). Qed.

Fixpoint exec_calls (R : StateReader) (cs : list call) : M IntraBlockState () :=
  match cs with
  | [] => mret ()
  | c :: cs => _ ← exec_call R in_order c; exec_calls R cs
  end.

Definition run (db : table_map) (cs : list call) : IntraBlockState :=
  match exec_calls (reader_of db) cs New with Done (_, s) => s | _ => New end.

Lemma exec_calls_executed R cs s s' : Forall (fun c => call_ok c /\ forall t, storage_ok R c t) cs -> executed R in_order s ->
  exec_calls R cs s = Done ((), s') -> executed R in_order s'.
Proof.
  revert s; induction cs as [|c cs IH]; intros s Hcs Hs E; cbn in E; [go_inv; by simplify_eq|].
  apply Forall_cons_iff in Hcs as [[Hc Hst] Hcs]. apply bind_Done in E as ([] & s1 & E1 & E).
  eapply (IH s1); [done|by eapply executed_call|done].
Qed.

Lemma run_executed db cs : Forall (fun c => call_ok c /\ forall t, storage_ok (reader_of db) c t) cs ->
  executed (reader_of db) in_order (run db cs).
Proof.
  intros Hcs. unfold run. destruct (exec_calls (reader_of db) cs New) as [[[] s]| |] eqn:E; [|constructor..].
  eapply exec_calls_executed; [exact Hcs|constructor|exact E].
Qed.

Notation commit db s := (CommitBlock (reader_of db) in_order plain_writer true false
  (s, NewPlainStateWriterNoHistory (T := table_map) db)).

(** The first block: pay account 7; create contract 9, give it code and a slot; touch
    account 11; make a change that is reverted. *)
Definition calls1 : list call :=
  [CCmd (CAddBalance 7 100); CCmd (CCreateAccount 9 true); CCmd (CSetCode 9 (Some [96; 0])); CCmd (CSetState 9 1 5);
   CCmd (CSetNonce 9 1); CCmd (CSetBalance 11 0); CCmd CSnapshot; CCmd (CSetState 9 2 6); CCmd (CRevertToSnapshot 0);
   CFinalizeTx true false].

Definition db1 : table_map := match commit ∅ (run ∅ calls1) with Done (None, (_, w)) => psw_db w | _ => ∅ end.

(** The second block, over that database: change the slot, write one and take it back,
    pay account 7 again without loading it, destroy account 12. *)
Definition calls2 : list call :=
  [CCmd (CSetState 9 1 8); CCmd CSnapshot; CCmd (CSetState 9 2 6); CCmd (CRevertToSnapshot 0); CFinalizeTx true false;
   CCmd (CAddBalance 7 11); CCmd (CSetNonce 12 1); CCmd (CSelfdestruct 12); CFinalizeTx true false].

Lemma calls2_ok : Forall (fun c => call_ok c /\ forall t, storage_ok (reader_of db1) c t) calls2.
Proof. repeat (apply Forall_cons_2; [done|]). by apply Forall_nil_2. Qed.

Lemma db1_sound : sound_db db1 = true.
Proof. vm_compute. reflexivity. Qed.

Lemma wf_small a : 0 <= a < 256 -> wf_address a.
Proof. unfold wf_address. lia. Qed.

Lemma original_slots_witness : exists s' ops,
  CommitBlock (reader_of db1) in_order recorder true false (run db1 calls2, []) = Done (None, (s', ops)) /\
  slot_value (ReadAccountStorage (reader_of db1) 9 1 1) = Some 5.
Proof.
  destruct (original_slots (reader_of db1) in_order true false (run db1 calls2) (sound_reader_ok db1 db1_sound)
    (reader_of_reads db1) (fun _ _ => Permutation_refl _) (run_executed db1 calls2 calls2_ok)) as (s' & ops & E & H).
  exists s', ops. split; [exact E|]. apply (H 9 1 1 5 8).
  assert (Hc : match CommitBlock (reader_of db1) in_order recorder true false (run db1 calls2, []) with
    | Done (_, (_, ops)) => existsb (fun op => match op with WriteAccountStorage 9 1 1 5 8 => true | _ => false end) ops
    | _ => false end = true) by (vm_compute; reflexivity).
  rewrite E in Hc. apply existsb_exists in Hc as (op & Hin & Hop). apply list_elem_of_In. revert Hin.
  destruct op as [| | |x1 x2 x3 x4 x5|]; try discriminate Hop.
  repeat match type of Hop with context [match ?x with _ => _ end] => destruct x; try discriminate Hop end. done.
Defined.

(** The committed state answers the query about a dirty account so. *)
Definition answered (s' : IntraBlockState) (x : query * Z * answer) : bool :=
  let '(q, addr, r) := x in
  bool_decide (addr ∈ stateObjectsDirty s') &&
  match stateObjects s' !! addr with Some o => negb (CodeHash (data o) =? 0) | None => false end &&
  match observe (reader_of db1) q s', r with
  | Done (AInt x, _), AInt y => x =? y
  | Done (ABool x, _), ABool y => Bool.eqb x y
  | _, _ => false
  end.

Definition expected : list (query * Z * answer) :=
  [(QState 9 1, 9, AInt 8); (QState 9 2, 9, AInt 0); (QBalance 7, 7, AInt 111); (QExist 12, 12, ABool false)].

Lemma commit2_answers :
  match commit db1 (run db1 calls2) with
  | Done (None, (s', w')) => sound_db (psw_db w') && forallb (answered s') expected
  | _ => false
  end = true.
Proof. vm_compute. reflexivity. Qed.

Lemma expected_in x s' : forallb (answered s') expected = true -> x ∈ expected -> answered s' x = true.
Proof. intros H Hx. rewrite forallb_forall in H. by apply H, list_elem_of_In. Qed.

Lemma answered_object s' q addr r : answered s' (q, addr, r) = true ->
  bool_decide (addr ∈ stateObjectsDirty s') = true /\ hashed s' addr /\ is_Some (stateObjects s' !! addr) /\
  forall x, yields (observe (reader_of db1) q) s' x -> x = r.
Proof.
  unfold answered. intros H. apply andb_prop in H as [H Hv]. apply andb_prop in H as [Hd Ho].
  split; [exact Hd|]. unfold hashed. destruct (stateObjects s' !! addr) as [o|]; [|discriminate Ho].
  apply negb_true_iff, Z.eqb_neq in Ho. split_and!; [by intros ? [= <-]|by eexists|].
  intros x [t Ht]. rewrite Ht in Hv. destruct x as [b|z|c], r as [b'|z'|c']; try discriminate Hv.
  - by apply Bool.eqb_prop in Hv as ->.
  - by apply Z.eqb_eq in Hv as ->.
Qed.

(** After the second block a fresh state reads the changed slot, the two payments, no
    account 12, and the slot that was taken back as before. *)
Lemma commit_reload_witness : exists s' w',
  commit db1 (run db1 calls2) = Done (None, (s', w')) /\
  forall q addr r, (q, addr, r) ∈ expected -> account_query q addr -> wf_address addr ->
    yields (observe (reader_of (psw_db w')) q) New r.
Proof.
  destruct (commit_reload (T := table_map) (reader_of db1) in_order true false (run db1 calls2)
    (NewPlainStateWriterNoHistory db1) (fun _ _ => Permutation_refl _) (sound_reader_ok db1 db1_sound) (reader_of_reads db1)
    (fun addr _ => sound_reader db1 addr db1_sound) (run_executed db1 calls2 calls2_ok)) as (err & s' & w' & E & H).
  pose proof commit2_answers as Hc. rewrite E in Hc. destruct err as [err|]; [discriminate Hc|].
  apply andb_prop in Hc as [Hsound Hc]. destruct (H eq_refl) as (_ & _ & _ & _ & _ & Hr). clear H.
  exists s', w'. split; [exact E|]. intros q addr r Hin Hq Ha.
  destruct (answered_object s' q addr r (expected_in _ _ Hc Hin)) as (Hd & Hh & [o Ho] & Hx).
  specialize (Hr addr (reader_of (psw_db w')) Ha (sound_reader _ addr Hsound) Hh). rewrite Ho, Hd in Hr.
  destruct Hr as [Hr _]. destruct (Hr q Hq) as (x & Hs & Hf). rewrite <-(Hx x Hs). exact Hf.
Defined.
End Run.
