(* ===== verification/EvmTypes.v ===== *)
(** * The virtual machine: data

    The errors of [internal/vm/errors.go], the chain rules of
    [params/config.go], the contexts and the state interface of
    [internal/vm/evmtypes/evmtypes.go], the contract of
    [internal/vm/contract.go] and the state of [EVM] and [EVMInterpreter]
    ([internal/vm/evm.go], [internal/vm/interpreter.go]).

    The virtual machine is a client of the state: it is written against the
    class [ibs.IntraBlockState], the Go interface of the same name, for an
    abstract type [S] of states.  The Debug tracer only observes and is left
    out. *)

From stdpp Require Import strings.
From S2P Require Import Prelude Uint256 Params Stack Memory Analysis Common.

(** ** Errors *)

Inductive VMError : Type :=
| ErrInvalidSubroutineEntry
| ErrOutOfGas
| ErrCodeStoreOutOfGas
| ErrDepth
| ErrInsufficientBalance
| ErrContractAddressCollision
| ErrExecutionReverted
| ErrMaxCodeSizeExceeded
| ErrInvalidJump
| ErrWriteProtection
| ErrReturnDataOutOfBounds
| ErrGasUintOverflow
| ErrInvalidRetsub
| ErrReturnStackExceeded
| ErrInvalidCode
| ErrNonceUintOverflow
| errStopToken
| ErrStackUnderflow (stackLen required : Z)
| ErrStackOverflow (stackLen limit : Z)
| ErrInvalidOpCode (opcode : Z)
(** an error made by [errors.New] or [fmt.Errorf] outside the list *)
| ErrOther (msg : string).

#[global] Instance VMError_eq_dec : EqDecision VMError.
Proof. solve_decision. Defined.

(** [params.Rules]; [ChainID] is never nil. *)
Record Rules : Type := mkRules {
  ChainID : Z;
  IsHomestead : bool; IsTangerineWhistle : bool; IsSpuriousDragon : bool;
  IsByzantium : bool; IsConstantinople : bool; IsPetersburg : bool; IsIstanbul : bool;
  IsBerlin : bool; IsLondon : bool; IsShanghai : bool; IsCancun : bool; IsPrague : bool;
  IsNano : bool; IsMoran : bool;
  IsEip1559FeeCollector : bool;
  IsParlia : bool; IsStarknet : bool; IsAura : bool; IsBeijing : bool
}.

(** ** The state the virtual machine runs on *)

Module ibs.

(** [evmtypes.IntraBlockState]: the operations an instruction or a
    message can call.  A
    method that writes its result through a pointer returns it; the code of an
    account is [None] where the Go method returns nil. *)
Class IntraBlockState (S : Type) : Type := {
  CreateAccount : Z -> bool -> M S ();
  SubBalance : Z -> Z -> M S ();
  AddBalance : Z -> Z -> M S ();
  GetBalance : Z -> M S Z;
  GetNonce : Z -> M S Z;
  SetNonce : Z -> Z -> M S ();
  GetCodeHash : Z -> M S Z;
  GetCode : Z -> M S (option bytes);
  SetCode : Z -> option bytes -> M S ();
  GetCodeSize : Z -> M S Z;
  AddRefund : Z -> M S ();
  SubRefund : Z -> M S ();
  GetRefund : M S Z;
  GetCommittedState : Z -> Z -> M S Z;
  GetState : Z -> Z -> M S Z;
  SetState : Z -> Z -> Z -> M S ();
  Selfdestruct : Z -> M S bool;
  HasSelfdestructed : Z -> M S bool;
  Exist : Z -> M S bool;
  Empty : Z -> M S bool;
  AddressInAccessList : Z -> M S bool;
  SlotInAccessList : Z -> Z -> M S (bool * bool);
  AddAddressToAccessList : Z -> M S ();
  AddSlotToAccessList : Z -> Z -> M S ();
  RevertToSnapshot : Z -> M S ();
  Snapshot : M S Z;
  AddLog : Log -> M S ();
  PrepareAccessList : Z -> option Z -> list Z -> list (Z * list Z) -> M S ()
}.
End ibs.

(** [evmtypes.BlockContext]; [None] is a nil pointer.  [GetHash] closes over the
    chain and does not touch the state. *)
Record BlockContext (S : Type) : Type := mkBlockContext {
  CanTransfer : Z -> Z -> M S bool;
  Transfer : Z -> Z -> Z -> bool -> M S ();
  GetHash : Z -> Z;
  Coinbase : Z;
  GasLimit : Z;
  MaxGasLimit : bool;
  BlockNumber : Z;
  Time : Z;
  Difficulty : option Z;
  BaseFee : option Z;
  PrevRanDao : option Z
}.
Arguments CanTransfer {S}.
Arguments Transfer {S}.
Arguments GetHash {S}.
Arguments Coinbase {S}.
Arguments GasLimit {S}.
Arguments MaxGasLimit {S}.
Arguments BlockNumber {S}.
Arguments Time {S}.
Arguments Difficulty {S}.
Arguments BaseFee {S}.
Arguments PrevRanDao {S}.

Record TxContext : Type := mkTxContext {
  TxHash : Z;
  Origin : Z;
  GasPrice : option Z
}.

(** [vm.Config] without the tracer. *)
Record Config : Type := mkConfig {
  NoRecursion : bool;
  NoBaseFee : bool;
  SkipAnalysis : bool;
  TraceJumpDest : bool;
  NoReceipts : bool;
  ReadOnly : bool;
  StatelessExec : bool;
  RestoreState : bool;
  ExtraEips : list Z
}.

Definition HasEip3860 (vmConfig : Config) (rules : Rules) : bool :=
  if existsb (fun eip => eip =? 3860) (ExtraEips vmConfig) then true else IsShanghai rules.

(** ** Contracts *)

(** A [ContractRef] is an [AccountRef] or a pointer to a [Contract]; of a parent
    contract the code reads the address and the fields [CallerAddress], [value]
    and [jumpdests], none of which changes while the parent runs. *)
Inductive ContractRef : Type :=
| AccountRef (addr : Z)
| ParentContract (addr callerAddress : Z) (value : option Z) (jumpdests : nat).

Definition ContractRef_Address (r : ContractRef) : Z :=
  match r with AccountRef a => a | ParentContract a _ _ _ => a end.

(** [jumpdests] is a Go map, shared by a contract and the contracts it calls: it
    is named by its position in the heap of such maps. *)
Record Contract : Type := mkContract {
  CallerAddress : Z;
  caller : ContractRef;
  self : Z;
  jumpdests : nat;
  analysis : option (list Z);
  skipAnalysis : bool;
  Code : bytes;
  CodeHash : Z;
  CodeAddr : option Z;
  Input : bytes;
  Gas : Z;
  value : option Z
}.

Definition set_Gas (g : Z) (c : Contract) : Contract :=
  mkContract (CallerAddress c) (caller c) (self c) (jumpdests c) (analysis c) (skipAnalysis c)
    (Code c) (CodeHash c) (CodeAddr c) (Input c) g (value c).
Definition set_analysis (a : option (list Z)) (c : Contract) : Contract :=
  mkContract (CallerAddress c) (caller c) (self c) (jumpdests c) a (skipAnalysis c)
    (Code c) (CodeHash c) (CodeAddr c) (Input c) (Gas c) (value c).
Definition set_Input (i : bytes) (c : Contract) : Contract :=
  mkContract (CallerAddress c) (caller c) (self c) (jumpdests c) (analysis c) (skipAnalysis c)
    (Code c) (CodeHash c) (CodeAddr c) i (Gas c) (value c).
Definition set_code_fields (addr : option Z) (hash : Z) (code : bytes) (c : Contract) : Contract :=
  mkContract (CallerAddress c) (caller c) (self c) (jumpdests c) (analysis c) (skipAnalysis c)
    code hash addr (Input c) (Gas c) (value c).
Definition set_delegate (callerAddress : Z) (v : option Z) (c : Contract) : Contract :=
  mkContract callerAddress (caller c) (self c) (jumpdests c) (analysis c) (skipAnalysis c)
    (Code c) (CodeHash c) (CodeAddr c) (Input c) (Gas c) v.

(** What a callee sees of the contract that calls it. *)
Definition contract_ref (c : Contract) : ContractRef :=
  ParentContract (self c) (CallerAddress c) (value c) (jumpdests c).

(** ** The state of the machine *)

(** The maps of [EVM] and of its interpreter that change during a run.  [polls]
    counts the calls of [Cancelled], which another goroutine can make true. *)
Record VM (S : Type) : Type := mkVM {
  intraBlockState : S;
  callGasTemp : Z;
  depth : Z;
  readOnly : bool;
  returnData : bytes;
  hasherBuf : Z;
  jumpdest_maps : list (gmap Z (list Z));
  polls : nat
}.
Arguments mkVM {S}.
Arguments intraBlockState {S}.
Arguments callGasTemp {S}.
Arguments depth {S}.
Arguments readOnly {S}.
Arguments returnData {S}.
Arguments hasherBuf {S}.
Arguments jumpdest_maps {S}.
Arguments polls {S}.

Section VMSetters.
Context {S : Type}.
Implicit Types e : VM S.

Definition set_ibs (s : S) e : VM S :=
  mkVM s (callGasTemp e) (depth e) (readOnly e) (returnData e) (hasherBuf e) (jumpdest_maps e) (polls e).
Definition set_callGasTemp g e : VM S :=
  mkVM (intraBlockState e) g (depth e) (readOnly e) (returnData e) (hasherBuf e) (jumpdest_maps e) (polls e).
Definition set_depth d e : VM S :=
  mkVM (intraBlockState e) (callGasTemp e) d (readOnly e) (returnData e) (hasherBuf e) (jumpdest_maps e) (polls e).
Definition set_readOnly r e : VM S :=
  mkVM (intraBlockState e) (callGasTemp e) (depth e) r (returnData e) (hasherBuf e) (jumpdest_maps e) (polls e).
Definition set_returnData d e : VM S :=
  mkVM (intraBlockState e) (callGasTemp e) (depth e) (readOnly e) d (hasherBuf e) (jumpdest_maps e) (polls e).
Definition set_hasherBuf h e : VM S :=
  mkVM (intraBlockState e) (callGasTemp e) (depth e) (readOnly e) (returnData e) h (jumpdest_maps e) (polls e).
Definition set_jumpdest_maps m e : VM S :=
  mkVM (intraBlockState e) (callGasTemp e) (depth e) (readOnly e) (returnData e) (hasherBuf e) m (polls e).
Definition set_polls n e : VM S :=
  mkVM (intraBlockState e) (callGasTemp e) (depth e) (readOnly e) (returnData e) (hasherBuf e) (jumpdest_maps e) n.
End VMSetters.

(** One activation of [Run]: the scope context, the program counter and the
    machine. *)
Record Frame (S : Type) : Type := mkFrame {
  pc : Z;
  Stack_ : stack.Stack;
  Memory_ : memory.Memory;
  Contract_ : Contract;
  vm : VM S
}.
Arguments mkFrame {S}.
Arguments pc {S}.
Arguments Stack_ {S}.
Arguments Memory_ {S}.
Arguments Contract_ {S}.
Arguments vm {S}.

Section FrameSetters.
Context {S : Type}.
Implicit Types f : Frame S.

Definition set_pc p f : Frame S := mkFrame p (Stack_ f) (Memory_ f) (Contract_ f) (vm f).
Definition set_Stack st f : Frame S := mkFrame (pc f) st (Memory_ f) (Contract_ f) (vm f).
Definition set_Memory m f : Frame S := mkFrame (pc f) (Stack_ f) m (Contract_ f) (vm f).
Definition set_Contract c f : Frame S := mkFrame (pc f) (Stack_ f) (Memory_ f) c (vm f).
Definition set_vm e f : Frame S := mkFrame (pc f) (Stack_ f) (Memory_ f) (Contract_ f) e.

(** Operations of the parts of a frame. *)
Definition on_stack {A} : M stack.Stack A -> M (Frame S) A := zoom Stack_ set_Stack.
Definition on_mem {A} : M memory.Memory A -> M (Frame S) A := zoom Memory_ set_Memory.
Definition on_vm {A} : M (VM S) A -> M (Frame S) A := zoom vm set_vm.
Definition on_ibs {A} (m : M S A) : M (VM S) A := zoom intraBlockState set_ibs m.
Definition state {A} (m : M S A) : M (Frame S) A := on_vm (on_ibs m).
Definition on_contract (g : Contract -> Contract) : M (Frame S) () :=
  modify (fun f => set_Contract (g (Contract_ f)) f).
End FrameSetters.

(** ** Running environment, constant during a transaction *)

Record Env (S : Type) : Type := mkEnv {
  context : BlockContext S;
  txContext : TxContext;
  chainRules : Rules;
  config : Config;
  (** what the [n]-th poll of [Cancelled] answers *)
  Cancelled : nat -> bool
}.
Arguments context {S}.
Arguments txContext {S}.
Arguments chainRules {S}.
Arguments config {S}.
Arguments Cancelled {S}.

(** The part of [VMInterpreter] an instruction uses to enter another contract. *)
Record Calls (S : Type) : Type := mkCalls {
  Call : ContractRef -> Z -> bytes -> Z -> option Z -> bool -> M (VM S) (bytes * Z * option VMError);
  CallCode : ContractRef -> Z -> bytes -> Z -> option Z -> M (VM S) (bytes * Z * option VMError);
  DelegateCall : ContractRef -> Z -> bytes -> Z -> M (VM S) (bytes * Z * option VMError);
  StaticCall : ContractRef -> Z -> bytes -> Z -> M (VM S) (bytes * Z * option VMError);
  Create : ContractRef -> bytes -> Z -> Z -> M (VM S) (bytes * Z * Z * option VMError);
  Create2 : ContractRef -> bytes -> Z -> Z -> Z -> M (VM S) (bytes * Z * Z * option VMError)
}.
Arguments Call {S}.
Arguments CallCode {S}.
Arguments DelegateCall {S}.
Arguments StaticCall {S}.
Arguments Create {S}.
Arguments Create2 {S}.
