(* ===== verification/Contract.v ===== *)
(** * Contracts ([internal/vm/contract.go])

    The execution context of one call: gas, code and the cached jump
    destination analysis.  The cache is a Go map shared between a contract and
    the contracts it calls, keyed by the code hash. *)

From S2P Require Import Prelude Uint256 Params Stack Memory Analysis Common EvmTypes.

Definition STOP : Z := 0.

(** [UseGas] and [GetOp] *)
Definition UseGas (gas : Z) : M Contract bool :=
  c ← get;
  if Gas c <? gas then mret false else
  _ ← modify (set_Gas (u64 (Gas c - gas)));
  mret true.

Definition GetOp (c : Contract) (n : Z) : Z :=
  if n <? zlen (Code c) then default STOP (znth (Code c) n) else STOP.

Definition Caller (c : Contract) : Z := CallerAddress c.
Definition Contract_Address (c : Contract) : Z := self c.
Definition Value (c : Contract) : option Z := value c.

(** [AsDelegate]; the type assertion panics when the caller is no contract. *)
Definition AsDelegate (c : Contract) : option Contract :=
  match caller c with
  | ParentContract _ callerAddress v _ => Some (set_delegate callerAddress v c)
  | AccountRef _ => None
  end.

Definition SetCallCode (addr : option Z) (hash : Z) (code : bytes) (c : Contract) : Contract :=
  set_code_fields addr hash code c.

Section Contract.
Context {U : Uint256} {S : Type}.

(** A contract called by another shares the parent's map, any other gets a new
    one. *)
Definition NewContract (caller : ContractRef) (object : Z) (value : option Z) (gas : Z)
    (skipAnalysis : bool) : M (VM S) Contract :=
  e ← get;
  jd ← match caller with
       | ParentContract _ _ _ jd => mret jd
       | AccountRef _ =>
           _ ← modify (set_jumpdest_maps (jumpdest_maps e ++ [∅]));
           mret (length (jumpdest_maps e))
       end;
  mret (mkContract (ContractRef_Address caller) caller object jd None skipAnalysis
          [] 0 None [] gas value).

(** A call of [codeBitmap] from a frame. *)
Definition run_codeBitmap (code : bytes) : M (Frame S) (list Z) := fun f =>
  match codeBitmap code with
  | Done a => Done (a, f)
  | GoPanic => GoPanic
  | NoFuel => NoFuel
  end.

Definition isCode (udest : Z) : M (Frame S) bool :=
  c ← gets Contract_;
  if negb (CodeHash c =? 0) then
    maps ← gets (jumpdest_maps ∘ vm);
    m ← must (maps !! jumpdests c);
    analysis ← match m !! CodeHash c with
               | Some a => mret a
               | None =>
                   a ← run_codeBitmap (Code c);
                   _ ← on_vm (modify (set_jumpdest_maps
                                (<[jumpdests c := <[CodeHash c := a]> m]> maps)));
                   mret a
               end;
    _ ← on_contract (set_analysis (Some analysis));
    must (isCodeFromAnalysis analysis udest)
  else
    a ← match analysis c with
        | Some a => mret a
        | None =>
            a ← run_codeBitmap (Code c);
            _ ← on_contract (set_analysis (Some a));
            mret a
        end;
    must (isCodeFromAnalysis a udest).

Definition validJumpdest (dest : Z) : M (Frame S) (bool * bool) :=
  c ← gets Contract_;
  let '(udest, overflow) := uint256.Uint64WithOverflow dest in
  if (overflow : bool) || (zlen (Code c) <=? udest) then mret (false, false) else
  op ← must (znth (Code c) udest);
  if negb (op =? JUMPDEST) then mret (false, false) else
  if skipAnalysis c then mret (true, false) else
  b ← isCode udest;
  mret (b, true).

End Contract.
