(* ===== verification/Instructions.v ===== *)
(** * Instructions ([internal/vm/instructions.go])

    One definition per [op...] function of the source, over the frame of the
    running call.  An instruction returns the Go pair of a byte slice and an
    error.  [SetOne], [Clear], [SetAllOne] and [SetUint64] give the words 1, 0,
    2^256-1 and the argument.  Warnings written to the log are left out. *)

From stdpp Require Import strings.
From S2P Require Import Prelude Uint256 Params Stack Memory Analysis Common EvmTypes Contract.

Section Instructions.
Context {U : Uint256} {C : Crypto} {S : Type} {I : ibs.IntraBlockState S} (env : Env S).

Notation MF := (M (Frame S)).

(** The Go signature of an instruction; [in] gives access to the calls of the
    interpreter. *)
Definition executionFunc : Type := Calls S -> MF (bytes * option VMError).

Definition ok : MF (bytes * option VMError) := mret ([], None).
Definition fail (e : VMError) : MF (bytes * option VMError) := mret ([], Some e).

Definition pop : MF Z := on_stack stack.Pop.
Definition peek : MF Z := on_stack stack.Peek.
Definition set_top (v : Z) : MF () := on_stack (stack.SetPeek v).
Definition push (v : Z) : MF () := on_stack (stack.Push v).
Definition use_gas (gas : Z) : MF bool := zoom Contract_ set_Contract (UseGas gas).
Definition contract_address : MF Z := gets (Contract_Address ∘ Contract_).

(** ** Arithmetic, comparison and bit operations *)

(** [x, y := Pop(), Peek(); y = f(x, y)] *)
Definition binop (f : Z -> Z -> Z) : executionFunc := fun _ =>
  x ← pop; y ← peek; _ ← set_top (f x y); ok.

Definition opAdd : executionFunc := binop (fun x y => uint256.Add x y).
Definition opSub : executionFunc := binop (fun x y => uint256.Sub x y).
Definition opMul : executionFunc := binop (fun x y => uint256.Mul x y).
Definition opDiv : executionFunc := binop (fun x y => uint256.Div x y).
Definition opSdiv : executionFunc := binop (fun x y => uint256.SDiv x y).
Definition opMod : executionFunc := binop (fun x y => uint256.Mod x y).
Definition opSmod : executionFunc := binop (fun x y => uint256.SMod x y).

Definition opExp : executionFunc := binop (fun base exponent =>
  if uint256.IsZero exponent then 1
  else if uint256.IsZero base then 0
  else if uint256.LtUint64 exponent 2 then base
  else if uint256.LtUint64 base 2 then 1
  else if uint256.LtUint64 base 3 then
    if uint256.LtUint64 exponent 256 then uint256.Lsh 1 (uint256.Uint64 exponent) else 0
  else uint256.Exp base exponent).

Definition opSignExtend : executionFunc := binop (fun back num => uint256.ExtendSign num back).

Definition opNot : executionFunc := fun _ =>
  x ← peek; _ ← set_top (uint256.Not x); ok.

Definition of_bool (b : bool) : Z := if b then 1 else 0.

Definition opLt : executionFunc := binop (fun x y => of_bool (uint256.Lt x y)).
Definition opGt : executionFunc := binop (fun x y => of_bool (uint256.Gt x y)).
Definition opSlt : executionFunc := binop (fun x y => of_bool (uint256.Slt x y)).
Definition opSgt : executionFunc := binop (fun x y => of_bool (uint256.Sgt x y)).
Definition opEq : executionFunc := binop (fun x y => of_bool (uint256.Eq x y)).

Definition opIszero : executionFunc := fun _ =>
  x ← peek; _ ← set_top (of_bool (uint256.IsZero x)); ok.

Definition opAnd : executionFunc := binop (fun x y => uint256.And x y).
Definition opOr : executionFunc := binop (fun x y => uint256.Or x y).
Definition opXor : executionFunc := binop (fun x y => uint256.Xor x y).
Definition opByte : executionFunc := binop (fun th val => uint256.Byte val th).

Definition opAddmod : executionFunc := fun _ =>
  x ← pop; y ← pop; z ← peek;
  _ ← set_top (if uint256.IsZero z then 0 else uint256.AddMod x y z); ok.

Definition opMulmod : executionFunc := fun _ =>
  x ← pop; y ← pop; z ← peek;
  _ ← set_top (if uint256.IsZero z then 0 else uint256.MulMod x y z); ok.

Definition opSHL : executionFunc := binop (fun shift value =>
  if uint256.LtUint64 shift 256 then uint256.Lsh value (uint256.Uint64 shift) else 0).

Definition opSHR : executionFunc := binop (fun shift value =>
  if uint256.LtUint64 shift 256 then uint256.Rsh value (uint256.Uint64 shift) else 0).

Definition opSAR : executionFunc := binop (fun shift value =>
  if uint256.GtUint64 shift 255 then
    if 0 <=? uint256.Sign value then 0 else two256 - 1
  else uint256.SRsh value (uint256.Uint64 shift)).

(** ** Hashing and the environment *)

Definition opKeccak256 : executionFunc := fun _ =>
  offset ← pop; size ← peek;
  data ← on_mem (memory.GetPtr (i64 (uint256.Uint64 offset)) (i64 (uint256.Uint64 size)));
  let h := Keccak256 data in
  _ ← on_vm (modify (set_hasherBuf h));
  _ ← set_top (uint256.SetBytes (Z_to_be 32 h));
  ok.

Definition opAddress : executionFunc := fun _ =>
  a ← contract_address; _ ← push (uint256.SetBytes (Z_to_be 20 a)); ok.

Definition opBalance : executionFunc := fun _ =>
  slot ← peek;
  b ← state (ibs.GetBalance (uint256.Bytes20 slot));
  _ ← set_top b;
  ok.

Definition opOrigin : executionFunc := fun _ =>
  _ ← push (uint256.SetBytes (Z_to_be 20 (Origin (txContext env)))); ok.

Definition opCaller : executionFunc := fun _ =>
  c ← gets Contract_; _ ← push (uint256.SetBytes (Z_to_be 20 (Caller c))); ok.

(** [Push] reads through the pointer. *)
Definition opCallValue : executionFunc := fun _ =>
  c ← gets Contract_; v ← must (value c); _ ← push v; ok.

Definition opCallDataLoad : executionFunc := fun _ =>
  x ← peek;
  let '(offset, overflow) := uint256.Uint64WithOverflow x in
  if negb overflow then
    c ← gets Contract_;
    data ← must (getData (Input c) offset 32);
    _ ← set_top (uint256.SetBytes data);
    ok
  else
    _ ← set_top 0; ok.

Definition opCallDataSize : executionFunc := fun _ =>
  c ← gets Contract_; _ ← push (zlen (Input c)); ok.

(** [Uint64WithOverflow], with the largest offset on overflow *)
Definition clamp64 (x : Z) : Z :=
  let '(v, overflow) := uint256.Uint64WithOverflow x in
  if overflow : bool then MaxUint64 else v.

Definition opCallDataCopy : executionFunc := fun _ =>
  memOffset ← pop; dataOffset ← pop; length ← pop;
  let memOffset64 := uint256.Uint64 memOffset in
  let length64 := uint256.Uint64 length in
  c ← gets Contract_;
  data ← must (getData (Input c) (clamp64 dataOffset) length64);
  _ ← on_mem (memory.Set_ memOffset64 length64 data);
  ok.

Definition opReturnDataSize : executionFunc := fun _ =>
  d ← gets (returnData ∘ vm); _ ← push (zlen d); ok.

Definition opReturnDataCopy : executionFunc := fun _ =>
  memOffset ← pop; dataOffset ← pop; length ← pop;
  let '(offset64, overflow) := uint256.Uint64WithOverflow dataOffset in
  if overflow : bool then fail ErrReturnDataOutOfBounds else
  let '(end_, overflow) := uint256.AddOverflow dataOffset length in
  if overflow : bool then fail ErrReturnDataOutOfBounds else
  let '(end64, overflow) := uint256.Uint64WithOverflow end_ in
  rd ← gets (returnData ∘ vm);
  if (overflow : bool) || (zlen rd <? end64) then fail ErrReturnDataOutOfBounds else
  d ← must (go_slice rd offset64 end64);
  _ ← on_mem (memory.Set_ (uint256.Uint64 memOffset) (uint256.Uint64 length) d);
  ok.

Definition opExtCodeSize : executionFunc := fun _ =>
  slot ← peek;
  n ← state (ibs.GetCodeSize (uint256.Bytes20 slot));
  _ ← set_top (u64 n);
  ok.

Definition opCodeSize : executionFunc := fun _ =>
  c ← gets Contract_; _ ← push (zlen (Code c)); ok.

Definition opCodeCopy : executionFunc := fun _ =>
  memOffset ← pop; codeOffset ← pop; length ← pop;
  c ← gets Contract_;
  codeCopy ← must (getData (Code c) (clamp64 codeOffset) (uint256.Uint64 length));
  _ ← on_mem (memory.Set_ (uint256.Uint64 memOffset) (uint256.Uint64 length) codeCopy);
  ok.

Definition opExtCodeCopy : executionFunc := fun _ =>
  a ← pop; memOffset ← pop; codeOffset ← pop; length ← pop;
  let len64 := uint256.Uint64 length in
  code ← state (ibs.GetCode (uint256.Bytes20 a));
  codeCopy ← must (getDataBig (default [] code) codeOffset len64);
  _ ← on_mem (memory.Set_ (uint256.Uint64 memOffset) len64 codeCopy);
  ok.

Definition opExtCodeHash : executionFunc := fun _ =>
  slot ← peek;
  let address := uint256.Bytes20 slot in
  empty ← state (ibs.Empty address);
  if empty : bool then
    _ ← set_top 0; ok
  else
    h ← state (ibs.GetCodeHash address);
    _ ← set_top (uint256.SetBytes (Z_to_be 32 h));
    ok.

Definition opGasprice : executionFunc := fun _ =>
  p ← must (GasPrice (txContext env)); _ ← push p; ok.

Definition opBlockhash : executionFunc := fun _ =>
  num ← peek;
  let '(num64, overflow) := uint256.Uint64WithOverflow num in
  if overflow : bool then
    _ ← set_top 0; ok
  else
    let upper := BlockNumber (context env) in
    let lower := if upper <? 257 then 0 else u64 (upper - 256) in
    if (lower <=? num64) && (num64 <? upper) then
      _ ← set_top (uint256.SetBytes (Z_to_be 32 (GetHash (context env) num64))); ok
    else
      _ ← set_top 0; ok.

Definition opCoinbase : executionFunc := fun _ =>
  _ ← push (uint256.SetBytes (Z_to_be 20 (Coinbase (context env)))); ok.
Definition opTimestamp : executionFunc := fun _ => _ ← push (Time (context env)); ok.
Definition opNumber : executionFunc := fun _ => _ ← push (BlockNumber (context env)); ok.

Definition opDifficulty : executionFunc := fun _ =>
  match PrevRanDao (context env) with
  | Some h => _ ← push (uint256.SetBytes (Z_to_be 32 h)); ok
  | None =>
      d ← must (Difficulty (context env));
      let '(v, overflow) := uint256.FromBig d in
      if overflow : bool
      then fail (ErrOther "interpreter.evm.Context.Difficulty higher than 2^256-1")
      else _ ← push v; ok
  end.

Definition opGasLimit : executionFunc := fun _ =>
  if MaxGasLimit (context env) then _ ← push (two256 - 1); ok
  else _ ← push (GasLimit (context env)); ok.

(** ** Stack, memory, storage and flow *)

Definition opPop : executionFunc := fun _ => _ ← pop; ok.

Definition opMload : executionFunc := fun _ =>
  v ← peek;
  let offset := uint256.Uint64 v in
  d ← on_mem (memory.GetPtr (i64 offset) 32);
  _ ← set_top (uint256.SetBytes d);
  ok.

Definition opMstore : executionFunc := fun _ =>
  mStart ← pop; val ← pop;
  _ ← on_mem (memory.Set32 (uint256.Uint64 mStart) val);
  ok.

Definition opMstore8 : executionFunc := fun _ =>
  off ← pop; val ← pop;
  m ← gets Memory_;
  store' ← must (zset (memory.store m) (uint256.Uint64 off) (u8 (uint256.Uint64 val)));
  _ ← on_mem (modify (memory.set_store store'));
  ok.

Definition opSload : executionFunc := fun _ =>
  loc ← peek;
  let h := uint256.Bytes32 loc in
  _ ← on_vm (modify (set_hasherBuf h));
  a ← contract_address;
  v ← state (ibs.GetState a h);
  _ ← set_top v;
  ok.

Definition opSstore : executionFunc := fun _ =>
  ro ← gets (readOnly ∘ vm);
  if ro : bool then fail ErrWriteProtection else
  loc ← pop; val ← pop;
  let h := uint256.Bytes32 loc in
  _ ← on_vm (modify (set_hasherBuf h));
  a ← contract_address;
  _ ← state (ibs.SetState a h val);
  ok.

Definition opJump : executionFunc := fun _ =>
  pos ← pop;
  '(valid, usedBitmap) ← validJumpdest pos;
  if negb valid then fail ErrInvalidJump else
  _ ← modify (set_pc (u64 (uint256.Uint64 pos - 1)));
  ok.

Definition opJumpi : executionFunc := fun _ =>
  pos ← pop; cond ← pop;
  if negb (uint256.IsZero cond) then
    '(valid, usedBitmap) ← validJumpdest pos;
    if negb valid then fail ErrInvalidJump else
    _ ← modify (set_pc (u64 (uint256.Uint64 pos - 1)));
    ok
  else ok.

Definition opJumpdest : executionFunc := fun _ => ok.
Definition opPc : executionFunc := fun _ => p ← gets pc; _ ← push p; ok.
Definition opMsize : executionFunc := fun _ =>
  m ← gets Memory_; _ ← push (u64 (memory.Len m)); ok.
Definition opGas : executionFunc := fun _ =>
  c ← gets Contract_; _ ← push (Gas c); ok.

(** ** Calls and creations *)

Definition return_gas (gas : Z) : MF () :=
  on_contract (fun c => set_Gas (u64 (Gas c + gas)) c).

(** The last lines of [opCreate] and [opCreate2]. *)
Definition finish_create (res : bytes) (returnGas : Z) (suberr : option VMError)
    : MF (bytes * option VMError) :=
  _ ← return_gas returnGas;
  if decide (suberr = Some ErrExecutionReverted) then
    _ ← on_vm (modify (set_returnData res));
    mret (res, None)
  else
    _ ← on_vm (modify (set_returnData []));
    ok.

Definition opCreate : executionFunc := fun in_ =>
  ro ← gets (readOnly ∘ vm);
  if ro : bool then fail ErrWriteProtection else
  value ← pop; offset ← pop; size ← peek;
  input ← on_mem (memory.GetCopy (i64 (uint256.Uint64 offset)) (i64 (uint256.Uint64 size)));
  c ← gets Contract_;
  let gas := Gas c in
  let gas := if IsTangerineWhistle (chainRules env) then u64 (gas - gas / 64) else gas in
  _ ← use_gas gas;
  '(res, addr, returnGas, suberr) ← on_vm (Create in_ (contract_ref c) input gas value);
  _ ← set_top
        (if IsHomestead (chainRules env) && bool_decide (suberr = Some ErrCodeStoreOutOfGas) then 0
         else if bool_decide (suberr <> None) && bool_decide (suberr <> Some ErrCodeStoreOutOfGas)
         then 0
         else uint256.SetBytes (Z_to_be 20 addr));
  finish_create res returnGas suberr.

Definition opCreate2 : executionFunc := fun in_ =>
  ro ← gets (readOnly ∘ vm);
  if ro : bool then fail ErrWriteProtection else
  endowment ← pop; offset ← pop; size ← pop; salt ← pop;
  input ← on_mem (memory.GetCopy (i64 (uint256.Uint64 offset)) (i64 (uint256.Uint64 size)));
  c ← gets Contract_;
  let gas := Gas c in
  let gas := u64 (gas - gas / 64) in
  _ ← use_gas gas;
  '(res, addr, returnGas, suberr) ← on_vm (Create2 in_ (contract_ref c) input gas endowment salt);
  _ ← push (if bool_decide (suberr <> None) then 0 else uint256.SetBytes (Z_to_be 20 addr));
  finish_create res returnGas suberr.

(** The last lines of the four call instructions. *)
Definition finish_call (retOffset retSize : Z) (ret : bytes) (returnGas : Z)
    (err : option VMError) : MF (bytes * option VMError) :=
  _ ← push (if bool_decide (err <> None) then 0 else 1);
  _ ← (if bool_decide (err = None) || bool_decide (err = Some ErrExecutionReverted)
       then on_mem (memory.Set_ (uint256.Uint64 retOffset) (uint256.Uint64 retSize) (CopyBytes ret))
       else mret ());
  _ ← return_gas returnGas;
  _ ← on_vm (modify (set_returnData ret));
  mret (ret, None).

Definition opCall : executionFunc := fun in_ =>
  temp ← pop;
  gas ← gets (callGasTemp ∘ vm);
  addr ← pop; value ← pop; inOffset ← pop; inSize ← pop; retOffset ← pop; retSize ← pop;
  let toAddr := uint256.Bytes20 addr in
  args ← on_mem (memory.GetPtr (i64 (uint256.Uint64 inOffset)) (i64 (uint256.Uint64 inSize)));
  ro ← gets (readOnly ∘ vm);
  if negb (uint256.IsZero value) && (ro : bool) then fail ErrWriteProtection else
  let gas := if negb (uint256.IsZero value) then u64 (gas + CallStipend) else gas in
  c ← gets Contract_;
  '(ret, returnGas, err) ← on_vm (Call in_ (contract_ref c) toAddr args gas (Some value) false);
  finish_call retOffset retSize ret returnGas err.

Definition opCallCode : executionFunc := fun in_ =>
  temp ← pop;
  gas ← gets (callGasTemp ∘ vm);
  addr ← pop; value ← pop; inOffset ← pop; inSize ← pop; retOffset ← pop; retSize ← pop;
  let toAddr := uint256.Bytes20 addr in
  args ← on_mem (memory.GetPtr (i64 (uint256.Uint64 inOffset)) (i64 (uint256.Uint64 inSize)));
  let gas := if negb (uint256.IsZero value) then u64 (gas + CallStipend) else gas in
  c ← gets Contract_;
  '(ret, returnGas, err) ← on_vm (CallCode in_ (contract_ref c) toAddr args gas (Some value));
  finish_call retOffset retSize ret returnGas err.

Definition opDelegateCall : executionFunc := fun in_ =>
  temp ← pop;
  gas ← gets (callGasTemp ∘ vm);
  addr ← pop; inOffset ← pop; inSize ← pop; retOffset ← pop; retSize ← pop;
  let toAddr := uint256.Bytes20 addr in
  args ← on_mem (memory.GetPtr (i64 (uint256.Uint64 inOffset)) (i64 (uint256.Uint64 inSize)));
  c ← gets Contract_;
  '(ret, returnGas, err) ← on_vm (DelegateCall in_ (contract_ref c) toAddr args gas);
  finish_call retOffset retSize ret returnGas err.

Definition opStaticCall : executionFunc := fun in_ =>
  temp ← pop;
  gas ← gets (callGasTemp ∘ vm);
  addr ← pop; inOffset ← pop; inSize ← pop; retOffset ← pop; retSize ← pop;
  let toAddr := uint256.Bytes20 addr in
  args ← on_mem (memory.GetPtr (i64 (uint256.Uint64 inOffset)) (i64 (uint256.Uint64 inSize)));
  c ← gets Contract_;
  '(ret, returnGas, err) ← on_vm (StaticCall in_ (contract_ref c) toAddr args gas);
  finish_call retOffset retSize ret returnGas err.

(** ** Halting *)

Definition opReturn : executionFunc := fun _ =>
  offset ← pop; size ← pop;
  ret ← on_mem (memory.GetPtr (i64 (uint256.Uint64 offset)) (i64 (uint256.Uint64 size)));
  mret (ret, Some errStopToken).

Definition opRevert : executionFunc := fun _ =>
  offset ← pop; size ← pop;
  ret ← on_mem (memory.GetPtr (i64 (uint256.Uint64 offset)) (i64 (uint256.Uint64 size)));
  _ ← on_vm (modify (set_returnData ret));
  mret (ret, Some ErrExecutionReverted).

Definition opUndefined : executionFunc := fun _ =>
  c ← gets Contract_; p ← gets pc;
  op ← must (znth (Code c) p);
  fail (ErrInvalidOpCode op).

Definition opStop : executionFunc := fun _ => fail errStopToken.

Definition opSelfdestruct : executionFunc := fun _ =>
  ro ← gets (readOnly ∘ vm);
  if ro : bool then fail ErrWriteProtection else
  beneficiary ← pop;
  callerAddr ← contract_address;
  let beneficiaryAddr := uint256.Bytes20 beneficiary in
  balance ← state (ibs.GetBalance callerAddr);
  _ ← state (ibs.AddBalance beneficiaryAddr balance);
  _ ← state (ibs.Selfdestruct callerAddr);
  fail errStopToken.

(** ** Families of instructions *)

(** The topics, popped in order. *)
Fixpoint pop_topics (n : nat) : MF (list Z) :=
  match n with
  | O => mret []
  | Datatypes.S n => addr ← pop; rest ← pop_topics n; mret (uint256.Bytes32 addr :: rest)
  end.

Definition makeLog (size : nat) : executionFunc := fun _ =>
  ro ← gets (readOnly ∘ vm);
  if ro : bool then fail ErrWriteProtection else
  mStart ← pop; mSize ← pop;
  topics ← pop_topics size;
  d ← on_mem (memory.GetCopy (i64 (uint256.Uint64 mStart)) (i64 (uint256.Uint64 mSize)));
  a ← contract_address;
  _ ← state (ibs.AddLog (mkLog a topics d (BlockNumber (context env)) 0 0 0 0 false));
  ok.

Definition opPush1 : executionFunc := fun _ =>
  _ ← modify (fun f => set_pc (u64 (pc f + 1)) f);
  c ← gets Contract_; p ← gets pc;
  if p <? zlen (Code c) then
    b ← must (znth (Code c) p); _ ← push b; ok
  else
    _ ← push 0; ok.

Definition makePush (size : Z) (pushByteSize : Z) : executionFunc := fun _ =>
  c ← gets Contract_; p ← gets pc;
  let codeLen := zlen (Code c) in
  let startMin := i64 (u64 (p + 1)) in
  let startMin := if codeLen <=? startMin then codeLen else startMin in
  let endMin := if codeLen <=? startMin + pushByteSize then codeLen else startMin + pushByteSize in
  d ← must (go_slice (Code c) startMin endMin);
  _ ← push (uint256.SetBytes (RightPadBytes d pushByteSize));
  _ ← modify (fun f => set_pc (u64 (pc f + size)) f);
  ok.

Definition makeDup (size : Z) : executionFunc := fun _ =>
  _ ← on_stack (stack.Dup size); ok.

Definition makeSwap (size : Z) : executionFunc := fun _ =>
  _ ← on_stack (stack.Swap (size + 1)); ok.

End Instructions.
