(* ===== verification/GasTable.v ===== *)
(** * Gas functions ([internal/vm/gas.go], [gas_table.go], [operations_acl.go])

    The dynamic gas of the instructions.  A gas function returns the Go pair of
    an amount and an error, and can change the state (refunds, access list), the
    memory's [lastGasCost] and the gas reserved for a call ([callGasTemp]). *)

From stdpp Require Import strings.
From S2P Require Import Prelude Uint256 Params Stack Memory Analysis Common EvmTypes Contract.
From S2P Require Import Instructions.

Section GasTable.
Context {U : Uint256} {S : Type} {I : ibs.IntraBlockState S} (env : Env S).

Notation MF := (M (Frame S)).

(** A gas function is applied to [memorySize]. *)
Definition gasFunc : Type := Z -> MF (Z * option VMError).

Definition gas_ok (gas : Z) : MF (Z * option VMError) := mret (gas, None).
Definition gas_err (e : VMError) : MF (Z * option VMError) := mret (0, Some e).

(** [v, err := m; if err != nil { return 0, err }] *)
Definition gas_try (m : MF (Z * option VMError)) (k : Z -> MF (Z * option VMError))
    : MF (Z * option VMError) :=
  '(v, err) ← m;
  match err with Some e => gas_err e | None => k v end.

(** [v, overflow := r; if overflow { return 0, ErrGasUintOverflow }] *)
Definition gas_checked (r : Z * bool) (k : Z -> MF (Z * option VMError))
    : MF (Z * option VMError) :=
  if r.2 then gas_err ErrGasUintOverflow else k r.1.

Definition back (n : Z) : MF Z := on_stack (stack.Back n).
Definition rules : Rules := chainRules env.

(** ** [gas.go] *)

Definition callGas (isEip150 : bool) (availableGas base callCost : Z) : Z * option VMError :=
  let plain := if negb (uint256.IsUint64 callCost) then (0, Some ErrGasUintOverflow)
               else (uint256.Uint64 callCost, None) in
  if isEip150 then
    let availableGas := u64 (availableGas - base) in
    let gas := u64 (availableGas - availableGas / 64) in
    if negb (uint256.IsUint64 callCost) || (gas <? uint256.Uint64 callCost)
    then (gas, None)
    else plain
  else plain.

(** ** [gas_table.go] *)

Definition memoryGasCost (newMemSize : Z) : M memory.Memory (Z * option VMError) :=
  if newMemSize =? 0 then mret (0, None) else
  if 0x1FFFFFFFE0 <? newMemSize then mret (0, Some ErrGasUintOverflow) else
  let newMemSizeWords := ToWordSize newMemSize in
  let newMemSize := u64 (newMemSizeWords * 32) in
  mem ← get;
  if memory.Len mem <? newMemSize then
    let square := u64 (newMemSizeWords * newMemSizeWords) in
    let linCoef := u64 (newMemSizeWords * MemoryGas) in
    let quadCoef := square / QuadCoeffDiv in
    let newTotalFee := u64 (linCoef + quadCoef) in
    let fee := u64 (newTotalFee - memory.lastGasCost mem) in
    _ ← modify (memory.set_lastGasCost newTotalFee);
    mret (fee, None)
  else mret (0, None).

Definition pureMemoryGascost : gasFunc := fun memorySize => on_mem (memoryGasCost memorySize).

Definition memoryCopierGas (stackpos : Z) : gasFunc := fun memorySize =>
  gas_try (pureMemoryGascost memorySize) (fun gas =>
  n ← back stackpos;
  gas_checked (uint256.Uint64WithOverflow n) (fun words =>
  gas_checked (SafeMul (ToWordSize words) CopyGas) (fun words =>
  gas_checked (SafeAdd gas words) gas_ok))).

Definition gasCallDataCopy : gasFunc := memoryCopierGas 2.
Definition gasCodeCopy : gasFunc := memoryCopierGas 2.
Definition gasExtCodeCopy : gasFunc := memoryCopierGas 3.
Definition gasReturnDataCopy : gasFunc := memoryCopierGas 2.

(** The clauses 2.2.1 and 2.2.2 of the SSTORE metering, shared in form by
    EIP-1283, EIP-2200 and EIP-2929: the refunds of a dirty slot. *)
Definition sstore_dirty (original current value clears resetZero resetOther : Z) : MF () :=
  _ ← (if negb (uint256.IsZero original) then
         if uint256.IsZero current then state (ibs.SubRefund clears)
         else if uint256.IsZero value then state (ibs.AddRefund clears)
         else mret ()
       else mret ());
  if uint256.Eq original value then
    if uint256.IsZero original then state (ibs.AddRefund resetZero)
    else state (ibs.AddRefund resetOther)
  else mret ().

Definition gasSStore : gasFunc := fun _ =>
  value ← back 1; x ← back 0;
  let key := uint256.Bytes32 x in
  a ← contract_address;
  current ← state (ibs.GetState a key);
  if IsPetersburg rules || negb (IsConstantinople rules) then
    if uint256.IsZero current && negb (uint256.IsZero value) then gas_ok SstoreSetGas
    else if negb (uint256.IsZero current) && uint256.IsZero value then
      _ ← state (ibs.AddRefund SstoreRefundGas); gas_ok SstoreClearGas
    else gas_ok SstoreResetGas
  else
  if uint256.Eq current value then gas_ok NetSstoreNoopGas else
  original ← state (ibs.GetCommittedState a key);
  if original =? current then
    if uint256.IsZero original then gas_ok NetSstoreInitGas else
    _ ← (if uint256.IsZero value then state (ibs.AddRefund NetSstoreClearRefund) else mret ());
    gas_ok NetSstoreCleanGas
  else
    _ ← sstore_dirty original current value
          NetSstoreClearRefund NetSstoreResetClearRefund NetSstoreResetRefund;
    gas_ok NetSstoreDirtyGas.

Definition gasSStoreEIP2200 : gasFunc := fun _ =>
  c ← gets Contract_;
  if Gas c <=? SstoreSentryGasEIP2200
  then gas_err (ErrOther "not enough gas for reentrancy sentry") else
  value ← back 1; x ← back 0;
  let key := uint256.Bytes32 x in
  a ← contract_address;
  current ← state (ibs.GetState a key);
  if uint256.Eq current value then gas_ok SloadGasEIP2200 else
  original ← state (ibs.GetCommittedState a key);
  if original =? current then
    if uint256.IsZero original then gas_ok SstoreSetGasEIP2200 else
    _ ← (if uint256.IsZero value then state (ibs.AddRefund SstoreClearsScheduleRefundEIP2200)
         else mret ());
    gas_ok SstoreResetGasEIP2200
  else
    _ ← sstore_dirty original current value SstoreClearsScheduleRefundEIP2200
          (SstoreSetGasEIP2200 - SloadGasEIP2200) (SstoreResetGasEIP2200 - SloadGasEIP2200);
    gas_ok SloadGasEIP2200.

Definition makeGasLog (n : Z) : gasFunc := fun memorySize =>
  s ← back 1;
  gas_checked (uint256.Uint64WithOverflow s) (fun requestedSize =>
  gas_try (pureMemoryGascost memorySize) (fun gas =>
  gas_checked (SafeAdd gas LogGas) (fun gas =>
  gas_checked (SafeAdd gas (u64 (n * LogTopicGas))) (fun gas =>
  gas_checked (SafeMul requestedSize LogDataGas) (fun memorySizeGas =>
  gas_checked (SafeAdd gas memorySizeGas) gas_ok))))).

Definition gasKeccak256 : gasFunc := fun memorySize =>
  gas_try (pureMemoryGascost memorySize) (fun gas =>
  n ← back 1;
  gas_checked (uint256.Uint64WithOverflow n) (fun wordGas =>
  gas_checked (SafeMul (ToWordSize wordGas) Keccak256WordGas) (fun wordGas =>
  gas_checked (SafeAdd gas wordGas) gas_ok))).

Definition gasReturn : gasFunc := pureMemoryGascost.
Definition gasRevert : gasFunc := pureMemoryGascost.
Definition gasMLoad : gasFunc := pureMemoryGascost.
Definition gasMStore8 : gasFunc := pureMemoryGascost.
Definition gasMStore : gasFunc := pureMemoryGascost.
Definition gasCreate : gasFunc := pureMemoryGascost.

Definition gasCreate2 : gasFunc := fun memorySize =>
  gas_try (pureMemoryGascost memorySize) (fun gas =>
  n ← back 2;
  gas_checked (uint256.Uint64WithOverflow n) (fun len =>
  gas_checked (SafeMul (ToWordSize len) Keccak256WordGas) (fun wordGas =>
  gas_checked (SafeAdd gas wordGas) gas_ok))).

(** The body shared by [gasCreateEip3860] and [gasCreate2Eip3860], which differ
    in the price of a word. *)
Definition gasInitCode (wordPrice : Z) : gasFunc := fun memorySize =>
  gas_try (pureMemoryGascost memorySize) (fun gas =>
  n ← back 2;
  let '(len, overflow) := uint256.Uint64WithOverflow n in
  if (overflow : bool) || (MaxInitCodeSize <? len) then gas_err ErrGasUintOverflow else
  let wordGas := u64 (wordPrice * ToWordSize len) in
  gas_checked (SafeAdd gas wordGas) gas_ok).

Definition gasCreateEip3860 : gasFunc := gasInitCode InitCodeWordGas.
Definition gasCreate2Eip3860 : gasFunc := gasInitCode (InitCodeWordGas + Keccak256WordGas).

(** [stack.Data[stack.Len()-2]] is [Back(1)]. *)
Definition gasExp (byteGas : Z) : gasFunc := fun _ =>
  exponent ← back 1;
  let expByteLen := (uint256.BitLen exponent + 7) / 8 in
  gas_checked (SafeAdd (u64 (expByteLen * byteGas)) ExpGas) gas_ok.

Definition gasExpFrontier : gasFunc := gasExp ExpByteFrontier.
Definition gasExpEIP160 : gasFunc := gasExp ExpByteEIP160.

(** The tail of the four call functions: the gas of the callee is computed,
    stored and added to the price. *)
Definition reserve_call_gas (gas : Z) : MF (Z * option VMError) :=
  c ← gets Contract_;
  callCost ← back 0;
  let '(temp, err) := callGas (IsTangerineWhistle rules) (Gas c) gas callCost in
  _ ← on_vm (modify (set_callGasTemp temp));
  match err with
  | Some e => gas_err e
  | None => gas_checked (SafeAdd gas temp) gas_ok
  end.

Definition gasCall : gasFunc := fun memorySize =>
  v ← back 2; x ← back 1;
  let transfersValue := negb (uint256.IsZero v) in
  let address := uint256.Bytes20 x in
  fresh ← (if IsSpuriousDragon rules then
             if transfersValue then state (ibs.Empty address) else mret false
           else exists_ ← state (ibs.Exist address); mret (negb exists_));
  let gas := if fresh : bool then CallNewAccountGas else 0 in
  let gas := if transfersValue then u64 (gas + CallValueTransferGas) else gas in
  gas_try (pureMemoryGascost memorySize) (fun memoryGas =>
  gas_checked (SafeAdd gas memoryGas) reserve_call_gas).

Definition gasCallCode : gasFunc := fun memorySize =>
  gas_try (pureMemoryGascost memorySize) (fun memoryGas =>
  v ← back 2;
  let gas := if negb (uint256.IsZero v) then CallValueTransferGas else 0 in
  gas_checked (SafeAdd gas memoryGas) reserve_call_gas).

Definition gasDelegateCall : gasFunc := fun memorySize =>
  gas_try (pureMemoryGascost memorySize) reserve_call_gas.

Definition gasStaticCall : gasFunc := fun memorySize =>
  gas_try (pureMemoryGascost memorySize) reserve_call_gas.

(** [Empty(address) && !GetBalance(contract).IsZero()], the second read only
    when the first holds *)
Definition empty_and_funded (address : Z) : MF bool :=
  e ← state (ibs.Empty address);
  if e : bool then
    a ← contract_address;
    b ← state (ibs.GetBalance a);
    mret (negb (uint256.IsZero b))
  else mret false.

Definition gasSelfdestruct : gasFunc := fun _ =>
  gas ← (if IsTangerineWhistle rules then
           x ← back 0;
           let address := uint256.Bytes20 x in
           fresh ← (if IsSpuriousDragon rules then empty_and_funded address
                    else e ← state (ibs.Exist address); mret (negb e));
           mret (if fresh : bool then u64 (SelfdestructGasEIP150 + CreateBySelfdestructGas)
                 else SelfdestructGasEIP150)
         else mret 0);
  a ← contract_address;
  dead ← state (ibs.HasSelfdestructed a);
  _ ← (if negb dead then state (ibs.AddRefund SelfdestructRefundGas) else mret ());
  gas_ok gas.

(** ** [operations_acl.go] *)

Definition makeGasSStoreFunc (clearingRefund : Z) : gasFunc := fun _ =>
  c ← gets Contract_;
  if Gas c <=? SstoreSentryGasEIP2200
  then gas_err (ErrOther "not enough gas for reentrancy sentry") else
  value ← back 1; x ← peek;
  let slot := uint256.Bytes32 x in
  a ← contract_address;
  current ← state (ibs.GetState a slot);
  '(addrPresent, slotPresent) ← state (ibs.SlotInAccessList a slot);
  cost ← (if negb slotPresent then
            _ ← state (ibs.AddSlotToAccessList a slot);
            if negb addrPresent then panic else mret ColdSloadCostEIP2929
          else mret 0);
  if uint256.Eq current value then gas_ok (u64 (cost + WarmStorageReadCostEIP2929)) else
  original ← state (ibs.GetCommittedState a (uint256.Bytes32 x));
  if uint256.Eq original current then
    if uint256.IsZero original then gas_ok (u64 (cost + SstoreSetGasEIP2200)) else
    _ ← (if uint256.IsZero value then state (ibs.AddRefund clearingRefund) else mret ());
    gas_ok (u64 (cost + (SstoreResetGasEIP2200 - ColdSloadCostEIP2929)))
  else
    _ ← sstore_dirty original current value clearingRefund
          (SstoreSetGasEIP2200 - WarmStorageReadCostEIP2929)
          ((SstoreResetGasEIP2200 - ColdSloadCostEIP2929) - WarmStorageReadCostEIP2929);
    gas_ok (u64 (cost + WarmStorageReadCostEIP2929)).

Definition gasSLoadEIP2929 : gasFunc := fun _ =>
  loc ← peek;
  let slot := uint256.Bytes32 loc in
  a ← contract_address;
  '(_, slotPresent) ← state (ibs.SlotInAccessList a slot);
  if negb slotPresent then
    _ ← state (ibs.AddSlotToAccessList a slot);
    gas_ok ColdSloadCostEIP2929
  else gas_ok WarmStorageReadCostEIP2929.

(** Whether the address was cold; it is warm afterwards. *)
Definition touch_address (addr : Z) : MF bool :=
  warm ← state (ibs.AddressInAccessList addr);
  if negb warm then _ ← state (ibs.AddAddressToAccessList addr); mret true
  else mret false.

Definition coldCost : Z := ColdAccountAccessCostEIP2929 - WarmStorageReadCostEIP2929.

Definition gasExtCodeCopyEIP2929 : gasFunc := fun memorySize =>
  gas_try (gasExtCodeCopy memorySize) (fun gas =>
  x ← peek;
  cold ← touch_address (uint256.Bytes20 x);
  if cold : bool then gas_checked (SafeAdd gas coldCost) gas_ok else gas_ok gas).

Definition gasEip2929AccountCheck : gasFunc := fun _ =>
  x ← peek;
  cold ← touch_address (uint256.Bytes20 x);
  if cold : bool then gas_ok coldCost else gas_ok 0.

Definition makeCallVariantGasCallEIP2929 (oldCalculator : gasFunc) : gasFunc := fun memorySize =>
  x ← back 1;
  cold ← touch_address (uint256.Bytes20 x);
  paid ← (if cold : bool then use_gas coldCost else mret true);
  if negb paid then gas_err ErrOutOfGas else
  '(gas, err) ← oldCalculator memorySize;
  if negb cold || bool_decide (err <> None) then mret (gas, err) else
  _ ← return_gas coldCost;
  gas_ok (u64 (gas + coldCost)).

Definition gasCallEIP2929 : gasFunc := makeCallVariantGasCallEIP2929 gasCall.
Definition gasDelegateCallEIP2929 : gasFunc := makeCallVariantGasCallEIP2929 gasDelegateCall.
Definition gasStaticCallEIP2929 : gasFunc := makeCallVariantGasCallEIP2929 gasStaticCall.
Definition gasCallCodeEIP2929 : gasFunc := makeCallVariantGasCallEIP2929 gasCallCode.

Definition makeSelfdestructGasFn (refundsEnabled : bool) : gasFunc := fun _ =>
  x ← peek;
  let address := uint256.Bytes20 x in
  cold ← touch_address address;
  let gas := if cold : bool then ColdAccountAccessCostEIP2929 else 0 in
  fresh ← empty_and_funded address;
  let gas := if fresh : bool then u64 (gas + CreateBySelfdestructGas) else gas in
  _ ← (if refundsEnabled then
         a ← contract_address;
         dead ← state (ibs.HasSelfdestructed a);
         if negb dead then state (ibs.AddRefund SelfdestructRefundGas) else mret ()
       else mret ());
  gas_ok gas.

Definition gasSelfdestructEIP2929 : gasFunc := makeSelfdestructGasFn true.
Definition gasSelfdestructEIP3529 : gasFunc := makeSelfdestructGasFn false.
Definition gasSStoreEIP2929 : gasFunc := makeGasSStoreFunc SstoreClearsScheduleRefundEIP2200.
Definition gasSStoreEIP3529 : gasFunc := makeGasSStoreFunc SstoreClearsScheduleRefundEIP3529.

End GasTable.
