(* ===== verification/Opcodes.v ===== *)
(** * Opcodes ([internal/vm/opcodes.go])

    The values of the opcode constants; [STOP], [JUMPDEST], [PUSH1] and [PUSH32]
    are defined where they are first used. *)

From S2P Require Import Prelude Analysis Contract.

Definition ADD : Z := 1.
Definition MUL : Z := 2.
Definition SUB : Z := 3.
Definition DIV : Z := 4.
Definition SDIV : Z := 5.
Definition MOD : Z := 6.
Definition SMOD : Z := 7.
Definition ADDMOD : Z := 8.
Definition MULMOD : Z := 9.
Definition EXP : Z := 10.
Definition SIGNEXTEND : Z := 11.
Definition LT : Z := 16.
Definition GT : Z := 17.
Definition SLT : Z := 18.
Definition SGT : Z := 19.
Definition EQ : Z := 20.
Definition ISZERO : Z := 21.
Definition AND : Z := 22.
Definition OR : Z := 23.
Definition XOR : Z := 24.
Definition NOT : Z := 25.
Definition BYTE : Z := 26.
Definition SHL : Z := 27.
Definition SHR : Z := 28.
Definition SAR : Z := 29.
Definition KECCAK256 : Z := 32.
Definition ADDRESS : Z := 48.
Definition BALANCE : Z := 49.
Definition ORIGIN : Z := 50.
Definition CALLER : Z := 51.
Definition CALLVALUE : Z := 52.
Definition CALLDATALOAD : Z := 53.
Definition CALLDATASIZE : Z := 54.
Definition CALLDATACOPY : Z := 55.
Definition CODESIZE : Z := 56.
Definition CODECOPY : Z := 57.
Definition GASPRICE : Z := 58.
Definition EXTCODESIZE : Z := 59.
Definition EXTCODECOPY : Z := 60.
Definition RETURNDATASIZE : Z := 61.
Definition RETURNDATACOPY : Z := 62.
Definition EXTCODEHASH : Z := 63.
Definition BLOCKHASH : Z := 64.
Definition COINBASE : Z := 65.
Definition TIMESTAMP : Z := 66.
Definition NUMBER : Z := 67.
Definition DIFFICULTY : Z := 68.
Definition GASLIMIT : Z := 69.
Definition CHAINID : Z := 70.
Definition SELFBALANCE : Z := 71.
Definition BASEFEE : Z := 72.
Definition POP : Z := 80.
Definition MLOAD : Z := 81.
Definition MSTORE : Z := 82.
Definition MSTORE8 : Z := 83.
Definition SLOAD : Z := 84.
Definition SSTORE : Z := 85.
Definition JUMP : Z := 86.
Definition JUMPI : Z := 87.
Definition PC : Z := 88.
Definition MSIZE : Z := 89.
Definition GAS : Z := 90.
Definition PUSH0 : Z := 95.
Definition PUSH2 : Z := 97.
Definition PUSH3 : Z := 98.
Definition PUSH4 : Z := 99.
Definition PUSH5 : Z := 100.
Definition PUSH6 : Z := 101.
Definition PUSH7 : Z := 102.
Definition PUSH8 : Z := 103.
Definition PUSH9 : Z := 104.
Definition PUSH10 : Z := 105.
Definition PUSH11 : Z := 106.
Definition PUSH12 : Z := 107.
Definition PUSH13 : Z := 108.
Definition PUSH14 : Z := 109.
Definition PUSH15 : Z := 110.
Definition PUSH16 : Z := 111.
Definition PUSH17 : Z := 112.
Definition PUSH18 : Z := 113.
Definition PUSH19 : Z := 114.
Definition PUSH20 : Z := 115.
Definition PUSH21 : Z := 116.
Definition PUSH22 : Z := 117.
Definition PUSH23 : Z := 118.
Definition PUSH24 : Z := 119.
Definition PUSH25 : Z := 120.
Definition PUSH26 : Z := 121.
Definition PUSH27 : Z := 122.
Definition PUSH28 : Z := 123.
Definition PUSH29 : Z := 124.
Definition PUSH30 : Z := 125.
Definition PUSH31 : Z := 126.
Definition DUP1 : Z := 128.
Definition DUP2 : Z := 129.
Definition DUP3 : Z := 130.
Definition DUP4 : Z := 131.
Definition DUP5 : Z := 132.
Definition DUP6 : Z := 133.
Definition DUP7 : Z := 134.
Definition DUP8 : Z := 135.
Definition DUP9 : Z := 136.
Definition DUP10 : Z := 137.
Definition DUP11 : Z := 138.
Definition DUP12 : Z := 139.
Definition DUP13 : Z := 140.
Definition DUP14 : Z := 141.
Definition DUP15 : Z := 142.
Definition DUP16 : Z := 143.
Definition SWAP1 : Z := 144.
Definition SWAP2 : Z := 145.
Definition SWAP3 : Z := 146.
Definition SWAP4 : Z := 147.
Definition SWAP5 : Z := 148.
Definition SWAP6 : Z := 149.
Definition SWAP7 : Z := 150.
Definition SWAP8 : Z := 151.
Definition SWAP9 : Z := 152.
Definition SWAP10 : Z := 153.
Definition SWAP11 : Z := 154.
Definition SWAP12 : Z := 155.
Definition SWAP13 : Z := 156.
Definition SWAP14 : Z := 157.
Definition SWAP15 : Z := 158.
Definition SWAP16 : Z := 159.
Definition LOG0 : Z := 160.
Definition LOG1 : Z := 161.
Definition LOG2 : Z := 162.
Definition LOG3 : Z := 163.
Definition LOG4 : Z := 164.
Definition CREATE : Z := 240.
Definition CALL : Z := 241.
Definition CALLCODE : Z := 242.
Definition RETURN : Z := 243.
Definition DELEGATECALL : Z := 244.
Definition CREATE2 : Z := 245.
Definition STATICCALL : Z := 250.
Definition REVERT : Z := 253.
Definition INVALID : Z := 254.
Definition SELFDESTRUCT : Z := 255.

Definition IsPush (op : Z) : bool := (PUSH1 <=? op) && (op <=? PUSH32).
Definition IsStaticJump (op : Z) : bool := op =? JUMP.
