(* ===== verification/JumpTable.v ===== *)
(** * Jump tables ([internal/vm/jump_table.go], [eips.go], [stack_table.go])

    A jump table is the Go array of 256 pointers to operations, as a function
    of the opcode; [None] is a nil entry.  Every constructor builds a table of
    its own, so that updating an operation of one table does not show in
    another. *)

From S2P Require Import Prelude Uint256 Params Stack Memory Analysis Common EvmTypes Contract.
From S2P Require Import Instructions GasTable Opcodes.

Definition maxStack_ (pop push : Z) : Z := StackLimit + pop - push.

Section JumpTable.
Context {U : Uint256} {C : Crypto} {S : Type} {I : ibs.IntraBlockState S} (env : Env S).

#[local] Notation executionFunc := (executionFunc (S:=S)).
#[local] Notation gasFunc := (gasFunc (S:=S)).

Record operation : Type := mkOperation {
  execute : executionFunc;
  constantGas : Z;
  dynamicGas : option gasFunc;
  maxStack : Z;
  numPop : Z;
  numPush : Z;
  isPush : bool;
  isSwap : bool;
  isDup : bool;
  opNum : Z;
  memorySize : option memorySizeFunc
}.

Definition set_constantGas (g : Z) (o : operation) : operation :=
  mkOperation (execute o) g (dynamicGas o) (maxStack o) (numPop o) (numPush o)
    (isPush o) (isSwap o) (isDup o) (opNum o) (memorySize o).
Definition set_dynamicGas (g : gasFunc) (o : operation) : operation :=
  mkOperation (execute o) (constantGas o) (Some g) (maxStack o) (numPop o) (numPush o)
    (isPush o) (isSwap o) (isDup o) (opNum o) (memorySize o).
Definition set_maxStack (m : Z) (o : operation) : operation :=
  mkOperation (execute o) (constantGas o) (dynamicGas o) m (numPop o) (numPush o)
    (isPush o) (isSwap o) (isDup o) (opNum o) (memorySize o).

(** The composite literals of the source: fields left out are zero. *)
Definition op (e : executionFunc) (gas pops pushes : Z) : operation :=
  mkOperation e gas None 0 pops pushes false false false 0 None.
Definition dynop (e : executionFunc) (gas : Z) (dyn : gasFunc) (pops pushes : Z)
    (mem : option memorySizeFunc) : operation :=
  mkOperation e gas (Some dyn) 0 pops pushes false false false 0 mem.
Definition push_op (n : Z) (e : executionFunc) : operation :=
  mkOperation e GasFastestStep None 0 0 1 true false false n None.
Definition dup_op (n : Z) : operation :=
  mkOperation (makeDup n) GasFastestStep None 0 n (n + 1) false false true n None.
Definition swap_op (n : Z) : operation :=
  mkOperation (makeSwap n) GasFastestStep None 0 (n + 1) (n + 1) false true false n None.

Definition JumpTable : Type := Z -> option operation.

(** [jt[k] = &operation{...}] *)
Definition put (k : Z) (o : operation) (jt : JumpTable) : JumpTable :=
  fun i => if i =? k then Some o else jt i.

(** [jt[k].field = ...]; a nil entry panics *)
Definition alter_op (k : Z) (f : operation -> operation) (jt : JumpTable) : outcome JumpTable :=
  match jt k with
  | Some o => Done (put k (f o) jt)
  | None => GoPanic
  end.

Definition all_opcodes : list Z := seqZ 0 256.

Definition valid_entry (o : option operation) : bool :=
  match o with
  | None => false
  | Some o => match memorySize o, dynamicGas o with Some _, None => false | _, _ => true end
  end.

Definition validateAndFillMaxStack (jt : JumpTable) : outcome JumpTable :=
  if forallb (fun i => valid_entry (jt i)) all_opcodes then
    Done (fun i => (fun o => set_maxStack (maxStack_ (numPop o) (numPush o)) o) <$> jt i)
  else GoPanic.

(** ** Instructions defined in [eips.go] *)

Definition opSelfBalance : executionFunc := fun _ =>
  a ← contract_address; balance ← state (ibs.GetBalance a); _ ← push balance; ok.

Definition opChainID : executionFunc := fun _ =>
  _ ← push (uint256.FromBig (ChainID (chainRules env))).1; ok.

Definition opBaseFee : executionFunc := fun _ =>
  baseFee ← must (BaseFee (context env)); _ ← push baseFee; ok.

Definition opPush0 : executionFunc := fun _ => _ ← push 0; ok.

(** ** The Frontier table *)

Definition frontier_arith : list (Z * operation) := [
  (STOP, op opStop 0 0 0);
  (ADD, op opAdd GasFastestStep 2 1);
  (MUL, op opMul GasFastStep 2 1);
  (SUB, op opSub GasFastestStep 2 1);
  (DIV, op opDiv GasFastStep 2 1);
  (SDIV, op opSdiv GasFastStep 2 1);
  (MOD, op opMod GasFastStep 2 1);
  (SMOD, op opSmod GasFastStep 2 1);
  (ADDMOD, op opAddmod GasMidStep 3 1);
  (MULMOD, op opMulmod GasMidStep 3 1);
  (EXP, dynop opExp 0 gasExpFrontier 2 1 None);
  (SIGNEXTEND, op opSignExtend GasFastStep 2 1);
  (LT, op opLt GasFastestStep 2 1);
  (GT, op opGt GasFastestStep 2 1);
  (SLT, op opSlt GasFastestStep 2 1);
  (SGT, op opSgt GasFastestStep 2 1);
  (EQ, op opEq GasFastestStep 2 1);
  (ISZERO, op opIszero GasFastestStep 1 1);
  (AND, op opAnd GasFastestStep 2 1);
  (XOR, op opXor GasFastestStep 2 1);
  (OR, op opOr GasFastestStep 2 1);
  (NOT, op opNot GasFastestStep 1 1);
  (BYTE, op opByte GasFastestStep 2 1);
  (KECCAK256, dynop opKeccak256 Keccak256Gas gasKeccak256 2 1 (Some memoryKeccak256))
].

Definition frontier_environment : list (Z * operation) := [
  (ADDRESS, op opAddress GasQuickStep 0 1);
  (BALANCE, op opBalance BalanceGasFrontier 1 1);
  (ORIGIN, op (opOrigin env) GasQuickStep 0 1);
  (CALLER, op opCaller GasQuickStep 0 1);
  (CALLVALUE, op opCallValue GasQuickStep 0 1);
  (CALLDATALOAD, op opCallDataLoad GasFastestStep 1 1);
  (CALLDATASIZE, op opCallDataSize GasQuickStep 0 1);
  (CALLDATACOPY, dynop opCallDataCopy GasFastestStep gasCallDataCopy 3 0 (Some memoryCallDataCopy));
  (CODESIZE, op opCodeSize GasQuickStep 0 1);
  (CODECOPY, dynop opCodeCopy GasFastestStep gasCodeCopy 3 0 (Some memoryCodeCopy));
  (GASPRICE, op (opGasprice env) GasQuickStep 0 1);
  (EXTCODESIZE, op opExtCodeSize ExtcodeSizeGasFrontier 1 1);
  (EXTCODECOPY, dynop opExtCodeCopy ExtcodeCopyBaseFrontier gasExtCodeCopy 4 0 (Some memoryExtCodeCopy));
  (BLOCKHASH, op (opBlockhash env) GasExtStep 1 1);
  (COINBASE, op (opCoinbase env) GasQuickStep 0 1);
  (TIMESTAMP, op (opTimestamp env) GasQuickStep 0 1);
  (NUMBER, op (opNumber env) GasQuickStep 0 1);
  (DIFFICULTY, op (opDifficulty env) GasQuickStep 0 1);
  (GASLIMIT, op (opGasLimit env) GasQuickStep 0 1)
].

Definition frontier_flow : list (Z * operation) := [
  (POP, op opPop GasQuickStep 1 0);
  (MLOAD, dynop opMload GasFastestStep gasMLoad 1 1 (Some memoryMLoad));
  (MSTORE, dynop opMstore GasFastestStep gasMStore 2 0 (Some memoryMStore));
  (MSTORE8, dynop opMstore8 GasFastestStep gasMStore8 2 0 (Some memoryMStore8));
  (SLOAD, op opSload SloadGasFrontier 1 1);
  (SSTORE, dynop opSstore 0 (gasSStore env) 2 0 None);
  (JUMP, op opJump GasMidStep 1 0);
  (JUMPI, op opJumpi GasSlowStep 2 0);
  (PC, op opPc GasQuickStep 0 1);
  (MSIZE, op opMsize GasQuickStep 0 1);
  (GAS, op opGas GasQuickStep 0 1);
  (JUMPDEST, op opJumpdest JumpdestGas 0 0)
].

Definition frontier_push_low : list (Z * operation) := [
  (PUSH1, push_op 1 opPush1);
  (PUSH2, push_op 2 (makePush 2 2));
  (PUSH3, push_op 3 (makePush 3 3));
  (PUSH4, push_op 4 (makePush 4 4));
  (PUSH5, push_op 5 (makePush 5 5));
  (PUSH6, push_op 6 (makePush 6 6));
  (PUSH7, push_op 7 (makePush 7 7));
  (PUSH8, push_op 8 (makePush 8 8));
  (PUSH9, push_op 9 (makePush 9 9));
  (PUSH10, push_op 10 (makePush 10 10));
  (PUSH11, push_op 11 (makePush 11 11));
  (PUSH12, push_op 12 (makePush 12 12));
  (PUSH13, push_op 13 (makePush 13 13));
  (PUSH14, push_op 14 (makePush 14 14));
  (PUSH15, push_op 15 (makePush 15 15));
  (PUSH16, push_op 16 (makePush 16 16))
].

Definition frontier_push_high : list (Z * operation) := [
  (PUSH17, push_op 17 (makePush 17 17));
  (PUSH18, push_op 18 (makePush 18 18));
  (PUSH19, push_op 19 (makePush 19 19));
  (PUSH20, push_op 20 (makePush 20 20));
  (PUSH21, push_op 21 (makePush 21 21));
  (PUSH22, push_op 22 (makePush 22 22));
  (PUSH23, push_op 23 (makePush 23 23));
  (PUSH24, push_op 24 (makePush 24 24));
  (PUSH25, push_op 25 (makePush 25 25));
  (PUSH26, push_op 26 (makePush 26 26));
  (PUSH27, push_op 27 (makePush 27 27));
  (PUSH28, push_op 28 (makePush 28 28));
  (PUSH29, push_op 29 (makePush 29 29));
  (PUSH30, push_op 30 (makePush 30 30));
  (PUSH31, push_op 31 (makePush 31 31));
  (PUSH32, push_op 32 (makePush 32 32))
].

Definition frontier_dup : list (Z * operation) := [
  (DUP1, dup_op 1);
  (DUP2, dup_op 2);
  (DUP3, dup_op 3);
  (DUP4, dup_op 4);
  (DUP5, dup_op 5);
  (DUP6, dup_op 6);
  (DUP7, dup_op 7);
  (DUP8, dup_op 8);
  (DUP9, dup_op 9);
  (DUP10, dup_op 10);
  (DUP11, dup_op 11);
  (DUP12, dup_op 12);
  (DUP13, dup_op 13);
  (DUP14, dup_op 14);
  (DUP15, dup_op 15);
  (DUP16, dup_op 16)
].

Definition frontier_swap : list (Z * operation) := [
  (SWAP1, swap_op 1);
  (SWAP2, swap_op 2);
  (SWAP3, swap_op 3);
  (SWAP4, swap_op 4);
  (SWAP5, swap_op 5);
  (SWAP6, swap_op 6);
  (SWAP7, swap_op 7);
  (SWAP8, swap_op 8);
  (SWAP9, swap_op 9);
  (SWAP10, swap_op 10);
  (SWAP11, swap_op 11);
  (SWAP12, swap_op 12);
  (SWAP13, swap_op 13);
  (SWAP14, swap_op 14);
  (SWAP15, swap_op 15);
  (SWAP16, swap_op 16)
].

Definition frontier_system : list (Z * operation) := [
  (LOG0, dynop (makeLog env 0) 0 (makeGasLog 0) 2 0 (Some memoryLog));
  (LOG1, dynop (makeLog env 1) 0 (makeGasLog 1) 3 0 (Some memoryLog));
  (LOG2, dynop (makeLog env 2) 0 (makeGasLog 2) 4 0 (Some memoryLog));
  (LOG3, dynop (makeLog env 3) 0 (makeGasLog 3) 5 0 (Some memoryLog));
  (LOG4, dynop (makeLog env 4) 0 (makeGasLog 4) 6 0 (Some memoryLog));
  (CREATE, dynop (opCreate env) CreateGas gasCreate 3 1 (Some memoryCreate));
  (CALL, dynop opCall CallGasFrontier (gasCall env) 7 1 (Some memoryCall));
  (CALLCODE, dynop opCallCode CallGasFrontier (gasCallCode env) 7 1 (Some memoryCall));
  (RETURN, dynop opReturn 0 gasReturn 2 0 (Some memoryReturn));
  (SELFDESTRUCT, dynop opSelfdestruct 0 (gasSelfdestruct env) 1 0 None)
].

Definition frontier_literal : list (Z * operation) :=
  frontier_arith ++ frontier_environment ++ frontier_flow ++ frontier_push_low ++
  frontier_push_high ++ frontier_dup ++ frontier_swap ++ frontier_system.

Fixpoint literal (l : list (Z * operation)) : JumpTable :=
  match l with
  | [] => fun _ => None
  | (k, o) :: l => put k o (literal l)
  end.

(** The fill of the unassigned slots. *)
Definition fill_undefined (jt : JumpTable) : JumpTable := fun i =>
  match jt i with Some o => Some o | None => Some (op opUndefined 0 0 0) end.

Definition newFrontierInstructionSet : outcome JumpTable :=
  validateAndFillMaxStack (fill_undefined (literal frontier_literal)).

Definition newHomesteadInstructionSet : outcome JumpTable :=
  jt ← newFrontierInstructionSet;
  validateAndFillMaxStack (put DELEGATECALL
    (dynop opDelegateCall CallGasFrontier (gasDelegateCall env) 6 1 (Some memoryDelegateCall)) jt).

(** A sequence of updates of a table. *)
Fixpoint alter_ops (l : list (Z * (operation -> operation))) (jt : JumpTable) : outcome JumpTable :=
  match l with
  | [] => Done jt
  | (k, f) :: l => jt ← alter_op k f jt; alter_ops l jt
  end.

Definition newTangerineWhistleInstructionSet : outcome JumpTable :=
  jt ← newHomesteadInstructionSet;
  jt ← alter_ops [
    (BALANCE, set_constantGas BalanceGasEIP150);
    (EXTCODESIZE, set_constantGas ExtcodeSizeGasEIP150);
    (SLOAD, set_constantGas SloadGasEIP150);
    (EXTCODECOPY, set_constantGas ExtcodeCopyBaseEIP150);
    (CALL, set_constantGas CallGasEIP150);
    (CALLCODE, set_constantGas CallGasEIP150);
    (DELEGATECALL, set_constantGas CallGasEIP150)] jt;
  validateAndFillMaxStack jt.

Definition newSpuriousDragonInstructionSet : outcome JumpTable :=
  jt ← newTangerineWhistleInstructionSet;
  jt ← alter_op EXP (set_dynamicGas gasExpEIP160) jt;
  validateAndFillMaxStack jt.

Definition newByzantiumInstructionSet : outcome JumpTable :=
  jt ← newSpuriousDragonInstructionSet;
  let jt := put STATICCALL
    (dynop opStaticCall CallGasEIP150 (gasStaticCall env) 6 1 (Some memoryStaticCall)) jt in
  let jt := put RETURNDATASIZE (op opReturnDataSize GasQuickStep 0 1) jt in
  let jt := put RETURNDATACOPY
    (dynop opReturnDataCopy GasFastestStep gasReturnDataCopy 3 0 (Some memoryReturnDataCopy)) jt in
  let jt := put REVERT (dynop opRevert 0 gasRevert 2 0 (Some memoryRevert)) jt in
  validateAndFillMaxStack jt.

Definition newConstantinopleInstructionSet : outcome JumpTable :=
  jt ← newByzantiumInstructionSet;
  let jt := put SHL (op opSHL GasFastestStep 2 1) jt in
  let jt := put SHR (op opSHR GasFastestStep 2 1) jt in
  let jt := put SAR (op opSAR GasFastestStep 2 1) jt in
  let jt := put EXTCODEHASH (op opExtCodeHash ExtcodeHashGasConstantinople 1 1) jt in
  let jt := put CREATE2 (dynop opCreate2 Create2Gas gasCreate2 4 1 (Some memoryCreate2)) jt in
  validateAndFillMaxStack jt.

(** ** [eips.go] *)

Definition enable1884 (jt : JumpTable) : outcome JumpTable :=
  jt ← alter_ops [
    (SLOAD, set_constantGas SloadGasEIP1884);
    (BALANCE, set_constantGas BalanceGasEIP1884);
    (EXTCODEHASH, set_constantGas ExtcodeHashGasEIP1884)] jt;
  Done (put SELFBALANCE (op opSelfBalance GasFastStep 0 1) jt).

Definition enable1344 (jt : JumpTable) : outcome JumpTable :=
  Done (put CHAINID (op opChainID GasQuickStep 0 1) jt).

Definition enable2200 (jt : JumpTable) : outcome JumpTable :=
  alter_ops [
    (SLOAD, set_constantGas SloadGasEIP2200);
    (SSTORE, set_dynamicGas gasSStoreEIP2200)] jt.

(** The constant is the price of a warm access, the dynamic part is given. *)
Definition warm_op (dyn : gasFunc) (o : operation) : operation :=
  set_dynamicGas dyn (set_constantGas WarmStorageReadCostEIP2929 o).

Definition enable2929 (jt : JumpTable) : outcome JumpTable :=
  alter_ops [
    (SSTORE, set_dynamicGas gasSStoreEIP2929);
    (SLOAD, set_constantGas 0); (SLOAD, set_dynamicGas gasSLoadEIP2929);
    (EXTCODECOPY, warm_op gasExtCodeCopyEIP2929);
    (EXTCODESIZE, warm_op gasEip2929AccountCheck);
    (EXTCODEHASH, warm_op gasEip2929AccountCheck);
    (BALANCE, warm_op gasEip2929AccountCheck);
    (CALL, warm_op (gasCallEIP2929 env));
    (CALLCODE, warm_op (gasCallCodeEIP2929 env));
    (STATICCALL, warm_op (gasStaticCallEIP2929 env));
    (DELEGATECALL, warm_op (gasDelegateCallEIP2929 env));
    (SELFDESTRUCT, set_constantGas SelfdestructGasEIP150);
    (SELFDESTRUCT, set_dynamicGas gasSelfdestructEIP2929)] jt.

Definition enable3529 (jt : JumpTable) : outcome JumpTable :=
  alter_ops [
    (SSTORE, set_dynamicGas gasSStoreEIP3529);
    (SELFDESTRUCT, set_dynamicGas gasSelfdestructEIP3529)] jt.

Definition enable3198 (jt : JumpTable) : outcome JumpTable :=
  Done (put BASEFEE (op opBaseFee GasQuickStep 0 1) jt).

Definition enable3855 (jt : JumpTable) : outcome JumpTable :=
  Done (put PUSH0 (op opPush0 GasQuickStep 0 1) jt).

Definition enable3860 (jt : JumpTable) : outcome JumpTable :=
  alter_ops [
    (CREATE, set_dynamicGas gasCreateEip3860);
    (CREATE2, set_dynamicGas gasCreate2Eip3860)] jt.

Definition activators (eip : Z) : option (JumpTable -> outcome JumpTable) :=
  if eip =? 3855 then Some enable3855
  else if eip =? 3860 then Some enable3860
  else if eip =? 3529 then Some enable3529
  else if eip =? 3198 then Some enable3198
  else if eip =? 2929 then Some enable2929
  else if eip =? 2200 then Some enable2200
  else if eip =? 1884 then Some enable1884
  else if eip =? 1344 then Some enable1344
  else None.

(** [None] is the error of an undefined EIP, which leaves the table alone. *)
Definition EnableEIP (eipNum : Z) (jt : JumpTable) : outcome (option JumpTable) :=
  match activators eipNum with
  | None => Done None
  | Some enablerFn =>
      jt ← enablerFn jt;
      jt ← validateAndFillMaxStack jt;
      Done (Some jt)
  end.

Definition ValidEip (eipNum : Z) : bool :=
  match activators eipNum with Some _ => true | None => false end.

(** ** Later tables *)

Definition newIstanbulInstructionSet : outcome JumpTable :=
  jt ← newConstantinopleInstructionSet;
  jt ← enable1344 jt;
  jt ← enable1884 jt;
  jt ← enable2200 jt;
  validateAndFillMaxStack jt.

Definition newBerlinInstructionSet : outcome JumpTable :=
  jt ← newIstanbulInstructionSet;
  jt ← enable2929 jt;
  validateAndFillMaxStack jt.

Definition newLondonInstructionSet : outcome JumpTable :=
  jt ← newBerlinInstructionSet;
  jt ← enable3529 jt;
  jt ← enable3198 jt;
  validateAndFillMaxStack jt.

Definition newShanghaiInstructionSet : outcome JumpTable :=
  jt ← newLondonInstructionSet;
  jt ← enable3855 jt;
  jt ← enable3860 jt;
  validateAndFillMaxStack jt.

Definition newCancunInstructionSet : outcome JumpTable :=
  jt ← newShanghaiInstructionSet;
  validateAndFillMaxStack jt.

Definition newPragueInstructionSet : outcome JumpTable :=
  jt ← newCancunInstructionSet;
  validateAndFillMaxStack jt.

End JumpTable.
