(* ===== verification/Rlp.v ===== *)
(** * RLP ([internal/avm/rlp])

    The encoder buffer of [encode.go] writes all string data in one slice and
    keeps the list headers aside, to be merged by [toBytes]; the splitting
    functions of [raw.go] read an encoded value back.  Values are byte strings,
    unsigned integers and lists, which is what [makeWriter] turns byte slices
    and arrays, [uint64] and slices into.

    Theorems: the deferred headers give the textbook encoding, computed by
    [encode] of [RlpTheorems.v]; [Split] inverts it. *)

From S2P Require Import Prelude Uint256 Params Memory Common.

Module rlp.

Inductive Value : Type :=
| Bytes (b : bytes)
| Uint (i : Z)
| List (l : list Value).

Record listhead : Type := mkListhead { offset : Z; size : Z }.

Record encbuf : Type := mkEncbuf { str : bytes; lheads : list listhead; lhsize : Z }.

(** ** Encoding *)

Definition Len64 (i : Z) : Z := if i =? 0 then 0 else Z.log2 i + 1.
Definition intsize (i : Z) : Z := (Len64 i + 7) / 8.

(** The bytes [putint] writes. *)
Definition putint (i : Z) : bytes :=
  if i <? 2 ^ 8 then Z_to_be 1 i
  else if i <? 2 ^ 16 then Z_to_be 2 i
  else if i <? 2 ^ 24 then Z_to_be 3 i
  else if i <? 2 ^ 32 then Z_to_be 4 i
  else if i <? 2 ^ 40 then Z_to_be 5 i
  else if i <? 2 ^ 48 then Z_to_be 6 i
  else if i <? 2 ^ 56 then Z_to_be 7 i
  else Z_to_be 8 i.

Definition headsize (size : Z) : Z := if size <? 56 then 1 else 1 + intsize size.

(** The bytes [puthead] writes. *)
Definition puthead (smalltag largetag size : Z) : bytes :=
  if size <? 56 then [u8 (smalltag + u8 size)]
  else u8 (largetag + u8 (zlen (putint size))) :: putint size.

Definition append_str (b : bytes) : M encbuf () :=
  modify (fun w => mkEncbuf (str w ++ b) (lheads w) (lhsize w)).

Definition encodeStringHeader (size : Z) : M encbuf () :=
  if size <? 56 then append_str [u8 (0x80 + u8 size)]
  else append_str (u8 (0xB7 + u8 (zlen (putint (u64 size)))) :: putint (u64 size)).

Definition encodeString (b : bytes) : M encbuf () :=
  match b with
  | [b0] => if b0 <=? 0x7F then append_str [b0]
            else _ ← encodeStringHeader 1; append_str b
  | _ => _ ← encodeStringHeader (zlen b); append_str b
  end.

Definition encodeUint (i : Z) : M encbuf () :=
  if i =? 0 then append_str [0x80]
  else if i <? 128 then append_str [u8 i]
  else append_str (u8 (0x80 + u8 (zlen (putint i))) :: putint i).

Definition buf_size (w : encbuf) : Z := zlen (str w) + lhsize w.

Definition list_ : M encbuf Z :=
  _ ← modify (fun w => mkEncbuf (str w) (lheads w ++ [mkListhead (zlen (str w)) (lhsize w)]) (lhsize w));
  w ← get;
  mret (zlen (lheads w) - 1).

Definition listEnd (index : Z) : M encbuf () :=
  w ← get;
  lh ← must (znth (lheads w) index);
  let size' := buf_size w - offset lh - size lh in
  heads ← must (zset (lheads w) index (mkListhead (offset lh) size'));
  let lhsize' := if size' <? 56 then lhsize w + 1 else lhsize w + (1 + intsize (u64 size')) in
  modify (fun w => mkEncbuf (str w) heads lhsize').

(** The writers: [writeBytes], [writeUint] and the one of [makeSliceWriter]. *)
Fixpoint write (v : Value) : M encbuf () :=
  match v with
  | Bytes b => encodeString b
  | Uint i => encodeUint i
  | List l =>
      index ← list_;
      _ ← (fix writes (l : list Value) : M encbuf () :=
             match l with
             | [] => mret ()
             | v :: l => _ ← write v; writes l
             end) l;
      listEnd index
  end.

(** One turn of the loop of [toBytes]: the state is [out], [pos], [strpos]. *)
Definition copy_at (out : bytes) (pos : Z) (v : bytes) : option (bytes * Z) :=
  if (0 <=? pos) && (pos <=? zlen out) then
    let n := Z.min (zlen out - pos) (zlen v) in
    Some (overwrite out pos (take (Z.to_nat n) v), n)
  else None.

Definition put_at (out : bytes) (pos : Z) (v : bytes) : option bytes :=
  if (0 <=? pos) && (pos + zlen v <=? zlen out) then Some (overwrite out pos v) else None.

Fixpoint toBytes_loop (w : encbuf) (heads : list listhead) (out : bytes) (pos strpos : Z)
    : option (bytes * Z * Z) :=
  match heads with
  | [] => Some (out, pos, strpos)
  | head :: heads =>
      piece ← go_slice (str w) strpos (offset head);
      '(out, n) ← copy_at out pos piece;
      let pos := pos + n in
      let strpos := strpos + n in
      let enc := puthead 0xC0 0xF7 (u64 (size head)) in
      out ← put_at out pos enc;
      toBytes_loop w heads out (pos + zlen enc) strpos
  end.

Definition toBytes (w : encbuf) : option bytes :=
  '(out, pos, strpos) ← toBytes_loop w (lheads w) (replicate (Z.to_nat (buf_size w)) 0) 0 0;
  piece ← go_slice (str w) strpos (zlen (str w));
  '(out, _) ← copy_at out pos piece;
  Some out.

(** [reset] of a buffer from the pool leaves it empty. *)
Definition empty_encbuf : encbuf := mkEncbuf [] [] 0.

Definition EncodeToBytes (v : Value) : outcome bytes :=
  match write v empty_encbuf with
  | Done (_, w) => match toBytes w with Some b => Done b | None => GoPanic end
  | GoPanic => GoPanic
  | NoFuel => NoFuel
  end.

(** ** Splitting ([raw.go]) *)

Inductive Kind : Type := KByte | KString | KList.

Inductive error : Type :=
| ErrUnexpectedEOF | ErrCanonSize | ErrCanonInt | ErrValueTooLarge
| ErrExpectedString | ErrExpectedList | errUintOverflow.

(** [readSize]: [slen] bytes, big endian. *)
Definition readSize (b : bytes) (slen : Z) : error + Z :=
  if zlen b <? slen then inl ErrUnexpectedEOF else
  let s := be_to_Z (slice b 0 slen) in
  if (s <? 56) || (byte_at b 0 =? 0) then inl ErrCanonSize else inr s.

Definition readKind (buf : bytes) : error + (Kind * Z * Z) :=
  match buf with
  | [] => inl ErrUnexpectedEOF
  | b :: tl =>
      let check (k : Kind) (tagsize contentsize : Z) : error + (Kind * Z * Z) :=
        if u64 (zlen buf - tagsize) <? contentsize then inl ErrValueTooLarge
        else inr (k, tagsize, contentsize) in
      if b <? 0x80 then check KByte 0 1
      else if b <? 0xB8 then
        let contentsize := b - 0x80 in
        if (contentsize =? 1) && (1 <? zlen buf) && (byte_at buf 1 <? 128)
        then inl ErrCanonSize else check KString 1 contentsize
      else if b <? 0xC0 then
        match readSize tl (b - 0xB7) with
        | inl e => inl e
        | inr contentsize => check KString (b - 0xB7 + 1) contentsize
        end
      else if b <? 0xF8 then check KList 1 (b - 0xC0)
      else
        match readSize tl (b - 0xF7) with
        | inl e => inl e
        | inr contentsize => check KList (b - 0xF7 + 1) contentsize
        end
  end.

(** [Split]; [GoPanic] would be a slice out of range. *)
Definition Split (b : bytes) : outcome (error + (Kind * bytes * bytes)) :=
  match readKind b with
  | inl e => Done (inl e)
  | inr (k, ts, cs) =>
      match go_slice b ts (u64 (ts + cs)), go_slice b (u64 (ts + cs)) (zlen b) with
      | Some content, Some rest => Done (inr (k, content, rest))
      | _, _ => GoPanic
      end
  end.

Definition SplitString (b : bytes) : outcome (error + (bytes * bytes)) :=
  r ← Split b;
  Done match r with
  | inl e => inl e
  | inr (KList, _, _) => inl ErrExpectedString
  | inr (_, content, rest) => inr (content, rest)
  end.

Definition SplitUint64 (b : bytes) : outcome (error + (Z * bytes)) :=
  r ← SplitString b;
  Done match r with
  | inl e => inl e
  | inr (content, rest) =>
      match content with
      | [] => inr (0, rest)
      | [c0] => if c0 =? 0 then inl ErrCanonInt else inr (c0, rest)
      | _ => if 8 <? zlen content then inl errUintOverflow else
             match readSize content (zlen content) with
             | inl _ => inl ErrCanonInt
             | inr x => inr (x, rest)
             end
      end
  end.

Definition SplitList (b : bytes) : outcome (error + (bytes * bytes)) :=
  r ← Split b;
  Done match r with
  | inl e => inl e
  | inr (KList, content, rest) => inr (content, rest)
  | inr _ => inl ErrExpectedList
  end.

(** The loop of [CountValues]; every turn drops at least one byte. *)
Fixpoint CountValues_loop (fuel : nat) (b : bytes) (i : Z) : outcome (error + Z) :=
  match b with
  | [] => Done (inr i)
  | _ =>
      match fuel with
      | O => NoFuel
      | S fuel =>
          match readKind b with
          | inl e => Done (inl e)
          | inr (_, tagsize, size) =>
              match go_slice b (u64 (tagsize + size)) (zlen b) with
              | Some b => CountValues_loop fuel b (i + 1)
              | None => GoPanic
              end
          end
      end
  end.

Definition CountValues (b : bytes) : outcome (error + Z) := CountValues_loop (length b) b 0.

Definition ListSize (contentSize : Z) : Z := u64 (headsize contentSize + contentSize).
Definition IntSize (x : Z) : Z := if x <? 0x80 then 1 else 1 + intsize x.

End rlp.

(** ** Contract addresses ([common/crypto/crypto.go]) *)

Section CreateAddress.
Context {C : Crypto}.

(** [BytesToAddress(h[12:])]: the low 20 bytes of a hash *)
Definition hash_address (h : Z) : Z := h mod two160.

Definition CreateAddress (b nonce : Z) : outcome Z :=
  data ← rlp.EncodeToBytes (rlp.List [rlp.Bytes (Z_to_be 20 b); rlp.Uint nonce]);
  Done (hash_address (Keccak256 data)).

Definition CreateAddress2 (b salt inithash : Z) : Z :=
  hash_address (Keccak256 ([0xff] ++ Z_to_be 20 b ++ Z_to_be 32 salt ++ Z_to_be 32 inithash)).

End CreateAddress.
