(* ===== verification/RlpTheorems.v ===== *)
(** * RLP: the encoder is the textbook encoding, and splitting inverts it

    [encode] is the recursive definition of the encoding.  The buffer of
    [encode.go] keeps list headers aside and merges them at the end; the result
    is the same.  [Split] of [raw.go] takes an encoded value apart again. *)

From S2P Require Import Prelude Uint256 Params Memory Common Rlp.
Import rlp.

(** ** The reference encoding *)

(** Big-endian bytes without leading zeros. *)
Definition be_min (i : Z) : bytes := Z_to_be (Z.to_nat (intsize i)) i.

Definition head (short long n : Z) : bytes :=
  if n <? 56 then [short + n] else long + intsize n :: be_min n.

Definition encode_string (b : bytes) : bytes :=
  match b with
  | [x] => if x <=? 0x7F then [x] else [0x81; x]
  | _ => head 0x80 0xB7 (zlen b) ++ b
  end.

Fixpoint encode (v : Value) : bytes :=
  match v with
  | Bytes b => encode_string b
  | Uint i => encode_string (be_min i)
  | List l => let c := concat (map encode l) in head 0xC0 0xF7 (zlen c) ++ c
  end.

(** Values that fit the machine: bytes, 64-bit integers, sizes below 2^63. *)
Fixpoint fits (v : Value) : Prop :=
  match v with
  | Bytes b => wf_bytes b /\ zlen b < two63
  | Uint i => 0 <= i < two64
  | List l => (fix all l := match l with [] => True | v :: l => fits v /\ all l end) l /\
              zlen (concat (map encode l)) < two63
  end.

(** Induction through the lists. *)
Lemma Value_ind' (P : Value -> Prop) :
  (forall b, P (Bytes b)) -> (forall i, P (Uint i)) -> (forall l, Forall P l -> P (List l)) ->
  forall v, P v.
Proof.
  intros H1 H2 H3. fix IH 1. intros [b|i|l]; [apply H1 | apply H2 |].
  apply H3. induction l as [|v l IHl]; constructor; [apply IH | apply IHl].
Qed.

Lemma fits_List l : fits (List l) <-> Forall fits l /\ zlen (concat (map encode l)) < two63.
Proof.
  cbn. apply and_iff_compat_r. induction l as [|v l IH]; [split; [constructor|done]|].
  split.
  - intros [Hv Hl%IH]. by constructor.
  - intros H. inversion H; subst. split; [done | by apply IH].
Qed.

(** ** Integers *)

Lemma Z_to_be_pow k i : 256 ^ Z.of_nat k <= i -> 0 <= i < 256 ^ Z.of_nat (S k) ->
  intsize i = Z.of_nat (S k).
Proof.
  intros Hlo Hhi. assert (0 < 256 ^ Z.of_nat k) by (apply Z.pow_pos_nonneg; lia).
  unfold intsize, Len64. destruct (Z.eqb_spec i 0); [lia|].
  assert (8 * Z.of_nat k <= Z.log2 i < 8 * Z.of_nat (S k)) as [Hl Hu].
  { change 256 with (2 ^ 8) in *. rewrite <- !Z.pow_mul_r in * by lia.
    split; [apply Z.log2_le_pow2; lia | apply Z.log2_lt_pow2; lia]. }
  symmetry. apply (Z.div_unique _ _ _ (Z.log2 i + 1 + 7 - 8 * Z.of_nat (S k))); lia.
Qed.

Lemma putint_min i : 0 < i < two64 -> putint i = be_min i /\ 1 <= intsize i <= 8.
Proof.
  intros Hi. unfold putint, be_min.
  repeat match goal with
  | |- context [?a <? ?b] => destruct (Z.ltb_spec a b)
  end.
  all: match goal with |- Z_to_be ?n _ = _ /\ _ =>
    let k := eval cbv in (pred n) in
    rewrite (Z_to_be_pow k i) by (cbn in *; lia) end; split; [done | lia].
Qed.

Lemma be_min_length i : 0 <= i < two64 -> zlen (be_min i) = intsize i.
Proof.
  intros Hi. unfold be_min, zlen. rewrite Z_to_be_length. destruct (Z.eqb_spec i 0) as [->|]; [done|].
  destruct (putint_min i ltac:(lia)) as [_ ?]. lia.
Qed.

Lemma be_min_small i : 0 < i < 256 -> be_min i = [i].
Proof.
  intros Hi. unfold be_min. rewrite (Z_to_be_pow 0 i) by (cbn; lia).
  change (Z.to_nat (Z.of_nat 1)) with 1%nat. cbn [Z_to_be app]. f_equal. apply Z.mod_small. lia.
Qed.

Lemma be_min_wf i : wf_bytes (be_min i).
Proof. apply Z_to_be_wf. Qed.

Lemma puthead_head short long n :
  0 <= n < two63 -> 0 <= short <= 200 -> 0 <= long <= 247 -> puthead short long n = head short long n.
Proof.
  intros Hn Hs Hl. unfold puthead, head. destruct (Z.ltb_spec n 56).
  - by rewrite !u8_small by (rewrite ?u8_small; lia).
  - destruct (putint_min n ltac:(lia)) as [E ?]. rewrite E, be_min_length by lia.
    by rewrite !u8_small by (rewrite ?u8_small; lia).
Qed.

Lemma head_length short long n : 0 <= n < two63 -> zlen (head short long n) = headsize n.
Proof.
  intros Hn. unfold head, headsize. destruct (Z.ltb_spec n 56); [done|].
  pose proof (be_min_length n ltac:(lia)). zlen_lia.
Qed.

(** ** Writing *)

Definition append (b : bytes) (w : encbuf) : encbuf := mkEncbuf (str w ++ b) (lheads w) (lhsize w).

Lemma append_append a b w : append b (append a w) = append (a ++ b) w.
Proof. unfold append. cbn. by rewrite app_assoc. Qed.

Lemma encodeStringHeader_run n w :
  0 <= n < two63 -> encodeStringHeader n w = Done ((), append (head 0x80 0xB7 n) w).
Proof.
  intros Hn. unfold encodeStringHeader, append_str, modify. rewrite (u64_small n) by lia.
  rewrite <- puthead_head by lia. unfold puthead. by destruct (n <? 56).
Qed.

Lemma encodeString_run b w :
  wf_bytes b -> zlen b < two63 -> encodeString b w = Done ((), append (encode_string b) w).
Proof.
  intros Hb Hl. pose proof (zlen_nonneg b) as H0.
  assert (forall b : bytes, 0 <= zlen b < two63 -> (_ ← encodeStringHeader (zlen b); append_str b) w
    = Done ((), append (head 0x80 0xB7 (zlen b) ++ b) w)) as Hlong.
  { intros b' Hb'. unfold mbind, M_bind. rewrite encodeStringHeader_run by done.
    unfold append_str, modify. cbn. unfold append. cbn. by rewrite <- app_assoc. }
  destruct b as [|x [|y b]]; [exact (Hlong [] ltac:(done))| |exact (Hlong _ (conj H0 Hl))].
  unfold encodeString, encode_string. destruct (x <=? 0x7F); [done|]. exact (Hlong [x] ltac:(done)).
Qed.

Lemma encodeUint_run i w :
  0 <= i < two64 -> encodeUint i w = Done ((), append (encode_string (be_min i)) w).
Proof.
  intros Hi. unfold encodeUint, append_str, modify.
  destruct (Z.eqb_spec i 0) as [->|]; [done|].
  destruct (Z.ltb_spec i 128).
  { rewrite be_min_small, u8_small by lia. cbn. by rewrite (proj2 (Z.leb_le i 127)) by lia. }
  destruct (putint_min i ltac:(lia)) as [-> Hsz]. pose proof (be_min_length i Hi) as Hl.
  do 2 f_equal. unfold append. do 2 f_equal. rewrite Hl, !u8_small by (rewrite ?u8_small; lia).
  destruct (Z.ltb_spec i 256).
  { rewrite be_min_small in * by lia. cbn in Hl. unfold encode_string.
    rewrite (proj2 (Z.leb_gt i 127)) by lia. unfold zlen in Hl. cbn in Hl. by rewrite <- Hl. }
  assert (2 <= intsize i) as H2.
  { unfold intsize, Len64. rewrite (proj2 (Z.eqb_neq _ _)) by lia.
    assert (8 <= Z.log2 i) by (apply Z.log2_le_pow2; lia). apply Z.div_le_lower_bound; lia. }
  unfold encode_string, head. destruct (be_min i) as [|x [|y t]] eqn:E; [unfold zlen in Hl; cbn in Hl; lia..|].
  rewrite Hl. by rewrite (proj2 (Z.ltb_lt _ _)) by lia.
Qed.

(** The string data and the list headers a value leaves in the buffer. *)
Fixpoint data (v : Value) : bytes :=
  match v with
  | List l => concat (map data l)
  | v => encode v
  end.

Fixpoint heads (off : Z) (v : Value) : list listhead :=
  match v with
  | List l =>
      mkListhead off (zlen (concat (map encode l))) ::
      (fix all off l := match l with
                        | [] => []
                        | v :: l => heads off v ++ all (off + zlen (data v)) l
                        end) off l
  | _ => []
  end.

Fixpoint heads_list (off : Z) (l : list Value) : list listhead :=
  match l with
  | [] => []
  | v :: l => heads off v ++ heads_list (off + zlen (data v)) l
  end.

Lemma heads_List off l :
  heads off (List l) = mkListhead off (zlen (concat (map encode l))) :: heads_list off l.
Proof. reflexivity. Qed.

Fixpoint writes (l : list Value) : M encbuf () :=
  match l with
  | [] => mret ()
  | v :: l => _ ← write v; writes l
  end.

Lemma write_List l : write (List l) = (index ← list_; _ ← writes l; listEnd index).
Proof. reflexivity. Qed.

(** What writing adds to the buffer. *)
Definition adds (m : M encbuf ()) (d : bytes) (hs : Z -> list listhead) (sz : Z) : Prop := forall w,
  m w = Done ((), mkEncbuf (str w ++ d) (lheads w ++ hs (zlen (str w))) (lhsize w + (sz - zlen d))).

Lemma writes_adds l :
  Forall (fun v => adds (write v) (data v) (fun off => heads off v) (zlen (encode v))) l ->
  adds (writes l) (concat (map data l)) (fun off => heads_list off l) (zlen (concat (map encode l))).
Proof.
  induction 1 as [|v l Hv _ IH]; intros w; cbn [writes map concat heads_list].
  - rewrite !app_nil_r, Z.sub_diag, Z.add_0_r. by destruct w.
  - unfold mbind, M_bind. rewrite Hv, IH. cbn. do 2 f_equal. f_equal.
    + by rewrite app_assoc.
    + by rewrite zlen_app, app_assoc.
    + rewrite !zlen_app. lia.
Qed.

Lemma listEnd_run s h t off sz lh n :
  0 <= n < two63 -> zlen s + lh - off - sz = n ->
  listEnd (zlen h) (mkEncbuf s (h ++ mkListhead off sz :: t) lh) =
    Done ((), mkEncbuf s (h ++ mkListhead off n :: t) (lh + headsize n)).
Proof.
  intros Hn E. unfold listEnd, mbind, M_bind, get. cbn [lheads].
  replace (znth (h ++ mkListhead off sz :: t) (zlen h)) with (Some (mkListhead off sz)).
  2:{ symmetry. replace (zlen h) with (zlen h + 0) by lia. by rewrite znth_app_r by lia. }
  cbn [must mret M_ret]. unfold buf_size. cbn [str lhsize offset size]. rewrite E.
  rewrite zset_Some by (rewrite zlen_app; unfold zlen; cbn; lia). cbn [must mret M_ret].
  replace (<[Z.to_nat (zlen h):=_]> _) with (h ++ mkListhead off n :: t).
  2:{ unfold zlen. rewrite Nat2Z.id. symmetry. replace (length h) with (length h + 0)%nat by lia.
      by rewrite insert_app_r. }
  unfold modify, headsize. rewrite (u64_small n) by lia. by destruct (n <? 56).
Qed.

Lemma write_adds v : fits v -> adds (write v) (data v) (fun off => heads off v) (zlen (encode v)).
Proof.
  assert (forall b w, mkEncbuf (str w ++ b) (lheads w ++ []) (lhsize w + (zlen b - zlen b)) = append b w) as Hleaf.
  { intros b w. unfold append. by rewrite app_nil_r, Z.sub_diag, Z.add_0_r. }
  induction v as [b|i|l IH] using Value_ind'; intros Hf w.
  - destruct Hf. cbn [write data heads]. rewrite Hleaf. by apply encodeString_run.
  - cbn [write data heads]. rewrite Hleaf. by apply encodeUint_run.
  - apply fits_List in Hf as [Hf Hn]. rewrite write_List, heads_List.
    set (n := zlen (concat (map encode l))) in *. pose proof (zlen_nonneg (concat (map encode l))) as H0.
    fold n in H0.
    assert (adds (writes l) (concat (map data l)) (fun off => heads_list off l) n) as Hw.
    { apply writes_adds. rewrite Forall_forall in IH, Hf |- *. auto. }
    unfold list_, mbind, M_bind, modify, get. cbn [mret M_ret lheads]. rewrite Hw. cbn [lheads str lhsize].
    rewrite zlen_app. change (zlen [_]) with 1. replace (zlen (lheads w) + 1 - 1) with (zlen (lheads w)) by lia.
    rewrite <- app_assoc. cbn [app].
    rewrite (listEnd_run _ _ _ _ _ _ n); [|lia|rewrite zlen_app; lia].
    cbn [data encode]. rewrite zlen_app, head_length by lia. do 3 f_equal. fold n. lia.
Qed.

(** ** Merging the headers *)

Fixpoint merge (s : bytes) (hs : list listhead) (sp : Z) : bytes :=
  match hs with
  | [] => slice s sp (zlen s)
  | h :: hs => slice s sp (offset h) ++ head 0xC0 0xF7 (size h) ++ merge s hs (offset h)
  end.

Fixpoint ordered (s : bytes) (sp : Z) (hs : list listhead) : Prop :=
  match hs with
  | [] => sp <= zlen s
  | h :: hs => sp <= offset h <= zlen s /\ 0 <= size h < two63 /\ ordered s (offset h) hs
  end.

Lemma overwrite_zeros (d v : bytes) k :
  (length v <= k)%nat ->
  overwrite (d ++ replicate k 0) (zlen d) v = d ++ v ++ replicate (k - length v) 0.
Proof.
  intros Hk. unfold overwrite, zlen. rewrite Nat2Z.id, take_app_length, drop_app_ge by lia.
  replace (length d + length v - length d)%nat with (length v) by lia. by rewrite drop_replicate.
Qed.

Lemma copy_zeros (d v : bytes) k :
  (length v <= k)%nat ->
  copy_at (d ++ replicate k 0) (zlen d) v = Some (d ++ v ++ replicate (k - length v) 0, zlen v).
Proof.
  intros Hk. unfold copy_at. rewrite (proj2 (Z.leb_le _ _)) by apply zlen_nonneg.
  rewrite (proj2 (Z.leb_le _ _)) by zlen_lia. cbn [andb].
  replace (Z.min _ _) with (zlen v) by (unfold zlen; rewrite length_app, length_replicate; lia).
  rewrite take_ge by (unfold zlen; lia). by rewrite overwrite_zeros.
Qed.

Lemma put_zeros (d v : bytes) k :
  (length v <= k)%nat ->
  put_at (d ++ replicate k 0) (zlen d) v = Some (d ++ v ++ replicate (k - length v) 0).
Proof.
  intros Hk. unfold put_at. rewrite (proj2 (Z.leb_le _ _)) by apply zlen_nonneg.
  rewrite (proj2 (Z.leb_le _ _)) by (unfold zlen; rewrite length_app, length_replicate; lia).
  cbn [andb]. by rewrite overwrite_zeros.
Qed.

(** The end of [toBytes]. *)
Definition finish (w : encbuf) (p : bytes * Z * Z) : option bytes :=
  let '(out, pos, strpos) := p in
  piece ← go_slice (str w) strpos (zlen (str w));
  '(out, _) ← copy_at out pos piece;
  Some out.

Lemma toBytes_merge w hs : forall (d : bytes) sp,
  0 <= sp -> ordered (str w) sp hs ->
  toBytes_loop w hs (d ++ replicate (length (merge (str w) hs sp)) 0) (zlen d) sp ≫= finish w
  = Some (d ++ merge (str w) hs sp).
Proof.
  induction hs as [|h hs IH]; intros d sp Hsp Ho; cbn [toBytes_loop merge ordered] in *.
  - cbn. rewrite go_slice_Some by lia. cbn. rewrite copy_zeros by lia. cbn.
    by rewrite Nat.sub_diag, app_nil_r.
  - destruct Ho as ([Hoff Hoff'] & Hsize & Ho). rewrite go_slice_Some by lia. cbn [mbind option_bind].
    set (piece := slice (str w) sp (offset h)) in *.
    assert (zlen piece = offset h - sp) as Hp by (apply slice_length; lia).
    rewrite copy_zeros by (rewrite length_app; lia). cbn [mbind option_bind].
    rewrite (u64_small (size h)), puthead_head by lia.
    set (enc := head 0xC0 0xF7 (size h)). rewrite app_assoc, <- zlen_app.
    rewrite put_zeros by (rewrite !length_app; lia). cbn [mbind option_bind].
    rewrite app_assoc, <- zlen_app. replace (sp + zlen piece) with (offset h) by lia.
    rewrite !length_app.
    replace (length piece + (length enc + length (merge (str w) hs (offset h))) - length piece - length enc)%nat
      with (length (merge (str w) hs (offset h))) by lia.
    rewrite IH by (done || lia). by rewrite <- !app_assoc.
Qed.

Lemma slice_split {A} (s : list A) a b c : 0 <= a <= b -> b <= c -> slice s a c = slice s a b ++ slice s b c.
Proof.
  intros H1 H2. unfold slice. replace (Z.to_nat b) with (Z.to_nat a + Z.to_nat (b - a))%nat by lia.
  rewrite <- drop_drop. replace (Z.to_nat (c - a)) with (Z.to_nat (b - a) + Z.to_nat (c - b))%nat by lia.
  by rewrite <- take_take_drop.
Qed.

Lemma merge_skip s hs sp sp' :
  0 <= sp <= sp' -> ordered s sp' hs -> merge s hs sp = slice s sp sp' ++ merge s hs sp'.
Proof.
  intros Hsp Ho. destruct hs as [|h hs]; cbn in *.
  - apply slice_split; lia.
  - rewrite (slice_split s sp sp' (offset h)) by lia. by rewrite <- app_assoc.
Qed.

(** The headers of [v], at [off] in the data, turn its data into its encoding. *)
Definition expands (s : bytes) (off : Z) (hs1 : list listhead) (d e : bytes) : Prop := forall hs sp,
  0 <= sp <= off -> off + zlen d <= zlen s -> slice s off (off + zlen d) = d ->
  ordered s (off + zlen d) hs ->
  ordered s sp (hs1 ++ hs) /\ merge s (hs1 ++ hs) sp = slice s sp off ++ e ++ merge s hs (off + zlen d).

Lemma ordered_le s sp sp' hs : sp <= sp' -> ordered s sp' hs -> ordered s sp hs.
Proof. destruct hs; cbn; [lia|]. intros ? (? & ? & ?). split_and!; done || lia. Qed.

Lemma expands_leaf s off e : expands s off [] e e.
Proof.
  intros hs sp Hsp Hs Hd Ho. pose proof (zlen_nonneg e). cbn [app]. split; [eapply ordered_le; [|done]; lia|].
  rewrite (merge_skip s hs sp (off + zlen e)) by (done || lia).
  rewrite (slice_split s sp off) by lia. by rewrite Hd, <- app_assoc.
Qed.

Lemma expands_app s off hs1 hs2 d1 d2 e1 e2 :
  0 <= off -> expands s off hs1 d1 e1 -> expands s (off + zlen d1) hs2 d2 e2 ->
  expands s off (hs1 ++ hs2) (d1 ++ d2) (e1 ++ e2).
Proof.
  intros H0 H1 H2 hs sp Hsp Hs Hd Ho. pose proof (zlen_nonneg d1). pose proof (zlen_nonneg d2).
  rewrite zlen_app, Z.add_assoc in *. rewrite (slice_split s off (off + zlen d1)) in Hd by lia.
  apply app_inj_1 in Hd as [Hd1 Hd2].
  2:{ pose proof (slice_length s off (off + zlen d1) ltac:(lia) ltac:(lia)) as E. unfold zlen in *. lia. }
  rewrite <- app_assoc. destruct (H2 hs (off + zlen d1)) as [Ho2 Hm2]; try done; [lia|].
  destruct (H1 (hs2 ++ hs) sp) as [Ho1 Hm1]; try done; [lia|]. split; [done|].
  rewrite Hm1, Hm2. replace (slice s (off + zlen d1) (off + zlen d1)) with (@nil Z).
  - cbn [app]. by rewrite <- app_assoc.
  - unfold slice. by rewrite Z.sub_diag.
Qed.

Lemma heads_expand s v : fits v -> forall off, 0 <= off -> expands s off (heads off v) (data v) (encode v).
Proof.
  induction v as [b|i|l IH] using Value_ind'; intros Hf off Hoff; [apply expands_leaf..|].
  apply fits_List in Hf as [Hf Hn]. rewrite heads_List.
  assert (expands s off (heads_list off l) (concat (map data l)) (concat (map encode l))) as Hl.
  { clear Hn. revert off Hoff. induction l as [|v l IHl]; intros off Hoff; cbn [heads_list map concat].
    - apply expands_leaf.
    - inversion IH; subst. inversion Hf; subst. pose proof (zlen_nonneg (data v)).
      apply expands_app; auto with lia. }
  intros hs sp Hsp Hs Hd Ho. pose proof (zlen_nonneg (concat (map encode l))).
  destruct (Hl hs off) as [Ho' Hm]; try done. cbn [app ordered merge offset size].
  pose proof (zlen_nonneg (concat (map data l))). cbn [data] in *. split; [split_and!; done || lia|].
  cbn [encode]. cbv zeta. rewrite Hm. replace (slice s off off) with (@nil Z).
  - by rewrite <- app_assoc.
  - unfold slice. by rewrite Z.sub_diag.
Qed.

Lemma EncodeToBytes_run v : fits v -> EncodeToBytes v = Done (encode v).
Proof.
  intros Hf. unfold EncodeToBytes. rewrite write_adds by done. cbn [str lheads lhsize empty_encbuf app].
  set (w := mkEncbuf _ _ _).
  assert (buf_size w = zlen (encode v)) as Hsz by (unfold buf_size; cbn; lia).
  destruct (heads_expand (data v) v Hf 0 ltac:(lia) [] 0) as [Ho Hm]; try (cbn; lia).
  { unfold slice, zlen. rewrite drop_0, take_ge; [done|lia]. }
  rewrite app_nil_r in Ho, Hm. cbn [merge] in Hm. rewrite Z.add_0_l in Hm.
  replace (slice (data v) (zlen (data v)) (zlen (data v))) with (@nil Z) in Hm.
  2:{ unfold slice. by rewrite Z.sub_diag. }
  rewrite !app_nil_r in Hm.
  pose proof (toBytes_merge w (heads 0 v) [] 0 ltac:(lia) Ho) as Ht. cbn [app] in Ht.
  change (str w) with (data v) in Ht. rewrite Hm in Ht. change (slice (data v) 0 0) with (@nil Z) in Ht. cbn [app] in Ht.
  assert (toBytes w = Some (encode v)) as ->; [|done].
  rewrite <- Ht. unfold toBytes. rewrite Hsz.
  replace (Z.to_nat (zlen (encode v))) with (length (encode v)) by (unfold zlen; lia).
  change (lheads w) with (heads 0 v). change (zlen (@nil Z)) with 0.
  by destruct (toBytes_loop w (heads 0 v) (replicate (length (encode v)) 0) 0 0) as [[[o p] q]|].
Qed.

(** ** Splitting *)

Lemma be_min_value i : 0 <= i < two64 -> be_to_Z (be_min i) = i.
Proof.
  intros Hi. unfold be_min. rewrite be_to_Z_to_be. destruct (Z.eqb_spec i 0) as [->|]; [done|].
  destruct (putint_min i ltac:(lia)) as [_ Hk]. rewrite Z2Nat.id by lia. apply Z.mod_small.
  split; [lia|]. unfold intsize, Len64 in *. rewrite (proj2 (Z.eqb_neq _ _)) in * by lia.
  pose proof (Z.log2_spec i ltac:(lia)) as [_ Hlog]. pose proof (Z.log2_nonneg i).
  eapply Z.lt_le_trans; [exact Hlog|]. change 256 with (2 ^ 8). rewrite <- Z.pow_mul_r by lia.
  apply Z.pow_le_mono_r; [lia|]. pose proof (Z.div_mod (Z.log2 i + 1 + 7) 8 ltac:(lia)).
  pose proof (Z.mod_pos_bound (Z.log2 i + 1 + 7) 8 ltac:(lia)). lia.
Qed.

Lemma be_to_Z_cons x bs : be_to_Z (x :: bs) = x * 256 ^ zlen bs + be_to_Z bs.
Proof.
  induction bs as [|b bs IH] using rev_ind.
  { change (256 ^ zlen []) with 1. unfold be_to_Z. cbn [foldl]. lia. }
  rewrite app_comm_cons, !be_to_Z_snoc, IH, zlen_app. change (zlen [b]) with 1.
  rewrite Z.pow_add_r by (apply zlen_nonneg || lia). ring.
Qed.

(** No leading zero. *)
Lemma be_min_lead i : 0 < i < two64 -> exists x t, be_min i = x :: t /\ 0 < x < 256.
Proof.
  intros Hi. pose proof (be_min_value i ltac:(lia)) as Hv. pose proof (be_min_wf i) as Hw.
  pose proof (be_min_length i ltac:(lia)) as Hl.
  destruct (be_min i) as [|x t] eqn:E; [unfold be_to_Z in Hv; cbn in Hv; lia|].
  exists x, t. split; [done|]. apply Forall_cons_1 in Hw as [Hx Ht]. unfold is_byte in Hx.
  enough (x <> 0) by lia. intros ->. rewrite be_to_Z_cons in Hv.
  pose proof (be_to_Z_range t Ht). assert (i < 256 ^ zlen t) as Hlt by lia.
  assert (zlen (0 :: t) = zlen t + 1) as Hz by zlen_lia. rewrite Hz in Hl.
  unfold intsize, Len64 in Hl. rewrite (proj2 (Z.eqb_neq _ _)) in Hl by lia.
  change 256 with (2 ^ 8) in Hlt. rewrite <- Z.pow_mul_r in Hlt by (apply zlen_nonneg || lia).
  apply Z.log2_lt_pow2 in Hlt; [|lia]. pose proof (Z.div_mod (Z.log2 i + 1 + 7) 8 ltac:(lia)).
  pose proof (Z.mod_pos_bound (Z.log2 i + 1 + 7) 8 ltac:(lia)). lia.
Qed.

Lemma slice_prefix {A} (a b : list A) : slice (a ++ b) 0 (zlen a) = a.
Proof.
  unfold slice. rewrite drop_0. replace (Z.to_nat (zlen a - 0)) with (length a) by (unfold zlen; lia).
  apply take_app_length.
Qed.

Lemma readSize_min n rest :
  56 <= n < two64 -> readSize (be_min n ++ rest) (intsize n) = inr n.
Proof.
  intros Hn. unfold readSize. pose proof (be_min_length n ltac:(lia)) as Hl. pose proof (zlen_nonneg rest).
  rewrite (proj2 (Z.ltb_ge _ _)) by (rewrite zlen_app; lia).
  rewrite <- Hl, slice_prefix, be_min_value by lia. rewrite (proj2 (Z.ltb_ge _ _)) by lia.
  destruct (be_min_lead n ltac:(lia)) as (x & t & -> & Hx).
  change (byte_at _ 0) with x. by rewrite (proj2 (Z.eqb_neq x 0)) by lia.
Qed.

(** [Split] after a header of [ts] bytes. *)
Lemma Split_head k h content rest :
  readKind (h ++ content ++ rest) = inr (k, zlen h, zlen content) ->
  zlen (h ++ content ++ rest) < two64 ->
  Split (h ++ content ++ rest) = Done (inr (k, content, rest)).
Proof.
  intros Hk Hl. unfold Split. rewrite Hk.
  pose proof (zlen_nonneg h). pose proof (zlen_nonneg content). pose proof (zlen_nonneg rest).
  rewrite !zlen_app in Hl. rewrite (u64_small (zlen h + zlen content)) by lia.
  rewrite !go_slice_Some by (rewrite ?zlen_app; lia). repeat f_equal.
  - unfold slice. replace (Z.to_nat (zlen h)) with (length h) by (unfold zlen; lia).
    rewrite drop_app_length. replace (Z.to_nat _) with (length content) by (unfold zlen; lia).
    apply take_app_length.
  - unfold slice. rewrite app_assoc.
    replace (Z.to_nat (zlen h + zlen content)) with (length (h ++ content))
      by (rewrite length_app; unfold zlen; lia).
    rewrite drop_app_length. apply take_ge. rewrite !zlen_app. unfold zlen. lia.
Qed.

(** Decide the comparisons of the tag. *)
Ltac tags := repeat match goal with |- context [?a <? ?b] =>
  first [rewrite (proj2 (Z.ltb_lt a b)) by lia | rewrite (proj2 (Z.ltb_ge a b)) by lia] end.

Lemma readKind_head (k : Kind) short long content rest :
  (k = KString /\ short = 0x80 /\ long = 0xB7 /\
     ~ (exists x, content = [x] /\ x < 128)) \/ (k = KList /\ short = 0xC0 /\ long = 0xF7) ->
  zlen (head short long (zlen content) ++ content ++ rest) < two63 ->
  readKind (head short long (zlen content) ++ content ++ rest)
  = inr (k, zlen (head short long (zlen content)), zlen content).
Proof.
  intros Hcase Hl. pose proof (zlen_nonneg content) as Hc. pose proof (zlen_nonneg rest).
  assert (zlen content < two63) as Hc' by (rewrite !zlen_app in Hl; pose proof (zlen_nonneg (head short long (zlen content))); lia).
  rewrite !zlen_app in Hl. rewrite head_length in * by lia.
  set (n := zlen content) in *. unfold head, headsize in *. destruct (Z.ltb_spec n 56) as [Hn|Hn].
  - cbn [app]. unfold readKind. cbv zeta. set (buf := short + n :: content ++ rest).
    assert (zlen buf = 1 + n + zlen rest) as Hb by (unfold buf, n; zlen_lia).
    rewrite (u64_small (zlen buf - 1)) by lia.
    destruct Hcase as [(-> & -> & -> & Hx)|(-> & -> & ->)]; tags; cbn [orb andb].
    + replace (128 + n - 128) with n by lia.
      replace ((n =? 1) && _ && _) with false; [done|].
      symmetry. destruct (Z.eqb_spec n 1) as [E|]; [|done]. cbn [andb].
      destruct content as [|x [|y t]]; [done| |unfold n, zlen in E; cbn in E; lia].
      destruct (Z.ltb_spec x 128); [destruct Hx; eauto|]. change (byte_at buf 1) with x.
      rewrite (proj2 (Z.ltb_ge x 128)) by lia. by rewrite andb_false_r.
    + by replace (192 + n - 192) with n by lia.
  - destruct (putint_min n ltac:(lia)) as [_ Hk]. cbn [app]. unfold readKind. cbv zeta.
    set (buf := long + intsize n :: be_min n ++ content ++ rest).
    assert (zlen buf = 1 + intsize n + n + zlen rest) as Hb.
    { unfold buf. pose proof (be_min_length n ltac:(lia)). unfold n in *. zlen_lia. }
    destruct Hcase as [(-> & -> & -> & Hx)|(-> & -> & ->)]; tags.
    + replace (183 + intsize n - 183) with (intsize n) by lia. rewrite readSize_min by lia.
      rewrite u64_small by lia. rewrite (proj2 (Z.ltb_ge _ _)) by lia. by rewrite Z.add_comm.
    + replace (247 + intsize n - 247) with (intsize n) by lia. rewrite readSize_min by lia.
      rewrite u64_small by lia. rewrite (proj2 (Z.ltb_ge _ _)) by lia. by rewrite Z.add_comm.
Qed.

(** What [Split] shows of a value: its kind and its content. *)
Definition string_kind (b : bytes) : Kind :=
  match b with [x] => if x <=? 0x7F then KByte else KString | _ => KString end.

Definition kind_of (v : Value) : Kind :=
  match v with Bytes b => string_kind b | Uint i => string_kind (be_min i) | List _ => KList end.

Definition content_of (v : Value) : bytes :=
  match v with Bytes b => b | Uint i => be_min i | List l => concat (map encode l) end.

(** The one encoding [Split] accepts for a kind and a content. *)
Definition wrap (k : Kind) (content : bytes) : bytes :=
  match k with
  | KByte => content
  | KString => head 0x80 0xB7 (zlen content) ++ content
  | KList => head 0xC0 0xF7 (zlen content) ++ content
  end.

Lemma encode_string_wrap b : encode_string b = wrap (string_kind b) b.
Proof. destruct b as [|x [|y t]]; cbn; [done| |done]. by destruct (x <=? 127). Qed.

Lemma encode_wrap v : encode v = wrap (kind_of v) (content_of v).
Proof. destruct v; [apply encode_string_wrap..|done]. Qed.

Lemma string_kind_cases b :
  (exists x, b = [x] /\ x <= 0x7F) \/
  (string_kind b = KString /\ ~ exists x, b = [x] /\ x < 128).
Proof.
  destruct b as [|x [|y t]]; cbn; [right|destruct (Z.leb_spec x 127); [left; eauto|right]|right];
    split; try done; intros (x' & E & ?); simplify_eq; lia.
Qed.

Lemma Split_string b rest :
  wf_bytes b -> zlen (encode_string b ++ rest) < two63 ->
  Split (encode_string b ++ rest) = Done (inr (string_kind b, b, rest)).
Proof.
  intros Hb Hl. rewrite encode_string_wrap in *. destruct (string_kind_cases b) as [(x & -> & Hx)|[E Hn]].
  - cbn [string_kind] in *. rewrite (proj2 (Z.leb_le _ _)) in * by lia.
    inversion Hb as [|? ? Hx' _]; subst.
    unfold is_byte in Hx'. apply (Split_head KByte [] [x] rest); [|cbn in *; lia].
    cbn [app]. unfold readKind. tags. cbv zeta. rewrite (proj2 (Z.ltb_ge _ _)); [done|].
    cbn in Hl. rewrite u64_small by (pose proof (zlen_nonneg (x :: rest)); lia).
    pose proof (zlen_nonneg rest). zlen_lia.
  - rewrite E in *. cbn [wrap] in *. rewrite <- app_assoc in *.
    apply Split_head; [|lia]. apply readKind_head; [|done]. by left.
Qed.

Lemma Split_value v rest :
  fits v -> zlen (encode v ++ rest) < two63 ->
  Split (encode v ++ rest) = Done (inr (kind_of v, content_of v, rest)).
Proof.
  intros Hf Hl. destruct v as [b|i|l].
  - destruct Hf. by apply Split_string.
  - apply Split_string; [apply be_min_wf | done].
  - cbn [encode kind_of content_of] in *. cbv zeta in *. rewrite <- app_assoc in *.
    apply Split_head; [|lia]. apply readKind_head; [by right | done].
Qed.

(** Only the canonical header is accepted. *)
Lemma be_min_unique x t : wf_bytes (x :: t) -> x <> 0 ->
  be_min (be_to_Z (x :: t)) = x :: t /\ intsize (be_to_Z (x :: t)) = zlen (x :: t).
Proof.
  intros Hw Hx. pose proof (be_to_Z_range _ Hw) as Hr. pose proof (Forall_inv Hw) as Hb.
  pose proof (be_to_Z_range t (Forall_inv_tail Hw)) as Ht. unfold is_byte in Hb.
  assert (intsize (be_to_Z (x :: t)) = zlen (x :: t)) as E.
  { change (zlen (x :: t)) with (Z.of_nat (S (length t))). apply Z_to_be_pow; [|exact Hr].
    fold (zlen t). rewrite be_to_Z_cons. assert (0 < 256 ^ zlen t) by lia. nia. }
  split; [|done]. unfold be_min. rewrite E. unfold zlen. rewrite Nat2Z.id. by apply Z_to_be_be_to_Z.
Qed.

Lemma readSize_canonical tl n s :
  wf_bytes tl -> 1 <= n <= 8 -> readSize tl n = inr s ->
  n <= zlen tl /\ 56 <= s < two64 /\ intsize s = n /\ slice tl 0 n = be_min s.
Proof.
  intros Hw Hn H. unfold readSize in H. destruct (Z.ltb_spec (zlen tl) n); [done|].
  destruct (Z.ltb_spec (be_to_Z (slice tl 0 n)) 56); [done|]. cbn [orb] in H.
  destruct (Z.eqb_spec (byte_at tl 0) 0) as [|Hx]; [done|]. injection H as <-.
  pose proof (slice_length tl 0 n ltac:(lia) ltac:(lia)) as Hl.
  assert (wf_bytes (slice tl 0 n)) as Hws by (by apply Forall_take, Forall_drop).
  destruct tl as [|x tl]; [unfold zlen in *; cbn in *; lia|].
  unfold slice in *. rewrite drop_0 in *. destruct (Z.to_nat (n - 0)) as [|k] eqn:Ek; [lia|].
  cbn [take] in *. change (byte_at (x :: tl) 0) with x in Hx.
  destruct (be_min_unique x (take k tl) Hws Hx) as [E1 E2].
  pose proof (be_to_Z_range _ Hws) as Hr. rewrite Hl in *.
  assert (256 ^ (n - 0) <= 256 ^ 8) by (apply Z.pow_le_mono_r; lia). change (256 ^ 8) with two64 in *.
  split_and!; try done; lia.
Qed.

Lemma split_at {A} (l : list A) n : 0 <= n <= zlen l ->
  exists a b, l = a ++ b /\ zlen a = n.
Proof.
  intros H. exists (take (Z.to_nat n) l), (drop (Z.to_nat n) l). rewrite take_drop. split; [done|].
  unfold zlen in *. rewrite length_take. lia.
Qed.

(** A short header, then a long one. *)
Lemma short_split t (tl : bytes) short long cs :
  t = short + cs -> 0 <= cs < 56 -> cs <= zlen tl ->
  exists content rest, t :: tl = head short long (zlen content) ++ content ++ rest /\
    zlen content = cs /\ zlen (head short long (zlen content)) = 1.
Proof.
  intros -> Hcs Hl. destruct (split_at tl cs) as (a & b & -> & Ha); [lia|].
  exists a, b. rewrite Ha. unfold head. rewrite (proj2 (Z.ltb_lt _ _)) by lia. done.
Qed.

Lemma long_split t tl short long n s :
  wf_bytes tl -> t = long + n -> 1 <= n <= 8 -> readSize tl n = inr s -> n + s <= zlen tl ->
  exists content rest, t :: tl = head short long (zlen content) ++ content ++ rest /\
    zlen content = s /\ zlen (head short long (zlen content)) = n + 1.
Proof.
  intros Hw -> Hn Hs Hl. destruct (readSize_canonical tl n s Hw Hn Hs) as (Hnl & Hs' & Hk & Hsl).
  destruct (split_at tl n) as (a & b & -> & Ha); [lia|]. rewrite <- Ha, slice_prefix in Hsl. subst a.
  rewrite zlen_app in Hl. destruct (split_at b s) as (c & d & -> & Hc); [lia|].
  exists c, d. rewrite Hc. unfold head. rewrite (proj2 (Z.ltb_ge _ _)) by lia.
  rewrite Hk. split_and!; [done..|]. zlen_lia.
Qed.

Lemma check_inr (k k' : Kind) (c : bool) (e : error) (ts cs ts' cs' : Z) :
  (if c then inl e else inr (k, ts, cs)) = inr (k', ts', cs') -> c = false /\ k' = k /\ ts' = ts /\ cs' = cs.
Proof. destruct c; [done|]. by intros [= <- <- <-]. Qed.

Lemma readKind_canonical b k ts cs :
  wf_bytes b -> zlen b < two63 -> readKind b = inr (k, ts, cs) ->
  exists h content rest, b = h ++ content ++ rest /\ zlen h = ts /\ zlen content = cs /\
    h ++ content = wrap k content.
Proof.
  intros Hw Hl H. destruct b as [|t tl]; [done|]. pose proof (Forall_inv Hw) as Ht.
  apply Forall_inv_tail in Hw. unfold is_byte in Ht. pose proof (zlen_nonneg tl).
  assert (zlen (t :: tl) = 1 + zlen tl) as Hz by zlen_lia.
  unfold readKind in H. cbv zeta in H. destruct (Z.ltb_spec t 128).
  { apply check_inr in H as (_ & -> & -> & ->). by exists [], [t], tl. }
  destruct (Z.ltb_spec t 184).
  { destruct (_ && _ && _); [done|]. apply check_inr in H as (Hc & -> & -> & ->).
    rewrite u64_small in Hc by lia. apply Z.ltb_ge in Hc.
    destruct (short_split t tl 0x80 0xB7 (t - 128)) as (c & r & E & Hcl & Hh); [lia..|]. eauto 10. }
  destruct (Z.ltb_spec t 192).
  { destruct (readSize tl (t - 183)) as [|s] eqn:Es; [done|]. apply check_inr in H as (Hc & -> & -> & ->).
    destruct (readSize_canonical tl (t - 183) s Hw ltac:(lia) Es) as (? & ? & _).
    rewrite u64_small in Hc by lia. apply Z.ltb_ge in Hc.
    destruct (long_split t tl 0x80 0xB7 (t - 183) s) as (c & r & E & Hcl & Hh); try done; [lia..|]. eauto 10. }
  destruct (Z.ltb_spec t 248).
  { apply check_inr in H as (Hc & -> & -> & ->). rewrite u64_small in Hc by lia. apply Z.ltb_ge in Hc.
    destruct (short_split t tl 0xC0 0xF7 (t - 192)) as (c & r & E & Hcl & Hh); [lia..|]. eauto 10. }
  destruct (readSize tl (t - 247)) as [|s] eqn:Es; [done|]. apply check_inr in H as (Hc & -> & -> & ->).
  destruct (readSize_canonical tl (t - 247) s Hw ltac:(lia) Es) as (? & ? & _).
  rewrite u64_small in Hc by lia. apply Z.ltb_ge in Hc.
  destruct (long_split t tl 0xC0 0xF7 (t - 247) s) as (c & r & E & Hcl & Hh); try done; [lia..|]. eauto 10.
Qed.

(** Reading an integer back from its minimal bytes. *)
Lemma uint_read i (rest : bytes) : 0 <= i < two64 ->
  match be_min i with
  | [] => inr (0, rest)
  | [c0] => if c0 =? 0 then inl ErrCanonInt else inr (c0, rest)
  | _ => if 8 <? zlen (be_min i) then inl errUintOverflow else
         match readSize (be_min i) (zlen (be_min i)) with
         | inl _ => inl ErrCanonInt
         | inr x => inr (x, rest)
         end
  end = inr (i, rest).
Proof.
  intros Hi. destruct (Z.eqb_spec i 0) as [->|Hi0]; [done|].
  destruct (be_min_lead i ltac:(lia)) as (x & t & E & Hx).
  pose proof (be_min_value i Hi) as Hv. pose proof (be_min_length i Hi) as Hlen.
  destruct (putint_min i ltac:(lia)) as [_ Hk].
  assert (zlen (be_min i) = 1 \/ 56 <= i) as Hbig.
  { destruct (Z.ltb_spec i 256); [left; by rewrite be_min_small by lia | right; lia]. }
  rewrite Hlen. destruct t as [|y t].
  - rewrite E in *. unfold be_to_Z in Hv. cbn [foldl] in Hv.
    replace x with i by lia. by rewrite (proj2 (Z.eqb_neq _ 0)) by lia.
  - rewrite (proj2 (Z.ltb_ge _ _)) by lia. destruct Hbig as [H1|Hbig].
    { rewrite E in H1. unfold zlen in H1. cbn in H1. lia. }
    rewrite <- (app_nil_r (be_min i)), readSize_min by lia. by rewrite app_nil_r, E.
Qed.

(** ** The properties *)

(** C19: the encoder, which writes all string data first and merges the list
    headers at the end, produces the recursive RLP encoding of the value. *)
Theorem EncodeToBytes_encode v : fits v -> EncodeToBytes v = Done (encode v).
Proof. apply EncodeToBytes_run. Qed.

(** C35: round trip: splitting an encoded value followed by any bytes gives back
    its kind, its content and the remaining bytes. *)
Theorem Split_EncodeToBytes v bs rest :
  fits v -> EncodeToBytes v = Done bs -> zlen (bs ++ rest) < two63 ->
  Split (bs ++ rest) = Done (inr (kind_of v, content_of v, rest)).
Proof.
  intros Hf E Hl. rewrite EncodeToBytes_run in E by done. injection E as <-. by apply Split_value.
Qed.

(** [Split] never slices out of range, and it accepts only the canonical
    encoding: what it accepts is the header for the kind and the content it
    returns, followed by the rest. *)
Theorem Split_canonical b :
  wf_bytes b -> zlen b < two63 ->
  (exists e, Split b = Done (inl e)) \/
  (exists k content rest, Split b = Done (inr (k, content, rest)) /\ b = wrap k content ++ rest).
Proof.
  intros Hw Hl. destruct (readKind b) as [e|[[k ts] cs]] eqn:E.
  - left. exists e. unfold Split. by rewrite E.
  - right. destruct (readKind_canonical b k ts cs Hw Hl E) as (h & c & r & -> & Hh & Hc & Hwr).
    exists k, c, r. rewrite <- Hwr, <- app_assoc. split; [|done].
    apply Split_head; [by rewrite E, Hh, Hc | lia].
Qed.

(** an unsigned integer written by the encoder is read back by [SplitUint64]. *)
Theorem SplitUint64_encode i bs rest :
  0 <= i < two64 -> EncodeToBytes (Uint i) = Done bs -> zlen (bs ++ rest) < two63 ->
  SplitUint64 (bs ++ rest) = Done (inr (i, rest)).
Proof.
  intros Hi E Hl. rewrite EncodeToBytes_run in E by done.
  assert (bs = encode (Uint i)) as -> by congruence.
  unfold SplitUint64, SplitString, mbind, outcome_bind. rewrite Split_value by done.
  cbn [kind_of content_of]. assert (string_kind (be_min i) <> KList) as Hk.
  { unfold string_kind. destruct (be_min i) as [|x [|y t]]; [done| |done]. by destruct (x <=? 127). }
  destruct (string_kind (be_min i)); [| |done]; f_equal; by apply uint_read.
Qed.

Lemma head_cons short long n : exists t r, head short long n = t :: r.
Proof. unfold head. destruct (n <? 56); eauto. Qed.

Lemma encode_cons v : exists t r, encode v = t :: r.
Proof.
  assert (forall b, exists t r, encode_string b = t :: r) as Hs.
  { intros [|x [|y t]]; [cbn; eauto|cbn; destruct (x <=? 127); eauto|]. cbn [encode_string].
    destruct (head_cons 0x80 0xB7 (zlen (x :: y :: t))) as (a & b & ->). cbn. eauto. }
  destruct v as [b|i|l]; [apply Hs..|]. cbn [encode]. cbv zeta.
  destruct (head_cons 0xC0 0xF7 (zlen (concat (map encode l)))) as (t & r & ->). cbn. eauto.
Qed.

Lemma CountValues_loop_run l : Forall fits l -> forall fuel i,
  (length (concat (map encode l)) <= fuel)%nat -> zlen (concat (map encode l)) < two63 ->
  CountValues_loop fuel (concat (map encode l)) i = Done (inr (i + zlen l)).
Proof.
  induction 1 as [|v l Hv Hl IH]; intros fuel i Hf Hlen; cbn [map concat] in *.
  - destruct fuel; cbn; by rewrite Z.add_0_r.
  - pose proof (Split_value v (concat (map encode l)) Hv Hlen) as Hs. unfold Split in Hs.
    destruct (encode_cons v) as (t & r & Ev). rewrite Ev in *. cbn [app length] in Hf.
    destruct fuel as [|fuel]; [lia|]. cbn [app CountValues_loop] in *.
    destruct (readKind _) as [e|[[k ts] cs]]; [done|].
    destruct (go_slice _ ts _) as [c|]; [|done]. destruct (go_slice _ (u64 (ts + cs)) _) as [rest|]; [|done].
    injection Hs as _ _ ->. rewrite length_app in Hf.
    assert (zlen (v :: l) = 1 + zlen l) as -> by zlen_lia.
    rewrite IH; [do 2 f_equal; lia | lia |].
    pose proof (zlen_nonneg (t :: r)). change (t :: r ++ ?x) with ((t :: r) ++ x) in Hlen.
    rewrite zlen_app in Hlen. lia.
Qed.

(** the number of values in the payload of an encoded list is counted
    exactly. *)
Theorem CountValues_encode l :
  fits (List l) -> CountValues (content_of (List l)) = Done (inr (zlen l)).
Proof.
  intros Hf. apply fits_List in Hf as [Hf Hn]. unfold CountValues. cbn [content_of].
  by rewrite CountValues_loop_run.
Qed.

(** ** A concrete value *)

Definition sample : Value := List [Bytes [100; 111; 103]; Uint 1024; List [Uint 0; Bytes [7]]].

Lemma sample_fits : fits sample.
Proof. cbn. unfold wf_bytes, is_byte. repeat (constructor || lia). Qed.

Lemma EncodeToBytes_encode_witness :
  EncodeToBytes sample = Done [202; 131; 100; 111; 103; 130; 4; 0; 194; 128; 7].
Proof. rewrite (EncodeToBytes_encode sample sample_fits). vm_compute. reflexivity. Defined.

Lemma Split_EncodeToBytes_witness :
  Split ([202; 131; 100; 111; 103; 130; 4; 0; 194; 128; 7] ++ [1; 2])
  = Done (inr (KList, [131; 100; 111; 103; 130; 4; 0; 194; 128; 7], [1; 2])).
Proof.
  apply (Split_EncodeToBytes sample _ [1; 2] sample_fits); [vm_compute; reflexivity | reflexivity].
Defined.

Lemma Split_canonical_witness :
  (exists e, Split [0x81; 5] = Done (inl e)) \/
  (exists k content rest, Split [0x81; 5] = Done (inr (k, content, rest)) /\ [0x81; 5] = wrap k content ++ rest).
Proof.
  apply (Split_canonical [0x81; 5]); [|reflexivity].
  unfold wf_bytes, is_byte. repeat (constructor || lia).
Defined.

Lemma SplitUint64_encode_witness : SplitUint64 ([130; 4; 0] ++ [9]) = Done (inr (1024, [9])).
Proof. apply (SplitUint64_encode 1024 _ [9]); [lia | reflexivity | reflexivity]. Defined.

Lemma CountValues_encode_witness : CountValues (content_of sample) = Done (inr 3).
Proof. exact (CountValues_encode _ sample_fits). Defined.
