(* ===== verification/Contracts.v ===== *)
(** * Precompiled contracts ([internal/vm/contracts.go])

    The tables of precompiled contracts, the prices and [bigModExp], which
    computes on [math/big] integers, are translated.  The bodies that compute on
    elliptic curves or run a hash are a parameter ([Native]); the BLS12-381
    contracts are in no table the machine uses and are left out. *)

From S2P Require Import Prelude Uint256 Params Stack Memory Analysis Common EvmTypes.

Inductive PrecompiledContract : Type :=
| ecrecover | sha256hash | ripemd160hash | dataCopy
| bigModExp (eip2565 : bool)
| bn256AddByzantium | bn256AddIstanbul
| bn256ScalarMulByzantium | bn256ScalarMulIstanbul
| bn256PairingByzantium | bn256PairingIstanbul
| blake2F.

(** What [Run] answers for the contracts that call native cryptography. *)
Class Native : Type := { native_Run : PrecompiledContract -> bytes -> bytes * option VMError }.

(** ** Tables: the address and its contract *)

Definition table : Type := list (Z * PrecompiledContract).

Definition PrecompiledContractsHomestead : table :=
  [(1, ecrecover); (2, sha256hash); (3, ripemd160hash); (4, dataCopy)].

Definition PrecompiledContractsByzantium : table :=
  [(1, ecrecover); (2, sha256hash); (3, ripemd160hash); (4, dataCopy);
   (5, bigModExp false); (6, bn256AddByzantium); (7, bn256ScalarMulByzantium);
   (8, bn256PairingByzantium)].

Definition PrecompiledContractsIstanbul : table :=
  [(1, ecrecover); (2, sha256hash); (3, ripemd160hash); (4, dataCopy);
   (5, bigModExp false); (6, bn256AddIstanbul); (7, bn256ScalarMulIstanbul);
   (8, bn256PairingIstanbul); (9, blake2F)].

Definition PrecompiledContractsIstanbulForBSC : table :=
  [(1, ecrecover); (2, sha256hash); (3, ripemd160hash); (4, dataCopy);
   (5, bigModExp false); (6, bn256AddIstanbul); (7, bn256ScalarMulIstanbul);
   (8, bn256PairingIstanbul); (9, blake2F)].

Definition PrecompiledContractsNano : table :=
  [(1, ecrecover); (2, sha256hash); (3, ripemd160hash); (4, dataCopy);
   (5, bigModExp false); (6, bn256AddIstanbul); (7, bn256ScalarMulIstanbul);
   (8, bn256PairingIstanbul); (9, blake2F)].

Definition PrecompiledContractsIsMoran : table :=
  [(1, ecrecover); (2, sha256hash); (3, ripemd160hash); (4, dataCopy);
   (5, bigModExp false); (6, bn256AddIstanbul); (7, bn256ScalarMulIstanbul);
   (8, bn256PairingIstanbul); (9, blake2F)].

Definition PrecompiledContractsBerlin : table :=
  [(1, ecrecover); (2, sha256hash); (3, ripemd160hash); (4, dataCopy);
   (5, bigModExp true); (6, bn256AddIstanbul); (7, bn256ScalarMulIstanbul);
   (8, bn256PairingIstanbul); (9, blake2F)].

Fixpoint table_lookup (t : table) (addr : Z) : option PrecompiledContract :=
  match t with
  | [] => None
  | (a, p) :: t => if addr =? a then Some p else table_lookup t addr
  end.

(** [EVM.precompile] *)
Definition precompile (rules : Rules) (addr : Z) : option PrecompiledContract :=
  table_lookup
    (if IsMoran rules then PrecompiledContractsIsMoran
     else if IsNano rules then PrecompiledContractsNano
     else if IsBerlin rules then PrecompiledContractsBerlin
     else if IsIstanbul rules then
       if IsParlia rules then PrecompiledContractsIstanbulForBSC else PrecompiledContractsIstanbul
     else if IsByzantium rules then PrecompiledContractsByzantium
     else PrecompiledContractsHomestead) addr.

(** [ActivePrecompiles]; the address lists are filled by ranging over the maps,
    in no fixed order. *)
Definition ActivePrecompiles (rules : Rules) : list Z :=
  map fst
    (if IsMoran rules then PrecompiledContractsIsMoran
     else if IsNano rules then PrecompiledContractsNano
     else if IsBerlin rules then PrecompiledContractsBerlin
     else if IsIstanbul rules then
       if IsParlia rules then PrecompiledContractsIstanbulForBSC else PrecompiledContractsIstanbul
     else if IsByzantium rules then PrecompiledContractsByzantium
     else PrecompiledContractsHomestead).

(** ** Modular exponentiation *)

(** [big.Int.BitLen] of a non-negative integer, and its bytes *)
Definition big_BitLen (x : Z) : Z := if x =? 0 then 0 else Z.log2 x + 1.
Definition big_Bytes (x : Z) : bytes := Z_to_be (Z.to_nat ((big_BitLen x + 7) / 8)) x.

Definition modexpMultComplexity (x : Z) : Z :=
  if x <=? 64 then x * x
  else if x <=? 1024 then x * x / 4 + (96 * x - 3072)
  else x * x / 16 + (480 * x - 199680).

(** A word of the input, read as a number. *)
Definition big_data (input : bytes) (start size : Z) : option Z :=
  d ← getData input start size; mret (be_to_Z d).

Definition modexp_body (input : bytes) : bytes := if 96 <? zlen input then drop 96 input else [].

Definition modexp_adjExpLen (expLen expHead : Z) : Z :=
  let bitlen := big_BitLen expHead in
  let msb := if 0 <? bitlen then bitlen - 1 else 0 in
  (if 32 <? expLen then 8 * (expLen - 32) else 0) + msb.

Definition bigModExp_RequiredGas (eip2565 : bool) (input : bytes) : option Z :=
  baseLen ← big_data input 0 32;
  expLen ← big_data input 32 32;
  modLen ← big_data input 64 32;
  let input := modexp_body input in
  expHead ← (if zlen input <=? baseLen then Some 0
             else if 32 <? expLen then big_data input (u64 baseLen) 32
             else big_data input (u64 baseLen) (u64 expLen));
  let adjExpLen := modexp_adjExpLen expLen expHead in
  let gas := Z.max modLen baseLen in
  if eip2565 then
    let gas := (gas + 7) / 8 in
    let gas := gas * gas * Z.max adjExpLen 1 / 3 in
    if 64 <? big_BitLen gas then Some MaxUint64
    else if u64 gas <? 200 then Some 200
    else Some (u64 gas)
  else
    let gas := modexpMultComplexity gas * Z.max adjExpLen 1 / 20 in
    if 64 <? big_BitLen gas then Some MaxUint64 else Some (u64 gas).

Definition bigModExp_Run (input : bytes) : option bytes :=
  baseLen ← big_data input 0 32; let baseLen := u64 baseLen in
  expLen ← big_data input 32 32; let expLen := u64 expLen in
  modLen ← big_data input 64 32; let modLen := u64 modLen in
  let input := modexp_body input in
  if (baseLen =? 0) && (modLen =? 0) then Some [] else
  base ← big_data input 0 baseLen;
  exp ← big_data input baseLen expLen;
  mod_ ← big_data input (u64 (baseLen + expLen)) modLen;
  if big_BitLen mod_ =? 0 then Some (LeftPadBytes [] (i64 modLen))
  else if base =? 1 then Some (LeftPadBytes (big_Bytes (base mod mod_)) (i64 modLen))
  else Some (LeftPadBytes (big_Bytes (base ^ exp mod mod_)) (i64 modLen)).

(** ** The interface *)

Definition words32 (input : bytes) : Z := (zlen input + 31) / 32.

(** [binary.BigEndian.Uint32] *)
Definition BigEndian_Uint32 (b : bytes) : Z := be_to_Z b mod 2 ^ 32.

Definition RequiredGas (p : PrecompiledContract) (input : bytes) : option Z :=
  match p with
  | ecrecover => Some 3000
  | sha256hash => Some (u64 (words32 input * 12 + 60))
  | ripemd160hash => Some (u64 (words32 input * 120 + 600))
  | dataCopy => Some (u64 (words32 input * 3 + 15))
  | bigModExp eip2565 => bigModExp_RequiredGas eip2565 input
  | bn256AddByzantium => Some 500
  | bn256AddIstanbul => Some 150
  | bn256ScalarMulByzantium => Some 40000
  | bn256ScalarMulIstanbul => Some 6000
  | bn256PairingByzantium => Some (u64 (100000 + zlen input / 192 * 80000))
  | bn256PairingIstanbul => Some (u64 (45000 + zlen input / 192 * 34000))
  | blake2F => if negb (zlen input =? 213) then Some 0 else Some (BigEndian_Uint32 (take 4 input))
  end.

Section Run.
Context `{Native}.

Definition precompile_Run (p : PrecompiledContract) (input : bytes) : option (bytes * option VMError) :=
  match p with
  | dataCopy => Some (input, None)
  | bigModExp _ => r ← bigModExp_Run input; Some (r, None)
  | _ => Some (native_Run p input)
  end.

(** [RunPrecompiledContract]; [None] is a panic *)
Definition RunPrecompiledContract (p : PrecompiledContract) (input : bytes) (suppliedGas : Z)
    : option (bytes * Z * option VMError) :=
  gasCost ← RequiredGas p input;
  if suppliedGas <? gasCost then Some ([], 0, Some ErrOutOfGas) else
  let suppliedGas := u64 (suppliedGas - gasCost) in
  '(output, err) ← precompile_Run p input;
  Some (output, suppliedGas, err).

End Run.
