(* ===== verification/Interpreter.v ===== *)
(** * The interpreter ([internal/vm/interpreter.go])

    [step] is one turn of the main loop of [Run], [run_loop] the loop and [Run]
    the method.  Calls of other contracts go through a record of type [Calls],
    which [Evm.v] builds from [Run] itself.

    Fuel: a turn that does not end the run costs at least one unit of gas
    (theorem in [GasSafety.v]), so a number of turns larger than the gas of the
    contract is enough. *)

From S2P Require Import Prelude Uint256 Params Stack Memory Analysis Common EvmTypes Contract.
From S2P Require Import Instructions GasTable Opcodes JumpTable.

Section Interpreter.
Context {U : Uint256} {C : Crypto} {S : Type} {I : ibs.IntraBlockState S} (env : Env S).

#[local] Notation MF := (M (Frame S)).
#[local] Notation JumpTable := (JumpTable (S:=S)).
#[local] Notation operation := (operation (S:=S)).

(** ** [NewEVMInterpreter] *)

Definition select_table (rules : Rules) : outcome JumpTable :=
  if IsPrague rules then newPragueInstructionSet env
  else if IsCancun rules then newCancunInstructionSet env
  else if IsShanghai rules then newShanghaiInstructionSet env
  else if IsLondon rules then newLondonInstructionSet env
  else if IsBerlin rules then newBerlinInstructionSet env
  else if IsIstanbul rules then newIstanbulInstructionSet env
  else if IsConstantinople rules then newConstantinopleInstructionSet env
  else if IsByzantium rules then newByzantiumInstructionSet env
  else if IsSpuriousDragon rules then newSpuriousDragonInstructionSet env
  else if IsTangerineWhistle rules then newTangerineWhistleInstructionSet env
  else if IsHomestead rules then newHomesteadInstructionSet env
  else newFrontierInstructionSet env.

(** The loop over [cfg.ExtraEips].  The range is evaluated once: its length is
    that of the original slice, its elements are read from the shared backing
    array [arr], which the removal of an invalid number overwrites in place;
    [len] is the current length of [cfg.ExtraEips]. *)
Fixpoint extra_eips (n : nat) (i : nat) (arr : list Z) (len : nat) (jt : JumpTable)
    : outcome (JumpTable * list Z) :=
  match n with
  | O => Done (jt, take len arr)
  | Datatypes.S n =>
      match arr !! i with
      | None => GoPanic
      | Some eip =>
          r ← EnableEIP env eip jt;
          match r with
          | Some jt => extra_eips n (i + 1) arr len jt
          | None =>
              if (i + 1 <=? len)%nat then
                let moved := take (len - (i + 1)) (drop (i + 1) arr) in
                extra_eips n (i + 1) (take i arr ++ moved ++ drop (len - 1) arr) (len - 1) jt
              else GoPanic
          end
      end
  end.

(** The table of the interpreter and the EIP numbers left in its configuration. *)
Definition NewEVMInterpreter : outcome (JumpTable * list Z) :=
  jt ← select_table (chainRules env);
  let eips := ExtraEips (config env) in
  extra_eips (length eips) 0 eips (length eips) jt.

(** ** [Run] *)

Context (jt : JumpTable).

(** The dynamic part of the charge: memory size, gas function, payment and the
    expansion of the memory. *)
Definition charge_dynamic (operation : operation) (dyn : gasFunc) : MF (option VMError) :=
  '(size, overflow) ← match memorySize operation with
                      | None => mret (0, false)
                      | Some msize =>
                          '(memSize, overflow) ← on_stack msize;
                          if overflow : bool then mret (0, true)
                          else mret (SafeMul (ToWordSize memSize) 32)
                      end;
  if overflow : bool then mret (Some ErrGasUintOverflow) else
  '(dynamicCost, err) ← dyn size;
  match err with
  | Some _ => mret (Some ErrOutOfGas)
  | None =>
      paid ← use_gas dynamicCost;
      if negb paid then mret (Some ErrOutOfGas) else
      _ ← (if 0 <? size then on_mem (memory.Resize size) else mret ());
      mret None
  end.

(** One turn: fetch, check the stack, pay, execute.  The result is the pair
    [res, err] the turn leaves. *)
Definition step (calls : Calls S) : MF (bytes * option VMError) :=
  f ← get;
  operation ← must (jt (GetOp (Contract_ f) (pc f)));
  let sLen := stack.Len (Stack_ f) in
  if sLen <? numPop operation then fail (ErrStackUnderflow sLen (numPop operation))
  else if maxStack operation <? sLen then fail (ErrStackOverflow sLen (maxStack operation)) else
  paid ← use_gas (constantGas operation);
  if negb paid then fail ErrOutOfGas else
  err ← match dynamicGas operation with
        | None => mret None
        | Some dyn => charge_dynamic operation dyn
        end;
  match err with
  | Some e => fail e
  | None => execute operation calls
  end.

(** [steps%1000 == 0 && in.evm.Cancelled()] *)
Definition poll (steps : Z) : MF bool :=
  if steps mod 1000 =? 0 then
    n ← gets (polls ∘ vm);
    _ ← on_vm (modify (set_polls (n + 1)));
    mret (Cancelled env n)
  else mret false.

(** The loop, with the result [res] of the previous turn. *)
Fixpoint run_loop (fuel : nat) (calls : Calls S) (steps : Z) (res : bytes)
    : MF (bytes * option VMError) :=
  match fuel with
  | O => fun _ => NoFuel
  | Datatypes.S fuel =>
      let steps := steps + 1 in
      cancelled ← poll steps;
      if cancelled : bool then mret (res, None) else
      '(res, err) ← step calls;
      match err with
      | Some errStopToken => mret (res, None)
      | Some e => mret (res, Some e)
      | None =>
          _ ← modify (fun f => set_pc (u64 (pc f + 1)) f);
          run_loop fuel calls steps res
      end
  end.

(** The result carries the contract, whose gas the caller reads afterwards.
    The stack and the memory come from pools: both are empty when a run starts. *)
Definition Run (fuel : nat) (calls : Calls S) (contract : Contract) (input : bytes) (ro : bool)
    : M (VM S) (bytes * option VMError * Contract) :=
  if zlen (Code contract) =? 0 then mret ([], None, contract) else
  _ ← modify (fun e => set_depth (depth e + 1) e);
  outer ← gets readOnly;
  let lock := ro && negb outer in
  _ ← (if lock then modify (set_readOnly true) else mret ());
  _ ← modify (set_returnData []);
  e ← get;
  let frame := mkFrame 0 (stack.mkStack []) memory.NewMemory (set_Input input contract) e in
  '(ret, err, f) ← (fun e => match run_loop fuel calls 0 [] frame with
                             | Done ((ret, err), f) => Done ((ret, err, f), vm f)
                             | GoPanic => GoPanic
                             | NoFuel => NoFuel
                             end);
  _ ← (if lock then modify (set_readOnly false) else mret ());
  _ ← modify (fun e => set_depth (depth e - 1) e);
  mret (ret, err, Contract_ f).

End Interpreter.
