(* ===== verification/Evm.v ===== *)
(** * The machine ([internal/vm/evm.go])

    Calls and contract creations: depth and balance checks, snapshot, value
    transfer, precompiled contracts, the run of the code and the revert on
    failure.

    [calls d] closes the recursion between [Run] and the calls; [d] bounds the
    number of nested calls.  The code refuses a call when the depth exceeds
    1024, so 1026 levels below the top are enough. *)

From S2P Require Import Prelude Uint256 Params Stack Memory Analysis Common EvmTypes Contract.
From S2P Require Import Instructions GasTable Opcodes JumpTable Contracts Rlp Interpreter.

Section Evm.
Context {U : Uint256} {C : Crypto} {N : Native}.
Context {S : Type} {I : ibs.IntraBlockState S} (env : Env S) (jt : JumpTable (S:=S)).

#[local] Notation MV := (M (VM S)).

Definition emptyCodeHash : Z := Keccak256 [].

(** The interpreter the machine calls, of type [Run]. *)
Definition runner : Type := Contract -> bytes -> bool -> MV (bytes * option VMError * Contract).

Definition is_value_call (typ : Z) : bool := (typ =? CALL) || (typ =? CALLCODE).

(** [NewContract] with the code of the callee. *)
Definition callee_contract (typ : Z) (caller : ContractRef) (addr gas : Z) (value : option Z)
    (codeHash : Z) (code : bytes) : MV Contract :=
  let self := if (typ =? CALLCODE) || (typ =? DELEGATECALL) then ContractRef_Address caller else addr in
  c ← NewContract caller self value gas (SkipAnalysis (config env));
  c ← (if typ =? DELEGATECALL then must (AsDelegate c) else mret c);
  mret (SetCallCode (Some addr) codeHash code c).

(** The account of a plain call: created if missing, then the transfer.  The
    result is true when the call ends here, on an account that does not exist. *)
Definition enter_account (typ : Z) (caller : ContractRef) (addr : Z) (isPrecompile : bool)
    (value : option Z) (bailout : bool) : MV bool :=
  if typ =? CALL then
    exists_ ← on_ibs (ibs.Exist addr);
    v ← must value;
    if negb exists_ && negb isPrecompile && IsSpuriousDragon (chainRules env) && uint256.IsZero v
    then mret true else
    _ ← (if negb exists_ then on_ibs (ibs.CreateAccount addr false) else mret ());
    _ ← on_ibs (Transfer (context env) (ContractRef_Address caller) addr v bailout);
    mret false
  else
    _ ← (if typ =? STATICCALL then on_ibs (ibs.AddBalance addr 0) else mret ());
    mret false.

Definition call (run : runner) (typ : Z) (caller : ContractRef) (addr : Z) (input : bytes)
    (gas : Z) (value : option Z) (bailout : bool) : MV (bytes * Z * option VMError) :=
  depth_ ← gets depth;
  if NoRecursion (config env) && (0 <? depth_) then mret ([], gas, None) else
  if CallCreateDepth <? depth_ then mret ([], gas, Some ErrDepth) else
  poor ← (if is_value_call typ then
            v ← must value;
            if uint256.IsZero v then mret false else
            can ← on_ibs (CanTransfer (context env) (ContractRef_Address caller) v);
            mret (negb can && negb bailout)
          else mret false);
  if poor : bool then mret ([], gas, Some ErrInsufficientBalance) else
  let p := precompile (chainRules env) addr in
  let isPrecompile := match p with Some _ => true | None => false end in
  code ← (if isPrecompile then mret None else on_ibs (ibs.GetCode addr));
  snapshot ← on_ibs ibs.Snapshot;
  done ← enter_account typ caller addr isPrecompile value bailout;
  if done : bool then mret ([], gas, None) else
  '(ret, gas, err) ←
    match p with
    | Some p => must (RunPrecompiledContract p input gas)
    | None =>
        match default [] code with
        | [] => mret ([], gas, None)
        | code =>
            codeHash ← on_ibs (ibs.GetCodeHash addr);
            contract ← callee_contract typ caller addr gas value codeHash code;
            '(ret, err, contract) ← run contract input (typ =? STATICCALL);
            mret (ret, Gas contract, err)
        end
    end;
  if bool_decide (err <> None) || RestoreState (config env) then
    _ ← on_ibs (ibs.RevertToSnapshot snapshot);
    mret (ret, if decide (err = Some ErrExecutionReverted) then gas else 0, err)
  else mret (ret, gas, err).

Record codeAndHash : Type := mkCodeAndHash { code : bytes; hash : Z }.

Definition codeAndHash_Hash (c : codeAndHash) : codeAndHash :=
  if hash c =? 0 then mkCodeAndHash (code c) (Keccak256 (code c)) else c.

(** The checks on the code returned by a creation. *)
Definition check_code (ret : bytes) (err : option VMError) : option VMError :=
  let err :=
    match err with
    | None =>
        if IsSpuriousDragon (chainRules env) && (MaxCodeSize <? zlen ret) &&
           (negb (IsAura (chainRules env)) || HasEip3860 (config env) (chainRules env))
        then Some ErrMaxCodeSizeExceeded else None
    | e => e
    end in
  match err with
  | None =>
      if IsLondon (chainRules env) && (1 <=? zlen ret) && (byte_at ret 0 =? 0xEF)
      then Some ErrInvalidCode else None
  | e => e
  end.

(** [UseGas] of a contract that is not in a frame. *)
Definition spend (gas : Z) (c : Contract) : bool * Contract :=
  match UseGas gas c with Done (b, c) => (b, c) | _ => (false, c) end.

(** The price of the code and its storage. *)
Definition store_code (address : Z) (ret : bytes) (contract : Contract) (err : option VMError)
    : MV (Contract * option VMError) :=
  match err with
  | Some e => mret (contract, Some e)
  | None =>
      let createDataGas := u64 (zlen ret * CreateDataGas) in
      let '(paid, contract') := spend createDataGas contract in
      if paid : bool then
        _ ← on_ibs (ibs.SetCode address (match ret with [] => None | _ => Some ret end));
        mret (contract', None)
      else if IsHomestead (chainRules env) then mret (contract, Some ErrCodeStoreOutOfGas)
      else mret (contract, None)
  end.

(** [nonce+1] of the creator, or an error. *)
Definition bump_nonce (creator : Z) (incrementNonce : bool) : MV (option VMError) :=
  if incrementNonce then
    nonce ← on_ibs (ibs.GetNonce creator);
    if u64 (nonce + 1) <? nonce then mret (Some ErrNonceUintOverflow) else
    _ ← on_ibs (ibs.SetNonce creator (u64 (nonce + 1)));
    mret None
  else mret None.

Definition create (run : runner) (caller : ContractRef) (c : codeAndHash) (gas value address : Z)
    (incrementNonce : bool) : MV (bytes * Z * Z * option VMError) :=
  depth_ ← gets depth;
  if CallCreateDepth <? depth_ then mret ([], 0, gas, Some ErrDepth) else
  can ← on_ibs (CanTransfer (context env) (ContractRef_Address caller) value);
  if negb can then mret ([], 0, gas, Some ErrInsufficientBalance) else
  err ← bump_nonce (ContractRef_Address caller) incrementNonce;
  match err with
  | Some e => mret ([], 0, gas, Some e)
  | None =>
  _ ← (if IsBerlin (chainRules env) then on_ibs (ibs.AddAddressToAccessList address) else mret ());
  contractHash ← on_ibs (ibs.GetCodeHash address);
  nonce ← on_ibs (ibs.GetNonce address);
  if negb (nonce =? 0) || (negb (contractHash =? 0) && negb (contractHash =? emptyCodeHash))
  then mret ([], 0, 0, Some ErrContractAddressCollision) else
  snapshot ← on_ibs ibs.Snapshot;
  _ ← on_ibs (ibs.CreateAccount address true);
  _ ← (if IsSpuriousDragon (chainRules env) then on_ibs (ibs.SetNonce address 1) else mret ());
  _ ← on_ibs (Transfer (context env) (ContractRef_Address caller) address value false);
  contract ← NewContract caller address (Some value) gas (SkipAnalysis (config env));
  let contract := set_code_fields (Some address) (hash c) (code c) contract in
  if NoRecursion (config env) && (0 <? depth_) then mret ([], address, gas, None) else
  '(ret, err, contract) ← run contract [] false;
  let err := check_code ret err in
  '(contract, err) ← store_code address ret contract err;
  contract ←
    (if bool_decide (err <> None) &&
        (IsHomestead (chainRules env) || bool_decide (err <> Some ErrCodeStoreOutOfGas)) then
       _ ← on_ibs (ibs.RevertToSnapshot snapshot);
       mret (if decide (err = Some ErrExecutionReverted) then contract
             else (spend (Gas contract) contract).2)
     else mret contract);
  mret (ret, address, Gas contract, err)
  end.

Definition Create_ (run : runner) (caller : ContractRef) (code : bytes) (gas endowment : Z)
    : MV (bytes * Z * Z * option VMError) :=
  nonce ← on_ibs (ibs.GetNonce (ContractRef_Address caller));
  contractAddr ← outcome_to_M (CreateAddress (ContractRef_Address caller) nonce);
  create run caller (mkCodeAndHash code 0) gas endowment contractAddr true.

Definition Create2_ (run : runner) (caller : ContractRef) (code : bytes) (gas endowment salt : Z)
    : MV (bytes * Z * Z * option VMError) :=
  let c := codeAndHash_Hash (mkCodeAndHash code 0) in
  let contractAddr :=
    CreateAddress2 (ContractRef_Address caller) (uint256.Bytes32 salt) (hash c) in
  create run caller c gas endowment contractAddr true.

Definition SysCreate (run : runner) (caller : ContractRef) (code : bytes)
    (gas endowment contractAddr : Z) : MV (bytes * Z * option VMError) :=
  '(ret, _, leftOverGas, err) ←
    create run caller (mkCodeAndHash code 0) gas endowment contractAddr false;
  mret (ret, leftOverGas, err).

Definition calls_of (run : runner) : Calls S := mkCalls S
  (fun caller addr input gas value bailout => call run CALL caller addr input gas value bailout)
  (fun caller addr input gas value => call run CALLCODE caller addr input gas value false)
  (fun caller addr input gas => call run DELEGATECALL caller addr input gas None false)
  (fun caller addr input gas => call run STATICCALL caller addr input gas (Some 0) false)
  (Create_ run) (Create2_ run).

(** The interpreter with [d] nested calls and [n] turns per run. *)
Fixpoint runner_of (n d : nat) : runner :=
  match d with
  | O => fun _ _ _ _ => NoFuel
  | Datatypes.S d => Run env jt n (calls_of (runner_of n d))
  end.

Definition calls (n d : nat) : Calls S := calls_of (runner_of n d).

End Evm.

(** [NewEVM]: the machine before its first call. *)
Definition NewEVM {S} (ibs : S) : VM S := mkVM ibs 0 0 false [] 0 [] 0.
