(* ===== verification/EvmLogic.v ===== *)
(** * A program logic for the instructions

    Proofs about the machine follow a few quantities of a frame, its [view]: the
    gas of the contract, the operand stack (top first), the gas reserved for a
    call, the call depth, the read-only flag, the length of the memory and the
    fee paid for it.  [sat x m Q] says that from any
    frame with view [x] the operation [m] does not run out of fuel and, when it
    finishes without a Go panic, [Q] holds of its result and of the final view.

    The tactic [sat_go] runs an instruction symbolically with the rules below. *)

From S2P Require Import Prelude Uint256 Params Stack Memory Analysis Common EvmTypes Contract.
From S2P Require Import Instructions GasTable.

(** ** Operations that never run out of fuel *)

Definition fueled {S A} (m : M S A) : Prop := forall s, m s <> NoFuel.

Section Fueled.
Context {S : Type}.

Lemma fueled_ret {A} (a : A) : fueled (mret a : M S A).
Proof. done. Qed.

Lemma fueled_bind {A B} (m : M S A) (k : A -> M S B) :
  fueled m -> (forall a, fueled (k a)) -> fueled (m ≫= k).
Proof.
  intros Hm Hk s. unfold mbind, M_bind. specialize (Hm s).
  destruct (m s) as [[a s']| |]; [apply Hk | done..].
Qed.

Lemma fueled_must {A} (o : option A) : fueled (must o : M S A).
Proof. by destruct o. Qed.

Lemma fueled_zoom {T A} (proj : S -> T) put (m : M T A) : fueled m -> fueled (zoom proj put m).
Proof. intros H s. unfold zoom. specialize (H (proj s)). by destruct (m (proj s)) as [[a t]| |]. Qed.
End Fueled.

Create HintDb fueled.
#[export] Hint Resolve fueled_ret fueled_must fueled_zoom : fueled.

(** Walk through a definition; the leaves are closed by the database. *)
Ltac fueled_go :=
  repeat lazymatch goal with
  | |- fueled (mbind _ _) => apply fueled_bind; [|intros ?]
  | |- fueled (match ?x with _ => _ end) => destruct x
  | |- fueled (zoom _ _ _) => apply fueled_zoom
  | |- fueled (mret _) => done
  | |- fueled get => done
  | |- fueled (gets _) => done
  | |- fueled (modify _) => done
  | |- fueled panic => done
  | |- fueled (must _) => apply fueled_must
  | |- fueled _ => solve [eauto with fueled nocore]
  end.

Lemma fueled_GetPtr a b : fueled (memory.GetPtr a b).
Proof. unfold memory.GetPtr. fueled_go. Qed.
Lemma fueled_GetCopy a b : fueled (memory.GetCopy a b).
Proof. unfold memory.GetCopy. fueled_go. Qed.
Lemma fueled_Set a b c : fueled (memory.Set_ a b c).
Proof. unfold memory.Set_. fueled_go. Qed.
Lemma fueled_Set32 {U : Uint256} a b : fueled (memory.Set32 a b).
Proof. unfold memory.Set32. fueled_go. Qed.
Lemma fueled_Resize a : fueled (memory.Resize a).
Proof. unfold memory.Resize. fueled_go. Qed.
#[export] Hint Resolve fueled_GetPtr fueled_GetCopy fueled_Set fueled_Set32 fueled_Resize : fueled.

(** ** Memory operations that keep the length and the fee *)

Definition mem_same (m m' : memory.Memory) : Prop :=
  memory.Len m = memory.Len m' /\ memory.lastGasCost m = memory.lastGasCost m'.

#[global] Instance mem_same_refl : Reflexive mem_same.
Proof. done. Qed.
#[global] Instance mem_same_trans : Transitive mem_same.
Proof. intros a b c [] []. split; congruence. Qed.

Lemma go_copy_length l lo hi v l' : go_copy l lo hi v = Some l' -> zlen l' = zlen l.
Proof.
  unfold go_copy. destruct (_ && _ && _) eqn:E; [|done]. intros [= <-].
  apply overwrite_length; zbool; try done; unfold zlen in *; rewrite ?length_take; lia.
Qed.

Lemma same_GetPtr a b : preserves mem_same (memory.GetPtr a b).
Proof. unfold memory.GetPtr. preserves_with done. Qed.
Lemma same_GetCopy a b : preserves mem_same (memory.GetCopy a b).
Proof. unfold memory.GetCopy. preserves_with done. Qed.

Lemma must_Done {S A} (o : option A) (s : S) r : must o s = Done r -> exists a, o = Some a /\ r = (a, s).
Proof. destruct o; [intros [= <-]; eauto | done]. Qed.

Lemma same_Set a b c : preserves mem_same (memory.Set_ a b c).
Proof.
  intros m r m' H. unfold memory.Set_ in H. destruct (0 <? b); [|go_inv; done].
  go_inv. destruct (_ <? _); [done|]. go_inv. apply must_Done in Hm as (l & E & [= -> ->]).
  apply go_copy_length in E. by split.
Qed.

Lemma same_Set32 {U : Uint256} a b : preserves mem_same (memory.Set32 a b).
Proof.
  intros m r m' H. unfold memory.Set32 in H. go_inv. destruct (_ <? _); [done|].
  go_inv. apply must_Done in Hm as (l & E & [= -> ->]). apply must_Done in Hm0 as (l' & E' & [= -> ->]).
  apply go_copy_length in E, E'. split; [|done]. unfold memory.Len. cbn. congruence.
Qed.
#[export] Hint Resolve same_GetPtr same_GetCopy same_Set same_Set32 : preserves.

(** ** What the state promises: its operations terminate *)

Class ibs_fueled {S} (I : ibs.IntraBlockState S) : Prop := {
  fueled_CreateAccount a b : fueled (ibs.CreateAccount a b);
  fueled_AddBalance a b : fueled (ibs.AddBalance a b);
  fueled_GetBalance a : fueled (ibs.GetBalance a);
  fueled_GetNonce a : fueled (ibs.GetNonce a);
  fueled_SetNonce a b : fueled (ibs.SetNonce a b);
  fueled_GetCodeHash a : fueled (ibs.GetCodeHash a);
  fueled_GetCode a : fueled (ibs.GetCode a);
  fueled_SetCode a b : fueled (ibs.SetCode a b);
  fueled_GetCodeSize a : fueled (ibs.GetCodeSize a);
  fueled_AddRefund a : fueled (ibs.AddRefund a);
  fueled_SubRefund a : fueled (ibs.SubRefund a);
  fueled_GetCommittedState a b : fueled (ibs.GetCommittedState a b);
  fueled_GetState a b : fueled (ibs.GetState a b);
  fueled_SetState a b c : fueled (ibs.SetState a b c);
  fueled_Selfdestruct a : fueled (ibs.Selfdestruct a);
  fueled_HasSelfdestructed a : fueled (ibs.HasSelfdestructed a);
  fueled_Exist a : fueled (ibs.Exist a);
  fueled_Empty a : fueled (ibs.Empty a);
  fueled_AddressInAccessList a : fueled (ibs.AddressInAccessList a);
  fueled_SlotInAccessList a b : fueled (ibs.SlotInAccessList a b);
  fueled_AddAddressToAccessList a : fueled (ibs.AddAddressToAccessList a);
  fueled_AddSlotToAccessList a b : fueled (ibs.AddSlotToAccessList a b);
  fueled_RevertToSnapshot a : fueled (ibs.RevertToSnapshot a);
  fueled_Snapshot : fueled ibs.Snapshot;
  fueled_AddLog a : fueled (ibs.AddLog a);
  fueled_SubBalance a b : fueled (ibs.SubBalance a b);
  fueled_PrepareAccessList a b c d : fueled (ibs.PrepareAccessList a b c d)
}.
#[export] Hint Resolve fueled_CreateAccount fueled_AddBalance fueled_GetBalance fueled_GetNonce
  fueled_SetNonce fueled_GetCodeHash fueled_GetCode fueled_SetCode fueled_GetCodeSize
  fueled_AddRefund fueled_SubRefund fueled_GetCommittedState fueled_GetState fueled_SetState
  fueled_Selfdestruct fueled_HasSelfdestructed fueled_Exist fueled_Empty
  fueled_AddressInAccessList fueled_SlotInAccessList fueled_AddAddressToAccessList
  fueled_AddSlotToAccessList fueled_RevertToSnapshot fueled_Snapshot fueled_AddLog
  fueled_SubBalance fueled_PrepareAccessList : fueled.

(** [GetRefund] ends and answers a [uint64]. *)
Class refund_ok {S} (I : ibs.IntraBlockState S) : Prop := {
  fueled_GetRefund : fueled ibs.GetRefund;
  GetRefund_type s r s' : ibs.GetRefund s = Done (r, s') -> 0 <= r < two64
}.

(** ** Views *)

Record view : Type := mkView {
  v_gas : Z;
  v_stack : list Z;
  v_temp : Z;
  v_depth : Z;
  v_ro : bool;
  v_mlen : Z;
  v_mlast : Z
}.

Definition view_of {S} (f : Frame S) : view :=
  mkView (Gas (Contract_ f)) (rev (stack.Data (Stack_ f))) (callGasTemp (vm f))
    (depth (vm f)) (readOnly (vm f)) (memory.Len (Memory_ f)) (memory.lastGasCost (Memory_ f)).

Definition with_stack (st : list Z) (x : view) : view :=
  mkView (v_gas x) st (v_temp x) (v_depth x) (v_ro x) (v_mlen x) (v_mlast x).
Definition with_gas (g : Z) (x : view) : view :=
  mkView g (v_stack x) (v_temp x) (v_depth x) (v_ro x) (v_mlen x) (v_mlast x).
Definition with_temp (t : Z) (x : view) : view :=
  mkView (v_gas x) (v_stack x) t (v_depth x) (v_ro x) (v_mlen x) (v_mlast x).
Definition with_mem (len last : Z) (x : view) : view :=
  mkView (v_gas x) (v_stack x) (v_temp x) (v_depth x) (v_ro x) len last.

Definition sat {S A} (x : view) (m : M (Frame S) A) (Q : A -> view -> Prop) : Prop :=
  forall f, view_of f = x ->
    match m f with
    | Done (a, f') => Q a (view_of f')
    | GoPanic => True
    | NoFuel => False
    end.

Section Sat.
Context {S : Type}.
Implicit Types x : view.

Lemma sat_mono {A} x (m : M (Frame S) A) (Q Q' : A -> view -> Prop) :
  sat x m Q -> (forall a x', Q a x' -> Q' a x') -> sat x m Q'.
Proof.
  intros H HQ f Hf. specialize (H f Hf). destruct (m f) as [[a f']| |]; auto.
Qed.

Lemma sat_bind {A B} x (m : M (Frame S) A) (k : A -> M (Frame S) B) Q :
  sat x m (fun a x' => sat x' (k a) Q) -> sat x (m ≫= k) Q.
Proof.
  intros H f Hf. specialize (H f Hf). unfold mbind, M_bind.
  destruct (m f) as [[a f']| |]; [|done..]. by apply H.
Qed.

Lemma sat_ret {A} x (a : A) (Q : A -> view -> Prop) :
  Q a x -> sat x (mret a : M (Frame S) A) Q.
Proof. intros H f <-. done. Qed.

Lemma sat_panic {A} x (Q : A -> view -> Prop) : sat x (panic : M (Frame S) A) Q.
Proof. done. Qed.

Lemma sat_must {A} x (o : option A) (Q : A -> view -> Prop) :
  (forall a, o = Some a -> Q a x) -> sat x (must o : M (Frame S) A) Q.
Proof. intros H f <-. destruct o; [by apply H | done]. Qed.

Lemma sat_gets {A} x (g : Frame S -> A) (Q : A -> view -> Prop) :
  (forall f, view_of f = x -> Q (g f) x) -> sat x (gets g) Q.
Proof. intros H f Hf. cbn. rewrite Hf. by apply H. Qed.

Lemma sat_modify x (g : Frame S -> Frame S) (Q : () -> view -> Prop) :
  (forall f, view_of f = x -> Q () (view_of (g f))) -> sat x (modify g) Q.
Proof. intros H f Hf. by apply H. Qed.

(** Memory operations that change neither its length nor its fee. *)
Lemma sat_on_mem {A} x (m : M memory.Memory A) (Q : A -> view -> Prop) :
  fueled m -> preserves mem_same m -> (forall a, Q a x) -> sat x (on_mem (S:=S) m) Q.
Proof.
  intros Hf Hm H f <-. unfold on_mem, zoom. specialize (Hf (Memory_ f)). specialize (Hm (Memory_ f)).
  destruct (m (Memory_ f)) as [[a t]| |]; [|done..].
  destruct (Hm a t eq_refl) as [Hl Hg]. unfold view_of. cbn. rewrite <- Hl, <- Hg. apply H.
Qed.

Lemma sat_get_memory x (Q : memory.Memory -> view -> Prop) :
  (forall m, memory.Len m = v_mlen x -> memory.lastGasCost m = v_mlast x -> Q m x) ->
  sat x (gets (S:=Frame S) Memory_) Q.
Proof. intros H. apply sat_gets. intros f <-. by apply H. Qed.

Lemma sat_set_store x b (Q : () -> view -> Prop) :
  zlen b = v_mlen x -> Q () x -> sat x (on_mem (S:=S) (modify (memory.set_store b))) Q.
Proof.
  intros Hb H f Hf. subst x. unfold view_of, memory.Len in *. cbn in *. rewrite Hb. apply H.
Qed.

(** Operations of the state, which the view does not show. *)
Lemma sat_state {A} x (m : M S A) (Q : A -> view -> Prop) :
  fueled m -> (forall a, Q a x) -> sat x (state m) Q.
Proof.
  intros Hm H f <-. unfold state, on_vm, on_ibs, zoom. specialize (Hm (intraBlockState (vm f))).
  destruct (m (intraBlockState (vm f))) as [[a t]| |]; [apply H | done..].
Qed.

Lemma sat_on_vm_modify x (g : VM S -> VM S) (Q : () -> view -> Prop) :
  (forall f, view_of f = x -> Q () (view_of (set_vm (g (vm f)) f))) ->
  sat x (on_vm (modify g)) Q.
Proof. intros H f Hf. by apply H. Qed.

Lemma sat_hasherBuf x h (Q : () -> view -> Prop) :
  Q () x -> sat x (on_vm (S:=S) (modify (set_hasherBuf h))) Q.
Proof. intros H f <-. done. Qed.

Lemma sat_returnData x h (Q : () -> view -> Prop) :
  Q () x -> sat x (on_vm (S:=S) (modify (set_returnData h))) Q.
Proof. intros H f <-. done. Qed.

Lemma sat_callGasTemp x t (Q : () -> view -> Prop) :
  Q () (with_temp t x) -> sat x (on_vm (S:=S) (modify (set_callGasTemp t))) Q.
Proof. intros H f <-. done. Qed.

Lemma sat_get_contract x (Q : Contract -> view -> Prop) :
  (forall c, Gas c = v_gas x -> Q c x) -> sat x (gets (S:=Frame S) Contract_) Q.
Proof. intros H. apply sat_gets. intros f <-. by apply H. Qed.

Lemma sat_get_temp x (Q : Z -> view -> Prop) :
  Q (v_temp x) x -> sat x (gets (S:=Frame S) (callGasTemp ∘ vm)) Q.
Proof. intros H. apply sat_gets. by intros f <-. Qed.

Lemma sat_get_ro x (Q : bool -> view -> Prop) :
  Q (v_ro x) x -> sat x (gets (S:=Frame S) (readOnly ∘ vm)) Q.
Proof. intros H. apply sat_gets. by intros f <-. Qed.

Lemma sat_contract_address x (Q : Z -> view -> Prop) :
  (forall a, Q a x) -> sat x (contract_address (S:=S)) Q.
Proof. intros H. by apply sat_gets. Qed.

(** ** The operand stack *)

Lemma sat_on_stack {A} x (m : M stack.Stack A) (Q : A -> view -> Prop) :
  (forall st, rev (stack.Data st) = v_stack x ->
    match m st with
    | Done (a, st') => Q a (with_stack (rev (stack.Data st')) x)
    | GoPanic => True
    | NoFuel => False
    end) ->
  sat x (on_stack (S:=S) m) Q.
Proof.
  intros H f <-. specialize (H (Stack_ f) eq_refl). unfold on_stack, zoom.
  destruct (m (Stack_ f)) as [[a st']| |]; done.
Qed.

Lemma stack_cases (st : stack.Stack) l :
  rev (stack.Data st) = l ->
  match l with
  | [] => st = stack.mkStack []
  | v :: rest => st = stack.mkStack (rev rest ++ [v])
  end.
Proof.
  intros E. destruct st as [d]. cbn in E. apply (f_equal (@rev Z)) in E.
  rewrite rev_involutive in E. subst d. by destruct l.
Qed.

(** The element at depth [n] below the top. *)
Lemma stack_split (st : stack.Stack) l n v :
  rev (stack.Data st) = l -> l !! n = Some v ->
  st = stack.mkStack (rev (drop (Datatypes.S n) l) ++ v :: rev (take n l)).
Proof.
  intros E Hn. destruct st as [d]. f_equal. cbn in E. rewrite <- (rev_involutive d), E.
  rewrite <- (take_drop_middle l n v Hn) at 1. rewrite rev_app_distr. cbn. by rewrite <- app_assoc.
Qed.

Lemma zlen_rev {A} (l : list A) : zlen (rev l) = zlen l.
Proof. unfold zlen. by rewrite length_rev. Qed.

Lemma sat_pop x (Q : Z -> view -> Prop) :
  (forall v rest, v_stack x = v :: rest -> Q v (with_stack rest x)) -> sat x (pop (S:=S)) Q.
Proof.
  intros H. apply sat_on_stack. intros st E. apply stack_cases in E.
  destruct (v_stack x) as [|v rest]; subst st; [done|].
  rewrite stack.Pop_run. cbn. rewrite rev_involutive. by apply H.
Qed.

Lemma sat_peek x (Q : Z -> view -> Prop) :
  (forall v rest, v_stack x = v :: rest -> Q v x) -> sat x (peek (S:=S)) Q.
Proof.
  intros H. apply sat_on_stack. intros st E. pose proof (stack_cases _ _ E) as Es.
  destruct (v_stack x) as [|v rest] eqn:Ex; subst st; [done|].
  rewrite stack.Peek_run, E, <- Ex. destruct x. cbn. by eapply H.
Qed.

Lemma sat_set_top x w (Q : () -> view -> Prop) :
  (forall v rest, v_stack x = v :: rest -> Q () (with_stack (w :: rest) x)) ->
  sat x (set_top (S:=S) w) Q.
Proof.
  intros H. apply sat_on_stack. intros st E. apply stack_cases in E.
  destruct (v_stack x) as [|v rest]; subst st; [done|].
  rewrite stack.SetPeek_run. cbn. rewrite rev_app_distr, rev_involutive. by eapply H.
Qed.

Lemma sat_push x w (Q : () -> view -> Prop) :
  Q () (with_stack (w :: v_stack x) x) -> sat x (push (S:=S) w) Q.
Proof.
  intros H. apply sat_on_stack. intros st E. cbn. by rewrite rev_app_distr, E.
Qed.

Lemma znth_out {A} (l : list A) i : i < 0 \/ zlen l <= i -> znth l i = None.
Proof.
  intros H. unfold znth, zlen in *. destruct (Z.ltb_spec i 0); [done|].
  apply lookup_ge_None_2. lia.
Qed.

(** Reading at depth [n]: out of range it panics. *)
Lemma Back_cases st l n :
  rev (stack.Data st) = l ->
  stack.Back n st = GoPanic \/
  exists v, l !! Z.to_nat n = Some v /\ 0 <= n /\ stack.Back n st = Done (v, st).
Proof.
  intros E. assert (stack.Len st = zlen l) as HL by (unfold stack.Len; by rewrite <- E, zlen_rev).
  destruct (decide (0 <= n < zlen l)) as [Hn|Hn].
  - destruct (lookup_lt_is_Some_2 l (Z.to_nat n)) as [v Hv]; [unfold zlen in *; lia|].
    right. exists v. split; [done|]. split; [lia|].
    rewrite (stack_split _ _ _ _ E Hv). apply stack.Back_run.
    rewrite zlen_rev. unfold zlen in *. rewrite length_take. lia.
  - left. unfold stack.Back, mbind, M_bind, get, must. cbn. rewrite znth_out; [done|].
    fold (stack.Len st). lia.
Qed.

Lemma sat_back x n (Q : Z -> view -> Prop) :
  (forall v, v_stack x !! Z.to_nat n = Some v -> 0 <= n -> Q v x) -> sat x (back (S:=S) n) Q.
Proof.
  intros H. apply sat_on_stack. intros st E.
  destruct (Back_cases st _ n E) as [->|(v & Hv & Hn & ->)]; [done|].
  rewrite E. destruct x. by apply H.
Qed.

Lemma sat_dup x n (Q : () -> view -> Prop) :
  (forall v, v_stack x !! Z.to_nat (n - 1) = Some v -> Q () (with_stack (v :: v_stack x) x)) ->
  sat x (on_stack (S:=S) (stack.Dup n)) Q.
Proof.
  intros H. apply sat_on_stack. intros st E.
  destruct (Back_cases st _ (n - 1) E) as [Hb|(v & Hv & Hn & Hb)];
    unfold stack.Back, stack.Dup, mbind, M_bind, get, must in *; cbn in *;
    replace (stack.Len st - (n - 1) - 1) with (stack.Len st - n) in Hb by lia;
    destruct (znth _ _) as [w|]; try done; cbn in *.
  injection Hb as <-. rewrite rev_app_distr, E. by apply H.
Qed.

Lemma Swap_cases st n :
  stack.Swap n st = GoPanic \/
  exists st', stack.Swap n st = Done ((), st') /\ stack.Len st' = stack.Len st.
Proof.
  unfold stack.Swap, mbind, M_bind, get, must. cbn.
  destruct (znth _ (stack.Len st - 1)) as [a|]; [cbn|by left].
  destruct (znth _ (stack.Len st - n)) as [b|]; [cbn|by left].
  destruct (zset (stack.Data st) _ _) as [d1|] eqn:E1; [cbn|by left].
  destruct (zset d1 _ _) as [d2|] eqn:E2; [cbn|by left].
  right. eexists. split; [done|]. apply zset_length in E1, E2. unfold stack.Len. cbn. congruence.
Qed.

Lemma sat_swap x n (Q : () -> view -> Prop) :
  (forall st, zlen st = zlen (v_stack x) -> Q () (with_stack st x)) ->
  sat x (on_stack (S:=S) (stack.Swap n)) Q.
Proof.
  intros H. apply sat_on_stack. intros st E.
  destruct (Swap_cases st n) as [->|(st' & -> & Hl)]; [done|].
  apply H. rewrite <- E, !zlen_rev. apply Hl.
Qed.

(** ** Gas *)

Lemma sat_use_gas x g (Q : bool -> view -> Prop) :
  (v_gas x < g -> Q false x) ->
  (g <= v_gas x -> Q true (with_gas (u64 (v_gas x - g)) x)) ->
  sat x (use_gas (S:=S) g) Q.
Proof.
  intros H1 H2 f <-. unfold use_gas, UseGas, zoom, mbind, M_bind, get, modify. cbn.
  destruct (Z.ltb_spec (Gas (Contract_ f)) g); cbn; [by apply H1 | by apply H2].
Qed.

Lemma sat_return_gas x g (Q : () -> view -> Prop) :
  Q () (with_gas (u64 (v_gas x + g)) x) -> sat x (return_gas (S:=S) g) Q.
Proof. intros H f <-. done. Qed.

Lemma sat_set_pc x p (Q : () -> view -> Prop) :
  Q () x -> sat x (modify (S:=Frame S) (fun f => set_pc (p f) f)) Q.
Proof. intros H f <-. done. Qed.

Lemma sat_set_pc0 x p (Q : () -> view -> Prop) :
  Q () x -> sat x (modify (S:=Frame S) (set_pc p)) Q.
Proof. intros H f <-. done. Qed.

(** ** Jump destinations *)

Lemma sat_codeBitmap x code (Q : list Z -> view -> Prop) :
  (forall a, Q a x) -> sat x (run_codeBitmap (S:=S) code) Q.
Proof.
  intros H f <-. unfold run_codeBitmap. destruct (codeBitmap_spec code) as (bits & -> & _). apply H.
Qed.

Lemma sat_jumpdest_maps x m (Q : () -> view -> Prop) :
  Q () x -> sat x (on_vm (S:=S) (modify (set_jumpdest_maps m))) Q.
Proof. intros H f <-. done. Qed.

Lemma sat_set_analysis x a (Q : () -> view -> Prop) :
  Q () x -> sat x (on_contract (S:=S) (set_analysis a)) Q.
Proof. intros H f <-. done. Qed.
End Sat.

(** Symbolic execution.  A rule leaves the continuation as its premise. *)
Ltac sat_step :=
  lazymatch goal with
  | |- sat _ (mbind _ _) _ => apply sat_bind
  | |- sat _ (mret _) _ => apply sat_ret
  | |- sat _ ok _ => apply sat_ret
  | |- sat _ (fail _) _ => apply sat_ret
  | |- sat _ (gas_ok _) _ => apply sat_ret
  | |- sat _ (gas_err _) _ => apply sat_ret
  | |- sat _ panic _ => apply sat_panic
  | |- sat _ (must _) _ => apply sat_must; intros
  | |- sat _ pop _ => apply sat_pop; intros; cbn [v_stack with_stack with_gas with_temp with_mem] in *; simplify_eq
  | |- sat _ peek _ => apply sat_peek; intros; cbn [v_stack with_stack with_gas with_temp with_mem] in *; simplify_eq
  | |- sat _ (set_top _) _ => apply sat_set_top; intros; cbn [v_stack with_stack with_gas with_temp with_mem] in *; simplify_eq
  | |- sat _ (push _) _ => apply sat_push
  | |- sat _ (back _) _ => apply sat_back; intros
  | |- sat _ (on_mem (modify (memory.set_store _))) _ => apply sat_set_store
  | |- sat _ (on_mem _) _ => apply sat_on_mem; [solve [fueled_go] | solve [eauto with preserves nocore] | intros]
  | |- sat _ (state _) _ => apply sat_state; [solve [fueled_go] | intros]
  | |- sat _ (gets Contract_) _ => apply sat_get_contract; intros
  | |- sat _ (gets Memory_) _ => apply sat_get_memory; intros
  | |- sat _ (gets (callGasTemp ∘ vm)) _ => apply sat_get_temp
  | |- sat _ (gets (readOnly ∘ vm)) _ => apply sat_get_ro
  | |- sat _ (gets _) _ => apply sat_gets; intros ? _
  | |- sat _ contract_address _ => apply sat_contract_address; intros
  | |- sat _ (on_vm (modify (set_hasherBuf _))) _ => apply sat_hasherBuf
  | |- sat _ (on_vm (modify (set_returnData _))) _ => apply sat_returnData
  | |- sat _ (on_vm (modify (set_callGasTemp _))) _ => apply sat_callGasTemp
  | |- sat _ (on_vm (modify (set_jumpdest_maps _))) _ => apply sat_jumpdest_maps
  | |- sat _ (on_contract (set_analysis _)) _ => apply sat_set_analysis
  | |- sat _ (modify (set_pc _)) _ => apply sat_set_pc0
  | |- sat _ (modify (fun f => set_pc _ f)) _ => apply sat_set_pc
  | |- sat _ (return_gas _) _ => apply sat_return_gas
  | |- sat _ (run_codeBitmap _) _ => apply sat_codeBitmap; intros
  | |- sat _ (on_stack (stack.Dup _)) _ => apply sat_dup; intros
  | |- sat _ (on_stack (stack.Swap _)) _ => apply sat_swap; intros
  | |- sat _ (match ?x with _ => _ end) _ => destruct x eqn:?
  | |- sat _ (let _ := _ in _) _ => cbv zeta
  end.

Ltac sat_go := repeat (sat_step; cbn [v_gas v_stack v_temp v_depth v_ro v_mlen v_mlast with_stack with_gas with_temp with_mem] in *).
