(* ===== verification/EvmState.v ===== *)
(** * The intra-block state as the state of the machine

    [IntraBlockState] of [modules/state] implements the interface
    [evmtypes.IntraBlockState], and [internal/evm.go] builds the block context
    whose transfer functions work on it. *)

From S2P Require Import EvmTypes EvmLogic.
From S2P Require Import Prelude Uint256 Params Common AccessList StateTypes State.

Section EvmState.
Context {U : Uint256} {C : Crypto} {K : AccountCodec} (R : StateReader).

Definition state_ibs : EvmTypes.ibs.IntraBlockState IntraBlockState := {|
  EvmTypes.ibs.CreateAccount := CreateAccount R;
  EvmTypes.ibs.SubBalance := SubBalance R;
  EvmTypes.ibs.AddBalance := AddBalance R;
  EvmTypes.ibs.GetBalance := GetBalance R;
  EvmTypes.ibs.GetNonce := GetNonce R;
  EvmTypes.ibs.SetNonce := SetNonce R;
  EvmTypes.ibs.GetCodeHash := GetCodeHash R;
  EvmTypes.ibs.GetCode := GetCode R;
  EvmTypes.ibs.SetCode := SetCode R;
  EvmTypes.ibs.GetCodeSize := GetCodeSize R;
  EvmTypes.ibs.AddRefund := AddRefund;
  EvmTypes.ibs.SubRefund := SubRefund;
  EvmTypes.ibs.GetRefund := GetRefund;
  EvmTypes.ibs.GetCommittedState := GetCommittedState R;
  EvmTypes.ibs.GetState := GetState R;
  EvmTypes.ibs.SetState := SetState R;
  EvmTypes.ibs.Selfdestruct := Selfdestruct R;
  EvmTypes.ibs.HasSelfdestructed := HasSelfdestructed R;
  EvmTypes.ibs.Exist := Exist R;
  EvmTypes.ibs.Empty := Empty R;
  EvmTypes.ibs.AddressInAccessList := AddressInAccessList;
  EvmTypes.ibs.SlotInAccessList := SlotInAccessList;
  EvmTypes.ibs.AddAddressToAccessList := AddAddressToAccessList;
  EvmTypes.ibs.AddSlotToAccessList := AddSlotToAccessList;
  EvmTypes.ibs.RevertToSnapshot := RevertToSnapshot R;
  EvmTypes.ibs.Snapshot := Snapshot_;
  EvmTypes.ibs.AddLog := AddLog;
  EvmTypes.ibs.PrepareAccessList := PrepareAccessList
|}.

(** ** Its operations terminate *)

Lemma fueled_obj a : fueled (obj a). Proof. unfold obj. fueled_go. Qed.
#[local] Hint Resolve fueled_obj : fueled.
Lemma fueled_upd a f : fueled (upd a f). Proof. unfold upd. fueled_go. Qed.
Lemma fueled_jappend e : fueled (jappend e). Proof. done. Qed.
Lemma fueled_setError e : fueled (setError e). Proof. done. Qed.
#[local] Hint Resolve fueled_upd fueled_jappend fueled_setError : fueled.

Lemma fueled_touch a : fueled (touch a). Proof. unfold touch. fueled_go. Qed.
Lemma fueled_setStateObject a o : fueled (setStateObject a o).
Proof. unfold setStateObject. fueled_go. Qed.
#[local] Hint Resolve fueled_touch fueled_setStateObject : fueled.
Lemma fueled_createObject a o : fueled (createObject a o).
Proof. unfold createObject. cbv zeta. fueled_go. Qed.
#[local] Hint Resolve fueled_createObject : fueled.
Lemma fueled_getStateObject a : fueled (getStateObject R a).
Proof. unfold getStateObject. cbv zeta. fueled_go. Qed.
#[local] Hint Resolve fueled_getStateObject : fueled.
Lemma fueled_GetOrNew a : fueled (GetOrNewStateObject R a).
Proof. unfold GetOrNewStateObject. fueled_go. Qed.
Lemma fueled_live {A} so (d : A) k : (forall o, fueled (k o)) -> fueled (live so d k).
Proof. intros H. unfold live. fueled_go. Qed.
Lemma fueled_cacheStorage a k v : fueled (so_cacheStorage a k v).
Proof. unfold so_cacheStorage. fueled_go. Qed.
#[local] Hint Resolve fueled_GetOrNew fueled_cacheStorage : fueled.
Lemma fueled_loadStorage a k so : fueled (so_loadStorage R a k so).
Proof. unfold so_loadStorage. fueled_go. Qed.
#[local] Hint Resolve fueled_loadStorage : fueled.
Lemma fueled_soGetCommittedState a k : fueled (so_GetCommittedState R a k).
Proof. unfold so_GetCommittedState. fueled_go. Qed.
#[local] Hint Resolve fueled_soGetCommittedState : fueled.
Lemma fueled_soGetState a k : fueled (so_GetState R a k).
Proof. unfold so_GetState. fueled_go. Qed.
Lemma fueled_soCode a : fueled (so_Code R a).
Proof. unfold so_Code. fueled_go. Qed.
#[local] Hint Resolve fueled_soGetState fueled_soCode : fueled.

Lemma fueled_revert_entry e : fueled (revert_entry R e).
Proof.
  unfold revert_entry, zoom_al, accessList.DeleteAddress, accessList.DeleteSlot. cbv zeta. fueled_go.
Qed.
#[local] Hint Resolve fueled_revert_entry : fueled.

Lemma fueled_journal_revert n : fueled (journal_revert R n).
Proof.
  assert (forall k i, fueled (journal_revert_loop R k i)) as H.
  { induction k as [|k IH]; intros i; cbn; fueled_go. }
  unfold journal_revert. fueled_go.
Qed.
#[local] Hint Resolve fueled_journal_revert : fueled.

Lemma sort_Search_fueled fuel f i j : j - i < Z.of_nat fuel -> sort_Search fuel f i j <> NoFuel.
Proof.
  revert i j. induction fuel as [|fuel IH]; intros i j H; cbn [sort_Search];
    destruct (Z.ltb_spec i j); cbn [negb]; try done; [lia|].
  assert (i <= Z.shiftr (i + j) 1 < j).
  { rewrite Z.shiftr_div_pow2 by lia. change (2 ^ 1) with 2. split.
    - apply Z.div_le_lower_bound; lia.
    - apply Z.div_lt_upper_bound; lia. }
  destruct (f _) as [[]|]; [apply IH; lia | apply IH; lia | done].
Qed.

Lemma fueled_Revert n : fueled (RevertToSnapshot R n).
Proof.
  intros s. unfold RevertToSnapshot, mbind at 1, M_bind at 1, get. cbv beta iota.
  revert s. enough (forall s0, fueled (idx ← (fun s1 => match sort_Search (S (length (validRevisions s0)))
                          (fun i => r ← znth (validRevisions s0) i; mret (n <=? id r))
                          0 (zlen (validRevisions s0)) with
                   | Done i => Done (i, s1) | GoPanic => GoPanic | NoFuel => NoFuel end);
  if idx =? zlen (validRevisions s0) then panic else
  r ← must (znth (validRevisions s0) idx);
  if negb (id r =? n) then panic else
  _ ← journal_revert R (journalIndex r);
  modify (fun s => set_validRevisions (take (Z.to_nat idx) (validRevisions s)) s))) as H
    by (intros s; exact (H s s)).
  intros s0. apply fueled_bind; [|intros idx; fueled_go].
  intros s1. pose proof (sort_Search_fueled (S (length (validRevisions s0)))
    (fun i => r ← znth (validRevisions s0) i; mret (n <=? id r)) 0 (zlen (validRevisions s0))
    ltac:(unfold zlen; lia)). by destruct (sort_Search _ _ _ _).
Qed.

Lemma fueled_for_each {A} (f : A -> M IntraBlockState ()) l : (forall x, fueled (f x)) -> fueled (for_each f l).
Proof. intros H. induction l as [|x l IH]; cbn; [done|]. by apply fueled_bind. Qed.

Lemma fueled_AddAddress a : fueled (AddAddressToAccessList a).
Proof. unfold AddAddressToAccessList, zoom_al, accessList.AddAddress. fueled_go. Qed.
Lemma fueled_AddSlot a k : fueled (AddSlotToAccessList a k).
Proof. unfold AddSlotToAccessList, zoom_al, accessList.AddSlot. fueled_go. Qed.
#[local] Hint Resolve fueled_AddAddress fueled_AddSlot : fueled.

Lemma state_PrepareAccessList_fueled sender dst pre al : fueled (PrepareAccessList sender dst pre al).
Proof.
  unfold PrepareAccessList. fueled_go; apply fueled_for_each; [by intros; fueled_go..|].
  intros [? ?]. fueled_go. apply fueled_for_each. intros; fueled_go.
Qed.

#[export] Instance state_ibs_fueled : ibs_fueled state_ibs.
Proof.
  split; cbn; unfold CreateAccount, AddBalance, GetBalance, GetNonce, SetNonce, GetCodeHash, GetCode,
    SetCode, GetCodeSize, AddRefund, SubRefund, GetCommittedState, GetState, SetState, Selfdestruct,
    HasSelfdestructed, Exist, Empty, AddressInAccessList, SlotInAccessList, AddAddressToAccessList,
    AddSlotToAccessList, Snapshot_, AddLog, SubBalance, so_SubBalance, so_AddBalance, so_SetBalance, so_SetNonce, so_SetCode,
    so_SetState, zoom_al, accessList.Contains, accessList.AddAddress, accessList.AddSlot; intros;
    cbv zeta; try apply fueled_Revert; try apply state_PrepareAccessList_fueled; fueled_go; try (apply fueled_live; intros; fueled_go).
Qed.

#[export] Instance state_refund_ok : refund_ok state_ibs.
Proof. split; cbn; [done|]. intros s r s' [= <- _]. apply u64_range. Qed.

Lemma state_CanTransfer_fueled a v : fueled (CanTransfer R a v).
Proof. unfold CanTransfer. fueled_go. exact (EvmLogic.fueled_GetBalance (I:=state_ibs) a). Qed.

Lemma state_Transfer_fueled a b v f : fueled (Transfer R a b v f).
Proof.
  unfold Transfer. fueled_go; [unfold SubBalance, so_SubBalance, so_SetBalance; fueled_go|].
  exact (EvmLogic.fueled_AddBalance (I:=state_ibs) b v).
Qed.
End EvmState.
