(* ===== verification/OpSpecs.v ===== *)
(** * What the instructions do to the stack and to the gas

    For every instruction: the change of the height of the stack, and that the
    gas, the call depth, the read-only flag and the size of the memory are left
    alone ([plain]), or the bound on the gas of the instructions that enter
    another contract. *)

From S2P Require Import Prelude Uint256 Params Stack Memory Analysis Common EvmTypes Contract.
From S2P Require Import Instructions GasTable Opcodes JumpTable EvmLogic.

Section OpSpecs.
Context {U : Uint256} {C : Crypto} {S : Type} {I : ibs.IntraBlockState S} {IF : ibs_fueled I}.
Context (env : Env S).

#[local] Notation executionFunc := (executionFunc (S:=S)).

(** The parts of a view an ordinary instruction keeps. *)
Definition same_frame (x x' : view) : Prop :=
  v_gas x' = v_gas x /\ v_depth x' = v_depth x /\ v_ro x' = v_ro x /\
  v_mlen x' = v_mlen x /\ v_mlast x' = v_mlast x.

(** [e] takes [pops] words and leaves [pushes] when it returns no error. *)
Definition plain (e : executionFunc) (pops pushes : Z) : Prop := forall calls x,
  sat x (e calls) (fun r x' => same_frame x x' /\
    (r.2 = None -> zlen (v_stack x') = zlen (v_stack x) - pops + pushes)).

(** [e] always ends the run. *)
Definition halting (e : executionFunc) : Prop := forall calls x,
  sat x (e calls) (fun r _ => r.2 <> None).

Ltac plain_end :=
  sat_go; try (split; [done|]; intros; cbn in *; (done || zlen_lia)).
Ltac plain_go := intros calls []; plain_end.

Lemma plain_binop f : plain (binop f) 2 1.
Proof. unfold binop. plain_go. Qed.

Lemma plain_opNot : plain opNot 1 1. Proof. unfold opNot. plain_go. Qed.
Lemma plain_opIszero : plain opIszero 1 1. Proof. unfold opIszero. plain_go. Qed.
Lemma plain_opAddmod : plain opAddmod 3 1. Proof. unfold opAddmod. plain_go. Qed.
Lemma plain_opMulmod : plain opMulmod 3 1. Proof. unfold opMulmod. plain_go. Qed.
Lemma plain_opKeccak256 : plain opKeccak256 2 1. Proof. unfold opKeccak256. plain_go. Qed.
Lemma plain_opAddress : plain opAddress 0 1. Proof. unfold opAddress. plain_go. Qed.
Lemma plain_opBalance : plain opBalance 1 1. Proof. unfold opBalance. plain_go. Qed.
Lemma plain_opOrigin : plain (opOrigin env) 0 1. Proof. unfold opOrigin. plain_go. Qed.
Lemma plain_opCaller : plain opCaller 0 1. Proof. unfold opCaller. plain_go. Qed.
Lemma plain_opCallValue : plain opCallValue 0 1. Proof. unfold opCallValue. plain_go. Qed.
Lemma plain_opCallDataLoad : plain opCallDataLoad 1 1. Proof. unfold opCallDataLoad. plain_go. Qed.
Lemma plain_opCallDataSize : plain opCallDataSize 0 1. Proof. unfold opCallDataSize. plain_go. Qed.
Lemma plain_opCallDataCopy : plain opCallDataCopy 3 0. Proof. unfold opCallDataCopy. plain_go. Qed.
Lemma plain_opReturnDataSize : plain opReturnDataSize 0 1. Proof. unfold opReturnDataSize. plain_go. Qed.
Lemma plain_opReturnDataCopy : plain opReturnDataCopy 3 0. Proof. unfold opReturnDataCopy. plain_go. Qed.
Lemma plain_opExtCodeSize : plain opExtCodeSize 1 1. Proof. unfold opExtCodeSize. plain_go. Qed.
Lemma plain_opCodeSize : plain opCodeSize 0 1. Proof. unfold opCodeSize. plain_go. Qed.
Lemma plain_opCodeCopy : plain opCodeCopy 3 0. Proof. unfold opCodeCopy. plain_go. Qed.
Lemma plain_opExtCodeCopy : plain opExtCodeCopy 4 0. Proof. unfold opExtCodeCopy. plain_go. Qed.
Lemma plain_opExtCodeHash : plain opExtCodeHash 1 1. Proof. unfold opExtCodeHash. plain_go. Qed.
Lemma plain_opGasprice : plain (opGasprice env) 0 1. Proof. unfold opGasprice. plain_go. Qed.
Lemma plain_opBlockhash : plain (opBlockhash env) 1 1. Proof. unfold opBlockhash. plain_go. Qed.
Lemma plain_opCoinbase : plain (opCoinbase env) 0 1. Proof. unfold opCoinbase. plain_go. Qed.
Lemma plain_opTimestamp : plain (opTimestamp env) 0 1. Proof. unfold opTimestamp. plain_go. Qed.
Lemma plain_opNumber : plain (opNumber env) 0 1. Proof. unfold opNumber. plain_go. Qed.
Lemma plain_opDifficulty : plain (opDifficulty env) 0 1. Proof. unfold opDifficulty. plain_go. Qed.
Lemma plain_opGasLimit : plain (opGasLimit env) 0 1. Proof. unfold opGasLimit. plain_go. Qed.
Lemma plain_opPop : plain opPop 1 0. Proof. unfold opPop. plain_go. Qed.
Lemma plain_opMload : plain opMload 1 1. Proof. unfold opMload. plain_go. Qed.
Lemma plain_opMstore : plain opMstore 2 0. Proof. unfold opMstore. plain_go. Qed.
Lemma plain_opSload : plain opSload 1 1. Proof. unfold opSload. plain_go. Qed.
Lemma plain_opSstore : plain opSstore 2 0. Proof. unfold opSstore. plain_go. Qed.
Lemma plain_opJumpdest : plain opJumpdest 0 0. Proof. unfold opJumpdest. plain_go. Qed.
Lemma plain_opPc : plain opPc 0 1. Proof. unfold opPc. plain_go. Qed.
Lemma plain_opMsize : plain opMsize 0 1. Proof. unfold opMsize. plain_go. Qed.
Lemma plain_opGas : plain opGas 0 1. Proof. unfold opGas. plain_go. Qed.
Lemma plain_opReturn : plain opReturn 2 0. Proof. unfold opReturn. plain_go. Qed.
Lemma plain_opRevert : plain opRevert 2 0. Proof. unfold opRevert. plain_go. Qed.
Lemma plain_opUndefined : plain opUndefined 0 0. Proof. unfold opUndefined. plain_go. Qed.
Lemma plain_opStop : plain opStop 0 0. Proof. unfold opStop. plain_go. Qed.
Lemma plain_opSelfdestruct : plain opSelfdestruct 1 0. Proof. unfold opSelfdestruct. plain_go. Qed.
Lemma plain_opPush1 : plain opPush1 0 1. Proof. unfold opPush1. plain_go. Qed.
Lemma plain_makePush a b : plain (makePush a b) 0 1. Proof. unfold makePush. plain_go. Qed.
Lemma plain_makeDup n : plain (makeDup n) n (n + 1). Proof. unfold makeDup. plain_go. Qed.
Lemma plain_makeSwap n : plain (makeSwap n) (n + 1) (n + 1). Proof. unfold makeSwap. plain_go. Qed.
Lemma plain_opSelfBalance : plain opSelfBalance 0 1. Proof. unfold opSelfBalance. plain_go. Qed.
Lemma plain_opChainID : plain (opChainID env) 0 1. Proof. unfold opChainID. plain_go. Qed.
Lemma plain_opBaseFee : plain (opBaseFee env) 0 1. Proof. unfold opBaseFee. plain_go. Qed.
Lemma plain_opPush0 : plain opPush0 0 1. Proof. unfold opPush0. plain_go. Qed.

Lemma plain_opMstore8 : plain opMstore8 2 0.
Proof.
  unfold opMstore8. plain_go.
  apply zset_length in H1. unfold memory.Len in H. congruence.
Qed.

Lemma sat_validJumpdest x dest (Q : bool * bool -> view -> Prop) :
  (forall r, Q r x) -> sat x (validJumpdest (S:=S) dest) Q.
Proof. intros HQ. unfold validJumpdest, isCode. destruct x. sat_go; apply HQ. Qed.

Lemma plain_opJump : plain opJump 1 0.
Proof.
  unfold opJump. intros calls []. sat_go. apply sat_validJumpdest. intros [valid used]. plain_end.
Qed.

Lemma plain_opJumpi : plain opJumpi 2 0.
Proof.
  unfold opJumpi. intros calls []. plain_end. apply sat_validJumpdest. intros [valid used]. plain_end.
Qed.

Lemma sat_pop_topics n : forall x (Q : list Z -> view -> Prop),
  (forall l st, zlen st = zlen (v_stack x) - Z.of_nat n -> Q l (with_stack st x)) ->
  sat x (pop_topics (S:=S) n) Q.
Proof.
  induction n as [|n IH]; intros x Q HQ; cbn [pop_topics].
  - apply sat_ret. destruct x. apply HQ. cbn. lia.
  - apply sat_bind, sat_pop. intros v rest Hx. apply sat_bind, IH. intros l st Hl.
    apply sat_ret. destruct x. apply HQ. cbn in *. subst. unfold zlen in *. cbn. lia.
Qed.

Lemma plain_makeLog n : plain (makeLog env n) (Z.of_nat n + 2) 0.
Proof.
  unfold makeLog. intros calls []. sat_go; [done|]. apply sat_pop_topics. intros l st Hl. plain_end.
Qed.

(** ** Halting instructions *)

Ltac halting_go := intros calls []; sat_go; done.

Lemma halting_opReturn : halting opReturn. Proof. unfold opReturn. halting_go. Qed.
Lemma halting_opRevert : halting opRevert. Proof. unfold opRevert. halting_go. Qed.
Lemma halting_opUndefined : halting opUndefined. Proof. unfold opUndefined. halting_go. Qed.
Lemma halting_opStop : halting opStop. Proof. unfold opStop. halting_go. Qed.
Lemma halting_opSelfdestruct : halting opSelfdestruct. Proof. unfold opSelfdestruct. halting_go. Qed.

(** ** Entering another contract *)

(** A call made at depth [d] with gas [g] gives back at most [g], and restores
    the depth and the read-only flag. *)
Definition returns {A} (d g : Z) (rest : A -> Z) (m : M (VM S) A) : Prop := forall e,
  depth e = d ->
  match m e with
  | Done (r, e') => 0 <= rest r <= g /\ depth e' = d /\ readOnly e' = readOnly e
  | GoPanic => True
  | NoFuel => False
  end.

Definition call_rest (r : bytes * Z * option VMError) : Z := r.1.2.
Definition create_rest (r : bytes * Z * Z * option VMError) : Z := r.1.2.

(** What an instruction at depth [d] may assume of the calls it makes, for gas
    below [N]. *)
Record calls_ok (N d : Z) (calls : Calls S) : Prop := {
  ok_Call r a i g v b : 0 <= g < N -> returns d g call_rest (Call calls r a i g v b);
  ok_CallCode r a i g v : 0 <= g < N -> returns d g call_rest (CallCode calls r a i g v);
  ok_DelegateCall r a i g : 0 <= g < N -> returns d g call_rest (DelegateCall calls r a i g);
  ok_StaticCall r a i g : 0 <= g < N -> returns d g call_rest (StaticCall calls r a i g);
  ok_Create r i g v : 0 <= g < N -> returns d g create_rest (Create calls r i g v);
  ok_Create2 r i g v s : 0 <= g < N -> returns d g create_rest (Create2 calls r i g v s)
}.

Lemma sat_on_vm_returns {A} x d g rest (m : M (VM S) A) (Q : A -> view -> Prop) :
  returns d g rest m -> v_depth x = d ->
  (forall r t, 0 <= rest r <= g -> Q r (with_temp t x)) ->
  sat x (on_vm m) Q.
Proof.
  intros Hm Hd HQ f Hf. unfold on_vm, zoom. specialize (Hm (vm f)).
  subst x. cbn in Hd. specialize (Hm Hd). destruct (m (vm f)) as [[r e']| |]; [|done..].
  destruct Hm as (Hg & Hd' & Hr). specialize (HQ r (callGasTemp e') Hg).
  unfold view_of, with_temp in *. cbn in *. congruence.
Qed.

Definition stipend (v : Z) : Z := if uint256.IsZero v then 0 else CallStipend.

(** The gas a call instruction hands to the callee: what the gas function
    reserved, and the stipend when value is transferred. *)
Definition reserve (i : Z) (x : view) : Z :=
  if (i =? CALL) || (i =? CALLCODE)
  then v_temp x + match v_stack x with _ :: _ :: v :: _ => stipend v | _ => 0 end
  else if (i =? DELEGATECALL) || (i =? STATICCALL) then v_temp x else 0.

(** Executed at opcode [i] with the reserve still outside of the contract's gas,
    [e] leaves at most the gas it found and the reserve. *)
Definition exec_ok (i : Z) (e : executionFunc) (pops pushes : Z) : Prop := forall N calls x,
  calls_ok N (v_depth x) calls -> N <= two64 ->
  0 <= v_gas x -> 0 <= reserve i x -> v_gas x + reserve i x < N ->
  sat x (e calls) (fun r x' =>
    v_depth x' = v_depth x /\ v_ro x' = v_ro x /\ v_mlen x' = v_mlen x /\ v_mlast x' = v_mlast x /\
    0 <= v_gas x' <= v_gas x + reserve i x /\
    (r.2 = None -> zlen (v_stack x') = zlen (v_stack x) - pops + pushes)).

Lemma plain_exec_ok i e pops pushes : plain e pops pushes -> exec_ok i e pops pushes.
Proof.
  intros H N calls x _ _ Hg Hr _. eapply sat_mono; [apply H|].
  intros r x' [(-> & -> & -> & -> & ->) Hs]. split_and!; auto; lia.
Qed.

Lemma sat_finish_call x a b ret g err (Q : bytes * option VMError -> view -> Prop) :
  Q (ret, None) (with_gas (u64 (v_gas x + g))
     (with_stack ((if bool_decide (err <> None) then 0 else 1) :: v_stack x) x)) ->
  sat x (finish_call (S:=S) a b ret g err) Q.
Proof.
  intros HQ. unfold finish_call. apply sat_bind, sat_push, sat_bind.
  destruct (_ || _); sat_go; apply HQ.
Qed.

Ltac call_go :=
  intros N calls [g st t d ro ml mc] Hc HN Hg Hr Hlt; cbn [v_gas v_depth] in *;
  sat_go; try (unfold reserve in *; cbn in *; split_and!; (done || lia)).
Ltac call_end H :=
  eapply sat_on_vm_returns; [apply H; unfold reserve in *; cbn in *; unfold CallStipend in *;
     rewrite ?u64_small by lia; lia | done |];
  intros [[ret g'] err] t' Hg'; apply sat_finish_call; unfold reserve in *; cbn in *;
  unfold CallStipend in *; rewrite ?u64_small in * by lia; rewrite ?u64_small in * by lia;
  split_and!; try done; try lia; intros _; zlen_lia.

Lemma exec_opDelegateCall : exec_ok DELEGATECALL opDelegateCall 6 1.
Proof. unfold opDelegateCall. call_go. call_end (ok_DelegateCall _ _ _ Hc). Qed.

Lemma exec_opStaticCall : exec_ok STATICCALL opStaticCall 6 1.
Proof. unfold opStaticCall. call_go. call_end (ok_StaticCall _ _ _ Hc). Qed.

Lemma exec_opCallCode : exec_ok CALLCODE opCallCode 7 1.
Proof. unfold opCallCode. call_go. unfold reserve, stipend in *; cbn in *. destruct (uint256.IsZero v1) eqn:Hv; call_end (ok_CallCode _ _ _ Hc). Qed.

Lemma exec_opCall : exec_ok CALL opCall 7 1.
Proof. unfold opCall. call_go. unfold reserve, stipend in *; cbn in *. destruct (uint256.IsZero v1) eqn:Hv; call_end (ok_Call _ _ _ Hc). Qed.

Lemma sat_finish_create x res g err (Q : bytes * option VMError -> view -> Prop) :
  (forall r, Q (r, None) (with_gas (u64 (v_gas x + g)) x)) ->
  sat x (finish_create (S:=S) res g err) Q.
Proof. intros HQ. unfold finish_create. apply sat_bind, sat_return_gas. sat_go; apply HQ. Qed.

Lemma exec_opCreate : exec_ok CREATE (opCreate env) 3 1.
Proof.
  intros N calls [g st t d ro ml mc] Hc HN Hg Hr Hlt. unfold opCreate. cbn in *.
  sat_go; [split_and!; (done || lia)|].
  assert (0 <= g / 64 <= g) by (split; [apply Z.div_pos|apply Z.div_le_upper_bound]; lia).
  rewrite H. set (gas := if IsTangerineWhistle (chainRules env) then _ else _).
  assert (0 <= gas <= g) as Hgas by (subst gas; destruct IsTangerineWhistle; rewrite ?u64_small; lia).
  clearbody gas. apply sat_use_gas; [cbn; lia|]. cbn. intros _. sat_go.
  eapply sat_on_vm_returns; [apply (ok_Create _ _ _ Hc); lia | done |].
  intros [[[res addr] g'] err] t' Hg'. cbn in Hg'. sat_go. apply sat_finish_create. intros r. cbn.
  rewrite (u64_small (_ - gas)), u64_small by lia. split_and!; try done; try lia. intros _. zlen_lia.
Qed.

Lemma exec_opCreate2 : exec_ok CREATE2 opCreate2 4 1.
Proof.
  intros N calls [g st t d ro ml mc] Hc HN Hg Hr Hlt. unfold opCreate2. cbn in *.
  sat_go; [split_and!; (done || lia)|].
  assert (0 <= g / 64 <= g) by (split; [apply Z.div_pos|apply Z.div_le_upper_bound]; lia).
  rewrite H, (u64_small (g - g / 64)) by lia. set (gas := g - g / 64).
  assert (0 <= gas <= g) as Hgas by lia. clearbody gas.
  apply sat_use_gas; [cbn; lia|]. cbn. intros _. sat_go.
  eapply sat_on_vm_returns; [apply (ok_Create2 _ _ _ Hc); lia | done |].
  intros [[[res addr] g'] err] t' Hg'. cbn in Hg'. sat_go. apply sat_finish_create. intros r. cbn.
  rewrite (u64_small (_ - gas)), u64_small by lia. split_and!; try done; try lia. intros _. zlen_lia.
Qed.

End OpSpecs.
