(* ===== verification/GasSpecs.v ===== *)
(** * What the gas functions charge

    The memory fee is exactly the quadratic fee of the new size less what was
    paid before; the price of a call covers the gas handed to the callee; the
    functions change neither the stack nor the gas of the contract. *)

From S2P Require Import Prelude Uint256 Params Stack Memory Analysis Common EvmTypes Contract.
From S2P Require Import Instructions GasTable Opcodes JumpTable EvmLogic OpSpecs.

(** ** Memory *)

(** The fee of a memory of [w] words, and the largest size that can be paid. *)
Definition memFee (w : Z) : Z := MemoryGas * w + w * w / QuadCoeffDiv.
Definition MemLimit : Z := 0x1FFFFFFFE0.

Lemma memFee_mono v w : 0 <= v <= w -> memFee v <= memFee w.
Proof.
  intros H. unfold memFee, MemoryGas, QuadCoeffDiv.
  assert (v * v / 512 <= w * w / 512) by (apply Z.div_le_mono; nia). lia.
Qed.

Lemma memFee_bound w : 0 <= w <= 4294967295 -> 0 <= memFee w < 2 ^ 56.
Proof.
  intros H. split.
  - change 0 with (memFee 0). apply memFee_mono. lia.
  - apply Z.le_lt_trans with (memFee 4294967295); [by apply memFee_mono | done].
Qed.

Definition memory_ok (m : memory.Memory) : Prop :=
  memory.Len m mod 32 = 0 /\ memory.Len m <= MemLimit /\
  memory.lastGasCost m = memFee (memory.Len m / 32).

Lemma memoryGasCost_spec m size :
  memory_ok m -> 0 <= size < two64 ->
  memoryGasCost size m =
    if MemLimit <? size then Done ((0, Some ErrGasUintOverflow), m)
    else let w := Z.max (memory.Len m / 32) ((size + 31) / 32) in
         Done ((memFee w - memFee (memory.Len m / 32), None), memory.set_lastGasCost (memFee w) m).
Proof.
  intros (Hm & Hl & Hf) Hs. unfold memoryGasCost, MemLimit in *.
  assert (0 <= memory.Len m) as Hlen by apply zlen_nonneg.
  destruct (Z.eqb_spec size 0) as [->|Hs0].
  { destruct (Z.ltb_spec 137438953440 0); [lia|]. cbv zeta. change ((0 + 31) / 32) with 0.
    rewrite Z.max_l by (apply Z.div_pos; lia). rewrite Z.sub_diag, <- Hf. by destruct m. }
  destruct (Z.ltb_spec 137438953440 size); [done|].
  assert (ToWordSize size = (size + 31) / 32) as ->.
  { unfold ToWordSize, MaxUint64. destruct (Z.ltb_spec (two64 - 1 - 31) size); [lia|].
    by rewrite u64_small by lia. }
  set (w := (size + 31) / 32). assert (0 <= w <= 4294967295) as Hw.
  { split; [apply Z.div_pos; lia | apply Z.lt_succ_r, Z.div_lt_upper_bound; lia]. }
  rewrite (u64_small (w * 32)) by lia. unfold mbind, M_bind, get, modify. cbn -[memFee].
  pose proof (Z.div_mod (memory.Len m) 32 ltac:(lia)) as Hd. rewrite Hm in Hd.
  destruct (Z.ltb_spec (memory.Len m) (w * 32)).
  - rewrite (u64_small (w * w)) by nia. rewrite (u64_small (w * MemoryGas)) by (unfold MemoryGas; lia).
    assert (w * MemoryGas + w * w / QuadCoeffDiv = memFee w) as -> by (unfold memFee; lia).
    pose proof (memFee_bound w Hw). rewrite (u64_small (memFee w)) by lia.
    rewrite Z.max_r by lia. rewrite Hf.
    assert (0 <= memory.Len m / 32) by (apply Z.div_pos; lia).
    pose proof (memFee_mono (memory.Len m / 32) w ltac:(lia)).
    pose proof (memFee_bound (memory.Len m / 32) ltac:(lia)). by rewrite u64_small by lia.
  - rewrite Z.max_l by lia. rewrite Z.sub_diag, <- Hf. by destruct m.
Qed.

(** ** The same on views *)

Definition mem_ok (x : view) : Prop :=
  v_mlen x mod 32 = 0 /\ 0 <= v_mlen x <= MemLimit /\ v_mlast x = memFee (v_mlen x / 32).

Definition size_ok (size : Z) : Prop := 0 <= size < two64 /\ size mod 32 = 0.

(** The fee after paying for [size] bytes. *)
Definition fee_for (size : Z) (x : view) : Z := memFee (Z.max (v_mlen x) size / 32).

Lemma max_div32 a b : a mod 32 = 0 -> b mod 32 = 0 -> Z.max (a / 32) ((b + 31) / 32) = Z.max a b / 32.
Proof.
  intros Ha Hb. pose proof (Z.div_mod a 32 ltac:(lia)). pose proof (Z.div_mod b 32 ltac:(lia)).
  replace ((b + 31) / 32) with (b / 32).
  - destruct (Z.max_spec a b) as [[? ->]|[? ->]]; lia.
  - symmetry. replace (b + 31) with (31 + (b / 32) * 32) by lia. rewrite Z.div_add by lia.
    change (31 / 32) with 0. lia.
Qed.

Section GasSpecs.
Context {U : Uint256} {UL : Uint256Laws U} {C : Crypto}.
Context {S : Type} {I : ibs.IntraBlockState S} {IF : ibs_fueled I} (env : Env S).

#[local] Notation gasFunc := (gasFunc (S:=S)).

Lemma sat_pureMemoryGascost x size (Q : Z * option VMError -> view -> Prop) :
  mem_ok x -> size_ok size ->
  (forall e, Q (0, Some e) x) ->
  (forall fee, 0 <= fee < 2 ^ 56 -> size <= MemLimit ->
     Q (fee, None) (with_mem (v_mlen x) (fee_for size x) x)) ->
  sat x (pureMemoryGascost (S:=S) size) Q.
Proof.
  intros (Hm & Hl & Hf) [Hs Hs32] H1 H2 f Hv. subst x. unfold pureMemoryGascost, on_mem, zoom.
  cbn in *. rewrite memoryGasCost_spec by (unfold memory_ok; auto with lia).
  destruct (Z.ltb_spec MemLimit size); cbn zeta.
  - unfold view_of in H1. destruct f. apply H1.
  - rewrite max_div32 by done. apply (H2 (_ - _)); [|lia].
    assert (0 <= memory.Len (Memory_ f) / 32 <= Z.max (memory.Len (Memory_ f)) size / 32).
    { split; [apply Z.div_pos; lia | apply Z.div_le_mono; lia]. }
    assert (Z.max (memory.Len (Memory_ f)) size / 32 <= 4294967295).
    { apply Z.div_le_upper_bound; unfold MemLimit in *; lia. }
    pose proof (memFee_mono _ _ H0). pose proof (memFee_bound _ (conj (proj1 H0) (Z.le_trans _ _ _ (proj2 H0) H3))).
    pose proof (memFee_bound (Z.max (memory.Len (Memory_ f)) size / 32) ltac:(lia)). lia.
Qed.

(** ** Gas functions *)

Lemma sat_gas_try x m k (Q : Z * option VMError -> view -> Prop) :
  sat x m (fun r x' => match r.2 with
                       | Some e => Q (0, Some e) x'
                       | None => sat (S:=S) x' (k r.1) Q
                       end) ->
  sat x (gas_try m k) Q.
Proof.
  intros H. unfold gas_try. apply sat_bind. eapply sat_mono; [apply H|].
  intros [v [e|]] x' Hx; [by apply sat_ret | done].
Qed.

Lemma sat_gas_checked x r k (Q : Z * option VMError -> view -> Prop) :
  (forall e, Q (0, Some e) x) -> (r.2 = false -> sat (S:=S) x (k r.1) Q) ->
  sat x (gas_checked r k) Q.
Proof. intros H1 H2. unfold gas_checked. destruct r as [v []]; [apply sat_ret, H1 | by apply H2]. Qed.

(** [d] charges for [size] bytes of memory and leaves the rest of the view. *)
Definition charges (x : view) (size : Z) (r : Z * option VMError) (x' : view) : Prop :=
  v_stack x' = v_stack x /\ v_depth x' = v_depth x /\ v_ro x' = v_ro x /\ v_mlen x' = v_mlen x /\
  0 <= v_gas x' <= v_gas x /\
  (r.2 = None -> v_gas x' = v_gas x /\ 0 <= r.1 < two64 /\
                 size <= MemLimit /\ v_mlast x' = fee_for size x).

(** The price covers the reserve of opcode [i], if it can be paid at all. *)
Definition dyn_ok (i : Z) (P : Z -> Prop) (d : gasFunc) : Prop := forall size x,
  P size -> mem_ok x -> 0 <= v_gas x < two64 ->
  sat x (d size) (fun r x' => charges x size r x' /\
    (r.2 = None -> r.1 <= v_gas x -> 0 <= reserve i x' <= r.1)).

Definition dyn_plain (P : Z -> Prop) (d : gasFunc) : Prop := forall size x,
  P size -> mem_ok x -> 0 <= v_gas x < two64 -> sat x (d size) (charges x size).

Definition dyn_pos (P : Z -> Prop) (d : gasFunc) : Prop := forall size x,
  P size -> mem_ok x -> 0 <= v_gas x < two64 ->
  sat x (d size) (fun r _ => r.2 = None -> 1 <= r.1).

Definition no_reserve (i : Z) : Prop := forall x, reserve i x = 0.

Lemma dyn_plain_ok i P d : no_reserve i -> dyn_plain P d -> dyn_ok i P d.
Proof.
  intros Hi H size x HP Hm Hg. eapply sat_mono; [by apply H|].
  intros r x' Hc. split; [done|]. intros Hr _. rewrite Hi.
  destruct Hc as (_ & _ & _ & _ & _ & Hc). destruct (Hc Hr) as (_ & ? & _). lia.
Qed.

Lemma no_reserve_intro i :
  (i =? CALL) || (i =? CALLCODE) || (i =? DELEGATECALL) || (i =? STATICCALL) = false -> no_reserve i.
Proof.
  intros H x. unfold reserve. apply orb_false_elim in H as [H H4].
  apply orb_false_elim in H as [H H3]. rewrite H, H3, H4. done.
Qed.

(** A function that does not depend on memory is used with size 0. *)
Definition zero_size (size : Z) : Prop := size = 0.

Lemma fee_for_0 x : mem_ok x -> fee_for 0 x = v_mlast x.
Proof. intros (_ & ? & ->). unfold fee_for. by rewrite Z.max_l by lia. Qed.

Ltac dyn_intro :=
  intros size [g st t d ro ml mc] HP Hm Hg; cbn [v_gas] in *.

(** The end of a path that touched nothing. *)
Ltac dyn_zero :=
  unfold charges; cbn; split_and!; auto; try lia; intros; cbn in *; try done;
  unfold zero_size in *; subst;
  split_and!; try done; try lia; unfold MemLimit; try lia;
  repeat match goal with |- context [if ?b then _ else _] => destruct b end; try done;
  try match goal with |- context [u64 ?z] => pose proof (u64_range z); lia end;
  symmetry; by apply (fee_for_0 (mkView _ _ _ _ _ _ _)).

Lemma sat_sstore_dirty x a b c e f h (Q : () -> view -> Prop) :
  Q () x -> sat x (sstore_dirty (S:=S) a b c e f h) Q.
Proof. intros HQ. unfold sstore_dirty. destruct x. sat_go; by repeat match goal with u : () |- _ => destruct u end. Qed.

Lemma sat_touch_address x a (Q : bool -> view -> Prop) :
  (forall b, Q b x) -> sat x (touch_address (S:=S) a) Q.
Proof. intros HQ. unfold touch_address. destruct x. sat_go; apply HQ. Qed.

Lemma sat_empty_and_funded x a (Q : bool -> view -> Prop) :
  (forall b, Q b x) -> sat x (empty_and_funded (S:=S) a) Q.
Proof. intros HQ. unfold empty_and_funded. destruct x. sat_go; apply HQ. Qed.

Lemma dyn_gasSStore : dyn_plain zero_size (gasSStore env).
Proof.
  dyn_intro. unfold gasSStore. sat_go; try apply sat_sstore_dirty; sat_go; dyn_zero.
Qed.

Lemma dyn_gasSStoreEIP2200 : dyn_plain zero_size gasSStoreEIP2200.
Proof.
  dyn_intro. unfold gasSStoreEIP2200. sat_go; try apply sat_sstore_dirty; sat_go; dyn_zero.
Qed.

Lemma dyn_makeGasSStoreFunc r : dyn_plain zero_size (makeGasSStoreFunc r).
Proof.
  dyn_intro. unfold makeGasSStoreFunc. sat_go; try apply sat_sstore_dirty; sat_go; dyn_zero.
Qed.

Lemma dyn_gasSLoadEIP2929 : dyn_plain zero_size gasSLoadEIP2929.
Proof. dyn_intro. unfold gasSLoadEIP2929. sat_go; dyn_zero. Qed.

Lemma dyn_gasEip2929AccountCheck : dyn_plain zero_size gasEip2929AccountCheck.
Proof.
  dyn_intro. unfold gasEip2929AccountCheck. sat_go. apply sat_touch_address. intros [];
    sat_go; dyn_zero.
Qed.

Lemma dyn_gasSelfdestruct : dyn_plain zero_size (gasSelfdestruct env).
Proof.
  dyn_intro. unfold gasSelfdestruct. sat_go; try (apply sat_empty_and_funded; intros []);
    sat_go; dyn_zero.
Qed.

Lemma dyn_makeSelfdestructGasFn b : dyn_plain zero_size (makeSelfdestructGasFn b).
Proof.
  dyn_intro. unfold makeSelfdestructGasFn. sat_go. apply sat_touch_address. intros [];
    sat_go; apply sat_empty_and_funded; intros []; sat_go; dyn_zero.
Qed.

Lemma BitLen_range x : word x -> 0 <= uint256.BitLen x <= 256.
Proof.
  intros Hx. rewrite uint256.BitLen_spec by done. destruct (Z.eqb_spec x 0); [lia|].
  unfold word in Hx. pose proof (Z.log2_nonneg x).
  assert (Z.log2 x < 256) by (apply Z.log2_lt_pow2; [lia|]; change (2 ^ 256) with two256; lia). lia.
Qed.

Lemma dyn_gasExp b : dyn_plain zero_size (gasExp b).
Proof.
  dyn_intro. unfold gasExp. sat_go. apply sat_gas_checked; [intros; dyn_zero|]. intros _.
  apply sat_ret. pose proof (u64_range (u64 ((uint256.BitLen v + 7) / 8 * b) + ExpGas)). cbn. dyn_zero.
Qed.

(** ** Functions that charge for memory *)

(** A path that ends in an error. *)
Ltac dyn_err := intros; unfold charges; cbn; split_and!; try done; try lia.

(** After [pureMemoryGascost], only the fee has changed. *)
Ltac mem_gas :=
  apply sat_gas_try, sat_pureMemoryGascost; [done..| |]; cbn [fst snd];
  [dyn_err | intros fee Hfee Hsz].

(** The end of a path that paid the memory fee. *)
Ltac dyn_mem :=
  unfold charges; cbn; split_and!; auto; try lia; intros; split_and!; try done; try lia.

Lemma SafeAdd_range x y : 0 <= (SafeAdd x y).1 < two64.
Proof. apply u64_range. Qed.

Lemma dyn_pureMemoryGascost : dyn_plain size_ok pureMemoryGascost.
Proof.
  dyn_intro. apply sat_pureMemoryGascost; [done..|dyn_err|]. intros fee Hfee Hsz. dyn_mem.
Qed.

(** The functions that add a price per word to the memory fee. *)
Lemma dyn_memoryCopierGas n : dyn_plain size_ok (memoryCopierGas n).
Proof.
  dyn_intro. unfold memoryCopierGas. mem_gas. sat_go.
  apply sat_gas_checked; [dyn_err|intros _]. apply sat_gas_checked; [dyn_err|intros _].
  apply sat_gas_checked; [dyn_err|intros _]. apply sat_ret.
  match goal with |- context [SafeAdd ?a ?b] => pose proof (SafeAdd_range a b) end. dyn_mem.
Qed.

Lemma dyn_makeGasLog n : dyn_plain size_ok (makeGasLog n).
Proof.
  dyn_intro. unfold makeGasLog. sat_go. apply sat_gas_checked; [dyn_err|intros _]. mem_gas.
  do 4 (apply sat_gas_checked; [dyn_err|intros _]). apply sat_ret.
  match goal with |- context [SafeAdd ?a (SafeMul ?b ?c).1] =>
    pose proof (SafeAdd_range a (SafeMul b c).1) end. dyn_mem.
Qed.

Lemma dyn_gasKeccak256 : dyn_plain size_ok gasKeccak256.
Proof.
  dyn_intro. unfold gasKeccak256. mem_gas. sat_go.
  do 3 (apply sat_gas_checked; [dyn_err|intros _]). apply sat_ret.
  match goal with |- context [SafeAdd ?a ?b] => pose proof (SafeAdd_range a b) end. dyn_mem.
Qed.

Lemma dyn_gasCreate2 : dyn_plain size_ok gasCreate2.
Proof.
  dyn_intro. unfold gasCreate2. mem_gas. sat_go.
  do 3 (apply sat_gas_checked; [dyn_err|intros _]). apply sat_ret.
  match goal with |- context [SafeAdd ?a ?b] => pose proof (SafeAdd_range a b) end. dyn_mem.
Qed.

Lemma dyn_gasInitCode p : dyn_plain size_ok (gasInitCode p).
Proof.
  dyn_intro. unfold gasInitCode. mem_gas. sat_go; [dyn_err|].
  apply sat_gas_checked; [dyn_err|intros _]. apply sat_ret.
  match goal with |- context [SafeAdd ?a ?b] => pose proof (SafeAdd_range a b) end. dyn_mem.
Qed.

Lemma dyn_gasExtCodeCopyEIP2929 : dyn_plain size_ok gasExtCodeCopyEIP2929.
Proof.
  dyn_intro. unfold gasExtCodeCopyEIP2929. apply sat_gas_try.
  eapply sat_mono; [by apply (dyn_memoryCopierGas 3)|]. intros [fee [e|]] x' Hc; cbn [fst snd].
  - unfold charges in *; cbn in *. destruct Hc as (? & ? & ? & ? & ? & _). split_and!; (done || lia).
  - destruct x' as [g' st' t' d' ro' ml' mc']. sat_go. apply sat_touch_address. intros [].
    + apply sat_gas_checked; [|intros _; apply sat_ret].
      * intros e. unfold charges in *; cbn in *. destruct Hc as (? & ? & ? & ? & ? & _). split_and!; (done || lia).
      * pose proof (SafeAdd_range fee coldCost). unfold charges in *; cbn in *.
        destruct Hc as (? & ? & ? & ? & ? & Hc). split_and!; try done; try lia. intros _.
        destruct (Hc eq_refl) as (? & ? & ? & ?). split_and!; (done || lia).
    + sat_go. done.
Qed.

(** ** Calls *)

Lemma u64_sub_wrap a b : 0 <= a < b -> b < two64 -> u64 (a - b) = two64 + a - b.
Proof.
  intros H Hb. unfold u64. symmetry. apply (Z.mod_unique_pos _ _ (-1)); lia.
Qed.

(** Under EIP-150 the callee gets at most 63/64 of what remains after the base
    price; when the base price cannot be paid the sum stays far from 2^64. *)
Lemma callGas_eip150 avail base cost t :
  0 <= avail < two64 -> 0 <= base < 2 ^ 57 ->
  callGas true avail base cost = (t, None) ->
  0 <= t /\ (base + t <= avail \/ avail < base /\ base + t < two64 - 2 ^ 56).
Proof.
  intros Ha Hb H. unfold callGas in H. cbv zeta in H.
  set (A := u64 (avail - base)) in H.
  assert (0 <= A < two64) as HA by apply u64_range.
  assert (0 <= A / 64 <= A) by (split; [apply Z.div_pos|apply Z.div_le_upper_bound]; lia).
  rewrite (u64_small (A - A / 64)) in H by lia.
  assert (0 <= t <= A - A / 64) as Ht.
  { pose proof (uint256.Uint64_type cost).
    destruct (uint256.IsUint64 cost); cbn in H; [|injection H as <-; lia].
    destruct (Z.ltb_spec (A - A / 64) (uint256.Uint64 cost)); injection H as <-; lia. }
  split; [lia|]. destruct (Z.le_gt_cases base avail) as [Hle|Hgt].
  - left. subst A. rewrite u64_small in * by lia. lia.
  - right. split; [lia|]. assert (A = two64 + avail - base) as HA' by (apply u64_sub_wrap; lia).
    assert (A - 63 <= 64 * (A / 64)) by (pose proof (Z.div_mod A 64 ltac:(lia));
      pose proof (Z.mod_pos_bound A 64 ltac:(lia)); lia). lia.
Qed.

Lemma callGas_nonneg b avail base cost t e : callGas b avail base cost = (t, e) -> 0 <= t.
Proof.
  unfold callGas. pose proof (uint256.Uint64_type cost).
  destruct b, (uint256.IsUint64 cost); cbn; try destruct (_ <? _); cbn; intros [= <- _];
    try apply u64_range; lia.
Qed.

Lemma sat_reserve_call_gas x base (Q : Z * option VMError -> view -> Prop) :
  0 <= base < 2 ^ 57 -> 0 <= v_gas x < two64 ->
  (forall t e, Q (0, Some e) (with_temp t x)) ->
  (forall t, 0 <= t -> base + t < two64 ->
     (IsTangerineWhistle (rules env) = true -> base + t <= v_gas x \/ base + t < two64 - 2 ^ 56) ->
     Q (base + t, None) (with_temp t x)) ->
  sat x (reserve_call_gas env base) Q.
Proof.
  intros Hb Hx H1 H2. unfold reserve_call_gas.
  apply sat_bind, sat_get_contract. intros c ->. apply sat_bind, sat_back. intros v _ _.
  destruct (callGas _ _ _ _) as [t err] eqn:E. apply sat_bind, sat_callGasTemp.
  destruct err as [e|]; [apply sat_ret, H1|].
  assert (0 <= t) by (eapply callGas_nonneg; done).
  apply sat_gas_checked; [intros; apply H1|]. intros Hs. apply sat_ret.
  assert (0 <= t < two64) as Ht.
  { split; [done|]. clear -E UL. unfold callGas in E. pose proof (uint256.Uint64_type v).
    destruct (IsTangerineWhistle _), (uint256.IsUint64 v); cbn in E; try destruct (_ <? _); cbn in E;
      injection E as <-; try apply u64_range; lia. }
  destruct (SafeAdd base t) as [r o] eqn:Ea. cbn in Hs. subst o.
  apply SafeAdd_ok in Ea as [-> ?]; [|unfold is_u64; lia..]. apply H2; [done|lia|].
  intros Htw. rewrite Htw in E. destruct (callGas_eip150 _ _ _ _ Hx Hb E) as (_ & [?|[_ ?]]); auto.
Qed.

(** The specification of the four call functions before EIP-2929. *)
Definition dyn_call (i : Z) (d : gasFunc) : Prop := forall size x,
  size_ok size -> mem_ok x -> 0 <= v_gas x < two64 ->
  sat x (d size) (fun r x' => charges x size r x' /\ v_gas x' = v_gas x /\
    (r.2 = None -> 0 <= reserve i x' <= r.1 /\
       (IsTangerineWhistle (rules env) = true -> r.1 <= v_gas x \/ r.1 < two64 - 2 ^ 56))).

Lemma dyn_call_ok i d : dyn_call i d -> dyn_ok i size_ok d.
Proof.
  intros H size x HP Hm Hg. eapply sat_mono; [by apply H|].
  intros r x' (Hc & _ & Hr). split; [done|]. intros Hn _. by apply Hr.
Qed.

Ltac call_err := intros; unfold charges; cbn; split_and!; try done; try lia.
Ltac call_ok :=
  intros t' Ht' Hlt Htw; unfold charges, reserve, stipend in *; cbn in *; unfold CallStipend in *;
  split_and!; try done; try lia; intros _; split_and!; try done; try lia.

Lemma dyn_gasDelegateCall : dyn_call DELEGATECALL (gasDelegateCall env).
Proof.
  dyn_intro. unfold gasDelegateCall. mem_gas. apply sat_reserve_call_gas; [lia|done|call_err|call_ok].
Qed.

Lemma dyn_gasStaticCall : dyn_call STATICCALL (gasStaticCall env).
Proof.
  dyn_intro. unfold gasStaticCall. mem_gas. apply sat_reserve_call_gas; [lia|done|call_err|call_ok].
Qed.

Lemma third_of (st : list Z) v : st !! Z.to_nat 2 = Some v -> exists a b rest, st = a :: b :: v :: rest.
Proof. destruct st as [|a [|b [|c rest]]]; [done..|]. intros [= ->]. eauto. Qed.

(** The base price of a call with value [v], from its other parts. *)
Lemma sat_call_price i g st t d ro ml mc size fee new v tv :
  negb (uint256.IsZero v) = tv ->
  i = CALL \/ i = CALLCODE -> st !! Z.to_nat 2 = Some v ->
  0 <= g < two64 -> 0 <= fee < 2 ^ 56 -> size <= MemLimit -> 0 <= new <= CallNewAccountGas ->
  let x := mkView g st t d ro ml mc in
  sat (with_mem ml (fee_for size x) x)
    (gas_checked (SafeAdd (if tv then u64 (new + CallValueTransferGas) else new) fee)
       (reserve_call_gas env))
    (fun r x' => charges x size r x' /\ v_gas x' = v_gas x /\
      (r.2 = None -> 0 <= reserve i x' <= r.1 /\
         (IsTangerineWhistle (rules env) = true -> r.1 <= v_gas x \/ r.1 < two64 - 2 ^ 56))).
Proof.
  intros <- Hi Hv Hg Hfee Hsz Hnew x. apply third_of in Hv as (a & b & rest & ->).
  unfold CallNewAccountGas, CallValueTransferGas in *.
  set (base := if negb (uint256.IsZero v) then _ else _).
  assert (base = new + (if uint256.IsZero v then 0 else 9000)) as Hbase.
  { subst base. destruct (uint256.IsZero v); cbn; rewrite ?u64_small; lia. }
  clearbody base. assert (new <= base <= 34000) by (destruct (uint256.IsZero v); lia).
  destruct (SafeAdd base fee) as [r o] eqn:Ea. apply sat_gas_checked; [call_err|]. intros Ho. cbn in Ho.
  subst o. apply SafeAdd_ok in Ea as [-> _]; [|unfold is_u64; lia..]. cbn [fst].
  apply sat_reserve_call_gas; [lia|done|call_err|].
  destruct Hi as [-> | ->]; call_ok; destruct (uint256.IsZero v); lia.
Qed.

Lemma dyn_gasCallCode : dyn_call CALLCODE (gasCallCode env).
Proof.
  dyn_intro. unfold gasCallCode. mem_gas. sat_go.
  refine (sat_call_price CALLCODE g st t d ro ml mc size fee 0 v _ _ _ _ _ _ _ _); eauto. done.
Qed.

Lemma dyn_gasCall : dyn_call CALL (gasCall env).
Proof.
  dyn_intro. unfold gasCall. apply sat_bind, sat_back. intros v Hv _.
  apply sat_bind, sat_back. intros w _ _. cbv zeta. apply sat_bind.
  eapply (sat_mono _ _ (fun _ x' => x' = mkView g st t d ro ml mc)); [by sat_go|].
  intros fresh x' ->. apply sat_gas_try, sat_pureMemoryGascost; [done..|call_err|].
  intros fee Hfee Hsz. cbn [fst snd].
  apply (sat_call_price CALL g st t d ro ml mc size fee _ v); auto. by destruct fresh.
Qed.

(** With EIP-2929 the price of a cold account is paid before the callee's share
    is computed, and then added again.  The sum does not wrap because of the
    EIP-150 rule. *)
Lemma dyn_makeCallVariant i d :
  IsTangerineWhistle (rules env) = true -> dyn_call i d ->
  dyn_ok i size_ok (makeCallVariantGasCallEIP2929 d).
Proof.
  intros Htw Hd size [g st t dp ro ml mc] HP Hm Hg. unfold makeCallVariantGasCallEIP2929.
  cbn [v_gas] in Hg. apply sat_bind, sat_back. intros v _ _. apply sat_bind, sat_touch_address.
  intros [].
  - apply sat_bind, sat_use_gas; cbn [v_gas negb]; unfold coldCost, ColdAccountAccessCostEIP2929,
      WarmStorageReadCostEIP2929; intros Hcold; [apply sat_ret; call_err|].
    apply sat_bind. rewrite (u64_small (g - _)) by lia.
    eapply sat_mono; [apply Hd; [done|done|cbn; lia]|].
    intros [c err] [g' st' t' d' ro' ml' mc'] (Hc & Hg' & Hr). cbn in *. subst g'.
    unfold charges in Hc. cbn in Hc. destruct Hc as (-> & -> & -> & -> & ? & Hc).
    destruct err as [e|]; [rewrite bool_decide_true by done; apply sat_ret; call_err|].
    destruct (Hc eq_refl) as (_ & Hc0 & Hsz & ->). destruct (Hr eq_refl) as (Hres & Hb).
    rewrite bool_decide_false by (intros F; by apply F). apply sat_bind, sat_return_gas, sat_ret.
    cbn. rewrite (u64_small (g - _ + _)) by lia. rewrite u64_small by (destruct (Hb Htw); lia).
    unfold charges, fee_for in *. cbn in *. split_and!; try done; try lia.
    + intros _. split_and!; try done; try lia. destruct (Hb Htw); lia.
    + intros _ _. unfold reserve in *. cbn in *. lia.
  - apply sat_bind, sat_ret. cbn [negb]. apply sat_bind. eapply sat_mono; [by apply Hd|].
    intros [c err] x' (Hc & Hg' & Hr). cbn [orb]. apply sat_ret. split; [done|].
    intros Hn _. by apply Hr.
Qed.

(** ** Functions with a positive price *)

Ltac pos_go := sat_go; try apply sat_sstore_dirty; sat_go; cbn; intros; try done; try lia.

Lemma pos_gasSStore : dyn_pos zero_size (gasSStore env).
Proof. dyn_intro. unfold gasSStore. pos_go. Qed.

Lemma pos_gasSStoreEIP2200 : dyn_pos zero_size gasSStoreEIP2200.
Proof. dyn_intro. unfold gasSStoreEIP2200. pos_go. Qed.

Lemma pos_makeGasSStoreFunc r : dyn_pos zero_size (makeGasSStoreFunc r).
Proof. dyn_intro. unfold makeGasSStoreFunc. pos_go. Qed.

Lemma pos_gasSLoadEIP2929 : dyn_pos zero_size gasSLoadEIP2929.
Proof. dyn_intro. unfold gasSLoadEIP2929. pos_go. Qed.

Lemma pos_SafeAdd a b : 0 <= a < two64 -> 0 <= b < two64 -> (SafeAdd a b).2 = false ->
  a <= (SafeAdd a b).1 /\ b <= (SafeAdd a b).1.
Proof.
  intros Ha Hb H. destruct (SafeAdd a b) as [r o] eqn:E. cbn in *. subst o.
  apply SafeAdd_ok in E as [-> ?]; [lia|done..].
Qed.

Lemma pos_gasExp b : dyn_pos zero_size (gasExp b).
Proof.
  dyn_intro. unfold gasExp. sat_go. apply sat_gas_checked; [done|]. intros Hs. apply sat_ret.
  intros _. apply pos_SafeAdd in Hs; [|apply u64_range|done]. unfold ExpGas in *. cbn in *. lia.
Qed.

Lemma pos_makeGasLog n : dyn_pos size_ok (makeGasLog n).
Proof.
  dyn_intro. unfold makeGasLog. sat_go. apply sat_gas_checked; [done|intros _].
  apply sat_gas_try, sat_pureMemoryGascost; [done..|]. intros fee Hfee _. cbn [fst snd].
  apply sat_gas_checked; [done|intros H1]. apply sat_gas_checked; [done|intros H2].
  apply sat_gas_checked; [done|intros _]. apply sat_gas_checked; [done|intros H3].
  apply sat_ret. intros _. cbn [fst].
  apply pos_SafeAdd in H1; [|lia|done]. apply pos_SafeAdd in H2; [|apply SafeAdd_range|apply u64_range].
  apply pos_SafeAdd in H3; [|apply SafeAdd_range|apply u64_range]. unfold LogGas in *. lia.
Qed.

End GasSpecs.
