(* ===== verification/TableSpecs.v ===== *)
(** * The jump tables are well formed

    Every entry of every table declares the stack effect its instruction has,
    and charges for the memory it uses and for the gas it hands to a callee; an
    instruction that does not end the run costs at least one unit of gas. *)

From S2P Require Import Prelude Uint256 Params Stack Memory Analysis Common EvmTypes Contract.
From S2P Require Import Instructions GasTable Opcodes JumpTable EvmLogic OpSpecs GasSpecs.

Create HintDb tables discriminated.
#[global] Hint Constants Opaque : tables.

Section TableSpecs.
Context {U : Uint256} {UL : Uint256Laws U} {C : Crypto}.
Context {S : Type} {I : ibs.IntraBlockState S} {IF : ibs_fueled I} (env : Env S).

#[local] Notation operation := (operation (S:=S)).
#[local] Notation JumpTable := (JumpTable (S:=S)).

(** The sizes an operation passes to its gas function. *)
Definition sizes (o : operation) (size : Z) : Prop :=
  match memorySize o with None => zero_size size | Some _ => size_ok size end.

(** A memory size function reads the stack. *)
Definition reads_stack (m : memorySizeFunc) : Prop := forall st,
  match m st with
  | Done ((size, _), st') => st' = st /\ 0 <= size < two64
  | GoPanic => True
  | NoFuel => False
  end.

(** Opcodes that never use memory, and those whose price is dynamic. *)
Definition no_memory (i : Z) : bool :=
  existsb (Z.eqb i) [SSTORE; SLOAD; BALANCE; EXTCODESIZE; EXTCODEHASH; SELFDESTRUCT; EXP].
Definition by_dynamic (i : Z) : bool :=
  existsb (Z.eqb i) [EXP; SLOAD; SSTORE; LOG0; LOG1; LOG2; LOG3; LOG4].

(** A turn that does not end the run has a price. *)
Definition priced (i : Z) (o : operation) : Prop :=
  1 <= constantGas o \/ halting (execute o) \/
  (by_dynamic i = true /\ exists d, dynamicGas o = Some d /\ dyn_pos (sizes o) d).

Definition op_ok (i : Z) (o : operation) : Prop :=
  exec_ok i (execute o) (numPop o) (numPush o) /\
  match dynamicGas o with
  | Some d => dyn_ok i (sizes o) d
  | None => plain (execute o) (numPop o) (numPush o) /\ memorySize o = None
  end /\
  0 <= constantGas o < two64 /\ priced i o /\
  (no_memory i = true -> memorySize o = None) /\
  match memorySize o with Some m => reads_stack m | None => True end.

(** ** Building operations *)

Lemma op_ok_op i e g a b :
  plain e a b -> 0 <= g < two64 -> 1 <= g \/ halting e -> op_ok i (op e g a b).
Proof.
  intros He Hg Hp. split_and!; cbn; try done; try lia.
  - by apply plain_exec_ok.
  - destruct Hp; [by left | by right; left].
Qed.

Lemma op_ok_push i n e : plain e 0 1 -> op_ok i (push_op n e).
Proof. intros He. split_and!; cbn; try done; [by apply plain_exec_ok | by left]. Qed.

Lemma op_ok_dup i n : op_ok i (dup_op (S:=S) n).
Proof.
  split_and!; cbn; try done; [apply plain_exec_ok, plain_makeDup| |by left].
  split; [apply plain_makeDup | done].
Qed.

Lemma op_ok_swap i n : op_ok i (swap_op (S:=S) n).
Proof.
  split_and!; cbn; try done; [apply plain_exec_ok, plain_makeSwap| |by left].
  split; [apply plain_makeSwap | done].
Qed.

Lemma op_ok_dyn i e g d a b m :
  exec_ok i e a b -> dyn_ok i (sizes (dynop e g d a b m)) d -> 0 <= g < two64 ->
  priced i (dynop e g d a b m) -> (no_memory i = true -> m = None) ->
  match m with Some m => reads_stack m | None => True end -> op_ok i (dynop e g d a b m).
Proof. intros He Hd Hg Hp Hm Hr. split_and!; cbn; try done; lia. Qed.

(** ** Changing operations *)

Lemma dyn_ok_weaken i (P P' : Z -> Prop) (d : gasFunc (S:=S)) : (forall s, P' s -> P s) -> dyn_ok i P d -> dyn_ok i P' d.
Proof. intros HP H size x Hs. apply H. by apply HP. Qed.

Lemma zero_size_ok s : zero_size s -> size_ok s.
Proof. unfold zero_size, size_ok. intros ->. done. Qed.

Lemma sizes_size_ok o s : sizes o s -> size_ok s.
Proof. unfold sizes. destruct (memorySize o); [done | apply zero_size_ok]. Qed.

Lemma op_ok_constantGas i g o : 1 <= g < two64 -> op_ok i o -> op_ok i (set_constantGas g o).
Proof.
  intros Hg (He & Hd & _ & _ & Hm & Hr). split_and!; try done; [cbn; lia..|]. left. cbn. lia.
Qed.

(** Replacing the gas function of an opcode that has a constant price. *)
Lemma op_ok_dynamicGas i d o :
  by_dynamic i = false -> dyn_ok i size_ok d -> op_ok i o -> op_ok i (set_dynamicGas d o).
Proof.
  intros Hi Hd (He & Hdo & [Hc Hc'] & Hp & Hm & Hr). split_and!; try done.
  - cbn. eapply dyn_ok_weaken; [|done]. apply sizes_size_ok.
  - destruct Hp as [?|[?|[? _]]]; [by left | by right; left | congruence].
Qed.

(** The same for an opcode that never uses memory. *)
Lemma op_ok_dynamicGas0 i d o :
  no_memory i = true -> by_dynamic i = false -> dyn_ok i zero_size d -> op_ok i o ->
  op_ok i (set_dynamicGas d o).
Proof.
  intros Hi Hb Hd (He & Hdo & [Hc Hc'] & Hp & Hm & Hr). split_and!; try done.
  - cbn. eapply dyn_ok_weaken; [|done]. intros s Hs. unfold sizes in Hs. cbn in Hs. by rewrite Hm in Hs.
  - destruct Hp as [?|[?|[? _]]]; [by left | by right; left | congruence].
Qed.

(** Replacing a gas function by one with a positive price; the constant may drop
    to zero. *)
Lemma op_ok_dynamic_price i g d o :
  no_memory i = true -> by_dynamic i = true -> dyn_ok i zero_size d -> dyn_pos zero_size d ->
  0 <= g < two64 -> op_ok i o -> op_ok i (set_dynamicGas d (set_constantGas g o)).
Proof.
  intros Hi Hb Hd Hpos [Hg Hg'] (He & Hdo & Hc & Hp & Hm & Hr).
  assert (forall s, sizes (set_dynamicGas d (set_constantGas g o)) s -> zero_size s) as Hs.
  { intros s Hs. unfold sizes in Hs. cbn in Hs. by rewrite Hm in Hs. }
  split_and!; try done.
  - cbn. by eapply dyn_ok_weaken.
  - right. right. split; [done|]. exists d. split; [done|]. intros s x Hz. apply Hpos. by apply Hs.
Qed.

Lemma set_constantGas_id (o : operation) : set_constantGas (constantGas o) o = o.
Proof. by destruct o. Qed.

(** ** Tables *)

Definition table_ok (jt : JumpTable) : Prop :=
  forall i, exists o, jt i = Some o /\ op_ok i o.

Definition filled (jt : JumpTable) : Prop :=
  forall i o, jt i = Some o -> maxStack o = maxStack_ (numPop o) (numPush o).

Definition good_table (r : outcome JumpTable) : Prop :=
  exists jt, r = Done jt /\ table_ok jt /\ filled jt.

Lemma op_ok_valid i o : op_ok i o -> valid_entry (Some o) = true.
Proof.
  intros (_ & Hd & _). cbn. destruct (dynamicGas o); [by destruct (memorySize o)|].
  by destruct Hd as [_ ->].
Qed.

Lemma validate_good jt : table_ok jt -> good_table (validateAndFillMaxStack jt).
Proof.
  intros H. unfold validateAndFillMaxStack, good_table.
  replace (forallb _ all_opcodes) with true.
  - eexists. split; [done|]. split.
    + intros i. destruct (H i) as (o & -> & Ho). cbn. eauto.
    + intros i o Hi. destruct (jt i); [|done]. cbn in Hi. by injection Hi as <-.
  - symmetry. apply forallb_forall. intros i _. destruct (H i) as (o & -> & Ho). by eapply op_ok_valid.
Qed.

Lemma put_ok k o jt : op_ok k o -> table_ok jt -> table_ok (put k o jt).
Proof.
  intros Ho H i. unfold put. destruct (Z.eqb_spec i k) as [->|]; [eauto | by apply H].
Qed.

Lemma alter_ok k f jt :
  (forall o, op_ok k o -> op_ok k (f o)) -> table_ok jt ->
  exists jt', alter_op k f jt = Done jt' /\ table_ok jt'.
Proof.
  intros Hf H. unfold alter_op. destruct (H k) as (o & -> & Ho).
  eexists. split; [done|]. apply put_ok; auto.
Qed.

(** Two updates of the same entry, judged by their composition. *)
Lemma alter_twice_ok k f g jt :
  (forall o, op_ok k o -> op_ok k (g (f o))) -> table_ok jt ->
  exists jt', (alter_op k f jt ≫= alter_op k g) = Done jt' /\ table_ok jt'.
Proof.
  intros Hf H. unfold alter_op. destruct (H k) as (o & -> & Ho). cbn.
  unfold put at 1. rewrite Z.eqb_refl. eexists. split; [done|].
  intros i. unfold put. destruct (Z.eqb_spec i k) as [->|]; [eauto | by apply H].
Qed.

(** ** Memory sizes *)

Lemma calc_range off l : 0 <= (calcMemSize64 off l).1 < two64.
Proof.
  unfold calcMemSize64, calcMemSize64WithUint. destruct (uint256.IsUint64 l); cbn; [|lia].
  destruct (_ =? 0); cbn; [lia|]. destruct (uint256.Uint64WithOverflow off) as [v []]; cbn; [lia|].
  apply u64_range.
Qed.

Lemma calcUint_range off l : 0 <= (calcMemSize64WithUint off l).1 < two64.
Proof.
  unfold calcMemSize64WithUint. destruct (_ =? 0); cbn; [lia|].
  destruct (uint256.Uint64WithOverflow off) as [v []]; cbn; [lia|]. apply u64_range.
Qed.

Lemma Back_same n st : match stack.Back n st with Done (_, st') => st' = st | GoPanic => True | NoFuel => False end.
Proof. destruct (Back_cases st _ n eq_refl) as [->|(v & _ & _ & ->)]; done. Qed.

Lemma reads_memoryBack a b : reads_stack (memoryBack a b).
Proof.
  intros st. unfold memoryBack, mbind, M_bind. pose proof (Back_same a st).
  destruct (stack.Back a st) as [[v st']| |]; [subst st'|done..]. pose proof (Back_same b st).
  destruct (stack.Back b st) as [[w st']| |]; [subst st'|done..].
  pose proof (calc_range v w). cbn. by destruct (calcMemSize64 v w).
Qed.

Lemma reads_memoryBackUint a b : reads_stack (memoryBackUint a b).
Proof.
  intros st. unfold memoryBackUint, mbind, M_bind. pose proof (Back_same a st).
  destruct (stack.Back a st) as [[v st']| |]; [subst st'|done..].
  pose proof (calcUint_range v b). cbn. by destruct (calcMemSize64WithUint v b).
Qed.

Lemma reads_memoryMax m m' : reads_stack m -> reads_stack m' -> reads_stack (memoryMax m m').
Proof.
  intros H H' st. unfold memoryMax, mbind, M_bind. specialize (H st).
  destruct (m st) as [[[v []] st']| |]; [|destruct H as [-> ?]|done..]; [by destruct H|].
  specialize (H' st). destruct (m' st) as [[[w []] st']| |]; [|destruct H' as [-> ?]|done..];
    [by destruct H'|]. cbn. by destruct (w <? v).
Qed.

(** ** The Frontier table *)

Lemma literal_ok l : Forall (fun ko => op_ok ko.1 ko.2) l ->
  forall i o, literal l i = Some o -> op_ok i o.
Proof.
  induction 1 as [|[k o] l Hko _ IH]; cbn; intros i o' Hi; [done|].
  unfold put in Hi. destruct (Z.eqb_spec i k) as [->|]; [by injection Hi as <- | by apply IH].
Qed.

Lemma undefined_ok i : op_ok i (op opUndefined 0 0 0).
Proof. apply op_ok_op; [apply plain_opUndefined | done | right; apply halting_opUndefined]. Qed.

Hint Resolve plain_opNot plain_opIszero plain_opAddmod plain_opMulmod plain_opKeccak256
  plain_opAddress plain_opBalance plain_opOrigin plain_opCaller plain_opCallValue
  plain_opCallDataLoad plain_opCallDataSize plain_opCallDataCopy plain_opReturnDataSize
  plain_opReturnDataCopy plain_opExtCodeSize plain_opCodeSize plain_opCodeCopy plain_opExtCodeCopy
  plain_opExtCodeHash plain_opGasprice plain_opBlockhash plain_opCoinbase plain_opTimestamp
  plain_opNumber plain_opDifficulty plain_opGasLimit plain_opPop plain_opMload plain_opMstore
  plain_opMstore8 plain_opSload plain_opSstore plain_opJump plain_opJumpi plain_opJumpdest
  plain_opPc plain_opMsize plain_opGas plain_opReturn plain_opRevert plain_opStop
  plain_opSelfdestruct plain_opPush1 plain_makePush plain_opSelfBalance plain_opChainID
  plain_opBaseFee plain_opPush0 plain_binop plain_makeLog
  halting_opReturn halting_opRevert halting_opStop halting_opSelfdestruct
  exec_opCall exec_opCallCode exec_opDelegateCall exec_opStaticCall exec_opCreate exec_opCreate2
  dyn_gasSStore dyn_gasSelfdestruct dyn_gasExp dyn_pureMemoryGascost dyn_memoryCopierGas
  dyn_makeGasLog dyn_gasKeccak256 dyn_gasCreate2
  dyn_gasCall dyn_gasCallCode dyn_gasDelegateCall dyn_gasStaticCall
  pos_gasSStore pos_gasExp pos_makeGasLog : tables.

Hint Extern 1 (reads_stack _) => first [apply reads_memoryBack | apply reads_memoryBackUint
  | apply reads_memoryMax; apply reads_memoryBack] : tables.

Ltac find_plain :=
  lazymatch goal with
  | |- plain (makeLog _ ?n) _ _ => exact (plain_makeLog env n)
  | |- _ => first [solve [eauto with tables nocore] | apply plain_binop]
  end.
Ltac find_exec := first [solve [eauto with tables nocore] | apply plain_exec_ok; find_plain].
Ltac name_sizes :=
  match goal with |- context [sizes ?o] =>
    first [change (sizes o) with zero_size | change (sizes o) with size_ok] end.
Ltac find_dyn :=
  name_sizes;
  unfold gasReturn, gasRevert, gasMLoad, gasMStore8, gasMStore, gasCreate, gasExpFrontier,
    gasCallDataCopy, gasCodeCopy, gasExtCodeCopy, gasReturnDataCopy;
  first [apply (dyn_call_ok env); solve [eauto with tables nocore]
        | apply dyn_plain_ok; [by apply no_reserve_intro | solve [eauto with tables nocore]]].
Ltac find_price :=
  first [left; cbn; done | right; left; cbn [execute dynop]; solve [eauto with tables nocore]
        | right; right; split; [done|]; eexists; split; [done|]; name_sizes; unfold gasExpFrontier;
          solve [eauto with tables nocore]].

(** An entry written as a literal. *)
Ltac entry :=
  lazymatch goal with
  | |- op_ok _ (op _ _ _ _) =>
      apply op_ok_op; [find_plain | done | first [left; done | right; solve [eauto with tables nocore]]]
  | |- op_ok _ (push_op _ _) => apply op_ok_push; find_plain
  | |- op_ok _ (dup_op _) => apply op_ok_dup
  | |- op_ok _ (swap_op _) => apply op_ok_swap
  | |- op_ok _ (dynop _ _ _ _ _ _) => apply op_ok_dyn; [find_exec | find_dyn | done | find_price | done
        | first [exact Logic.I | solve [eauto with tables nocore]]]
  end.

Ltac entries :=
  repeat lazymatch goal with
  | |- Forall _ (_ :: _) => apply Forall_cons_2; [cbn [fst snd]; entry|]
  | |- Forall _ [] => apply Forall_nil_2
  end.

Lemma frontier_arith_ok : Forall (fun ko => op_ok ko.1 ko.2) frontier_arith.
Proof. unfold frontier_arith. entries. Qed.

Lemma frontier_environment_ok : Forall (fun ko => op_ok ko.1 ko.2) (frontier_environment env).
Proof. unfold frontier_environment. entries. Qed.

Lemma frontier_flow_ok : Forall (fun ko => op_ok ko.1 ko.2) (frontier_flow env).
Proof. unfold frontier_flow. entries. Qed.

Lemma frontier_push_ok : Forall (fun ko => op_ok ko.1 ko.2) (frontier_push_low ++ frontier_push_high).
Proof. unfold frontier_push_low, frontier_push_high. cbn [app]. entries. Qed.

Lemma frontier_dup_swap_ok : Forall (fun ko => op_ok ko.1 ko.2) (frontier_dup ++ frontier_swap (S:=S)).
Proof. unfold frontier_dup, frontier_swap. cbn [app]. entries. Qed.

Lemma frontier_system_ok : Forall (fun ko => op_ok ko.1 ko.2) (frontier_system env).
Proof. unfold frontier_system. entries. Qed.

Lemma frontier_literal_ok : Forall (fun ko => op_ok ko.1 ko.2) (frontier_literal env).
Proof.
  pose proof frontier_push_ok as Hp. pose proof frontier_dup_swap_ok as Hd.
  apply Forall_app in Hp as [? ?]. apply Forall_app in Hd as [? ?].
  unfold frontier_literal. repeat (apply Forall_app_2; [auto using frontier_arith_ok,
    frontier_environment_ok, frontier_flow_ok|]). apply frontier_system_ok.
Qed.

Lemma frontier_good : good_table (newFrontierInstructionSet env).
Proof.
  apply validate_good. intros i. unfold fill_undefined.
  destruct (literal (frontier_literal env) i) as [o|] eqn:E.
  - exists o. split; [done|]. by eapply literal_ok; [apply frontier_literal_ok|].
  - eexists. split; [done|]. apply undefined_ok.
Qed.

(** ** The later tables *)

(** One more layer on a good table. *)
Lemma good_table_bind r k :
  good_table r -> (forall jt, table_ok jt -> good_table (k jt)) -> good_table (r ≫= k).
Proof. intros (jt & -> & H & _) Hk. by apply Hk. Qed.

Lemma homestead_good : good_table (newHomesteadInstructionSet env).
Proof.
  apply good_table_bind; [apply frontier_good|]. intros jt H. apply validate_good, put_ok; [entry | done].
Qed.

Lemma alters_ok l jt :
  Forall (fun kf => forall o, op_ok kf.1 o -> op_ok kf.1 (kf.2 o)) l ->
  table_ok jt -> exists jt', alter_ops l jt = Done jt' /\ table_ok jt'.
Proof.
  intros Hl. revert jt. induction Hl as [|[k f] l Hf _ IH]; intros jt H; cbn; [eauto|].
  destruct (alter_ok k f jt Hf H) as (jt' & -> & H'). cbn. by apply IH.
Qed.

Ltac changes :=
  repeat lazymatch goal with
  | |- Forall _ (_ :: _) => apply Forall_cons_2; [cbn [fst snd]; intros o Ho|]
  | |- Forall _ [] => apply Forall_nil_2
  end.

Lemma tangerine_good : good_table (newTangerineWhistleInstructionSet env).
Proof.
  apply good_table_bind; [apply homestead_good|]. intros jt H.
  edestruct alters_ok as (jt' & -> & H'); [|exact H|by apply validate_good].
  changes; by apply op_ok_constantGas.
Qed.

Lemma spurious_good : good_table (newSpuriousDragonInstructionSet env).
Proof.
  apply good_table_bind; [apply tangerine_good|]. intros jt H.
  edestruct (alter_ok EXP) as (jt' & -> & H'); [|exact H|by apply validate_good].
  intros o Ho. rewrite <- (set_constantGas_id o). destruct Ho as (? & ? & Hc & ?) eqn:E.
  apply op_ok_dynamic_price; try done; [|apply pos_gasExp].
  apply dyn_plain_ok; [by apply no_reserve_intro | apply dyn_gasExp].
Qed.

Lemma byzantium_good : good_table (newByzantiumInstructionSet env).
Proof.
  apply good_table_bind; [apply spurious_good|]. intros jt H. apply validate_good.
  repeat (apply put_ok; [entry|]). done.
Qed.

Lemma constantinople_good : good_table (newConstantinopleInstructionSet env).
Proof.
  apply good_table_bind; [apply byzantium_good|]. intros jt H. apply validate_good.
  repeat (apply put_ok; [entry|]). done.
Qed.

(** ** EIPs *)

(** An update that keeps the tables good. *)
Definition keeps (f : JumpTable -> outcome JumpTable) : Prop :=
  forall jt, table_ok jt -> exists jt', f jt = Done jt' /\ table_ok jt'.

Lemma keeps_bind f k : keeps f -> keeps k -> keeps (fun jt => f jt ≫= k).
Proof. intros Hf Hk jt H. destruct (Hf jt H) as (jt' & -> & H'). by apply Hk. Qed.

Lemma keeps_validate f jt :
  keeps f -> table_ok jt -> good_table (f jt ≫= validateAndFillMaxStack).
Proof. intros Hf H. destruct (Hf jt H) as (jt' & -> & H'). by apply validate_good. Qed.

Lemma keeps_alters l :
  Forall (fun kf => forall o, op_ok kf.1 o -> op_ok kf.1 (kf.2 o)) l ->
  keeps (alter_ops l).
Proof. intros Hl jt. by apply alters_ok. Qed.

Lemma keeps_put k o : op_ok k o -> keeps (fun jt => Done (put k o jt)).
Proof. intros Ho jt H. eexists. split; [done|]. by apply put_ok. Qed.

Lemma keeps_1344 : keeps (enable1344 env).
Proof. apply keeps_put. entry. Qed.

Lemma keeps_1884 : keeps enable1884.
Proof.
  apply keeps_bind; [apply keeps_alters; changes; by apply op_ok_constantGas | apply keeps_put; entry].
Qed.

(** SSTORE and SLOAD: never memory, always a price. *)
Lemma op_ok_storage i d o :
  no_memory i = true -> by_dynamic i = true -> no_reserve i -> dyn_plain zero_size d ->
  dyn_pos zero_size d -> op_ok i o -> op_ok i (set_dynamicGas d o).
Proof.
  intros Hi Hb Hr Hd Hp Ho. rewrite <- (set_constantGas_id o).
  apply op_ok_dynamic_price; try done; [by apply dyn_plain_ok | apply Ho].
Qed.

Lemma keeps_2200 : keeps enable2200.
Proof.
  apply keeps_alters. changes; [by apply op_ok_constantGas|].
  apply op_ok_storage; try done; [exact dyn_gasSStoreEIP2200
    | exact pos_gasSStoreEIP2200].
Qed.

Lemma keeps_3198 : keeps (enable3198 env).
Proof. apply keeps_put. entry. Qed.

Lemma keeps_3855 : keeps enable3855.
Proof. apply keeps_put. entry. Qed.

Lemma keeps_3860 : keeps enable3860.
Proof.
  apply keeps_alters. changes; (apply op_ok_dynamicGas; [done| |done]);
    (apply dyn_plain_ok; [by apply no_reserve_intro | exact (dyn_gasInitCode _)]).
Qed.

Lemma keeps_3529 : keeps enable3529.
Proof.
  apply keeps_alters. changes.
  - apply op_ok_storage; try done; [exact (dyn_makeGasSStoreFunc _)
      | exact (pos_makeGasSStoreFunc _)].
  - apply op_ok_dynamicGas0; try done. apply dyn_plain_ok; [by apply no_reserve_intro|].
    exact (dyn_makeSelfdestructGasFn _).
Qed.

Lemma op_ok_warm i d o :
  by_dynamic i = false -> dyn_ok i size_ok d -> op_ok i o -> op_ok i (warm_op d o).
Proof. intros Hi Hd Ho. apply op_ok_dynamicGas; [done..|]. by apply op_ok_constantGas. Qed.

Lemma op_ok_warm0 i d o :
  no_memory i = true -> by_dynamic i = false -> no_reserve i -> dyn_plain zero_size d -> op_ok i o ->
  op_ok i (warm_op d o).
Proof.
  intros Hm Hi Hr Hd Ho. apply op_ok_dynamicGas0; [done..|by apply dyn_plain_ok|].
  by apply op_ok_constantGas.
Qed.

Lemma keeps_app l l' : keeps (alter_ops l) -> keeps (alter_ops l') -> keeps (alter_ops (l ++ l')).
Proof.
  intros Hl Hl' jt H. destruct (Hl jt H) as (jt' & E & H'). destruct (Hl' jt' H') as (jt2 & E2 & H2).
  exists jt2. split; [|done]. clear -E E2. revert jt E. induction l as [|[k f] l IH]; cbn; intros jt E.
  - by injection E as ->.
  - destruct (alter_op k f jt); cbn in *; [by apply IH | done..].
Qed.

Lemma keeps_twice k f g :
  (forall o, op_ok k o -> op_ok k (g (f o))) -> keeps (alter_ops [(k, f); (k, g)]).
Proof.
  intros Hfg jt H. destruct (alter_twice_ok k f g jt Hfg H) as (jt' & E & H').
  exists jt'. split; [|done]. cbn. destruct (alter_op k f jt); cbn in *; [by rewrite E | done..].
Qed.

Lemma keeps_2929 : IsTangerineWhistle (rules env) = true -> keeps (enable2929 env).
Proof.
  intros Htw. apply (keeps_app [_]); [|apply (keeps_app [_; _])].
  - apply keeps_alters. changes. apply op_ok_storage; try done; [exact (dyn_makeGasSStoreFunc _) | exact (pos_makeGasSStoreFunc _)].
  - apply keeps_twice. intros o Ho.
    apply (op_ok_dynamic_price _ 0); try done; [|exact pos_gasSLoadEIP2929].
    apply dyn_plain_ok; [by apply no_reserve_intro | exact dyn_gasSLoadEIP2929].
  - apply keeps_alters. changes.
    + apply op_ok_warm; try done. apply dyn_plain_ok; [by apply no_reserve_intro|].
      exact dyn_gasExtCodeCopyEIP2929.
    + apply op_ok_warm0; try done; [exact dyn_gasEip2929AccountCheck].
    + apply op_ok_warm0; try done; [exact dyn_gasEip2929AccountCheck].
    + apply op_ok_warm0; try done; [exact dyn_gasEip2929AccountCheck].
    + apply op_ok_warm; try done. apply (dyn_makeCallVariant env); [done | apply dyn_gasCall].
    + apply op_ok_warm; try done. apply (dyn_makeCallVariant env); [done | apply dyn_gasCallCode].
    + apply op_ok_warm; try done. apply (dyn_makeCallVariant env); [done | apply dyn_gasStaticCall].
    + apply op_ok_warm; try done. apply (dyn_makeCallVariant env); [done | apply dyn_gasDelegateCall].
    + by apply op_ok_constantGas.
    + apply op_ok_dynamicGas0; try done. apply dyn_plain_ok; [by apply no_reserve_intro|].
      exact (dyn_makeSelfdestructGasFn _).
Qed.

(** Every table but those from Berlin on is good whatever the rules; the EIP-2929
    prices rely on the EIP-150 rule. *)
Lemma istanbul_good : good_table (newIstanbulInstructionSet env).
Proof.
  apply good_table_bind; [apply constantinople_good|]. intros jt H.
  destruct (keeps_1344 jt H) as (jt1 & -> & H1). cbn [mbind outcome_bind].
  destruct (keeps_1884 jt1 H1) as (jt2 & -> & H2). cbn [mbind outcome_bind]. by apply keeps_validate; [apply keeps_2200|].
Qed.

Context (Htw : IsTangerineWhistle (rules env) = true).

Lemma berlin_good : good_table (newBerlinInstructionSet env).
Proof.
  apply good_table_bind; [apply istanbul_good|]. intros jt H. by apply keeps_validate; [apply keeps_2929|].
Qed.

Lemma london_good : good_table (newLondonInstructionSet env).
Proof.
  apply good_table_bind; [apply berlin_good|]. intros jt H.
  destruct (keeps_3529 jt H) as (jt1 & -> & H1). cbn [mbind outcome_bind]. by apply keeps_validate; [apply keeps_3198|].
Qed.

Lemma shanghai_good : good_table (newShanghaiInstructionSet env).
Proof.
  apply good_table_bind; [apply london_good|]. intros jt H.
  destruct (keeps_3855 jt H) as (jt1 & -> & H1). cbn [mbind outcome_bind]. by apply keeps_validate; [apply keeps_3860|].
Qed.

Lemma cancun_good : good_table (newCancunInstructionSet env).
Proof. apply good_table_bind; [apply shanghai_good | apply validate_good]. Qed.

Lemma prague_good : good_table (newPragueInstructionSet env).
Proof. apply good_table_bind; [apply cancun_good | apply validate_good]. Qed.

End TableSpecs.
