(* ===== verification/GasSafety.v ===== *)
(** * Gas and termination of the machine

    From the facts about single instructions ([OpSpecs.v]), gas functions
    ([GasSpecs.v]) and tables ([TableSpecs.v]): a turn of the loop pays before it
    works and never lifts the gas, every turn but the last costs something, so
    the loop ends; a call gives back at most what it was given and restores the
    depth and the read-only flag. *)

From S2P Require Import Prelude Uint256 Params Stack Memory Analysis Common EvmTypes Contract.
From S2P Require Import Instructions GasTable Opcodes JumpTable Rlp Contracts Interpreter Evm.
From S2P Require Import EvmLogic OpSpecs GasSpecs TableSpecs.

Lemma sat_and {S A} x (m : M (Frame S) A) Q Q' :
  sat x m Q -> sat x m Q' -> sat x m (fun a x' => Q a x' /\ Q' a x').
Proof.
  intros H H' f Hf. specialize (H f Hf). specialize (H' f Hf). by destruct (m f) as [[a f']| |].
Qed.

Lemma sat_resize {S} x size (Q : () -> view -> Prop) :
  mem_ok (with_mem (v_mlen x) (memFee (v_mlen x / 32)) x) -> 0 <= size <= MemLimit ->
  Q () (with_mem (Z.max (v_mlen x) size) (v_mlast x) x) ->
  sat x (on_mem (S:=S) (memory.Resize size)) Q.
Proof.
  intros (_ & Hl & _) Hs H f <-. cbn in *. unfold on_mem, zoom, MemLimit, memory.Len in *.
  rewrite Resize_run by lia. unfold view_of, with_mem, memory.Len in *. cbn in *.
  replace (zlen (_ ++ _)) with (Z.max (zlen (memory.store (Memory_ f))) size) by zlen_lia. apply H.
Qed.

(** The size in whole words passes to the gas function without loss. *)
Lemma word_size_ok n r : 0 <= n < two64 -> SafeMul (ToWordSize n) 32 = (r, false) -> size_ok r.
Proof.
  intros Hn E. destruct (ToWordSize_spec n Hn) as [_ Hw].
  apply SafeMul_ok in E as [-> Hlt]; [|unfold is_u64; lia..].
  split; [lia|]. apply Z.mod_mul. lia.
Qed.

Section Turn.
Context {U : Uint256} {UL : Uint256Laws U} {C : Crypto}.
Context {S : Type} {I : ibs.IntraBlockState S} {IF : ibs_fueled I} (env : Env S).
Context (jt : JumpTable (S:=S)) (Hjt : table_ok jt) (Hfill : filled jt).

#[local] Notation operation := (operation (S:=S)).

(** What is left after the dynamic charge covers the gas reserved for a callee. *)
Definition charged (i : Z) (x : view) (err : option VMError) (x' : view) : Prop :=
  v_stack x' = v_stack x /\ v_depth x' = v_depth x /\ v_ro x' = v_ro x /\
  0 <= v_gas x' <= v_gas x /\
  (err = None -> mem_ok x' /\ 0 <= reserve i x' /\ v_gas x' + reserve i x' <= v_gas x).

(** The memory size of an operation, rounded to words. *)
Definition operation_size (o : operation) : M (Frame S) (Z * bool) :=
  match memorySize o with
  | None => mret (0, false)
  | Some msize =>
      '(memSize, overflow) ← on_stack msize;
      if overflow : bool then mret (0, true) else mret (SafeMul (ToWordSize memSize) 32)
  end.

Lemma sat_operation_size i o x (Q : Z * bool -> view -> Prop) :
  op_ok i o -> (forall n, Q (n, true) x) -> (forall n, sizes o n -> Q (n, false) x) ->
  sat x (operation_size o) Q.
Proof.
  intros (_ & _ & _ & _ & _ & Hr) H1 H2. unfold operation_size, sizes in *.
  destruct (memorySize o) as [ms|]; [|apply sat_ret; by apply H2].
  apply sat_bind, sat_on_stack. intros st Hst. specialize (Hr st).
  destruct (ms st) as [[[n ov] st']| |]; [|done..]. destruct Hr as [-> Hn]. rewrite Hst.
  replace (with_stack _ x) with x by by destruct x.
  destruct ov; apply sat_ret; [apply H1|].
  destruct (SafeMul (ToWordSize n) 32) as [r []] eqn:E; [apply H1|].
  by eapply H2, word_size_ok.
Qed.

Lemma mem_ok_paid x x' size :
  mem_ok x -> size_ok size -> v_mlen x' = v_mlen x -> v_mlast x' = fee_for size x -> size <= MemLimit ->
  mem_ok (with_mem (Z.max (v_mlen x') size) (v_mlast x') x').
Proof.
  intros (H1 & H2 & H3) (Hs & Hs') E1 E2 Hlim. unfold mem_ok, fee_for in *. cbn. rewrite E1, E2.
  split_and!; try done; try lia. destruct (Z.max_spec (v_mlen x) size) as [[_ ->]|[_ ->]]; done.
Qed.

(** The rest of the dynamic charge, for a known size. *)
Lemma sat_pay i (d : gasFunc (S:=S)) x size (P : Z -> Prop) :
  size_ok size -> P size -> dyn_ok i P d -> mem_ok x -> 0 <= v_gas x < two64 ->
  sat x ('(dynamicCost, err) ← d size;
         match err with
         | Some _ => mret (Some ErrOutOfGas)
         | None =>
             paid ← use_gas dynamicCost;
             if negb paid then mret (Some ErrOutOfGas) else
             _ ← (if 0 <? size then on_mem (memory.Resize size) else mret ());
             mret None
         end)
    (fun err x' => charged i x err x' /\
       (dyn_pos P d -> no_reserve i -> err = None -> v_gas x' < v_gas x)).
Proof.
  intros Hsz HP Hd Hm Hg. apply sat_bind.
  assert (sat x (d size) (fun r _ => dyn_pos P d -> r.2 = None -> 1 <= r.1)) as Hpos.
  { intros f Hf. specialize (Hd size x HP Hm Hg f Hf). destruct (d size f) as [[a f']| |] eqn:E; [|done..].
    intros Hp. specialize (Hp size x HP Hm Hg f Hf). by rewrite E in Hp. }
  eapply sat_mono; [exact (sat_and _ _ _ _ (Hd size x HP Hm Hg) Hpos)|].
  intros [c [e|]] x' [[(E1 & E2 & E3 & E4 & Hg' & Hc) Hr] Hp]; cbn in *.
  { apply sat_ret. unfold charged. split; [|done]. split_and!; try done; lia. }
  destruct (Hc eq_refl) as (Egas & Hcost & Hlim & Hlast). clear Hc.
  apply sat_bind, sat_use_gas; intros Hpay; cbn.
  { apply sat_ret. unfold charged. split; [|done]. split_and!; try done; lia. }
  rewrite u64_small by lia. pose proof (Hr eq_refl ltac:(lia)) as Hres.
  pose proof (mem_ok_paid _ _ _ Hm Hsz E4 Hlast Hlim) as Hm'.
  apply sat_bind. destruct (Z.ltb_spec 0 size) as [Hpos0|Hzero].
  - apply sat_resize; cbn; [|destruct Hsz; lia|].
    { destruct Hm as (? & ? & _). unfold mem_ok. cbn. rewrite E4. done. }
    apply sat_ret. unfold charged. cbn. split.
    + split_and!; try done; try lia. intros _. unfold reserve in *. cbn. split_and!; try done; lia.
    + intros Hd1 Hn _. pose proof (Hp Hd1 eq_refl). lia.
  - apply sat_ret, sat_ret. unfold charged. cbn. split.
    + split_and!; try done; try lia. intros _. rewrite Z.max_l in Hm' by (destruct Hm as (_ & ? & _); lia).
      unfold reserve in *. cbn. split_and!; try apply Hm'; try done; lia.
    + intros Hd1 Hn _. pose proof (Hp Hd1 eq_refl). lia.
Qed.

Lemma sat_charge i (o : operation) d x :
  op_ok i o -> dynamicGas o = Some d -> mem_ok x -> 0 <= v_gas x < two64 ->
  sat x (charge_dynamic o d) (fun err x' => charged i x err x' /\
    (dyn_pos (sizes o) d -> no_reserve i -> err = None -> v_gas x' < v_gas x)).
Proof.
  intros Ho Hdy Hm Hg. unfold charge_dynamic. fold (operation_size o).
  apply sat_bind. eapply sat_operation_size; [done| |].
  - intros n. apply sat_ret. unfold charged. split; [|done]. split_and!; try done; lia.
  - intros n Hn. destruct Ho as (_ & Hd & _). rewrite Hdy in Hd.
    apply sat_pay; try done. by eapply sizes_size_ok.
Qed.

(** ** One turn *)

Definition turn_ok (x : view) (r : bytes * option VMError) (x' : view) : Prop :=
  v_depth x' = v_depth x /\ v_ro x' = v_ro x /\ 0 <= v_gas x' <= v_gas x /\
  (r.2 = None -> v_gas x' < v_gas x /\ mem_ok x' /\ zlen (v_stack x') <= StackLimit).

Lemma sat_fail x e : 0 <= v_gas x -> sat x (fail (S:=S) e) (turn_ok x).
Proof. intros Hg. apply sat_ret. unfold turn_ok. split_and!; try done; lia. Qed.

Lemma by_dynamic_no_reserve i : by_dynamic i = true -> no_reserve i.
Proof.
  intros H. apply no_reserve_intro. unfold by_dynamic in H. cbn in H.
  repeat (apply orb_prop in H as [H%Z.eqb_eq|H]; [by subst i|]). done.
Qed.

(** The instruction itself, after the payment of [paid] units. *)
Lemma sat_execute N (calls : Calls S) i o x x1 :
  op_ok i o -> maxStack o = maxStack_ (numPop o) (numPush o) ->
  calls_ok N (v_depth x) calls -> N <= two64 -> 0 <= v_gas x < N ->
  zlen (v_stack x) <= maxStack o ->
  v_stack x1 = v_stack x -> v_depth x1 = v_depth x -> v_ro x1 = v_ro x -> mem_ok x1 ->
  0 <= v_gas x1 -> 0 <= reserve i x1 -> v_gas x1 + reserve i x1 <= v_gas x ->
  (v_gas x1 + reserve i x1 < v_gas x \/ halting (execute o)) ->
  sat x1 (execute o calls) (turn_ok x).
Proof.
  intros (He & _) Hmax Hc HN Hg Hst E1 E2 E3 Hm H0 Hr Hle Hlt.
  assert (sat x1 (execute o calls) (fun r _ => v_gas x1 + reserve i x1 < v_gas x \/ r.2 <> None)) as Hh.
  { destruct Hlt as [Hlt|Hh]; [|eapply sat_mono; [apply Hh|]; auto].
    rewrite <- E2 in Hc. eapply sat_mono; [apply (He N); [done..|lia]|]. auto. }
  rewrite <- E2 in Hc. eapply sat_mono; [exact (sat_and _ _ _ _ (He N calls x1 Hc HN H0 Hr ltac:(lia)) Hh)|].
  intros r x' [(F1 & F2 & F3 & F4 & Hg' & Hs) Hend]. unfold turn_ok.
  split_and!; try congruence; try lia. intros Hn. split; [destruct Hend; [lia|done]|].
  split; [unfold mem_ok in *; by rewrite F3, F4|].
  rewrite (Hs Hn), E1. unfold maxStack_ in *. lia.
Qed.

Lemma sat_dynamic N (calls : Calls S) i o x :
  op_ok i o -> maxStack o = maxStack_ (numPop o) (numPush o) ->
  calls_ok N (v_depth x) calls -> N <= two64 -> mem_ok x -> 0 <= v_gas x < N ->
  zlen (v_stack x) <= maxStack o ->
  constantGas o <= v_gas x ->
  sat (with_gas (v_gas x - constantGas o) x)
    (err ← match dynamicGas o with
           | None => mret None
           | Some dyn => charge_dynamic o dyn
           end;
     match err with
     | Some e => fail e
     | None => execute o calls
     end) (turn_ok x).
Proof.
  intros Ho Hmax Hc HN Hm Hg Hst Hpay. pose proof Ho as (_ & Hd & Hcg & Hp & _).
  destruct (dynamicGas o) as [d|] eqn:Ed; apply sat_bind.
  - eapply sat_mono; [by eapply (sat_charge i o d); [| |apply Hm|cbn; lia]|].
    intros [e|] x1 [(E1 & E2 & E3 & E4 & Hch) Hpos]; cbn in *.
    + apply sat_ret. unfold turn_ok. split_and!; try done; lia.
    + destruct (Hch eq_refl) as (Hm1 & Hr & Hle).
      eapply (sat_execute N); try done; try lia.
      destruct Hp as [Hp|[Hp|(Hb & d' & E' & Hp)]]; [left; lia | by right | left].
      rewrite Ed in E'. injection E' as <-.
      pose proof (by_dynamic_no_reserve i Hb) as Hnr. rewrite Hnr in *.
      pose proof (Hpos Hp Hnr eq_refl). lia.
  - apply sat_ret. destruct Hd as [Hpl _].
    assert (sat (with_gas (v_gas x - constantGas o) x) (execute o calls)
      (fun r _ => constantGas o = 0 -> r.2 <> None)) as Hh.
    { destruct Hp as [Hp|[Hp|(_ & d' & ? & _)]]; [|eapply sat_mono; [apply Hp|]; auto|congruence].
      eapply sat_mono; [apply Hpl|]. cbn. intros; lia. }
    eapply sat_mono; [exact (sat_and _ _ _ _ (Hpl calls _) Hh)|].
    intros r x' [[(E1 & E2 & E3 & E4 & E5) Hs] Hz]. cbn in *. unfold turn_ok.
    split_and!; try done; try lia. intros Hn. split; [|split].
    + destruct (decide (constantGas o = 0)) as [E|E]; [by destruct (Hz E)|lia].
    + unfold mem_ok in *. by rewrite E4, E5.
    + rewrite (Hs Hn). unfold maxStack_ in *. lia.
Qed.

Lemma sat_step_turn N (calls : Calls S) x :
  calls_ok N (v_depth x) calls -> N <= two64 -> mem_ok x -> 0 <= v_gas x < N ->
  sat x (step jt calls) (turn_ok x).
Proof.
  intros Hc HN Hm Hg f Hf. unfold step, mbind at 1, M_bind at 1, get. cbv beta iota.
  revert f Hf. enough (forall f, view_of f = x -> sat x
    (operation ← must (jt (GetOp (Contract_ f) (pc f)));
     if stack.Len (Stack_ f) <? numPop operation
     then fail (ErrStackUnderflow (stack.Len (Stack_ f)) (numPop operation))
     else if maxStack operation <? stack.Len (Stack_ f)
     then fail (ErrStackOverflow (stack.Len (Stack_ f)) (maxStack operation)) else
     paid ← use_gas (constantGas operation);
     if negb paid then fail ErrOutOfGas else
     err ← match dynamicGas operation with
           | None => mret None
           | Some dyn => charge_dynamic operation dyn
           end;
     match err with
     | Some e => fail e
     | None => execute operation calls
     end) (turn_ok x)) as H by (intros f Hf; exact (H f Hf f Hf)).
  intros f Hf. apply sat_bind, sat_must. intros o Ho.
  destruct (Hjt (GetOp (Contract_ f) (pc f))) as (o' & E & Hok). rewrite Ho in E. injection E as <-.
  assert (stack.Len (Stack_ f) = zlen (v_stack x)) as HL.
  { subst x. cbn. unfold stack.Len. by rewrite zlen_rev. }
  destruct (_ <? numPop o); [apply sat_fail; lia|].
  destruct (Z.ltb_spec (maxStack o) (stack.Len (Stack_ f))); [apply sat_fail; lia|].
  apply sat_bind, sat_use_gas; intros Hpay; [apply sat_fail; lia|]. cbn [negb].
  pose proof Hok as (_ & _ & Hcg & _). rewrite u64_small by lia.
  eapply sat_dynamic; try done; [by eapply Hfill | lia].
Qed.
End Turn.

(** ** The loop *)

Section Machine.
Context {U : Uint256} {UL : Uint256Laws U} {C : Crypto} {NC : Native}.
Context {S : Type} {I : ibs.IntraBlockState S} {IF : ibs_fueled I} (env : Env S).
Context (jt : JumpTable (S:=S)) (Hjt : table_ok jt) (Hfill : filled jt).

(** What the transfer functions of the block context promise. *)
Class transfers_fueled : Prop := {
  fueled_CanTransfer a v : fueled (CanTransfer (context env) a v);
  fueled_Transfer a b v f : fueled (Transfer (context env) a b v f)
}.
Context {TF : transfers_fueled}.
#[local] Hint Resolve fueled_CanTransfer fueled_Transfer : fueled.

Lemma sat_poll x steps (Q : bool -> view -> Prop) : (forall b, Q b x) -> sat x (poll env steps) Q.
Proof.
  intros H f <-. unfold poll. destruct (_ =? 0); cbn; apply H.
Qed.

Lemma sat_run_loop N (calls : Calls S) fuel : forall steps res x,
  calls_ok N (v_depth x) calls -> N <= two64 -> mem_ok x -> 0 <= v_gas x < N ->
  v_gas x < Z.of_nat fuel ->
  sat x (run_loop env jt fuel calls steps res) (fun _ x' =>
    v_depth x' = v_depth x /\ v_ro x' = v_ro x /\ 0 <= v_gas x' <= v_gas x).
Proof.
  induction fuel as [|fuel IH]; intros steps res x Hc HN Hm Hg Hf; [lia|].
  apply sat_bind, sat_poll. intros []; [apply sat_ret; split_and!; done || lia|].
  apply sat_bind. eapply sat_mono; [by eapply sat_step_turn|].
  intros [res' err] x' (E1 & E2 & Hg' & Hgo). destruct err as [e|].
  - destruct e; apply sat_ret; split_and!; done || lia.
  - destruct (Hgo eq_refl) as (Hlt & Hm' & _). apply sat_bind, sat_set_pc.
    eapply sat_mono; [apply IH; rewrite ?E1; done || lia|].
    cbn. intros _ x2 (F1 & F2 & F3). split_and!; congruence || lia.
Qed.

(** ** Operations of the machine outside a frame *)

Definition vsat {A} (d : Z) (ro : bool) (m : M (VM S) A) (Q : A -> Prop) : Prop := forall e,
  depth e = d -> readOnly e = ro ->
  match m e with
  | Done (a, e') => depth e' = d /\ readOnly e' = ro /\ Q a
  | GoPanic => True
  | NoFuel => False
  end.

Lemma vsat_mono {A} d ro (m : M (VM S) A) (Q Q' : A -> Prop) :
  vsat d ro m Q -> (forall a, Q a -> Q' a) -> vsat d ro m Q'.
Proof.
  intros H HQ e E1 E2. specialize (H e E1 E2). destruct (m e) as [[a e']| |]; [|done..].
  destruct H as (? & ? & ?). auto.
Qed.

Lemma vsat_bind {A B} d ro (m : M (VM S) A) (k : A -> M (VM S) B) Q :
  vsat d ro m (fun a => vsat d ro (k a) Q) -> vsat d ro (m ≫= k) Q.
Proof.
  intros H e E1 E2. specialize (H e E1 E2). unfold mbind, M_bind.
  destruct (m e) as [[a e']| |]; [|done..]. destruct H as (F1 & F2 & H). by apply H.
Qed.

Lemma vsat_ret {A} d ro (a : A) (Q : A -> Prop) : Q a -> vsat d ro (mret a) Q.
Proof. by intros H e E1 E2. Qed.

Lemma vsat_must {A} d ro (o : option A) (Q : A -> Prop) :
  (forall a, o = Some a -> Q a) -> vsat d ro (must o) Q.
Proof. intros H e E1 E2. destruct o; [cbn; auto | done]. Qed.

Lemma vsat_on_ibs {A} d ro (m : M S A) (Q : A -> Prop) :
  fueled m -> (forall a, Q a) -> vsat d ro (on_ibs m) Q.
Proof.
  intros Hm H e E1 E2. unfold on_ibs, zoom. specialize (Hm (intraBlockState e)).
  destruct (m (intraBlockState e)) as [[a t]| |]; cbn; auto.
Qed.

Lemma vsat_depth d ro (Q : Z -> Prop) : Q d -> vsat d ro (gets depth) Q.
Proof. intros H e E1 E2. cbn. by rewrite E1. Qed.

Lemma vsat_NewContract d ro c a v g b (Q : Contract -> Prop) :
  (forall c', Gas c' = g -> Q c') -> vsat d ro (NewContract c a v g b) Q.
Proof. intros H e E1 E2. unfold NewContract. destruct c; cbn; split_and!; done || by apply H. Qed.

Lemma vsat_outcome {A} d ro (o : outcome A) (Q : A -> Prop) :
  o <> NoFuel -> (forall a, Q a) -> vsat d ro (outcome_to_M o) Q.
Proof. intros Ho H e E1 E2. destruct o; cbn; auto. Qed.

Lemma vsat_returns {A} d g rest (m : M (VM S) A) :
  (forall ro, vsat d ro m (fun r => 0 <= rest r <= g)) -> returns d g rest m.
Proof.
  intros H e E. specialize (H (readOnly e) e E eq_refl). destruct (m e) as [[a e']| |]; [|done..].
  by destruct H as (? & ? & ?).
Qed.

Lemma returns_vsat {A} d g rest (m : M (VM S) A) ro :
  returns d g rest m -> vsat d ro m (fun r => 0 <= rest r <= g).
Proof.
  intros H e E1 E2. specialize (H e E1). destruct (m e) as [[a e']| |]; [|done..].
  destruct H as (? & ? & ?). split_and!; congruence || lia.
Qed.

Ltac vsat_step :=
  lazymatch goal with
  | |- vsat _ _ (mbind _ _) _ => apply vsat_bind
  | |- vsat _ _ (mret _) _ => apply vsat_ret
  | |- vsat _ _ (must _) _ => apply vsat_must; intros
  | |- vsat _ _ (on_ibs _) _ => apply vsat_on_ibs; [solve [eauto with fueled nocore] | intros]
  | |- vsat _ _ (gets depth) _ => apply vsat_depth
  | |- vsat _ _ (NewContract _ _ _ _ _) _ => apply vsat_NewContract; intros
  | |- vsat _ _ (match ?x with _ => _ end) _ => destruct x eqn:?
  end.
Ltac vsat_go := repeat vsat_step.

(** ** [Run] *)

(** What a runner promises for the gas of the contract below [N], at depth [d]. *)
Definition run_ok (N d : Z) (run : runner (S:=S)) : Prop := forall c input ro,
  0 <= Gas c < N -> returns d (Gas c) (fun r => Gas r.2) (run c input ro).

Lemma Run_ok N d fuel (calls : Calls S) :
  calls_ok N (d + 1) calls -> N <= two64 -> N <= Z.of_nat fuel -> run_ok N d (Run env jt fuel calls).
Proof.
  intros Hc HN Hf c input ro Hg e Hd. unfold Run. destruct (_ =? 0); [cbn; split_and!; done || lia|].
  unfold mbind, M_bind, modify, gets, get, mret, M_ret. cbn -[run_loop].
  destruct (ro && negb (readOnly e)) eqn:El; cbn -[run_loop];
  match goal with |- context [run_loop _ _ _ _ _ _ ?frame] =>
    assert (mem_ok (view_of frame)) as Hm by done;
    pose proof (sat_run_loop N calls fuel 0 [] (view_of frame)) as Hl; cbn in Hl; rewrite Hd in Hl;
    specialize (Hl Hc HN Hm Hg ltac:(lia) frame ltac:(cbn; by rewrite Hd));
    destruct (run_loop env jt fuel calls 0 [] frame) as [[[ret err] f]| |]; [|done..]
  end; cbn in Hl |- *; destruct Hl as (E1 & E2 & E3); split_and!; try lia; try done.
  apply andb_prop in El as [_ El]. by destruct (readOnly e).
Qed.

(** ** Precompiled contracts *)

Lemma RequiredGas_range p input g : RequiredGas p input = Some g -> 0 <= g < two64.
Proof.
  intros H. destruct p; cbn in H;
    try (injection H as <-; first [apply u64_range | lia]).
  - unfold bigModExp_RequiredGas, MaxUint64 in H. 
    repeat match type of H with
    | (_ ≫= _) = Some _ => apply bind_Some in H as (? & _ & H)
    | (if ?b then _ else _) = Some _ => destruct b
    end; injection H as <-; first [lia | apply u64_range].
  - destruct (negb _); injection H as <-; [lia|]. unfold BigEndian_Uint32.
    pose proof (Z.mod_pos_bound (be_to_Z (take 4 input)) (2 ^ 32) ltac:(lia)). lia.
Qed.

Lemma RunPrecompiledContract_gas p input gas r :
  0 <= gas < two64 -> RunPrecompiledContract p input gas = Some r -> 0 <= call_rest r <= gas.
Proof.
  intros Hg H. unfold RunPrecompiledContract in H.
  apply bind_Some in H as (cost & Hc & H). apply RequiredGas_range in Hc.
  destruct (Z.ltb_spec gas cost); [injection H as <-; cbn; lia|].
  apply bind_Some in H as ([out err] & _ & H). injection H as <-. cbn. rewrite u64_small; lia.
Qed.

(** ** Calls *)

Lemma vsat_run N d ro run c input b (Q : bytes * option VMError * Contract -> Prop) :
  run_ok N d run -> 0 <= Gas c < N -> (forall r, 0 <= Gas r.2 <= Gas c -> Q r) ->
  vsat d ro (run c input b) Q.
Proof.
  intros Hr Hg HQ e E1 E2. specialize (Hr c input b Hg e E1).
  destruct (run c input b e) as [[r e']| |]; [|done..]. destruct Hr as (? & ? & ?).
  split_and!; congruence || auto.
Qed.

Lemma vsat_callee d ro typ caller addr gas value h code (Q : Contract -> Prop) :
  (forall c, Gas c = gas -> Q c) ->
  vsat d ro (callee_contract env typ caller addr gas value h code) Q.
Proof.
  intros HQ. unfold callee_contract. apply vsat_bind, vsat_NewContract. intros c Hc.
  apply vsat_bind. destruct (typ =? DELEGATECALL); [apply vsat_must | apply vsat_ret].
  - intros c' E. apply vsat_ret, HQ. unfold AsDelegate in E. destruct (EvmTypes.caller c); [done|].
    injection E as <-. done.
  - apply vsat_ret, HQ. done.
Qed.

Lemma vsat_enter d ro typ caller addr p value bailout (Q : bool -> Prop) :
  (forall b, Q b) -> vsat d ro (enter_account env typ caller addr p value bailout) Q.
Proof. intros HQ. unfold enter_account. vsat_go; apply HQ. Qed.

Lemma call_ok N d run typ caller addr input gas value bailout :
  (d <= CallCreateDepth -> run_ok N d run) -> N <= two64 -> 0 <= gas < N ->
  returns d gas call_rest (call env run typ caller addr input gas value bailout).
Proof.
  intros Hrun HN Hg. apply vsat_returns. intros ro. unfold call, call_rest.
  apply vsat_bind, vsat_depth. destruct (_ && _); [apply vsat_ret; cbn; lia|].
  destruct (Z.ltb_spec CallCreateDepth d) as [|Hd]; [apply vsat_ret; cbn; lia|]. specialize (Hrun Hd).
  apply vsat_bind. apply (vsat_mono _ _ _ (fun _ => True)); [vsat_go; done|]. intros [] _.
  { apply vsat_ret. cbn. lia. }
  apply vsat_bind. apply (vsat_mono _ _ _ (fun _ => True)); [vsat_go; done|]. intros code _.
  apply vsat_bind, vsat_on_ibs; [apply fueled_Snapshot|]. intros snap.
  apply vsat_bind, vsat_enter. intros []; [apply vsat_ret; cbn; lia|].
  apply vsat_bind. apply (vsat_mono _ _ _ (fun r => 0 <= call_rest r <= gas)).
  - destruct (precompile _ _) as [p|].
    { apply vsat_must. intros r Hr. apply RunPrecompiledContract_gas in Hr; [done | lia]. }
    destruct (default [] code); [apply vsat_ret; cbn; lia|].
    apply vsat_bind, vsat_on_ibs; [apply fueled_GetCodeHash|]. intros h.
    apply vsat_bind, vsat_callee. intros c Hc. apply vsat_bind. eapply vsat_run; [done|lia|].
    intros [[ret err] c'] Hc'. apply vsat_ret. cbn in *. lia.
  - intros [[ret g] err] Hr. unfold call_rest in Hr. cbn in Hr. destruct (_ || _); [|apply vsat_ret; cbn; lia].
    apply vsat_bind, vsat_on_ibs; [apply fueled_RevertToSnapshot|]. intros _. apply vsat_ret. cbn.
    destruct (decide _); lia.
Qed.

(** ** Creations *)

Lemma spend_gas g c : 0 <= g -> 0 <= Gas c < two64 -> 0 <= Gas (spend g c).2 <= Gas c.
Proof.
  intros Hg Hc. unfold spend, UseGas, mbind, M_bind, get. cbn.
  destruct (Z.ltb_spec (Gas c) g); cbn; [lia|]. rewrite u64_small; lia.
Qed.

Lemma vsat_store_code d ro address ret c err (Q : Contract * option VMError -> Prop) :
  0 <= Gas c < two64 -> (forall c' e, 0 <= Gas c' <= Gas c -> Q (c', e)) ->
  vsat d ro (store_code env address ret c err) Q.
Proof.
  intros Hc HQ. unfold store_code. destruct err; [apply vsat_ret, HQ; lia|].
  pose proof (spend_gas (u64 (zlen ret * CreateDataGas)) c (proj1 (u64_range _)) Hc) as Hs.
  destruct (spend _ c) as [b c']. vsat_go; apply HQ; cbn in Hs; lia.
Qed.

Lemma vsat_bump d ro creator b (Q : option VMError -> Prop) :
  (forall e, Q e) -> vsat d ro (bump_nonce (S:=S) creator b) Q.
Proof. intros HQ. unfold bump_nonce. vsat_go; apply HQ. Qed.

(** The code of a creation from the run on. *)
Lemma vsat_finish N d ro run address contract snapshot :
  run_ok N d run -> N <= two64 -> 0 <= Gas contract < N ->
  vsat d ro
    ('(ret, err, contract) ← run contract [] false;
     let err := check_code env ret err in
     '(contract, err) ← store_code env address ret contract err;
     contract ←
       (if bool_decide (err <> None) &&
           (IsHomestead (chainRules env) || bool_decide (err <> Some ErrCodeStoreOutOfGas)) then
          _ ← on_ibs (ibs.RevertToSnapshot snapshot);
          mret (if decide (err = Some ErrExecutionReverted) then contract
                else (spend (Gas contract) contract).2)
        else mret contract);
     mret (ret, address, Gas contract, err))
    (fun r => 0 <= create_rest r <= Gas contract).
Proof.
  intros Hrun HN Hg. apply vsat_bind. eapply vsat_run; [done|lia|].
  intros [[ret err] c] Hc. cbn in Hc. apply vsat_bind, vsat_store_code; [lia|].
  intros c' e Hc'. apply vsat_bind. apply (vsat_mono _ _ _ (fun c2 => 0 <= Gas c2 <= Gas c')).
  - destruct (_ && _); [|apply vsat_ret; lia].
    apply vsat_bind, vsat_on_ibs; [apply fueled_RevertToSnapshot|]. intros _. apply vsat_ret.
    destruct (decide _); [lia|]. apply spend_gas; lia.
  - intros c2 Hc2. apply vsat_ret. cbn. lia.
Qed.

Lemma create_ok N d run caller code gas value address b :
  (d <= CallCreateDepth -> run_ok N d run) -> N <= two64 -> 0 <= gas < N ->
  returns d gas create_rest (create env run caller code gas value address b).
Proof.
  intros Hrun HN Hg. apply vsat_returns. intros ro. unfold create.
  apply vsat_bind, vsat_depth.
  destruct (Z.ltb_spec CallCreateDepth d) as [|Hd]; [apply vsat_ret; cbn; lia|]. specialize (Hrun Hd).
  apply vsat_bind, vsat_on_ibs; [apply fueled_CanTransfer|]. intros [].
  2: { apply vsat_ret. cbn. lia. }
  cbn [negb]. apply vsat_bind, vsat_bump. intros [e|]; [apply vsat_ret; cbn; lia|].
  apply vsat_bind. apply (vsat_mono _ _ _ (fun _ => True)); [vsat_go; done|]. intros _ _.
  apply vsat_bind, vsat_on_ibs; [apply fueled_GetCodeHash|]. intros h.
  apply vsat_bind, vsat_on_ibs; [apply fueled_GetNonce|]. intros n.
  destruct (_ || _); [apply vsat_ret; cbn; lia|].
  apply vsat_bind, vsat_on_ibs; [apply fueled_Snapshot|]. intros snap.
  apply vsat_bind, vsat_on_ibs; [apply fueled_CreateAccount|]. intros _.
  apply vsat_bind. apply (vsat_mono _ _ _ (fun _ => True)); [vsat_go; done|]. intros _ _.
  apply vsat_bind, vsat_on_ibs; [apply fueled_Transfer|]. intros _.
  apply vsat_bind, vsat_NewContract. intros c Hc.
  destruct (_ && _); [apply vsat_ret; cbn; lia|].
  rewrite <- Hc. by eapply (vsat_finish N d ro run address (set_code_fields _ _ _ c)); [| |cbn; lia].
Qed.
End Machine.
