(* ===== verification/EvmTheorems.v ===== *)
(** * Theorems about the machine

    What [NewEVMInterpreter] builds is a good table; on it calls and creations
    terminate and return no more gas than they got, and the operand stack and
    the memory of every frame stay within their bounds. *)

From S2P Require Import Prelude Uint256 Params Stack Memory Analysis Common EvmTypes Contract.
From S2P Require Import Instructions GasTable Opcodes JumpTable Rlp Contracts Interpreter Evm.
From S2P Require Import EvmLogic OpSpecs GasSpecs TableSpecs GasSafety.

(** The EIP-2929 prices of the call family add the cold surcharge to a price that
    contains the callee's gas; they need the 63/64 rule, which keeps the price
    below the gas of the caller.  Fork schedules enable EIP-150 first. *)
Definition eip150_before_2929 (rules : Rules) (eips : list Z) : bool :=
  IsTangerineWhistle rules ||
  negb (IsPrague rules || IsCancun rules || IsShanghai rules || IsLondon rules || IsBerlin rules) &&
  forallb (fun eip => negb (eip =? 2929)) eips.

Section EvmTheorems.
Context {U : Uint256} {UL : Uint256Laws U} {C : Crypto} {NC : Native}.
Context {S : Type} {I : ibs.IntraBlockState S} {IF : ibs_fueled I} (env : Env S).

(** ** The table of the interpreter *)

Lemma before_berlin rules eip150 : good_table (
  if IsIstanbul rules then newIstanbulInstructionSet env
  else if IsConstantinople rules then newConstantinopleInstructionSet env
  else if IsByzantium rules then newByzantiumInstructionSet env
  else if IsSpuriousDragon rules then newSpuriousDragonInstructionSet env
  else if eip150 : bool then newTangerineWhistleInstructionSet env
  else if IsHomestead rules then newHomesteadInstructionSet env
  else newFrontierInstructionSet env).
Proof.
  destruct (IsIstanbul _); [apply istanbul_good|]. destruct (IsConstantinople _); [apply constantinople_good|].
  destruct (IsByzantium _); [apply byzantium_good|]. destruct (IsSpuriousDragon _); [apply spurious_good|].
  destruct eip150; [apply tangerine_good|].
  destruct (IsHomestead _); [apply homestead_good | apply frontier_good].
Qed.

Lemma select_good : eip150_before_2929 (chainRules env) (ExtraEips (config env)) = true ->
  good_table (select_table env (chainRules env)).
Proof.
  intros H. unfold select_table, eip150_before_2929 in *.
  destruct (IsTangerineWhistle (chainRules env)) eqn:Htw; cbn in H.
  - destruct (IsPrague _); [by apply prague_good|]. destruct (IsCancun _); [by apply cancun_good|].
    destruct (IsShanghai _); [by apply shanghai_good|]. destruct (IsLondon _); [by apply london_good|].
    destruct (IsBerlin _); [by apply berlin_good|].
    exact (before_berlin (chainRules env) true).
  - destruct (IsPrague _), (IsCancun _), (IsShanghai _), (IsLondon _), (IsBerlin _); try done.
    exact (before_berlin (chainRules env) false).
Qed.

Lemma EnableEIP_good eip jt r :
  eip <> 2929 \/ IsTangerineWhistle (chainRules env) = true ->
  table_ok jt -> EnableEIP env eip jt = Done (Some r) -> table_ok r /\ filled r.
Proof.
  intros He H E. unfold EnableEIP, activators in E.
  assert (forall f, keeps f -> (jt ← f jt; jt ← validateAndFillMaxStack jt; Done (Some jt)) = Done (Some r) ->
    table_ok r /\ filled r) as Hk.
  { intros f Hf Ef. destruct (keeps_validate f jt Hf H) as (jt' & Ev & Hgood). unfold mbind, outcome_bind in *.
    destruct (f jt); [|done..]. rewrite Ev in Ef. by injection Ef as <-. }
  destruct (eip =? 3855); [by eapply Hk; [apply keeps_3855|]|].
  destruct (eip =? 3860); [by eapply Hk; [apply keeps_3860|]|].
  destruct (eip =? 3529); [by eapply Hk; [apply keeps_3529|]|].
  destruct (eip =? 3198); [by eapply Hk; [apply keeps_3198|]|].
  destruct (Z.eqb_spec eip 2929); [eapply Hk; [apply keeps_2929; by destruct He|done]|].
  destruct (eip =? 2200); [by eapply Hk; [apply keeps_2200|]|].
  destruct (eip =? 1884); [by eapply Hk; [apply keeps_1884|]|].
  destruct (eip =? 1344); [by eapply Hk; [apply keeps_1344|]|done].
Qed.

Lemma extra_eips_good n : forall i arr len jt r,
  Forall (fun eip => eip <> 2929) arr \/ IsTangerineWhistle (chainRules env) = true ->
  table_ok jt -> filled jt -> extra_eips env n i arr len jt = Done r -> table_ok r.1 /\ filled r.1.
Proof.
  induction n as [|n IH]; intros i arr len jt r He H Hf E; cbn in E; [by injection E as <-|].
  destruct (arr !! i) as [eip|] eqn:Ea; [|done].
  destruct (EnableEIP env eip jt) as [[jt'|]| |] eqn:Ee; cbn in E; [| |done..].
  - assert (table_ok jt' /\ filled jt') as [].
    { eapply EnableEIP_good; [|done..]. destruct He as [He|He]; [left|by right].
      by eapply Forall_lookup_1 in He. }
    by eapply IH.
  - destruct (_ <=? _)%nat; [|done]. eapply IH; [|done..]. destruct He as [He|He]; [left|by right].
    apply Forall_app; split; [by apply Forall_take|].
    apply Forall_app; split; [by apply Forall_take, Forall_drop | by apply Forall_drop].
Qed.

Lemma interpreter_good jt eips :
  eip150_before_2929 (chainRules env) (ExtraEips (config env)) = true ->
  NewEVMInterpreter env = Done (jt, eips) -> table_ok jt /\ filled jt.
Proof.
  intros Hr E. unfold NewEVMInterpreter in E.
  destruct (select_good Hr) as (jt0 & E0 & H0 & Hf0). rewrite E0 in E. cbn in E.
  eapply (extra_eips_good _ _ _ _ _ (jt, eips)); [|done..].
  unfold eip150_before_2929 in Hr. apply orb_prop in Hr as [?|Hr]; [by right|left].
  apply andb_prop in Hr as [_ Hr]. apply Forall_forall. intros x Hx.
  rewrite forallb_forall in Hr. specialize (Hr x Hx). by zbool.
Qed.

(** ** Calls *)

Context {TF : transfers_fueled env}.

Lemma CreateAddress_fueled a n : CreateAddress a n <> NoFuel.
Proof.
  assert (fueled (rlp.write (rlp.List [rlp.Bytes (Z_to_be 20 a); rlp.Uint n]))) as H.
  { cbn [rlp.write]. unfold rlp.encodeString, rlp.encodeUint, rlp.encodeStringHeader, rlp.append_str,
      rlp.list_, rlp.listEnd. cbv zeta. fueled_go. }
  unfold CreateAddress, rlp.EncodeToBytes. specialize (H rlp.empty_encbuf).
  destruct (rlp.write _ _) as [[u w]| |]; [|done..]. by destruct (rlp.toBytes w).
Qed.

Lemma calls_of_ok N d run :
  (d <= CallCreateDepth -> run_ok N d run) -> N <= two64 -> calls_ok N d (calls_of env run).
Proof.
  intros Hrun HN. split; intros; cbn; try (by eapply call_ok).
  - apply vsat_returns. intros ro. unfold Create_. apply vsat_bind, vsat_on_ibs; [apply fueled_GetNonce|].
    intros nonce. apply vsat_bind, vsat_outcome; [apply CreateAddress_fueled|]. intros addr.
    eapply returns_vsat, create_ok; done.
  - unfold Create2_. by eapply create_ok.
Qed.

Context (jt : JumpTable (S:=S)) (Hjt : table_ok jt) (Hfill : filled jt).

Lemma runner_ok N n : N <= two64 -> N <= Z.of_nat n -> forall d k,
  1025 <= k + Z.of_nat d -> k <= CallCreateDepth -> run_ok N k (runner_of env jt n d).
Proof.
  intros HN Hn d. induction d as [|d IH]; intros k Hd Hk; [unfold CallCreateDepth in *; lia|].
  cbn [runner_of]. apply Run_ok; try done. apply calls_of_ok; [|done]. intros Hk'. apply IH; lia.
Qed.

Lemma calls_good N n d k :
  N <= two64 -> N <= Z.of_nat n -> 1025 <= k + Z.of_nat d -> calls_ok N k (calls env jt n d).
Proof. intros HN Hn Hd. apply calls_of_ok; [|done]. intros Hk. by apply runner_ok. Qed.
End EvmTheorems.

(** ** Turns of a run *)

Section Turns.
Context {U : Uint256} {C : Crypto} {S : Type} {I : ibs.IntraBlockState S}.
Context (jt : JumpTable (S:=S)) (calls : Calls S).

(** [turns k f f']: [k] turns of the loop lead from [f] to [f']. *)
Inductive turns : nat -> Frame S -> Frame S -> Prop :=
| turns_O f : turns 0 f f
| turns_S k f f1 f2 res :
    turns k f f1 -> step jt calls f1 = Done ((res, None), f2) ->
    turns (Datatypes.S k) f (set_pc (u64 (pc f2 + 1)) f2).

(** The frame [Run] starts with. *)
Definition fresh (f : Frame S) : Prop :=
  Stack_ f = stack.mkStack [] /\ Memory_ f = memory.NewMemory.

(** Whole words of memory, paid for. *)
Definition memory_paid (f : Frame S) : Prop :=
  memory.Len (Memory_ f) mod 32 = 0 /\
  memory.lastGasCost (Memory_ f) = memFee (memory.Len (Memory_ f) / 32).

Context {UL : Uint256Laws U} {IF : ibs_fueled I} (Hjt : table_ok jt) (Hfill : filled jt).

Lemma turns_view N k f f' :
  turns k f f' -> calls_ok N (depth (vm f)) calls -> N <= two64 ->
  mem_ok (view_of f) -> zlen (v_stack (view_of f)) <= StackLimit -> 0 <= Gas (Contract_ f) < N ->
  mem_ok (view_of f') /\ zlen (v_stack (view_of f')) <= StackLimit /\
  depth (vm f') = depth (vm f) /\ 0 <= Gas (Contract_ f') /\
  Gas (Contract_ f') + Z.of_nat k <= Gas (Contract_ f).
Proof.
  induction 1 as [f|k f f1 f2 res Ht IH E]; intros Hc HN Hm Hs Hg; [split_and!; done || lia|].
  destruct (IH Hc HN Hm Hs Hg) as (Hm1 & _ & Hd1 & Hg1 & Hle).
  rewrite <- Hd1 in Hc.
  pose proof (sat_step_turn jt Hjt Hfill N calls (view_of f1) Hc HN Hm1 ltac:(cbn; lia) f1 eq_refl) as H.
  rewrite E in H. destruct H as (F1 & _ & F3 & F4). destruct (F4 eq_refl) as (F5 & F6 & F7). cbn in *.
  split_and!; done || lia.
Qed.
End Turns.

(** ** Properties *)

Section Properties.
Context {U : Uint256} {UL : Uint256Laws U} {C : Crypto} {NC : Native}.
Context {S : Type} {I : ibs.IntraBlockState S} {IF : ibs_fueled I} (env : Env S).
Context {TF : transfers_fueled env} (jt : JumpTable (S:=S)) (eips : list Z).
Context (Hrules : eip150_before_2929 (chainRules env) (ExtraEips (config env)) = true).
Context (Hnew : NewEVMInterpreter env = Done (jt, eips)).
Context (n d : nat) (gas : Z) (Hgas : 0 <= gas < two64) (Hn : gas < Z.of_nat n).
Context (e : VM S) (Hd : 1025 <= depth e + Z.of_nat d).

Lemma machine_ok k : k = depth e -> k <= CallCreateDepth -> run_ok (gas + 1) k (runner_of env jt n d).
Proof.
  intros -> Hk. destruct (interpreter_good env jt eips Hrules Hnew).
  apply runner_ok; try done; lia.
Qed.

(** C2: a call of any of the four kinds, with any gas [gas] below 2^64, comes to
    an end: [gas + 1] turns per run and 1025 nested runs are always enough, for
    every bytecode, every state and every fork whose rules are ordered. *)
Theorem call_terminates typ caller addr input value bailout :
  call env (runner_of env jt n d) typ caller addr input gas value bailout e <> NoFuel.
Proof.
  pose proof (call_ok env (gas + 1) (depth e) (runner_of env jt n d) typ caller addr input gas value bailout
    (machine_ok _ eq_refl) ltac:(lia) ltac:(lia) e eq_refl) as H.
  by destruct (call _ _ _ _ _ _ _ _ _ _).
Qed.

(** C1: the gas a call leaves over is at most the gas it was given, and the call
    depth and the read-only flag of the machine are those before the call. *)
Theorem call_gas typ caller addr input value bailout ret rest err e' :
  call env (runner_of env jt n d) typ caller addr input gas value bailout e = Done ((ret, rest, err), e') ->
  0 <= rest <= gas /\ depth e' = depth e /\ readOnly e' = readOnly e.
Proof.
  intros E. pose proof (call_ok env (gas + 1) (depth e) (runner_of env jt n d) typ caller addr input gas value
    bailout (machine_ok _ eq_refl) ltac:(lia) ltac:(lia) e eq_refl) as H. by rewrite E in H.
Qed.

(** A contract creation comes to an end with the same fuel. *)
Theorem create_terminates caller code value address incrementNonce :
  create env (runner_of env jt n d) caller code gas value address incrementNonce e <> NoFuel.
Proof.
  pose proof (create_ok env (gas + 1) (depth e) (runner_of env jt n d) caller code gas value address
    incrementNonce (machine_ok _ eq_refl) ltac:(lia) ltac:(lia) e eq_refl) as H.
  by destruct (create _ _ _ _ _ _ _ _ _).
Qed.

(** The gas a creation leaves over, after the deposit for the code, is at most
    the gas it was given; depth and read-only flag are restored. *)
Theorem create_gas caller code value address incrementNonce ret addr rest err e' :
  create env (runner_of env jt n d) caller code gas value address incrementNonce e
    = Done ((ret, addr, rest, err), e') ->
  0 <= rest <= gas /\ depth e' = depth e /\ readOnly e' = readOnly e.
Proof.
  intros E. pose proof (create_ok env (gas + 1) (depth e) (runner_of env jt n d) caller code gas value address
    incrementNonce (machine_ok _ eq_refl) ltac:(lia) ltac:(lia) e eq_refl) as H. by rewrite E in H.
Qed.

(** C29: every frame a run reaches has at most 1024 operands, a memory of whole
    words whose fee is exactly the one recorded, and has paid at least one unit
    of gas for every turn. *)
Theorem turns_bounds k f f' :
  fresh f -> depth (vm f) = depth e -> Gas (Contract_ f) = gas ->
  turns jt (calls env jt n d) k f f' ->
  stack.Len (Stack_ f') <= StackLimit /\ memory_paid f' /\
  0 <= Gas (Contract_ f') <= gas - Z.of_nat k.
Proof.
  intros [Hs Hm] Hdf Hg Ht. destruct (interpreter_good env jt eips Hrules Hnew) as [Hjt Hfill].
  assert (mem_ok (view_of f)) as Hm0 by (unfold mem_ok; cbn; by rewrite Hm).
  destruct (turns_view jt _ Hjt Hfill (gas + 1) k f f' Ht) as (H1 & H2 & _ & H3 & H4); try done; try lia.
  - apply calls_good; try done; rewrite ?Hdf; lia.
  - cbn. by rewrite Hs.
  - split; [revert H2; cbn; by rewrite zlen_rev|]. split; [split; apply H1 | lia].
Qed.
End Properties.
