(* ===== verification/InstructionTheorems.v ===== *)
(** * Theorems about single instructions

    Results of arithmetic instructions with fast paths, jump destinations with
    their two caches, write protection, and the prices of memory and of calls. *)

From S2P Require Import Prelude Uint256 Params Stack Memory Analysis Common EvmTypes Contract.
From S2P Require Import Instructions GasTable Opcodes JumpTable EvmLogic OpSpecs GasSpecs.

Section InstructionTheorems.
Context {U : Uint256} {UL : Uint256Laws U} {C : Crypto} {S : Type} {I : ibs.IntraBlockState S}.

Definition with_data (l : list Z) (f : Frame S) : Frame S :=
  set_Stack (stack.mkStack l) f.

Lemma binop_run g calls f rest x y :
  Stack_ f = stack.mkStack (rest ++ [y; x]) ->
  binop g calls f = Done (([], None), with_data (rest ++ [g x y]) f).
Proof.
  intros E. unfold binop, mbind, M_bind, pop, peek, set_top, on_stack, zoom, ok. rewrite E.
  replace (rest ++ [y; x]) with ((rest ++ [y]) ++ [x]) by by rewrite <- app_assoc.
  rewrite stack.Pop_run. cbn -[stack.Peek stack.SetPeek]. rewrite stack.Peek_run.
  cbn -[stack.SetPeek]. rewrite stack.SetPeek_run. done.
Qed.

(** The word [2 ^ n] when the shift stays inside. *)
Lemma pow2_wrap n : 256 <= n -> wrap256 (2 ^ n) = 0.
Proof.
  intros H. unfold wrap256. change two256 with (2 ^ 256).
  replace n with (n - 256 + 256) by lia. rewrite Z.pow_add_r by lia. apply Z.mod_mul. lia.
Qed.

(** EXP leaves [base ^ exponent] modulo 2^256 for all operands: the fast paths
    for exponents 0 and 1 and bases 0, 1 and 2 agree with the general power. *)
Theorem opExp_correct calls f rest base exponent :
  word base -> word exponent -> Stack_ f = stack.mkStack (rest ++ [exponent; base]) ->
  opExp calls f = Done (([], None), with_data (rest ++ [wrap256 (base ^ exponent)]) f).
Proof.
  intros Hb He E. unfold opExp. rewrite (binop_run _ _ _ _ _ _ E). do 5 f_equal.
  rewrite !uint256.IsZero_spec, !uint256.LtUint64_spec by (done || lia).
  unfold word in *.
  destruct (Z.eqb_spec exponent 0) as [->|]; [done|].
  destruct (Z.eqb_spec base 0) as [->|]; [by rewrite Z.pow_0_l by lia|].
  destruct (Z.ltb_spec exponent 2).
  { replace exponent with 1 by lia. rewrite Z.pow_1_r, wrap256_small; done. }
  destruct (Z.ltb_spec base 2).
  { replace base with 1 by lia. by rewrite Z.pow_1_l by lia. }
  destruct (Z.ltb_spec base 3); [|by rewrite uint256.Exp_spec].
  replace base with 2 by lia. destruct (Z.ltb_spec exponent 256).
  - rewrite uint256.Uint64_spec, u64_small, uint256.Lsh_spec by (done || lia).
    by rewrite Z.shiftl_1_l.
  - by rewrite pow2_wrap by lia.
Qed.

(** The shifts agree with arithmetic for every shift amount, also those
    above 255: SHL multiplies by a power of two modulo 2^256, SHR divides, SAR
    divides the signed value, rounding down. *)
Theorem shifts_correct calls f rest shift value :
  word shift -> word value -> Stack_ f = stack.mkStack (rest ++ [value; shift]) ->
  opSHL calls f = Done (([], None), with_data (rest ++ [wrap256 (value * 2 ^ shift)]) f) /\
  opSHR calls f = Done (([], None), with_data (rest ++ [value / 2 ^ shift]) f) /\
  opSAR calls f = Done (([], None), with_data (rest ++ [wrap256 (signed value / 2 ^ shift)]) f).
Proof.
  intros Hs Hv E. unfold opSHL, opSHR, opSAR. rewrite !(binop_run _ _ _ _ _ _ E).
  rewrite !uint256.LtUint64_spec, uint256.GtUint64_spec by (done || lia).
  assert (256 <= shift -> two256 <= 2 ^ shift) as Hbig.
  { intros H. change two256 with (2 ^ 256). apply Z.pow_le_mono_r; lia. }
  assert (- 2 ^ 255 <= signed value < 2 ^ 255) as Hsg.
  { unfold signed, word in *. case_match; zbool; lia. }
  split_and!; do 5 f_equal; unfold word in *.
  - destruct (Z.ltb_spec shift 256).
    + rewrite uint256.Uint64_spec, u64_small, uint256.Lsh_spec by (done || lia).
      by rewrite Z.shiftl_mul_pow2 by lia.
    + unfold wrap256. change two256 with (2 ^ 256). replace shift with (shift - 256 + 256) by lia.
      rewrite Z.pow_add_r, Z.mul_assoc by lia. by rewrite Z.mod_mul by lia.
  - destruct (Z.ltb_spec shift 256).
    + rewrite uint256.Uint64_spec, u64_small, uint256.Rsh_spec by (done || lia).
      by rewrite Z.shiftr_div_pow2 by lia.
    + rewrite Z.div_small by lia. done.
  - destruct (Z.ltb_spec 255 shift).
    + rewrite uint256.Sign_spec by done. destruct (Z.leb_spec 0 (Z.sgn (signed value))).
      * rewrite Z.div_small by lia. done.
      * replace (signed value / 2 ^ shift) with (-1); [done|].
        apply Z.div_unique with (r := signed value + 2 ^ shift); lia.
    + rewrite uint256.Uint64_spec, u64_small, uint256.SRsh_spec by (done || lia).
      by rewrite Z.shiftr_div_pow2 by lia.
Qed.

(** ** Jump destinations *)

(** The two caches of the analysis, by code hash in the map shared with the
    parent and in the contract, hold the bitmap of the code. *)
Definition caches_ok (f : Frame S) : Prop :=
  let c := Contract_ f in
  (forall m a, jumpdest_maps (vm f) !! jumpdests c = Some m -> m !! CodeHash c = Some a ->
     codeBitmap (Code c) = Done a) /\
  (forall a, analysis c = Some a -> codeBitmap (Code c) = Done a) /\
  (CodeHash c <> 0 -> is_Some (jumpdest_maps (vm f) !! jumpdests c)).

(** A JUMPDEST instruction that is no immediate data of a PUSH. *)
Definition jump_target (code : bytes) (dest : Z) : bool :=
  (dest <? zlen code) && (byte_at code dest =? JUMPDEST) && negb (is_push_data code dest).

Lemma isCode_run f udest :
  caches_ok f -> 0 <= udest < zlen (Code (Contract_ f)) ->
  exists f', isCode udest f = Done (negb (is_push_data (Code (Contract_ f)) udest), f') /\
    caches_ok f' /\ Code (Contract_ f') = Code (Contract_ f).
Proof.
  intros (H1 & H2 & H3) Hu.
  destruct (codeBitmap_spec (Code (Contract_ f))) as (bits & E & Hl & Hbits).
  assert (isCodeFromAnalysis bits udest = Some (negb (is_push_data (Code (Contract_ f)) udest))) as Hcode.
  { rewrite <- Hbits by done. apply isCodeFromAnalysis_getbit; [lia|].
    rewrite Hl. apply Z.div_lt_upper_bound; [lia|].
    pose proof (Z.div_mod (zlen (Code (Contract_ f)) + 95) 64 ltac:(lia)).
    pose proof (Z.mod_pos_bound (zlen (Code (Contract_ f)) + 95) 64 ltac:(lia)). lia. }
  unfold isCode, mbind, M_bind, gets, get, run_codeBitmap. cbn -[codeBitmap isCodeFromAnalysis].
  destruct (Z.eqb_spec (CodeHash (Contract_ f)) 0) as [Hh|Hh]; cbn -[codeBitmap isCodeFromAnalysis].
  - destruct (analysis (Contract_ f)) as [a|] eqn:Ea.
    + assert (a = bits) as -> by (specialize (H2 a eq_refl); congruence).
      cbn -[isCodeFromAnalysis]. rewrite Hcode. exists f. split; [done|]. split; [|done].
      unfold caches_ok. by rewrite Ea.
    + rewrite E. cbn -[isCodeFromAnalysis]. rewrite Hcode. eexists. split; [done|]. split; [|done].
      split; [exact H1|]. split; [by intros a [= <-] | done].
  - destruct (H3 Hh) as [m Hm]. rewrite Hm. cbn -[codeBitmap isCodeFromAnalysis].
    destruct (m !! CodeHash (Contract_ f)) as [a|] eqn:Ea.
    + assert (a = bits) as -> by (specialize (H1 m a Hm Ea); congruence).
      cbn -[isCodeFromAnalysis]. rewrite Hcode. eexists. split; [done|]. split; [|done].
      split; [exact H1|]. split; [by intros a [= <-] | done].
    + cbn -[codeBitmap isCodeFromAnalysis]. rewrite E. cbn -[isCodeFromAnalysis]. rewrite Hcode.
      eexists. split; [done|]. split; [|done]. split; [|split; [by intros a [= <-]|]]; cbn.
      * intros m' a Hm' Ha. rewrite list_lookup_insert_eq in Hm' by by apply lookup_lt_Some in Hm.
        injection Hm' as <-. rewrite lookup_insert_eq in Ha. injection Ha as <-. exact E.
      * intros _. rewrite list_lookup_insert_eq by by apply lookup_lt_Some in Hm. eauto.
Qed.

(** C34: a jump is allowed exactly to the JUMPDEST instructions of the code that are
    not immediate data of a PUSH, whatever the caches of the analysis already
    hold, and the caches stay correct. *)
Theorem validJumpdest_correct f dest :
  word dest -> zlen (Code (Contract_ f)) < two64 -> caches_ok f -> skipAnalysis (Contract_ f) = false ->
  exists used f', validJumpdest dest f = Done ((jump_target (Code (Contract_ f)) dest, used), f') /\
    caches_ok f' /\ Code (Contract_ f') = Code (Contract_ f).
Proof.
  intros Hd Hlen Hc Hs. unfold validJumpdest, mbind, M_bind, gets, jump_target.
  rewrite uint256.Uint64WithOverflow_spec by done. unfold word in *.
  destruct (Z.leb_spec two64 dest); cbn [orb].
  { rewrite (proj2 (Z.ltb_ge _ _)) by lia. cbn. eauto. }
  rewrite u64_small by lia. destruct (Z.leb_spec (zlen (Code (Contract_ f))) dest) as [Hge|Hlt].
  { rewrite (proj2 (Z.ltb_ge _ _)) by lia. cbn. eauto. }
  rewrite (proj2 (Z.ltb_lt _ _)) by lia.
  destruct (znth_Some (Code (Contract_ f)) dest) as [op Hop]; [lia|].
  assert (byte_at (Code (Contract_ f)) dest = op) as -> by (unfold byte_at; by rewrite Hop).
  rewrite Hop. cbn -[isCode JUMPDEST].
  destruct (Z.eqb_spec op JUMPDEST); cbn -[isCode]; [|eauto].
  rewrite Hs. destruct (isCode_run f dest Hc) as (f' & -> & Hf' & Hcode); [lia|]. eauto.
Qed.

(** ** Write protection *)

Lemma pop_run f v l : pop (with_data (rev (v :: l)) f) = Done (v, with_data (rev l) f).
Proof. unfold pop, on_stack, zoom, with_data. cbn [Stack_ set_Stack rev]. by rewrite stack.Pop_run. Qed.

(** C37: in a read-only frame the instructions that write (SSTORE, LOG0 to LOG4,
    CREATE, CREATE2, SELFDESTRUCT) return the protection error and change
    nothing; CALL with value returns it too and leaves the machine and its state
    untouched.  Its operands are given top first. *)
Theorem write_protection (env : Env S) n calls f :
  readOnly (vm f) = true ->
  (forall e, e ∈ [opSstore; makeLog env n; opCreate env; opCreate2; opSelfdestruct] ->
     e calls f = Done (([], Some ErrWriteProtection), f)) /\
  (forall gas addr value x1 x2 x3 x4 l args m',
     Stack_ f = stack.mkStack (rev (gas :: addr :: value :: x1 :: x2 :: x3 :: x4 :: l)) ->
     memory.GetPtr (i64 (uint256.Uint64 x1)) (i64 (uint256.Uint64 x2)) (Memory_ f) = Done (args, m') ->
     word value -> value <> 0 ->
     exists f', opCall calls f = Done (([], Some ErrWriteProtection), f') /\ vm f' = vm f).
Proof.
  intros Hro. split.
  - intros e He. set_unfold. destruct He as [->|[->|[->|[->|[->|[]]]]]];
      unfold opSstore, makeLog, opCreate, opCreate2, opSelfdestruct, mbind, M_bind, gets; cbn; by rewrite Hro.
  - intros gas addr value x1 x2 x3 x4 l args m' E Hp Hv Hnz.
    assert (f = with_data (rev (gas :: addr :: value :: x1 :: x2 :: x3 :: x4 :: l)) f) as ->
      by (unfold with_data; rewrite <- E; by destruct f).
    unfold opCall, mbind, M_bind, gets. rewrite pop_run. do 6 rewrite pop_run.
    unfold on_mem, zoom. cbn [Memory_ with_data set_Stack]. rewrite Hp. cbn -[uint256.IsZero].
    rewrite uint256.IsZero_spec, (proj2 (Z.eqb_neq _ _)), Hro by done. cbn. eauto.
Qed.

(** ** Prices *)

(** The price of growing the memory is the difference of the quadratic fees,
    without overflow for every size the code admits; larger sizes are refused,
    and the recorded fee follows. *)
Theorem memoryGasCost_exact m size :
  memory_ok m -> 0 <= size < two64 ->
  memoryGasCost size m =
    if MemLimit <? size then Done ((0, Some ErrGasUintOverflow), m)
    else let w := Z.max (memory.Len m / 32) ((size + 31) / 32) in
         Done ((memFee w - memFee (memory.Len m / 32), None), memory.set_lastGasCost (memFee w) m).
Proof. apply memoryGasCost_spec. Qed.

(** EIP-150: when the base price can be paid, the callee gets what it asked for
    but at most all but one 64th of the gas that remains, and never an error. *)
Theorem callGas_all_but_one_64th avail base cost :
  0 <= base <= avail -> avail < two64 -> word cost ->
  callGas true avail base cost =
    (Z.min cost (avail - base - (avail - base) / 64), None).
Proof.
  intros Hb Ha Hc. unfold callGas. cbv zeta. rewrite (u64_small (avail - base)) by lia.
  set (A := avail - base).
  assert (0 <= A / 64 <= A) by (split; [apply Z.div_pos|apply Z.div_le_upper_bound]; lia).
  rewrite (u64_small (A - A / 64)), uint256.IsUint64_spec, uint256.Uint64_spec by (done || lia).
  unfold word in *. destruct (Z.ltb_spec cost two64); cbn.
  - rewrite u64_small by lia. destruct (Z.ltb_spec (A - A / 64) cost); f_equal; lia.
  - f_equal. lia.
Qed.
End InstructionTheorems.
