(* ===== verification/EvmExamples.v ===== *)
(** * A concrete machine

    The machine of [Evm.v] on the state of [State.v], with the Shanghai rules:
    the theorems of [EvmTheorems.v] hold of it, and the programs below run. *)

From S2P Require Import Prelude Uint256 Params Stack Memory Analysis Common AccessList StateTypes State.
From S2P Require Import StateTheorems EvmTypes EvmLogic EvmState Contract Instructions GasTable Opcodes JumpTable.
From S2P Require Import Rlp Contracts Interpreter Evm OpSpecs GasSpecs TableSpecs GasSafety EvmTheorems.
From S2P Require Import InstructionTheorems.

#[export] Existing Instance ref_uint256.
#[export] Existing Instance ref_crypto.
#[export] Instance example_codec : AccountCodec := {| EncodeForStorage _ := [] |}.
#[export] Instance example_native : Native := {| native_Run _ _ := ([], None) |}.
#[export] Instance example_ibs : ibs.IntraBlockState IntraBlockState := state_ibs empty_reader.

(** Every fork up to Shanghai. *)
Definition shanghai_rules : Rules :=
  mkRules 1 true true true true true true true true true true false false
    false false false false false false false.

Definition example_block : BlockContext IntraBlockState :=
  mkBlockContext _ (State.CanTransfer empty_reader) (State.Transfer empty_reader) (fun n => n)
    5 1000000 false 10 20 (Some 3) (Some 7) None.

Definition example_config (eips : list Z) : Config :=
  mkConfig false false false false false false false false eips.

Definition example_env (eips : list Z) : Env IntraBlockState :=
  mkEnv IntraBlockState example_block (mkTxContext 0 1 (Some 1)) shanghai_rules
    (example_config eips) (fun _ => false).

#[export] Instance example_transfers eips : transfers_fueled (example_env eips).
Proof. split; [apply state_CanTransfer_fueled | apply state_Transfer_fueled]. Qed.

Definition example_jt : JumpTable (S:=IntraBlockState) :=
  match NewEVMInterpreter (example_env []) with Done (jt, _) => jt | _ => fun _ => None end.
Definition example_eips : list Z :=
  match NewEVMInterpreter (example_env []) with Done (_, l) => l | _ => [] end.

Definition is_done {A} (o : outcome A) : bool := match o with Done _ => true | _ => false end.

Lemma example_new : NewEVMInterpreter (example_env []) = Done (example_jt, example_eips).
Proof.
  assert (is_done (NewEVMInterpreter (example_env [])) = true) as H by (vm_compute; reflexivity).
  unfold example_jt, example_eips. by destruct (NewEVMInterpreter (example_env [])) as [[]| |].
Qed.

(** The program stores 1 at key 2 and returns 7 + 5. *)
Definition example_code : bytes :=
  [PUSH1; 5; PUSH1; 7; ADD; PUSH1; 0; MSTORE; PUSH1; 1; PUSH1; 2; SSTORE; PUSH1; 32; PUSH1; 0; RETURN].

Definition example_vm : VM IntraBlockState :=
  match (_ ← on_ibs (ibs.SetCode 100 (Some example_code)); on_ibs (ibs.AddAddressToAccessList 100))
          (NewEVM New) with
  | Done (_, e) => e
  | _ => NewEVM New
  end.

#[local] Notation example_call :=
  (call (example_env []) (runner_of (example_env []) example_jt (Z.to_nat 30001) (Z.to_nat 1025))
    CALL (AccountRef 1) 100 [] 30000 (Some 0) false example_vm).

(** The program ends with the expected value and the expected price: 22100 for the
    cold slot, 30 for the pushes, the addition and the word of memory. *)
Lemma example_result :
  match example_call with
  | Done ((ret, rest, err), e') => (be_to_Z ret, rest, err) = (12, 30000 - 22100 - 30, None)
  | _ => False
  end.
Proof. vm_compute. reflexivity. Qed.

(** ** Witnesses of the theorems about the machine *)

Lemma call_terminates_witness : example_call <> NoFuel.
Proof.
  exact (call_terminates (example_env []) example_jt example_eips eq_refl example_new
    (Z.to_nat 30001) (Z.to_nat 1025) 30000 ltac:(vm_compute; split; congruence) ltac:(reflexivity)
    example_vm ltac:(vm_compute; congruence) CALL (AccountRef 1) 100 [] (Some 0) false).
Defined.

Lemma call_gas_witness : exists ret rest err e',
  example_call = Done ((ret, rest, err), e') /\ 0 <= rest <= 30000 /\ depth e' = depth example_vm.
Proof.
  assert (is_done example_call = true) as H by (vm_compute; reflexivity).
  destruct example_call as [[[[ret rest] err] e']| |] eqn:E; [|discriminate H..].
  exists ret, rest, err, e'. split; [reflexivity|].
  destruct (call_gas (example_env []) example_jt example_eips eq_refl example_new
    (Z.to_nat 30001) (Z.to_nat 1025) 30000 ltac:(vm_compute; split; congruence) ltac:(reflexivity)
    example_vm ltac:(vm_compute; congruence) CALL (AccountRef 1) 100 [] (Some 0) false ret rest err e' E)
    as (Hr & Hd & _).
  exact (conj Hr Hd).
Defined.

(** Code that returns an empty contract. *)
Definition example_init : codeAndHash := mkCodeAndHash [PUSH1; 0; PUSH1; 0; RETURN] 0.

#[local] Notation example_create :=
  (create (example_env []) (runner_of (example_env []) example_jt (Z.to_nat 30001) (Z.to_nat 1025))
    (AccountRef 1) example_init 30000 0 200 true example_vm).

Lemma create_terminates_witness : example_create <> NoFuel.
Proof.
  exact (create_terminates (example_env []) example_jt example_eips eq_refl example_new
    (Z.to_nat 30001) (Z.to_nat 1025) 30000 ltac:(vm_compute; split; congruence) ltac:(reflexivity)
    example_vm ltac:(vm_compute; congruence) (AccountRef 1) example_init 0 200 true).
Defined.

Lemma create_gas_witness : exists ret addr rest err e',
  example_create = Done ((ret, addr, rest, err), e') /\ 0 <= rest <= 30000 /\
  depth e' = depth example_vm.
Proof.
  assert (is_done example_create = true) as H by (vm_compute; reflexivity).
  destruct example_create as [[[[[ret addr] rest] err] e']| |] eqn:E; [|discriminate H..].
  exists ret, addr, rest, err, e'. split; [reflexivity|].
  pose proof (create_gas (example_env []) example_jt example_eips eq_refl example_new
    (Z.to_nat 30001) (Z.to_nat 1025) 30000 ltac:(vm_compute; split; congruence) ltac:(reflexivity)
    example_vm ltac:(vm_compute; congruence) (AccountRef 1) example_init 0 200 true ret addr rest err e' E)
    as (Hr & Hd & _).
  exact (conj Hr Hd).
Defined.

(** One turn of the program: the first push. *)
Definition example_frame : Frame IntraBlockState :=
  mkFrame 0 (stack.mkStack []) memory.NewMemory
    (mkContract 1 (AccountRef 1) 100 0 None false example_code 0 None [] 30000 (Some 0)) example_vm.

Lemma turns_bounds_witness : exists f',
  turns example_jt (calls (example_env []) example_jt (Z.to_nat 30001) (Z.to_nat 1025)) 1 example_frame f' /\
  0 <= Gas (Contract_ f') <= 29999.
Proof.
  set (cs := calls _ _ _ _).
  assert (match step example_jt cs example_frame with Done ((_, None), _) => true | _ => false end = true)
    as H by (vm_compute; reflexivity).
  destruct (step example_jt cs example_frame) as [[[res [err|]] f2]| |] eqn:E; try discriminate H.
  assert (turns example_jt cs 1 example_frame (set_pc (u64 (pc f2 + 1)) f2)) as Ht
    by (eapply turns_S; [apply turns_O | exact E]).
  exists (set_pc (u64 (pc f2 + 1)) f2). split; [exact Ht|].
  apply (turns_bounds (example_env []) example_jt example_eips eq_refl example_new
    (Z.to_nat 30001) (Z.to_nat 1025) 30000 ltac:(vm_compute; split; congruence) ltac:(reflexivity)
    example_vm ltac:(vm_compute; congruence) 1 example_frame _ ltac:(split; reflexivity) eq_refl eq_refl Ht).
Defined.

(** ** Witnesses of the theorems about instructions *)

Definition example_calls : Calls IntraBlockState :=
  calls (example_env []) example_jt (Z.to_nat 10) (Z.to_nat 2).

Lemma opExp_correct_witness :
  opExp example_calls (with_data [9; 300; 2] example_frame)
  = Done (([], None), with_data [9; 0] example_frame).
Proof.
  exact (opExp_correct example_calls (with_data [9; 300; 2] example_frame) [9] 2 300
    ltac:(unfold word; lia) ltac:(unfold word; lia) eq_refl).
Defined.

Lemma shifts_correct_witness :
  opSAR example_calls (with_data [two256 - 8; 1] example_frame)
  = Done (([], None), with_data [two256 - 4] example_frame).
Proof.
  exact (proj2 (proj2 (shifts_correct example_calls (with_data [two256 - 8; 1] example_frame) [] 1 (two256 - 8)
    ltac:(unfold word; lia) ltac:(unfold word; lia) eq_refl))).
Defined.

(** The byte 91 at position 1 is data of the push, the one at position 2 is not. *)
Definition jump_frame : Frame IntraBlockState :=
  mkFrame 0 (stack.mkStack []) memory.NewMemory
    (mkContract 1 (AccountRef 1) 100 0 None false [PUSH1; 91; 91] 0 None [] 30000 (Some 0)) example_vm.

Lemma validJumpdest_correct_witness : exists used f',
  validJumpdest 2 jump_frame = Done ((jump_target [PUSH1; 91; 91] 2, used), f').
Proof.
  assert (caches_ok jump_frame) as H.
  { split; [|split]; cbn; [|discriminate|intros E; destruct (E eq_refl)].
    intros m a Hm Ha. vm_compute in Hm. discriminate Hm. }
  destruct (validJumpdest_correct jump_frame 2 ltac:(unfold word; lia) ltac:(reflexivity) H eq_refl)
    as (used & f' & E & _).
  exists used, f'. exact E.
Defined.

Lemma write_protection_witness :
  opSstore example_calls (set_vm (set_readOnly true example_vm) example_frame)
  = Done (([], Some ErrWriteProtection), set_vm (set_readOnly true example_vm) example_frame).
Proof.
  apply (proj1 (write_protection (example_env []) 1 example_calls
    (set_vm (set_readOnly true example_vm) example_frame) eq_refl)). left.
Defined.

Lemma memoryGasCost_exact_witness :
  memoryGasCost 1000 memory.NewMemory = Done ((98, None), memory.set_lastGasCost 98 memory.NewMemory).
Proof.
  rewrite (memoryGasCost_exact memory.NewMemory 1000); [vm_compute; reflexivity| |lia].
  vm_compute. split; [reflexivity|]. split; [congruence|reflexivity].
Defined.

Lemma callGas_all_but_one_64th_witness : callGas true 64100 100 1000000 = (63000, None).
Proof. rewrite (callGas_all_but_one_64th 64100 100 1000000); [reflexivity|lia..|unfold word; lia]. Defined.

(** ** [ExtraEips] *)

Definition frontier_rules : Rules :=
  mkRules 1 false false false false false false false false false false false false
    false false false false false false false.

Definition frontier_env (eips : list Z) : Env IntraBlockState :=
  mkEnv IntraBlockState example_block (mkTxContext 0 1 (Some 1)) frontier_rules
    (example_config eips) (fun _ => false).

(** The price of an opcode in the table of the interpreter, and the EIP numbers
    left in the configuration. *)
Definition price_and_eips (op : Z) (eips : list Z) : option (option Z * list Z) :=
  match NewEVMInterpreter (frontier_env eips) with
  | Done (jt, l) => Some (constantGas <$> jt op, l)
  | _ => None
  end.

(** An unknown EIP number in the configuration makes the interpreter skip the
    valid number that follows it: the loop of [NewEVMInterpreter] removes entries
    from the slice it ranges over.  With [1; 3198; 3855] nothing enables EIP-3198
    (BASEFEE keeps the zero price of an undefined opcode), though the number stays
    listed as active; with two unknown numbers the loop panics. *)
Theorem ExtraEips_skips_entry :
  price_and_eips BASEFEE [3198; 3855] = Some (Some GasQuickStep, [3198; 3855]) /\
  price_and_eips BASEFEE [1; 3198; 3855] = Some (Some 0, [3198; 3855]) /\
  NewEVMInterpreter (frontier_env [1; 2]) = GoPanic.
Proof. vm_compute. split_and!; reflexivity. Qed.
