(* ===== verification/Config.v ===== *)
(** * Chain configuration ([params/config.go])

    The fork schedule of a chain, the rules it gives at a block, the check that
    the forks are scheduled in order and the check that a new schedule does not
    change blocks that are already in the chain.

    A pointer to a [big.Int] is an [option Z]; of the engine configurations the code only
    asks whether the pointer is nil. *)

From S2P Require Import Prelude EvmTypes.

(** [params.ChainConfig]. *)
Record ChainConfig : Type := mkChainConfig {
  cfg_ChainID : option Z;
  HomesteadBlock : option Z;
  DAOForkBlock : option Z;
  DAOForkSupport : bool;
  TangerineWhistleBlock : option Z;
  SpuriousDragonBlock : option Z;
  ByzantiumBlock : option Z;
  ConstantinopleBlock : option Z;
  PetersburgBlock : option Z;
  IstanbulBlock : option Z;
  MuirGlacierBlock : option Z;
  BerlinBlock : option Z;
  LondonBlock : option Z;
  ArrowGlacierBlock : option Z;
  GrayGlacierBlock : option Z;
  MergeNetsplitBlock : option Z;
  ShanghaiBlock : option Z;
  CancunBlock : option Z;
  PragueTime : option Z;
  NanoBlock : option Z;
  MoranBlock : option Z;
  BeijingBlock : option Z;
  Eip1559FeeCollector : option Z;
  Eip1559FeeCollectorTransition : option Z;
  Aura : bool;
  Parlia : bool;
  Bor : bool
}.

(** The method [Uint64] of [big.Int]: the low 64 bits of the absolute value. *)
Definition big_Uint64 (x : Z) : Z := u64 (Z.abs x).

Definition isForked (s : option Z) (head : Z) : bool :=
  match s with None => false | Some s => big_Uint64 s <=? head end.

Definition configNumEqual (x y : option Z) : bool :=
  match x, y with
  | None, None => true
  | Some x, Some y => x =? y
  | _, _ => false
  end.

(** ** Rules *)

Module chain.
Definition IsHomestead (c : ChainConfig) (num : Z) : bool := isForked (HomesteadBlock c) num.
Definition IsDAOFork (c : ChainConfig) (num : Z) : bool := isForked (DAOForkBlock c) num.
Definition IsTangerineWhistle (c : ChainConfig) (num : Z) : bool := isForked (TangerineWhistleBlock c) num.
Definition IsSpuriousDragon (c : ChainConfig) (num : Z) : bool := isForked (SpuriousDragonBlock c) num.
Definition IsByzantium (c : ChainConfig) (num : Z) : bool := isForked (ByzantiumBlock c) num.
Definition IsConstantinople (c : ChainConfig) (num : Z) : bool := isForked (ConstantinopleBlock c) num.
Definition IsMoran (c : ChainConfig) (num : Z) : bool := isForked (MoranBlock c) num.
Definition IsNano (c : ChainConfig) (num : Z) : bool := isForked (NanoBlock c) num.
Definition IsPetersburg (c : ChainConfig) (num : Z) : bool :=
  isForked (PetersburgBlock c) num ||
  match PetersburgBlock c with None => isForked (ConstantinopleBlock c) num | Some _ => false end.
Definition IsIstanbul (c : ChainConfig) (num : Z) : bool := isForked (IstanbulBlock c) num.
Definition IsBerlin (c : ChainConfig) (num : Z) : bool := isForked (BerlinBlock c) num.
Definition IsLondon (c : ChainConfig) (num : Z) : bool := isForked (LondonBlock c) num.
Definition IsShanghai (c : ChainConfig) (num : Z) : bool := isForked (ShanghaiBlock c) num.
Definition IsCancun (c : ChainConfig) (num : Z) : bool := isForked (CancunBlock c) num.
Definition IsPrague (c : ChainConfig) (time : Z) : bool := isForked (PragueTime c) time.
Definition IsBeijing (c : ChainConfig) (num : Z) : bool := isForked (BeijingBlock c) num.
Definition IsEip1559FeeCollector (c : ChainConfig) (num : Z) : bool :=
  match Eip1559FeeCollector c with
  | None => false
  | Some _ => isForked (Eip1559FeeCollectorTransition c) num
  end.
End chain.

Definition RulesOf (c : ChainConfig) (num : Z) : Rules := {|
  ChainID := default 0 (cfg_ChainID c);
  IsHomestead := chain.IsHomestead c num;
  IsTangerineWhistle := chain.IsTangerineWhistle c num;
  IsSpuriousDragon := chain.IsSpuriousDragon c num;
  IsByzantium := chain.IsByzantium c num;
  IsConstantinople := chain.IsConstantinople c num;
  IsPetersburg := chain.IsPetersburg c num;
  IsIstanbul := chain.IsIstanbul c num;
  IsBerlin := chain.IsBerlin c num;
  IsLondon := chain.IsLondon c num;
  IsShanghai := chain.IsShanghai c num;
  IsCancun := chain.IsCancun c num;
  IsPrague := chain.IsPrague c num;
  IsNano := chain.IsNano c num;
  IsMoran := chain.IsMoran c num;
  IsEip1559FeeCollector := chain.IsEip1559FeeCollector c num;
  IsParlia := Parlia c;
  IsStarknet := false;
  IsAura := Aura c;
  IsBeijing := chain.IsBeijing c num
|}.

(** ** The order of the forks *)

Record fork : Type := mkFork { name : string; block : option Z; optional : bool }.

Inductive ForkOrderError : Type :=
| NotEnabled (last cur : string) (at_ : Z)
| OutOfOrder (last : string) (last_at : Z) (cur : string) (at_ : Z).

(** The loop of [CheckConfigForkOrder]; [None] is the zero [lastFork], whose name
    is empty. *)
Fixpoint fork_order (lastFork : option fork) (forks : list fork) : option ForkOrderError :=
  match forks with
  | [] => None
  | cur :: forks =>
      let next := if negb (optional cur) || match block cur with Some _ => true | None => false end
                  then Some cur else lastFork in
      match lastFork with
      | None => fork_order next forks
      | Some last =>
          match block last, block cur with
          | None, Some b => Some (NotEnabled (name last) (name cur) b)
          | Some a, Some b =>
              if b <? a then Some (OutOfOrder (name last) a (name cur) b) else fork_order next forks
          | _, None => fork_order next forks
          end
      end
  end.

Definition fork_list (c : ChainConfig) : list fork := [
  mkFork "homesteadBlock" (HomesteadBlock c) false;
  mkFork "daoForkBlock" (DAOForkBlock c) true;
  mkFork "eip150Block" (TangerineWhistleBlock c) false;
  mkFork "eip155Block" (SpuriousDragonBlock c) false;
  mkFork "byzantiumBlock" (ByzantiumBlock c) false;
  mkFork "constantinopleBlock" (ConstantinopleBlock c) false;
  mkFork "petersburgBlock" (PetersburgBlock c) false;
  mkFork "istanbulBlock" (IstanbulBlock c) false;
  mkFork "muirGlacierBlock" (MuirGlacierBlock c) true;
  mkFork "berlinBlock" (BerlinBlock c) false;
  mkFork "londonBlock" (LondonBlock c) false;
  mkFork "arrowGlacierBlock" (ArrowGlacierBlock c) true;
  mkFork "grayGlacierBlock" (GrayGlacierBlock c) true;
  mkFork "mergeNetsplitBlock" (MergeNetsplitBlock c) true;
  mkFork "shanghaiBlock" (ShanghaiBlock c) false;
  mkFork "cancunBlock" (CancunBlock c) false ].

Definition CheckConfigForkOrder (c : ChainConfig) : option ForkOrderError :=
  if match cfg_ChainID c with Some id => big_Uint64 id =? 77 | None => false end then None
  else fork_order None (fork_list c).

(** ** Compatible configurations *)

Record ConfigCompatError : Type := mkConfigCompatError {
  What : string;
  StoredConfig : option Z;
  NewConfig : option Z;
  RewindTo : Z
}.

Definition isForkIncompatible (s1 s2 : option Z) (head : Z) : bool :=
  (isForked s1 head || isForked s2 head) && negb (configNumEqual s1 s2).

Definition newCompatError (what : string) (storedblock newblock : option Z) : ConfigCompatError :=
  let rew := match storedblock, newblock with
             | None, _ => newblock
             | Some _, None => storedblock
             | Some s, Some n => if s <? n then storedblock else newblock
             end in
  mkConfigCompatError what storedblock newblock
    (match rew with
     | Some r => if 0 <? r then u64 (big_Uint64 r - 1) else 0
     | None => 0
     end).

Definition checkCompatible (c newcfg : ChainConfig) (head : Z) : option ConfigCompatError :=
  let err what (f : ChainConfig -> option Z) := Some (newCompatError what (f c) (f newcfg)) in
  let bad (f : ChainConfig -> option Z) := isForkIncompatible (f c) (f newcfg) head in
  if bad HomesteadBlock then err "Homestead fork block" HomesteadBlock else
  if bad DAOForkBlock then err "DAO fork block" DAOForkBlock else
  if chain.IsDAOFork c head && negb (Bool.eqb (DAOForkSupport c) (DAOForkSupport newcfg))
  then err "DAO fork support flag" DAOForkBlock else
  if bad TangerineWhistleBlock then err "Tangerine Whistle fork block" TangerineWhistleBlock else
  if bad SpuriousDragonBlock then err "Spurious Dragon fork block" SpuriousDragonBlock else
  if chain.IsSpuriousDragon c head && negb (configNumEqual (cfg_ChainID c) (cfg_ChainID newcfg))
  then err "EIP155 chain ID" SpuriousDragonBlock else
  if bad ByzantiumBlock then err "Byzantium fork block" ByzantiumBlock else
  if bad ConstantinopleBlock then err "Constantinople fork block" ConstantinopleBlock else
  if bad PetersburgBlock && isForkIncompatible (ConstantinopleBlock c) (PetersburgBlock newcfg) head
  then err "Petersburg fork block" PetersburgBlock else
  if bad IstanbulBlock then err "Istanbul fork block" IstanbulBlock else
  if bad MuirGlacierBlock then err "Muir Glacier fork block" MuirGlacierBlock else
  if bad BerlinBlock then err "Berlin fork block" BerlinBlock else
  if bad LondonBlock then err "London fork block" LondonBlock else
  if bad ArrowGlacierBlock then err "Arrow Glacier fork block" ArrowGlacierBlock else
  if bad GrayGlacierBlock then err "Gray Glacier fork block" GrayGlacierBlock else
  if bad MergeNetsplitBlock then err "Merge netsplit block" MergeNetsplitBlock else
  if bad ShanghaiBlock then err "Shanghai fork block" ShanghaiBlock else
  if bad CancunBlock then err "Cancun fork block" CancunBlock else
  None.

(** The loop of [CheckCompatible]. *)
Fixpoint compatible_loop (fuel : nat) (c newcfg : ChainConfig) (lasterr : option ConfigCompatError)
    (bhead : Z) : outcome (option ConfigCompatError) :=
  match fuel with
  | O => NoFuel
  | S fuel =>
      match checkCompatible c newcfg bhead with
      | None => Done lasterr
      | Some err =>
          if match lasterr with Some e => RewindTo err =? RewindTo e | None => false end
          then Done lasterr
          else compatible_loop fuel c newcfg (Some err) (RewindTo err)
      end
  end.

Definition CheckCompatible (fuel : nat) (c newcfg : ChainConfig) (height : Z)
    : outcome (option ConfigCompatError) :=
  compatible_loop fuel c newcfg None height.

(** ** The AmazeChain network *)

Definition AmazeChainConfig : ChainConfig := {|
  cfg_ChainID := Some 100100100;
  HomesteadBlock := Some 0;
  DAOForkBlock := None;
  DAOForkSupport := false;
  TangerineWhistleBlock := Some 0;
  SpuriousDragonBlock := Some 0;
  ByzantiumBlock := Some 0;
  ConstantinopleBlock := Some 0;
  PetersburgBlock := Some 0;
  IstanbulBlock := Some 0;
  MuirGlacierBlock := Some 0;
  BerlinBlock := Some 0;
  LondonBlock := Some 0;
  ArrowGlacierBlock := Some 0;
  GrayGlacierBlock := Some 0;
  MergeNetsplitBlock := None;
  ShanghaiBlock := None;
  CancunBlock := None;
  PragueTime := None;
  NanoBlock := None;
  MoranBlock := None;
  BeijingBlock := Some 10000;
  Eip1559FeeCollector := None;
  Eip1559FeeCollectorTransition := None;
  Aura := false;
  Parlia := false;
  Bor := false
|}.

(** * Theorems about chain configurations

    A schedule that passes [CheckConfigForkOrder] gives rules in which every fork
    brings the earlier ones with it, which discharges the side condition of the
    theorems on the virtual machine; [CheckCompatible] comes to an end and reports
    a block to which the chain can be rewound. *)

From S2P Require Import EvmTheorems.

(** The block numbers of a schedule fit in a [uint64]. *)
Definition fork_u64 (b : option Z) : Prop := forall n, b = Some n -> 0 <= n < two64.

Definition wf_config (c : ChainConfig) : Prop :=
  Forall (fun f => fork_u64 (block f)) (fork_list c).

Lemma isForked_spec b head : fork_u64 b -> isForked b head = true <-> exists n, b = Some n /\ n <= head.
Proof.
  intros H. unfold isForked, big_Uint64. destruct b as [n|].
  - specialize (H n eq_refl). rewrite Z.abs_eq, u64_small by lia. rewrite Z.leb_le. naive_solver.
  - naive_solver.
Qed.

(** ** Fork order *)

Lemma fork_order_above last forks : fork_order (Some last) forks = None ->
  forall cur b, cur ∈ forks -> block cur = Some b -> exists a, block last = Some a /\ a <= b.
Proof.
  revert last. induction forks as [|f forks IH]; intros last H cur b Hin Hb; [by apply not_elem_of_nil in Hin|].
  assert (match block f with Some b => exists a, block last = Some a /\ a <= b | None => True end) as Hf.
  { cbn in H. destruct (block last) as [a|], (block f) as [b'|]; try done.
    destruct (Z.ltb_spec b' a); [done|eauto]. }
  assert (fork_order (if negb (optional f) || match block f with Some _ => true | None => false end
                      then Some f else Some last) forks = None) as Hk.
  { cbn in H. destruct (block last) as [a|], (block f) as [b'|]; try done. by destruct (b' <? a). }
  clear H. apply elem_of_cons in Hin as [->|Hin]; [by rewrite Hb in Hf|].
  destruct (_ || _); [|by eapply IH].
  destruct (IH _ Hk cur b Hin Hb) as (a & Ha & Hle). rewrite Ha in Hf.
  destruct Hf as (a' & Ha' & Hle'). exists a'. split; [done|lia].
Qed.

Lemma fork_order_suffix last pre f post :
  fork_order last (pre ++ f :: post) = None -> optional f = false -> fork_order (Some f) post = None.
Proof.
  revert last. induction pre as [|p pre IH]; intros last H Hf; cbn in H.
  - rewrite Hf in H. cbn in H. destruct last as [last|]; [|done].
    destruct (block last), (block f); try done. by destruct (_ <? _).
  - destruct last as [last|]; [|by eapply IH].
    destruct (block last), (block p); try done; try (by eapply IH).
    destruct (_ <? _); [done|by eapply IH].
Qed.

(** An enabled fork has every required fork before it enabled, at the same block or earlier. *)
Lemma fork_order_enabled last pre f mid g post head :
  fork_order last (pre ++ f :: mid ++ g :: post) = None -> optional f = false ->
  fork_u64 (block f) -> fork_u64 (block g) ->
  isForked (block g) head = true -> isForked (block f) head = true.
Proof.
  intros H Ho Hf Hg. rewrite !isForked_spec by done. intros (b & Hb & Hle).
  apply fork_order_suffix in H; [|done].
  destruct (fork_order_above _ _ H g b) as (a & Ha & Hab); [set_solver|done|].
  exists a. split; [done|lia].
Qed.

(** The forks of the rules, oldest first. *)
Definition rule_chain (r : Rules) : list bool :=
  [IsHomestead r; IsTangerineWhistle r; IsSpuriousDragon r; IsByzantium r; IsConstantinople r;
   IsPetersburg r; IsIstanbul r; IsBerlin r; IsLondon r; IsShanghai r; IsCancun r].

Definition downward_closed (l : list bool) : Prop :=
  forall i j, (i <= j)%nat -> l !! j = Some true -> l !! i = Some true.

Lemma downward_closed_cons b c l :
  (c = true -> b = true) -> downward_closed (c :: l) -> downward_closed (b :: c :: l).
Proof.
  intros Hbc H [|i] [|j] Hij Hj; try done; [|lia|].
  - cbn. f_equal. apply Hbc. specialize (H 0%nat j ltac:(lia) Hj). by injection H.
  - cbn in *. apply (H i j); [lia|done].
Qed.

Lemma downward_closed_singleton b : downward_closed [b].
Proof. intros [|i] [|j] Hij Hj; try done; lia. Qed.

Lemma rules_ordered c num :
  CheckConfigForkOrder c = None -> cfg_ChainID c <> Some 77 -> fork_u64 (cfg_ChainID c) -> wf_config c ->
  downward_closed (rule_chain (RulesOf c num)).
Proof.
  intros H Hid Hu Hwf. unfold CheckConfigForkOrder in H.
  assert (match cfg_ChainID c with Some id => big_Uint64 id =? 77 | None => false end = false) as E.
  { destruct (cfg_ChainID c) as [id|]; [|done]. specialize (Hu id eq_refl). unfold big_Uint64.
    rewrite Z.abs_eq, u64_small by lia. apply Z.eqb_neq. congruence. }
  rewrite E in H. clear E.
  unfold wf_config, fork_list in *. rewrite !Forall_cons_iff in Hwf. cbn [block] in Hwf.
  destruct_and! Hwf.
  assert (forall pre f mid g post, fork_list c = pre ++ f :: mid ++ g :: post -> optional f = false ->
    fork_u64 (block f) -> fork_u64 (block g) ->
    isForked (block g) num = true -> isForked (block f) num = true) as Hstep.
  { intros pre f mid g post E. unfold fork_list in E. rewrite E in H. by apply (fork_order_enabled None pre f mid g post). }
  unfold rule_chain, RulesOf; cbn.
  repeat (apply downward_closed_cons; [|]); [..|apply downward_closed_singleton].
  - exact (Hstep [] _ [_] _ _ eq_refl eq_refl ltac:(done) ltac:(done)).
  - exact (Hstep (take 2 (fork_list c)) _ [] _ _ eq_refl eq_refl ltac:(done) ltac:(done)).
  - exact (Hstep (take 3 (fork_list c)) _ [] _ _ eq_refl eq_refl ltac:(done) ltac:(done)).
  - exact (Hstep (take 4 (fork_list c)) _ [] _ _ eq_refl eq_refl ltac:(done) ltac:(done)).
  - unfold chain.IsPetersburg, chain.IsConstantinople. rewrite orb_true_iff. intros [Hf|Hf].
    + exact (Hstep (take 5 (fork_list c)) _ [] _ _ eq_refl eq_refl ltac:(done) ltac:(done) Hf).
    + by destruct (PetersburgBlock c).
  - unfold chain.IsPetersburg. intros Hf. apply orb_true_iff. left.
    exact (Hstep (take 6 (fork_list c)) _ [] _ _ eq_refl eq_refl ltac:(done) ltac:(done) Hf).
  - exact (Hstep (take 7 (fork_list c)) _ [_] _ _ eq_refl eq_refl ltac:(done) ltac:(done)).
  - exact (Hstep (take 9 (fork_list c)) _ [] _ _ eq_refl eq_refl ltac:(done) ltac:(done)).
  - exact (Hstep (take 10 (fork_list c)) _ [_; _; _] _ _ eq_refl eq_refl ltac:(done) ltac:(done)).
  - exact (Hstep (take 14 (fork_list c)) _ [] _ _ eq_refl eq_refl ltac:(done) ltac:(done)).
Qed.

Lemma ordered_eip150 c num eips :
  downward_closed (rule_chain (RulesOf c num)) -> PragueTime c = None -> 2929 ∉ eips ->
  eip150_before_2929 (RulesOf c num) eips = true.
Proof.
  intros H Hp He. unfold eip150_before_2929. apply orb_true_iff.
  destruct (IsTangerineWhistle (RulesOf c num)) eqn:Ht; [by left|right].
  assert (forall j, (1 <= j)%nat -> rule_chain (RulesOf c num) !! j = Some true -> False) as Hno.
  { intros j Hj Ej. specialize (H 1%nat j Hj Ej). cbn in H. injection H as H. cbn in Ht. congruence. }
  apply andb_true_iff. split.
  - assert (IsPrague (RulesOf c num) = false) as -> by (cbn; unfold chain.IsPrague; by rewrite Hp).
    pose proof (Hno 7%nat ltac:(lia)). pose proof (Hno 8%nat ltac:(lia)).
    pose proof (Hno 9%nat ltac:(lia)). pose proof (Hno 10%nat ltac:(lia)). cbn -[RulesOf] in *.
    destruct (IsBerlin _), (IsLondon _), (IsShanghai _), (IsCancun _); naive_solver.
  - apply forallb_forall. intros x Hx. apply negb_true_iff, Z.eqb_neq. intros ->.
    by apply He, list_elem_of_In.
Qed.

(** ** Compatibility *)

Lemma newCompatError_rewind what b1 b2 head :
  fork_u64 b1 -> fork_u64 b2 -> isForked b1 head || isForked b2 head = true ->
  0 <= RewindTo (newCompatError what b1 b2) /\
  (RewindTo (newCompatError what b1 b2) < head \/ RewindTo (newCompatError what b1 b2) = 0).
Proof.
  intros H1 H2 H. rewrite orb_true_iff, !isForked_spec in H by done.
  assert (forall r, 0 <= r < two64 -> 0 < r -> u64 (big_Uint64 r - 1) = r - 1) as E.
  { intros r Hr Hp. unfold big_Uint64. rewrite Z.abs_eq, (u64_small r), u64_small by lia. done. }
  unfold newCompatError; cbn. destruct b1 as [n1|], b2 as [n2|];
    try pose proof (H1 _ eq_refl); try pose proof (H2 _ eq_refl);
    repeat (case_match; zbool; simplify_eq; rewrite ?E by lia; try lia); naive_solver lia.
Qed.

(** Where two configurations clash, rewinding goes below the head, or to the genesis block. *)
Lemma checkCompatible_rewind c newcfg head err :
  wf_config c -> wf_config newcfg -> checkCompatible c newcfg head = Some err ->
  0 <= RewindTo err /\ (RewindTo err < head \/ RewindTo err = 0).
Proof.
  intros Hc Hn. unfold checkCompatible, chain.IsDAOFork, chain.IsSpuriousDragon.
  unfold wf_config, fork_list in *. rewrite !Forall_cons_iff in Hc, Hn. cbn [block] in Hc, Hn.
  destruct_and! Hc. destruct_and! Hn.
  repeat (match goal with |- (if ?b then _ else _) = _ -> _ => destruct b eqn:? end;
    [intros [= <-]; apply newCompatError_rewind; [done..|];
     unfold isForkIncompatible in *; rewrite ?andb_true_iff in *; rewrite ?orb_true_iff in *; naive_solver|]).
  done.
Qed.

(** What the loop returns: nothing if there is no clash at the head; otherwise an error whose block is
    free of clashes, or the genesis block. *)
Definition rewinds (c newcfg : ChainConfig) (r : option ConfigCompatError) : Prop :=
  forall e, r = Some e -> checkCompatible c newcfg (RewindTo e) = None \/ RewindTo e = 0.

Lemma compatible_loop_done fuel c newcfg last bhead :
  wf_config c -> wf_config newcfg -> 0 <= bhead < Z.of_nat fuel - 1 ->
  (forall e, last = Some e -> RewindTo e = bhead) ->
  exists r, compatible_loop fuel c newcfg last bhead = Done r /\ rewinds c newcfg r /\
    (r = None <-> last = None /\ checkCompatible c newcfg bhead = None).
Proof.
  intros Hc Hn. revert last bhead. induction fuel as [|fuel IH]; intros last bhead Hf Hl; [lia|].
  cbn. destruct (checkCompatible c newcfg bhead) as [err|] eqn:E.
  - destruct (checkCompatible_rewind _ _ _ _ Hc Hn E) as [H0 Hrew].
    destruct last as [e|].
    + rewrite (Hl e eq_refl). destruct (Z.eqb_spec (RewindTo err) bhead) as [Eq|Hne].
      * exists (Some e). split; [done|]. split; [|naive_solver].
        intros e' [= <-]. right. rewrite (Hl e eq_refl). lia.
      * destruct (IH (Some err) (RewindTo err)) as (r & ? & ? & ?); [lia|naive_solver|].
        exists r. naive_solver.
    + destruct fuel as [|fuel]; [lia|].
      destruct (decide (RewindTo err < bhead)) as [Hlt|Hge].
      * destruct (IH (Some err) (RewindTo err)) as (r & ? & ? & ?); [lia|naive_solver|].
        exists r. naive_solver.
      * assert (RewindTo err = bhead) as Eq by lia. cbn. rewrite Eq, E, Eq, Z.eqb_refl.
        exists (Some err). split; [done|]. split; [|naive_solver]. intros e' [= <-]. right. lia.
  - exists last. split; [done|]. split; [|naive_solver].
    intros e ->. left. by rewrite (Hl e eq_refl).
Qed.

(** ** Properties *)

(** A schedule that passes [CheckConfigForkOrder] gives, at every block, rules
    in which every fork has all earlier forks enabled, and in particular rules
    under which EIP-150 comes before EIP-2929, as the gas theorems require.  The
    chain with number 77 is exempt from the check, and Prague is not part of it. *)
Theorem CheckConfigForkOrder_sound c num eips :
  CheckConfigForkOrder c = None -> cfg_ChainID c <> Some 77 -> fork_u64 (cfg_ChainID c) -> wf_config c ->
  PragueTime c = None -> 2929 ∉ eips ->
  downward_closed (rule_chain (RulesOf c num)) /\ eip150_before_2929 (RulesOf c num) eips = true.
Proof.
  intros H Hid Hu Hwf Hp He. pose proof (rules_ordered c num H Hid Hu Hwf).
  split; [done|by apply ordered_eip150].
Qed.

(** [CheckCompatible] comes to an end: its loop takes at most [height + 2]
    turns.  It reports nothing exactly if the configurations agree on all forks up
    to the head; otherwise they agree up to the block it asks to rewind to, unless
    that is the genesis block. *)
Theorem CheckCompatible_rewinds fuel c newcfg height :
  wf_config c -> wf_config newcfg -> 0 <= height -> height + 1 < Z.of_nat fuel ->
  exists r, CheckCompatible fuel c newcfg height = Done r /\
    (r = None <-> checkCompatible c newcfg height = None) /\
    (forall e, r = Some e -> checkCompatible c newcfg (RewindTo e) = None \/ RewindTo e = 0).
Proof.
  intros Hc Hn H0 Hf. destruct (compatible_loop_done fuel c newcfg None height) as (r & E & Hr & Hiff);
    [done|done|lia|done|].
  exists r. split; [done|]. split; [tauto|done].
Qed.

(** ** Witnesses *)

Lemma AmazeChain_wf : wf_config AmazeChainConfig.
Proof. repeat first [apply Forall_nil_2 | apply Forall_cons_2; [intros n E; simplify_eq/=; lia|]]. Qed.

Lemma CheckConfigForkOrder_sound_witness :
  downward_closed (rule_chain (RulesOf AmazeChainConfig 5)) /\
  eip150_before_2929 (RulesOf AmazeChainConfig 5) [3855] = true.
Proof.
  apply CheckConfigForkOrder_sound; [reflexivity|discriminate|intros n [= <-]; lia|apply AmazeChain_wf|reflexivity|].
  by rewrite list_elem_of_singleton.
Defined.

(** AmazeChain with London moved from block 0 to block 5. *)
Definition late_London : ChainConfig :=
  let c := AmazeChainConfig in
  mkChainConfig (cfg_ChainID c) (HomesteadBlock c) (DAOForkBlock c) (DAOForkSupport c) (TangerineWhistleBlock c)
    (SpuriousDragonBlock c) (ByzantiumBlock c) (ConstantinopleBlock c) (PetersburgBlock c) (IstanbulBlock c)
    (MuirGlacierBlock c) (BerlinBlock c) (Some 5) (Some 6) (Some 7) None None None None None None
    (BeijingBlock c) None None false false false.

Lemma late_London_wf : wf_config late_London.
Proof. repeat first [apply Forall_nil_2 | apply Forall_cons_2; [intros n E; simplify_eq/=; lia|]]. Qed.

Lemma CheckCompatible_rewinds_witness :
  exists r, CheckCompatible 100 late_London AmazeChainConfig 9 = Done r /\
    (r = None <-> checkCompatible late_London AmazeChainConfig 9 = None) /\
    (forall e, r = Some e -> checkCompatible late_London AmazeChainConfig (RewindTo e) = None \/ RewindTo e = 0).
Proof. apply CheckCompatible_rewinds; [apply late_London_wf|apply AmazeChain_wf|lia|lia]. Defined.
