(* ===== verification/Header.v ===== *)
(** * Block headers and the rules between a header and its parent

    The header of [common/block/header.go], the EIP-1559 base fee and the gas
    limit checks of [internal/consensus/misc], and the hash lookup of
    [internal/evm.go] that BLOCKHASH uses. *)

From S2P Require Import Prelude Config.

Module header.
(** [block.Header] without its cached hash; [Number] is never nil in a header the
    node handles. *)
Record Header : Type := mkHeader {
  ParentHash : Z;
  Coinbase : Z;
  Root : Z;
  TxHash : Z;
  ReceiptHash : Z;
  Bloom : bytes;
  Difficulty : option Z;
  Number : Z;
  GasLimit : Z;
  GasUsed : Z;
  Time : Z;
  MixDigest : Z;
  Nonce : Z;
  Extra : bytes;
  BaseFee : option Z;
  Signature : bytes
}.
End header.

(** ** Gas limit and base fee *)

Definition MinGasLimit : Z := 5000.
Definition BaseFeeChangeDenominator : Z := 8.
Definition ElasticityMultiplier : Z := 2.
Definition InitialBaseFee : Z := 1000000000.

Inductive HeaderError : Type :=
| InvalidGasLimit (have want margin : Z)
| GasLimitBelowMin
| MissingBaseFee
| InvalidBaseFee (expected have : Z) (parentBaseFee : option Z) (parentGasUsed : Z).

(** [params.GasLimitBoundDivisor] is a variable: 1024, or 256 after
    [ApplyBinanceSmartChainParams]. *)
Definition VerifyGaslimit (GasLimitBoundDivisor parentGasLimit headerGasLimit : Z) : option HeaderError :=
  let diff := i64 (i64 parentGasLimit - i64 headerGasLimit) in
  let diff := if diff <? 0 then i64 (- diff) else diff in
  let limit := parentGasLimit / GasLimitBoundDivisor in
  if limit <=? u64 diff then Some (InvalidGasLimit headerGasLimit parentGasLimit (u64 (limit - 1)))
  else if headerGasLimit <? MinGasLimit then Some GasLimitBelowMin
  else None.

(** [math.BigMax]. *)
Definition BigMax (x y : Z) : Z := if x <? y then y else x.

(** The base fee of the child of [parent].  A nil [BaseFee] is a nil dereference,
    a division by zero panics. *)
Definition CalcBaseFee (config : ChainConfig) (parent : header.Header) : outcome Z :=
  if negb (chain.IsLondon config (u64 (header.Number parent))) then Done InitialBaseFee else
  let parentGasTarget := header.GasLimit parent / ElasticityMultiplier in
  match header.BaseFee parent with
  | None => GoPanic
  | Some baseFee =>
      if header.GasUsed parent =? parentGasTarget then Done baseFee
      else if parentGasTarget <? header.GasUsed parent then
        let gasUsedDelta := u64 (header.GasUsed parent - parentGasTarget) in
        let x := baseFee * gasUsedDelta in
        if parentGasTarget =? 0 then GoPanic else
        let y := x / parentGasTarget in
        let baseFeeDelta := BigMax (y / BaseFeeChangeDenominator) 1 in
        Done (baseFee + baseFeeDelta)
      else
        let gasUsedDelta := u64 (parentGasTarget - header.GasUsed parent) in
        let x := baseFee * gasUsedDelta in
        let y := x / parentGasTarget in
        let baseFeeDelta := y / BaseFeeChangeDenominator in
        Done (BigMax (baseFee - baseFeeDelta) 0)
  end.

Definition VerifyEip1559Header (GasLimitBoundDivisor : Z) (config : ChainConfig)
    (parent header : header.Header) : outcome (option HeaderError) :=
  let parentGasLimit :=
    if negb (chain.IsLondon config (u64 (header.Number parent)))
    then u64 (header.GasLimit parent * ElasticityMultiplier) else header.GasLimit parent in
  match VerifyGaslimit GasLimitBoundDivisor parentGasLimit (header.GasLimit header) with
  | Some err => Done (Some err)
  | None =>
      match header.BaseFee header with
      | None => Done (Some MissingBaseFee)
      | Some baseFee =>
          expectedBaseFee ← CalcBaseFee config parent;
          if negb (baseFee =? expectedBaseFee)
          then Done (Some (InvalidBaseFee expectedBaseFee baseFee (header.BaseFee parent) (header.GasUsed parent)))
          else Done None
      end
  end.

(** ** Hashes of ancestors *)

Section GetHash.
(** [getHeader] reads the chain. *)
Context (ref : header.Header) (getHeader : Z -> Z -> option header.Header).

(** The loop of [GetHashFn]; the state is the slice [cache]. *)
Fixpoint hash_loop (fuel : nat) (n lastKnownHash lastKnownNumber : Z) : M (list Z) Z :=
  match fuel with
  | O => fun _ => NoFuel
  | S fuel =>
      match getHeader lastKnownHash lastKnownNumber with
      | None => mret 0
      | Some header =>
          _ ← modify (fun cache => cache ++ [header.ParentHash header]);
          let lastKnownHash := header.ParentHash header in
          let lastKnownNumber := u64 (u64 (header.Number header) - 1) in
          if n =? lastKnownNumber then mret lastKnownHash
          else hash_loop fuel n lastKnownHash lastKnownNumber
      end
  end.

(** The closure [GetHashFn] returns. *)
Definition GetHashFn (fuel : nat) (n : Z) : M (list Z) Z :=
  _ ← modify (fun cache => match cache with [] => [header.ParentHash ref] | _ => cache end);
  cache ← get;
  let idx := u64 (u64 (header.Number ref) - n - 1) in
  if idx <? zlen cache then must (znth cache idx) else
  lastKnownHash ← must (znth cache (zlen cache - 1));
  let lastKnownNumber := u64 (u64 (header.Number ref) - zlen cache) in
  hash_loop fuel n lastKnownHash lastKnownNumber.
End GetHash.

(** * Theorems about headers

    The base fee moves by at most one eighth per block and in the direction of the
    demand; the EIP-1559 header check accepts exactly the headers it describes; the
    cached hash lookup agrees with a walk along the chain. *)

(** Below 2^63 the signed subtraction is the absolute difference. *)
Lemma VerifyGaslimit_iff div p h :
  0 <= p < two63 -> 0 <= h < two63 ->
  VerifyGaslimit div p h = None <-> Z.abs (p - h) < p / div /\ MinGasLimit <= h.
Proof.
  intros Hp Hh. unfold VerifyGaslimit. rewrite (i64_small p), (i64_small h), (i64_small (p - h)) by lia.
  assert ((if p - h <? 0 then i64 (- (p - h)) else p - h) = Z.abs (p - h)) as ->.
  { destruct (Z.ltb_spec (p - h) 0); [rewrite i64_small|]; lia. }
  rewrite u64_small by lia. zbool; naive_solver lia.
Qed.

Section BaseFee.
Context (config : ChainConfig) (parent : header.Header) (fee : Z).
Context (Hlondon : chain.IsLondon config (u64 (header.Number parent)) = true).
Context (Hfee : header.BaseFee parent = Some fee) (Hpos : 0 <= fee).
Context (Hlim : 2 <= header.GasLimit parent < two64) (Hused : 0 <= header.GasUsed parent < two64).

Lemma target_pos : 1 <= header.GasLimit parent / 2.
Proof. apply Z.div_le_lower_bound; lia. Qed.

Lemma CalcBaseFee_eq : let t := header.GasLimit parent / 2 in let u := header.GasUsed parent in
  CalcBaseFee config parent = Done (
    if u =? t then fee
    else if t <? u then fee + Z.max (fee * (u - t) / t / 8) 1
    else Z.max (fee - fee * (t - u) / t / 8) 0).
Proof.
  cbv zeta. pose proof target_pos. unfold CalcBaseFee, BigMax, ElasticityMultiplier, BaseFeeChangeDenominator.
  assert (header.GasLimit parent / 2 < two64) by (apply Z.div_lt_upper_bound; lia).
  rewrite Hlondon, Hfee. cbn [negb]. destruct (Z.eqb_spec (header.GasUsed parent) (header.GasLimit parent / 2)); [done|].
  destruct (Z.ltb_spec (header.GasLimit parent / 2) (header.GasUsed parent)).
  - destruct (Z.eqb_spec (header.GasLimit parent / 2) 0); [lia|]. rewrite u64_small by lia.
    do 2 f_equal. zbool; lia.
  - rewrite u64_small by lia. f_equal. zbool; lia.
Qed.
End BaseFee.

(** A share [d / t] with [d <= t] of the fee, divided by eight, is at most an eighth. *)
Lemma fee_share fee d t : 0 <= fee -> 0 <= d <= t -> 0 < t -> 0 <= fee * d / t / 8 <= fee / 8.
Proof.
  intros Hf Hd Ht. assert (0 <= fee * d / t <= fee).
  { split; [apply Z.div_pos; nia|]. apply Z.div_le_upper_bound; nia. }
  split; [apply Z.div_pos; lia|apply Z.div_le_mono; lia].
Qed.

(** ** Ancestors *)

Section Ancestors.
Context (ref : header.Header) (getHeader : Z -> Z -> option header.Header).

(** The hash of the block with number [Number ref - 1 - k], by walking the chain. *)
Fixpoint ancestor (k : nat) : option Z :=
  match k with
  | O => Some (header.ParentHash ref)
  | S k => h ← ancestor k;
           hd ← getHeader h (header.Number ref - 1 - Z.of_nat k);
           Some (header.ParentHash hd)
  end.

(** The cache holds the hashes of the first ancestors. *)
Definition cache_ok (cache : list Z) : Prop :=
  zlen cache <= header.Number ref /\ forall i x, cache !! i = Some x -> ancestor i = Some x.

(** [getHeader] answers with a header of the number it was asked for. *)
Definition numbered : Prop := forall h num hd, getHeader h num = Some hd -> header.Number hd = num.

Context (Hnum : numbered) (Href : 0 <= header.Number ref < two64).

Lemma ancestor_none_above k j : ancestor k = None -> (k <= j)%nat -> ancestor j = None.
Proof. intros H. induction 1 as [|j _ IH]; [done|]. cbn. by rewrite IH. Qed.

Lemma hash_loop_ok fuel n k h cache :
  cache_ok cache -> length cache = S k -> ancestor k = Some h ->
  0 <= n -> n < header.Number ref - 1 - Z.of_nat k < Z.of_nat fuel ->
  exists cache', cache_ok cache' /\
    hash_loop getHeader fuel n h (header.Number ref - 1 - Z.of_nat k) cache
      = Done (default 0 (ancestor (Z.to_nat (header.Number ref - n - 1))), cache').
Proof.
  revert k h cache. induction fuel as [|fuel IH]; intros k h cache [Hlen Hc] Hk Hh Hn Hf; [lia|].
  cbn [hash_loop]. destruct (getHeader _ _) as [hd|] eqn:E.
  - pose proof (Hnum _ _ _ E) as En.
    assert (ancestor (S k) = Some (header.ParentHash hd)) as Ha by (cbn; rewrite Hh; cbn; by rewrite E).
    assert (cache_ok (cache ++ [header.ParentHash hd])) as Hc'.
    { split; [unfold zlen in *; rewrite length_app; cbn; lia|]. intros i x Hi.
      apply lookup_app_Some in Hi as [Hi|[Hi Hi']]; [by apply Hc|].
      apply list_lookup_singleton_Some in Hi' as [Hi' <-]. by replace i with (S k) by lia. }
    unfold mbind, M_bind, modify. cbv beta iota.
    rewrite En, (u64_small (header.Number ref - 1 - Z.of_nat k)), u64_small by lia.
    destruct (Z.eqb_spec n (header.Number ref - 1 - Z.of_nat k - 1)) as [->|Hne].
    + exists (cache ++ [header.ParentHash hd]). split; [done|].
      replace (Z.to_nat _) with (S k) by lia. by rewrite Ha.
    + destruct (IH (S k) (header.ParentHash hd) (cache ++ [header.ParentHash hd])) as (cache' & ? & Eq);
        [done|rewrite length_app; cbn; lia|done|done|lia|].
      exists cache'. split; [done|]. rewrite <- Eq. f_equal. lia.
  - exists cache. split; [done|]. rewrite (ancestor_none_above (S k)); [done|cbn; rewrite Hh; cbn; by rewrite E|lia].
Qed.

Lemma GetHashFn_ok fuel n cache :
  cache_ok cache -> 0 <= n < header.Number ref -> header.Number ref < Z.of_nat fuel ->
  exists cache', cache_ok cache' /\
    GetHashFn ref getHeader fuel n cache
      = Done (default 0 (ancestor (Z.to_nat (header.Number ref - n - 1))), cache').
Proof.
  intros Hc Hn Hf. unfold GetHashFn, mbind, M_bind, modify, get. cbv beta iota.
  set (cache1 := match cache with [] => [header.ParentHash ref] | _ => cache end).
  assert (cache_ok cache1) as Hc1.
  { subst cache1. destruct cache; [|done]. split; [unfold zlen; cbn; lia|]. by intros [|i] x [= <-]. }
  assert (0 < zlen cache1) as Hpos by (subst cache1; destruct cache; unfold zlen; cbn; lia).
  clearbody cache1. clear Hc cache. pose proof Hc1 as [Hlen Hin].
  rewrite (u64_small (header.Number ref)), (u64_small (_ - n - 1)), (u64_small (_ - zlen _)) by lia.
  destruct (Z.ltb_spec (header.Number ref - n - 1) (zlen cache1)).
  - exists cache1. split; [done|]. destruct (znth_Some cache1 (header.Number ref - n - 1)) as [x Hx]; [lia|].
    rewrite Hx. unfold znth in Hx. destruct (_ <? 0); [done|]. by rewrite (Hin _ _ Hx).
  - destruct (znth_Some cache1 (zlen cache1 - 1)) as [h Hh]; [lia|]. rewrite Hh. cbn [must].
    unfold znth in Hh. destruct (_ <? 0); [done|].
    destruct (hash_loop_ok fuel n (Z.to_nat (zlen cache1 - 1)) h cache1) as (cache' & ? & E);
      [done|unfold zlen in *; lia|by apply Hin|lia|lia|].
    exists cache'. split; [done|]. rewrite <- E. unfold mret, M_ret. f_equal. lia.
Qed.
End Ancestors.

(** ** Properties *)


(** For gas limits below 2^62 the EIP-1559 check accepts a header exactly if its
    gas limit differs from the parent's (doubled at the fork) by less than a share
    of it and is at least 5000, and its base fee is the computed one. *)
Theorem VerifyEip1559Header_iff div config parent hdr fee :
  0 <= header.GasLimit parent < two63 / 2 -> 0 <= header.GasLimit hdr < two63 ->
  CalcBaseFee config parent = Done fee ->
  let limit := if chain.IsLondon config (u64 (header.Number parent))
               then header.GasLimit parent else 2 * header.GasLimit parent in
  VerifyEip1559Header div config parent hdr = Done None <->
  Z.abs (limit - header.GasLimit hdr) < limit / div /\ 5000 <= header.GasLimit hdr /\
  header.BaseFee hdr = Some fee.
Proof.
  intros Hp Hh E limit. change (two63 / 2) with 4611686018427387904 in Hp. unfold VerifyEip1559Header.
  assert ((if negb (chain.IsLondon config (u64 (header.Number parent)))
           then u64 (header.GasLimit parent * ElasticityMultiplier) else header.GasLimit parent) = limit) as ->.
  { subst limit. unfold ElasticityMultiplier. destruct (chain.IsLondon _ _); cbn; [done|]. rewrite u64_small; lia. }
  assert (0 <= limit < two63) by (subst limit; destruct (chain.IsLondon _ _); lia).
  pose proof (VerifyGaslimit_iff div limit (header.GasLimit hdr) ltac:(lia) ltac:(lia)) as Hg. unfold MinGasLimit in Hg.
  destruct (VerifyGaslimit _ _ _); [naive_solver|]. rewrite E. cbn.
  destruct (header.BaseFee hdr) as [b|]; [|naive_solver]. destruct (Z.eqb_spec b fee); naive_solver.
Qed.

(** The hash lookup behind BLOCKHASH returns, for every block below the
    reference header, the hash found by walking the chain from that header (zero if
    the walk meets a missing header), whatever earlier lookups left in its cache;
    the cache stays a prefix of the chain and the loop ends. *)
Theorem GetHashFn_ancestor ref getHeader fuel n cache :
  numbered getHeader -> 0 <= header.Number ref < two64 -> cache_ok ref getHeader cache ->
  0 <= n < header.Number ref -> header.Number ref < Z.of_nat fuel ->
  exists cache', cache_ok ref getHeader cache' /\
    GetHashFn ref getHeader fuel n cache
      = Done (default 0 (ancestor ref getHeader (Z.to_nat (header.Number ref - n - 1))), cache').
Proof. intros. by apply GetHashFn_ok. Qed.

(** ** Witnesses *)

Definition sample_header (parentHash number gasUsed : Z) : header.Header :=
  header.mkHeader parentHash 0 0 0 0 [] (Some 2) number 30000000 gasUsed 0 0 0 [] (Some 1000) [].


Lemma VerifyEip1559Header_iff_witness : let p := sample_header 7 5 15000000 in
  VerifyEip1559Header 1024 AmazeChainConfig p (sample_header 8 6 0) = Done None <->
  Z.abs (30000000 - 30000000) < 30000000 / 1024 /\ 5000 <= 30000000 /\ Some 1000 = Some 1000.
Proof.
  apply (VerifyEip1559Header_iff 1024 AmazeChainConfig (sample_header 7 5 15000000) (sample_header 8 6 0) 1000);
    by vm_compute.
Defined.

(** A chain in which block [k] has hash [100 + k]. *)
Definition sample_chain (h num : Z) : option header.Header :=
  if (h =? 100 + num) && (0 <? num) then Some (sample_header (99 + num) num 0) else None.

Lemma GetHashFn_ancestor_witness :
  exists cache', cache_ok (sample_header 109 10 0) sample_chain cache' /\
    GetHashFn (sample_header 109 10 0) sample_chain 20 6 [109; 108] = Done (106, cache').
Proof.
  apply (GetHashFn_ancestor (sample_header 109 10 0) sample_chain 20 6 [109; 108]); try (cbn; lia).
  - intros h num hd. unfold sample_chain. destruct (_ && _); [|done]. by intros [= <-].
  - split; [by vm_compute|]. by intros [|[|i]] x [= <-].
Defined.
