(* ===== verification/Transaction.v ===== *)
(** * Transactions ([common/transaction])

    The three kinds of transaction data, their deep copy, the fee accessors, the
    message a transaction becomes when it is executed, and the protobuf form.

    A pointer is an option.  A transaction is its inner data: the caches of hash,
    size and sender are not modelled, the signature is not checked here.
    [EffectiveGasTip] writes through the pointer it reads, so it acts on the
    transaction as a state. *)

From S2P Require Import Prelude Uint256 Wire.

(** [transaction.AccessList]: addresses with storage keys. *)
Notation AccessTuples := (list (Z * list Z)).

Definition StorageKeys (al : AccessTuples) : Z := foldr (fun '(_, keys) sum => sum + zlen keys) 0 al.

Record LegacyTx : Type := mkLegacyTx {
  l_Nonce : Z;
  l_GasPrice : option Z;
  l_Gas : Z;
  l_To : option Z;
  l_From : option Z;
  l_Value : option Z;
  l_Data : bytes;
  l_V : option Z; l_R : option Z; l_S : option Z;
  l_Sign : option bytes
}.

Record AccessListTx : Type := mkAccessListTx {
  a_ChainID : option Z;
  a_Nonce : Z;
  a_GasPrice : option Z;
  a_Gas : Z;
  a_To : option Z;
  a_From : option Z;
  a_Value : option Z;
  a_Data : bytes;
  a_AccessList : AccessTuples;
  a_Sign : option bytes;
  a_V : option Z; a_R : option Z; a_S : option Z
}.

Record DynamicFeeTx : Type := mkDynamicFeeTx {
  d_ChainID : option Z;
  d_Nonce : Z;
  d_GasTipCap : option Z;
  d_GasFeeCap : option Z;
  d_Gas : Z;
  d_To : option Z;
  d_From : option Z;
  d_Value : option Z;
  d_Data : bytes;
  d_AccessList : AccessTuples;
  d_Sign : option bytes;
  d_V : option Z; d_R : option Z; d_S : option Z
}.

Inductive TxData : Type :=
| Legacy (tx : LegacyTx)
| AccessListT (tx : AccessListTx)
| DynamicFee (tx : DynamicFeeTx).

(** ** Accessors *)

Definition txType (tx : TxData) : Z :=
  match tx with Legacy _ => 0 | AccessListT _ => 1 | DynamicFee _ => 2 end.
Definition tx_AccessList (tx : TxData) : AccessTuples :=
  match tx with Legacy _ => [] | AccessListT t => a_AccessList t | DynamicFee t => d_AccessList t end.
Definition tx_Data (tx : TxData) : bytes :=
  match tx with Legacy t => l_Data t | AccessListT t => a_Data t | DynamicFee t => d_Data t end.
Definition tx_Gas (tx : TxData) : Z :=
  match tx with Legacy t => l_Gas t | AccessListT t => a_Gas t | DynamicFee t => d_Gas t end.
Definition tx_GasPrice (tx : TxData) : option Z :=
  match tx with Legacy t => l_GasPrice t | AccessListT t => a_GasPrice t | DynamicFee t => d_GasFeeCap t end.
Definition tx_GasTipCap (tx : TxData) : option Z :=
  match tx with Legacy t => l_GasPrice t | AccessListT t => a_GasPrice t | DynamicFee t => d_GasTipCap t end.
Definition tx_GasFeeCap (tx : TxData) : option Z :=
  match tx with Legacy t => l_GasPrice t | AccessListT t => a_GasPrice t | DynamicFee t => d_GasFeeCap t end.
Definition tx_Value (tx : TxData) : option Z :=
  match tx with Legacy t => l_Value t | AccessListT t => a_Value t | DynamicFee t => d_Value t end.
Definition tx_Nonce (tx : TxData) : Z :=
  match tx with Legacy t => l_Nonce t | AccessListT t => a_Nonce t | DynamicFee t => d_Nonce t end.
Definition tx_To (tx : TxData) : option Z :=
  match tx with Legacy t => l_To t | AccessListT t => a_To t | DynamicFee t => d_To t end.
Definition tx_From (tx : TxData) : option Z :=
  match tx with Legacy t => l_From t | AccessListT t => a_From t | DynamicFee t => d_From t end.
Definition rawSignatureValues (tx : TxData) : option Z * option Z * option Z :=
  match tx with
  | Legacy t => (l_V t, l_R t, l_S t)
  | AccessListT t => (a_V t, a_R t, a_S t)
  | DynamicFee t => (d_V t, d_R t, d_S t)
  end.

(** ** Deep copies *)

(** [new(uint256.Int)], set if the source is not nil. *)
Definition copy_new (x : option Z) : option Z := Some (default 0 x).

(** [cpy.X.Set(tx.X)] where [cpy.X] is still nil. *)
Definition set_nil (x : option Z) : outcome (option Z) :=
  match x with None => Done None | Some _ => GoPanic end.

(** [copy(cpy.Sign, tx.Sign)] copies into a nil slice, that is nothing. *)
Definition copy_tx (tx : TxData) : outcome TxData :=
  match tx with
  | Legacy t => Done (Legacy {|
      l_Nonce := l_Nonce t; l_GasPrice := copy_new (l_GasPrice t); l_Gas := l_Gas t; l_To := l_To t;
      l_From := l_From t; l_Value := copy_new (l_Value t); l_Data := l_Data t; l_V := copy_new (l_V t);
      l_R := copy_new (l_R t); l_S := copy_new (l_S t); l_Sign := None |})
  | AccessListT t =>
      v ← set_nil (a_V t); r ← set_nil (a_R t); s ← set_nil (a_S t);
      Done (AccessListT {|
        a_ChainID := copy_new (a_ChainID t); a_Nonce := a_Nonce t; a_GasPrice := copy_new (a_GasPrice t);
        a_Gas := a_Gas t; a_To := a_To t; a_From := a_From t; a_Value := copy_new (a_Value t);
        a_Data := a_Data t; a_AccessList := a_AccessList t; a_Sign := None; a_V := v; a_R := r; a_S := s |})
  | DynamicFee t => Done (DynamicFee {|
      d_ChainID := copy_new (d_ChainID t); d_Nonce := d_Nonce t; d_GasTipCap := copy_new (d_GasTipCap t);
      d_GasFeeCap := copy_new (d_GasFeeCap t); d_Gas := d_Gas t; d_To := d_To t; d_From := d_From t;
      d_Value := copy_new (d_Value t); d_Data := d_Data t; d_AccessList := d_AccessList t; d_Sign := None;
      d_V := copy_new (d_V t); d_R := copy_new (d_R t); d_S := copy_new (d_S t) |})
  end.

Definition NewTx (inner : TxData) : outcome TxData := copy_tx inner.

Section Fees.
Context {U : Uint256}.

(** ** Fees *)

Definition Cost (tx : TxData) : outcome Z :=
  price ← deref (tx_GasPrice tx);
  value ← deref (tx_Value tx);
  Done (uint256.Add (uint256.Mul price (tx_Gas tx)) value).

Inductive TipError : Type := ErrGasFeeCapTooLow.

(** The Go function of this name. *)
Definition uint256Min (x y : Z) : Z := if uint256.Gt x y then x else y.

(** [gasFeeCap.Sub(gasFeeCap, baseFee)] on the pointer [tx.GasFeeCap()]; for the first two kinds it is also
    the pointer [tx.GasTipCap()]. *)
Definition sub_feeCap (baseFee : Z) (tx : TxData) : TxData :=
  let sub p := option_map (fun c => uint256.Sub c baseFee) p in
  match tx with
  | Legacy t => Legacy (mkLegacyTx (l_Nonce t) (sub (l_GasPrice t)) (l_Gas t) (l_To t) (l_From t) (l_Value t)
                          (l_Data t) (l_V t) (l_R t) (l_S t) (l_Sign t))
  | AccessListT t => AccessListT (mkAccessListTx (a_ChainID t) (a_Nonce t) (sub (a_GasPrice t)) (a_Gas t) (a_To t)
                          (a_From t) (a_Value t) (a_Data t) (a_AccessList t) (a_Sign t) (a_V t) (a_R t) (a_S t))
  | DynamicFee t => DynamicFee (mkDynamicFeeTx (d_ChainID t) (d_Nonce t) (d_GasTipCap t) (sub (d_GasFeeCap t))
                          (d_Gas t) (d_To t) (d_From t) (d_Value t) (d_Data t) (d_AccessList t) (d_Sign t)
                          (d_V t) (d_R t) (d_S t))
  end.

Definition EffectiveGasTip (baseFee : option Z) : M TxData (option Z * option TipError) :=
  tx ← get;
  match baseFee with
  | None => mret (tx_GasTipCap tx, None)
  | Some baseFee =>
      gasFeeCap ← must (tx_GasFeeCap tx);
      let err := if uint256.Lt gasFeeCap baseFee then Some ErrGasFeeCapTooLow else None in
      _ ← modify (sub_feeCap baseFee);
      tx ← get;
      tip ← must (tx_GasTipCap tx);
      cap ← must (tx_GasFeeCap tx);
      mret (Some (uint256Min tip cap), err)
  end.

Definition EffectiveGasTipValue (baseFee : option Z) : M TxData (option Z) :=
  '(tip, _) ← EffectiveGasTip baseFee;
  mret tip.

(** [Cmp]: -1, 0 or 1. *)
Definition Cmp (x y : Z) : Z := if uint256.Lt x y then -1 else if uint256.Gt x y then 1 else 0.

Definition GasTipCapCmp (tx other : TxData) : outcome Z :=
  a ← deref (tx_GasTipCap tx); b ← deref (tx_GasTipCap other); Done (Cmp a b).

(** On two distinct transactions, both of which it changes. *)
Definition EffectiveGasTipCmp (baseFee : option Z) : M (TxData * TxData) Z :=
  match baseFee with
  | None => '(tx, other) ← get;
            match GasTipCapCmp tx other with Done c => mret c | _ => panic end
  | Some _ =>
      a ← zoom fst (fun t p => (t, p.2)) (EffectiveGasTipValue baseFee);
      b ← zoom snd (fun t p => (p.1, t)) (EffectiveGasTipValue baseFee);
      a ← must a; b ← must b;
      mret (Cmp a b)
  end.

(** ** Messages *)

Record Message : Type := mkMessage {
  to : option Z;
  from : Z;
  nonce : Z;
  amount : Z;
  gasLimit : Z;
  gasPrice : Z;
  feeCap : Z;
  tip : Z;
  data : bytes;
  m_accessList : AccessTuples;
  checkNonce : bool;
  isFree : bool
}.

Definition SetCheckNonce (b : bool) (m : Message) : Message :=
  mkMessage (to m) (from m) (nonce m) (amount m) (gasLimit m) (gasPrice m) (feeCap m) (tip m) (data m)
    (m_accessList m) b (isFree m).
Definition SetIsFree (b : bool) (m : Message) : Message :=
  mkMessage (to m) (from m) (nonce m) (amount m) (gasLimit m) (gasPrice m) (feeCap m) (tip m) (data m)
    (m_accessList m) (checkNonce m) b.

Definition NewMessage (from : Z) (to : option Z) (nonce : Z) (amount : option Z) (gasLimit : Z)
    (gasPrice feeCap tip : option Z) (data : bytes) (accessList : AccessTuples)
    (checkNonce isFree : bool) : outcome Message :=
  amount ← deref amount;
  Done (mkMessage to from nonce amount gasLimit (default 0 gasPrice) (default 0 feeCap) (default 0 tip) data
          accessList checkNonce isFree).

(** The sender is the one the transaction names. *)
Definition AsMessage (tx : TxData) (baseFee : option Z) : outcome Message :=
  gasPrice ← deref (tx_GasPrice tx);
  feeCap ← deref (tx_GasFeeCap tx);
  tip ← deref (tx_GasTipCap tx);
  amount ← deref (tx_Value tx);
  let gasPrice :=
    match baseFee with
    | None => gasPrice
    | Some baseFee =>
        let p := uint256.Add tip baseFee in
        if uint256.Gt p feeCap then feeCap else p
    end in
  from ← deref (tx_From tx);
  Done (mkMessage (tx_To tx) from (tx_Nonce tx) amount (tx_Gas tx) gasPrice feeCap tip (tx_Data tx)
          (tx_AccessList tx) false false).
End Fees.

(** ** Protobuf form *)

(** [types_pb.Transaction]. *)
Record pbTransaction : Type := mkPbTransaction {
  pb_Type : Z;
  pb_Nonce : Z;
  pb_GasPrice : option H256;
  pb_Gas : Z;
  pb_FeePerGas : option H256;
  pb_PriorityFeePerGas : option H256;
  pb_Value : option H256;
  pb_Data : bytes;
  pb_Sign : option bytes;
  pb_To : option H160;
  pb_From : option H160;
  pb_ChainID : Z;
  pb_R : option H256;
  pb_S : option H256;
  pb_V : option H256
}.

(** An address is represented by its value. *)
Definition address_to_pb (a : Z) : H160 := ConvertAddressToH160 (Z_to_be 20 a).
Definition ConvertH160ToPAddress (h : option H160) : outcome (option Z) :=
  b ← ConvertH160toAddress h; Done (Some (be_to_Z b)).

(** [if nil != p { x = Convert(p) }] *)
Definition if_set {A} (p : option A) (convert : option A -> outcome (option Z)) : outcome (option Z) :=
  match p with None => Done None | Some _ => convert p end.

Definition int_from_pb (h : option H256) : outcome (option Z) :=
  z ← ConvertH256ToUint256Int h; Done (Some z).

(** The nil result, for an unknown type, is [None]. *)
Definition txDataFromProtoMessage (pb : pbTransaction) : outcome (option TxData) :=
  if pb_Type pb =? 0 then
    to ← if_set (pb_To pb) ConvertH160ToPAddress;
    from ← ConvertH160ToPAddress (pb_From pb);
    gasPrice ← int_from_pb (pb_GasPrice pb);
    value ← int_from_pb (pb_Value pb);
    v ← if_set (pb_V pb) int_from_pb; r ← if_set (pb_R pb) int_from_pb; s ← if_set (pb_S pb) int_from_pb;
    Done (Some (Legacy (mkLegacyTx (pb_Nonce pb) gasPrice (pb_Gas pb) to from value (pb_Data pb) v r s (pb_Sign pb))))
  else if pb_Type pb =? 1 then
    gasPrice ← int_from_pb (pb_GasPrice pb);
    value ← int_from_pb (pb_Value pb);
    v ← if_set (pb_V pb) int_from_pb; r ← if_set (pb_R pb) int_from_pb; s ← if_set (pb_S pb) int_from_pb;
    to ← if_set (pb_To pb) ConvertH160ToPAddress;
    from ← ConvertH160ToPAddress (pb_From pb);
    Done (Some (AccessListT (mkAccessListTx (Some (pb_ChainID pb)) (pb_Nonce pb) gasPrice (pb_Gas pb) to from value
                               (pb_Data pb) [] (pb_Sign pb) v r s)))
  else if pb_Type pb =? 2 then
    feeCap ← int_from_pb (pb_FeePerGas pb);
    tipCap ← int_from_pb (pb_PriorityFeePerGas pb);
    value ← int_from_pb (pb_Value pb);
    v ← if_set (pb_V pb) int_from_pb; r ← if_set (pb_R pb) int_from_pb; s ← if_set (pb_S pb) int_from_pb;
    to ← if_set (pb_To pb) ConvertH160ToPAddress;
    from ← ConvertH160ToPAddress (pb_From pb);
    Done (Some (DynamicFee (mkDynamicFeeTx (Some (pb_ChainID pb)) (pb_Nonce pb) tipCap feeCap (pb_Gas pb) to from value
                              (pb_Data pb) [] (pb_Sign pb) v r s)))
  else Done None.

Definition FromProtoMessage (pb : pbTransaction) : outcome TxData :=
  inner ← txDataFromProtoMessage pb;
  inner ← deref inner;
  NewTx inner.

Definition int_to_pb (p : option Z) : outcome (option H256) :=
  z ← deref p; Done (Some (ConvertUint256IntToH256 z)).

(** The fields common to the kinds, at the end of [ToProtoMessage]. *)
Definition ToProtoMessage (tx : TxData) : outcome pbTransaction :=
  let to := option_map address_to_pb (tx_To tx) in
  let '(v, r, s) := rawSignatureValues tx in
  let sig p := option_map ConvertUint256IntToH256 p in
  match tx with
  | AccessListT t =>
      chainID ← deref (a_ChainID t);
      gasPrice ← int_to_pb (a_GasPrice t);
      value ← int_to_pb (a_Value t);
      from ← deref (a_From t);
      Done (mkPbTransaction 1 (a_Nonce t) gasPrice (a_Gas t) None None value (a_Data t) (a_Sign t) to
              (Some (address_to_pb from)) (u64 chainID) (sig r) (sig s) (sig v))
  | Legacy t =>
      gasPrice ← int_to_pb (l_GasPrice t);
      value ← int_to_pb (l_Value t);
      from ← deref (l_From t);
      Done (mkPbTransaction 0 (l_Nonce t) gasPrice (l_Gas t) None None value (l_Data t) (l_Sign t) to
              (Some (address_to_pb from)) 0 (sig r) (sig s) (sig v))
  | DynamicFee t =>
      chainID ← deref (d_ChainID t);
      gasPrice ← int_to_pb (d_GasFeeCap t);
      value ← int_to_pb (d_Value t);
      from ← deref (d_From t);
      feePerGas ← int_to_pb (d_GasFeeCap t);
      priorityFeePerGas ← int_to_pb (d_GasTipCap t);
      Done (mkPbTransaction 2 (d_Nonce t) gasPrice (d_Gas t) feePerGas priorityFeePerGas value (d_Data t)
              (d_Sign t) to (Some (address_to_pb from)) (u64 chainID) (sig r) (sig s) (sig v))
  end.

(** * Theorems about transactions

    What the protobuf form keeps and loses, and what the effective tip computes. *)

Definition in_range (bound : Z) (p : option Z) : Prop := exists z, p = Some z /\ 0 <= z < bound.

(** A signed transaction whose pointers are set. *)
Definition wf_tx (tx : TxData) : Prop :=
  in_range two256 (tx_GasPrice tx) /\ in_range two256 (tx_GasTipCap tx) /\ in_range two256 (tx_Value tx) /\
  in_range two160 (tx_From tx) /\ (forall a, tx_To tx = Some a -> 0 <= a < two160) /\
  (let '(v, r, s) := rawSignatureValues tx in
   in_range two256 v /\ in_range two256 r /\ in_range two256 s) /\
  match tx with
  | Legacy _ => True
  | AccessListT t => in_range two64 (a_ChainID t)
  | DynamicFee t => in_range two64 (d_ChainID t)
  end.

(** The fields that do not travel. *)
Definition unsigned_form (tx : TxData) : TxData :=
  match tx with
  | Legacy t => Legacy (mkLegacyTx (l_Nonce t) (l_GasPrice t) (l_Gas t) (l_To t) (l_From t) (l_Value t) (l_Data t)
                          (l_V t) (l_R t) (l_S t) None)
  | AccessListT t => AccessListT (mkAccessListTx (a_ChainID t) (a_Nonce t) (a_GasPrice t) (a_Gas t) (a_To t)
                          (a_From t) (a_Value t) (a_Data t) [] None (a_V t) (a_R t) (a_S t))
  | DynamicFee t => DynamicFee (mkDynamicFeeTx (d_ChainID t) (d_Nonce t) (d_GasTipCap t) (d_GasFeeCap t)
                          (d_Gas t) (d_To t) (d_From t) (d_Value t) (d_Data t) [] None (d_V t) (d_R t) (d_S t))
  end.

Lemma int_pb_roundtrip z : 0 <= z < two256 -> int_from_pb (Some (ConvertUint256IntToH256 z)) = Done (Some z).
Proof. intros H. unfold int_from_pb. by rewrite uint256_roundtrip. Qed.

Lemma address_pb_roundtrip a : 0 <= a < two160 -> ConvertH160ToPAddress (Some (address_to_pb a)) = Done (Some a).
Proof.
  intros H. unfold ConvertH160ToPAddress, address_to_pb.
  rewrite address_roundtrip; [|apply Z_to_be_wf|unfold zlen; by rewrite Z_to_be_length].
  cbn -[Z_to_be be_to_Z]. rewrite be_to_Z_to_be. change (256 ^ Z.of_nat 20) with two160. by rewrite Z.mod_small.
Qed.

Lemma to_pb_roundtrip (p : option Z) : (forall a, p = Some a -> 0 <= a < two160) ->
  if_set (option_map address_to_pb p) ConvertH160ToPAddress = Done p.
Proof. destruct p as [a|]; cbn [option_map if_set]; [|done]. intros H. apply address_pb_roundtrip. by apply H. Qed.

Lemma proto_wf tx : wf_tx tx ->
  (pb ← ToProtoMessage tx; FromProtoMessage pb) =
  match tx with AccessListT _ => GoPanic | _ => Done (unsigned_form tx) end.
Proof.
  intros (Hp & Ht & Hv & Hf & Hto & Hs & Hc).
  destruct tx as [[]|[]|[]]; cbn in Hp, Ht, Hv, Hf, Hto, Hs, Hc; unfold in_range in *; destruct_and?;
    repeat match goal with H : exists _, _ /\ _ |- _ => destruct H as (? & -> & ?) end;
    cbn -[int_from_pb ConvertH160ToPAddress ConvertUint256IntToH256 address_to_pb if_set u64]; unfold FromProtoMessage, txDataFromProtoMessage;
    cbn -[int_from_pb ConvertH160ToPAddress ConvertUint256IntToH256 address_to_pb if_set u64];
    rewrite to_pb_roundtrip by done;
    cbn -[int_from_pb ConvertH160ToPAddress ConvertUint256IntToH256 address_to_pb u64];
    rewrite ?address_pb_roundtrip, ?int_pb_roundtrip, ?u64_small by done; done.
Qed.

Section Tips.
Context {U : Uint256} {UL : Uint256Laws U}.

Lemma uint256Min_max x y : word x -> word y -> uint256Min x y = Z.max x y.
Proof. intros Hx Hy. unfold uint256Min. rewrite uint256.Gt_spec by done. zbool; lia. Qed.

Lemma sub_le cap base : word cap -> 0 <= base <= cap -> uint256.Sub cap base = cap - base.
Proof. unfold word. intros Hc Hb. rewrite uint256.Sub_spec by (unfold word; lia). apply wrap256_small. unfold word. lia. Qed.

(** The price of a message with a base fee: the tip on top of it, at most the fee cap. *)
Lemma AsMessage_price tx baseFee m :
  AsMessage tx (Some baseFee) = Done m -> word (feeCap m) -> word (tip m) -> word baseFee ->
  tip m + baseFee < two256 -> gasPrice m = Z.min (tip m + baseFee) (feeCap m).
Proof.
  unfold AsMessage. intros E. destruct (tx_GasPrice tx), (tx_GasFeeCap tx), (tx_GasTipCap tx), (tx_Value tx),
    (tx_From tx); try discriminate E. injection E as <-. cbn. unfold word. intros.
  rewrite uint256.Add_spec, wrap256_small by (unfold word; lia). rewrite uint256.Gt_spec by (unfold word; lia).
  zbool; lia.
Qed.

(** ** Properties *)

(** [EffectiveGasTip] with a base fee not above the fee cap answers the larger of the tip cap and what
    the fee cap leaves, not the smaller, and takes the base fee off the fee cap of the transaction itself:
    asked twice, it answers for a lower fee cap. *)
Theorem EffectiveGasTip_max t tip cap baseFee :
  d_GasTipCap t = Some tip -> d_GasFeeCap t = Some cap -> word tip -> word cap -> 0 <= baseFee <= cap ->
  exists t', EffectiveGasTip (Some baseFee) (DynamicFee t)
      = Done ((Some (Z.max tip (cap - baseFee)), None), DynamicFee t') /\
    d_GasFeeCap t' = Some (cap - baseFee) /\ d_GasTipCap t' = Some tip.
Proof.
  intros Ht Hc Hwt Hwc Hb. pose proof Hwc as [Hc0 Hc1]. destruct t; cbn in *; subst.
  eexists. unfold EffectiveGasTip, mbind, M_bind, get, modify, must; cbn. unfold mret, M_ret; cbn.
  rewrite sub_le by done. rewrite uint256.Lt_spec by (unfold word; lia).
  rewrite uint256Min_max by (unfold word in *; lia).
  by destruct (Z.ltb_spec cap baseFee); [lia|].
Qed.
End Tips.

(** A signed legacy or dynamic fee transaction without access list and without a [Sign] field survives
    the protobuf form unchanged. *)
Theorem proto_roundtrip tx :
  wf_tx tx -> unsigned_form tx = tx -> txType tx <> 1 ->
  (pb ← ToProtoMessage tx; FromProtoMessage pb) = Done tx.
Proof. intros Hw Hu Ht. rewrite proto_wf by done. by destruct tx; try rewrite Hu. Qed.

(** The protobuf form loses access lists: a dynamic fee transaction comes back with an empty one, and
    for a signed access list transaction the receiver panics, because [copy] sets signature values
    it has not allocated. *)
Theorem proto_loses_access_list :
  (forall t, wf_tx (AccessListT t) ->
     (pb ← ToProtoMessage (AccessListT t); FromProtoMessage pb) = GoPanic) /\
  (forall t, wf_tx (DynamicFee t) -> exists t',
     (pb ← ToProtoMessage (DynamicFee t); FromProtoMessage pb) = Done (DynamicFee t') /\ d_AccessList t' = []).
Proof.
  split; intros t Hw; rewrite proto_wf by done; [done|]. eexists. split; [reflexivity|done].
Qed.

(** ** Witnesses *)

Definition sample_dynamic (al : AccessTuples) : DynamicFeeTx :=
  mkDynamicFeeTx (Some 94) 7 (Some 2) (Some 30) 21000 (Some 5) (Some 6) (Some 1) [1; 2] al None
    (Some 1) (Some 2) (Some 3).

#[local] Existing Instance ref_uint256.

Lemma EffectiveGasTip_max_witness :
  exists t', EffectiveGasTip (Some 10) (DynamicFee (sample_dynamic []))
      = Done ((Some 20, None), DynamicFee t') /\
    d_GasFeeCap t' = Some 20 /\ d_GasTipCap t' = Some 2.
Proof. apply (EffectiveGasTip_max (sample_dynamic []) 2 30 10); unfold word; done. Defined.

Lemma sample_dynamic_wf al : wf_tx (DynamicFee (sample_dynamic al)).
Proof. unfold wf_tx, in_range; cbn. split_and!; eauto 6 with lia; intros; simplify_eq; lia. Qed.

Lemma proto_roundtrip_witness : let tx := DynamicFee (sample_dynamic []) in
  (pb ← ToProtoMessage tx; FromProtoMessage pb) = Done tx.
Proof. apply proto_roundtrip; [apply sample_dynamic_wf|reflexivity|discriminate]. Defined.
