(* ===== verification/StateTransition.v ===== *)
(** * Executing a message ([internal/state_transition.go])

    The gas pool of a block ([common/gaspool.go]), the intrinsic gas of a message,
    its pre-checks, the purchase of gas, the call of the virtual machine, the
    refund and the payment of the fees.

    The transition is written against the interface of the machine, a record
    [Calls], and the interface of the state.  The message is a
    [transaction.Message], whose [FeeCap] is a pointer to a field and never nil.
    The Debug tracer is left out. *)

From S2P Require Import Prelude Uint256 Params Common EvmTypes Contracts Config Wire Transaction.

(** ** Errors *)

Module core.
Inductive Error : Type :=
| ErrNonceTooLow
| ErrNonceTooHigh
| ErrNonceMax
| ErrGasLimitReached
| ErrInsufficientFunds
| ErrGasUintOverflow
| ErrIntrinsicGas (have want : Z)
| ErrTipAboveFeeCap
| ErrFeeCapTooLow
| ErrSenderNoEOA.
End core.

(** ** The gas pool *)

Module gaspool.
Definition GasPool : Type := Z.

Definition AddGas (amount : Z) : M GasPool () :=
  gp ← get;
  if u64 (MaxUint64 - amount) <? gp then panic else modify (fun gp => u64 (gp + amount)).

Definition SubGas (amount : Z) : M GasPool (option core.Error) :=
  gp ← get;
  if gp <? amount then mret (Some core.ErrGasLimitReached) else
  _ ← modify (fun gp => u64 (gp - amount));
  mret None.
End gaspool.

(** ** Intrinsic gas *)

Definition TxGas : Z := 21000.
Definition TxGasContractCreation : Z := 53000.
Definition TxDataZeroGas : Z := 4.
Definition TxDataNonZeroGasFrontier : Z := 68.
Definition TxDataNonZeroGasEIP2028 : Z := 16.
Definition TxAccessListAddressGas : Z := 2400.
Definition RefundQuotient : Z := 2.
Definition RefundQuotientEIP3529 : Z := 5.

(** [toWordSize] of this file. *)
Definition toWordSize (size : Z) : Z :=
  if u64 (MaxUint64 - 31) <? size then u64 (MaxUint64 / 32 + 1) else u64 (size + 31) / 32.

(** [gas += n * price], refused when it does not fit in a [uint64]. *)
Definition add_priced (gas n price : Z) : option Z :=
  if u64 (MaxUint64 - gas) / price <? n then None else Some (u64 (gas + u64 (n * price))).

(** The base price and the price of the data; [None] is an overflow. *)
Definition charge_data (data : bytes) (isContractCreation isHomestead isEIP2028 isEIP3860 : bool) : option Z :=
  let gas := if isContractCreation && isHomestead then TxGasContractCreation else TxGas in
  let dataLen := zlen data in
  if 0 <? dataLen then
    let nz := zlen (filter (fun byt => byt <> 0) data) in
    let nonZeroGas := if isEIP2028 then TxDataNonZeroGasEIP2028 else TxDataNonZeroGasFrontier in
    gas ← add_priced gas nz nonZeroGas;
    gas ← add_priced gas (u64 (dataLen - nz)) TxDataZeroGas;
    if isContractCreation && isEIP3860 then add_priced gas (toWordSize dataLen) InitCodeWordGas else Some gas
  else Some gas.

Definition IntrinsicGas (data : bytes) (accessList : AccessTuples)
    (isContractCreation isHomestead isEIP2028 isEIP3860 : bool) : Z * option core.Error :=
  match charge_data data isContractCreation isHomestead isEIP2028 isEIP3860 with
  | None => (0, Some core.ErrGasUintOverflow)
  | Some gas =>
      let gas := u64 (gas + u64 (zlen accessList * TxAccessListAddressGas)) in
      (u64 (gas + u64 (StorageKeys accessList * TxAccessListStorageKeyGas)), None)
  end.

(** ** The transition *)

(** The fields of [StateTransition] that change: the pool, the gas left, the gas
    bought, and the machine with the state it works on. *)
Record StateTransition (S : Type) : Type := mkStateTransition {
  gp : gaspool.GasPool;
  gas : Z;
  initialGas : Z;
  evm : VM S
}.
Arguments mkStateTransition {S}.
Arguments gp {S}.
Arguments gas {S}.
Arguments initialGas {S}.
Arguments evm {S}.

Record ExecutionResult : Type := mkExecutionResult {
  UsedGas : Z;
  Err : option VMError;
  ReturnData : bytes
}.

Definition SystemAddress : Z := 0xffffFFFfFFffffffffffffffFfFFFfffFFFfFFfE.

Section Transition.
Context {U : Uint256} {C : Crypto} {S : Type} {I : ibs.IntraBlockState S}.
Context (env : Env S) (calls : Calls S) (chainConfig : ChainConfig) (msg : Message).

#[local] Notation ST := (M (StateTransition S)).

Definition on_pool {A} (m : M gaspool.GasPool A) : ST A :=
  zoom gp (fun p st => mkStateTransition p (gas st) (initialGas st) (evm st)) m.
Definition on_evm {A} (m : M (VM S) A) : ST A :=
  zoom evm (fun e st => mkStateTransition (gp st) (gas st) (initialGas st) e) m.
Definition on_state {A} (m : M S A) : ST A := on_evm (on_ibs m).
Definition set_gas (g : Z) : ST () :=
  modify (fun st => mkStateTransition (gp st) g (initialGas st) (evm st)).
Definition set_initialGas (g : Z) : ST () :=
  modify (fun st => mkStateTransition (gp st) (gas st) g (evm st)).

Definition gasUsed (st : StateTransition S) : Z := u64 (initialGas st - gas st).

(** The address of the recipient, zero for a creation. *)
Definition to_address : Z := default 0 (to msg).

Definition emptyCodeHash : Z := Keccak256 [].

Definition buyGas (gasBailout : bool) : ST (option core.Error) :=
  let '(mgval, overflow) := uint256.MulOverflow (gasLimit msg) (gasPrice msg) in
  if overflow : bool then mret (Some core.ErrInsufficientFunds) else
  let '(balanceCheck, overflow) := uint256.MulOverflow (gasLimit msg) (feeCap msg) in
  if overflow : bool then mret (Some core.ErrInsufficientFunds) else
  let '(balanceCheck, overflow) := uint256.AddOverflow balanceCheck (amount msg) in
  if overflow : bool then mret (Some core.ErrInsufficientFunds) else
  have ← on_state (ibs.GetBalance (from msg));
  let poor := uint256.Lt have balanceCheck in
  if poor && negb gasBailout then mret (Some core.ErrInsufficientFunds) else
  err ← on_pool (gaspool.SubGas (gasLimit msg));
  match err, gasBailout with
  | Some err, false => mret (Some err)
  | _, _ =>
      g ← gets gas;
      _ ← set_gas (u64 (g + gasLimit msg));
      _ ← set_initialGas (gasLimit msg);
      _ ← (if negb poor then on_state (ibs.SubBalance (from msg) mgval) else mret ());
      mret None
  end.

Definition CheckEip1559TxGasFeeCap (gasFeeCap tip : Z) (baseFee : option Z) (isFree : bool)
    : option core.Error :=
  if uint256.Lt gasFeeCap tip then Some core.ErrTipAboveFeeCap
  else match baseFee with
       | Some baseFee => if uint256.Lt gasFeeCap baseFee && negb isFree then Some core.ErrFeeCapTooLow else None
       | None => None
       end.

(** The checks of the nonce and of the sender's code. *)
Definition check_sender : ST (option core.Error) :=
  if checkNonce msg then
    stNonce ← on_state (ibs.GetNonce (from msg));
    if stNonce <? nonce msg then mret (Some core.ErrNonceTooHigh)
    else if nonce msg <? stNonce then mret (Some core.ErrNonceTooLow)
    else if u64 (stNonce + 1) <? stNonce then mret (Some core.ErrNonceMax) else
    codeHash ← on_state (ibs.GetCodeHash (from msg));
    if negb (codeHash =? emptyCodeHash) && negb (codeHash =? 0) then mret (Some core.ErrSenderNoEOA)
    else mret None
  else mret None.

Definition check_fees : option core.Error :=
  if IsLondon (chainRules env) then
    if negb (NoBaseFee (config env)) || negb (uint256.IsZero (feeCap msg)) || negb (uint256.IsZero (tip msg))
    then CheckEip1559TxGasFeeCap (feeCap msg) (tip msg) (BaseFee (context env)) (isFree msg)
    else None
  else None.

Definition preCheck (gasBailout : bool) : ST (option core.Error) :=
  err ← check_sender;
  match err with
  | Some err => mret (Some err)
  | None =>
      match check_fees with
      | Some err => mret (Some err)
      | None => buyGas gasBailout
      end
  end.

Definition refundGas (refundQuotient : Z) : ST () :=
  st ← get;
  let refund := gasUsed st / refundQuotient in
  counter ← on_state ibs.GetRefund;
  let refund := if counter <? refund then counter else refund in
  _ ← set_gas (u64 (gas st + refund));
  st ← get;
  let remaining := uint256.Mul (gas st) (gasPrice msg) in
  _ ← on_state (ibs.AddBalance (from msg) remaining);
  on_pool (gaspool.AddGas (gas st)).

(** [math.Min256] *)
Definition Min256 (x y : Z) : Z := if uint256.Gt x y then y else x.

(** What a unit of gas pays to the block producer. *)
Definition effective_tip : ST Z :=
  if IsLondon (chainRules env) then
    baseFee ← must (BaseFee (context env));
    if uint256.Gt (feeCap msg) baseFee
    then let rest := uint256.Sub (feeCap msg) baseFee in
         mret (Min256 (tip msg) rest)
    else mret 0
  else mret (gasPrice msg).

(** The fees of the producer and of the collector of the base fee. *)
Definition pay_fees : ST () :=
  effectiveTip ← effective_tip;
  used ← gets gasUsed;
  let amount := uint256.Mul used effectiveTip in
  _ ← on_state (ibs.AddBalance (if Parlia chainConfig then SystemAddress else Coinbase (context env)) amount);
  if negb (isFree msg) && IsLondon (chainRules env) && IsEip1559FeeCollector (chainRules env) then
    collector ← must (Eip1559FeeCollector chainConfig);
    baseFee ← must (BaseFee (context env));
    on_state (ibs.AddBalance collector (uint256.Mul used baseFee))
  else mret ().

(** The call or creation itself: the data it returns and the error of the machine. *)
Definition run_message (bailout : bool) : ST (bytes * option VMError) :=
  g ← gets gas;
  '(ret, rest, vmerr) ←
    match to msg with
    | None =>
        '(ret, _, rest, vmerr) ← on_evm (Create calls (AccountRef (from msg)) (data msg) g (amount msg));
        mret (ret, rest, vmerr)
    | Some _ =>
        n ← on_state (ibs.GetNonce (from msg));
        _ ← on_state (ibs.SetNonce (from msg) (u64 (n + 1)));
        on_evm (Call calls (AccountRef (from msg)) to_address (data msg) g (Some (amount msg)) bailout)
    end;
  _ ← set_gas rest;
  mret (ret, vmerr).

(** The access list of EIP-2929 and EIP-2930, and the warm coinbase of EIP-3651. *)
Definition prepare_access : ST () :=
  if IsBerlin (chainRules env) then
    _ ← on_state (ibs.PrepareAccessList (from msg) (to msg) (ActivePrecompiles (chainRules env)) (m_accessList msg));
    if IsShanghai (chainRules env) then on_state (ibs.AddAddressToAccessList (Coinbase (context env)))
    else mret ()
  else mret ().

Definition TransitionDb (refunds gasBailout : bool) : ST (ExecutionResult + core.Error) :=
  let gasBailout := Parlia chainConfig || gasBailout in
  err ← preCheck gasBailout;
  match err with
  | Some err => mret (inr err)
  | None =>
      let rules := chainRules env in
      let contractCreation := match to msg with None => true | Some _ => false end in
      let '(intrinsic, err) := IntrinsicGas (data msg) (m_accessList msg) contractCreation
                                 (IsHomestead rules) (IsIstanbul rules) (IsShanghai rules) in
      match err with
      | Some err => mret (inr err)
      | None =>
          g ← gets gas;
          if g <? intrinsic then mret (inr (core.ErrIntrinsicGas g intrinsic)) else
          _ ← set_gas (u64 (g - intrinsic));
          bailout ← (if gasBailout && negb (uint256.IsZero (amount msg)) then
                       can ← on_state (CanTransfer (context env) (from msg) (amount msg));
                       mret (negb can)
                     else mret false);
          _ ← prepare_access;
          '(ret, vmerr) ← run_message bailout;
          _ ← (if refunds then
                 refundGas (if IsLondon rules then RefundQuotientEIP3529 else RefundQuotient)
               else mret ());
          _ ← pay_fees;
          st ← get;
          mret (inl (mkExecutionResult (gasUsed st) vmerr ret))
      end
  end.

End Transition.

(** [NewStateTransition] on a pool and a machine. *)
Definition NewStateTransition {S} (evm : VM S) (gp : gaspool.GasPool) : StateTransition S :=
  mkStateTransition gp 0 0 evm.

Definition ApplyMessage `{Uint256, Crypto} {S} {I : ibs.IntraBlockState S} (env : Env S) (calls : Calls S)
    (chainConfig : ChainConfig) (msg : Message) (refunds gasBailout : bool)
    : M (VM S * gaspool.GasPool) (ExecutionResult + core.Error) := fun s =>
  match TransitionDb env calls chainConfig msg refunds gasBailout (NewStateTransition s.1 s.2) with
  | Done (r, st) => Done (r, (evm st, gp st))
  | GoPanic => GoPanic
  | NoFuel => NoFuel
  end.
