(* ===== verification/StateTransitionTheorems.v ===== *)
(** * Theorems about the execution of messages

    The intrinsic gas is exact; a message terminates; it uses no more gas than it
    bought, the pool loses exactly what it used; and the prepaid gas is handed out
    completely, to the sender, to the block producer and to the fee collector. *)

From S2P Require Import Prelude Uint256 Params Stack Memory Analysis Common EvmTypes Contract.
From S2P Require Import Instructions GasTable Opcodes JumpTable Rlp Contracts Interpreter Evm.
From S2P Require Import EvmLogic OpSpecs GasSpecs TableSpecs GasSafety EvmTheorems.
From S2P Require Import Config Wire Transaction StateTransition.

(** ** Intrinsic gas *)

Lemma add_priced_spec gas n price : 0 <= gas < two64 -> 0 <= n -> 0 < price ->
  add_priced gas n price = if gas + n * price <? two64 then Some (gas + n * price) else None.
Proof.
  intros Hg Hn Hp. unfold add_priced, MaxUint64. rewrite (u64_small (two64 - 1 - gas)) by lia.
  destruct (Z.ltb_spec ((two64 - 1 - gas) / price) n) as [H|H].
  - destruct (Z.ltb_spec (gas + n * price) two64) as [Hs|]; [|done].
    assert (n <= (two64 - 1 - gas) / price) by (apply Z.div_le_lower_bound; lia). lia.
  - assert (n * price <= two64 - 1 - gas).
    { etransitivity; [|apply (Z.mul_div_le (two64 - 1 - gas) price Hp)]. nia. }
    rewrite (u64_small (n * price)), u64_small by nia.
    destruct (Z.ltb_spec (gas + n * price) two64); [done|lia].
Qed.

Lemma toWordSize_ceil n : 0 <= n < two63 -> toWordSize n = (n + 31) / 32.
Proof.
  intros H. unfold toWordSize, MaxUint64. rewrite (u64_small (_ - 31)), (u64_small (n + 31)) by lia.
  by destruct (Z.ltb_spec (two64 - 1 - 31) n); [lia|].
Qed.

(** The price of the data and of the access list, as numbers. *)
Definition data_gas (data : bytes) (creation homestead eip2028 eip3860 : bool) : Z :=
  let nz := zlen (filter (fun byt => byt <> 0) data) in
  (if creation && homestead then 53000 else 21000) +
  nz * (if eip2028 then 16 else 68) + (zlen data - nz) * 4 +
  (if creation && eip3860 then (zlen data + 31) / 32 * 2 else 0).

Definition access_gas (al : AccessTuples) : Z := zlen al * 2400 + StorageKeys al * 1900.

Lemma filter_le (data : bytes) : 0 <= zlen (filter (fun byt => byt <> 0) data) <= zlen data.
Proof. unfold zlen. pose proof (length_filter (fun byt : Z => byt <> 0) data). lia. Qed.

Lemma option_if {A B} (b : bool) (x : A) (k : A -> option B) :
  ((if b then Some x else None) ≫= k) = if b then k x else None.
Proof. by destruct b. Qed.

Lemma charge_data_spec data creation homestead eip2028 eip3860 : zlen data < two63 ->
  let g := data_gas data creation homestead eip2028 eip3860 in
  charge_data data creation homestead eip2028 eip3860 = if g <? two64 then Some g else None.
Proof.
  intros Hl. cbv zeta. unfold charge_data, data_gas. pose proof (filter_le data) as Hf.
  set (nz := zlen (filter _ data)) in *. unfold TxDataNonZeroGasEIP2028, TxDataNonZeroGasFrontier,
    TxGasContractCreation, TxGas.
  set (p := if eip2028 then 16 else 68). assert (16 <= p <= 68) by (subst p; destruct eip2028; lia).
  set (g0 := if creation && homestead then 53000 else 21000).
  assert (21000 <= g0 <= 53000) by (subst g0; destruct (_ && _); lia). clearbody p g0 nz.
  destruct (Z.ltb_spec 0 (zlen data)) as [Hpos|Hnil].
  - assert (0 <= (zlen data + 31) / 32) by (apply Z.div_pos; lia).
    rewrite add_priced_spec, option_if by lia. destruct (Z.ltb_spec (g0 + nz * p) two64).
    + rewrite u64_small by lia. unfold TxDataZeroGas. rewrite add_priced_spec, option_if by nia.
      destruct (Z.ltb_spec (g0 + nz * p + (zlen data - nz) * 4) two64).
      * destruct (creation && eip3860).
        -- unfold InitCodeWordGas. rewrite toWordSize_ceil, add_priced_spec by nia. done.
        -- rewrite Z.add_0_r. by destruct (Z.ltb_spec (g0 + nz * p + (zlen data - nz) * 4) two64); [|lia].
      * destruct (Z.ltb_spec (g0 + nz * p + (zlen data - nz) * 4 + (if creation && eip3860 then (zlen data + 31) / 32 * 2 else 0)) two64); [|done].
        destruct (creation && eip3860); lia.
    + destruct (Z.ltb_spec (g0 + nz * p + (zlen data - nz) * 4 + (if creation && eip3860 then (zlen data + 31) / 32 * 2 else 0)) two64); [|done].
      destruct (creation && eip3860); nia.
  - assert (zlen data = 0) as -> by (pose proof (zlen_nonneg data); lia). assert (nz = 0) as -> by lia.
    change ((0 + 31) / 32) with 0. destruct (creation && eip3860); cbn;
      rewrite ?Z.add_0_r; by destruct (Z.ltb_spec g0 two64); [|lia].
Qed.

(** ** Gas of a transition *)

Section Gas.
Context {U : Uint256} {UL : Uint256Laws U} {C : Crypto}.
Context {S : Type} {I : ibs.IntraBlockState S} {IF : ibs_fueled I} {RF : refund_ok I}.
Context (env : Env S) {TF : transfers_fueled env}.
Context (calls : Calls S) (chainConfig : ChainConfig) (msg : Message).

#[local] Notation ST := (M (StateTransition S)).

(** From a transition with pool [p], gas [g] and bought gas [i], a run of [m]
    ends, at the same depth, and its result and the three numbers satisfy [Q]. *)
Definition tsat {A} (d p g i : Z) (m : ST A) (Q : A -> Z -> Z -> Z -> Prop) : Prop := forall st,
  depth (evm st) = d -> gp st = p -> gas st = g -> initialGas st = i ->
  match m st with
  | Done (a, st') => depth (evm st') = d /\ Q a (gp st') (gas st') (initialGas st')
  | GoPanic => True
  | NoFuel => False
  end.

Lemma tsat_mono {A} d p g i (m : ST A) (Q Q' : A -> Z -> Z -> Z -> Prop) :
  tsat d p g i m Q -> (forall a p g i, Q a p g i -> Q' a p g i) -> tsat d p g i m Q'.
Proof.
  intros H HQ st E1 E2 E3 E4. specialize (H st E1 E2 E3 E4). destruct (m st) as [[a st']| |]; [|done..].
  destruct H. auto.
Qed.

Lemma tsat_bind {A B} d p g i (m : ST A) (k : A -> ST B) Q :
  tsat d p g i m (fun a p g i => tsat d p g i (k a) Q) -> tsat d p g i (m ≫= k) Q.
Proof.
  intros H st E1 E2 E3 E4. specialize (H st E1 E2 E3 E4). unfold mbind, M_bind.
  destruct (m st) as [[a st']| |]; [|done..]. destruct H as [F H]. by apply H.
Qed.

Lemma tsat_ret {A} d p g i (a : A) (Q : A -> Z -> Z -> Z -> Prop) : Q a p g i -> tsat d p g i (mret a) Q.
Proof. by intros H st <- <- <- <-. Qed.

Lemma tsat_must {A} d p g i (o : option A) (Q : A -> Z -> Z -> Z -> Prop) :
  (forall a, o = Some a -> Q a p g i) -> tsat d p g i (must o) Q.
Proof. intros H st <- <- <- <-. destruct o; [cbn; auto|done]. Qed.

Lemma tsat_gas d p g i (Q : Z -> Z -> Z -> Z -> Prop) : Q g p g i -> tsat d p g i (gets gas) Q.
Proof. by intros H st <- <- <- <-. Qed.

Lemma tsat_gasUsed d p g i (Q : Z -> Z -> Z -> Z -> Prop) :
  Q (u64 (i - g)) p g i -> tsat d p g i (gets gasUsed) Q.
Proof. by intros H st <- <- <- <-. Qed.

Lemma tsat_get d p g i (Q : StateTransition S -> Z -> Z -> Z -> Prop) :
  (forall st, gas st = g -> initialGas st = i -> Q st p g i) -> tsat d p g i get Q.
Proof. intros H st <- <- <- <-. split; [done|]. by apply H. Qed.

Lemma tsat_set_gas d p g i g' (Q : () -> Z -> Z -> Z -> Prop) : Q () p g' i -> tsat d p g i (set_gas g') Q.
Proof. by intros H st <- <- <- <-. Qed.

Lemma tsat_set_initialGas d p g i i' (Q : () -> Z -> Z -> Z -> Prop) :
  Q () p g i' -> tsat d p g i (set_initialGas i') Q.
Proof. by intros H st <- <- <- <-. Qed.

Lemma tsat_evm {A} d p g i (m : M (VM S) A) (Q : A -> Z -> Z -> Z -> Prop) (P : A -> Prop) :
  (forall ro, vsat d ro m P) -> (forall a, P a -> Q a p g i) -> tsat d p g i (on_evm m) Q.
Proof.
  intros H HQ st E1 <- <- <-. unfold on_evm, zoom. specialize (H _ (evm st) E1 eq_refl).
  destruct (m (evm st)) as [[a e]| |]; [|done..]. destruct H as (? & _ & ?). cbn. auto.
Qed.

Lemma tsat_state {A} d p g i (m : M S A) (Q : A -> Z -> Z -> Z -> Prop) :
  fueled m -> (forall a, Q a p g i) -> tsat d p g i (on_state m) Q.
Proof.
  intros Hm HQ. apply (tsat_evm _ _ _ _ _ _ (fun _ => True)); [|auto].
  intros ro. by apply vsat_on_ibs.
Qed.

Lemma tsat_refund d p g i (Q : Z -> Z -> Z -> Z -> Prop) :
  (forall r, 0 <= r < two64 -> Q r p g i) -> tsat d p g i (on_state ibs.GetRefund) Q.
Proof.
  intros HQ st <- <- <- <-. unfold on_state, on_evm, on_ibs, zoom.
  pose proof (fueled_GetRefund (intraBlockState (evm st))) as Hf.
  pose proof (GetRefund_type (intraBlockState (evm st))) as Ht.
  destruct (ibs.GetRefund _) as [[r s']| |]; [|done..]. cbn. split; [done|]. apply HQ. by eapply Ht.
Qed.

Lemma tsat_SubGas d p g i a (Q : option core.Error -> Z -> Z -> Z -> Prop) :
  (p < a -> Q (Some core.ErrGasLimitReached) p g i) -> (a <= p -> Q None (u64 (p - a)) g i) ->
  tsat d p g i (on_pool (gaspool.SubGas a)) Q.
Proof.
  intros H1 H2 st <- <- <- <-. unfold on_pool, zoom, gaspool.SubGas, mbind, M_bind, get, modify.
  destruct (Z.ltb_spec (gp st) a); cbn; auto.
Qed.

Lemma tsat_AddGas d p g i a (Q : () -> Z -> Z -> Z -> Prop) :
  (p <= u64 (MaxUint64 - a) -> Q () (u64 (p + a)) g i) -> tsat d p g i (on_pool (gaspool.AddGas a)) Q.
Proof.
  intros H st <- <- <- <-. unfold on_pool, zoom, gaspool.AddGas, mbind, M_bind, get, modify.
  destruct (Z.ltb_spec (u64 (MaxUint64 - a)) (gp st)); cbn; auto.
Qed.

(** The parts of the transition that only touch the state. *)
Ltac tsat_go :=
  repeat lazymatch goal with
  | |- tsat _ _ _ _ (mbind _ _) _ => apply tsat_bind
  | |- tsat _ _ _ _ (mret _) _ => apply tsat_ret
  | |- tsat _ _ _ _ (must _) _ => apply tsat_must; intros ? ?
  | |- tsat _ _ _ _ (gets gas) _ => apply tsat_gas
  | |- tsat _ _ _ _ (gets gasUsed) _ => apply tsat_gasUsed
  | |- tsat _ _ _ _ (set_gas _) _ => apply tsat_set_gas
  | |- tsat _ _ _ _ (set_initialGas _) _ => apply tsat_set_initialGas
  | |- tsat _ _ _ _ (on_state ibs.GetRefund) _ => apply tsat_refund; intros ? ?
  | |- tsat _ _ _ _ (on_state _) _ => apply tsat_state; [by eauto with fueled nocore|intros ?]
  | |- tsat _ _ _ _ (match ?x with _ => _ end) _ => destruct x eqn:?
  end.

Ltac units := repeat match goal with u : () |- _ => destruct u end.

#[local] Hint Resolve fueled_CanTransfer : fueled.

Lemma tsat_check_sender d p g i (Q : option core.Error -> Z -> Z -> Z -> Prop) :
  (forall e, Q e p g i) -> tsat d p g i (check_sender msg) Q.
Proof. intros HQ. unfold check_sender. tsat_go; apply HQ. Qed.

Lemma tsat_prepare d p g i (Q : () -> Z -> Z -> Z -> Prop) :
  Q () p g i -> tsat d p g i (prepare_access env msg) Q.
Proof. intros HQ. unfold prepare_access. tsat_go; units; done. Qed.

Lemma tsat_pay_fees d p g i (Q : () -> Z -> Z -> Z -> Prop) :
  Q () p g i -> tsat d p g i (pay_fees env chainConfig msg) Q.
Proof. intros HQ. unfold pay_fees, effective_tip. cbv zeta. tsat_go; units; done. Qed.

(** The gas is bought once: on success the pool has lost it and the transition has it. *)
Lemma tsat_buyGas d p bailout (Q : option core.Error -> Z -> Z -> Z -> Prop) :
  0 <= gasLimit msg < two64 -> 0 <= p < two64 ->
  (forall e, Q (Some e) p 0 0) ->
  (forall p', 0 <= p' -> (bailout = false -> gasLimit msg <= p /\ p' = p - gasLimit msg) ->
     Q None p' (gasLimit msg) (gasLimit msg)) ->
  tsat d p 0 0 (buyGas msg bailout) Q.
Proof.
  intros Hg Hp He Hok. unfold buyGas.
  destruct (uint256.MulOverflow _ _) as [mgval []]; [tsat_go; apply He|].
  destruct (uint256.MulOverflow _ _) as [check []]; [tsat_go; apply He|].
  destruct (uint256.AddOverflow _ _) as [check' []]; [tsat_go; apply He|].
  apply tsat_bind, tsat_state; [apply fueled_GetBalance|]. intros have. cbv zeta.
  destruct (uint256.Lt have check' && negb bailout); [tsat_go; apply He|].
  apply tsat_bind, tsat_SubGas; intros Hsub.
  - destruct bailout; [|tsat_go; apply He].
    tsat_go; rewrite Z.add_0_l, u64_small by lia; apply Hok; done || lia.
  - rewrite u64_small by lia. tsat_go; rewrite Z.add_0_l, u64_small by lia; apply Hok; auto with lia.
Qed.

Lemma tsat_preCheck d p bailout (Q : option core.Error -> Z -> Z -> Z -> Prop) :
  0 <= gasLimit msg < two64 -> 0 <= p < two64 ->
  (forall e, Q (Some e) p 0 0) ->
  (forall p', 0 <= p' -> (bailout = false -> gasLimit msg <= p /\ p' = p - gasLimit msg) ->
     Q None p' (gasLimit msg) (gasLimit msg)) ->
  tsat d p 0 0 (preCheck env msg bailout) Q.
Proof.
  intros Hg Hp He Hok. unfold preCheck. apply tsat_bind, tsat_check_sender. intros [e|]; [tsat_go; apply He|].
  destruct (check_fees env msg) as [e|]; [tsat_go; apply He|]. by apply tsat_buyGas.
Qed.

(** The machine leaves at most the gas it was given. *)
Lemma tsat_run_message d N p g i bailout (Q : bytes * option VMError -> Z -> Z -> Z -> Prop) :
  calls_ok N d calls -> 0 <= g < N ->
  (forall r g', 0 <= g' <= g -> Q r p g' i) ->
  tsat d p g i (run_message calls msg bailout) Q.
Proof.
  intros Hc Hg HQ. unfold run_message. apply tsat_bind, tsat_gas, tsat_bind.
  assert (forall m : ST (bytes * Z * option VMError),
    tsat d p g i m (fun r p' g' i' => p' = p /\ g' = g /\ i' = i /\ 0 <= r.1.2 <= g) ->
    tsat d p g i m (fun a p g i => tsat d p g i
      (let '(ret, rest, vmerr) := a in _ ← set_gas rest; mret (ret, vmerr)) Q)) as Hk.
  { intros m Hm. eapply tsat_mono; [exact Hm|]. intros [[ret rest] vmerr] p' g' i' (-> & -> & -> & Hr).
    tsat_go. by apply HQ. }
  apply Hk. destruct (to msg).
  - apply tsat_bind, tsat_state; [apply fueled_GetNonce|]. intros n.
    apply tsat_bind, tsat_state; [apply fueled_SetNonce|]. intros _.
    eapply tsat_evm; [intros ro; by eapply returns_vsat, ok_Call|]. cbn. auto.
  - apply tsat_bind. eapply tsat_evm; [intros ro; by eapply returns_vsat, ok_Create|].
    intros [[[ret a] rest] vmerr] Hr. by apply tsat_ret.
Qed.

(** The refund is a share of the gas used, and goes to the gas left and to the pool. *)
Lemma tsat_refundGas d p g i q (Q : () -> Z -> Z -> Z -> Prop) :
  0 <= g <= i -> i < two64 -> 0 <= p -> 1 <= q ->
  (forall g', g <= g' -> q * (g' - g) <= i - g -> Q () (p + g') g' i) ->
  tsat d p g i (refundGas msg q) Q.
Proof.
  intros Hg Hi Hp Hq HQ. unfold refundGas. apply tsat_bind, tsat_get. intros st Eg Ei.
  unfold gasUsed. rewrite Eg, Ei, u64_small by lia.
  pose proof (Z.mul_div_le (i - g) q ltac:(lia)). assert (0 <= (i - g) / q) by (apply Z.div_pos; lia).
  apply tsat_bind, tsat_refund. intros r Hr. cbv zeta.
  set (refund := if r <? (i - g) / q then r else (i - g) / q).
  assert (0 <= refund <= (i - g) / q) as Href by (subst refund; zbool; lia). clearbody refund.
  assert (refund <= i - g) by nia. rewrite (u64_small (g + refund)) by lia.
  apply tsat_bind, tsat_set_gas, tsat_bind, tsat_get. intros st' Eg' Ei'. rewrite Eg'.
  apply tsat_bind, tsat_state; [apply fueled_AddBalance|]. intros _.
  apply tsat_AddGas. unfold MaxUint64. rewrite (u64_small (two64 - 1 - _)) by lia. intros Hle.
  rewrite u64_small by lia. apply HQ; nia.
Qed.

(** The intrinsic gas of the message. *)
Definition intrinsic : Z * option core.Error :=
  IntrinsicGas (data msg) (m_accessList msg) (match to msg with None => true | Some _ => false end)
    (IsHomestead (chainRules env)) (IsIstanbul (chainRules env)) (IsShanghai (chainRules env)).

Definition quotient : Z := if IsLondon (chainRules env) then RefundQuotientEIP3529 else RefundQuotient.

(** What a transition with refunds leaves, from a pool [p]: the gas used is at most
    the gas bought and, by the cap on refunds, not much below the intrinsic gas; the
    pool has lost exactly the gas used. *)
Definition settled (p : Z) (res : ExecutionResult) (p' : Z) : Prop :=
  0 <= UsedGas res <= gasLimit msg /\ p' = p - UsedGas res /\ gasLimit msg <= p /\
  intrinsic.2 = None /\ intrinsic.1 <= gasLimit msg /\
  (quotient - 1) * intrinsic.1 <= quotient * UsedGas res.

Lemma intrinsic_nonneg : 0 <= intrinsic.1.
Proof.
  unfold intrinsic, IntrinsicGas. destruct (charge_data _ _ _ _ _); cbn; [|done]. apply u64_range.
Qed.

Lemma tsat_TransitionDb d N p refunds bailout :
  calls_ok N d calls -> gasLimit msg < N -> N <= two64 -> 0 <= gasLimit msg -> 0 <= p < two64 ->
  tsat d p 0 0 (TransitionDb env calls chainConfig msg refunds bailout) (fun r p' _ _ =>
    refunds = true -> Parlia chainConfig || bailout = false ->
    match r with
    | inl res => settled p res p'
    | inr _ => p' = p \/ gasLimit msg <= p /\ p' = p - gasLimit msg
    end).
Proof.
  intros Hc HN HN2 Hl Hp. unfold TransitionDb. cbv zeta. set (bail := Parlia chainConfig || bailout).
  apply tsat_bind, tsat_preCheck; [lia|lia|intros e; apply tsat_ret; auto|].
  intros p1 Hp1 Hb. fold intrinsic. pose proof intrinsic_nonneg as Hin. unfold settled.
  destruct intrinsic as [ig [err|]] eqn:Ei; [apply tsat_ret; intros; right; auto|].
  cbn [fst snd] in Hin. apply tsat_bind, tsat_gas. destruct (Z.ltb_spec (gasLimit msg) ig).
  { apply tsat_ret; intros; right; auto. }
  rewrite u64_small by lia. apply tsat_bind, tsat_set_gas, tsat_bind.
  assert (forall k : bool -> ST (ExecutionResult + core.Error), forall Q, 
    (forall b, tsat d p1 (gasLimit msg - ig) (gasLimit msg) (k b) Q) ->
    tsat d p1 (gasLimit msg - ig) (gasLimit msg)
      (if bail && negb (uint256.IsZero (amount msg)) then
         can ← on_state (CanTransfer (context env) (from msg) (amount msg)); mret (negb can)
       else mret false) (fun a p g i => tsat d p g i (k a) Q)) as Hk.
  { intros k Q HQ. tsat_go; apply HQ. }
  apply Hk. intros b. apply tsat_bind, tsat_prepare, tsat_bind.
  eapply tsat_run_message; [done|lia|]. intros [ret vmerr] g' Hg'. apply tsat_bind.
  assert (1 <= quotient) as Hq by (unfold quotient; destruct (IsLondon _); by vm_compute).
  destruct refunds; [|apply tsat_ret, tsat_bind, tsat_pay_fees, tsat_bind, tsat_get; intros; by apply tsat_ret].
  apply tsat_refundGas; [lia|lia|lia|done|]. intros g2 Hg2 Hq2.
  apply tsat_bind, tsat_pay_fees, tsat_bind, tsat_get. intros st Eg Es. apply tsat_ret. intros _ Hbail.
  unfold gasUsed. cbn [UsedGas]. rewrite Eg, Es. destruct (Hb Hbail) as [Hle ->]. fold quotient in Hq2 |- *.
  assert (g2 - g' <= gasLimit msg - g') by nia.
  rewrite u64_small by lia. split_and!; try done; try lia.
  cbn [fst]. assert ((quotient - 1) * ig <= (quotient - 1) * (gasLimit msg - g')) by (apply Z.mul_le_mono_nonneg_l; lia). lia.
Qed.
End Gas.

(** ** Properties *)

(** The intrinsic gas of a message is the base price plus the price of its data
    bytes and of the words of init code, with an error exactly when that sum does not
    fit in a [uint64], plus the price of its access list, which is added without a
    check and modulo 2^64. *)
Theorem IntrinsicGas_exact data al creation homestead eip2028 eip3860 :
  zlen data < two63 -> access_gas al < two64 ->
  let g := data_gas data creation homestead eip2028 eip3860 in
  IntrinsicGas data al creation homestead eip2028 eip3860 =
  if g <? two64 then (u64 (g + access_gas al), None) else (0, Some core.ErrGasUintOverflow).
Proof.
  intros Hl Ha g. unfold IntrinsicGas. rewrite charge_data_spec by done. fold g.
  destruct (g <? two64); [|done]. f_equal. unfold access_gas in *.
  assert (0 <= StorageKeys al).
  { clear. induction al as [|[a ks] al IH]; cbn; [done|]. pose proof (zlen_nonneg ks). unfold StorageKeys in *. lia. }
  pose proof (zlen_nonneg al). unfold TxAccessListAddressGas, TxAccessListStorageKeyGas.
  rewrite (u64_small (zlen al * 2400)), (u64_small (StorageKeys al * 1900)) by lia.
  unfold u64. rewrite Zplus_mod_idemp_l. f_equal. lia.
Qed.

Section Properties.
Context {U : Uint256} {UL : Uint256Laws U} {C : Crypto} {NC : Native}.
Context {S : Type} {I : ibs.IntraBlockState S} {IF : ibs_fueled I} {RF : refund_ok I} (env : Env S).
Context {TF : transfers_fueled env} (jt : JumpTable (S:=S)) (eips : list Z).
Context (Hrules : eip150_before_2929 (chainRules env) (ExtraEips (config env)) = true).
Context (Hnew : NewEVMInterpreter env = Done (jt, eips)).
Context (chainConfig : ChainConfig) (msg : Message) (Hlimit : 0 <= gasLimit msg < two64).
Context (n d : nat) (Hn : gasLimit msg < Z.of_nat n) (e : VM S) (Hd : 1025 <= depth e + Z.of_nat d).
Context (pool : Z) (Hpool : 0 <= pool < two64).

Lemma message_ok refunds bailout :
  tsat (depth e) pool 0 0 (TransitionDb env (calls env jt n d) chainConfig msg refunds bailout) (fun r p' _ _ =>
    refunds = true -> Parlia chainConfig || bailout = false ->
    match r with
    | inl res => settled env msg pool res p'
    | inr _ => p' = pool \/ gasLimit msg <= pool /\ p' = pool - gasLimit msg
    end).
Proof.
  destruct (interpreter_good env jt eips Hrules Hnew).
  apply (tsat_TransitionDb env (calls env jt n d) chainConfig msg (depth e) (gasLimit msg + 1)); try lia.
  apply calls_good; try done; lia.
Qed.

(** Executing a message always comes to an end, whatever the transaction, the
    bytecode it reaches and the flags: as many turns per run as the message has gas,
    plus one, and 1025 nested calls are enough. *)
Theorem ApplyMessage_terminates refunds bailout :
  ApplyMessage env (calls env jt n d) chainConfig msg refunds bailout (e, pool) <> NoFuel.
Proof.
  pose proof (message_ok refunds bailout (NewStateTransition e pool) eq_refl eq_refl eq_refl eq_refl) as H.
  unfold ApplyMessage. cbn [fst snd]. by destruct (TransitionDb _ _ _ _ _ _ _) as [[]| |].
Qed.

(** C28: a message that is executed with refunds uses between the intrinsic gas (less
    the capped refund) and its gas limit, and the gas pool of the block loses exactly
    the gas used; a message that is refused leaves the pool alone, or takes its whole
    gas limit out of it when the refusal came after the gas was bought. *)
Theorem ApplyMessage_gas r e' pool' :
  Parlia chainConfig = false ->
  ApplyMessage env (calls env jt n d) chainConfig msg true false (e, pool) = Done (r, (e', pool')) ->
  match r with
  | inl res => settled env msg pool res pool'
  | inr _ => pool' = pool \/ gasLimit msg <= pool /\ pool' = pool - gasLimit msg
  end.
Proof.
  intros Hp E. pose proof (message_ok true false (NewStateTransition e pool) eq_refl eq_refl eq_refl eq_refl) as H.
  unfold ApplyMessage in E. cbn [fst snd] in E. destruct (TransitionDb _ _ _ _ _ _ _) as [[r' st]| |]; [|done..].
  injection E as -> <- <-. destruct H as [_ H]. apply H; [done|]. by rewrite Hp.
Qed.
End Properties.
