(* ===== verification/Settlement.v ===== *)
(** * Settlement of a message on the intra-block state

    The end of a transition, the refund and the payment of the fees, on the state of
    [modules/state]: the gas that was prepaid is handed out completely, to the sender,
    to the block producer and to the collector of the base fee, or burnt where there is
    none; and examples of messages executed on a concrete state. *)

From S2P Require Import Prelude Uint256 Params Common EvmTypes EvmLogic EvmState.
From S2P Require Import Config Wire Transaction StateTransition.
From S2P Require Import AccessList StateTypes State StateRollback StateSnapshots StateTheorems.

Section Settlement.
Context {U : Uint256} {UL : Uint256Laws U} {C : Crypto} {K : AccountCodec} (R : StateReader).
Context (HR : reader_wf R).

#[local] Existing Instance state_ibs.
#[local] Instance the_state : EvmTypes.ibs.IntraBlockState IntraBlockState := state_ibs R.
Notation MS := (M IntraBlockState).

(** ** Balances, whether or not the account is loaded

    The coinbase is usually in the database and not loaded when it is paid: [AddBalance]
    then only records an increase, which the next load of the account adds. *)

(** The balance the state answers. *)
Definition balance_of (s : IntraBlockState) (a : Z) : Z :=
  match GetBalance R a s with Done (v, _) => v | _ => 0 end.

(** With the increase that waits for the load of the account. *)
Definition increased (s : IntraBlockState) (a z : Z) : Z :=
  match balanceInc s !! a with
  | Some bi => if transferred bi then z else uint256.Add z (increase bi)
  | None => z
  end.

Definition worth (s : IntraBlockState) (a : Z) : Z :=
  match stateObjects s !! a with
  | Some o => if deleted o then 0 else Balance (data o)
  | None =>
      if bool_decide (a ∈ nilAccounts s) then increased s a 0 else
      match ReadAccountData R a with
      | (_, Some _) => 0
      | (None, None) => increased s a 0
      | (Some acc, None) => increased s a (Balance (data (newObject a acc acc)))
      end
  end.

(** What loading an object leaves: the object with the waiting increase. *)
Record loaded (a : Z) (s t : IntraBlockState) (z : Z) : Prop := mk_loaded {
  ld_obj : exists o, stateObjects t !! a = Some o /\ deleted o = false /\ Balance (data o) = increased s a z;
  ld_nil : nilAccounts t = nilAccounts s;
  ld_bi : forall bi, balanceInc t !! a = Some bi -> transferred bi = true /\
            exists bi0, balanceInc s !! a = Some bi0 /\ increase bi = increase bi0
}.

Lemma setStateObject_loads a o s : deleted o = false ->
  exists t, setStateObject a o s = Done ((), t) /\ loaded a s t (Balance (data o)).
Proof.
  intros Hd. unfold setStateObject, jappend, mbind, M_bind, get, modify, mret, M_ret.
  destruct (balanceInc s !! a) as [bi|] eqn:Eb; [destruct (transferred bi) eqn:Et|]; cbn [negb];
    eexists; (split; [reflexivity|]); split; cbn; unfold increased; rewrite ?Eb, ?Et; try done;
    try (eexists; rewrite lookup_insert_eq; split_and!; [reflexivity|done|done]).
  - intros ? [= <-]. eauto.
  - intros b. rewrite lookup_insert_eq. intros [= <-]. eauto.
Qed.

Lemma createObject_loads a p s :
  exists t, createObject a p s = Done ((), t) /\ loaded a s t 0.
Proof.
  unfold createObject, jappend, mbind, M_bind, modify.
  destruct p; cbn -[setStateObject newObject];
    match goal with |- context [setStateObject a ?o ?s1] =>
      destruct (setStateObject_loads a o s1 eq_refl) as (t & -> & [H1 H2 H3]) end;
    (exists t; split; [done|]; split; [exact H1|exact H2|exact H3]).
Qed.

Definition same_entry (a : Z) (s t : IntraBlockState) : Prop :=
  stateObjects t !! a = stateObjects s !! a /\ balanceInc t !! a = balanceInc s !! a /\
  (a ∈ nilAccounts t -> a ∈ nilAccounts s \/ ReadAccountData R a = (None, None)).

(** What [getStateObject] returns and leaves at the address. *)
Inductive got (a : Z) (s : IntraBlockState) : option stateObject -> IntraBlockState -> Prop :=
| got_in o : stateObjects s !! a = Some o -> got a s (Some o) s
| got_none t : stateObjects s !! a = None -> same_entry a s t -> worth s a = 0 ->
    ((ReadAccountData R a).2 = None -> forall bi, balanceInc s !! a = Some bi -> transferred bi = true) ->
    got a s None t
| got_load s1 t z o : stateObjects s !! a = None -> same_entry a s s1 -> loaded a s1 t z ->
    stateObjects t !! a = Some o -> worth s a = increased s a z -> word z -> got a s (Some o) t.

Lemma newObject_word a acc : ReadAccountData R a = (Some acc, None) -> word (Balance (data (newObject a acc acc))).
Proof.
  intros H. pose proof (HR _ _ H). unfold newObject. cbn. repeat case_match; by cbn.
Qed.

Lemma increased_same a s t z : balanceInc t !! a = balanceInc s !! a -> increased t a z = increased s a z.
Proof. intros H. unfold increased. by rewrite H. Qed.

Lemma getStateObject_got a s : exists so t, getStateObject R a s = Done (so, t) /\ got a s so t.
Proof.
  unfold getStateObject, mbind, M_bind, get. destruct (stateObjects s !! a) as [o|] eqn:Eo; [by eexists _, _; split; [|constructor]|].
  assert (forall s1, same_entry a s s1 -> worth s a = increased s a 0 ->
    exists so t, (match balanceInc s !! a with
        | Some bi => if negb (transferred bi) then _ ← createObject a None; so ← obj a; mret (Some so) else mret None
        | None => mret None end : MS (option stateObject)) s1 = Done (so, t) /\ got a s so t) as Habs.
  { intros s1 Hs Hw. unfold mbind, M_bind.
    destruct (createObject_loads a None s1) as (t & Ec & Hl). pose proof (ld_obj _ _ _ _ Hl) as (o & Ho & _).
    unfold increased in Hw.
    destruct (balanceInc s !! a) as [bi|] eqn:Eb; [destruct (transferred bi) eqn:Et|]; cbn [negb].
    - eexists _, _. split; [done|]. apply got_none; try done. intros _ b. by rewrite Eb; intros [= <-].
    - rewrite Ec, (obj_run _ _ _ Ho). eexists _, _. split; [done|]. eapply got_load; try done.
      unfold increased. by rewrite Eb, Et.
    - eexists _, _. split; [done|]. apply got_none; try done. intros _ b. by rewrite Eb. }
  unfold mbind, M_bind in Habs.
  case_bool_decide as Hn.
  { apply Habs; [by split_and!; auto|]. unfold worth. by rewrite Eo, bool_decide_eq_true_2. }
  assert (worth s a = match ReadAccountData R a with
      | (_, Some _) => 0 | (None, None) => increased s a 0
      | (Some acc, None) => increased s a (Balance (data (newObject a acc acc))) end) as Hw.
  { unfold worth. by rewrite Eo, bool_decide_eq_false_2. }
  destruct (ReadAccountData R a) as [acc err] eqn:ER.
  destruct err as [err|]; [|destruct acc as [acc|]].
  - replace (match acc with Some _ | None => _ end) with (setError err ≫= fun _ => mret (None : option stateObject)) by (by destruct acc).
    eexists _, _. split; [done|]. apply got_none; [done| |by destruct acc|by rewrite ER].
    unfold same_entry. cbn. destruct (savedErr s); cbn; auto.
  - unfold modify.
    match goal with |- context [setStateObject a ?o ?s1] =>
      destruct (setStateObject_loads a o s1 eq_refl) as (t & -> & Hl); assert (same_entry a s s1) as Hs end.
    { unfold same_entry. repeat case_match; cbn; auto. }
    pose proof (ld_obj _ _ _ _ Hl) as (o & Ho & _). rewrite (obj_run _ _ _ Ho).
    eexists _, _. split; [done|]. by eapply got_load; [..|eapply newObject_word].
  - apply Habs; [|done]. split_and!; [done..|]. cbn. set_solver.
Qed.

Lemma balance_of_worth s a : balance_of s a = worth s a.
Proof.
  unfold balance_of, GetBalance, mbind, M_bind.
  destruct (getStateObject_got a s) as (so & t & -> & [o Ho|t' Ho _ Hw _|s1 t' z o Ho Hs Hl Ht Hw _]).
  - unfold worth. rewrite Ho. cbn. by destruct (deleted o).
  - done.
  - destruct Hl as [(o' & Ho' & Hd & Hb) _ _]. rewrite Ho' in Ht. injection Ht as <-.
    cbn. rewrite Hd. cbn. rewrite Hb, Hw. apply increased_same, Hs.
Qed.

(** An account whose balance changes exactly: its database entry can be read, what the
    state holds of it are words, and a recorded increase is transferred once the account
    is loaded and not before. *)
Record steady (s : IntraBlockState) (a : Z) : Prop := mk_steady {
  sd_read : (ReadAccountData R a).2 = None;
  sd_nil : a ∈ nilAccounts s -> (ReadAccountData R a).1 = None;
  sd_obj : forall o, stateObjects s !! a = Some o -> word (Balance (data o));
  sd_bi : forall bi, balanceInc s !! a = Some bi ->
    word (increase bi) /\ (transferred bi = true <-> is_Some (stateObjects s !! a))
}.

(** The invariant of the rollback proofs gives it for every readable account. *)
Lemma Inv_steady s a : Inv R s -> (ReadAccountData R a).2 = None -> steady s a.
Proof.
  intros Hi Hr. split; [done| | |].
  - intros Hn. by rewrite (inv_nil _ _ Hi a Hn).
  - intros o Ho. by eapply ow_balance, (inv_obj _ _ Hi).
  - intros bi Hb. by destruct (inv_bi _ _ Hi a bi Hb) as (_ & ? & ? & _).
Qed.

Lemma steady_loaded a s s1 t z :
  steady s a -> same_entry a s s1 -> loaded a s1 t z -> word z -> steady t a.
Proof.
  intros [H1 H2 H3 H4] (E1 & E2 & E3) [(o & Ho & Hd & Hb) Hn Hbi] Hz. split.
  - done.
  - rewrite Hn. intros [?| ->]%E3; auto.
  - intros o'. rewrite Ho. intros [= <-]. rewrite Hb, (increased_same _ _ _ _ E2). unfold increased.
    destruct (balanceInc s !! a) as [bi|] eqn:Eb; [|done]. destruct (transferred bi); [done|].
    apply uint256.Add_word; [done|]. by apply (H4 bi).
  - intros bi Hbi'. destruct (Hbi bi Hbi') as (Ht & bi0 & Hb0 & ->). rewrite E2 in Hb0. rewrite Ho.
    split; [by apply (H4 bi0)|by split; [eauto|]].
Qed.


Lemma GetOrNew_worth s a o s1 : steady s a -> GetOrNewStateObject R a s = Done (o, s1) ->
  stateObjects s1 !! a = Some o /\ deleted o = false /\ Balance (data o) = worth s a /\ steady s1 a.
Proof.
  intros Hs. unfold GetOrNewStateObject, mbind, M_bind.
  destruct (getStateObject_got a s) as (so & t & -> & [x Hx|t' Ho Hsame Hw Hbi|s2 t' z x Ho Hsame Hl Ht Hw Hz]).
  - unfold worth. rewrite Hx. destruct (deleted x) eqn:Hd; [|by intros [= <- <-]].
    destruct (createObject_loads a (Some x) s) as (t2 & -> & Hl).
    pose proof (ld_obj _ _ _ _ Hl) as (y & Hy & Hdy & Hby). rewrite (obj_run _ _ _ Hy). intros [= <- <-].
    split_and!; [done|done| |eapply steady_loaded; [done| |done|done]; by split_and!; auto].
    rewrite Hby. unfold increased. destruct (balanceInc s !! a) as [bi|] eqn:Eb; [|done].
    destruct (sd_bi _ _ Hs bi Eb) as [_ Ht]. by rewrite (proj2 Ht ltac:(eauto)).
  - destruct (createObject_loads a None t') as (t2 & -> & Hl).
    pose proof (ld_obj _ _ _ _ Hl) as (y & Hy & Hdy & Hby). rewrite (obj_run _ _ _ Hy). intros [= <- <-].
    split_and!; [done|done| |by eapply steady_loaded]. rewrite Hby, Hw, (increased_same a s t' 0) by apply Hsame.
    unfold increased. destruct (balanceInc s !! a) as [bi|] eqn:Eb; [|done].
    by rewrite (Hbi (sd_read _ _ Hs) bi eq_refl).
  - pose proof (ld_obj _ _ _ _ Hl) as (y & Hy & Hdy & Hby). rewrite Hy in Ht. injection Ht as <-.
    rewrite Hdy. intros [= <- <-]. split_and!; [done|done| |by eapply steady_loaded].
    rewrite Hby, Hw. by apply increased_same, Hsame.
Qed.

Lemma so_AddBalance_worth s a o v u s' :
  steady s a -> word v -> stateObjects s !! a = Some o -> deleted o = false ->
  so_AddBalance a v s = Done (u, s') ->
  steady s' a /\ worth s' a = wrap256 (Balance (data o) + v).
Proof.
  intros Hs Hv Ho Hd E. pose proof (sd_obj _ _ Hs o Ho) as Hw. destruct Hs as [H1 H2 H3 H4].
  unfold so_AddBalance, mbind at 1, M_bind at 1 in E. rewrite (obj_run _ _ _ Ho) in E.
  rewrite uint256.IsZero_spec in E by done. destruct (Z.eqb_spec v 0) as [->|].
  - rewrite Z.add_0_r, <- wrap256_id by done.
    assert (stateObjects s' = stateObjects s /\ nilAccounts s' = nilAccounts s /\ balanceInc s' = balanceInc s) as (E1 & E2 & E3).
    { destruct (empty o); [|by injection E as _ <-].
      unfold touch, jappend, mbind, M_bind, modify in E. by destruct (a =? ripemd); injection E as _ <-. }
    split; [split; rewrite ?E1, ?E2, ?E3; done|]. unfold worth. by rewrite E1, Ho, Hd.
  - unfold so_SetBalance, jappend, mbind, M_bind in E. rewrite (obj_run _ _ _ Ho) in E.
    cbn [modify] in E. erewrite upd_run in E by exact Ho. injection E as _ <-.
    pose proof (uint256.Add_word _ _ Hw Hv).
    split; [split|]; cbn; unfold worth; cbn; rewrite ?lookup_insert_eq; cbn; try done.
    + by intros o' [= <-].
    + intros bi Hb. split; [by apply (H4 bi)|]. split; [eauto|]. intros _. apply (H4 bi); eauto.
    + rewrite Hd. by apply uint256.Add_spec.
Qed.

Lemma AddBalance_worth s a v u s' :
  steady s a -> word v -> AddBalance R a v s = Done (u, s') ->
  steady s' a /\ worth s' a = wrap256 (worth s a + v).
Proof.
  intros Hs Hv E. unfold AddBalance in E. unfold mbind at 1, M_bind at 1, get in E.
  assert ((GetOrNewStateObject R a ≫= fun _ => so_AddBalance a v) s = Done (u, s') ->
    steady s' a /\ worth s' a = wrap256 (worth s a + v)) as Hobj.
  { intros (o & s1 & E1 & E2)%bind_Done.
    destruct (GetOrNew_worth s a o s1 Hs E1) as (Ho & Hd & <- & Hs1). by eapply so_AddBalance_worth. }
  destruct (stateObjects s !! a) as [o|] eqn:Ha; cbn in E; [by apply Hobj|].
  destruct ((a =? ripemd) && uint256.IsZero v); cbn in E; [by apply Hobj|]. clear Hobj.
  injection E as _ <-. destruct Hs as [H1 H2 H3 H4].
  set (bi := default _ _).
  assert (word (increase bi) /\ transferred bi = false /\ forall z, word z -> increased s a z = wrap256 (z + increase bi)) as (W & T & I).
  { unfold increased. subst bi. destruct (balanceInc s !! a) as [bi|] eqn:Eb; cbn.
    - destruct (H4 bi eq_refl) as [W T]. destruct (transferred bi) eqn:Et.
      { destruct (proj1 T eq_refl) as [? Hx]. by rewrite Ha in Hx. }
      split_and!; [done..|]. intros z Hz. by apply uint256.Add_spec.
    - split_and!; [done..|]. intros z Hz. rewrite Z.add_0_r. by apply wrap256_id. }
  clearbody bi. split.
  - split; cbn; [done|done|by rewrite Ha|]. rewrite lookup_insert_eq, Ha, T. intros ? [= <-]. cbn.
    split; [by apply uint256.Add_word|]. by split; [|intros []].
  - assert (forall z, word z -> wrap256 (z + uint256.Add (increase bi) v) = wrap256 (increased s a z + v)) as Hz.
    { intros z Hz. rewrite I, uint256.Add_spec by done. unfold wrap256. rewrite Zplus_mod_idemp_l, Zplus_mod_idemp_r. f_equal. lia. }
    unfold worth. cbn -[newObject]. rewrite Ha.
    set (s' := set_balanceInc _ _). assert (forall z, word z -> increased s' a z = wrap256 (increased s a z + v)) as Hi.
    { intros z Hz'. rewrite <- Hz by done. unfold increased at 1, s'. cbn. rewrite lookup_insert_eq. cbn. rewrite T.
      apply uint256.Add_spec; [done|]. by apply uint256.Add_word. }
    case_bool_decide; [by apply Hi|]. revert H1. destruct (ReadAccountData R a) as [[acc|] [err|]] eqn:ER; intros H1; try done; apply Hi; first [by apply newObject_word|done].
Qed.

(** ** Other accounts *)

Definition nil_only (a : Z) (s s' : IntraBlockState) : Prop :=
  forall b, b <> a -> (b ∈ nilAccounts s' <-> b ∈ nilAccounts s).

#[local] Instance nil_only_refl a : Reflexive (nil_only a).
Proof. by intros s b Hb. Qed.
#[local] Instance nil_only_trans a : Transitive (nil_only a).
Proof. intros s1 s2 s3 H1 H2 b Hb. by rewrite (H2 b Hb), (H1 b Hb). Qed.

Ltac nil_tac :=
  idtac; let b := fresh "b" in let Hb := fresh "Hb" in intros b Hb; cbn;
  first [done | set_solver | repeat (case_match; cbn); done].

Lemma nil_only_AddBalance a v : preserves (nil_only a) (AddBalance R a v).
Proof.
  unfold AddBalance, GetOrNewStateObject, getStateObject, createObject, setStateObject, so_AddBalance,
    so_SetBalance, touch, upd, obj, jappend, setError.
  preserves_with nil_tac.
Qed.

Lemma worth_only a s s' b : only a s s' -> nil_only a s s' -> b <> a ->
  worth s' b = worth s b /\ (steady s b -> steady s' b).
Proof.
  intros H N Hb. destruct (H b Hb) as [H1 H2]. specialize (N b Hb). split.
  - unfold worth, increased. rewrite H1, H2. by rewrite (bool_decide_ext _ _ N).
  - intros [S1 S2 S3 S4]. split; rewrite ?H1, ?H2; try done. by rewrite N.
Qed.

(** A credit, modulo 2^256. *)
Lemma credit s a v u s' : AddBalance R a v s = Done (u, s') -> steady s a -> word v ->
  forall b, (steady s b -> steady s' b) /\
    worth s' b = if b =? a then wrap256 (worth s b + v) else worth s b.
Proof.
  intros E Hs Hv b. destruct (AddBalance_worth _ _ _ _ _ Hs Hv E) as [Hs' Hw].
  destruct (Z.eqb_spec b a) as [->|Hne]; [done|].
  destruct (worth_only a s s' b) as [-> ?]; [by eapply only_AddBalance|by eapply nil_only_AddBalance|done|done].
Qed.

Lemma on_state_Done {A} (m : M IntraBlockState A) st r st' :
  on_state m st = Done (r, st') -> exists s', m (intraBlockState (evm st)) = Done (r, s') /\
    intraBlockState (evm st') = s' /\ gas st' = gas st /\ initialGas st' = initialGas st /\ gp st' = gp st.
Proof.
  unfold on_state, on_evm, on_ibs, zoom. destruct (m _) as [[a s']| |]; [|done..]. intros [= <- <-].
  by exists s'.
Qed.

Context (env : Env IntraBlockState) (chainConfig : ChainConfig) (msg : Message).
Context (Hprice : word (gasPrice msg)) (Hcap : word (feeCap msg)) (Htip : word (tip msg)).

Notation state_of st := (intraBlockState (evm st)).

(** ** The parties and their prices *)

Definition producer : Z := if Parlia chainConfig then SystemAddress else Coinbase (context env).

Definition base_fee : Z := default 0 (BaseFee (context env)).

Definition collected : bool :=
  negb (isFree msg) && IsLondon (chainRules env) && IsEip1559FeeCollector (chainRules env).

Definition collector : Z := default 0 (Eip1559FeeCollector chainConfig).

(** What a unit of used gas pays to the producer: before London the gas price, then
    the tip as far as the fee cap leaves room above the base fee. *)
Definition producer_price : Z :=
  if IsLondon (chainRules env) then Z.min (tip msg) (Z.max 0 (feeCap msg - base_fee)) else gasPrice msg.

Definition party (b : Z) : bool :=
  (b =? from msg) || (b =? producer) || (collected && (b =? collector)).

Definition due (rest used b : Z) : Z :=
  (if b =? from msg then rest * gasPrice msg else 0) +
  (if b =? producer then used * producer_price else 0) +
  (if collected && (b =? collector) then used * base_fee else 0).

(** The gas left once the refund is granted: the refund counter, at most the [q]-th
    part of the gas used. *)
Definition gas_left (q : Z) (st : StateTransition IntraBlockState) : Z :=
  gas st + Z.min (u64 (StateTypes.refund (state_of st))) ((initialGas st - gas st) / q).

Context (Hbase : word base_fee).

Lemma producer_price_word : word producer_price.
Proof. unfold producer_price, word in *. destruct (IsLondon _); lia. Qed.

Lemma gas_left_bounds q st : 1 <= q -> 0 <= gas st <= initialGas st -> gas st <= gas_left q st <= initialGas st.
Proof.
  intros Hq Hg. unfold gas_left. pose proof (u64_range (StateTypes.refund (state_of st))).
  assert (0 <= (initialGas st - gas st) / q <= initialGas st - gas st); [|lia].
  split; [apply Z.div_pos; lia|]. apply Z.div_le_upper_bound; nia.
Qed.

Lemma wrap256_add_r x y : wrap256 (x + wrap256 y) = wrap256 (x + y).
Proof. unfold wrap256. by rewrite Zplus_mod_idemp_r. Qed.

Lemma wrap256_add_l x y : wrap256 (wrap256 x + y) = wrap256 (x + y).
Proof. unfold wrap256. by rewrite Zplus_mod_idemp_l. Qed.

(** A credit of an amount of gas at a price. *)
Lemma credit_gas s a g p u s' : AddBalance R a (uint256.Mul g p) s = Done (u, s') ->
  steady s a -> 0 <= g < two64 -> word p ->
  forall b, (steady s b -> steady s' b) /\
    worth s' b = if b =? a then wrap256 (worth s b + g * p) else worth s b.
Proof.
  intros E Hs Hg Hp b. assert (word g) by (unfold word; lia).
  rewrite uint256.Mul_spec in E by done. destruct (credit _ _ _ _ _ E Hs (wrap256_word _) b) as [H1 H2].
  split; [done|]. by rewrite H2, wrap256_add_r.
Qed.

Lemma refundGas_exact st q u st' :
  steady (state_of st) (from msg) -> 1 <= q ->
  0 <= gas st <= initialGas st -> initialGas st < two64 -> 0 <= gp st ->
  refundGas msg q st = Done (u, st') ->
  initialGas st' = initialGas st /\ gas st' = gas_left q st /\ gp st' = gp st + gas_left q st /\
  forall b, (steady (state_of st) b -> steady (state_of st') b) /\
    worth (state_of st') b = if b =? from msg then wrap256 (worth (state_of st) b + gas_left q st * gasPrice msg)
                             else worth (state_of st) b.
Proof.
  intros Hp Hq Hg Hig Hgp E. unfold refundGas in E. pose proof (gas_left_bounds q st Hq Hg) as Hl.
  apply bind_Done in E as (st0 & st1 & E0 & E). injection E0 as <- <-.
  apply bind_Done in E as (r & st1 & E1 & E).
  apply on_state_Done in E1 as (s1 & E1 & Es1 & Eg1 & Ei1 & Ep1). injection E1 as <- E1.
  unfold gasUsed in E. rewrite (u64_small (initialGas st - gas st)) in E by lia. cbv zeta in E.
  set (refund := if _ <? _ then _ else _) in E.
  assert (gas st + refund = gas_left q st) as El by (subst refund; unfold gas_left; zbool; lia).
  rewrite El, u64_small in E by lia. clear El refund.
  apply bind_Done in E as (u1 & st2 & [= _ <-] & E). apply bind_Done in E as (st0 & st2 & [= <- <-] & E).
  cbn in E. apply bind_Done in E as (u2 & st3 & E3 & E4).
  apply on_state_Done in E3 as (s3 & E3 & Es3 & Eg3 & Ei3 & Ep3). cbn in E3, Eg3, Ei3, Ep3.
  rewrite Es1, <- E1 in E3. pose proof (credit_gas _ _ _ _ _ _ E3 Hp ltac:(lia) Hprice) as Hc.
  apply zoom_Done in E4 as (u4 & p4 & E4 & [= -> ->]). cbn. rewrite Es3, Eg3, Ei3, Ei1.
  split_and!; [done|done| |done].
  unfold gaspool.AddGas, mbind, M_bind, get in E4. rewrite Ep3, Ep1 in E4.
  rewrite (u64_small (MaxUint64 - _)) in E4 by (unfold MaxUint64; lia).
  destruct (Z.ltb_spec (MaxUint64 - gas_left q st) (gp st)) as [|Hle]; [done|]. injection E4 as _ <-.
  unfold MaxUint64 in Hle. apply u64_small. lia.
Qed.

Lemma effective_tip_eq st v st' : effective_tip env msg st = Done (v, st') -> v = producer_price /\ st' = st.
Proof.
  unfold effective_tip, producer_price, Min256, base_fee in *. destruct (IsLondon _); [|by intros [= <- <-]].
  destruct (BaseFee (context env)) as [base|]; [|done]. unfold mbind, M_bind; cbn in *.
  rewrite uint256.Gt_spec by done. unfold word in *. destruct (Z.ltb_spec base (feeCap msg)).
  - rewrite sub_le by (unfold word; lia). rewrite uint256.Gt_spec by (unfold word; lia).
    intros [= <- <-]. split; [zbool; lia|done].
  - intros [= <- <-]. split; [lia|done].
Qed.

Lemma pay_fees_exact st u st' used : used = initialGas st - gas st ->
  0 <= gas st <= initialGas st -> initialGas st < two64 ->
  steady (state_of st) producer -> (collected = true -> steady (state_of st) collector) ->
  pay_fees env chainConfig msg st = Done (u, st') ->
  gas st' = gas st /\ initialGas st' = initialGas st /\ gp st' = gp st /\
  forall b, worth (state_of st') b =
    let w := if b =? producer then wrap256 (worth (state_of st) b + used * producer_price) else worth (state_of st) b in
    if collected && (b =? collector) then wrap256 (w + used * base_fee) else w.
Proof.
  intros Hu Hg Hig Hp Hc E. unfold pay_fees in E.
  apply bind_Done in E as (tip_ & st0 & E0 & E). apply effective_tip_eq in E0 as [-> ->].
  apply bind_Done in E as (used_ & st0 & [= <- <-] & E). unfold gasUsed in E.
  rewrite u64_small, <- Hu in E by lia. cbv zeta in E. fold producer collected in E.
  apply bind_Done in E as (u1 & st1 & E1 & E). apply on_state_Done in E1 as (s1 & E1 & Es1 & Eg1 & Ei1 & Ep1).
  pose proof (credit_gas _ _ _ _ _ _ E1 Hp ltac:(lia) producer_price_word) as H1.
  unfold base_fee, collector in *. destruct collected; cbn [andb].
  - destruct (Eip1559FeeCollector chainConfig) as [c|]; [|done]. destruct (BaseFee (context env)) as [base|]; [|done].
    apply bind_Done in E as (c' & st2 & [= <- <-] & E). apply bind_Done in E as (b & st2 & [= <- <-] & E).
    apply on_state_Done in E as (s2 & E2 & Es2 & Eg2 & Ei2 & Ep2). rewrite Es1 in E2. cbn in *.
    pose proof (credit_gas _ _ _ _ _ _ E2 (proj1 (H1 c) (Hc eq_refl)) ltac:(lia) Hbase) as H2.
    rewrite Es2, Eg2, Ei2, Ep2. split_and!; [done..|]. intros b. rewrite (proj2 (H2 b)), (proj2 (H1 b)). done.
  - injection E as _ <-. rewrite Es1. split_and!; [done..|]. intros b. apply H1.
Qed.

(** ** Property *)

(** C12: the end of a transaction, the refund followed by the payment of the fees, on any
    fork and with or without a fee collector.  The gas left is the unspent gas plus the
    refund counter, the latter capped at the [q]-th part of the gas used; it goes back to
    the block's gas pool.  The sender gets it back at the gas price.  The producer (the
    system address under Parlia) gets the gas used at the gas price before London, and
    from London on at the tip, as far as the fee cap leaves room above the base fee.  The
    collector, if the rules have one and the message is not free, gets it at the base
    fee; otherwise, as under the configuration of AmazeChain, that part is burnt.  The
    amounts are added modulo 2^256, the parties may coincide, and no other balance
    changes.  For a message that is charged what its fee cap and tip say, the three
    parts, with the burnt one, are together what the sender prepaid.  Conditions: the
    entries of the parties are [steady], the gas bought is a 64-bit number, and the gas
    left is part of it. *)
Theorem settlement_exact st q u st' (rest := gas_left q st) (used := initialGas st - rest) :
  1 <= q -> 0 <= gas st <= initialGas st -> initialGas st < two64 -> 0 <= gp st ->
  steady (state_of st) (from msg) -> steady (state_of st) producer ->
  (collected = true -> steady (state_of st) collector) ->
  (_ ← refundGas msg q; pay_fees env chainConfig msg) st = Done (u, st') ->
  gas st' = rest /\ gasUsed st' = used /\ gp st' = gp st + rest /\
  (forall b, balance_of (state_of st') b =
     if party b then wrap256 (balance_of (state_of st) b + due rest used b) else balance_of (state_of st) b) /\
  ((IsLondon (chainRules env) = true ->
     base_fee <= feeCap msg /\ gasPrice msg = Z.min (tip msg + base_fee) (feeCap msg)) ->
   rest * gasPrice msg + used * producer_price + (if IsLondon (chainRules env) then used * base_fee else 0)
     = initialGas st * gasPrice msg).
Proof.
  intros Hq Hg Hig Hgp Hf Hp Hc E. pose proof (gas_left_bounds q st Hq Hg) as Hl. fold rest in Hl.
  apply bind_Done in E as (u1 & st1 & E1 & E2).
  destruct (refundGas_exact _ _ _ _ Hf Hq Hg Hig Hgp E1) as (Ei1 & Eg1 & Ep1 & Hb1). fold rest in Eg1, Ep1, Hb1.
  destruct (pay_fees_exact st1 u st' used) as (Eg2 & Ei2 & Ep2 & Hb2);
    [subst used; congruence|lia|lia|by apply Hb1|intros Hx; by apply Hb1, Hc|done|].
  split_and!; [congruence| |congruence| |].
  - unfold gasUsed. rewrite Ei2, Eg2, Ei1, Eg1. apply u64_small. lia.
  - intros b. rewrite !balance_of_worth, Hb2, (proj2 (Hb1 b)). unfold due, party. cbv zeta.
    destruct (b =? from msg), (b =? producer), (collected && (b =? collector)); cbn [orb];
      repeat (rewrite wrap256_add_l || rewrite <- Z.add_assoc); first [done|apply (f_equal wrap256); ring].
  - intros Hpr. unfold producer_price. subst used. destruct (IsLondon _); [|lia].
    destruct (Hpr eq_refl) as [Hb Eprice]. unfold word in *. replace (Z.min (tip msg) _) with (gasPrice msg - base_fee) by lia. lia.
Qed.
End Settlement.

(** * Executing messages on a concrete state

    A message that calls the program of [EvmExamples.v], and the settlement of its
    fees: the theorems of [StateTransitionTheorems.v] and [Settlement.v] hold of it. *)

From S2P Require Import Stack Memory Analysis Contract Instructions GasTable Opcodes JumpTable Rlp Contracts Interpreter Evm OpSpecs GasSpecs TableSpecs GasSafety EvmTheorems EvmExamples StateTransitionTheorems.

(** The sender, at address 1, with some money. *)
Definition funded_vm : VM IntraBlockState :=
  match on_ibs (ibs.AddBalance 1 1000000000) example_vm with Done (_, e) => e | _ => example_vm end.

Definition example_message : Message :=
  mkMessage (Some 100) 1 0 5 60000 8 10 1 [0; 1; 2] [(100, [2])] true false.

#[local] Notation example_apply :=
  (ApplyMessage (example_env []) (calls (example_env []) example_jt (Z.to_nat 60001) (Z.to_nat 1025))
     AmazeChainConfig example_message true false (funded_vm, 100000)).

(** The intrinsic gas is 21000 + 4 + 2 * 16 + 2400 + 1900; the slot is warm. *)
Lemma example_used :
  match example_apply with
  | Done (inl res, (_, pool)) => (UsedGas res, Err res, pool) = (45366, None, 100000 - 45366)
  | _ => False
  end.
Proof. vm_compute. reflexivity. Qed.

Lemma IntrinsicGas_exact_witness :
  IntrinsicGas [0; 1; 2] [(100, [2])] false true true true = (25336, None).
Proof. rewrite IntrinsicGas_exact; [vm_compute; reflexivity|vm_compute; reflexivity|vm_compute; reflexivity]. Defined.

Lemma ApplyMessage_terminates_witness : example_apply <> NoFuel.
Proof.
  exact (ApplyMessage_terminates (example_env []) example_jt example_eips eq_refl example_new AmazeChainConfig
    example_message ltac:(vm_compute; split; congruence) (Z.to_nat 60001) (Z.to_nat 1025) ltac:(reflexivity)
    funded_vm ltac:(vm_compute; congruence) 100000 ltac:(lia) true false).
Defined.

Lemma ApplyMessage_gas_witness : exists r e' pool',
  example_apply = Done (r, (e', pool')) /\
  match r with
  | inl res => settled (example_env []) example_message 100000 res pool'
  | inr _ => pool' = 100000 \/ gasLimit example_message <= 100000 /\ pool' = 100000 - gasLimit example_message
  end.
Proof.
  assert (is_done example_apply = true) as H by (vm_compute; reflexivity).
  destruct example_apply as [[r [e' pool']]| |] eqn:E; [|discriminate H..].
  exists r, e', pool'. split; [reflexivity|].
  exact (ApplyMessage_gas (example_env []) example_jt example_eips eq_refl example_new AmazeChainConfig
    example_message ltac:(vm_compute; split; congruence) (Z.to_nat 60001) (Z.to_nat 1025) ltac:(reflexivity)
    funded_vm ltac:(vm_compute; congruence) 100000 ltac:(lia) r e' pool' eq_refl E).
Defined.

(** ** Settlement *)

(** Shanghai with a fee collector. *)
Definition collector_rules : Rules :=
  mkRules 1 true true true true true true true true true true false false
    false false true false false false false.

Definition collector_env : Env IntraBlockState :=
  mkEnv IntraBlockState example_block (mkTxContext 0 1 (Some 1)) collector_rules
    (example_config []) (fun _ => false).

Definition collector_config : ChainConfig :=
  let c := AmazeChainConfig in
  mkChainConfig (cfg_ChainID c) (HomesteadBlock c) (DAOForkBlock c) (DAOForkSupport c) (TangerineWhistleBlock c)
    (SpuriousDragonBlock c) (ByzantiumBlock c) (ConstantinopleBlock c) (PetersburgBlock c) (IstanbulBlock c)
    (MuirGlacierBlock c) (BerlinBlock c) (LondonBlock c) None None None None None None None None
    None (Some 77) (Some 0) false false false.

(** The block producer is in the database and not loaded. *)
Definition producer_reader : StateReader := mkStateReader
  (fun a => if a =? 5 then (Some (mkStateAccount true 0 50 0 0 0), None) else (None, None))
  (fun _ _ _ => (None, None)) (fun _ _ _ => (None, None)) (fun _ _ _ => (0, None)) (fun _ => (0, None)).

(** 600 of 1000 units of gas are left, and the refund counter, 200, exceeds its cap of 80. *)
Definition example_st : StateTransition IntraBlockState :=
  mkStateTransition 0 600 1000 (NewEVM (StateTypes.set_refund 200 New)).

Lemma settlement_exact_witness : exists st',
  (let _ := state_ibs producer_reader in
   _ ← refundGas example_message 5; pay_fees collector_env collector_config example_message) example_st
    = Done ((), st') /\
  gas st' = 680 /\ gp st' = 680 /\
  balance_of producer_reader (intraBlockState (evm st')) 1 = 680 * 8 /\
  balance_of producer_reader (intraBlockState (evm st')) 5 = 50 + 320 * 1 /\
  balance_of producer_reader (intraBlockState (evm st')) 77 = 320 * 7.
Proof.
  cbv zeta.
  assert (reader_wf producer_reader) as HR.
  { intros a acc. unfold producer_reader. cbn. destruct (a =? 5); [|discriminate]. intros [= <-]. vm_compute; split; congruence. }
  assert (forall a, steady producer_reader (StateTypes.set_refund 200 New) a) as Hs.
  { intros a. split.
    - unfold producer_reader. cbn. by destruct (a =? 5).
    - intros H. by apply not_elem_of_empty in H.
    - discriminate.
    - discriminate. }
  destruct ((let _ := state_ibs producer_reader in
    _ ← refundGas example_message 5; pay_fees collector_env collector_config example_message) example_st)
    as [[[] st']| |] eqn:E; [|discriminate E..].
  destruct (settlement_exact producer_reader HR collector_env collector_config example_message
    ltac:(vm_compute; split; congruence) ltac:(vm_compute; split; congruence) ltac:(vm_compute; split; congruence)
    ltac:(vm_compute; split; congruence) example_st 5 () st' ltac:(lia) ltac:(vm_compute; split; congruence)
    ltac:(vm_compute; reflexivity) ltac:(vm_compute; congruence) (Hs _) (Hs _) (fun _ => Hs _) E) as (Hg & _ & Hp & Hb & _).
  exists st'. split; [reflexivity|]. split_and!; [rewrite Hg|rewrite Hp|rewrite Hb..]; vm_compute; reflexivity.
Defined.
