(* ===== verification/Processor.v ===== *)
(** * Processing a block

    [internal/state_processor.go] with the contexts of [internal/evm.go] and
    [FinalizeBlockExecution] of [internal/blockhelp.go]: the transactions of a block
    run one after the other on one intra-block state and one gas pool, then the
    state is committed.

    The consensus engine is the Go interface, a record [Engine] of what the
    processor calls; the hash of a transaction and the writer are parameters. *)

From S2P Require Import Prelude Uint256 Params Common AccessList StateTypes State Finalise Receipts Dao.
From S2P Require Import EvmTypes EvmState Rlp Contracts JumpTable Interpreter Evm Config Header Wire Transaction StateTransition.

(** What block processing calls of a consensus engine. *)
Record Engine (Reward Assembled : Type) : Type := mkEngine {
  Author : header.Header -> Z;
  IsBor : bool;
  Finalize : header.Header -> list TxData -> M StateTypes.IntraBlockState ();
  FinalizeAndAssemble : header.Header -> list TxData -> list Receipt -> list Reward ->
    M StateTypes.IntraBlockState (Assembled + error);
  Rewards : header.Header -> M StateTypes.IntraBlockState (list Reward + error)
}.
Arguments Author {Reward Assembled}.
Arguments IsBor {Reward Assembled}.
Arguments Finalize {Reward Assembled}.
Arguments FinalizeAndAssemble {Reward Assembled}.
Arguments Rewards {Reward Assembled}.

(** [WriterWithChangeSets]. *)
Record BlockWriter (W : Type) : Type := mkBlockWriter {
  bw_write : StateWriter W;
  WriteChangeSets : M W (option error);
  WriteHistory : M W (option error)
}.
Arguments bw_write {W}.
Arguments WriteChangeSets {W}.
Arguments WriteHistory {W}.

Record Block : Type := mkBlock { b_header : header.Header; b_hash : Z; b_transactions : list TxData }.

Inductive TxError : Type := CoreError (err : core.Error) | StateError (err : error).

Inductive ProcessError : Type :=
| CouldNotApply (i : Z) (err : TxError)
| GasUsedMismatch (used want : Z)
| EngineError (err : error)
| CommitFailed (err : error)
| ChangeSetsFailed (err : error)
| HistoryFailed (err : error).

(** The state of the loop: the pointers [ibs], [gp], [usedGas] and the writer. *)
Record Processing (W : Type) : Type := mkProcessing {
  p_ibs : StateTypes.IntraBlockState;
  p_gp : gaspool.GasPool;
  p_usedGas : Z;
  p_writer : W
}.
Arguments mkProcessing {W}.
Arguments p_ibs {W}.
Arguments p_gp {W}.
Arguments p_usedGas {W}.
Arguments p_writer {W}.

Section Processor.
Context {U : Uint256} {C : Crypto} {NC : Native} {K : AccountCodec} (R : StateReader).
Context (iter : forall A : Type, list A -> list A) (Cancelled : nat -> bool) (tx_hash : TxData -> Z).
Context {Reward Assembled W : Type}.

#[local] Instance ibs_instance : ibs.IntraBlockState StateTypes.IntraBlockState := state_ibs R.
Notation MP := (M (Processing W)).

Definition NewEVMBlockContext (header : header.Header) (blockHashFunc : Z -> Z)
    (engine : option (Engine Reward Assembled)) (author : option Z) : outcome (BlockContext StateTypes.IntraBlockState) :=
  beneficiary ← match author with
                | None => engine ← deref engine; mret (Author engine header)
                | Some author => mret author
                end;
  difficulty ← deref (header.Difficulty header);
  mret (mkBlockContext _
    (State.CanTransfer R)
    (match engine with
     | Some engine => if IsBor engine then State.BorTransfer R else State.Transfer R
     | None => State.Transfer R
     end)
    blockHashFunc beneficiary (header.GasLimit header) false (u64 (header.Number header)) (header.Time header)
    (Some difficulty) (Some (default 0 (header.BaseFee header)))
    (if difficulty =? 0 then Some (header.MixDigest header) else None)).

Definition NewEVMTxContext (msg : Message) : TxContext := mkTxContext 0 (from msg) (Some (gasPrice msg)).

Definition on_pstate {A} (m : M StateTypes.IntraBlockState A) : MP A :=
  zoom p_ibs (fun s p => mkProcessing s (p_gp p) (p_usedGas p) (p_writer p)) m.
Definition on_finalise {A} (m : M (StateTypes.IntraBlockState * W) A) : MP A :=
  zoom (fun p => (p_ibs p, p_writer p)) (fun s p => mkProcessing s.1 (p_gp p) (p_usedGas p) s.2) m.
Definition on_pwriter {A} (m : M W A) : MP A :=
  zoom p_writer (fun w p => mkProcessing (p_ibs p) (p_gp p) (p_usedGas p) w) m.

(** [ApplyMessage] on a machine made for the transaction; the fuel is the gas limit. *)
Definition apply_message (config : ChainConfig) (env : Env StateTypes.IntraBlockState) (jt : JumpTable)
    (msg : Message) : MP (ExecutionResult + core.Error) := fun p =>
  match ApplyMessage env (calls env jt (Z.to_nat (gasLimit msg + 1)) (Z.to_nat 1025)) config msg true false
          (NewEVM (p_ibs p), p_gp p) with
  | Done (r, (evm, gp)) => Done (r, mkProcessing (intraBlockState evm) gp (p_usedGas p) (p_writer p))
  | GoPanic => GoPanic
  | NoFuel => NoFuel
  end.

(** The receipt of a transaction that was applied. *)
Definition make_receipt (header : header.Header) (tx : TxData) (msg : Message) (result : ExecutionResult)
    (usedGas : Z) (s : StateTypes.IntraBlockState) : outcome Receipt :=
  contractAddress ← match to msg with
                    | None => CreateAddress (from msg) (tx_Nonce tx)
                    | Some _ => mret 0
                    end;
  let logs := default [] (logs s !! tx_hash tx) in
  let receipt bloom :=
    mkReceipt (txType tx) [] (match Err result with Some _ => ReceiptStatusFailed | None => ReceiptStatusSuccessful end)
      usedGas bloom logs (tx_hash tx) contractAddress (UsedGas result) 0 (Some (header.Number header)) (txIndex s) in
  bloom ← CreateBloom [receipt []];
  mret (receipt bloom).

(** The instructions of the interpreter that [NewEVM] made read the transaction context
    of the machine when they run, so the table is the one of the machine after
    [Reset]. *)
Definition applyTransaction (config : ChainConfig) (engine : option (Engine Reward Assembled)) (stateWriter : StateWriter W)
    (header : header.Header) (tx : TxData) (env : Env StateTypes.IntraBlockState) (cfg : Config)
    : MP ((option Receipt * bytes) + TxError) :=
  let rules := chainRules env in
  msg ← outcome_to_M (AsMessage tx (header.BaseFee header));
  let msg := SetCheckNonce (negb (StatelessExec cfg)) msg in
  let msg := if uint256.IsZero (feeCap msg) && (match engine with Some _ => true | None => false end)
             then SetIsFree false msg else msg in
  let txContext := NewEVMTxContext msg in
  let txContext := if TraceJumpDest cfg then mkTxContext (tx_hash tx) (Origin txContext) (GasPrice txContext) else txContext in
  let env := mkEnv _ (context env) txContext rules cfg Cancelled in
  '(jt, _) ← outcome_to_M (NewEVMInterpreter env);
  result ← apply_message config env jt msg;
  match result with
  | inr err => mret (inr (CoreError err))
  | inl result =>
      err ← on_finalise (FinalizeTx R iter stateWriter (IsSpuriousDragon rules) (IsAura rules));
      match err with
      | Some err => mret (inr (StateError err))
      | None =>
          _ ← modify (fun p => mkProcessing (p_ibs p) (p_gp p) (u64 (p_usedGas p + UsedGas result)) (p_writer p));
          p ← get;
          receipt ← (if negb (NoReceipts cfg) then
                       receipt ← outcome_to_M (make_receipt header tx msg result (p_usedGas p) (p_ibs p));
                       mret (Some receipt)
                     else mret None);
          mret (inl (receipt, ReturnData result))
      end
  end.

(** The machine of [NewEVM] has the rules of the block number. *)
Definition ApplyTransaction (config : ChainConfig) (blockHashFunc : Z -> Z) (engine : option (Engine Reward Assembled))
    (author : option Z) (stateWriter : StateWriter W) (header : header.Header) (tx : TxData) (cfg : Config)
    : MP ((option Receipt * bytes) + TxError) := fun p =>
  match NewEVMBlockContext header blockHashFunc engine author with
  | Done blockContext =>
      let env := mkEnv _ blockContext (mkTxContext 0 0 None) (RulesOf config (BlockNumber blockContext)) cfg Cancelled in
      applyTransaction config engine stateWriter header tx env cfg p
  | GoPanic => GoPanic
  | NoFuel => NoFuel
  end.

Definition FinalizeBlockExecution (engine : Engine Reward Assembled) (header : header.Header) (txs : list TxData)
    (stateWriter : BlockWriter W) (cc : ChainConfig) (receipts : list Receipt) (isMining isBeijing : bool)
    : MP (option Assembled + ProcessError) :=
  rewards ← (if isBeijing then
               rewards ← on_pstate (Rewards engine header);
               match rewards with
               | inr err => mret (inr err)
               | inl rewards => _ ← on_pstate (SoftFinalise iter); mret (inl rewards)
               end
             else mret (inl []));
  match rewards with
  | inr err => mret (inr (EngineError err))
  | inl rewards =>
      newBlock ← (if isMining then
                    b ← on_pstate (FinalizeAndAssemble engine header txs receipts rewards);
                    match b with inl b => mret (inl (Some b)) | inr err => mret (inr err) end
                  else _ ← on_pstate (Finalize engine header txs); mret (inl None));
      match newBlock with
      | inr err => mret (inr (EngineError err))
      | inl newBlock =>
          let rules := RulesOf cc (u64 (header.Number header)) in
          err ← on_finalise (CommitBlock R iter (bw_write stateWriter) (IsSpuriousDragon rules) (IsAura rules));
          match err with
          | Some err => mret (inr (CommitFailed err))
          | None =>
              err ← on_pwriter (WriteChangeSets stateWriter);
              match err with
              | Some err => mret (inr (ChangeSetsFailed err))
              | None =>
                  err ← on_pwriter (WriteHistory stateWriter);
                  match err with
                  | Some err => mret (inr (HistoryFailed err))
                  | None => mret (inl newBlock)
                  end
              end
          end
      end
  end.

(** [vm2.Config{}] *)
Definition processing_config : Config := mkConfig false false false false false false false false [].

(** The loop over the transactions, from the [i]-th on. *)
Fixpoint apply_all (config : ChainConfig) (blockHashFunc : Z -> Z) (engine : Engine Reward Assembled) (b : Block)
    (i : Z) (txs : list TxData) (receipts : list Receipt) : MP (list Receipt + ProcessError) :=
  match txs with
  | [] => mret (inl receipts)
  | tx :: txs =>
      _ ← on_pstate (Prepare (tx_hash tx) (b_hash b) i);
      r ← ApplyTransaction config blockHashFunc (Some engine) None NoopWriter (b_header b) tx processing_config;
      match r with
      | inr err => mret (inr (CouldNotApply i err))
      | inl (receipt, _) =>
          apply_all config blockHashFunc engine b (i + 1) txs
            (match receipt with Some r => receipts ++ [r] | None => receipts end)
      end
  end.

Definition process_loop (config : ChainConfig) (engine : Engine Reward Assembled) (b : Block) (stateWriter : BlockWriter W)
    (blockHashFunc : Z -> Z) : MP ((list Receipt * list Log * Z) + ProcessError) :=
  let header := b_header b in
  _ ← zoom p_gp (fun gp p => mkProcessing (p_ibs p) gp (p_usedGas p) (p_writer p)) (gaspool.AddGas (header.GasLimit header));
  _ ← (if DAOForkSupport config && bool_decide (DAOForkBlock config = Some (header.Number header))
       then on_pstate (ApplyDAOHardFork R) else mret ());
  receipts ← apply_all config blockHashFunc engine b 0 (b_transactions b) [];
  match receipts with
  | inr err => mret (inr err)
  | inl receipts =>
      p ← get;
      if negb (p_usedGas p =? header.GasUsed header)
      then mret (inr (GasUsedMismatch (p_usedGas p) (header.GasUsed header)))
      else
        r ← FinalizeBlockExecution engine header (b_transactions b) stateWriter config receipts false
              (chain.IsBeijing config (u64 (header.Number header)));
        match r with
        | inr err => mret (inr err)
        | inl _ => p ← get; mret (inl (receipts, Logs iter (p_ibs p), p_usedGas p))
        end
  end.

(** [Process]: a new pool and a new gas counter. *)
Definition Process (config : ChainConfig) (engine : Engine Reward Assembled) (b : Block) (stateWriter : BlockWriter W)
    (blockHashFunc : Z -> Z) : M (StateTypes.IntraBlockState * W) ((list Receipt * list Log * Z) + ProcessError) := fun s =>
  match process_loop config engine b stateWriter blockHashFunc (mkProcessing s.1 0 0 s.2) with
  | Done (r, p) => Done (r, (p_ibs p, p_writer p))
  | GoPanic => GoPanic
  | NoFuel => NoFuel
  end.

End Processor.
