(* ===== verification/ProcessorTheorems.v ===== *)
(** * What processing a block guarantees

    The gas of a block is accounted for exactly, transaction by transaction, and
    processing ends. *)

From S2P Require Import Prelude Uint256 Params Stack Memory Analysis Common AccessList StateTypes State Finalise FinaliseTheorems Receipts Dao.
From S2P Require Import EvmTypes Contract Instructions GasTable Opcodes JumpTable Rlp Contracts Interpreter Evm.
From S2P Require Import EvmLogic EvmState OpSpecs GasSpecs TableSpecs GasSafety EvmTheorems.
From S2P Require Import Config Header Wire Transaction StateTransition StateTransitionTheorems Processor.

(** ** Gas over a list of receipts *)

Definition gas_sum (rs : list Receipt) : Z := foldr (fun r z => r_GasUsed r + z) 0 rs.

Lemma gas_sum_app rs qs : gas_sum (rs ++ qs) = gas_sum rs + gas_sum qs.
Proof. induction rs as [|r rs IH]; cbn; [done|]. unfold gas_sum in *. lia. Qed.

(** Each receipt says what the block had used when it was made. *)
Definition cumulative (rs : list Receipt) : Prop :=
  forall i r, rs !! i = Some r -> r_CumulativeGasUsed r = gas_sum (take (S i) rs).

Lemma cumulative_snoc rs r : cumulative rs -> r_CumulativeGasUsed r = gas_sum (rs ++ [r]) -> cumulative (rs ++ [r]).
Proof.
  intros H Hr i q Hq. destruct (decide (i < length rs)%nat) as [Hi|Hi].
  - rewrite lookup_app_l in Hq by done. rewrite take_app_le by lia. by apply H.
  - assert (i = length rs) as -> by (apply lookup_lt_Some in Hq; rewrite length_app in Hq; cbn in Hq; lia).
    rewrite lookup_app_r in Hq by lia. rewrite Nat.sub_diag in Hq. injection Hq as <-.
    rewrite take_ge by (rewrite length_app; cbn; lia). done.
Qed.

(** ** Every step returns *)

Lemma fueled_each {S A} (f : A -> M S (option error)) l : (forall x, fueled (f x)) -> fueled (each f l).
Proof. intros H. induction l as [|x l IH]; cbn; [done|]. unfold then_. apply fueled_bind; [done|]. intros [e|]; done. Qed.

Lemma fueled_then {S} (m k : M S (option error)) : fueled m -> fueled k -> fueled (then_ m k).
Proof. intros Hm Hk. unfold then_. apply fueled_bind; [done|]. by intros [e|]. Qed.

Section Returns.
Context {U : Uint256} {C : Crypto} {K : AccountCodec} (R : StateReader).
Context (iter : forall A : Type, list A -> list A) {W : Type} (w : StateWriter W) (Hw : forall op, fueled (w op)).

Lemma fueled_on_sdb {A} (m : M StateTypes.IntraBlockState A) : fueled m -> fueled (on_sdb (W := W) m).
Proof. apply fueled_zoom. Qed.

Lemma fueled_write op : fueled (write w op).
Proof. by apply fueled_zoom. Qed.

Ltac fin_go := repeat first
  [ done | apply fueled_must | apply fueled_bind; [|intros ?] | apply fueled_then | apply fueled_on_sdb | apply fueled_write
  | apply fueled_each; intros ? | apply fueled_for_each; intros ? | apply fueled_obj | apply fueled_upd | apply fueled_getStateObject
  | case_match ].

Lemma fueled_FinalizeTx e b : fueled (FinalizeTx R iter w e b).
Proof. unfold FinalizeTx, updateAccount, updateTrie. fin_go. Qed.

Lemma fueled_SoftFinalise : fueled (SoftFinalise iter).
Proof. unfold SoftFinalise. fin_go. Qed.

Lemma fueled_CommitBlock e b : fueled (CommitBlock R iter w e b).
Proof. unfold CommitBlock, MakeWriteSet, updateAccount, updateTrie. fin_go. Qed.

Lemma fueled_ApplyDAOHardFork : fueled (ApplyDAOHardFork R).
Proof.
  unfold ApplyDAOHardFork. pose proof (state_ibs_fueled R) as IF.
  apply fueled_bind; [exact (fueled_Exist (I := state_ibs R) _)|]. intros ex.
  apply fueled_bind; [destruct ex; [done|exact (fueled_CreateAccount (I := state_ibs R) _ _)]|]. intros _.
  apply fueled_for_each. intros a. apply fueled_bind; [exact (EvmLogic.fueled_GetBalance (I := state_ibs R) a)|].
  intros v. apply fueled_bind; [exact (EvmLogic.fueled_AddBalance (I := state_ibs R) _ _)|]. intros _.
  unfold SetBalance, so_SetBalance. apply fueled_bind; [apply fueled_GetOrNew|]. intros _. fin_go.
Qed.
End Returns.

(** ** One transaction *)

Section Process.
Context {U : Uint256} {UL : Uint256Laws U} {C : Crypto} {NC : Native} {K : AccountCodec} (R : StateReader).
Context (iter : forall A : Type, list A -> list A) (Cancelled : nat -> bool) (tx_hash : TxData -> Z).
Context {Reward Assembled W : Type} (engine : Engine Reward Assembled).
Context (config : ChainConfig) (Hparlia : Parlia config = false).
Notation MP := (M (Processing W)).
Notation ibs := (state_ibs R).

#[local] Instance ibs_returns : ibs_fueled (ibs_instance R) := state_ibs_fueled R.
#[local] Instance ibs_refunds : refund_ok (ibs_instance R) := state_refund_ok R.

(** A machine whose transfer functions are those of the state. *)
Definition state_env (env : Env StateTypes.IntraBlockState) : Prop :=
  CanTransfer (context env) = State.CanTransfer R /\
  (Transfer (context env) = State.Transfer R \/ Transfer (context env) = State.BorTransfer R).

Lemma state_transfers env : state_env env -> transfers_fueled env.
Proof.
  intros [E1 E2]. split; [rewrite E1; apply state_CanTransfer_fueled|].
  destruct E2 as [-> | ->]; apply state_Transfer_fueled.
Qed.

(** What a message does to the loop's state. *)
Lemma apply_message_ok env jt eips msg p :
  state_env env -> eip150_before_2929 (chainRules env) (ExtraEips (EvmTypes.config env)) = true ->
  NewEVMInterpreter (I := ibs_instance R) env = Done (jt, eips) ->
  0 <= gasLimit msg < two64 -> 0 <= p_gp p < two64 ->
  match apply_message (W := W) R config env jt msg p with
  | Done (inl res, p') => 0 <= UsedGas res <= gasLimit msg /\ p_gp p' = p_gp p - UsedGas res /\
      gasLimit msg <= p_gp p /\ p_usedGas p' = p_usedGas p
  | Done (inr _, _) | GoPanic => True
  | NoFuel => False
  end.
Proof.
  intros Henv Hr Hnew Hl Hp. pose proof (state_transfers _ Henv) as TF.
  pose proof (message_ok env jt eips Hr Hnew config msg Hl (Z.to_nat (gasLimit msg + 1)) (Z.to_nat 1025) ltac:(lia)
    (NewEVM (p_ibs p)) ltac:(reflexivity) (p_gp p) Hp true false
    (NewStateTransition (NewEVM (p_ibs p)) (p_gp p)) eq_refl eq_refl eq_refl eq_refl) as H.
  unfold apply_message, ApplyMessage. cbn [fst snd].
  destruct (TransitionDb _ _ _ _ _ _ _) as [[r st]| |]; [|done..].
  destruct H as [_ H]. specialize (H eq_refl). rewrite Hparlia in H. specialize (H eq_refl).
  destruct r as [res|err]; [|done]. destruct H as (H1 & H2 & H3 & _). done.
Qed.

(** [m] comes to an end, and [Q] holds if it does not panic. *)
Definition psat {A} (p : Processing W) (m : MP A) (Q : A -> Processing W -> Prop) : Prop :=
  match m p with Done (a, p') => Q a p' | GoPanic => True | NoFuel => False end.

Lemma psat_bind {A B} p (m : MP A) (k : A -> MP B) Q :
  psat p m (fun a p' => psat p' (k a) Q) -> psat p (m ≫= k) Q.
Proof. unfold psat, mbind, M_bind. by destruct (m p) as [[a p']| |]. Qed.

Lemma psat_ret {A} p (a : A) (Q : A -> Processing W -> Prop) : Q a p -> psat p (mret a) Q.
Proof. done. Qed.

Lemma psat_get p (Q : Processing W -> Processing W -> Prop) : Q p p -> psat p get Q.
Proof. done. Qed.

Lemma psat_modify p f (Q : () -> Processing W -> Prop) : Q () (f p) -> psat p (modify f) Q.
Proof. done. Qed.

Lemma psat_weaken {A} p (m : MP A) (Q Q' : A -> Processing W -> Prop) :
  psat p m Q -> (forall a p', Q a p' -> Q' a p') -> psat p m Q'.
Proof. unfold psat. intros H HQ. destruct (m p) as [[a p']| |]; [by apply HQ|done..]. Qed.

Lemma psat_lift {A} p (o : outcome A) (Q : A -> Processing W -> Prop) :
  o <> NoFuel -> (forall a, o = Done a -> Q a p) -> psat p (outcome_to_M o) Q.
Proof. unfold psat, outcome_to_M. destruct o; auto. Qed.

(** The two counters. *)
Definition same_gas (p p' : Processing W) : Prop := p_gp p' = p_gp p /\ p_usedGas p' = p_usedGas p.

Lemma psat_zoom {T A} (proj : Processing W -> T) put (m : M T A) p (Q : A -> Processing W -> Prop) :
  fueled m -> (forall t, same_gas p (put t p)) -> (forall a p', same_gas p p' -> Q a p') -> psat p (zoom proj put m) Q.
Proof.
  intros Hf Hput HQ. unfold psat, zoom. specialize (Hf (proj p)).
  destruct (m (proj p)) as [[a t]| |]; [by apply HQ|done..].
Qed.

Lemma psat_state {A} (m : M StateTypes.IntraBlockState A) p (Q : A -> Processing W -> Prop) :
  fueled m -> (forall a p', same_gas p p' -> Q a p') -> psat p (on_pstate m) Q.
Proof. intros. by apply psat_zoom. Qed.

Lemma psat_writer {A} (m : M W A) p (Q : A -> Processing W -> Prop) :
  fueled m -> (forall a p', same_gas p p' -> Q a p') -> psat p (on_pwriter m) Q.
Proof. intros. by apply psat_zoom. Qed.

Lemma psat_finalise {A} (m : M (StateTypes.IntraBlockState * W) A) p (Q : A -> Processing W -> Prop) :
  fueled m -> (forall a p', same_gas p p' -> Q a p') -> psat p (on_finalise m) Q.
Proof. intros. by apply psat_zoom. Qed.

Lemma make_receipt_ok header tx msg result used s :
  make_receipt tx_hash header tx msg result used s <> NoFuel /\
  forall r, make_receipt tx_hash header tx msg result used s = Done r ->
    r_TxHash r = tx_hash tx /\ r_GasUsed r = UsedGas result /\ r_CumulativeGasUsed r = used.
Proof.
  unfold make_receipt.
  set (o := match to msg with None => _ | Some _ => _ end).
  assert (Ho : o <> NoFuel) by (subst o; destruct (to msg); [done|apply CreateAddress_fueled]).
  destruct o as [addr| |]; cbn [mbind outcome_bind]; [|done..].
  match goal with |- context [CreateBloom ?l] => destruct (CreateBloom_built l) as [b ->] end.
  cbn [mbind outcome_bind]. split; [done|]. by intros r [= <-].
Qed.

Lemma interpreter_made env :
  eip150_before_2929 (chainRules env) (ExtraEips (EvmTypes.config env)) = true -> ExtraEips (EvmTypes.config env) = [] ->
  exists jt, NewEVMInterpreter (I := ibs_instance R) env = Done (jt, []).
Proof.
  intros Hr He. unfold NewEVMInterpreter. destruct (select_good (I := ibs_instance R) env Hr) as (jt & -> & _).
  exists jt. cbn. by rewrite He.
Qed.

Lemma AsMessage_ok tx baseFee : AsMessage tx baseFee <> NoFuel /\
  forall msg, AsMessage tx baseFee = Done msg -> gasLimit msg = tx_Gas tx.
Proof.
  unfold AsMessage.
  destruct (tx_GasPrice tx), (tx_GasFeeCap tx), (tx_GasTipCap tx), (tx_Value tx), (tx_From tx); cbn; try done.
  split; [done|]. by intros msg [= <-].
Qed.

Context (b : Block) (blockHashFunc : Z -> Z).
Notation header := (b_header b).
Context (Hrules : eip150_before_2929 (RulesOf config (u64 (header.Number header))) [] = true).

(** What a transaction of the block does to the gas counters, and its receipt. *)
Definition receipted (tx : TxData) (r : Receipt) : Prop :=
  r_TxHash r = tx_hash tx /\ 0 <= r_GasUsed r <= tx_Gas tx.

Definition tx_done (tx : TxData) (p : Processing W) (r : (option Receipt * bytes) + TxError) (p' : Processing W) : Prop :=
  match r with
  | inl (ro, _) => exists r, ro = Some r /\ receipted tx r /\ 0 <= p_gp p' /\ 0 <= p_usedGas p' /\
      p_gp p' + p_usedGas p' = p_gp p + p_usedGas p /\ p_usedGas p' = p_usedGas p + r_GasUsed r /\
      r_CumulativeGasUsed r = p_usedGas p'
  | inr _ => True
  end.

Lemma applyTransaction_ok env0 tx p :
  state_env env0 -> chainRules env0 = RulesOf config (u64 (header.Number header)) ->
  0 <= tx_Gas tx < two64 -> 0 <= p_gp p -> 0 <= p_usedGas p -> p_gp p + p_usedGas p < two64 ->
  psat p (applyTransaction R iter Cancelled tx_hash config (Some engine) NoopWriter header tx env0 processing_config)
    (tx_done tx p).
Proof.
  intros [Hcan Htr] Hch Htx Hg Hu Hgu. unfold applyTransaction. cbn zeta.
  destruct (AsMessage_ok tx (header.BaseFee header)) as [HA HA']. apply psat_bind, psat_lift; [done|].
  intros msg0 Emsg. apply HA' in Emsg. clear HA HA'.
  set (msg := if _ && _ then _ else _).
  assert (Hmsg : gasLimit msg = tx_Gas tx) by (subst msg; by destruct (_ && _)). clearbody msg.
  set (env := mkEnv _ _ _ _ _ _).
  assert (Hr : eip150_before_2929 (chainRules env) (ExtraEips (EvmTypes.config env)) = true) by (subst env; cbn; by rewrite Hch).
  destruct (interpreter_made env Hr eq_refl) as [jt Ejt].
  apply psat_bind, psat_lift; [by rewrite Ejt|]. intros [jt' eips] E. rewrite Ejt in E. injection E as <- <-.
  apply psat_bind. pose proof (apply_message_ok env jt [] msg p (conj Hcan Htr) Hr Ejt ltac:(lia) ltac:(lia)) as Hm.
  unfold psat at 1. destruct (apply_message _ _ _ _ _ _) as [[[res|err] p1]| |]; [|done..].
  destruct Hm as (Hused & Hgp & Hle & Hug). apply psat_bind, psat_finalise; [by apply fueled_FinalizeTx|].
  intros [err|] p2 [Eg Eu]; [done|]. apply psat_bind, psat_modify, psat_bind, psat_get. cbn [NoReceipts processing_config negb].
  apply psat_bind, psat_bind. destruct (make_receipt_ok header tx msg res
    (p_usedGas (mkProcessing (p_ibs p2) (p_gp p2) (u64 (p_usedGas p2 + UsedGas res)) (p_writer p2))) (p_ibs p2)) as [Hf Hrc].
  apply psat_lift; [done|]. intros r Er. apply Hrc in Er as (Hh & Hgu' & Hc). apply psat_ret, psat_ret.
  exists r. cbn in *. rewrite u64_small in * by lia. unfold receipted. rewrite Hh, Hgu', Hc. split_and!; try done; lia.
Qed.

Lemma ApplyTransaction_ok tx p :
  0 <= tx_Gas tx < two64 -> 0 <= p_gp p -> 0 <= p_usedGas p -> p_gp p + p_usedGas p < two64 ->
  psat p (ApplyTransaction R iter Cancelled tx_hash config blockHashFunc (Some engine) None NoopWriter header tx processing_config)
    (tx_done tx p).
Proof.
  intros Htx Hg Hu Hgu. unfold psat, ApplyTransaction, NewEVMBlockContext. cbn.
  destruct (header.Difficulty header) as [df|]; [|done]. cbn.
  apply applyTransaction_ok; try done. split; [done|]. cbn. destruct (IsBor engine); auto.
Qed.

(** ** The transactions of a block *)

(** The counters agree with the receipts made so far. *)
Definition accounted (receipts : list Receipt) (p : Processing W) : Prop :=
  0 <= p_gp p /\ p_usedGas p = gas_sum receipts /\ 0 <= p_usedGas p /\
  p_gp p + p_usedGas p = header.GasLimit header /\ cumulative receipts.

Lemma accounted_same receipts p p' : accounted receipts p -> same_gas p p' -> accounted receipts p'.
Proof. unfold accounted. by intros H [-> ->]. Qed.

Context (Hlimit : 0 <= header.GasLimit header < two64).

Lemma accounted_snoc receipts p tx r bs p' :
  accounted receipts p -> tx_done tx p (inl (Some r, bs)) p' -> accounted (receipts ++ [r]) p' /\ receipted tx r.
Proof.
  intros (H1 & H2 & H3 & H4 & H5) (? & [= <-] & Hr & G1 & G2 & G3 & G4 & G5). split; [|done].
  assert (Hs : p_usedGas p' = gas_sum (receipts ++ [r])) by (rewrite gas_sum_app; cbn; lia).
  split_and!; try done; [lia|]. apply cumulative_snoc; [done|]. by rewrite G5.
Qed.

Lemma apply_all_ok txs : Forall (fun tx => 0 <= tx_Gas tx < two64) txs -> forall i receipts p,
  accounted receipts p ->
  psat p (apply_all R iter Cancelled tx_hash config blockHashFunc engine b i txs receipts) (fun r p' =>
    match r with
    | inl rs => exists qs, rs = receipts ++ qs /\ Forall2 receipted txs qs /\ accounted rs p'
    | inr _ => True
    end).
Proof.
  induction 1 as [|tx txs Htx _ IH]; intros i receipts p Hp; cbn [apply_all].
  { exists []. rewrite app_nil_r. done. }
  apply psat_bind, psat_state; [done|]. intros _ p1 Hs. pose proof (accounted_same _ _ _ Hp Hs) as Hp1. clear Hp Hs p.
  apply psat_bind. eapply psat_weaken; [apply ApplyTransaction_ok; [done|unfold accounted in Hp1; lia..]|].
  intros [[ro bs]|err] p2 Hd; [|done]. pose proof Hd as (r & -> & _).
  destruct (accounted_snoc _ _ _ _ _ _ Hp1 Hd) as [Hp2 Hr].
  eapply psat_weaken; [by apply IH|]. intros [rs|] p3 H; [|done].
  destruct H as (qs & -> & Hqs & Hp3). exists (r :: qs). rewrite <- app_assoc. split; [done|]. split; [by constructor|].
  by rewrite <- app_assoc in Hp3.
Qed.

(** ** The end of the block *)

(** The engine's functions and the writer's come to an end. *)
Record engine_returns : Prop := {
  Finalize_returns h txs : fueled (Finalize engine h txs);
  FinalizeAndAssemble_returns h txs rs ws : fueled (FinalizeAndAssemble engine h txs rs ws);
  Rewards_returns h : fueled (Rewards engine h)
}.

Record writer_returns (w : BlockWriter W) : Prop := {
  write_returns op : fueled (bw_write w op);
  WriteChangeSets_returns : fueled (WriteChangeSets w);
  WriteHistory_returns : fueled (WriteHistory w)
}.

Context (Hengine : engine_returns) (w : BlockWriter W) (Hwriter : writer_returns w).

Lemma FinalizeBlockExecution_ok txs receipts isMining isBeijing p :
  psat p (FinalizeBlockExecution R iter engine header txs w config receipts isMining isBeijing)
    (fun _ p' => same_gas p p').
Proof.
  destruct Hengine as [E1 E2 E3], Hwriter as [W1 W2 W3]. unfold FinalizeBlockExecution.
  apply psat_bind. apply psat_weaken with (Q := fun _ p' => same_gas p p').
  { destruct isBeijing; [|done]. apply psat_bind, psat_state; [done|]. intros [rw|e] p1 H1; [|done].
    apply psat_bind, psat_state; [apply fueled_SoftFinalise|]. intros _ p2 H2. destruct H1, H2. split; congruence. }
  intros [rewards|e] p1 H1; [|done]. apply psat_bind. apply psat_weaken with (Q := fun _ p' => same_gas p p').
  { destruct isMining; apply psat_bind, psat_state; try done.
    - intros [blk|e] p2 H2; destruct H1, H2; split; congruence.
    - intros _ p2 H2; destruct H1, H2; split; congruence. }
  clear p1 H1. intros [blk|e] p1 H1; [|done]. apply psat_bind, psat_finalise; [by apply fueled_CommitBlock|].
  intros [e|] p2 H2; [destruct H1, H2; split; congruence|]. apply psat_bind, psat_writer; [done|].
  intros [e|] p3 H3; [destruct H1, H2, H3; split; congruence|]. apply psat_bind, psat_writer; [done|].
  intros [e|] p4 H4; destruct H1, H2, H3, H4; split; cbn; congruence.
Qed.

(** What the receipts and the gas of a processed block are. *)
Definition processed (receipts : list Receipt) (used : Z) : Prop :=
  Forall2 receipted (b_transactions b) receipts /\ cumulative receipts /\
  used = gas_sum receipts /\ used = header.GasUsed header /\ used <= header.GasLimit header.

Lemma new_pool s w0 :
  psat (mkProcessing s 0 0 w0) (zoom p_gp (fun gp p => mkProcessing (p_ibs p) gp (p_usedGas p) (p_writer p))
    (gaspool.AddGas (header.GasLimit header))) (fun _ p' => accounted [] p').
Proof.
  unfold psat, zoom, gaspool.AddGas, get, mbind, M_bind. cbn [p_gp].
  destruct (u64 _ <? 0); [done|]. cbn. rewrite u64_small by lia. unfold accounted, cumulative. cbn. split_and!; [lia..|done].
Qed.

Lemma process_loop_ok s w0 : Forall (fun tx => 0 <= tx_Gas tx < two64) (b_transactions b) ->
  psat (mkProcessing s 0 0 w0) (process_loop R iter Cancelled tx_hash config engine b w blockHashFunc)
    (fun r _ => match r with inl (receipts, _, used) => processed receipts used | inr _ => True end).
Proof.
  intros Htxs. unfold process_loop. cbn zeta. apply psat_bind.
  apply psat_weaken with (Q := fun _ p' => accounted [] p'); [by apply new_pool|]. intros _ p Hp. apply psat_bind. apply psat_weaken with (Q := fun _ p' => accounted [] p').
  { destruct (_ && _); [|done]. apply psat_state; [apply fueled_ApplyDAOHardFork|]. intros _ p'. by apply accounted_same. }
  clear p Hp. intros _ p Hp. apply psat_bind. eapply psat_weaken; [by apply apply_all_ok|].
  intros [rs|e] p1 H; [|done]. destruct H as (qs & -> & Hqs & Hp1). apply psat_bind, psat_get.
  destruct (p_usedGas p1 =? header.GasUsed header) eqn:Eu; cbn [negb]; [|done]. apply Z.eqb_eq in Eu.
  apply psat_bind. eapply psat_weaken; [apply FinalizeBlockExecution_ok|]. intros [blk|e] p2 Hs; [|done].
  apply psat_bind, psat_get, psat_ret. destruct (accounted_same _ _ _ Hp1 Hs) as (A1 & A2 & A3 & A4 & A5).
  destruct Hs as [_ Hs]. unfold processed. cbn in *. split_and!; try done; [congruence|lia].
Qed.

(** C10: when [Process] accepts a block, it made one receipt per transaction, in the order
    of the transactions: the receipt has the hash of its transaction, the gas it used is
    at most the transaction's gas limit, and its cumulative gas is the sum of the gas
    used by the receipts up to and including it. The gas that [Process] returns is the
    sum over all receipts, equals the header's [GasUsed] and is at most the header's
    [GasLimit]. *)
Theorem Process_gas s receipts logs used s' :
  Forall (fun tx => 0 <= tx_Gas tx < two64) (b_transactions b) ->
  Process R iter Cancelled tx_hash config engine b w blockHashFunc s = Done (inl (receipts, logs, used), s') ->
  processed receipts used.
Proof.
  intros Htxs. unfold Process. pose proof (process_loop_ok s.1 s.2 Htxs) as H. unfold psat in H.
  destruct (process_loop _ _ _ _ _ _ _ _ _ _) as [[r p]| |]; [|done..]. by intros [= -> _].
Qed.

(** C27: [Process] comes to an end on every block: with the gas limit of each transaction
    as the bound on the steps of its execution, no transaction is cut short, whatever
    the code it runs and whatever it calls, when the engine and the writer return. *)
Theorem Process_terminates s :
  Forall (fun tx => 0 <= tx_Gas tx < two64) (b_transactions b) ->
  Process R iter Cancelled tx_hash config engine b w blockHashFunc s <> NoFuel.
Proof.
  intros Htxs. unfold Process. pose proof (process_loop_ok s.1 s.2 Htxs) as H. unfold psat in H.
  by destruct (process_loop _ _ _ _ _ _ _ _ _ _) as [[r p]| |].
Qed.
End Process.

(** * A block of two transactions

    A transfer and a call of the program of [EvmExamples.v], processed on a state with
    a funded sender; the theorems of [ProcessorTheorems.v] hold of the run. *)

From S2P Require Import StateTheorems EvmExamples Settlement.

Definition example_engine : Engine () () :=
  mkEngine () () (fun _ => 5) false (fun _ _ => mret ()) (fun _ _ _ _ => mret (inl ())) (fun _ => mret (inl [])).

Definition recording : BlockWriter (list WriteOp) := mkBlockWriter _ recorder (mret None) (mret None).

Definition transfer_tx : TxData := Legacy (mkLegacyTx 0 (Some 10) 30000 (Some 70) (Some 1) (Some 1000) [] None None None None).
Definition call_tx : TxData := Legacy (mkLegacyTx 1 (Some 10) 60000 (Some 100) (Some 1) (Some 0) [] None None None None).

Definition example_header (used : Z) : header.Header :=
  header.mkHeader 0 5 0 0 0 [] (Some 2) 5 100000 used 12 0 0 [] (Some 7) [].

Definition example_blk (used : Z) : Block := mkBlock (example_header used) 99 [transfer_tx; call_tx].

#[local] Notation in_order := (fun (A : Type) (l : list A) => l).
#[local] Notation running used :=
  (Process empty_reader in_order (fun _ => false) tx_Nonce AmazeChainConfig example_engine (example_blk used) recording
    (fun _ => 0) (intraBlockState funded_vm, [])).

Definition gas_column (rs : list Receipt) : list (Z * Z * Z * Z) :=
  (fun r => (r_TxHash r, r_Status r, r_GasUsed r, r_CumulativeGasUsed r)) <$> rs.

(** A block whose header has the gas that was used is accepted. *)
Lemma example_processed :
  match running 64130 with
  | Done (inl (rs, _, used), (_, ops)) =>
      (gas_column rs, used, bool_decide (ops = []))
      = ([(0, 1, 21000, 21000); (1, 1, 43130, 64130)], 64130, false)
  | _ => False
  end.
Proof. vm_compute. reflexivity. Qed.

(** Any other header is refused. *)
Lemma example_refused :
  match running 64129 with Done (inr e, _) => e = GasUsedMismatch 64130 64129 | _ => False end.
Proof. vm_compute. reflexivity. Qed.

Lemma example_engine_returns : engine_returns example_engine.
Proof. by split. Qed.

Lemma recording_returns : writer_returns recording.
Proof. by split. Qed.

Lemma Process_gas_witness : exists receipts logs used s', running 64130 = Done (inl (receipts, logs, used), s') /\
  processed tx_Nonce (example_blk 64130) receipts used.
Proof.
  assert (match running 64130 with Done (inl _, _) => true | _ => false end = true) as H by (vm_compute; reflexivity).
  destruct (running 64130) as [[[[[receipts logs] used]|e] s']| |] eqn:E; [|discriminate H..].
  exists receipts, logs, used, s'. split; [reflexivity|].
  exact (Process_gas empty_reader in_order (fun _ => false) tx_Nonce example_engine AmazeChainConfig eq_refl
    (example_blk 64130) (fun _ => 0) ltac:(vm_compute; reflexivity) ltac:(vm_compute; split; congruence)
    example_engine_returns recording recording_returns
    (intraBlockState funded_vm, []) receipts logs used s' ltac:(repeat constructor; vm_compute; congruence) E).
Defined.

Lemma Process_terminates_witness : running 64130 <> NoFuel.
Proof.
  exact (Process_terminates empty_reader in_order (fun _ => false) tx_Nonce example_engine AmazeChainConfig eq_refl
    (example_blk 64130) (fun _ => 0) ltac:(vm_compute; reflexivity) ltac:(vm_compute; split; congruence)
    example_engine_returns recording recording_returns
    (intraBlockState funded_vm, []) ltac:(repeat constructor; vm_compute; congruence)).
Defined.
