(* ===== verification/AddressText.v ===== *)
(** * Addresses as text ([common/types/address.go], [common/types/bytes.go])

    The checksummed hexadecimal form of an address and its parser; a string is the list
    of its bytes. *)

From S2P Require Import Prelude Uint256 Params Common.

(** ** [encoding/hex] *)

Definition hex_digit (n : Z) : Z := if n <? 10 then 48 + n else 87 + n.

Definition hex_Encode (src : bytes) : bytes :=
  concat ((fun b => [hex_digit (Z.shiftr b 4); hex_digit (Z.land b 15)]) <$> src).

Definition fromHexChar (c : Z) : option Z :=
  if (48 <=? c) && (c <=? 57) then Some (c - 48) else
  if (97 <=? c) && (c <=? 102) then Some (c - 97 + 10) else
  if (65 <=? c) && (c <=? 70) then Some (c - 65 + 10) else None.

(** What [DecodeString] decodes before an error, which the caller drops. *)
Fixpoint hex_DecodeString (s : bytes) : bytes :=
  match s with
  | a :: b :: s =>
      match fromHexChar a, fromHexChar b with
      | Some x, Some y => Z.lor (Z.shiftl x 4) y :: hex_DecodeString s
      | _, _ => []
      end
  | _ => []
  end.

(** ** [common/types] *)

Section Text.
Context {C : Crypto}.

Definition has0xPrefix (str : bytes) : bool :=
  match str with c :: d :: _ => (c =? 48) && ((d =? 120) || (d =? 88)) | _ => false end.

Definition FromHex1 (s : bytes) : bytes :=
  let s := if has0xPrefix s then drop 2 s else s in
  let s := if zlen s mod 2 =? 1 then 48 :: s else s in
  hex_DecodeString s.

(** [Address.SetBytes]: cropped from the left, or padded with zeros. *)
Definition BytesToAddress (b : bytes) : Z :=
  be_to_Z (if 20 <? zlen b then drop (Z.to_nat (zlen b - 20)) b else b).

Definition HexToAddress (s : bytes) : Z := BytesToAddress (FromHex1 s).

Definition Address_hex (a : Z) : bytes := [48; 120] ++ hex_Encode (Z_to_be 20 a).

(** The digits from index [i] on; the hash has a nibble for each of the 40 digits. *)
Fixpoint checksum (hash : bytes) (i : Z) (buf : bytes) : bytes :=
  match buf with
  | [] => []
  | c :: buf =>
      let hashByte := default 0 (znth hash (i / 2)) in
      let hashByte := if i mod 2 =? 0 then Z.shiftr hashByte 4 else Z.land hashByte 15 in
      (if (57 <? c) && (7 <? hashByte) then c - 32 else c) :: checksum hash (i + 1) buf
  end.

Definition checksumHex (a : Z) : bytes :=
  let buf := Address_hex a in
  take 2 buf ++ checksum (Z_to_be 32 (Keccak256 (drop 2 buf))) 0 (drop 2 buf).

Definition Address_Hex (a : Z) : bytes := checksumHex a.

(** ** Round trip *)

(** A digit, in either case, is read back. *)
Lemma fromHexChar_digit n (up : bool) : 0 <= n < 16 ->
  fromHexChar (if (57 <? hex_digit n) && up then hex_digit n - 32 else hex_digit n) = Some n.
Proof.
  intros H. assert (Hall : forallb (fun n => bool_decide (fromHexChar
    (if (57 <? hex_digit n) && up then hex_digit n - 32 else hex_digit n) = Some n)) (seqZ 0 16) = true) by (by destruct up; vm_compute).
  rewrite forallb_forall in Hall. eapply bool_decide_eq_true, Hall, list_elem_of_In, elem_of_seqZ. lia.
Qed.

Lemma nibbles b : 0 <= b < 256 -> 0 <= Z.shiftr b 4 < 16 /\ 0 <= Z.land b 15 < 16 /\
  Z.lor (Z.shiftl (Z.shiftr b 4) 4) (Z.land b 15) = b.
Proof.
  intros H. assert (Hall : forallb (fun b => (0 <=? Z.shiftr b 4) && (Z.shiftr b 4 <? 16) && (0 <=? Z.land b 15) &&
    (Z.land b 15 <? 16) && (Z.lor (Z.shiftl (Z.shiftr b 4) 4) (Z.land b 15) =? b)) (seqZ 0 256) = true) by (by vm_compute).
  rewrite forallb_forall in Hall. specialize (Hall b). rewrite !andb_true_iff, !Z.leb_le, !Z.ltb_lt, Z.eqb_eq in Hall.
  assert (In b (seqZ 0 256)) as Hin by (apply list_elem_of_In, elem_of_seqZ; lia). specialize (Hall Hin). tauto.
Qed.

Lemma decode_checksum hash bs : wf_bytes bs -> forall i, hex_DecodeString (checksum hash i (hex_Encode bs)) = bs.
Proof.
  induction 1 as [|b bs Hb _ IH]; intros i; [done|]. destruct (nibbles b Hb) as (H1 & H2 & H3).
  change (hex_Encode (b :: bs)) with (hex_digit (Z.shiftr b 4) :: hex_digit (Z.land b 15) :: hex_Encode bs).
  cbn [checksum hex_DecodeString]. rewrite !fromHexChar_digit by done. by rewrite H3, IH.
Qed.

Lemma length_hex_Encode bs : length (hex_Encode bs) = (2 * length bs)%nat.
Proof. induction bs as [|b bs IH]; [done|]. unfold hex_Encode in *. cbn in *. rewrite IH. lia. Qed.

Lemma length_checksum hash l : forall i, length (checksum hash i l) = length l.
Proof. induction l as [|c l IH]; intros i; cbn; [done|]. by rewrite IH. Qed.

Lemma HexToAddress_Hex a : 0 <= a < two160 -> HexToAddress (Address_Hex a) = a.
Proof.
  intros H. unfold HexToAddress. set (l := checksum (Z_to_be 32 (Keccak256 (hex_Encode (Z_to_be 20 a)))) 0 (hex_Encode (Z_to_be 20 a))).
  change (Address_Hex a) with (48 :: 120 :: l).
  assert (Hlen : length l = 40%nat) by (subst l; rewrite length_checksum, length_hex_Encode, Z_to_be_length; done).
  assert (Hd : hex_DecodeString l = Z_to_be 20 a) by (apply decode_checksum, Z_to_be_wf).
  assert (FromHex1 (48 :: 120 :: l) = Z_to_be 20 a) as ->.
  { unfold FromHex1. change (has0xPrefix (48 :: 120 :: l)) with true. cbv iota. change (drop 2 (48 :: 120 :: l)) with l.
    assert (zlen l mod 2 = 0) as -> by (unfold zlen; by rewrite Hlen). done. }
  unfold BytesToAddress, zlen. rewrite Z_to_be_length. change (20 <? Z.of_nat 20) with false. cbv iota.
  rewrite be_to_Z_to_be, Z.mod_small; [done|exact H].
Qed.

Lemma Address_Hex_inj a b : 0 <= a < two160 -> 0 <= b < two160 -> Address_Hex a = Address_Hex b -> a = b.
Proof. intros Ha Hb E. by rewrite <- (HexToAddress_Hex a Ha), <- (HexToAddress_Hex b Hb), E. Qed.
End Text.
