(* ===== verification/Apos.v ===== *)
(** * The signers of the chain ([internal/consensus/apos/snapshot.go])

    Blocks are signed in turn by authorised signers, who vote each other in and out
    through the coinbase and the nonce of the headers they sign.  [Snapshot] is the
    state of the vote at a block, [apply] replays headers on it.  The package
    [apoa] has the same file.

    The recovery of the signer of a header calls the curve library and is the
    parameter [ecrecover], the hash of a header the parameter [Hash]. *)

From stdpp Require Import sorting.
From S2P Require Import Prelude Uint256 Params Common Config Header.

Module apos.

(** The errors of [apos.go], and those of the packages it calls. *)
Inductive Error : Type :=
| errUnknownBlock | errInvalidCheckpointBeneficiary | errInvalidVote | errInvalidCheckpointVote | errMissingVanity
| errMissingSignature | errExtraSigners | errInvalidCheckpointSigners | errMismatchingCheckpointSigners
| errInvalidMixDigest | errInvalidUncleHash | errInvalidDifficulty | errWrongDifficulty | errInvalidTimestamp
| errInvalidVotingChain | errUnauthorizedSigner | errRecentlySigned
| FutureBlock | GasLimitTooHigh (have : Z) | GasUsedTooHigh (have limit : Z) | BaseFeeBeforeFork (have : Z)
| HeaderInvalid (err : HeaderError) | StoreFailed | UnknownAncestor | Recovery.

(** [conf.APosConfig], the fields the engine reads. *)
Record APosConfig : Type := mkAPosConfig { Epoch : Z; RewardEpoch : Z; RewardLimit : Z }.

Record Vote : Type := mkVote { v_Signer : Z; v_Block : Z; v_Address : Z; v_Authorize : bool }.

Record Tally : Type := mkTally { t_Authorize : bool; t_Votes : Z }.

Record Snapshot : Type := mkSnapshot {
  s_config : APosConfig;
  s_Number : Z;
  s_Hash : Z;
  s_Signers : gset Z;
  s_Recents : gmap Z Z;
  s_Votes : list Vote;
  s_Tally : gmap Z Tally
}.

Definition set_Signers (x : gset Z) (s : Snapshot) : Snapshot :=
  mkSnapshot (s_config s) (s_Number s) (s_Hash s) x (s_Recents s) (s_Votes s) (s_Tally s).
Definition set_Recents (x : gmap Z Z) (s : Snapshot) : Snapshot :=
  mkSnapshot (s_config s) (s_Number s) (s_Hash s) (s_Signers s) x (s_Votes s) (s_Tally s).
Definition set_Votes (x : list Vote) (s : Snapshot) : Snapshot :=
  mkSnapshot (s_config s) (s_Number s) (s_Hash s) (s_Signers s) (s_Recents s) x (s_Tally s).
Definition set_Tally (x : gmap Z Tally) (s : Snapshot) : Snapshot :=
  mkSnapshot (s_config s) (s_Number s) (s_Hash s) (s_Signers s) (s_Recents s) (s_Votes s) x.

Definition nonceAuthVote : Z := 0xffffffffffffffff.
Definition nonceDropVote : Z := 0.
Definition diffInTurn : Z := 2.
Definition diffNoTurn : Z := 1.

Definition newSnapshot (config : APosConfig) (number hash : Z) (signers : list Z) : Snapshot :=
  mkSnapshot config number hash (list_to_set signers) ∅ [] ∅.

Definition isSigner (s : Snapshot) (a : Z) : bool := bool_decide (a ∈ s_Signers s).

Definition validVote (s : Snapshot) (address : Z) (authorize : bool) : bool :=
  let signer := isSigner s address in
  (signer && negb authorize) || (negb signer && authorize).

Definition cast (address : Z) (authorize : bool) (s : Snapshot) : Snapshot * bool :=
  if negb (validVote s address authorize) then (s, false) else
  match s_Tally s !! address with
  | Some old => (set_Tally (<[address := mkTally (t_Authorize old) (t_Votes old + 1)]> (s_Tally s)) s, true)
  | None => (set_Tally (<[address := mkTally authorize 1]> (s_Tally s)) s, true)
  end.

Definition uncast (address : Z) (authorize : bool) (s : Snapshot) : Snapshot * bool :=
  match s_Tally s !! address with
  | None => (s, false)
  | Some tally =>
      if negb (Bool.eqb (t_Authorize tally) authorize) then (s, false) else
      if 1 <? t_Votes tally
      then (set_Tally (<[address := mkTally (t_Authorize tally) (t_Votes tally - 1)]> (s_Tally s)) s, true)
      else (set_Tally (delete address (s_Tally s)) s, true)
  end.

(** [uint64(len(snap.Signers)/2 + 1)] *)
Definition limit (s : Snapshot) : Z := Z.of_nat (size (s_Signers s)) / 2 + 1.

(** Delete the oldest signer from the recent list. *)
Definition shift_recents (number : Z) (s : Snapshot) : Snapshot :=
  if limit s <=? number then set_Recents (delete (number - limit s) (s_Recents s)) s else s.

Definition recently_signed (s : Snapshot) (signer : Z) : bool :=
  existsb (fun '(_, recent) => recent =? signer) (map_to_list (s_Recents s)).

(** Discard the first earlier vote of the signer on the address. *)
Definition discard_previous (signer address : Z) (s : Snapshot) : Snapshot :=
  match list_find (fun v => v_Signer v = signer /\ v_Address v = address) (s_Votes s) with
  | Some (i, vote) => set_Votes (delete i (s_Votes s)) (uncast (v_Address vote) (v_Authorize vote) s).1
  | None => s
  end.

(** Discard the votes a signer cast; the recursion is over the votes not yet visited. *)
Fixpoint discard_cast_by (signer : Z) (votes : list Vote) (s : Snapshot) : Snapshot :=
  match votes with
  | [] => set_Votes [] s
  | v :: votes =>
      if v_Signer v =? signer
      then discard_cast_by signer votes (uncast (v_Address v) (v_Authorize v) s).1
      else let s := discard_cast_by signer votes s in set_Votes (v :: s_Votes s) s
  end.

(** The vote on an address passed. *)
Definition change_signers (number address : Z) (authorize : bool) (s : Snapshot) : Snapshot :=
  let s :=
    if authorize then set_Signers ({[address]} ∪ s_Signers s) s
    else
      let s := set_Signers (s_Signers s ∖ {[address]}) s in
      let s := shift_recents number s in
      discard_cast_by address (s_Votes s) s in
  let s := set_Votes (filter (fun v => v_Address v <> address) (s_Votes s)) s in
  set_Tally (delete address (s_Tally s)) s.

(** Tally up a new vote. *)
Definition tally_vote (vote : Vote) (s : Snapshot) : Snapshot :=
  let '(s, counted) := cast (v_Address vote) (v_Authorize vote) s in
  if counted then set_Votes (s_Votes s ++ [vote]) s else s.

(** If the vote on the address passed, update the list of signers. *)
Definition pass_vote (number address : Z) (s : Snapshot) : Snapshot :=
  let tally := default (mkTally false 0) (s_Tally s !! address) in
  if Z.of_nat (size (s_Signers s)) / 2 <? t_Votes tally
  then change_signers number address (t_Authorize tally) s else s.

(** Votes are removed on checkpoint blocks. *)
Definition checkpoint_reset (number : Z) (s : Snapshot) : Snapshot :=
  if number mod Epoch (s_config s) =? 0 then set_Tally ∅ (set_Votes [] s) else s.

Section Apply.
Context (ecrecover : header.Header -> Z + Error) (Hash : header.Header -> Z).

(** The body of the loop of [apply]. *)
Definition apply_header (snap : Snapshot) (header : header.Header) : outcome (Snapshot + Error) :=
  let number := u64 (header.Number header) in
  let coinbase := header.Coinbase header in
  if Epoch (s_config snap) =? 0 then GoPanic else
  let snap := shift_recents number (checkpoint_reset number snap) in
  match ecrecover header with
  | inr err => Done (inr err)
  | inl signer =>
      if negb (isSigner snap signer) then Done (inr errUnauthorizedSigner) else
      if recently_signed snap signer then Done (inr errRecentlySigned) else
      let snap := set_Recents (<[number := signer]> (s_Recents snap)) snap in
      let snap := discard_previous signer coinbase snap in
      if negb (header.Nonce header =? nonceAuthVote) && negb (header.Nonce header =? nonceDropVote)
      then Done (inr errInvalidVote) else
      let authorize := header.Nonce header =? nonceAuthVote in
      Done (inl (pass_vote number coinbase (tally_vote (mkVote signer number coinbase authorize) snap)))
  end.

Fixpoint apply_headers (snap : Snapshot) (headers : list header.Header) : outcome (Snapshot + Error) :=
  match headers with
  | [] => Done (inl snap)
  | header :: headers =>
      r ← apply_header snap header;
      match r with inl snap => apply_headers snap headers | inr err => Done (inr err) end
  end.

(** Each header has the number after the one before. *)
Fixpoint contiguous (number : Z) (headers : list header.Header) : bool :=
  match headers with
  | [] => true
  | h :: headers => (u64 (header.Number h) =? u64 (number + 1)) && contiguous (u64 (header.Number h)) headers
  end.

Definition apply (s : Snapshot) (headers : list header.Header) : outcome (Snapshot + Error) :=
  match list.last headers with
  | None => Done (inl s)
  | Some final =>
      if negb (contiguous (s_Number s) headers) then Done (inr errInvalidVotingChain) else
      r ← apply_headers s headers;
      match r with
      | inr err => Done (inr err)
      | inl snap =>
          Done (inl (mkSnapshot (s_config snap) (u64 (s_Number snap + zlen headers)) (Hash final) (s_Signers snap)
                       (s_Recents snap) (s_Votes snap) (s_Tally snap)))
      end
  end.
End Apply.

(** The signers in ascending order; the order of the bytes is that of the numbers. *)
Definition signers (s : Snapshot) : list Z := merge_sort Z.le (elements (s_Signers s)).

(** The index of a signer, or the length of the list. *)
Fixpoint offset_of (signers : list Z) (signer : Z) : Z :=
  match signers with
  | [] => 0
  | a :: signers => if a =? signer then 0 else 1 + offset_of signers signer
  end.

(** A remainder by zero panics. *)
Definition inturn (s : Snapshot) (number signer : Z) : outcome bool :=
  let sigs := signers s in
  if zlen sigs =? 0 then GoPanic else Done (number mod zlen sigs =? offset_of sigs signer).

Definition calcDifficulty (snap : Snapshot) (signer : Z) : outcome Z :=
  b ← inturn snap (u64 (s_Number snap + 1)) signer;
  Done (if (b : bool) then diffInTurn else diffNoTurn).

End apos.
