(* ===== verification/AposTheorems.v ===== *)
(** * What the vote on signers guarantees

    The tally of a reachable snapshot is a recount of its pending votes, signers
    change by majority only, and enough signers can always sign the next block. *)

From stdpp Require Import sorting.
From S2P Require Import Prelude Uint256 Params Common Config Header Apos.
Import apos.

(** ** Counting votes *)

Definition count (a : Z) (votes : list Vote) : Z := zlen (filter (fun v => v_Address v = a) votes).

Lemma count_nonneg a votes : 0 <= count a votes.
Proof. apply zlen_nonneg. Qed.

Lemma count_app a l1 l2 : count a (l1 ++ l2) = count a l1 + count a l2.
Proof. unfold count. by rewrite list.filter_app, zlen_app. Qed.

Lemma count_cons a v l : count a (v :: l) = (if v_Address v =? a then 1 else 0) + count a l.
Proof.
  unfold count. rewrite list.filter_cons. destruct (Z.eqb_spec (v_Address v) a); rewrite ?decide_True, ?decide_False by done; [|done].
  unfold zlen. cbn. lia.
Qed.

Lemma count_pos a v votes : v ∈ votes -> v_Address v = a -> 0 < count a votes.
Proof.
  intros (l1 & l2 & ->)%list_elem_of_split <-. rewrite count_app, count_cons, Z.eqb_refl.
  pose proof (count_nonneg (v_Address v) l1). pose proof (count_nonneg (v_Address v) l2). lia.
Qed.

Lemma count_zero a votes : (forall v, v ∈ votes -> v_Address v <> a) -> count a votes = 0.
Proof.
  intros H. induction votes as [|v votes IH]; [done|]. rewrite count_cons.
  destruct (Z.eqb_spec (v_Address v) a) as [E|E]; [by destruct (H v); [left|]|]. rewrite IH; [done|].
  intros w Hw. apply H. by right.
Qed.

Lemma count_filter a (P : Vote -> Prop) `{forall v, Decision (P v)} votes :
  (forall v, v ∈ votes -> v_Address v = a -> P v) -> count a (filter P votes) = count a votes.
Proof.
  intros HP. induction votes as [|v votes IH]; [done|]. rewrite list.filter_cons, count_cons.
  assert (IH' : count a (filter P votes) = count a votes) by (apply IH; intros w Hw; apply HP; by right).
  destruct (decide (P v)) as [Hv|Hv]; rewrite ?count_cons, IH'; [done|].
  destruct (Z.eqb_spec (v_Address v) a) as [E|E]; [|lia]. destruct Hv. apply HP; [left|done].
Qed.

(** What the tally of an address is when the votes on it are counted again. *)
Definition recount (signers : gset Z) (votes : list Vote) (a : Z) : option Tally :=
  if count a votes =? 0 then None else Some (mkTally (negb (bool_decide (a ∈ signers))) (count a votes)).

(** The pending votes: counted, meaningful, by signers, one per signer and address. *)
Record votes_ok (signers : gset Z) (votes : list Vote) (tally : gmap Z Tally) : Prop := {
  votes_tallied a : tally !! a = recount signers votes a;
  votes_meaningful v : v ∈ votes -> v_Authorize v = negb (bool_decide (v_Address v ∈ signers));
  votes_by_signers v : v ∈ votes -> v_Signer v ∈ signers;
  votes_once : NoDup ((fun v => (v_Signer v, v_Address v)) <$> votes)
}.

Lemma votes_ok_nil signers : votes_ok signers [] ∅.
Proof. split; [done|by intros v ?%elem_of_nil..|constructor]. Qed.

(** ** Removing and adding a vote *)

Lemma uncast_eq a b s : (uncast a b s).1 = set_Tally (s_Tally (uncast a b s).1) s.
Proof. unfold uncast. destruct s. cbn. repeat case_match; done. Qed.

Lemma uncast_tallied signers votes votes' v s :
  (forall a, s_Tally s !! a = recount signers votes a) ->
  (forall a, count a votes = (if v_Address v =? a then 1 else 0) + count a votes') ->
  v_Authorize v = negb (bool_decide (v_Address v ∈ signers)) ->
  forall a, s_Tally (uncast (v_Address v) (v_Authorize v) s).1 !! a = recount signers votes' a.
Proof.
  intros Ht Hc Hv a. pose proof (Hc (v_Address v)) as Hn. rewrite Z.eqb_refl in Hn.
  pose proof (count_nonneg (v_Address v) votes') as Hp. unfold uncast. rewrite Ht. unfold recount at 1.
  destruct (Z.eqb_spec (count (v_Address v) votes) 0); [lia|]. cbn [t_Authorize t_Votes].
  rewrite Hv, Bool.eqb_reflx. cbn [negb]. specialize (Hc a).
  destruct (Z.eqb_spec (v_Address v) a) as [E|Hne]; [subst a|].
  - destruct (Z.ltb_spec 1 (count (v_Address v) votes)); cbn; unfold recount.
    + rewrite lookup_insert_eq. destruct (Z.eqb_spec (count (v_Address v) votes') 0); [lia|]. by rewrite Hn, Z.add_simpl_l.
    + rewrite lookup_delete_eq. destruct (Z.eqb_spec (count (v_Address v) votes') 0); [done|lia].
  - assert (recount signers votes' a = s_Tally s !! a) as -> by (rewrite Ht; unfold recount; by rewrite Hc).
    destruct (1 <? _); cbn; [by rewrite lookup_insert_ne|by rewrite lookup_delete_ne].
Qed.

Lemma elem_of_middle {A} (x y : A) l1 l2 : x ∈ l1 ++ l2 -> x ∈ l1 ++ y :: l2.
Proof. rewrite !elem_of_app. intros [H|H]; [by left|right; by right]. Qed.

Lemma votes_ok_removed signers l1 v l2 s :
  votes_ok signers (l1 ++ v :: l2) (s_Tally s) ->
  votes_ok signers (l1 ++ l2) (s_Tally (uncast (v_Address v) (v_Authorize v) s).1).
Proof.
  intros [Ht Hm Hs Ho]. split.
  - apply (uncast_tallied signers (l1 ++ v :: l2)); [done| |apply Hm, elem_of_app; right; left].
    intros a. rewrite !count_app, count_cons. lia.
  - intros w Hw. by apply Hm, elem_of_middle.
  - intros w Hw. by apply Hs, elem_of_middle.
  - rewrite !fmap_app, fmap_cons in *. apply list.NoDup_app in Ho as (H1 & H2 & H3).
    apply list.NoDup_cons in H3 as [_ H3]. apply list.NoDup_app. split_and!; [done| |done].
    intros p Hp Hp'. apply (H2 p Hp). by right.
Qed.

Lemma cast_eq a b s : (cast a b s).1 = set_Tally (s_Tally (cast a b s).1) s.
Proof. unfold cast. destruct s. cbn. repeat case_match; done. Qed.

Lemma validVote_spec s a b : validVote s a b = true <-> b = negb (bool_decide (a ∈ s_Signers s)).
Proof. unfold validVote, isSigner. destruct (bool_decide _), b; cbn; split; congruence. Qed.

Lemma votes_ok_added s v : votes_ok (s_Signers s) (s_Votes s) (s_Tally s) -> v_Signer v ∈ s_Signers s ->
  (v_Signer v, v_Address v) ∉ (fun v => (v_Signer v, v_Address v)) <$> s_Votes s ->
  (cast (v_Address v) (v_Authorize v) s).2 = true ->
  votes_ok (s_Signers s) (s_Votes s ++ [v]) (s_Tally (cast (v_Address v) (v_Authorize v) s).1).
Proof.
  intros [Ht Hm Hs Ho] Hv Hnew. unfold cast. destruct (validVote _ _ _) eqn:E; cbn [negb]; [|done]. intros _.
  apply validVote_spec in E. split.
  - intros a. assert (Hc : count a (s_Votes s ++ [v]) = count a (s_Votes s) + (if v_Address v =? a then 1 else 0))
      by (rewrite count_app, count_cons; change (count a []) with 0; lia).
    pose proof (count_nonneg a (s_Votes s)) as Hp. unfold recount. rewrite Hc. rewrite Ht. unfold recount.
    destruct (Z.eqb_spec (v_Address v) a) as [Ea|Hne]; [subst a|].
    + destruct (Z.eqb_spec (count (v_Address v) (s_Votes s) + 1) 0); [lia|].
      destruct (Z.eqb_spec (count (v_Address v) (s_Votes s)) 0) as [E0|E0]; cbn; rewrite lookup_insert_eq; [|done].
      by rewrite E0, E.
    + rewrite Z.add_0_r. destruct (count (v_Address v) (s_Votes s) =? 0); cbn; rewrite lookup_insert_ne by done; apply Ht.
  - intros w [Hw| ->%list_elem_of_singleton]%elem_of_app; [by apply Hm|done].
  - intros w [Hw| ->%list_elem_of_singleton]%elem_of_app; [by apply Hs|done].
  - rewrite fmap_app. apply list.NoDup_app. split_and!; [done| |apply NoDup_singleton]. intros p Hp ->%list_elem_of_singleton. done.
Qed.

Lemma Done_inl {A B} (x y : A) : Done (inl x : A + B) = Done (inl y) -> x = y.
Proof. congruence. Qed.

(** ** The steps of a header *)

(** Only the votes and the tally differ. *)
Definition only_votes (s s' : Snapshot) : Prop := s' = set_Tally (s_Tally s') (set_Votes (s_Votes s') s).

Lemma only_votes_refl s : only_votes s s.
Proof. by destruct s. Qed.

Lemma only_votes_trans s1 s2 s3 : only_votes s1 s2 -> only_votes s2 s3 -> only_votes s1 s3.
Proof. unfold only_votes. intros E1 E2. rewrite E2, E1. done. Qed.

Lemma only_votes_uncast a b s : only_votes s (uncast a b s).1.
Proof. rewrite uncast_eq. by destruct s. Qed.

Lemma only_votes_cast a b s : only_votes s (cast a b s).1.
Proof. rewrite cast_eq. by destruct s. Qed.

Lemma only_votes_set votes s : only_votes s (set_Votes votes s).
Proof. by destruct s. Qed.

Lemma only_votes_fields s s' : only_votes s s' -> s_Signers s' = s_Signers s /\ s_Recents s' = s_Recents s /\
  s_config s' = s_config s /\ s_Number s' = s_Number s /\ s_Hash s' = s_Hash s.
Proof. intros ->. by destruct s. Qed.

(** The votes of a snapshot are in order. *)
Notation snap_ok s := (votes_ok (s_Signers s) (s_Votes s) (s_Tally s)).

Lemma discard_previous_ok signer address s : snap_ok s -> let s' := discard_previous signer address s in
  only_votes s s' /\ snap_ok s' /\ (signer, address) ∉ (fun v => (v_Signer v, v_Address v)) <$> s_Votes s' /\
  forall v, v ∈ s_Votes s' -> v ∈ s_Votes s.
Proof.
  intros Hs s'. subst s'. unfold discard_previous. destruct (list_find _ _) as [[i v]|] eqn:E.
  - apply list_find_Some in E as (Hi & [E1 E2] & _).
    pose proof (list_elem_of_split_length _ _ _ Hi) as (l1 & l2 & El & Hlen).
    rewrite El, Hlen, delete_middle. rewrite El in Hs. pose proof (votes_ok_removed _ _ _ _ _ Hs) as Hr.
    destruct (only_votes_fields _ _ (only_votes_uncast (v_Address v) (v_Authorize v) s)) as (E3 & _).
    split_and!.
    + eapply only_votes_trans; [apply only_votes_uncast|apply only_votes_set].
    + cbn. by rewrite E3.
    + cbn. destruct Hs as [_ _ _ Ho]. rewrite fmap_app, fmap_cons in Ho. apply list.NoDup_app in Ho as (_ & Hd & Ho).
      apply list.NoDup_cons in Ho as [Hn _]. rewrite E1, E2 in *. rewrite fmap_app, elem_of_app. intros [H|H]; [|done].
      apply (Hd _ H). left.
    + intros w Hw. by apply elem_of_middle.
  - apply list_find_None in E. split_and!; [apply only_votes_refl|done| |done].
    intros (v & Ev & Hv)%list_elem_of_fmap. injection Ev as -> ->.
    rewrite list.Forall_forall in E. by destruct (E v Hv).
Qed.

Lemma discard_cast_by_ok signer signers votes : forall pre s,
  votes_ok signers (pre ++ votes) (s_Tally s) -> let s' := discard_cast_by signer votes s in
  only_votes s s' /\ s_Votes s' = filter (fun v => v_Signer v <> signer) votes /\
  votes_ok signers (pre ++ s_Votes s') (s_Tally s').
Proof.
  induction votes as [|v votes IH]; intros pre s Hs; cbn [discard_cast_by].
  { split_and!; [apply only_votes_set|done|done]. }
  rewrite list.filter_cons. destruct (Z.eqb_spec (v_Signer v) signer) as [E|E].
  - rewrite decide_False by tauto. apply votes_ok_removed in Hs. destruct (IH pre _ Hs) as (I1 & I2 & I3).
    split_and!; [|done|done]. eapply only_votes_trans; [apply only_votes_uncast|done].
  - rewrite decide_True by done. rewrite cons_middle, app_assoc in Hs. destruct (IH (pre ++ [v]) s Hs) as (I1 & I2 & I3).
    cbn [s_Votes s_Tally set_Votes]. split_and!; [eapply only_votes_trans; [done|apply only_votes_set]|by rewrite I2|].
    by rewrite cons_middle, app_assoc.
Qed.

(** The recent signers are those of the last blocks. *)
Definition recents_ok (number : Z) (s : Snapshot) : Prop :=
  forall k a, s_Recents s !! k = Some a -> 0 <= k <= number /\ number < k + limit s.

Lemma shift_recents_fields number s : let s' := shift_recents number s in
  s_Signers s' = s_Signers s /\ s_Votes s' = s_Votes s /\ s_Tally s' = s_Tally s /\ s_config s' = s_config s /\
  s_Number s' = s_Number s /\ s_Hash s' = s_Hash s.
Proof. unfold shift_recents. by destruct (_ <=? _). Qed.

Lemma shift_recents_ok number s :
  (forall k a, s_Recents s !! k = Some a -> 0 <= k <= number /\ number < k + limit s + 1) ->
  recents_ok number (shift_recents number s) /\
  forall k a, s_Recents (shift_recents number s) !! k = Some a -> s_Recents s !! k = Some a.
Proof.
  intros H. unfold shift_recents, recents_ok. destruct (Z.leb_spec (limit s) number); cbn.
  - assert (D : forall k a, delete (number - limit s) (s_Recents s) !! k = Some a ->
      k <> number - limit s /\ s_Recents s !! k = Some a) by (intros k a [? ?]%lookup_delete_Some; done).
    split; [|intros k a Hk; by apply D]. intros k a Hk. apply D in Hk as [Hne Hk]. apply H in Hk. unfold limit in *. cbn in *. lia.
  - split; [|done]. intros k a Hk. apply H in Hk. unfold limit in *. cbn in *. lia.
Qed.

(** The membership of an address changes and the votes on it are dropped. *)
Lemma votes_ok_changed S0 S1 address votes tally :
  votes_ok S0 votes tally -> (forall a, a <> address -> a ∈ S1 <-> a ∈ S0) -> (forall v, v ∈ votes -> v_Signer v ∈ S1) ->
  votes_ok S1 (filter (fun v => v_Address v <> address) votes) (delete address tally).
Proof.
  intros [Ht Hm Hs Ho] HS Hv. split.
  - intros a. destruct (decide (a = address)) as [->|Hne].
    + rewrite lookup_delete_eq. unfold recount. rewrite count_zero; [done|]. by intros v [? _]%list_elem_of_filter.
    + rewrite lookup_delete_ne, Ht by done. unfold recount. rewrite count_filter by (intros v _; congruence).
      by rewrite (bool_decide_ext _ _ (HS a Hne)).
  - intros v [Hne Hin]%list_elem_of_filter. rewrite (Hm v Hin). by rewrite (bool_decide_ext _ _ (HS _ Hne)).
  - intros v [_ Hin]%list_elem_of_filter. by apply Hv.
  - eapply sublist_NoDup; [exact Ho|]. apply fmap_sublist, sublist_filter.
Qed.

Lemma member_unchanged (S : gset Z) a c (b : bool) :
  a <> c -> a ∈ (if b then S ∖ {[c]} else {[c]} ∪ S) <-> a ∈ S.
Proof. intros H. destruct b; set_solver. Qed.

Lemma size_remove (S : gset Z) a : a ∈ S ->
  Z.of_nat (size S) = Z.of_nat (size (S ∖ {[a]})) + 1.
Proof.
  intros H. rewrite size_difference by set_solver. rewrite size_singleton.
  assert (size S <> 0)%nat; [|lia]. intros E%size_empty_inv. set_solver.
Qed.

Lemma change_signers_ok number address s :
  snap_ok s -> recents_ok number s ->
  let authorize := negb (isSigner s address) in let s' := change_signers number address authorize s in
  snap_ok s' /\ recents_ok number s' /\ s_config s' = s_config s /\ s_Number s' = s_Number s /\ s_Hash s' = s_Hash s /\
  s_Signers s' = if authorize then {[address]} ∪ s_Signers s else s_Signers s ∖ {[address]}.
Proof.
  intros Hs Hr authorize. subst authorize. unfold isSigner. destruct (bool_decide_reflect (address ∈ s_Signers s)) as [Hin|Hin]; cbn [negb].
  - unfold change_signers. set (s1 := shift_recents number (set_Signers _ s)).
    destruct (shift_recents_fields number (set_Signers (s_Signers s ∖ {[address]}) s)) as (F1 & F2 & F3 & F4 & F5 & F6).
    fold s1 in F1, F2, F3, F4, F5, F6. cbn in F1, F2, F3, F4, F5, F6.
    assert (Hr1 : recents_ok number s1).
    { apply shift_recents_ok. intros k a Hk. apply Hr in Hk. unfold limit in *. cbn. pose proof (size_remove _ _ Hin). Z.to_euclidean_division_equations; lia. }
    rewrite <- F2, <- F3 in Hs. destruct (discard_cast_by_ok address (s_Signers s) (s_Votes s1) [] s1 Hs) as (O & Ev & Ho).
    cbn [app] in Ho. set (s2 := discard_cast_by _ _ _) in *. destruct (only_votes_fields _ _ O) as (G1 & G2 & G3 & G4 & G5).
    cbn. rewrite G1, G3, G4, G5, F1, F4, F5, F6. split_and!; try done.
    + apply (votes_ok_changed (s_Signers s)); [done|set_solver|]. intros v Hv. pose proof (votes_by_signers _ _ _ Ho v Hv).
      rewrite Ev in Hv. apply list_elem_of_filter in Hv as [Hne _]. set_solver.
    + intros k a. cbn. rewrite G2. unfold limit. cbn. rewrite G1. apply Hr1.
  - unfold change_signers. cbn. split_and!; try done.
    + apply (votes_ok_changed (s_Signers s)); [done|set_solver|]. intros v Hv. pose proof (votes_by_signers _ _ _ Hs v Hv). set_solver.
    + intros k a Hk. apply Hr in Hk. unfold limit in *. cbn in *.
      assert (size (s_Signers s) <= size ({[address]} ∪ s_Signers s))%nat by (apply subseteq_size; set_solver).
      pose proof (Z.div_le_mono (Z.of_nat (size (s_Signers s))) (Z.of_nat (size ({[address]} ∪ s_Signers s))) 2). lia.
Qed.

(** ** A header *)

Lemma tally_vote_ok v s : snap_ok s -> v_Signer v ∈ s_Signers s ->
  (v_Signer v, v_Address v) ∉ (fun v => (v_Signer v, v_Address v)) <$> s_Votes s ->
  let s' := tally_vote v s in only_votes s s' /\ snap_ok s' /\ forall w, w ∈ s_Votes s' -> w ∈ s_Votes s \/ w = v.
Proof.
  intros Hs Hv Hn s'. subst s'. unfold tally_vote. pose proof (votes_ok_added s v Hs Hv Hn) as Ha.
  pose proof (only_votes_cast (v_Address v) (v_Authorize v) s) as Ho.
  destruct (cast _ _ s) as [s1 counted] eqn:E. cbn in Ha, Ho. destruct (only_votes_fields _ _ Ho) as (F1 & _).
  assert (Ev : s_Votes s1 = s_Votes s).
  { pose proof (cast_eq (v_Address v) (v_Authorize v) s) as Ec. rewrite E in Ec. cbn in Ec. by rewrite Ec. }
  destruct counted.
  - specialize (Ha eq_refl). cbn. rewrite F1, Ev. split_and!; [eapply only_votes_trans; [done|apply only_votes_set]|done|].
    intros w [Hw|Hw%list_elem_of_singleton]%elem_of_app; auto.
  - assert (s1 = s) as ->.
    { unfold cast in E. destruct (negb _); [by injection E as <-|]. by destruct (s_Tally s !! _). }
    split_and!; [apply only_votes_refl|done|auto].
Qed.

Lemma pass_vote_ok number address s : snap_ok s -> recents_ok number s -> let s' := pass_vote number address s in
  snap_ok s' /\ recents_ok number s' /\ s_config s' = s_config s /\ s_Number s' = s_Number s /\ s_Hash s' = s_Hash s /\
  (s_Signers s' = s_Signers s \/
   Z.of_nat (size (s_Signers s)) / 2 < count address (s_Votes s) /\
   s_Signers s' = if isSigner s address then s_Signers s ∖ {[address]} else {[address]} ∪ s_Signers s).
Proof.
  intros Hs Hr s'. subst s'. unfold pass_vote. rewrite (votes_tallied _ _ _ Hs). unfold recount.
  destruct (Z.eqb_spec (count address (s_Votes s)) 0) as [E|E]; cbn.
  - destruct (Z.ltb_spec (Z.of_nat (size (s_Signers s)) / 2) 0); [Z.to_euclidean_division_equations; lia|].
    split_and!; auto.
  - destruct (Z.ltb_spec (Z.of_nat (size (s_Signers s)) / 2) (count address (s_Votes s))); [|split_and!; auto].
    destruct (change_signers_ok number address s Hs Hr) as (H1 & H2 & H3 & H4 & H5 & H6).
    fold (isSigner s address). split_and!; try done. right. split; [done|]. rewrite H6. by destruct (isSigner s address).
Qed.

Lemma checkpoint_reset_ok number s : snap_ok s -> let s' := checkpoint_reset number s in
  only_votes s s' /\ snap_ok s' /\ forall v, v ∈ s_Votes s' -> v ∈ s_Votes s.
Proof.
  intros Hs. unfold checkpoint_reset. destruct (_ =? 0); cbn.
  - split_and!; [by destruct s|apply votes_ok_nil|by intros v ?%elem_of_nil].
  - split_and!; [apply only_votes_refl|done|done].
Qed.

(** The signers who voted on an address. *)
Definition voters (a : Z) (votes : list Vote) : gset Z := list_to_set (v_Signer <$> filter (fun v => v_Address v = a) votes).

Lemma voters_size signers a votes tally : votes_ok signers votes tally -> Z.of_nat (size (voters a votes)) = count a votes.
Proof.
  intros [_ _ _ Ho]. unfold voters, count, zlen. rewrite size_list_to_set; [by rewrite length_fmap|].
  apply (NoDup_fmap_1 (fun x => (x, a))). rewrite <- list_fmap_compose.
  eapply sublist_NoDup; [exact Ho|]. erewrite list_fmap_ext; [apply fmap_sublist, sublist_filter|].
  intros i v Hv. apply list_elem_of_lookup_2, list_elem_of_filter in Hv as [<- _]. done.
Qed.

Section Votes.
Context (ecrecover : header.Header -> Z + Error) (Hash : header.Header -> Z).

(** An address joins or leaves the signers only as the coinbase of a header, and only
    when more than half of the signers voted for the change. *)
Definition changed_by_majority (s : Snapshot) (h : header.Header) (s' : Snapshot) : Prop :=
  forall a, (a ∈ s_Signers s' <-> a ∈ s_Signers s) \/
    a = header.Coinbase h /\ exists majority : gset Z,
      majority ⊆ s_Signers s /\ Z.of_nat (size (s_Signers s)) < 2 * Z.of_nat (size majority) /\
      forall x, x ∈ majority ->
        (ecrecover h = inl x /\ header.Nonce h = if isSigner s a then nonceDropVote else nonceAuthVote) \/
        exists v, v ∈ s_Votes s /\ v_Signer v = x /\ v_Address v = a /\ v_Authorize v = negb (isSigner s a).

(** What an accepted header did. *)
Lemma apply_header_inv s h s' : let number := u64 (header.Number h) in
  apply_header ecrecover s h = Done (inl s') -> exists signer,
    let base := shift_recents number (checkpoint_reset number s) in
    let authorize := header.Nonce h =? nonceAuthVote in
    ecrecover h = inl signer /\ isSigner base signer = true /\ recently_signed base signer = false /\
    (header.Nonce h = if authorize then nonceAuthVote else nonceDropVote) /\
    s' = pass_vote number (header.Coinbase h)
           (tally_vote (mkVote signer number (header.Coinbase h) authorize)
             (discard_previous signer (header.Coinbase h) (set_Recents (<[number := signer]> (s_Recents base)) base))).
Proof.
  intros number. unfold apply_header. cbn zeta. destruct (_ =? 0); [done|].
  destruct (ecrecover h) as [signer|e]; [|done]. subst number.
  destruct (isSigner _ signer) eqn:E1; [|done]. destruct (recently_signed _ signer) eqn:E2; [done|]. cbn [negb].
  destruct (Z.eqb_spec (header.Nonce h) nonceAuthVote) as [E3|E3]; cbn [negb andb].
  - intros <-%Done_inl. by exists signer.
  - destruct (Z.eqb_spec (header.Nonce h) nonceDropVote); [|done]. intros <-%Done_inl. by exists signer.
Qed.

(** The snapshot before the vote of a header is counted. *)
Lemma before_vote_ok number signer address s :
  snap_ok s -> recents_ok (number - 1) s -> 0 <= number ->
  let base := shift_recents number (checkpoint_reset number s) in
  let s' := discard_previous signer address (set_Recents (<[number := signer]> (s_Recents base)) base) in
  snap_ok s' /\ recents_ok number s' /\ s_config s' = s_config s /\ s_Number s' = s_Number s /\ s_Hash s' = s_Hash s /\
  s_Signers s' = s_Signers s /\ (signer, address) ∉ (fun v => (v_Signer v, v_Address v)) <$> s_Votes s' /\
  forall v, v ∈ s_Votes s' -> v ∈ s_Votes s.
Proof.
  intros Hs Hr Hn base. destruct (checkpoint_reset_ok number s Hs) as (O & Hs0 & Hin0).
  destruct (only_votes_fields _ _ O) as (G1 & G2 & G3 & G4 & G5).
  destruct (shift_recents_fields number (checkpoint_reset number s)) as (F1 & F2 & F3 & F4 & F5 & F6).
  fold base in F1, F2, F3, F4, F5, F6.
  assert (Hrb : recents_ok number base).
  { apply shift_recents_ok. rewrite G2. intros k a Hk. apply Hr in Hk. unfold limit in *. rewrite G1. lia. }
  set (s1 := set_Recents _ base). assert (Hs1 : snap_ok s1) by (cbn; by rewrite F1, F2, F3).
  assert (Hr1 : recents_ok number s1).
  { intros k a. cbn. intros [[<- _]|[_ Hk]]%lookup_insert_Some; [|by apply Hrb in Hk]. unfold limit. Z.to_euclidean_division_equations; lia. }
  destruct (discard_previous_ok signer address s1 Hs1) as (O' & Hs' & Hnew & Hin').
  destruct (only_votes_fields _ _ O') as (K1 & K2 & K3 & K4 & K5). cbn in K1, K2, K3, K4, K5.
  cbn zeta. fold s1. assert (ES : s_Signers s1 = s_Signers s) by (cbn; congruence).
  split_and!; try done; try congruence.
  - intros k a. rewrite K2. unfold limit. rewrite K1. intros Hk. by apply Hr1 in Hk.
  - intros v Hv. apply Hin0. rewrite <- F2. by apply Hin'.
Qed.

Lemma apply_header_ok s h s' : let number := u64 (header.Number h) in
  snap_ok s -> recents_ok (number - 1) s -> apply_header ecrecover s h = Done (inl s') ->
  snap_ok s' /\ recents_ok number s' /\ s_config s' = s_config s /\ s_Number s' = s_Number s /\ changed_by_majority s h s'.
Proof.
  intros number Hs Hr E. pose proof (u64_range (header.Number h)) as Hn. fold number in Hn.
  apply apply_header_inv in E as (signer & Ee & Esig & _ & Enonce & ->). fold number in Esig |- *.
  destruct (before_vote_ok number signer (header.Coinbase h) s Hs Hr ltac:(lia)) as (H1 & H2 & H3 & H4 & _ & H6 & H7 & H8).
  set (s1 := discard_previous _ _ _) in *. set (v := mkVote _ _ _ _).
  assert (Hv : v_Signer v ∈ s_Signers s1).
  { unfold isSigner in Esig. apply bool_decide_eq_true in Esig. cbn. rewrite H6.
    destruct (shift_recents_fields number (checkpoint_reset number s)) as (F1 & _). rewrite F1 in Esig.
    destruct (checkpoint_reset_ok number s Hs) as (O & _). by destruct (only_votes_fields _ _ O) as (<- & _). }
  destruct (tally_vote_ok v s1 H1 Hv H7) as (O & H9 & H10). destruct (only_votes_fields _ _ O) as (G1 & G2 & G3 & G4 & _).
  set (s2 := tally_vote v s1) in *.
  assert (Hr2 : recents_ok number s2) by (intros k a; rewrite G2; unfold limit; rewrite G1; apply H2).
  destruct (pass_vote_ok number (header.Coinbase h) s2 H9 Hr2) as (P1 & P2 & P3 & P4 & _ & P6).
  split_and!; [done|done|congruence|congruence|].
  clearbody s2 s1. intros a. destruct P6 as [->|[Pc ->]]; [left; by rewrite G1, H6|].
  destruct (decide (a = header.Coinbase h)) as [->|Hne].
  - right. split; [done|]. exists (voters (header.Coinbase h) (s_Votes s2)).
    assert (EI : isSigner s (header.Coinbase h) = isSigner s2 (header.Coinbase h)) by (unfold isSigner; by rewrite G1, H6).
    split_and!.
    + intros x (w & -> & [_ Hw]%list_elem_of_filter)%elem_of_list_to_set%list_elem_of_fmap. rewrite <- H6, <- G1.
      by apply (votes_by_signers _ _ _ H9).
    + rewrite (voters_size _ _ _ _ H9), <- H6, <- G1. Z.to_euclidean_division_equations; lia.
    + intros x (w & -> & [Ha Hw]%list_elem_of_filter)%elem_of_list_to_set%list_elem_of_fmap.
      pose proof (votes_meaningful _ _ _ H9 w Hw) as Hm. rewrite Ha in Hm. rewrite EI. destruct (H10 w Hw) as [Hw'| ->].
      * right. exists w. split_and!; [by apply H8|done|done|done].
      * left. split; [done|]. rewrite Enonce. cbn in Hm. rewrite Hm. unfold isSigner. by destruct (bool_decide _).
  - left. rewrite <- H6, <- G1. by apply member_unchanged.
Qed.

(** ** Reachable snapshots *)

Record wf (s : Snapshot) : Prop := {
  wf_votes : snap_ok s;
  wf_recents : recents_ok (s_Number s) s;
  wf_number : 0 <= s_Number s < two64
}.

Lemma apply_headers_ok headers : forall number s s',
  snap_ok s -> recents_ok number s -> 0 <= number -> number + zlen headers < two64 -> contiguous number headers = true ->
  apply_headers ecrecover s headers = Done (inl s') ->
  snap_ok s' /\ recents_ok (number + zlen headers) s' /\ s_config s' = s_config s /\ s_Number s' = s_Number s.
Proof.
  induction headers as [|h headers IH]; intros number s s' Hs Hr H0 Hlt Hc E; cbn [apply_headers contiguous] in *.
  { apply Done_inl in E as <-. by rewrite Z.add_0_r. }
  assert (Hz : zlen (h :: headers) = zlen headers + 1) by (unfold zlen; cbn; lia).
  pose proof (zlen_nonneg headers). apply andb_true_iff in Hc as [Hh Hc]. apply Z.eqb_eq in Hh. rewrite (u64_small (number + 1)) in Hh by lia.
  destruct (apply_header ecrecover s h) as [[s1|e]| |] eqn:E1; cbn in E; try done.
  apply apply_header_ok in E1 as (H1 & H2 & H3 & H4 & _); [|done|by rewrite Hh, Z.add_simpl_r].
  rewrite Hh in H2, Hc. destruct (IH (number + 1) s1 s' H1 H2 ltac:(lia) ltac:(lia) Hc E) as (K1 & K2 & K3 & K4).
  replace (number + zlen (h :: headers)) with (number + 1 + zlen headers) by lia. split_and!; [done|done|congruence..].
Qed.

Lemma apply_ok s headers s' : wf s -> s_Number s + zlen headers < two64 ->
  apply ecrecover Hash s headers = Done (inl s') ->
  wf s' /\ s_config s' = s_config s /\ s_Number s' = s_Number s + zlen headers.
Proof.
  intros [Hs Hr Hn] Hlt. unfold apply. destruct (list.last headers) as [final|] eqn:El.
  - destruct (contiguous _ _) eqn:Ec; [|done]. cbn [negb].
    destruct (apply_headers ecrecover s headers) as [[s1|e]| |] eqn:E; cbn; try done. intros <-%Done_inl.
    destruct (apply_headers_ok headers (s_Number s) s s1 Hs Hr ltac:(lia) Hlt Ec E) as (H1 & H2 & H3 & H4).
    pose proof (zlen_nonneg headers). cbn. rewrite H4, u64_small by lia. split_and!; [split; cbn|done|done]; [done| |lia].
    exact H2.
  - intros <-%Done_inl. apply last_None in El as ->. by rewrite Z.add_0_r.
Qed.

(** The snapshots of a chain whose numbers do not overflow. *)
Inductive reachable : Snapshot -> Prop :=
| reachable_new config number hash sigs : 0 <= number < two64 -> reachable (newSnapshot config number hash sigs)
| reachable_apply s headers s' : reachable s -> s_Number s + zlen headers < two64 ->
    apply ecrecover Hash s headers = Done (inl s') -> reachable s'.

Lemma reachable_wf s : reachable s -> wf s.
Proof.
  induction 1 as [config number hash sigs Hn|s headers s' _ IH Hn E].
  - split; cbn; [apply votes_ok_nil| |done]. intros k a Hk. cbn in Hk. by rewrite lookup_empty in Hk.
  - by apply apply_ok in E as (? & _).
Qed.

(** C8: in every snapshot that replaying headers reaches, the cached tally of an address
    is the recount of the pending votes on it, every pending vote asks for a change of
    the address's membership and was cast by a current signer, and no signer has two
    pending votes on the same address. *)
Theorem tally_is_recount s : reachable s ->
  (forall a, s_Tally s !! a = recount (s_Signers s) (s_Votes s) a) /\
  (forall v, v ∈ s_Votes s -> validVote s (v_Address v) (v_Authorize v) = true /\ v_Signer v ∈ s_Signers s) /\
  NoDup ((fun v => (v_Signer v, v_Address v)) <$> s_Votes s).
Proof.
  intros [[Ht Hm Hb Ho] _ _]%reachable_wf. split_and!; [done| |done].
  intros v Hv. split; [|by apply Hb]. by apply validVote_spec, Hm.
Qed.

(** C9: a header changes the set of signers by at most its coinbase, and only when more
    than half of the signers, counted once each, voted for the change, in pending votes
    or in the header itself. *)
Theorem signers_change_by_majority s h s' : reachable s -> s_Number s + 1 < two64 ->
  apply ecrecover Hash s [h] = Done (inl s') -> changed_by_majority s h s'.
Proof.
  intros [Hs Hr Hn]%reachable_wf Hlt. unfold apply. cbn [list.last contiguous apply_headers].
  destruct (Z.eqb_spec (u64 (header.Number h)) (u64 (s_Number s + 1))) as [E|]; [|done]. cbn [negb andb].
  destruct (apply_header ecrecover s h) as [[s1|e]| |] eqn:E1; cbn; try done. intros <-%Done_inl.
  rewrite (u64_small (s_Number s + 1)) in E by lia. apply apply_header_ok in E1 as (_ & _ & _ & _ & H); [exact H|done|by rewrite E, Z.add_simpl_r].
Qed.

(** ** Signing the next block *)

Lemma size_list_to_set_le (l : list Z) : (size (list_to_set l : gset Z) <= length l)%nat.
Proof.
  induction l as [|x l IH]; cbn; [by rewrite size_empty|].
  rewrite size_union_alt, size_singleton. pose proof (subseteq_size (list_to_set l ∖ {[x]}) (list_to_set l : gset Z)) as H.
  assert (size (list_to_set l ∖ {[x]} : gset Z) <= size (list_to_set l : gset Z))%nat by (apply H; set_solver). lia.
Qed.

(** The signers of the recent blocks. *)
Definition recent_signers (s : Snapshot) : gset Z := list_to_set (map_to_list (s_Recents s)).*2.

Lemma recently_signed_spec s signer : recently_signed s signer = bool_decide (signer ∈ recent_signers s).
Proof.
  unfold recently_signed, recent_signers. apply eq_bool_prop_intro. rewrite Is_true_true, existsb_exists, bool_decide_spec.
  rewrite elem_of_list_to_set, list_elem_of_fmap. split.
  - intros ([k a] & Hin & E). apply Z.eqb_eq in E as ->. exists (k, signer). split; [done|]. by apply list_elem_of_In.
  - intros ([k a] & -> & Hin). exists (k, a). split; [by apply list_elem_of_In|]. apply Z.eqb_refl.
Qed.

(** Before a block is signed, fewer than [limit] signers are recent. *)
Lemma recent_signers_few number s : (forall k a, s_Recents s !! k = Some a -> number - limit s < k < number) ->
  Z.of_nat (size (recent_signers s)) <= limit s - 1.
Proof.
  intros H. assert (0 <= limit s - 1) by (unfold limit; Z.to_euclidean_division_equations; lia).
  assert (size (recent_signers s) <= size (s_Recents s))%nat as Hle.
  { unfold recent_signers. etransitivity; [apply size_list_to_set_le|]. by rewrite length_fmap, length_map_to_list. }
  assert (dom (s_Recents s) ⊆ (list_to_set (seqZ (number - limit s + 1) (limit s - 1)) : gset Z)) as Hsub%subseteq_size.
  { intros k [a Hk]%elem_of_dom. apply H in Hk. apply elem_of_list_to_set, elem_of_seqZ. lia. }
  rewrite size_dom in Hsub. pose proof (size_list_to_set_le (seqZ (number - limit s + 1) (limit s - 1))) as Hz.
  rewrite length_seqZ in Hz. lia.
Qed.

Lemma shifted_recents number s : recents_ok (number - 1) s ->
  let s' := shift_recents number s in forall k a, s_Recents s' !! k = Some a -> number - limit s' < k < number.
Proof.
  intros Hr s' k a Hk. subst s'. destruct (shift_recents_ok number s) as [H Hsub].
  { intros j b Hj. apply Hr in Hj. lia. }
  pose proof (H k a Hk). apply Hsub, Hr in Hk. lia.
Qed.

Lemma apply_header_accepts s h signer :
  let base := shift_recents (u64 (header.Number h)) (checkpoint_reset (u64 (header.Number h)) s) in
  Epoch (s_config s) <> 0 -> ecrecover h = inl signer -> isSigner base signer = true -> recently_signed base signer = false ->
  header.Nonce h = nonceAuthVote \/ header.Nonce h = nonceDropVote ->
  exists s', apply_header ecrecover s h = Done (inl s').
Proof.
  intros base HE Ee E1 E2 Hn. unfold apply_header. cbn zeta. fold base. rewrite Ee, E1, E2.
  destruct (Z.eqb_spec (Epoch (s_config s)) 0); [done|]. cbn [negb].
  assert (negb (header.Nonce h =? nonceAuthVote) && negb (header.Nonce h =? nonceDropVote) = false) as ->.
  { destruct Hn as [-> | ->]; by rewrite Z.eqb_refl, ?andb_false_r. }
  by eexists.
Qed.

(** C18: the chain never gets stuck on the rule that a signer waits after signing: at every
    reachable snapshot at least half of the signers, and so at least one when there are
    any, can sign the next block, whatever vote the block carries. *)
Theorem half_can_sign s : reachable s -> Epoch (s_config s) <> 0 -> s_Number s + 1 < two64 ->
  exists able : gset Z, able ⊆ s_Signers s /\ Z.of_nat (size (s_Signers s)) <= 2 * Z.of_nat (size able) /\
    forall h x, x ∈ able -> u64 (header.Number h) = s_Number s + 1 -> ecrecover h = inl x ->
      header.Nonce h = nonceAuthVote \/ header.Nonce h = nonceDropVote ->
      exists s', apply ecrecover Hash s [h] = Done (inl s').
Proof.
  intros [Hs Hr Hn]%reachable_wf HE Hlt. set (number := s_Number s + 1).
  destruct (checkpoint_reset_ok number s Hs) as (O & _). destruct (only_votes_fields _ _ O) as (G1 & G2 & _).
  set (base := shift_recents number (checkpoint_reset number s)).
  destruct (shift_recents_fields number (checkpoint_reset number s)) as (F1 & _). fold base in F1.
  assert (Hfew : Z.of_nat (size (recent_signers base)) <= limit base - 1).
  { apply (recent_signers_few number), shifted_recents. subst number. rewrite Z.add_simpl_r.
    intros k a. unfold limit. rewrite G1, G2. apply Hr. }
  assert (ES : s_Signers base = s_Signers s) by congruence.
  exists (s_Signers s ∖ recent_signers base). split_and!; [set_solver| |].
  - assert (size (s_Signers s) <= size (s_Signers s ∖ recent_signers base) + size (recent_signers base))%nat.
    { rewrite <- size_union by set_solver. apply subseteq_size. intros x Hx.
      destruct (decide (x ∈ recent_signers base)); set_solver. }
    unfold limit in Hfew. rewrite ES in Hfew. Z.to_euclidean_division_equations; lia.
  - intros h x [Hx Hrec]%elem_of_difference Hnum Ee Hnonce. fold number in Hnum.
    destruct (apply_header_accepts s h x) as [s1 E1]; rewrite ?Hnum; fold base; try done.
    { unfold isSigner. rewrite ES. by apply bool_decide_eq_true. }
    { rewrite recently_signed_spec. by apply bool_decide_eq_false. }
    unfold apply. cbn [list.last contiguous apply_headers]. fold number. rewrite Hnum, (u64_small number), Z.eqb_refl by lia.
    rewrite E1. cbn. by eexists.
Qed.

(** ** Replaying in pieces *)

(** The number and the hash play no part in the votes. *)
Definition relabel (number hash : Z) (s : Snapshot) : Snapshot :=
  mkSnapshot (s_config s) number hash (s_Signers s) (s_Recents s) (s_Votes s) (s_Tally s).

Lemma relabel_shift_recents n k hash s : shift_recents k (relabel n hash s) = relabel n hash (shift_recents k s).
Proof. unfold shift_recents. change (limit (relabel n hash s)) with (limit s). by destruct (_ <=? _). Qed.

Lemma relabel_checkpoint_reset n k hash s : checkpoint_reset k (relabel n hash s) = relabel n hash (checkpoint_reset k s).
Proof. unfold checkpoint_reset. cbn. by destruct (_ =? _). Qed.

Lemma relabel_uncast n hash a b s : (uncast a b (relabel n hash s)).1 = relabel n hash (uncast a b s).1.
Proof. unfold uncast. cbn. by repeat case_match. Qed.

Lemma relabel_discard_previous n hash a b s : discard_previous a b (relabel n hash s) = relabel n hash (discard_previous a b s).
Proof. unfold discard_previous. cbn. destruct (list_find _ _) as [[i v]|]; [|done]. by rewrite relabel_uncast. Qed.

Lemma relabel_discard_cast_by n hash a votes : forall s,
  discard_cast_by a votes (relabel n hash s) = relabel n hash (discard_cast_by a votes s).
Proof.
  induction votes as [|v votes IH]; intros s; cbn [discard_cast_by]; [done|].
  destruct (_ =? _); [by rewrite relabel_uncast, IH|by rewrite IH].
Qed.

Lemma relabel_tally_vote n hash v s : tally_vote v (relabel n hash s) = relabel n hash (tally_vote v s).
Proof.
  unfold tally_vote, cast. change (validVote (relabel n hash s)) with (validVote s).
  destruct (validVote s _ _); [|done]. cbn. by destruct (s_Tally s !! _).
Qed.

Lemma relabel_pass_vote n hash k a s : pass_vote k a (relabel n hash s) = relabel n hash (pass_vote k a s).
Proof.
  unfold pass_vote. cbn. destruct (_ <? _); [|done]. unfold change_signers. destruct (t_Authorize _); [done|].
  change (set_Signers ?x (relabel n hash s)) with (relabel n hash (set_Signers x s)).
  by rewrite relabel_shift_recents, relabel_discard_cast_by.
Qed.

Definition relabel_result (n hash : Z) (r : outcome (Snapshot + Error)) : outcome (Snapshot + Error) :=
  match r with Done (inl s) => Done (inl (relabel n hash s)) | _ => r end.

Lemma relabel_apply_header n hash s h :
  apply_header ecrecover (relabel n hash s) h = relabel_result n hash (apply_header ecrecover s h).
Proof.
  unfold apply_header. cbn zeta. rewrite relabel_checkpoint_reset, relabel_shift_recents.
  change (s_config (relabel n hash s)) with (s_config s). destruct (Epoch _ =? 0); [done|].
  set (base := shift_recents _ _). clearbody base. destruct (ecrecover h) as [signer|e]; [|done].
  change (isSigner (relabel n hash base)) with (isSigner base).
  change (recently_signed (relabel n hash base)) with (recently_signed base).
  destruct (negb (isSigner base signer)); [done|]. destruct (recently_signed base signer); [done|].
  change (set_Recents ?x (relabel n hash base)) with (relabel n hash (set_Recents x base)).
  rewrite relabel_discard_previous. destruct (_ && _); [done|]. by rewrite relabel_tally_vote, relabel_pass_vote.
Qed.

Lemma relabel_apply_headers n hash headers : forall s,
  apply_headers ecrecover (relabel n hash s) headers = relabel_result n hash (apply_headers ecrecover s headers).
Proof.
  induction headers as [|h headers IH]; intros s; cbn [apply_headers]; [done|].
  rewrite relabel_apply_header. destruct (apply_header ecrecover s h) as [[s1|e]| |]; cbn; [apply IH|done..].
Qed.

Lemma apply_headers_app headers more : forall s, apply_headers ecrecover s (headers ++ more) =
  (r ← apply_headers ecrecover s headers;
   match r with inl s1 => apply_headers ecrecover s1 more | inr e => Done (inr e) end).
Proof.
  induction headers as [|h headers IH]; intros s; cbn [apply_headers app]; [done|].
  destruct (apply_header ecrecover s h) as [[s1|e]| |]; cbn; [apply IH|done..].
Qed.

Lemma contiguous_app headers more : forall number, contiguous number (headers ++ more) =
  contiguous number headers && contiguous (if zlen headers =? 0 then number else u64 (number + zlen headers)) more.
Proof.
  induction headers as [|h headers IH]; intros number; [done|]. cbn [contiguous app].
  destruct (Z.eqb_spec (u64 (header.Number h)) (u64 (number + 1))) as [E|]; [|done]. cbn [andb]. rewrite IH, E.
  assert (Hz : zlen (h :: headers) = zlen headers + 1) by (unfold zlen; cbn; lia). pose proof (zlen_nonneg headers).
  rewrite Hz. destruct (Z.eqb_spec (zlen headers + 1) 0); [lia|]. do 2 f_equal.
  destruct (Z.eqb_spec (zlen headers) 0) as [->|]; [done|]. unfold u64. rewrite Zplus_mod_idemp_l. f_equal. lia.
Qed.

Lemma apply_header_number s h s' : apply_header ecrecover s h = Done (inl s') -> s_Number s' = s_Number s.
Proof.
  intros E. pose proof (relabel_apply_header (s_Number s) (s_Hash s) s h) as R. rewrite E in R.
  assert (relabel (s_Number s) (s_Hash s) s = s) as Es by (by destruct s). rewrite Es, E in R.
  cbn in R. apply Done_inl in R. rewrite R. done.
Qed.

Lemma apply_headers_number headers : forall s s',
  apply_headers ecrecover s headers = Done (inl s') -> s_Number s' = s_Number s.
Proof.
  induction headers as [|h headers IH]; intros s s'; cbn [apply_headers]; [by intros <-%Done_inl|].
  destruct (apply_header ecrecover s h) as [[s1|e]| |] eqn:E; cbn; [|done..].
  intros ->%IH. by eapply apply_header_number.
Qed.

(** Headers can be replayed in pieces: a batch that is accepted gives a snapshot on
    which any further headers are judged, and have the effect, as if they had been in
    the same batch. *)
Lemma apply_in_pieces s headers s1 more : apply ecrecover Hash s headers = Done (inl s1) ->
  apply ecrecover Hash s (headers ++ more) = apply ecrecover Hash s1 more.
Proof.
  unfold apply. destruct (list.last headers) as [final|] eqn:El.
  2: { intros <-%Done_inl. by apply last_None in El as ->. }
  rewrite list.last_app. destruct (contiguous _ headers) eqn:Ec; [|done]. cbn [negb].
  destruct (apply_headers ecrecover s headers) as [[s2|e]| |] eqn:E; cbn [mbind outcome_bind]; [|done..].
  intros <-%Done_inl. destruct (list.last more) as [final'|] eqn:El'.
  - rewrite contiguous_app, Ec, apply_headers_app, E. cbn [mbind outcome_bind andb s_Number].
    assert (EN : s_Number s2 = s_Number s) by (by eapply apply_headers_number).
    assert (zlen headers =? 0 = false) as -> by (destruct headers; [done|]; unfold zlen; cbn; zbool; lia).
    rewrite EN. destruct (contiguous _ more); [|done]. cbn [negb].
    change (mkSnapshot (s_config s2) ?n ?h (s_Signers s2) (s_Recents s2) (s_Votes s2) (s_Tally s2)) with (relabel n h s2).
    rewrite relabel_apply_headers. destruct (apply_headers ecrecover s2 more) as [[s3|e]| |] eqn:E3; cbn; [|done..].
    apply apply_headers_number in E3. rewrite E3, EN, zlen_app. unfold u64. rewrite Zplus_mod_idemp_l, Z.add_assoc. done.
  - apply last_None in El' as ->. rewrite app_nil_r, Ec, E, El. done.
Qed.
End Votes.

(** ** Turns *)

Lemma offset_of_spec sigs a i : NoDup sigs -> sigs !! i = Some a -> offset_of sigs a = Z.of_nat i.
Proof.
  intros Hn. revert i. induction sigs as [|b sigs IH]; intros i Hi; [done|]. cbn.
  apply list.NoDup_cons in Hn as [Hb Hn]. destruct i as [|i]; cbn in Hi.
  - injection Hi as ->. by rewrite Z.eqb_refl.
  - destruct (Z.eqb_spec b a) as [->|]; [|rewrite (IH Hn i Hi); lia]. destruct Hb. by apply list_elem_of_lookup_2 in Hi.
Qed.

Lemma offset_of_absent sigs a : a ∉ sigs -> offset_of sigs a = zlen sigs.
Proof.
  induction sigs as [|b sigs IH]; intros Ha; [done|]. cbn. apply not_elem_of_cons in Ha as [Hne Ha].
  destruct (Z.eqb_spec b a); [congruence|]. rewrite IH by done. unfold zlen. cbn. lia.
Qed.

Lemma signers_spec s : NoDup (signers s) /\ (forall a, a ∈ signers s <-> a ∈ s_Signers s) /\
  zlen (signers s) = Z.of_nat (size (s_Signers s)).
Proof.
  unfold signers. pose proof (merge_sort_Permutation Z.le (elements (s_Signers s))) as P. split_and!.
  - rewrite P. apply NoDup_elements.
  - intros a. by rewrite P, elem_of_elements.
  - unfold zlen. by rewrite P.
Qed.

(** At every block exactly one signer is in turn, so the difficulty that
    [calcDifficulty] gives singles out one signer. *)
Theorem inturn_unique s number : s_Signers s <> ∅ -> 0 <= number ->
  exists a, a ∈ s_Signers s /\ forall x, inturn s number x = Done (bool_decide (x = a)).
Proof.
  intros Hne Hn. destruct (signers_spec s) as (Hd & Hin & Hz).
  assert (0 < zlen (signers s)) as Hpos.
  { assert (size (s_Signers s) <> 0)%nat by (intros E%size_empty_inv; set_solver). lia. }
  pose proof (Z.mod_pos_bound number (zlen (signers s)) Hpos) as Hm.
  destruct (lookup_lt_is_Some_2 (signers s) (Z.to_nat (number mod zlen (signers s)))) as [a Ha]; [unfold zlen in *; lia|].
  exists a. split; [by apply Hin; apply list_elem_of_lookup_2 in Ha|]. intros x. unfold inturn.
  destruct (Z.eqb_spec (zlen (signers s)) 0); [lia|]. f_equal. apply eq_bool_prop_intro.
  rewrite Is_true_true, Z.eqb_eq, bool_decide_spec. split.
  - intros E. destruct (decide (x ∈ signers s)) as [Hx|Hx]; [|rewrite offset_of_absent in E by done; lia].
    apply list_elem_of_lookup_1 in Hx as [i Hi]. rewrite (offset_of_spec _ _ i Hd Hi) in E.
    rewrite E, Nat2Z.id in Ha. congruence.
  - intros ->. rewrite (offset_of_spec _ _ _ Hd Ha). lia.
Qed.
