(* ===== verification/AposEngine.v ===== *)
(** * The consensus engine ([internal/consensus/apos/apos.go])

    Which headers the engine accepts and how it finds the snapshot that decides it: in
    a cache, in the database, at a checkpoint, or by replaying headers.

    The chain and the database of snapshots are parameters, the cache keeps some of the
    snapshots it is given ([evict]).  [IHeader] is the Go interface: it can be nil, or
    hold a nil pointer, which is what [BlockChain.GetHeader] returns for an unknown
    hash. *)

From S2P Require Import Prelude Uint256 Params Common Wire Config Header Apos.
Import apos.

Inductive IHeader : Type := NilInterface | NilHeader | AHeader (h : header.Header).

Record ChainReader : Type := mkChainReader {
  chain_Config : ChainConfig;
  GetHeader : Z -> Z -> IHeader;
  GetHeaderByNumber : Z -> IHeader
}.

(** [loadSnapshot] and [Snapshot.store], which go through encoding/json and the
    key-value store. *)
Class SnapshotDB (D : Type) : Type := {
  loadSnapshot : D -> Z -> option Snapshot;
  store : Snapshot -> D -> option Error * D
}.

(** The fields of [APos] that change, and those that do not. *)
Record Caches (D : Type) : Type := mkCaches { c_recents : gmap Z Snapshot; c_db : D }.
Arguments mkCaches {D}.
Arguments c_recents {D}.
Arguments c_db {D}.

Record APos : Type := mkAPos {
  config : APosConfig;
  Period : Z;
  proposals : gmap Z bool;
  signer : Z;
  fakeDiff : bool
}.

Definition checkpointInterval : Z := 2048.
Definition extraVanity : Z := 32.
Definition extraSeal : Z := 65.
Definition FullImmutabilityThreshold : Z := 90000.
Definition MaxGasLimit : Z := 0x7fffffffffffffff.

Section Engine.
Context (ecrecover : header.Header -> Z + Error) (Hash : header.Header -> Z).
Context {D : Type} {DB : SnapshotDB D} (evict : gmap Z Snapshot -> gmap Z Snapshot).
Context (GasLimitBoundDivisor : Z) (chain : ChainReader) (c : APos).
Notation MC := (M (Caches D)).

(** ** The snapshot of a block *)

(** The signers in the extra data of a checkpoint; a negative length panics. *)
Definition checkpoint_signers (extra : bytes) : outcome (list Z) :=
  let n := Z.quot (zlen extra - extraVanity - extraSeal) 20 in
  if n <? 0 then GoPanic else
  Done ((fun i => be_to_Z (take 20 (drop (Z.to_nat (extraVanity + i * 20)) extra))) <$> seqZ 0 n).

(** The genesis, or a checkpoint that is trusted. *)
Definition trusted_checkpoint (number : Z) (collected : list header.Header) : outcome bool :=
  if number =? 0 then Done true else
  if Epoch (config c) =? 0 then GoPanic else
  Done ((number mod Epoch (config c) =? 0) &&
        ((FullImmutabilityThreshold <? zlen collected) ||
         match GetHeaderByNumber chain (u64 (number - 1)) with NilInterface => true | _ => false end)).

Definition checkpoint_snapshot (number : Z) : MC (option Snapshot + Error) :=
  match GetHeaderByNumber chain number with
  | NilInterface => mret (inl None)
  | NilHeader => panic
  | AHeader checkpoint =>
      sigs ← outcome_to_M (checkpoint_signers (header.Extra checkpoint));
      let snap := newSnapshot (config c) number (Hash checkpoint) sigs in
      s ← get;
      let '(err, db) := store snap (c_db s) in
      _ ← modify (fun s => mkCaches (c_recents s) db);
      match err with Some err => mret (inr err) | None => mret (inl (Some snap)) end
  end.

(** The header to move back over: from the explicit parents, or from the chain. *)
Definition next_header (number hash : Z) (parents : list header.Header) : outcome ((header.Header * list header.Header) + Error) :=
  match list.last parents with
  | Some header =>
      if negb (Hash header =? hash) || negb (u64 (header.Number header) =? number) then Done (inr errUnknownBlock)
      else Done (inl (header, take (length parents - 1) parents))
  | None =>
      match GetHeader chain hash number with
      | NilInterface => Done (inr errUnknownBlock)
      | NilHeader => GoPanic
      | AHeader header => Done (inl (header, []))
      end
  end.

(** The loop that searches for a snapshot, with the headers passed on the way. *)
Fixpoint find_snapshot (fuel : nat) (number hash : Z) (parents headers : list header.Header)
    : MC ((Snapshot * list header.Header) + Error) :=
  match fuel with
  | O => fun _ => NoFuel
  | S fuel =>
      s ← get;
      match c_recents s !! hash with
      | Some snap => mret (inl (snap, headers))
      | None =>
          match (if number mod checkpointInterval =? 0 then loadSnapshot (c_db s) hash else None) with
          | Some snap => mret (inl (snap, headers))
          | None =>
              trusted ← outcome_to_M (trusted_checkpoint number headers);
              found ← (if (trusted : bool) then checkpoint_snapshot number else mret (inl None));
              match found with
              | inr err => mret (inr err)
              | inl (Some snap) => mret (inl (snap, headers))
              | inl None =>
                  next ← outcome_to_M (next_header number hash parents);
                  match next with
                  | inr err => mret (inr err)
                  | inl (header, parents) =>
                      find_snapshot fuel (u64 (number - 1)) (header.ParentHash header) parents (headers ++ [header])
                  end
              end
          end
      end
  end.

Definition snapshot (fuel : nat) (number hash : Z) (parents : list header.Header) : MC (Snapshot + Error) :=
  found ← find_snapshot fuel number hash parents [];
  match found with
  | inr err => mret (inr err)
  | inl (snap, headers) =>
      r ← outcome_to_M (apply ecrecover Hash snap (rev headers));
      match r with
      | inr err => mret (inr err)
      | inl snap =>
          _ ← modify (fun s => mkCaches (evict (<[s_Hash snap := snap]> (c_recents s))) (c_db s));
          if (s_Number snap mod checkpointInterval =? 0) && (0 <? zlen headers) then
            s ← get;
            let '(err, db) := store snap (c_db s) in
            _ ← modify (fun s => mkCaches (c_recents s) db);
            match err with Some err => mret (inr err) | None => mret (inl snap) end
          else mret (inl snap)
      end
  end.

(** ** Verifying headers *)

Definition verifySeal (snap : Snapshot) (header : header.Header) : outcome (option Error) :=
  let number := u64 (header.Number header) in
  if number =? 0 then Done (Some errUnknownBlock) else
  match ecrecover header with
  | inr err => Done (Some err)
  | inl signer =>
      if negb (isSigner snap signer) then Done (Some errUnauthorizedSigner) else
      if existsb (fun '(seen, recent) => (recent =? signer) && (u64 (number - limit snap) <? seen)) (map_to_list (s_Recents snap))
      then Done (Some errRecentlySigned) else
      if fakeDiff c then Done None else
      turn ← inturn snap number signer;
      difficulty ← deref (header.Difficulty header);
      if (turn : bool) && negb (difficulty =? diffInTurn) then Done (Some errWrongDifficulty) else
      if negb (turn : bool) && negb (difficulty =? diffNoTurn) then Done (Some errWrongDifficulty) else
      Done None
  end.

(** The list of signers that a checkpoint header must carry. *)
Definition signer_bytes (snap : Snapshot) : bytes := concat (Z_to_be 20 <$> signers snap).

(** The gas limit and the base fee against the parent's. *)
Definition verify_fees (parent header : header.Header) : outcome (option Error) :=
  if negb (chain.IsLondon (chain_Config chain) (u64 (header.Number header))) then
    match header.BaseFee header with
    | Some fee => Done (Some (BaseFeeBeforeFork fee))
    | None => Done (HeaderInvalid <$> VerifyGaslimit GasLimitBoundDivisor (header.GasLimit parent) (header.GasLimit header))
    end
  else
    err ← VerifyEip1559Header GasLimitBoundDivisor (chain_Config chain) parent header;
    Done (HeaderInvalid <$> (err : option HeaderError)).

(** The parent: the last of the explicit ones, or the one in the chain. *)
Definition find_parent (header : header.Header) (parents : list header.Header) : outcome (option header.Header) :=
  match list.last parents with
  | Some parent => Done (Some parent)
  | None =>
      match GetHeader chain (header.ParentHash header) (u64 (u64 (header.Number header) - 1)) with
      | NilInterface => GoPanic
      | NilHeader => Done None
      | AHeader parent => Done (Some parent)
      end
  end.

Definition verifyCascadingFields (fuel : nat) (header : header.Header) (parents : list header.Header) : MC (option Error) :=
  let number := u64 (header.Number header) in
  if number =? 0 then mret None else
  parent ← outcome_to_M (find_parent header parents);
  match parent with
  | None => mret (Some errUnknownBlock)
  | Some parent =>
      if negb (u64 (header.Number parent) =? u64 (number - 1)) || negb (Hash parent =? header.ParentHash header)
      then mret (Some errUnknownBlock) else
      if header.Time header <? u64 (header.Time parent + Period c) then mret (Some errInvalidTimestamp) else
      if header.GasLimit header <? header.GasUsed header
      then mret (Some (GasUsedTooHigh (header.GasUsed header) (header.GasLimit header))) else
      err ← outcome_to_M (verify_fees parent header);
      match err with
      | Some err => mret (Some err)
      | None =>
          snap ← snapshot fuel (u64 (number - 1)) (header.ParentHash header) parents;
          match snap with
          | inr err => mret (Some err)
          | inl snap =>
              if Epoch (config c) =? 0 then panic else
              let extra := header.Extra header in
              if (number mod Epoch (config c) =? 0) && (zlen extra - extraSeal <? extraVanity) then panic else
              if (number mod Epoch (config c) =? 0) &&
                 negb (bool_decide (take (Z.to_nat (zlen extra - extraSeal - extraVanity)) (drop (Z.to_nat extraVanity) extra)
                                    = signer_bytes snap))
              then mret (Some errMismatchingCheckpointSigners)
              else outcome_to_M (verifySeal snap header)
          end
      end
  end.

(** The checks of [verifyHeader] that need no other header; [now] is the clock. *)
Definition verify_alone (now : Z) (header : header.Header) : outcome (option Error) :=
  if header.Number header =? 0 then Done (Some errUnknownBlock) else
  let number := u64 (header.Number header) in
  if now <? header.Time header then Done (Some FutureBlock) else
  if Epoch (config c) =? 0 then GoPanic else
  let checkpoint := number mod Epoch (config c) =? 0 in
  if checkpoint && negb (header.Coinbase header =? 0) then Done (Some errInvalidCheckpointBeneficiary) else
  if negb (header.Nonce header =? nonceAuthVote) && negb (header.Nonce header =? nonceDropVote)
  then Done (Some errInvalidVote) else
  if checkpoint && negb (header.Nonce header =? nonceDropVote) then Done (Some errInvalidCheckpointVote) else
  let extra := zlen (header.Extra header) in
  if extra <? extraVanity then Done (Some errMissingVanity) else
  if extra <? extraVanity + extraSeal then Done (Some errMissingSignature) else
  let signersBytes := extra - extraVanity - extraSeal in
  if negb checkpoint && negb (signersBytes =? 0) then Done (Some errExtraSigners) else
  if checkpoint && negb (signersBytes mod 20 =? 0) then Done (Some errInvalidCheckpointSigners) else
  if negb (header.MixDigest header =? 0) then Done (Some errInvalidMixDigest) else
  difficulty ← (if 0 <? number then deref (header.Difficulty header) else Done diffNoTurn);
  if (0 <? number) && ((difficulty =? 0) || (negb (difficulty =? diffInTurn) && negb (difficulty =? diffNoTurn)))
  then Done (Some errInvalidDifficulty) else
  if MaxGasLimit <? header.GasLimit header then Done (Some (GasLimitTooHigh (header.GasLimit header))) else
  Done None.

Definition verifyHeader (fuel : nat) (now : Z) (header : header.Header) (parents : list header.Header) : MC (option Error) :=
  err ← outcome_to_M (verify_alone now header);
  match err with
  | Some err => mret (Some err)
  | None => verifyCascadingFields fuel header parents
  end.

(** ** Preparing a header *)

(** The fields that [Prepare] sets. *)
Definition set_prepared (coinbase nonce : Z) (difficulty : Z) (extra : bytes) (time : Z) (h : header.Header) : header.Header :=
  header.mkHeader (header.ParentHash h) coinbase (header.Root h) (header.TxHash h) (header.ReceiptHash h) (header.Bloom h)
    (Some difficulty) (header.Number h) (header.GasLimit h) (header.GasUsed h) time 0 nonce extra
    (header.BaseFee h) (header.Signature h).

(** The vote of the header: on one of the proposals that make sense, chosen by [pick]. *)
Definition choose_vote (pick : list Z -> option Z) (number : Z) (snap : Snapshot) : Z * Z :=
  if number mod Epoch (config c) =? 0 then (0, nonceDropVote) else
  match pick (filter (fun a => validVote snap a (default false (proposals c !! a)) = true) (map_to_list (proposals c)).*1) with
  | None => (0, nonceDropVote)
  | Some address => (address, if default false (proposals c !! address) then nonceAuthVote else nonceDropVote)
  end.

(** The extra data: the vanity padded to its length, the signers of a checkpoint, room
    for the seal. *)
Definition prepare_extra (number : Z) (snap : Snapshot) (extra : bytes) : bytes :=
  take (Z.to_nat extraVanity) (extra ++ repeat 0 (Z.to_nat (extraVanity - zlen extra))) ++
  (if number mod Epoch (config c) =? 0 then signer_bytes snap else []) ++ repeat 0 (Z.to_nat extraSeal).

(** On an error the caller drops the header. *)
Definition Prepare (fuel : nat) (now : Z) (pick : list Z -> option Z) (header : header.Header) : MC (header.Header + Error) :=
  let number := u64 (header.Number header) in
  snap ← snapshot fuel (u64 (number - 1)) (header.ParentHash header) [];
  match snap with
  | inr err => mret (inr err)
  | inl snap =>
      if Epoch (config c) =? 0 then panic else
      let '(coinbase, nonce) := choose_vote pick number snap in
      difficulty ← outcome_to_M (calcDifficulty snap (signer c));
      let extra := prepare_extra number snap (header.Extra header) in
      match GetHeader chain (header.ParentHash header) ((header.Number header - 1) mod two256) with
      | NilInterface => mret (inr UnknownAncestor)
      | NilHeader => panic
      | AHeader parent =>
          let time := u64 (header.Time parent + Period c) in
          let time := if time <? now then u64 (now + Period c) else time in
          mret (inl (set_prepared coinbase nonce difficulty extra time header))
      end
  end.

(** The signature is copied over the room at the end of the extra data ([Seal]). *)
Definition write_seal (sighash : bytes) (h : header.Header) : header.Header :=
  header.mkHeader (header.ParentHash h) (header.Coinbase h) (header.Root h) (header.TxHash h) (header.ReceiptHash h)
    (header.Bloom h) (header.Difficulty h) (header.Number h) (header.GasLimit h) (header.GasUsed h) (header.Time h)
    (header.MixDigest h) (header.Nonce h)
    (take (Z.to_nat (zlen (header.Extra h) - extraSeal)) (header.Extra h) ++ take (Z.to_nat extraSeal) sighash
       ++ drop (Z.to_nat (zlen (header.Extra h) - extraSeal) + length (take (Z.to_nat extraSeal) sighash)) (header.Extra h))
    (header.BaseFee h) (header.Signature h).
End Engine.
