(* ===== verification/AposEngineTheorems.v ===== *)
(** * What the engine accepts

    The seal of a header is judged as the replay of the header will judge it, and the
    snapshot that decides is a replay of headers, whatever the caches hold. *)

From S2P Require Import Prelude Uint256 Params Common Wire Config Header Apos AposTheorems AposEngine.
Import apos.

Section Engine.
Context (ecrecover : header.Header -> Z + Error) (Hash : header.Header -> Z) (c : APos).

(** ** Seals *)

(** The difficulty of a header is the one of its signer's turn. *)
Definition right_difficulty (s : Snapshot) (h : header.Header) (x : Z) : Prop :=
  exists d, calcDifficulty s x = Done d /\ header.Difficulty h = Some d.

Lemma difficulty_checked s x d : forall t : bool, inturn s (u64 (s_Number s + 1)) x = Done t ->
  calcDifficulty s x = Done d <-> (t && negb (d =? diffInTurn) = false /\ negb t && negb (d =? diffNoTurn) = false).
Proof.
  intros t E. unfold calcDifficulty. rewrite E. cbn [mbind outcome_bind].
  destruct t; cbn [negb andb]; destruct (Z.eqb_spec d diffInTurn), (Z.eqb_spec d diffNoTurn); subst; cbn; split; intuition congruence.
Qed.

(** What is left of [verifySeal] when the signer is known. *)
Lemma verifySeal_signer s h x : u64 (header.Number h) = s_Number s + 1 -> 0 <= s_Number s < two64 - 1 ->
  ecrecover h = inl x -> isSigner s x = true ->
  existsb (fun '(seen, recent) => (recent =? x) && (u64 (s_Number s + 1 - limit s) <? seen)) (map_to_list (s_Recents s)) = false ->
  verifySeal ecrecover c s h = Done None <-> (fakeDiff c = true \/ right_difficulty s h x).
Proof.
  intros Hn Hr Ee Ei Er. unfold verifySeal. rewrite Hn, Ee, Ei, Er. destruct (Z.eqb_spec (s_Number s + 1) 0); [lia|]. cbn [negb].
  destruct (fakeDiff c) eqn:Ef; [by split; [left|]|].
  assert (Ht : exists t, inturn s (s_Number s + 1) x = Done t).
  { unfold isSigner in Ei. apply bool_decide_eq_true in Ei.
    destruct (inturn_unique s (s_Number s + 1)) as (a & _ & Ha); [set_solver|lia|]. eauto. }
  destruct Ht as [t Ht]. rewrite Ht. cbn [mbind outcome_bind]. rewrite <- (u64_small (s_Number s + 1)) in Ht by lia.
  unfold right_difficulty. destruct (header.Difficulty h) as [d|]; cbn [deref mbind outcome_bind].
  - pose proof (difficulty_checked s x d t Ht) as Hd. destruct (t && _), (negb t && _); split; try done.
    all: try (intros [?|(d' & Hc & [= <-])]; [done|]; apply Hd in Hc; destruct Hc; done).
    all: try done. intros _. right. exists d. split; [|done]. by apply Hd.
  - split; [done|]. by intros [?|(d' & _ & ?)].
Qed.

Lemma existsb_map (m : gmap Z Z) (f : Z * Z -> bool) :
  existsb f (map_to_list m) = true <-> exists k a, m !! k = Some a /\ f (k, a) = true.
Proof.
  rewrite existsb_exists. split.
  - intros ([k a] & Hin & Hf). exists k, a. split; [|done]. by apply elem_of_map_to_list, list_elem_of_In.
  - intros (k & a & Hk & Hf). exists (k, a). split; [|done]. by apply list_elem_of_In, elem_of_map_to_list.
Qed.

(** The recent signers after the oldest has been deleted, for the next block. *)
Lemma next_recents s : wf s -> s_Number s + 1 < two64 ->
  let base := shift_recents (s_Number s + 1) (checkpoint_reset (s_Number s + 1) s) in
  s_Signers base = s_Signers s /\
  forall k x, s_Recents base !! k = Some x <-> s_Recents s !! k = Some x /\ s_Number s + 1 - limit s < k.
Proof.
  intros [Hs Hr Hn] Hlt base. destruct (checkpoint_reset_ok (s_Number s + 1) s Hs) as (O & _).
  destruct (only_votes_fields _ _ O) as (G1 & G2 & _).
  destruct (shift_recents_fields (s_Number s + 1) (checkpoint_reset (s_Number s + 1) s)) as (F1 & _).
  split; [by rewrite <- G1, <- F1|]. intros k x. subst base. unfold shift_recents, limit. rewrite G1. fold (limit s).
  destruct (Z.leb_spec (limit s) (s_Number s + 1)); cbn; rewrite G2.
  - rewrite lookup_delete_Some. split.
    + intros [Hne Hk]. split; [done|]. apply Hr in Hk. lia.
    + intros [Hk Hlt']. split; [lia|done].
  - split; [|by intros [? _]]. intros Hk. split; [done|]. apply Hr in Hk. lia.
Qed.

Lemma recent_tests_agree s x : wf s -> s_Number s + 1 < two64 -> limit s <= s_Number s + 1 ->
  existsb (fun '(seen, recent) => (recent =? x) && (u64 (s_Number s + 1 - limit s) <? seen)) (map_to_list (s_Recents s))
  = recently_signed (shift_recents (s_Number s + 1) (checkpoint_reset (s_Number s + 1) s)) x.
Proof.
  intros Hwf Hlt Hlim. destruct (next_recents s Hwf Hlt) as [_ Hb].
  assert (0 <= limit s) by (unfold limit; Z.to_euclidean_division_equations; lia). destruct Hwf as [_ _ Hn].
  rewrite (u64_small (s_Number s + 1 - limit s)) by lia. unfold recently_signed. apply eq_true_iff_eq. rewrite !existsb_map. split.
  - intros (k & a & Hk & [Ha%Z.eqb_eq Hlt'%Z.ltb_lt]%andb_true_iff). subst a. exists k, x. split; [by apply Hb|apply Z.eqb_refl].
  - intros (k & a & Hk & Ha%Z.eqb_eq). subst a. apply Hb in Hk as [Hk Hlt']. exists k, x. split; [done|].
    rewrite Z.eqb_refl. by apply Z.ltb_lt.
Qed.

(** When one header is accepted on top of a snapshot. *)
Lemma apply_one s h : wf s -> Epoch (s_config s) <> 0 -> s_Number s + 1 < two64 -> u64 (header.Number h) = s_Number s + 1 ->
  header.Nonce h = nonceAuthVote \/ header.Nonce h = nonceDropVote ->
  let base := shift_recents (s_Number s + 1) (checkpoint_reset (s_Number s + 1) s) in
  (exists s', apply ecrecover Hash s [h] = Done (inl s')) <->
  exists x, ecrecover h = inl x /\ isSigner s x = true /\ recently_signed base x = false.
Proof.
  intros Hwf HE Hlt Hnum Hnonce base. destruct (next_recents s Hwf Hlt) as [HS _]. fold base in HS. destruct Hwf as [_ _ Hn].
  assert (EI : forall x, isSigner base x = isSigner s x) by (intros x; unfold isSigner; by rewrite HS).
  unfold apply. cbn [list.last contiguous apply_headers]. rewrite Hnum, (u64_small (s_Number s + 1)), Z.eqb_refl by lia. cbn [negb andb].
  split.
  - intros [s' E]. destruct (apply_header ecrecover s h) as [[s1|e]| |] eqn:E1; [|done..].
    apply apply_header_inv in E1 as (x & Ee & Ei & Er & _). rewrite Hnum in Ei, Er. fold base in Ei, Er.
    exists x. by rewrite <- EI.
  - intros (x & Ee & Ei & Er). destruct (apply_header_accepts ecrecover s h x) as [s1 E1]; rewrite ?Hnum; fold base; try done; [by rewrite EI|].
    rewrite E1. cbn. by eexists.
Qed.

(** C25: from block number [len(signers)/2 + 1] on, [verifySeal] accepts a header with a
    vote exactly when replaying the header on the snapshot will accept it and its
    difficulty is that of its signer's turn. *)
Theorem verifySeal_iff_apply s h : reachable ecrecover Hash s -> Epoch (s_config s) <> 0 -> s_Number s + 1 < two64 ->
  limit s <= s_Number s + 1 -> u64 (header.Number h) = s_Number s + 1 ->
  header.Nonce h = nonceAuthVote \/ header.Nonce h = nonceDropVote ->
  verifySeal ecrecover c s h = Done None <->
  (exists s', apply ecrecover Hash s [h] = Done (inl s')) /\
  (fakeDiff c = true \/ exists x, ecrecover h = inl x /\ right_difficulty s h x).
Proof.
  intros Hwf%reachable_wf HE Hlt Hlim Hnum Hnonce. rewrite (apply_one s h) by done. pose proof (wf_number _ Hwf) as Hn.
  split.
  - intros HV. assert (exists x, ecrecover h = inl x /\ isSigner s x = true /\
      recently_signed (shift_recents (s_Number s + 1) (checkpoint_reset (s_Number s + 1) s)) x = false) as (x & Ee & Ei & Er).
    { unfold verifySeal in HV. rewrite Hnum in HV. destruct (_ =? 0); [done|]. destruct (ecrecover h) as [x|]; [|done].
      exists x. destruct (isSigner s x); [|done]. cbn [negb] in HV. rewrite recent_tests_agree in HV by done.
      by destruct (recently_signed _ x). }
    split; [by exists x|]. rewrite (verifySeal_signer s h x) in HV; [|done|lia|done|done|by rewrite recent_tests_agree].
    destruct HV; [by left|right; by exists x].
  - intros [(x & Ee & Ei & Er) Hd]. apply (verifySeal_signer s h x); [done|lia|done|done|by rewrite recent_tests_agree|].
    destruct Hd as [?|(y & Ey & ?)]; [by left|right]. congruence.
Qed.

(** Before that block number, [number - limit] wraps around and [verifySeal] accepts a
    header of a signer who has just signed, although every replay will refuse it with
    [errRecentlySigned]. *)
Theorem early_seal_accepted s h x : reachable ecrecover Hash s -> Epoch (s_config s) <> 0 ->
  s_Number s + 1 < limit s -> limit s < two64 - s_Number s - 1 -> u64 (header.Number h) = s_Number s + 1 ->
  ecrecover h = inl x -> isSigner s x = true -> x ∈ recent_signers s -> right_difficulty s h x ->
  verifySeal ecrecover c s h = Done None /\ apply ecrecover Hash s [h] = Done (inr errRecentlySigned).
Proof.
  intros Hwf%reachable_wf HE Hlim Hbig Hnum Ee Ei Hx Hd. pose proof (wf_number _ Hwf) as Hn.
  assert (Hlt : s_Number s + 1 < two64) by lia. destruct (next_recents s Hwf Hlt) as [HS Hb]. split.
  - apply (verifySeal_signer s h x); [done|lia|done|done| |by right]. apply not_true_is_false. rewrite existsb_map.
    intros (k & a & Hk & [_ Hk']%andb_true_iff). apply Z.ltb_lt in Hk'. apply (wf_recents _ Hwf) in Hk.
    unfold u64 in Hk'. rewrite <- (Z.mod_add _ 1) in Hk' by done. rewrite Z.mod_small in Hk' by lia. lia.
  - unfold apply. cbn [list.last contiguous apply_headers]. rewrite Hnum, (u64_small (s_Number s + 1)), Z.eqb_refl by lia. cbn [negb andb].
    unfold apply_header. cbn zeta. rewrite Hnum, Ee. destruct (Z.eqb_spec (Epoch (s_config s)) 0); [done|].
    set (base := shift_recents _ _) in *. assert (isSigner base x = true) as -> by (unfold isSigner in *; by rewrite HS).
    cbn [negb]. assert (recently_signed base x = true) as ->; [|done].
    unfold recently_signed. apply existsb_map. unfold recent_signers in Hx.
    apply elem_of_list_to_set, list_elem_of_fmap in Hx as ([k a] & -> & Hk%elem_of_map_to_list). exists k, a.
    split; [|apply Z.eqb_refl]. apply Hb. split; [done|]. apply (wf_recents _ Hwf) in Hk. lia.
Qed.
End Engine.

(** ** The snapshot of a block *)

(** The database of snapshots: what is stored is loaded, and a failed write changes
    nothing. *)
Class SnapshotDBLaws {D} (DB : SnapshotDB D) : Prop := {
  load_stored s db db' hash : store s db = (None, db') ->
    loadSnapshot db' hash = if hash =? s_Hash s then Some s else loadSnapshot db hash;
  load_failed s db db' e hash : store s db = (Some e, db') -> loadSnapshot db' hash = loadSnapshot db hash
}.

Section Snapshots.
Context (ecrecover : header.Header -> Z + Error) (Hash : header.Header -> Z).
Context {D : Type} {DB : SnapshotDB D} {DL : SnapshotDBLaws DB} (evict : gmap Z Snapshot -> gmap Z Snapshot).
Context (chain : ChainReader) (c : APos).
Context (Hevict : forall m, evict m ⊆ m).
Context (Hget : forall hash number h, GetHeader chain hash number = AHeader h -> Hash h = hash).

(** Headers that lead from the block with one hash to the block with another. *)
Inductive linked : Z -> list header.Header -> Z -> Prop :=
| linked_nil hash : linked hash [] hash
| linked_cons h headers hash : linked (Hash h) headers hash -> linked (header.ParentHash h) (h :: headers) hash.

Lemma linked_app from headers mid more target : linked from headers mid -> linked mid more target -> linked from (headers ++ more) target.
Proof. induction 1; cbn; [done|]. intros. constructor. auto. Qed.

Lemma linked_last from headers target h : linked from headers target -> list.last headers = Some h -> Hash h = target.
Proof.
  induction 1 as [|h' headers hash Hl IH]; [done|]. destruct headers as [|h2 headers]; [|by apply IH].
  intros [= <-]. by inversion Hl.
Qed.

(** The snapshot of a block is what replaying headers gives: from the signers that the
    genesis or a checkpoint of the chain lists, over linked headers that lead from it to
    the block. *)
Definition replays (hash : Z) (s : Snapshot) : Prop := exists number checkpoint sigs headers,
  GetHeaderByNumber chain number = AHeader checkpoint /\ checkpoint_signers (header.Extra checkpoint) = Done sigs /\
  (number = 0 \/ number mod Epoch (config c) = 0) /\ linked (Hash checkpoint) headers hash /\
  apply ecrecover Hash (newSnapshot (config c) number (Hash checkpoint) sigs) headers = Done (inl s).

Lemma replays_more hash s headers target s' :
  replays hash s -> linked hash headers target -> apply ecrecover Hash s headers = Done (inl s') -> replays target s'.
Proof.
  intros (n & cp & sigs & hs & H1 & H2 & H3 & H4 & H5) Hl Ha.
  exists n, cp, sigs, (hs ++ headers). split_and!; [done..|by eapply linked_app|]. by rewrite (apply_in_pieces _ _ _ _ _ _ H5).
Qed.

Lemma replays_hash hash s : replays hash s -> s_Hash s = hash.
Proof.
  intros (n & cp & sigs & hs & H1 & H2 & H3 & H4 & H5). destruct (list.last hs) as [h|] eqn:El.
  - rewrite <- (linked_last _ _ _ _ H4 El). revert H5. unfold apply. rewrite El. destruct (negb _); [done|].
    destruct (apply_headers _ _ _) as [[s1|e]| |]; cbn; [|done..]. by intros <-%Done_inl.
  - apply last_None in El as ->. apply Done_inl in H5 as <-. by inversion H4.
Qed.

(** Every snapshot in memory and in the database is a replay. *)
Definition caches_ok (st : Caches D) : Prop :=
  (forall hash s, c_recents st !! hash = Some s -> replays hash s) /\
  (forall hash s, loadSnapshot (c_db st) hash = Some s -> replays hash s).

Lemma caches_ok_stored st s err db : caches_ok st -> replays (s_Hash s) s -> store s (c_db st) = (err, db) ->
  caches_ok (mkCaches (c_recents st) db).
Proof.
  intros [Hc Hd] Hs E. split; [done|]. cbn. intros hash t Ht. destruct err as [e|].
  - rewrite (load_failed _ _ _ _ _ E) in Ht. by apply Hd.
  - rewrite (load_stored _ _ _ _ E) in Ht. destruct (Z.eqb_spec hash (s_Hash s)) as [->|]; [by injection Ht as <-|by apply Hd].
Qed.

Lemma checkpoint_snapshot_ok number st : caches_ok st -> number = 0 \/ number mod Epoch (config c) = 0 ->
  match checkpoint_snapshot Hash chain c number st with
  | Done (inl (Some s), st') => caches_ok st' /\ exists cp, GetHeaderByNumber chain number = AHeader cp /\ replays (Hash cp) s
  | Done (inl None, st') => st' = st /\ GetHeaderByNumber chain number = NilInterface
  | Done (inr _, st') => caches_ok st'
  | GoPanic => True
  | NoFuel => False
  end.
Proof.
  intros Hok Hn. unfold checkpoint_snapshot. destruct (GetHeaderByNumber chain number) as [| |cp] eqn:E; [done..|].
  unfold mbind, M_bind, outcome_to_M, get, modify. destruct (checkpoint_signers _) as [sigs| |] eqn:Es; [|done|].
  2: { unfold checkpoint_signers in Es. by destruct (_ <? 0). }
  set (s := newSnapshot _ _ _ _). assert (Hs : replays (Hash cp) s).
  { exists number, cp, sigs, []. split_and!; [done..|constructor|done]. }
  destruct (store s (c_db st)) as [err db] eqn:Est. pose proof (caches_ok_stored _ s _ _ Hok Hs Est). destruct err; [done|].
  split; [done|]. by exists cp.
Qed.

(** The headers that a search can pass: those of its caller and those of the chain. *)
Definition passable (parents : list header.Header) (h : header.Header) : Prop :=
  h ∈ parents \/ exists hash number, GetHeader chain hash number = AHeader h.

Lemma next_header_ok number hash parents h parents' :
  next_header Hash chain number hash parents = Done (inl (h, parents')) -> Hash h = hash /\ passable parents h /\ parents' ⊆ parents.
Proof.
  unfold next_header. destruct (list.last parents) as [h'|] eqn:El.
  - destruct (Z.eqb_spec (Hash h') hash); [|done]. cbn. destruct (_ =? _); [|done]. intros [= <- <-]. split_and!; [done| |].
    + left. apply list.last_Some in El as [l ->]. apply elem_of_app. right. by left.
    + intros x (i & Hx & _)%elem_of_take. by eapply list_elem_of_lookup_2.
  - destruct (GetHeader chain hash number) as [| |h'] eqn:E; [done..|]. intros [= <- <-]. split_and!; [by eapply Hget| |by intros x ?%elem_of_nil].
    right. by eexists _, _.
Qed.

(** The branch of a block passes through the checkpoints that the engine trusts without
    looking at their hashes: wherever the search may stop for one, on the headers that it
    can pass, the header of the chain with that number is the one of the branch.  These are
    the genesis, and checkpoints below more headers than a reorganisation may replace or
    without a parent in the chain. *)
Definition trusts (number hash : Z) (parents : list header.Header) : Prop := forall n from headers checkpoint,
  Forall (passable parents) headers -> linked from headers hash -> n + zlen headers = number -> 0 <= n ->
  trusted_checkpoint chain c n headers = Done true -> GetHeaderByNumber chain n = AHeader checkpoint -> Hash checkpoint = from.

Context (genesis : header.Header) (Hgenesis : GetHeaderByNumber chain 0 = AHeader genesis).

Lemma find_snapshot_ok top target all : trusts top target all -> forall fuel number hash parents headers st,
  caches_ok st -> linked hash (rev headers) target -> Forall (passable all) headers -> parents ⊆ all -> number + zlen headers = top -> 0 <= number < Z.min (Z.of_nat fuel) two64 ->
  match find_snapshot Hash chain c fuel number hash parents headers st with
  | Done (inl (s, hs), st') => caches_ok st' /\ exists from, replays from s /\ linked from (rev hs) target
  | Done (inr _, st') => caches_ok st'
  | GoPanic => True
  | NoFuel => False
  end.
Proof.
  intros Htr. induction fuel as [|fuel IH]; intros number hash parents headers st Hok Hl Hp Hsub Htop Hn; [lia|]. cbn [find_snapshot].
  unfold mbind, M_bind, get, outcome_to_M. destruct (c_recents st !! hash) as [s|] eqn:E1.
  { split; [done|]. exists hash. split; [by apply (proj1 Hok)|done]. }
  destruct (if number mod checkpointInterval =? 0 then _ else _) as [s|] eqn:E2.
  { split; [done|]. exists hash. split; [|done]. destruct (_ =? 0); [by apply (proj2 Hok)|done]. }
  destruct (trusted_checkpoint chain c number headers) as [trusted| |] eqn:Et; [|done|].
  2: { unfold trusted_checkpoint in Et. destruct (number =? 0); [done|]. by destruct (Epoch _ =? 0). }
  set (found := (if trusted then checkpoint_snapshot Hash chain c number else mret (inl None)) st).
  assert (Hf : match found with
    | Done (inl (Some s), st') => caches_ok st' /\ exists from, replays from s /\ linked from (rev headers) target
    | Done (inl None, st') => st' = st /\ number <> 0
    | Done (inr _, st') => caches_ok st'
    | GoPanic => True
    | NoFuel => False
    end).
  { subst found. destruct trusted.
    - assert (Hz : number = 0 \/ number mod Epoch (config c) = 0).
      { unfold trusted_checkpoint in Et. destruct (Z.eqb_spec number 0); [by left|right]. destruct (Epoch _ =? 0); [done|].
        injection Et as Et. apply andb_true_iff in Et as [Et _]. by apply Z.eqb_eq. }
      pose proof (checkpoint_snapshot_ok number st Hok Hz) as H. destruct (checkpoint_snapshot _ _ _ _ _) as [[[[s|]|e] st']| |]; try done.
      + destruct H as [H1 (cp & Ecp & H2)]. split; [done|]. exists hash. split; [|done].
        rewrite <- (Htr number hash (rev headers) cp); [done|by apply Forall_rev|done| |lia| |done].
        * unfold zlen in *. by rewrite length_rev.
        * rewrite <- Et. unfold trusted_checkpoint, zlen. by rewrite length_rev.
      + destruct H as [-> H]. split; [done|]. intros ->. by rewrite Hgenesis in H.
    - cbn. split; [done|]. intros ->. discriminate Et. }
  destruct found as [[[[s|]|e] st']| |]; try done. destruct Hf as [-> Hne].
  destruct (next_header Hash chain number hash parents) as [[[h parents']|e]| |] eqn:En; try done.
  - destruct (next_header_ok _ _ _ _ _ En) as (Eh & Hh & Hsub'). apply IH; [done| | |by etransitivity| |rewrite u64_small by lia; lia].
    + rewrite rev_app_distr. cbn [rev app]. constructor. by rewrite Eh.
    + apply Forall_app. split; [done|]. apply list.Forall_singleton. destruct Hh as [Hh|Hh]; [left; by apply Hsub|by right].
    + rewrite u64_small, zlen_app by lia. change (zlen [h]) with 1. lia.
  - unfold next_header in En. destruct (list.last parents); [by destruct (_ || _)|]. by destruct (GetHeader _ _ _).
Qed.

Lemma apply_returns s headers : apply ecrecover Hash s headers <> NoFuel.
Proof.
  assert (H : forall hs s, apply_headers ecrecover s hs <> NoFuel).
  { induction hs as [|h hs IH]; intros s1; cbn [apply_headers]; [done|].
    assert (apply_header ecrecover s1 h <> NoFuel).
    { unfold apply_header. cbn zeta. destruct (_ =? 0); [done|]. destruct (ecrecover h); [|done].
      destruct (negb _); [done|]. destruct (recently_signed _ _); [done|]. by destruct (_ && _). }
    destruct (apply_header ecrecover s1 h) as [[s2|e]| |]; [apply IH|done..]. }
  unfold apply. destruct (list.last headers); [|done]. destruct (negb _); [done|]. specialize (H headers s).
  by destruct (apply_headers ecrecover s headers) as [[s2|e]| |].
Qed.

(** C14: the snapshot that the engine finds for a block, in its cache, in the database, at
    a trusted checkpoint or by going back over the headers, is the snapshot of that block:
    the replay of linked headers that lead from the genesis or a checkpoint of the chain,
    with the signers that its extra data lists, to the block; and whatever the search caches
    and stores is again such a replay, under the hash of its own block.  The search takes no
    more steps than the number of the block (it can end in a panic, on a header that the
    chain does not have or on malformed extra data).  Assumed: a header that is read by its
    hash has that hash, the caches held replays before, and the branch of the block passes
    through the checkpoints that the engine trusts by their numbers alone. *)
Theorem snapshot_replays fuel number hash parents st :
  caches_ok st -> trusts number hash parents -> 0 <= number < Z.min (Z.of_nat fuel) two64 ->
  match snapshot ecrecover Hash evict chain c fuel number hash parents st with
  | Done (inl s, st') => replays hash s /\ s_Hash s = hash /\ caches_ok st'
  | Done (inr _, st') => caches_ok st'
  | GoPanic => True
  | NoFuel => False
  end.
Proof.
  intros Hok Htr Hn. unfold snapshot, mbind, M_bind, outcome_to_M, get, modify.
  pose proof (find_snapshot_ok number hash parents Htr fuel number hash parents [] st Hok (linked_nil _) (Forall_nil_2 _) ltac:(done) ltac:(unfold zlen; cbn; lia) Hn) as Hf.
  destruct (find_snapshot _ _ _ _ _ _ _ _ _) as [[[[s0 hs]|e] st1]| |]; try done. destruct Hf as [Hok1 (from & Hr & Hl)].
  pose proof (apply_returns s0 (rev hs)) as Hret.
  destruct (apply ecrecover Hash s0 (rev hs)) as [[s|e]| |] eqn:Ea; try done.
  pose proof (replays_more _ _ _ _ _ Hr Hl Ea) as Hs. pose proof (replays_hash _ _ Hs) as Eh. assert (Hown : replays (s_Hash s) s) by by rewrite Eh.
  set (st2 := mkCaches (evict _) _). assert (Hok2 : caches_ok st2).
  { split; [|apply Hok1]. intros h t Ht. eapply lookup_weaken in Ht; [|apply Hevict].
    apply lookup_insert_Some in Ht as [[<- <-]|[_ Hk]]; [done|by apply (proj1 Hok1)]. }
  destruct (_ && _); [|done]. destruct (store s (c_db st2)) as [err db] eqn:Est.
  pose proof (caches_ok_stored _ _ _ _ Hok2 Hown Est). by destruct err.
Qed.
End Snapshots.

(** ** Prepared headers *)

Section Prepared.
Context (ecrecover : header.Header -> Z + Error) (Hash : header.Header -> Z).
Context {D : Type} {DB : SnapshotDB D} (evict : gmap Z Snapshot -> gmap Z Snapshot) (chain : ChainReader) (c : APos).

Lemma signer_bytes_length s : exists n, zlen (signer_bytes s) = 20 * n.
Proof.
  unfold signer_bytes. exists (zlen (signers s)). induction (signers s) as [|a l IH]; [done|]. cbn [fmap list_fmap concat].
  rewrite zlen_app, IH. unfold zlen. rewrite Z_to_be_length. cbn [length]. lia.
Qed.

(** The parts of prepared extra data. *)
Lemma prepare_extra_parts number s extra : exists vanity,
  prepare_extra c number s extra = vanity ++ (if number mod Epoch (config c) =? 0 then signer_bytes s else []) ++ repeat 0 65 /\
  length vanity = 32%nat.
Proof.
  eexists. split; [done|]. rewrite length_take, length_app, repeat_length. unfold extraVanity, zlen. lia.
Qed.

Lemma sealed_extra vanity mid sighash (h : header.Header) :
  header.Extra h = vanity ++ mid ++ repeat 0 65 -> length sighash = 65%nat ->
  header.Extra (write_seal sighash h) = vanity ++ mid ++ sighash.
Proof.
  intros E Hs. cbn [write_seal header.Extra]. rewrite E. unfold extraSeal, zlen.
  rewrite (app_assoc vanity mid). set (l := vanity ++ mid). rewrite length_app, repeat_length.
  replace (Z.to_nat (Z.of_nat (length l + 65) - 65)) with (length l) by lia.
  rewrite (take_ge sighash) by (rewrite Hs; done). rewrite Hs.
  rewrite take_app_length, drop_ge, app_nil_r by (rewrite length_app, repeat_length; lia). subst l. by rewrite <- app_assoc.
Qed.

(** What [Prepare] makes of a header. *)
Lemma Prepare_inv fuel now pick h st h' st' :
  Prepare ecrecover Hash evict chain c fuel now pick h st = Done (inl h', st') ->
  exists snap difficulty time, Epoch (config c) <> 0 /\ calcDifficulty snap (signer c) = Done difficulty /\
    snapshot ecrecover Hash evict chain c fuel (u64 (u64 (header.Number h) - 1)) (header.ParentHash h) [] st = Done (inl snap, st') /\
    let number := u64 (header.Number h) in
    h' = set_prepared (choose_vote c pick number snap).1 (choose_vote c pick number snap).2 difficulty
           (prepare_extra c number snap (header.Extra h)) time h.
Proof.
  unfold Prepare. cbn zeta. unfold mbind at 1, M_bind at 1. destruct (snapshot _ _ _ _ _ _ _ _ _ _) as [[[snap|e] st1]| |]; [|done..].
  destruct (Z.eqb_spec (Epoch (config c)) 0) as [|HE]; [done|]. destruct (choose_vote _ _ _ _) as [coinbase nonce] eqn:Ev.
  unfold mbind, M_bind, outcome_to_M. destruct (calcDifficulty snap (signer c)) as [d| |] eqn:Ed; [|done..].
  destruct (GetHeader _ _ _) as [| |parent]; [done..|]. set (time := if _ <? now then _ else _). intros E.
  exists snap, d, time. assert (st1 = st') as -> by (injection E; congruence). split_and!; [done..|]. rewrite Ev. cbn [fst snd]. injection E. congruence.
Qed.

Lemma choose_vote_ok pick number snap : let '(coinbase, nonce) := choose_vote c pick number snap in
  (nonce = nonceAuthVote \/ nonce = nonceDropVote) /\ (number mod Epoch (config c) = 0 -> coinbase = 0 /\ nonce = nonceDropVote).
Proof.
  unfold choose_vote. destruct (Z.eqb_spec (number mod Epoch (config c)) 0); [by split; [right|]|].
  destruct (pick _) as [a|]; [|by split; [right|]]. split; [|done]. destruct (default _ _); auto.
Qed.

Lemma alone_ok now h nonce d (mid : bytes) :
  0 < header.Number h < two64 -> header.Time h <= now -> Epoch (config c) <> 0 -> header.GasLimit h <= MaxGasLimit ->
  header.Nonce h = nonce -> nonce = nonceAuthVote \/ nonce = nonceDropVote ->
  header.Difficulty h = Some d -> d = diffInTurn \/ d = diffNoTurn -> header.MixDigest h = 0 ->
  (header.Number h mod Epoch (config c) = 0 -> header.Coinbase h = 0 /\ nonce = nonceDropVote) ->
  zlen (header.Extra h) = 97 + zlen mid ->
  (if header.Number h mod Epoch (config c) =? 0 then zlen mid mod 20 = 0 else mid = []) ->
  verify_alone c now h = Done None.
Proof.
  intros Hn Ht HE Hg <- Hnonce Ed Hd Em Hcp Ex Hmid. unfold verify_alone. cbn zeta. pose proof (zlen_nonneg mid).
  rewrite (u64_small (header.Number h)), Ed, Em, Ex by lia. unfold extraVanity, extraSeal.
  replace (97 + zlen mid - 32 - 65) with (zlen mid) by lia. cbn [deref Z.eqb negb].
  assert (negb (header.Nonce h =? nonceAuthVote) && negb (header.Nonce h =? nonceDropVote) = false) as ->
    by (destruct Hnonce as [-> | ->]; done).
  assert (forall b, b && ((d =? 0) || negb (d =? diffInTurn) && negb (d =? diffNoTurn)) = false) as Hdd
    by (intros []; destruct Hd as [-> | ->]; done).
  destruct (Z.eqb_spec (header.Number h) 0), (Z.ltb_spec now (header.Time h)), (Z.eqb_spec (Epoch (config c)) 0),
    (Z.ltb_spec (97 + zlen mid) 32), (Z.ltb_spec (97 + zlen mid) (32 + 65)), (Z.ltb_spec 0 (header.Number h)),
    (Z.ltb_spec MaxGasLimit (header.GasLimit h)); try lia; try done.
  cbn [mbind outcome_bind]. rewrite Hdd.
  destruct (Z.eqb_spec (header.Number h mod Epoch (config c)) 0) as [Hz|Hz]; cbn [negb andb].
  - destruct (Hcp Hz) as [-> ->]. by rewrite Hmid.
  - by rewrite Hmid.
Qed.

(** C30: a header that [Prepare] made and that was sealed passes every check of
    [verifyHeader] that needs no other header, once its time has come; at a checkpoint
    it carries exactly the list of signers that [verifyCascadingFields] asks for; and
    its difficulty is the one that [verifySeal] asks for when the local signer signed
    it. *)
Theorem prepared_header_verifies fuel now now' pick h st h' st' sighash :
  Prepare ecrecover Hash evict chain c fuel now pick h st = Done (inl h', st') ->
  0 < header.Number h < two64 -> header.GasLimit h <= MaxGasLimit -> header.Time h' <= now' -> length sighash = 65%nat ->
  verify_alone c now' (write_seal sighash h') = Done None /\
  exists snap, snapshot ecrecover Hash evict chain c fuel (header.Number h - 1) (header.ParentHash h) [] st = Done (inl snap, st') /\
    right_difficulty snap (write_seal sighash h') (signer c) /\
    (header.Number h mod Epoch (config c) = 0 ->
     take (Z.to_nat (zlen (header.Extra (write_seal sighash h')) - extraSeal - extraVanity))
       (drop (Z.to_nat extraVanity) (header.Extra (write_seal sighash h'))) = signer_bytes snap).
Proof.
  intros E Hn Hg Ht Hs. apply Prepare_inv in E as (snap & d & time & HE & Ed & Esnap & ->).
  rewrite (u64_small (header.Number h)) in * by lia. rewrite u64_small in Esnap by lia.
  pose proof (choose_vote_ok pick (header.Number h) snap) as Hv.
  destruct (choose_vote c pick (header.Number h) snap) as [coinbase nonce]. destruct Hv as [Hnonce Hcp].
  destruct (prepare_extra_parts (header.Number h) snap (header.Extra h)) as (vanity & Ex & Hlen).
  set (mid := if _ =? 0 then _ else _) in Ex. set (h' := set_prepared _ _ _ _ _ _) in *.
  assert (Ex' : header.Extra (write_seal sighash h') = vanity ++ mid ++ sighash) by (by apply sealed_extra).
  assert (Hd : d = diffInTurn \/ d = diffNoTurn).
  { unfold calcDifficulty in Ed. destruct (inturn _ _ _) as [[]| |]; cbn in Ed; try done; injection Ed as <-; auto. }
  split; [|exists snap; split_and!; [done|by exists d|]].
  - apply (alone_ok now' _ nonce d mid); try done.
    + rewrite Ex', !zlen_app. unfold zlen. lia.
    + change (header.Number (write_seal sighash h')) with (header.Number h). subst mid. destruct (Z.eqb_spec (header.Number h mod Epoch (config c)) 0); [|done].
      destruct (signer_bytes_length snap) as [n ->]. by rewrite Z.mul_comm, Z_mod_mult.
  - intros Hz. subst mid. rewrite Hz, Z.eqb_refl in Ex'. rewrite Ex'. rewrite !zlen_app. unfold extraVanity, extraSeal.
    rewrite drop_app_length'; [|lia]. rewrite take_app_length'; [done|]. unfold zlen. lia.
Qed.
End Prepared.

(** * A voting chain: concrete runs

    Three signers vote a fourth one in, and the theorems about votes, seals, snapshots
    and prepared headers are applied to that chain. *)

Import apos.

(** A header carries its signer in its root; its hash is made from its number. *)
Definition vote_header (number signer coinbase nonce difficulty : Z) (extra : bytes) : header.Header :=
  header.mkHeader (99 + number) coinbase signer 0 0 [] (Some difficulty) number 30000000 0 (1000 + 10 * number) 0 nonce extra None [].

Definition root_signer (h : header.Header) : Z + Error := inl (header.Root h).
Definition number_hash (h : header.Header) : Z := 100 + header.Number h.

Definition vote_config : APosConfig := mkAPosConfig 1000 100 5.

Definition genesis_extra : bytes := repeat 0 32 ++ concat (Z_to_be 20 <$> [1; 2; 3]) ++ repeat 0 65.
Definition genesis : header.Header := vote_header 0 0 0 0 1 genesis_extra.
Definition block1 : header.Header := vote_header 1 2 9 nonceAuthVote 2 (repeat 0 97).
Definition block2 : header.Header := vote_header 2 3 9 nonceAuthVote 2 (repeat 0 97).

Definition at_genesis : Snapshot := newSnapshot vote_config 0 100 [1; 2; 3].

Definition replayed (s : Snapshot) (h : header.Header) : Snapshot :=
  match apply root_signer number_hash s [h] with Done (inl s') => s' | _ => s end.

Definition after1 : Snapshot := Eval vm_compute in replayed at_genesis block1.

Lemma after1_apply : apply root_signer number_hash at_genesis [block1] = Done (inl after1).
Proof. vm_compute. reflexivity. Qed.

Lemma after1_reachable : reachable root_signer number_hash after1.
Proof. apply (reachable_apply _ _ at_genesis [block1]); [by constructor|done|apply after1_apply]. Qed.

(** The tally after the first vote. *)
Lemma tally_is_recount_witness : s_Tally after1 !! 9 = Some (mkTally true 1) /\
  s_Tally after1 !! 9 = recount (s_Signers after1) (s_Votes after1) 9.
Proof. split; [reflexivity|]. apply (tally_is_recount root_signer number_hash after1). apply after1_reachable. Defined.

(** The second vote passes. *)
Lemma signers_change_by_majority_witness : isSigner (replayed after1 block2) 9 = true /\
  changed_by_majority root_signer after1 block2 (replayed after1 block2).
Proof.
  split; [vm_compute; reflexivity|].
  apply (signers_change_by_majority root_signer number_hash after1 block2 (replayed after1 block2)).
  - apply after1_reachable.
  - done.
  - vm_compute. reflexivity.
Defined.

Lemma half_can_sign_witness : exists able : gset Z, able ⊆ s_Signers after1 /\ (2 <= size able)%nat.
Proof.
  destruct (half_can_sign root_signer number_hash after1) as (able & H1 & H2 & _); [apply after1_reachable|done|done|].
  exists able. split; [done|]. change (Z.of_nat (size (s_Signers after1))) with 3 in H2. lia.
Defined.

(** The engine of the first signer. *)
Definition engine1 : APos := mkAPos vote_config 10 {[7 := true]} 1 false.

Lemma verifySeal_iff_apply_witness : verifySeal root_signer engine1 after1 block2 = Done None.
Proof.
  apply (verifySeal_iff_apply root_signer number_hash engine1 after1 block2);
    [apply after1_reachable|done|done|done|reflexivity|by left|].
  split; [by eexists; vm_compute|]. right. exists 3. split; [reflexivity|]. by exists 2.
Defined.

(** With five signers, the second block may not be signed by the signer of the first. *)
Definition at_genesis5 : Snapshot := newSnapshot vote_config 0 100 [1; 2; 3; 4; 5].
Definition after1_of5 : Snapshot := Eval vm_compute in replayed at_genesis5 block1.
Definition early_block : header.Header := vote_header 2 2 0 nonceDropVote 1 (repeat 0 97).

Lemma after1_of5_reachable : reachable root_signer number_hash after1_of5.
Proof. apply (reachable_apply _ _ at_genesis5 [block1]); [by constructor|done|vm_compute; reflexivity]. Qed.

Lemma early_seal_accepted_witness :
  verifySeal root_signer engine1 after1_of5 early_block = Done None /\
  apply root_signer number_hash after1_of5 [early_block] = Done (inr errRecentlySigned).
Proof.
  apply (early_seal_accepted root_signer number_hash engine1 after1_of5 early_block 2);
    [apply after1_of5_reachable|done|done|done|reflexivity|reflexivity|reflexivity| |].
  - vm_compute. reflexivity.
  - by exists 1.
Defined.

(** ** The engine on the chain *)

Definition vote_chain : ChainReader := mkChainReader AmazeChainConfig
  (fun hash number =>
     if (hash =? 101) && (number =? 1) then AHeader block1 else
     if (hash =? 102) && (number =? 2) then AHeader block2 else NilHeader)
  (fun number => if number =? 0 then AHeader genesis else if number =? 1 then AHeader block1 else
                 if number =? 2 then AHeader block2 else NilInterface).

(** Snapshots in a map. *)
Definition snapshot_map : SnapshotDB (gmap Z Snapshot) := {|
  loadSnapshot db hash := db !! hash;
  store s db := (None, <[s_Hash s := s]> db)
|}.
#[local] Existing Instance snapshot_map.

#[local] Instance snapshot_map_laws : SnapshotDBLaws snapshot_map.
Proof.
  split; cbn; [|done]. intros s db db' hash [= <-]. destruct (Z.eqb_spec hash (s_Hash s)) as [->|];
    [by rewrite lookup_insert_eq|by rewrite lookup_insert_ne].
Qed.

Definition keep (m : gmap Z Snapshot) : gmap Z Snapshot := m.
Definition cold : Caches (gmap Z Snapshot) := mkCaches ∅ ∅.

Definition found2 : Snapshot :=
  match snapshot root_signer number_hash keep vote_chain engine1 3 2 102 [] cold with Done (inl s, _) => s | _ => at_genesis end.

Lemma vote_chain_headers h : passable vote_chain [] h -> h = block1 \/ h = block2.
Proof.
  intros [?%elem_of_nil|(hash & number & E)]; [done|]. cbn in E. destruct ((hash =? 101) && (number =? 1)); [injection E as <-; by left|].
  destruct ((hash =? 102) && (number =? 2)); [injection E as <-; by right|done].
Qed.

Lemma vote_chain_trusts : trusts number_hash vote_chain engine1 2 102 [].
Proof.
  intros n from headers cp Hp Hl En Hn Ht Ecp. assert (Hz : n = 0).
  { unfold trusted_checkpoint in Ht. destruct (Z.eqb_spec n 0) as [|Hne]; [done|]. unfold zlen in En. assert (Hc : n = 1 \/ n = 2) by lia. by destruct Hc as [-> | ->]. }
  subst n. injection Ecp as <-. destruct headers as [|h1 [|h2 [|]]]; unfold zlen in En; cbn in En; try lia.
  inversion Hp as [|? ? H1 Hp']; subst. inversion Hp' as [|? ? H2 _]; subst. inversion Hl as [|? ? ? Hl1]; subst. inversion Hl1 as [|? ? ? Hl2 E2]; subst. inversion Hl2 as [E3|]; subst.
  apply vote_chain_headers in H1, H2. destruct H2 as [-> | ->]; [done|]. destruct H1 as [-> | ->]; [done|]. done.
Qed.

Lemma snapshot_replays_witness : isSigner found2 9 = true /\ replays root_signer number_hash vote_chain engine1 102 found2.
Proof.
  split; [vm_compute; reflexivity|].
  pose proof (snapshot_replays root_signer number_hash keep vote_chain engine1 ltac:(done)
    ltac:(intros hash number h; cbn; destruct (Z.eqb_spec hash 101), (number =? 1), (Z.eqb_spec hash 102), (number =? 2); cbn;
          (done || by intros [= <-]; subst))
    genesis eq_refl 3 2 102 [] cold ltac:(by split) vote_chain_trusts ltac:(done)) as H.
  assert (E : exists st, snapshot root_signer number_hash keep vote_chain engine1 3 2 102 [] cold = Done (inl found2, st))
    by (eexists; vm_compute; reflexivity).
  destruct E as [st E]. rewrite E in H. exact (proj1 H).
Defined.

(** The first signer prepares the third block, with a vote on one of its proposals. *)
Definition blank : header.Header := header.mkHeader 102 0 1 0 0 [] None 3 30000000 0 0 5 0 [1; 2] None [].

Definition prepared : header.Header :=
  match Prepare root_signer number_hash keep vote_chain engine1 3 0 head blank cold with Done (inl h, _) => h | _ => blank end.

Lemma prepared_header_verifies_witness :
  header.Coinbase prepared = 7 /\ verify_alone engine1 2000 (write_seal (repeat 1 65) prepared) = Done None.
Proof.
  split; [vm_compute; reflexivity|].
  assert (E : exists st, Prepare root_signer number_hash keep vote_chain engine1 3 0 head blank cold = Done (inl prepared, st)).
  { eexists. vm_compute. reflexivity. }
  destruct E as [st E].
  apply (prepared_header_verifies root_signer number_hash keep vote_chain engine1 3 0 2000 head blank cold prepared st (repeat 1 65) E).
  - vm_compute. split; reflexivity.
  - vm_compute. congruence.
  - vm_compute. congruence.
  - reflexivity.
Defined.
