(* ===== verification/Deposit.v ===== *)
(** * Deposits of verifiers ([contracts/deposit/contract.go], [modules/rawdb/accessors_deposit.go])

    The node follows the events of the deposit contract: a deposit signed with the BLS
    key of the depositor is recorded under the sender of the transaction, a withdrawal
    deletes the record.

    The transaction of an event is looked up in the tables of the chain
    ([modules/rawdb/accessors_indexes.go], [accessors_chain.go]).

    The BLS library, the ABI decoder, the protobuf decoder and the key-value store are
    parameters, and so is the hash of a transaction. *)

From Stdlib Require Ascii String.
From S2P Require Import Prelude Uint256 Params Common AccessList Wire Transaction StateTypes State Finalise PlainState AddressText.

(** The BLS library, as far as it is called. *)
Class BLS : Type := {
  bls_Signature : Type;
  bls_PublicKey : Type;
  SignatureFromBytes : bytes -> option bls_Signature;
  PublicKeyFromBytes : bytes -> option bls_PublicKey;
  Verify : bls_Signature -> bls_PublicKey -> bytes -> bool;
  Marshal : bls_PublicKey -> bytes
}.

(** A key that was read is marshalled to 48 bytes, which can be read again. *)
Class BLSLaws (B : BLS) : Prop := {
  Marshal_spec bs pk : PublicKeyFromBytes bs = Some pk -> length (Marshal pk) = 48%nat /\ PublicKeyFromBytes (Marshal pk) <> None
}.

Definition ascii_bytes (s : string) : bytes := (fun c => Z.of_N (Ascii.N_of_ascii c)) <$> String.list_ascii_of_string s.

(** ** The database *)

Section Database.
Context {U : Uint256} {B : BLS} {T : Type} {D : KV T}.

Definition PublicKeyLength : Z := 48.
Definition Deposit_table : string := "Deposit".

(** [PublicKey.SetBytes] on a zero key, its error ignored. *)
Definition PublicKey_SetBytes (b : bytes) : bytes :=
  if negb (zlen b =? PublicKeyLength) then repeat 0 (Z.to_nat PublicKeyLength) else b.

Definition PutDeposit (addr : Z) (pub : bytes) (amount : Z) (db : T) : option error * T :=
  Put Deposit_table (Z_to_be 20 addr) (pub ++ uint256.Bytes amount) db.

(** The public key and the amount, or any error. *)
Definition GetDeposit (db : T) (addr : Z) : option (bytes * Z) :=
  match GetOne db Deposit_table (Z_to_be 20 addr) with
  | (_, Some _) => None
  | (valBytes, None) =>
      let valBytes := default [] valBytes in
      if zlen valBytes <? PublicKeyLength then None else
      match PublicKeyFromBytes (take (Z.to_nat PublicKeyLength) valBytes) with
      | None => None
      | Some _ =>
          Some (PublicKey_SetBytes (take (Z.to_nat PublicKeyLength) valBytes),
                uint256.SetBytes (drop (Z.to_nat PublicKeyLength) valBytes))
      end
  end.

Definition DeleteDeposit (addr : Z) (db : T) : option error * T := Delete Deposit_table (Z_to_be 20 addr) db.
End Database.

(** ** The plan of a deposit *)

Module deposit.
Definition DayPerMonth : Z := 30.
Definition TenDeposit : Z := 10.
Definition OneHundredDeposit : Z := 100.
Definition FiveHundredDeposit : Z := 500.
Definition TenDepositMaxTaskPerEpoch : Z := 10.
Definition OneHundredDepositMaxTaskPerEpoch : Z := 100.
Definition FiveHundredDepositMaxTaskPerEpoch : Z := 500.
Definition AMT : Z := 1000000000000000000.
Definition TenDepositRewardPerMonth : Z := 1 * AMT.
Definition OneHundredDepositRewardPerMonth : Z := 2 * AMT.
Definition FiveHundredDepositRewardPerMonth : Z := 15 * AMT.

(** The pointers of [Info] that the rewards use. *)
Record Info : Type := mkInfo { RewardPerBlock : nat; MaxRewardPerEpoch : nat }.
End deposit.

(** The reward per block and the maximum per epoch. *)
Definition deposit_plan {U : Uint256} (depositAmount : Z) : outcome (Z * Z) :=
  let depositEther := uint256.Uint64 (uint256.Div depositAmount deposit.AMT) in
  if depositEther =? deposit.TenDeposit then
    let rewardPerBlock := uint256.Add (uint256.Div deposit.TenDepositRewardPerMonth
                                        (deposit.DayPerMonth * deposit.TenDepositMaxTaskPerEpoch)) 1 in
    Done (rewardPerBlock, uint256.Mul rewardPerBlock deposit.TenDepositMaxTaskPerEpoch)
  else if depositEther =? deposit.OneHundredDeposit then
    let rewardPerBlock := uint256.Add (uint256.Div deposit.OneHundredDepositRewardPerMonth
                                        (deposit.DayPerMonth * deposit.OneHundredDepositMaxTaskPerEpoch)) 1 in
    Done (rewardPerBlock, uint256.Mul rewardPerBlock deposit.OneHundredDepositMaxTaskPerEpoch)
  else if depositEther =? deposit.FiveHundredDeposit then
    let maxRewardPerEpoch := uint256.Div deposit.FiveHundredDepositRewardPerMonth deposit.DayPerMonth in
    Done (uint256.Div maxRewardPerEpoch deposit.FiveHundredDepositMaxTaskPerEpoch, maxRewardPerEpoch)
  else GoPanic.

(** ** The transaction with a hash *)

(** [kv.Getter.ForAmount]: the entries of a table from a key on, at most so many, up to the
    error that ended the walk. *)
Class KVRange (T : Type) : Type := {
  ForAmount : T -> string -> bytes -> Z -> list (bytes * bytes) * option error
}.

(** A write to a table leaves the entries of the others. *)
Class KVRangeLaws {T} (D : KV T) (G : KVRange T) : Prop := {
  Put_range db db' t k v t' from n : Put t k v db = (None, db') -> t' <> t -> ForAmount db' t' from n = ForAmount db t' from n;
  Delete_range db db' t k t' from n : Delete t k db = (None, db') -> t' <> t -> ForAmount db' t' from n = ForAmount db t' from n
}.

Module rawdb.
Definition TxLookup : string := "BlockTransactionLookup".
Definition HeaderCanonical : string := "CanonicalHeader".
Definition BlockBody : string := "BlockBody".
Definition BlockTx : string := "BlockTransaction".
Definition BlockVerify : string := "BlockVerify".
Definition BlockRewards : string := "BlockRewards".
Definition Senders : string := "TxSender".

Definition EncodeBlockNumber (number : Z) : bytes := Z_to_be 8 number.
Definition BlockBodyKey (number hash : Z) : bytes := Z_to_be 8 number ++ Z_to_be 32 hash.

(** [types.BytesToHash]: the last bytes of longer data. *)
Definition BytesToHash (b : bytes) : Z := be_to_Z (drop (length b - 32) b).

(** [new(types.Address).SetBytes] and [copy] of an address at an offset. *)
Definition address_at (data : bytes) (off : nat) : Z := be_to_Z (take 20 (drop off data)).

(** A body as it is read back. *)
Record Body : Type := mkBody {
  Txs : list (option TxData);
  Verifiers : list (bytes * Z);
  Rewards : list (Z * Z)
}.

Section Index.
Context {U : Uint256} {T : Type} {D : KV T} {G : KVRange T}.
Context (tx_Unmarshal : bytes -> pbTransaction + error) (Hash : TxData -> Z).

Definition ReadTxLookupEntry (db : T) (txnHash : Z) : option Z + error :=
  match GetOne db TxLookup (Z_to_be 32 txnHash) with
  | (_, Some err) => inr err
  | (data, None) =>
      let data := default [] data in
      if zlen data =? 0 then inl None else inl (Some (uint256.Uint64 (uint256.SetBytes data)))
  end.

Definition ReadCanonicalHash (db : T) (number : Z) : Z + error :=
  match GetOne db HeaderCanonical (EncodeBlockNumber number) with
  | (_, Some err) => inr err
  | (data, None) => let data := default [] data in inl (if zlen data =? 0 then 0 else BytesToHash data)
  end.

(** The first transaction and their number; an error of the store is only logged. *)
Definition ReadBody (db : T) (hash number : Z) : outcome (option (Z * Z)) :=
  let data := default [] (GetOne db BlockBody (BlockBodyKey number hash)).1 in
  if zlen data =? 0 then Done None else
  if zlen data <? 12 then GoPanic else
  let baseTxId := get64 data 0 in
  let txAmount := get32 data 8 in
  if txAmount <? 2 then GoPanic else Done (Some (u64 (baseTxId + 1), txAmount - 2)).

(** [Transaction.Unmarshal]; the inner data of an unknown type is nil. *)
Definition Unmarshal_tx (v : bytes) : outcome (option TxData + error) :=
  match tx_Unmarshal v with
  | inr err => Done (inr err)
  | inl pbTx => inner ← txDataFromProtoMessage pbTx; Done (inl inner)
  end.

(** The function that [ForAmount] is given; the slice has room for [amount] transactions. *)
Fixpoint walk_txs (entries : list (bytes * bytes)) (amount : Z) (txs : list (option TxData)) : outcome (list (option TxData) + error) :=
  match entries with
  | [] => Done (inl txs)
  | (_, v) :: entries =>
      tx ← Unmarshal_tx v;
      match tx with
      | inr err => Done (inr err)
      | inl tx => if zlen txs <? amount then walk_txs entries amount (txs ++ [tx]) else GoPanic
      end
  end.

Definition CanonicalTransactions (db : T) (baseTxId amount : Z) : outcome (list (option TxData) + error) :=
  if amount =? 0 then Done (inl []) else
  let '(entries, err) := ForAmount db BlockTx (Z_to_be 8 baseTxId) amount in
  txs ← walk_txs entries amount [];
  match txs, err with
  | inr err, _ => Done (inr err)
  | inl _, Some err => Done (inr err)
  | inl txs, None => Done (inl txs)
  end.

Definition ReadVerifies (db : T) (hash number : Z) : list (bytes * Z) + error :=
  match GetOne db BlockVerify (BlockBodyKey number hash) with
  | (_, Some err) => inr err
  | (data, None) =>
      let data := default [] data in
      inl ((fun i => (take 48 (drop (i * 68) data), address_at data (i * 68 + 48))) <$> seq 0 (length data / 68))
  end.

Definition ReadRewards (db : T) (hash number : Z) : list (Z * Z) + error :=
  match GetOne db BlockRewards (BlockBodyKey number hash) with
  | (_, Some err) => inr err
  | (data, None) =>
      let data := default [] data in
      inl ((fun i => (address_at data (i * 52), uint256.SetBytes (take 32 (drop (i * 52 + 20) data)))) <$> seq 0 (length data / 52))
  end.

Definition ReadSenders (db : T) (hash number : Z) : list Z + error :=
  match GetOne db Senders (BlockBodyKey number hash) with
  | (_, Some err) => inr err
  | (data, None) => let data := default [] data in inl ((fun i => address_at data (i * 20)) <$> seq 0 (length data / 20))
  end.

Definition ReadCanonicalBodyWithTransactions (db : T) (hash number : Z) : outcome (option Body) :=
  body ← ReadBody db hash number;
  match body with
  | None => Done None
  | Some (baseTxId, txAmount) =>
      txs ← CanonicalTransactions db baseTxId txAmount;
      match txs, ReadVerifies db hash number, ReadRewards db hash number with
      | inl txs, inl verifies, inl rewards => Done (Some (mkBody txs verifies rewards))
      | _, _, _ => Done None
      end
  end.

(** [Body.SendersToTxs]: the loop over the transactions is commented out. *)
Definition SendersToTxs (senders : list Z) (body : Body) : Body := body.

Fixpoint find_tx (hash : Z) (txs : list (option TxData)) : outcome (option TxData) :=
  match txs with
  | [] => Done None
  | tx :: txs => tx ← deref tx; if Hash tx =? hash then Done (Some tx) else find_tx hash txs
  end.

(** The transaction, if there is one, and the error. *)
Definition ReadTransactionByHash (db : T) (hash : Z) : outcome (option TxData * option error) :=
  match ReadTxLookupEntry db hash with
  | inr err => Done (None, Some err)
  | inl None => Done (None, None)
  | inl (Some blockNumber) =>
      match ReadCanonicalHash db blockNumber with
      | inr err => Done (None, Some err)
      | inl blockHash =>
          if blockHash =? 0 then Done (None, None) else
          body ← ReadCanonicalBodyWithTransactions db blockHash blockNumber;
          match body with
          | None => Done (None, None)
          | Some body =>
              match ReadSenders db blockHash blockNumber with
              | inr err => Done (None, Some err)
              | inl senders => tx ← find_tx hash (Txs (SendersToTxs senders body)); Done (tx, None)
              end
          end
      end
  end.

(** Two databases with the same entries in the tables of the chain. *)
Definition chain_tables : list string := [TxLookup; HeaderCanonical; BlockBody; BlockTx; BlockVerify; BlockRewards; Senders].
Definition same_chain (db db' : T) : Prop := forall t, t ∈ chain_tables ->
  (forall k, GetOne db' t k = GetOne db t k) /\ (forall from n, ForAmount db' t from n = ForAmount db t from n).

Lemma ReadTransactionByHash_same db db' hash : same_chain db db' -> ReadTransactionByHash db' hash = ReadTransactionByHash db hash.
Proof.
  intros H. assert (Hg : forall t, t ∈ chain_tables -> forall k, GetOne db' t k = GetOne db t k) by (intros t Ht; apply (H t Ht)).
  unfold ReadTransactionByHash, ReadTxLookupEntry, ReadCanonicalHash, ReadCanonicalBodyWithTransactions, ReadBody, CanonicalTransactions, ReadVerifies, ReadRewards, ReadSenders.
  rewrite (Hg TxLookup) by set_solver. destruct (GetOne db TxLookup _) as [d [e|]]; [done|]. destruct (_ =? 0); [done|].
  rewrite (Hg HeaderCanonical) by set_solver. destruct (GetOne db HeaderCanonical _) as [d' [e|]]; [done|].
  set (blockHash := if zlen _ =? 0 then 0 else _). clearbody blockHash. destruct (blockHash =? 0); [done|].
  rewrite (Hg BlockBody), (Hg Senders), (Hg BlockVerify), (Hg BlockRewards) by set_solver.
  destruct (zlen _ =? 0); [done|]. destruct (zlen _ <? 12); [done|]. destruct (get32 _ _ <? 2); [done|].
  cbn [mbind outcome_bind]. destruct (get32 _ _ - 2 =? 0); [done|]. by rewrite (proj2 (H BlockTx ltac:(set_solver))).
Qed.
End Index.
End rawdb.

(** ** The events *)

Section Events.
Context {U : Uint256} {C : Crypto} {B : BLS} {T : Type} {D : KV T} {G : KVRange T}.
Context (UnpackDepositLogData : bytes -> option (bytes * Z * bytes)).
Context (tx_Unmarshal : bytes -> pbTransaction + error) (Hash : TxData -> Z).
Context (DepositContract : bytes).
Notation ReadTransactionByHash := (rawdb.ReadTransactionByHash tx_Unmarshal Hash).

Definition depositEventSignature : Z := Keccak256 (ascii_bytes "DepositEvent(bytes,uint256,bytes)").
Definition withdrawnSignature : Z := Keccak256 (ascii_bytes "WithdrawnEvent(uint256)").

(** How the database transaction of a handler begins and ends. *)
Record DbRun : Type := mkDbRun { begins : bool; commits : bool }.

(** [BeginRw], and the deferred [Rollback] on the nil transaction of a failure. *)
Definition begin_rw (run : DbRun) : M T () := if begins run then mret () else panic.

(** The writes of a transaction reach the database if it is committed. *)
Definition commit_rw (run : DbRun) (rwTx : T) : M T () := if commits run then modify (fun _ => rwTx) else mret ().

Definition handleDepositEvent (run : DbRun) (txHash : Z) (data : bytes) : M T () :=
  match UnpackDepositLogData data with
  | None => mret ()
  | Some (pb, amount, sig) =>
      match SignatureFromBytes sig with
      | None => mret ()
      | Some signature =>
          match PublicKeyFromBytes pb with
          | None => mret ()
          | Some publicKey =>
              if Verify signature publicKey (uint256.Bytes amount) then
                _ ← begin_rw run;
                rwTx ← get;
                '(tx, _) ← outcome_to_M (ReadTransactionByHash rwTx txHash);
                match tx with
                | None => mret ()
                | Some tx =>
                    from ← outcome_to_M (deref (tx_From tx));
                    commit_rw run (PutDeposit from (PublicKey_SetBytes (Marshal publicKey)) amount rwTx).2
                end
              else mret ()
          end
      end
  end.

Definition handleWithdrawnEvent (run : DbRun) (txHash : Z) : M T () :=
  _ ← begin_rw run;
  rwTx ← get;
  r ← outcome_to_M (ReadTransactionByHash rwTx txHash);
  match r with
  | (_, Some _) => mret ()
  | (None, None) => mret ()
  | (Some tx, None) =>
      from ← outcome_to_M (deref (tx_From tx));
      match DeleteDeposit from rwTx with
      | (Some _, _) => mret ()
      | (None, rwTx) => commit_rw run rwTx
      end
  end.

(** The body of the loop over the logs of an event; a log without topics panics. *)
Definition handle_log (run : DbRun) (l : Log) : M T () :=
  if bool_decide (Address_Hex (log_Address l) = DepositContract) then
    match log_Topics l with
    | [] => panic
    | topic :: _ =>
        if topic =? depositEventSignature then handleDepositEvent run (log_TxHash l) (log_Data l) else
        if topic =? withdrawnSignature then handleWithdrawnEvent run (log_TxHash l) else mret ()
    end
  else mret ().

Fixpoint handle_logs (logs : list (DbRun * Log)) : M T () :=
  match logs with
  | [] => mret ()
  | (run, l) :: logs => _ ← handle_log run l; handle_logs logs
  end.
End Events.

(** * The record of deposits

    The handlers of the deposit contract's events keep, in the database, the ledger that
    the events describe: the last accepted deposit of each sender that was not withdrawn
    since. *)

Notation address a := (0 <= a < two160).

Section Ledger.
Context {U : Uint256} {UL : Uint256Laws U} {C : Crypto} {B : BLS} {BL : BLSLaws B} {T : Type} {D : KV T} {DL : KVLaws D} {G : KVRange T} {GL : KVRangeLaws D G}.
Context (UnpackDepositLogData : bytes -> option (bytes * Z * bytes)) (DepositContract : bytes).

(** A deposit that is put is read back, and no other one changes. *)
Lemma GetDeposit_put (db db' : T) a b pb pk amount :
  address a -> address b -> word amount -> PublicKeyFromBytes pb = Some pk ->
  PutDeposit a (PublicKey_SetBytes (Marshal pk)) amount db = (None, db') ->
  GetDeposit db' b = if b =? a then Some (Marshal pk, amount) else GetDeposit db b.
Proof.
  intros Ha Hb Hw Hpk Hput. destruct (Marshal_spec _ _ Hpk) as [Hlen Hread].
  assert (HS : PublicKey_SetBytes (Marshal pk) = Marshal pk) by (unfold PublicKey_SetBytes, zlen; by rewrite Hlen).
  unfold PutDeposit in Hput. rewrite HS in Hput. unfold GetDeposit. rewrite (Put_spec _ _ _ _ _ _ _ Hput).
  destruct (Z.eqb_spec b a) as [->|Hne].
  - rewrite decide_True by done. cbv beta iota zeta. cbn [from_option]. unfold Datatypes.id, zlen at 1. rewrite length_app, Hlen.
    destruct (Z.ltb_spec (Z.of_nat (48 + length (uint256.Bytes amount))) PublicKeyLength); [unfold PublicKeyLength in *; lia|].
    change (Z.to_nat PublicKeyLength) with 48%nat. rewrite (take_app_length' _ _ 48), (drop_app_length' _ _ 48) by done.
    destruct (PublicKeyFromBytes (Marshal pk)); [|done]. by rewrite HS, uint256.SetBytes_Bytes.
  - rewrite decide_False; [done|]. intros E%(f_equal snd). apply Hne. by apply (Z_to_be_inj 20).
Qed.

Lemma GetDeposit_delete (db db' : T) a b : address a -> address b -> DeleteDeposit a db = (None, db') ->
  GetDeposit db' b = if b =? a then None else GetDeposit db b.
Proof.
  intros Ha Hb Hdel. unfold DeleteDeposit in Hdel. unfold GetDeposit. rewrite (Delete_spec _ _ _ _ _ _ Hdel).
  destruct (Z.eqb_spec b a) as [->|Hne]; [by rewrite decide_True|].
  rewrite decide_False; [done|]. intros E%(f_equal snd). apply Hne. by apply (Z_to_be_inj 20).
Qed.

(** ** The ledger *)

Notation ledger := (gmap Z (bytes * Z)).

(** The key and the amount of deposit data whose signature is right. *)
Definition accepted (data : bytes) : option (bytes * Z) :=
  '(pb, amount, sig) ← UnpackDepositLogData data;
  signature ← SignatureFromBytes sig;
  publicKey ← PublicKeyFromBytes pb;
  if Verify signature publicKey (uint256.Bytes amount) then Some (Marshal publicKey, amount) else None.

(** What a log means for the ledger; [sender] is the index of transactions. *)
Definition ledger_step (sender : Z -> option Z) (l : Log) (led : ledger) : ledger :=
  if bool_decide (Address_Hex (log_Address l) = DepositContract) then
    match head (log_Topics l), sender (log_TxHash l) with
    | Some topic, Some from =>
        if topic =? depositEventSignature then
          match accepted (log_Data l) with Some d => <[from := d]> led | None => led end
        else if topic =? withdrawnSignature then delete from led else led
    | _, _ => led
    end
  else led.

Definition records (db : T) (led : ledger) : Prop := forall a, address a -> GetDeposit db a = led !! a.

Context (tx_Unmarshal : bytes -> pbTransaction + error) (Hash : TxData -> Z).
Notation ReadTransactionByHash := (rawdb.ReadTransactionByHash tx_Unmarshal Hash).

(** The sender of the transaction with a hash, as the database knows it. *)
Definition sender_in (db : T) (h : Z) : option Z :=
  match ReadTransactionByHash db h with Done (Some tx, None) => tx_From tx | _ => None end.

(** The lookup of a hash returns no error, and a transaction that it finds has a sender. *)
Definition looked_up (db : T) (h : Z) : Prop := exists otx, ReadTransactionByHash db h = Done (otx, None) /\
  forall tx, otx = Some tx -> exists a, tx_From tx = Some a /\ address a.

(** Writes of deposits do not fail. *)
Definition writes_deposits : Prop := forall (db : T) k v,
  (Put Deposit_table k v db).1 = None /\ (Delete Deposit_table k db).1 = None.

Definition log_ok (l : Log) : Prop := log_Topics l <> [] /\
  forall pb amount sig, UnpackDepositLogData (log_Data l) = Some (pb, amount, sig) -> word amount.

Notation handle_log := (handle_log UnpackDepositLogData tx_Unmarshal Hash DepositContract).
Notation handle_logs := (handle_logs UnpackDepositLogData tx_Unmarshal Hash DepositContract).

(** Deposits are in a table of their own. *)
Lemma other_tables t : t ∈ rawdb.chain_tables -> t <> Deposit_table.
Proof. intros Ht. repeat (apply elem_of_cons in Ht as [->|Ht]; [done|]). by apply elem_of_nil in Ht. Qed.

Lemma put_same_chain k v (db db' : T) : Put Deposit_table k v db = (None, db') -> rawdb.same_chain db db'.
Proof.
  intros E t Ht%other_tables. split; [|intros; by eapply Put_range]. intros k'. rewrite (Put_spec _ _ _ _ _ _ _ E).
  by rewrite decide_False by (by intros [= ? _]).
Qed.

Lemma delete_same_chain k (db db' : T) : Delete Deposit_table k db = (None, db') -> rawdb.same_chain db db'.
Proof.
  intros E t Ht%other_tables. split; [|intros; by eapply Delete_range]. intros k'. rewrite (Delete_spec _ _ _ _ _ _ E).
  by rewrite decide_False by (by intros [= ? _]).
Qed.

Lemma same_chain_refl (db : T) : rawdb.same_chain db db.
Proof. by split. Qed.

Lemma deposit_step h data (db : T) led : looked_up db h -> writes_deposits -> records db led ->
  (forall pb amount sig, UnpackDepositLogData data = Some (pb, amount, sig) -> word amount) ->
  exists db', handleDepositEvent UnpackDepositLogData tx_Unmarshal Hash (mkDbRun true true) h data db = Done ((), db') /\ rawdb.same_chain db db' /\
    records db' match accepted data, sender_in db h with Some d, Some from => <[from := d]> led | _, _ => led end.
Proof.
  pose proof (same_chain_refl db) as Hsc. intros (otx & Ei & Hs) Hw Hr Ha. unfold handleDepositEvent, accepted, sender_in. destruct (UnpackDepositLogData data) as [[[pb amount] sig]|]; [|by exists db].
  cbn [mbind option_bind]. destruct (SignatureFromBytes sig) as [signature|]; [|by exists db]. cbn [mbind option_bind].
  destruct (PublicKeyFromBytes pb) as [pk|] eqn:Hpk; [|by exists db]. cbn [mbind option_bind].
  destruct (Verify _ _ _); [|by exists db]. specialize (Ha _ _ _ eq_refl).
  unfold begin_rw, get, mbind, M_bind, outcome_to_M. cbn [begins mret M_ret]. rewrite Ei.
  destruct otx as [tx|]; [|by exists db]. destruct (Hs _ eq_refl) as (from & -> & Hf). cbn. unfold commit_rw, modify. cbn.
  destruct (PutDeposit from (PublicKey_SetBytes (Marshal pk)) amount db) as [err db'] eqn:Hput.
  assert (err = None) as ->. { unfold PutDeposit in Hput. by rewrite <- (proj1 (Hw db (Z_to_be 20 from) (PublicKey_SetBytes (Marshal pk) ++ uint256.Bytes amount))), Hput. }
  exists db'. split_and!; [done|by eapply put_same_chain|]. intros b Hb. rewrite (GetDeposit_put _ _ _ _ _ _ _ Hf Hb Ha Hpk Hput).
  destruct (Z.eqb_spec b from) as [->|]; [by rewrite lookup_insert_eq|rewrite lookup_insert_ne by done; by apply Hr].
Qed.

Lemma withdraw_step h (db : T) led : looked_up db h -> writes_deposits -> records db led ->
  exists db', handleWithdrawnEvent tx_Unmarshal Hash (mkDbRun true true) h db = Done ((), db') /\ rawdb.same_chain db db' /\
    records db' match sender_in db h with Some from => delete from led | _ => led end.
Proof.
  pose proof (same_chain_refl db) as Hsc. intros (otx & Ei & Hs) Hw Hr. unfold handleWithdrawnEvent, sender_in, begin_rw, get, mbind, M_bind, outcome_to_M. cbn [begins mret M_ret].
  rewrite Ei. destruct otx as [tx|]; [|by exists db]. destruct (Hs _ eq_refl) as (from & -> & Hf). cbn.
  destruct (DeleteDeposit from db) as [err db'] eqn:Hdel.
  assert (err = None) as ->. { unfold DeleteDeposit in Hdel. by rewrite <- (proj2 (Hw db (Z_to_be 20 from) [])), Hdel. }
  exists db'. split_and!; [done|by eapply delete_same_chain|]. intros b Hb. rewrite (GetDeposit_delete _ _ _ _ Hf Hb Hdel).
  destruct (Z.eqb_spec b from) as [->|]; [by rewrite lookup_delete_eq|rewrite lookup_delete_ne by done; by apply Hr].
Qed.

Lemma log_step l (db : T) led : looked_up db (log_TxHash l) -> writes_deposits -> records db led -> log_ok l ->
  exists db', handle_log (mkDbRun true true) l db = Done ((), db') /\ rawdb.same_chain db db' /\ records db' (ledger_step (sender_in db) l led).
Proof.
  pose proof (same_chain_refl db) as Hsc. intros Hi Hw Hr [Ht Hl]. unfold Deposit.handle_log, ledger_step. destruct (bool_decide _); [|by exists db].
  destruct (log_Topics l) as [|topic topics]; [done|]. cbn [head]. destruct (topic =? depositEventSignature).
  { destruct (deposit_step (log_TxHash l) (log_Data l) db led Hi Hw Hr Hl) as (db' & E & Hs & H). exists db'. split_and!; [done..|].
    by destruct (sender_in _ _), (accepted _). }
  destruct (topic =? withdrawnSignature); [|exists db; split_and!; [done..|]; by destruct (sender_in _ _)].
  destruct (withdraw_step (log_TxHash l) db led Hi Hw Hr) as (db' & E & Hs & H). exists db'. split_and!; [done..|]. by destruct (sender_in _ _).
Qed.

(** C26: following the events of the deposit contract, whatever they are, the database
    records the ledger that the events describe: a deposit whose signature is right
    replaces the record of the sender of its transaction, a withdrawal deletes it, and
    everything else leaves the records as they are.  The sender is the one that the tables
    of the chain name for the hash of the transaction before the events are followed; an
    event whose transaction they do not have changes nothing.  Assumed: the lookups of the
    transactions return without an error, with a sender; transactions of the database begin
    and commit, and writes of deposits succeed; an event has a topic. *)
Theorem handle_logs_refines logs (db : T) led : Forall (fun l => looked_up db (log_TxHash l)) logs -> writes_deposits -> records db led -> Forall log_ok logs ->
  exists db', handle_logs ((fun l => (mkDbRun true true, l)) <$> logs) db = Done ((), db') /\
    records db' (foldl (fun led l => ledger_step (sender_in db) l led) led logs).
Proof.
  intros Hi Hw Hr Hl. cut (forall db1, rawdb.same_chain db db1 -> forall led, records db1 led ->
    exists db', handle_logs ((fun l => (mkDbRun true true, l)) <$> logs) db1 = Done ((), db') /\ records db' (foldl (fun led l => ledger_step (sender_in db) l led) led logs)).
  { intros H. by apply H; [apply same_chain_refl|]. }
  clear led Hr. induction Hl as [|l logs Hl _ IH]; intros db1 Hs led Hr; [by exists db1|]. inversion Hi as [|? ? Hil Hi']; subst.
  assert (E : forall h, ReadTransactionByHash db1 h = ReadTransactionByHash db h) by (intros h; by apply rawdb.ReadTransactionByHash_same).
  destruct (log_step l db1 led) as (db2 & E1 & Hs1 & H1); [unfold looked_up; rewrite E; exact Hil|done|done|done|].
  assert (Es : ledger_step (sender_in db1) l led = ledger_step (sender_in db) l led) by (unfold ledger_step, sender_in; by rewrite E). rewrite Es in H1.
  destruct (IH Hi' db2) with (led := ledger_step (sender_in db) l led) as (db3 & E3 & H3); [|done|].
  { intros t Ht. destruct (Hs t Ht) as [A1 A2], (Hs1 t Ht) as [B1 B2]. split; intros; [by rewrite B1|by rewrite B2]. }
  exists db3. cbn [fmap list_fmap Deposit.handle_logs foldl]. unfold mbind, M_bind. by rewrite E1.
Qed.
End Ledger.
