(* ===== verification/Rewards.v ===== *)
(** * Rewards for verifiers ([internal/consensus/apos/reward.go])

    At the end of an epoch the verifiers of its blocks are paid, out of their deposits'
    plans ([contracts/deposit/contract.go]); amounts below a limit are carried over in
    the database.

    The amounts are pointers that the code mutates and shares, so they live in a store
    of cells.  The chain data is read through the record [Blocks]; JSON and the text of
    a 256-bit number are parameters. *)

From stdpp Require Import sorting.
From S2P Require Import Prelude Uint256 Params Common AccessList Wire StateTypes State Finalise PlainState AddressText Deposit.
From S2P Require Import Config Header Apos.

(** ** The store *)

Record Memory (T : Type) : Type := mkMemory { cells : list Z; tx : T }.
Arguments mkMemory {T}.
Arguments cells {T}.
Arguments tx {T}.

Inductive RewardError : Type :=
| DbError (err : error) | HeaderMissing | BlockMissing.

(** What is read of the chain: the canonical hash, whether there is a header, its hash
    and number, and the addresses of the verifiers of the block. *)
Record Blocks : Type := mkBlocks {
  ReadCanonicalHash : Z -> Z * option error;
  ReadHeader : Z -> Z -> option (Z * Z);
  ReadBlock : Z -> Z -> option (list Z)
}.

Section Rewards.
Context {U : Uint256} {C : Crypto} {B : BLS} {T : Type} {D : KV T}.
Context (blocks : Blocks) (json_Marshal : gmap bytes Z -> bytes) (json_Unmarshal : bytes -> gmap bytes Z + error)
  (uint256_String : Z -> bytes).
Context (iter : forall A : Type, list A -> list A).
Notation MR := (M (Memory T)).

Definition alloc (v : Z) : MR nat := fun m => Done (length (cells m), mkMemory (cells m ++ [v]) (tx m)).
Definition load (p : nat) : MR Z := m ← get; must (cells m !! p).
Definition assign (p : nat) (v : Z) : MR () := modify (fun m => mkMemory (<[p := v]> (cells m)) (tx m)).
Definition on_tx {A} (f : T -> A * T) : MR A := fun m => let '(a, t) := f (tx m) in Done (a, mkMemory (cells m) t).

Definition GetDepositInfo (addr : Z) : MR (option deposit.Info) :=
  m ← get;
  match GetDeposit (tx m) addr with
  | None => mret None
  | Some (_, depositAmount) =>
      '(rewardPerBlock, maxRewardPerEpoch) ← outcome_to_M (deposit_plan depositAmount);
      per ← alloc rewardPerBlock;
      max ← alloc maxRewardPerEpoch;
      mret (Some (deposit.mkInfo per max))
  end.

(** [math.Min256] on pointers. *)
Definition Min256_ptr (x y : nat) : MR nat :=
  vx ← load x; vy ← load y; mret (if uint256.Gt vx vy then y else x).

(** The maps [rewardMap] and [depositeMap]. *)
Record Maps : Type := mkMaps { rewardMap : gmap bytes nat; depositeMap : gmap Z deposit.Info }.

(** The body of the loop over the verifiers of a block. *)
Definition add_task (maps : Maps) (verifier : Z) : MR Maps :=
  addrReward ← match rewardMap maps !! Address_Hex verifier with Some p => mret p | None => alloc 0 end;
  depositInfo ← match depositeMap maps !! verifier with Some i => mret (Some i) | None => GetDepositInfo verifier end;
  match depositInfo with
  | None => mret maps
  | Some info =>
      v ← load addrReward;
      per ← load (deposit.RewardPerBlock info);
      _ ← assign addrReward (uint256.Add v per);
      p ← Min256_ptr addrReward (deposit.MaxRewardPerEpoch info);
      mret (mkMaps (<[Address_Hex verifier := p]> (rewardMap maps)) (<[verifier := info]> (depositeMap maps)))
  end.

Fixpoint add_tasks (maps : Maps) (verifiers : list Z) : MR Maps :=
  match verifiers with
  | [] => mret maps
  | v :: verifiers => maps ← add_task maps v; add_tasks maps verifiers
  end.

(** The loop over the blocks of the epoch, from the last one down; [None] is the nil map. *)
Fixpoint scan (fuel : nat) (currentNr endNumber : Z) (maps : Maps) : MR (option Maps + RewardError) :=
  match fuel with
  | O => fun _ => NoFuel
  | S fuel =>
      if uint256.Lt currentNr endNumber then mret (inl (Some maps)) else
      match ReadCanonicalHash blocks (uint256.Uint64 currentNr) with
      | (_, Some err) => mret (inr (DbError err))
      | (hash, None) =>
          if hash =? 0 then mret (inl None) else
          match ReadHeader blocks hash (uint256.Uint64 currentNr) with
          | None => mret (inr HeaderMissing)
          | Some (hash, number) =>
              match ReadBlock blocks hash number with
              | None => mret (inr BlockMissing)
              | Some verifiers =>
                  maps ← add_tasks maps verifiers;
                  scan fuel (uint256.Sub currentNr 1) endNumber maps
              end
          end
      end
  end.

(** ** The database of unpaid rewards *)

(** The strings account: and epoch: as bytes. *)
Definition account_key (account : Z) : bytes := [97; 99; 99; 111; 117; 110; 116; 58] ++ Address_Hex account.
Definition epoch_key (epoch : Z) : bytes := [101; 112; 111; 99; 104; 58] ++ uint256_String epoch.
Definition Reward_table : string := "Reward".

Definition PutEpochReward (key : bytes) (val : gmap bytes Z) (db : T) : option error * T :=
  Put Reward_table key (json_Marshal val) db.

Definition PutAccountReward (key : bytes) (val : Z) (db : T) : option error * T :=
  Put Reward_table key (uint256.Bytes val) db.

Definition GetAccountReward (db : T) (key : bytes) : Z + error :=
  match GetOne db Reward_table key with
  | (_, Some err) => inr err
  | (v, None) => inl (uint256.SetBytes (default [] v))
  end.

(** [None] is the nil map of an epoch that was not recorded. *)
Definition GetEpochReward (db : T) (epoch : Z) : option (gmap bytes Z) + error :=
  match GetOne db Reward_table (epoch_key epoch) with
  | (_, Some err) => inr err
  | (v, None) => if zlen (default [] v) =? 0 then inl None else
                 match json_Unmarshal (default [] v) with inl m => inl (Some m) | inr err => inr err end
  end.

Definition getAccountRewardUnpaid (account : Z) : MR (Z + error) := fun m =>
  Done (GetAccountReward (tx m) (account_key account), m).

Definition setAccountRewardUnpaid (account val : Z) : MR (option error) :=
  on_tx (PutAccountReward (account_key account) val).

Definition setRewardByEpochPaid (epoch : Z) (paid : gmap bytes Z) : MR (option error) :=
  if decide (paid = ∅) then mret None else on_tx (PutEpochReward (epoch_key epoch) paid).

(** The body of the loop that pays; the value that replaces the entry of the map is a
    cell of its own, never changed again. *)
Definition pay_account (rewardLimit : Z) (setRewards : bool) (rk : bytes) (reward : nat) : MR (Z + error) :=
  amount ← load reward;
  let addr := HexToAddress rk in
  lastSedi ← getAccountRewardUnpaid addr;
  match lastSedi with
  | inr err => mret (inr err)
  | inl lastSedi =>
      let amount := uint256.Add amount lastSedi in
      let '(payAmount, unpayAmount) := if uint256.Lt amount rewardLimit then (0, amount) else (amount, 0) in
      err ← (if setRewards then setAccountRewardUnpaid addr unpayAmount else mret None);
      match err with Some err => mret (inr err) | None => mret (inl payAmount) end
  end.

Fixpoint pay_all (rewardLimit : Z) (setRewards : bool) (entries : list (bytes * nat)) (paid : gmap bytes Z)
    : MR (gmap bytes Z + error) :=
  match entries with
  | [] => mret (inl paid)
  | (rk, reward) :: entries =>
      r ← pay_account rewardLimit setRewards rk reward;
      match r with
      | inr err => mret (inr err)
      | inl payAmount => pay_all rewardLimit setRewards entries (<[rk := payAmount]> paid)
      end
  end.

Definition number2epoch (rewardEpoch number : Z) : Z := uint256.Div number rewardEpoch.

Definition buildRewards (fuel : nat) (config : apos.APosConfig) (number : Z) (setRewards : bool)
    : MR (gmap bytes Z + RewardError) :=
  let epoch := number2epoch (apos.RewardEpoch config) number in
  let endNumber := uint256.Sub number (apos.RewardEpoch config) in
  found ← scan fuel (uint256.Sub number 1) endNumber (mkMaps ∅ ∅);
  match found with
  | inr err => mret (inr err)
  | inl None => mret (inl ∅)
  | inl (Some maps) =>
      r ← pay_all (apos.RewardLimit config) setRewards (iter _ (map_to_list (rewardMap maps))) ∅;
      match r with
      | inr err => mret (inr (DbError err))
      | inl paid =>
          err ← (if setRewards then setRewardByEpochPaid epoch paid else mret None);
          match err with Some err => mret (inr (DbError err)) | None => mret (inl paid) end
      end
  end.

(** [strings.Compare(a, b) >= 0] *)
Fixpoint text_ge (a b : bytes) : bool :=
  match a, b with
  | _, [] => true
  | [], _ :: _ => false
  | x :: a, y :: b => (y <? x) || ((x =? y) && text_ge a b)
  end.

(** The order of [AccountRewards]: descending text of the accounts. *)
Definition by_account (a b : bytes * Z) : Prop := text_ge a.1 b.1 = true.
#[local] Instance by_account_dec a b : Decision (by_account a b) := decide (text_ge a.1 b.1 = true).

Definition SetRewards (fuel : nat) (config : apos.APosConfig) (number : Z) (setRewards : bool)
    : MR (list (bytes * Z) + RewardError) :=
  r ← buildRewards fuel config number setRewards;
  match r with
  | inr err => mret (inr err)
  | inl paid => mret (inl (merge_sort by_account (iter _ (map_to_list paid))))
  end.

(** ** Queries *)

(** The rewards of the epoch that ended at a block, by address. *)
Definition GetBlockRewards (db : T) (rewardEpoch number : Z) : gmap Z Z + error :=
  match GetEpochReward db (number2epoch rewardEpoch number) with
  | inr err => inr err
  | inl reward => inl (foldl (fun resp '(addr, value) => <[HexToAddress addr := value]> resp) ∅
                         (iter _ (map_to_list (default ∅ reward))))
  end.

Definition epoch2number (rewardEpoch epoch : Z) : Z := uint256.Mul epoch rewardEpoch.

Inductive QueryError : Type := FromAfterTo | QueryFailed (err : RewardError).

(** The loop over the epochs, from the last one down; [timestamp] reads the time of a
    stored header. *)
Fixpoint collect_rewards (timestamp : Z -> Z -> option Z) (fuel : nat) (db : T) (rewardEpoch addr i startEpoch : Z)
    : outcome (list (Z * Z * Z) + RewardError) :=
  match fuel with
  | O => NoFuel
  | S fuel =>
      if negb (uint256.Gt i startEpoch) then Done (inl []) else
      match GetEpochReward db i with
      | inr err => Done (inr (DbError err))
      | inl reward =>
          let next := collect_rewards timestamp fuel db rewardEpoch addr (uint256.Sub i 1) startEpoch in
          match default ∅ reward !! Address_Hex addr with
          | None => next
          | Some entry =>
              if negb (uint256.Gt entry 0) then next else
              let blockNumber := epoch2number rewardEpoch i in
              match ReadCanonicalHash blocks (uint256.Uint64 blockNumber) with
              | (_, Some err) => Done (inr (DbError err))
              | (hash, None) =>
                  if hash =? 0 then next else
                  match timestamp hash (uint256.Uint64 blockNumber) with
                  | None => Done (inr HeaderMissing)
                  | Some time =>
                      rest ← next;
                      Done match rest with inl rest => inl ((entry, time, blockNumber) :: rest) | inr err => inr err end
                  end
              end
          end
      end
  end.

(** Value, timestamp and block number of each reward, and the total; [sort] is
    [sort.Sort] by the timestamps. *)
Definition GetRewards (sort : list (Z * Z * Z) -> list (Z * Z * Z)) (timestamp : Z -> Z -> option Z) (fuel : nat)
    (db : T) (rewardEpoch addr from to : Z) : outcome ((list (Z * Z * Z) * Z) + QueryError) :=
  if uint256.Uint64 to <? uint256.Uint64 from then Done (inr FromAfterTo) else
  let endEpoch := number2epoch rewardEpoch to in
  let startEpoch := number2epoch rewardEpoch from in
  data ← collect_rewards timestamp fuel db rewardEpoch addr endEpoch startEpoch;
  Done match data with
       | inr err => inr (QueryFailed err)
       | inl data => inl (sort data, foldl (fun total '(entry, _, _) => uint256.Add total entry) 0 data)
       end.

(** ** [APos.Rewards] *)

Section Engine.
Context {K : AccountCodec} (R : StateReader).
Notation MS := (M (IntraBlockState * Memory T)).

Definition pay_reward (detail : bytes * Z) : M IntraBlockState (list (Z * Z)) :=
  if uint256.Gt detail.2 0 then
    let addr := HexToAddress detail.1 in
    exist ← Exist R addr;
    _ ← (if negb exist then CreateAccount R addr false else mret ());
    _ ← AddBalance R addr detail.2;
    mret [(addr, detail.2)]
  else mret [].

Fixpoint pay_rewards (details : list (bytes * Z)) : M IntraBlockState (list (Z * Z)) :=
  match details with
  | [] => mret []
  | d :: details => r ← pay_reward d; rs ← pay_rewards details; mret (r ++ rs)
  end.

(** The rewards of a block: their addresses and amounts.  [beijing] is the block of the
    Beijing fork, a nil pointer when it is not scheduled. *)
Definition APos_Rewards (fuel : nat) (config : apos.APosConfig) (beijing : option Z) (number : Z) (setRewards : bool)
    : MS (list (Z * Z) + RewardError) :=
  beijing ← outcome_to_M (deref beijing);
  if uint256.Mod (uint256.Sub number beijing) (apos.RewardEpoch config) =? 0 then
    r ← zoom snd (fun m s => (s.1, m)) (SetRewards fuel config number setRewards);
    match r with
    | inr err => mret (inr err)
    | inl details => rs ← zoom fst (fun s p => (s, p.2)) (pay_rewards details); mret (inl rs)
    end
  else mret (inl []).
End Engine.
End Rewards.
