(* ===== verification/RewardsTheorems.v ===== *)
(** * What verifiers are paid

    The rewards of an epoch as a function of the tasks of each verifier, and the
    settlement with what was carried over. *)

From stdpp Require Import sorting.
From S2P Require Import Prelude Uint256 Params Common AccessList Wire StateTypes State Finalise PlainState AddressText Deposit.
From S2P Require Import Config Header Apos Rewards.

#[local] Opaque Address_Hex.

Notation address a := (0 <= a < two160).

(** How often an address occurs. *)
Definition tasks_of (a : Z) (verifiers : list Z) : Z := zlen (filter (fun v => v = a) verifiers).

Lemma tasks_of_cons a v l : tasks_of a (v :: l) = (if v =? a then 1 else 0) + tasks_of a l.
Proof.
  unfold tasks_of. rewrite list.filter_cons. destruct (Z.eqb_spec v a); rewrite ?decide_True, ?decide_False by done; [|done].
  unfold zlen. cbn. lia.
Qed.

Lemma tasks_of_app a l1 l2 : tasks_of a (l1 ++ l2) = tasks_of a l1 + tasks_of a l2.
Proof. unfold tasks_of. by rewrite list.filter_app, zlen_app. Qed.

Lemma tasks_of_bounds a l : 0 <= tasks_of a l <= zlen l.
Proof. unfold tasks_of. split; [apply zlen_nonneg|]. unfold zlen. pose proof (length_filter (fun v => v = a) l). lia. Qed.

(** What [n] tasks earn: up to the first count of tasks whose rewards exceed the
    maximum they are added up; that count earns the maximum; and every further task
    earns its reward again. *)
Definition earned (per max n : Z) : Z :=
  if n * per <=? max then n * per else max + (n - (max / per + 1)) * per.

Lemma earned_first per max : 0 < per -> 0 <= max -> earned per max 1 = if max <? per then max else per.
Proof.
  intros Hp Hm. unfold earned. rewrite Z.mul_1_l. destruct (Z.leb_spec per max), (Z.ltb_spec max per); try lia.
  rewrite Z.div_small by lia. lia.
Qed.

Lemma earned_below per max n : 0 < per -> n * per <= max ->
  earned per max (n + 1) = if max <? (n + 1) * per then max else (n + 1) * per.
Proof.
  intros Hp Hn. unfold earned. destruct (Z.leb_spec ((n + 1) * per) max), (Z.ltb_spec max ((n + 1) * per)); try lia.
  assert (max / per = n) as ->; [|lia]. symmetry. apply Z.div_unique with (max - n * per); nia.
Qed.

Lemma earned_above per max n : 0 < per -> max < n * per -> earned per max (n + 1) = earned per max n + per.
Proof.
  intros Hp Hn. unfold earned. destruct (Z.leb_spec (n * per) max), (Z.leb_spec ((n + 1) * per) max); nia.
Qed.

Lemma earned_bounds per max n : 0 < per -> 0 <= max -> 0 <= n -> 0 <= earned per max n <= n * per.
Proof.
  intros Hp Hm Hn. unfold earned. destruct (Z.leb_spec (n * per) max); [nia|].
  pose proof (Z.mul_succ_div_gt max per Hp). pose proof (Z.mul_div_le max per Hp).
  assert (max / per < n) by (apply Z.div_lt_upper_bound; nia). nia.
Qed.

Section Plans.
Context {U : Uint256} {UL : Uint256Laws U}.

(** The three plans. *)
Lemma deposit_plan_bounds amount per max : deposit_plan amount = Done (per, max) -> 0 < per < two64 /\ 0 <= max < two64.
Proof.
  unfold deposit_plan.
  assert (forall x y, word x -> 0 < y < two64 -> uint256.Div x y = x / y) as HD.
  { intros x y Hx Hy. rewrite uint256.Div_spec by (unfold word in *; lia). destruct (Z.eqb_spec y 0); [lia|done]. }
  rewrite !(HD deposit.TenDepositRewardPerMonth), !(HD deposit.OneHundredDepositRewardPerMonth),
    !(HD deposit.FiveHundredDepositRewardPerMonth) by (vm_compute; split; congruence).
  destruct (_ =? deposit.TenDeposit); [|destruct (_ =? deposit.OneHundredDeposit); [|destruct (_ =? deposit.FiveHundredDeposit); [|done]]].
  - rewrite uint256.Add_spec, uint256.Mul_spec by (vm_compute; split; congruence). intros [= <- <-]. vm_compute. split; split; congruence.
  - rewrite uint256.Add_spec, uint256.Mul_spec by (vm_compute; split; congruence). intros [= <- <-]. vm_compute. split; split; congruence.
  - rewrite HD by (vm_compute; split; congruence). intros [= <- <-]. vm_compute. split; split; congruence.
Qed.
End Plans.

(** ** The store *)

Section Tasks.
Context {U : Uint256} {UL : Uint256Laws U} {C : Crypto} {B : BLS} {T : Type} {D : KV T}.
Context (db : T).
Notation MR := (M (Memory T)).

(** The amount an address deposited. *)
Definition deposited (a : Z) : option Z := snd <$> GetDeposit db a.

(** The cells that belong to an address. *)
Definition owned (maps : Maps) (a : Z) : list nat :=
  match rewardMap maps !! Address_Hex a with Some p => [p] | None => [] end ++
  match depositeMap maps !! a with Some i => [deposit.RewardPerBlock i; deposit.MaxRewardPerEpoch i] | None => [] end.

(** What is known of an address after [n] tasks: its reward is a cell of its own until
    it exceeds the maximum, and from then on it is the cell of the maximum. *)
Definition account_ok (mem : list Z) (maps : Maps) (a n : Z) : Prop :=
  if n =? 0 then rewardMap maps !! Address_Hex a = None /\ depositeMap maps !! a = None else
  match deposited a with
  | None => rewardMap maps !! Address_Hex a = None /\ depositeMap maps !! a = None
  | Some amount => exists per max p i, deposit_plan amount = Done (per, max) /\
      rewardMap maps !! Address_Hex a = Some p /\ depositeMap maps !! a = Some i /\
      mem !! deposit.RewardPerBlock i = Some per /\ p <> deposit.RewardPerBlock i /\
      deposit.MaxRewardPerEpoch i <> deposit.RewardPerBlock i /\ mem !! p = Some (earned per max n) /\
      if n * per <=? max then p <> deposit.MaxRewardPerEpoch i /\ mem !! deposit.MaxRewardPerEpoch i = Some max
      else p = deposit.MaxRewardPerEpoch i
  end.

Record rewards_ok (mem : list Z) (maps : Maps) (seen : list Z) : Prop := {
  accounts_ok a : address a -> account_ok mem maps a (tasks_of a seen);
  owned_apart a b q : address a -> address b -> q ∈ owned maps a -> q ∈ owned maps b -> a = b;
  keys_ok k p : rewardMap maps !! k = Some p -> exists a, address a /\ k = Address_Hex a
}.

Lemma owned_bound mem maps a n q : account_ok mem maps a n -> q ∈ owned maps a -> (q < length mem)%nat.
Proof.
  unfold account_ok, owned. destruct (n =? 0); [intros [-> ->]; by intros ?%elem_of_nil|].
  destruct (deposited a) as [amount|]; [|intros [-> ->]; by intros ?%elem_of_nil].
  intros (per & max & p & i & _ & -> & -> & Hper & _ & _ & Hp & Hm). cbn. rewrite !list.elem_of_cons, elem_of_nil.
  intros [->|[->|[->|[]]]]; [by eapply lookup_lt_Some..|].
  destruct (n * per <=? max); [destruct Hm as [_ Hm]; by eapply lookup_lt_Some|]. subst p. by eapply lookup_lt_Some.
Qed.

(** Other addresses do not notice a change. *)
Lemma account_frame mem mem' maps maps' a n :
  account_ok mem maps a n -> (forall q, q ∈ owned maps a -> mem' !! q = mem !! q) ->
  rewardMap maps' !! Address_Hex a = rewardMap maps !! Address_Hex a -> depositeMap maps' !! a = depositeMap maps !! a ->
  account_ok mem' maps' a n.
Proof.
  unfold account_ok, owned. intros H Hq -> ->. destruct (n =? 0); [done|]. destruct (deposited a) as [amount|]; [|done].
  destruct H as (per & max & p & i & Hplan & Ep & Ei & Hper & Hne & Hnm & Hp & Hm). rewrite Ep, Ei in Hq. cbn in Hq.
  exists per, max, p, i. rewrite !Hq by (rewrite !list.elem_of_cons; auto). split_and!; try done.
Qed.

Lemma load_ok (m : Memory T) p v : cells m !! p = Some v -> load p m = Done (v, m).
Proof. intros H. unfold load, get, mbind, M_bind. by rewrite H. Qed.

Lemma Min256_ptr_ok (m : Memory T) x y vx vy : cells m !! x = Some vx -> cells m !! y = Some vy ->
  word vx -> word vy -> Min256_ptr x y m = Done (if vy <? vx then y else x, m).
Proof.
  intros Hx Hy Wx Wy. unfold Min256_ptr, mbind, M_bind. rewrite (load_ok _ _ _ Hx), (load_ok _ _ _ Hy).
  by rewrite uint256.Gt_spec.
Qed.

(** The part of [add_task] after the pointers are known. *)
Definition count_task (maps : Maps) (v : Z) (p : nat) (info : deposit.Info) : MR Maps :=
  x ← load p;
  per ← load (deposit.RewardPerBlock info);
  _ ← assign p (uint256.Add x per);
  q ← Min256_ptr p (deposit.MaxRewardPerEpoch info);
  mret (mkMaps (<[Address_Hex v := q]> (rewardMap maps)) (<[v := info]> (depositeMap maps))).

Lemma count_task_ok maps v p info (m : Memory T) x per max :
  cells m !! p = Some x -> cells m !! deposit.RewardPerBlock info = Some per -> p <> deposit.RewardPerBlock info ->
  cells m !! deposit.MaxRewardPerEpoch info = Some max -> 0 <= x -> 0 <= per -> x + per < two256 -> word max ->
  count_task maps v p info m = Done (mkMaps (<[Address_Hex v :=
      if (if decide (p = deposit.MaxRewardPerEpoch info) then x + per else max) <? x + per then deposit.MaxRewardPerEpoch info else p]>
      (rewardMap maps)) (<[v := info]> (depositeMap maps)), mkMemory (<[p := x + per]> (cells m)) (tx m)).
Proof.
  intros Hp Hper Hne Hmax Hx Hper0 Hlt Hm. unfold count_task, mbind, M_bind.
  rewrite (load_ok _ _ _ Hp), (load_ok _ _ _ Hper). unfold assign, modify.
  assert (uint256.Add x per = x + per) as ->.
  { rewrite uint256.Add_spec by (unfold word; lia). apply Z.mod_small. lia. }
  set (m1 := mkMemory _ _). pose proof (lookup_lt_Some _ _ _ Hp) as Hlen.
  assert (H1 : cells m1 !! p = Some (x + per)) by (cbn; by rewrite list_lookup_insert_eq).
  assert (H2 : cells m1 !! deposit.MaxRewardPerEpoch info = Some (if decide (p = deposit.MaxRewardPerEpoch info) then x + per else max)).
  { cbn. case_decide as E; [rewrite <- E; by rewrite list_lookup_insert_eq|by rewrite list_lookup_insert_ne]. }
  rewrite (Min256_ptr_ok m1 _ _ _ _ H1 H2); [done|unfold word; lia|]. case_decide; [unfold word; lia|done].
Qed.

Lemma tasks_of_snoc a seen v : tasks_of a (seen ++ [v]) = tasks_of a seen + (if v =? a then 1 else 0).
Proof. rewrite tasks_of_app, tasks_of_cons. change (tasks_of a []) with 0. lia. Qed.

(** A task of [v] changes cells of [v] or new ones only. *)
Lemma rewards_ok_step mem mem' maps maps' seen v :
  rewards_ok mem maps seen -> address v ->
  (forall a, address a -> a <> v ->
    rewardMap maps' !! Address_Hex a = rewardMap maps !! Address_Hex a /\ depositeMap maps' !! a = depositeMap maps !! a) ->
  (forall q, (q < length mem)%nat -> q ∉ owned maps v -> mem' !! q = mem !! q) ->
  account_ok mem' maps' v (tasks_of v seen + 1) ->
  (forall q, q ∈ owned maps' v -> q ∈ owned maps v \/ (length mem <= q)%nat) ->
  (forall k, k <> Address_Hex v -> rewardMap maps' !! k = rewardMap maps !! k) ->
  rewards_ok mem' maps' (seen ++ [v]).
Proof.
  intros [Ha Hd Hk] Hv Hmaps Hmem Hacc Hown Hkeys.
  assert (Heq : forall a, address a -> a <> v -> owned maps' a = owned maps a).
  { intros a Haddr Hne. unfold owned. by destruct (Hmaps a Haddr Hne) as [-> ->]. }
  assert (Hcross : forall a q, address a -> a <> v -> q ∈ owned maps' a -> q ∉ owned maps' v).
  { intros a q Haddr Hne Hq Hqv. rewrite Heq in Hq by done. destruct (Hown q Hqv) as [Hqv'|Hge].
    - apply Hne. by eapply Hd.
    - pose proof (owned_bound _ _ _ _ _ (Ha a Haddr) Hq). lia. }
  split.
  - intros a Haddr. rewrite tasks_of_snoc. destruct (Z.eqb_spec v a) as [<-|Hne]; [done|]. rewrite Z.add_0_r.
    destruct (Hmaps a Haddr ltac:(congruence)) as [E1 E2]. apply (account_frame mem mem' maps maps'); try done; [by apply Ha|].
    intros q Hq. apply Hmem; [by eapply owned_bound; [apply Ha|]|]. intros Hqv. apply Hne. by eapply Hd.
  - intros a b q Haddr Hb Hqa Hqb. destruct (decide (a = v)) as [->|Hav], (decide (b = v)) as [->|Hbv]; try done.
    + by destruct (Hcross b q Hb Hbv Hqb).
    + by destruct (Hcross a q Haddr Hav Hqa).
    + rewrite Heq in Hqa, Hqb by done. by eapply Hd.
  - intros k p Hkp. destruct (decide (k = Address_Hex v)) as [->|Hne]; [by exists v|]. rewrite Hkeys in Hkp by done. by eapply Hk.
Qed.

Lemma maps_other maps v p (i : deposit.Info) a : address v -> address a -> a <> v ->
  rewardMap (mkMaps (<[Address_Hex v := p]> (rewardMap maps)) (<[v := i]> (depositeMap maps))) !! Address_Hex a
    = rewardMap maps !! Address_Hex a /\
  depositeMap (mkMaps (<[Address_Hex v := p]> (rewardMap maps)) (<[v := i]> (depositeMap maps))) !! a = depositeMap maps !! a.
Proof.
  intros Hv Ha Hne. cbn [rewardMap depositeMap]. rewrite !lookup_insert_ne; [done|congruence|]. intros E. apply Hne. symmetry. by apply Address_Hex_inj.
Qed.

(** The first task of an address. *)
Lemma first_task maps v (m : Memory T) amount per max seen :
  tx m = db -> rewards_ok (cells m) maps seen -> address v -> tasks_of v seen = 0 ->
  deposited v = Some amount -> deposit_plan amount = Done (per, max) ->
  exists maps' m', add_task maps v m = Done (maps', m') /\ tx m' = tx m /\ rewards_ok (cells m') maps' (seen ++ [v]).
Proof.
  intros Htx Hok Hv Hn Hd Hplan. destruct (deposit_plan_bounds _ _ _ Hplan) as [Hper Hmax].
  pose proof (accounts_ok _ _ _ Hok v Hv) as Hacc. unfold account_ok in Hacc. rewrite Hn in Hacc. destruct Hacc as [E1 E2].
  set (L := length (cells m)). set (info := deposit.mkInfo (S L) (S (S L))).
  set (m1 := mkMemory (((cells m ++ [0]) ++ [per]) ++ [max]) (tx m)).
  assert (Hrun : add_task maps v m = count_task maps v L info m1).
  { unfold add_task, mbind, M_bind. rewrite E1, E2. unfold alloc, GetDepositInfo, get, mbind, M_bind, outcome_to_M.
    unfold deposited in Hd. rewrite <- Htx in Hd. cbn [tx]. destruct (GetDeposit (tx m) v) as [[pk ?]|] in Hd |- *; [|done]. injection Hd as ->. rewrite Hplan.
    cbn. rewrite !length_app. cbn. fold L. replace (L + 1)%nat with (S L) by lia. replace (S L + 1)%nat with (S (S L)) by lia. done. }
  assert (Hcells : cells m1 = cells m ++ [0; per; max]) by (cbn; by rewrite <- !app_assoc).
  assert (Hat : forall k, cells m1 !! (L + k)%nat = [0; per; max] !! k).
  { intros k. rewrite Hcells, lookup_app_r by lia. f_equal. lia. }
  pose proof (Hat 0%nat) as H0. pose proof (Hat 1%nat) as H1. pose proof (Hat 2%nat) as H2.
  rewrite Nat.add_0_r in H0. replace (L + 1)%nat with (S L) in H1 by lia. replace (L + 2)%nat with (S (S L)) in H2 by lia. cbn in H0, H1, H2.
  rewrite Hrun, (count_task_ok maps v L info m1 0 per max) by (try done; cbn; unfold word in *; lia).
  rewrite Z.add_0_l, decide_False by (cbn; lia). eexists _, _. split; [done|]. split; [done|].
  apply (rewards_ok_step (cells m) _ maps); [done|done|intros a ? ?; by apply maps_other| | | |intros k Hk; cbn [rewardMap]; by rewrite lookup_insert_ne].
  - intros q Hq _. cbn [cells]. rewrite list_lookup_insert_ne by (subst L; lia). rewrite Hcells. by apply lookup_app_l.
  - rewrite Hn. unfold account_ok. cbn [Z.add Z.eqb]. rewrite Hd. eexists per, max, _, info.
    cbn [rewardMap depositeMap cells]. rewrite !lookup_insert_eq. split_and!; try done.
    + cbn. by rewrite list_lookup_insert_ne by lia.
    + cbn. destruct (max <? per); lia.
    + rewrite earned_first by lia. destruct (Z.ltb_spec max per).
      * cbn. by rewrite list_lookup_insert_ne by lia.
      * rewrite list_lookup_insert_eq; [done|]. rewrite Hcells, length_app. cbn. lia.
    + rewrite Z.mul_1_l. destruct (Z.ltb_spec max per), (Z.leb_spec per max); try lia.
      cbn. split; [lia|]. by rewrite list_lookup_insert_ne by lia.
  - intros q. unfold owned. cbn [rewardMap depositeMap]. rewrite !lookup_insert_eq. cbn. rewrite !list.elem_of_cons, elem_of_nil.
    intros Hq. right. fold L. destruct (max <? per); destruct Hq as [->|[->|[->|[]]]]; lia.
Qed.

(** A later task. *)
Lemma later_task maps v (m : Memory T) amount seen :
  tx m = db -> rewards_ok (cells m) maps seen -> address v -> 0 < tasks_of v seen < two64 -> deposited v = Some amount ->
  exists maps' m', add_task maps v m = Done (maps', m') /\ tx m' = tx m /\ rewards_ok (cells m') maps' (seen ++ [v]).
Proof.
  intros Htx Hok Hv Hn Hd. pose proof (accounts_ok _ _ _ Hok v Hv) as Hacc. unfold account_ok in Hacc.
  set (n := tasks_of v seen) in *. destruct (Z.eqb_spec n 0); [lia|]. rewrite Hd in Hacc.
  destruct Hacc as (per & max & p & i & Hplan & Ep & Ei & Hper & Hne & Hnm & Hp & Hm).
  destruct (deposit_plan_bounds _ _ _ Hplan) as [Bper Bmax].
  pose proof (earned_bounds per max n ltac:(lia) ltac:(lia) ltac:(lia)) as He. set (e := earned per max n) in *.
  assert (Hsum : e + per < two256) by nia.
  assert (Hrun : add_task maps v m = count_task maps v p i m) by (unfold add_task, mbind, M_bind; by rewrite Ep, Ei).
  set (max' := if n * per <=? max then max else e).
  assert (Hmax : cells m !! deposit.MaxRewardPerEpoch i = Some max').
  { subst max'. destruct (n * per <=? max); [by destruct Hm|]. by rewrite <- Hm. }
  rewrite Hrun, (count_task_ok maps v p i m e per max') by (try done; unfold word, max' in *; destruct (n * per <=? max); lia).
  eexists _, _. split; [done|]. split; [done|].
  assert (Hown : forall q, q <> p -> q <> deposit.RewardPerBlock i -> q <> deposit.MaxRewardPerEpoch i -> q ∉ owned maps v).
  { intros q H1 H2 H3. unfold owned. rewrite Ep, Ei. cbn. rewrite !list.elem_of_cons, elem_of_nil. tauto. }
  pose proof (lookup_lt_Some _ _ _ Hp) as Hlen.
  apply (rewards_ok_step (cells m) _ maps); [done|done|intros a ? ?; by apply maps_other| | | |intros k Hk; cbn [rewardMap]; by rewrite lookup_insert_ne].
  - intros q _ Hq. cbn [cells]. rewrite list_lookup_insert_ne; [done|]. intros ->. apply Hq. unfold owned. rewrite Ep. cbn. rewrite list.elem_of_cons. by left.
  - fold n. unfold account_ok. destruct (Z.eqb_spec (n + 1) 0); [lia|]. rewrite Hd. eexists per, max, _, i.
    cbn [rewardMap depositeMap cells]. rewrite !lookup_insert_eq. split; [done|]. split; [done|]. split; [done|].
    rewrite (list_lookup_insert_ne _ p (deposit.RewardPerBlock i)) by done. split; [done|].
    subst max'. destruct (Z.leb_spec (n * per) max) as [Hle|Hgt].
    + destruct Hm as [Hpm Hm]. rewrite decide_False by done. assert (e = n * per) as -> by (subst e; unfold earned; by rewrite (proj2 (Z.leb_le _ _) Hle)).
      rewrite earned_below by lia. replace (n * per + per) with ((n + 1) * per) by lia.
      destruct (Z.ltb_spec max ((n + 1) * per)), (Z.leb_spec ((n + 1) * per) max); try lia.
      * rewrite list_lookup_insert_ne by done. done.
      * rewrite list_lookup_insert_eq, list_lookup_insert_ne by done. done.
    + subst p. rewrite decide_True, Z.ltb_irrefl by done. rewrite earned_above, list_lookup_insert_eq by (done || lia).
      destruct (Z.leb_spec ((n + 1) * per) max); [nia|]. done.
  - intros q. unfold owned. cbn [rewardMap depositeMap]. rewrite !lookup_insert_eq, Ep, Ei. cbn. rewrite !list.elem_of_cons, elem_of_nil.
    intros Hq. left. destruct (_ <? _) in Hq; tauto.
Qed.

(** A task without a deposit earns nothing. *)
Lemma unpaid_task maps v (m : Memory T) seen :
  tx m = db -> rewards_ok (cells m) maps seen -> address v -> deposited v = None ->
  exists maps' m', add_task maps v m = Done (maps', m') /\ tx m' = tx m /\ rewards_ok (cells m') maps' (seen ++ [v]).
Proof.
  intros Htx Hok Hv Hd. assert (Hacc : rewardMap maps !! Address_Hex v = None /\ depositeMap maps !! v = None).
  { pose proof (accounts_ok _ _ _ Hok v Hv) as Hacc. unfold account_ok in Hacc. rewrite Hd in Hacc. by destruct (_ =? 0) in Hacc. }
  destruct Hacc as [E1 E2]. exists maps, (mkMemory (cells m ++ [0]) (tx m)). split; [|split; [done|]].
  { unfold add_task, mbind, M_bind. rewrite E1, E2. unfold alloc, GetDepositInfo, get, mbind, M_bind.
    unfold deposited in Hd. rewrite <- Htx in Hd. cbn [tx]. by destruct (GetDeposit (tx m) v) in Hd |- *. }
  apply (rewards_ok_step (cells m) _ maps); [done|done|done| | |by left|done].
  - intros q Hq _. by apply lookup_app_l.
  - unfold account_ok. rewrite Hd. by destruct (_ =? 0).
Qed.

Definition deposits_ok : Prop := forall a amount, deposited a = Some amount -> exists plan, deposit_plan amount = Done plan.

Lemma add_task_ok maps v (m : Memory T) seen :
  tx m = db -> deposits_ok -> rewards_ok (cells m) maps seen -> address v -> zlen seen < two64 ->
  exists maps' m', add_task maps v m = Done (maps', m') /\ tx m' = tx m /\ rewards_ok (cells m') maps' (seen ++ [v]).
Proof.
  intros Htx Hdep Hok Hv Hlen. pose proof (tasks_of_bounds v seen). destruct (deposited v) as [amount|] eqn:Hd; [|by apply unpaid_task].
  destruct (Hdep _ _ Hd) as [[per max] Hplan]. destruct (Z.eqb_spec (tasks_of v seen) 0); [by eapply first_task|].
  eapply later_task; try done. lia.
Qed.

Lemma add_tasks_ok vs : forall maps (m : Memory T) seen, tx m = db ->
  deposits_ok -> rewards_ok (cells m) maps seen -> Forall (fun v => address v) vs -> zlen (seen ++ vs) < two64 ->
  exists maps' m', add_tasks maps vs m = Done (maps', m') /\ tx m' = tx m /\ rewards_ok (cells m') maps' (seen ++ vs).
Proof.
  induction vs as [|v vs IH]; intros maps m seen Htx Hdep Hok Hvs Hlen.
  { exists maps, m. by rewrite app_nil_r. }
  inversion_clear Hvs as [|? ? Hv Hvs']. rewrite zlen_app in Hlen. pose proof (zlen_nonneg (v :: vs)).
  destruct (add_task_ok maps v m seen) as (maps1 & m1 & E1 & T1 & Hok1); [done|done|done|done|lia|].
  destruct (IH maps1 m1 (seen ++ [v])) as (maps2 & m2 & E2 & T2 & Hok2); [congruence|done|done|done|by rewrite <- app_assoc, zlen_app|].
  exists maps2, m2. cbn [add_tasks]. unfold mbind, M_bind. rewrite E1, E2, T2. split; [done|]. split; [done|].
  by rewrite <- app_assoc in Hok2.
Qed.

Lemma no_rewards mem : rewards_ok mem (mkMaps ∅ ∅) [].
Proof. by split; [|intros a b q _ _ ?%elem_of_nil|]. Qed.
End Tasks.

(** ** The blocks of an epoch *)

Section Epoch.
Context {U : Uint256} {UL : Uint256Laws U} {C : Crypto} {B : BLS} {T : Type} {D : KV T}.
Context (blocks : Blocks) (db : T) (verifiers : Z -> list Z).
Notation MR := (M (Memory T)).

(** Block [k] is stored, with its verifiers. *)
Definition readable (k : Z) : Prop :=
  exists hash h n, ReadCanonicalHash blocks k = (hash, None) /\ hash <> 0 /\
    ReadHeader blocks hash k = Some (h, n) /\ ReadBlock blocks h n = Some (verifiers k).

(** The tasks of the [n] blocks from [first], the last block first. *)
Fixpoint epoch_tasks (n : nat) (first : Z) : list Z :=
  match n with O => [] | S n => verifiers (first + Z.of_nat n) ++ epoch_tasks n first end.

Lemma scan_block (m : Memory T) fuel k endNumber maps : word endNumber -> 0 <= k < two64 -> endNumber <= k -> readable k ->
  scan blocks (S fuel) k endNumber maps m =
  (maps ← add_tasks maps (verifiers k); scan blocks fuel (uint256.Sub k 1) endNumber maps) m.
Proof.
  intros He Hk Hle (hash & h & n & E1 & Hne & E2 & E3). assert (word k) by (unfold word; lia). cbn [scan].
  rewrite uint256.Lt_spec, (proj2 (Z.ltb_ge _ _) Hle), uint256.Uint64_spec, u64_small, E1 by (done || lia).
  apply Z.eqb_neq in Hne as ->. by rewrite E2, E3.
Qed.

Lemma pred_word k : 0 < k < two64 -> uint256.Sub k 1 = k - 1.
Proof. intros H. rewrite uint256.Sub_spec by (unfold word; lia). apply wrap256_small. unfold word. lia. Qed.

(** The loop over the blocks of an epoch that does not start at the genesis block. *)
Lemma scan_ok first n : forall maps (m : Memory T) seen,
  tx m = db -> deposits_ok db -> rewards_ok db (cells m) maps seen ->
  0 < first -> first + Z.of_nat n < two64 -> (forall k, first <= k < first + Z.of_nat n -> readable k) ->
  Forall (fun v => address v) (epoch_tasks n first) -> zlen (seen ++ epoch_tasks n first) < two64 ->
  exists maps' m', scan blocks (S n) (first + Z.of_nat n - 1) first maps m = Done (inl (Some maps'), m') /\
    tx m' = tx m /\ rewards_ok db (cells m') maps' (seen ++ epoch_tasks n first).
Proof.
  induction n as [|n IH]; intros maps m seen Htx Hdep Hok Hf Hlt Hr Hvs Hlen.
  - exists maps, m. cbn [scan epoch_tasks]. rewrite app_nil_r, uint256.Lt_spec by (unfold word; lia).
    destruct (Z.ltb_spec (first + Z.of_nat 0 - 1) first); [done|lia].
  - replace (first + Z.of_nat (S n) - 1) with (first + Z.of_nat n) by lia.
    rewrite scan_block by (unfold word; lia || (apply Hr; lia)).
    cbn [epoch_tasks] in *. apply Forall_app in Hvs as [Hv1 Hv2]. rewrite app_assoc in Hlen.
    destruct (add_tasks_ok db (verifiers (first + Z.of_nat n)) maps m seen) as (maps1 & m1 & E1 & T1 & Hok1); [done|done|done|done| |].
    { rewrite zlen_app in Hlen. pose proof (zlen_nonneg (epoch_tasks n first)). lia. }
    destruct (IH maps1 m1 (seen ++ verifiers (first + Z.of_nat n))) as (maps2 & m2 & E2 & T2 & Hok2); [congruence|done|done|done|lia| |done|done|].
    { intros k Hk. apply Hr. lia. }
    exists maps2, m2. unfold mbind, M_bind. rewrite E1, pred_word by lia. by rewrite E2, T2, app_assoc.
Qed.

(** An epoch that starts at the genesis block: the block number wraps around below it. *)
Lemma scan_genesis n : forall maps (m : Memory T) seen,
  tx m = db -> deposits_ok db -> rewards_ok db (cells m) maps seen ->
  Z.of_nat n < two64 -> (forall k, 0 <= k < Z.of_nat n -> readable k) -> ReadCanonicalHash blocks (two64 - 1) = (0, None) ->
  Forall (fun v => address v) (epoch_tasks n 0) -> zlen (seen ++ epoch_tasks n 0) < two64 ->
  exists m', scan blocks (S n) (uint256.Sub (Z.of_nat n) 1) 0 maps m = Done (inl None, m') /\ tx m' = tx m.
Proof.
  induction n as [|n IH]; intros maps m seen Htx Hdep Hok Hlt Hr Hnone Hvs Hlen.
  - exists m. change (uint256.Sub (Z.of_nat 0) 1) with (uint256.Sub 0 1).
    assert (uint256.Sub 0 1 = two256 - 1) as -> by (rewrite uint256.Sub_spec by (unfold word; lia); done).
    cbn [scan]. rewrite uint256.Lt_spec, uint256.Uint64_spec by (unfold word; lia).
    change (two256 - 1 <? 0) with false. change (u64 (two256 - 1)) with (two64 - 1). cbv iota. by rewrite Hnone.
  - rewrite pred_word by lia. replace (Z.of_nat (S n) - 1) with (Z.of_nat n) by lia.
    rewrite scan_block by (unfold word; lia || (apply Hr; lia)).
    cbn [epoch_tasks] in *. rewrite Z.add_0_l in *. apply Forall_app in Hvs as [Hv1 Hv2]. rewrite app_assoc in Hlen.
    destruct (add_tasks_ok db (verifiers (Z.of_nat n)) maps m seen) as (maps1 & m1 & E1 & T1 & Hok1); [done|done|done|done| |].
    { rewrite zlen_app in Hlen. pose proof (zlen_nonneg (epoch_tasks n 0)). lia. }
    destruct (IH maps1 m1 (seen ++ verifiers (Z.of_nat n))) as (m2 & E2 & T2); [congruence|done|done|lia| |done|done|done|].
    { intros k Hk. apply Hr. lia. }
    exists m2. unfold mbind, M_bind. by rewrite E1, E2, T2.
Qed.
End Epoch.

(** ** Settlement *)

Section Settlement.
Context {U : Uint256} {UL : Uint256Laws U} {C : Crypto} {T : Type} {D : KV T} {DL : KVLaws D}.
Notation MR := (M (Memory T)).

(** What is carried over for an account. *)
Definition unpaid (db : T) (a : Z) : Z := uint256.SetBytes (default [] (GetOne db Reward_table (account_key a)).1).

(** A store whose reads and writes of rewards succeed. *)
Record store_ok (db : T) : Prop := {
  reads_ok k : (GetOne db Reward_table k).2 = None;
  writes_ok db' k v : (Put Reward_table k v db').1 = None
}.

Lemma put_reward (db : T) k v : store_ok db -> exists db', Put Reward_table k v db = (None, db') /\ store_ok db' /\
  forall k', GetOne db' Reward_table k' = if decide (k' = k) then (Some v, None) else GetOne db Reward_table k'.
Proof.
  intros [Hr Hw]. pose proof (Hw db k v) as E. destruct (Put Reward_table k v db) as [err db'] eqn:Hput. cbn in E. subst err.
  exists db'. split; [done|]. assert (Hget : forall k', GetOne db' Reward_table k' = if decide (k' = k) then (Some v, None) else GetOne db Reward_table k').
  { intros k'. rewrite (Put_spec _ _ _ _ _ _ _ Hput). by repeat case_decide; simplify_eq. }
  split; [|done]. split; [|done]. intros k'. rewrite Hget. by case_decide.
Qed.

Lemma account_key_inj a b : address a -> address b -> account_key a = account_key b -> a = b.
Proof. unfold account_key. intros Ha Hb E%app_inv_head. by apply Address_Hex_inj. Qed.

Lemma account_not_epoch uint256_String a e : account_key a <> epoch_key uint256_String e.
Proof. unfold account_key, epoch_key. by intros [=]. Qed.

(** The part of a sum that is paid, and the part that is carried over. *)
Definition pays (limit due : Z) : Z := if due <? limit then 0 else due.
Definition carries (limit due : Z) : Z := if due <? limit then due else 0.

Definition due (db : T) (a reward : Z) : Z := wrap256 (reward + unpaid db a).

Lemma pay_account_ok limit (set : bool) a p (m : Memory T) x :
  word limit -> address a -> cells m !! p = Some x -> word x -> store_ok (tx m) ->
  exists m', pay_account limit set (Address_Hex a) p m = Done (inl (pays limit (due (tx m) a x)), m') /\
    cells m' = cells m /\ store_ok (tx m') /\
    (forall b, address b -> unpaid (tx m') b =
      if set && (a =? b) then carries limit (due (tx m) a x) else unpaid (tx m) b).
Proof.
  intros Hl Ha Hp Hx Hs. set (d := due (tx m) a x). assert (Hd : word d) by apply wrap256_word.
  assert (Hget : getAccountRewardUnpaid a m = Done (inl (unpaid (tx m) a), m)).
  { unfold getAccountRewardUnpaid, GetAccountReward, unpaid. pose proof (reads_ok _ Hs (account_key a)) as E. by destruct (GetOne _ _ _) as [v err]; cbn in E; subst err. }
  assert (Hadd : uint256.Add x (unpaid (tx m) a) = d) by (apply uint256.Add_spec; [done|apply uint256.SetBytes_type]).
  unfold pay_account, mbind, M_bind. rewrite (load_ok _ _ _ Hp), HexToAddress_Hex, Hget, Hadd, uint256.Lt_spec by done.
  destruct set; cbn [andb].
  2: { exists m. split; [|done]. unfold pays. by destruct (d <? limit). }
  destruct (put_reward (tx m) (account_key a) (uint256.Bytes (carries limit d)) Hs) as (db' & Hput & Hs' & Hget').
  exists (mkMemory (cells m) db'). split; [|split; [done|split; [done|]]].
  - unfold setAccountRewardUnpaid, on_tx, PutAccountReward, pays. unfold carries in Hput. by destruct (d <? limit); rewrite Hput.
  - intros b Hb. cbn [tx]. unfold unpaid at 1. rewrite Hget'. destruct (Z.eqb_spec a b) as [<-|Hne].
    + rewrite decide_True by done. apply uint256.SetBytes_Bytes. unfold carries. destruct (d <? limit); [done|unfold word; lia].
    + rewrite decide_False; [done|]. intros E. apply Hne. symmetry. by apply account_key_inj.
Qed.

(** What is known of the entries of the reward map. *)
Definition entry_ok (mem : list Z) (reward : Z -> Z) (e : bytes * nat) : Prop :=
  exists a, address a /\ e.1 = Address_Hex a /\ mem !! e.2 = Some (reward a) /\ word (reward a).

Lemma pay_all_ok limit (set : bool) (reward : Z -> Z) entries : forall paid (m : Memory T),
  word limit -> Forall (entry_ok (cells m) reward) entries -> NoDup entries.*1 -> store_ok (tx m) ->
  exists paid' m', pay_all limit set entries paid m = Done (inl paid', m') /\ cells m' = cells m /\ store_ok (tx m') /\
    (forall k, k ∉ entries.*1 -> paid' !! k = paid !! k) /\
    forall a, address a ->
      paid' !! Address_Hex a = (if decide (Address_Hex a ∈ entries.*1) then Some (pays limit (due (tx m) a (reward a)))
                                else paid !! Address_Hex a) /\
      unpaid (tx m') a = if set && bool_decide (Address_Hex a ∈ entries.*1) then carries limit (due (tx m) a (reward a))
                         else unpaid (tx m) a.
Proof.
  induction entries as [|[rk p] entries IH]; intros paid m Hl Hes Hnd Hs.
  { exists paid, m. split; [done|]. split; [done|]. split; [done|]. split; [done|]. intros a _. cbn. rewrite andb_false_r. done. }
  inversion_clear Hes as [|? ? (b & Hb & Erk & Hp & Hw) Hes']. cbn in Erk, Hp. subst rk.
  cbn in Hnd. apply list.NoDup_cons in Hnd as [Hnot Hnd].
  destruct (pay_account_ok limit set b p m (reward b)) as (m1 & E1 & C1 & S1 & U1); try done.
  destruct (IH (<[Address_Hex b := pays limit (due (tx m) b (reward b))]> paid) m1) as (paid2 & m2 & E2 & C2 & S2 & K2 & H2); try done; [by rewrite C1|].
  exists paid2, m2. cbn [pay_all]. unfold mbind, M_bind. rewrite E1, E2, C2. split; [done|]. split; [done|]. split; [done|]. split.
  { intros k [Hk1 Hk2]%list.not_elem_of_cons. by rewrite K2, lookup_insert_ne. }
  intros a Ha. destruct (H2 a Ha) as [P U']. rewrite P, U'. clear P U' H2. destruct (Z.eqb_spec b a) as [->|Hne].
  - rewrite (decide_False (P := _ ∈ entries.*1)), (bool_decide_eq_false_2 (_ ∈ entries.*1)), andb_false_r by done.
    rewrite lookup_insert_eq, decide_True, bool_decide_eq_true_2 by (cbn; apply list.elem_of_cons; by left).
    rewrite U1, Z.eqb_refl by done. done.
  - assert (Hd : due (tx m1) a (reward a) = due (tx m) a (reward a)).
    { unfold due. rewrite U1 by done. destruct (Z.eqb_spec b a); [done|]. by rewrite andb_false_r. }
    assert (Hne' : Address_Hex a <> Address_Hex b) by (intros E; apply Hne; symmetry; by apply Address_Hex_inj).
    assert (Hiff : Address_Hex a ∈ ((Address_Hex b, p) :: entries).*1 <-> Address_Hex a ∈ entries.*1) by (cbn; rewrite list.elem_of_cons; tauto).
    rewrite Hd, (bool_decide_ext _ _ Hiff), lookup_insert_ne, U1 by done. destruct (Z.eqb_spec b a); [done|]. rewrite andb_false_r.
    split; [|done]. by destruct (decide (_ ∈ entries.*1)) as [H|H]; [rewrite decide_True by tauto|rewrite decide_False by tauto].
Qed.
End Settlement.

(** ** The rewards of an epoch *)

Section Build.
Context {U : Uint256} {UL : Uint256Laws U} {C : Crypto} {B : BLS} {T : Type} {D : KV T} {DL : KVLaws D}.
Context (json_Marshal : gmap bytes Z -> bytes) (uint256_String : Z -> bytes).
Context (blocks : Blocks) (verifiers : Z -> list Z).
Context (iter : forall A : Type, list A -> list A) (iter_perm : forall A (l : list A), iter A l ≡ₚ l).

(** What an account earned in an epoch with these tasks, if anything. *)
Definition reward_of (db : T) (tasks : list Z) (a : Z) : option Z :=
  if tasks_of a tasks =? 0 then None else
  match deposited db a with
  | None => None
  | Some amount =>
      match deposit_plan amount with Done (per, max) => Some (earned per max (tasks_of a tasks)) | _ => None end
  end.

Lemma reward_word db tasks a x : zlen tasks < two64 -> reward_of db tasks a = Some x -> word x.
Proof.
  intros Hlen. unfold reward_of. pose proof (tasks_of_bounds a tasks). destruct (_ =? 0); [done|].
  destruct (deposited db a) as [amount|]; [|done]. destruct (deposit_plan amount) as [[per max]| |] eqn:E; [|done|done].
  intros [= <-]. destruct (deposit_plan_bounds _ _ _ E). pose proof (earned_bounds per max (tasks_of a tasks)) as Hb.
  unfold word. split; [apply Hb; lia|]. apply Z.le_lt_trans with (tasks_of a tasks * per); [apply Hb; lia|]. nia.
Qed.

Lemma reward_entry db mem maps tasks a : rewards_ok db mem maps tasks -> address a ->
  match rewardMap maps !! Address_Hex a with
  | Some p => exists x, reward_of db tasks a = Some x /\ mem !! p = Some x
  | None => reward_of db tasks a = None
  end.
Proof.
  intros Hok Ha. pose proof (accounts_ok _ _ _ _ Hok a Ha) as H. unfold account_ok in H. unfold reward_of.
  destruct (_ =? 0); [by destruct H as [-> _]|]. destruct (deposited db a) as [amount|]; [|by destruct H as [-> _]].
  destruct H as (per & max & p & i & Hplan & -> & _ & _ & _ & _ & Hp & _). rewrite Hplan. by eexists.
Qed.

Lemma entries_ok db mem maps tasks : rewards_ok db mem maps tasks -> zlen tasks < two64 ->
  Forall (entry_ok mem (fun a => default 0 (reward_of db tasks a))) (iter _ (map_to_list (rewardMap maps))) /\
  NoDup (iter _ (map_to_list (rewardMap maps))).*1 /\
  forall a, address a -> Address_Hex a ∈ (iter _ (map_to_list (rewardMap maps))).*1 <-> reward_of db tasks a <> None.
Proof.
  intros Hok Hlen. rewrite (iter_perm _ (map_to_list (rewardMap maps))). split; [|split].
  - apply list.Forall_forall. intros [k p] Hin%elem_of_map_to_list. destruct (keys_ok _ _ _ _ Hok k p Hin) as (a & Ha & ->).
    exists a. split; [done|]. split; [done|]. pose proof (reward_entry _ _ _ _ a Hok Ha) as He. rewrite Hin in He.
    destruct He as (x & Ex & Hx). cbn. rewrite Ex. split; [done|]. by eapply reward_word.
  - apply NoDup_fst_map_to_list.
  - intros a Ha. pose proof (reward_entry _ _ _ _ a Hok Ha) as He. rewrite (iter_perm _ (map_to_list (rewardMap maps))), list_elem_of_fmap. split.
    + intros ([k p] & E & Hin%elem_of_map_to_list). cbn [fst] in E. subst k. rewrite Hin in He. by destruct He as (x & -> & _).
    + destruct (rewardMap maps !! Address_Hex a) as [p|] eqn:E; [|done]. intros _. exists (Address_Hex a, p). by rewrite elem_of_map_to_list.
Qed.

(** The hypotheses on an epoch that does not start at the genesis block, and its tasks. *)
Definition tasks_before (config : apos.APosConfig) (number : Z) : list Z :=
  epoch_tasks verifiers (Z.to_nat (apos.RewardEpoch config)) (number - apos.RewardEpoch config).

Record epoch_ok (config : apos.APosConfig) (number : Z) (db : T) : Prop := {
  epoch_deposits : deposits_ok db;
  epoch_store : store_ok db;
  epoch_limit : word (apos.RewardLimit config);
  epoch_number : 0 <= apos.RewardEpoch config < number /\ number < two64;
  epoch_blocks k : number - apos.RewardEpoch config <= k < number -> readable blocks verifiers k;
  epoch_verifiers : Forall (fun v => address v) (tasks_before config number);
  epoch_count : zlen (tasks_before config number) < two64
}.

(** The rewards are those of the tasks, in an entry per account that earned some. *)
Definition settled (config : apos.APosConfig) (number : Z) (setRewards : bool) (db db' : T) (paid : gmap bytes Z) : Prop :=
  forall a, address a ->
    match reward_of db (tasks_before config number) a with
    | Some x => let d := due db a x in
        paid !! Address_Hex a = Some (pays (apos.RewardLimit config) d) /\
        unpaid db' a = if setRewards then carries (apos.RewardLimit config) d else unpaid db a
    | None => paid !! Address_Hex a = None /\ unpaid db' a = unpaid db a
    end.

(** The last write: the record of the epoch. *)
Lemma record_epoch epoch (setRewards : bool) paid (m : Memory T) : store_ok (tx m) ->
  exists m', (if setRewards then setRewardByEpochPaid json_Marshal uint256_String epoch paid else mret None) m = Done (None, m') /\
    (forall a, unpaid (tx m') a = unpaid (tx m) a) /\
    (setRewards = true -> paid <> ∅ -> GetOne (tx m') Reward_table (epoch_key uint256_String epoch) = (Some (json_Marshal paid), None)).
Proof.
  intros Hs. destruct setRewards; [|by exists m]. unfold setRewardByEpochPaid. case_decide; [by exists m|].
  destruct (put_reward (tx m) (epoch_key uint256_String epoch) (json_Marshal paid) Hs) as (db & Hput & _ & Hget).
  exists (mkMemory (cells m) db). unfold on_tx, PutEpochReward. rewrite Hput. split; [done|]. cbn [tx]. split.
  - intros a. unfold unpaid. rewrite Hget, decide_False; [done|]. apply account_not_epoch.
  - intros _ _. by rewrite Hget, decide_True.
Qed.

Lemma buildRewards_run config number (setRewards : bool) (m : Memory T) : epoch_ok config number (tx m) ->
  exists paid m', buildRewards blocks json_Marshal uint256_String iter (S (Z.to_nat (apos.RewardEpoch config))) config number setRewards m
      = Done (inl paid, m') /\
    settled config number setRewards (tx m) (tx m') paid /\
    (forall k x, paid !! k = Some x -> exists a, address a /\ k = Address_Hex a) /\
    (setRewards = true -> paid <> ∅ ->
     GetOne (tx m') Reward_table (epoch_key uint256_String (number2epoch (apos.RewardEpoch config) number)) = (Some (json_Marshal paid), None)).
Proof.
  intros [Hdep Hs Hl [He Hnum] Hr Hvs Hlen]. unfold settled. unfold tasks_before in *.
  set (n := Z.to_nat (apos.RewardEpoch config)) in *. set (first := number - apos.RewardEpoch config) in *.
  set (tasks := epoch_tasks verifiers n first) in *.
  assert (Hn : first + Z.of_nat n = number) by (unfold first, n; lia).
  destruct (scan_ok blocks (tx m) verifiers first n (mkMaps ∅ ∅) m []) as (maps & m1 & E1 & T1 & Hok);
    [done|done|apply no_rewards|lia|lia|by rewrite Hn|done|done|]. rewrite Hn in E1. cbn [app] in Hok. fold tasks in Hok.
  destruct (entries_ok (tx m) _ _ _ Hok Hlen) as (Hes & Hnd & Hin).
  destruct (pay_all_ok (apos.RewardLimit config) setRewards _ _ ∅ m1 Hl Hes Hnd ltac:(by rewrite T1)) as (paid & m2 & E2 & C2 & S2 & K2 & H2).
  rewrite T1 in H2.
  destruct (record_epoch (number2epoch (apos.RewardEpoch config) number) setRewards paid m2 S2) as (m3 & E3 & U3 & R3).
  exists paid, m3. split; [|split; [|split; [|done]]].
  - unfold buildRewards, mbind, M_bind.
    assert (uint256.Sub number (apos.RewardEpoch config) = first) as ->.
    { rewrite uint256.Sub_spec by (unfold word; lia). apply wrap256_small. unfold word, first. lia. }
    rewrite pred_word by lia. by rewrite E1, E2, E3.
  - intros a Ha. rewrite U3. destruct (H2 a Ha) as [-> ->]. specialize (Hin a Ha).
    destruct (reward_of (tx m) tasks a) as [x|] eqn:E.
    + rewrite decide_True, bool_decide_eq_true_2, andb_true_r by (by apply Hin). by destruct setRewards.
    + rewrite decide_False, bool_decide_eq_false_2, andb_false_r by (rewrite Hin; tauto). done.
  - intros k x Hk. destruct (decide (k ∈ (iter _ (map_to_list (rewardMap maps))).*1)) as [Hi|Hi]; [|by rewrite K2, lookup_empty in Hk].
    apply list_elem_of_fmap in Hi as (e & -> & Hi). rewrite list.Forall_forall in Hes. destruct (Hes e Hi) as (a & Ha & -> & _). by exists a.
Qed.

(** C24: The rewards of an epoch that does not start at the genesis block.  With fuel for
    its blocks the computation returns: an account with tasks and a deposit is due what
    it earned and what was carried over for it; it is paid that if it reaches the limit,
    and otherwise it is carried over; no other account is paid or touched.  Without
    [setRewards] nothing is carried over or cleared. *)
Theorem buildRewards_settles config number (setRewards : bool) (m : Memory T) : epoch_ok config number (tx m) ->
  exists paid m', buildRewards blocks json_Marshal uint256_String iter (S (Z.to_nat (apos.RewardEpoch config))) config number setRewards m
      = Done (inl paid, m') /\ settled config number setRewards (tx m) (tx m') paid.
Proof. intros (paid & m' & E & H & _)%(buildRewards_run _ _ setRewards). by exists paid, m'. Qed.

(** Reading a map into one keyed by addresses. *)
Lemma by_address (l : list (bytes * Z)) : forall (resp : gmap Z Z) a, address a ->
  NoDup l.*1 -> (forall k x, (k, x) ∈ l -> exists b, address b /\ k = Address_Hex b) ->
  foldl (fun (resp : gmap Z Z) '(addr, value) => <[HexToAddress addr := value]> resp) resp l !! a =
  match (list_to_map l : gmap bytes Z) !! Address_Hex a with Some x => Some x | None => resp !! a end.
Proof.
  induction l as [|[k x] l IH]; intros resp a Ha Hnd Hk; [by cbn; rewrite lookup_empty|].
  cbn in Hnd. apply list.NoDup_cons in Hnd as [Hnot Hnd]. cbn [foldl]. rewrite IH; [|done|done|intros k' x' Hin; eapply Hk; by apply list.elem_of_cons; right].
  destruct (Hk k x) as (b & Hb & ->); [apply list.elem_of_cons; by left|]. rewrite HexToAddress_Hex, list_to_map_cons by done.
  destruct (decide (a = b)) as [->|Hne].
  - rewrite (lookup_insert_eq _ (Address_Hex b)), lookup_insert_eq, (not_elem_of_list_to_map_1 l (Address_Hex b)) by done. done.
  - rewrite (lookup_insert_ne _ (Address_Hex b)), lookup_insert_ne by (done || (intros E; apply Hne; symmetry; by apply Address_Hex_inj)). done.
Qed.

(** The rewards that an epoch paid are the rewards that a query for its block reports,
    address by address. *)
Theorem rewards_reported json_Unmarshal config number (m : Memory T) :
  (forall p, zlen (json_Marshal p) <> 0 /\ json_Unmarshal (json_Marshal p) = inl p) -> epoch_ok config number (tx m) ->
  exists paid m', buildRewards blocks json_Marshal uint256_String iter (S (Z.to_nat (apos.RewardEpoch config))) config number true m
      = Done (inl paid, m') /\
    (paid = ∅ \/ exists resp, GetBlockRewards json_Unmarshal uint256_String iter (tx m') (apos.RewardEpoch config) number = inl resp /\
                 forall a, address a -> resp !! a = paid !! Address_Hex a).
Proof.
  intros Hj (paid & m' & E & _ & Hk & Hrec)%(buildRewards_run _ _ true). exists paid, m'. split; [done|].
  destruct (decide (paid = ∅)) as [|Hne]; [by left|right]. specialize (Hrec eq_refl Hne). destruct (Hj paid) as [Hz Hu].
  unfold GetBlockRewards, GetEpochReward. rewrite Hrec. cbn [from_option]. unfold Datatypes.id. destruct (Z.eqb_spec (zlen (json_Marshal paid)) 0); [done|].
  rewrite Hu. eexists. split; [done|]. cbn [from_option]. unfold Datatypes.id. intros a Ha. rewrite by_address; [|done| |].
  - rewrite lookup_empty. rewrite (list_to_map_proper _ (map_to_list paid)); [rewrite list_to_map_to_list; by destruct (paid !! _)| |apply iter_perm].
    rewrite (iter_perm _ (map_to_list paid)). apply NoDup_fst_map_to_list.
  - rewrite (iter_perm _ (map_to_list paid)). apply NoDup_fst_map_to_list.
  - intros k x. rewrite (iter_perm _ (map_to_list paid)), elem_of_map_to_list. by apply Hk.
Qed.

(** The first epoch is not paid: below the genesis block the block number wraps around
    to the largest one, which has no canonical hash, and the computation returns no
    rewards, whatever the tasks were. *)
Theorem first_epoch_unpaid (config : apos.APosConfig) (setRewards : bool) (m : Memory T) :
  let n := Z.to_nat (apos.RewardEpoch config) in
  deposits_ok (tx m) -> 0 <= apos.RewardEpoch config < two64 ->
  (forall k, 0 <= k < apos.RewardEpoch config -> readable blocks verifiers k) ->
  ReadCanonicalHash blocks (two64 - 1) = (0, None) ->
  Forall (fun v => address v) (epoch_tasks verifiers n 0) -> zlen (epoch_tasks verifiers n 0) < two64 ->
  exists m', buildRewards blocks json_Marshal uint256_String iter (S n) config (apos.RewardEpoch config) setRewards m = Done (inl ∅, m') /\
    tx m' = tx m.
Proof.
  intros n Hdep He Hr Hnone Hvs Hlen. assert (Hn : Z.of_nat n = apos.RewardEpoch config) by (unfold n; lia).
  destruct (scan_genesis blocks (tx m) verifiers n (mkMaps ∅ ∅) m []) as (m1 & E1 & T1);
    [done|done|apply no_rewards|lia|by rewrite Hn|done|done|done|]. rewrite Hn in E1.
  exists m1. split; [|done]. unfold buildRewards, mbind, M_bind.
  assert (uint256.Sub (apos.RewardEpoch config) (apos.RewardEpoch config) = 0) as ->.
  { rewrite uint256.Sub_spec by (unfold word; lia). by rewrite Z.sub_diag. }
  by rewrite E1.
Qed.
End Build.

(** * Deposits and rewards: concrete runs

    A verifier deposits, verifies the blocks of an epoch, and is paid more than the
    maximum of its plan. *)

From S2P Require Import Commit Transaction.

(** Keys and signatures are byte strings of the right length. *)
Definition bytes_bls : BLS := {|
  bls_Signature := bytes;
  bls_PublicKey := bytes;
  SignatureFromBytes bs := if (length bs =? 96)%nat then Some bs else None;
  PublicKeyFromBytes bs := if (length bs =? 48)%nat then Some bs else None;
  Verify sig pk msg := bool_decide (sig = pk ++ pk);
  Marshal pk := pk
|}.

Lemma bytes_bls_laws : BLSLaws bytes_bls.
Proof. split. cbn. intros bs pk. destruct (Nat.eqb_spec (length bs) 48) as [E|]; [|done]. intros [= <-]. by rewrite E. Qed.

Section Run.
#[local] Existing Instances ref_uint256 ref_crypto map_kv map_kv_laws bytes_bls bytes_bls_laws.
Notation in_order := (fun (A : Type) (l : list A) => l).

Definition key : bytes := repeat 1 48.
Definition amount : Z := 10 * deposit.AMT.

(** The data of the log of a deposit is its key. *)
Definition unpack (data : bytes) : option (bytes * Z * bytes) := Some (data, amount, data ++ data).
Definition contract_log (topic : Z) : Log := mkLog 5 [topic] key 1 77 0 0 0 false.

Definition deposit_logs : list Log := [contract_log depositEventSignature; contract_log 3].

(** The entries of a table whose keys are consecutive numbers. *)
#[local] Instance map_range : KVRange table_map := {|
  ForAmount db t from n := (omap (fun i => let k := Z_to_be 8 (be_to_Z from + i) in (fun v => (k, v)) <$> db !! (t, k)) (seqZ 0 n), None)
|}.

#[local] Instance map_range_laws : KVRangeLaws map_kv map_range.
Proof.
  split; cbn.
  - intros db db' t k v t' from n [= <-] Hne. f_equal. induction (seqZ 0 n) as [|i l IH]; [done|]. cbn. by rewrite lookup_insert_ne, IH by (by intros [= ? _]).
  - intros db db' t k t' from n [= <-] Hne. f_equal. induction (seqZ 0 n) as [|i l IH]; [done|]. cbn. by rewrite lookup_delete_ne, IH by (by intros [= ? _]).
Qed.

(** Block 1 has one transaction, stored as the address of its sender; its hash is 77. *)
Definition sent_by (bs : bytes) : pbTransaction + error :=
  let zero := Some (ConvertUint256IntToH256 0) in
  inl (mkPbTransaction 0 0 zero 0 None None zero [] None None (Some (address_to_pb (be_to_Z bs))) 0 None None None).
Definition hash_77 (tx : TxData) : Z := 77.

Definition indexed_db : table_map := {[
  (rawdb.TxLookup, Z_to_be 32 77) := [1];
  (rawdb.HeaderCanonical, rawdb.EncodeBlockNumber 1) := Z_to_be 32 55;
  (rawdb.BlockBody, rawdb.BlockBodyKey 1 55) := Z_to_be 8 0 ++ Z_to_be 4 3;
  (rawdb.BlockTx, Z_to_be 8 1) := Z_to_be 20 9 ]}.

Lemma indexed_77 : looked_up sent_by hash_77 indexed_db 77 /\ sender_in sent_by hash_77 indexed_db 77 = Some 9.
Proof.
  assert (E : exists tx, rawdb.ReadTransactionByHash sent_by hash_77 indexed_db 77 = Done (Some tx, None) /\ tx_From tx = Some 9) by (eexists; vm_compute; split; reflexivity).
  destruct E as (tx & E & Ef). split; [|unfold sender_in; by rewrite E]. exists (Some tx). split; [done|]. intros ? [= <-]. exists 9. split; [done|]. vm_compute. split; congruence.
Qed.

Lemma handle_logs_refines_witness : exists db,
  handle_logs unpack sent_by hash_77 (Address_Hex 5) ((fun l => (mkDbRun true true, l)) <$> deposit_logs) indexed_db = Done ((), db) /\
  GetDeposit db 9 = Some (key, amount).
Proof.
  destruct (handle_logs_refines unpack (Address_Hex 5) sent_by hash_77 deposit_logs indexed_db ∅) as (db & E & H).
  - repeat (apply Forall_cons_2; [apply indexed_77|]). apply Forall_nil_2.
  - done.
  - intros a Ha. unfold GetDeposit, indexed_db. cbn -[Z_to_be]. rewrite !lookup_insert_ne, lookup_singleton_ne by done. done.
  - repeat (apply Forall_cons_2; [split; [done|]; intros ? ? ? [= <- <- <-]; vm_compute; split; congruence|]). apply Forall_nil_2.
  - exists db. split; [exact E|]. rewrite H by (vm_compute; split; congruence). cbn [foldl deposit_logs]. unfold ledger_step. cbn [log_TxHash contract_log]. rewrite (proj2 indexed_77). vm_compute. reflexivity.
Defined.

(** ** An epoch of twelve blocks, all verified by the depositor *)

Definition deposit_db : table_map := {[ (Deposit_table, Z_to_be 20 9) := key ++ uint256.Bytes amount ]}.

Definition twelve_config : apos.APosConfig := apos.mkAPosConfig 1000 12 5.
Definition stored_blocks : Blocks := mkBlocks
  (fun k => (if k <? 1000 then k + 1 else 0, None)) (fun hash k => Some (hash, k)) (fun hash k => Some [9]).
Definition nine (k : Z) : list Z := [9].

Lemma deposit_db_ok : deposits_ok deposit_db.
Proof.
  intros a x. unfold deposited, GetDeposit, deposit_db. cbn -[uint256.Bytes Z_to_be key amount].
  destruct (decide (Z_to_be 20 9 = Z_to_be 20 a)) as [<-|Hne].
  - rewrite lookup_singleton_eq. intros E. eexists. assert (x = amount) as -> by (by vm_compute in E; injection E). vm_compute. reflexivity.
  - rewrite lookup_singleton_ne; [done|]. by intros E%(f_equal snd).
Qed.

Lemma all_readable k : 0 <= k < 1000 -> readable stored_blocks nine k.
Proof. intros Hk. exists (k + 1), (k + 1), k. cbn. destruct (Z.ltb_spec k 1000); [|lia]. split_and!; [done|lia|done|done]. Qed.

(** What the plan allows, and what is paid. *)
Definition plan_max : Z := match deposit_plan amount with Done (_, max) => max | _ => 0 end.

Definition twelve_reward : Z := Eval vm_compute in default 0 (reward_of deposit_db (repeat 9 12) 9).

Lemma reward_of_nine : reward_of deposit_db (repeat 9 12) 9 = Some twelve_reward.
Proof. vm_compute. reflexivity. Qed.

(** Any coding of maps that can be read back. *)
Definition map_json (p : gmap bytes Z) : bytes := [Z.pos (encode (map_to_list p))].
Definition map_unjson (bs : bytes) : gmap bytes Z + error :=
  match bs with
  | [Z.pos x] => match decode x : option (list (bytes * Z)) with Some l => inl (list_to_map l) | None => inr (ReadError "json") end
  | _ => inr (ReadError "json")
  end.

Lemma map_json_read p : zlen (map_json p) <> 0 /\ map_unjson (map_json p) = inl p.
Proof. split; [done|]. unfold map_unjson, map_json. rewrite decode_encode. by rewrite list_to_map_to_list. Qed.

Lemma twelve_ok : epoch_ok stored_blocks nine twelve_config 24 deposit_db.
Proof.
  split.
  - apply deposit_db_ok.
  - by split.
  - vm_compute. split; congruence.
  - vm_compute. repeat split; congruence.
  - intros k Hk. apply all_readable. cbn in Hk. lia.
  - cbn. repeat (apply Forall_cons_2; [split; vm_compute; congruence|]). apply Forall_nil_2.
  - vm_compute. reflexivity.
Qed.

Lemma buildRewards_settles_witness : exists paid m' x,
  buildRewards stored_blocks map_json (fun _ => []) in_order 13 twelve_config 24 true (mkMemory [] deposit_db) = Done (inl paid, m') /\
  paid !! Address_Hex 9 = Some x /\ plan_max < x.
Proof.
  destruct (buildRewards_settles map_json (fun _ => []) stored_blocks nine in_order (fun _ _ => Permutation_refl _)
    twelve_config 24 true (mkMemory [] deposit_db) twelve_ok) as (paid & m' & E & H).
  exists paid, m'. eexists. split; [exact E|]. specialize (H 9 ltac:(vm_compute; split; congruence)).
  change (tasks_before _ _ _) with (repeat 9 12) in H. cbn [tx] in H. rewrite reward_of_nine in H. destruct H as [H _].
  split; [exact H|]. vm_compute. reflexivity.
Defined.

Lemma rewards_reported_witness : exists paid m',
  buildRewards stored_blocks map_json (fun _ => []) in_order 13 twelve_config 24 true (mkMemory [] deposit_db) = Done (inl paid, m') /\
  (paid = ∅ \/ exists resp, GetBlockRewards map_unjson (fun _ => []) in_order (tx m') 12 24 = inl resp /\ resp !! 9 = paid !! Address_Hex 9).
Proof.
  destruct (rewards_reported map_json (fun _ => []) stored_blocks nine in_order (fun _ _ => Permutation_refl _)
    map_unjson twelve_config 24 (mkMemory [] deposit_db) map_json_read twelve_ok) as (paid & m' & E & H).
  exists paid, m'. split; [exact E|]. destruct H as [H|(resp & H1 & H2)]; [by left|]. right. exists resp. split; [exact H1|].
  apply H2. vm_compute. split; congruence.
Defined.

Lemma first_epoch_unpaid_witness : exists m',
  buildRewards stored_blocks (fun _ => []) (fun _ => []) in_order 13 twelve_config 12 true (mkMemory [] deposit_db) = Done (inl ∅, m').
Proof.
  destruct (first_epoch_unpaid (fun _ => []) (fun _ => []) stored_blocks nine in_order twelve_config true (mkMemory [] deposit_db)) as (m' & E & _).
  - apply deposit_db_ok.
  - vm_compute. split; congruence.
  - intros k Hk. apply all_readable. cbn in Hk. lia.
  - done.
  - cbn. repeat (apply Forall_cons_2; [split; vm_compute; congruence|]). apply Forall_nil_2.
  - vm_compute. reflexivity.
  - exists m'. exact E.
Defined.
End Run.
