(* ===== verification/Heap.v ===== *)
(** * [container/heap]

    The heap operations of the Go standard library on a slice, for any order [less],
    and what they promise: the slice stays a heap, keeps its elements, and its first
    element is a least one.

    The loops are functions with fuel; an index starts below the length, so the length
    is enough.  An operation on an index out of range panics. *)

From S2P Require Import Prelude.

Module heap.
Section Heap.
Context {A : Type} (less : A -> A -> bool).

Definition parent (j : nat) : nat := (j - 1) / 2.

Definition Swap (l : list A) (i j : nat) : list A :=
  match l !! i, l !! j with Some x, Some y => <[i := y]> (<[j := x]> l) | _, _ => l end.

(** [h.Less(i, j)] *)
Definition Less (l : list A) (i j : nat) : bool :=
  match l !! i, l !! j with Some x, Some y => less x y | _, _ => false end.

Fixpoint up_loop (fuel : nat) (l : list A) (j : nat) : list A :=
  match fuel with
  | O => l
  | S fuel =>
      let i := parent j in
      if (i =? j)%nat || negb (Less l j i) then l else up_loop fuel (Swap l i j) i
  end.

Definition up (l : list A) (j : nat) : list A := up_loop (S j) l j.

Fixpoint down_loop (fuel : nat) (l : list A) (i n : nat) : list A * nat :=
  match fuel with
  | O => (l, i)
  | S fuel =>
      let j1 := (2 * i + 1)%nat in
      if (n <=? j1)%nat then (l, i) else
      let j2 := S j1 in
      let j := if (j2 <? n)%nat && Less l j2 j1 then j2 else j1 in
      if negb (Less l j i) then (l, i) else down_loop fuel (Swap l i j) j n
  end.

Definition down (l : list A) (i0 n : nat) : list A * bool :=
  let '(l, i) := down_loop (S (length l)) l i0 n in (l, (i0 <? i)%nat).

(** The loop of [Init], with [k] indices left. *)
Fixpoint Init_loop (k : nat) (l : list A) : list A :=
  match k with O => l | S i => Init_loop i (down l i (length l)).1 end.

Definition Init (l : list A) : list A := Init_loop (length l / 2) l.

Definition Push (l : list A) (x : A) : list A := let l := l ++ [x] in up l (length l - 1).

(** The last element, and the slice without it. *)
Definition Pop_last (l : list A) : outcome (A * list A) :=
  match list.last l with Some x => Done (x, take (length l - 1) l) | None => GoPanic end.

Definition Pop (l : list A) : outcome (A * list A) :=
  if (length l =? 0)%nat then GoPanic else
  let n := (length l - 1)%nat in
  Pop_last (down (Swap l 0 n) 0 n).1.

Definition Remove (l : list A) (i : nat) : outcome (A * list A) :=
  if (length l <=? i)%nat then GoPanic else
  let n := (length l - 1)%nat in
  if (n =? i)%nat then Pop_last l else
  let '(l, moved) := down (Swap l i n) i n in
  Pop_last (if (moved : bool) then l else up l i).

(** ** The order *)

Class StrictWeak : Prop := {
  less_asym x y : less x y = true -> less y x = false;
  less_trans x y z : less y x = false -> less z y = false -> less z x = false
}.
Context {W : StrictWeak}.

(** [x] may come before [y]. *)
Notation le x y := (less y x = false).

Lemma le_refl x : le x x.
Proof. destruct (less x x) eqn:E; [|done]. pose proof (less_asym _ _ E). congruence. Qed.

(** ** Slices *)

Lemma Swap_length l i j : length (Swap l i j) = length l.
Proof. unfold Swap. destruct (l !! i), (l !! j); by rewrite ?length_insert. Qed.

Lemma Swap_lookup l i j x y k : l !! i = Some x -> l !! j = Some y ->
  Swap l i j !! k = if decide (k = i) then Some y else if decide (k = j) then Some x else l !! k.
Proof.
  intros Hi Hj. unfold Swap. rewrite Hi, Hj. apply lookup_lt_Some in Hi as Li. apply lookup_lt_Some in Hj as Lj.
  repeat case_decide; subst.
  - rewrite list_lookup_insert_eq; [done|by rewrite length_insert].
  - rewrite list_lookup_insert_ne, list_lookup_insert_eq by done. done.
  - by rewrite !list_lookup_insert_ne.
Qed.

Lemma Swap_perm l i j : Swap l i j ≡ₚ l.
Proof.
  unfold Swap. destruct (l !! i) as [x|] eqn:Hi, (l !! j) as [y|] eqn:Hj; try done.
  by apply Permutation_insert_swap.
Qed.

Lemma parent_bounds j : (2 * parent j <= j - 1 <= 2 * parent j + 1)%nat.
Proof. unfold parent. pose proof (Nat.div_mod_eq (j - 1) 2). pose proof (Nat.mod_upper_bound (j - 1) 2). lia. Qed.

Ltac parents := repeat match goal with
  | |- context [parent ?j] => lazymatch goal with _ : (2 * parent j <= _ <= _)%nat |- _ => fail | _ => pose proof (parent_bounds j) end
  | _ : context [parent ?j] |- _ => lazymatch goal with _ : (2 * parent j <= _ <= _)%nat |- _ => fail | _ => pose proof (parent_bounds j) end
  end.

(** The element at [i] may come before the one at [j]. *)
Definition ordered (l : list A) (i j : nat) : Prop := forall x y, l !! i = Some x -> l !! j = Some y -> le x y.

(** A heap from index [lo] on. *)
Definition heap_from (lo : nat) (l : list A) : Prop :=
  forall j, (0 < j)%nat -> (lo <= parent j)%nat -> ordered l (parent j) j.

Definition is_heap (l : list A) : Prop := heap_from 0 l.

(** A heap but for the element at [i], which may be too large for its children. *)
Definition hole_down (lo i : nat) (l : list A) : Prop :=
  (forall j, (0 < j)%nat -> (lo <= parent j)%nat -> parent j <> i -> ordered l (parent j) j) /\
  (forall j, (0 < j)%nat -> parent j = i -> (0 < i)%nat -> (lo <= parent i)%nat -> ordered l (parent i) j).

Lemma Less_spec l i j x y : l !! i = Some x -> l !! j = Some y -> Less l i j = less x y.
Proof. intros Hi Hj. unfold Less. by rewrite Hi, Hj. Qed.

(** The smaller child [c] of [i] goes up. *)
Lemma hole_down_step lo i c l x y : hole_down lo i l -> l !! i = Some x -> l !! c = Some y -> (0 < c)%nat -> parent c = i ->
  less y x = true -> (forall s, (0 < s)%nat -> parent s = i -> ordered l c s) -> hole_down lo c (Swap l i c).
Proof.
  intros [H1 H2] Hi Hc Hc0 Hp Hlt Hs. unfold ordered in *. split.
  - intros j Hj Hlo Hne a b. rewrite !(Swap_lookup _ _ _ _ _ _ Hi Hc). parents. repeat case_decide; try lia.
    + intros [= <-] [= <-]. by apply less_asym.
    + intros [= <-] Hb. eapply (Hs j); [done|done|done|done].
    + intros Ha [= <-]. assert (j = i) as -> by done. eapply (H2 c); try done; lia.
    + intros Ha Hb. by eapply (H1 j).
  - intros j Hj Hp' Hc' Hlo a b. rewrite !(Swap_lookup _ _ _ _ _ _ Hi Hc). rewrite Hp. parents. repeat case_decide; try lia.
    intros [= <-] Hb. eapply (H1 j); [done|lia|lia|by rewrite Hp'|done].
Qed.

(** The child the loop chooses. *)
Lemma smaller_child l i : (2 * i + 1 < length l)%nat ->
  let c := if (S (2 * i + 1) <? length l)%nat && Less l (S (2 * i + 1)) (2 * i + 1) then S (2 * i + 1) else (2 * i + 1)%nat in
  (c < length l)%nat /\ (0 < c)%nat /\ parent c = i /\ (i < c)%nat /\ forall s, (0 < s)%nat -> parent s = i -> ordered l c s.
Proof.
  intros Hl c. set (j1 := (2 * i + 1)%nat) in *. assert (Hc : (c = j1 \/ c = S j1)%nat) by (unfold c; destruct (_ && _); auto).
  assert (parent c = i) by (parents; unfold j1 in *; lia).
  assert ((c < length l)%nat) by (unfold c; destruct (Nat.ltb_spec (S j1) (length l)), (Less l (S j1) j1); cbn; lia).
  split_and!; [done|unfold j1 in *; lia|done|unfold j1 in *; lia|].
  intros s Hs Hps. assert (s = j1 \/ s = S j1) as Hs' by (parents; unfold j1; lia). intros x y Hx Hy.
  unfold c in Hx. destruct (Nat.ltb_spec (S j1) (length l)) as [Hlt|Hge]; cbn [andb] in Hx.
  - destruct (lookup_lt_is_Some_2 l j1 Hl) as [a Ha]. destruct (lookup_lt_is_Some_2 l (S j1) Hlt) as [b Hb].
    rewrite (Less_spec _ _ _ _ _ Hb Ha) in Hx. destruct (less b a) eqn:E; destruct Hs' as [-> | ->]; simplify_eq;
      try apply le_refl; [by apply less_asym|done].
  - destruct Hs' as [-> | ->]; [simplify_eq; apply le_refl|]. apply lookup_lt_Some in Hy. lia.
Qed.

Lemma down_loop_ok lo fuel : forall l i, (length l <= fuel + i)%nat -> (i < length l)%nat -> hole_down lo i l ->
  let '(l', i') := down_loop fuel l i (length l) in
  heap_from lo l' /\ l' ≡ₚ l /\ (i <= i')%nat /\ (i' = i -> l' = l).
Proof.
  induction fuel as [|fuel IH]; intros l i Hf Hi Hh; [lia|]. cbn [down_loop].
  destruct (Nat.leb_spec (length l) (2 * i + 1)) as [Hge|Hlt].
  { split_and!; [|done|done|done]. intros j Hj Hlo x y Hx Hy. apply lookup_lt_Some in Hy as Ly.
    eapply (proj1 Hh j); try done. parents. lia. }
  pose proof (smaller_child l i Hlt) as Hc. cbn zeta in Hc. set (c := if _ && _ then _ else _) in *.
  destruct Hc as (Hlen & Hc0 & Hp & Hic & Hs).
  destruct (lookup_lt_is_Some_2 l i Hi) as [x Hx]. destruct (lookup_lt_is_Some_2 l c Hlen) as [y Hy].
  rewrite (Less_spec _ _ _ _ _ Hy Hx). destruct (less y x) eqn:E; cbn [negb].
  - specialize (IH (Swap l i c) c). rewrite Swap_length in IH. pose proof (hole_down_step lo i c l x y Hh Hx Hy Hc0 Hp E Hs) as Hh'.
    specialize (IH ltac:(lia) Hlen Hh'). destruct (down_loop fuel (Swap l i c) c (length l)) as [l' i'].
    destruct IH as (H1 & H2 & H3 & _). split_and!; [done| |lia|lia]. by rewrite H2, Swap_perm.
  - split_and!; [|done|done|done]. intros j Hj Hlo a b Ha Hb. destruct (decide (parent j = i)) as [Hji|Hji]; [|by eapply (proj1 Hh j)].
    rewrite Hji in Ha. simplify_eq. eapply less_trans; [exact E|]. by eapply (Hs j).
Qed.

Lemma down_ok lo l i : (i < length l)%nat -> hole_down lo i l ->
  heap_from lo (down l i (length l)).1 /\ (down l i (length l)).1 ≡ₚ l /\ ((down l i (length l)).2 = false -> (down l i (length l)).1 = l).
Proof.
  intros Hi Hh. unfold down. pose proof (down_loop_ok lo (S (length l)) l i ltac:(lia) Hi Hh) as H.
  destruct (down_loop _ _ _ _) as [l' i']. destruct H as (H1 & H2 & H3 & H4). cbn. split_and!; try done.
  intros E. apply H4. apply Nat.ltb_ge in E. lia.
Qed.

Lemma Init_loop_ok k : forall l, (2 * k <= length l)%nat -> heap_from k l -> is_heap (Init_loop k l) /\ Init_loop k l ≡ₚ l.
Proof.
  induction k as [|k IH]; intros l Hl Hh; [done|]. cbn [Init_loop].
  destruct (down_ok k l k) as (H1 & H2 & _); [lia| |].
  { split; [|intros j Hj Hp Hk Hlo; parents; lia]. intros j Hj Hlo Hne. apply Hh; [done|lia]. }
  destruct (IH (down l k (length l)).1) as [H3 H4]; [rewrite H2; lia|done|]. split; [done|]. by rewrite H4, H2.
Qed.

Theorem Init_ok l : is_heap (Init l) /\ Init l ≡ₚ l.
Proof.
  apply Init_loop_ok; [pose proof (Nat.div_mod_eq (length l) 2); lia|].
  intros j Hj Hlo x y Hx Hy. apply lookup_lt_Some in Hy. parents.
  pose proof (Nat.div_mod_eq (length l) 2). pose proof (Nat.mod_upper_bound (length l) 2). lia.
Qed.

(** A heap but for the element at [j], which may be too small for its parent. *)
Definition hole_up (j : nat) (l : list A) : Prop :=
  (forall k, (0 < k)%nat -> k <> j -> ordered l (parent k) k) /\
  (forall k, (0 < k)%nat -> parent k = j -> (0 < j)%nat -> ordered l (parent j) k).

Lemma hole_up_step l j x y : hole_up j l -> (0 < j)%nat -> l !! parent j = Some x -> l !! j = Some y -> less y x = true ->
  hole_up (parent j) (Swap l (parent j) j).
Proof.
  intros [H1 H2] Hj Hx Hy Hlt. unfold ordered in *. split.
  - intros k Hk Hne a b. rewrite !(Swap_lookup _ _ _ _ _ _ Hx Hy). parents. repeat case_decide; try lia.
    + intros [= <-] [= <-]. by apply less_asym.
    + intros [= <-] Hb. eapply less_trans; [by apply less_asym|]. by eapply (H1 k); [..|congruence|].
    + intros [= <-] Hb. by eapply (H2 k).
    + intros Ha Hb. by eapply (H1 k).
  - intros k Hk Hpk Hpj a b. rewrite !(Swap_lookup _ _ _ _ _ _ Hx Hy). parents. repeat case_decide; try lia.
    + intros Ha [= <-]. eapply (H1 (parent j)); try done. lia.
    + intros Ha Hb. eapply less_trans; [eapply (H1 (parent j)); [done|lia|done|exact Hx]|]. eapply (H1 k); [done|done|by rewrite Hpk|done].
Qed.

Lemma up_loop_ok fuel : forall l j, (j < fuel)%nat -> (j < length l)%nat -> hole_up j l ->
  is_heap (up_loop fuel l j) /\ up_loop fuel l j ≡ₚ l.
Proof.
  induction fuel as [|fuel IH]; intros l j Hf Hj Hh; [lia|]. cbn [up_loop].
  destruct (Nat.eqb_spec (parent j) j) as [E|Hne]; cbn [orb].
  { split; [|done]. intros k Hk _. apply Hh; [done|]. parents. lia. }
  assert (0 < j)%nat by (parents; lia).
  destruct (lookup_lt_is_Some_2 l j Hj) as [y Hy]. destruct (lookup_lt_is_Some_2 l (parent j)) as [x Hx]; [parents; lia|].
  rewrite (Less_spec _ _ _ _ _ Hy Hx). destruct (less y x) eqn:E; cbn [negb].
  - destruct (IH (Swap l (parent j) j) (parent j)) as [H1 H2]; [parents; lia|rewrite Swap_length; parents; lia|by eapply hole_up_step|].
    split; [done|]. by rewrite H2, Swap_perm.
  - split; [|done]. intros k Hk _. destruct (decide (k = j)) as [->|]; [|by apply Hh]. intros a b Ha Hb. by simplify_eq.
Qed.

Lemma up_ok l j : (j < length l)%nat -> hole_up j l -> is_heap (up l j) /\ up l j ≡ₚ l.
Proof. intros Hj Hh. apply up_loop_ok; [lia|done|done]. Qed.

Lemma heap_hole_up l j : is_heap l -> hole_up j l.
Proof.
  intros Hh. split; [intros k Hk _; apply Hh; [done|lia]|]. intros k Hk Hp Hj a b Ha Hb.
  destruct (lookup_lt_is_Some_2 l j) as [c Hc]; [apply lookup_lt_Some in Hb; parents; lia|].
  eapply less_trans; [eapply (Hh j); [done|lia|done|exact Hc]|]. eapply (Hh k); [done|lia|by rewrite Hp|done].
Qed.

Theorem Push_ok l x : is_heap l -> is_heap (Push l x) /\ Push l x ≡ₚ x :: l.
Proof.
  intros Hh. unfold Push. destruct (up_ok (l ++ [x]) (length (l ++ [x]) - 1)) as [H1 H2].
  - rewrite length_app. cbn. lia.
  - rewrite length_app. cbn. rewrite Nat.add_sub. split.
    + intros k Hk Hne a b Ha Hb. apply lookup_lt_Some in Hb as Lb. rewrite length_app in Lb. cbn in Lb.
      rewrite lookup_app_l in Hb by lia. rewrite lookup_app_l in Ha by (parents; lia). eapply (Hh k); [done|lia|done|done].
    + intros k Hk Hp Hj a b Ha Hb. apply lookup_lt_Some in Hb as Lb. rewrite length_app in Lb. cbn in Lb. parents. lia.
  - split; [done|]. rewrite H2. by rewrite Permutation_app_comm.
Qed.

(** ** Operations on the slice without its last element *)

Lemma Swap_app l1 l2 i j : (i < length l1)%nat -> (j < length l1)%nat -> Swap (l1 ++ l2) i j = Swap l1 i j ++ l2.
Proof.
  intros Hi Hj. unfold Swap. rewrite !lookup_app_l by done.
  destruct (lookup_lt_is_Some_2 l1 i Hi) as [x ->], (lookup_lt_is_Some_2 l1 j Hj) as [y ->].
  rewrite !insert_app_l by (rewrite ?length_insert; done). done.
Qed.

Lemma Less_app l1 l2 i j : (i < length l1)%nat -> (j < length l1)%nat -> Less (l1 ++ l2) i j = Less l1 i j.
Proof. intros Hi Hj. unfold Less. by rewrite !lookup_app_l. Qed.

Lemma down_loop_app fuel : forall l1 l2 i, (i < length l1)%nat ->
  down_loop fuel (l1 ++ l2) i (length l1) = ((down_loop fuel l1 i (length l1)).1 ++ l2, (down_loop fuel l1 i (length l1)).2).
Proof.
  induction fuel as [|fuel IH]; intros l1 l2 i Hi; [done|]. cbn [down_loop].
  destruct (Nat.leb_spec (length l1) (2 * i + 1)) as [|Hlt]; [done|].
  assert ((S (2 * i + 1) <? length l1)%nat && Less (l1 ++ l2) (S (2 * i + 1)) (2 * i + 1)
          = (S (2 * i + 1) <? length l1)%nat && Less l1 (S (2 * i + 1)) (2 * i + 1)) as ->.
  { destruct (Nat.ltb_spec (S (2 * i + 1)) (length l1)); cbn [andb]; [|done]. by apply Less_app. }
  pose proof (smaller_child l1 i Hlt) as Hc. cbn zeta in Hc. set (c := if _ && _ then _ else _) in *. destruct Hc as (Hc & _).
  rewrite Less_app by done. destruct (negb (Less l1 c i)); [done|]. rewrite Swap_app by done.
  specialize (IH (Swap l1 i c) l2 c). rewrite Swap_length in IH. by apply IH.
Qed.

Lemma down_loop_fuel fuel fuel' : forall l i, (length l <= fuel + i)%nat -> (length l <= fuel' + i)%nat -> (i < length l)%nat ->
  down_loop fuel l i (length l) = down_loop fuel' l i (length l).
Proof.
  revert fuel'. induction fuel as [|fuel IH]; intros fuel' l i H1 H2 Hi; [lia|]. destruct fuel' as [|fuel']; [lia|]. cbn [down_loop].
  destruct (Nat.leb_spec (length l) (2 * i + 1)) as [|Hlt]; [done|].
  pose proof (smaller_child l i Hlt) as Hc. cbn zeta in Hc. set (c := if _ && _ then _ else _) in *.
  destruct Hc as (Hc & _ & _ & Hic & _). destruct (negb (Less l c i)); [done|].
  specialize (IH fuel' (Swap l i c) c). rewrite Swap_length in IH. apply IH; lia.
Qed.

Lemma down_app l x i : (i < length l)%nat ->
  down (l ++ [x]) i (length l) = ((down l i (length l)).1 ++ [x], (down l i (length l)).2).
Proof.
  intros Hi. unfold down. rewrite down_loop_app by done. rewrite length_app. cbn [length].
  rewrite (down_loop_fuel (S (length l + 1)) (S (length l))) by lia. by destruct (down_loop _ _ _ _).
Qed.

Lemma down_length l i : (i < length l)%nat -> length (down l i (length l)).1 = length l.
Proof.
  unfold down. enough (H : forall fuel l i n, length (down_loop fuel l i n).1 = length l).
  { intros _. specialize (H (S (length l)) l i (length l)). by destruct (down_loop _ _ _ _). }
  induction fuel as [|fuel IH]; intros; cbn [down_loop]; [done|]. destruct (_ <=? _)%nat; [done|]. cbn zeta.
  destruct (negb _); [done|]. by rewrite IH, Swap_length.
Qed.

Lemma up_loop_app fuel : forall l1 l2 j, (j < length l1)%nat -> up_loop fuel (l1 ++ l2) j = up_loop fuel l1 j ++ l2.
Proof.
  induction fuel as [|fuel IH]; intros l1 l2 j Hj; [done|]. cbn [up_loop]. assert (parent j < length l1)%nat by (parents; lia).
  rewrite Less_app by done. destruct (_ || _); [done|]. rewrite Swap_app by done. apply IH. by rewrite Swap_length.
Qed.

Lemma Pop_last_app l x : Pop_last (l ++ [x]) = Done (x, l).
Proof.
  unfold Pop_last. rewrite list.last_snoc, length_app. cbn [length]. by rewrite Nat.add_sub, take_app_length.
Qed.

(** The last element put in the place of the one at [i]. *)
Lemma Swap_last l x i y : l !! i = Some y -> Swap (l ++ [x]) i (length l) = <[i := x]> l ++ [y].
Proof.
  intros Hi. apply lookup_lt_Some in Hi as Li. unfold Swap.
  rewrite lookup_app_l, Hi, lookup_app_r, Nat.sub_diag by lia. cbn.
  rewrite (insert_app_r_alt l [x] (length l)), Nat.sub_diag by lia. cbn. by rewrite insert_app_l.
Qed.

(** What an insertion in a heap leaves right. *)
Lemma insert_ordered l i x j : is_heap l -> (0 < j)%nat -> j <> i -> parent j <> i -> ordered (<[i := x]> l) (parent j) j.
Proof.
  intros Hh Hj H1 H2 a b. rewrite !list_lookup_insert_ne by done. apply Hh; [done|lia].
Qed.

Lemma insert_grand l i x j : is_heap l -> (0 < j)%nat -> parent j = i -> (0 < i)%nat -> ordered (<[i := x]> l) (parent i) j.
Proof.
  intros Hh Hj Hp Hi a b. rewrite !list_lookup_insert_ne by (parents; lia). by apply (proj2 (heap_hole_up l i Hh)).
Qed.

(** Replacing an element and restoring the heap. *)
Lemma replace_ok l i x : is_heap l -> (i < length l)%nat ->
  let '(l', moved) := down (<[i := x]> l) i (length l) in
  let r := if (moved : bool) then l' else up l' i in is_heap r /\ r ≡ₚ <[i := x]> l.
Proof.
  intros Hh Hi. pose proof (length_insert l i x) as Hlen. set (l1 := <[i := x]> l) in *.
  assert (Hx : l1 !! i = Some x) by by apply list_lookup_insert_eq.
  assert (Hdown : (0 < i)%nat -> ordered l1 (parent i) i -> hole_down 0 i l1).
  { intros Hi0 Ho. split; [|intros j Hj Hp _ _; by apply insert_grand]. intros j Hj _ Hne.
    destruct (decide (j = i)) as [->|]; [done|]. by apply insert_ordered. }
  rewrite <- Hlen. assert (Hi1 : (i < length l1)%nat) by lia.
  destruct (decide (i = 0%nat)) as [->|Hi0].
  { destruct (down_ok 0 l1 0 Hi1) as (H1 & H2 & H3).
    { split; [|lia]. intros j Hj _ Hne. apply insert_ordered; [done|done|lia|done]. }
    destruct (down l1 0 (length l1)) as [l' moved] eqn:E. cbn in *. destruct moved; [done|].
    destruct (up_ok l' 0) as [H4 H5]; [rewrite H2; lia|by apply heap_hole_up|]. split; [exact H4|]. etransitivity; [exact H5|exact H2]. }
  destruct (lookup_lt_is_Some_2 l1 (parent i)) as [y Hy]; [parents; lia|]. destruct (less x y) eqn:Exy.
  - assert (Hchild : forall j, (0 < j)%nat -> parent j = i -> ordered l1 i j).
    { intros j Hj Hp a b Ha Hb. rewrite Hx in Ha. injection Ha as <-.
      eapply less_trans; [by apply less_asym|]. by eapply (insert_grand l i x j Hh Hj Hp); [lia|..]. }
    assert (Hd : down l1 i (length l1) = (l1, false)).
    { unfold down. cbn [down_loop]. destruct (Nat.leb_spec (length l1) (2 * i + 1)) as [|Hlt]; [cbv beta iota; by rewrite Nat.ltb_irrefl|].
      pose proof (smaller_child l1 i Hlt) as Hc. cbn zeta in Hc. set (c := if _ && _ then _ else _) in *. destruct Hc as (Hc & Hc0 & Hp & _).
      destruct (lookup_lt_is_Some_2 l1 c Hc) as [z Hz]. rewrite (Less_spec _ _ _ _ _ Hz Hx).
      rewrite (Hchild c Hc0 Hp _ _ Hx Hz). cbv beta iota delta [negb]. by rewrite Nat.ltb_irrefl. }
    rewrite Hd. apply up_ok; [lia|]. split.
    + intros k Hk Hne. destruct (decide (parent k = i)) as [Hp|Hp]; [rewrite Hp; by apply Hchild|by apply insert_ordered].
    + intros k Hk Hp Hi'. by apply insert_grand.
  - destruct (down_ok 0 l1 i Hi1) as (H1 & H2 & H3); [apply Hdown; [lia|]; intros a b Ha Hb; by simplify_eq|].
    destruct (down l1 i (length l1)) as [l' moved] eqn:E. cbn in *. destruct moved; [done|].
    destruct (up_ok l' i) as [H4 H5]; [rewrite H2; lia|by apply heap_hole_up|]. split; [exact H4|]. etransitivity; [exact H5|exact H2].
Qed.

Lemma replaced_perm (l : list A) i x e : l !! i = Some x -> x :: <[i := e]> l ≡ₚ e :: l.
Proof.
  intros (l1 & l2 & -> & ->)%list_elem_of_split_length. rewrite insert_app_r_alt, Nat.sub_diag by lia. cbn.
  rewrite <- !Permutation_middle. by constructor.
Qed.

Lemma is_heap_prefix l x : is_heap (l ++ [x]) -> is_heap l.
Proof.
  intros Hh j Hj _ a b Ha Hb. eapply (Hh j); [done|lia| |]; rewrite lookup_app_l; try done; by eapply lookup_lt_Some.
Qed.

Theorem Remove_ok l i x : is_heap l -> l !! i = Some x -> exists l', Remove l i = Done (x, l') /\ is_heap l' /\ x :: l' ≡ₚ l.
Proof.
  intros Hh Hx. apply lookup_lt_Some in Hx as Li. destruct l as [|e l _] using rev_ind; [cbn in Li; lia|].
  apply is_heap_prefix in Hh as Hh'. rewrite length_app in Li. cbn in Li. unfold Remove. rewrite length_app. cbn [length]. rewrite Nat.add_sub.
  destruct (Nat.leb_spec (length l + 1) i); [lia|]. destruct (Nat.eqb_spec (length l) i) as [<-|Hne].
  - rewrite lookup_app_r, Nat.sub_diag in Hx by lia. injection Hx as <-. exists l. rewrite Pop_last_app. split; [done|]. split; [done|].
    by rewrite Permutation_app_comm.
  - rewrite lookup_app_l in Hx by lia. rewrite (Swap_last _ _ _ _ Hx). pose proof (replace_ok l i e Hh' ltac:(lia)) as Hr.
    pose proof (down_app (<[i := e]> l) x i) as Hd. rewrite length_insert in Hd. rewrite Hd by lia.
    pose proof (down_length (<[i := e]> l) i) as Hdl. rewrite length_insert in Hdl. specialize (Hdl ltac:(lia)).
    destruct (down (<[i := e]> l) i (length l)) as [l' moved]. cbn [fst snd] in *.
    assert ((if moved then l' ++ [x] else up (l' ++ [x]) i) = (if moved then l' else up l' i) ++ [x]) as ->.
    { destruct moved; [done|]. unfold up. apply up_loop_app. lia. }
    rewrite Pop_last_app. eexists. split; [done|]. destruct Hr as [H1 H2]. split; [done|]. rewrite H2.
    rewrite (Permutation_app_comm l [e]). cbn. by apply replaced_perm.
Qed.

Lemma heap_min l x y : is_heap l -> l !! 0%nat = Some x -> y ∈ l -> le x y.
Proof.
  intros Hh Hx [k Hk]%list_elem_of_lookup_1. revert y Hk. induction k as [k IH] using lt_wf_ind. intros y Hk.
  destruct (decide (k = 0%nat)) as [->|Hk0]; [simplify_eq; apply le_refl|].
  destruct (lookup_lt_is_Some_2 l (parent k)) as [z Hz]; [apply lookup_lt_Some in Hk; parents; lia|].
  eapply less_trans; [eapply (IH (parent k)); [parents; lia|exact Hz]|]. eapply (Hh k); [lia|lia|done|done].
Qed.

Lemma Pop_Remove l : l <> [] -> Pop l = Remove l 0.
Proof.
  intros Hne. unfold Pop, Remove. destruct l as [|e l]; [done|]. cbn [length Nat.eqb Nat.leb]. rewrite Nat.sub_succ, Nat.sub_0_r.
  destruct l as [|e' l]; [done|]. cbn [length Nat.eqb]. by destruct (down _ 0 _) as [l' []].
Qed.

(** The least element is popped. *)
Theorem Pop_ok l x : is_heap l -> l !! 0%nat = Some x ->
  exists l', Pop l = Done (x, l') /\ is_heap l' /\ x :: l' ≡ₚ l /\ forall y, y ∈ l' -> le x y.
Proof.
  intros Hh Hx. destruct (Remove_ok l 0 x Hh Hx) as (l' & E & H1 & H2). exists l'. rewrite Pop_Remove by (by intros ->).
  split_and!; [done|done|done|]. intros y Hy. apply (heap_min l x y Hh Hx). rewrite <- H2. by apply list.elem_of_cons; right.
Qed.
End Heap.
End heap.

(** * [container/heap] over its interface

    The operations of the heap package as the library writes them, on any type with
    [Len], [Less], [Swap], [Push] and [Pop].  [Less] may change the state, as the
    comparison of pooled transactions does.

    An implementation stands for a list.  If its [Less] is an order, the operations are
    those of [heap] on the list; if nothing is known of the answers, they still keep the
    elements, end, and do not panic. *)

Module container.
Class Interface (S A : Type) : Type := {
  Len : S -> nat;
  Less : nat -> nat -> M S bool;
  Swap : nat -> nat -> M S ();
  PushBack : A -> M S ();
  PopBack : M S A
}.

Section Operations.
Context {S A : Type} {I : Interface S A}.

Fixpoint up_loop (fuel : nat) (j : nat) : M S () :=
  match fuel with
  | O => fun _ => NoFuel
  | Datatypes.S fuel =>
      let i := heap.parent j in
      if (i =? j)%nat then mret () else
      b ← Less j i;
      if negb b then mret () else
      _ ← Swap i j;
      up_loop fuel i
  end.

Definition up (j : nat) : M S () := up_loop (Datatypes.S j) j.

Fixpoint down_loop (fuel : nat) (i n : nat) : M S nat :=
  match fuel with
  | O => fun _ => NoFuel
  | Datatypes.S fuel =>
      let j1 := (2 * i + 1)%nat in
      if (n <=? j1)%nat then mret i else
      let j2 := Datatypes.S j1 in
      right ← (if (j2 <? n)%nat then Less j2 j1 else mret false);
      let j := if (right : bool) then j2 else j1 in
      b ← Less j i;
      if negb b then mret i else
      _ ← Swap i j;
      down_loop fuel j n
  end.

Definition down (i0 n : nat) : M S bool :=
  len ← gets Len;
  i ← down_loop (Datatypes.S len) i0 n;
  mret (i0 <? i)%nat.

Fixpoint Init_loop (k n : nat) : M S () :=
  match k with O => mret () | Datatypes.S i => _ ← down i n; Init_loop i n end.

Definition Init : M S () := n ← gets Len; Init_loop (n / 2) n.

Definition Push (x : A) : M S () :=
  _ ← PushBack x;
  n ← gets Len;
  up (n - 1).

(** On an empty heap the library swaps the elements 0 and -1. *)
Definition Pop : M S A :=
  len ← gets Len;
  if (len =? 0)%nat then panic else
  let n := (len - 1)%nat in
  _ ← Swap 0 n;
  _ ← down 0 n;
  PopBack.

Definition Remove (i : nat) : M S A :=
  len ← gets Len;
  if (len =? 0)%nat then panic else
  let n := (len - 1)%nat in
  _ ← (if (n =? i)%nat then mret () else
       _ ← Swap i n;
       moved ← down i n;
       if (moved : bool) then mret () else up i);
  PopBack.
End Operations.

(** ** Implementations *)

(** A state stands for a list, and the basic operations act on it, if only elements
    that are [ok] are put in. *)
Class Sound {S A : Type} (I : Interface S A) (ok : A -> Prop) (R : S -> list A -> Prop) : Prop := {
  len_ok s l : R s l -> Len s = length l;
  less_ok s l i j : R s l -> (i < length l)%nat -> (j < length l)%nat -> exists b s', Less i j s = Done (b, s') /\ R s' l;
  swap_ok s l i j : R s l -> (i < length l)%nat -> (j < length l)%nat -> exists s', Swap i j s = Done ((), s') /\ R s' (heap.Swap l i j);
  push_ok s l x : ok x -> R s l -> exists s', PushBack x s = Done ((), s') /\ R s' (l ++ [x]);
  pop_ok s l x : R s (l ++ [x]) -> exists s', PopBack s = Done (x, s') /\ R s' l
}.

(** The answers of [Less] are those of an order on the elements. *)
Class Exact {S A : Type} (I : Interface S A) (less : A -> A -> bool) (R : S -> list A -> Prop) : Prop := {
  exact_sound :: Sound I (fun _ => True) R;
  less_exact s l i j : R s l -> (i < length l)%nat -> (j < length l)%nat ->
    exists s', Less i j s = Done (heap.Less less l i j, s') /\ R s' l
}.

(** ** Whatever the answers *)

Section Sound.
Context {S A : Type} {I : Interface S A} {ok : A -> Prop} {R : S -> list A -> Prop} {Snd : Sound I ok R}.

Lemma up_loop_sound fuel : forall s l j, R s l -> (j < length l)%nat -> (j < fuel)%nat ->
  exists s' l', up_loop fuel j s = Done ((), s') /\ R s' l' /\ l' ≡ₚ l.
Proof.
  induction fuel as [|fuel IH]; intros s l j HR Hj Hf; [lia|]. cbn [up_loop]. pose proof (heap.parent_bounds j).
  destruct (Nat.eqb_spec (heap.parent j) j); [by exists s, l|]. unfold mbind, M_bind.
  destruct (less_ok s l j (heap.parent j) HR) as (b & s1 & -> & HR1); [lia|lia|]. destruct b; cbn [negb]; [|by exists s1, l].
  destruct (swap_ok s1 l (heap.parent j) j HR1) as (s2 & -> & HR2); [lia|lia|].
  destruct (IH s2 (heap.Swap l (heap.parent j) j) (heap.parent j) HR2) as (s3 & l3 & -> & HR3 & Hp); [rewrite heap.Swap_length; lia|lia|].
  exists s3, l3. split; [done|]. split; [done|]. by rewrite Hp, heap.Swap_perm.
Qed.

Lemma up_sound s l j : R s l -> (j < length l)%nat -> exists s' l', up j s = Done ((), s') /\ R s' l' /\ l' ≡ₚ l.
Proof. intros HR Hj. apply up_loop_sound; [done|done|lia]. Qed.

(** What is behind [n] stays where it is. *)
Definition same_from (n : nat) (l l' : list A) : Prop := forall k, (n <= k)%nat -> l' !! k = l !! k.

Lemma Swap_same_from n (l : list A) i j : (i < n)%nat -> (j < n)%nat -> same_from n l (heap.Swap l i j).
Proof.
  intros Hi Hj k Hk. unfold heap.Swap. destruct (l !! i), (l !! j); try done. by rewrite !list_lookup_insert_ne by lia.
Qed.

Lemma down_loop_sound fuel n : forall s l i, R s l -> (n <= length l)%nat -> (n <= fuel + i)%nat -> (0 < fuel)%nat ->
  exists s' l' i', down_loop fuel i n s = Done (i', s') /\ R s' l' /\ l' ≡ₚ l /\ same_from n l l'.
Proof.
  induction fuel as [|fuel IH]; intros s l i HR Hn Hf Hf0; [lia|]. cbn [down_loop]. destruct (Nat.leb_spec n (2 * i + 1)); [by exists s, l, i|].
  unfold mbind, M_bind.
  assert (Hright : exists right s1, (if (Datatypes.S (2 * i + 1) <? n)%nat then Less (Datatypes.S (2 * i + 1)) (2 * i + 1) else mret false) s = Done (right, s1) /\
    R s1 l /\ (right = true -> Datatypes.S (2 * i + 1) < n)%nat).
  { destruct (Nat.ltb_spec (Datatypes.S (2 * i + 1)) n); [|by exists false, s].
    destruct (less_ok s l (Datatypes.S (2 * i + 1)) (2 * i + 1) HR) as (b & s1 & -> & HR1); [lia|lia|]. by exists b, s1. }
  destruct Hright as (right & s1 & -> & HR1 & Hr). set (j := if right then Datatypes.S (2 * i + 1) else (2 * i + 1)%nat).
  assert (Hj : (i < j < n)%nat) by (unfold j; destruct right; [specialize (Hr eq_refl)|]; lia).
  destruct (less_ok s1 l j i HR1) as (b & s2 & -> & HR2); [lia|lia|]. destruct b; cbn [negb]; [|by exists s2, l, i].
  destruct (swap_ok s2 l i j HR2) as (s3 & -> & HR3); [lia|lia|].
  destruct (IH s3 (heap.Swap l i j) j HR3) as (s4 & l4 & i4 & -> & HR4 & Hp & Hs); [rewrite heap.Swap_length; lia|lia|lia|].
  exists s4, l4, i4. split_and!; [done|done|by rewrite Hp, heap.Swap_perm|].
  intros k Hk. rewrite Hs by lia. apply (Swap_same_from n); lia.
Qed.

Lemma down_sound s l i n : R s l -> (n <= length l)%nat ->
  exists b s' l', down i n s = Done (b, s') /\ R s' l' /\ l' ≡ₚ l /\ same_from n l l'.
Proof.
  intros HR Hn. unfold down, gets, mbind, M_bind. rewrite (len_ok s l HR).
  destruct (down_loop_sound (Datatypes.S (length l)) n s l i HR) as (s' & l' & i' & -> & H); [lia|lia|lia|]. by exists (i <? i')%nat, s', l'.
Qed.

Lemma Init_loop_sound k n : forall s l, R s l -> (n <= length l)%nat -> exists s' l', Init_loop k n s = Done ((), s') /\ R s' l' /\ l' ≡ₚ l.
Proof.
  induction k as [|k IH]; intros s l HR Hn; cbn [Init_loop]; [by exists s, l|]. unfold mbind, M_bind.
  destruct (down_sound s l k n HR Hn) as (b & s1 & l1 & -> & HR1 & Hp & _).
  destruct (IH s1 l1 HR1) as (s2 & l2 & -> & HR2 & Hp2); [by rewrite Hp|]. exists s2, l2. split_and!; [done|done|by rewrite Hp2].
Qed.

Lemma Init_sound s l : R s l -> exists s' l', Init s = Done ((), s') /\ R s' l' /\ l' ≡ₚ l.
Proof. intros HR. unfold Init, gets, mbind, M_bind. rewrite (len_ok s l HR). by apply Init_loop_sound. Qed.

Lemma Push_sound x s l : ok x -> R s l -> exists s' l', Push x s = Done ((), s') /\ R s' l' /\ l' ≡ₚ x :: l.
Proof.
  intros Hx HR. unfold Push, gets, mbind, M_bind. destruct (push_ok s l x Hx HR) as (s1 & -> & HR1). rewrite (len_ok _ _ HR1).
  destruct (up_sound s1 (l ++ [x]) (length (l ++ [x]) - 1) HR1) as (s2 & l2 & -> & HR2 & Hp); [rewrite length_app; cbn; lia|].
  exists s2, l2. split_and!; [done|done|]. rewrite Hp. symmetry. apply Permutation_cons_append.
Qed.

(** The first element leaves. *)
Lemma Pop_sound s x l : R s (x :: l) -> exists s' l', Pop s = Done (x, s') /\ R s' l' /\ l' ≡ₚ l.
Proof.
  intros HR. unfold Pop, gets, mbind, M_bind. rewrite (len_ok s _ HR). cbn [length Nat.eqb]. rewrite Nat.sub_1_r. cbn [Nat.pred].
  destruct (swap_ok s (x :: l) 0 (length l) HR) as (s1 & -> & HR1); [cbn; lia|cbn; lia|].
  set (l1 := heap.Swap (x :: l) 0 (length l)) in *. assert (Hl1 : length l1 = Datatypes.S (length l)) by (unfold l1; by rewrite heap.Swap_length).
  assert (Hp1 : l1 ≡ₚ x :: l) by apply heap.Swap_perm.
  assert (Hlast : l1 !! length l = Some x).
  { destruct (lookup_lt_is_Some_2 (x :: l) (length l)) as [y Hy]; [cbn; lia|]. unfold l1.
    rewrite (heap.Swap_lookup (x :: l) 0 (length l) x y _ eq_refl Hy). case_decide as E; [|by rewrite decide_True].
    rewrite E in Hy. cbn in Hy. congruence. }
  destruct (down_sound s1 l1 0 (length l) HR1) as (b & s2 & l2 & -> & HR2 & Hp2 & Hs2); [lia|].
  assert (Hl2 : length l2 = Datatypes.S (length l)) by by rewrite Hp2. destruct l2 as [|y l2 _] using rev_ind; [done|].
  rewrite length_app in Hl2. cbn in Hl2. specialize (Hs2 (length l) ltac:(lia)). rewrite Hlast, lookup_app_r in Hs2 by lia.
  replace (length l - length l2)%nat with 0%nat in Hs2 by lia. injection Hs2 as ->.
  destruct (pop_ok s2 l2 x HR2) as (s3 & -> & HR3). exists s3, l2. split_and!; [done|done|].
  apply (Permutation_cons_inv (a := x)). rewrite <- Hp1, <- Hp2. apply Permutation_cons_append.
Qed.
End Sound.

(** ** With an order *)

Section Exact.
Context {S A : Type} {I : Interface S A} {less : A -> A -> bool} {R : S -> list A -> Prop} {Ex : Exact I less R}.

Lemma up_loop_exact fuel : forall s l j, R s l -> (j < length l)%nat -> (j < fuel)%nat ->
  exists s', up_loop fuel j s = Done ((), s') /\ R s' (heap.up_loop less fuel l j).
Proof.
  induction fuel as [|fuel IH]; intros s l j HR Hj Hf; [lia|]. cbn [up_loop heap.up_loop]. pose proof (heap.parent_bounds j).
  destruct (Nat.eqb_spec (heap.parent j) j); cbn [orb]; [by exists s|]. unfold mbind, M_bind.
  destruct (less_exact s l j (heap.parent j) HR) as (s1 & -> & HR1); [lia|lia|]. destruct (heap.Less less l j (heap.parent j)); cbn [negb]; [|by exists s1].
  destruct (swap_ok s1 l (heap.parent j) j HR1) as (s2 & -> & HR2); [lia|lia|].
  apply IH; [done|rewrite heap.Swap_length; lia|lia].
Qed.

Lemma down_loop_exact fuel n : forall s l i, R s l -> (n <= length l)%nat -> (n <= fuel + i)%nat -> (0 < fuel)%nat ->
  exists s', down_loop fuel i n s = Done ((heap.down_loop less fuel l i n).2, s') /\ R s' (heap.down_loop less fuel l i n).1.
Proof.
  induction fuel as [|fuel IH]; intros s l i HR Hn Hf Hf0; [lia|]. cbn [down_loop heap.down_loop]. destruct (Nat.leb_spec n (2 * i + 1)); [by exists s|].
  unfold mbind, M_bind. set (right := (Datatypes.S (2 * i + 1) <? n)%nat && heap.Less less l (Datatypes.S (2 * i + 1)) (2 * i + 1)).
  assert (Hright : exists s1, (if (Datatypes.S (2 * i + 1) <? n)%nat then Less (Datatypes.S (2 * i + 1)) (2 * i + 1) else mret false) s = Done (right, s1) /\ R s1 l).
  { unfold right. destruct (Nat.ltb_spec (Datatypes.S (2 * i + 1)) n); [|by exists s]. cbn [andb]. apply less_exact; [done|lia|lia]. }
  destruct Hright as (s1 & -> & HR1). set (j := if right then Datatypes.S (2 * i + 1) else (2 * i + 1)%nat).
  assert (Hj : (i < j < n)%nat).
  { unfold j, right. destruct (Nat.ltb_spec (Datatypes.S (2 * i + 1)) n); cbn [andb]; [|lia]. destruct (heap.Less _ _ _ _); lia. }
  destruct (less_exact s1 l j i HR1) as (s2 & -> & HR2); [lia|lia|]. destruct (heap.Less less l j i); cbn [negb]; [|by exists s2].
  destruct (swap_ok s2 l i j HR2) as (s3 & -> & HR3); [lia|lia|]. apply IH; [done|rewrite heap.Swap_length; lia|lia|lia].
Qed.

Lemma down_exact s l i n : R s l -> (n <= length l)%nat ->
  exists s', down i n s = Done ((heap.down less l i n).2, s') /\ R s' (heap.down less l i n).1.
Proof.
  intros HR Hn. unfold down, heap.down, gets, mbind, M_bind. rewrite (len_ok s l HR).
  destruct (down_loop_exact (Datatypes.S (length l)) n s l i HR) as (s' & -> & HR'); [lia|lia|lia|]. destruct (heap.down_loop _ _ _ _ _) as [l' i']. by exists s'.
Qed.

Lemma Push_exact x s l : R s l -> exists s', Push x s = Done ((), s') /\ R s' (heap.Push less l x).
Proof.
  intros HR. unfold Push, heap.Push, gets, mbind, M_bind. destruct (push_ok s l x Logic.I HR) as (s1 & -> & HR1). rewrite (len_ok _ _ HR1).
  apply up_loop_exact; [done|rewrite length_app; cbn; lia|lia].
Qed.

Lemma Pop_last_exact s l : R s l -> l <> [] -> exists x l' s', heap.Pop_last l = Done (x, l') /\ PopBack s = Done (x, s') /\ R s' l'.
Proof.
  intros HR Hl. destruct l as [|x l _] using rev_ind; [done|]. exists x, l. rewrite heap.Pop_last_app.
  destruct (pop_ok s l x HR) as (s' & H). by exists s'.
Qed.

Lemma down_loop_length (l : list A) fuel : forall i n, length (heap.down_loop less fuel l i n).1 = length l.
Proof.
  revert l. induction fuel as [|fuel IH]; intros l i n; cbn [heap.down_loop]; [done|]. destruct (n <=? 2 * i + 1)%nat; [done|].
  destruct (negb _); [done|]. by rewrite IH, heap.Swap_length.
Qed.

Lemma Pop_exact s l : R s l -> l <> [] -> exists x l' s', heap.Pop less l = Done (x, l') /\ Pop s = Done (x, s') /\ R s' l'.
Proof.
  intros HR Hl. unfold Pop, heap.Pop, gets, mbind, M_bind. rewrite (len_ok s _ HR).
  assert (0 < length l)%nat by (destruct l; [done|cbn; lia]). destruct (Nat.eqb_spec (length l) 0); [lia|].
  destruct (swap_ok s l 0 (length l - 1) HR) as (s1 & -> & HR1); [lia|lia|].
  destruct (down_exact s1 _ 0 (length l - 1) HR1) as (s2 & -> & HR2); [rewrite heap.Swap_length; lia|].
  apply Pop_last_exact; [done|]. intros E. apply (f_equal length) in E. unfold heap.down in E.
  pose proof (down_loop_length (heap.Swap l 0 (length l - 1)) (Datatypes.S (length (heap.Swap l 0 (length l - 1)))) 0 (length l - 1)) as Hd.
  destruct (heap.down_loop _ _ _ _ _). cbn in E, Hd. rewrite heap.Swap_length in Hd. lia.
Qed.

Context {W : heap.StrictWeak less}.

Lemma Push_heap x s l : R s l -> heap.is_heap less l -> exists s' l', Push x s = Done ((), s') /\ R s' l' /\ heap.is_heap less l' /\ l' ≡ₚ x :: l.
Proof.
  intros HR Hh. destruct (Push_exact x s l HR) as (s' & E & HR'). exists s', (heap.Push less l x). split; [done|]. split; [done|]. by apply heap.Push_ok.
Qed.

(** A least element leaves. *)
Lemma Pop_heap s l : R s l -> heap.is_heap less l -> l <> [] -> exists x s' l', Pop s = Done (x, s') /\ R s' l' /\ heap.is_heap less l' /\
  x :: l' ≡ₚ l /\ forall y, y ∈ l -> less y x = false.
Proof.
  intros HR Hh Hl. destruct (Pop_exact s l HR Hl) as (x & l' & s' & E & E' & HR'). destruct l as [|x0 l]; [done|].
  destruct (heap.Pop_ok less (x0 :: l) x0 Hh eq_refl) as (l'' & E0 & Hh' & Hp & Hmin). rewrite E in E0. injection E0 as -> ->.
  exists x0, s', l''. split_and!; try done. intros y Hy. by apply (heap.heap_min less (x0 :: l)).
Qed.
End Exact.
End container.
