(* ===== verification/Prque.v ===== *)
(** * Priority queues ([common/prque])

    The stack of items in blocks ([sstack.go]), which allocates a block when the last
    one is full and keeps it when items leave, and the priority queue on it
    ([prque.go]): a heap in which the highest priority comes first.

    The callback that is told the index of an item acts on a state of its own. *)

From S2P Require Import Prelude Heap.

Module prque.
Definition blockSize : nat := Z.to_nat 4096.

Record item {A : Type} : Type := mkItem { value : A; priority : Z }.
Arguments item : clear implicits.
Arguments mkItem {A} _ _.

(** [active] is the index of the block that the field of this name points to. *)
Record sstack {A C : Type} : Type := mkStack {
  setIndex : option (A -> Z -> C -> C);
  size : Z;
  capacity : Z;
  offset : Z;
  wrapAround : bool;
  blocks : list (list (option (item A)));
  active : nat;
  world : C
}.
Arguments sstack : clear implicits.
Arguments mkStack {A C} _ _ _ _ _ _ _ _.

Section Stack.
Context {A C : Type}.
Notation Stack := (sstack A C).
Notation MS := (M Stack).

Definition new_block : list (option (item A)) := replicate blockSize None.

Definition newSstack (setIndex : option (A -> Z -> C -> C)) (wrapAround : bool) (c : C) : Stack :=
  mkStack setIndex 0 (Z.of_nat blockSize) 0 wrapAround [new_block] 0 c.

(** [s.blocks[i/blockSize][i%blockSize]] *)
Definition cell (s : Stack) (i : nat) : option (option (item A)) :=
  b ← blocks s !! (i / blockSize)%nat; b !! (i mod blockSize)%nat.

Definition set_cell (b o : nat) (x : option (item A)) (s : Stack) : Stack :=
  mkStack (setIndex s) (size s) (capacity s) (offset s) (wrapAround s) (alter (fun block => <[o := x]> block) b (blocks s)) (active s) (world s).

(** The callback, if there is one. *)
Definition tell (x : A) (index : Z) : MS () := modify (fun s =>
  match setIndex s with
  | None => s
  | Some f => mkStack (setIndex s) (size s) (capacity s) (offset s) (wrapAround s) (blocks s) (active s) (f x index (world s))
  end).

(** A new block, or the next one, if the active block is full. *)
Definition make_room (s : Stack) : Stack :=
  if size s =? capacity s then
    mkStack (setIndex s) (size s) (capacity s + Z.of_nat blockSize) 0 (wrapAround s) (blocks s ++ [new_block]) (length (blocks s)) (world s)
  else if offset s =? Z.of_nat blockSize then
    mkStack (setIndex s) (size s) (capacity s) 0 (wrapAround s) (blocks s) (Z.to_nat (size s) / blockSize) (world s)
  else s.

Definition Push (data : item A) : MS () :=
  _ ← modify make_room;
  s ← get;
  _ ← tell (value data) (size s);
  s ← get;
  _ ← must (blocks s !! active s ≫= fun b => b !! Z.to_nat (offset s));
  _ ← modify (set_cell (active s) (Z.to_nat (offset s)) (Some data));
  modify (fun s => mkStack (setIndex s) (size s + 1) (capacity s) (offset s + 1) (wrapAround s) (blocks s) (active s) (world s)).

(** The index of the last item, in the block before if the active one is empty. *)
Definition step_back (s : Stack) : Stack :=
  let size := size s - 1 in
  let offset := offset s - 1 in
  if offset <? 0 then
    mkStack (setIndex s) size (capacity s) (Z.of_nat blockSize - 1) (wrapAround s) (blocks s) (Z.to_nat size / blockSize) (world s)
  else mkStack (setIndex s) size (capacity s) offset (wrapAround s) (blocks s) (active s) (world s).

(** A nil item, which only an empty stack answers, is dereferenced by the caller. *)
Definition Pop : MS (item A) :=
  _ ← modify step_back;
  s ← get;
  res ← must (blocks s !! active s ≫= fun b => b !! Z.to_nat (offset s));
  _ ← modify (set_cell (active s) (Z.to_nat (offset s)) None);
  res ← must res;
  _ ← tell (value res) (-1);
  mret res.

Definition Len (s : Stack) : nat := Z.to_nat (size s).

Definition before (wrap : bool) (a b : item A) : bool :=
  if wrap then 0 <? i64 (priority a - priority b) else priority b <? priority a.

Definition Less (i j : nat) : MS bool :=
  s ← get;
  a ← must (cell s i ≫= id);
  b ← must (cell s j ≫= id);
  mret (before (wrapAround s) a b).

(** Before two items change places. *)
Definition tell_swap (a b : option (item A)) (i j : nat) : MS () :=
  s ← get;
  match setIndex s with
  | None => mret ()
  | Some _ => x ← must a; y ← must b; _ ← tell (value x) (Z.of_nat i); tell (value y) (Z.of_nat j)
  end.

Definition Swap (i j : nat) : MS () :=
  s ← get;
  a ← must (cell s j);
  b ← must (cell s i);
  _ ← tell_swap a b i j;
  _ ← modify (set_cell (i / blockSize) (i mod blockSize) a);
  modify (set_cell (j / blockSize) (j mod blockSize) b).

Definition Reset : MS () := modify (fun s => newSstack (setIndex s) false (world s)).

#[global] Instance stack_interface : container.Interface Stack (item A) := {|
  container.Len := Len; container.Less := Less; container.Swap := Swap; container.PushBack := Push; container.PopBack := Pop
|}.
End Stack.

(** ** The queue *)

Section Queue.
Context {A C : Type}.
Notation Prque := (sstack A C).

Definition New (setIndex : option (A -> Z -> C -> C)) (c : C) : Prque := newSstack setIndex false c.
Definition NewWrapAround (setIndex : option (A -> Z -> C -> C)) (c : C) : Prque := newSstack setIndex true c.

Definition Enqueue (data : A) (priority : Z) : M Prque () := container.Push (mkItem data priority).

Definition Peek : M Prque (A * Z) :=
  s ← get;
  x ← must (cell s 0 ≫= id);
  mret (value x, priority x).

Definition Dequeue : M Prque (A * Z) := x ← container.Pop; mret (value x, priority x).
Definition PopItem : M Prque A := x ← container.Pop; mret (value x).

Definition RemoveAt (i : Z) : M Prque (option (item A)) :=
  if i <? 0 then mret None else x ← container.Remove (Z.to_nat i); mret (Some x).

Definition Empty (s : Prque) : bool := (Len s =? 0)%nat.
Definition Size (s : Prque) : nat := Len s.
Definition ResetQueue : M Prque () := modify (fun s => New (setIndex s) (world s)).
End Queue.
End prque.

(** * What priority queues promise

    The stack in blocks implements a list, so the heap on it is the heap of the list: the
    queue holds what was put into it and gives a highest priority first. *)

Section Stack.
Context {A C : Type}.
Notation Stack := (prque.sstack A C).
Notation item := (prque.item A).
Notation bs := prque.blockSize.

Lemma blockSize_pos : (0 < bs)%nat.
Proof. unfold prque.blockSize. lia. Qed.

(** The stack holds the items of [l], in full blocks but for the last. *)
Record stands_for (wrap : bool) (s : Stack) (l : list item) : Prop := {
  sf_wrap : prque.wrapAround s = wrap;
  sf_size : prque.size s = zlen l;
  sf_blocks : Forall (fun b => length b = bs) (prque.blocks s);
  sf_capacity : prque.capacity s = Z.of_nat (bs * length (prque.blocks s));
  sf_active : (prque.active s < length (prque.blocks s))%nat;
  sf_offset : 0 <= prque.offset s <= Z.of_nat bs;
  sf_end : zlen l = Z.of_nat (prque.active s * bs) + prque.offset s;
  sf_cells i : (i < length l)%nat -> prque.cell s i = Some (l !! i)
}.

Lemma cell_blocks (bl : list (list (option item))) i : Forall (fun b => length b = bs) bl -> (i < bs * length bl)%nat ->
  exists b, bl !! (i / bs)%nat = Some b /\ (i mod bs < length b)%nat.
Proof.
  intros Hb Hi. pose proof blockSize_pos. destruct (lookup_lt_is_Some_2 bl (i / bs)) as [b E].
  { apply Nat.Div0.div_lt_upper_bound. lia. }
  exists b. split; [done|]. rewrite Forall_lookup in Hb. rewrite (Hb _ _ E). apply Nat.mod_upper_bound. lia.
Qed.

Lemma cell_index b o : (o < bs)%nat -> ((b * bs + o) / bs = b)%nat /\ ((b * bs + o) mod bs = o)%nat.
Proof.
  intros Ho. split; [rewrite Nat.div_add_l by lia; rewrite Nat.div_small; lia|].
  rewrite Nat.add_comm, Nat.Div0.mod_add. by apply Nat.mod_small.
Qed.

(** Writing a cell. *)
Lemma cell_set_cell b o x (s : Stack) i : Forall (fun b => length b = bs) (prque.blocks s) -> (b < length (prque.blocks s))%nat -> (o < bs)%nat ->
  prque.cell (prque.set_cell b o x s) i = if decide (i = b * bs + o)%nat then Some x else prque.cell s i.
Proof.
  intros Hb Hlt Ho. unfold prque.cell, prque.set_cell. cbn [prque.blocks]. pose proof blockSize_pos. case_decide as E.
  - subst i. destruct (cell_index b o Ho) as [-> ->]. rewrite list_lookup_alter_eq.
    destruct (lookup_lt_is_Some_2 _ _ Hlt) as [block Eb]. rewrite Eb. cbn. apply list_lookup_insert_eq. rewrite Forall_lookup in Hb. by rewrite (Hb _ _ Eb).
  - destruct (decide (i / bs = b)%nat) as [<-|Hne]; [|by rewrite list_lookup_alter_ne].
    rewrite list_lookup_alter_eq. destruct (prque.blocks s !! (i / bs)%nat) as [block|]; [|done]. cbn. apply list_lookup_insert_ne.
    intros ->. apply E. pose proof (Nat.div_mod_eq i bs). lia.
Qed.

Lemma set_cell_blocks b o x (s : Stack) : Forall (fun b => length b = bs) (prque.blocks s) ->
  Forall (fun b => length b = bs) (prque.blocks (prque.set_cell b o x s)) /\ length (prque.blocks (prque.set_cell b o x s)) = length (prque.blocks s).
Proof.
  intros Hb. cbn. rewrite length_alter. split; [|done]. apply Forall_alter; [done|]. intros block _ Hl. by rewrite length_insert.
Qed.

Lemma cell_ext (s s' : Stack) i : prque.blocks s' = prque.blocks s -> prque.cell s' i = prque.cell s i.
Proof. intros E. unfold prque.cell. by rewrite E. Qed.

Lemma tell_ok wrap s l x n : stands_for wrap s l -> exists s', prque.tell x n s = Done ((), s') /\ stands_for wrap s' l /\
  prque.size s' = prque.size s /\ prque.offset s' = prque.offset s /\ prque.active s' = prque.active s /\ prque.blocks s' = prque.blocks s.
Proof.
  intros H. unfold prque.tell, modify. destruct (prque.setIndex s) as [f|]; eexists; (split; [done|]); split_and!; try done. by destruct H.
Qed.

(** Writing the cell of index [k], which is not behind the end of the list. *)
Lemma set_cell_ok wrap s l b o x : stands_for wrap s l -> (b < length (prque.blocks s))%nat -> (o < bs)%nat -> (b * bs + o < length l)%nat ->
  x <> None -> stands_for wrap (prque.set_cell b o x s) (match x with Some y => <[(b * bs + o)%nat := y]> l | None => l end).
Proof.
  intros [H1 H2 H3 H4 H5 H6 H7 H8] Hb Ho Hk Hx. destruct x as [y|]; [|done]. destruct (set_cell_blocks b o (Some y) s H3) as [Hb1 Hb2].
  split; try done; unfold zlen in *; rewrite ?length_insert, ?Hb2; try done. intros i Hi. rewrite cell_set_cell by done. case_decide as E.
  - subst i. by rewrite list_lookup_insert_eq.
  - rewrite list_lookup_insert_ne by done. by apply H8.
Qed.

(** Before a push there is room in the active block. *)
Lemma room_ok wrap s l : stands_for wrap s l -> stands_for wrap (prque.make_room s) l /\ prque.offset (prque.make_room s) < Z.of_nat bs.
Proof.
  intros H. pose proof H as [H1 H2 H3 H4 H5 H6 H7 H8]. pose proof blockSize_pos as Hbs. unfold zlen, prque.make_room in *.
  destruct (Z.eqb_spec (prque.size s) (prque.capacity s)) as [E|E]; [|destruct (Z.eqb_spec (prque.offset s) (Z.of_nat bs)) as [E'|E']].
  - cbn. split; [|lia]. split; cbn; try done; unfold zlen; rewrite ?length_app; cbn [length]; try lia.
    + apply Forall_app. split; [done|]. constructor; [apply length_replicate|done].
    + intros i Hi. rewrite <- H8 by done. unfold prque.cell. cbn [prque.blocks]. destruct (cell_blocks (prque.blocks s) i H3 ltac:(lia)) as (b & E1 & _).
      by rewrite lookup_app_l_Some with (x := b), E1.
  - cbn. split; [|lia]. assert (Ediv : (Z.to_nat (prque.size s) / bs = Datatypes.S (prque.active s))%nat).
    { replace (Z.to_nat (prque.size s)) with (Datatypes.S (prque.active s) * bs)%nat by lia. apply Nat.div_mul. lia. }
    split; cbn; try done; unfold zlen; rewrite ?Ediv; try lia.
    assert (Datatypes.S (prque.active s) <> length (prque.blocks s)); [|lia]. intros Ea. apply E. rewrite H2, H4, <- Ea. lia.
  - split; [done|]. lia.
Qed.

Lemma stack_push wrap s l x : stands_for wrap s l -> exists s', prque.Push x s = Done ((), s') /\ stands_for wrap s' (l ++ [x]).
Proof.
  intros H. unfold prque.Push, get, modify, mbind, M_bind. destruct (room_ok wrap s l H) as [Hr Hlt]. revert Hr Hlt.
  generalize (prque.make_room s). clear s H. intros s H Hlt.
  destruct (tell_ok wrap s l (prque.value x) (prque.size s) H) as (s1 & -> & H' & E1 & E2 & E3 & E4). rewrite <- E2 in Hlt. clear H E1 E2 E3 E4 s.
  rename s1 into s, H' into H. pose proof H as [H1 H2 H3 H4 H5 H6 H7 H8].
  assert (Hk : (prque.active s * bs + Z.to_nat (prque.offset s) = length l)%nat) by (unfold zlen in *; lia).
  destruct (lookup_lt_is_Some_2 _ _ H5) as [b Eb]. rewrite Eb. cbn [mbind option_bind].
  destruct (lookup_lt_is_Some_2 b (Z.to_nat (prque.offset s))) as [c Ec]; [rewrite Forall_lookup in H3; rewrite (H3 _ _ Eb); lia|]. rewrite Ec.
  cbn [must mret M_ret]. eexists. split; [done|]. destruct (set_cell_blocks (prque.active s) (Z.to_nat (prque.offset s)) (Some x) s H3) as [Hb1 Hb2].
  cbn in Hb1, Hb2. split; cbn; try done; unfold zlen in *; rewrite ?Hb2; rewrite ?length_app; cbn [length]; try lia.
  intros i Hi. transitivity (prque.cell (prque.set_cell (prque.active s) (Z.to_nat (prque.offset s)) (Some x) s) i); [done|].
  rewrite cell_set_cell by (done || lia). case_decide as E.
  - rewrite E, Hk, lookup_app_r by lia. by rewrite Nat.sub_diag.
  - rewrite lookup_app_l by lia. apply H8. lia.
Qed.

(** ** Removing the last item *)

Lemma step_back_ok wrap s l x : stands_for wrap s (l ++ [x]) -> let s' := prque.step_back s in
  prque.wrapAround s' = wrap /\ prque.size s' = zlen l /\ prque.blocks s' = prque.blocks s /\ prque.capacity s' = prque.capacity s /\
  (prque.active s' < length (prque.blocks s))%nat /\ 0 <= prque.offset s' < Z.of_nat bs /\ zlen l = Z.of_nat (prque.active s' * bs) + prque.offset s'.
Proof.
  intros [H1 H2 H3 H4 H5 H6 H7 H8]. pose proof blockSize_pos as Hbs. rewrite zlen_app in *. change (zlen [x]) with 1 in *. unfold prque.step_back.
  pose proof (zlen_nonneg l) as Hl. destruct (Z.ltb_spec (prque.offset s - 1) 0) as [Hlt|Hge]; cbn; [|split_and!; try done; lia].
  destruct (prque.active s) as [|a]; [lia|]. assert (Ediv : (Z.to_nat (prque.size s - 1) / bs = a)%nat).
  { replace (Z.to_nat (prque.size s - 1)) with (a * bs + (bs - 1))%nat by lia. by apply cell_index; lia. }
  rewrite Ediv. split_and!; try done; lia.
Qed.

Lemma stack_pop wrap s l x : stands_for wrap s (l ++ [x]) -> exists s', prque.Pop s = Done (x, s') /\ stands_for wrap s' l.
Proof.
  intros H. pose proof H as [H1 H2 H3 H4 H5 H6 H7 H8]. unfold prque.Pop, get, modify, mbind, M_bind.
  destruct (step_back_ok wrap s l x H) as (E1 & E2 & E3 & E4 & E5 & E6 & E7). set (s1 := prque.step_back s) in *.
  assert (Hk : (prque.active s1 * bs + Z.to_nat (prque.offset s1) = length l)%nat) by (unfold zlen in *; lia).
  assert (Hc : prque.cell s (length l) = Some (Some x)).
  { rewrite H8 by (rewrite length_app; cbn; lia). f_equal. rewrite lookup_app_r by done. by rewrite Nat.sub_diag. }
  assert (Hcell : (prque.blocks s1 !! prque.active s1 ≫= fun b => b !! Z.to_nat (prque.offset s1)) = Some (Some x)).
  { rewrite <- Hc, E3. unfold prque.cell. rewrite <- Hk. by destruct (cell_index (prque.active s1) (Z.to_nat (prque.offset s1)) ltac:(lia)) as [-> ->]. }
  unfold mbind in Hcell. rewrite Hcell. cbn [must mret M_ret]. set (s2 := prque.set_cell _ _ None s1). rewrite <- E3 in H3.
  destruct (set_cell_blocks (prque.active s1) (Z.to_nat (prque.offset s1)) None s1 H3) as [Hb1 Hb2].
  assert (Hs2 : stands_for wrap s2 l).
  { split; cbn; try done; [by rewrite E4, H4, length_alter, E3|by rewrite length_alter, E3|lia|].
    intros i Hi. transitivity (prque.cell s2 i); [done|]. unfold s2. rewrite cell_set_cell by (done || lia || by rewrite E3). rewrite decide_False by lia.
    rewrite (cell_ext s s1 i E3), H8 by (rewrite length_app; lia). by rewrite lookup_app_l. }
  destruct (tell_ok wrap s2 l (prque.value x) (-1) Hs2) as (s3 & -> & Hs3 & _). by exists s3.
Qed.

(** ** Comparing and swapping *)

Lemma stack_less wrap s l i j : stands_for wrap s l -> (i < length l)%nat -> (j < length l)%nat ->
  prque.Less i j s = Done (heap.Less (prque.before wrap) l i j, s).
Proof.
  intros [H1 _ _ _ _ _ _ H8] Hi Hj. unfold prque.Less, get, mbind, M_bind, heap.Less. rewrite !H8 by done.
  destruct (lookup_lt_is_Some_2 l i Hi) as [x ->], (lookup_lt_is_Some_2 l j Hj) as [y ->]. cbn. by rewrite H1.
Qed.

Lemma index_cell i n : (i < bs * n)%nat -> (i / bs < n)%nat /\ (i mod bs < bs)%nat /\ (i / bs * bs + i mod bs = i)%nat.
Proof.
  intros Hi. pose proof blockSize_pos. split_and!; [apply Nat.Div0.div_lt_upper_bound; lia|apply Nat.mod_upper_bound; lia|pose proof (Nat.div_mod_eq i bs); lia].
Qed.

Lemma tell_swap_ok wrap s l x y i j : stands_for wrap s l -> exists s', prque.tell_swap (Some x) (Some y) i j s = Done ((), s') /\ stands_for wrap s' l.
Proof.
  intros H. unfold prque.tell_swap, get, mbind, M_bind. destruct (prque.setIndex s); [|by exists s]. cbn [must mret M_ret].
  destruct (tell_ok wrap s l (prque.value x) (Z.of_nat i) H) as (s1 & -> & H1 & _).
  destruct (tell_ok wrap s1 l (prque.value y) (Z.of_nat j) H1) as (s2 & -> & H2 & _). by exists s2.
Qed.

Lemma stack_swap wrap s l i j : stands_for wrap s l -> (i < length l)%nat -> (j < length l)%nat ->
  exists s', prque.Swap i j s = Done ((), s') /\ stands_for wrap s' (heap.Swap l i j).
Proof.
  intros H Hi Hj. unfold prque.Swap, get, modify, mbind, M_bind, heap.Swap. rewrite !(sf_cells _ _ _ H) by done.
  destruct (lookup_lt_is_Some_2 l i Hi) as [x Ex], (lookup_lt_is_Some_2 l j Hj) as [y Ey]. rewrite Ex, Ey. cbn [must mret M_ret].
  destruct (tell_swap_ok wrap s l y x i j H) as (s1 & -> & H1). pose proof H1 as [_ _ H3 H4 H5 H6 H7 _].
  assert (Hcap : forall k, (k < length l)%nat -> (k < bs * length (prque.blocks s1))%nat) by (intros k Hk; unfold zlen in *; nia).
  destruct (index_cell i _ (Hcap i Hi)) as (Hi1 & Hi2 & Hi3). destruct (index_cell j _ (Hcap j Hj)) as (Hj1 & Hj2 & Hj3).
  eexists. split; [done|]. pose proof (set_cell_ok wrap s1 l (i / bs) (i mod bs) (Some y) H1 Hi1 Hi2) as Hs. rewrite Hi3 in Hs. specialize (Hs Hi ltac:(done)).
  pose proof (set_cell_ok wrap _ _ (j / bs) (j mod bs) (Some x) Hs) as Hs2. rewrite Hj3, length_insert in Hs2.
  destruct (set_cell_blocks (i / bs) (i mod bs) (Some y) s1 H3) as [_ Hb]. rewrite Hb in Hs2. specialize (Hs2 Hj1 Hj2 Hj ltac:(done)).
  destruct (decide (i = j)) as [->|Hne]; [simplify_eq; by rewrite !list_insert_insert_eq in *|]. by rewrite list_insert_insert_ne.
Qed.

#[global] Instance stack_exact wrap : container.Exact prque.stack_interface (prque.before wrap) (stands_for wrap).
Proof.
  split; [split|].
  - intros s l H. cbn. unfold prque.Len. rewrite (sf_size _ _ _ H). unfold zlen. lia.
  - intros s l i j H Hi Hj. eexists _, s. split; [by apply (stack_less wrap s l)|done].
  - apply stack_swap.
  - intros s l x _. apply stack_push.
  - apply stack_pop.
  - intros s l i j H Hi Hj. exists s. split; [by apply stack_less|done].
Qed.
End Stack.

(** ** The queue *)

#[global] Instance before_StrictWeak {A} : heap.StrictWeak (prque.before (A := A) false).
Proof. split; unfold prque.before; intros; rewrite ?Z.ltb_lt, ?Z.ltb_ge in *; lia. Qed.

Section Queue.
Context {A C : Type}.
Notation Prque := (prque.sstack A C).

(** The queue holds these values with these priorities. *)
Definition queue_holds (s : Prque) (xs : list (A * Z)) : Prop :=
  exists l, stands_for false s l /\ heap.is_heap (prque.before false) l /\ ((fun x => (prque.value x, prque.priority x)) <$> l) ≡ₚ xs.

Lemma queue_holds_perm s xs ys : xs ≡ₚ ys -> queue_holds s xs -> queue_holds s ys.
Proof. intros Hp (l & H1 & H2 & H3). exists l. split_and!; [done|done|by rewrite H3]. Qed.

Lemma New_holds f (c : C) : queue_holds (prque.New f c) [].
Proof.
  exists []. split_and!; [|done|done]. pose proof blockSize_pos. split; cbn -[Z.of_nat Nat.mul]; try done; try lia.
  constructor; [apply length_replicate|done].
Qed.

Lemma Enqueue_holds x p s xs : queue_holds s xs -> exists s', prque.Enqueue x p s = Done ((), s') /\ queue_holds s' ((x, p) :: xs).
Proof.
  intros (l & H1 & H2 & H3). destruct (container.Push_heap (R := stands_for false) (prque.mkItem x p) s l H1 H2) as (s' & l' & E & HR & Hh & Hp).
  exists s'. split; [done|]. exists l'. split_and!; [done|done|]. by rewrite Hp, fmap_cons, H3.
Qed.

(** The value that leaves has the highest priority of all. *)
Lemma Dequeue_holds s xs : queue_holds s xs -> xs <> [] -> exists x p xs' s', prque.Dequeue s = Done ((x, p), s') /\
  queue_holds s' xs' /\ xs ≡ₚ (x, p) :: xs' /\ forall y q, (y, q) ∈ xs -> q <= p.
Proof.
  intros (l & H1 & H2 & H3) Hne. destruct (container.Pop_heap (R := stands_for false) s l H1 H2) as (x & s' & l' & E & HR & Hh & Hp & Hmax).
  { intros ->. apply Permutation_nil in H3. done. }
  unfold prque.Dequeue, mbind, M_bind. rewrite E. exists (prque.value x), (prque.priority x), ((fun x => (prque.value x, prque.priority x)) <$> l'), s'.
  split_and!; [done|by exists l'|by rewrite <- H3, <- Hp|]. intros y q Hy. rewrite <- H3 in Hy. apply list_elem_of_fmap in Hy as (z & [= -> ->] & Hz).
  specialize (Hmax z Hz). unfold prque.before in Hmax. by apply Z.ltb_ge in Hmax.
Qed.

Lemma Size_holds s xs : queue_holds s xs -> prque.Size s = length xs.
Proof.
  intros (l & H1 & _ & H3). unfold prque.Size, prque.Len. rewrite (sf_size _ _ _ H1). unfold zlen. rewrite Nat2Z.id, <- H3. by rewrite length_fmap.
Qed.

Lemma Empty_holds s xs : queue_holds s xs -> prque.Empty s = bool_decide (xs = []).
Proof.
  intros (l & H1 & _ & H3). unfold prque.Empty, prque.Len. rewrite (sf_size _ _ _ H1). unfold zlen. rewrite Nat2Z.id.
  destruct l as [|x l]; cbn [length].
  - cbn in H3. apply Permutation_nil_l in H3. subst. done.
  - symmetry. apply bool_decide_eq_false. intros ->. symmetry in H3. apply Permutation_nil_l in H3. done.
Qed.
End Queue.
