(* ===== verification/TxList.v ===== *)
(** * Lists of pooled transactions ([internal/txspool/txs_list.go])

    The transactions of one account: a map by nonce with a heap of the nonces and a
    cached sorted slice, and the list on top of it that decides about replacements,
    funds and gaps.

    A pointer read from a map that has no such entry is nil; [iter] is the order in
    which Go ranges over a map. *)

From stdpp Require Import sorting.
From S2P Require Import Prelude Uint256 Wire Transaction Heap.

(** A transaction as the lists hold it: a value, or a pointer into a store. *)
Class TxView (T : Type) : Type := view : T -> TxData.

#[export] Instance value_view : TxView TxData := fun tx => tx.

Module Tx.
Section Accessors.
Context {T : Type} {V : TxView T}.

Definition Nonce (tx : T) : Z := tx_Nonce (view tx).
Definition Gas (tx : T) : Z := tx_Gas (view tx).
Definition GasPrice (tx : T) : option Z := tx_GasPrice (view tx).
Definition GasTipCap (tx : T) : option Z := tx_GasTipCap (view tx).
Definition GasFeeCap (tx : T) : option Z := tx_GasFeeCap (view tx).
Definition Value (tx : T) : option Z := tx_Value (view tx).
Definition Cost {U : Uint256} (tx : T) : outcome Z := Transaction.Cost (view tx).
End Accessors.
End Tx.

Section ByNonce.
Context {T : Type} {V : TxView T}.

Definition by_nonce (a b : T) : Prop := Tx.Nonce a <= Tx.Nonce b.
#[global] Instance by_nonce_dec a b : Decision (by_nonce a b) := decide (Tx.Nonce a <= Tx.Nonce b).

(** A slice sorted with [TxByNonce]. *)
Definition TxByNonce (txs : list T) : list T := merge_sort by_nonce txs.
End ByNonce.

(** ** [txsSortedMap] *)

Module txsSortedMap.
Record Map {T : Type} : Type := mkMap { items : gmap Z T; index : list Z; cache : option (list T) }.
Arguments Map : clear implicits.
Arguments mkMap {T} _ _ _.

Section Operations.
Context {T : Type} {V : TxView T}.
Notation Map := (Map T).

Definition newTxSortedMap : Map := mkMap ∅ [] None.

Context (iter : forall A : Type, list A -> list A).
Notation MM := (M Map).

Definition Get (nonce : Z) (m : Map) : option T := items m !! nonce.

Definition Put (tx : T) : MM () := modify (fun m =>
  let nonce := Tx.Nonce tx in
  mkMap (<[nonce := tx]> (items m))
    match items m !! nonce with None => heap.Push Z.ltb (index m) nonce | Some _ => index m end None).

(** [heap.Pop(m.index)] *)
Definition pop_index : MM Z :=
  m ← get;
  '(nonce, index) ← outcome_to_M (heap.Pop Z.ltb (index m));
  _ ← modify (fun m => mkMap (items m) index (cache m));
  mret nonce.

Definition delete_item (nonce : Z) : MM () := modify (fun m => mkMap (delete nonce (items m)) (index m) (cache m)).
Definition set_cache (c : option (list T)) : MM () := modify (fun m => mkMap (items m) (index m) c).

(** Pop off nonces below the threshold; each turn shortens the heap. *)
Fixpoint forward_loop (fuel : nat) (threshold : Z) (removed : list (option T)) : MM (list (option T)) :=
  match fuel with
  | O => fun _ => NoFuel
  | S fuel =>
      m ← get;
      match index m with
      | first :: _ =>
          if first <? threshold then
            nonce ← pop_index;
            m ← get;
            let tx := items m !! nonce in
            _ ← delete_item nonce;
            forward_loop fuel threshold (removed ++ [tx])
          else mret removed
      | [] => mret removed
      end
  end.

Definition Forward (threshold : Z) : MM (list (option T)) :=
  m ← get;
  removed ← forward_loop (S (length (index m))) threshold [];
  m ← get;
  match cache m with
  | None => mret removed
  | Some c =>
      if (length c <? length removed)%nat then panic else
      _ ← set_cache (Some (drop (length removed) c)); mret removed
  end.

Definition reheap : MM () := modify (fun m => mkMap (items m) (heap.Init Z.ltb (iter _ (map_to_list (items m))).*1) None).

(** The loop over the items; the filter may panic. *)
Fixpoint filter_loop (f : T -> outcome bool) (entries : list (Z * T)) (removed : list T) : MM (list T) :=
  match entries with
  | [] => mret removed
  | (nonce, tx) :: entries =>
      b ← outcome_to_M (f tx);
      if (b : bool) then _ ← delete_item nonce; filter_loop f entries (removed ++ [tx]) else filter_loop f entries removed
  end.

Definition filter (f : T -> outcome bool) : MM (list T) :=
  m ← get;
  removed ← filter_loop f (iter _ (map_to_list (items m))) [];
  _ ← (if 0 <? zlen removed then set_cache None else mret ());
  mret removed.

Definition Filter (f : T -> outcome bool) : MM (list T) :=
  removed ← filter f;
  _ ← (if 0 <? zlen removed then reheap else mret ());
  mret removed.

(** Drop the transactions of the sorted index from the end, [count] of them. *)
Fixpoint cap_loop (count : nat) (size : Z) (drops : list (option T)) : MM (list (option T)) :=
  match count with
  | O => mret drops
  | S count =>
      m ← get;
      nonce ← must (if size - 1 <? 0 then None else index m !! Z.to_nat (size - 1));
      let tx := items m !! nonce in
      _ ← delete_item nonce;
      cap_loop count (size - 1) (drops ++ [tx])
  end.

Definition Cap (threshold : Z) : MM (list (option T)) :=
  m ← get;
  let size := Z.of_nat (size (items m)) in
  if size <=? threshold then mret [] else
  _ ← modify (fun m => mkMap (items m) (merge_sort Z.le (index m)) (cache m));
  drops ← cap_loop (Z.to_nat (size - threshold)) size [];
  m ← get;
  if (threshold <? 0) || (zlen (index m) <? threshold) then panic else
  _ ← modify (fun m => mkMap (items m) (heap.Init Z.ltb (take (Z.to_nat threshold) (index m))) (cache m));
  match cache m with
  | None => mret drops
  | Some c =>
      if (length c <? length drops)%nat then panic else
      _ ← set_cache (Some (take (length c - length drops) c)); mret drops
  end.

Definition Remove (nonce : Z) : MM bool :=
  m ← get;
  match items m !! nonce with
  | None => mret false
  | Some _ =>
      _ ← match list_find (fun x => x = nonce) (index m) with
          | None => mret ()
          | Some (i, _) =>
              '(_, index) ← outcome_to_M (heap.Remove Z.ltb (index m) i);
              modify (fun m => mkMap (items m) index (cache m))
          end;
      _ ← delete_item nonce;
      _ ← set_cache None;
      mret true
  end.

(** Gather nonces that follow each other; each turn shortens the heap. *)
Fixpoint ready_loop (fuel : nat) (next : Z) (ready : list (option T)) : MM (list (option T)) :=
  match fuel with
  | O => fun _ => NoFuel
  | S fuel =>
      m ← get;
      match index m with
      | first :: _ =>
          if first =? next then
            let tx := items m !! next in
            _ ← delete_item next;
            _ ← pop_index;
            ready_loop fuel (u64 (next + 1)) (ready ++ [tx])
          else mret ready
      | [] => mret ready
      end
  end.

Definition Ready (start : Z) : MM (list (option T)) :=
  m ← get;
  match index m with
  | [] => mret []
  | first :: _ =>
      if start <? first then mret [] else
      ready ← ready_loop (S (length (index m))) first [];
      _ ← set_cache None;
      mret ready
  end.

Definition Len (m : Map) : Z := Z.of_nat (size (items m)).

Definition flatten : MM (list T) :=
  m ← get;
  match cache m with
  | Some c => mret c
  | None => let c := TxByNonce (iter _ (map_to_list (items m))).*2 in _ ← set_cache (Some c); mret c
  end.

Definition Flatten : MM (list T) := flatten.

Definition LastElement : MM T := c ← flatten; must (list.last c).
End Operations.
End txsSortedMap.

(** ** [txsList] *)

Module txsList.
Record List {T : Type} : Type := mkList { strict : bool; txs : txsSortedMap.Map T; costcap : Z; gascap : Z }.
Arguments List : clear implicits.
Arguments mkList {T} _ _ _ _.

Section Operations.
Context {T : Type} {V : TxView T}.
Notation List := (List T).

Definition newTxsList (strict : bool) : List := mkList strict txsSortedMap.newTxSortedMap 0 0.

Definition set_txs (l : List) (m : txsSortedMap.Map T) : List := mkList (strict l) m (costcap l) (gascap l).

Context {U : Uint256} (iter : forall A : Type, list A -> list A).
Notation ML := (M List).

Definition on_txs {A} (f : M (txsSortedMap.Map T) A) : ML A := zoom txs (fun m l => set_txs l m) f.

Definition Overlaps (tx : T) (l : List) : bool := bool_decide (txsSortedMap.Get (Tx.Nonce tx) (txs l) <> None).

(** Whether a transaction may take the place of an older one with its nonce. *)
Definition replaces (priceBump : Z) (old tx : T) : outcome bool :=
  if Tx.Gas tx <=? Tx.Gas old then Done false else
  oldPrice ← deref (Tx.GasPrice old);
  price ← deref (Tx.GasPrice tx);
  if negb (uint256.Lt oldPrice price) then Done false else
  let a := u64 (100 + priceBump) in
  let threshold := uint256.Div (uint256.Mul a oldPrice) 100 in
  feeCap ← deref (Tx.GasFeeCap tx);
  if uint256.Lt feeCap threshold then Done false else
  tip ← deref (Tx.GasTipCap tx);
  Done (negb (uint256.Lt tip threshold)).

Definition Add (tx : T) (priceBump : Z) : ML (bool * option T) :=
  l ← get;
  let old := txsSortedMap.Get (Tx.Nonce tx) (txs l) in
  ok ← match old with None => mret true | Some old => outcome_to_M (replaces priceBump old tx) end;
  if negb ok then mret (false, None) else
  _ ← on_txs (txsSortedMap.Put tx);
  cost ← outcome_to_M (Tx.Cost tx);
  _ ← modify (fun l => mkList (strict l) (txs l) (if uint256.Lt (costcap l) cost then cost else costcap l)
                              (if gascap l <? Tx.Gas tx then Tx.Gas tx else gascap l));
  mret (true, old).

Definition Forward (threshold : Z) : ML (list (option T)) := on_txs (txsSortedMap.Forward threshold).

(** Too expensive, or too much gas. *)
Definition unpayable (costLimit gasLimit : Z) (tx : T) : outcome bool :=
  value ← deref (Tx.Value tx);
  price ← deref (Tx.GasPrice tx);
  let cost := uint256.Add value (uint256.Mul price (Tx.Gas tx)) in
  Done ((gasLimit <? Tx.Gas tx) || uint256.Gt cost costLimit).

Definition lowest_nonce (removed : list T) : Z :=
  foldl (fun lowest tx => if Tx.Nonce tx <? lowest then Tx.Nonce tx else lowest) (two64 - 1) removed.

Definition Filter (costLimit gasLimit : Z) : ML (list T * list T) :=
  l ← get;
  if negb (uint256.Gt (costcap l) costLimit) && (gascap l <=? gasLimit) then mret ([], []) else
  _ ← modify (fun l => mkList (strict l) (txs l) costLimit gasLimit);
  removed ← on_txs (txsSortedMap.Filter iter (unpayable costLimit gasLimit));
  if zlen removed =? 0 then mret ([], []) else
  invalids ← (if strict l then on_txs (txsSortedMap.filter iter (fun tx => Done (lowest_nonce removed <? Tx.Nonce tx))) else mret []);
  _ ← on_txs (txsSortedMap.reheap iter);
  mret (removed, invalids).

Definition Cap (threshold : Z) : ML (list (option T)) := on_txs (txsSortedMap.Cap threshold).

Definition Remove (tx : T) : ML (bool * list T) :=
  let nonce := Tx.Nonce tx in
  removed ← on_txs (txsSortedMap.Remove nonce);
  if negb removed then mret (false, []) else
  l ← get;
  if strict l then
    invalids ← on_txs (txsSortedMap.Filter iter (fun tx => Done (nonce <? Tx.Nonce tx)));
    mret (true, invalids)
  else mret (true, []).

Definition Ready (start : Z) : ML (list (option T)) := on_txs (txsSortedMap.Ready start).
Definition Len (l : List) : Z := txsSortedMap.Len (txs l).
Definition Empty (l : List) : bool := Len l =? 0.
Definition Flatten : ML (list T) := on_txs (txsSortedMap.Flatten iter).
Definition LastElement : ML T := on_txs (txsSortedMap.LastElement iter).
End Operations.
End txsList.
