(* ===== verification/TxListTheorems.v ===== *)
(** * What the lists of pooled transactions promise

    The map with its heap and its cache implements a list sorted by nonce. *)

From stdpp Require Import sorting.
From S2P Require Import Prelude Uint256 Wire Transaction Heap TxList.
Import txsSortedMap.

#[global] Instance Zltb_StrictWeak : heap.StrictWeak Z.ltb.
Proof. split; intros; rewrite ?Z.ltb_lt, ?Z.ltb_ge in *; lia. Qed.

(** ** Sorted lists *)

Lemma list_filter_all {A} (P : A -> Prop) `{forall x, Decision (P x)} l : Forall P l -> base.filter P l = l.
Proof. induction 1 as [|x l Hx _ IH]; [done|]. by rewrite list.filter_cons, decide_True, IH. Qed.

Lemma list_filter_none {A} (P : A -> Prop) `{forall x, Decision (P x)} l : Forall (fun x => ~ P x) l -> base.filter P l = [].
Proof. induction 1 as [|x l Hx _ IH]; [done|]. by rewrite list.filter_cons, decide_False. Qed.

Section Views.
Context {T : Type} {V : TxView T}.
Notation Map := (txsSortedMap.Map T).
Notation List := (txsList.List T).

Definition ascending (l : list T) : Prop := StronglySorted (fun a b => Tx.Nonce a < Tx.Nonce b) l.

Definition pairs (l : list T) : list (Z * T) := (fun tx => (Tx.Nonce tx, tx)) <$> l.
Definition items_of (l : list T) : gmap Z T := list_to_map (pairs l).

Lemma pairs_fst l : (pairs l).*1 = Tx.Nonce <$> l.
Proof. unfold pairs. by rewrite <- list_fmap_compose. Qed.

Lemma pairs_snd l : (pairs l).*2 = l.
Proof. unfold pairs. rewrite <- list_fmap_compose. apply list_fmap_id. Qed.

Lemma elem_of_pairs n tx l : (n, tx) ∈ pairs l <-> tx ∈ l /\ Tx.Nonce tx = n.
Proof.
  unfold pairs. rewrite list_elem_of_fmap. split.
  - intros (tx' & [= -> ->] & H). done.
  - intros [H <-]. by exists tx.
Qed.

Lemma ascending_cons tx l : ascending (tx :: l) <-> ascending l /\ forall y, y ∈ l -> Tx.Nonce tx < Tx.Nonce y.
Proof.
  unfold ascending. split.
  - intros H. inversion_clear H as [|? ? Hs Hf]. split; [done|]. by apply list.Forall_forall.
  - intros [H1 H2]. constructor; [done|]. by apply list.Forall_forall.
Qed.

Lemma ascending_NoDup l : ascending l -> NoDup (Tx.Nonce <$> l).
Proof.
  induction l as [|tx l IH]; [constructor|]. intros [H1 H2]%ascending_cons. cbn. apply list.NoDup_cons. split; [|by apply IH].
  intros (y & E & Hy)%list_elem_of_fmap. apply H2 in Hy. lia.
Qed.

Lemma ascending_inj l a b : ascending l -> a ∈ l -> b ∈ l -> Tx.Nonce a = Tx.Nonce b -> a = b.
Proof.
  induction l as [|tx l IH]; [by intros _ ?%elem_of_nil|]. intros [H1 H2]%ascending_cons.
  rewrite !list.elem_of_cons. intros [->|Ha] [->|Hb] E; [done|apply H2 in Hb; lia|apply H2 in Ha; lia|by apply IH].
Qed.

Lemma ascending_sublist l l' : ascending l' -> l `sublist_of` l' -> ascending l.
Proof.
  intros H Hs. induction Hs as [|x l l' Hs IH|x l l' Hs IH]; [done| |].
  - apply ascending_cons in H as [H1 H2]. apply ascending_cons. split; [by apply IH|].
    intros y Hy. apply H2. by eapply elem_of_sublist.
  - apply ascending_cons in H as [H1 H2]. by apply IH.
Qed.

(** A sorted list is determined by its elements. *)
Lemma ascending_unique l l' : ascending l -> ascending l' -> l ≡ₚ l' -> l = l'.
Proof. apply StronglySorted_unique_strong. intros. lia. Qed.

Lemma TxByNonce_ascending l : NoDup (Tx.Nonce <$> l) -> ascending (TxByNonce l) /\ TxByNonce l ≡ₚ l.
Proof.
  intros Hnd. assert (Hp : TxByNonce l ≡ₚ l) by apply merge_sort_Permutation. split; [|done].
  rewrite <- Hp in Hnd. assert (Hs : StronglySorted by_nonce (TxByNonce l)).
  { apply Sorted_StronglySorted; [intros a b c; unfold by_nonce; lia|]. apply Sorted_merge_sort. intros a b. unfold by_nonce. lia. }
  revert Hs Hnd. generalize (TxByNonce l) as k. induction k as [|x k IH]; [constructor|]. intros Hs Hnd. cbn in Hnd.
  inversion_clear Hs as [|? ? Hs' Hf]. apply list.NoDup_cons in Hnd as [Hx Hnd]. apply ascending_cons. split; [by apply IH|].
  intros y Hy. rewrite list.Forall_forall in Hf. specialize (Hf y Hy). unfold by_nonce in Hf.
  assert (Tx.Nonce x <> Tx.Nonce y) by (intros E; apply Hx; rewrite E; by apply list_elem_of_fmap_2). lia.
Qed.

(** ** The map of a sorted list *)

Lemma items_of_lookup l n tx : ascending l -> items_of l !! n = Some tx <-> tx ∈ l /\ Tx.Nonce tx = n.
Proof.
  intros H. unfold items_of. rewrite <- elem_of_list_to_map; [apply elem_of_pairs|]. rewrite pairs_fst. by apply ascending_NoDup.
Qed.

Lemma items_of_list l : ascending l -> map_to_list (items_of l) ≡ₚ pairs l.
Proof. intros H. apply map_to_list_to_map. rewrite pairs_fst. by apply ascending_NoDup. Qed.

Lemma items_of_size l : ascending l -> size (items_of l) = length l.
Proof.
  intros H. rewrite <- length_map_to_list, (items_of_list l H). unfold pairs. by rewrite length_fmap.
Qed.

Lemma items_of_delete_head tx l : ascending (tx :: l) -> delete (Tx.Nonce tx) (items_of (tx :: l)) = items_of l.
Proof.
  intros H%ascending_NoDup. unfold items_of. cbn. apply delete_insert_id.
  apply not_elem_of_list_to_map_1. rewrite pairs_fst. cbn in H. by apply list.NoDup_cons in H as [? _].
Qed.

Lemma items_of_ext l l' : ascending l -> ascending l' -> items_of l = items_of l' -> l = l'.
Proof.
  intros H H' E. apply ascending_unique; [done|done|]. rewrite <- (pairs_snd l), <- (pairs_snd l').
  by rewrite <- (items_of_list l H), <- (items_of_list l' H'), E.
Qed.

(** ** Representation *)

(** The items and the heap, without the cache. *)
Record core (m : Map) (l : list T) : Prop := {
  core_sorted : ascending l;
  core_nonces : Forall (fun tx => 0 <= Tx.Nonce tx < two64) l;
  core_items : items m = items_of l;
  core_heap : heap.is_heap Z.ltb (index m);
  core_index : index m ≡ₚ Tx.Nonce <$> l
}.

Definition repr (m : Map) (l : list T) : Prop := core m l /\ (cache m = None \/ cache m = Some l).

Lemma core_new : core newTxSortedMap [].
Proof. split; try done. constructor. Qed.

(** A sorted list of nonces is a heap. *)
Lemma ascending_heap l : ascending l -> heap.is_heap Z.ltb (Tx.Nonce <$> l).
Proof.
  intros Hs j Hj _ x y Hx Hy. apply Z.ltb_ge. apply list_lookup_fmap_Some in Hx as (a & -> & Ha). apply list_lookup_fmap_Some in Hy as (b & -> & Hb).
  assert (Hlt : (heap.parent j < j)%nat) by (unfold heap.parent; apply Nat.Div0.div_lt_upper_bound; lia).
  revert Hlt Ha Hb. generalize (heap.parent j) as i. clear Hj. intros i. revert i j. induction l as [|c l IH]; intros i j Hlt Ha Hb; [done|].
  apply ascending_cons in Hs as [H1 H2]. destruct j as [|j]; [lia|]. destruct i as [|i]; cbn in Ha, Hb.
  - injection Ha as ->. apply list_elem_of_lookup_2 in Hb. specialize (H2 b Hb). lia.
  - apply (IH H1 i j); [lia|done|done].
Qed.

Lemma repr_sorted l : ascending l -> Forall (fun tx => 0 <= Tx.Nonce tx < two64) l -> repr (mkMap (items_of l) (Tx.Nonce <$> l) None) l.
Proof. intros Hs Hn. split; [split; cbn; try done; by apply ascending_heap|by left]. Qed.

Lemma core_head m tx l : core m (tx :: l) -> exists rest, index m = Tx.Nonce tx :: rest.
Proof.
  intros [Hs _ _ Hh Hi]. destruct (index m) as [|n rest] eqn:E; [by apply Permutation_nil in Hi|].
  exists rest. f_equal. apply ascending_cons in Hs as [_ Hs].
  assert (Hn : n ∈ Tx.Nonce <$> tx :: l) by (rewrite <- Hi; apply list.elem_of_cons; by left).
  assert (Hx : Tx.Nonce tx ∈ n :: rest) by (rewrite Hi; apply list.elem_of_cons; by left).
  pose proof (heap.heap_min Z.ltb (n :: rest) n (Tx.Nonce tx) Hh eq_refl Hx) as Hle. apply Z.ltb_ge in Hle.
  cbn in Hn. apply list.elem_of_cons in Hn as [?|(y & -> & Hy)%list_elem_of_fmap]; [done|]. apply Hs in Hy. lia.
Qed.

Lemma core_empty m : core m [] -> index m = [].
Proof. intros [_ _ _ _ Hi]. by apply Permutation_nil. Qed.

(** Popping the heap and deleting the item removes the first transaction. *)
Lemma core_pop m tx l : core m (tx :: l) -> exists index',
  heap.Pop Z.ltb (index m) = Done (Tx.Nonce tx, index') /\
  items m !! Tx.Nonce tx = Some tx /\ length index' = length l /\
  forall c, core (mkMap (delete (Tx.Nonce tx) (items m)) index' c) l.
Proof.
  intros Hc. destruct (core_head _ _ _ Hc) as [rest Er]. destruct Hc as [Hs Hn Hit Hh Hi].
  destruct (heap.Pop_ok Z.ltb (index m) (Tx.Nonce tx) Hh) as (index' & E & Hh' & Hp & _); [by rewrite Er|].
  rewrite Hi in Hp. cbn in Hp. apply Permutation_cons_inv in Hp. exists index'. split; [done|]. split.
  { rewrite Hit. apply items_of_lookup; [done|]. split; [|done]. apply list.elem_of_cons. by left. }
  split; [rewrite Hp; apply length_fmap|]. intros c. apply ascending_cons in Hs as Hs'. inversion_clear Hn.
  split; cbn; try done; [apply Hs'|]. by rewrite Hit, items_of_delete_head.
Qed.

(** ** Forward *)

Notation below t := (fun tx => Tx.Nonce tx < t).
Notation above t := (fun tx => t <= Tx.Nonce tx).

Lemma ascending_above l t tx : ascending (tx :: l) -> t <= Tx.Nonce tx ->
  base.filter (below t) (tx :: l) = [] /\ base.filter (above t) (tx :: l) = tx :: l.
Proof.
  intros [_ H]%ascending_cons Ht. assert (Hall : Forall (above t) (tx :: l)).
  { apply list.Forall_forall. intros y [->|Hy]%list.elem_of_cons; [done|]. apply H in Hy. lia. }
  split; [|by apply list_filter_all]. apply list_filter_none. eapply list.Forall_impl; [exact Hall|]. cbn. lia.
Qed.

Lemma ascending_split l t : ascending l -> l = base.filter (below t) l ++ base.filter (above t) l.
Proof.
  induction l as [|tx l IH]; [done|]. intros H. destruct (decide (Tx.Nonce tx < t)) as [Hlt|Hge].
  - rewrite !list.filter_cons, decide_True, decide_False by lia. cbn. f_equal. apply IH. by apply ascending_cons in H as [? _].
  - destruct (ascending_above l t tx H ltac:(lia)) as [-> ->]. done.
Qed.

Lemma forward_loop_ok t l : forall m fuel removed, core m l -> (length l < fuel)%nat ->
  exists m', forward_loop fuel t removed m = Done (removed ++ (Some <$> base.filter (below t) l), m') /\
    core m' (base.filter (above t) l) /\ cache m' = cache m.
Proof.
  induction l as [|tx l IH]; intros m fuel removed Hc Hf; (destruct fuel as [|fuel]; [cbn in Hf; lia|]); cbn [forward_loop];
    unfold get, mbind, M_bind.
  - rewrite (core_empty _ Hc). exists m. cbn. by rewrite app_nil_r.
  - destruct (core_head _ _ _ Hc) as [rest Er]. rewrite Er. destruct (Z.ltb_spec (Tx.Nonce tx) t) as [Hlt|Hge].
    + destruct (core_pop _ _ _ Hc) as (index' & E & Eit & _ & Hc'). unfold pop_index, outcome_to_M, get, modify, mbind, M_bind.
      rewrite E. cbn [mret M_ret]. unfold delete_item, modify. cbn [items index cache]. rewrite Eit.
      destruct (IH (mkMap (delete (Tx.Nonce tx) (items m)) index' (cache m)) fuel (removed ++ [Some tx]) (Hc' _)) as (m' & E' & H'); [cbn in Hf; lia|].
      exists m'. rewrite E'. rewrite !list.filter_cons, decide_True, (decide_False (P := t <= _)) by lia. cbn. by rewrite <- app_assoc.
    + exists m. destruct (ascending_above l t tx (core_sorted _ _ Hc) Hge) as [-> ->]. cbn. by rewrite app_nil_r.
Qed.

Lemma core_cache m l c : core m l -> core (mkMap (items m) (index m) c) l.
Proof. by intros [? ? ? ? ?]. Qed.

Lemma core_length m l : core m l -> length (index m) = length l.
Proof. intros [_ _ _ _ Hi]. by rewrite Hi, length_fmap. Qed.

Lemma Forward_ok t m l : repr m l ->
  exists m', Forward t m = Done (Some <$> base.filter (below t) l, m') /\ repr m' (base.filter (above t) l).
Proof.
  intros [Hc Hcache]. unfold Forward, get, mbind, M_bind.
  destruct (forward_loop_ok t l m (S (length (index m))) [] Hc) as (m' & E & Hc' & Ec); [rewrite (core_length _ _ Hc); lia|].
  rewrite E. cbn [app]. rewrite Ec. destruct Hcache as [E0|E0]; rewrite E0 in *.
  - exists m'. split; [done|]. split; [done|]. left. congruence.
  - pose proof (ascending_split l t (core_sorted _ _ Hc)) as Hsplit. rewrite length_fmap.
    destruct (Nat.ltb_spec (length l) (length (base.filter (below t) l))) as [Hlt|_].
    { rewrite Hsplit in Hlt at 1. rewrite length_app in Hlt. lia. }
    eexists. split; [done|]. split; [by apply core_cache|]. right. cbn. f_equal. rewrite Hsplit at 2. by rewrite drop_app_length.
Qed.

(** ** Put *)

Fixpoint sl_insert (tx : T) (l : list T) : list T :=
  match l with
  | [] => [tx]
  | y :: l => if Tx.Nonce tx <? Tx.Nonce y then tx :: y :: l else
              if Tx.Nonce tx =? Tx.Nonce y then tx :: l else y :: sl_insert tx l
  end.

Lemma elem_of_sl_insert tx l y : ascending l -> y ∈ sl_insert tx l <-> y = tx \/ (y ∈ l /\ Tx.Nonce y <> Tx.Nonce tx).
Proof.
  induction l as [|x l IH]; intros H; cbn [sl_insert].
  { rewrite list_elem_of_singleton, elem_of_nil. tauto. }
  apply ascending_cons in H as [H1 H2]. destruct (Z.ltb_spec (Tx.Nonce tx) (Tx.Nonce x)); [|destruct (Z.eqb_spec (Tx.Nonce tx) (Tx.Nonce x))];
    rewrite !list.elem_of_cons, ?IH by done.
  - split; [intros [->|[->|Hy]]; [tauto|right; split; [tauto|lia]|right; split; [tauto|apply H2 in Hy; lia]]|tauto].
  - split; [intros [->|Hy]; [tauto|right; split; [tauto|apply H2 in Hy; lia]]|]. intros [->|[[->|Hy] Hne]]; [tauto|lia|tauto].
  - split; [intros [->|[->|Hy]]; [right; split; [tauto|lia]|tauto|tauto]|tauto].
Qed.

Lemma ascending_sl_insert tx l : ascending l -> ascending (sl_insert tx l).
Proof.
  induction l as [|x l IH]; intros H; cbn [sl_insert]; [repeat constructor|].
  apply ascending_cons in H as H'. destruct H' as [H1 H2].
  destruct (Z.ltb_spec (Tx.Nonce tx) (Tx.Nonce x)); [|destruct (Z.eqb_spec (Tx.Nonce tx) (Tx.Nonce x))]; apply ascending_cons.
  - split; [done|]. intros y [->|Hy]%list.elem_of_cons; [done|]. apply H2 in Hy. lia.
  - split; [done|]. intros y Hy. apply H2 in Hy. lia.
  - split; [by apply IH|]. intros y [->|[Hy _]]%elem_of_sl_insert; [lia|by apply H2|done].
Qed.

Lemma sl_insert_new tx l : (forall y, y ∈ l -> Tx.Nonce y <> Tx.Nonce tx) -> sl_insert tx l ≡ₚ tx :: l.
Proof.
  induction l as [|x l IH]; intros H; cbn [sl_insert]; [done|]. destruct (_ <? _); [done|].
  destruct (Z.eqb_spec (Tx.Nonce tx) (Tx.Nonce x)); [exfalso; apply (H x); [apply list.elem_of_cons; by left|lia]|].
  rewrite IH; [by constructor|]. intros y Hy. apply H, list.elem_of_cons. by right.
Qed.

Lemma sl_insert_old tx l old : ascending l -> old ∈ l -> Tx.Nonce old = Tx.Nonce tx -> Tx.Nonce <$> sl_insert tx l = Tx.Nonce <$> l.
Proof.
  intros H Ho E. induction l as [|x l IH]; cbn [sl_insert]; [by apply elem_of_nil in Ho|]. apply ascending_cons in H as [H1 H2].
  destruct (Z.ltb_spec (Tx.Nonce tx) (Tx.Nonce x)).
  - apply list.elem_of_cons in Ho as [->|Ho]; [lia|]. apply H2 in Ho. lia.
  - destruct (Z.eqb_spec (Tx.Nonce tx) (Tx.Nonce x)) as [E'|Hne]; [by cbn; rewrite E'|]. cbn. f_equal.
    apply IH; [done|]. apply list.elem_of_cons in Ho as [->|Ho]; [lia|done].
Qed.

Lemma items_of_sl_insert tx l : ascending l -> items_of (sl_insert tx l) = <[Tx.Nonce tx := tx]> (items_of l).
Proof.
  intros H. apply map_eq. intros n. apply option_eq. intros y.
  rewrite items_of_lookup, elem_of_sl_insert, lookup_insert_Some, items_of_lookup by (done || by apply ascending_sl_insert).
  split; [intros [[->|[Hy Hne]] <-]; [by left|by right]|]. intros [[<- ->]|[Hne [Hy <-]]]; [tauto|split; [right; split; [done|congruence]|done]].
Qed.

Lemma Put_ok tx m l : repr m l -> 0 <= Tx.Nonce tx < two64 -> exists m', Put tx m = Done ((), m') /\ repr m' (sl_insert tx l).
Proof.
  intros [[Hs Hn Hit Hh Hi] _] Htx. eexists. split; [done|]. split; [|by left].
  assert (Hx : heap.is_heap Z.ltb (index (mkMap (<[Tx.Nonce tx := tx]> (items m))
      match items m !! Tx.Nonce tx with None => heap.Push Z.ltb (index m) (Tx.Nonce tx) | Some _ => index m end None)) /\
    match items m !! Tx.Nonce tx with None => heap.Push Z.ltb (index m) (Tx.Nonce tx) | Some _ => index m end
      ≡ₚ Tx.Nonce <$> sl_insert tx l).
  { cbn. destruct (items m !! Tx.Nonce tx) as [old|] eqn:E; rewrite Hit in E.
    - apply items_of_lookup in E as [Ho Eo]; [|done]. by rewrite (sl_insert_old tx l old).
    - destruct (heap.Push_ok Z.ltb (index m) (Tx.Nonce tx) Hh) as [H1 H2]. split; [done|]. rewrite H2, Hi, sl_insert_new; [done|].
      intros y Hy En. assert (E' : items_of l !! Tx.Nonce tx = Some y) by by apply items_of_lookup. congruence. }
  split; cbn; [by apply ascending_sl_insert| |by rewrite Hit, items_of_sl_insert|apply Hx|apply Hx].
  apply list.Forall_forall. intros y [->|[Hy _]]%elem_of_sl_insert; [done|by rewrite list.Forall_forall in Hn; apply Hn|done].
Qed.

(** ** Filters *)

Lemma ascending_filter (P : T -> Prop) `{forall x, Decision (P x)} l : ascending l -> ascending (base.filter P l).
Proof. intros Hs. eapply ascending_sublist; [done|]. apply sublist_filter. Qed.

Lemma Forall_sub {A} (P : A -> Prop) l l' : (forall x, x ∈ l' -> x ∈ l) -> Forall P l -> Forall P l'.
Proof. rewrite !list.Forall_forall. auto. Qed.

Lemma in_filter (P : T -> Prop) `{forall x, Decision (P x)} (l : list T) x : x ∈ base.filter P l -> x ∈ l.
Proof. by intros [_ ?]%list_elem_of_filter. Qed.

Notation holds g := (fun tx => g tx = true).
Notation fails g := (fun tx => g tx = false).

Lemma filter_loop_ok f g (entries : list (Z * T)) : forall (m : Map) removed,
  (forall n tx, (n, tx) ∈ entries -> f tx = Done (g tx)) ->
  exists m', filter_loop f entries removed m = Done (removed ++ base.filter (holds g) entries.*2, m') /\
    index m' = index m /\ cache m' = cache m /\
    forall n tx, items m' !! n = Some tx <-> items m !! n = Some tx /\ forall tx', (n, tx') ∈ entries -> g tx' = false.
Proof.
  induction entries as [|[n tx] entries IH]; intros m removed Hf; cbn [filter_loop].
  { exists m. rewrite app_nil_r. split_and!; try done. intros n tx. split; [|tauto]. intros H. split; [done|]. by intros tx' ?%elem_of_nil. }
  assert (Hf' : forall n tx, (n, tx) ∈ entries -> f tx = Done (g tx)) by (intros; eapply Hf, list.elem_of_cons; by right).
  unfold mbind, M_bind, outcome_to_M. rewrite (Hf n tx) by (apply list.elem_of_cons; by left). cbn [fmap list_fmap snd].
  rewrite list.filter_cons. destruct (g tx) eqn:E.
  - rewrite decide_True by done. unfold delete_item, modify.
    destruct (IH (mkMap (delete n (items m)) (index m) (cache m)) (removed ++ [tx]) Hf') as (m' & E' & H1 & H2 & H3).
    exists m'. rewrite E', <- app_assoc. split_and!; try done. intros k y. rewrite H3. cbn [items]. rewrite lookup_delete_Some. split.
    + intros [[Hne Hy] Ha]. split; [done|]. intros tx' [[= -> ->]|Hin]%list.elem_of_cons; [done|by apply Ha].
    + intros [Hy Ha]. split; [split; [|done]|intros tx' Hin; apply Ha, list.elem_of_cons; by right].
      intros ->. specialize (Ha tx ltac:(apply list.elem_of_cons; by left)). congruence.
  - rewrite decide_False by congruence. destruct (IH m removed Hf') as (m' & E' & H1 & H2 & H3). exists m'. rewrite E'. split_and!; try done.
    intros k y. rewrite H3. split; intros [Hy Ha]; (split; [done|]).
    + intros tx' [[= -> ->]|Hin]%list.elem_of_cons; [done|by apply Ha].
    + intros tx' Hin. apply Ha, list.elem_of_cons. by right.
Qed.

Section Ranges.
Context (iter : forall A : Type, list A -> list A) (iter_perm : forall A (l : list A), iter A l ≡ₚ l).

Lemma range_items m l : items m = items_of l -> ascending l -> iter _ (map_to_list (items m)) ≡ₚ pairs l.
Proof. intros E H. by rewrite iter_perm, E, items_of_list. Qed.

Lemma filter_ok f g m l : items m = items_of l -> ascending l -> (forall tx, tx ∈ l -> f tx = Done (g tx)) ->
  exists removed m', txsSortedMap.filter iter f m = Done (removed, m') /\ removed ≡ₚ base.filter (holds g) l /\
    index m' = index m /\ items m' = items_of (base.filter (fails g) l) /\
    cache m' = if 0 <? zlen removed then None else cache m.
Proof.
  intros Hit Hs Hf. unfold txsSortedMap.filter, get, mbind, M_bind. pose proof (range_items m l Hit Hs) as Hp.
  set (entries := iter _ (map_to_list (items m))) in *.
  destruct (filter_loop_ok f g entries m []) as (m1 & E & H1 & H2 & H3).
  { intros n tx. rewrite Hp, elem_of_pairs. intros [Hin _]. by apply Hf. }
  rewrite E. cbn [app]. set (removed := base.filter (holds g) entries.*2) in *.
  assert (Hrem : removed ≡ₚ base.filter (holds g) l) by (unfold removed; by rewrite Hp, pairs_snd).
  assert (Hitems : items m1 = items_of (base.filter (fails g) l)).
  { apply map_eq. intros n. apply option_eq. intros y. rewrite H3, items_of_lookup by by apply ascending_filter.
    rewrite list_elem_of_filter, Hit, items_of_lookup by done. split.
    - intros [[Hy <-] Ha]. split_and!; try done. apply Ha. rewrite Hp. by apply elem_of_pairs.
    - intros [[Hg Hy] <-]. split; [done|]. intros tx'. rewrite Hp, elem_of_pairs. intros [Hin En].
      by rewrite (ascending_inj l tx' y Hs Hin Hy En). }
  unfold set_cache, modify. destruct (0 <? zlen removed) eqn:Ez; eexists removed, _; (split; [reflexivity|]); (split; [done|]); cbn [index items cache]; by rewrite ?H1, ?H2, ?Hitems, Ez.
Qed.

Lemma reheap_ok m l : items m = items_of l -> ascending l -> Forall (fun tx => 0 <= Tx.Nonce tx < two64) l ->
  exists m', reheap iter m = Done ((), m') /\ repr m' l.
Proof.
  intros Hit Hs Hn. eexists. split; [done|]. split; [|by left].
  destruct (heap.Init_ok Z.ltb (iter _ (map_to_list (items m))).*1) as [H1 H2].
  split; try done. cbn [index]. rewrite H2, (range_items m l Hit Hs), pairs_fst. done.
Qed.

Lemma none_removed g l (removed : list T) : removed ≡ₚ base.filter (holds g) l -> zlen removed <= 0 -> base.filter (fails g) l = l.
Proof.
  intros Hp Hz. assert (removed = []) as ->. { destruct removed; [done|]. unfold zlen in Hz. cbn in Hz. lia. }
  symmetry in Hp. apply Permutation_nil_r in Hp. apply list_filter_all. apply list.Forall_forall. intros x Hx.
  destruct (g x) eqn:E; [|done]. assert (x ∈ base.filter (holds g) l) as Hi by by apply list_elem_of_filter. rewrite Hp in Hi. by apply elem_of_nil in Hi.
Qed.

Lemma Filter_ok f g m l : repr m l -> (forall tx, tx ∈ l -> f tx = Done (g tx)) ->
  exists removed m', txsSortedMap.Filter iter f m = Done (removed, m') /\ removed ≡ₚ base.filter (holds g) l /\
    repr m' (base.filter (fails g) l).
Proof.
  intros [[Hs Hn Hit Hh Hi] Hc] Hf. unfold txsSortedMap.Filter, mbind, M_bind.
  destruct (filter_ok f g m l Hit Hs Hf) as (removed & m1 & E & Hp & Hx & Hy & Ec). rewrite E.
  assert (Hn' : Forall (fun tx => 0 <= Tx.Nonce tx < two64) (base.filter (fails g) l)) by (eapply Forall_sub; [apply in_filter|done]).
  destruct (Z.ltb_spec 0 (zlen removed)).
  - destruct (reheap_ok m1 (base.filter (fails g) l) Hy ltac:(by apply ascending_filter) Hn') as (m2 & E2 & H2). rewrite E2. by exists removed, m2.
  - exists removed, m1. split; [done|]. split; [done|]. rewrite (none_removed g l removed Hp) in * by lia.
    split; [split; [done|done|done|by rewrite Hx|by rewrite Hx]|]. by rewrite Ec.
Qed.

Lemma flatten_ok m l : repr m l -> exists m', flatten iter m = Done (l, m') /\ repr m' l.
Proof.
  intros [Hc Hcache]. unfold flatten, get, mbind, M_bind. destruct Hcache as [E|E]; rewrite E.
  - assert (Hl : TxByNonce (iter _ (map_to_list (items m))).*2 = l).
    { destruct Hc as [Hs _ Hit _ _]. assert (Hp : (iter _ (map_to_list (items m))).*2 ≡ₚ l) by (by rewrite (range_items m l Hit Hs), pairs_snd).
      destruct (TxByNonce_ascending (iter _ (map_to_list (items m))).*2) as [H1 H2]; [rewrite Hp; by apply ascending_NoDup|].
      apply ascending_unique; [done|done|]. by rewrite H2. }
    rewrite Hl. eexists. split; [done|]. split; [by apply core_cache|by right].
  - exists m. split; [done|]. split; [done|by right].
Qed.
End Ranges.

(** ** Ready *)

(** The transactions whose nonces follow each other from [n], and the rest. *)
Fixpoint consecutive (n : Z) (l : list T) : list T * list T :=
  match l with
  | tx :: l => if Tx.Nonce tx =? n then let '(a, b) := consecutive (n + 1) l in (tx :: a, b) else ([], tx :: l)
  | [] => ([], [])
  end.

Lemma ready_loop_ok l : forall m fuel next ready, core m l -> (length l < fuel)%nat ->
  exists m', ready_loop fuel next ready m = Done (ready ++ (Some <$> (consecutive next l).1), m') /\ core m' (consecutive next l).2.
Proof.
  induction l as [|tx l IH]; intros m fuel next ready Hc Hf; (destruct fuel as [|fuel]; [cbn in Hf; lia|]); cbn [ready_loop consecutive];
    unfold get, mbind, M_bind.
  { rewrite (core_empty _ Hc). exists m. cbn. by rewrite app_nil_r. }
  destruct (core_head _ _ _ Hc) as [rest Er]. rewrite Er. destruct (Z.eqb_spec (Tx.Nonce tx) next) as [<-|Hne].
  2: { exists m. cbn. by rewrite app_nil_r. }
  destruct (core_pop _ _ _ Hc) as (index' & E & Eit & _ & Hc'). unfold delete_item, pop_index, outcome_to_M, get, modify, mbind, M_bind.
  cbn [index items cache]. rewrite Eit, E. cbn [mret M_ret index items cache].
  specialize (IH (mkMap (delete (Tx.Nonce tx) (items m)) index' (cache m)) fuel (u64 (Tx.Nonce tx + 1)) (ready ++ [Some tx]) (Hc' _) ltac:(cbn in Hf; lia)).
  assert (consecutive (u64 (Tx.Nonce tx + 1)) l = consecutive (Tx.Nonce tx + 1) l) as Eq.
  { pose proof (core_nonces _ _ Hc) as Hn. pose proof (core_sorted _ _ Hc) as [_ Hlt]%ascending_cons.
    destruct l as [|y l]; [done|]. specialize (Hlt y ltac:(apply list.elem_of_cons; by left)).
    inversion_clear Hn as [|? ? Hx Hn']. inversion_clear Hn'. by rewrite u64_small by lia. }
  rewrite Eq in IH. destruct IH as (m' & E' & H'). exists m'. rewrite E'. destruct (consecutive (Tx.Nonce tx + 1) l) as [a b]. cbn in *.
  by rewrite <- app_assoc.
Qed.

(** What can be executed next: the run from the lowest nonce, if that is not too high. *)
Definition ready_of (start : Z) (l : list T) : list T * list T :=
  match l with
  | [] => ([], [])
  | tx :: _ => if start <? Tx.Nonce tx then ([], l) else consecutive (Tx.Nonce tx) l
  end.

Lemma Ready_ok start m l : repr m l -> exists m', Ready start m = Done (Some <$> (ready_of start l).1, m') /\ repr m' (ready_of start l).2.
Proof.
  intros [Hc Hcache]. unfold Ready, get, mbind, M_bind. destruct l as [|tx l].
  { rewrite (core_empty _ Hc). by exists m. }
  destruct (core_head _ _ _ Hc) as [rest Er]. rewrite Er. cbn [ready_of]. destruct (start <? Tx.Nonce tx); [by exists m|].
  destruct (ready_loop_ok (tx :: l) m (S (length (Tx.Nonce tx :: rest))) (Tx.Nonce tx) [] Hc) as (m' & E & Hc').
  { rewrite <- Er, (core_length _ _ Hc). lia. }
  rewrite E. eexists. split; [done|]. split; [by apply core_cache|by left].
Qed.

(** ** Cap *)

Lemma items_of_delete_last tx l : ascending (l ++ [tx]) -> delete (Tx.Nonce tx) (items_of (l ++ [tx])) = items_of l.
Proof.
  intros H. apply map_eq. intros n. apply option_eq. intros y. rewrite lookup_delete_Some, items_of_lookup by done.
  assert (Hl : ascending l) by (eapply ascending_sublist; [exact H|apply sublist_inserts_r; done]).
  rewrite items_of_lookup, elem_of_app, list_elem_of_singleton by done. unfold ascending in H. rewrite StronglySorted_app in H. destruct H as [H _].
  split; [intros [Hne [[Hy| ->] <-]]; done|]. intros [Hy <-]. specialize (H y tx Hy ltac:(by apply list_elem_of_singleton)). split; [lia|]. tauto.
Qed.

Lemma cap_loop_ok l2 : forall l1 m drops rest, ascending (l1 ++ l2) -> items m = items_of (l1 ++ l2) ->
  index m = (Tx.Nonce <$> l1 ++ l2) ++ rest ->
  exists m', cap_loop (length l2) (zlen (l1 ++ l2)) drops m = Done (drops ++ (Some <$> reverse l2), m') /\
    items m' = items_of l1 /\ index m' = index m /\ cache m' = cache m.
Proof.
  induction l2 as [|tx l2 IH] using rev_ind; intros l1 m drops rest Hs Hit Hi.
  { exists m. cbn. rewrite !app_nil_r in *. done. }
  rewrite length_app, Nat.add_1_r. cbn [cap_loop]. unfold get, mbind, M_bind, must. rewrite app_assoc, zlen_app. change (zlen [tx]) with 1.
  rewrite Z.add_simpl_r. pose proof (zlen_nonneg (l1 ++ l2)). destruct (Z.ltb_spec (zlen (l1 ++ l2)) 0); [lia|].
  assert (Hx : index m !! Z.to_nat (zlen (l1 ++ l2)) = Some (Tx.Nonce tx)).
  { rewrite Hi, app_assoc, fmap_app, <- app_assoc. unfold zlen. rewrite Nat2Z.id. rewrite lookup_app_r; rewrite length_fmap; [|done].
    by rewrite Nat.sub_diag. }
  rewrite Hx. cbn [mret M_ret]. rewrite app_assoc in Hs, Hit.
  assert (Htx : items m !! Tx.Nonce tx = Some tx).
  { rewrite Hit. apply items_of_lookup; [done|]. split; [|done]. apply elem_of_app. right. by apply list_elem_of_singleton. }
  rewrite Htx. unfold delete_item, modify.
  destruct (IH l1 (mkMap (delete (Tx.Nonce tx) (items m)) (index m) (cache m)) (drops ++ [Some tx]) ([Tx.Nonce tx] ++ rest)) as (m' & E & H1 & H2 & H3).
  - eapply ascending_sublist; [exact Hs|]. by apply sublist_inserts_r.
  - cbn. by rewrite Hit, items_of_delete_last.
  - cbn. rewrite Hi, app_assoc, fmap_app, <- app_assoc. done.
  - exists m'. rewrite E. split_and!; [|done|done|done]. rewrite reverse_app, fmap_app. cbn. by rewrite <- app_assoc.
Qed.

Lemma sorted_index m l : core m l -> merge_sort Z.le (index m) = Tx.Nonce <$> l.
Proof.
  intros [Hs _ _ _ Hi]. apply (Sorted_unique Z.le); [apply Sorted_merge_sort; intros a b; lia| |by rewrite merge_sort_Permutation].
  apply StronglySorted_Sorted. eapply StronglySorted_fmap; [|exact Hs]. cbn. lia.
Qed.

Lemma Cap_ok t m l : repr m l -> 0 <= t ->
  exists m', Cap t m = Done (Some <$> reverse (drop (Z.to_nat t) l), m') /\ repr m' (take (Z.to_nat t) l).
Proof.
  intros [Hc Hcache] Ht. unfold Cap, get, mbind, M_bind. pose proof (sorted_index _ _ Hc) as Hsi. pose proof Hc as [Hs Hn Hit Hh Hi].
  rewrite Hit, items_of_size by done. destruct (Z.leb_spec (Z.of_nat (length l)) t).
  { exists m. rewrite drop_ge, take_ge by lia. done. }
  unfold modify. set (l1 := take (Z.to_nat t) l). set (l2 := drop (Z.to_nat t) l). assert (Hl : l = l1 ++ l2) by (symmetry; apply take_drop).
  assert (Hlen : Z.to_nat (Z.of_nat (length l) - t) = length l2) by (unfold l2; rewrite length_drop; lia).
  assert (Hl1 : length l1 = Z.to_nat t) by (unfold l1; rewrite length_take; lia).
  destruct (cap_loop_ok l2 l1 (mkMap (items_of l) (Tx.Nonce <$> l) (cache m)) [] []) as (m1 & E & H1 & H2 & H3);
    [by rewrite <- Hl|by rewrite <- Hl|by rewrite <- Hl, app_nil_r|].
  destruct m1 as [items1 index1 cache1]. cbn in H1, H2, H3. subst items1 index1 cache1.
  rewrite <- Hl in E. unfold zlen in E. rewrite Hlen, Hsi, Hit, E. cbn [app index items cache].
  assert (zlen (Tx.Nonce <$> l) = Z.of_nat (length l)) as Hz by (unfold zlen; by rewrite length_fmap).
  destruct (Z.ltb_spec t 0); [lia|]. destruct (Z.ltb_spec (zlen (Tx.Nonce <$> l)) t); [lia|]. cbn [orb].
  destruct (heap.Init_ok Z.ltb (take (Z.to_nat t) (Tx.Nonce <$> l))) as [Hh' Hp'].
  assert (Hcore : forall c, core (mkMap (items_of l1) (heap.Init Z.ltb (take (Z.to_nat t) (Tx.Nonce <$> l))) c) l1).
  { intros c. split; cbn; [eapply ascending_sublist; [exact Hs|apply sublist_take]| |done|done|unfold l1; by rewrite Hp', fmap_take].
    eapply Forall_sub; [|exact Hn]. intros x Hx. rewrite Hl. apply elem_of_app. by left. }
  destruct Hcache as [E0|E0]; rewrite E0.
  - eexists. split; [done|]. split; [apply Hcore|]. by left.
  - rewrite length_fmap, length_reverse. destruct (Nat.ltb_spec (length l) (length l2)); [rewrite Hl, length_app in *; lia|].
    eexists. split; [done|]. split; [apply Hcore|]. right. cbn. f_equal. unfold l1. f_equal.
    assert (length l = length l1 + length l2)%nat by (rewrite Hl at 1; apply length_app). lia.
Qed.

(** ** Remove *)

Lemma Remove_nonce_ok n m l : repr m l ->
  exists m', Remove n m = Done (bool_decide (n ∈ Tx.Nonce <$> l), m') /\ repr m' (base.filter (fun tx => Tx.Nonce tx <> n) l).
Proof.
  intros [Hc Hcache]. pose proof Hc as [Hs Hn Hit Hh Hi]. unfold Remove, get, mbind, M_bind.
  destruct (items m !! n) as [tx|] eqn:E; rewrite Hit in E.
  2: { exists m. assert (Hno : n ∉ Tx.Nonce <$> l).
       { intros (y & -> & Hy)%list_elem_of_fmap. assert (items_of l !! Tx.Nonce y = Some y) by by apply items_of_lookup. congruence. }
       rewrite bool_decide_eq_false_2 by done. split; [done|]. rewrite list_filter_all; [done|].
       apply list.Forall_forall. intros y Hy En. apply Hno. rewrite <- En. by apply list_elem_of_fmap_2. }
  apply items_of_lookup in E as [Htx En]; [|done].
  assert (Hin : n ∈ Tx.Nonce <$> l) by (rewrite <- En; by apply list_elem_of_fmap_2). rewrite bool_decide_eq_true_2 by done.
  destruct (list_find_elem_of (fun x => x = n) (index m) n) as [[i x] Hfind]; [by rewrite Hi|done|]. rewrite Hfind.
  apply list_find_Some in Hfind as (Hx & -> & _). destruct (heap.Remove_ok Z.ltb (index m) i n Hh Hx) as (index' & E & Hh' & Hp).
  unfold outcome_to_M. rewrite E. cbn. unfold modify. eexists. split; [done|]. split; [|by left].
  assert (Hitems : delete n (items_of l) = items_of (base.filter (fun tx => Tx.Nonce tx <> n) l)).
  { apply map_eq. intros k. apply option_eq. intros y. rewrite lookup_delete_Some, !items_of_lookup by (done || by apply ascending_filter).
    rewrite list_elem_of_filter. split; [intros [Hne [Hy <-]]; split; [split; [congruence|done]|done]|].
    intros [[Hne Hy] <-]. split; [congruence|done]. }
  split; cbn; [by apply ascending_filter|eapply Forall_sub; [apply in_filter|done]|by rewrite Hit|done|].
  assert (Hperm : n :: index' ≡ₚ n :: (Tx.Nonce <$> base.filter (fun tx => Tx.Nonce tx <> n) l)).
  { rewrite Hp, Hi. clear - Hs Hin. induction l as [|y l IH]; [by apply elem_of_nil in Hin|]. apply ascending_cons in Hs as [H1 H2].
    cbn in Hin. rewrite list.filter_cons. apply list.elem_of_cons in Hin as [->|Hin].
    - rewrite decide_False by (intros Hf; by apply Hf). cbn. constructor. rewrite list_filter_all; [done|].
      apply list.Forall_forall. intros z Hz. apply H2 in Hz. lia.
    - assert (Tx.Nonce y <> n). { apply list_elem_of_fmap in Hin as (z & -> & Hz). apply H2 in Hz. lia. }
      rewrite decide_True by done. cbn. rewrite (IH H1 Hin). apply Permutation_swap. }
  by apply Permutation_cons_inv in Hperm.
Qed.

(** ** The interface as a whole *)

Inductive Op : Type :=
| OPut (tx : T) | OForward (threshold : Z) | OFilter (g : T -> bool) | OCap (threshold : Z)
| ORemove (nonce : Z) | OReady (start : Z) | OFlatten.

Inductive Res : Type := RUnit | RBool (b : bool) | RTxs (l : list (option T)).

Definition op_ok (op : Op) : Prop :=
  match op with OPut tx => 0 <= Tx.Nonce tx < two64 | OCap t => 0 <= t | _ => True end.

Section Refinement.
Context (iter : forall A : Type, list A -> list A).

Definition exec (op : Op) : M Map Res :=
  match op with
  | OPut tx => _ ← Put tx; mret RUnit
  | OForward t => r ← Forward t; mret (RTxs r)
  | OFilter g => r ← txsSortedMap.Filter iter (fun tx => Done (g tx)); mret (RTxs (Some <$> r))
  | OCap t => r ← Cap t; mret (RTxs r)
  | ORemove n => b ← Remove n; mret (RBool b)
  | OReady s => r ← Ready s; mret (RTxs r)
  | OFlatten => r ← Flatten iter; mret (RTxs (Some <$> r))
  end.

Fixpoint exec_all (ops : list Op) : M Map (list Res) :=
  match ops with [] => mret [] | op :: ops => r ← exec op; rs ← exec_all ops; mret (r :: rs) end.

(** The same operations on a sorted list; what a filter removes comes in any order. *)
Inductive spec : Op -> list T -> Res -> list T -> Prop :=
| spec_Put tx l : spec (OPut tx) l RUnit (sl_insert tx l)
| spec_Forward t l : spec (OForward t) l (RTxs (Some <$> base.filter (below t) l)) (base.filter (above t) l)
| spec_Filter g l r : r ≡ₚ base.filter (holds g) l -> spec (OFilter g) l (RTxs (Some <$> r)) (base.filter (fails g) l)
| spec_Cap t l : spec (OCap t) l (RTxs (Some <$> reverse (drop (Z.to_nat t) l))) (take (Z.to_nat t) l)
| spec_Remove n l : spec (ORemove n) l (RBool (bool_decide (n ∈ Tx.Nonce <$> l))) (base.filter (fun tx => Tx.Nonce tx <> n) l)
| spec_Ready s l : spec (OReady s) l (RTxs (Some <$> (ready_of s l).1)) (ready_of s l).2
| spec_Flatten l : spec OFlatten l (RTxs (Some <$> l)) l.

Inductive spec_all : list Op -> list T -> list Res -> list T -> Prop :=
| spec_nil l : spec_all [] l [] l
| spec_cons op ops l r l1 rs l2 : spec op l r l1 -> spec_all ops l1 rs l2 -> spec_all (op :: ops) l (r :: rs) l2.

Context (iter_perm : forall A (l : list A), iter A l ≡ₚ l).

Lemma exec_refines op m l : repr m l -> op_ok op -> exists r m' l', exec op m = Done (r, m') /\ spec op l r l' /\ repr m' l'.
Proof.
  intros Hr Hok. destruct op as [tx|t|g|t|n|s|]; cbn [exec op_ok] in *; unfold mbind, M_bind.
  - destruct (Put_ok tx m l Hr Hok) as (m' & -> & H). eexists _, m', _. split; [done|]. split; [constructor|done].
  - destruct (Forward_ok t m l Hr) as (m' & -> & H). eexists _, m', _. split; [done|]. split; [constructor|done].
  - destruct (Filter_ok iter iter_perm (fun tx => Done (g tx)) g m l Hr) as (r & m' & -> & Hp & H); [done|].
    eexists _, m', _. split; [done|]. split; [by constructor|done].
  - destruct (Cap_ok t m l Hr Hok) as (m' & -> & H). eexists _, m', _. split; [done|]. split; [constructor|done].
  - destruct (Remove_nonce_ok n m l Hr) as (m' & -> & H). eexists _, m', _. split; [done|]. split; [constructor|done].
  - destruct (Ready_ok s m l Hr) as (m' & -> & H). eexists _, m', _. split; [done|]. split; [constructor|done].
  - unfold Flatten. destruct (flatten_ok iter iter_perm m l Hr) as (m' & -> & H). eexists _, m', _. split; [done|]. split; [constructor|done].
Qed.

(** C33: the map with its heap of nonces and its cached slice implements a list sorted by
    nonce, through any sequence of operations, in whatever order Go ranges over maps; no
    operation panics or runs out of steps, and none returns a nil transaction. *)
Theorem txsSortedMap_refines ops : Forall op_ok ops -> exists rs m l,
  exec_all ops newTxSortedMap = Done (rs, m) /\ spec_all ops [] rs l /\ repr m l.
Proof.
  intros Hops. assert (H0 : repr (newTxSortedMap (T := T)) []) by (split; [apply core_new|by left]).
  revert H0. generalize (newTxSortedMap (T := T)) as m, ([] : list T) as l. induction Hops as [|op ops Hop _ IH]; intros m l Hr; cbn [exec_all].
  { exists [], m, l. split; [done|]. split; [constructor|done]. }
  destruct (exec_refines op m l Hr Hop) as (r & m1 & l1 & E1 & S1 & R1). destruct (IH m1 l1 R1) as (rs & m2 & l2 & E2 & S2 & R2).
  exists (r :: rs), m2, l2. unfold mbind, M_bind. rewrite E1, E2. split; [done|]. split; [by econstructor|done].
Qed.
End Refinement.

(** ** Lists of an account *)

Section Lists.
Context {U : Uint256} {UL : Uint256Laws U}.
Context (iter : forall A : Type, list A -> list A) (iter_perm : forall A (l : list A), iter A l ≡ₚ l).

(** A transaction whose pointers are set and whose numbers have their widths. *)
Record tx_wf (tx : T) : Prop := {
  wf_price : exists p, Tx.GasPrice tx = Some p /\ word p;
  wf_tip : exists p, Tx.GasTipCap tx = Some p /\ word p;
  wf_value : exists v, Tx.Value tx = Some v /\ word v;
  wf_gas : 0 <= Tx.Gas tx < two64;
  wf_nonce : 0 <= Tx.Nonce tx < two64
}.

Definition price_of (tx : T) : Z := default 0 (Tx.GasPrice tx).
Definition tip_of (tx : T) : Z := default 0 (Tx.GasTipCap tx).
Definition cost_of (tx : T) : Z := wrap256 (wrap256 (price_of tx * Tx.Gas tx) + default 0 (Tx.Value tx)).

Lemma feecap_price tx : Tx.GasFeeCap tx = Tx.GasPrice tx.
Proof. unfold Tx.GasFeeCap, Tx.GasPrice. by destruct (view tx). Qed.

Lemma gas_word tx : tx_wf tx -> word (Tx.Gas tx).
Proof. intros H. pose proof (wf_gas _ H). unfold word. lia. Qed.

Lemma Cost_ok tx : tx_wf tx -> Tx.Cost tx = Done (cost_of tx).
Proof.
  intros H. destruct (wf_price _ H) as (p & Ep & Hp). destruct (wf_value _ H) as (v & Ev & Hv).
  unfold Tx.Cost, Transaction.Cost, cost_of, price_of, Tx.Gas. rewrite Ep, Ev. unfold Tx.GasPrice in Ep. unfold Tx.Value in Ev. rewrite Ep, Ev. cbn [deref mbind outcome_bind from_option].
  rewrite uint256.Mul_spec, uint256.Add_spec by (done || by apply gas_word || apply wrap256_word). done.
Qed.

(** What the balance or the gas limit does not cover. *)
Definition over (costLimit gasLimit : Z) (tx : T) : bool := (gasLimit <? Tx.Gas tx) || (costLimit <? cost_of tx).

Lemma unpayable_ok c g tx : tx_wf tx -> word c -> txsList.unpayable c g tx = Done (over c g tx).
Proof.
  intros H Hc. destruct (wf_price _ H) as (p & Ep & Hp). destruct (wf_value _ H) as (v & Ev & Hv).
  unfold txsList.unpayable, over, cost_of, price_of. rewrite Ep, Ev. cbn [deref mbind outcome_bind from_option].
  rewrite uint256.Mul_spec, uint256.Add_spec, uint256.Gt_spec by (done || by apply gas_word || apply wrap256_word).
  unfold Datatypes.id. by rewrite (Z.add_comm v).
Qed.

(** The list holds these transactions. *)
Record list_wf (l : List) (ts : list T) : Prop := {
  lw_repr : repr (txsList.txs l) ts;
  lw_wf : Forall tx_wf ts;
  lw_costcap : word (txsList.costcap l)
}.

(** Its caps cover them. *)
Record list_ok (l : List) (ts : list T) : Prop := {
  lo_wf : list_wf l ts;
  lo_caps : Forall (fun tx => cost_of tx <= txsList.costcap l /\ Tx.Gas tx <= txsList.gascap l) ts
}.

Lemma on_txs_ok {A} (f : M Map A) l a m : f (txsList.txs l) = Done (a, m) -> txsList.on_txs f l = Done (a, txsList.set_txs l m).
Proof. intros E. unfold txsList.on_txs, zoom. by rewrite E. Qed.

(** ** Adding *)

(** The rule for replacements: more gas, a higher price, and the bump on price and tip. *)
Definition better (bump : Z) (old tx : T) : bool :=
  let threshold := wrap256 (u64 (100 + bump) * price_of old) / 100 in
  (Tx.Gas old <? Tx.Gas tx) && (price_of old <? price_of tx) && (threshold <=? price_of tx) && (threshold <=? tip_of tx).

Lemma replaces_ok bump old tx : tx_wf old -> tx_wf tx -> txsList.replaces bump old tx = Done (better bump old tx).
Proof.
  intros Ho Ht. destruct (wf_price _ Ho) as (p & Ep & Hp). destruct (wf_price _ Ht) as (q & Eq & Hq). destruct (wf_tip _ Ht) as (r & Er & Hr).
  unfold txsList.replaces, better, price_of, tip_of. rewrite feecap_price, Ep, Eq, Er. cbn [deref mbind outcome_bind from_option]. unfold Datatypes.id.
  assert (Ha : word (u64 (100 + bump))) by (unfold word, u64; pose proof (Z.mod_pos_bound (100 + bump) two64); lia).
  set (t := wrap256 (u64 (100 + bump) * p) / 100).
  assert (Et : uint256.Div (uint256.Mul (u64 (100 + bump)) p) 100 = t).
  { rewrite uint256.Mul_spec, uint256.Div_spec by (done || apply wrap256_word || (unfold word; lia)). done. }
  assert (Hwt : word t).
  { unfold t, word. pose proof (wrap256_word (u64 (100 + bump) * p)) as Hw. unfold word in Hw. Z.to_euclidean_division_equations; lia. }
  rewrite Et, !uint256.Lt_spec by done.
  destruct (Z.leb_spec (Tx.Gas tx) (Tx.Gas old)), (Z.ltb_spec (Tx.Gas old) (Tx.Gas tx)); try lia; cbn [andb]; [done|].
  destruct (Z.ltb_spec p q); cbn [negb andb]; [|done].
  destruct (Z.ltb_spec q t), (Z.leb_spec t q); try lia; cbn [andb]; [done|]. by destruct (Z.ltb_spec r t), (Z.leb_spec t r); try lia.
Qed.

Lemma Add_run tx bump l ts : list_wf l ts -> tx_wf tx ->
  let old := items_of ts !! Tx.Nonce tx in
  let accepted := match old with None => true | Some old => better bump old tx end in
  exists l', txsList.Add tx bump l = Done ((accepted, if accepted then old else None), l') /\
    list_wf l' (if accepted then sl_insert tx ts else ts) /\ txsList.strict l' = txsList.strict l /\
    txsList.costcap l' = (if accepted then Z.max (txsList.costcap l) (cost_of tx) else txsList.costcap l) /\
    txsList.gascap l' = (if accepted then Z.max (txsList.gascap l) (Tx.Gas tx) else txsList.gascap l).
Proof.
  intros [Hr Hwf Hcc] Htx old accepted. assert (Hs : ascending ts) by apply (proj1 Hr).
  assert (Hitems : Get (Tx.Nonce tx) (txsList.txs l) = old) by (unfold Get, old; by rewrite (core_items _ _ (proj1 Hr))).
  unfold txsList.Add, get, mbind, M_bind. rewrite Hitems.
  assert (Hdec : match old with None => mret true | Some old => outcome_to_M (txsList.replaces bump old tx) end l = Done (accepted, l)).
  { subst accepted. destruct old as [o|] eqn:E; [|done]. unfold outcome_to_M. rewrite replaces_ok; [done| |done].
    unfold old in E. apply items_of_lookup in E as [Ho _]; [|done]. rewrite list.Forall_forall in Hwf. by apply Hwf. }
  rewrite Hdec. destruct accepted; cbn [negb]; [|by exists l].
  destruct (Put_ok tx _ _ Hr (wf_nonce _ Htx)) as (m' & E & Hr'). rewrite (on_txs_ok _ _ _ _ E). unfold outcome_to_M. rewrite Cost_ok by done.
  unfold modify. eexists. split; [done|]. cbn [txsList.costcap txsList.gascap txsList.set_txs txsList.strict].
  assert (word (cost_of tx)) by apply wrap256_word. rewrite uint256.Lt_spec by done. split_and!; [|done| |].
  - split; cbn [txsList.txs txsList.costcap]; [done| |by destruct (_ <? _)].
    apply list.Forall_forall. intros y [->|[Hy _]]%elem_of_sl_insert; [done| |done]. rewrite list.Forall_forall in Hwf. by apply Hwf.
  - destruct (Z.ltb_spec (txsList.costcap l) (cost_of tx)); lia.
  - destruct (Z.ltb_spec (txsList.gascap l) (Tx.Gas tx)); lia.
Qed.

(** Adding a transaction: one with the nonce of an older one is accepted only if it
    brings more gas, a higher price and the required bump on price and tip, and then
    takes its place; the list stays sorted and its caps cover what it holds. *)
Theorem Add_ok tx bump l ts : list_ok l ts -> tx_wf tx ->
  let old := items_of ts !! Tx.Nonce tx in
  let accepted := match old with None => true | Some old => better bump old tx end in
  exists l', txsList.Add tx bump l = Done ((accepted, if accepted then old else None), l') /\
    list_ok l' (if accepted then sl_insert tx ts else ts).
Proof.
  intros [Hwf Hcaps] Htx old accepted. destruct (Add_run tx bump l ts Hwf Htx) as (l' & E & H & _ & E1 & E2). fold old accepted in E, H, E1, E2.
  exists l'. split; [done|]. split; [done|]. rewrite E1, E2. destruct accepted; [|done]. rewrite list.Forall_forall in Hcaps |- *.
  intros y [->|[Hy _]]%elem_of_sl_insert; [lia|specialize (Hcaps y Hy); cbn in Hcaps; lia|apply (proj1 (lw_repr _ _ Hwf))].
Qed.

(** ** Filtering *)

(** What stays: what is covered, and in a strict list has nothing uncovered before it. *)
Definition kept (strict : bool) (bad : T -> bool) (ts : list T) (tx : T) : bool :=
  negb (bad tx) && (negb strict || forallb (fun r => negb (bad r) || (Tx.Nonce tx <? Tx.Nonce r)) ts).

Lemma kept_spec strict bad ts tx : kept strict bad ts tx = true <->
  bad tx = false /\ (strict = true -> forall r, r ∈ ts -> bad r = true -> Tx.Nonce tx < Tx.Nonce r).
Proof.
  unfold kept. rewrite andb_true_iff, negb_true_iff, orb_true_iff, negb_true_iff, forallb_forall. split; intros [H1 H2]; (split; [done|]).
  - intros Es r Hr Hb. destruct H2 as [?|H2]; [congruence|]. specialize (H2 r ltac:(by apply list_elem_of_In)). rewrite Hb in H2.
    by apply Z.ltb_lt.
  - destruct strict; [right|by left]. intros r Hr%list_elem_of_In. destruct (bad r) eqn:Hb; [|done]. apply Z.ltb_lt. by apply H2.
Qed.

Lemma lowest_nonce_spec removed : let lowest := foldl (fun low tx => if Tx.Nonce tx <? low then Tx.Nonce tx else low) in
  forall low, lowest low removed <= low /\ (forall tx, tx ∈ removed -> lowest low removed <= Tx.Nonce tx) /\
    (lowest low removed = low \/ exists tx, tx ∈ removed /\ lowest low removed = Tx.Nonce tx).
Proof.
  intros lowest. induction removed as [|x removed IH]; intros low; cbn.
  { split; [lia|]. split; [by intros ? ?%elem_of_nil|]. by left. }
  destruct (IH (if Tx.Nonce x <? low then Tx.Nonce x else low)) as (H1 & H2 & H3). fold lowest in H1, H2, H3 |- *.
  split_and!.
  - destruct (Z.ltb_spec (Tx.Nonce x) low); lia.
  - intros tx [->|Hx]%list.elem_of_cons; [destruct (Z.ltb_spec (Tx.Nonce x) low); lia|by apply H2].
  - destruct H3 as [->|(tx & Hx & E)]; [|right; exists tx; split; [apply list.elem_of_cons; by right|done]].
    destruct (Tx.Nonce x <? low); [right; exists x; split; [apply list.elem_of_cons; by left|done]|by left].
Qed.

(** The lowest nonce that was removed decides what a strict list drops besides. *)
Lemma lowest_removed bad ts removed tx : ascending ts -> Forall tx_wf ts -> removed ≡ₚ base.filter (holds bad) ts -> removed <> [] ->
  tx ∈ ts -> bad tx = false -> (txsList.lowest_nonce removed <? Tx.Nonce tx) = negb (kept true bad ts tx).
Proof.
  intros Hs Hwf Hp Hne Htx Hb. destruct (lowest_nonce_spec removed (two64 - 1)) as (H1 & H2 & H3). fold (txsList.lowest_nonce removed) in H1, H2, H3.
  assert (Hin : forall r, r ∈ removed <-> r ∈ ts /\ bad r = true) by (intros r; rewrite Hp, list_elem_of_filter; tauto).
  assert (Hlow : exists r, r ∈ ts /\ bad r = true /\ txsList.lowest_nonce removed = Tx.Nonce r).
  { destruct H3 as [E|(r & Hr%Hin & E)]; [|exists r; tauto]. destruct removed as [|r removed]; [done|]. exists r.
    assert (Hr : r ∈ r :: removed) by (apply list.elem_of_cons; by left). pose proof (H2 r Hr). apply Hin in Hr. split_and!; [tauto|tauto|].
    rewrite list.Forall_forall in Hwf. pose proof (wf_nonce _ (Hwf r (proj1 Hr))). lia. }
  destruct Hlow as (r & Hr & Hbr & E). apply eq_true_iff_eq. rewrite negb_true_iff, Z.ltb_lt, <- not_true_iff_false, kept_spec. split.
  - intros Hlt [_ Hk]. specialize (Hk eq_refl r Hr Hbr). lia.
  - intros Hk. destruct (Z.lt_ge_cases (txsList.lowest_nonce removed) (Tx.Nonce tx)); [done|]. exfalso. apply Hk. split; [done|].
    intros _ x Hx Hbx. specialize (H2 x (proj2 (Hin x) (conj Hx Hbx))).
    assert (Tx.Nonce tx <> Tx.Nonce r) by (intros En; assert (tx = r) by (by eapply ascending_inj); congruence). lia.
Qed.

Lemma filter_split {A} (P : A -> bool) (l : list A) :
  base.filter (fun x => P x = true) l ++ base.filter (fun x => P x = false) l ≡ₚ l.
Proof.
  induction l as [|x l IH]; [done|]. rewrite !list.filter_cons. destruct (P x) eqn:E.
  - rewrite decide_True, decide_False by congruence. cbn. by rewrite IH.
  - rewrite decide_False, decide_True by congruence. rewrite <- Permutation_middle. by rewrite IH.
Qed.

Lemma filter_ext {A} (P Q : A -> bool) (l : list A) : (forall x, x ∈ l -> P x = Q x) ->
  base.filter (fun x => P x = true) l = base.filter (fun x => Q x = true) l.
Proof.
  induction l as [|x l IH]; intros H; [done|]. rewrite !list.filter_cons, <- (H x) by (apply list.elem_of_cons; by left).
  rewrite IH; [done|]. intros y Hy. apply H, list.elem_of_cons. by right.
Qed.

Lemma filter_filter_and {A} (P Q : A -> bool) (l : list A) :
  base.filter (fun x => P x = true) (base.filter (fun x => Q x = false) l) = base.filter (fun x => negb (Q x) && P x = true) l.
Proof.
  induction l as [|x l IH]; [done|]. rewrite !list.filter_cons. destruct (Q x) eqn:E; cbn [negb andb].
  - rewrite decide_False, (decide_False (P := false = true)) by congruence. apply IH.
  - rewrite decide_True by done. rewrite list.filter_cons. by rewrite IH.
Qed.

Lemma filter_negb {A} (P : A -> bool) (l : list A) : base.filter (fun x => P x = false) l = base.filter (fun x => negb (P x) = true) l.
Proof. induction l as [|x l IH]; [done|]. rewrite !list.filter_cons, IH. by destruct (P x). Qed.

(** The part that is removed is what is not kept. *)
Lemma removed_rest (P : T -> bool) ts (removed invalids ts1 ks : list T) :
  removed ++ ts1 ≡ₚ ts -> invalids ++ ks ≡ₚ ts1 -> ks = base.filter (holds P) ts -> removed ++ invalids ≡ₚ base.filter (fails P) ts.
Proof.
  intros H1 H2 ->. apply (Permutation_app_inv_r (base.filter (holds P) ts)). rewrite <- app_assoc, H2, H1.
  rewrite Permutation_app_comm. symmetry. apply filter_split.
Qed.

Lemma payable_ok c g (l : List) m ts : repr m ts -> Forall tx_wf ts -> word c -> (forall tx, tx ∈ ts -> over c g tx = false) ->
  list_ok (txsList.mkList (txsList.strict l) m c g) ts.
Proof.
  intros Hr Hwf Hc Ho. split; [by split|]. apply list.Forall_forall. intros tx Htx. cbn. specialize (Ho tx Htx). unfold over in Ho.
  apply orb_false_iff in Ho as [H1%Z.ltb_ge H2%Z.ltb_ge]. lia.
Qed.

Lemma none_over_kept strict bad ts : (forall tx, tx ∈ ts -> bad tx = false) ->
  base.filter (holds bad) ts = [] /\ base.filter (holds (kept strict bad ts)) ts = ts /\ base.filter (fails (kept strict bad ts)) ts = [].
Proof.
  intros H. assert (Hk : forall tx, tx ∈ ts -> kept strict bad ts tx = true).
  { intros tx Htx. apply kept_spec. split; [by apply H|]. intros _ r Hr Hb. rewrite H in Hb by done. done. }
  split_and!; [apply list_filter_none|apply list_filter_all|apply list_filter_none]; apply list.Forall_forall; intros tx Htx.
  - rewrite H by done. done.
  - by apply Hk.
  - rewrite Hk by done. done.
Qed.

Lemma in_fails (P : T -> bool) (ts : list T) x : x ∈ base.filter (fails P) ts <-> x ∈ ts /\ P x = false.
Proof. rewrite list_elem_of_filter. tauto. Qed.

(** The second pass of a strict list. *)
Lemma invalids_ok bad ts removed m : ascending ts -> Forall tx_wf ts -> removed ≡ₚ base.filter (holds bad) ts -> removed <> [] ->
  items m = items_of (base.filter (fails bad) ts) ->
  exists invalids m', txsSortedMap.filter iter (fun tx => Done (txsList.lowest_nonce removed <? Tx.Nonce tx)) m = Done (invalids, m') /\
    invalids ++ base.filter (holds (kept true bad ts)) ts ≡ₚ base.filter (fails bad) ts /\
    items m' = items_of (base.filter (holds (kept true bad ts)) ts).
Proof.
  intros Hs Hwf Hp Hne Hit. set (g2 := fun tx => txsList.lowest_nonce removed <? Tx.Nonce tx).
  destruct (filter_ok iter iter_perm (fun tx => Done (g2 tx)) g2 m (base.filter (fails bad) ts) Hit) as (invalids & m' & E & H1 & _ & H2 & _);
    [by apply ascending_filter|done|].
  assert (Hk : base.filter (fails g2) (base.filter (fails bad) ts) = base.filter (holds (kept true bad ts)) ts).
  { rewrite (filter_negb g2), filter_filter_and. apply filter_ext. intros x Hx. destruct (bad x) eqn:Hb; cbn [negb andb].
    - symmetry. apply not_true_is_false. intros [Hb' _]%kept_spec. congruence.
    - unfold g2. rewrite (lowest_removed bad ts removed x); try done. apply negb_involutive. }
  exists invalids, m'. rewrite <- Hk. split; [done|]. split; [|done]. rewrite H1. apply filter_split.
Qed.

(** What stays of a strict list is a prefix. *)
Lemma closed_prefix (P : T -> bool) ts : ascending ts ->
  (forall x y, x ∈ ts -> y ∈ ts -> Tx.Nonce x < Tx.Nonce y -> P y = true -> P x = true) -> exists k, base.filter (holds P) ts = take k ts.
Proof.
  induction ts as [|x ts IH]; intros Hs Hc; [by exists 0%nat|]. apply ascending_cons in Hs as [H1 H2]. rewrite list.filter_cons. destruct (P x) eqn:E.
  - rewrite decide_True by done. destruct IH as [k ->]; [done| |by exists (S k)].
    intros a b Ha Hb. apply Hc; apply list.elem_of_cons; by right.
  - rewrite decide_False by congruence. exists 0%nat. rewrite list_filter_none; [done|]. apply list.Forall_forall. intros y Hy Hp.
    rewrite (Hc x y) in E; try done; [apply list.elem_of_cons; by left|apply list.elem_of_cons; by right|by apply H2].
Qed.

Lemma kept_prefix bad ts : ascending ts -> exists k, base.filter (holds (kept true bad ts)) ts = take k ts.
Proof.
  intros Hs. apply closed_prefix; [done|]. intros x y Hx Hy Hlt [Hb Hk]%kept_spec. apply kept_spec. specialize (Hk eq_refl). split.
  - destruct (bad x) eqn:E; [|done]. specialize (Hk x Hx E). lia.
  - intros _ r Hr Hbr. specialize (Hk r Hr Hbr). lia.
Qed.

(** The cached caps are within the limits. *)
Definition caps_cover (c g : Z) (l : List) : bool := negb (c <? txsList.costcap l) && (txsList.gascap l <=? g).

Lemma Filter_run c g l ts : list_wf l ts -> word c -> caps_cover c g l = false ->
  let bad := over c g in let keep := kept (txsList.strict l) bad ts in
  exists removed invalids l', txsList.Filter iter c g l = Done ((removed, invalids), l') /\ txsList.strict l' = txsList.strict l /\
    removed ≡ₚ base.filter (holds bad) ts /\ removed ++ invalids ≡ₚ base.filter (fails keep) ts /\
    list_ok l' (base.filter (holds keep) ts) /\ (txsList.strict l = true -> exists k, base.filter (holds keep) ts = take k ts).
Proof.
  intros [Hr Hwf Hcc] Hc Eshort bad keep. assert (Hs : ascending ts) by apply (proj1 Hr).
  assert (Hpre : txsList.strict l = true -> exists k, base.filter (holds keep) ts = take k ts).
  { intros E. unfold keep. rewrite E. by apply kept_prefix. }
  unfold txsList.Filter, get, mbind, M_bind. rewrite uint256.Gt_spec by done. unfold caps_cover in Eshort. rewrite Eshort.
  unfold modify. destruct (Filter_ok iter iter_perm (txsList.unpayable c g) bad (txsList.txs l) ts Hr) as (removed & m1 & E & Hp & Hr1).
  { intros tx Htx. apply unpayable_ok; [|done]. rewrite list.Forall_forall in Hwf. by apply Hwf. }
  rewrite (on_txs_ok _ (txsList.mkList (txsList.strict l) (txsList.txs l) c g) _ _ E). unfold txsList.set_txs. cbn [txsList.strict txsList.costcap txsList.gascap].
  assert (Hwf' : forall P : T -> bool, Forall tx_wf (base.filter (holds P) ts)) by (intros P; eapply Forall_sub; [apply in_filter|exact Hwf]).
  assert (Hpay : forall m ks, repr m ks -> (forall tx, tx ∈ ks -> tx ∈ ts /\ bad tx = false) -> list_ok (txsList.mkList (txsList.strict l) m c g) ks).
  { intros m ks Hm Hks. apply payable_ok; [done|eapply Forall_sub; [|exact Hwf]; intros x Hx; apply (Hks x Hx)|done|intros x Hx; apply (Hks x Hx)]. }
  pose proof (filter_split bad ts) as Hsplit. rewrite <- Hp in Hsplit. destruct (Z.eqb_spec (zlen removed) 0) as [Hz|Hz].
  - assert (removed = []) as -> by (destruct removed; [done|unfold zlen in Hz; cbn in Hz; lia]).
    rewrite (none_removed bad ts [] Hp) in Hr1 by done. exists [], [], (txsList.mkList (txsList.strict l) m1 c g).
    assert (Hno : forall tx, tx ∈ ts -> bad tx = false).
    { intros tx Htx. destruct (bad tx) eqn:Hb; [|done]. assert (tx ∈ ([] : list T)) as Hx by (rewrite Hp; by apply list_elem_of_filter). by apply elem_of_nil in Hx. }
    destruct (none_over_kept (txsList.strict l) bad ts Hno) as (-> & Hk1 & Hk2). fold keep in Hk1, Hk2. rewrite Hk1, Hk2 in *. split_and!; try done. by apply Hpay; [|auto].
  - assert (Hne : removed <> []) by (by intros ->). destruct (txsList.strict l) eqn:Estrict.
    + destruct (invalids_ok bad ts removed m1 Hs Hwf Hp Hne (core_items _ _ (proj1 Hr1))) as (invalids & m2 & E2 & Hinv & Hit2).
      rewrite (on_txs_ok _ (txsList.mkList true m1 c g) _ _ E2). unfold txsList.set_txs. cbn [txsList.strict txsList.costcap txsList.gascap].
      destruct (reheap_ok iter iter_perm m2 _ Hit2) as (m3 & E3 & Hr3); [by apply ascending_filter|eapply Forall_sub; [apply in_filter|apply (proj1 Hr)]|].
      rewrite (on_txs_ok _ (txsList.mkList true m2 c g) _ _ E3). exists removed, invalids, (txsList.mkList true m3 c g). split_and!; try done.
      * by apply (removed_rest keep ts removed invalids (base.filter (fails bad) ts) (base.filter (holds keep) ts)).
      * apply Hpay; [done|]. intros x [Hk Hx]%list_elem_of_filter. split; [done|]. by apply kept_spec in Hk as [? _].
    + assert (Hk : base.filter (fails bad) ts = base.filter (holds keep) ts).
      { rewrite filter_negb. apply filter_ext. intros x Hx. unfold keep, kept. cbn. by rewrite andb_true_r. }
      cbn [mret M_ret]. destruct (reheap_ok iter iter_perm m1 _ (core_items _ _ (proj1 Hr1))) as (m3 & E3 & Hr3); [apply (proj1 Hr1)|apply (proj1 Hr1)|].
      rewrite (on_txs_ok _ (txsList.mkList false m1 c g) _ _ E3). exists removed, [], (txsList.mkList false m3 c g). rewrite <- Hk.
      split_and!; try done; [|apply Hpay; [done|]; intros x Hx%in_fails; done].
      apply (removed_rest keep ts removed [] (base.filter (fails bad) ts) (base.filter (fails bad) ts)); [done|done|done].
Qed.

(** Filtering by balance and gas limit returns exactly the transactions that exceed a
    limit, whatever the cached caps say, and in a strict list also those behind one of
    them, so that a strict list keeps a prefix without new gaps; the rest stays,
    covered by the new caps. *)
Theorem Filter_exact c g l ts : list_ok l ts -> word c ->
  let bad := over c g in let keep := kept (txsList.strict l) bad ts in
  exists removed invalids l', txsList.Filter iter c g l = Done ((removed, invalids), l') /\ txsList.strict l' = txsList.strict l /\
    removed ≡ₚ base.filter (holds bad) ts /\ removed ++ invalids ≡ₚ base.filter (fails keep) ts /\
    list_ok l' (base.filter (holds keep) ts) /\ (txsList.strict l = true -> exists k, base.filter (holds keep) ts = take k ts).
Proof.
  intros [Hwf Hcaps] Hc bad keep. destruct (caps_cover c g l) eqn:Eshort; [|by apply Filter_run].
  unfold txsList.Filter, get, mbind, M_bind. rewrite uint256.Gt_spec by (done || apply Hwf). pose proof Eshort as Eif. unfold caps_cover in Eif. rewrite Eif.
  apply andb_true_iff in Eif as [E1%negb_true_iff%Z.ltb_ge E2%Z.leb_le]. assert (Hno : forall tx, tx ∈ ts -> bad tx = false).
  { intros tx Htx. rewrite list.Forall_forall in Hcaps. specialize (Hcaps tx Htx). cbn in Hcaps. unfold bad, over. apply orb_false_iff. rewrite !Z.ltb_ge. lia. }
  destruct (none_over_kept (txsList.strict l) bad ts Hno) as (-> & Hk1 & Hk2). exists [], [], l. fold keep in Hk1, Hk2. rewrite Hk1, Hk2. split_and!; try done.
  intros _. exists (length ts). by rewrite take_ge.
Qed.

(** The same for a list whose caps are of no use: it may remove nothing at all. *)
Lemma Filter_any c g l ts : list_wf l ts -> word c -> exists removed invalids l' ks, txsList.Filter iter c g l = Done ((removed, invalids), l') /\
  txsList.strict l' = txsList.strict l /\ list_wf l' ks /\ removed ++ invalids ++ ks ≡ₚ ts /\ ks `sublist_of` ts /\
  (txsList.strict l = false -> invalids = []) /\ (txsList.strict l = true -> exists k, ks = take k ts).
Proof.
  intros Hwf Hc. destruct (caps_cover c g l) eqn:Eshort.
  - unfold txsList.Filter, get, mbind, M_bind. rewrite uint256.Gt_spec by (done || apply Hwf). unfold caps_cover in Eshort. rewrite Eshort.
    exists [], [], l, ts. split_and!; try done. intros _. exists (length ts). by rewrite take_ge.
  - destruct (Filter_run c g l ts Hwf Hc Eshort) as (removed & invalids & l' & E & Es & Hp & Hq & [H _] & Hk).
    exists removed, invalids, l', (base.filter (holds (kept (txsList.strict l) (over c g) ts)) ts). split_and!; try done.
    + rewrite app_assoc, Hq, Permutation_app_comm. apply filter_split.
    + apply sublist_filter.
    + intros Ef. rewrite Ef in Hq. assert (Ek : base.filter (fails (kept false (over c g) ts)) ts = base.filter (holds (over c g)) ts).
      { rewrite filter_negb. apply filter_ext. intros x Hx. unfold kept. cbn. by rewrite andb_true_r, negb_involutive. }
      rewrite Ek, <- Hp in Hq. apply Permutation_length in Hq. rewrite length_app in Hq. destruct invalids; [done|cbn in Hq; lia].
Qed.

(** ** Removing *)

Lemma list_wf_sub l m ts ts' : list_wf l ts -> repr m ts' -> (forall x, x ∈ ts' -> x ∈ ts) -> list_wf (txsList.set_txs l m) ts'.
Proof. intros [_ H2 H3] Hr Hsub. split; cbn; [done|by eapply Forall_sub|done]. Qed.

(** What stays when the transaction of a nonce is removed. *)
Definition stays (strict : bool) (n : Z) (tx : T) : bool := if strict then Tx.Nonce tx <? n else negb (Tx.Nonce tx =? n).

(** Removing a transaction removes the one with its nonce, and in a strict list also
    those behind it, which are returned, so that no gap opens. *)
Theorem Remove_exact tx l ts : list_wf l ts ->
  let n := Tx.Nonce tx in let found := bool_decide (n ∈ Tx.Nonce <$> ts) in
  exists invalids l', txsList.Remove iter tx l = Done ((found, invalids), l') /\ txsList.strict l' = txsList.strict l /\
    invalids ≡ₚ (if found && txsList.strict l then base.filter (fun y => n < Tx.Nonce y) ts else []) /\
    list_wf l' (if found then base.filter (holds (stays (txsList.strict l) n)) ts else ts).
Proof.
  intros Hok n found. pose proof Hok as [Hr Hwf _]. assert (Hs : ascending ts) by apply (proj1 Hr).
  unfold txsList.Remove, mbind, M_bind. fold n. destruct (Remove_nonce_ok n _ _ Hr) as (m1 & E1 & Hr1). rewrite (on_txs_ok _ _ _ _ E1). fold found.
  set (ts1 := base.filter (fun y => Tx.Nonce y <> n) ts) in *. assert (Hsub : forall x, x ∈ ts1 -> x ∈ ts) by (intros x; apply in_filter).
  pose proof (list_wf_sub l m1 ts ts1 Hok Hr1 Hsub) as Hok1. destruct found eqn:Ef; cbn [negb andb].
  2: { apply bool_decide_eq_false in Ef. exists [], (txsList.set_txs l m1). split_and!; try done.
       replace ts with ts1 at 1; [done|]. apply list_filter_all, list.Forall_forall. intros x Hx E. apply Ef. rewrite <- E. by apply list_elem_of_fmap_2. }
  unfold get. change (txsList.strict (txsList.set_txs l m1)) with (txsList.strict l). destruct (txsList.strict l) eqn:Es.
  - destruct (Filter_ok iter iter_perm (fun y => Done (n <? Tx.Nonce y)) (fun y => n <? Tx.Nonce y) m1 ts1 Hr1) as (invalids & m2 & E2 & Hp & Hr2); [done|].
    rewrite (on_txs_ok _ (txsList.set_txs l m1) _ _ E2). exists invalids, (txsList.set_txs (txsList.set_txs l m1) m2). split_and!; try done.
    + rewrite Hp. unfold ts1. rewrite list_filter_filter. apply reflexive_eq, list_filter_iff. intros x. rewrite Z.ltb_lt. lia.
    + assert (base.filter (fails (fun y => n <? Tx.Nonce y)) ts1 = base.filter (holds (stays true n)) ts) as <-.
      { unfold ts1. rewrite list_filter_filter. apply list_filter_iff. intros x. unfold stays. rewrite Z.ltb_lt, Z.ltb_ge. lia. }
      eapply list_wf_sub; [done|done|]. intros x. apply in_filter.
  - exists [], (txsList.set_txs l m1). split_and!; try done.
    replace (base.filter (holds (stays false n)) ts) with ts1; [done|]. apply list_filter_iff. intros x. unfold stays.
    rewrite negb_true_iff, Z.eqb_neq. done.
Qed.

(** ** The other operations *)

Lemma list_wf_sorted l ts : list_wf l ts -> ascending ts.
Proof. intros [Hr _ _]. apply (proj1 Hr). Qed.

Lemma Len_wf l ts : list_wf l ts -> txsList.Len l = zlen ts.
Proof.
  intros Hl. pose proof (list_wf_sorted _ _ Hl). destruct Hl as [[Hc _] _ _]. unfold txsList.Len, Len, zlen. by rewrite (core_items _ _ Hc), items_of_size.
Qed.

Lemma Empty_wf l ts : list_wf l ts -> txsList.Empty l = bool_decide (ts = []).
Proof.
  intros Hl. unfold txsList.Empty. rewrite (Len_wf _ _ Hl). unfold zlen. destruct ts; [done|]. by rewrite bool_decide_eq_false_2.
Qed.

Lemma Get_wf l ts n : list_wf l ts -> Get n (txsList.txs l) = items_of ts !! n.
Proof. intros [[Hc _] _ _]. unfold Get. by rewrite (core_items _ _ Hc). Qed.

Lemma Overlaps_wf tx l ts : list_wf l ts -> txsList.Overlaps tx l = bool_decide (Tx.Nonce tx ∈ Tx.Nonce <$> ts).
Proof.
  intros Hl. unfold txsList.Overlaps. rewrite (Get_wf _ _ _ Hl). apply bool_decide_ext. split.
  - intros H. destruct (items_of ts !! Tx.Nonce tx) as [y|] eqn:E; [|done].
    apply items_of_lookup in E as [Hy <-]; [|by eapply list_wf_sorted]. by apply list_elem_of_fmap_2.
  - intros (y & E & Hy)%list_elem_of_fmap. assert (items_of ts !! Tx.Nonce tx = Some y) as -> by (apply items_of_lookup; [by eapply list_wf_sorted|done]). done.
Qed.

Lemma new_list_wf strict : list_wf (txsList.newTxsList strict) [].
Proof. split; cbn; [split; [apply core_new|by left]|constructor|unfold word; lia]. Qed.

Lemma Forward_wf t l ts : list_wf l ts -> exists l', txsList.Forward t l = Done (Some <$> base.filter (below t) ts, l') /\
  list_wf l' (base.filter (above t) ts) /\ txsList.strict l' = txsList.strict l.
Proof.
  intros Hl. destruct (Forward_ok t _ _ (lw_repr _ _ Hl)) as (m & E & Hr). eexists. split; [by apply on_txs_ok|]. split; [|done].
  eapply list_wf_sub; [done|done|]. intros x. apply in_filter.
Qed.

Lemma Cap_wf t l ts : list_wf l ts -> 0 <= t -> exists l', txsList.Cap t l = Done (Some <$> reverse (drop (Z.to_nat t) ts), l') /\
  list_wf l' (take (Z.to_nat t) ts) /\ txsList.strict l' = txsList.strict l.
Proof.
  intros Hl Ht. destruct (Cap_ok t _ _ (lw_repr _ _ Hl) Ht) as (m & E & Hr). eexists. split; [by apply on_txs_ok|]. split; [|done].
  eapply list_wf_sub; [done|done|]. intros x Hx. rewrite <- (take_drop (Z.to_nat t) ts). apply elem_of_app. by left.
Qed.

Lemma consecutive_app n ts : (consecutive n ts).1 ++ (consecutive n ts).2 = ts.
Proof.
  revert n. induction ts as [|x ts IH]; intros n; cbn [consecutive]; [done|]. destruct (_ =? _); [|done].
  specialize (IH (n + 1)). destruct (consecutive (n + 1) ts) as [a b]. cbn in *. by rewrite IH.
Qed.

Lemma ready_of_app s ts : (ready_of s ts).1 ++ (ready_of s ts).2 = ts.
Proof. destruct ts as [|x ts]; [done|]. cbn [ready_of]. destruct (s <? _); [done|]. apply consecutive_app. Qed.

Lemma Ready_wf s l ts : list_wf l ts -> exists l', txsList.Ready s l = Done (Some <$> (ready_of s ts).1, l') /\
  list_wf l' (ready_of s ts).2 /\ txsList.strict l' = txsList.strict l.
Proof.
  intros Hl. destruct (Ready_ok s _ _ (lw_repr _ _ Hl)) as (m & E & Hr). eexists. split; [by apply on_txs_ok|]. split; [|done].
  eapply list_wf_sub; [done|done|]. intros x Hx. rewrite <- (ready_of_app s ts). apply elem_of_app. by right.
Qed.

Lemma Flatten_wf l ts : list_wf l ts -> exists l', txsList.Flatten iter l = Done (ts, l') /\ list_wf l' ts /\ txsList.strict l' = txsList.strict l.
Proof.
  intros Hl. destruct (flatten_ok iter iter_perm _ _ (lw_repr _ _ Hl)) as (m & E & Hr). eexists. split; [by apply on_txs_ok|]. split; [|done].
  by eapply list_wf_sub.
Qed.

Lemma LastElement_wf l ts tx : list_wf l (ts ++ [tx]) -> exists l', txsList.LastElement iter l = Done (tx, l') /\ list_wf l' (ts ++ [tx]) /\
  txsList.strict l' = txsList.strict l.
Proof.
  intros Hl. destruct (flatten_ok iter iter_perm _ _ (lw_repr _ _ Hl)) as (m & E & Hr). eexists. split.
  - apply on_txs_ok. unfold LastElement, mbind, M_bind. rewrite E, list.last_snoc. done.
  - split; [|done]. by eapply list_wf_sub.
Qed.
End Lists.
End Views.

(** ** Other views *)

(** A representation depends on the nonces of the transactions only. *)
Section Change.
Context {T : Type} (V V' : TxView T) (same : forall t, Tx.Nonce (V := V') t = Tx.Nonce (V := V) t).

Lemma ascending_view l : ascending (V := V) l -> ascending (V := V') l.
Proof. induction 1 as [|x l Hs IH Hf]; constructor; [done|]. eapply list.Forall_impl; [exact Hf|]. cbn. intros y. by rewrite !same. Qed.

Lemma items_of_view l : items_of (V := V') l = items_of (V := V) l.
Proof. unfold items_of, pairs. f_equal. apply list_fmap_ext. intros _ t _. by rewrite same. Qed.

Lemma repr_view m l : repr (V := V) m l -> repr (V := V') m l.
Proof.
  intros [[H1 H2 H3 H4 H5] Hc]. split; [|done]. split; [by apply ascending_view| |by rewrite items_of_view|done|].
  - eapply list.Forall_impl; [exact H2|]. cbn. intros t. by rewrite same.
  - rewrite H5. apply reflexive_eq, list_fmap_ext. intros _ t _. by rewrite same.
Qed.
End Change.

(** * Transaction lists: concrete runs

    Lists of an account filled, replaced, filtered and emptied, and the replacement that
    pays more but is refused because it brings no more gas. *)

Section Run.
#[local] Existing Instances ref_uint256 uint256.ref_uint256_laws.
Import txsSortedMap.
Notation in_order := (fun (A : Type) (l : list A) => l).

Definition pool_tx (nonce price gas value : Z) : TxData :=
  Legacy (mkLegacyTx nonce (Some price) gas (Some 7) (Some 1) (Some value) [] None None None None).

Lemma pool_tx_wf n p g v : 0 <= n < two64 -> word p -> 0 <= g < two64 -> word v -> tx_wf (pool_tx n p g v).
Proof. intros Hn Hp Hg Hv. split; cbn; eauto. Qed.

Ltac small := first [lia | unfold word; lia | apply pool_tx_wf; unfold word; lia].

Notation tx3 := (pool_tx 3 10 21000 5) (only parsing).
Notation tx4 := (pool_tx 4 10 50000 5) (only parsing).
Notation tx6 := (pool_tx 6 10 21000 5) (only parsing).

Definition some_ops : list (@Op TxData) :=
  [OPut tx6; OPut tx4; OPut tx3; OFlatten; OCap 2; OPut tx6; OReady 3; ORemove 6; OForward 9].

Example some_ops_run :
  omap (fun r => match r with RTxs ts => Some (omap (fmap Tx.Nonce) ts) | RBool b => Some [if b then 1 else 0] | RUnit => None end)
    (match exec_all in_order some_ops newTxSortedMap with Done (rs, _) => rs | _ => [] end)
  = [[3; 4; 6]; [6]; [3; 4]; [1]; []].
Proof. vm_compute. reflexivity. Qed.

Lemma txsSortedMap_refines_witness : exists rs m l,
  exec_all in_order some_ops newTxSortedMap = Done (rs, m) /\ spec_all some_ops [] rs l /\ repr m l.
Proof. apply (txsSortedMap_refines in_order (fun A l => reflexivity l)). repeat constructor; cbn; lia. Defined.

(** The list of an account with three transactions, the second the dearest. *)
Notation held := [tx3; tx4; tx6] (only parsing).

Definition held_map : Map TxData := mkMap (items_of held) (Tx.Nonce <$> held) None.
Definition held_list (strict : bool) : txsList.List TxData := txsList.mkList strict held_map 500005 50000.

Lemma held_ok strict : list_ok (held_list strict) held.
Proof.
  split; [split|]; cbn.
  - apply (repr_sorted held); repeat constructor; cbn; lia.
  - repeat constructor; small.
  - unfold word. lia.
  - repeat constructor; vm_compute; congruence.
Qed.

(** A replacement that brings more gas and a tenth more for each unit is accepted; one
    that pays ten times as much for the same gas is not. *)
Example replacement_needs_gas :
  let l := held_list true in
  let add tx := match txsList.Add tx 10 l with Done (r, _) => Some (fst r) | _ => None end in
  add (pool_tx 3 11 21001 5) = Some true /\ add (pool_tx 3 100 21000 5) = Some false.
Proof. vm_compute. split; reflexivity. Qed.

Lemma Add_ok_witness :
  exists l', txsList.Add (pool_tx 4 11 60000 5) 10 (held_list true) = Done ((true, Some tx4), l') /\ list_ok l' [tx3; pool_tx 4 11 60000 5; tx6].
Proof.
  destruct (Add_ok (pool_tx 4 11 60000 5) 10 (held_list true) held) as (l' & E & H); [apply held_ok|small|].
  exists l'. split; [exact E|exact H].
Defined.

(** The balance covers all but the second transaction: the third goes with it. *)
Lemma Filter_exact_witness : exists removed invalids l', txsList.Filter in_order 300000 60000 (held_list true) = Done ((removed, invalids), l') /\
  removed ≡ₚ [tx4] /\ removed ++ invalids ≡ₚ [tx4; tx6] /\ list_ok l' [tx3].
Proof.
  destruct (Filter_exact in_order (fun A l => reflexivity l) 300000 60000 (held_list true) held) as (removed & invalids & l' & E & _ & H1 & H2 & H3 & _);
    [apply held_ok|small|].
  exists removed, invalids, l'. split; [exact E|]. split; [exact H1|]. split; [exact H2|exact H3].
Defined.

Lemma Remove_exact_witness : exists invalids l', txsList.Remove in_order tx4 (held_list true) = Done ((true, invalids), l') /\
  invalids ≡ₚ [tx6] /\ list_wf l' [tx3].
Proof.
  destruct (Remove_exact in_order (fun A l => reflexivity l) tx4 (held_list true) held) as (invalids & l' & E & _ & H1 & H2); [apply lo_wf, held_ok|].
  exists invalids, l'. split; [exact E|]. split; [exact H1|exact H2].
Defined.
End Run.
