(* ===== verification/TxLookup.v ===== *)
(** * The indexes of the transaction pool ([internal/txspool])

    The pool holds pointers to transactions: [Ptr] with a store of what they point to,
    because a comparison of tips writes the fee cap of the transactions it compares.
    [Hash] is the hash that a transaction caches at its first use.

    This file has the set of accounts, the lookup by hash and the price heaps of
    [txs_list.go], and the virtual nonces of [tx_noncer.go]. *)

From S2P Require Import Prelude Uint256 Wire Transaction Heap TxList.

Definition Ptr : Type := N.
Definition Store : Type := Ptr -> TxData.

#[global] Instance Ptr_eq : EqDecision Ptr := N.eq_dec.
#[global] Instance Ptr_countable : Countable Ptr := _.

Definition update (p : Ptr) (tx : TxData) (st : Store) : Store := fun q => if decide (q = p) then tx else st q.

(** [*tx.From()] *)
Definition sender (st : Store) (p : Ptr) : outcome Z := deref (tx_From (st p)).

(** A loop over a slice. *)
Fixpoint for_each {S A : Type} (f : A -> M S ()) (l : list A) : M S () :=
  match l with [] => mret () | x :: l => _ ← f x; for_each f l end.

(** ** [accountSet] *)

Module accountSet.
Record Accounts : Type := mkAccounts { accounts : gset Z; cache : option (list Z) }.

Definition newAccountSet (addrs : list Z) : Accounts := mkAccounts (list_to_set addrs) None.
Definition contains (addr : Z) (a : Accounts) : bool := bool_decide (addr ∈ accounts a).
Definition empty (a : Accounts) : bool := (size (accounts a) =? 0)%nat.
Definition containsTx (st : Store) (tx : Ptr) (a : Accounts) : outcome bool :=
  from ← sender st tx; Done (contains from a).
Definition add (addr : Z) (a : Accounts) : Accounts := mkAccounts ({[addr]} ∪ accounts a) None.
Definition addTx (st : Store) (tx : Ptr) (a : Accounts) : outcome Accounts :=
  from ← sender st tx; Done (add from a).

Definition flatten (iter : forall A : Type, list A -> list A) : M Accounts (list Z) :=
  a ← get;
  match cache a with
  | Some c => mret c
  | None => let c := iter _ (elements (accounts a)) in
            _ ← modify (fun a => mkAccounts (accounts a) (Some c)); mret c
  end.

Definition merge (other a : Accounts) : Accounts := mkAccounts (accounts a ∪ accounts other) None.
End accountSet.

(** ** [txLookup] *)

Module txLookup.
Record Lookup : Type := mkLookup { slots : Z; locals : gmap Z Ptr; remotes : gmap Z Ptr }.

Definition newTxLookup : Lookup := mkLookup 0 ∅ ∅.

Definition txSlotSize : Z := 32 * 1024.

(** The size of a pointer, whatever it points to. *)
Definition numSlots (tx : Ptr) : Z := (8 + txSlotSize - 1) / txSlotSize.

Definition Get (hash : Z) (t : Lookup) : option Ptr :=
  match locals t !! hash with Some tx => Some tx | None => remotes t !! hash end.
Definition GetLocal (hash : Z) (t : Lookup) : option Ptr := locals t !! hash.
Definition GetRemote (hash : Z) (t : Lookup) : option Ptr := remotes t !! hash.
Definition Count (t : Lookup) : Z := Z.of_nat (size (locals t)) + Z.of_nat (size (remotes t)).
Definition LocalCount (t : Lookup) : Z := Z.of_nat (size (locals t)).
Definition RemoteCount (t : Lookup) : Z := Z.of_nat (size (remotes t)).
Definition Slots (t : Lookup) : Z := slots t.

Section Operations.
Context (iter : forall A : Type, list A -> list A) (Hash : Ptr -> Z).

Definition Add (tx : Ptr) (local : bool) (t : Lookup) : Lookup :=
  let hash := Hash tx in
  if local then mkLookup (slots t + numSlots tx) (<[hash := tx]> (locals t)) (remotes t)
  else mkLookup (slots t + numSlots tx) (locals t) (<[hash := tx]> (remotes t)).

Definition Remove (hash : Z) (t : Lookup) : Lookup :=
  match (match locals t !! hash with Some tx => Some tx | None => remotes t !! hash end) with
  | None => t
  | Some tx => mkLookup (slots t - numSlots tx) (delete hash (locals t)) (delete hash (remotes t))
  end.

(** The loop of [RemoteToLocals]; it counts the transactions that move. *)
Fixpoint migrate (st : Store) (accounts : accountSet.Accounts) (entries : list (Z * Ptr)) (migrated : Z) : M Lookup Z :=
  match entries with
  | [] => mret migrated
  | (hash, tx) :: entries =>
      b ← outcome_to_M (accountSet.containsTx st tx accounts);
      if (b : bool) then
        _ ← modify (fun t => mkLookup (slots t) (<[hash := tx]> (locals t)) (delete hash (remotes t)));
        migrate st accounts entries (migrated + 1)
      else migrate st accounts entries migrated
  end.

Definition RemoteToLocals (st : Store) (accounts : accountSet.Accounts) : M Lookup Z :=
  t ← get;
  migrate st accounts (iter _ (map_to_list (remotes t))) 0.
End Operations.
End txLookup.

(** ** [txNoncer] *)

(** What the pool reads of the state at the head of the chain. *)
Record ChainState : Type := mkChainState { GetNonce : Z -> Z; GetBalance : Z -> Z }.

Module txNoncer.
Record Noncer : Type := mkNoncer { fallback : ChainState; nonces : gmap Z Z }.

Definition newTxNoncer (db : ChainState) : Noncer := mkNoncer db ∅.

Definition fill (addr : Z) (n : Noncer) : Noncer :=
  match nonces n !! addr with
  | None => mkNoncer (fallback n) (<[addr := GetNonce (fallback n) addr]> (nonces n))
  | Some _ => n
  end.

Definition get (addr : Z) : M Noncer Z :=
  _ ← modify (fill addr);
  n ← Prelude.get;
  mret (default 0 (nonces n !! addr)).

Definition set (addr nonce : Z) (n : Noncer) : Noncer := mkNoncer (fallback n) (<[addr := nonce]> (nonces n)).

Definition setIfLower (addr nonce : Z) (n : Noncer) : Noncer :=
  let n := fill addr n in
  if default 0 (nonces n !! addr) <=? nonce then n else set addr nonce n.

Definition setAll (all : gmap Z Z) (n : Noncer) : Noncer := mkNoncer (fallback n) all.
End txNoncer.
