(* ===== verification/TxPriced.v ===== *)
(** * The price heaps of the transaction pool ([internal/txspool/txs_list.go])

    The heaps order the remote transactions for eviction: [urgent] by the effective tip
    under the base fee of the next block, [floating] by the fee cap.  With a base fee
    each comparison subtracts it from the fee caps of the two transactions, in place. *)

From S2P Require Import Prelude Uint256 Wire Transaction Heap TxList TxLookup.

Section Comparison.
Context {U : Uint256}.

(** The pointer that [EffectiveGasTip] answers: the tip cap, or else the fee cap. *)
Definition EffectiveTipPointer (baseFee : Z) (p : Ptr) : M Store bool :=
  st ← get;
  _ ← must (tx_GasFeeCap (st p));
  _ ← modify (fun st => update p (sub_feeCap baseFee (st p)) st);
  st ← get;
  tip ← must (tx_GasTipCap (st p));
  cap ← must (tx_GasFeeCap (st p));
  mret (uint256.Gt tip cap).

Definition pointee (tip : bool) (tx : TxData) : option Z := if tip then tx_GasTipCap tx else tx_GasFeeCap tx.

(** The pointers are read after both transactions have changed. *)
Definition EffectiveTipCmp (baseFee : Z) (a b : Ptr) : M Store Z :=
  i ← EffectiveTipPointer baseFee a;
  j ← EffectiveTipPointer baseFee b;
  st ← get;
  x ← must (pointee i (st a));
  y ← must (pointee j (st b));
  mret (Cmp x y).

Definition EffectiveTipIntCmp (baseFee : option Z) (other : Z) (a : Ptr) : M Store Z :=
  match baseFee with
  | None => st ← get; tip ← must (tx_GasTipCap (st a)); mret (Cmp tip other)
  | Some baseFee => i ← EffectiveTipPointer baseFee a; st ← get; x ← must (pointee i (st a)); mret (Cmp x other)
  end.
End Comparison.

(** ** [priceHeap] *)

Module priceHeap.
Record PriceHeap : Type := mkHeap { baseFee : option Z; txs : list Ptr }.

Section Heap.
Context {U : Uint256}.

Definition cmp (baseFee : option Z) (a b : Ptr) : M Store Z :=
  c ← match baseFee with Some fee => EffectiveTipCmp fee a b | None => mret 0 end;
  if negb (c =? 0) then mret c else
  st ← get;
  x ← must (tx_GasPrice (st a));
  y ← must (tx_GasPrice (st b));
  if negb (Cmp x y =? 0) then mret (Cmp x y) else mret (Cmp x y).

(** The slice of a heap, with the transactions its pointers lead to. *)
Definition HeapState : Type := Store * list Ptr.

Definition Less (baseFee : option Z) (i j : nat) : M HeapState bool :=
  '(_, l) ← get;
  a ← must (l !! i);
  b ← must (l !! j);
  c ← zoom fst (fun st s => (st, s.2)) (cmp baseFee a b);
  if c =? -1 then mret true else if c =? 1 then mret false else
  '(st, _) ← get;
  mret (tx_Nonce (st b) <? tx_Nonce (st a)).

Definition Swap (i j : nat) : M HeapState () :=
  '(_, l) ← get;
  x ← must (l !! i);
  y ← must (l !! j);
  modify (fun s => (s.1, <[i := y]> (<[j := x]> s.2))).

Definition Push (tx : Ptr) : M HeapState () := modify (fun s => (s.1, s.2 ++ [tx])).

Definition Pop : M HeapState Ptr :=
  '(_, l) ← get;
  tx ← must (list.last l);
  _ ← modify (fun s => (s.1, take (length s.2 - 1) s.2));
  mret tx.

Definition price_heap (baseFee : option Z) : container.Interface HeapState Ptr := {|
  container.Len s := length s.2;
  container.Less := Less baseFee; container.Swap := Swap; container.PushBack := Push; container.PopBack := Pop
|}.
End Heap.
End priceHeap.

(** ** [txPricedList] *)

Module txPricedList.
Import priceHeap.

Record Priced : Type := mkPriced { stales : Z; urgent : PriceHeap; floating : PriceHeap }.

Definition urgentRatio : nat := 4.
Definition floatingRatio : nat := 1.

Definition newTxPricedList : Priced := mkPriced 0 (mkHeap None []) (mkHeap None []).

(** The heaps with the transactions they point to. *)
Record PricedState : Type := mkState { store : Store; priced : Priced }.

Inductive Which : Type := Urgent | Floating.

Definition heap_of (w : Which) (l : Priced) : PriceHeap := match w with Urgent => urgent l | Floating => floating l end.
Definition set_heap (w : Which) (h : PriceHeap) (l : Priced) : Priced :=
  match w with Urgent => mkPriced (stales l) h (floating l) | Floating => mkPriced (stales l) (urgent l) h end.

Section Operations.
Context {U : Uint256} (iter : forall A : Type, list A -> list A) (Hash : Ptr -> Z).
Notation MP := (M PricedState).

(** An operation of [container/heap] on one of the heaps. *)
Definition on_heap {A} (w : Which) (op : container.Interface HeapState Ptr -> M HeapState A) : MP A :=
  s ← get;
  let h := heap_of w (priced s) in
  zoom (fun s => (store s, txs (heap_of w (priced s))))
       (fun '(st, l) s => mkState st (set_heap w (mkHeap (baseFee h) l) (priced s)))
       (op (price_heap (baseFee h))).

Definition heap_Push (w : Which) (tx : Ptr) : MP () := on_heap w (fun I => container.Push (I := I) tx).
Definition heap_Pop (w : Which) : MP Ptr := on_heap w (fun I => container.Pop (I := I)).
Definition heap_Init (w : Which) : MP () := on_heap w (fun I => container.Init (I := I)).

Definition heap_list (w : Which) (s : PricedState) : list Ptr := txs (heap_of w (priced s)).
Definition set_list (w : Which) (l : list Ptr) (s : PricedState) : PricedState :=
  mkState (store s) (set_heap w (mkHeap (baseFee (heap_of w (priced s))) l) (priced s)).
Definition add_stales (n : Z) (s : PricedState) : PricedState :=
  mkState (store s) (mkPriced (stales (priced s) + n) (urgent (priced s)) (floating (priced s))).

Definition Put (tx : Ptr) (local : bool) : MP () := if local then mret () else heap_Push Urgent tx.

(** Move [count] transactions from the urgent heap to the list. *)
Fixpoint move_floating (count : nat) (l : list Ptr) : MP (list Ptr) :=
  match count with O => mret l | S count => tx ← heap_Pop Urgent; move_floating count (l ++ [tx]) end.

Definition Reheap (all : txLookup.Lookup) : MP () :=
  _ ← modify (fun s => mkState (store s) (mkPriced 0 (urgent (priced s)) (floating (priced s))));
  _ ← modify (set_list Urgent (iter _ (map_to_list (txLookup.remotes all))).*2);
  _ ← heap_Init Urgent;
  s ← get;
  let floatingCount := (length (heap_list Urgent s) * floatingRatio / (urgentRatio + floatingRatio))%nat in
  l ← move_floating floatingCount [];
  _ ← modify (set_list Floating l);
  heap_Init Floating.

Definition Removed (all : txLookup.Lookup) (count : Z) : MP () :=
  _ ← modify (add_stales count);
  s ← get;
  if stales (priced s) <=? Z.of_nat (length (heap_list Urgent s) + length (heap_list Floating s)) / 4 then mret ()
  else Reheap all.

(** Pop off what is no longer a remote transaction of the pool. *)
Fixpoint drop_stale (fuel : nat) (all : txLookup.Lookup) (w : Which) : MP () :=
  match fuel with
  | O => fun _ => NoFuel
  | S fuel =>
      s ← get;
      match heap_list w s with
      | [] => mret ()
      | tx :: _ =>
          match txLookup.GetRemote (Hash tx) all with
          | None => _ ← modify (add_stales (-1)); _ ← heap_Pop w; drop_stale fuel all w
          | Some _ => mret ()
          end
      end
  end.

Definition underpricedFor (all : txLookup.Lookup) (w : Which) (tx : Ptr) : MP bool :=
  s ← get;
  _ ← drop_stale (S (length (heap_list w s))) all w;
  s ← get;
  match heap_list w s with
  | [] => mret false
  | first :: _ =>
      c ← zoom store (fun st s => mkState st (priced s)) (cmp (baseFee (heap_of w (priced s))) first tx);
      mret (0 <=? c)
  end.

Definition Underpriced (all : txLookup.Lookup) (tx : Ptr) : MP bool :=
  a ← underpricedFor all Urgent tx;
  s ← get;
  if negb (a || (length (heap_list Urgent s) =? 0)%nat) then mret false else
  b ← underpricedFor all Floating tx;
  s ← get;
  if negb (b || (length (heap_list Floating s) =? 0)%nat) then mret false else
  mret (negb (length (heap_list Urgent s) =? 0)%nat || negb (length (heap_list Floating s) =? 0)%nat).

(** The loop of [Discard]: each turn takes a transaction from a heap, and what it puts
    back goes from the urgent heap to the floating one. *)
Fixpoint discard_loop (fuel : nat) (all : txLookup.Lookup) (slots : Z) (drop : list Ptr) : MP (Z * list Ptr) :=
  match fuel with
  | O => fun _ => NoFuel
  | S fuel =>
      if slots <=? 0 then mret (slots, drop) else
      s ← get;
      if (length (heap_list Floating s) * urgentRatio <? length (heap_list Urgent s) * floatingRatio)%nat || (floatingRatio =? 0)%nat then
        tx ← heap_Pop Urgent;
        match txLookup.GetRemote (Hash tx) all with
        | None => _ ← modify (add_stales (-1)); discard_loop fuel all slots drop
        | Some _ => _ ← heap_Push Floating tx; discard_loop fuel all slots drop
        end
      else if (length (heap_list Floating s) =? 0)%nat then mret (slots, drop)
      else
        tx ← heap_Pop Floating;
        match txLookup.GetRemote (Hash tx) all with
        | None => _ ← modify (add_stales (-1)); discard_loop fuel all slots drop
        | Some _ => discard_loop fuel all (slots - txLookup.numSlots tx) (drop ++ [tx])
        end
  end.

Definition Discard (all : txLookup.Lookup) (slots : Z) (force : bool) : MP (list Ptr * bool) :=
  if slots <? 0 then panic else
  s ← get;
  '(slots, drop) ← discard_loop (S (2 * length (heap_list Urgent s) + length (heap_list Floating s))) all slots [];
  if (0 <? slots) && negb force then
    _ ← for_each (heap_Push Urgent) drop;
    mret ([], false)
  else mret (drop, true).

Definition SetBaseFee (all : txLookup.Lookup) (fee : Z) : MP () :=
  _ ← modify (fun s => mkState (store s) (set_heap Urgent (mkHeap (Some fee) (txs (urgent (priced s)))) (priced s)));
  Reheap all.
End Operations.
End txPricedList.
