(* ===== verification/TxPool.v ===== *)
(** * The transaction pool ([internal/txspool/txs_pool.go])

    The pool as a state with the operations that run under its lock.  The goroutines
    around it only decide in which order the operations run; the channels between them
    are lists of what was sent.

    [iter] is the order in which Go ranges over maps, [Now n] the [n]-th reading of the
    clock, [Hash] the cached hash of a transaction.  The chain answers blocks by hash
    and, for the hash of a block, the state after it. *)

From stdpp Require Import sorting.
From S2P Require Import Prelude Uint256 Wire Transaction Config Header StateTransition Heap Prque TxList TxLookup TxPriced.

(** ** Configuration and state *)

Module TxsPoolConfig.
Record Config : Type := mkConfig {
  NoLocals : bool;
  PriceLimit : Z;
  PriceBump : Z;
  AccountSlots : Z;
  GlobalSlots : Z;
  AccountQueue : Z;
  GlobalQueue : Z
}.

Definition DefaultTxPoolConfig : Config := mkConfig false 1 10 16 (4096 + 1024) 64 1024.
End TxsPoolConfig.
Import TxsPoolConfig.

Inductive PoolError : Type :=
| ErrAlreadyKnown | ErrInvalidSender | ErrOversizedData | ErrNegativeValue | ErrGasLimit | ErrUnderpriced
| ErrTxPoolOverflow | ErrReplaceUnderpriced | ErrFeeCapVeryHigh | ErrNonceTooLow | ErrInsufficientFunds
| ErrTipAboveFeeCap | ErrTxTypeNotSupported | ErrTipVeryHigh | ErrIntrinsicGas | IntrinsicGasError (e : core.Error).

(** A block as the pool reads it. *)
Record PoolBlock : Type := mkPoolBlock { block_hash : Z; block_header : header.Header; block_txs : list Ptr }.

(** The chain: blocks by hash, the head, and the state after a block that is known. *)
Record PoolChain : Type := mkPoolChain {
  GetBlockByHash : Z -> option PoolBlock;
  CurrentBlock : PoolBlock;
  StateAt : Z -> option ChainState
}.

Notation PoolList := (txsList.List Ptr).

Record TxsPool : Type := mkPool {
  currentState : ChainState;
  pendingNonces : txNoncer.Noncer;
  currentMaxGas : Z;
  istanbul : bool;
  eip2718 : bool;
  eip1559 : bool;
  shanghai : bool;
  locals : accountSet.Accounts;
  pending : gmap Z PoolList;
  queue : gmap Z PoolList;
  beats : gmap Z Z;
  all : txLookup.Lookup;
  priced : txPricedList.Priced;
  gasPrice : Z;
  changesSinceReorg : Z;
  txs_store : Store;
  ticks : nat;
  queueTxEventCh : list Ptr
}.

Definition set_head (cs : ChainState) (n : txNoncer.Noncer) (maxGas : Z) (p : TxsPool) : TxsPool :=
  mkPool cs n maxGas (istanbul p) (eip2718 p) (eip1559 p) (shanghai p) (locals p) (pending p) (queue p) (beats p) (all p) (priced p)
    (gasPrice p) (changesSinceReorg p) (txs_store p) (ticks p) (queueTxEventCh p).
Definition set_forks (i b l : bool) (p : TxsPool) : TxsPool :=
  mkPool (currentState p) (pendingNonces p) (currentMaxGas p) i b l (shanghai p) (locals p) (pending p) (queue p) (beats p) (all p) (priced p)
    (gasPrice p) (changesSinceReorg p) (txs_store p) (ticks p) (queueTxEventCh p).
Definition set_pendingNonces (n : txNoncer.Noncer) (p : TxsPool) : TxsPool :=
  mkPool (currentState p) n (currentMaxGas p) (istanbul p) (eip2718 p) (eip1559 p) (shanghai p) (locals p) (pending p) (queue p) (beats p) (all p) (priced p)
    (gasPrice p) (changesSinceReorg p) (txs_store p) (ticks p) (queueTxEventCh p).
Definition set_locals (a : accountSet.Accounts) (p : TxsPool) : TxsPool :=
  mkPool (currentState p) (pendingNonces p) (currentMaxGas p) (istanbul p) (eip2718 p) (eip1559 p) (shanghai p) a (pending p) (queue p) (beats p) (all p) (priced p)
    (gasPrice p) (changesSinceReorg p) (txs_store p) (ticks p) (queueTxEventCh p).
Definition set_pending (m : gmap Z PoolList) (p : TxsPool) : TxsPool :=
  mkPool (currentState p) (pendingNonces p) (currentMaxGas p) (istanbul p) (eip2718 p) (eip1559 p) (shanghai p) (locals p) m (queue p) (beats p) (all p) (priced p)
    (gasPrice p) (changesSinceReorg p) (txs_store p) (ticks p) (queueTxEventCh p).
Definition set_queue (m : gmap Z PoolList) (p : TxsPool) : TxsPool :=
  mkPool (currentState p) (pendingNonces p) (currentMaxGas p) (istanbul p) (eip2718 p) (eip1559 p) (shanghai p) (locals p) (pending p) m (beats p) (all p) (priced p)
    (gasPrice p) (changesSinceReorg p) (txs_store p) (ticks p) (queueTxEventCh p).
Definition set_beats (b : gmap Z Z) (t : nat) (p : TxsPool) : TxsPool :=
  mkPool (currentState p) (pendingNonces p) (currentMaxGas p) (istanbul p) (eip2718 p) (eip1559 p) (shanghai p) (locals p) (pending p) (queue p) b (all p) (priced p)
    (gasPrice p) (changesSinceReorg p) (txs_store p) t (queueTxEventCh p).
Definition set_all (a : txLookup.Lookup) (p : TxsPool) : TxsPool :=
  mkPool (currentState p) (pendingNonces p) (currentMaxGas p) (istanbul p) (eip2718 p) (eip1559 p) (shanghai p) (locals p) (pending p) (queue p) (beats p) a (priced p)
    (gasPrice p) (changesSinceReorg p) (txs_store p) (ticks p) (queueTxEventCh p).
Definition set_priced (s : txPricedList.PricedState) (p : TxsPool) : TxsPool :=
  mkPool (currentState p) (pendingNonces p) (currentMaxGas p) (istanbul p) (eip2718 p) (eip1559 p) (shanghai p) (locals p) (pending p) (queue p) (beats p) (all p)
    (txPricedList.priced s) (gasPrice p) (changesSinceReorg p) (txPricedList.store s) (ticks p) (queueTxEventCh p).
Definition set_changes (n : Z) (p : TxsPool) : TxsPool :=
  mkPool (currentState p) (pendingNonces p) (currentMaxGas p) (istanbul p) (eip2718 p) (eip1559 p) (shanghai p) (locals p) (pending p) (queue p) (beats p) (all p) (priced p)
    (gasPrice p) n (txs_store p) (ticks p) (queueTxEventCh p).
Definition set_events (l : list Ptr) (p : TxsPool) : TxsPool :=
  mkPool (currentState p) (pendingNonces p) (currentMaxGas p) (istanbul p) (eip2718 p) (eip1559 p) (shanghai p) (locals p) (pending p) (queue p) (beats p) (all p) (priced p)
    (gasPrice p) (changesSinceReorg p) (txs_store p) (ticks p) l.

Section Pool.
Context {U : Uint256} (iter : forall A : Type, list A -> list A) (Hash : Ptr -> Z) (Now : nat -> Z).
Context (config : Config) (chainconfig : ChainConfig) (bc : PoolChain).
Notation MT := (M TxsPool).

(** ** Parts of the state *)

Definition on_priced {A} (op : M txPricedList.PricedState A) : MT A :=
  zoom (fun p => txPricedList.mkState (txs_store p) (priced p)) set_priced op.

(** [pool.priced.Removed(n)] *)
Definition priced_Removed (n : Z) : MT () := p ← get; on_priced (txPricedList.Removed iter (all p) n).

Definition on_noncer {A} (op : M txNoncer.Noncer A) : MT A := zoom pendingNonces set_pendingNonces op.
Definition all_Remove (hash : Z) : MT () := modify (fun p => set_all (txLookup.Remove hash (all p)) p).

(** A list in one of the maps, changed in place; a missing list is a nil pointer. *)
Definition on_pending {A} (addr : Z) (op : TxView Ptr -> M PoolList A) : MT A :=
  p ← get;
  l ← must (pending p !! addr);
  '(a, l) ← outcome_to_M (op (txs_store p) l);
  _ ← modify (fun p => set_pending (<[addr := l]> (pending p)) p);
  mret a.

Definition on_queue {A} (addr : Z) (op : TxView Ptr -> M PoolList A) : MT A :=
  p ← get;
  l ← must (queue p !! addr);
  '(a, l) ← outcome_to_M (op (txs_store p) l);
  _ ← modify (fun p => set_queue (<[addr := l]> (queue p)) p);
  mret a.

Definition pending_Len (addr : Z) : MT Z := p ← get; l ← must (pending p !! addr); mret (txsList.Len l).

(** [pool.beats[addr] = time.Now()] *)
Definition beat (addr : Z) : MT () := modify (fun p => set_beats (<[addr := Now (ticks p)]> (beats p)) (S (ticks p)) p).

Definition from_of (tx : Ptr) : MT Z := p ← get; outcome_to_M (sender (txs_store p) tx).

(** A transaction of a slice, whose hash is read: not nil. *)
Definition hash_of (tx : option Ptr) : MT Z := tx ← must tx; mret (Hash tx).

(** Drop transactions that left a list from the lookup. *)
Definition drop_all (txs : list (option Ptr)) : MT () := for_each (fun tx => hash ← hash_of tx; all_Remove hash) txs.

(** [pool.queueTxEvent(tx)] *)
Definition queueTxEvent (tx : Ptr) : MT () := modify (fun p => set_events (queueTxEventCh p ++ [tx]) p).

(** ** Single transactions *)

Definition enqueueTx (hash : Z) (tx : Ptr) (local addAll : bool) : MT (bool * option PoolError) :=
  from ← from_of tx;
  _ ← modify (fun p => match queue p !! from with
                       | None => set_queue (<[from := txsList.newTxsList false]> (queue p)) p
                       | Some _ => p
                       end);
  '(inserted, old) ← on_queue from (fun V => txsList.Add tx (PriceBump config));
  if negb inserted then mret (false, Some ErrReplaceUnderpriced) else
  _ ← match old with
      | None => mret ()
      | Some old => _ ← all_Remove (Hash old); priced_Removed 1
      end;
  _ ← (if addAll then
         _ ← modify (fun p => set_all (txLookup.Add Hash tx local (all p)) p);
         on_priced (txPricedList.Put tx local)
       else mret ());
  p ← get;
  _ ← match beats p !! from with None => beat from | Some _ => mret () end;
  mret (bool_decide (old <> None), None).

Definition promoteTx (addr hash : Z) (tx : Ptr) : MT bool :=
  _ ← modify (fun p => match pending p !! addr with
                       | None => set_pending (<[addr := txsList.newTxsList true]> (pending p)) p
                       | Some _ => p
                       end);
  '(inserted, old) ← on_pending addr (fun V => txsList.Add tx (PriceBump config));
  if negb inserted then _ ← all_Remove hash; _ ← priced_Removed 1; mret false else
  _ ← match old with
      | None => mret ()
      | Some old => _ ← all_Remove (Hash old); priced_Removed 1
      end;
  p ← get;
  _ ← on_noncer (modify (txNoncer.set addr (u64 (tx_Nonce (txs_store p tx) + 1))));
  _ ← beat addr;
  mret true.

(** Take a transaction out of the pending list of its sender and postpone those behind
    it; answers whether it was there. *)
Definition remove_pending (addr : Z) (tx : Ptr) : MT bool :=
  p ← get;
  match pending p !! addr with
  | None => mret false
  | Some _ =>
      '(removed, invalids) ← on_pending addr (fun V => txsList.Remove iter tx);
      if negb removed then mret false else
      p ← get;
      l ← must (pending p !! addr);
      _ ← (if txsList.Empty l then modify (fun p => set_pending (delete addr (pending p)) p) else mret ());
      _ ← for_each (fun tx => _ ← enqueueTx (Hash tx) tx false false; mret ()) invalids;
      p ← get;
      _ ← on_noncer (modify (txNoncer.setIfLower addr (tx_Nonce (txs_store p tx))));
      mret true
  end.

Definition remove_queued (addr : Z) (tx : Ptr) : MT () :=
  p ← get;
  match queue p !! addr with
  | None => mret ()
  | Some _ =>
      _ ← on_queue addr (fun V => txsList.Remove iter tx);
      p ← get;
      future ← must (queue p !! addr);
      if txsList.Empty future then
        modify (fun p => set_beats (delete addr (beats p)) (ticks p) (set_queue (delete addr (queue p)) p))
      else mret ()
  end.

Definition removeTx (hash : Z) (outofbound : bool) : MT () :=
  p ← get;
  match txLookup.Get hash (all p) with
  | None => mret ()
  | Some tx =>
      addr ← from_of tx;
      _ ← all_Remove hash;
      _ ← (if outofbound then priced_Removed 1 else mret ());
      removed ← remove_pending addr tx;
      if (removed : bool) then mret () else remove_queued addr tx
  end.

(** ** Validation *)

Definition txMaxSize : Z := 4 * txLookup.txSlotSize.

(** The size that is checked is that of the pointer. *)
Definition validateTx (tx : Ptr) (local : bool) (p : TxsPool) : outcome (option PoolError) :=
  let t := txs_store p tx in
  if negb (eip2718 p) && negb (txType t =? 0) then Done (Some ErrTxTypeNotSupported) else
  if negb (eip1559 p) && (txType t =? 2) then Done (Some ErrTxTypeNotSupported) else
  addr ← sender (txs_store p) tx;
  if txMaxSize <? 8 then Done (Some ErrOversizedData) else
  value ← deref (tx_Value t);
  if uint256.Sign value <? 0 then Done (Some ErrNegativeValue) else
  if currentMaxGas p <? tx_Gas t then Done (Some ErrGasLimit) else
  price ← deref (tx_GasPrice t);
  if 256 <? uint256.BitLen price then Done (Some ErrFeeCapVeryHigh) else
  tip ← deref (tx_GasTipCap t);
  if 256 <? uint256.BitLen tip then Done (Some ErrTipVeryHigh) else
  feeCap ← deref (tx_GasFeeCap t);
  if Cmp feeCap tip <? 0 then Done (Some ErrTipAboveFeeCap) else
  if negb local && (Cmp price (gasPrice p) <? 0) then Done (Some ErrUnderpriced) else
  if tx_Nonce t <? GetNonce (currentState p) addr then Done (Some ErrNonceTooLow) else
  cost ← Cost t;
  if Cmp (GetBalance (currentState p) addr) cost <? 0 then Done (Some ErrInsufficientFunds) else
  match IntrinsicGas (tx_Data t) (tx_AccessList t) (bool_decide (tx_To t = None)) true (istanbul p) (shanghai p) with
  | (_, Some err) => Done (Some (IntrinsicGasError err))
  | (intrGas, None) => if tx_Gas t <? intrGas then Done (Some ErrIntrinsicGas) else Done None
  end.

(** Always true. *)
Definition validateSender (tx : Ptr) : bool := true.

(** ** Adding *)

(** Make room in a full pool; [None] if the transaction may be added. *)
Definition make_room (tx : Ptr) (isLocal : bool) : MT (option PoolError) :=
  p ← get;
  if u64 (txLookup.Slots (all p) + txLookup.numSlots tx) <=? u64 (GlobalSlots config + GlobalQueue config) then mret None else
  under ← (if isLocal then mret false else on_priced (txPricedList.Underpriced Hash (all p) tx));
  if (under : bool) then mret (Some ErrUnderpriced) else
  p ← get;
  if i64 (GlobalSlots config / 4) <? changesSinceReorg p then mret (Some ErrTxPoolOverflow) else
  '(drop, success) ← on_priced (txPricedList.Discard Hash (all p)
      (txLookup.Slots (all p) - i64 (u64 (GlobalSlots config + GlobalQueue config)) + txLookup.numSlots tx) isLocal);
  if negb isLocal && negb success then mret (Some ErrTxPoolOverflow) else
  _ ← modify (fun p => set_changes (changesSinceReorg p + zlen drop) p);
  _ ← for_each (fun tx => removeTx (Hash tx) false) drop;
  mret None.

(** Replace a pending transaction with the same nonce. *)
Definition replace_pending (from : Z) (tx : Ptr) (isLocal : bool) : MT (bool * option PoolError) :=
  '(inserted, old) ← on_pending from (fun V => txsList.Add tx (PriceBump config));
  if negb inserted then mret (false, Some ErrReplaceUnderpriced) else
  _ ← match old with
      | None => mret ()
      | Some old => _ ← all_Remove (Hash old); priced_Removed 1
      end;
  _ ← modify (fun p => set_all (txLookup.Add Hash tx isLocal (all p)) p);
  _ ← on_priced (txPricedList.Put tx isLocal);
  _ ← queueTxEvent tx;
  _ ← beat from;
  mret (bool_decide (old <> None), None).

(** The first local transaction of an account makes all of its transactions local. *)
Definition mark_local (from : Z) : MT () :=
  _ ← modify (fun p => set_locals (accountSet.add from (locals p)) p);
  p ← get;
  migrated ← zoom all set_all (txLookup.RemoteToLocals iter (txs_store p) (locals p));
  priced_Removed migrated.

Definition add (tx : Ptr) (local : bool) : MT (bool * option PoolError) :=
  p ← get;
  let hash := Hash tx in
  if bool_decide (txLookup.Get hash (all p) <> None) then mret (false, Some ErrAlreadyKnown) else
  known ← (if local then mret true else outcome_to_M (accountSet.containsTx (txs_store p) tx (locals p)));
  let isLocal := known in
  invalid ← outcome_to_M (validateTx tx isLocal p);
  match invalid with
  | Some err => mret (false, Some err)
  | None =>
      full ← make_room tx isLocal;
      match full with
      | Some err => mret (false, Some err)
      | None =>
          from ← from_of tx;
          p ← get;
          if match pending p !! from with Some l => txsList.Overlaps (V := txs_store p) tx l | None => false end
          then replace_pending from tx isLocal
          else
            '(replaced, err) ← enqueueTx hash tx isLocal true;
            match err with
            | Some err => mret (false, Some err)
            | None =>
                p ← get;
                _ ← (if local && negb (accountSet.contains from (locals p)) then mark_local from else mret ());
                mret (replaced, None)
            end
      end
  end.

(** Add a batch; answers the errors and the accounts to promote. *)
Fixpoint add_each (txs : list Ptr) (local : bool) (errs : list (option PoolError)) (dirty : accountSet.Accounts) : MT (list (option PoolError) * accountSet.Accounts) :=
  match txs with
  | [] => mret (errs, dirty)
  | tx :: txs =>
      '(replaced, err) ← add tx local;
      p ← get;
      dirty ← (if bool_decide (err = None) && negb replaced then outcome_to_M (accountSet.addTx (txs_store p) tx dirty) else mret dirty);
      add_each txs local (errs ++ [err]) dirty
  end.

Definition addTxsLocked (txs : list Ptr) (local : bool) : MT (list (option PoolError) * accountSet.Accounts) :=
  add_each txs local [] (accountSet.newAccountSet []).

(** The transactions that are not known, and the errors of those that are. *)
Fixpoint split_known (a : txLookup.Lookup) (txs : list Ptr) : list (option PoolError) * list Ptr :=
  match txs with
  | [] => ([], [])
  | tx :: txs =>
      let '(errs, news) := split_known a txs in
      if bool_decide (txLookup.Get (Hash tx) a <> None) then (Some ErrAlreadyKnown :: errs, news)
      else if negb (validateSender tx) then (Some ErrInvalidSender :: errs, news)
      else (None :: errs, tx :: news)
  end.

(** The next index from [slot] on without an error; past the end is out of range. *)
Fixpoint next_nil (fuel : nat) (errs : list (option PoolError)) (slot : nat) : outcome nat :=
  match fuel with
  | O => NoFuel
  | S fuel =>
      match errs !! slot with
      | None => GoPanic
      | Some None => Done slot
      | Some (Some _) => next_nil fuel errs (S slot)
      end
  end.

Fixpoint merge_errs (errs newErrs : list (option PoolError)) (nilSlot : nat) : outcome (list (option PoolError)) :=
  match newErrs with
  | [] => Done errs
  | err :: newErrs =>
      slot ← next_nil (S (length errs - nilSlot)) errs nilSlot;
      merge_errs (<[slot := err]> errs) newErrs (S slot)
  end.

(** What is sent on: the local transactions that were added, and the accounts whose
    transactions are to be promoted. *)
Record Added : Type := mkAdded { errors : list (option PoolError); local_txs : option (list Ptr); to_promote : option accountSet.Accounts }.

Definition addTxs (txs : list Ptr) (local : bool) : MT Added :=
  p ← get;
  let '(errs, news) := split_known (all p) txs in
  if (length news =? 0)%nat then mret (mkAdded errs None None) else
  '(newErrs, dirtyAddrs) ← addTxsLocked news local;
  errs ← outcome_to_M (merge_errs errs newErrs 0);
  let localTxs := (zip errs txs) ≫= fun '(err, tx) => if bool_decide (err = None) then [tx] else [] in
  mret (mkAdded errs (if local then Some localTxs else None) (Some dirtyAddrs)).

Definition AddLocals (txs : list Ptr) : MT Added := addTxs txs (negb (NoLocals config)).
Definition AddLocal (tx : Ptr) : MT (option PoolError) := r ← AddLocals [tx]; must (errors r !! 0%nat).
Definition AddRemotes (txs : list Ptr) : MT Added := addTxs txs false.

(** ** Promotion *)

(** Promote the transactions that are ready; answers those that were promoted. *)
Fixpoint promote_ready (addr : Z) (readies : list (option Ptr)) (promoted : list Ptr) : MT (list Ptr) :=
  match readies with
  | [] => mret promoted
  | tx :: readies =>
      tx ← must tx;
      b ← promoteTx addr (Hash tx) tx;
      promote_ready addr readies (if (b : bool) then promoted ++ [tx] else promoted)
  end.

Definition promote_account (addr : Z) (promoted : list Ptr) : MT (list Ptr) :=
  p ← get;
  match queue p !! addr with
  | None => mret promoted
  | Some _ =>
      forwards ← on_queue addr (fun V => txsList.Forward (GetNonce (currentState p) addr));
      _ ← drop_all forwards;
      '(drops, _) ← on_queue addr (fun V => txsList.Filter iter (GetBalance (currentState p) addr) (currentMaxGas p));
      _ ← drop_all (Some <$> drops);
      nonce ← on_noncer (txNoncer.get addr);
      readies ← on_queue addr (fun V => txsList.Ready nonce);
      promoted ← promote_ready addr readies promoted;
      p ← get;
      caps ← (if accountSet.contains addr (locals p) then mret [] else
              caps ← on_queue addr (fun V => txsList.Cap (i64 (AccountQueue config)));
              _ ← drop_all caps;
              mret caps);
      _ ← priced_Removed (zlen caps);
      p ← get;
      list ← must (queue p !! addr);
      _ ← (if txsList.Empty list then
             modify (fun p => set_beats (delete addr (beats p)) (ticks p) (set_queue (delete addr (queue p)) p))
           else mret ());
      mret promoted
  end.

Fixpoint promoteExecutables (accounts : list Z) (promoted : list Ptr) : MT (list Ptr) :=
  match accounts with
  | [] => mret promoted
  | addr :: accounts => promoted ← promote_account addr promoted; promoteExecutables accounts promoted
  end.

(** ** Limits *)

Definition count_txs (m : gmap Z PoolList) : Z := foldl (fun n l => u64 (n + txsList.Len l)) 0 (iter _ (map_to_list m)).*2.

(** Drop the last transaction of a pending list. *)
Definition cap_last (addr : Z) : MT () :=
  n ← pending_Len addr;
  caps ← on_pending addr (fun V => txsList.Cap (n - 1));
  _ ← for_each (fun tx =>
        tx ← must tx;
        _ ← all_Remove (Hash tx);
        p ← get;
        on_noncer (modify (txNoncer.setIfLower addr (tx_Nonce (txs_store p tx))))) caps;
  priced_Removed (zlen caps).

(** One transaction less for each of the accounts, and in the count. *)
Fixpoint cap_each (addrs : list Z) (count : Z) : MT Z :=
  match addrs with [] => mret count | addr :: addrs => _ ← cap_last addr; cap_each addrs (u64 (count - 1)) end.

(** Reduce all offenders but the last until they have as many as it, or the total is
    within the limit; each turn lowers the total. *)
Fixpoint equalize (fuel : nat) (threshold : Z) (offenders : list Z) (count : Z) : MT Z :=
  match fuel with
  | O => fun _ => NoFuel
  | S fuel =>
      if count <=? GlobalSlots config then mret count else
      addr ← must (offenders !! (length offenders - 2)%nat);
      n ← pending_Len addr;
      if n <=? threshold then mret count else
      count ← cap_each (take (length offenders - 1) offenders) count;
      equalize fuel threshold offenders count
  end.

(** Take the accounts with most transactions first. *)
Fixpoint penalize (fuel : nat) (spammers : prque.sstack Z ()) (offenders : list Z) (count : Z) : MT (list Z * Z) :=
  match fuel with
  | O => fun _ => NoFuel
  | S fuel =>
      if (count <=? GlobalSlots config) || prque.Empty spammers then mret (offenders, count) else
      '((offender, _), spammers) ← outcome_to_M (prque.Dequeue spammers);
      let offenders := offenders ++ [offender] in
      count ← (if (1 <? length offenders)%nat then
                 threshold ← pending_Len offender;
                 equalize (S (Z.to_nat count)) threshold offenders count
               else mret count);
      penalize fuel spammers offenders count
  end.

(** Reduce all offenders to the allowance of an account. *)
Fixpoint reduce (fuel : nat) (offenders : list Z) (count : Z) : MT Z :=
  match fuel with
  | O => fun _ => NoFuel
  | S fuel =>
      if count <=? GlobalSlots config then mret count else
      addr ← must (list.last offenders);
      n ← pending_Len addr;
      if u64 n <=? AccountSlots config then mret count else
      count ← cap_each offenders count;
      reduce fuel offenders count
  end.

Fixpoint spam_order (p : TxsPool) (entries : list (Z * PoolList)) : M (prque.sstack Z ()) () :=
  match entries with
  | [] => mret ()
  | (addr, list) :: entries =>
      _ ← (if negb (accountSet.contains addr (locals p)) && (AccountSlots config <? u64 (txsList.Len list))
           then prque.Enqueue addr (i64 (txsList.Len list)) else mret ());
      spam_order p entries
  end.

Definition truncatePending : MT () :=
  p ← get;
  let count := count_txs (pending p) in
  if count <=? GlobalSlots config then mret () else
  '(_, spammers) ← outcome_to_M (spam_order p (iter _ (map_to_list (pending p))) (prque.New None ()));
  '(offenders, count) ← penalize (S (prque.Size spammers)) spammers [] count;
  if (GlobalSlots config <? count) && negb (length offenders =? 0)%nat then
    _ ← reduce (S (Z.to_nat count)) offenders count; mret ()
  else mret ().

(** [addressesByHeartbeat] *)
Definition by_heartbeat (a b : Z * Z) : Prop := a.2 <= b.2.
#[local] Instance by_heartbeat_dec a b : Decision (by_heartbeat a b) := decide (a.2 <= b.2).

(** Drop transactions from the end of a list, [drop] at most. *)
Fixpoint drop_last (txs : list Ptr) (drop : Z) : MT Z :=
  match txs with
  | [] => mret drop
  | tx :: txs => if drop <=? 0 then mret drop else _ ← removeTx (Hash tx) true; drop_last txs (drop - 1)
  end.

Fixpoint drop_queues (addresses : list Z) (drop : Z) : MT () :=
  match addresses with
  | [] => mret ()
  | addr :: addresses =>
      if drop <=? 0 then mret () else
      p ← get;
      list ← must (queue p !! addr);
      let size := u64 (txsList.Len list) in
      txs ← on_queue addr (fun V => txsList.Flatten iter);
      if size <=? drop then
        _ ← for_each (fun tx => removeTx (Hash tx) true) txs;
        drop_queues addresses (drop - size)
      else
        drop ← drop_last (reverse txs) drop;
        drop_queues addresses drop
  end.

Definition truncateQueue : MT () :=
  p ← get;
  let queued := count_txs (queue p) in
  if queued <=? GlobalQueue config then mret () else
  let remote := base.filter (fun addr => accountSet.contains addr (locals p) = false) (iter _ (map_to_list (queue p))).*1 in
  let addresses := merge_sort by_heartbeat ((fun addr => (addr, default 0 (beats p !! addr))) <$> remote) in
  drop_queues (reverse addresses.*1) (queued - GlobalQueue config).

(** ** Demotion *)

Definition demote_account (addr : Z) : MT () :=
  p ← get;
  let nonce := GetNonce (currentState p) addr in
  olds ← on_pending addr (fun V => txsList.Forward nonce);
  _ ← drop_all olds;
  '(drops, invalids) ← on_pending addr (fun V => txsList.Filter iter (GetBalance (currentState p) addr) (currentMaxGas p));
  _ ← drop_all (Some <$> drops);
  _ ← for_each (fun tx => _ ← enqueueTx (Hash tx) tx false false; mret ()) invalids;
  p ← get;
  list ← must (pending p !! addr);
  _ ← (if (0 <? txsList.Len list) && bool_decide (txsSortedMap.Get nonce (txsList.txs list) = None) then
         gapped ← on_pending addr (fun V => txsList.Cap 0);
         for_each (fun tx => tx ← must tx; _ ← enqueueTx (Hash tx) tx false false; mret ()) gapped
       else mret ());
  p ← get;
  list ← must (pending p !! addr);
  if txsList.Empty list then modify (fun p => set_pending (delete addr (pending p)) p) else mret ().

Definition demoteUnexecutables : MT () :=
  p ← get;
  for_each demote_account (iter _ (map_to_list (pending p))).*1.
End Pool.

(** * Reorganisation and reads of the transaction pool ([internal/txspool/txs_pool.go])

    [reset] to a new head, with the transactions of the blocks that are no longer on the
    chain, the background run [runReorg] that puts the pool in order, and what clients
    read. *)

Import TxsPoolConfig.

(** An integer as a [float64]: rounded to 53 bits, ties to even. *)
Definition float64 (n : Z) : Z :=
  let e := Z.log2 (Z.abs n) - 52 in
  if e <=? 0 then n else
  let m := Z.abs n / 2 ^ e in
  let r := Z.abs n mod 2 ^ e in
  let half := 2 ^ (e - 1) in
  let m := if (half <? r) || ((r =? half) && Z.odd m) then m + 1 else m in
  Z.sgn n * (m * 2 ^ e).

Definition Number64 (b : PoolBlock) : Z := header.Number (block_header b).
Definition ParentHash (b : PoolBlock) : Z := header.ParentHash (block_header b).

Section Reorg.
Context {U : Uint256} (iter : forall A : Type, list A -> list A) (Hash : Ptr -> Z) (Now : nat -> Z).
Context (config : Config) (chainconfig : ChainConfig) (bc : PoolChain).
Notation MT := (M TxsPool).

(** ** [reset] *)

(** Go back from a block to the height of another, with the transactions on the way;
    [None] if a parent is missing. *)
Fixpoint unwind (fuel : nat) (b : PoolBlock) (height : Z) (txs : list Ptr) : outcome (option (PoolBlock * list Ptr)) :=
  match fuel with
  | O => NoFuel
  | S fuel =>
      if negb (height <? Number64 b) then Done (Some (b, txs)) else
      match GetBlockByHash bc (ParentHash b) with
      | None => Done None
      | Some parent => unwind fuel parent height (txs ++ block_txs b)
      end
  end.

(** Go back from two blocks of the same height to their common ancestor. *)
Fixpoint unwind_both (fuel : nat) (rem add : PoolBlock) (discarded included : list Ptr) : outcome (option (list Ptr * list Ptr)) :=
  match fuel with
  | O => NoFuel
  | S fuel =>
      if block_hash rem =? block_hash add then Done (Some (discarded, included)) else
      match GetBlockByHash bc (ParentHash rem) with
      | None => Done None
      | Some rem' =>
          match GetBlockByHash bc (ParentHash add) with
          | None => Done None
          | Some add' => unwind_both fuel rem' add' (discarded ++ block_txs rem) (included ++ block_txs add)
          end
      end
  end.

Definition txDifference (a b : list Ptr) : list Ptr :=
  let remove : gset Z := list_to_set (Hash <$> b) in
  base.filter (fun tx => Hash tx ∉ remove) a.

(** The transactions to inject again; [None] if the chain has a hole. *)
Definition reinject (oldBlock : option PoolBlock) (newBlock : PoolBlock) : outcome (option (list Ptr)) :=
  match oldBlock with
  | None => Done (Some [])
  | Some oldBlock =>
      if block_hash oldBlock =? ParentHash newBlock then Done (Some []) else
      let depth := u64 (Z.abs (float64 (float64 (u64 (Number64 oldBlock)) - float64 (u64 (Number64 newBlock))))) in
      if 64 <? depth then Done (Some []) else
      rem ← unwind (S (Z.to_nat (Number64 oldBlock))) oldBlock (Number64 newBlock) [];
      match rem with
      | None => Done None
      | Some (rem, discarded) =>
          add ← unwind (S (Z.to_nat (Number64 newBlock))) newBlock (Number64 rem) [];
          match add with
          | None => Done None
          | Some (add, included) =>
              both ← unwind_both (S (S (Z.to_nat (Number64 rem)))) rem add discarded included;
              match both with
              | None => Done None
              | Some (discarded, included) => Done (Some (txDifference discarded included))
              end
          end
      end
  end.

Definition reset (oldBlock : option PoolBlock) (newBlock : PoolBlock) : MT () :=
  txs ← outcome_to_M (reinject oldBlock newBlock);
  match txs with
  | None => mret ()
  | Some txs =>
      match StateAt bc (block_hash newBlock) with
      | None => mret ()
      | Some cs =>
          _ ← modify (set_head cs (txNoncer.newTxNoncer cs) (header.GasLimit (block_header newBlock)));
          _ ← addTxsLocked iter Hash Now config txs false;
          let next := u64 (Number64 newBlock + 1) in
          modify (set_forks (chain.IsIstanbul chainconfig next) (chain.IsBerlin chainconfig next) (chain.IsLondon chainconfig next))
      end
  end.

(** ** [runReorg] *)

Notation Events := (gmap Z (txsSortedMap.Map Ptr)).

(** Events of transactions that are mined meanwhile are dropped. *)
Fixpoint forward_events (addrs : list Z) (events : Events) : MT Events :=
  match addrs with
  | [] => mret events
  | addr :: addrs =>
      nonce ← on_noncer (txNoncer.get addr);
      m ← must (events !! addr);
      '(_, m) ← outcome_to_M (txsSortedMap.Forward nonce m);
      forward_events addrs (if txsSortedMap.Len m =? 0 then delete addr events else <[addr := m]> events)
  end.

(** The nonce after the last pending transaction of each account. *)
Fixpoint last_nonces (addrs : list Z) (nonces : gmap Z Z) : MT (gmap Z Z) :=
  match addrs with
  | [] => mret nonces
  | addr :: addrs =>
      highestPending ← on_pending addr (fun V => txsList.LastElement iter);
      p ← get;
      last_nonces addrs (<[addr := u64 (tx_Nonce (txs_store p highestPending) + 1)]> nonces)
  end.

Definition set_base_fee (newBlock : PoolBlock) : MT () :=
  if chain.IsLondon chainconfig (u64 (u64 (Number64 newBlock) + 1)) then
    fee ← outcome_to_M (CalcBaseFee chainconfig (block_header newBlock));
    p ← get;
    on_priced (txPricedList.SetBaseFee iter (all p) (uint256.FromBig fee).1)
  else mret ().

(** What a reset does after promotion. *)
Definition settle (newBlock : PoolBlock) : MT () :=
  _ ← demoteUnexecutables iter Hash Now config;
  _ ← set_base_fee newBlock;
  p ← get;
  nonces ← last_nonces (iter _ (map_to_list (pending p))).*1 ∅;
  on_noncer (modify (txNoncer.setAll nonces)).

(** The part under the lock; answers the promoted transactions and the events left. *)
Definition reorg_locked (request : option (option PoolBlock * PoolBlock)) (dirty : option accountSet.Accounts) (events : Events) : MT (list Ptr * Events) :=
  match request with
  | None =>
      addrs ← match dirty with
              | None => mret []
              | Some dirty => '(addrs, _) ← outcome_to_M (accountSet.flatten iter dirty); mret addrs
              end;
      promoted ← promoteExecutables iter Hash Now config addrs [];
      mret (promoted, events)
  | Some (oldBlock, newBlock) =>
      _ ← reset oldBlock newBlock;
      events ← forward_events (iter _ (map_to_list events)).*1 events;
      p ← get;
      promoted ← promoteExecutables iter Hash Now config (iter _ (map_to_list (queue p))).*1 [];
      _ ← settle newBlock;
      mret (promoted, events)
  end.

(** Events of promoted transactions, by sender. *)
Fixpoint put_events (promoted : list Ptr) (events : Events) : MT Events :=
  match promoted with
  | [] => mret events
  | tx :: promoted =>
      addr ← from_of tx;
      p ← get;
      '(_, m) ← outcome_to_M (txsSortedMap.Put (V := txs_store p) tx (default txsSortedMap.newTxSortedMap (events !! addr)));
      put_events promoted (<[addr := m]> events)
  end.

Fixpoint flatten_events (sets : list (txsSortedMap.Map Ptr)) (txs : list Ptr) : MT (list Ptr) :=
  match sets with
  | [] => mret txs
  | m :: sets =>
      p ← get;
      '(l, _) ← outcome_to_M (txsSortedMap.Flatten (V := txs_store p) iter m);
      flatten_events sets (txs ++ l)
  end.

(** Answers the transactions that are announced, if there are any. *)
Definition runReorg (request : option (option PoolBlock * PoolBlock)) (dirty : option accountSet.Accounts) (events : Events) : MT (option (list Ptr)) :=
  '(promoted, events) ← reorg_locked request dirty events;
  _ ← truncatePending iter Hash config;
  _ ← truncateQueue iter Hash Now config;
  _ ← modify (set_changes 0);
  events ← put_events promoted events;
  if (size events =? 0)%nat then mret None else
  txs ← flatten_events (iter _ (map_to_list events)).*2 [];
  mret (Some txs).

(** ** Reads *)

(** The transactions before the first one whose tip is too low. *)
Fixpoint enforce_tips (txs : list Ptr) (kept : list Ptr) : MT (list Ptr) :=
  match txs with
  | [] => mret kept
  | tx :: txs =>
      p ← get;
      c ← zoom txs_store (fun st p => set_priced (txPricedList.mkState st (priced p)) p)
            (EffectiveTipIntCmp (priceHeap.baseFee (txPricedList.urgent (priced p))) (gasPrice p) tx);
      if c <? 0 then mret kept else enforce_tips txs (kept ++ [tx])
  end.

Fixpoint pending_of (enforceTips : bool) (addrs : list Z) (result : gmap Z (list Ptr)) : MT (gmap Z (list Ptr)) :=
  match addrs with
  | [] => mret result
  | addr :: addrs =>
      txs ← on_pending addr (fun V => txsList.Flatten iter);
      p ← get;
      txs ← (if enforceTips && negb (accountSet.contains addr (locals p)) then enforce_tips txs [] else mret txs);
      pending_of enforceTips addrs (if 0 <? zlen txs then <[addr := txs]> result else result)
  end.

Definition Pending (enforceTips : bool) : MT (gmap Z (list Ptr)) :=
  p ← get; pending_of enforceTips (iter _ (map_to_list (pending p))).*1 ∅.

Definition Has (hash : Z) (p : TxsPool) : bool := bool_decide (txLookup.Get hash (all p) <> None).
Definition GetTx (hash : Z) (p : TxsPool) : option Ptr := txLookup.Get hash (all p).

Definition GetTransaction : MT (list Ptr) :=
  pending ← Pending false;
  mret (concat (iter _ (map_to_list pending)).*2).

Fixpoint queued_of (addrs : list Z) (result : gmap Z (list Ptr)) : MT (gmap Z (list Ptr)) :=
  match addrs with
  | [] => mret result
  | addr :: addrs => txs ← on_queue addr (fun V => txsList.Flatten iter); queued_of addrs (<[addr := txs]> result)
  end.

Fixpoint content_of (addrs : list Z) (result : gmap Z (list Ptr)) : MT (gmap Z (list Ptr)) :=
  match addrs with
  | [] => mret result
  | addr :: addrs => txs ← on_pending addr (fun V => txsList.Flatten iter); content_of addrs (<[addr := txs]> result)
  end.

Definition Content : MT (gmap Z (list Ptr) * gmap Z (list Ptr)) :=
  p ← get;
  pend ← content_of (iter _ (map_to_list (pending p))).*1 ∅;
  p ← get;
  queued ← queued_of (iter _ (map_to_list (queue p))).*1 ∅;
  mret (pend, queued).

Definition PoolNonce (addr : Z) : MT Z := on_noncer (txNoncer.get addr).

Definition count_in (m : gmap Z PoolList) : Z := foldl (fun n l => n + txsList.Len l) 0 (iter _ (map_to_list m)).*2.

Definition Stats (p : TxsPool) : Z * Z * Z * Z :=
  (Z.of_nat (size (pending p)), count_in (pending p), Z.of_nat (size (queue p)), count_in (queue p)).

(** ** A new pool *)

(** Without the state of the head the pool has a nil state and is of no use: [None]. *)
Definition NewTxsPool (st : Store) : outcome (option TxsPool) :=
  match StateAt bc (block_hash (CurrentBlock bc)) with
  | None => Done None
  | Some cs =>
      let pool := mkPool cs (txNoncer.newTxNoncer cs) 0 false false false false (accountSet.newAccountSet []) ∅ ∅ ∅ txLookup.newTxLookup
                    txPricedList.newTxPricedList (PriceLimit config) 0 st 0 [] in
      '(_, pool) ← reset None (CurrentBlock bc) pool;
      Done (Some pool)
  end.
End Reorg.
