(* ===== verification/Ends.v ===== *)
(** * Runs that end

    [ends m s Q]: the stateful code [m] comes to an end from [s], without a panic and
    within its fuel, and what it answers and the state it leaves satisfy [Q].
    [yields F m s Q]: if it returns, they do. *)

From S2P Require Import Prelude TxLookup.

Definition ends {S A : Type} (m : M S A) (s : S) (Q : A -> S -> Prop) : Prop := exists a s', m s = Done (a, s') /\ Q a s'.

Section Rules.
Context {S : Type}.

Lemma ends_ret {A} (a : A) (s : S) Q : Q a s -> ends (mret a) s Q.
Proof. intros H. by exists a, s. Qed.

Lemma ends_bind {A B} (m : M S A) (f : A -> M S B) s Q : ends m s (fun a s' => ends (f a) s' Q) -> ends (m ≫= f) s Q.
Proof. intros (a & s' & E & b & s'' & E' & H). exists b, s''. split; [|done]. unfold mbind, M_bind. by rewrite E. Qed.

Lemma ends_bind_inv {A B} (m : M S A) (f : A -> M S B) s Q : ends (m ≫= f) s Q -> ends m s (fun a s' => ends (f a) s' Q).
Proof.
  intros (b & s'' & E & H). unfold mbind, M_bind in E. destruct (m s) as [[a s']| |] eqn:Em; [|done|done]. exists a, s'. split; [done|]. by exists b, s''.
Qed.

Lemma ends_assoc {A B C} (m : M S A) (f : A -> M S B) (g : B -> M S C) s Q : ends ((m ≫= f) ≫= g) s Q -> ends (m ≫= fun a => f a ≫= g) s Q.
Proof. unfold ends, mbind, M_bind. by destruct (m s) as [[a s']| |]. Qed.

Lemma ends_mono {A} (m : M S A) s (Q Q' : A -> S -> Prop) : ends m s Q -> (forall a s', Q a s' -> Q' a s') -> ends m s Q'.
Proof. intros (a & s' & E & H) HQ. exists a, s'. auto. Qed.

Lemma ends_get (s : S) Q : Q s s -> ends get s Q.
Proof. intros H. by exists s, s. Qed.

Lemma ends_gets {A} (f : S -> A) s Q : Q (f s) s -> ends (gets f) s Q.
Proof. intros H. by exists (f s), s. Qed.

Lemma ends_modify (f : S -> S) s Q : Q () (f s) -> ends (modify f) s Q.
Proof. intros H. by exists (), (f s). Qed.

Lemma ends_must {A} (o : option A) a (s : S) Q : o = Some a -> Q a s -> ends (must o) s Q.
Proof. intros -> H. by exists a, s. Qed.

Lemma ends_outcome {A} (o : outcome A) a (s : S) Q : o = Done a -> Q a s -> ends (outcome_to_M o) s Q.
Proof. intros -> H. by exists a, s. Qed.

Lemma ends_zoom {T A} (proj : S -> T) put (m : M T A) s Q : ends m (proj s) (fun a t => Q a (put t s)) -> ends (zoom proj put m) s Q.
Proof. intros (a & t & E & H). exists a, (put t s). split; [|done]. unfold zoom. by rewrite E. Qed.

(** A loop with an invariant of what is left and the state. *)
Lemma ends_for_each {A} (f : A -> M S ()) (I : list A -> S -> Prop) l s :
  I l s -> (forall x l s, I (x :: l) s -> ends (f x) s (fun _ s' => I l s')) -> ends (for_each f l) s (fun _ s' => I [] s').
Proof.
  intros H Hf. revert s H. induction l as [|x l IH]; intros s H; cbn [for_each]; [by apply ends_ret|].
  apply ends_bind. eapply ends_mono; [by apply Hf|]. intros [] s' H'. by apply IH.
Qed.

(** A loop over pointers that are set. *)
Lemma ends_for_each_must {A} (f : A -> M S ()) l s Q : ends (for_each f l) s Q -> ends (for_each (fun x => x ← must x; f x) (Some <$> l)) s Q.
Proof.
  revert s. induction l as [|x l IH]; intros s H; [done|]. cbn [for_each fmap list_fmap] in *. apply ends_bind_inv in H. apply ends_bind, ends_bind. eapply ends_must; [done|].
  eapply ends_mono; [exact H|]. intros [] s'. apply IH.
Qed.

(** A run that is known. *)
Lemma ends_eq {A} (m : M S A) a s s' (Q : A -> S -> Prop) : m s = Done (a, s') -> Q a s' -> ends m s Q.
Proof. intros E H. by exists a, s'. Qed.
End Rules.

(** Read and write the state; what is left is a call with a lemma of its own. *)
Ltac go_step :=
  lazymatch goal with
  | |- ends (mbind _ _) _ _ => apply ends_bind
  | |- ends (mret _) _ _ => apply ends_ret
  | |- ends get _ _ => apply ends_get
  | |- ends (gets _) _ _ => apply ends_gets
  | |- ends (modify _) _ _ => apply ends_modify
  end.
Ltac go := cbv beta match; repeat (go_step; cbv beta match).

(** A call with a lemma of its own. *)
Tactic Notation "call" tactic3(t) := eapply ends_mono; [t|cbv beta].

(** The first steps of a run, for which there is a lemma. *)
Ltac run_step H :=
  apply ends_bind_inv in H; apply ends_bind; eapply ends_mono; [exact H|]; clear H;
  let x := fresh "answer" in let s := fresh "state" in intros x s H; try (lazymatch type of x with prod _ _ => let y := fresh "part" in let z := fresh "part" in destruct x as [y z] end); cbv beta match in H |- *.
Tactic Notation "run" constr(E) := let H := fresh "Hrun" in pose proof E as H; repeat run_step H; apply ends_bind; eapply ends_mono; [exact H|clear H; cbv beta].

(** ** Runs that return *)

(** If the code returns, what it answers and leaves satisfies [Q]; [F] is what is known if
    it runs out of fuel. *)
Definition yields {S A : Type} (F : Prop) (m : M S A) (s : S) (Q : A -> S -> Prop) : Prop :=
  match m s with Done (a, s') => Q a s' | GoPanic => True | NoFuel => F end.

Section Rules.
Context {S : Type} {F : Prop}.

Lemma yields_done {A} (m : M S A) s Q a s' : yields F m s Q -> m s = Done (a, s') -> Q a s'.
Proof. unfold yields. intros H E. by rewrite E in H. Qed.

Lemma yields_ends {A} (m : M S A) s Q : ends m s Q -> yields F m s Q.
Proof. intros (a & s' & E & H). unfold yields. by rewrite E. Qed.

Lemma yields_ret {A} (a : A) (s : S) Q : Q a s -> yields F (mret a) s Q.
Proof. done. Qed.

Lemma yields_bind {A B} (m : M S A) (f : A -> M S B) s Q : yields F m s (fun a s' => yields F (f a) s' Q) -> yields F (m ≫= f) s Q.
Proof. unfold yields, mbind, M_bind. by destruct (m s) as [[a s']| |]. Qed.

Lemma yields_mono {A} (m : M S A) s (Q Q' : A -> S -> Prop) : yields F m s Q -> (forall a s', Q a s' -> Q' a s') -> yields F m s Q'.
Proof. unfold yields. destruct (m s) as [[a s']| |]; auto. Qed.

Lemma yields_get (s : S) Q : Q s s -> yields F get s Q.
Proof. done. Qed.

Lemma yields_gets {A} (f : S -> A) s Q : Q (f s) s -> yields F (gets f) s Q.
Proof. done. Qed.

Lemma yields_modify (f : S -> S) s Q : Q () (f s) -> yields F (modify f) s Q.
Proof. done. Qed.

Lemma yields_must {A} (o : option A) (s : S) Q : (forall a, o = Some a -> Q a s) -> yields F (must o) s Q.
Proof. destruct o as [a|]; intros H; [by apply H|done]. Qed.

Lemma yields_nofuel {A} (s : S) (Q : A -> S -> Prop) : F -> yields F (fun _ => NoFuel) s Q.
Proof. done. Qed.

Lemma ends_yields {A} (m : M S A) s Q Q' : ends m s Q -> yields F m s Q' -> ends m s (fun a s' => Q a s' /\ Q' a s').
Proof. intros (a & s' & E & H) Hy. exists a, s'. split; [done|]. split; [done|by eapply yields_done]. Qed.
End Rules.

Ltac ye_step :=
  lazymatch goal with
  | |- yields _ (mbind _ _) _ _ => apply yields_bind
  | |- yields _ (mret _) _ _ => apply yields_ret
  | |- yields _ get _ _ => apply yields_get
  | |- yields _ (gets _) _ _ => apply yields_gets
  | |- yields _ (modify _) _ _ => apply yields_modify
  | |- yields _ (fun _ => NoFuel) _ _ => apply yields_nofuel
  end.
Ltac ye := cbv beta match; repeat (ye_step; cbv beta match).
Tactic Notation "use" tactic3(t) := eapply yields_mono; [t|cbv beta].
