(* ===== verification/TxPricedTheorems.v ===== *)
(** * What the price heaps of the pool leave alone

    A comparison of tips changes fee caps, so little can be said of the order of the
    heaps once there is a base fee.  Everything else of the transactions stays, the
    operations end and do not panic, and the heaps hold only transactions that were put
    there. *)

From S2P Require Import Prelude Uint256 Wire Transaction Heap TxList TxListTheorems TxLookup TxPriced Ends.
Import priceHeap txPricedList.

(** ** Transactions up to their fee cap *)

Definition fees_wf (tx : TxData) : Prop := (exists p, tx_GasPrice tx = Some p /\ word p) /\ (exists p, tx_GasTipCap tx = Some p /\ word p).

(** The same transaction, but for its fees, which are still set. *)
Record same_tx (a b : TxData) : Prop := {
  st_nonce : tx_Nonce b = tx_Nonce a;
  st_from : tx_From b = tx_From a;
  st_gas : tx_Gas b = tx_Gas a;
  st_value : tx_Value b = tx_Value a;
  st_fees : fees_wf a -> fees_wf b
}.

Definition sim (st st' : Store) : Prop := forall p, same_tx (st p) (st' p).

#[global] Instance same_tx_refl : Reflexive same_tx.
Proof. by intros tx. Qed.

#[global] Instance same_tx_trans : Transitive same_tx.
Proof. intros a b c [H1 H2 H3 H4 H5] [K1 K2 K3 K4 K5]. split; [congruence..|auto]. Qed.

#[global] Instance sim_preorder : PreOrder sim.
Proof. split; [by intros st p|]. intros a b c H K p. by transitivity (b p). Qed.

Section Prices.
Context {U : Uint256} {UL : Uint256Laws U}.

Lemma sub_feeCap_same fee tx : word fee -> same_tx tx (sub_feeCap fee tx).
Proof.
  intros Hf. destruct tx as [t|t|t]; (split; [done|done|done|done|]); unfold fees_wf; cbn.
  - intros [(p & E & Hp) _]. rewrite E. cbn. assert (word (uint256.Sub p fee)) by (rewrite uint256.Sub_spec by done; apply wrap256_word). split; eauto.
  - intros [(p & E & Hp) _]. rewrite E. cbn. assert (word (uint256.Sub p fee)) by (rewrite uint256.Sub_spec by done; apply wrap256_word). split; eauto.
  - intros [(p & E & Hp) Ht]. rewrite E. cbn. assert (word (uint256.Sub p fee)) by (rewrite uint256.Sub_spec by done; apply wrap256_word). split; eauto.
Qed.

Lemma update_sim p tx st : same_tx (st p) tx -> sim st (update p tx st).
Proof. intros H q. unfold update. case_decide as E; [by subst|done]. Qed.

Lemma feeCap_price tx : tx_GasFeeCap tx = tx_GasPrice tx.
Proof. by destruct tx. Qed.

Lemma sim_fees st st' p : sim st st' -> fees_wf (st p) -> fees_wf (st' p).
Proof. intros H. apply H. Qed.

Definition fee_wf (fee : option Z) : Prop := forall f, fee = Some f -> word f.

Lemma EffectiveTipPointer_ends fee p st : word fee -> fees_wf (st p) -> ends (EffectiveTipPointer fee p) st (fun _ st' => sim st st').
Proof.
  intros Hf Hp. pose proof Hp as [(q & E & Hq) _]. unfold EffectiveTipPointer. go. eapply ends_must; [by rewrite feeCap_price|]. go.
  assert (Hs : sim st (update p (sub_feeCap fee (st p)) st)) by by apply update_sim, sub_feeCap_same.
  destruct (sim_fees _ _ p Hs Hp) as [(a & Ea & Ha) (b & Eb & Hb)].
  eapply ends_must; [done|]. go. eapply ends_must; [by rewrite feeCap_price|]. by go.
Qed.

Lemma pointee_wf i tx : fees_wf tx -> exists x, pointee i tx = Some x /\ word x.
Proof. intros [(a & Ea & Ha) (b & Eb & Hb)]. destruct i; cbn; [eauto|]. rewrite feeCap_price. eauto. Qed.

Lemma EffectiveTipCmp_ends fee a b st : word fee -> fees_wf (st a) -> fees_wf (st b) -> ends (EffectiveTipCmp fee a b) st (fun _ st' => sim st st').
Proof.
  intros Hf Ha Hb. unfold EffectiveTipCmp. go. call by apply EffectiveTipPointer_ends. intros i st1 H1. go.
  call (apply EffectiveTipPointer_ends; [done|solve [eauto using sim_fees]]). intros j st2 H2. go.
  assert (H : sim st st2) by by transitivity st1.
  destruct (pointee_wf i (st2 a)) as (x & Ex & _); [solve [eauto using sim_fees]|]. destruct (pointee_wf j (st2 b)) as (y & Ey & _); [solve [eauto using sim_fees]|].
  eapply ends_must; [done|]. go. eapply ends_must; [done|]. by go.
Qed.

Lemma EffectiveTipIntCmp_ends fee other a st : fee_wf fee -> fees_wf (st a) -> ends (EffectiveTipIntCmp fee other a) st (fun _ st' => sim st st').
Proof.
  intros Hf Ha. unfold EffectiveTipIntCmp. destruct fee as [fee|].
  - go. call (apply EffectiveTipPointer_ends; [by apply Hf|done]). intros i st1 H1. go.
    destruct (pointee_wf i (st1 a)) as (x & Ex & _); [solve [eauto using sim_fees]|]. eapply ends_must; [done|]. by go.
  - go. destruct Ha as [_ (b & Eb & _)]. eapply ends_must; [done|]. by go.
Qed.

Lemma cmp_ends fee a b st : fee_wf fee -> fees_wf (st a) -> fees_wf (st b) -> ends (cmp fee a b) st (fun _ st' => sim st st').
Proof.
  intros Hf Ha Hb. unfold cmp. go. apply (ends_mono _ _ (fun _ st' => sim st st')).
  { destruct fee as [fee|]; [apply EffectiveTipCmp_ends; [by apply Hf|done|done]|by go]. }
  intros c st1 H1. destruct (negb (c =? 0)); [by go|]. go.
  destruct (sim_fees _ _ a H1 Ha) as [(x & Ex & _) _]. destruct (sim_fees _ _ b H1 Hb) as [(y & Ey & _) _].
  eapply ends_must; [done|]. go. eapply ends_must; [done|]. cbv beta. by destruct (negb _); go.
Qed.

(** ** The heap *)

(** The slice is the list, the transactions are those of [st0] up to their fees. *)
Definition heap_stands (st0 : Store) (s : HeapState) (l : list Ptr) : Prop := s.2 = l /\ sim st0 s.1 /\ Forall (fun p => fees_wf (st0 p)) l.

Lemma price_less fee st0 st l i j : fee_wf fee -> heap_stands st0 (st, l) l -> (i < length l)%nat -> (j < length l)%nat ->
  ends (Less fee i j) (st, l) (fun _ s' => heap_stands st0 s' l).
Proof.
  intros Hf (_ & Hs & Hl) Hi Hj. cbn in Hs. destruct (lookup_lt_is_Some_2 l i Hi) as [a Ea], (lookup_lt_is_Some_2 l j Hj) as [b Eb].
  unfold Less. go. eapply ends_must; [done|]. go. eapply ends_must; [done|]. go. apply ends_zoom. cbn [fst].
  pose proof Hl as Hl'. rewrite Forall_lookup in Hl'. pose proof (Hl' i a Ea). pose proof (Hl' j b Eb).
  call (apply cmp_ends; [done|eauto using sim_fees|eauto using sim_fees]). intros c st1 H1. cbn [snd].
  assert (heap_stands st0 (st1, l) l) by (split_and!; [done|cbn; by transitivity st|done]).
  destruct (c =? -1); [by go|]. destruct (c =? 1); [by go|]. by go.
Qed.

Lemma price_sound fee st0 : fee_wf fee -> container.Sound (price_heap fee) (fun p => fees_wf (st0 p)) (heap_stands st0).
Proof.
  intros Hf. split.
  - intros [st h] l (Eh & _ & _). cbn in *. by subst.
  - intros [st h] l i j H Hi Hj. pose proof H as (Eh & _ & _). cbn in Eh. subst h. by apply price_less.
  - intros [st h] l i j (Eh & Hs & Hl) Hi Hj. cbn in Eh, Hs. subst h.
    destruct (lookup_lt_is_Some_2 l i Hi) as [a Ea], (lookup_lt_is_Some_2 l j Hj) as [b Eb].
    exists (st, heap.Swap l i j). unfold heap.Swap. cbn. unfold Swap, get, modify, mbind, M_bind. rewrite Ea, Eb. cbn. split; [done|].
    split_and!; [done|done|]. pose proof Hl as Hl'. rewrite Forall_lookup in Hl'. apply Forall_insert; [apply Forall_insert|]; eauto.
  - intros [st h] l x Hx (Eh & Hs & Hl). cbn in Eh, Hs. subst h. eexists. split; [done|]. split_and!; [done|done|]. apply Forall_app. split; [done|]. by apply list.Forall_singleton.
  - intros [st h] l x (Eh & Hs & Hl). cbn in Eh, Hs. subst h. exists (st, l). cbn. unfold Pop, get, modify, mbind, M_bind.
    rewrite list.last_snoc. cbn. rewrite length_app, Nat.add_sub, take_app_length. split; [done|]. split_and!; [done|done|]. by apply Forall_app in Hl as [? _].
Qed.

(** ** The priced list *)

Context (iter : forall A : Type, list A -> list A) (iter_perm : forall A (l : list A), iter A l ≡ₚ l).

(** The heaps hold transactions of [st0], which has changed in fees only. *)
Record priced_ok (st0 : Store) (s : PricedState) : Prop := {
  po_sim : sim st0 (store s);
  po_fees w : Forall (fun p => fees_wf (st0 p)) (heap_list w s);
  po_base w : fee_wf (baseFee (heap_of w (priced s)))
}.

Definition other (w : Which) : Which := match w with Urgent => Floating | Floating => Urgent end.

(** An operation on one of the heaps, by what it does to its list. *)
Lemma on_heap_ends {A} w (op : container.Interface HeapState Ptr -> M HeapState A) (Q : A -> list Ptr -> Prop) st0 s : priced_ok st0 s ->
  (forall fee s0, fee_wf fee -> heap_stands st0 s0 (heap_list w s) ->
     exists a s1 l1, op (price_heap fee) s0 = Done (a, s1) /\ heap_stands st0 s1 l1 /\ Q a l1) ->
  ends (on_heap w op) s (fun a s' => priced_ok st0 s' /\ Q a (heap_list w s') /\ heap_list (other w) s' = heap_list (other w) s).
Proof.
  intros [H1 H2 H3] Hop. unfold on_heap. go. apply ends_zoom.
  destruct (Hop (baseFee (heap_of w (priced s))) (store s, txs (heap_of w (priced s)))) as (a & [st1 h1] & l1 & E & (E1 & Hs & Hf) & HQ); [done|done|].
  cbn in E1, Hs. subst h1. apply (ends_eq _ a _ (st1, l1)); [done|]. cbn. split_and!.
  - split; cbn; [done| |]; intros w'; pose proof (H2 w'); pose proof (H3 w'); by destruct w, w'.
  - by destruct w.
  - by destruct w.
Qed.

Lemma heap_Push_ends w tx st0 s : fees_wf (st0 tx) -> priced_ok st0 s ->
  ends (heap_Push w tx) s (fun _ s' => priced_ok st0 s' /\ heap_list w s' ≡ₚ tx :: heap_list w s /\ heap_list (other w) s' = heap_list (other w) s).
Proof.
  intros Htx H. apply (on_heap_ends w _ (fun _ l => l ≡ₚ tx :: heap_list w s)); [done|]. intros fee s0 Hf Hs.
  destruct (container.Push_sound (Snd := price_sound fee st0 Hf) tx s0 _ Htx Hs) as (s1 & l1 & E & H1 & Hp). by exists (), s1, l1.
Qed.

Lemma heap_Pop_ends w x l st0 s : heap_list w s = x :: l -> priced_ok st0 s ->
  ends (heap_Pop w) s (fun tx s' => tx = x /\ priced_ok st0 s' /\ heap_list w s' ≡ₚ l /\ heap_list (other w) s' = heap_list (other w) s).
Proof.
  intros El H. call (apply (on_heap_ends w _ (fun tx l' => tx = x /\ l' ≡ₚ l) st0); [done|]); [|intros tx s'; tauto].
  intros fee s0 Hf Hs. rewrite El in Hs. destruct (container.Pop_sound (Snd := price_sound fee st0 Hf) s0 x l Hs) as (s1 & l1 & E & H1 & Hp).
  by exists x, s1, l1.
Qed.

Lemma heap_Init_ends w st0 s : priced_ok st0 s ->
  ends (heap_Init w) s (fun _ s' => priced_ok st0 s' /\ heap_list w s' ≡ₚ heap_list w s /\ heap_list (other w) s' = heap_list (other w) s).
Proof.
  intros H. apply (on_heap_ends w _ (fun _ l => l ≡ₚ heap_list w s)); [done|]. intros fee s0 Hf Hs.
  destruct (container.Init_sound (Snd := price_sound fee st0 Hf) s0 _ Hs) as (s1 & l1 & E & H1 & Hp). by exists (), s1, l1.
Qed.

Lemma Put_ends tx local st0 s : fees_wf (st0 tx) -> priced_ok st0 s -> ends (Put tx local) s (fun _ s' => priced_ok st0 s').
Proof. intros Htx H. unfold Put. destruct local; [by go|]. call by apply heap_Push_ends. tauto. Qed.

Lemma move_floating_ends count l st0 : forall s, priced_ok st0 s -> (count <= length (heap_list Urgent s))%nat -> Forall (fun p => fees_wf (st0 p)) l ->
  ends (move_floating count l) s (fun l' s' => priced_ok st0 s' /\ Forall (fun p => fees_wf (st0 p)) l').
Proof.
  revert l. induction count as [|count IH]; intros l s H Hc Hl; cbn [move_floating]; [by go|]. go.
  destruct (heap_list Urgent s) as [|x u] eqn:E; [cbn in Hc; lia|]. call (by apply (heap_Pop_ends Urgent x u st0)). intros tx s1 (-> & H1 & Hp & _).
  apply IH; [done|rewrite Hp; cbn in Hc; lia|]. apply Forall_app. split; [done|]. apply list.Forall_singleton.
  pose proof (po_fees _ _ H Urgent) as Hf. rewrite E in Hf. by inversion Hf.
Qed.

Definition remotes_ok (st0 : Store) (a : txLookup.Lookup) : Prop := forall h t, txLookup.remotes a !! h = Some t -> fees_wf (st0 t).

Lemma set_list_ok w l st0 s : priced_ok st0 s -> Forall (fun p => fees_wf (st0 p)) l -> priced_ok st0 (set_list w l s).
Proof. intros [H1 H2 H3] Hl. split; [done| |]; intros w'; specialize (H2 w'); specialize (H3 w'); by destruct w, w'. Qed.

Lemma heap_list_set_list w l s : heap_list w (set_list w l s) = l.
Proof. by destruct w. Qed.

Lemma Reheap_ends a st0 s : remotes_ok st0 a -> priced_ok st0 s -> ends (Reheap iter a) s (fun _ s' => priced_ok st0 s').
Proof.
  intros Ha H. unfold Reheap. go.
  set (s1 := set_list Urgent _ _). assert (H1 : priced_ok st0 s1).
  { apply set_list_ok; [by destruct H|]. apply list.Forall_forall. intros t Ht. rewrite iter_perm in Ht. apply list_elem_of_fmap in Ht as ([h t'] & -> & Hin).
    apply elem_of_map_to_list in Hin. by eapply Ha. }
  call by apply heap_Init_ends. intros _ s2 (H2 & Hp & _). go.
  call (apply move_floating_ends; [done| |constructor]).
  { unfold floatingRatio, urgentRatio. apply Nat.Div0.div_le_upper_bound. lia. }
  intros l s3 [H3 Hl]. go. call (apply heap_Init_ends; by apply set_list_ok). tauto.
Qed.

Lemma add_stales_ok n st0 s : priced_ok st0 s -> priced_ok st0 (add_stales n s).
Proof. intros [H1 H2 H3]. split; [done| |]; intros w; specialize (H2 w); specialize (H3 w); by destruct w. Qed.

Lemma heap_list_add_stales w n s : heap_list w (add_stales n s) = heap_list w s.
Proof. by destruct w. Qed.

Lemma Removed_ends a n st0 s : remotes_ok st0 a -> priced_ok st0 s -> ends (Removed iter a n) s (fun _ s' => priced_ok st0 s').
Proof.
  intros Ha H. unfold Removed. go. pose proof (add_stales_ok n _ _ H). destruct (_ <=? _); [by go|]. by apply Reheap_ends.
Qed.

Lemma SetBaseFee_ends a fee st0 s : word fee -> remotes_ok st0 a -> priced_ok st0 s -> ends (SetBaseFee iter a fee) s (fun _ s' => priced_ok st0 s').
Proof.
  intros Hf Ha [H1 H2 H3]. unfold SetBaseFee. go. apply Reheap_ends; [done|]. split; [done| |].
  - intros w. specialize (H2 w). by destruct w.
  - intros w. specialize (H3 w). destruct w; [by intros f [= <-]|done].
Qed.

(** ** Underpriced transactions *)

Context (Hash : Ptr -> Z).

Lemma drop_stale_ends fuel a w st0 : forall s, priced_ok st0 s -> (length (heap_list w s) < fuel)%nat ->
  ends (drop_stale Hash fuel a w) s (fun _ s' => priced_ok st0 s').
Proof.
  induction fuel as [|fuel IH]; intros s H Hf; [lia|]. cbn [drop_stale]. go. destruct (heap_list w s) as [|x l] eqn:E; [by go|].
  destruct (txLookup.GetRemote _ _); [by go|]. go. pose proof (add_stales_ok (-1) _ _ H) as H'.
  call (apply (heap_Pop_ends w x l st0); [by rewrite heap_list_add_stales|done]). intros tx s1 (_ & H1 & Hp & _). apply IH; [done|]. rewrite Hp. cbn in Hf. lia.
Qed.

Lemma underpricedFor_ends a w tx st0 s : fees_wf (st0 tx) -> priced_ok st0 s -> ends (underpricedFor Hash a w tx) s (fun _ s' => priced_ok st0 s').
Proof.
  intros Htx H. unfold underpricedFor. go. call (apply drop_stale_ends; [done|lia]). intros _ s1 H1. go.
  destruct (heap_list w s1) as [|x l] eqn:E; [by go|]. go. apply ends_zoom. pose proof H1 as [K1 K2 K3].
  assert (Hx : fees_wf (st0 x)) by (specialize (K2 w); rewrite E in K2; by inversion K2).
  call (apply cmp_ends; [apply K3|eauto using sim_fees|eauto using sim_fees]). intros c st1 Hs. go. split; cbn; [by transitivity (store s1)|done|done].
Qed.

Lemma Underpriced_ends a tx st0 s : fees_wf (st0 tx) -> priced_ok st0 s -> ends (Underpriced Hash a tx) s (fun _ s' => priced_ok st0 s').
Proof.
  intros Htx H. unfold Underpriced. go. call by apply underpricedFor_ends. intros b1 s1 H1. go. destruct (negb _); [by go|]. go.
  call by apply underpricedFor_ends. intros b2 s2 H2. go. destruct (negb _); by go.
Qed.

(** ** Eviction *)

(** Only remote transactions are evicted. *)
Notation remote a := (fun tx => txLookup.GetRemote (Hash tx) a <> None).

Lemma discard_loop_ends fuel a st0 : forall s slots drop, priced_ok st0 s ->
  (2 * length (heap_list Urgent s) + length (heap_list Floating s) < fuel)%nat ->
  Forall (fun p => fees_wf (st0 p)) drop -> Forall (remote a) drop ->
  ends (discard_loop Hash fuel a slots drop) s (fun '(slots', drop') s' => priced_ok st0 s' /\ slots' + zlen drop' = slots + zlen drop /\
    Forall (fun p => fees_wf (st0 p)) drop' /\ Forall (remote a) drop').
Proof.
  induction fuel as [|fuel IH]; intros s slots drop H Hf Hd Hr; [lia|]. cbn [discard_loop]. destruct (slots <=? 0); [by go|]. go.
  unfold floatingRatio, urgentRatio. cbn [Nat.eqb]. rewrite orb_false_r. destruct (Nat.ltb_spec (length (heap_list Floating s) * 4) (length (heap_list Urgent s) * 1)) as [Hlt|Hge].
  - destruct (heap_list Urgent s) as [|x u] eqn:Eu; [cbn in Hlt; lia|]. cbn in Hf. go. call (by apply (heap_Pop_ends Urgent x u st0)).
    intros tx s1 (-> & H1 & Hp & Ho). cbn in Ho. assert (Hx : fees_wf (st0 x)) by (pose proof (po_fees _ _ H Urgent) as K; rewrite Eu in K; by inversion K).
    destruct (txLookup.GetRemote (Hash x) a); go.
    + call by apply heap_Push_ends. intros _ s2 (H2 & Hp2 & Ho2). cbn in Ho2. apply IH; [done| |done|done]. rewrite Ho2, Hp, Hp2, Ho. cbn. lia.
    + apply IH; [by apply add_stales_ok| |done|done]. rewrite !heap_list_add_stales, Hp, Ho. lia.
  - destruct (Nat.eqb_spec (length (heap_list Floating s)) 0) as [|Hne]; [by go|]. destruct (heap_list Floating s) as [|x u] eqn:Eu; [done|]. cbn in Hf. go.
    call (by apply (heap_Pop_ends Floating x u st0)). intros tx s1 (-> & H1 & Hp & Ho). cbn in Ho.
    assert (Hx : fees_wf (st0 x)) by (pose proof (po_fees _ _ H Floating) as K; rewrite Eu in K; by inversion K).
    destruct (txLookup.GetRemote (Hash x) a) eqn:Er; go.
    + call (apply IH; [done|rewrite Hp, Ho; lia|apply Forall_app; split; [done|by apply list.Forall_singleton]|apply Forall_app; split; [done|apply list.Forall_singleton; by rewrite Er]]).
      intros [slots' drop'] s2 (K1 & K2 & K3). split; [done|]. split; [|done]. rewrite K2, zlen_app. change (txLookup.numSlots x) with 1. change (zlen [x]) with 1. lia.
    + apply IH; [by apply add_stales_ok| |done|done]. rewrite !heap_list_add_stales, Hp, Ho. lia.
Qed.

Lemma push_back_ends drop st0 s : priced_ok st0 s -> Forall (fun p => fees_wf (st0 p)) drop -> ends (for_each (heap_Push Urgent) drop) s (fun _ s' => priced_ok st0 s').
Proof.
  intros H Hd. call (apply (ends_for_each _ (fun l s => priced_ok st0 s /\ Forall (fun p => fees_wf (st0 p)) l)); [done|]); [|tauto].
  intros x l s1 [H1 Hl]. inversion Hl; subst. call by apply heap_Push_ends. tauto.
Qed.

(** The room is made, or nothing is evicted. *)
Lemma Discard_ends a slots force st0 s : 0 <= slots -> priced_ok st0 s ->
  ends (Discard Hash a slots force) s (fun '(drop, ok) s' => priced_ok st0 s' /\ Forall (remote a) drop /\
    (ok = false -> drop = []) /\ (ok = true -> force = false -> slots <= zlen drop)).
Proof.
  intros Hs H. unfold Discard. destruct (Z.ltb_spec slots 0); [lia|]. go. call (apply discard_loop_ends; [done|lia|constructor|constructor]).
  intros [slots' drop] s1 (H1 & E & Hd & Hr). change (zlen []) with 0 in E. destruct (Z.ltb_spec 0 slots') as [Hlt|Hge]; cbn [andb].
  - destruct force; cbn [negb]; [by go; split_and!|]. go. call by apply push_back_ends. intros _ s2 H2. go. split_and!; [done|constructor|done|done].
  - go. split_and!; [done|done|done|]. intros _ _. lia.
Qed.
End Prices.
