(* ===== verification/TxPoolBase.v ===== *)
(** * The invariant of the transaction pool

    The pool stands for the transactions of its accounts, sorted by nonce: [P] the
    pending ones, [Q] the queued ones; [X] are those the lookup knows.  No nonce of an
    account is both pending and queued.  Between operations [X] is the union of [P] and
    [Q]; inside them a transaction may be in the lookup only, or in a list only. *)

From stdpp Require Import sorting.
From S2P Require Import Prelude Uint256 Wire Transaction Heap TxList TxListTheorems TxLookup TxPriced Ends TxPricedTheorems TxPool.
Import TxsPoolConfig.

(** ** Transactions *)

Definition is_address (p : Ptr) : Prop := (p < 2 ^ 48)%N.

(** A transaction with its pointers set, at an address of the machine; no account can
    use the largest nonce (EIP-2681). *)
Record good (st : Store) (p : Ptr) : Prop := {
  g_wf : tx_wf (V := st) p;
  g_from : is_Some (tx_From (st p));
  g_addr : is_address p;
  g_nonce : tx_Nonce (st p) < two64 - 1
}.

Lemma wf_fees (st : Store) p : tx_wf (V := st) p -> fees_wf (st p).
Proof. intros H. split; [apply (wf_price _ H)|apply (wf_tip _ H)]. Qed.

Lemma sim_wf st st' p : sim st st' -> tx_wf (V := st) p -> tx_wf (V := st') p.
Proof.
  intros Hs H. pose proof (Hs p) as [H1 H2 H3 H4 H5]. destruct (H5 (wf_fees _ _ H)) as [Hp Ht]. split; [exact Hp|exact Ht| | |].
  - unfold Tx.Value, view. rewrite H4. apply H.
  - unfold Tx.Gas, view. rewrite H3. apply H.
  - unfold Tx.Nonce, view. rewrite H1. apply H.
Qed.

Lemma sim_good st st' p : sim st st' -> good st p -> good st' p.
Proof. intros Hs [H1 H2 H3 H4]. split; [by eapply sim_wf|by rewrite (st_from _ _ (Hs p))|done|by rewrite (st_nonce _ _ (Hs p))]. Qed.

Lemma good_sender st p : good st p -> exists a, tx_From (st p) = Some a /\ sender st p = Done a.
Proof. intros [_ [a E] _ _]. exists a. unfold sender. by rewrite E. Qed.

(** ** The lists of the accounts *)

Definition txs_at (f : gmap Z (list Ptr)) (a : Z) : list Ptr := default [] (f !! a).

Definition held (b : bool) (st : Store) (a : Z) (l : PoolList) (ts : list Ptr) : Prop :=
  txsList.strict l = b /\ list_wf (V := st) l ts /\ Forall (fun t => good st t /\ tx_From (st t) = Some a) ts.

Definition reps (b : bool) (st : Store) (m : gmap Z PoolList) (f : gmap Z (list Ptr)) : Prop := forall a, option_Forall2 (held b st a) (m !! a) (f !! a).

Lemma reps_insert b st m f a l ts : reps b st m f -> held b st a l ts -> reps b st (<[a := l]> m) (<[a := ts]> f).
Proof.
  intros H Hl a'. destruct (decide (a = a')) as [<-|Hne]; [rewrite !lookup_insert_eq; by constructor|]. rewrite !lookup_insert_ne by done. apply H.
Qed.

Lemma reps_delete b st m f a : reps b st m f -> reps b st (delete a m) (delete a f).
Proof.
  intros H a'. destruct (decide (a = a')) as [<-|Hne]; [rewrite !lookup_delete_eq; constructor|]. rewrite !lookup_delete_ne by done. apply H.
Qed.

Lemma reps_Some b st m f a l : reps b st m f -> m !! a = Some l -> exists ts, f !! a = Some ts /\ held b st a l ts.
Proof. intros H E. specialize (H a). rewrite E in H. inversion H as [? ts Hh E1 E2|]; subst. by exists ts. Qed.

Lemma reps_Some_2 b st m f a ts : reps b st m f -> f !! a = Some ts -> exists l, m !! a = Some l /\ held b st a l ts.
Proof. intros H E. specialize (H a). rewrite E in H. inversion H as [l ? Hh E1 E2|]; subst. by exists l. Qed.

Lemma reps_None b st m f a : reps b st m f -> m !! a = None <-> f !! a = None.
Proof. intros H. specialize (H a). by destruct H. Qed.

Lemma held_sim b st st' a l ts : sim st st' -> held b st a l ts -> held b st' a l ts.
Proof.
  intros Hs (H1 & [H2 H3 H4] & H5). split_and!; [done| |].
  - split; [|eapply list.Forall_impl; [exact H3|]; intros t; by apply sim_wf|done].
    eapply repr_view; [|exact H2]. intros t. apply (st_nonce _ _ (Hs t)).
  - eapply list.Forall_impl; [exact H5|]. intros t [Hg Hf]. split; [by eapply sim_good|]. by rewrite (st_from _ _ (Hs t)).
Qed.

Lemma reps_sim b st st' m f : sim st st' -> reps b st m f -> reps b st' m f.
Proof. intros Hs H a. destruct (H a); constructor. by eapply held_sim. Qed.

Lemma reps_empty b st : reps b st ∅ ∅.
Proof. intros a. rewrite !lookup_empty. constructor. Qed.

Lemma held_good b st a l ts t : held b st a l ts -> t ∈ ts -> good st t /\ tx_From (st t) = Some a.
Proof. intros (_ & _ & H) Ht. rewrite list.Forall_forall in H. by apply H. Qed.

Lemma reps_at_good b st m f a t : reps b st m f -> t ∈ txs_at f a -> good st t /\ tx_From (st t) = Some a.
Proof.
  intros H Ht. unfold txs_at in Ht. destruct (f !! a) as [ts|] eqn:E; [|by apply elem_of_nil in Ht].
  destruct (reps_Some_2 _ _ _ _ _ _ H E) as (l & _ & Hh). by eapply held_good.
Qed.

Lemma txs_at_insert f a ts a' : txs_at (<[a := ts]> f) a' = if decide (a = a') then ts else txs_at f a'.
Proof. unfold txs_at. case_decide as E; [subst; by rewrite lookup_insert_eq|by rewrite lookup_insert_ne]. Qed.

Lemma txs_at_delete f a a' : txs_at (delete a f) a' = if decide (a = a') then [] else txs_at f a'.
Proof. unfold txs_at. case_decide as E; [subst; by rewrite lookup_delete_eq|by rewrite lookup_delete_ne]. Qed.

Lemma reps_sorted b st m f a : reps b st m f -> ascending (V := st) (txs_at f a).
Proof.
  intros H. unfold txs_at. destruct (f !! a) as [ts|] eqn:E; [|constructor].
  destruct (reps_Some_2 _ _ _ _ _ _ H E) as (l & _ & _ & Hl & _). by eapply list_wf_sorted.
Qed.

(** ** The lookup *)

Section Lookup.
Context (Hash : Ptr -> Z).

Record all_ok (st : Store) (a : txLookup.Lookup) (X : gset Ptr) : Prop := {
  ao_get h t : txLookup.Get h a = Some t <-> Hash t = h /\ t ∈ X;
  ao_disj : txLookup.locals a ##ₘ txLookup.remotes a;
  ao_slots : txLookup.slots a = Z.of_nat (size X);
  ao_good t : t ∈ X -> good st t
}.

Lemma all_ok_sim st st' a X : sim st st' -> all_ok st a X -> all_ok st' a X.
Proof. intros Hs [H1 H2 H3 H4]. split; [done|done|done|]. intros t Ht. eapply sim_good; eauto. Qed.

Lemma ao_inj st a X t t' : all_ok st a X -> t ∈ X -> t' ∈ X -> Hash t = Hash t' -> t = t'.
Proof.
  intros H Ht Ht' E. assert (E1 : txLookup.Get (Hash t) a = Some t) by by apply (ao_get _ _ _ H).
  assert (E2 : txLookup.Get (Hash t) a = Some t') by by apply (ao_get _ _ _ H). congruence.
Qed.

Lemma ao_remotes st a X : all_ok st a X -> remotes_ok st a.
Proof.
  intros H h t E. apply wf_fees. apply (ao_good _ _ _ H). assert (E1 : txLookup.Get h a = Some t).
  { unfold txLookup.Get. pose proof (map_disjoint_Some_r _ _ _ _ (ao_disj _ _ _ H) E) as ->. done. }
  by apply (ao_get _ _ _ H) in E1 as [_ ?].
Qed.

Lemma all_ok_new st : all_ok st txLookup.newTxLookup ∅.
Proof. split; [|apply map_disjoint_empty_l|done|set_solver]. intros h t. cbn. set_solver. Qed.

Lemma Get_union h a : txLookup.Get h a = (txLookup.locals a ∪ txLookup.remotes a) !! h.
Proof. unfold txLookup.Get. rewrite lookup_union. by destruct (txLookup.locals a !! h), (txLookup.remotes a !! h). Qed.

Lemma all_ok_Remove st a X t : all_ok st a X -> t ∈ X -> all_ok st (txLookup.Remove (Hash t) a) (X ∖ {[t]}).
Proof.
  intros H Ht. assert (E : txLookup.Get (Hash t) a = Some t) by by apply (ao_get _ _ _ H).
  unfold txLookup.Remove. fold (txLookup.Get (Hash t) a). rewrite E. split.
  - intros h t'. rewrite Get_union. cbn. rewrite <- delete_union, lookup_delete_Some, <- Get_union, (ao_get _ _ _ H), elem_of_difference, elem_of_singleton.
    split; [intros (Hne & <- & Hx); split_and!; try done; congruence|]. intros (<- & Hx & Hne). split_and!; try done.
    intros Eh. apply Hne. by apply (ao_inj _ _ _ _ _ H).
  - cbn. apply map_disjoint_delete_l, map_disjoint_delete_r, (ao_disj _ _ _ H).
  - cbn. rewrite (ao_slots _ _ _ H). change (txLookup.numSlots t) with 1. rewrite size_difference by set_solver. rewrite size_singleton.
    assert (size X <> 0)%nat by (apply size_non_empty_iff; set_solver). lia.
  - intros t' Ht'. apply (ao_good _ _ _ H). set_solver.
Qed.

Lemma all_ok_Add st a X t local : all_ok st a X -> good st t -> (forall t', t' ∈ X -> Hash t' <> Hash t) ->
  all_ok st (txLookup.Add Hash t local a) ({[t]} ∪ X).
Proof.
  intros H Hg Hn. assert (E : txLookup.Get (Hash t) a = None).
  { destruct (txLookup.Get (Hash t) a) as [t'|] eqn:E; [|done]. apply (ao_get _ _ _ H) in E as [E Ht']. by apply Hn in E. }
  assert (El : txLookup.locals a !! Hash t = None /\ txLookup.remotes a !! Hash t = None).
  { unfold txLookup.Get in E. by destruct (txLookup.locals a !! Hash t). }
  assert (Hx : t ∉ X) by (intros Hx; by apply (Hn t Hx)).
  split.
  - intros h t'. rewrite Get_union. assert (txLookup.locals (txLookup.Add Hash t local a) ∪ txLookup.remotes (txLookup.Add Hash t local a) =
      <[Hash t := t]> (txLookup.locals a ∪ txLookup.remotes a)) as ->.
    { destruct local; cbn; [by rewrite insert_union_l|]. rewrite insert_union_r; [done|]. apply El. }
    rewrite lookup_insert_Some, <- Get_union, (ao_get _ _ _ H), elem_of_union, elem_of_singleton.
    split; [intros [[<- <-]|(Hne & <- & Hx')]; tauto|]. intros (<- & [->|Hx']); [by left|]. right. split; [|done]. intros Eh. by apply (Hn t' Hx').
  - destruct local; cbn; [apply map_disjoint_insert_l|apply map_disjoint_insert_r]; (split; [apply El|apply (ao_disj _ _ _ H)]).
  - rewrite size_union by set_solver. rewrite size_singleton. destruct local; cbn; rewrite (ao_slots _ _ _ H); change (txLookup.numSlots t) with 1; lia.
  - intros t' [->%elem_of_singleton|Ht']%elem_of_union; [done|by apply (ao_good _ _ _ H)].
Qed.

(** Moving a transaction from the remote ones to the local ones. *)
Lemma all_ok_move st a X h t : all_ok st a X -> txLookup.remotes a !! h = Some t ->
  all_ok st (txLookup.mkLookup (txLookup.slots a) (<[h := t]> (txLookup.locals a)) (delete h (txLookup.remotes a))) X.
Proof.
  intros [H1 H2 H3 H4] E. pose proof (map_disjoint_Some_r _ _ _ _ H2 E) as El. split; [| |done|done].
  - intros h' t'. rewrite <- H1, !Get_union. cbn. assert (<[h := t]> (txLookup.locals a) ∪ delete h (txLookup.remotes a) = txLookup.locals a ∪ txLookup.remotes a) as ->; [|done].
    apply map_eq. intros i. rewrite !lookup_union. destruct (decide (h = i)) as [<-|Hne]; [by rewrite lookup_insert_eq, lookup_delete_eq, El, E|].
    by rewrite lookup_insert_ne, lookup_delete_ne.
  - cbn. apply map_disjoint_insert_l. split; [apply lookup_delete_eq|by apply map_disjoint_delete_r].
Qed.

Lemma migrate_ends st accts X entries : forall n a, all_ok st a X -> NoDup entries.*1 -> (forall h t, (h, t) ∈ entries -> txLookup.remotes a !! h = Some t) ->
  ends (txLookup.migrate st accts entries n) a (fun _ a' => all_ok st a' X).
Proof.
  induction entries as [|[h t] entries IH]; intros n a H Hnd Hin; cbn [txLookup.migrate]; [by go|]. cbn in Hnd. apply list.NoDup_cons in Hnd as [Hh Hnd].
  assert (Et : txLookup.remotes a !! h = Some t) by (apply Hin, list.elem_of_cons; by left).
  assert (Ht : good st t). { apply (ao_good _ _ _ H). pose proof (map_disjoint_Some_r _ _ _ _ (ao_disj _ _ _ H) Et) as El.
    assert (E1 : txLookup.Get h a = Some t) by (unfold txLookup.Get; by rewrite El). by apply (ao_get _ _ _ H) in E1 as [_ ?]. }
  assert (Hrest : forall h' t', (h', t') ∈ entries -> txLookup.remotes a !! h' = Some t') by (intros; apply Hin, list.elem_of_cons; by right).
  destruct (good_sender st t Ht) as (from & _ & Es). go. eapply ends_outcome; [unfold accountSet.containsTx; by rewrite Es|]. cbv beta.
  destruct (accountSet.contains from accts); [|by apply IH]. go. apply IH; [by apply all_ok_move|done|].
  intros h' t' Hin'. cbn. rewrite lookup_delete_ne; [by apply Hrest|]. intros ->. apply Hh. apply list_elem_of_fmap. by exists (h', t').
Qed.

Lemma RemoteToLocals_ends iter st accts X a : (forall A (l : list A), iter A l ≡ₚ l) -> all_ok st a X ->
  ends (txLookup.RemoteToLocals iter st accts) a (fun _ a' => all_ok st a' X).
Proof.
  intros Hi H. unfold txLookup.RemoteToLocals. go. apply migrate_ends; [done|rewrite Hi; apply NoDup_fst_map_to_list|].
  intros h t. rewrite Hi. by rewrite elem_of_map_to_list.
Qed.
End Lookup.

(** ** The pool *)

Definition state_ok (cs : ChainState) : Prop := forall a, 0 <= GetNonce cs a < two64 /\ word (GetBalance cs a).

(** ** Nonces *)

(** The next nonce of an account as the pool reports it. *)
Definition next_nonce (n : txNoncer.Noncer) (a : Z) : Z := default (GetNonce (txNoncer.fallback n) a) (txNoncer.nonces n !! a).

Lemma next_nonce_fill n a a' : next_nonce (txNoncer.fill a n) a' = next_nonce n a' /\ txNoncer.fallback (txNoncer.fill a n) = txNoncer.fallback n.
Proof.
  unfold next_nonce, txNoncer.fill. destruct (txNoncer.nonces n !! a) eqn:E; [done|]. cbn. split; [|done].
  destruct (decide (a = a')) as [<-|Hne]; [by rewrite lookup_insert_eq, E|by rewrite lookup_insert_ne].
Qed.

Lemma next_nonce_set n a v a' : next_nonce (txNoncer.set a v n) a' = if decide (a = a') then v else next_nonce n a'.
Proof. unfold next_nonce. cbn. case_decide as E; [subst; by rewrite lookup_insert_eq|by rewrite lookup_insert_ne]. Qed.

Lemma next_nonce_lower n a v a' : next_nonce (txNoncer.setIfLower a v n) a' = if decide (a = a') then Z.min (next_nonce n a) v else next_nonce n a'.
Proof.
  unfold txNoncer.setIfLower. destruct (next_nonce_fill n a a) as [E1 _], (next_nonce_fill n a a') as [E2 _].
  assert (E : default 0 (txNoncer.nonces (txNoncer.fill a n) !! a) = next_nonce n a).
  { unfold txNoncer.fill, next_nonce. destruct (txNoncer.nonces n !! a) eqn:E; [by rewrite E|]. cbn. by rewrite lookup_insert_eq. }
  rewrite E. destruct (Z.leb_spec (next_nonce n a) v); [rewrite E2|rewrite next_nonce_set, E2]; case_decide; subst; lia.
Qed.

Lemma fallback_lower n a v : txNoncer.fallback (txNoncer.setIfLower a v n) = txNoncer.fallback n.
Proof. unfold txNoncer.setIfLower. destruct (next_nonce_fill n a a) as [_ E]. by destruct (_ <=? _); cbn. Qed.

Lemma noncer_get_ends a n : ends (txNoncer.get a) n (fun r n' => r = next_nonce n a /\ n' = txNoncer.fill a n).
Proof.
  unfold txNoncer.get. go. split; [|done]. unfold txNoncer.fill, next_nonce. destruct (txNoncer.nonces n !! a) eqn:E; [by rewrite E|]. cbn. by rewrite lookup_insert_eq.
Qed.

(** The nonces from [s] on are those below an end, which the next nonce does not exceed;
    if [exact], it is the end, and there are no others. *)
Definition chain_at (exact : bool) (s next : Z) (ns : list Z) : Prop :=
  exists e, s <= e /\ (forall n, s <= n -> n ∈ ns <-> n < e) /\ next <= e /\ (exact = true -> next = e /\ forall n, n ∈ ns -> s <= n).

(** A prefix of the nonces. *)
Lemma chain_at_below exact s next ns ns' n : chain_at exact s next ns -> n ∈ ns -> (forall m, m ∈ ns' <-> m ∈ ns /\ m < n) ->
  chain_at exact s (Z.min next n) ns'.
Proof.
  intros (e & H1 & H2 & H3 & H4) Hn Hns. exists (Z.max s (Z.min e n)). split_and!; [lia| |lia|].
  - intros m Hm. rewrite Hns, H2 by done. lia.
  - intros Ex. destruct (H4 Ex) as [-> H5]. pose proof (H5 n Hn). split; [apply H2 in Hn; lia|]. intros m [Hm _]%Hns. by apply H5.
Qed.

Lemma chain_at_ext exact s next ns ns' : (forall m, m ∈ ns' <-> m ∈ ns) -> chain_at exact s next ns -> chain_at exact s next ns'.
Proof.
  intros Hns (e & H1 & H2 & H3 & H4). exists e. split_and!; [done|intros n Hn; rewrite Hns; by apply H2|done|]. intros Ex. destruct (H4 Ex) as [-> H5].
  split; [done|]. intros n Hn%Hns. by apply H5.
Qed.

Section Pool.
Context {U : Uint256} {UL : Uint256Laws U}.
Context (iter : forall A : Type, list A -> list A) (iter_perm : forall A (l : list A), iter A l ≡ₚ l) (Hash : Ptr -> Z) (Now : nat -> Z).

Notation nonce p t := (tx_Nonce (txs_store p t)).

Definition priced_state (p : TxsPool) : txPricedList.PricedState := txPricedList.mkState (txs_store p) (priced p).

Record pool_ok (p : TxsPool) (P Q : gmap Z (list Ptr)) (X : gset Ptr) : Prop := {
  pk_pending : reps true (txs_store p) (pending p) P;
  pk_queue : reps false (txs_store p) (queue p) Q;
  pk_disjoint a x y : x ∈ txs_at P a -> y ∈ txs_at Q a -> nonce p x <> nonce p y;
  pk_priced : priced_ok (txs_store p) (priced_state p);
  pk_state : state_ok (currentState p);
  pk_all : all_ok Hash (txs_store p) (all p) X;
  pk_events : Forall (good (txs_store p)) (queueTxEventCh p)
}.

(** What an operation on transactions leaves as it is. *)
Record keeps (p p' : TxsPool) : Prop := {
  kp_sim : sim (txs_store p) (txs_store p');
  kp_state : currentState p' = currentState p;
  kp_maxGas : currentMaxGas p' = currentMaxGas p;
  kp_locals : locals p' = locals p
}.

#[global] Instance keeps_preorder : PreOrder keeps.
Proof.
  split; [intros p; by split|]. intros a b c [H1 H2 H3 H4] [K1 K2 K3 K4]. split; [by etransitivity|congruence..].
Qed.

Lemma keeps_nonce p p' t : keeps p p' -> nonce p' t = nonce p t.
Proof. intros H. apply (st_nonce _ _ (kp_sim _ _ H t)). Qed.

(** A change of the fees of transactions by the heaps. *)
Lemma priced_rebase st s : priced_ok st s -> priced_ok (txPricedList.store s) s.
Proof. intros [H1 H2 H3]. split; [done| |done]. intros w. eapply list.Forall_impl; [apply H2|]. intros t. by apply sim_fees. Qed.

Lemma set_priced_ok s p P Q X : pool_ok p P Q X -> priced_ok (txs_store p) s -> pool_ok (set_priced s p) P Q X /\ keeps p (set_priced s p).
Proof.
  intros [H1 H2 H3 H4 H5 H6 H7] Hs. pose proof (po_sim _ _ Hs) as Hsim. split; [|by split].
  split; cbn; [by eapply reps_sim|by eapply reps_sim| |by apply priced_rebase in Hs; destruct s|done|by eapply all_ok_sim|eapply list.Forall_impl; [exact H7|]; intros t; by apply sim_good].
  intros a x y Hx Hy. rewrite (st_nonce _ _ (Hsim x)), (st_nonce _ _ (Hsim y)). by eapply H3.
Qed.

(** Operations of the priced list. *)
Lemma on_priced_ends {A} (op : M txPricedList.PricedState A) p P Q X (R : A -> Prop) : pool_ok p P Q X ->
  ends op (priced_state p) (fun a s => priced_ok (txs_store p) s /\ R a) ->
  ends (on_priced op) p (fun a p' => exists s, p' = set_priced s p /\ pool_ok p' P Q X /\ keeps p p' /\ R a).
Proof.
  intros H Hop. unfold on_priced. apply ends_zoom. call apply Hop. intros a s [Hs HR]. exists s. split; [done|].
  destruct (set_priced_ok s p P Q X H Hs). done.
Qed.

Lemma priced_Removed_ends n p P Q X : pool_ok p P Q X ->
  ends (priced_Removed iter n) p (fun _ p' => exists s, p' = set_priced s p /\ pool_ok p' P Q X /\ keeps p p').
Proof.
  intros H. unfold priced_Removed. go. call (apply (on_priced_ends _ p P Q X (fun _ => True)); [done|]).
  - call (apply (Removed_ends iter iter_perm); [exact (ao_remotes _ _ _ _ (pk_all _ _ _ _ H))|exact (pk_priced _ _ _ _ H)]). done.
  - intros _ p' (s & E & H1 & H2 & _). by exists s.
Qed.

Lemma set_all_ok a p P Q X X' : pool_ok p P Q X -> all_ok Hash (txs_store p) a X' -> pool_ok (set_all a p) P Q X'.
Proof. by intros [H1 H2 H3 H4 H5 H6 H7] Ha. Qed.

Lemma set_all_keeps a p : keeps p (set_all a p).
Proof. by split. Qed.

Lemma all_Remove_ends t p P Q X : pool_ok p P Q X -> t ∈ X -> ends (all_Remove (Hash t)) p (fun _ p' =>
  exists a, p' = set_all a p /\ pool_ok p' P Q (X ∖ {[t]})).
Proof.
  intros H Ht. unfold all_Remove. go. eexists. split; [done|]. eapply set_all_ok; [done|]. apply all_ok_Remove; [apply H|done].
Qed.

Lemma from_of_ends t p a : good (txs_store p) t -> tx_From (txs_store p t) = Some a -> ends (from_of t) p (fun r p' => r = a /\ p' = p).
Proof. intros Hg E. unfold from_of. go. eapply ends_outcome; [unfold sender; by rewrite E|]. done. Qed.
End Pool.
