(* ===== verification/TxPoolOps.v ===== *)
(** * Single transactions of the pool

    What the operations on one transaction do to the lists and the lookup: enqueue,
    promote, remove, add. *)

From stdpp Require Import sorting.
From S2P Require Import Prelude Uint256 Wire Transaction Heap TxList TxListTheorems TxLookup TxPriced Ends TxPricedTheorems TxPool TxPoolBase.
Import TxsPoolConfig.

Section Ops.
Context {U : Uint256} {UL : Uint256Laws U}.
Context (iter : forall A : Type, list A -> list A) (iter_perm : forall A (l : list A), iter A l ≡ₚ l) (Hash : Ptr -> Z) (Now : nat -> Z).
Context (config : Config).
Notation nonce p t := (tx_Nonce (txs_store p t)).
Notation pool_ok := (pool_ok Hash).
Notation items p ts := (items_of (V := txs_store p) ts).
Notation insert_tx p t ts := (sl_insert (V := txs_store p) t ts).

(** ** Lists in place *)

Lemma set_pending_ok m p P P' Q X : pool_ok p P Q X -> reps true (txs_store p) m P' ->
  (forall a x y, x ∈ txs_at P' a -> y ∈ txs_at Q a -> nonce p x <> nonce p y) -> pool_ok (set_pending m p) P' Q X.
Proof. by intros [H1 H2 H3 H4 H5 H6] Hm Hd. Qed.

Lemma set_queue_ok m p P Q Q' X : pool_ok p P Q X -> reps false (txs_store p) m Q' ->
  (forall a x y, x ∈ txs_at P a -> y ∈ txs_at Q' a -> nonce p x <> nonce p y) -> pool_ok (set_queue m p) P Q' X.
Proof. by intros [H1 H2 H3 H4 H5 H6] Hm Hd. Qed.

Lemma on_pending_ends {A} a (op : TxView Ptr -> M PoolList A) p P Q X ts (R : A -> list Ptr -> Prop) : pool_ok p P Q X -> P !! a = Some ts ->
  (forall l, held true (txs_store p) a l ts -> exists r l' ts', op (txs_store p) l = Done (r, l') /\ held true (txs_store p) a l' ts' /\ R r ts') ->
  ends (on_pending a op) p (fun r p' => exists m ts', R r ts' /\ p' = set_pending m p /\ reps true (txs_store p) m (<[a := ts']> P)).
Proof.
  intros H E Hop. unfold on_pending. go. destruct (reps_Some_2 _ _ _ _ _ _ (pk_pending _ _ _ _ _ H) E) as (l & El & Hl).
  eapply ends_must; [done|]. go. destruct (Hop l Hl) as (r & l' & ts' & E' & Hl' & HR). eapply ends_outcome; [exact E'|]. go.
  exists (<[a := l']> (pending p)), ts'. split_and!; [done|done|]. apply reps_insert; [apply H|done].
Qed.

Lemma on_queue_ends {A} a (op : TxView Ptr -> M PoolList A) p P Q X ts (R : A -> list Ptr -> Prop) : pool_ok p P Q X -> Q !! a = Some ts ->
  (forall l, held false (txs_store p) a l ts -> exists r l' ts', op (txs_store p) l = Done (r, l') /\ held false (txs_store p) a l' ts' /\ R r ts') ->
  ends (on_queue a op) p (fun r p' => exists m ts', R r ts' /\ p' = set_queue m p /\ reps false (txs_store p) m (<[a := ts']> Q)).
Proof.
  intros H E Hop. unfold on_queue. go. destruct (reps_Some_2 _ _ _ _ _ _ (pk_queue _ _ _ _ _ H) E) as (l & El & Hl).
  eapply ends_must; [done|]. go. destruct (Hop l Hl) as (r & l' & ts' & E' & Hl' & HR). eapply ends_outcome; [exact E'|]. go.
  exists (<[a := l']> (queue p)), ts'. split_and!; [done|done|]. apply reps_insert; [apply H|done].
Qed.

(** A list that only loses transactions. *)
Lemma pending_shrinks p P Q X a ts ts' m : pool_ok p P Q X -> P !! a = Some ts -> (forall x, x ∈ ts' -> x ∈ ts) ->
  reps true (txs_store p) m (<[a := ts']> P) -> pool_ok (set_pending m p) (<[a := ts']> P) Q X.
Proof.
  intros H E Hsub Hm. eapply set_pending_ok; [done|done|]. intros a' x y Hx Hy. eapply (pk_disjoint _ _ _ _ _ H a'); [|done].
  rewrite txs_at_insert in Hx. case_decide as Ea; [|done]. subst a'. unfold txs_at. rewrite E. by apply Hsub.
Qed.

Lemma queue_shrinks p P Q X a ts ts' m : pool_ok p P Q X -> Q !! a = Some ts -> (forall x, x ∈ ts' -> x ∈ ts) ->
  reps false (txs_store p) m (<[a := ts']> Q) -> pool_ok (set_queue m p) P (<[a := ts']> Q) X.
Proof.
  intros H E Hsub Hm. eapply set_queue_ok; [done|done|]. intros a' x y Hx Hy. eapply (pk_disjoint _ _ _ _ _ H a'); [done|].
  rewrite txs_at_insert in Hy. case_decide as Ea; [|done]. subst a'. unfold txs_at. rewrite E. by apply Hsub.
Qed.

Lemma held_sub b st a l l' ts ts' : held b st a l ts -> list_wf (V := st) l' ts' -> txsList.strict l' = txsList.strict l -> (forall x, x ∈ ts' -> x ∈ ts) ->
  held b st a l' ts'.
Proof. intros (H1 & H2 & H3) Hl Es Hsub. split_and!; [congruence|done|]. by eapply Forall_sub. Qed.

(** ** Adding to a list *)

(** The transaction with the same nonce. *)
Definition old_of (p : TxsPool) (ts : list Ptr) (t : Ptr) : option Ptr := items p ts !! nonce p t.

(** Whether the list takes a transaction. *)
Definition takes (p : TxsPool) (ts : list Ptr) (t : Ptr) : bool :=
  match old_of p ts t with None => true | Some old => better (V := txs_store p) (PriceBump config) old t end.

Lemma held_Add b st a l ts t : held b st a l ts -> good st t -> tx_From (st t) = Some a ->
  let old := items_of (V := st) ts !! tx_Nonce (st t) in
  let accepted := match old with None => true | Some old => better (V := st) (PriceBump config) old t end in
  exists l', txsList.Add (V := st) t (PriceBump config) l = Done ((accepted, if accepted then old else None), l') /\
    held b st a l' (if accepted then sl_insert (V := st) t ts else ts).
Proof.
  intros (H1 & H2 & H3) Hg Hf old accepted. destruct (Add_run (V := st) t (PriceBump config) l ts H2 (g_wf _ _ Hg)) as (l' & E & Hl' & Es & _).
  exists l'. split; [exact E|]. split_and!; [congruence|exact Hl'|]. change (Tx.Nonce t) with (tx_Nonce (st t)) in Hl'. fold old accepted in Hl'. destruct accepted; [|done].
  apply list.Forall_forall. intros x Hx. apply elem_of_sl_insert in Hx; [|by eapply list_wf_sorted]. rewrite list.Forall_forall in H3.
  destruct Hx as [->|[Hx _]]; [done|by apply H3].
Qed.

Lemma old_of_spec p ts t old : ascending (V := txs_store p) ts -> old_of p ts t = Some old <-> old ∈ ts /\ nonce p old = nonce p t.
Proof. intros Hs. apply (items_of_lookup (V := txs_store p)). done. Qed.

Lemma old_of_None p ts t : ascending (V := txs_store p) ts -> old_of p ts t = None <-> forall x, x ∈ ts -> nonce p x <> nonce p t.
Proof.
  intros Hs. split.
  - intros E x Hx Ex. assert (old_of p ts t = Some x) by by apply old_of_spec. congruence.
  - intros H. destruct (old_of p ts t) as [x|] eqn:E; [|done]. apply old_of_spec in E as [Hx Ex]; [|done]. by apply H in Hx.
Qed.

(** The nonces stay as well. *)
Definition quiet (p p' : TxsPool) : Prop := keeps p p' /\ pendingNonces p' = pendingNonces p.

#[global] Instance quiet_preorder : PreOrder quiet.
Proof. split; [intros p; by split|]. intros a b c [H1 H2] [K1 K2]. split; [by etransitivity|congruence]. Qed.

Lemma quiet_nonce p p' t : quiet p p' -> nonce p' t = nonce p t.
Proof. intros [H _]. by apply keeps_nonce. Qed.

Definition without (X : gset Ptr) (old : option Ptr) : gset Ptr := match old with Some o => X ∖ {[o]} | None => X end.

Lemma drop_old_ends old p P Q X : pool_ok p P Q X -> (forall o, old = Some o -> o ∈ X) ->
  ends (match old with None => mret () | Some old => _ ← all_Remove (Hash old); priced_Removed iter 1 end) p
    (fun _ p' => pool_ok p' P Q (without X old) /\ quiet p p').
Proof.
  intros H Ho. destruct old as [o|]; [|by go]. go. call (eapply all_Remove_ends; [done|by apply Ho]). intros _ p1 (a & -> & H1).
  call by apply (priced_Removed_ends iter iter_perm Hash). intros _ p2 (s & -> & H2 & K2). split; [done|]. split; [|done]. etransitivity; [|done]. by apply set_all_keeps.
Qed.

Lemma beat_ok a p P Q X : pool_ok p P Q X -> ends (beat Now a) p (fun _ p' => pool_ok p' P Q X /\ quiet p p').
Proof. intros [H1 H2 H3 H4 H5 H6]. unfold beat. go. split; [by split|]. by split. Qed.

(** The list of an account, new if it has none. *)
Lemma fresh_queue_ok a p P Q X : pool_ok p P Q X -> let p' := match queue p !! a with
    | None => set_queue (<[a := txsList.newTxsList false]> (queue p)) p | Some _ => p end in
  exists Q', pool_ok p' P Q' X /\ quiet p p' /\ Q' !! a = Some (txs_at Q a) /\ (forall ts, <[a := ts]> Q' = <[a := ts]> Q).
Proof.
  intros H p'. pose proof (reps_None _ _ _ _ a (pk_queue _ _ _ _ _ H)) as Hn. unfold p', txs_at. clear p'. destruct (queue p !! a) as [l|] eqn:El.
  - destruct (Q !! a) as [ts|] eqn:E; [|by destruct Hn as [_ Hn]; specialize (Hn eq_refl)]. by exists Q.
  - destruct Hn as [Hn _]. specialize (Hn eq_refl). exists (<[a := []]> Q). rewrite Hn. split_and!.
    + eapply set_queue_ok; [done|apply reps_insert; [apply H|]|].
      * split_and!; [done|apply new_list_wf|constructor].
      * intros a' x y Hx Hy. rewrite txs_at_insert in Hy. case_decide; [by apply elem_of_nil in Hy|]. by eapply H.
    + by split.
    + by rewrite lookup_insert_eq.
    + intros ts. by rewrite insert_insert_eq.
Qed.

Lemma fresh_pending_ok a p P Q X : pool_ok p P Q X -> let p' := match pending p !! a with
    | None => set_pending (<[a := txsList.newTxsList true]> (pending p)) p | Some _ => p end in
  exists P', pool_ok p' P' Q X /\ quiet p p' /\ P' !! a = Some (txs_at P a) /\ (forall ts, <[a := ts]> P' = <[a := ts]> P).
Proof.
  intros H p'. pose proof (reps_None _ _ _ _ a (pk_pending _ _ _ _ _ H)) as Hn. unfold p', txs_at. clear p'. destruct (pending p !! a) as [l|] eqn:El.
  - destruct (P !! a) as [ts|] eqn:E; [|by destruct Hn as [_ Hn]; specialize (Hn eq_refl)]. by exists P.
  - destruct Hn as [Hn _]. specialize (Hn eq_refl). exists (<[a := []]> P). rewrite Hn. split_and!.
    + eapply set_pending_ok; [done|apply reps_insert; [apply H|]|].
      * split_and!; [done|apply new_list_wf|constructor].
      * intros a' x y Hx Hy. rewrite txs_at_insert in Hx. case_decide; [by apply elem_of_nil in Hx|]. by eapply H.
    + by split.
    + by rewrite lookup_insert_eq.
    + intros ts. by rewrite insert_insert_eq.
Qed.

(** A new transaction in the lookup and the heaps. *)
Lemma index_tx_ends t local p P Q X : pool_ok p P Q X -> good (txs_store p) t -> (forall x, x ∈ X -> Hash x <> Hash t) ->
  ends (_ ← modify (fun p => set_all (txLookup.Add Hash t local (all p)) p); on_priced (txPricedList.Put t local)) p
    (fun _ p' => pool_ok p' P Q (X ∪ {[t]}) /\ quiet p p').
Proof.
  intros H Hg Hn. go. assert (H1 : pool_ok (set_all (txLookup.Add Hash t local (all p)) p) P Q ({[t]} ∪ X)).
  { eapply set_all_ok; [exact H|]. apply all_ok_Add; [apply H|done|done]. }
  call (eapply (on_priced_ends Hash _ _ _ _ _ (fun _ => True)); [exact H1|]).
  - call (apply Put_ends; [|apply H1]); [|done]. apply wf_fees, Hg.
  - intros _ p2 (s2 & -> & H2 & K2 & _). rewrite (union_comm_L X). split; [done|]. split; [|done]. etransitivity; [|exact K2]. by apply set_all_keeps.
Qed.

(** ** [enqueueTx] *)

Lemma enqueueTx_ends h t local addAll a p P Q X : pool_ok p P Q X -> good (txs_store p) t -> tx_From (txs_store p t) = Some a ->
  (forall x, x ∈ txs_at P a -> nonce p x <> nonce p t) -> (forall x, x ∈ txs_at Q a -> x ∈ X) ->
  (addAll = true -> forall x, x ∈ X -> Hash x <> Hash t) ->
  let old := old_of p (txs_at Q a) t in
  ends (enqueueTx iter Hash Now config h t local addAll) p (fun '(replaced, err) p' => quiet p p' /\
    if takes p (txs_at Q a) t then err = None /\ replaced = bool_decide (old <> None) /\
      pool_ok p' P (<[a := insert_tx p t (txs_at Q a)]> Q) (without X old ∪ (if addAll then {[t]} else ∅))
    else err = Some ErrReplaceUnderpriced /\ replaced = false /\ pool_ok p' P Q X).
Proof.
  intros H Hg Hf Hd Hx Hn old. unfold enqueueTx. go. call (by eapply from_of_ends). intros from p0 [-> ->]. go.
  destruct (fresh_queue_ok a p P Q X H) as (Q1 & H1 & K1 & E1 & I1). set (p1 := match queue p !! a with None => _ | Some _ => _ end) in *.
  assert (Est : txs_store p1 = txs_store p) by (unfold p1; by destruct (queue p !! a)).
  assert (Hs : ascending (V := txs_store p) (txs_at Q a)) by eapply reps_sorted, H.
  call (apply (on_queue_ends a _ p1 P Q1 X (txs_at Q a) (fun r ts' => r = (takes p (txs_at Q a) t, if takes p (txs_at Q a) t then old else None) /\
      ts' = if takes p (txs_at Q a) t then insert_tx p t (txs_at Q a) else txs_at Q a)); [done|done|]).
  { intros l Hl. rewrite Est in *. destruct (held_Add false (txs_store p) a l _ t Hl Hg Hf) as (l' & E & Hl'). eexists _, l', _. split; [exact E|]. split; [exact Hl'|done]. }
  intros r p2 (m & ts' & [-> ->] & -> & Hm). rewrite I1 in Hm. rewrite Est in Hm.
  destruct (takes p (txs_at Q a) t) eqn:Et; cbn [negb].
  2: { go. split; [etransitivity; [exact K1|by split]|]. split_and!; [done|done|].
       assert (Eq : <[a := txs_at Q a]> Q = Q).
       { apply insert_id. unfold takes in Et. destruct (old_of p (txs_at Q a) t) as [o|] eqn:Eo; [|done]. apply old_of_spec in Eo as [Ho _]; [|done].
         unfold txs_at in Ho |- *. by destruct (Q !! a); [|apply elem_of_nil in Ho]. }
       eapply set_queue_ok; [exact H1|by rewrite Est, <- Eq|]. rewrite Est. apply H. }
  assert (H2 : pool_ok (set_queue m p1) P (<[a := insert_tx p t (txs_at Q a)]> Q) X).
  { eapply set_queue_ok; [exact H1|by rewrite Est|]. rewrite Est. intros a' x y Hx' Hy. rewrite txs_at_insert in Hy. case_decide as Ea; [|by eapply H].
    subst a'. apply elem_of_sl_insert in Hy as [->|[Hy _]]; [by apply Hd|by eapply H|done]. }
  assert (K2 : quiet p (set_queue m p1)) by (etransitivity; [exact K1|by split]).
  go. call (apply drop_old_ends; [exact H2|]).
  { intros o Eo. apply Hx. by apply old_of_spec in Eo as [? _]. }
  intros _ p3 [H3 K3]. go. apply (ends_mono _ _ (fun _ p4 => pool_ok p4 P (<[a := insert_tx p t (txs_at Q a)]> Q) (without X old ∪ (if addAll then {[t]} else ∅)) /\ quiet p3 p4)).
  { destruct addAll; [|go; by rewrite union_empty_r_L]. apply index_tx_ends; [done| |].
    - eapply sim_good; [|exact Hg]. transitivity (txs_store (set_queue m p1)); [|apply K3]. cbn. by rewrite Est.
    - intros x Hx'. apply (Hn eq_refl). unfold without in Hx'. destruct old; set_solver. }
  intros _ p4 [H4 K4]. go. assert (K : quiet p p4) by (etransitivity; [exact K2|]; by etransitivity).
  apply (ends_mono _ _ (fun _ p5 => pool_ok p5 P (<[a := insert_tx p t (txs_at Q a)]> Q) (without X old ∪ (if addAll then {[t]} else ∅)) /\ quiet p4 p5)).
  { destruct (beats p4 !! a); [by go|]. by apply beat_ok. }
  intros _ p5 [H5 K5]. go. split; [by etransitivity|]. by split_and!.
Qed.

(** ** Moving transactions to the queue *)

(** No account has an empty list. *)
Definition lean (f : gmap Z (list Ptr)) : Prop := forall a ts, f !! a = Some ts -> ts <> [].

Lemma lean_insert f a ts : lean f -> ts <> [] -> lean (<[a := ts]> f).
Proof. intros H Hne a' ts'. rewrite lookup_insert_Some. intros [[<- <-]|[_ E]]; [done|by eapply H]. Qed.

Lemma lean_delete f a : lean f -> lean (delete a f).
Proof. intros H a' ts'. rewrite lookup_delete_Some. intros [_ E]. by eapply H. Qed.

Lemma sl_insert_not_nil (st : Store) t ts : sl_insert (V := st) t ts <> [].
Proof. destruct ts as [|y ts]; cbn [sl_insert]; [done|]. by repeat (destruct (_ <? _) || destruct (_ =? _)). Qed.

Lemma requeue_ends a ts : forall p P Q X, pool_ok p P Q X ->
  Forall (fun t => good (txs_store p) t /\ tx_From (txs_store p t) = Some a /\ t ∈ X) ts -> NoDup ((fun t => nonce p t) <$> ts) ->
  (forall t x, t ∈ ts -> x ∈ txs_at P a -> nonce p x <> nonce p t) -> (forall t x, t ∈ ts -> x ∈ txs_at Q a -> nonce p x <> nonce p t) ->
  (forall x, x ∈ txs_at Q a -> x ∈ X) ->
  ends (for_each (fun t => _ ← enqueueTx iter Hash Now config (Hash t) t false false; mret ()) ts) p (fun _ p' => quiet p p' /\
    exists Q', pool_ok p' P Q' X /\ (forall a', a' <> a -> Q' !! a' = Q !! a') /\ txs_at Q' a ≡ₚ ts ++ txs_at Q a /\ (lean Q -> lean Q')).
Proof.
  induction ts as [|t ts IH]; intros p P Q X H Hts Hnd HP HQ HX; cbn [for_each]; [go; split; [done|]; by exists Q|].
  inversion Hts as [|? ? (Hg & Hf & Ht) Hts']; subst. cbn in Hnd. apply list.NoDup_cons in Hnd as [Hnt Hnd].
  assert (Ht0 : t ∈ t :: ts) by (apply list.elem_of_cons; by left). assert (Hts0 : forall x : Ptr, x ∈ ts -> x ∈ t :: ts) by (intros x Hx; apply list.elem_of_cons; by right).
  assert (Hs : ascending (V := txs_store p) (txs_at Q a)) by eapply reps_sorted, H.
  assert (Eo : old_of p (txs_at Q a) t = None) by (apply old_of_None; [done|]; intros x Hx; by apply HQ).
  go. call (apply (enqueueTx_ends _ t false false a p P Q X); [done|done|done|intros x Hx; by apply HP|done|done]).
  intros [replaced err] p1. unfold takes. rewrite Eo. cbn [without]. intros [K1 (_ & _ & H1)]. rewrite union_empty_r_L in H1. go.
  set (ins := insert_tx p t (txs_at Q a)) in *. assert (Hins : ins ≡ₚ t :: txs_at Q a) by (apply (sl_insert_new (V := txs_store p)); intros y Hy; by apply HQ).
  assert (En : forall x, nonce p1 x = nonce p x) by (intros x; by apply quiet_nonce).
  call (apply (IH p1 P (<[a := ins]> Q) X); [done| | | | |]).
  - eapply list.Forall_impl; [exact Hts'|]. cbn. intros x (G1 & G2 & G3). pose proof (kp_sim _ _ (proj1 K1)) as Hsim.
    split_and!; [by eapply sim_good|by rewrite (st_from _ _ (Hsim x))|done].
  - erewrite list_fmap_ext; [exact Hnd|]. intros _ x _. apply En.
  - intros y x Hy Hx. rewrite !En. by apply HP; [apply Hts0|].
  - intros y x Hy Hx. rewrite !En. rewrite txs_at_insert, decide_True in Hx by done. rewrite Hins in Hx.
    apply list.elem_of_cons in Hx as [->|Hx]; [|by apply HQ; [apply Hts0|]]. intros Ey. apply Hnt. apply list_elem_of_fmap. by exists y.
  - intros x Hx. rewrite txs_at_insert, decide_True in Hx by done. rewrite Hins in Hx. apply list.elem_of_cons in Hx as [->|Hx]; [done|by apply HX].
  - intros _ p2 (K2 & Q2 & H2 & Ho & Hp & Hl). split; [by etransitivity|]. exists Q2. split_and!; [done| | |].
    + intros a' Ha. rewrite Ho by done. by rewrite lookup_insert_ne.
    + rewrite Hp, txs_at_insert, decide_True, Hins by done. cbn. by rewrite Permutation_middle.
    + intros HlQ. apply Hl, lean_insert; [done|apply sl_insert_not_nil].
Qed.

(** ** [promoteTx] *)

(** A transaction whose nonce is nowhere in the lists becomes pending. *)
Lemma promoteTx_ends a t p P Q X : pool_ok p P Q X -> good (txs_store p) t -> tx_From (txs_store p t) = Some a ->
  (forall x, x ∈ txs_at P a -> nonce p x <> nonce p t) -> (forall x, x ∈ txs_at Q a -> nonce p x <> nonce p t) ->
  ends (promoteTx iter Hash Now config a (Hash t) t) p (fun b p' => b = true /\ keeps p p' /\
    pendingNonces p' = txNoncer.set a (u64 (nonce p t + 1)) (pendingNonces p) /\ pool_ok p' (<[a := insert_tx p t (txs_at P a)]> P) Q X).
Proof.
  intros H Hg Hf HP HQ. unfold promoteTx. go. destruct (fresh_pending_ok a p P Q X H) as (P1 & H1 & K1 & E1 & I1).
  set (p1 := match pending p !! a with None => _ | Some _ => _ end) in *.
  assert (Est : txs_store p1 = txs_store p) by (unfold p1; by destruct (pending p !! a)).
  assert (Hs : ascending (V := txs_store p) (txs_at P a)) by eapply reps_sorted, H.
  assert (Eo : items p (txs_at P a) !! nonce p t = None) by (apply (old_of_None p); [done|]; intros x Hx; by apply HP).
  call (apply (on_pending_ends a _ p1 P1 Q X (txs_at P a) (fun r ts' => r = (true, None) /\ ts' = insert_tx p t (txs_at P a))); [done|done|]).
  { intros l Hl. rewrite Est in *. destruct (held_Add true (txs_store p) a l _ t Hl Hg Hf) as (l' & E & Hl'). rewrite Eo in E, Hl'. by eexists _, l', _. }
  intros r p2 (m & ts' & [-> ->] & -> & Hm). rewrite I1, Est in Hm. go. cbn [negb]. go.
  assert (H2 : pool_ok (set_pending m p1) (<[a := insert_tx p t (txs_at P a)]> P) Q X).
  { eapply set_pending_ok; [exact H1|by rewrite Est|]. rewrite Est. intros a' x y Hx Hy. rewrite txs_at_insert in Hx. case_decide as Ea; [|by eapply H].
    subst a'. apply elem_of_sl_insert in Hx as [->|[Hx _]]; [|by eapply H|done]. intros E. by apply (HQ y Hy). }
  unfold on_noncer. apply ends_zoom. go. call (apply (beat_ok a _ (<[a := insert_tx p t (txs_at P a)]> P) Q X)).
  { by destruct H2 as [G1 G2 G3 G4 G5 G6]. }
  intros _ p3 [H3 [K3 K3']]. go. split_and!; [done| | |done].
  - destruct K1 as [K1 _]. etransitivity; [exact K1|]. etransitivity; [|exact K3]. by split.
  - rewrite K3'. cbn. rewrite Est. by rewrite (proj2 K1).
Qed.

(** ** Dropping from the lookup *)

Lemma drop_all_ends ts : forall p P Q X, pool_ok p P Q X -> NoDup ts -> (forall t, t ∈ ts -> t ∈ X) ->
  ends (drop_all Hash (Some <$> ts)) p (fun _ p' => quiet p p' /\ pool_ok p' P Q (X ∖ list_to_set ts)).
Proof.
  unfold drop_all. induction ts as [|t ts IH]; intros p P Q X H Hnd HX; cbn [for_each fmap list_fmap].
  { go. split; [done|]. cbn. by rewrite difference_empty_L. }
  apply list.NoDup_cons in Hnd as [Ht Hnd]. unfold hash_of. go. eapply ends_must; [done|]. go.
  call (eapply all_Remove_ends; [done|]); [apply HX, list.elem_of_cons; by left|]. intros _ p1 (al & -> & H1).
  call (apply IH; [exact H1|done|]).
  { intros x Hx. apply elem_of_difference. split; [apply HX, list.elem_of_cons; by right|]. rewrite elem_of_singleton. by intros ->. }
  intros _ p2 [K2 H2]. split; [etransitivity; [|exact K2]; by split|]. cbn [list_to_set]. by rewrite <- difference_difference_l_L.
Qed.

(** ** [removeTx] *)

(** The list of an account, deleted if it is empty. *)
Definition put (f : gmap Z (list Ptr)) (a : Z) (ts : list Ptr) : gmap Z (list Ptr) := match ts with [] => delete a f | _ => <[a := ts]> f end.

Lemma txs_at_put f a ts a' : txs_at (put f a ts) a' = if decide (a = a') then ts else txs_at f a'.
Proof. destruct ts as [|t ts]; cbn [put]; [rewrite txs_at_delete|rewrite txs_at_insert]; by case_decide. Qed.

Lemma lean_put f a ts : lean f -> lean (put f a ts).
Proof. intros H. destruct ts as [|t ts]; [by apply lean_delete|by apply lean_insert]. Qed.

Lemma put_insert f a ts ts' : put (<[a := ts']> f) a ts = put f a ts.
Proof. destruct ts as [|t ts]; cbn [put]; [by rewrite delete_insert_eq|by rewrite insert_insert_eq]. Qed.

(** Delete the list of an account if it is empty. *)
Lemma tidy_pending_ok a l ts p P Q X : pool_ok p P Q X -> P !! a = Some ts -> pending p !! a = Some l ->
  ends (if txsList.Empty l then modify (fun p => set_pending (delete a (pending p)) p) else mret ()) p (fun _ p' => quiet p p' /\ pool_ok p' (put P a ts) Q X).
Proof.
  intros H E El'. destruct (reps_Some_2 _ _ _ _ _ _ (pk_pending _ _ _ _ _ H) E) as (l0 & El & _ & Hl & _). assert (l0 = l) as -> by congruence.
  rewrite (Empty_wf _ _ Hl). destruct ts as [|t ts]; cbn [put].
  - rewrite bool_decide_eq_true_2 by done. go. split; [by split|]. eapply set_pending_ok; [done|apply reps_delete, H|].
    intros a' x y Hx Hy. rewrite txs_at_delete in Hx. case_decide; [by apply elem_of_nil in Hx|]. by eapply H.
  - rewrite bool_decide_eq_false_2 by done. go. split; [done|]. by rewrite insert_id.
Qed.

Lemma tidy_queue_ok a l ts p P Q X : pool_ok p P Q X -> Q !! a = Some ts -> queue p !! a = Some l ->
  ends (if txsList.Empty l then modify (fun p => set_beats (delete a (beats p)) (ticks p) (set_queue (delete a (queue p)) p)) else mret ()) p
    (fun _ p' => quiet p p' /\ pool_ok p' P (put Q a ts) X).
Proof.
  intros H E El'. destruct (reps_Some_2 _ _ _ _ _ _ (pk_queue _ _ _ _ _ H) E) as (l0 & El & _ & Hl & _). assert (l0 = l) as -> by congruence.
  rewrite (Empty_wf _ _ Hl). destruct ts as [|t ts]; cbn [put].
  - rewrite bool_decide_eq_true_2 by done. go. split; [by split|]. assert (H' : pool_ok (set_queue (delete a (queue p)) p) P (delete a Q) X).
    { eapply set_queue_ok; [done|apply reps_delete, H|]. intros a' x y Hx Hy. rewrite txs_at_delete in Hy. case_decide; [by apply elem_of_nil in Hy|]. by eapply H. }
    by destruct H'.
  - rewrite bool_decide_eq_false_2 by done. go. split; [done|]. by rewrite insert_id.
Qed.

Lemma held_Remove b st a l ts t : held b st a l ts -> let n := tx_Nonce (st t) in let found := bool_decide (n ∈ (fun x => tx_Nonce (st x)) <$> ts) in
  exists invalids l', txsList.Remove (V := st) iter t l = Done ((found, invalids), l') /\
    invalids ≡ₚ (if found && b then base.filter (fun x => n < tx_Nonce (st x)) ts else []) /\
    held b st a l' (if found then base.filter (fun x => stays (V := st) b n x = true) ts else ts).
Proof.
  intros Hh n found. pose proof Hh as (H1 & H2 & H3). destruct (Remove_exact (V := st) iter iter_perm t l ts H2) as (invalids & l' & E & Es & Hp & Hl').
  change (Tx.Nonce t) with n in *. change (bool_decide (n ∈ Tx.Nonce <$> ts)) with found in *. rewrite H1 in Es, Hp, Hl'. exists invalids, l'. split; [exact E|]. split; [exact Hp|].
  destruct found; [|by eapply held_sub; [exact Hh|exact Hl'|congruence|]]. eapply held_sub; [exact Hh|exact Hl'|congruence|]. by intros x [_ ?]%list_elem_of_filter.
Qed.

Lemma stays_strict (st : Store) n (ts : list Ptr) : base.filter (fun x => stays (V := st) true n x = true) ts = base.filter (fun x => tx_Nonce (st x) < n) ts.
Proof. apply list_filter_iff. intros x. apply Z.ltb_lt. Qed.

Lemma stays_loose (st : Store) n (ts : list Ptr) : base.filter (fun x => stays (V := st) false n x = true) ts = base.filter (fun x => tx_Nonce (st x) <> n) ts.
Proof. apply list_filter_iff. intros x. unfold stays. rewrite negb_true_iff. apply Z.eqb_neq. Qed.

Lemma lookup_at f a ts t : t ∈ txs_at f a -> f !! a = Some ts -> t ∈ ts.
Proof. unfold txs_at. by intros Ht E; rewrite E in Ht. Qed.

Lemma NoDup_nonces (st : Store) ts : ascending (V := st) ts -> NoDup ((fun x => tx_Nonce (st x)) <$> ts).
Proof. apply (ascending_NoDup (V := st)). Qed.

Lemma remove_pending_ends a t p P Q X : pool_ok p P Q X -> (forall x, x ∈ txs_at P a -> x ∈ X \/ nonce p x = nonce p t) ->
  (nonce p t ∈ (fun x => nonce p x) <$> txs_at P a -> forall x, x ∈ txs_at Q a -> x ∈ X) ->
  ends (remove_pending iter Hash Now config a t) p (fun b p' => keeps p p' /\ b = bool_decide (nonce p t ∈ (fun x => nonce p x) <$> txs_at P a) /\
    if b then pendingNonces p' = txNoncer.setIfLower a (nonce p t) (pendingNonces p) /\
      exists Q', pool_ok p' (put P a (base.filter (fun x => nonce p x < nonce p t) (txs_at P a))) Q' X /\ (forall a', a' <> a -> Q' !! a' = Q !! a') /\
        txs_at Q' a ≡ₚ base.filter (fun x => nonce p t < nonce p x) (txs_at P a) ++ txs_at Q a /\ (lean Q -> lean Q')
    else pendingNonces p' = pendingNonces p /\ pool_ok p' P Q X).
Proof.
  intros H HP HQ. unfold remove_pending. go. pose proof (reps_None _ _ _ _ a (pk_pending _ _ _ _ _ H)) as Hn.
  destruct (pending p !! a) as [l|] eqn:El.
  2: { go. unfold txs_at. rewrite (proj1 Hn eq_refl). by split_and!. }
  destruct (reps_Some _ _ _ _ _ _ (pk_pending _ _ _ _ _ H) El) as (ts & Ets & _).
  assert (Eat : txs_at P a = ts) by (unfold txs_at; by rewrite Ets). rewrite Eat in *.
  set (found := bool_decide (nonce p t ∈ (fun x => nonce p x) <$> ts)). go.
  call (apply (on_pending_ends a _ p P Q X ts (fun r ts' => r.1 = found /\ r.2 ≡ₚ (if found then base.filter (fun x => nonce p t < nonce p x) ts else []) /\
    ts' = if found then base.filter (fun x => nonce p x < nonce p t) ts else ts)); [done|done|]).
  { intros l0 Hl0. destruct (held_Remove true _ _ _ _ t Hl0) as (invalids & l' & E & Hp & Hl'). fold found in E, Hp, Hl'. rewrite andb_true_r in Hp.
    rewrite stays_strict in Hl'. by eexists (found, invalids), l', _. }
  intros [b invalids] p1 (m & ts' & (Eb & Hp & ->) & -> & Hm). cbn in Eb, Hp. subst b. go.
  assert (Hs : ascending (V := txs_store p) ts) by (rewrite <- Eat; eapply reps_sorted, H).
  destruct found eqn:Ef; cbn [negb].
  2: { go. split_and!; [by split|done|done|]. rewrite insert_id in Hm by done. eapply set_pending_ok; [done|done|]. apply H. }
  set (below := base.filter (fun x => nonce p x < nonce p t) ts) in *. set (above := base.filter (fun x => nonce p t < nonce p x) ts) in *.
  assert (Hb : forall x, x ∈ below <-> x ∈ ts /\ nonce p x < nonce p t) by (intros x; unfold below; rewrite list_elem_of_filter; tauto).
  assert (Ha : forall x, x ∈ invalids <-> x ∈ ts /\ nonce p t < nonce p x) by (intros x; rewrite Hp; unfold above; rewrite list_elem_of_filter; tauto).
  assert (H1 : pool_ok (set_pending m p) (<[a := below]> P) Q X) by (eapply pending_shrinks; [done|done| |done]; intros x Hx; by apply Hb).
  go. assert (El1 : exists l1, pending (set_pending m p) !! a = Some l1) by (destruct (reps_Some_2 _ _ _ _ a below Hm) as (l1 & E1 & _); [by rewrite lookup_insert_eq|by exists l1]).
  destruct El1 as (l1 & El1). eapply ends_must; [exact El1|]. go. call (apply (tidy_pending_ok a l1 below _ _ _ _ H1); [by rewrite lookup_insert_eq|done]).
  rewrite put_insert. intros _ p2 [K2 H2]. assert (K : quiet p p2) by (etransitivity; [|exact K2]; by split). go.
  pose proof (kp_sim _ _ (proj1 K)) as Hsim. assert (En : forall x, nonce p2 x = nonce p x) by (intros x; by apply quiet_nonce).
  assert (Hts : forall x, x ∈ ts -> good (txs_store p) x /\ tx_From (txs_store p x) = Some a) by (intros x Hx; eapply reps_at_good; [apply H|by rewrite Eat]).
  call (apply (requeue_ends a invalids p2 _ Q X H2)).
  - apply list.Forall_forall. intros x [Hx Hlt]%Ha. destruct (Hts x Hx) as [G1 G2]. split_and!; [by eapply sim_good|by rewrite (st_from _ _ (Hsim x))|].
    destruct (HP x Hx); [done|lia].
  - rewrite Hp. apply (NoDup_nonces (txs_store p2)). apply (ascending_view _ (txs_store p2) En). by apply (ascending_filter (V := txs_store p)).
  - intros y x [Hy Hlt]%Ha Hx. rewrite txs_at_put, decide_True in Hx by done. apply Hb in Hx. rewrite !En. lia.
  - intros y x [Hy Hlt]%Ha Hx. rewrite !En. intros E. eapply (pk_disjoint _ _ _ _ _ H a y x); [by rewrite Eat|done|done].
  - apply HQ. by apply bool_decide_eq_true in Ef.
  - intros _ p3 (K3 & Q3 & H3 & Ho & Hp3 & Hl3). go. apply ends_zoom. go. assert (K' : quiet p p3) by by etransitivity.
    split_and!; [by destruct K' as [[] _]|done| |].
    + cbn. rewrite (quiet_nonce _ _ t K'). by rewrite (proj2 K').
    + exists Q3. split_and!; [by destruct H3|done|by rewrite Hp3, Hp|done].
Qed.

Lemma remove_queued_ends a t p P Q X : pool_ok p P Q X -> ends (remove_queued iter a t) p (fun _ p' => quiet p p' /\
  pool_ok p' P (put Q a (base.filter (fun x => nonce p x <> nonce p t) (txs_at Q a))) X).
Proof.
  intros H. unfold remove_queued. go. pose proof (reps_None _ _ _ _ a (pk_queue _ _ _ _ _ H)) as Hn. destruct (queue p !! a) as [l|] eqn:El.
  2: { go. split; [done|]. unfold txs_at. rewrite (proj1 Hn eq_refl). cbn [from_option]. rewrite list.filter_nil. cbn [put]. rewrite delete_id; [done|]. by apply Hn. }
  destruct (reps_Some _ _ _ _ _ _ (pk_queue _ _ _ _ _ H) El) as (ts & Ets & _).
  assert (Eat : txs_at Q a = ts) by (unfold txs_at; by rewrite Ets). rewrite Eat. set (rest := base.filter (fun x => nonce p x <> nonce p t) ts).
  go. call (apply (on_queue_ends a _ p P Q X ts (fun _ ts' => ts' = rest)); [done|done|]).
  { intros l0 Hl0. destruct (held_Remove false _ _ _ _ t Hl0) as (invalids & l' & E & _ & Hl'). rewrite stays_loose in Hl'. eexists _, l', _. split; [exact E|].
    split; [exact Hl'|]. destruct (bool_decide _) eqn:Ef; [done|]. symmetry. apply list_filter_all, list.Forall_forall. intros x Hx En.
    apply bool_decide_eq_false in Ef. apply Ef, list_elem_of_fmap. by exists x. }
  intros r p1 (m & ts' & -> & -> & Hm). assert (H1 : pool_ok (set_queue m p) P (<[a := rest]> Q) X).
  { eapply queue_shrinks; [done|done| |done]. by intros x [_ ?]%list_elem_of_filter. }
  destruct (reps_Some_2 _ _ _ _ a rest Hm) as (l1 & El1 & _); [by rewrite lookup_insert_eq|].
  go. eapply ends_must; [exact El1|]. call (apply (tidy_queue_ok a l1 rest _ _ _ _ H1); [by rewrite lookup_insert_eq|done]).
  rewrite put_insert. intros _ p2 [K2 H2]. split; [|done]. etransitivity; [|exact K2]. by split.
Qed.

(** The lookup knows exactly the transactions of the lists. *)
Definition full (P Q : gmap Z (list Ptr)) (X : gset Ptr) : Prop := forall t, t ∈ X <-> exists a, t ∈ txs_at P a \/ t ∈ txs_at Q a.

(** What is said of the nonces of pending transactions: nothing, or that they follow each
    other from the nonce of the account on. *)
Context (mode : option bool).

Definition chained (p : TxsPool) (P : gmap Z (list Ptr)) : Prop :=
  match mode with
  | None => True
  | Some exact => txNoncer.fallback (pendingNonces p) = currentState p /\ forall a,
      chain_at exact (GetNonce (currentState p) a) (next_nonce (pendingNonces p) a) ((fun t => nonce p t) <$> txs_at P a)
  end.

Record pool_inv (p : TxsPool) (P Q : gmap Z (list Ptr)) (X : gset Ptr) : Prop := {
  pv_ok : pool_ok p P Q X;
  pv_full : full P Q X;
  pv_pending : lean P;
  pv_queue : lean Q;
  pv_chain : chained p P
}.

(** A transaction is in the lists of its sender only. *)
Lemma pv_sender p P Q X t a : pool_inv p P Q X -> t ∈ X -> tx_From (txs_store p t) = Some a -> t ∈ txs_at P a \/ t ∈ txs_at Q a.
Proof.
  intros [H Hf _ _ _] Ht E. apply Hf in Ht as (b & Ht). assert (b = a) as ->; [|done]. destruct Ht as [Ht|Ht].
  - destruct (reps_at_good _ _ _ _ _ _ (pk_pending _ _ _ _ _ H) Ht) as [_ E']. congruence.
  - destruct (reps_at_good _ _ _ _ _ _ (pk_queue _ _ _ _ _ H) Ht) as [_ E']. congruence.
Qed.

(** The effect of taking a transaction out of the pool. *)
Inductive takes_out (p : TxsPool) (P Q : gmap Z (list Ptr)) (n : txNoncer.Noncer) (t : Ptr) (a : Z) : gmap Z (list Ptr) -> gmap Z (list Ptr) -> txNoncer.Noncer -> Prop :=
| out_pending Q' : t ∈ txs_at P a -> (forall a', a' <> a -> Q' !! a' = Q !! a') ->
    txs_at Q' a ≡ₚ base.filter (fun x => nonce p t < nonce p x) (txs_at P a) ++ txs_at Q a ->
    takes_out p P Q n t a (put P a (base.filter (fun x => nonce p x < nonce p t) (txs_at P a))) Q' (txNoncer.setIfLower a (nonce p t) n)
| out_queue : t ∈ txs_at Q a -> takes_out p P Q n t a P (put Q a (base.filter (fun x => nonce p x <> nonce p t) (txs_at Q a))) n.

Lemma full_without P Q X t a P' Q' : full P Q X -> (forall a', a' <> a -> txs_at P' a' = txs_at P a' /\ txs_at Q' a' = txs_at Q a') ->
  (forall a', a' <> a -> t ∉ txs_at P a' /\ t ∉ txs_at Q a') ->
  (forall x, x ∈ txs_at P' a \/ x ∈ txs_at Q' a <-> (x ∈ txs_at P a \/ x ∈ txs_at Q a) /\ x <> t) -> full P' Q' (X ∖ {[t]}).
Proof.
  intros Hf Ho Ht Ha x. rewrite elem_of_difference, elem_of_singleton, (Hf x). split.
  - intros [(a' & Hx) Hne]. exists a'. destruct (decide (a' = a)) as [->|Hne']; [by apply Ha|]. destruct (Ho a' Hne') as [-> ->]. done.
  - intros (a' & Hx). destruct (decide (a' = a)) as [->|Hne']; [apply Ha in Hx as [Hx Hne]; eauto|]. destruct (Ho a' Hne') as [E1 E2]. rewrite E1, E2 in Hx.
    split; [by exists a'|]. intros ->. destruct (Ht a' Hne'). tauto.
Qed.

Lemma nonces_sim p p' (ts : list Ptr) : keeps p p' -> (fun x => nonce p' x) <$> ts = (fun x => nonce p x) <$> ts.
Proof. intros K. apply list_fmap_ext. intros _ x _. by apply keeps_nonce. Qed.

Lemma takes_out_full p P Q X n t a P' Q' n' : pool_inv p P Q X -> t ∈ X -> tx_From (txs_store p t) = Some a -> takes_out p P Q n t a P' Q' n' -> full P' Q' (X ∖ {[t]}).
Proof.
  intros [H Hf _ _ _] Ht E Ho. pose proof (reps_sorted _ _ _ _ a (pk_pending _ _ _ _ _ H)) as HsP. pose proof (reps_sorted _ _ _ _ a (pk_queue _ _ _ _ _ H)) as HsQ.
  assert (Helse : forall a', a' <> a -> t ∉ txs_at P a' /\ t ∉ txs_at Q a').
  { intros a' Hne. split; intros Hx.
    - destruct (reps_at_good _ _ _ _ _ _ (pk_pending _ _ _ _ _ H) Hx) as [_ E']. congruence.
    - destruct (reps_at_good _ _ _ _ _ _ (pk_queue _ _ _ _ _ H) Hx) as [_ E']. congruence. }
  pose proof (pk_disjoint _ _ _ _ _ H a) as Hd. destruct Ho as [Q' HtP Hother HQ'|HtQ]; apply (full_without P Q X t a); try done.
  - intros a' Hne. rewrite txs_at_put, decide_False by done. split; [done|]. unfold txs_at. by rewrite Hother.
  - intros x. rewrite txs_at_put, decide_True, HQ', elem_of_app, !list_elem_of_filter by done. split.
    + intros [[Hlt Hx]|[[Hlt Hx]|Hx]]; (split; [tauto|]); intros ->; [lia|lia|]. by apply (Hd t t).
    + intros [[Hx|Hx] Hne]; [|tauto]. destruct (Z.lt_trichotomy (nonce p x) (nonce p t)) as [?|[En|?]]; [tauto| |tauto].
      exfalso. apply Hne. by apply (ascending_inj (V := txs_store p) (txs_at P a)).
  - intros a' Hne. by rewrite txs_at_put, decide_False.
  - intros x. rewrite txs_at_put, decide_True, list_elem_of_filter by done. split.
    + intros [Hx|[Hne Hx]]; (split; [tauto|]); intros ->; [by apply (Hd t t)|done].
    + intros [[Hx|Hx] Hne]; [tauto|]. right. split; [|done]. intros En. apply Hne. by apply (ascending_inj (V := txs_store p) (txs_at Q a)).
Qed.

Lemma elem_of_nonces p (ts : list Ptr) n : n ∈ (fun t => nonce p t) <$> ts <-> exists t, t ∈ ts /\ nonce p t = n.
Proof. rewrite list_elem_of_fmap. split; intros (t & H1 & H2); by exists t. Qed.

Lemma chained_keeps p p' P : keeps p p' -> pendingNonces p' = pendingNonces p -> chained p P -> chained p' P.
Proof.
  unfold chained. destruct mode as [exact|]; [|done]. intros K En [H1 H2]. rewrite En, (kp_state _ _ K). split; [done|]. intros a. rewrite (nonces_sim p p') by done. apply H2.
Qed.

Lemma takes_out_chained p p' P Q t a P' Q' : chained p P -> keeps p p' -> takes_out p P Q (pendingNonces p) t a P' Q' (pendingNonces p') -> chained p' P'.
Proof.
  unfold chained. destruct mode as [exact|]; [|done]. intros [H1 H2] K Ho. inversion Ho as [Q2 Ht Hq Hp E1 E2 E3|Ht E1 E2 E3]; subst.
  - rewrite fallback_lower, (kp_state _ _ K). split; [done|]. intros a'. rewrite next_nonce_lower, (nonces_sim p p'), txs_at_put by done. case_decide as Ea; [subst a'|by apply H2].
    eapply chain_at_below; [apply H2|apply elem_of_nonces; by exists t|]. intros m. rewrite !elem_of_nonces. setoid_rewrite list_elem_of_filter. naive_solver.
  - rewrite (kp_state _ _ K). split; [done|]. intros a'. rewrite (nonces_sim p p') by done. apply H2.
Qed.

(** Removing a transaction by its hash: it leaves its list, and if it was pending those
    behind it are queued again. *)
Lemma removeTx_ends h b p P Q X : pool_inv p P Q X -> ends (removeTx iter Hash Now config h b) p (fun _ p' => keeps p p' /\
  match txLookup.Get h (all p) with
  | None => p' = p
  | Some t => exists a P' Q', tx_From (txs_store p t) = Some a /\ takes_out p P Q (pendingNonces p) t a P' Q' (pendingNonces p') /\ pool_inv p' P' Q' (X ∖ {[t]})
  end).
Proof.
  intros Hi. pose proof Hi as [H Hf HlP HlQ Hc]. unfold removeTx. go. destruct (txLookup.Get h (all p)) as [t|] eqn:Eg; [|by go].
  apply (ao_get _ _ _ _ (pk_all _ _ _ _ _ H)) in Eg as [<- Ht]. pose proof (ao_good _ _ _ _ (pk_all _ _ _ _ _ H) t Ht) as Hg.
  destruct (good_sender _ _ Hg) as (a & Ea & _). go. call (by eapply from_of_ends). intros r p0 [-> ->]. go.
  call (by eapply all_Remove_ends). intros _ p1 (al & -> & H1). go.
  apply (ends_mono _ _ (fun _ p2 => pool_ok p2 P Q (X ∖ {[t]}) /\ quiet p p2)).
  { destruct b; [|go; by split]. call by apply (priced_Removed_ends iter iter_perm Hash). intros _ p2 (s2 & -> & H2 & K2). split; [done|]. split; [|done].
    etransitivity; [|exact K2]. by apply set_all_keeps. }
  intros _ p2 [H2 [K2 E2]]. go. assert (En : forall x, nonce p2 x = nonce p x) by (intros x; by apply keeps_nonce).
  destruct (pv_sender _ _ _ _ _ _ Hi Ht Ea) as [HtP|HtQ].
  - call (apply (remove_pending_ends a t p2 P Q _ H2)).
    + intros x Hx. destruct (decide (x = t)) as [->|Hne]; [by right|left]. apply elem_of_difference. split; [apply Hf; eauto|by apply not_elem_of_singleton].
    + intros _ x Hx. apply elem_of_difference. split; [apply Hf; eauto|]. apply not_elem_of_singleton. intros ->. by apply (pk_disjoint _ _ _ _ _ H a t t).
    + intros r p3 (K3 & -> & H3). rewrite (nonces_sim p p2) in H3 |- * by done. rewrite bool_decide_eq_true_2 in H3 |- * by (apply list_elem_of_fmap; exists t; by rewrite En).
      destruct H3 as (E3 & Q3 & H3 & Ho & Hp & Hl). go. split; [by etransitivity|]. exists a, (put P a (base.filter (fun x => nonce p2 x < nonce p2 t) (txs_at P a))), Q3.
      assert (HT : takes_out p P Q (pendingNonces p) t a (put P a (base.filter (fun x => nonce p2 x < nonce p2 t) (txs_at P a))) Q3 (pendingNonces p3)).
      { rewrite E3, E2, En. erewrite (list_filter_iff _ (fun x => nonce p x < nonce p t)) by (intros x; by rewrite En). constructor; [done|done|].
        rewrite Hp, En. apply Permutation_app_tail, reflexive_eq, list_filter_iff. intros x. by rewrite En. }
      split_and!; [done|done|]. split; [done|by eapply takes_out_full|by apply lean_put|by apply Hl|]. eapply takes_out_chained; [done| |done]. by etransitivity.
  - call (apply (remove_pending_ends a t p2 P Q _ H2)).
    + intros x Hx. left. apply elem_of_difference. split; [apply Hf; eauto|]. apply not_elem_of_singleton. intros ->. by apply (pk_disjoint _ _ _ _ _ H a t t).
    + rewrite (nonces_sim p p2), En by done. intros (y & E & Hy)%list_elem_of_fmap. by destruct (pk_disjoint _ _ _ _ _ H a y t Hy HtQ).
    + intros r p3 (K3 & -> & H3). rewrite (nonces_sim p p2), En in H3 |- * by done.
      rewrite bool_decide_eq_false_2 in H3 |- * by (intros (y & E & Hy)%list_elem_of_fmap; by destruct (pk_disjoint _ _ _ _ _ H a y t Hy HtQ)).
      destruct H3 as [E3 H3]. go. call by apply (remove_queued_ends a t p3 P Q). intros _ p4 [[K4 E4] H4]. assert (K : keeps p p3) by by etransitivity.
      split; [by etransitivity|]. rewrite (list_filter_iff _ (fun x => nonce p x <> nonce p t)) in H4 by (intros x; by rewrite !(keeps_nonce p p3)).
      assert (HT : takes_out p P Q (pendingNonces p) t a P (put Q a (base.filter (fun x => nonce p x <> nonce p t) (txs_at Q a))) (pendingNonces p4)).
      { rewrite E4, E3, E2. by constructor. }
      exists a, P, (put Q a (base.filter (fun x => nonce p x <> nonce p t) (txs_at Q a))). split_and!; [done|done|].
      split; [done|by eapply takes_out_full|done|by apply lean_put|]. eapply takes_out_chained; [done| |done]. by etransitivity.
Qed.
End Ops.
