(* ===== verification/TxPoolAdd.v ===== *)
(** * Adding transactions to the pool

    [add] keeps the invariant whatever it answers; a transaction it accepts is known
    afterwards. *)

From stdpp Require Import sorting.
From S2P Require Import Prelude Uint256 Wire Transaction StateTransition Heap TxList TxListTheorems TxLookup TxPriced Ends TxPricedTheorems TxPool TxPoolBase TxPoolOps.
Import TxsPoolConfig.

(** Limits that fit the machine, and an account may have a transaction. *)
Record config_ok (c : Config) : Prop := {
  co_slots : 0 <= GlobalSlots c;
  co_queue : 0 <= GlobalQueue c;
  co_global : GlobalSlots c + GlobalQueue c < two63;
  co_accountSlots : 1 <= AccountSlots c < two64;
  co_accountQueue : 0 <= AccountQueue c < two63
}.

Lemma NoDup_bound (l : list N) (n : N) : NoDup l -> (forall x, x ∈ l -> (x < n)%N) -> (length l <= N.to_nat n)%nat.
Proof.
  intros Hnd Hl. rewrite <- (length_seq (N.to_nat n) 0), <- (length_fmap N.to_nat l). apply submseteq_length, NoDup_submseteq.
  - apply NoDup_fmap_2; [|done]. intros x y. apply N2Nat.inj.
  - intros k (x & -> & Hx)%list_elem_of_fmap. apply elem_of_seq. specialize (Hl x Hx). lia.
Qed.

Lemma addresses_bound (X : gset Ptr) : (forall t, t ∈ X -> is_address t) -> Z.of_nat (size X) <= 2 ^ 48.
Proof.
  intros H. unfold size, set_size. pose proof (NoDup_bound (elements X) (2 ^ 48)%N (NoDup_elements X)) as Hb.
  assert (length (elements X) <= N.to_nat (2 ^ 48))%nat by (apply Hb; intros x Hx; by apply H, elem_of_elements). cbn [compose]. lia.
Qed.

Section Add.
Context {U : Uint256} {UL : Uint256Laws U}.
Context (iter : forall A : Type, list A -> list A) (iter_perm : forall A (l : list A), iter A l ≡ₚ l) (Hash : Ptr -> Z) (Now : nat -> Z).
Context (config : Config) (cfg : config_ok config) (mode : option bool).
Notation nonce p t := (tx_Nonce (txs_store p t)).
Notation pool_ok := (pool_ok Hash).
Notation pool_inv := (pool_inv Hash mode).

Lemma inv_quiet p p' P Q X : pool_inv p P Q X -> pool_ok p' P Q X -> quiet p p' -> pool_inv p' P Q X.
Proof. intros [_ H2 H3 H4 H5] H [K E]. split; try done. by eapply chained_keeps. Qed.

Lemma slots_bound p P Q X : pool_ok p P Q X -> 0 <= txLookup.Slots (all p) <= 2 ^ 48.
Proof.
  intros H. unfold txLookup.Slots. rewrite (ao_slots _ _ _ _ (pk_all _ _ _ _ _ H)). split; [lia|]. apply addresses_bound. intros t Ht.
  apply (ao_good _ _ _ _ (pk_all _ _ _ _ _ H) t Ht).
Qed.

(** ** Validation *)

Lemma validateTx_done t local p P Q X : pool_ok p P Q X -> good (txs_store p) t -> exists r, validateTx t local p = Done r.
Proof.
  intros H [Hw [a Ea] _ _]. destruct (wf_price _ Hw) as (pr & Ep & Hpr), (wf_tip _ Hw) as (tip & Et & _), (wf_value _ Hw) as (v & Ev & _).
  unfold Tx.GasPrice, Tx.GasTipCap, Tx.Value, view in Ep, Et, Ev. pose proof (Cost_ok (V := txs_store p) t Hw) as Ec. unfold Tx.Cost, view in Ec.
  unfold validateTx, sender. rewrite Ea, Ev, Ep, Et, feeCap_price, Ep, Ec. cbn [deref mbind outcome_bind].
  repeat match goal with |- exists r, (if ?b then _ else _) = _ => destruct b; [by eexists|] end.
  destruct (IntrinsicGas _ _ _ _ _ _) as [g [err|]]; [by eexists|]. destruct (_ <? g); by eexists.
Qed.

(** ** Room *)

Lemma on_priced_inv {A} (op : M txPricedList.PricedState A) p P Q X (R : A -> Prop) : pool_inv p P Q X ->
  ends op (priced_state p) (fun a s => priced_ok (txs_store p) s /\ R a) ->
  ends (on_priced op) p (fun a p' => quiet p p' /\ all p' = all p /\ pool_inv p' P Q X /\ R a).
Proof.
  intros H Hop. call (by eapply (on_priced_ends Hash op p P Q X R); [apply H|]). intros a p' (s & -> & H1 & K1 & HR).
  assert (quiet p (set_priced s p)) by (by split). split_and!; [done|done| |done]. by eapply inv_quiet.
Qed.

Lemma evict_ends drop : forall p P Q X, pool_inv p P Q X -> ends (for_each (fun t => removeTx iter Hash Now config (Hash t) false) drop) p
  (fun _ p' => keeps p p' /\ exists P' Q' X', pool_inv p' P' Q' X' /\ X' ⊆ X).
Proof.
  induction drop as [|t drop IH]; intros p P Q X H; cbn [for_each]; [go; split; [done|]; by exists P, Q, X|]. go.
  call (by eapply (removeTx_ends iter iter_perm Hash Now config mode)). intros _ p1 [K1 H1].
  assert (exists P1 Q1 X1, pool_inv p1 P1 Q1 X1 /\ X1 ⊆ X) as (P1 & Q1 & X1 & H1' & Hs).
  { destruct (txLookup.Get _ _) as [t'|]; [|subst; by exists P, Q, X]. destruct H1 as (a & P1 & Q1 & _ & _ & H1). exists P1, Q1, (X ∖ {[t']}). split; [done|]. set_solver. }
  call by eapply IH. intros _ p2 (K2 & P2 & Q2 & X2 & H2 & Hs2). split; [by etransitivity|]. exists P2, Q2, X2. split; [done|]. set_solver.
Qed.

Lemma make_room_ends t isLocal p P Q X : pool_inv p P Q X -> good (txs_store p) t -> ends (TxPool.make_room iter Hash Now config t isLocal) p
  (fun _ p' => keeps p p' /\ exists P' Q' X', pool_inv p' P' Q' X' /\ X' ⊆ X).
Proof.
  intros H Hg. unfold TxPool.make_room. go. pose proof (slots_bound _ _ _ _ (pv_ok _ _ _ _ _ _ H)) as Hb. destruct cfg as [C1 C2 C3 _ _].
  change (txLookup.numSlots t) with 1. rewrite !u64_small by lia.
  destruct (Z.leb_spec (txLookup.Slots (all p) + 1) (GlobalSlots config + GlobalQueue config)) as [Hle|Hgt].
  { go. split; [done|]. by exists P, Q, X. }
  go. apply (ends_mono _ _ (fun _ p' => quiet p p' /\ all p' = all p /\ pool_inv p' P Q X)).
  { destruct isLocal; [by go|]. call (apply (on_priced_inv _ p P Q X (fun _ => True)); [done|]); [|tauto].
    call (apply Underpriced_ends; [apply wf_fees, Hg|apply H]). done. }
  intros under p1 (K1 & E1 & H1). destruct under; [go; split; [apply K1|]; by exists P, Q, X|]. go.
  destruct (_ <? changesSinceReorg p1); [go; split; [apply K1|]; by exists P, Q, X|]. go. rewrite E1.
  assert (Hi : i64 (GlobalSlots config + GlobalQueue config) = GlobalSlots config + GlobalQueue config) by (unfold i64; rewrite Z.mod_small; lia). rewrite Hi.
  call (eapply (on_priced_inv _ p1 P Q X (fun _ => True)); [done|]).
  { call (apply Discard_ends; [lia|apply H1]). by intros [drop ok] s (Hs & _). }
  intros [drop ok] p2 (K2 & _ & H2 & _). assert (K : quiet p p2) by by etransitivity. destruct (negb isLocal && negb ok); [go; split; [apply K|]; by exists P, Q, X|]. go.
  assert (H3 : pool_inv (set_changes (changesSinceReorg p2 + zlen drop) p2) P Q X).
  { eapply inv_quiet; [exact H2| |by split]. by destruct (pv_ok _ _ _ _ _ _ H2). }
  call by eapply evict_ends. intros _ p3 (K3 & H3'). go. split; [|done]. etransitivity; [apply K|]. etransitivity; [|exact K3]. by split.
Qed.

(** ** New transactions in the lists *)

(** What inserting does to the transactions of a list. *)
Lemma elem_of_insert_old (st : Store) t ts x : ascending (V := st) ts -> let old := items_of (V := st) ts !! tx_Nonce (st t) in
  x ∈ sl_insert (V := st) t ts <-> x = t \/ (x ∈ ts /\ old <> Some x).
Proof.
  intros Hs old. rewrite (elem_of_sl_insert (V := st)) by done. split; (intros [->|[Hx Hne]]; [by left|right; split; [done|]]).
  - intros E. apply (items_of_lookup (V := st)) in E as [_ E]; [|done]. done.
  - intros E. apply Hne. by apply (items_of_lookup (V := st)).
Qed.

Lemma elem_of_without X old x : x ∈ without X old <-> x ∈ X /\ old <> Some x.
Proof.
  destruct old as [o|]; cbn; [|by split; [|tauto]]. rewrite elem_of_difference, elem_of_singleton. split; (intros [H1 H2]; split; [done|]); congruence.
Qed.

Lemma full_insert_pending p P Q X a t : pool_inv p P Q X -> t ∉ X -> tx_From (txs_store p t) = Some a ->
  full (<[a := sl_insert (V := txs_store p) t (txs_at P a)]> P) Q (without X (old_of p (txs_at P a) t) ∪ {[t]}).
Proof.
  intros [H Hf _ _ _] Ht Ea x. pose proof (reps_sorted _ _ _ _ a (pk_pending _ _ _ _ _ H)) as Hs. rewrite elem_of_union, elem_of_singleton, elem_of_without, (Hf x). split.
  - intros [[(a' & [Hx|Hx]) Hne]| ->].
    + exists a'. left. rewrite txs_at_insert. case_decide as E; [|done]. subst a'. apply elem_of_insert_old; [done|]. by right.
    + exists a'. by right.
    + exists a. left. rewrite txs_at_insert, decide_True by done. apply elem_of_insert_old; [done|]. by left.
  - intros (a' & [Hx|Hx]).
    + rewrite txs_at_insert in Hx. case_decide as E.
      * subst a'. apply elem_of_insert_old in Hx as [->|[Hx Hne]]; [by right| |done]. left. split; [eauto|done].
      * left. split; [eauto|]. intros Eo. apply old_of_spec in Eo as [Ho _]; [|done]. destruct (reps_at_good _ _ _ _ _ _ (pk_pending _ _ _ _ _ H) Hx) as [_ E1].
        destruct (reps_at_good _ _ _ _ _ _ (pk_pending _ _ _ _ _ H) Ho) as [_ E2]. congruence.
    + left. split; [eauto|]. intros Eo. apply old_of_spec in Eo as [Ho _]; [|done]. destruct (reps_at_good _ _ _ _ _ _ (pk_queue _ _ _ _ _ H) Hx) as [_ E1].
      destruct (reps_at_good _ _ _ _ _ _ (pk_pending _ _ _ _ _ H) Ho) as [_ E2]. assert (a' = a) as -> by congruence. by apply (pk_disjoint _ _ _ _ _ H a x x).
Qed.

Lemma full_insert_queue p P Q X a t : pool_inv p P Q X -> t ∉ X -> tx_From (txs_store p t) = Some a ->
  full P (<[a := sl_insert (V := txs_store p) t (txs_at Q a)]> Q) (without X (old_of p (txs_at Q a) t) ∪ {[t]}).
Proof.
  intros [H Hf _ _ _] Ht Ea x. pose proof (reps_sorted _ _ _ _ a (pk_queue _ _ _ _ _ H)) as Hs. rewrite elem_of_union, elem_of_singleton, elem_of_without, (Hf x). split.
  - intros [[(a' & [Hx|Hx]) Hne]| ->].
    + exists a'. by left.
    + exists a'. right. rewrite txs_at_insert. case_decide as E; [|done]. subst a'. apply elem_of_insert_old; [done|]. by right.
    + exists a. right. rewrite txs_at_insert, decide_True by done. apply elem_of_insert_old; [done|]. by left.
  - intros (a' & [Hx|Hx]).
    + left. split; [eauto|]. intros Eo. apply old_of_spec in Eo as [Ho _]; [|done]. destruct (reps_at_good _ _ _ _ _ _ (pk_pending _ _ _ _ _ H) Hx) as [_ E1].
      destruct (reps_at_good _ _ _ _ _ _ (pk_queue _ _ _ _ _ H) Ho) as [_ E2]. assert (a' = a) as -> by congruence. by apply (pk_disjoint _ _ _ _ _ H a x x).
    + rewrite txs_at_insert in Hx. case_decide as E.
      * subst a'. apply elem_of_insert_old in Hx as [->|[Hx Hne]]; [by right| |done]. left. split; [eauto|done].
      * left. split; [eauto|]. intros Eo. apply old_of_spec in Eo as [Ho _]; [|done]. destruct (reps_at_good _ _ _ _ _ _ (pk_queue _ _ _ _ _ H) Hx) as [_ E1].
        destruct (reps_at_good _ _ _ _ _ _ (pk_queue _ _ _ _ _ H) Ho) as [_ E2]. congruence.
Qed.

(** ** [add] *)

(** The set of local accounts may have grown. *)
Record calm (p p' : TxsPool) : Prop := {
  cm_sim : sim (txs_store p) (txs_store p');
  cm_state : currentState p' = currentState p;
  cm_maxGas : currentMaxGas p' = currentMaxGas p
}.

#[global] Instance calm_preorder : PreOrder calm.
Proof. split; [by intros p|]. intros a b c [H1 H2 H3] [K1 K2 K3]. split; [by etransitivity|congruence..]. Qed.

Lemma keeps_calm p p' : keeps p p' -> calm p p'.
Proof. by intros [H1 H2 H3 H4]. Qed.

(** What an attempt to add a transaction has done. *)
Definition added (t : Ptr) (X X' : gset Ptr) (err : option PoolError) : Prop :=
  match err with None => t ∈ X' /\ X' ⊆ {[t]} ∪ X | Some _ => X' ⊆ X end.

(** Only the nonces that are pending count. *)
Lemma chained_nonces p p' P P' : chained mode p P -> keeps p p' -> pendingNonces p' = pendingNonces p ->
  (forall a n, n ∈ (fun t => nonce p t) <$> txs_at P' a <-> n ∈ (fun t => nonce p t) <$> txs_at P a) -> chained mode p' P'.
Proof.
  intros Hc K En H. apply (chained_keeps mode p p'); [done|done|]. revert Hc. unfold chained. destruct mode as [exact|]; [|done]. intros [H1 H2]. split; [done|].
  intros a. eapply chain_at_ext; [|apply H2]. apply H.
Qed.

(** An event for a transaction that is there. *)
Lemma set_events_ok t p P Q X : pool_ok p P Q X -> good (txs_store p) t -> pool_ok (set_events (queueTxEventCh p ++ [t]) p) P Q X.
Proof. intros [H1 H2 H3 H4 H5 H6 H7] Hg. split; try done. cbn. apply Forall_app. split; [done|by constructor]. Qed.

Lemma replace_pending_ends a t isLocal p P Q X : pool_inv p P Q X -> good (txs_store p) t -> tx_From (txs_store p t) = Some a -> (forall x, x ∈ X -> Hash x <> Hash t) ->
  nonce p t ∈ (fun x => nonce p x) <$> txs_at P a ->
  ends (replace_pending iter Hash Now config a t isLocal) p (fun '(_, err) p' => keeps p p' /\ exists P' X', pool_inv p' P' Q X' /\ added t X X' err).
Proof.
  intros Hi Hg Ea Hn Hin. pose proof Hi as [H Hf HlP HlQ Hc]. assert (HtX : t ∉ X) by (intros Ht; by apply (Hn t Ht)).
  apply elem_of_nonces in Hin as (o & Ho & Eo). pose proof (reps_sorted _ _ _ _ a (pk_pending _ _ _ _ _ H)) as Hs.
  assert (Eold : old_of p (txs_at P a) t = Some o) by by apply old_of_spec.
  destruct (P !! a) as [ts|] eqn:EP; [|unfold txs_at in Ho; rewrite EP in Ho; by apply elem_of_nil in Ho].
  assert (Eat : txs_at P a = ts) by (unfold txs_at; by rewrite EP). unfold replace_pending. go.
  set (acc := better (V := txs_store p) (PriceBump config) o t).
  call (apply (on_pending_ends Hash a _ p P Q X ts (fun r ts' => r = (acc, if acc then Some o else None) /\ ts' = if acc then sl_insert (V := txs_store p) t ts else ts)); [done|done|]).
  { intros l Hl. destruct (held_Add config true _ a l ts t Hl Hg Ea) as (l' & E & Hl'). unfold old_of in Eold. rewrite Eat in Eold. rewrite Eold in E, Hl'. by eexists _, l', _. }
  intros r p1 (m & ts' & [-> ->] & -> & Hm). destruct acc; cbn [negb].
  2: { go. split; [by split|]. exists P, X. split; [|by unfold added]. rewrite insert_id in Hm by done. eapply inv_quiet; [exact Hi| |by split]. eapply set_pending_ok; [done|done|]. apply H. }
  set (P1 := <[a := sl_insert (V := txs_store p) t ts]> P) in *. assert (H1 : pool_ok (set_pending m p) P1 Q X).
  { eapply set_pending_ok; [done|done|]. intros a' x y Hx Hy. unfold P1 in Hx. rewrite txs_at_insert in Hx. case_decide as E; [|by eapply H]. subst a'.
    apply elem_of_sl_insert in Hx as [->|[Hx _]]; [|eapply H; [by rewrite Eat|done]|by rewrite <- Eat]. rewrite <- Eo. by eapply H. }
  cbv beta match. apply ends_bind. call (apply (drop_old_ends iter iter_perm Hash (Some o)); [exact H1|]); [intros o' [= <-]; apply Hf; exists a; by left|]. intros _ p2 [H2 K2].
  cbn [without] in H2. assert (Hg2 : good (txs_store p2) t) by (eapply sim_good; [apply (kp_sim _ _ (proj1 K2))|done]).
  apply ends_assoc, ends_bind. call (apply (index_tx_ends Hash t isLocal p2 P1 Q (X ∖ {[o]})); [done|done|]); [intros x Hx; apply Hn; set_solver|]. intros _ p3 [H3 K3].
  unfold queueTxEvent. go. call (apply (beat_ok Hash Now a _ P1 Q (X ∖ {[o]} ∪ {[t]}))); [apply set_events_ok; [done|]; eapply sim_good; [apply (kp_sim _ _ (proj1 K3))|done]|]. intros _ p4 [H4 K4]. go.
  assert (K : quiet p p4) by (transitivity (set_pending m p); [by split|]; etransitivity; [exact K2|]; etransitivity; [exact K3|]; etransitivity; [|exact K4]; by split).
  split; [apply K|]. exists P1, (X ∖ {[o]} ∪ {[t]}). split; [|unfold added; set_solver]. split; [done| |apply lean_insert; [done|apply sl_insert_not_nil]|done|].
  - pose proof (full_insert_pending p P Q X a t Hi HtX Ea) as Hfull. rewrite Eold, Eat in Hfull. exact Hfull.
  - eapply (chained_nonces p); [exact Hc|apply K|apply K|]. intros a' n. unfold P1. rewrite txs_at_insert. case_decide as E; [|done]. subst a'. rewrite Eat, !elem_of_nonces.
    setoid_rewrite elem_of_insert_old; [|by rewrite <- Eat]. unfold old_of in Eold. rewrite Eat in Eold. rewrite Eold. split.
    + intros (x & [->|[Hx _]] & <-); [exists o; by rewrite <- Eat|by exists x].
    + intros (x & Hx & <-). destruct (decide (x = o)) as [->|Hne]; [exists t; split; [by left|done]|]. exists x. split; [right; split; [done|congruence]|done].
Qed.

Lemma mark_local_ends a p P Q X : pool_inv p P Q X -> ends (mark_local iter a) p (fun _ p' => calm p p' /\ pool_inv p' P Q X).
Proof.
  intros Hi. pose proof (pv_ok _ _ _ _ _ _ Hi) as H. unfold mark_local. go. set (p0 := set_locals _ p). apply ends_zoom.
  call (apply (RemoteToLocals_ends Hash iter (txs_store p) (locals p0) X); [done|apply H]). intros n al Hal.
  assert (H1 : pool_ok (set_all al p0) P Q X) by by destruct H.
  call by apply (priced_Removed_ends iter iter_perm Hash). intros _ p2 (s & -> & H2 & K2). split; [by destruct (keeps_calm _ _ K2)|].
  destruct Hi as [_ H3 H4 H5 H6]. split; [done|done|done|done|]. apply (chained_keeps mode (set_all al p0)); [done|done|exact H6].
Qed.

(** A transaction of a pool that is well formed. *)
Lemma known_spec p P Q X t : pool_ok p P Q X -> bool_decide (txLookup.Get (Hash t) (all p) <> None) = false -> forall x, x ∈ X -> Hash x <> Hash t.
Proof.
  intros H E x Hx Eh. apply bool_decide_eq_false in E. apply E. assert (txLookup.Get (Hash t) (all p) = Some x) by by apply (ao_get _ _ _ _ (pk_all _ _ _ _ _ H)). congruence.
Qed.

Lemma enqueue_new_ends t isLocal a p P Q X : pool_inv p P Q X -> good (txs_store p) t -> tx_From (txs_store p t) = Some a -> (forall x, x ∈ X -> Hash x <> Hash t) ->
  nonce p t ∉ (fun x => nonce p x) <$> txs_at P a ->
  ends (enqueueTx iter Hash Now config (Hash t) t isLocal true) p (fun '(_, err) p' => quiet p p' /\ exists Q' X', pool_inv p' P Q' X' /\ added t X X' err).
Proof.
  intros Hi Hg Ea Hn Hnot. pose proof Hi as [H Hf HlP HlQ Hc]. assert (HtX : t ∉ X) by (intros Ht; by apply (Hn t Ht)).
  pose proof (reps_sorted _ _ _ _ a (pk_queue _ _ _ _ _ H)) as Hs.
  call (apply (enqueueTx_ends iter iter_perm Hash Now config _ t isLocal true a p P Q X); [done|done|done| | |done]).
  - intros x Hx En. apply Hnot, elem_of_nonces. by exists x.
  - intros x Hx. apply Hf. eauto.
  - intros [replaced err] p1 [K1 H1]. split; [done|]. destruct (takes config p (txs_at Q a) t).
    + destruct H1 as (-> & _ & H1). eexists _, _. split; [split; [exact H1|by eapply full_insert_queue|done| |]|].
      * apply lean_insert; [done|apply sl_insert_not_nil].
      * by eapply chained_keeps; [apply K1|apply K1|].
      * unfold added. split; [set_solver|]. destruct (old_of p (txs_at Q a) t); cbn; set_solver.
    + destruct H1 as (-> & _ & H1). exists Q, X. split; [by eapply inv_quiet|by unfold added].
Qed.

Lemma added_weaken t X X' X'' err : added t X' X'' err -> X' ⊆ X -> added t X X'' err.
Proof. unfold added. destruct err; set_solver. Qed.

Lemma add_ends t local p P Q X : pool_inv p P Q X -> good (txs_store p) t ->
  ends (add iter Hash Now config t local) p (fun '(_, err) p' => calm p p' /\ exists P' Q' X', pool_inv p' P' Q' X' /\ added t X X' err).
Proof.
  intros Hi Hg. destruct (good_sender _ _ Hg) as (a & Ea & Es). unfold add. go.
  destruct (bool_decide (txLookup.Get (Hash t) (all p) <> None)) eqn:Ek; [go; split; [done|]; exists P, Q, X; split; [done|by unfold added]|].
  pose proof (known_spec _ _ _ _ _ (pv_ok _ _ _ _ _ _ Hi) Ek) as Hn. go.
  apply (ends_mono _ _ (fun _ p' => p' = p)).
  { destruct local; [by go|]. eapply ends_outcome; [unfold accountSet.containsTx; by rewrite Es|done]. }
  intros isLocal p' ->. go. destruct (validateTx_done t isLocal p P Q X (pv_ok _ _ _ _ _ _ Hi) Hg) as (invalid & Ev). eapply ends_outcome; [exact Ev|]. cbv beta.
  destruct invalid as [err|]; [go; split; [done|]; exists P, Q, X; split; [done|by unfold added]|]. go.
  call (by apply (make_room_ends t isLocal p P Q X)). intros room p1 (K1 & P1 & Q1 & X1 & H1 & Hsub).
  destruct room as [err|]; [go; split; [by apply keeps_calm|]; exists P1, Q1, X1; split; [done|by unfold added]|].
  pose proof (kp_sim _ _ K1) as Hsim. assert (Hg1 : good (txs_store p1) t) by by eapply sim_good. assert (Ea1 : tx_From (txs_store p1 t) = Some a) by (by rewrite (st_from _ _ (Hsim t))).
  assert (Hn1 : forall x, x ∈ X1 -> Hash x <> Hash t) by (intros x Hx; apply Hn; set_solver).
  go. call (by eapply from_of_ends). intros r p' [-> ->]. go.
  assert (Eov : match pending p1 !! a with Some l => txsList.Overlaps (V := txs_store p1) t l | None => false end = bool_decide (nonce p1 t ∈ (fun x => nonce p1 x) <$> txs_at P1 a)).
  { pose proof (reps_None _ _ _ _ a (pk_pending _ _ _ _ _ (pv_ok _ _ _ _ _ _ H1))) as HN. destruct (pending p1 !! a) as [l|] eqn:El.
    - destruct (reps_Some _ _ _ _ _ _ (pk_pending _ _ _ _ _ (pv_ok _ _ _ _ _ _ H1)) El) as (ts & Ets & _ & Hl & _). unfold txs_at. rewrite Ets. by apply (Overlaps_wf (V := txs_store p1)).
    - unfold txs_at. by rewrite (proj1 HN eq_refl). }
  rewrite Eov. case_bool_decide as Hin.
  - call (by eapply (replace_pending_ends a t isLocal p1 P1 Q1 X1)). intros [replaced err] p2 (K2 & P2 & X2 & H2 & Ha). split; [apply keeps_calm; by etransitivity|].
    exists P2, Q1, X2. split; [done|by eapply added_weaken].
  - go. call (by eapply (enqueue_new_ends t isLocal a p1 P1 Q1 X1)). intros [replaced err] p2 (K2 & Q2 & X2 & H2 & Ha).
    assert (K : calm p p2) by (apply keeps_calm; etransitivity; [exact K1|apply K2]). apply added_weaken with (X := X) in Ha; [|done].
    destruct err as [err|]; [go; split; [done|]; by exists P1, Q2, X2|]. go.
    apply (ends_mono _ _ (fun _ p3 => calm p2 p3 /\ pool_inv p3 P1 Q2 X2)).
    { destruct (local && _); [by apply mark_local_ends|by go]. }
    intros _ p3 [K3 H3]. go. split; [by etransitivity|]. by exists P1, Q2, X2.
Qed.

(** ** Batches *)

Lemma add_each_ends txs local : forall errs dirty p P Q X, pool_inv p P Q X -> Forall (good (txs_store p)) txs ->
  ends (add_each iter Hash Now config txs local errs dirty) p (fun '(errs', _) p' => calm p p' /\
    exists P' Q' X' news, pool_inv p' P' Q' X' /\ errs' = errs ++ news /\ length news = length txs /\ X' ⊆ list_to_set txs ∪ X).
Proof.
  induction txs as [|t txs IH]; intros errs dirty p P Q X Hi Hg; cbn [add_each].
  { go. split; [done|]. exists P, Q, X, []. rewrite app_nil_r. split_and!; [done|done|done|set_solver]. }
  inversion Hg as [|? ? Ht Hts]; subst. go. call (by apply (add_ends t local p P Q X)). intros [replaced err] p1 (K1 & P1 & Q1 & X1 & H1 & Ha). go.
  assert (Hg1 : Forall (good (txs_store p1)) (t :: txs)) by (eapply list.Forall_impl; [exact Hg|]; intros x; apply sim_good, K1). inversion Hg1 as [|? ? Ht1 Hts1]; subst.
  destruct (good_sender _ _ Ht1) as (a & _ & Es). apply (ends_mono _ _ (fun _ p' => p' = p1)).
  { destruct (_ && _); [|by go]. eapply ends_outcome; [unfold accountSet.addTx; by rewrite Es|done]. }
  intros dirty' p' ->. call (by apply (IH (errs ++ [err]) dirty' p1 P1 Q1 X1)). intros [errs' dirty''] p2 (K2 & P2 & Q2 & X2 & news & H2 & -> & El & Hsub).
  split; [by etransitivity|]. exists P2, Q2, X2, (err :: news). rewrite <- app_assoc. split_and!; [done|done|cbn; by rewrite El|].
  unfold added in Ha. destruct err; set_solver.
Qed.

Lemma addTxsLocked_ends txs local p P Q X : pool_inv p P Q X -> Forall (good (txs_store p)) txs ->
  ends (addTxsLocked iter Hash Now config txs local) p (fun '(errs, _) p' => calm p p' /\ length errs = length txs /\
    exists P' Q' X', pool_inv p' P' Q' X' /\ X' ⊆ list_to_set txs ∪ X).
Proof.
  intros Hi Hg. call (by apply (add_each_ends txs local [] _ p P Q X)). intros [errs dirty] p' (K & P' & Q' & X' & news & H & -> & El & Hsub).
  split_and!; [done|done|]. by exists P', Q', X'.
Qed.

(** The errors of a batch: those of the unknown transactions, in order, in the places that
    have no error yet. *)
Fixpoint weave (errs news : list (option PoolError)) : list (option PoolError) :=
  match errs, news with
  | Some e :: errs, _ => Some e :: weave errs news
  | None :: errs, e :: news => e :: weave errs news
  | _, _ => errs
  end.

Notation nones errs := (length (base.filter (fun e : option PoolError => e = None) errs)).

Lemma next_nil_spec pre : forall mid fuel rest, Forall (fun e => e <> None) mid -> (length mid < fuel)%nat ->
  next_nil fuel (pre ++ mid ++ None :: rest) (length pre) = Done (length pre + length mid)%nat.
Proof.
  intros mid. revert pre. induction mid as [|e mid IH]; intros pre [|fuel] rest Hm Hf; cbn [length] in *; try lia.
  - cbn [next_nil app]. rewrite lookup_app_r, Nat.sub_diag by lia. cbn. f_equal. lia.
  - inversion Hm as [|? ? He Hm']; subst. cbn [next_nil]. rewrite lookup_app_r, Nat.sub_diag by lia. cbn [app lookup list_lookup]. destruct e as [e|]; [|done].
    specialize (IH (pre ++ [Some e]) fuel rest Hm' ltac:(lia)). rewrite length_app in IH. cbn [length] in IH. rewrite <- app_assoc in IH. cbn [app] in IH.
    replace (S (length pre)) with (length pre + 1)%nat by lia. rewrite IH. f_equal. lia.
Qed.

Lemma split_nones errs : nones errs <> 0%nat -> exists mid rest, errs = mid ++ None :: rest /\ Forall (fun e => e <> None) mid.
Proof.
  induction errs as [|e errs IH]; [done|]. intros H. destruct e as [e|].
  - rewrite list.filter_cons_False in H by done. destruct (IH H) as (mid & rest & -> & Hm). exists (Some e :: mid), rest. split; [done|]. by constructor.
  - by exists [], errs.
Qed.

Lemma weave_nil errs : weave errs [] = errs.
Proof. induction errs as [|[e|] errs IH]; [done| |done]. cbn. by rewrite IH. Qed.

Lemma weave_app mid errs news : Forall (fun e => e <> None) mid -> weave (mid ++ errs) news = mid ++ weave errs news.
Proof. induction 1 as [|e mid He _ IH]; [done|]. destruct e as [e|]; [|done]. cbn. by rewrite IH. Qed.

Lemma nones_app mid errs : Forall (fun e => e <> None) mid -> nones (mid ++ errs) = nones errs.
Proof. induction 1 as [|e mid He _ IH]; [done|]. cbn [app]. by rewrite list.filter_cons_False. Qed.

Lemma merge_errs_spec news : forall pre errs, (length news <= nones errs)%nat -> merge_errs (pre ++ errs) news (length pre) = Done (pre ++ weave errs news).
Proof.
  induction news as [|e news IH]; intros pre errs Hl; cbn [merge_errs].
  { by rewrite weave_nil. }
  cbn [length] in Hl. destruct (split_nones errs) as (mid & rest & -> & Hm); [lia|]. rewrite nones_app, list.filter_cons_True in Hl by done. cbn [length] in Hl.
  rewrite next_nil_spec by (rewrite ?length_app; cbn; done || lia). cbn [mbind outcome_bind]. rewrite weave_app by done. cbn [weave].
  replace (pre ++ mid ++ None :: rest) with ((pre ++ mid) ++ None :: rest) by by rewrite app_assoc. rewrite <- length_app.
  rewrite insert_app_r_alt, Nat.sub_diag by done. cbn. replace (S (length (pre ++ mid))) with (length ((pre ++ mid) ++ [e])) by (rewrite length_app; cbn; lia).
  replace ((pre ++ mid) ++ e :: rest) with (((pre ++ mid) ++ [e]) ++ rest) by (by rewrite <- app_assoc). rewrite IH by lia. by rewrite <- !app_assoc.
Qed.

Lemma split_known_spec a txs : let '(errs, news) := split_known Hash a txs in
  errs = (fun t => if bool_decide (txLookup.Get (Hash t) a <> None) then Some ErrAlreadyKnown else None) <$> txs /\
  news = base.filter (fun t => txLookup.Get (Hash t) a = None) txs.
Proof.
  induction txs as [|t txs IH]; [done|]. cbn [split_known fmap list_fmap]. destruct (split_known Hash a txs) as [errs news]. destruct IH as [-> ->].
  rewrite list.filter_cons. destruct (txLookup.Get (Hash t) a); cbn; by rewrite ?decide_False, ?decide_True by done.
Qed.

Lemma nones_known a (txs : list Ptr) : nones ((fun t => if bool_decide (txLookup.Get (Hash t) a <> None) then Some ErrAlreadyKnown else None) <$> txs) =
  length (base.filter (fun t => txLookup.Get (Hash t) a = None) txs).
Proof.
  induction txs as [|t txs IH]; [done|]. cbn [fmap list_fmap]. destruct (txLookup.Get (Hash t) a) as [x|] eqn:E.
  - rewrite bool_decide_eq_true_2, !list.filter_cons_False by (by rewrite ?E). exact IH.
  - rewrite bool_decide_eq_false_2, !list.filter_cons_True by (rewrite ?E; tauto). cbn [length]. by rewrite IH.
Qed.

Lemma weave_length errs : forall news, length (weave errs news) = length errs.
Proof. induction errs as [|[e|] errs IH]; intros [|e' news]; cbn; by rewrite ?IH. Qed.

(** What a batch answers: an error per transaction, and the known ones are refused. *)
Lemma addTxs_ends txs local p P Q X : pool_inv p P Q X -> Forall (good (txs_store p)) txs ->
  ends (addTxs iter Hash Now config txs local) p (fun r p' => calm p p' /\ length (errors r) = length txs /\
    (forall i t, txs !! i = Some t -> txLookup.Get (Hash t) (all p) <> None -> errors r !! i = Some (Some ErrAlreadyKnown)) /\
    exists P' Q' X', pool_inv p' P' Q' X' /\ X' ⊆ list_to_set txs ∪ X).
Proof.
  intros Hi Hg. unfold addTxs. go. pose proof (split_known_spec (all p) txs) as Hs. destruct (split_known Hash (all p) txs) as [errs news]. destruct Hs as [-> ->].
  set (errs := _ <$> txs). set (news := base.filter _ txs).
  assert (Hk : forall l i t, txs !! i = Some t -> txLookup.Get (Hash t) (all p) <> None -> weave errs l !! i = Some (Some ErrAlreadyKnown)).
  { unfold errs. clear. induction txs as [|t txs IH]; intros l [|i] t' Ht Hk; try done.
    - injection Ht as ->. cbn [fmap list_fmap]. rewrite bool_decide_eq_true_2 by done. done.
    - cbn [fmap list_fmap]. destruct (bool_decide _); [by apply (IH l i t')|]. destruct l as [|e l]; [|by apply (IH l i t')].
      specialize (IH [] i t' Ht Hk). by rewrite weave_nil in IH. }
  destruct (Nat.eqb_spec (length news) 0) as [E0|Hne].
  { go. split_and!; [done|apply length_fmap| |exists P, Q, X; split; [done|set_solver]]. intros i t Ht HG. rewrite <- (Hk [] i t Ht HG). by rewrite weave_nil. }
  go. call (apply (addTxsLocked_ends news local p P Q X); [done|]).
  { apply list.Forall_forall. intros x [_ Hx]%list_elem_of_filter. rewrite list.Forall_forall in Hg. by apply Hg. }
  intros [newErrs dirty] p1 (K1 & El & P1 & Q1 & X1 & H1 & Hsub). cbv beta match. apply ends_bind. eapply ends_outcome.
  { apply (merge_errs_spec newErrs [] errs). rewrite El. unfold errs. by rewrite nones_known. }
  go. split_and!; [done|cbn; rewrite weave_length; apply length_fmap|intros i t Ht HG; by apply Hk with t|]. exists P1, Q1, X1. split; [done|].
  etransitivity; [exact Hsub|]. apply union_mono_r. intros x. rewrite !elem_of_list_to_set. by intros [_ Hx]%list_elem_of_filter.
Qed.
End Add.
