(* ===== verification/TxPoolPromote.v ===== *)
(** * Promotion in the transaction pool

    Transactions on the way between the lists of an account, and promotion of what can be
    executed: the nonces of the pending transactions stay without a gap. *)

From stdpp Require Import sorting.
From S2P Require Import Prelude Uint256 Wire Transaction Heap TxList TxListTheorems TxLookup TxPriced Ends TxPricedTheorems TxPool TxPoolBase TxPoolOps TxPoolAdd.
Import TxsPoolConfig.

Section Promote.
Context {U : Uint256} {UL : Uint256Laws U}.
Context (iter : forall A : Type, list A -> list A) (iter_perm : forall A (l : list A), iter A l ≡ₚ l) (Hash : Ptr -> Z) (Now : nat -> Z).
Context (config : Config) (cfg : config_ok config) (mode : option bool).
Notation nonce p t := (tx_Nonce (txs_store p t)).
Notation pool_ok := (pool_ok Hash).
Notation pool_inv := (pool_inv Hash mode).

(** ** Transactions in no list *)

(** The lookup also knows the transactions [ts] of the account [a], which were taken out
    of its lists. *)
Record loose (p : TxsPool) (P Q : gmap Z (list Ptr)) (X : gset Ptr) (a : Z) (ts : list Ptr) : Prop := {
  ls_known t : t ∈ X <-> t ∈ ts \/ exists a', t ∈ txs_at P a' \/ t ∈ txs_at Q a';
  ls_good t : t ∈ ts -> good (txs_store p) t /\ tx_From (txs_store p t) = Some a;
  ls_nonces : NoDup ((fun t => nonce p t) <$> ts);
  ls_pending t x : t ∈ ts -> x ∈ txs_at P a -> nonce p x <> nonce p t;
  ls_queue t x : t ∈ ts -> x ∈ txs_at Q a -> nonce p x <> nonce p t
}.

Lemma loose_perm p P Q X a ts ts' : ts ≡ₚ ts' -> loose p P Q X a ts -> loose p P Q X a ts'.
Proof.
  intros Hp [H1 H2 H3 H4 H5]. split; [|intros t; rewrite <- Hp; apply H2|by rewrite <- Hp|intros t x; rewrite <- Hp; apply H4|intros t x; rewrite <- Hp; apply H5].
  intros t. by rewrite <- Hp.
Qed.

Lemma loose_keeps p p' P Q X a ts : keeps p p' -> loose p P Q X a ts -> loose p' P Q X a ts.
Proof.
  intros K [H1 H2 H3 H4 H5]. pose proof (kp_sim _ _ K) as Hs. split; [done| |by rewrite (nonces_sim p p')| |].
  - intros t [G1 G2]%H2. split; [by eapply sim_good|by rewrite (st_from _ _ (Hs t))].
  - intros t x Ht Hx. rewrite !(keeps_nonce p p') by done. by apply H4.
  - intros t x Ht Hx. rewrite !(keeps_nonce p p') by done. by apply H5.
Qed.

Lemma full_loose p P Q X a : full P Q X -> loose p P Q X a [].
Proof.
  intros H. split; [intros t; rewrite (H t), elem_of_nil; tauto|by intros t ?%elem_of_nil|constructor|by intros t x ?%elem_of_nil|by intros t x ?%elem_of_nil].
Qed.

Lemma loose_NoDup p P Q X a ts : loose p P Q X a ts -> NoDup ts.
Proof. intros H. eapply NoDup_fmap_1, H. Qed.

(** Taken out of the queue. *)
Lemma loose_cut_queue p P Q X a ts ts' gone : pool_ok p P (<[a := ts]> Q) X -> full P (<[a := ts]> Q) X -> gone ++ ts' ≡ₚ ts ->
  loose p P (<[a := ts']> Q) X a gone.
Proof.
  intros H Hf Hp. pose proof (reps_sorted _ _ _ _ a (pk_queue _ _ _ _ _ H)) as Hs. assert (Hat : txs_at (<[a := ts]> Q) a = ts) by (by rewrite txs_at_insert, decide_True).
  assert (Hat' : txs_at (<[a := ts']> Q) a = ts') by (by rewrite txs_at_insert, decide_True). rewrite Hat in Hs.
  assert (Hin : forall x, x ∈ ts <-> x ∈ gone \/ x ∈ ts') by (intros x; by rewrite <- Hp, elem_of_app).
  pose proof (NoDup_nonces _ _ Hs) as Hnd. rewrite <- Hp, fmap_app in Hnd. apply list.NoDup_app in Hnd as (Hnd & Hne & _). split.
  - intros t. rewrite (Hf t). split.
    + intros (a' & [Ht|Ht]); [right; exists a'; by left|]. rewrite txs_at_insert in Ht. case_decide as E; [subst a'|right; exists a'; rewrite txs_at_insert, decide_False by done; by right].
      apply Hin in Ht as [Ht|Ht]; [by left|]. right. exists a. rewrite Hat'. by right.
    + intros [Ht|(a' & [Ht|Ht])]; [exists a; right; rewrite Hat; apply Hin; by left|exists a'; by left|]. exists a'. right. rewrite txs_at_insert in Ht |- *.
      case_decide; [apply Hin; by right|done].
  - intros t Ht. eapply (reps_at_good _ _ _ _ _ _ (pk_queue _ _ _ _ _ H)). rewrite Hat. apply Hin. by left.
  - exact Hnd.
  - intros t x Ht Hx. eapply (pk_disjoint _ _ _ _ _ H); [done|]. rewrite Hat. apply Hin. by left.
  - intros t x Ht Hx E. rewrite Hat' in Hx. apply (Hne (nonce p t)); apply elem_of_nonces; [by exists t|by exists x].
Qed.

(** Taken out of the pending list. *)
Lemma loose_cut_pending p P Q X a ts ts' gone : pool_ok p (<[a := ts]> P) Q X -> full (<[a := ts]> P) Q X -> gone ++ ts' ≡ₚ ts ->
  loose p (<[a := ts']> P) Q X a gone.
Proof.
  intros H Hf Hp. pose proof (reps_sorted _ _ _ _ a (pk_pending _ _ _ _ _ H)) as Hs. assert (Hat : txs_at (<[a := ts]> P) a = ts) by (by rewrite txs_at_insert, decide_True).
  assert (Hat' : txs_at (<[a := ts']> P) a = ts') by (by rewrite txs_at_insert, decide_True). rewrite Hat in Hs.
  assert (Hin : forall x, x ∈ ts <-> x ∈ gone \/ x ∈ ts') by (intros x; by rewrite <- Hp, elem_of_app).
  pose proof (NoDup_nonces _ _ Hs) as Hnd. rewrite <- Hp, fmap_app in Hnd. apply list.NoDup_app in Hnd as (Hnd & Hne & _). split.
  - intros t. rewrite (Hf t). split.
    + intros (a' & [Ht|Ht]); [|right; exists a'; by right]. rewrite txs_at_insert in Ht. case_decide as E; [subst a'|right; exists a'; rewrite txs_at_insert, decide_False by done; by left].
      apply Hin in Ht as [Ht|Ht]; [by left|]. right. exists a. rewrite Hat'. by left.
    + intros [Ht|(a' & [Ht|Ht])]; [exists a; left; rewrite Hat; apply Hin; by left| |exists a'; by right]. exists a'. left. rewrite txs_at_insert in Ht |- *.
      case_decide; [apply Hin; by right|done].
  - intros t Ht. eapply (reps_at_good _ _ _ _ _ _ (pk_pending _ _ _ _ _ H)). rewrite Hat. apply Hin. by left.
  - exact Hnd.
  - intros t x Ht Hx E. rewrite Hat' in Hx. apply (Hne (nonce p t)); apply elem_of_nonces; [by exists t|by exists x].
  - intros t x Ht Hx E. eapply (pk_disjoint _ _ _ _ _ H a t x); [|done|done]. rewrite Hat. apply Hin. by left.
Qed.

(** What is dropped is in no list. *)
Lemma loose_dropped p P Q X a ts : pool_ok p P Q X -> loose p P Q X a ts -> full P Q (X ∖ list_to_set ts).
Proof.
  intros H Hl t. rewrite elem_of_difference, elem_of_list_to_set, (ls_known _ _ _ _ _ _ Hl t). split; [tauto|].
  intros (a' & Ht). split; [right; by exists a'|]. intros Hin. destruct (ls_good _ _ _ _ _ _ Hl t Hin) as [_ Ea].
  assert (a' = a) as ->.
  { destruct Ht as [Ht|Ht]; [destruct (reps_at_good _ _ _ _ _ _ (pk_pending _ _ _ _ _ H) Ht) as [_ E]|destruct (reps_at_good _ _ _ _ _ _ (pk_queue _ _ _ _ _ H) Ht) as [_ E]]; congruence. }
  destruct Ht as [Ht|Ht]; [by apply (ls_pending _ _ _ _ _ _ Hl t t)|by apply (ls_queue _ _ _ _ _ _ Hl t t)].
Qed.

Lemma drop_loose_ends p P Q X a ts : pool_ok p P Q X -> loose p P Q X a ts ->
  ends (drop_all Hash (Some <$> ts)) p (fun _ p' => quiet p p' /\ pool_ok p' P Q (X ∖ list_to_set ts) /\ full P Q (X ∖ list_to_set ts)).
Proof.
  intros H Hl. call (apply (drop_all_ends Hash ts p P Q X); [done|by eapply loose_NoDup|]).
  - intros t Ht. apply (ls_known _ _ _ _ _ _ Hl). by left.
  - intros _ p' [K H']. split_and!; [done|done|by eapply loose_dropped].
Qed.

Lemma requeue_loose_ends p P Q X a ts : pool_ok p P Q X -> loose p P Q X a ts ->
  ends (for_each (fun t => _ ← enqueueTx iter Hash Now config (Hash t) t false false; mret ()) ts) p (fun _ p' => quiet p p' /\
    exists Q', pool_ok p' P Q' X /\ full P Q' X /\ (forall a', a' <> a -> Q' !! a' = Q !! a') /\ (lean Q -> lean Q')).
Proof.
  intros H Hl. call (apply (requeue_ends iter iter_perm Hash Now config a ts p P Q X H)).
  - apply list.Forall_forall. intros t Ht. destruct (ls_good _ _ _ _ _ _ Hl t Ht). split_and!; [done|done|]. apply (ls_known _ _ _ _ _ _ Hl). by left.
  - apply Hl.
  - intros t x. apply Hl.
  - intros t x. apply Hl.
  - intros x Hx. apply (ls_known _ _ _ _ _ _ Hl). right. exists a. by right.
  - intros _ p' (K & Q' & H' & Ho & Hp & Hle). split; [done|]. exists Q'. split_and!; [done| |done|done].
    intros t. rewrite (ls_known _ _ _ _ _ _ Hl t). split.
    + intros [Ht|(a' & [Ht|Ht])]; [exists a; right; rewrite Hp; apply elem_of_app; by left|exists a'; by left|]. exists a'. right.
      destruct (decide (a' = a)) as [->|Hne]; [rewrite Hp; apply elem_of_app; by right|]. unfold txs_at. by rewrite Ho.
    + intros (a' & [Ht|Ht]); [right; exists a'; by left|]. destruct (decide (a' = a)) as [->|Hne].
      * rewrite Hp in Ht. apply elem_of_app in Ht as [Ht|Ht]; [by left|right; exists a; by right].
      * right. exists a'. right. unfold txs_at in Ht. by rewrite Ho in Ht.
Qed.

(** ** Cutting a list *)

Lemma cut_queue_ends {A} a (op : TxView Ptr -> M PoolList A) p P Q X ts (R : A -> list Ptr -> list Ptr -> Prop) : pool_ok p P (<[a := ts]> Q) X -> full P (<[a := ts]> Q) X ->
  (forall l, list_wf (V := txs_store p) l ts -> txsList.strict l = false -> exists r l' gone ts', op (txs_store p) l = Done (r, l') /\ list_wf (V := txs_store p) l' ts' /\
    txsList.strict l' = txsList.strict l /\ gone ++ ts' ≡ₚ ts /\ R r gone ts') ->
  ends (on_queue a op) p (fun r p' => quiet p p' /\ exists gone ts', R r gone ts' /\ gone ++ ts' ≡ₚ ts /\ pool_ok p' P (<[a := ts']> Q) X /\ loose p' P (<[a := ts']> Q) X a gone).
Proof.
  intros H Hf Hop. call (apply (on_queue_ends Hash a op p P (<[a := ts]> Q) X ts (fun r ts' => exists gone, gone ++ ts' ≡ₚ ts /\ R r gone ts') H); [by rewrite lookup_insert_eq|]).
  - intros l Hl. pose proof Hl as (Es & Hw & _). destruct (Hop l Hw Es) as (r & l' & gone & ts' & E & Hw' & Es' & Hp & HR). exists r, l', ts'. split_and!; [done| |by exists gone].
    eapply held_sub; [exact Hl|done|done|]. intros x Hx. rewrite <- Hp. apply elem_of_app. by right.
  - intros r p' (m & ts' & (gone & Hp & HR) & -> & Hm). rewrite insert_insert_eq in Hm. split; [by split|]. exists gone, ts'.
    assert (Hsub : forall x, x ∈ ts' -> x ∈ ts) by (intros x Hx; rewrite <- Hp; apply elem_of_app; by right). split_and!; [done|done| |].
    + rewrite <- (insert_insert_eq Q a ts' ts). eapply queue_shrinks; [exact H|by rewrite lookup_insert_eq|done|by rewrite insert_insert_eq].
    + apply (loose_keeps p); [by split|]. by eapply loose_cut_queue.
Qed.

Lemma cut_pending_ends {A} a (op : TxView Ptr -> M PoolList A) p P Q X ts (R : A -> list Ptr -> list Ptr -> Prop) : pool_ok p (<[a := ts]> P) Q X -> full (<[a := ts]> P) Q X ->
  (forall l, list_wf (V := txs_store p) l ts -> txsList.strict l = true -> exists r l' gone ts', op (txs_store p) l = Done (r, l') /\ list_wf (V := txs_store p) l' ts' /\
    txsList.strict l' = txsList.strict l /\ gone ++ ts' ≡ₚ ts /\ R r gone ts') ->
  ends (on_pending a op) p (fun r p' => quiet p p' /\ exists gone ts', R r gone ts' /\ gone ++ ts' ≡ₚ ts /\ pool_ok p' (<[a := ts']> P) Q X /\ loose p' (<[a := ts']> P) Q X a gone).
Proof.
  intros H Hf Hop. call (apply (on_pending_ends Hash a op p (<[a := ts]> P) Q X ts (fun r ts' => exists gone, gone ++ ts' ≡ₚ ts /\ R r gone ts') H); [by rewrite lookup_insert_eq|]).
  - intros l Hl. pose proof Hl as (Es & Hw & _). destruct (Hop l Hw Es) as (r & l' & gone & ts' & E & Hw' & Es' & Hp & HR). exists r, l', ts'. split_and!; [done| |by exists gone].
    eapply held_sub; [exact Hl|done|done|]. intros x Hx. rewrite <- Hp. apply elem_of_app. by right.
  - intros r p' (m & ts' & (gone & Hp & HR) & -> & Hm). rewrite insert_insert_eq in Hm. split; [by split|]. exists gone, ts'.
    assert (Hsub : forall x, x ∈ ts' -> x ∈ ts) by (intros x Hx; rewrite <- Hp; apply elem_of_app; by right). split_and!; [done|done| |].
    + rewrite <- (insert_insert_eq P a ts' ts). eapply pending_shrinks; [exact H|by rewrite lookup_insert_eq|done|by rewrite insert_insert_eq].
    + apply (loose_keeps p); [by split|]. by eapply loose_cut_pending.
Qed.

(** ** Chains of nonces *)

(** The next nonce joins the pending ones. *)
Lemma chain_at_push exact s next ns ns' : chain_at exact s next ns -> s <= next -> next ∉ ns -> (forall m, m ∈ ns' <-> m = next \/ m ∈ ns) ->
  chain_at exact s (next + 1) ns'.
Proof.
  intros (e & H1 & H2 & H3 & H4) Hs Hn Hns. assert (e = next) as -> by (rewrite H2 in Hn by done; lia). exists (next + 1). split_and!; [lia| |lia|].
  - intros m Hm. rewrite Hns, H2 by done. lia.
  - intros Ex. destruct (H4 Ex) as [_ H5]. split; [done|]. intros m [->|Hm]%Hns; [done|by apply H5].
Qed.

(** A nonce that is neither used nor pending is not below the next one. *)
Lemma chain_at_next exact s next ns n : chain_at exact s next ns -> s <= n -> n ∉ ns -> next <= n.
Proof. intros (e & H1 & H2 & H3 & _) Hs Hn. rewrite H2 in Hn by done. lia. Qed.

Lemma chained_fill p P a : chained mode p P -> chained mode (set_pendingNonces (txNoncer.fill a (pendingNonces p)) p) P.
Proof.
  unfold chained. destruct mode as [exact|]; [|done]. intros [H1 H2]. destruct (next_nonce_fill (pendingNonces p) a a) as [_ Ef]. split; [cbn; by rewrite Ef|].
  intros a'. destruct (next_nonce_fill (pendingNonces p) a a') as [En _]. cbn. rewrite En. apply H2.
Qed.

(** Nonces that follow each other from [n] on. *)
Fixpoint follows (st : Store) (n : Z) (ts : list Ptr) : Prop := match ts with [] => True | t :: ts => tx_Nonce (st t) = n /\ follows st (n + 1) ts end.

Lemma follows_sim st st' n ts : sim st st' -> follows st n ts -> follows st' n ts.
Proof. intros Hs. revert n. induction ts as [|t ts IH]; intros n; [done|]. intros [E H]. split; [by rewrite (st_nonce _ _ (Hs t))|by apply IH]. Qed.

Lemma consecutive_follows st n ts : follows st n (consecutive (V := st) n ts).1.
Proof.
  revert n. induction ts as [|t ts IH]; intros n; [done|]. cbn [consecutive]. destruct (Z.eqb_spec (Tx.Nonce (V := st) t) n) as [E|]; [|done].
  specialize (IH (n + 1)). destruct (consecutive (V := st) (n + 1) ts) as [c r]. by split.
Qed.

Lemma consecutive_rest (st : Store) n ts x : ascending (V := st) ts -> match ts with [] => True | t :: _ => n <= tx_Nonce (st t) end ->
  x ∈ (consecutive (V := st) n ts).2 -> n + zlen (consecutive (V := st) n ts).1 < tx_Nonce (st x).
Proof.
  revert n. induction ts as [|t ts IH]; intros n Hs Hn Hx; cbn [consecutive] in *; [by apply elem_of_nil in Hx|].
  apply (ascending_cons (V := st)) in Hs as [Hs Hlt]. unfold Tx.Nonce, view in *. destruct (Z.eqb_spec (tx_Nonce (st t)) n) as [E|Hne].
  - specialize (IH (n + 1) Hs). destruct (consecutive (V := st) (n + 1) ts) as [c r]. cbn [fst snd] in *. rewrite zlen_cons.
    assert (n + 1 + zlen c < tx_Nonce (st x)); [|lia]. apply IH; [|done]. destruct ts as [|y ts]; [done|]. specialize (Hlt y ltac:(apply list.elem_of_cons; by left)). lia.
  - unfold zlen. cbn [fst snd length] in *. apply list.elem_of_cons in Hx as [->|Hx]; [lia|]. specialize (Hlt x Hx). lia.
Qed.

(** The next nonce once transactions are promoted one after the other. *)
Fixpoint next_after (st : Store) (n : Z) (ts : list Ptr) : Z := match ts with [] => n | t :: ts => next_after st (tx_Nonce (st t) + 1) ts end.

Lemma next_after_sim st st' n ts : sim st st' -> next_after st' n ts = next_after st n ts.
Proof. intros Hs. revert n. induction ts as [|t ts IH]; intros n; [done|]. cbn. by rewrite (st_nonce _ _ (Hs t)). Qed.

Lemma next_after_follows st n ts : follows st n ts -> next_after st n ts = n + zlen ts.
Proof. revert n. induction ts as [|t ts IH]; intros n; [unfold zlen; cbn; lia|]. intros [E H]. cbn [next_after]. rewrite E, IH, zlen_cons by done. lia. Qed.

(** What is not ready lies beyond the nonce after the last one that is. *)
Lemma ready_rest (st : Store) n ts x : ascending (V := st) ts -> x ∈ (ready_of (V := st) n ts).2 -> next_after st n (ready_of (V := st) n ts).1 < tx_Nonce (st x).
Proof.
  intros Hs Hx. unfold ready_of in *. destruct ts as [|t ts]; [by apply elem_of_nil in Hx|]. destruct (Z.ltb_spec n (Tx.Nonce (V := st) t)) as [Hlt|Hle].
  - cbn [fst snd next_after] in *. apply (ascending_cons (V := st)) in Hs as [_ Hs]. unfold Tx.Nonce, view in *. apply list.elem_of_cons in Hx as [->|Hx]; [lia|]. specialize (Hs x Hx). lia.
  - pose proof (consecutive_rest st (Tx.Nonce (V := st) t) (t :: ts) x Hs (Z.le_refl _) Hx) as Hr. rewrite <- (next_after_follows st) in Hr by apply consecutive_follows.
    cbn [consecutive] in *. rewrite Z.eqb_refl in *. by destruct (consecutive (V := st) _ ts) as [c r].
Qed.

(** ** Promotion of what is ready *)

(** In a chain the first transaction that is ready has the next nonce. *)
Definition in_turn (p : TxsPool) (a : Z) (ts : list Ptr) : Prop :=
  mode <> None -> follows (txs_store p) (next_nonce (pendingNonces p) a) ts /\ Forall (fun t => GetNonce (currentState p) a <= nonce p t) ts.

Lemma promoted_chain p p' P a t ts : chained mode p P -> in_turn p a (t :: ts) -> good (txs_store p) t -> keeps p p' ->
  pendingNonces p' = txNoncer.set a (u64 (nonce p t + 1)) (pendingNonces p) -> (forall x, x ∈ txs_at P a -> nonce p x <> nonce p t) -> ascending (V := txs_store p) (txs_at P a) ->
  chained mode p' (<[a := sl_insert (V := txs_store p) t (txs_at P a)]> P) /\ in_turn p' a ts.
Proof.
  intros Hc Ht Hg K En Hd Hs. pose proof (wf_nonce _ (g_wf _ _ Hg)) as Hn0. unfold Tx.Nonce, view in Hn0. pose proof (g_nonce _ _ Hg) as Hn1.
  assert (Eu : u64 (nonce p t + 1) = nonce p t + 1) by (apply u64_small; lia). rewrite Eu in En. split.
  - unfold chained, in_turn in *. destruct mode as [exact|]; [|done]. destruct Hc as [H1 H2]. destruct (Ht ltac:(done)) as [[E _] Hge]. inversion Hge as [|? ? Hs' _]; subst.
    rewrite En, (kp_state _ _ K). split; [done|]. intros a'. rewrite next_nonce_set, (nonces_sim p p'), txs_at_insert by done. case_decide as Ea; [subst a'|apply H2].
    rewrite E. eapply chain_at_push; [apply H2|by rewrite <- E| |].
    + rewrite elem_of_nonces. intros (x & Hx & Ex). apply (Hd x Hx). by rewrite E.
    + intros m. rewrite !elem_of_nonces. setoid_rewrite (elem_of_sl_insert (V := txs_store p)); [|done]. split.
      * intros (x & [->|[Hx _]] & <-); [by left|right; by exists x].
      * intros [->|(x & Hx & <-)]; [exists t; split; [by left|done]|]. exists x. split; [|done]. right. split; [done|]. by apply Hd.
  - intros Hm. destruct (Ht Hm) as [[E Hf] Hge]. inversion Hge as [|? ? Hs' Hge']; subst. rewrite En, next_nonce_set, decide_True, E, (kp_state _ _ K) by done. split.
    + eapply follows_sim; [apply (kp_sim _ _ K)|done].
    + eapply list.Forall_impl; [exact Hge'|]. cbn. intros x. by rewrite (keeps_nonce p p').
Qed.

Lemma promote_ready_ends a ts : forall promoted p P Q X, pool_ok p P Q X -> loose p P Q X a ts -> lean P -> chained mode p P -> in_turn p a ts ->
  ends (promote_ready iter Hash Now config a (Some <$> ts) promoted) p (fun r p' => keeps p p' /\ r = promoted ++ ts /\
    next_nonce (pendingNonces p') a = next_after (txs_store p) (next_nonce (pendingNonces p) a) ts /\
    (forall a', a' <> a -> next_nonce (pendingNonces p') a' = next_nonce (pendingNonces p) a') /\ exists P', pool_ok p' P' Q X /\ full P' Q X /\ lean P' /\ chained mode p' P').
Proof.
  induction ts as [|t ts IH]; intros promoted p P Q X H Hl HP Hc Ht; cbn [promote_ready fmap list_fmap].
  { go. split; [done|]. rewrite app_nil_r. split_and!; [done|done|done|]. exists P. split_and!; [done| |done|done]. intros t. rewrite (ls_known _ _ _ _ _ _ Hl t), elem_of_nil. tauto. }
  assert (Ht0 : t ∈ t :: ts) by (apply list.elem_of_cons; by left). assert (Hts0 : forall x : Ptr, x ∈ ts -> x ∈ t :: ts) by (intros x Hx; apply list.elem_of_cons; by right).
  destruct (ls_good _ _ _ _ _ _ Hl t Ht0) as [Hg Ea]. go. eapply ends_must; [done|]. go.
  pose proof (reps_sorted _ _ _ _ a (pk_pending _ _ _ _ _ H)) as Hs.
  call (apply (promoteTx_ends iter Hash Now config a t p P Q X); [done|done|done| |]); [intros x; by apply Hl|intros x; by apply Hl|].
  intros b p1 (-> & K1 & E1 & H1). pose proof (ls_pending _ _ _ _ _ _ Hl t) as Hd.
  destruct (promoted_chain p p1 P a t ts Hc Ht Hg K1 E1 (fun x => Hd x Ht0) Hs) as [Hc1 Ht1].
  call (apply (IH (promoted ++ [t]) p1 _ Q X H1); [|by apply lean_insert; [|apply sl_insert_not_nil]|done|done]).
  - destruct (loose_keeps _ _ _ _ _ _ _ K1 Hl) as [L1 L2 L3 L4 L5]. cbn in L3. apply list.NoDup_cons in L3 as [L3 L3'].
    assert (Hin : forall x, x ∈ sl_insert (V := txs_store p) t (txs_at P a) <-> x = t \/ x ∈ txs_at P a).
    { intros x. rewrite elem_of_sl_insert by done. split; [tauto|]. intros [->|Hx]; [by left|right]. split; [done|]. by apply Hd. }
    split; [|intros x Hx; by apply L2, Hts0|done| |intros x y Hx Hy; by apply L5; [apply Hts0|]].
    + intros x. rewrite L1, list.elem_of_cons. split.
      * intros [[->|Hx]|(a' & [Hx|Hx])]; [right; exists a; left; rewrite txs_at_insert, decide_True by done; apply Hin; by left|by left| |right; exists a'; by right].
        right. exists a'. left. rewrite txs_at_insert. case_decide as E; [subst; apply Hin; by right|done].
      * intros [Hx|(a' & [Hx|Hx])]; [tauto| |right; exists a'; by right]. rewrite txs_at_insert in Hx. case_decide as E; [subst|right; exists a'; by left].
        apply Hin in Hx as [->|Hx]; [tauto|right; exists a'; by left].
    + intros x y Hx Hy. rewrite txs_at_insert, decide_True in Hy by done. apply Hin in Hy as [->|Hy]; [|by apply L4; [apply Hts0|]].
      intros E. apply L3. rewrite E. by apply (list_elem_of_fmap_2 (fun x => nonce p1 x)).
  - intros r p2 (K2 & -> & En & Eo & P2 & H2 & Hf2 & HP2 & Hc2). split; [by etransitivity|]. rewrite <- app_assoc. split_and!; [done| | |by exists P2].
    2: { intros a' Hne. by rewrite Eo, E1, next_nonce_set, decide_False. }
    rewrite En, E1, next_nonce_set, decide_True, (next_after_sim (txs_store p)) by (done || apply K1). pose proof (wf_nonce _ (g_wf _ _ Hg)) as Hn0.
    unfold Tx.Nonce, view in Hn0. pose proof (g_nonce _ _ Hg). by rewrite u64_small by lia.
Qed.

(** ** An account *)

(** What can be executed is a prefix of the queue; in a chain it starts with the next
    nonce. *)
Lemma ready_in_turn p P Q X a ts : pool_ok p P (<[a := ts]> Q) X -> chained mode p P -> Forall (fun t => GetNonce (currentState p) a <= nonce p t) ts ->
  in_turn p a (ready_of (V := txs_store p) (next_nonce (pendingNonces p) a) ts).1.
Proof.
  intros H Hc Hge. set (r := ready_of _ _). set (next := next_nonce (pendingNonces p) a) in *. assert (Hat : txs_at (<[a := ts]> Q) a = ts) by (by rewrite txs_at_insert, decide_True).
  assert (Happ : r.1 ++ r.2 = ts) by apply ready_of_app.
  assert (Hge1 : Forall (fun t => GetNonce (currentState p) a <= nonce p t) r.1) by (rewrite <- Happ in Hge; by apply Forall_app in Hge as [? _]).
  assert (Hnext : mode <> None -> match ts with [] => True | t :: _ => next <= nonce p t end).
  { intros Hm. destruct ts as [|t ts]; [done|]. unfold chained in Hc. destruct mode as [exact|]; [|done]. destruct Hc as [_ Hc]. eapply chain_at_next; [apply Hc| |].
    - inversion Hge; subst. done.
    - rewrite elem_of_nonces. intros (x & Hx & Ex). eapply (pk_disjoint _ _ _ _ _ H a x t); [done| |done]. rewrite Hat. apply list.elem_of_cons. by left. }
  intros Hm. split; [|done]. fold next. specialize (Hnext Hm). unfold r, ready_of. destruct ts as [|t ts]; [done|].
  destruct (Z.ltb_spec next (Tx.Nonce (V := txs_store p) t)) as [?|Hle]; [done|]. replace next with (Tx.Nonce (V := txs_store p) t); [apply (consecutive_follows (txs_store p))|].
  unfold Tx.Nonce, view in *. lia.
Qed.

(** Nothing that could be executed is left in the queue of the account, which is within
    its limit unless the account is local. *)
Definition sifted (p : TxsPool) (Q : gmap Z (list Ptr)) (a : Z) : Prop :=
  (forall x, x ∈ txs_at Q a -> next_nonce (pendingNonces p) a < nonce p x) /\
  (accountSet.contains a (locals p) = false -> zlen (txs_at Q a) <= AccountQueue config).

Lemma forward_queue_ends a n p P Q X ts : pool_ok p P (<[a := ts]> Q) X -> full P (<[a := ts]> Q) X ->
  ends (l ← on_queue a (fun V => txsList.Forward n); drop_all Hash l) p (fun _ p' => quiet p p' /\
    exists ts' X', X' ⊆ X /\ pool_ok p' P (<[a := ts']> Q) X' /\ full P (<[a := ts']> Q) X' /\ Forall (fun t => n <= nonce p t) ts').
Proof.
  intros H Hf. go. call (apply (cut_queue_ends a _ p P Q X ts (fun r gone ts' => r = Some <$> gone /\ Forall (fun t => n <= nonce p t) ts') H Hf)).
  - intros l Hl Es. destruct (Forward_wf (V := txs_store p) n l ts Hl) as (l' & E & Hl' & Es'). eexists _, l', _, _. split_and!; [exact E|exact Hl'|done|apply reflexive_eq; symmetry; by eapply (ascending_split (V := txs_store p)), list_wf_sorted|done|].
    apply list.Forall_forall. by intros x [? _]%list_elem_of_filter.
  - intros r p1 (K1 & gone & ts' & (-> & Hge) & _ & H1 & L1). call (by eapply drop_loose_ends). intros _ p2 (K2 & H2 & F2). split; [by etransitivity|].
    exists ts', (X ∖ list_to_set gone). split_and!; [set_solver|done|done|done].
Qed.

Lemma filter_queue_ends a c g p P Q X ts : pool_ok p P (<[a := ts]> Q) X -> full P (<[a := ts]> Q) X -> word c ->
  ends ('(drops, _) ← on_queue a (fun V => txsList.Filter iter c g); drop_all Hash (Some <$> drops)) p (fun _ p' => quiet p p' /\
    exists ts' X', X' ⊆ X /\ pool_ok p' P (<[a := ts']> Q) X' /\ full P (<[a := ts']> Q) X' /\ (forall x, x ∈ ts' -> x ∈ ts)).
Proof.
  intros H Hf Hc. go. call (apply (cut_queue_ends a _ p P Q X ts (fun r gone ts' => r.1 = gone) H Hf)).
  - intros l Hl Es. destruct (Filter_any (V := txs_store p) iter iter_perm c g l ts Hl Hc) as (removed & invalids & l' & ks & E & Es' & Hl' & Hp & _ & Hi & _).
    rewrite (Hi Es) in *. eexists _, l', removed, ks. by split_and!.
  - intros [drops invalids] p1 (K1 & gone & ts' & E & Hp & H1 & L1). cbn in E. subst drops. call (by eapply drop_loose_ends). intros _ p2 (K2 & H2 & F2). split; [by etransitivity|].
    exists ts', (X ∖ list_to_set gone). split_and!; [set_solver|done|done|]. intros x Hx. rewrite <- Hp. apply elem_of_app. by right.
Qed.

Lemma cap_queue_ends a n p P Q X ts : pool_ok p P (<[a := ts]> Q) X -> full P (<[a := ts]> Q) X -> 0 <= n ->
  ends (caps ← on_queue a (fun V => txsList.Cap n); _ ← drop_all Hash caps; mret caps) p (fun _ p' => quiet p p' /\
    exists ts' X', X' ⊆ X /\ pool_ok p' P (<[a := ts']> Q) X' /\ full P (<[a := ts']> Q) X' /\ (forall x, x ∈ ts' -> x ∈ ts) /\ zlen ts' <= n).
Proof.
  intros H Hf Hn. go. call (apply (cut_queue_ends a _ p P Q X ts (fun r gone ts' => r = Some <$> gone /\ zlen ts' <= n) H Hf)).
  - intros l Hl Es. destruct (Cap_wf (V := txs_store p) n l ts Hl Hn) as (l' & E & Hl' & Es'). eexists _, l', _, _. split_and!; [exact E|exact Hl'|done| |done|].
    + rewrite reverse_Permutation, Permutation_app_comm. by rewrite take_drop.
    + unfold zlen. rewrite length_take. lia.
  - intros r p1 (K1 & gone & ts' & (-> & Hle) & Hp & H1 & L1). go. call (by eapply drop_loose_ends). intros _ p2 (K2 & H2 & F2). go. split; [by etransitivity|].
    exists ts', (X ∖ list_to_set gone). split_and!; [set_solver|done|done| |done]. intros x Hx. rewrite <- Hp. apply elem_of_app. by right.
Qed.

(** The queue within its limit, without an empty list. *)
Lemma cap_account_ends a (promoted : list Ptr) p P Q X ts : pool_ok p P (<[a := ts]> Q) X -> full P (<[a := ts]> Q) X -> lean Q ->
  ends (p ← get;
        caps ← (if accountSet.contains a (locals p) then mret [] else
                caps ← on_queue a (fun V => txsList.Cap (i64 (AccountQueue config)));
                _ ← drop_all Hash caps;
                mret caps);
        _ ← priced_Removed iter (zlen caps);
        p ← get;
        list ← must (queue p !! a);
        _ ← (if txsList.Empty list then
               modify (fun p => set_beats (delete a (beats p)) (ticks p) (set_queue (delete a (queue p)) p))
             else mret ());
        mret promoted) p (fun r p' => r = promoted /\ quiet p p' /\ exists ts' X', X' ⊆ X /\ pool_ok p' P (put Q a ts') X' /\ full P (put Q a ts') X' /\ (forall x, x ∈ ts' -> x ∈ ts) /\
          (accountSet.contains a (locals p) = false -> zlen ts' <= AccountQueue config)).
Proof.
  intros H Hf HlQ. assert (Eq : i64 (AccountQueue config) = AccountQueue config) by (destruct cfg as [_ _ _ _ Hq]; unfold i64; rewrite Z.mod_small; lia). rewrite Eq. go.
  apply (ends_mono _ _ (fun _ p' => quiet p p' /\ exists ts' X', X' ⊆ X /\ pool_ok p' P (<[a := ts']> Q) X' /\ full P (<[a := ts']> Q) X' /\ (forall x, x ∈ ts' -> x ∈ ts) /\
          (accountSet.contains a (locals p) = false -> zlen ts' <= AccountQueue config))).
  { destruct (accountSet.contains a (locals p)); [go; split; [done|]; by exists ts, X|]. call (apply (cap_queue_ends a (AccountQueue config) p P Q X ts H Hf)); [apply cfg|].
    intros _ p1 (K1 & ts1 & X1 & S1 & H1 & F1 & Sub & Hle). split; [done|]. by exists ts1, X1. }
  intros caps p1 (K1 & ts1 & X1 & S1 & H1 & F1 & Sub & Hle). go. call (by apply (priced_Removed_ends iter iter_perm Hash)). intros _ p2 (s2 & -> & H2 & K2). go.
  destruct (reps_Some_2 _ _ _ _ a ts1 (pk_queue _ _ _ _ _ H2)) as (l & El & _); [by rewrite lookup_insert_eq|]. eapply ends_must; [exact El|]. go.
  call (apply (tidy_queue_ok Hash a l ts1 _ _ _ _ H2); [by rewrite lookup_insert_eq|done]). rewrite put_insert. intros _ p3 [K3 H3]. go. split; [done|].
  split; [etransitivity; [exact K1|]; etransitivity; [|exact K3]; by split|]. exists ts1, X1. split_and!; [done|done| |done|done].
  intros t. rewrite (F1 t). split; intros (a' & Ht); exists a'; rewrite txs_at_put, txs_at_insert in *; exact Ht.
Qed.

Lemma promote_account_ends a promoted p P Q X : pool_inv p P Q X -> ends (promote_account iter Hash Now config a promoted) p (fun r p' => keeps p p' /\
  (forall a', a' <> a -> next_nonce (pendingNonces p') a' = next_nonce (pendingNonces p) a') /\
  exists P' Q' X' news, pool_inv p' P' Q' X' /\ X' ⊆ X /\ r = promoted ++ news /\ Forall (good (txs_store p)) news /\ (forall a', a' <> a -> Q' !! a' = Q !! a') /\ sifted p' Q' a).
Proof.
  intros [H Hf HlP HlQ Hc]. unfold promote_account. apply ends_bind, ends_get. cbv beta. pose proof (reps_None _ _ _ _ a (pk_queue _ _ _ _ _ H)) as Hn. destruct (queue p !! a) as [l|] eqn:El.
  2: { go. split_and!; [done|done|]. exists P, Q, X, []. rewrite app_nil_r. split_and!; [done|done|done|constructor|done|]. unfold sifted, txs_at. rewrite (proj1 Hn eq_refl). split; [by intros x ?%elem_of_nil|].
       intros _. apply cfg. }
  destruct (reps_Some _ _ _ _ _ _ (pk_queue _ _ _ _ _ H) El) as (ts & Ets & _). rewrite <- (insert_id Q a ts Ets) in H, Hf. clear Hn l El.
  set (s := GetNonce (currentState p) a). set (c := GetBalance (currentState p) a). assert (Hwc : word c) by apply (pk_state _ _ _ _ _ H).
  run (forward_queue_ends a s p P Q X ts H Hf). intros _ p1 (K1 & ts1 & X1 & S1 & H1 & F1 & Hge1).
  run (filter_queue_ends a c (currentMaxGas p) p1 P Q X1 ts1 H1 F1 Hwc). intros _ p2 (K2 & ts2 & X2 & S2 & H2 & F2 & Sub2). assert (K : quiet p p2) by by etransitivity.
  assert (Hge2 : Forall (fun t => GetNonce (currentState p2) a <= nonce p2 t) ts2).
  { rewrite (kp_state _ _ (proj1 K)). apply list.Forall_forall. intros x Hx. rewrite (quiet_nonce p p2) by done. rewrite list.Forall_forall in Hge1. apply Hge1. by apply Sub2. }
  assert (Hc2 : chained mode p2 P) by (apply (chained_keeps mode p p2); [apply K|apply K|done]).
  unfold on_noncer. apply ends_bind, ends_zoom. call apply noncer_get_ends. intros next n' [-> ->]. set (p3 := set_pendingNonces (txNoncer.fill a (pendingNonces p2)) p2).
  assert (H3 : pool_ok p3 P (<[a := ts2]> Q) X2) by by destruct H2. assert (Hc3 : chained mode p3 P) by by apply chained_fill.
  assert (K3 : keeps p p3) by (etransitivity; [apply K|by split]). assert (En3 : forall a', next_nonce (pendingNonces p3) a' = next_nonce (pendingNonces p) a').
  { intros a'. cbn. rewrite (proj1 (next_nonce_fill (pendingNonces p2) a a')). by rewrite (proj2 K). }
  pose proof (ready_in_turn p3 P Q X2 a ts2 H3 Hc3 Hge2) as Hturn. pose proof (reps_sorted _ _ _ _ a (pk_queue _ _ _ _ _ H3)) as Hs3. rewrite txs_at_insert, decide_True in Hs3 by done.
  pose proof (fun x => ready_rest (txs_store p3) (next_nonce (pendingNonces p3) a) ts2 x Hs3) as Hrest. set (rd := ready_of (V := txs_store p3) (next_nonce (pendingNonces p3) a) ts2) in *.
  apply ends_bind. call (apply (cut_queue_ends a _ p3 P Q X2 ts2 (fun r gone ts' => r = Some <$> rd.1 /\ gone = rd.1 /\ ts' = rd.2) H3 F2)).
  { intros l Hl Es. destruct (Ready_wf (V := txs_store p3) (next_nonce (pendingNonces p3) a) l ts2 Hl) as (l' & E & Hl' & Es'). exists (Some <$> rd.1), l', rd.1, rd.2.
    split_and!; [|exact Hl'|done|apply reflexive_eq, (ready_of_app (V := txs_store p3))|done|done|done]. etransitivity; [|exact E]. f_equal. symmetry. apply (next_nonce_fill (pendingNonces p2) a a). }
  intros r p4 (K4 & gone & ts4 & (-> & -> & ->) & _ & H4 & L4). apply ends_bind.
  call (apply (promote_ready_ends a rd.1 promoted p4 P _ X2 H4 L4 HlP)).
  { by eapply chained_keeps; [apply K4|apply K4|]. }
  { intros Hm. destruct (Hturn Hm) as [T1 T2]. rewrite (proj2 K4), (kp_state _ _ (proj1 K4)). split; [eapply follows_sim; [apply (kp_sim _ _ (proj1 K4))|done]|].
    eapply list.Forall_impl; [exact T2|]. cbn. intros x. by rewrite (quiet_nonce p3 p4). }
  intros r p5 (K5 & -> & En5 & Eo5 & P5 & H5 & F5 & HlP5 & Hc5).
  call (apply (cap_account_ends a (promoted ++ rd.1) p5 P5 Q X2 rd.2 H5 F5 HlQ)). intros r p6 (-> & K6 & ts6 & X6 & S6 & H6 & F6 & Sub6 & Hcap).
  assert (K' : keeps p p6) by (etransitivity; [exact K3|]; etransitivity; [apply K4|]; etransitivity; [exact K5|apply K6]).
  split; [done|]. split; [intros a' Hne; by rewrite (proj2 K6), Eo5, (proj2 K4), En3|]. exists P5, (put Q a ts6), X6, rd.1. split_and!; [|set_solver|done| | |].
  - split; [done|done|done|by apply lean_put|]. by eapply chained_keeps; [apply K6|apply K6|].
  - apply list.Forall_forall. intros x Hx. apply (ao_good _ _ _ _ (pk_all _ _ _ _ _ H)). assert (x ∈ X2) by (apply (ls_known _ _ _ _ _ _ L4); by left). set_solver.
  - intros a' Hne. destruct ts6; cbn [put]; [by rewrite lookup_delete_ne|by rewrite lookup_insert_ne].
  - unfold sifted. rewrite txs_at_put, decide_True by done. split; [|rewrite (kp_locals _ _ (proj1 K6)); exact Hcap].
    intros x Hx. rewrite (proj2 K6), En5, (proj2 K4), (keeps_nonce p3 p6), (next_after_sim (txs_store p3)) by (apply K4 || (etransitivity; [apply K4|]; etransitivity; [exact K5|apply K6])).
    apply Hrest. by apply Sub6.
Qed.

Lemma sifted_keeps p p' Q Q' a : keeps p p' -> next_nonce (pendingNonces p') a = next_nonce (pendingNonces p) a -> Q' !! a = Q !! a -> sifted p Q a -> sifted p' Q' a.
Proof.
  intros K En Eq [H1 H2]. unfold sifted. assert (txs_at Q' a = txs_at Q a) as -> by (unfold txs_at; by rewrite Eq). rewrite En, (kp_locals _ _ K). split; [|done].
  intros x Hx. rewrite (keeps_nonce p p') by done. by apply H1.
Qed.

Lemma promoteExecutables_ends accounts : forall promoted p P Q X, pool_inv p P Q X -> ends (promoteExecutables iter Hash Now config accounts promoted) p (fun r p' => keeps p p' /\
  exists P' Q' X' news, pool_inv p' P' Q' X' /\ X' ⊆ X /\ r = promoted ++ news /\ Forall (good (txs_store p')) news /\
    forall a, a ∈ accounts \/ sifted p Q a -> sifted p' Q' a).
Proof.
  induction accounts as [|a accounts IH]; intros promoted p P Q X H; cbn [promoteExecutables].
  { go. split; [done|]. exists P, Q, X, []. rewrite app_nil_r. split_and!; [done|done|done|constructor|]. by intros a [?%elem_of_nil|?]. }
  go. call (by apply (promote_account_ends a promoted p P Q X)). intros r p1 (K1 & En1 & P1 & Q1 & X1 & news1 & H1 & S1 & -> & G1 & Ho1 & Hs1).
  call (by apply (IH _ p1 P1 Q1 X1)). intros r p2 (K2 & P2 & Q2 & X2 & news2 & H2 & S2 & -> & G2 & Hs2). split; [by etransitivity|].
  exists P2, Q2, X2, (news1 ++ news2). rewrite app_assoc. split_and!; [done|set_solver|done| |].
  - apply Forall_app. split; [|done]. eapply list.Forall_impl; [exact G1|]. intros x Hg. eapply sim_good; [|exact Hg]. etransitivity; [apply (kp_sim _ _ K1)|apply (kp_sim _ _ K2)].
  - intros a' Ha. apply Hs2. destruct (decide (a' = a)) as [->|Hne]; [by right|]. rewrite list.elem_of_cons in Ha. destruct Ha as [[Ha|Ha]|Ha]; [done|by left|right].
    eapply sifted_keeps; [exact K1|by apply En1|by apply Ho1|done].
Qed.
End Promote.
