(* ===== verification/TxPoolDemote.v ===== *)
(** * Demotion and reset in the transaction pool

    [demoteUnexecutables] leaves each account a run of its pending transactions that
    starts with its nonce, and the virtual nonces are recomputed from what is left.  A
    reset follows the branches to their common block and brings back what was left. *)

From stdpp Require Import sorting.
From S2P Require Import Prelude Uint256 Wire Transaction Config Header Heap TxList TxListTheorems TxLookup TxPriced Ends TxPricedTheorems TxPool TxPoolBase TxPoolOps TxPoolAdd TxPoolPromote.
Import TxsPoolConfig.

Section Demote.
Context {U : Uint256} {UL : Uint256Laws U}.
Context (iter : forall A : Type, list A -> list A) (iter_perm : forall A (l : list A), iter A l ≡ₚ l) (Hash : Ptr -> Z) (Now : nat -> Z).
Context (config : Config).
Notation nonce p t := (tx_Nonce (txs_store p t)).
Notation pool_ok := (pool_ok Hash).
Notation pool_inv := (pool_inv Hash).

(** ** Parts of a list *)

Lemma prefix_bound (st : Store) ts k b : ascending (V := st) ts -> Forall (fun t => tx_Nonce (st t) < b) ts ->
  exists n, forall x, x ∈ take k ts <-> x ∈ ts /\ tx_Nonce (st x) < n.
Proof.
  intros Hs Hb. rewrite list.Forall_forall in Hb. destruct (drop k ts) as [|y rest] eqn:Ed.
  - exists b. intros x. assert (E : take k ts = ts) by (rewrite <- (take_drop k ts) at 2; by rewrite Ed, app_nil_r). rewrite E. split; [|tauto]. intros Hx. split; [done|by apply Hb].
  - exists (tx_Nonce (st y)). intros x. rewrite <- (take_drop k ts) in Hs |- * at 2. rewrite Ed in *. apply StronglySorted_app in Hs as (Hlt & _ & Hs). rewrite elem_of_app. split.
    + intros Hx. split; [by left|]. apply (Hlt x y); [done|]. apply list.elem_of_cons. by left.
    + intros [[Hx|Hx] Hn]; [done|]. apply (ascending_cons (V := st)) in Hs as [_ Hs]. apply list.elem_of_cons in Hx as [->|Hx]; [lia|]. specialize (Hs x Hx). unfold Tx.Nonce, view in Hs. lia.
Qed.

(** Dropping the first part of what is loose. *)
Lemma drop_first_ends p P Q X a ts ts' : pool_ok p P Q X -> loose p P Q X a (ts ++ ts') ->
  ends (drop_all Hash (Some <$> ts)) p (fun _ p' => quiet p p' /\ pool_ok p' P Q (X ∖ list_to_set ts) /\ loose p' P Q (X ∖ list_to_set ts) a ts').
Proof.
  intros H Hl. pose proof (loose_NoDup _ _ _ _ _ _ Hl) as Hnd. apply list.NoDup_app in Hnd as (Hnd & Hne & _).
  assert (Happ : forall t : Ptr, t ∈ ts -> t ∈ ts ++ ts') by (intros; apply elem_of_app; by left). assert (Happ' : forall t : Ptr, t ∈ ts' -> t ∈ ts ++ ts') by (intros; apply elem_of_app; by right).
  call (apply (drop_all_ends Hash ts p P Q X); [done|done|]).
  { intros t Ht. apply (ls_known _ _ _ _ _ _ Hl). left. by apply Happ. }
  intros _ p' [K H']. split_and!; [done|done|]. apply (loose_keeps p); [apply K|]. pose proof (loose_dropped Hash _ _ _ _ _ _ H Hl) as Hf. destruct Hl as [L1 L2 L3 L4 L5]. split.
  - intros t. rewrite elem_of_difference, elem_of_list_to_set. split.
    + intros [Ht Hn]. apply L1 in Ht as [[Ht|Ht]%elem_of_app|Ht]; tauto.
    + intros [Ht|Ht]; [split; [apply L1; left; by apply Happ'|]; intros Ht'; by apply (Hne t)|]. apply Hf in Ht as [Ht Hn]%elem_of_difference. split; [done|].
      rewrite elem_of_list_to_set in Hn. intros Hx. apply Hn. by apply Happ.
  - intros t Ht. by apply L2, Happ'.
  - rewrite fmap_app in L3. by apply list.NoDup_app in L3 as (_ & _ & ?).
  - intros t x Ht. by apply L4, Happ'.
  - intros t x Ht. by apply L5, Happ'.
Qed.

Lemma forward_pending_ends a n p P Q X ts : pool_ok p (<[a := ts]> P) Q X -> full (<[a := ts]> P) Q X ->
  ends (l ← on_pending a (fun V => txsList.Forward n); drop_all Hash l) p (fun _ p' => quiet p p' /\
    let ts' := base.filter (fun t => n <= nonce p t) ts in exists X', X' ⊆ X /\ pool_ok p' (<[a := ts']> P) Q X' /\ full (<[a := ts']> P) Q X').
Proof.
  intros H Hf. go. call (apply (cut_pending_ends Hash a _ p P Q X ts (fun r gone ts' => r = Some <$> gone /\ ts' = base.filter (fun t => n <= nonce p t) ts) H Hf)).
  - intros l Hl Es. destruct (Forward_wf (V := txs_store p) n l ts Hl) as (l' & E & Hl' & Es'). eexists _, l', _, _.
    split_and!; [exact E|exact Hl'|done|apply reflexive_eq; symmetry; by eapply (ascending_split (V := txs_store p)), list_wf_sorted|done|done].
  - intros r p1 (K1 & gone & ts' & (-> & ->) & _ & H1 & L1). call (by eapply drop_loose_ends). intros _ p2 (K2 & H2 & F2). split; [by etransitivity|].
    exists (X ∖ list_to_set gone). split_and!; [set_solver|done|done].
Qed.

Lemma filter_pending_ends a c g p P Q X ts : pool_ok p (<[a := ts]> P) Q X -> full (<[a := ts]> P) Q X -> word c ->
  ends ('(drops, invalids) ← on_pending a (fun V => txsList.Filter iter c g);
        _ ← drop_all Hash (Some <$> drops);
        for_each (fun t => _ ← enqueueTx iter Hash Now config (Hash t) t false false; mret ()) invalids) p (fun _ p' => quiet p p' /\
    exists k Q' X', X' ⊆ X /\ pool_ok p' (<[a := take k ts]> P) Q' X' /\ full (<[a := take k ts]> P) Q' X' /\ (lean Q -> lean Q')).
Proof.
  intros H Hf Hc. go. call (apply (cut_pending_ends Hash a _ p P Q X ts (fun r gone ts' => gone = r.1 ++ r.2 /\ exists k, ts' = take k ts) H Hf)).
  - intros l Hl Es. destruct (Filter_any (V := txs_store p) iter iter_perm c g l ts Hl Hc) as (removed & invalids & l' & ks & E & Es' & Hl' & Hp & _ & _ & Hk).
    exists (removed, invalids), l', (removed ++ invalids), ks. split_and!; [exact E|exact Hl'|done|by rewrite <- app_assoc|done|by apply Hk].
  - intros [drops invalids] p1 (K1 & gone & ts' & (-> & k & ->) & _ & H1 & L1). cbn [fst snd] in L1. go. call (by eapply drop_first_ends). intros _ p2 (K2 & H2 & L2).
    call (by eapply (requeue_loose_ends iter iter_perm Hash Now config)). intros _ p3 (K3 & Q3 & H3 & F3 & _ & Hlean). split; [etransitivity; [exact K1|]; by etransitivity|].
    exists k, Q3, (X ∖ list_to_set drops). split_and!; [set_solver|done|done|done].
Qed.

(** A list that does not start with the nonce of the account is postponed as a whole. *)
Lemma gap_pending_ends a n p P Q X ts : pool_ok p (<[a := ts]> P) Q X -> full (<[a := ts]> P) Q X ->
  ends (p ← get;
        list ← must (pending p !! a);
        if (0 <? txsList.Len list) && bool_decide (txsSortedMap.Get n (txsList.txs list) = None) then
          gapped ← on_pending a (fun V => txsList.Cap 0);
          for_each (fun tx => tx ← must tx; _ ← enqueueTx iter Hash Now config (Hash tx) tx false false; mret ()) gapped
        else mret ()) p (fun _ p' => quiet p p' /\
    exists ts' Q', pool_ok p' (<[a := ts']> P) Q' X /\ full (<[a := ts']> P) Q' X /\ (lean Q -> lean Q') /\
      (ts' = [] \/ ts' = ts /\ n ∈ (fun t => nonce p t) <$> ts)).
Proof.
  intros H Hf. go. destruct (reps_Some_2 _ _ _ _ a ts (pk_pending _ _ _ _ _ H)) as (l & El & _ & Hl & _); [by rewrite lookup_insert_eq|].
  eapply ends_must; [exact El|]. cbv beta. rewrite (Len_wf (V := txs_store p) l ts Hl), (Get_wf (V := txs_store p) l ts n Hl).
  destruct (Z.ltb_spec 0 (zlen ts)) as [Hpos|Hz]; [|cbn [andb]; go; split; [done|]; exists ts, Q; split_and!; [done|done|done|left; destruct ts; [done|rewrite zlen_cons in Hz; pose proof (zlen_nonneg ts); lia]]].
  cbn [andb]. case_bool_decide as Hg.
  - go. call (apply (cut_pending_ends Hash a _ p P Q X ts (fun r gone ts' => r = Some <$> gone /\ ts' = []) H Hf)).
    + intros l0 Hl0 Es. destruct (Cap_wf (V := txs_store p) 0 l0 ts Hl0 ltac:(lia)) as (l' & E & Hl' & Es'). eexists _, l', _, _. split_and!; [exact E|exact Hl'|done| |done|done].
      change (Z.to_nat 0) with 0%nat. by rewrite reverse_Permutation, app_nil_r, drop_0.
    + intros r p1 (K1 & gone & ts' & (-> & ->) & _ & H1 & L1). eapply ends_mono; [apply ends_for_each_must; by eapply (requeue_loose_ends iter iter_perm Hash Now config)|].
      intros _ p2 (K2 & Q2 & H2 & F2 & _ & Hlean). split; [by etransitivity|]. exists [], Q2. split_and!; [done|done|done|by left].
  - go. split; [done|]. exists ts, Q. split_and!; [done|done|done|right]. split; [done|]. apply elem_of_nonces.
    destruct (items_of (V := txs_store p) ts !! n) as [t|] eqn:E; [|done]. apply (items_of_lookup (V := txs_store p)) in E as [Ht En]; [|by eapply list_wf_sorted]. by exists t.
Qed.

(** ** An account *)

(** What is left of the pending transactions [ts] of an account: a run of those that are
    not mined, from the nonce of the account on. *)
Definition demoted (p : TxsPool) (a : Z) (ts ts' : list Ptr) : Prop :=
  let s := GetNonce (currentState p) a in
  (exists n, forall x, x ∈ ts' <-> x ∈ ts /\ s <= nonce p x < n) /\ (ts' <> [] -> s ∈ (fun t => nonce p t) <$> ts').

Lemma demoted_keeps p p' a ts ts' : keeps p p' -> demoted p a ts ts' -> demoted p' a ts ts'.
Proof.
  intros K [(n & H1) H2]. unfold demoted. rewrite (kp_state _ _ K), (nonces_sim p p') by done. split; [|done]. exists n. intros x. rewrite (keeps_nonce p p') by done. apply H1.
Qed.

Lemma demote_account_ends a p P Q X ts : pool_inv None p P Q X -> P !! a = Some ts -> ends (demote_account iter Hash Now config a) p (fun _ p' => quiet p p' /\
  exists P' Q' X', pool_inv None p' P' Q' X' /\ X' ⊆ X /\ (forall a', a' <> a -> P' !! a' = P !! a') /\ demoted p a ts (txs_at P' a)).
Proof.
  intros [H Hf HlP HlQ _] Ets. pose proof (reps_sorted _ _ _ _ a (pk_pending _ _ _ _ _ H)) as Hs. assert (Eat : txs_at P a = ts) by (unfold txs_at; by rewrite Ets). rewrite Eat in Hs.
  assert (Hb : Forall (fun t => nonce p t < two64) ts).
  { apply list.Forall_forall. intros x Hx. rewrite <- Eat in Hx. destruct (reps_at_good _ _ _ _ _ _ (pk_pending _ _ _ _ _ H) Hx) as [Hg _]. pose proof (g_nonce _ _ Hg). lia. }
  rewrite <- (insert_id P a ts Ets) in H, Hf. unfold demote_account. apply ends_bind, ends_get. cbv beta. set (s := GetNonce (currentState p) a). set (c := GetBalance (currentState p) a).
  assert (Hwc : word c) by apply (pk_state _ _ _ _ _ H). set (ts1 := base.filter (fun t => s <= nonce p t) ts).
  run (forward_pending_ends a s p P Q X ts H Hf). intros _ p1 (K1 & X1 & S1 & H1 & F1). fold ts1 in H1, F1.
  run (filter_pending_ends a c (currentMaxGas p) p1 P Q X1 ts1 H1 F1 Hwc). intros _ p2 (K2 & k & Q2 & X2 & S2 & H2 & F2 & Hlean2). assert (K : quiet p p2) by by etransitivity.
  destruct (prefix_bound (txs_store p) ts1 k two64) as (n & Hn); [by apply (ascending_filter (V := txs_store p))|by eapply Forall_sub; [|exact Hb]; intros x [_ ?]%list_elem_of_filter|].
  run (gap_pending_ends a s p2 P Q2 X2 (take k ts1) H2 F2). intros _ p3 (K3 & ts3 & Q3 & H3 & F3 & Hlean3 & Hts3). go. assert (K' : quiet p p3) by by etransitivity.
  destruct (reps_Some_2 _ _ _ _ a ts3 (pk_pending _ _ _ _ _ H3)) as (l & El & _); [by rewrite lookup_insert_eq|]. eapply ends_must; [exact El|]. cbv beta.
  call (apply (tidy_pending_ok Hash a l ts3 _ _ _ _ H3); [by rewrite lookup_insert_eq|done]). rewrite put_insert. intros _ p4 [K4 H4]. split; [by etransitivity|].
  exists (put P a ts3), Q3, X2. split_and!; [|set_solver| |].
  - split; [done| |by apply lean_put|auto|done]. intros t. rewrite (F3 t). split; intros (a' & Ht); exists a'; rewrite txs_at_put, txs_at_insert in *; exact Ht.
  - intros a' Hne. destruct ts3; cbn [put]; [by rewrite lookup_delete_ne|by rewrite lookup_insert_ne].
  - rewrite txs_at_put, decide_True by done. split.
    + destruct Hts3 as [->|[-> _]]; [exists s|exists n]; intros x; [split; [by intros ?%elem_of_nil|lia]|]. rewrite Hn. unfold ts1. rewrite list_elem_of_filter. tauto.
    + intros Hne. destruct Hts3 as [->|[-> Hin]]; [done|]. by rewrite (nonces_sim p p2) in Hin by apply K.
Qed.

(** ** All accounts *)

Lemma demote_each_ends addrs : forall p P Q X, pool_inv None p P Q X -> NoDup addrs -> (forall a, a ∈ addrs -> is_Some (P !! a)) ->
  ends (for_each (demote_account iter Hash Now config) addrs) p (fun _ p' => quiet p p' /\ exists P' Q' X', pool_inv None p' P' Q' X' /\ X' ⊆ X /\
    (forall a, a ∈ addrs -> demoted p a (txs_at P a) (txs_at P' a)) /\ (forall a, a ∉ addrs -> P' !! a = P !! a)).
Proof.
  induction addrs as [|a addrs IH]; intros p P Q X H Hnd Hin; cbn [for_each].
  { go. split; [done|]. exists P, Q, X. split_and!; [done|done|by intros a ?%elem_of_nil|done]. }
  apply list.NoDup_cons in Hnd as [Ha Hnd]. destruct (Hin a) as [ts Ets]; [apply list.elem_of_cons; by left|].
  go. call (by apply (demote_account_ends a p P Q X ts)). intros _ p1 (K1 & P1 & Q1 & X1 & H1 & S1 & Ho1 & Hd1).
  call (apply (IH p1 P1 Q1 X1 H1 Hnd)).
  { intros a' Ha'. rewrite Ho1 by (intros ->; done). apply Hin, list.elem_of_cons. by right. }
  intros _ p2 (K2 & P2 & Q2 & X2 & H2 & S2 & Hd2 & Ho2). split; [by etransitivity|]. exists P2, Q2, X2. split_and!; [done|set_solver| |].
  - intros a' Ha'. apply list.elem_of_cons in Ha' as [->|Ha'].
    + unfold txs_at at 2. rewrite (Ho2 a Ha). fold (txs_at P1 a). unfold txs_at at 1. by rewrite Ets.
    + assert (a' <> a) by (intros ->; done). specialize (Hd2 a' Ha'). unfold txs_at at 1. rewrite <- Ho1 by done. fold (txs_at P1 a').
      destruct Hd2 as [(n & D1) D2]. rewrite (kp_state _ _ (proj1 K1)), ?(nonces_sim p p1) in * by apply K1. split; [|done]. exists n. intros x. specialize (D1 x).
      by rewrite (keeps_nonce p p1) in D1 by apply K1.
  - intros a' Ha'. rewrite list.elem_of_cons in Ha'. rewrite Ho2 by tauto. apply Ho1. tauto.
Qed.

(** The accounts that a loop over a map visits. *)
Lemma elem_of_keys {A} (m : gmap Z A) a : a ∈ (iter _ (map_to_list m)).*1 <-> is_Some (m !! a).
Proof.
  rewrite iter_perm, list_elem_of_fmap. split.
  - intros ([a' x] & -> & Hx%elem_of_map_to_list). by exists x.
  - intros [x Hx]. exists (a, x). split; [done|]. by apply elem_of_map_to_list.
Qed.

Lemma NoDup_keys {A} (m : gmap Z A) : NoDup (iter _ (map_to_list m)).*1.
Proof. rewrite iter_perm. apply NoDup_fst_map_to_list. Qed.

Lemma reps_is_Some b st m f a : reps b st m f -> is_Some (m !! a) <-> is_Some (f !! a).
Proof. intros H. rewrite <- !not_eq_None_Some. by rewrite (reps_None _ _ _ _ a H). Qed.

Lemma demoteUnexecutables_ends p P Q X : pool_inv None p P Q X -> ends (demoteUnexecutables iter Hash Now config) p (fun _ p' => quiet p p' /\
  exists P' Q' X', pool_inv None p' P' Q' X' /\ X' ⊆ X /\ forall a, demoted p a (txs_at P a) (txs_at P' a)).
Proof.
  intros H. unfold demoteUnexecutables. go. assert (Hk : forall a, a ∈ (iter _ (map_to_list (pending p))).*1 <-> is_Some (P !! a)).
  { intros a. rewrite elem_of_keys. eapply reps_is_Some, H. }
  call (apply (demote_each_ends _ p P Q X H)); [apply NoDup_keys|intros a; apply Hk|]. intros _ p' (K & P' & Q' & X' & H' & S' & Hd & Ho). split; [done|]. exists P', Q', X'. split_and!; [done|done|].
  intros a. destruct (P !! a) as [ts|] eqn:E; [apply Hd, Hk; by exists ts|]. assert (E' : P' !! a = None) by (rewrite Ho; [done|]; rewrite Hk, E; by intros [? ?]).
  unfold txs_at. rewrite E, E'. split; [|done]. exists 0. intros x. split; [by intros ?%elem_of_nil|]. by intros [?%elem_of_nil _].
Qed.

(** ** Nonces *)

(** What is left of a run is a run. *)
Lemma demoted_chain p a exact next ts ts' : let s := GetNonce (currentState p) a in chain_at exact s next ((fun t => nonce p t) <$> ts) -> demoted p a ts ts' ->
  exists next', chain_at true s next' ((fun t => nonce p t) <$> ts').
Proof.
  intros s (e & H1 & H2 & _ & _) [(n & Hd) _]. exists (Z.max s (Z.min e n)), (Z.max s (Z.min e n)). split_and!; [lia| |lia|].
  - intros m Hm. specialize (H2 m Hm). rewrite elem_of_nonces in H2 |- *. setoid_rewrite Hd. split.
    + intros (x & [Hx Hlt] & <-). assert (nonce p x < e) by (apply H2; by exists x). lia.
    + intros Hlt. destruct (proj2 H2) as (x & Hx & <-); [lia|]. exists x. split; [|done]. split; [done|lia].
  - intros _. split; [done|]. intros m (x & Hx & <-)%elem_of_nonces. apply Hd in Hx. apply Hx.
Qed.

(** The nonce after the last transaction of a run. *)
Lemma chain_last (st : Store) s next ts t : chain_at true s next ((fun t => tx_Nonce (st t)) <$> (ts ++ [t])) -> ascending (V := st) (ts ++ [t]) -> next = tx_Nonce (st t) + 1.
Proof.
  intros (e & H1 & H2 & _ & H4) Hs. destruct (H4 eq_refl) as [-> H5]. assert (Hin : tx_Nonce (st t) ∈ (fun t => tx_Nonce (st t)) <$> (ts ++ [t])).
  { apply (list_elem_of_fmap_2 (fun t => tx_Nonce (st t))), elem_of_app. right. apply list.elem_of_cons. by left. }
  pose proof (H5 _ Hin) as Hle. pose proof (proj1 (H2 _ Hle) Hin) as Hlt. destruct (Z.eq_dec (tx_Nonce (st t) + 1) e) as [E|Hne]; [done|exfalso].
  assert (Hx : tx_Nonce (st t) + 1 ∈ (fun t => tx_Nonce (st t)) <$> (ts ++ [t])) by (apply H2; lia). apply list_elem_of_fmap in Hx as (x & Ex & Hx).
  apply elem_of_app in Hx as [Hx|Hx]; [|apply list.elem_of_cons in Hx as [->|Hx%elem_of_nil]; [lia|done]]. apply StronglySorted_app in Hs as (Hs & _ & _).
  specialize (Hs x t Hx ltac:(apply list.elem_of_cons; by left)). unfold Tx.Nonce, view in Hs. lia.
Qed.

Lemma last_nonces_ends addrs : forall nonces p P Q X, pool_inv None p P Q X -> (forall a, a ∈ addrs -> is_Some (P !! a)) ->
  ends (last_nonces iter addrs nonces) p (fun r p' => quiet p p' /\ pool_inv None p' P Q X /\
    forall a, (a ∈ addrs -> exists ts t, txs_at P a = ts ++ [t] /\ r !! a = Some (nonce p t + 1)) /\ (a ∉ addrs -> r !! a = nonces !! a)).
Proof.
  induction addrs as [|a addrs IH]; intros nonces p P Q X H Hin; cbn [last_nonces].
  { go. split_and!; [done|done|]. intros a. split; [by intros ?%elem_of_nil|done]. }
  destruct (Hin a) as [ts Ets]; [apply list.elem_of_cons; by left|]. assert (Eat : txs_at P a = ts) by (unfold txs_at; by rewrite Ets).
  destruct ts as [|t ts0 _] using rev_ind; [by apply (pv_pending _ _ _ _ _ _ H) in Ets|].
  go. call (apply (on_pending_ends Hash a _ p P Q X _ (fun r ts' => r = t /\ ts' = ts0 ++ [t]) (pv_ok _ _ _ _ _ _ H) Ets)).
  { intros l Hl. pose proof Hl as (Es & Hw & _). destruct (LastElement_wf (V := txs_store p) iter iter_perm l ts0 t Hw) as (l' & E & Hw' & Es'). exists t, l', (ts0 ++ [t]).
    split_and!; [exact E| |done|done]. by eapply held_sub. }
  intros r p1 (m & ts' & (-> & ->) & -> & Hm). go. rewrite insert_id in Hm by done. assert (H1 : pool_inv None (set_pending m p) P Q X).
  { destruct H as [H Hf HlP HlQ Hc]. split; [|done..]. eapply set_pending_ok; [done|done|]. apply H. }
  assert (Hg : good (txs_store p) t /\ tx_From (txs_store p t) = Some a).
  { eapply reps_at_good; [apply H|]. rewrite Eat. apply elem_of_app. right. apply list.elem_of_cons. by left. }
  pose proof (g_nonce _ _ (proj1 Hg)) as Hlt. pose proof (wf_nonce _ (g_wf _ _ (proj1 Hg))) as Hge. unfold Tx.Nonce, view in Hge.
  call (apply (IH _ (set_pending m p) P Q X H1)).
  { intros a' Ha'. apply Hin, list.elem_of_cons. by right. }
  intros r p2 (K2 & H2 & Hr). split; [etransitivity; [|exact K2]; by split|]. split; [done|]. intros a'. destruct (Hr a') as [R1 R2]. split.
  - intros Ha'. destruct (decide (a' ∈ addrs)) as [Hin'|Hout]; [by apply R1|]. apply list.elem_of_cons in Ha' as [->|Ha']; [|done].
    exists ts0, t. split; [done|]. rewrite (R2 Hout), lookup_insert_eq. cbn. by rewrite u64_small by lia.
  - intros Ha'. rewrite list.elem_of_cons in Ha'. rewrite R2 by tauto. apply lookup_insert_ne. intros ->. tauto.
Qed.

(** ** After a reset *)

Context (chainconfig : ChainConfig).

(** A head from which the next base fee can be computed. *)
Definition fee_ok (b : PoolBlock) : Prop := let h := block_header b in
  chain.IsLondon chainconfig (u64 (header.Number h)) = true ->
  (exists fee, header.BaseFee h = Some fee /\ 0 <= fee) /\ 2 <= header.GasLimit h < two64 /\ 0 <= header.GasUsed h < two64.

Lemma fee_ok_calc b : fee_ok b -> exists fee, CalcBaseFee chainconfig (block_header b) = Done fee /\ 0 <= fee.
Proof.
  intros H. unfold fee_ok in H. destruct (chain.IsLondon chainconfig (u64 (header.Number (block_header b)))) eqn:E.
  - destruct (H eq_refl) as ((fee & Ef & Hf) & Hl & Hu). eexists. split; [by apply (CalcBaseFee_eq _ _ fee)|]. pose proof (target_pos _ Hl).
    destruct (_ =? _); [done|]. destruct (_ <? _); lia.
  - exists InitialBaseFee. unfold CalcBaseFee. rewrite E. split; [done|]. unfold InitialBaseFee. lia.
Qed.

Lemma set_base_fee_ends b mode p P Q X : fee_ok b -> pool_inv mode p P Q X -> ends (set_base_fee iter chainconfig b) p (fun _ p' => quiet p p' /\ pool_inv mode p' P Q X).
Proof.
  intros Hb H. unfold set_base_fee. destruct (chain.IsLondon _ _); [|by go]. destruct (fee_ok_calc b Hb) as (fee & Ef & Hfee). go. eapply ends_outcome; [exact Ef|]. go.
  call (apply (on_priced_inv Hash mode _ p P Q X (fun _ => True) H)).
  - call (apply (SetBaseFee_ends iter iter_perm); [|exact (ao_remotes _ _ _ _ (pk_all _ _ _ _ _ (pv_ok _ _ _ _ _ _ H)))|exact (pk_priced _ _ _ _ _ (pv_ok _ _ _ _ _ _ H))]); [|done].
    rewrite uint256.FromBig_spec by done. apply wrap256_word.
  - intros _ p' (K & _ & H' & _). done.
Qed.

(** The pending transactions of every account start with its nonce. *)
Definition fronted (p : TxsPool) (P : gmap Z (list Ptr)) : Prop := forall a t ts, txs_at P a = t :: ts -> nonce p t = GetNonce (currentState p) a.

Lemma fronted_keeps p p' P : keeps p p' -> fronted p P -> fronted p' P.
Proof. intros K H a t ts E. rewrite (kp_state _ _ K), (keeps_nonce p p') by done. by eapply H. Qed.

Lemma demoted_front p a ts t ts' : demoted p a ts (t :: ts') -> ascending (V := txs_store p) (t :: ts') -> nonce p t = GetNonce (currentState p) a.
Proof.
  intros [(n & Hd) Hs] [_ Hlt]%(ascending_cons (V := txs_store p)). specialize (Hs ltac:(done)). apply elem_of_nonces in Hs as (x & Hx & Ex).
  assert (Ht : t ∈ t :: ts') by (apply list.elem_of_cons; by left). apply Hd in Ht as (_ & Hge & _). apply list.elem_of_cons in Hx as [->|Hx]; [done|].
  specialize (Hlt x Hx). unfold Tx.Nonce, view in Hlt. lia.
Qed.

Lemma inv_None mode p P Q X : pool_inv mode p P Q X -> pool_inv None p P Q X.
Proof. by intros [H1 H2 H3 H4 _]. Qed.

(** The nonces computed from runs make the runs exact again. *)
Lemma renumbered p P (r : gmap Z Z) : txNoncer.fallback (pendingNonces p) = currentState p ->
  (forall a, exists next, chain_at true (GetNonce (currentState p) a) next ((fun t => nonce p t) <$> txs_at P a)) -> (forall a, ascending (V := txs_store p) (txs_at P a)) ->
  (forall a, is_Some (P !! a) -> exists ts t, txs_at P a = ts ++ [t] /\ r !! a = Some (nonce p t + 1)) -> (forall a, P !! a = None -> r !! a = None) ->
  chained (Some true) (set_pendingNonces (txNoncer.setAll r (pendingNonces p)) p) P.
Proof.
  intros Hfb Hc Hs Hsome Hnone. split; [done|]. intros a. cbn. unfold next_nonce. cbn. rewrite Hfb. destruct (Hc a) as (next & Hn). destruct (P !! a) as [l|] eqn:E.
  - destruct (Hsome a) as (ts & t & Et & Er); [by exists l|]. rewrite Er. cbn. specialize (Hs a). rewrite Et in Hn, Hs |- *. by rewrite <- (chain_last (txs_store p) _ _ ts t Hn Hs).
  - rewrite (Hnone a E). cbn. unfold txs_at in Hn |- *. rewrite E in Hn |- *. destruct Hn as (e & H1 & H2 & _ & _). exists (GetNonce (currentState p) a).
    split_and!; [done| |done|intros _; split; [done|by intros n ?%elem_of_nil]]. intros n Hn. split; [by intros ?%elem_of_nil|lia].
Qed.

(** With runs of nonces before, the next nonces are exact afterwards. *)
Definition after (mode : option bool) : option bool := match mode with None => None | Some _ => Some true end.

Lemma settle_ends b mode p P Q X : fee_ok b -> pool_inv mode p P Q X -> ends (settle iter Hash Now config chainconfig b) p (fun _ p' => keeps p p' /\
  exists P' Q' X', pool_inv (after mode) p' P' Q' X' /\ X' ⊆ X /\ fronted p' P').
Proof.
  intros Hb H. unfold settle. go. call (apply (demoteUnexecutables_ends p P Q X), (inv_None _ _ _ _ _ H)). intros _ p1 (K1 & P1 & Q1 & X1 & H1 & S1 & Hd). go.
  call (by apply (set_base_fee_ends b None p1 P1 Q1 X1)). intros _ p2 [K2 H2]. go. assert (K : quiet p p2) by by etransitivity.
  assert (Hk : forall a, a ∈ (iter _ (map_to_list (pending p2))).*1 <-> is_Some (P1 !! a)) by (intros a; rewrite elem_of_keys; eapply reps_is_Some, H2).
  call (apply (last_nonces_ends _ ∅ p2 P1 Q1 X1 H2)); [intros a; apply Hk|]. intros r p3 (K3 & H3 & Hr). unfold on_noncer. apply ends_zoom. go. assert (K' : quiet p p3) by by etransitivity.
  split; [etransitivity; [apply K'|]; by split|]. exists P1, Q1, X1. split_and!; [|done|].
  2: { apply (fronted_keeps p3); [by split|]. apply (fronted_keeps p); [apply K'|]. intros a t ts E. specialize (Hd a). rewrite E in Hd. eapply demoted_front; [exact Hd|].
       rewrite <- E. eapply (ascending_view (txs_store p1)), reps_sorted, H1. intros x. unfold Tx.Nonce, view. symmetry. by apply quiet_nonce. }
  destruct H3 as [G1 G2 G3 G4 _]. split; [by destruct G1|done|done|done|]. destruct H as [Gp _ _ _ Hc]. destruct mode as [exact|]; [|done]. destruct Hc as [Hfb Hc]. cbn [after].
  apply renumbered.
  - by rewrite (proj2 K'), (kp_state _ _ (proj1 K')).
  - intros a. rewrite (kp_state _ _ (proj1 K')), (nonces_sim p p3) by apply K'. eapply demoted_chain; [apply Hc|apply Hd].
  - intros a. eapply reps_sorted, G1.
  - intros a Ha. destruct (Hr a) as [R1 _]. destruct (R1 (proj2 (Hk a) Ha)) as (ts & t & Et & Er). exists ts, t. by rewrite (quiet_nonce p2 p3).
  - intros a Ha. destruct (Hr a) as [_ R2]. rewrite R2; [done|]. rewrite Hk, Ha. by intros [? ?].
Qed.
End Demote.

(** * Resets of the transaction pool

    A new head: the transactions of blocks that are no longer on the chain come back, the
    state changes under the pool, and the background run puts the lists in order. *)

Import TxsPoolConfig.

Section Reset.
Context {U : Uint256} {UL : Uint256Laws U}.
Context (iter : forall A : Type, list A -> list A) (iter_perm : forall A (l : list A), iter A l ≡ₚ l) (Hash : Ptr -> Z) (Now : nat -> Z).
Context (config : Config) (cfg : config_ok config) (chainconfig : ChainConfig) (bc : PoolChain) (mode : option bool).
Notation nonce p t := (tx_Nonce (txs_store p t)).
Notation pool_ok := (pool_ok Hash).
Notation pool_inv := (pool_inv Hash).

(** ** The chain *)

(** The blocks [B]: numbers go down by one from a block to its parent, the transactions
    are well formed, and states answer nonces and balances in range. *)
Record chain_ok (st : Store) (B : PoolBlock -> Prop) : Prop := {
  ch_parent b q : B b -> GetBlockByHash bc (ParentHash b) = Some q -> B q /\ Number64 q = Number64 b - 1;
  ch_number b : B b -> 0 <= Number64 b;
  ch_txs b : B b -> Forall (good st) (block_txs b);
  ch_fee b : B b -> fee_ok chainconfig b;
  ch_state h cs : StateAt bc h = Some cs -> state_ok cs
}.

Lemma chain_ok_sim st st' B : sim st st' -> chain_ok st B -> chain_ok st' B.
Proof.
  intros Hs [H1 H2 H3 H4 H5]. split; [done|done| |done|done]. intros b Hb. eapply list.Forall_impl; [by apply H3|]. intros t. by apply sim_good.
Qed.

Section Chain.
Context (st : Store) (B : PoolBlock -> Prop) (HB : chain_ok st B).

Lemma unwind_done height fuel : forall b txs, B b -> 0 <= height -> Forall (good st) txs -> (Z.to_nat (Number64 b) < fuel)%nat ->
  exists r, unwind bc fuel b height txs = Done r /\ forall b' txs', r = Some (b', txs') -> B b' /\ Forall (good st) txs'.
Proof.
  induction fuel as [|fuel IH]; intros b txs Hb Hh Ht Hf; [lia|]. cbn [unwind]. destruct (Z.ltb_spec height (Number64 b)) as [Hlt|Hge]; cbn [negb].
  - destruct (GetBlockByHash bc (ParentHash b)) as [q|] eqn:E; [|by exists None]. destruct (ch_parent _ _ HB b q Hb E) as [Hq En]. pose proof (ch_number _ _ HB q Hq).
    apply IH; [done|done|apply Forall_app; split; [done|by apply (ch_txs _ _ HB)]|lia].
  - eexists. split; [done|]. by intros b' txs' [= <- <-].
Qed.

Lemma unwind_both_done fuel : forall rem add d i, B rem -> B add -> Forall (good st) d -> (Z.to_nat (Number64 rem) < fuel)%nat ->
  exists r, unwind_both bc fuel rem add d i = Done r /\ forall d' i', r = Some (d', i') -> Forall (good st) d'.
Proof.
  induction fuel as [|fuel IH]; intros rem add d i Hr Ha Hd Hf; [lia|]. cbn [unwind_both]. destruct (_ =? _); [eexists; split; [done|]; by intros d' i' [= <- <-]|].
  destruct (GetBlockByHash bc (ParentHash rem)) as [r'|] eqn:Er; [|by exists None]. destruct (GetBlockByHash bc (ParentHash add)) as [a'|] eqn:Ea; [|by exists None].
  destruct (ch_parent _ _ HB rem r' Hr Er) as [Hr' En]. destruct (ch_parent _ _ HB add a' Ha Ea) as [Ha' _]. pose proof (ch_number _ _ HB r' Hr').
  apply IH; [done|done|apply Forall_app; split; [done|by apply (ch_txs _ _ HB)]|lia].
Qed.

(** The transactions of the blocks that were left are found whatever the two heads are,
    unless the chain has a hole. *)
Lemma reinject_done old new : (forall b, old = Some b -> B b) -> B new ->
  exists r, reinject Hash bc old new = Done r /\ forall txs, r = Some txs -> Forall (good st) txs.
Proof.
  intros Ho Hn. unfold reinject. assert (Hnil : exists r, Done (Some []) = Done r /\ forall txs : list Ptr, r = Some txs -> Forall (good st) txs).
  { eexists. split; [done|]. intros txs [= <-]. constructor. }
  destruct old as [old|]; [|done]. specialize (Ho old eq_refl). destruct (_ =? _); [done|]. destruct (64 <? _); [done|].
  destruct (unwind_done (Number64 new) (S (Z.to_nat (Number64 old))) old [] Ho (ch_number _ _ HB new Hn) ltac:(constructor) ltac:(lia)) as (r1 & -> & H1). cbn [mbind outcome_bind].
  destruct r1 as [[rem discarded]|]; [|by exists None]. destruct (H1 _ _ eq_refl) as [Hr Hd].
  destruct (unwind_done (Number64 rem) (S (Z.to_nat (Number64 new))) new [] Hn (ch_number _ _ HB rem Hr) ltac:(constructor) ltac:(lia)) as (r2 & -> & H2). cbn [mbind outcome_bind].
  destruct r2 as [[add included]|]; [|by exists None]. destruct (H2 _ _ eq_refl) as [Ha Hi].
  destruct (unwind_both_done (S (S (Z.to_nat (Number64 rem)))) rem add discarded included Hr Ha Hd ltac:(lia)) as (r3 & -> & H3). cbn [mbind outcome_bind].
  destruct r3 as [[d' i']|]; [|by exists None]. eexists. split; [done|]. intros txs [= <-]. apply list.Forall_forall. intros t [_ Ht]%list_elem_of_filter.
  specialize (H3 _ _ eq_refl). rewrite list.Forall_forall in H3. by apply H3.
Qed.
End Chain.

(** ** A new state *)

Definition relax (m : option bool) : option bool := match m with None => None | Some _ => Some false end.

(** On a state whose nonces are not behind, the pending transactions that are not mined
    still follow each other. *)
Lemma new_state cs g p P Q X : pool_inv mode p P Q X -> state_ok cs -> (mode <> None -> forall a, GetNonce (currentState p) a <= GetNonce cs a) ->
  pool_inv (relax mode) (set_head cs (txNoncer.newTxNoncer cs) g p) P Q X.
Proof.
  intros [[G1 G2 G3 G4 G5 G6] H2 H3 H4 H5] Hcs Hn. split; [by split|done|done|done|]. destruct mode as [exact|]; [|done]. destruct H5 as [_ Hc]. split; [done|]. intros a.
  specialize (Hn ltac:(done) a). cbn. unfold next_nonce. cbn. rewrite lookup_empty. cbn. destruct (Hc a) as (e & C1 & C2 & C3 & _). exists (Z.max e (GetNonce cs a)). split_and!; [lia| |lia|done].
  intros n Hle. rewrite C2 by lia. lia.
Qed.

Lemma inv_relax p P Q X : pool_inv mode p P Q X -> pool_inv (relax mode) p P Q X.
Proof.
  intros [H1 H2 H3 H4 H5]. split; [done..|]. destruct mode as [exact|]; [|done]. destruct H5 as [H5 Hc]. split; [done|]. intros a. destruct (Hc a) as (e & C1 & C2 & C3 & _). by exists e.
Qed.

Lemma reset_ends old new B p P Q X : chain_ok (txs_store p) B -> (forall b, old = Some b -> B b) -> B new -> pool_inv mode p P Q X ->
  (mode <> None -> forall cs, StateAt bc (block_hash new) = Some cs -> forall a, GetNonce (currentState p) a <= GetNonce cs a) ->
  ends (reset iter Hash Now config chainconfig bc old new) p (fun _ p' => sim (txs_store p) (txs_store p') /\
    (currentState p' = currentState p \/ StateAt bc (block_hash new) = Some (currentState p')) /\ exists P' Q' X', pool_inv (relax mode) p' P' Q' X').
Proof.
  intros HB Ho Hn H Hadv. unfold reset. destruct (reinject_done _ _ HB old new Ho Hn) as (r & Er & Hr). go. eapply ends_outcome; [exact Er|]. cbv beta.
  assert (Hsame : ends (mret ()) p (fun _ p' => sim (txs_store p) (txs_store p') /\ (currentState p' = currentState p \/ StateAt bc (block_hash new) = Some (currentState p')) /\
    exists P' Q' X', pool_inv (relax mode) p' P' Q' X')) by (go; split_and!; [done|by left|]; exists P, Q, X; by apply inv_relax).
  destruct r as [txs|]; [|exact Hsame]. specialize (Hr txs eq_refl). destruct (StateAt bc (block_hash new)) as [cs|] eqn:Es; [|exact Hsame]. go.
  call (apply (addTxsLocked_ends iter iter_perm Hash Now config cfg (relax mode) txs false _ P Q X); [apply new_state; [done|by eapply (ch_state _ _ HB)|intros Hm; by apply Hadv]|exact Hr]).
  intros [errs dirty] p1 ([K1 K2 K3] & _ & P1 & Q1 & X1 & H1 & _). go. split; [exact K1|]. split; [right; cbn; by rewrite K2|]. exists P1, Q1, X1.
  destruct H1 as [G1 G2 G3 G4 G5]. split; [by destruct G1|done|done|done|]. exact G5.
Qed.

(** ** Events *)

(** Sorted maps of transactions. *)
Definition events_ok (st : Store) (events : gmap Z (txsSortedMap.Map Ptr)) : Prop := map_Forall (fun _ m => exists ts, repr (V := st) m ts) events.

Lemma events_ok_sim st st' events : sim st st' -> events_ok st events -> events_ok st' events.
Proof.
  intros Hs H a m E. destruct (H a m E) as (ts & Hr). exists ts. eapply repr_view; [|exact Hr]. intros t. unfold Tx.Nonce, view. apply (st_nonce _ _ (Hs t)).
Qed.

Lemma noncer_get_inv m a p P Q X : pool_inv m p P Q X -> ends (on_noncer (txNoncer.get a)) p (fun r p' => keeps p p' /\ r = next_nonce (pendingNonces p) a /\ pool_inv m p' P Q X).
Proof.
  intros [H1 H2 H3 H4 H5]. unfold on_noncer. apply ends_zoom. call apply noncer_get_ends. intros r n' [-> ->]. split_and!; [by split|done|].
  split; [by destruct H1|done|done|done|by apply chained_fill].
Qed.

Lemma forward_events_ends m addrs : forall events p P Q X, pool_inv m p P Q X -> events_ok (txs_store p) events -> NoDup addrs -> (forall a, a ∈ addrs -> is_Some (events !! a)) ->
  ends (forward_events addrs events) p (fun events' p' => keeps p p' /\ pool_inv m p' P Q X /\ events_ok (txs_store p') events').
Proof.
  induction addrs as [|a addrs IH]; intros events p P Q X H He Hnd Hin; cbn [forward_events]; [by go|]. apply list.NoDup_cons in Hnd as [Ha Hnd].
  destruct (Hin a) as [e Ee]; [apply list.elem_of_cons; by left|]. go. call (by apply (noncer_get_inv m a p P Q X)). intros next p1 (K1 & -> & H1). go. eapply ends_must; [exact Ee|]. go.
  destruct (He a e Ee) as (ts & Hr). destruct (Forward_ok (V := txs_store p) (next_nonce (pendingNonces p) a) e ts Hr) as (e' & E' & Hr'). eapply ends_outcome; [exact E'|]. cbv beta match.
  assert (He1 : events_ok (txs_store p1) (if txsSortedMap.Len e' =? 0 then delete a events else <[a := e']> events)).
  { eapply events_ok_sim; [apply (kp_sim _ _ K1)|]. destruct (_ =? 0); [by apply map_Forall_delete|]. apply map_Forall_insert_2; [by eexists|done]. }
  call (apply (IH _ p1 P Q X H1 He1 Hnd)).
  - intros a' Ha'. assert (a <> a') by (intros ->; done). assert (is_Some (events !! a')) by (apply Hin, list.elem_of_cons; by right).
    destruct (_ =? 0); [by rewrite lookup_delete_ne|by rewrite lookup_insert_ne].
  - intros events' p2 (K2 & H2 & He2). split_and!; [by etransitivity|done|done].
Qed.

(** ** The run under the lock *)

Definition request_ok (B : PoolBlock -> Prop) (request : option (option PoolBlock * PoolBlock)) : Prop :=
  forall old new, request = Some (old, new) -> (forall b, old = Some b -> B b) /\ B new.

(** The nonces of the new state are not behind. *)
Definition advances (cs : ChainState) (request : option (option PoolBlock * PoolBlock)) : Prop :=
  forall old new cs', request = Some (old, new) -> StateAt bc (block_hash new) = Some cs' -> forall a, GetNonce cs a <= GetNonce cs' a.

Lemma after_relax m : after (relax m) = after m.
Proof. by destruct m. Qed.

(** The accounts that a run was asked to promote. *)
Definition asks (dirty : option accountSet.Accounts) (a : Z) : Prop := match dirty with None => False | Some d => accountSet.cache d = None /\ a ∈ accountSet.accounts d end.

Lemma flatten_asks d : exists addrs d', accountSet.flatten iter d = Done (addrs, d') /\ forall a, asks (Some d) a -> a ∈ addrs.
Proof.
  unfold accountSet.flatten, get, modify, mbind, M_bind. destruct (accountSet.cache d) as [c|] eqn:E; eexists _, _; (split; [done|]); intros a [E' Ha]; [congruence|].
  rewrite iter_perm. by apply elem_of_elements.
Qed.

Lemma reorg_locked_ends B request dirty events p P Q X : chain_ok (txs_store p) B -> request_ok B request -> after mode = mode -> pool_inv mode p P Q X ->
  (mode <> None -> advances (currentState p) request) -> events_ok (txs_store p) events ->
  ends (reorg_locked iter Hash Now config chainconfig bc request dirty events) p (fun '(promoted, events') p' => sim (txs_store p) (txs_store p') /\
    Forall (good (txs_store p')) promoted /\ events_ok (txs_store p') events' /\ exists P' Q' X', pool_inv mode p' P' Q' X' /\ (request <> None -> fronted p' P') /\
    (request = None -> forall a, asks dirty a -> sifted config p' Q' a)).
Proof.
  intros HB Hreq Hmode H Hadv He. unfold reorg_locked. destruct request as [[old new]|].
  - destruct (Hreq old new eq_refl) as [Ho Hn]. go. call (apply (reset_ends old new B p P Q X HB Ho Hn H)); [intros Hm cs Ecs; by eapply Hadv|].
    intros _ p1 (S1 & _ & P1 & Q1 & X1 & H1). go. call (apply (forward_events_ends (relax mode) _ events p1 P1 Q1 X1 H1)).
    + by eapply events_ok_sim.
    + by apply NoDup_keys.
    + intros a. by apply elem_of_keys.
    + intros events' p2 (K2 & H2 & He2). go. call (by apply (promoteExecutables_ends iter iter_perm Hash Now config cfg (relax mode) _ [] p2 P1 Q1 X1)).
      intros r p3 (K3 & P3 & Q3 & X3 & news & H3 & _ & -> & Hg & _). go. call (by apply (settle_ends iter iter_perm Hash Now config chainconfig new (relax mode) p3 P3 Q3 X3); [apply (ch_fee _ _ HB)|]).
      intros _ p4 (K4 & P4 & Q4 & X4 & H4 & _ & Hfr). go. assert (S34 : sim (txs_store p3) (txs_store p4)) by apply K4. assert (S24 : sim (txs_store p2) (txs_store p4)) by (etransitivity; [apply K3|done]).
      split_and!; [etransitivity; [exact S1|]; etransitivity; [apply K2|done]| |by eapply events_ok_sim|].
      * cbn. eapply list.Forall_impl; [exact Hg|]. intros t. by apply sim_good.
      * exists P4, Q4, X4. rewrite after_relax, Hmode in H4. by split_and!.
  - go. apply (ends_mono _ _ (fun addrs p' => p' = p /\ forall a, asks dirty a -> a ∈ addrs)).
    { destruct dirty as [d|]; [|by go]. go. destruct (flatten_asks d) as (addrs & d' & Ef & Ha). eapply ends_outcome; [exact Ef|]. by go. }
    intros addrs p' [-> Ha]. go. call (by apply (promoteExecutables_ends iter iter_perm Hash Now config cfg mode addrs [] p P Q X)).
    intros r p1 (K1 & P1 & Q1 & X1 & news & H1 & _ & -> & Hg & Hs). go. split_and!; [apply K1|done|eapply events_ok_sim; [apply K1|done]|]. exists P1, Q1, X1.
    split_and!; [done|done|]. intros _ a Hd. apply Hs. left. by apply Ha.
Qed.

(** ** Announcements *)

(** An event joins those of its sender. *)
Lemma event_put st events t a : good st t -> events_ok st events ->
  exists r m, txsSortedMap.Put (V := st) t (default txsSortedMap.newTxSortedMap (events !! a)) = Done (r, m) /\ events_ok st (<[a := m]> events).
Proof.
  intros Ht He. assert (exists ts, repr (V := st) (default txsSortedMap.newTxSortedMap (events !! a)) ts) as (ts & Hr).
  { destruct (events !! a) as [e|] eqn:Ee; [by apply (He a e)|]. exists []. split; [apply (core_new (V := st))|by left]. }
  destruct (Put_ok (V := st) t _ ts Hr (wf_nonce _ (g_wf _ _ Ht))) as (m' & E & Hr'). eexists _, m'. split; [exact E|]. apply map_Forall_insert_2; [by eexists|done].
Qed.

Lemma put_events_ends promoted : forall events p, Forall (good (txs_store p)) promoted -> events_ok (txs_store p) events ->
  ends (put_events promoted events) p (fun events' p' => p' = p /\ events_ok (txs_store p) events').
Proof.
  induction promoted as [|t promoted IH]; intros events p Hg He; cbn [put_events]; [by go|]. inversion Hg as [|? ? Ht Hts]; subst. destruct (good_sender _ _ Ht) as (a & Ea & _).
  go. call (by eapply from_of_ends). intros r p' [-> ->]. go. destruct (event_put (txs_store p) events t a Ht He) as (r & m & E & Hm).
  eapply ends_outcome; [exact E|]. cbv beta match. by apply IH.
Qed.

Lemma flatten_events_ends sets : forall txs p, Forall (fun m => exists ts, repr (V := txs_store p) m ts) sets -> ends (flatten_events iter sets txs) p (fun _ p' => p' = p).
Proof.
  induction sets as [|m sets IH]; intros txs p Hs; cbn [flatten_events]; [by go|]. inversion Hs as [|? ? (ts & Hr) Hs']; subst. go.
  destruct (flatten_ok (V := txs_store p) iter iter_perm m ts Hr) as (m' & E & _). eapply ends_outcome; [exact E|]. by apply IH.
Qed.
End Reset.
