(* ===== verification/TxPoolLimits.v ===== *)
(** * The limits of the transaction pool

    [truncatePending] takes from the accounts with most pending transactions, evenly, until
    the pool is within its limit or nobody has more than the allowance of an account;
    [truncateQueue] empties queues until the limit is met or only local accounts have one. *)

From stdpp Require Import sorting.
From S2P Require Import Prelude Uint256 Wire Transaction Heap Prque TxList TxListTheorems TxLookup TxPriced Ends TxPricedTheorems TxPool TxPoolBase TxPoolOps TxPoolAdd TxPoolPromote TxPoolDemote.
Import TxsPoolConfig.

(** ** Totals *)

Definition sumZ (l : list Z) : Z := foldr Z.add 0 l.

Lemma sumZ_app l k : sumZ (l ++ k) = sumZ l + sumZ k.
Proof. induction l as [|x l IH]; [done|]. unfold sumZ in *. cbn. lia. Qed.

#[global] Instance sumZ_perm : Proper ((≡ₚ) ==> (=)) sumZ.
Proof. induction 1; cbn; unfold sumZ in *; lia. Qed.

(** The number of transactions in the lists. *)
Definition total (f : gmap Z (list Ptr)) : Z := sumZ (map_to_list (zlen <$> f)).*2.

Lemma total_insert_new f a ts : f !! a = None -> total (<[a := ts]> f) = zlen ts + total f.
Proof. intros E. unfold total. rewrite fmap_insert, map_to_list_insert by (by rewrite lookup_fmap, E). done. Qed.

Lemma total_insert f a ts ts' : f !! a = Some ts -> total (<[a := ts']> f) = total f - zlen ts + zlen ts'.
Proof.
  intros E. rewrite <- (insert_delete_id f a ts E) at 2. rewrite <- insert_delete_eq, !total_insert_new by apply lookup_delete_eq. lia.
Qed.

Lemma total_delete f a ts : f !! a = Some ts -> total (delete a f) = total f - zlen ts.
Proof. intros E. rewrite <- (insert_delete_id f a ts E) at 2. rewrite total_insert_new by apply lookup_delete_eq. lia. Qed.

Lemma total_nonneg f : 0 <= total f.
Proof. induction f as [|a ts f E IH] using map_ind; [done|]. rewrite total_insert_new by done. pose proof (zlen_nonneg ts). lia. Qed.

Lemma zlen_le_total f a : zlen (txs_at f a) <= total f.
Proof.
  unfold txs_at. destruct (f !! a) as [ts|] eqn:E; [|apply total_nonneg]. rewrite <- (insert_delete_id f a ts E), total_insert_new by apply lookup_delete_eq.
  pose proof (total_nonneg (delete a f)). cbn. lia.
Qed.

(** Lists of different accounts share no transaction. *)
Lemma total_size (from : Ptr -> option Z) f : forall X : gset Ptr, (forall a ts, f !! a = Some ts -> NoDup ts /\ forall t, t ∈ ts -> from t = Some a /\ t ∈ X) -> total f <= Z.of_nat (size X).
Proof.
  induction f as [|a ts f E IH] using map_ind; intros X H; [change (total ∅) with 0; lia|]. rewrite total_insert_new by done.
  destruct (H a ts) as [Hnd Hts]; [by rewrite lookup_insert_eq|]. assert (Hsub : list_to_set ts ⊆ X) by (intros t Ht%elem_of_list_to_set; by apply Hts).
  assert (Hs : size (list_to_set (C := gset Ptr) ts) = length ts) by (by apply size_list_to_set).
  specialize (IH (X ∖ list_to_set ts)). rewrite size_difference, Hs in IH by done. apply subseteq_size in Hsub. rewrite Hs in Hsub. unfold zlen.
  assert (total f <= Z.of_nat (size X - length ts)); [|lia]. apply IH. intros b us Eb. assert (a <> b) by (intros ->; congruence).
  destruct (H b us) as [Hnd' Hus]; [by rewrite lookup_insert_ne|]. split; [done|]. intros t Ht. destruct (Hus t Ht) as [Hf Hx]. split; [done|].
  apply elem_of_difference. split; [done|]. intros Ht'%elem_of_list_to_set. destruct (Hts t Ht') as [Hf' _]. congruence.
Qed.

(** The total is the number of transactions. *)
Lemma total_set (from : Ptr -> option Z) f : (forall a ts, f !! a = Some ts -> NoDup ts /\ forall t, t ∈ ts -> from t = Some a) ->
  exists S : gset Ptr, (forall t, t ∈ S <-> exists a, t ∈ txs_at f a) /\ total f = Z.of_nat (size S).
Proof.
  induction f as [|a ts f E IH] using map_ind; intros H.
  { exists ∅. split; [|done]. intros t. split; [set_solver|]. intros (a & Ha). unfold txs_at in Ha. rewrite lookup_empty in Ha. by apply elem_of_nil in Ha. }
  destruct IH as (S & HS & Et).
  { intros b us Eb. apply H. rewrite lookup_insert_ne; [done|]. intros ->. congruence. }
  destruct (H a ts) as [Hnd Hts]; [by rewrite lookup_insert_eq|]. exists (list_to_set ts ∪ S). split.
  - intros t. rewrite elem_of_union, elem_of_list_to_set, HS. split.
    + intros [Ht|(b & Hb)]; [exists a; by rewrite txs_at_insert, decide_True|]. exists b. rewrite txs_at_insert, decide_False; [done|]. intros <-. unfold txs_at in Hb. rewrite E in Hb. by apply elem_of_nil in Hb.
    + intros (b & Hb). rewrite txs_at_insert in Hb. case_decide; [by left|right; by exists b].
  - rewrite total_insert_new, Et, size_union, size_list_to_set by (done || (intros t Ht%elem_of_list_to_set (b & Hb)%HS; assert (a <> b) by
      (intros <-; unfold txs_at in Hb; rewrite E in Hb; by apply elem_of_nil in Hb); unfold txs_at in Hb; destruct (f !! b) as [us|] eqn:Eb; [|by apply elem_of_nil in Hb];
      destruct (H b us) as [_ Hus]; [by rewrite lookup_insert_ne|]; apply Hts in Ht; apply Hus in Hb; congruence)). unfold zlen. lia.
Qed.

Section Limits.
Context {U : Uint256} {UL : Uint256Laws U}.
Context (iter : forall A : Type, list A -> list A) (iter_perm : forall A (l : list A), iter A l ≡ₚ l) (Hash : Ptr -> Z) (Now : nat -> Z).
Context (config : Config) (cfg : config_ok config) (mode : option bool).
Notation nonce p t := (tx_Nonce (txs_store p t)).
Notation pool_ok := (pool_ok Hash).
Notation pool_inv := (pool_inv Hash mode).

Lemma total_pending p P Q X : pool_inv p P Q X -> 0 <= total P <= 2 ^ 48.
Proof.
  intros H. split; [apply total_nonneg|]. etransitivity; [apply (total_size (fun t => tx_From (txs_store p t)) P X)|].
  - intros a ts E. assert (Eat : txs_at P a = ts) by (unfold txs_at; by rewrite E). pose proof (pk_pending _ _ _ _ _ (pv_ok _ _ _ _ _ _ H)) as Hr. split.
    + rewrite <- Eat. eapply NoDup_fmap_1, NoDup_nonces, reps_sorted, Hr.
    + intros t Ht. rewrite <- Eat in Ht. split; [by eapply reps_at_good|]. apply (pv_full _ _ _ _ _ _ H). exists a. by left.
  - apply addresses_bound. intros t Ht. apply (ao_good _ _ _ _ (pk_all _ _ _ _ _ (pv_ok _ _ _ _ _ _ H)) t Ht).
Qed.

Lemma total_queue p P Q X : pool_inv p P Q X -> 0 <= total Q <= 2 ^ 48.
Proof.
  intros H. split; [apply total_nonneg|]. etransitivity; [apply (total_size (fun t => tx_From (txs_store p t)) Q X)|].
  - intros a ts E. assert (Eat : txs_at Q a = ts) by (unfold txs_at; by rewrite E). pose proof (pk_queue _ _ _ _ _ (pv_ok _ _ _ _ _ _ H)) as Hr. split.
    + rewrite <- Eat. eapply NoDup_fmap_1, NoDup_nonces, reps_sorted, Hr.
    + intros t Ht. rewrite <- Eat in Ht. split; [by eapply reps_at_good|]. apply (pv_full _ _ _ _ _ _ H). exists a. by right.
  - apply addresses_bound. intros t Ht. apply (ao_good _ _ _ _ (pk_all _ _ _ _ _ (pv_ok _ _ _ _ _ _ H)) t Ht).
Qed.

(** The count of the code is the total. *)
Lemma count_fold l : Forall (fun m : PoolList => 0 <= txsList.Len m) l -> forall n, 0 <= n -> n + sumZ (txsList.Len <$> l) < two64 ->
  foldl (fun n m => u64 (n + txsList.Len m)) n l = n + sumZ (txsList.Len <$> l).
Proof.
  induction 1 as [|m l Hm Hl IH]; intros n Hn Hs; cbn; [lia|]. cbn in Hs. fold (sumZ (txsList.Len <$> l)) in *.
  assert (0 <= sumZ (txsList.Len <$> l)) by (clear - Hl; induction Hl; cbn; unfold sumZ in *; lia). rewrite u64_small, IH by lia. lia.
Qed.

Lemma lens_total b st m f : reps b st m f -> txsList.Len <$> m = zlen <$> f.
Proof.
  intros H. apply map_eq. intros a. rewrite !lookup_fmap. specialize (H a). destruct H as [l ts (_ & Hl & _)|]; [|done]. cbn. by rewrite (Len_wf (V := st) l ts Hl).
Qed.

Lemma count_total b st m f : reps b st m f -> total f < two64 -> count_txs iter m = total f.
Proof.
  intros H Ht. unfold count_txs. assert (Hsum : sumZ (txsList.Len <$> (iter _ (map_to_list m)).*2) = total f).
  { unfold total. rewrite iter_perm, <- (lens_total b st m f H), map_to_list_fmap. f_equal. rewrite <- !list_fmap_compose. done. }
  rewrite count_fold; [rewrite Hsum; lia| |lia|rewrite Hsum; lia]. apply list.Forall_forall. intros l Hl. rewrite iter_perm in Hl. apply list_elem_of_fmap in Hl as ([a l'] & -> & Hl%elem_of_map_to_list).
  destruct (reps_Some _ _ _ _ _ _ H Hl) as (ts & _ & _ & Hw & _). cbn. rewrite (Len_wf (V := st) _ ts Hw). apply zlen_nonneg.
Qed.

(** ** One transaction less *)

(** The next nonces only fall. *)
Definition lowers (p p' : TxsPool) : Prop := keeps p p' /\ forall a, next_nonce (pendingNonces p') a <= next_nonce (pendingNonces p) a.

#[local] Instance lowers_preorder : PreOrder lowers.
Proof.
  split; [intros p; split; done|]. intros p1 p2 p3 [K1 L1] [K2 L2]. split; [by etransitivity|]. intros a. specialize (L1 a). specialize (L2 a). lia.
Qed.

Lemma pending_Len_ends a p P Q X ts : pool_ok p P Q X -> P !! a = Some ts -> ends (pending_Len a) p (fun n p' => n = zlen ts /\ p' = p).
Proof.
  intros H E. unfold pending_Len. go. destruct (reps_Some_2 _ _ _ _ _ _ (pk_pending _ _ _ _ _ H) E) as (l & El & _ & Hl & _). eapply ends_must; [exact El|]. go.
  split; [|done]. by apply (Len_wf (V := txs_store p)).
Qed.

Lemma cap_last_ends a p P Q X ts t : pool_inv p P Q X -> P !! a = Some (ts ++ [t]) -> ts <> [] ->
  ends (cap_last iter Hash a) p (fun _ p' => lowers p p' /\ pool_inv p' (<[a := ts]> P) Q (X ∖ {[t]})).
Proof.
  intros [H Hf HlP HlQ Hc] E Hne. pose proof (reps_sorted _ _ _ _ a (pk_pending _ _ _ _ _ H)) as Hs. assert (Eat : txs_at P a = ts ++ [t]) by (unfold txs_at; by rewrite E). rewrite Eat in Hs.
  unfold cap_last. go. call (by apply (pending_Len_ends a p P Q X (ts ++ [t]))). intros n p' [-> ->]. go.
  rewrite <- (insert_id P a _ E) in H, Hf. call (apply (cut_pending_ends Hash a _ p P Q X (ts ++ [t]) (fun r gone ts' => r = [Some t] /\ gone = [t] /\ ts' = ts) H Hf)).
  { intros l Hl Es. assert (En : zlen (ts ++ [t]) - 1 = zlen ts) by (rewrite zlen_app; unfold zlen; cbn; lia). rewrite En. pose proof (zlen_nonneg ts).
    destruct (Cap_wf (V := txs_store p) (zlen ts) l _ Hl ltac:(done)) as (l' & E' & Hl' & Es'). unfold zlen in E', Hl'. rewrite Nat2Z.id, drop_app_length in E'. rewrite Nat2Z.id, take_app_length in Hl'.
    exists [Some t], l', [t], ts. split_and!; [exact E'|exact Hl'|done|by rewrite Permutation_app_comm|done|done|done]. }
  intros r p1 (K1 & gone & ts' & (-> & -> & ->) & _ & H1 & L1). cbn [for_each]. go. eapply ends_must; [done|]. go.
  call (eapply all_Remove_ends; [exact H1|]); [apply (ls_known _ _ _ _ _ _ L1); left; apply list.elem_of_cons; by left|]. intros _ p2 (al & -> & H2). unfold on_noncer. go. apply ends_zoom. go.
  set (p3 := set_pendingNonces _ _). assert (H3 : pool_ok p3 (<[a := ts]> P) Q (X ∖ {[t]})) by by destruct H2.
  call (by apply (priced_Removed_ends iter iter_perm Hash)). intros _ p4 (s4 & -> & H4 & K4). assert (K : keeps p (set_priced s4 p3)).
  { etransitivity; [apply K1|]. etransitivity; [|exact K4]. by split. }
  assert (En : pendingNonces (set_priced s4 p3) = txNoncer.setIfLower a (nonce p t) (pendingNonces p)) by (cbn; by rewrite (proj2 K1), (quiet_nonce p p1)).
  split; [split; [done|]; intros a'; rewrite En, next_nonce_lower; case_decide as Ea; [subst a'; lia|done]|]. split; [done| |by apply lean_insert|done|].
  - pose proof (loose_dropped Hash _ _ _ _ _ _ H1 L1) as Hd. cbn in Hd. by rewrite union_empty_r_L in Hd.
  - unfold chained. destruct mode as [exact|]; [|done]. destruct Hc as [Hfb Hc]. rewrite (kp_state _ _ K), En, fallback_lower. split; [done|]. intros a'.
    rewrite next_nonce_lower, (nonces_sim p (set_priced s4 p3)), txs_at_insert by done.
    case_decide as Ea; [subst a'|apply Hc]. eapply chain_at_below; [apply Hc|rewrite Eat; apply elem_of_nonces; exists t; split; [apply elem_of_app; right; apply list.elem_of_cons; by left|done]|].
    apply StronglySorted_app in Hs as (Hlt & _ & _). intros m. rewrite Eat, !elem_of_nonces. setoid_rewrite elem_of_app. split.
    + intros (x & Hx & <-). split; [exists x; split; [by left|done]|]. apply (Hlt x t Hx). apply list.elem_of_cons. by left.
    + intros [(x & [Hx|Hx] & <-) Hm]; [by exists x|]. apply list.elem_of_cons in Hx as [->|Hx%elem_of_nil]; [lia|done].
Qed.

(** ** Turns *)

Notation len P a := (zlen (txs_at P a)).

(** Every list is cut at its end. *)
Definition cut (P P' : gmap Z (list Ptr)) : Prop := forall a, option_Forall2 (fun ts ts' => ts' `prefix_of` ts) (P !! a) (P' !! a).

#[local] Instance cut_preorder : PreOrder cut.
Proof.
  split.
  - intros P a. destruct (P !! a); constructor. done.
  - intros P1 P2 P3 H1 H2 a. specialize (H1 a). specialize (H2 a). destruct H1 as [x y H1|]; inversion H2; subst; constructor. by etransitivity.
Qed.

Lemma cut_drop P a ts t : P !! a = Some (ts ++ [t]) -> cut P (<[a := ts]> P).
Proof.
  intros E a'. destruct (decide (a = a')) as [<-|Hne]; [rewrite E, lookup_insert_eq|rewrite lookup_insert_ne by done; destruct (P !! a'); by constructor].
  constructor. by exists [t].
Qed.

(** A list with transactions, taken apart at its end. *)
Lemma last_of P a : 2 <= len P a -> exists ts t, P !! a = Some (ts ++ [t]) /\ ts <> [] /\ len P a = zlen ts + 1.
Proof.
  unfold txs_at. destruct (P !! a) as [l|]; [|done]. cbn. destruct l as [|t ts _] using rev_ind; [done|]. rewrite zlen_app. intros H. exists ts, t. split_and!; [done| |done].
  intros ->. unfold zlen in H. cbn in H. lia.
Qed.

Lemma some_of P a : 1 <= len P a -> P !! a = Some (txs_at P a).
Proof. unfold txs_at. by destruct (P !! a). Qed.

Lemma cap_each_ends addrs : forall count p P Q X, pool_inv p P Q X -> NoDup addrs -> (forall a, a ∈ addrs -> 2 <= len P a) -> count = total P ->
  ends (cap_each iter Hash addrs count) p (fun count' p' => lowers p p' /\ exists P' X', pool_inv p' P' Q X' /\ X' ⊆ X /\ count' = total P' /\ total P' = total P - zlen addrs /\ cut P P' /\
    (forall a, a ∈ addrs -> len P' a = len P a - 1) /\ (forall a, a ∉ addrs -> P' !! a = P !! a)).
Proof.
  induction addrs as [|a addrs IH]; intros count p P Q X H Hnd Hlen ->; cbn [cap_each].
  { go. split; [done|]. exists P, X. split_and!; [done|done|done|unfold zlen; cbn; lia|done|by intros a ?%elem_of_nil|done]. }
  apply list.NoDup_cons in Hnd as [Ha Hnd]. destruct (last_of P a) as (ts & t & E & Hne & El); [apply Hlen, list.elem_of_cons; by left|].
  go. call (by apply (cap_last_ends a p P Q X ts t)). intros _ p1 [K1 H1]. pose proof (total_pending _ _ _ _ H1) as Hb. pose proof (total_insert P a _ ts E) as Et. rewrite zlen_app in Et. change (zlen [t]) with 1 in Et.
  assert (Eu : u64 (total P - 1) = total (<[a := ts]> P)) by (rewrite u64_small by lia; lia). rewrite Eu.
  assert (Hother : forall b, b <> a -> txs_at (<[a := ts]> P) b = txs_at P b) by (intros b Hb'; rewrite txs_at_insert, decide_False by done; done).
  call (apply (IH _ p1 _ Q (X ∖ {[t]}) H1 Hnd); [|done]).
  { intros b Hin. rewrite Hother by (intros ->; done). apply Hlen, list.elem_of_cons. by right. }
  intros count' p2 (K2 & P2 & X2 & H2 & S2 & -> & Et2 & Hcut & Hl2 & Ho2). split; [by etransitivity|]. exists P2, X2. split_and!; [done|set_solver|done|rewrite zlen_cons; lia| | |].
  - etransitivity; [by eapply cut_drop|done].
  - intros b Hin. destruct (decide (b = a)) as [->|Hb'].
    + unfold txs_at at 1. rewrite Ho2, lookup_insert_eq by done. cbn. lia.
    + apply list.elem_of_cons in Hin as [->|Hin]; [done|]. rewrite Hl2 by done. by rewrite Hother.
  - intros b Hin. rewrite list.elem_of_cons in Hin. rewrite Ho2, lookup_insert_ne by (try intros ->; tauto). done.
Qed.

(** The offenders but the last are brought down to it, evenly. *)
Lemma equalize_ends offs x threshold fuel : offs <> [] -> forall count p P Q X L, pool_inv p P Q X -> NoDup offs -> count = total P -> (Z.to_nat count < fuel)%nat -> 1 <= threshold <= L ->
  (forall a, a ∈ offs -> len P a = L) ->
  ends (equalize iter Hash config fuel threshold (offs ++ [x]) count) p (fun count' p' => lowers p p' /\ exists P' X', pool_inv p' P' Q X' /\ X' ⊆ X /\ count' = total P' /\ cut P P' /\
    (forall a, a ∈ offs -> threshold <= len P' a) /\ (GlobalSlots config < count' -> forall a, a ∈ offs -> len P' a = threshold) /\ (forall a, a ∉ offs -> P' !! a = P !! a)).
Proof.
  intros Hne. induction fuel as [|fuel IH]; intros count p P Q X L H Hnd -> Hf HL Hlen; [lia|]. cbn [equalize].
  destruct (Z.leb_spec (total P) (GlobalSlots config)) as [Hle|Hgt].
  { go. split; [done|]. exists P, X. split_and!; [done|done|done|done|intros a Ha; rewrite Hlen by done; lia|lia|done]. }
  assert (Hy : exists y, (offs ++ [x]) !! (length (offs ++ [x]) - 2)%nat = Some y /\ y ∈ offs).
  { rewrite length_app. cbn [length]. destruct offs as [|y offs _] using rev_ind; [done|]. rewrite length_app. cbn [length]. exists y. split; [|apply elem_of_app; right; apply list.elem_of_cons; by left].
    rewrite <- app_assoc. replace (length offs + 1 + 1 - 2)%nat with (length offs) by lia. cbn [app]. by rewrite list_lookup_middle. }
  destruct Hy as (y & Ey & Hy). go. eapply ends_must; [exact Ey|]. go. call (apply (pending_Len_ends y p P Q X (txs_at P y)); [apply H|apply some_of; rewrite Hlen by done; lia]).
  intros n p' [-> ->]. rewrite Hlen by done. destruct (Z.leb_spec L threshold) as [HLt|HLt].
  { go. split; [done|]. exists P, X. split_and!; [done|done|done|done|intros a Ha; rewrite Hlen by done; lia|intros _ a Ha; rewrite Hlen by done; lia|done]. }
  assert (Etake : take (length (offs ++ [x]) - 1) (offs ++ [x]) = offs) by (rewrite length_app; cbn [length]; rewrite Nat.add_sub; apply take_app_length). rewrite Etake. go.
  call (apply (cap_each_ends offs (total P) p P Q X H Hnd); [|done]); [intros a Ha; rewrite Hlen by done; lia|].
  intros count p1 (K1 & P1 & X1 & H1 & S1 & -> & Et & Hcut & Hl1 & Ho1). pose proof (total_pending _ _ _ _ H1) as Hb1. assert (Hoffs : 1 <= zlen offs) by (destruct offs; [done|]; rewrite zlen_cons; pose proof (zlen_nonneg offs); lia).
  call (apply (IH (total P1) p1 P1 Q X1 (L - 1) H1 Hnd); [done|lia|lia|]); [intros a Ha; rewrite Hl1, Hlen by done; done|].
  intros count' p2 (K2 & P2 & X2 & H2 & S2 & -> & Hcut2 & Hge & Heq & Ho2). split; [by etransitivity|]. exists P2, X2. split_and!; [done|set_solver|done|by etransitivity|done|done|].
  intros a Ha. rewrite Ho2, Ho1 by done. done.
Qed.

(** All offenders are brought down to the allowance. *)
Lemma reduce_ends offs fuel : offs <> [] -> forall count p P Q X L, pool_inv p P Q X -> NoDup offs -> count = total P -> (Z.to_nat count < fuel)%nat -> AccountSlots config <= L ->
  (forall a, a ∈ offs -> len P a = L) ->
  ends (reduce iter Hash config fuel offs count) p (fun count' p' => lowers p p' /\ exists P' X', pool_inv p' P' Q X' /\ X' ⊆ X /\ count' = total P' /\ cut P P' /\
    (forall a, a ∈ offs -> AccountSlots config <= len P' a) /\ (GlobalSlots config < count' -> forall a, a ∈ offs -> len P' a = AccountSlots config) /\ (forall a, a ∉ offs -> P' !! a = P !! a)).
Proof.
  intros Hne. pose proof (co_accountSlots _ cfg) as Hslots. induction fuel as [|fuel IH]; intros count p P Q X L H Hnd -> Hf HL Hlen; [lia|]. cbn [reduce].
  destruct (Z.leb_spec (total P) (GlobalSlots config)) as [Hle|Hgt].
  { go. split; [done|]. exists P, X. split_and!; [done|done|done|done|intros a Ha; rewrite Hlen by done; lia|lia|done]. }
  assert (Hy : exists y, list.last offs = Some y /\ y ∈ offs).
  { destruct offs as [|y offs _] using rev_ind; [done|]. exists y. split; [apply list.last_snoc|apply elem_of_app; right; apply list.elem_of_cons; by left]. }
  destruct Hy as (y & Ey & Hy). go. eapply ends_must; [exact Ey|]. go. call (apply (pending_Len_ends y p P Q X (txs_at P y)); [apply H|apply some_of; rewrite Hlen by done; lia]).
  intros n p' [-> ->]. rewrite Hlen by done. pose proof (total_pending _ _ _ _ H) as Hb. pose proof (zlen_le_total P y) as HLb. rewrite Hlen in HLb by done. rewrite u64_small by lia.
  destruct (Z.leb_spec L (AccountSlots config)) as [HLt|HLt].
  { go. split; [done|]. exists P, X. split_and!; [done|done|done|done|intros a Ha; rewrite Hlen by done; lia|intros _ a Ha; rewrite Hlen by done; lia|done]. }
  go. call (apply (cap_each_ends offs (total P) p P Q X H Hnd); [|done]); [intros a Ha; rewrite Hlen by done; lia|].
  intros count p1 (K1 & P1 & X1 & H1 & S1 & -> & Et & Hcut & Hl1 & Ho1). pose proof (total_pending _ _ _ _ H1) as Hb1. assert (Hoffs : 1 <= zlen offs) by (destruct offs; [done|]; rewrite zlen_cons; pose proof (zlen_nonneg offs); lia).
  call (apply (IH (total P1) p1 P1 Q X1 (L - 1) H1 Hnd); [done|lia|lia|]); [intros a Ha; rewrite Hl1, Hlen by done; done|].
  intros count' p2 (K2 & P2 & X2 & H2 & S2 & -> & Hcut2 & Hge & Heq & Ho2). split; [by etransitivity|]. exists P2, X2. split_and!; [done|set_solver|done|by etransitivity|done|done|].
  intros a Ha. rewrite Ho2, Ho1 by done. done.
Qed.

(** ** [truncatePending] *)

(** Remote accounts with more than the allowance. *)
Definition spams (p : TxsPool) (P : gmap Z (list Ptr)) (a : Z) : Prop := accountSet.contains a (locals p) = false /\ AccountSlots config < len P a.

(** Only they lose transactions, the last ones, and none goes below the allowance. *)
Record trimmed (spam : Z -> Prop) (P P' : gmap Z (list Ptr)) : Prop := {
  tm_cut : cut P P';
  tm_same a : ~ spam a -> P' !! a = P !! a;
  tm_floor a : spam a -> AccountSlots config <= len P' a
}.

Lemma len_same P P' a : P' !! a = P !! a -> len P' a = len P a.
Proof. unfold txs_at. by intros ->. Qed.

(** Further cuts to some of the offenders. *)
Lemma trimmed_more spam P0 P P' (offs : list Z) : trimmed spam P0 P -> cut P P' -> (forall a, a ∈ offs -> spam a /\ AccountSlots config <= len P' a) -> (forall a, a ∉ offs -> P' !! a = P !! a) ->
  trimmed spam P0 P'.
Proof.
  intros [T1 T2 T3] Hcut Hin Hout. split; [by etransitivity| |].
  - intros a Ha. rewrite Hout; [by apply T2|]. intros Hx. by apply Ha, Hin.
  - intros a Ha. destruct (decide (a ∈ offs)) as [Hx|Hx]; [by apply Hin|]. rewrite (len_same P P') by by apply Hout. by apply T3.
Qed.

(** The state of the loop: what is queued is as long as it was, and while the pool is over
    its limit the offenders are equally long, and no shorter than what is queued. *)
Record levelled (spam : Z -> Prop) (P : gmap Z (list Ptr)) (xs : list (Z * Z)) (offs : list Z) : Prop := {
  lv_nodup : NoDup (offs ++ xs.*1);
  lv_spam a : a ∈ offs -> spam a;
  lv_queued a q : (a, q) ∈ xs -> spam a /\ q = len P a /\ AccountSlots config < q;
  lv_even : GlobalSlots config < total P -> forall a b, a ∈ offs -> b ∈ offs -> len P a = len P b;
  lv_above : GlobalSlots config < total P -> forall a b q, a ∈ offs -> (b, q) ∈ xs -> q <= len P a
}.

(** The next offender, after the others came down to it. *)
Lemma levelled_next spam P P' xs x q xs' offs : levelled spam P xs offs -> xs ≡ₚ (x, q) :: xs' -> (forall y r, (y, r) ∈ xs -> r <= q) ->
  (forall a, a ∉ offs -> P' !! a = P !! a) -> (GlobalSlots config < total P' -> forall a, a ∈ offs -> len P' a = q) -> levelled spam P' xs' (offs ++ [x]).
Proof.
  intros [L1 L2 L3 L4 L5] Hp Hmax Hout Heq. assert (Hx : (x, q) ∈ xs) by (rewrite Hp; apply list.elem_of_cons; by left).
  assert (Hxs : forall y r, (y, r) ∈ xs' -> (y, r) ∈ xs) by (intros y r Hy; rewrite Hp; apply list.elem_of_cons; by right).
  assert (Hno : forall y r, (y, r) ∈ xs -> y ∉ offs).
  { intros y r Hy Hin. apply list.NoDup_app in L1 as (_ & L1 & _). apply (L1 y Hin). apply list_elem_of_fmap. by exists (y, r). }
  assert (Hlen : forall y r, (y, r) ∈ xs -> r = len P' y) by (intros y r Hy; destruct (L3 y r Hy) as (_ & -> & _); symmetry; apply len_same, Hout; by eapply Hno).
  split.
  - rewrite Hp in L1. cbn in L1. by rewrite <- app_assoc.
  - intros a [Ha|Ha]%elem_of_app; [by apply L2|]. apply list.elem_of_cons in Ha as [->|Ha%elem_of_nil]; [by eapply L3|done].
  - intros a r Ha. destruct (L3 a r (Hxs _ _ Ha)) as (G1 & _ & G3). split_and!; [done|by apply Hlen, Hxs|done].
  - intros Hg a b Ha Hb. assert (Hq : forall a, a ∈ offs ++ [x] -> len P' a = q).
    { intros c [Hc|Hc]%elem_of_app; [by apply Heq|]. apply list.elem_of_cons in Hc as [->|Hc%elem_of_nil]; [symmetry; by apply Hlen|done]. }
    by rewrite !Hq.
  - intros Hg a b r Ha Hb. apply elem_of_app in Ha as [Ha|Ha]; [rewrite Heq by done; by eapply Hmax, Hxs|].
    apply list.elem_of_cons in Ha as [->|Ha%elem_of_nil]; [|done]. rewrite <- (Hlen x q Hx). by eapply Hmax, Hxs.
Qed.

Lemma penalize_ends spam P0 fuel : forall count spammers offs xs p P Q X, queue_holds spammers xs -> (length xs < fuel)%nat -> pool_inv p P Q X -> trimmed spam P0 P -> levelled spam P xs offs -> count = total P ->
  ends (penalize iter Hash config fuel spammers offs count) p (fun '(offs', count') p' => lowers p p' /\ exists P' X' xs', pool_inv p' P' Q X' /\ X' ⊆ X /\ trimmed spam P0 P' /\
    levelled spam P' xs' offs' /\ count' = total P' /\ offs ++ xs.*1 ≡ₚ offs' ++ xs'.*1 /\ (GlobalSlots config < count' -> xs' = [])).
Proof.
  induction fuel as [|fuel IH]; intros count spammers offs xs p P Q X Hq Hf H HT HL ->; [lia|]. cbn [penalize]. rewrite (Empty_holds _ _ Hq).
  destruct (Z.leb_spec (total P) (GlobalSlots config)) as [Hle|Hgt]; cbn [orb]; [go; split; [done|]; exists P, X, xs; split_and!; [done|done|done|done|done|done|lia]|].
  case_bool_decide as Hxs; [go; split; [done|]; exists P, X, xs; by split_and!|].
  destruct (Dequeue_holds _ _ Hq Hxs) as (x & q & xs' & spammers' & Ed & Hq' & Hp & Hmax). go. eapply ends_outcome; [exact Ed|]. cbv beta match. go.
  assert (Hx : (x, q) ∈ xs) by (rewrite Hp; apply list.elem_of_cons; by left). destruct (lv_queued _ _ _ _ HL x q Hx) as (Hsx & Eq & Hslots). pose proof (co_accountSlots _ cfg) as Hslots1.
  apply (ends_mono _ _ (fun count' p' => lowers p p' /\ exists P' X', pool_inv p' P' Q X' /\ X' ⊆ X /\ trimmed spam P0 P' /\ levelled spam P' xs' (offs ++ [x]) /\ count' = total P')).
  { destruct (decide (offs = [])) as [->|Hne].
    - cbn [app length]. change (1 <? 1)%nat with false. go. split; [done|]. exists P, X. split_and!; [done|done|done| |done].
      apply (levelled_next spam P P xs x q xs' []); [done|done|done|done|by intros _ a ?%elem_of_nil].
    - destruct (Nat.ltb_spec 1 (length (offs ++ [x]))) as [_|Hbad]; [|rewrite length_app in Hbad; destruct offs; [done|cbn in Hbad; lia]]. go.
      call (apply (pending_Len_ends x p P Q X (txs_at P x)); [apply H|apply some_of; lia]). intros n p' [-> ->]. rewrite <- Eq.
      destruct offs as [|o offs0] eqn:Eo; [done|]. rewrite <- Eo in *. assert (Ho : o ∈ offs) by (rewrite Eo; apply list.elem_of_cons; by left).
      call (apply (equalize_ends offs x q (S (Z.to_nat (total P))) Hne (total P) p P Q X (len P o) H)).
      + pose proof (lv_nodup _ _ _ _ HL) as Hnd. by apply list.NoDup_app in Hnd as (? & _ & _).
      + done.
      + lia.
      + split; [lia|]. by apply (lv_above _ _ _ _ HL Hgt o x q).
      + intros a Ha. by apply (lv_even _ _ _ _ HL Hgt).
      + intros count' p1 (K1 & P1 & X1 & H1 & S1 & -> & Hcut & Hge & Heq & Ho1). split; [done|]. exists P1, X1. split_and!; [done|done| | |done].
        * eapply trimmed_more; [exact HT|exact Hcut| |exact Ho1]. intros a Ha. split; [by apply (lv_spam _ _ _ _ HL)|]. specialize (Hge a Ha). lia.
        * by eapply levelled_next. }
  intros count' p1 (K1 & P1 & X1 & H1 & S1 & T1 & L1 & ->). call (apply (IH (total P1) spammers' (offs ++ [x]) xs' p1 P1 Q X1 Hq'); [|done|done|done|done]).
  { rewrite Hp in Hf. cbn in Hf. lia. }
  intros [offs' count'] p2 (K2 & P2 & X2 & xs2 & H2 & S2 & T2 & L2 & -> & Hperm & Hend). split; [by etransitivity|]. exists P2, X2, xs2. split_and!; [done|set_solver|done|done|done| |done].
  rewrite <- Hperm, Hp. cbn. by rewrite <- app_assoc.
Qed.

(** The queue of the accounts that are over the allowance. *)
Lemma spam_order_holds p entries : forall s xs, queue_holds s xs -> Forall (fun e : Z * PoolList => 0 <= txsList.Len e.2 < two63) entries ->
  exists s', spam_order config p entries s = Done ((), s') /\
    queue_holds s' (((fun e => (e.1, txsList.Len e.2)) <$> base.filter (fun e => accountSet.contains e.1 (locals p) = false /\ AccountSlots config < txsList.Len e.2) entries) ++ xs).
Proof.
  induction entries as [|[a l] entries IH]; intros s xs Hq He; [by exists s|]. inversion He as [|? ? Hl He']; subst. cbn in Hl. cbn [spam_order]. rewrite list.filter_cons. cbn [fst snd].
  rewrite u64_small by lia. assert (El : i64 (txsList.Len l) = txsList.Len l) by (unfold i64; rewrite Z.mod_small; lia). rewrite El.
  destruct (accountSet.contains a (locals p)); cbn [negb andb].
  - rewrite decide_False by (by intros [? _]). by apply IH.
  - destruct (Z.ltb_spec (AccountSlots config) (txsList.Len l)) as [Hlt|Hge].
    + rewrite decide_True by done. destruct (Enqueue_holds a (txsList.Len l) s xs Hq) as (s1 & E1 & H1). destruct (IH s1 _ H1 He') as (s2 & E2 & H2). exists s2. split.
      * unfold mbind, M_bind. by rewrite E1.
      * eapply queue_holds_perm; [|exact H2]. cbn. by rewrite Permutation_middle.
    + rewrite decide_False by lia. by apply IH.
Qed.

Lemma spam_queue p P Q X : pool_inv p P Q X -> exists spammers xs, spam_order config p (iter _ (map_to_list (pending p))) (prque.New None ()) = Done ((), spammers) /\
  queue_holds spammers xs /\ levelled (spams p P) P xs [] /\ forall a, spams p P a -> a ∈ xs.*1.
Proof.
  intros H. pose proof (pk_pending _ _ _ _ _ (pv_ok _ _ _ _ _ _ H)) as Hr. pose proof (total_pending _ _ _ _ H) as Hb.
  assert (Hent : forall a l, (a, l) ∈ iter _ (map_to_list (pending p)) <-> pending p !! a = Some l) by (intros a l; by rewrite iter_perm, elem_of_map_to_list).
  assert (Hlen : forall a l, pending p !! a = Some l -> txsList.Len l = len P a).
  { intros a l El. destruct (reps_Some _ _ _ _ _ _ Hr El) as (ts & Ets & _ & Hw & _). unfold txs_at. rewrite Ets. by apply (Len_wf (V := txs_store p)). }
  destruct (spam_order_holds p (iter _ (map_to_list (pending p))) (prque.New None ()) [] (New_holds None ())) as (s & E & Hq).
  { apply list.Forall_forall. intros [a l] El%Hent. cbn. rewrite (Hlen a l El). pose proof (zlen_nonneg (txs_at P a)). pose proof (zlen_le_total P a). lia. }
  eexists s, _. split_and!; [exact E|exact Hq| |].
  - rewrite app_nil_r. split; [| |  | |].
    + cbn. rewrite <- list_fmap_compose. eapply (sublist_NoDup _ (iter _ (map_to_list (pending p))).*1); [apply (NoDup_keys iter iter_perm)|]. apply fmap_sublist, sublist_filter.
    + by intros a ?%elem_of_nil.
    + intros a q Ha. apply list_elem_of_fmap in Ha as ([a' l] & [= -> ->] & [[Hc Hl] Ha]%list_elem_of_filter). cbn in *. apply Hent in Ha. rewrite (Hlen _ _ Ha) in *. by split_and!.
    + by intros _ a b ?%elem_of_nil.
    + by intros _ a b q ?%elem_of_nil.
  - intros a [Hc Hl]. rewrite app_nil_r. assert (Hs : P !! a = Some (txs_at P a)) by (apply some_of; pose proof (co_accountSlots _ cfg); lia).
    destruct (reps_Some_2 _ _ _ _ _ _ Hr Hs) as (l & El & _). apply list_elem_of_fmap. exists (a, txsList.Len l). split; [done|]. apply list_elem_of_fmap. exists (a, l). split; [done|].
    apply list_elem_of_filter. cbn. rewrite (Hlen a l El). split; [done|]. by apply Hent.
Qed.

Lemma truncatePending_ends p P Q X : pool_inv p P Q X -> ends (truncatePending iter Hash config) p (fun _ p' => lowers p p' /\ exists P' X', pool_inv p' P' Q X' /\ X' ⊆ X /\
  trimmed (spams p P) P P' /\ (GlobalSlots config < total P' -> forall a, accountSet.contains a (locals p) = false -> len P' a <= AccountSlots config)).
Proof.
  intros H. pose proof (total_pending _ _ _ _ H) as Hb. pose proof (co_accountSlots _ cfg) as Hslots. unfold truncatePending. go.
  rewrite (count_total true (txs_store p) _ P) by (done || lia || apply H). assert (T0 : trimmed (spams p P) P P) by (split; [done|done|intros a [_ ?]; lia]).
  destruct (Z.leb_spec (total P) (GlobalSlots config)) as [Hle|Hgt]; [go; split; [done|]; exists P, X; split_and!; [done|done|done|lia]|].
  destruct (spam_queue p P Q X H) as (spammers & xs & E & Hq & HL & Hall). go. eapply ends_outcome; [exact E|]. cbv beta match. go.
  call (apply (penalize_ends (spams p P) P _ (total P) spammers [] xs p P Q X Hq); [|done|done|done|done]); [rewrite (Size_holds _ _ Hq); lia|].
  intros [offs count] p1 (K1 & P1 & X1 & xs1 & H1 & S1 & T1 & L1 & -> & Hperm & Hend). cbn [app] in Hperm.
  assert (Hrest : forall P', trimmed (spams p P) P P' -> (forall a, a ∈ offs -> len P' a <= AccountSlots config) -> xs1 = [] -> forall a, accountSet.contains a (locals p) = false -> len P' a <= AccountSlots config).
  { intros P' T' Ho -> a Hc. destruct (decide (AccountSlots config < len P a)) as [Hs|Hs].
    - apply Ho. cbn in Hperm. rewrite app_nil_r in Hperm. rewrite <- Hperm. by apply Hall.
    - rewrite (len_same P P'); [lia|]. apply (tm_same _ _ _ T'). by intros [_ ?]. }
  destruct (Z.ltb_spec (GlobalSlots config) (total P1)) as [Hgt1|Hle1]; cbn [andb].
  2: { go. split; [done|]. exists P1, X1. split_and!; [done|done|done|lia]. }
  destruct offs as [|o offs0] eqn:Eo; cbn [length Nat.eqb negb].
  { go. split; [done|]. exists P1, X1. split_and!; [done|done|done|]. intros _. apply Hrest; [done|by intros a ?%elem_of_nil|by apply Hend]. }
  rewrite <- Eo in *. assert (Ho : o ∈ offs) by (rewrite Eo; apply list.elem_of_cons; by left). go.
  call (apply (reduce_ends offs (S (Z.to_nat (total P1))) ltac:(by rewrite Eo) (total P1) p1 P1 Q X1 (len P1 o) H1)).
  - pose proof (lv_nodup _ _ _ _ L1) as Hnd. by apply list.NoDup_app in Hnd as (? & _ & _).
  - done.
  - lia.
  - apply (tm_floor _ _ _ T1). by apply (lv_spam _ _ _ _ L1).
  - intros a Ha. by apply (lv_even _ _ _ _ L1).
  - intros count p2 (K2 & P2 & X2 & H2 & S2 & -> & Hcut & Hge & Heq & Ho2). go. assert (T2 : trimmed (spams p P) P P2).
    { eapply trimmed_more; [exact T1|exact Hcut| |exact Ho2]. intros a Ha. split; [by apply (lv_spam _ _ _ _ L1)|by apply Hge]. }
    split; [by etransitivity|]. exists P2, X2. split_and!; [done|set_solver|done|]. intros Hgt2. apply Hrest; [done| |by apply Hend]. intros a Ha. by rewrite Heq.
Qed.

(** ** [truncateQueue] *)

Lemma filter_same (A B : Ptr -> Prop) `{forall x, Decision (A x)} `{forall x, Decision (B x)} (l : list Ptr) : (forall x, x ∈ l -> A x <-> B x) -> base.filter A l = base.filter B l.
Proof.
  induction l as [|x l IH]; intros Hl; [done|]. rewrite !list.filter_cons, IH by (intros y Hy; apply Hl, list.elem_of_cons; by right).
  by rewrite (decide_ext (A x) (B x)) by (apply Hl, list.elem_of_cons; by left).
Qed.

(** A queued transaction that is removed by its hash. *)
Lemma remove_one_ends a t p P Q X : pool_inv p P Q X -> t ∈ txs_at Q a ->
  ends (removeTx iter Hash Now config (Hash t) true) p (fun _ p' => quiet p p' /\ pool_inv p' P (put Q a (base.filter (fun x => x <> t) (txs_at Q a))) (X ∖ {[t]})).
Proof.
  intros H Ht. pose proof (pv_ok _ _ _ _ _ _ H) as Hok. assert (HX : t ∈ X) by (apply (pv_full _ _ _ _ _ _ H); exists a; by right).
  destruct (reps_at_good _ _ _ _ _ _ (pk_queue _ _ _ _ _ Hok) Ht) as [_ Ea]. pose proof (reps_sorted _ _ _ _ a (pk_queue _ _ _ _ _ Hok)) as Hs.
  call (by apply (removeTx_ends iter iter_perm Hash Now config mode (Hash t) true p P Q X)). assert (Eg : txLookup.Get (Hash t) (all p) = Some t) by by apply (ao_get _ _ _ _ (pk_all _ _ _ _ _ Hok)).
  rewrite Eg. intros _ p' (K & a' & P' & Q' & Ea' & Hout & H'). assert (a' = a) as -> by congruence. inversion Hout as [Q2 HtP Hq Hp E1 E2 E3|HtQ E1 E2 E3]; subst.
  - exfalso. by apply (pk_disjoint _ _ _ _ _ Hok a t t).
  - assert (Ef : base.filter (fun x => nonce p x <> nonce p t) (txs_at Q a) = base.filter (fun x => x <> t) (txs_at Q a)).
    { apply filter_same. intros x Hx. split; [congruence|]. intros Hne En. apply Hne. by apply (ascending_inj (V := txs_store p) (txs_at Q a)). }
    split; [by split|]. by rewrite <- Ef.
Qed.

Lemma filter_perm (t : Ptr) (ts ds rest : list Ptr) : NoDup ts -> ts ≡ₚ t :: ds ++ rest -> base.filter (fun x => x <> t) ts ≡ₚ ds ++ rest.
Proof.
  intros Hnd Hp. rewrite Hp in Hnd |- *. apply list.NoDup_cons in Hnd as [Ht _]. rewrite list.filter_cons_False by tauto. apply reflexive_eq, list_filter_all, list.Forall_forall. intros x Hx ->. done.
Qed.

Lemma queue_NoDup p P Q X a : pool_inv p P Q X -> NoDup (txs_at Q a).
Proof. intros H. eapply NoDup_fmap_1, NoDup_nonces, reps_sorted, (pk_queue _ _ _ _ _ (pv_ok _ _ _ _ _ _ H)). Qed.

Lemma total_put Q a ts : total (put Q a ts) = total Q - len Q a + zlen ts.
Proof.
  unfold txs_at. destruct (Q !! a) as [us|] eqn:E; cbn; destruct ts as [|t ts]; cbn [put].
  - rewrite (total_delete Q a us E). unfold zlen. cbn. lia.
  - by rewrite (total_insert Q a us _ E).
  - rewrite delete_id by done. unfold zlen. cbn. lia.
  - rewrite total_insert_new by done. unfold zlen. cbn [length]. lia.
Qed.

Lemma put_ne Q a ts b : b <> a -> put Q a ts !! b = Q !! b.
Proof. intros Hne. destruct ts; cbn [put]; [by rewrite lookup_delete_ne|by rewrite lookup_insert_ne]. Qed.

(** Queues that only lose transactions. *)
Definition fewer (Q Q' : gmap Z (list Ptr)) : Prop := forall a, txs_at Q' a ⊆+ txs_at Q a.

#[global] Instance fewer_preorder : PreOrder fewer.
Proof. split; [by intros Q a|]. intros Q1 Q2 Q3 H1 H2 a. etransitivity; [apply H2|apply H1]. Qed.

Lemma fewer_put Q a ts : ts `sublist_of` txs_at Q a -> fewer Q (put Q a ts).
Proof. intros H b. rewrite txs_at_put. case_decide as E; [subst; by apply sublist_submseteq|done]. Qed.

Lemma fewer_delete Q a : fewer Q (delete a Q).
Proof. intros b. rewrite txs_at_delete. case_decide; [apply submseteq_nil_l|done]. Qed.

(** Transactions of a queue, removed from the end on until enough are gone. *)
Lemma drop_last_ends a ds : forall k rest p P Q X, pool_inv p P Q X -> txs_at Q a ≡ₚ ds ++ rest -> 0 <= k ->
  ends (drop_last iter Hash Now config ds k) p (fun r p' => quiet p p' /\ r = k - Z.min k (zlen ds) /\
    exists Q' X', pool_inv p' P Q' X' /\ X' ⊆ X /\ total Q' = total Q - Z.min k (zlen ds) /\ fewer Q Q' /\ (forall b, b <> a -> Q' !! b = Q !! b)).
Proof.
  induction ds as [|t ds IH]; intros k rest p P Q X H Hp Hk; cbn [drop_last].
  { go. change (zlen (A := Ptr) []) with 0. split_and!; [done|lia|]. exists Q, X. by split_and!; [done|done|lia|done|done]. }
  pose proof (zlen_nonneg ds) as Hds. rewrite zlen_cons. destruct (Z.leb_spec k 0) as [Hz|Hpos]; [go; split_and!; [done|lia|]; exists Q, X; by split_and!; [done|done|lia|done|done]|]. go.
  pose proof (queue_NoDup _ _ _ _ a H) as Hnd. pose proof (filter_perm t _ ds rest Hnd Hp) as Hrest.
  call (apply (remove_one_ends a t p P Q X H)); [rewrite Hp; apply list.elem_of_cons; by left|]. intros _ p1 [K1 H1].
  call (apply (IH (k - 1) rest p1 P _ _ H1); [by rewrite txs_at_put, decide_True|lia]).
  intros r p2 (K2 & -> & Q2 & X2 & H2 & S2 & Et & Hfew & Ho). split_and!; [by etransitivity|lia|]. exists Q2, X2. split_and!; [done|set_solver| | |].
  - rewrite Et, total_put. assert (zlen (base.filter (fun x => x <> t) (txs_at Q a)) = len Q a - 1); [|lia]. unfold zlen. rewrite Hrest, Hp. cbn [app length]. lia.
  - etransitivity; [|exact Hfew]. apply fewer_put, sublist_filter.
  - intros b Hb. rewrite Ho by done. by apply put_ne.
Qed.

(** A queue that goes as a whole. *)
Lemma drop_list_ends a ds : forall p P Q X, pool_inv p P Q X -> txs_at Q a ≡ₚ ds ->
  ends (for_each (fun t => removeTx iter Hash Now config (Hash t) true) ds) p (fun _ p' => quiet p p' /\
    exists X', pool_inv p' P (delete a Q) X' /\ X' ⊆ X).
Proof.
  induction ds as [|t ds IH]; intros p P Q X H Hp; cbn [for_each].
  { go. split; [done|]. exists X. split; [|done]. rewrite delete_id; [done|]. apply Permutation_nil_r in Hp. unfold txs_at in Hp. destruct (Q !! a) as [ts|] eqn:E; [|done]. by apply (pv_queue _ _ _ _ _ _ H) in E. }
  pose proof (queue_NoDup _ _ _ _ a H) as Hnd. assert (Hp' : txs_at Q a ≡ₚ t :: ds ++ []) by by rewrite app_nil_r. pose proof (filter_perm t _ ds [] Hnd Hp') as Hrest. rewrite app_nil_r in Hrest.
  go. call (apply (remove_one_ends a t p P Q X H)); [rewrite Hp; apply list.elem_of_cons; by left|]. intros _ p1 [K1 H1].
  call (apply (IH p1 P _ _ H1); by rewrite txs_at_put, decide_True). intros _ p2 (K2 & X2 & H2 & S2). split; [by etransitivity|]. exists X2. split; [|set_solver].
  revert H2. destruct (base.filter (fun x => x <> t) (txs_at Q a)); cbn [put]; [by rewrite delete_delete_eq|by rewrite delete_insert_eq].
Qed.

Lemma flatten_queue_ends a p P Q X ts : pool_inv p P Q X -> Q !! a = Some ts -> ends (on_queue a (fun V => txsList.Flatten iter)) p (fun r p' => r = ts /\ quiet p p' /\ pool_inv p' P Q X).
Proof.
  intros H E. call (apply (on_queue_ends Hash a _ p P Q X ts (fun r ts' => r = ts /\ ts' = ts) (pv_ok _ _ _ _ _ _ H) E)).
  - intros l Hl. pose proof Hl as (Es & Hw & _). destruct (Flatten_wf (V := txs_store p) iter iter_perm l ts Hw) as (l' & E' & Hw' & Es'). exists ts, l', ts. split_and!; [exact E'| |done|done]. by eapply held_sub.
  - intros r p' (m & ts' & (-> & ->) & -> & Hm). rewrite insert_id in Hm by done. split_and!; [done|by split|]. eapply inv_quiet; [exact H| |by split]. eapply set_queue_ok; [apply H|done|apply H].
Qed.

(** Queues are dropped in turn, the last one in part, until [k] transactions are gone or
    none of the accounts has a queue. *)
Lemma drop_queues_ends addrs : forall k p P Q X, pool_inv p P Q X -> NoDup addrs -> (forall a, a ∈ addrs -> is_Some (Q !! a)) -> 0 <= k ->
  ends (drop_queues iter Hash Now config addrs k) p (fun _ p' => quiet p p' /\ exists Q' X', pool_inv p' P Q' X' /\ X' ⊆ X /\ fewer Q Q' /\ (forall b, b ∉ addrs -> Q' !! b = Q !! b) /\
    total Q - k <= total Q' <= total Q /\ (total Q - k < total Q' -> forall b, b ∈ addrs -> Q' !! b = None)).
Proof.
  induction addrs as [|a addrs IH]; intros k p P Q X H Hnd Hin Hk; cbn [drop_queues].
  { go. split; [done|]. exists Q, X. split_and!; [done|done|done|done|lia|lia|by intros _ b ?%elem_of_nil]. }
  apply list.NoDup_cons in Hnd as [Ha Hnd]. destruct (Z.leb_spec k 0) as [Hz|Hpos]; [go; split; [done|]; exists Q, X; split_and!; [done|done|done|done|lia|lia|lia]|].
  destruct (Hin a) as [ts Ets]; [apply list.elem_of_cons; by left|]. assert (Eat : txs_at Q a = ts) by (unfold txs_at; by rewrite Ets).
  assert (Hin' : forall b, b ∈ addrs -> b <> a /\ is_Some (Q !! b)) by (intros b Hb; split; [by intros ->|apply Hin, list.elem_of_cons; by right]).
  go. destruct (reps_Some_2 _ _ _ _ a ts (pk_queue _ _ _ _ _ (pv_ok _ _ _ _ _ _ H)) Ets) as (l & El & _ & Hw & _). eapply ends_must; [exact El|]. go.
  rewrite (Len_wf (V := txs_store p) l ts Hw). pose proof (total_queue _ _ _ _ H) as Hb. pose proof (zlen_le_total Q a) as Hle. rewrite Eat in Hle. pose proof (zlen_nonneg ts) as H0ts. rewrite u64_small by lia.
  call (by apply (flatten_queue_ends a p P Q X ts)). intros r p1 (-> & K1 & H1). destruct (Z.leb_spec (zlen ts) k) as [Hall|Hpart].
  - go. call (apply (drop_list_ends a ts p1 P Q X H1); by rewrite Eat). intros _ p2 (K2 & X2 & H2 & S2).
    call (apply (IH (k - zlen ts) p2 P (delete a Q) X2 H2 Hnd); [|lia]). { intros b Hb'. rewrite lookup_delete_ne by (intros ->; done). by apply Hin'. }
    intros _ p3 (K3 & Q3 & X3 & H3 & S3 & Hfew & Ho & Hge & Hend). rewrite (total_delete Q a ts Ets) in Hge, Hend. split; [etransitivity; [exact K1|]; by etransitivity|]. exists Q3, X3. split_and!; [done|set_solver|etransitivity; [|exact Hfew]; apply fewer_delete| |lia|lia|].
    + intros b Hb'. rewrite list.elem_of_cons in Hb'. rewrite Ho by tauto. apply lookup_delete_ne. intros ->. tauto.
    + intros Hlt b Hb'. apply list.elem_of_cons in Hb' as [->|Hb']; [|apply Hend; [lia|done]]. rewrite Ho by done. apply lookup_delete_eq.
  - go. call (apply (drop_last_ends a (reverse ts) k [] p1 P Q X H1); [by rewrite Eat, app_nil_r, reverse_Permutation|done]). intros r p2 (K2 & -> & Q2 & X2 & H2 & S2 & Et & Hfew2 & Ho2).
    assert (Er : zlen (reverse ts) = zlen ts) by (unfold zlen; by rewrite length_reverse). rewrite Er in *. assert (Em : Z.min k (zlen ts) = k) by lia. rewrite Em in *.
    call (apply (IH (k - k) p2 P Q2 X2 H2 Hnd); [|lia]). { intros b Hb'. rewrite Ho2 by by apply Hin'. by apply Hin'. }
    intros _ p3 (K3 & Q3 & X3 & H3 & S3 & Hfew & Ho & Hge & Hend). split; [etransitivity; [exact K1|]; by etransitivity|]. exists Q3, X3. split_and!; [done|set_solver|by etransitivity| |lia|lia|].
    + intros b Hb'. rewrite list.elem_of_cons in Hb'. rewrite Ho, Ho2 by tauto. done.
    + intros Hlt b Hb'. lia.
Qed.

Lemma truncateQueue_ends p P Q X : pool_inv p P Q X -> ends (truncateQueue iter Hash Now config) p (fun _ p' => quiet p p' /\ exists Q' X', pool_inv p' P Q' X' /\ X' ⊆ X /\ fewer Q Q' /\
  (forall a, accountSet.contains a (locals p) = true -> Q' !! a = Q !! a) /\ Z.min (total Q) (GlobalQueue config) <= total Q' /\
  (GlobalQueue config < total Q' -> forall a, accountSet.contains a (locals p) = false -> Q' !! a = None)).
Proof.
  intros H. pose proof (total_queue _ _ _ _ H) as Hb. unfold truncateQueue. go. pose proof (pk_queue _ _ _ _ _ (pv_ok _ _ _ _ _ _ H)) as Hr. rewrite (count_total false (txs_store p) _ Q) by (done || lia).
  destruct (Z.leb_spec (total Q) (GlobalQueue config)) as [Hle|Hgt]; [go; split; [done|]; exists Q, X; split_and!; [done|done|done|done|lia|lia]|].
  set (remote := base.filter (fun addr => accountSet.contains addr (locals p) = false) (iter _ (map_to_list (queue p))).*1).
  set (sorted := merge_sort by_heartbeat ((fun addr => (addr, default 0 (beats p !! addr))) <$> remote)).
  assert (Hp : reverse sorted.*1 ≡ₚ remote).
  { rewrite reverse_Permutation. unfold sorted. rewrite merge_sort_Permutation, <- list_fmap_compose. apply reflexive_eq, list_fmap_id. }
  assert (Hin : forall a, a ∈ reverse sorted.*1 <-> accountSet.contains a (locals p) = false /\ is_Some (Q !! a)).
  { intros a. rewrite Hp. unfold remote. rewrite list_elem_of_filter, (elem_of_keys iter iter_perm). by rewrite (reps_is_Some _ _ _ _ a Hr). }
  call (apply (drop_queues_ends (reverse sorted.*1) (total Q - GlobalQueue config) p P Q X H); [|intros a Ha; by apply Hin|lia]).
  { rewrite Hp. unfold remote. apply list.NoDup_filter, (NoDup_keys iter iter_perm). }
  intros _ p' (K & Q' & X' & H' & S' & Hfew & Ho & Hge & Hend). split; [done|]. exists Q', X'. split_and!; [done|done|done| |lia|].
  - intros a Ha. apply Ho. rewrite Hin. intros [Hx _]. congruence.
  - intros Hlt a Ha. destruct (Q !! a) as [ts|] eqn:E; [apply Hend; [lia|apply Hin; split; [done|by exists ts]]|]. rewrite Ho; [done|]. rewrite Hin, E. by intros [_ [? ?]].
Qed.
End Limits.
