(* ===== verification/TxPoolRuns.v ===== *)
(** * Runs of the transaction pool

    The operations of the pool in any order, and what holds in every state they reach. *)

From stdpp Require Import sorting.
From S2P Require Import Prelude Uint256 Wire Transaction Config Header Heap TxList TxListTheorems TxLookup TxPriced Ends TxPricedTheorems TxPool TxPoolBase TxPoolOps TxPoolAdd TxPoolPromote TxPoolDemote TxPoolLimits.
Import TxsPoolConfig.

Section Runs.
Context {U : Uint256} {UL : Uint256Laws U}.
Context (iter : forall A : Type, list A -> list A) (iter_perm : forall A (l : list A), iter A l ≡ₚ l) (Hash : Ptr -> Z) (Now : nat -> Z).
Context (config : Config) (cfg : config_ok config) (chainconfig : ChainConfig) (bc : PoolChain).
Notation nonce p t := (tx_Nonce (txs_store p t)).
Notation pool_ok := (pool_ok Hash).
Notation pool_inv := (pool_inv Hash).
Notation len P a := (zlen (txs_at P a)).

(** ** [runReorg] *)

Section Mode.
Context (mode : option bool) (Hmode : after mode = mode).

(** The limits on the lists of remote accounts. *)
Record limited (p : TxsPool) (P Q : gmap Z (list Ptr)) : Prop := {
  lm_pending : GlobalSlots config < total P -> forall a, accountSet.contains a (locals p) = false -> len P a <= AccountSlots config;
  lm_queue : GlobalQueue config < total Q -> forall a, accountSet.contains a (locals p) = false -> Q !! a = None
}.

Lemma fronted_cut p P P' : fronted p P -> cut P P' -> fronted p P'.
Proof.
  intros H Hc a t ts E. specialize (Hc a). unfold txs_at in E. destruct (P' !! a) as [ts'|] eqn:E'; [|done]. cbn in E. subst ts'. inversion Hc as [l ? Hp El|]; subst.
  destruct Hp as [k ->]. eapply H. unfold txs_at. by rewrite <- El.
Qed.

Lemma sifted_less p p' Q Q' a : sifted config p Q a -> keeps p p' -> next_nonce (pendingNonces p') a <= next_nonce (pendingNonces p) a ->
  fewer Q Q' -> sifted config p' Q' a.
Proof.
  intros [H1 H2] K Hn Hf. specialize (Hf a). split; [|rewrite (kp_locals _ _ K); intros Hc; specialize (H2 Hc); apply submseteq_length in Hf; unfold zlen in *; lia].
  intros x Hx. specialize (H1 x (elem_of_submseteq _ _ _ Hx Hf)).
  rewrite (keeps_nonce p p') by done. lia.
Qed.

(** What the background run leaves behind. *)
Lemma runReorg_ends B request dirty events p P Q X : chain_ok chainconfig bc (txs_store p) B -> request_ok B request -> pool_inv mode p P Q X ->
  (mode <> None -> advances bc (currentState p) request) -> events_ok (txs_store p) events ->
  ends (runReorg iter Hash Now config chainconfig bc request dirty events) p (fun _ p' => sim (txs_store p) (txs_store p') /\
    exists P' Q' X', pool_inv mode p' P' Q' X' /\ limited p' P' Q' /\ (request <> None -> fronted p' P') /\ (request = None -> forall a, asks dirty a -> sifted config p' Q' a)).
Proof.
  intros HB Hreq H Hadv He. unfold runReorg. go. call (by apply (reorg_locked_ends iter iter_perm Hash Now config cfg chainconfig bc mode B request dirty events p P Q X)).
  intros [promoted events1] p1 (S1 & Hg1 & He1 & P1 & Q1 & X1 & H1 & Hfr & Hsift). go.
  call (by apply (truncatePending_ends iter iter_perm Hash Now config cfg mode p1 P1 Q1 X1)). intros _ p2 ([K2 L2] & P2 & X2 & H2 & _ & HT & Hlp). go.
  call (by apply (truncateQueue_ends iter iter_perm Hash Now config cfg mode p2 P2 Q1 X2)). intros _ p3 (K3 & Q3 & X3 & H3 & _ & Hq & Hloc & _ & Hlq). go.
  assert (K13 : keeps p1 p3) by (etransitivity; [exact K2|apply K3]). set (p4 := set_changes 0 p3).
  assert (H4 : pool_inv mode p4 P2 Q3 X3) by (eapply inv_quiet; [exact H3| |by split]; by destruct (pv_ok _ _ _ _ _ _ H3)). assert (K14 : keeps p1 p4) by (etransitivity; [exact K13|by split]).
  assert (Hg4 : Forall (good (txs_store p4)) promoted) by (eapply list.Forall_impl; [exact Hg1|]; intros t; apply sim_good, K14).
  assert (He4 : events_ok (txs_store p4) events1) by (eapply events_ok_sim; [apply K14|done]).
  assert (Hpost : sim (txs_store p) (txs_store p4) /\ exists P' Q' X', pool_inv mode p4 P' Q' X' /\ limited p4 P' Q' /\ (request <> None -> fronted p4 P') /\
    (request = None -> forall a, asks dirty a -> sifted config p4 Q' a)).
  { split; [etransitivity; [exact S1|apply K14]|]. exists P2, Q3, X3. split_and!; [done| | |].
    - split; intros Hgt a Ha; [apply Hlp; [done|]|apply Hlq; [done|]]; [rewrite <- (kp_locals _ _ K14)|rewrite <- (kp_locals _ _ (proj1 K3))]; exact Ha.
    - intros Hr. apply (fronted_keeps p1); [done|]. eapply fronted_cut; [by apply Hfr|apply HT].
    - intros Hr a Ha. eapply sifted_less; [by apply Hsift|done| |exact Hq]. cbn. rewrite (proj2 K3). apply L2. }
  call (by apply (put_events_ends promoted events1 p4)). intros events' p' [-> He']. destruct (_ =? 0)%nat; [by go|]. go.
  call (apply (flatten_events_ends iter iter_perm _ [] p4)).
  - apply list.Forall_forall. intros m Hm. rewrite iter_perm in Hm. apply list_elem_of_fmap in Hm as ([a m'] & -> & Hm%elem_of_map_to_list). by apply (He' a m').
  - intros txs p' ->. by go.
Qed.
End Mode.

(** ** Reads *)

Section Reads.
Context (mode : option bool).

Lemma flatten_pending_ends a p P Q X ts : pool_inv mode p P Q X -> P !! a = Some ts -> ends (on_pending a (fun V => txsList.Flatten iter)) p (fun r p' => r = ts /\ quiet p p' /\ pool_inv mode p' P Q X).
Proof.
  intros H E. call (apply (on_pending_ends Hash a _ p P Q X ts (fun r ts' => r = ts /\ ts' = ts) (pv_ok _ _ _ _ _ _ H) E)).
  - intros l Hl. pose proof Hl as (Es & Hw & _). destruct (Flatten_wf (V := txs_store p) iter iter_perm l ts Hw) as (l' & E' & Hw' & Es'). exists ts, l', ts. split_and!; [exact E'| |done|done]. by eapply held_sub.
  - intros r p' (m & ts' & (-> & ->) & -> & Hm). rewrite insert_id in Hm by done. split_and!; [done|by split|]. eapply inv_quiet; [exact H| |by split]. eapply set_pending_ok; [apply H|done|apply H].
Qed.

(** A comparison of tips writes fee caps, and nothing else. *)
Lemma enforce_tips_ends txs : forall kept p P Q X, pool_inv mode p P Q X -> Forall (good (txs_store p)) txs ->
  ends (enforce_tips txs kept) p (fun _ p' => quiet p p' /\ pool_inv mode p' P Q X).
Proof.
  induction txs as [|t txs IH]; intros kept p P Q X H Hg; cbn [enforce_tips]; [by go|]. inversion Hg as [|? ? Ht Hts]; subst. go. apply ends_zoom.
  pose proof (pk_priced _ _ _ _ _ (pv_ok _ _ _ _ _ _ H)) as Hpr. call (apply EffectiveTipIntCmp_ends; [exact (po_base _ _ Hpr txPricedList.Urgent)|apply wf_fees, Ht]).
  intros c st1 S1. set (p1 := set_priced (txPricedList.mkState st1 (priced p)) p).
  assert (Hok : priced_ok (txs_store p) (txPricedList.mkState st1 (priced p))) by (destruct Hpr as [_ H2 H3]; by split).
  destruct (set_priced_ok Hash _ p P Q X (pv_ok _ _ _ _ _ _ H) Hok) as [H1 K1]. assert (K : quiet p p1) by by split. assert (Hi : pool_inv mode p1 P Q X) by by eapply inv_quiet.
  destruct (c <? 0); [by go|]. call (apply (IH _ p1 P Q X Hi)); [eapply list.Forall_impl; [exact Hts|]; intros x; by apply sim_good|]. intros r p2 [K2 H2]. split; [by etransitivity|done].
Qed.

Lemma pending_of_ends tips addrs : forall result p P Q X, pool_inv mode p P Q X -> (forall a, a ∈ addrs -> is_Some (P !! a)) ->
  ends (pending_of iter tips addrs result) p (fun _ p' => quiet p p' /\ pool_inv mode p' P Q X).
Proof.
  induction addrs as [|a addrs IH]; intros result p P Q X H Hin; cbn [pending_of]; [by go|]. destruct (Hin a) as [ts Ets]; [apply list.elem_of_cons; by left|]. go.
  call (by apply (flatten_pending_ends a p P Q X ts)). intros r p1 (-> & K1 & H1). go. apply (ends_mono _ _ (fun _ p2 => quiet p1 p2 /\ pool_inv mode p2 P Q X)).
  { destruct (_ && _); [|by go]. apply enforce_tips_ends; [done|]. apply list.Forall_forall. intros t Ht.
    eapply (reps_at_good _ _ _ _ a t (pk_pending _ _ _ _ _ (pv_ok _ _ _ _ _ _ H1))). unfold txs_at. by rewrite Ets. }
  intros txs p2 [K2 H2]. call (apply (IH _ p2 P Q X H2)); [intros b Hb; apply Hin, list.elem_of_cons; by right|]. intros r p3 [K3 H3]. split; [|done]. etransitivity; [exact K1|]. by etransitivity.
Qed.

Lemma pending_keys p P Q X a : pool_inv mode p P Q X -> a ∈ (iter _ (map_to_list (pending p))).*1 -> is_Some (P !! a).
Proof. intros H Ha. apply (elem_of_keys iter iter_perm) in Ha. by eapply reps_is_Some; [apply H|]. Qed.

Lemma queue_keys p P Q X a : pool_inv mode p P Q X -> a ∈ (iter _ (map_to_list (queue p))).*1 -> is_Some (Q !! a).
Proof. intros H Ha. apply (elem_of_keys iter iter_perm) in Ha. by eapply (reps_is_Some _ _ _ _ _ (pk_queue _ _ _ _ _ (pv_ok _ _ _ _ _ _ H))). Qed.

Lemma Pending_ends tips p P Q X : pool_inv mode p P Q X -> ends (Pending iter tips) p (fun _ p' => quiet p p' /\ pool_inv mode p' P Q X).
Proof. intros H. unfold Pending. go. apply pending_of_ends; [done|]. intros a. by eapply pending_keys. Qed.

Lemma content_of_ends addrs : forall result p P Q X, pool_inv mode p P Q X -> (forall a, a ∈ addrs -> is_Some (P !! a)) ->
  ends (content_of iter addrs result) p (fun _ p' => quiet p p' /\ pool_inv mode p' P Q X).
Proof.
  induction addrs as [|a addrs IH]; intros result p P Q X H Hin; cbn [content_of]; [by go|]. destruct (Hin a) as [ts Ets]; [apply list.elem_of_cons; by left|]. go.
  call (by apply (flatten_pending_ends a p P Q X ts)). intros r p1 (-> & K1 & H1). call (apply (IH _ p1 P Q X H1)); [intros b Hb; apply Hin, list.elem_of_cons; by right|].
  intros r p2 [K2 H2]. split; [by etransitivity|done].
Qed.

Lemma queued_of_ends addrs : forall result p P Q X, pool_inv mode p P Q X -> (forall a, a ∈ addrs -> is_Some (Q !! a)) ->
  ends (queued_of iter addrs result) p (fun _ p' => quiet p p' /\ pool_inv mode p' P Q X).
Proof.
  induction addrs as [|a addrs IH]; intros result p P Q X H Hin; cbn [queued_of]; [by go|]. destruct (Hin a) as [ts Ets]; [apply list.elem_of_cons; by left|]. go.
  call (by apply (flatten_queue_ends iter iter_perm Hash mode a p P Q X ts)). intros r p1 (-> & K1 & H1). call (apply (IH _ p1 P Q X H1)); [intros b Hb; apply Hin, list.elem_of_cons; by right|].
  intros r p2 [K2 H2]. split; [by etransitivity|done].
Qed.

Lemma Content_ends p P Q X : pool_inv mode p P Q X -> ends (Content iter) p (fun _ p' => quiet p p' /\ pool_inv mode p' P Q X).
Proof.
  intros H. unfold Content. go. call (apply (content_of_ends _ ∅ p P Q X H)); [intros a; by eapply pending_keys|]. intros pend p1 [K1 H1]. go.
  call (apply (queued_of_ends _ ∅ p1 P Q X H1)); [intros a; by eapply queue_keys|]. intros queued p2 [K2 H2]. go. split; [by etransitivity|done].
Qed.
End Reads.

(** ** Any order of operations *)

Inductive PoolOp : Type :=
| OpAddLocals (txs : list Ptr)
| OpAddRemotes (txs : list Ptr)
| OpRunReorg (request : option (option PoolBlock * PoolBlock)) (dirty : option accountSet.Accounts) (events : gmap Z (txsSortedMap.Map Ptr))
| OpPending (enforceTips : bool)
| OpContent
| OpNonce (addr : Z).

Definition perform (op : PoolOp) : M TxsPool () :=
  match op with
  | OpAddLocals txs => _ ← AddLocals iter Hash Now config txs; mret ()
  | OpAddRemotes txs => _ ← AddRemotes iter Hash Now config txs; mret ()
  | OpRunReorg request dirty events => _ ← runReorg iter Hash Now config chainconfig bc request dirty events; mret ()
  | OpPending tips => _ ← Pending iter tips; mret ()
  | OpContent => _ ← Content iter; mret ()
  | OpNonce addr => _ ← PoolNonce addr; mret ()
  end.

(** Transactions have their pointers set, heads are blocks of the chain. *)
Definition op_ok (B : PoolBlock -> Prop) (p : TxsPool) (op : PoolOp) : Prop :=
  match op with
  | OpAddLocals txs | OpAddRemotes txs => Forall (good (txs_store p)) txs
  | OpRunReorg request _ events => request_ok B request /\ events_ok (txs_store p) events
  | _ => True
  end.

(** No head takes a nonce back. *)
Definition op_forward (p : TxsPool) (op : PoolOp) : Prop := match op with OpRunReorg request _ _ => advances bc (currentState p) request | _ => True end.

Inductive reachable (st : Store) (B : PoolBlock -> Prop) (forward : bool) : TxsPool -> Prop :=
| reach_new p : NewTxsPool iter Hash Now config chainconfig bc st = Done (Some p) -> reachable st B forward p
| reach_op p op p' : reachable st B forward p -> op_ok B p op -> (forward = true -> op_forward p op) -> perform op p = Done ((), p') -> reachable st B forward p'.

Definition mode_of (forward : bool) : option bool := if forward then Some true else None.

Lemma perform_ends B forward op p P Q X : chain_ok chainconfig bc (txs_store p) B -> pool_inv (mode_of forward) p P Q X -> op_ok B p op -> (forward = true -> op_forward p op) ->
  ends (perform op) p (fun _ p' => sim (txs_store p) (txs_store p') /\ exists P' Q' X', pool_inv (mode_of forward) p' P' Q' X').
Proof.
  intros HB H Hop Hf. assert (Hadd : forall txs local, Forall (good (txs_store p)) txs ->
    ends (_ ← addTxs iter Hash Now config txs local; mret ()) p (fun _ p' => sim (txs_store p) (txs_store p') /\ exists P' Q' X', pool_inv (mode_of forward) p' P' Q' X')).
  { intros txs local Hg. go. call (by apply (addTxs_ends iter iter_perm Hash Now config cfg (mode_of forward) txs local p P Q X)). intros r p' ([K _ _] & _ & _ & P' & Q' & X' & H' & _). go.
    split; [done|]. by exists P', Q', X'. }
  destruct op as [txs|txs|request dirty events|tips| |a]; cbn [perform op_ok op_forward] in *.
  - by apply Hadd.
  - by apply Hadd.
  - destruct Hop as [Hr He]. go. call (apply (runReorg_ends (mode_of forward) ltac:(by destruct forward) B request dirty events p P Q X HB Hr H); [|done]).
    + intros Hm. apply Hf. by destruct forward.
    + intros r p' (S & P' & Q' & X' & H' & _). go. split; [done|]. by exists P', Q', X'.
  - go. call (by apply (Pending_ends (mode_of forward) tips p P Q X)). intros r p' [K H']. go. split; [apply K|]. by exists P, Q, X.
  - go. call (by apply (Content_ends (mode_of forward) p P Q X)). intros r p' [K H']. go. split; [apply K|]. by exists P, Q, X.
  - go. unfold PoolNonce. call (by apply (noncer_get_inv Hash (mode_of forward) a p P Q X)). intros r p' (K & _ & H'). go. split; [apply K|]. by exists P, Q, X.
Qed.

(** A new pool is empty. *)
Lemma NewTxsPool_ok st B p : chain_ok chainconfig bc st B -> NewTxsPool iter Hash Now config chainconfig bc st = Done (Some p) -> txs_store p = st /\ pool_inv (Some true) p ∅ ∅ ∅.
Proof.
  intros HB E. unfold NewTxsPool in E. destruct (StateAt bc (block_hash (CurrentBlock bc))) as [cs|] eqn:Es; [|done]. unfold reset in E. cbn [reinject outcome_to_M mbind M_bind] in E.
  rewrite Es in E. cbn in E. injection E as <-. split; [done|]. split.
  - split; cbn; [apply reps_empty|apply reps_empty| | |by eapply (ch_state _ _ _ _ HB)|apply all_ok_new|constructor].
    + intros a x y Hx. unfold txs_at in Hx. rewrite lookup_empty in Hx. by apply elem_of_nil in Hx.
    + split; [done|by intros []|by intros []].
  - intros t. split; [set_solver|]. intros (a & [Ha|Ha]); unfold txs_at in Ha; rewrite lookup_empty in Ha; by apply elem_of_nil in Ha.
  - intros a ts. by rewrite lookup_empty.
  - intros a ts. by rewrite lookup_empty.
  - split; [done|]. intros a. cbn. unfold txs_at, next_nonce. cbn. rewrite !lookup_empty. cbn. exists (GetNonce cs a). split_and!; [lia| |lia|].
    + intros n Hn. split; [by intros ?%elem_of_nil|lia].
    + intros _. split; [done|]. by intros n ?%elem_of_nil.
Qed.

Lemma reachable_inv st B forward p : chain_ok chainconfig bc st B -> reachable st B forward p -> sim st (txs_store p) /\ exists P Q X, pool_inv (mode_of forward) p P Q X.
Proof.
  intros HB. induction 1 as [p E|p op p' _ [S (P & Q & X & H)] Hop Hf E].
  - destruct (NewTxsPool_ok st B p HB E) as [-> H]. split; [done|]. exists ∅, ∅, ∅. destruct forward; [done|]. by eapply inv_None.
  - destruct (perform_ends B forward op p P Q X (chain_ok_sim _ _ _ _ _ S HB) H Hop Hf) as ([] & p1 & E1 & S1 & Hex). rewrite E1 in E. injection E as <-.
    split; [by etransitivity|done].
Qed.
End Runs.
