(* ===== verification/TxPoolTheorems.v ===== *)
(** * Theorems of the transaction pool

    What holds of a pool after any operations: nothing panics, the indexes agree, the
    pending transactions of an account can be executed in order, limits are kept. *)

From stdpp Require Import sorting.
From S2P Require Import Prelude Uint256 Wire Transaction Config Header Heap TxList TxListTheorems TxLookup TxPriced Ends TxPricedTheorems TxPool TxPoolBase TxPoolOps TxPoolAdd TxPoolPromote TxPoolDemote TxPoolLimits TxPoolRuns.
Import TxsPoolConfig.

(** The list of an account has a transaction. *)
Definition listed (p : TxsPool) (m : gmap Z PoolList) (a : Z) (t : Ptr) : Prop :=
  exists l, m !! a = Some l /\ txsSortedMap.Get (tx_Nonce (txs_store p t)) (txsList.txs l) = Some t.

(** The nonce that the pool answers for an account. *)
Definition nonce_of (a : Z) (p : TxsPool) : Z := match PoolNonce a p with Done (n, _) => n | _ => 0 end.

Section Theorems.
Context {U : Uint256} {UL : Uint256Laws U}.
Context (iter : forall A : Type, list A -> list A) (iter_perm : forall A (l : list A), iter A l ≡ₚ l) (Hash : Ptr -> Z) (Now : nat -> Z).
Context (config : Config) (cfg : config_ok config) (chainconfig : ChainConfig) (bc : PoolChain) (st : Store) (B : PoolBlock -> Prop) (HB : chain_ok chainconfig bc st B).
Notation nonce p t := (tx_Nonce (txs_store p t)).
Notation reachable := (reachable iter Hash Now config chainconfig bc st B).
Notation perform := (perform iter Hash Now config chainconfig bc).
Notation runReorg := (runReorg iter Hash Now config chainconfig bc).

Lemma listed_at b p m f a t : reps b (txs_store p) m f -> listed p m a t <-> t ∈ txs_at f a.
Proof.
  intros H. unfold listed, txs_at. split.
  - intros (l & El & Eg). destruct (reps_Some _ _ _ _ _ _ H El) as (ts & -> & _ & Hw & _). cbn. rewrite (Get_wf (V := txs_store p) _ _ _ Hw) in Eg.
    by apply (items_of_lookup (V := txs_store p)) in Eg as [? _]; [|by eapply list_wf_sorted].
  - destruct (f !! a) as [ts|] eqn:E; [|by intros ?%elem_of_nil]. cbn. intros Ht. destruct (reps_Some_2 _ _ _ _ _ _ H E) as (l & El & _ & Hw & _). exists l. split; [done|].
    rewrite (Get_wf (V := txs_store p) _ _ _ Hw). by apply (items_of_lookup (V := txs_store p)); [eapply list_wf_sorted|].
Qed.

(** The sender of a transaction, if the list has it. *)
Lemma listed_Get b p m f a n : reps b (txs_store p) m f -> (exists l t, m !! a = Some l /\ txsSortedMap.Get n (txsList.txs l) = Some t) <-> n ∈ (fun t => nonce p t) <$> txs_at f a.
Proof.
  intros H. rewrite elem_of_nonces. unfold txs_at. split.
  - intros (l & t & El & Eg). destruct (reps_Some _ _ _ _ _ _ H El) as (ts & -> & _ & Hw & _). cbn. rewrite (Get_wf (V := txs_store p) _ _ _ Hw) in Eg.
    apply (items_of_lookup (V := txs_store p)) in Eg as [Ht En]; [|by eapply list_wf_sorted]. by exists t.
  - destruct (f !! a) as [ts|] eqn:E; [|by intros (t & ?%elem_of_nil & _)]. cbn. intros (t & Ht & En). destruct (reps_Some_2 _ _ _ _ _ _ H E) as (l & El & _ & Hw & _). exists l, t. split; [done|].
    rewrite (Get_wf (V := txs_store p) _ _ _ Hw). by apply (items_of_lookup (V := txs_store p)); [eapply list_wf_sorted|].
Qed.

Lemma nonce_of_next a p : nonce_of a p = next_nonce (pendingNonces p) a.
Proof. unfold nonce_of, PoolNonce, on_noncer. destruct (noncer_get_ends a (pendingNonces p)) as (r & n' & E & -> & _). unfold zoom. by rewrite E. Qed.

Lemma count_in_total b p m f : reps b (txs_store p) m f -> count_in iter m = total f.
Proof.
  intros H. unfold count_in. assert (Hf : forall l n, foldl (fun n (l : PoolList) => n + txsList.Len l) n l = n + sumZ (txsList.Len <$> l)).
  { induction l as [|x l IH]; intros n; cbn; [lia|]. rewrite IH. unfold sumZ. lia. }
  rewrite Hf. unfold total. rewrite iter_perm, <- (lens_total b _ m f H), map_to_list_fmap. cbn. f_equal. rewrite <- !list_fmap_compose. done.
Qed.

Lemma reps_from b p m f a ts : reps b (txs_store p) m f -> f !! a = Some ts -> NoDup ts /\ forall t, t ∈ ts -> tx_From (txs_store p t) = Some a.
Proof.
  intros H E. assert (Eat : txs_at f a = ts) by (unfold txs_at; by rewrite E). rewrite <- Eat. split; [by eapply NoDup_fmap_1, NoDup_nonces, reps_sorted|].
  intros t Ht. by eapply reps_at_good in Ht as [_ ?].
Qed.

Lemma inv_total mode p P Q X : pool_inv Hash mode p P Q X -> Z.of_nat (size X) = total P + total Q.
Proof.
  intros [[H1 H2 H3 _ _ _] Hf _ _ _]. destruct (total_set (fun t => tx_From (txs_store p t)) P) as (SP & HP & ->); [intros a ts; by eapply (reps_from true)|].
  destruct (total_set (fun t => tx_From (txs_store p t)) Q) as (SQ & HQ & ->); [intros a ts; by eapply (reps_from false)|].
  assert (X = SP ∪ SQ) as ->.
  { apply set_eq. intros t. rewrite elem_of_union, HP, HQ, (Hf t). naive_solver. }
  rewrite size_union; [lia|]. intros t (a & Ha)%HP (b & Hb)%HQ. destruct (reps_at_good _ _ _ _ _ _ H1 Ha) as [_ Ea], (reps_at_good _ _ _ _ _ _ H2 Hb) as [_ Eb].
  assert (b = a) as -> by congruence. by apply (H3 a t t).
Qed.

(** No operation panics or runs out of fuel.  In every state that the pool can reach,
    with well-formed transactions and heads of the chain, adding a batch of local or remote
    transactions, a background run for a new head (whatever its relation to the last one)
    or for new transactions, and the reads all come to an end. *)
Theorem pool_total p op : reachable false p -> op_ok B p op -> exists p', perform op p = Done ((), p').
Proof.
  intros Hr Hop. destruct (reachable_inv iter iter_perm Hash Now config cfg chainconfig bc st B false p HB Hr) as [S (P & Q & X & H)].
  destruct (perform_ends iter iter_perm Hash Now config cfg chainconfig bc B false op p P Q X (chain_ok_sim _ _ _ _ _ S HB) H Hop ltac:(done)) as ([] & p' & E & _). by exists p'.
Qed.

(** C11: the indexes of the pool agree in every state that it can reach: the lookup knows
    exactly the transactions in the pending and queued lists, by their hashes, each in a
    list of its sender and no two of one account with the same nonce; no list is empty,
    and the counts that [Stats] reports add up to the slots that the lookup accounts for. *)
Theorem pool_consistent p : reachable false p ->
  (forall h t, GetTx h p = Some t <-> Hash t = h /\ exists a, tx_From (txs_store p t) = Some a /\ (listed p (pending p) a t \/ listed p (queue p) a t)) /\
  (forall a t t', listed p (pending p) a t -> listed p (queue p) a t' -> nonce p t <> nonce p t') /\
  (forall a l, pending p !! a = Some l \/ queue p !! a = Some l -> 0 < txsList.Len l) /\
  count_in iter (pending p) + count_in iter (queue p) = txLookup.Slots (all p).
Proof.
  intros Hr. destruct (reachable_inv iter iter_perm Hash Now config cfg chainconfig bc st B false p HB Hr) as [_ (P & Q & X & Hi)]. pose proof Hi as [[H1 H2 H3 _ _ H6] Hf HlP HlQ _]. split_and!.
  - intros h t. unfold GetTx. rewrite (ao_get _ _ _ _ H6). split.
    + intros [Eh Ht]. split; [done|]. apply Hf in Ht as (a & Ht). exists a. rewrite (listed_at _ _ _ _ _ _ H1), (listed_at _ _ _ _ _ _ H2). split; [|done].
      destruct Ht as [Ht|Ht]; [by eapply reps_at_good in Ht as [_ ?]|]. by eapply (reps_at_good _ _ _ _ _ _ H2) in Ht as [_ ?].
    + intros [Eh (a & _ & Ht)]. rewrite (listed_at _ _ _ _ _ _ H1), (listed_at _ _ _ _ _ _ H2) in Ht. split; [done|]. apply Hf. by exists a.
  - intros a t t'. rewrite (listed_at _ _ _ _ _ _ H1), (listed_at _ _ _ _ _ _ H2). apply H3.
  - intros a l [El|El].
    + destruct (reps_Some _ _ _ _ _ _ H1 El) as (ts & Ets & _ & Hw & _). rewrite (Len_wf (V := txs_store p) _ _ Hw). apply HlP in Ets. destruct ts; [done|]. rewrite zlen_cons. pose proof (zlen_nonneg ts). lia.
    + destruct (reps_Some _ _ _ _ _ _ H2 El) as (ts & Ets & _ & Hw & _). rewrite (Len_wf (V := txs_store p) _ _ Hw). apply HlQ in Ets. destruct ts; [done|]. rewrite zlen_cons. pose proof (zlen_nonneg ts). lia.
  - rewrite (count_in_total _ _ _ _ H1), (count_in_total _ _ _ _ H2). unfold txLookup.Slots. by rewrite (ao_slots _ _ _ _ H6), (inv_total _ _ _ _ _ Hi).
Qed.

(** C7: as long as no head takes a nonce back, the pending transactions of every account
    can be executed one after the other: their nonces are exactly those from the nonce of
    the account up to the one that the pool answers as the next. *)
Theorem pending_contiguous p : reachable true p -> forall a n,
  (exists l t, pending p !! a = Some l /\ txsSortedMap.Get n (txsList.txs l) = Some t) <-> GetNonce (currentState p) a <= n < nonce_of a p.
Proof.
  intros Hr a n. destruct (reachable_inv iter iter_perm Hash Now config cfg chainconfig bc st B true p HB Hr) as [_ (P & Q & X & [[H1 _ _ _ _ _] _ _ _ [_ Hc]])].
  rewrite (listed_Get _ _ _ _ _ _ H1), nonce_of_next. destruct (Hc a) as (e & C1 & C2 & _ & C4). destruct (C4 eq_refl) as [-> C5]. split.
  - intros Hn. specialize (C5 n Hn). split; [done|]. by apply C2.
  - intros [Hge Hlt]. by apply C2.
Qed.

(** C22: a background run leaves the pool within its limits: if more transactions are
    pending than the pool has slots for, no remote account has more than its allowance,
    and if more are queued than the pool allows, only local accounts have a queue. *)
Theorem runReorg_limits p request dirty events : reachable false p -> request_ok B request -> events_ok (txs_store p) events ->
  exists r p', runReorg request dirty events p = Done (r, p') /\ forall a, accountSet.contains a (locals p') = false ->
    (GlobalSlots config < count_in iter (pending p') -> forall l, pending p' !! a = Some l -> txsList.Len l <= AccountSlots config) /\
    (GlobalQueue config < count_in iter (queue p') -> queue p' !! a = None).
Proof.
  intros Hr Hreq He. destruct (reachable_inv iter iter_perm Hash Now config cfg chainconfig bc st B false p HB Hr) as [S (P & Q & X & H)].
  destruct (runReorg_ends iter iter_perm Hash Now config cfg chainconfig bc None eq_refl B request dirty events p P Q X (chain_ok_sim _ _ _ _ _ S HB) Hreq H ltac:(done) He)
    as (r & p' & E & _ & P' & Q' & X' & [[H1 H2 _ _ _ _] _ _ _ _] & [L1 L2] & _). exists r, p'. split; [done|]. intros a Ha. rewrite (count_in_total _ _ _ _ H1), (count_in_total _ _ _ _ H2). split.
  - intros Hgt l El. specialize (L1 Hgt a Ha). unfold txs_at in L1. destruct (reps_Some _ _ _ _ _ _ H1 El) as (ts & Ets & _ & Hw & _). rewrite Ets in L1. by rewrite (Len_wf (V := txs_store p') _ _ Hw).
  - intros Hgt. specialize (L2 Hgt a Ha). by eapply reps_None.
Qed.

(** C23: a background run that was not asked to move to a new head promotes whatever can be
    executed, also in pools whose earlier heads took nonces back: for every account that it
    was asked to look at, the transactions that stay in the queue lie behind a gap, beyond
    the nonce that the pool answers as the next, and a remote account has no more of them
    than its queue may hold. *)
Theorem runReorg_promotes p d events : reachable false p -> events_ok (txs_store p) events -> accountSet.cache d = None ->
  exists r p', runReorg None (Some d) events p = Done (r, p') /\ forall a l, a ∈ accountSet.accounts d -> queue p' !! a = Some l ->
    (forall n t, txsSortedMap.Get n (txsList.txs l) = Some t -> nonce_of a p' < n) /\ (accountSet.contains a (locals p') = false -> txsList.Len l <= AccountQueue config).
Proof.
  intros Hr He Hd. destruct (reachable_inv iter iter_perm Hash Now config cfg chainconfig bc st B false p HB Hr) as [S (P & Q & X & H)].
  destruct (runReorg_ends iter iter_perm Hash Now config cfg chainconfig bc None eq_refl B None (Some d) events p P Q X (chain_ok_sim _ _ _ _ _ S HB) ltac:(done) H ltac:(done) He)
    as (r & p' & E & _ & P' & Q' & X' & [[_ H2 _ _ _ _] _ _ _ _] & _ & _ & Hs). exists r, p'. split; [done|]. intros a l Ha El. destruct (Hs eq_refl a (conj Hd Ha)) as [S1 S2]. split.
  - intros n t Eg. assert (Hn : n ∈ (fun t => nonce p' t) <$> txs_at Q' a) by (apply (listed_Get _ _ _ _ _ _ H2); by exists l, t).
    apply elem_of_nonces in Hn as (x & Hx & <-). rewrite nonce_of_next. by apply S1.
  - intros Hc. specialize (S2 Hc). unfold txs_at in S2. destruct (reps_Some _ _ _ _ _ _ H2 El) as (ts & Ets & _ & Hw & _). rewrite Ets in S2. by rewrite (Len_wf (V := txs_store p') _ _ Hw).
Qed.

(** After a background run for a new head, on whatever branch, the pending transactions
    of every account start with the nonce of the account in the state of the pool. *)
Theorem reset_fronts p old new dirty events : reachable false p -> request_ok B (Some (old, new)) -> events_ok (txs_store p) events ->
  exists r p', runReorg (Some (old, new)) dirty events p = Done (r, p') /\ forall a l, pending p' !! a = Some l ->
    (exists t, txsSortedMap.Get (GetNonce (currentState p') a) (txsList.txs l) = Some t) /\ (forall n t, txsSortedMap.Get n (txsList.txs l) = Some t -> GetNonce (currentState p') a <= n).
Proof.
  intros Hr Hreq He. destruct (reachable_inv iter iter_perm Hash Now config cfg chainconfig bc st B false p HB Hr) as [S (P & Q & X & H)].
  destruct (runReorg_ends iter iter_perm Hash Now config cfg chainconfig bc None eq_refl B (Some (old, new)) dirty events p P Q X (chain_ok_sim _ _ _ _ _ S HB) Hreq H ltac:(done) He)
    as (r & p' & E & _ & P' & Q' & X' & [[H1 _ _ _ _ _] _ HlP _ _] & _ & Hfr & _). exists r, p'. split; [done|]. intros a l El. destruct (reps_Some _ _ _ _ _ _ H1 El) as (ts & Ets & _ & Hw & _).
  pose proof (list_wf_sorted (V := txs_store p') _ _ Hw) as Hs. pose proof (HlP _ _ Ets) as Hne. destruct ts as [|t ts]; [done|].
  assert (En : nonce p' t = GetNonce (currentState p') a) by (eapply (Hfr ltac:(done) a t ts); unfold txs_at; by rewrite Ets). split.
  - exists t. rewrite (Get_wf (V := txs_store p') _ _ _ Hw). apply (items_of_lookup (V := txs_store p')); [done|]. split; [apply list.elem_of_cons; by left|done].
  - intros n x Eg. rewrite (Get_wf (V := txs_store p') _ _ _ Hw) in Eg. apply (items_of_lookup (V := txs_store p')) in Eg as [Hx <-]; [|done]. unfold Tx.Nonce, view.
    apply (ascending_cons (V := txs_store p')) in Hs as [_ Hs]. apply list.elem_of_cons in Hx as [->|Hx]; [lia|]. specialize (Hs x Hx). unfold Tx.Nonce, view in Hs. lia.
Qed.

(** A batch gets one answer per transaction, in the order of the batch; a transaction
    that the pool knew is refused, and what the pool knows afterwards it knew before or is
    in the batch. *)
Theorem addTxs_answers p txs local : reachable false p -> Forall (good (txs_store p)) txs ->
  exists r p', addTxs iter Hash Now config txs local p = Done (r, p') /\ length (errors r) = length txs /\
    (forall i t, txs !! i = Some t -> Has (Hash t) p = true -> errors r !! i = Some (Some ErrAlreadyKnown)) /\
    (forall h t, GetTx h p' = Some t -> GetTx h p = Some t \/ t ∈ txs).
Proof.
  intros Hr Hg. destruct (reachable_inv iter iter_perm Hash Now config cfg chainconfig bc st B false p HB Hr) as [S (P & Q & X & H)].
  destruct (addTxs_ends iter iter_perm Hash Now config cfg None txs local p P Q X H Hg) as (r & p' & E & _ & El & Hk & P' & Q' & X' & H' & Hsub). exists r, p'. split_and!; [done|done| |].
  - intros i t Ht HG. apply (Hk i t Ht). unfold Has in HG. by apply bool_decide_eq_true in HG.
  - intros h t. unfold GetTx. rewrite (ao_get _ _ _ _ (pk_all _ _ _ _ _ (pv_ok _ _ _ _ _ _ H'))), (ao_get _ _ _ _ (pk_all _ _ _ _ _ (pv_ok _ _ _ _ _ _ H))). intros [<- Ht].
    apply Hsub in Ht. rewrite elem_of_union, elem_of_list_to_set in Ht. tauto.
Qed.
End Theorems.
