(* ===== verification/TxSchedule.v ===== *)
(** * The scheduler of the transaction pool ([internal/txspool/txs_pool.go])

    [scheduleLoop] owns the requests: it merges those that arrive while a background run is
    active and starts one run at a time.  A channel that is closed at the end of a run is
    its number.  [TxSystem] puts the scheduler, the pool and the callers together. *)

From stdpp Require Import sorting.
From S2P Require Import Prelude Uint256 Wire Transaction Config Header Heap TxList TxListTheorems TxLookup TxPriced Ends TxPricedTheorems TxPool TxPoolBase TxPoolOps TxPoolAdd TxPoolPromote TxPoolDemote TxPoolLimits TxPoolRuns.
Import TxsPoolConfig.

(** ** [scheduleLoop] *)

Notation Events := (gmap Z (txsSortedMap.Map Ptr)).
Notation Request := (option PoolBlock * PoolBlock)%type.

(** The local variables of the loop. *)
Record Schedule : Type := mkSchedule {
  curDone : option nat;
  nextDone : nat;
  launchNextRun : bool;
  reset_request : option Request;
  dirtyAccounts : option accountSet.Accounts;
  queuedEvents : Events
}.

Definition new_schedule : Schedule := mkSchedule None 0 false None None ∅.

(** A background run: the channel it closes and the arguments of [runReorg]. *)
Record Run : Type := mkRun { run_done : nat; run_reset : option Request; run_dirty : option accountSet.Accounts; run_events : Events }.

(** The top of the loop. *)
Definition launch (s : Schedule) : Schedule * option Run :=
  match curDone s with
  | None =>
      if launchNextRun s then
        (mkSchedule (Some (nextDone s)) (S (nextDone s)) false None None ∅,
         Some (mkRun (nextDone s) (reset_request s) (dirtyAccounts s) (queuedEvents s)))
      else (s, None)
  | Some _ => (s, None)
  end.

(** What the loop receives; requests are answered with a channel. *)
Inductive Message : Type :=
| ReqReset (req : Request)
| ReqPromote (set : accountSet.Accounts)
| TxEvent (tx : Ptr)
| RunDone
| Shutdown.

Definition receive (st : Store) (m : Message) (s : Schedule) : outcome (Schedule * option nat) :=
  match m with
  | ReqReset req =>
      let reset := match reset_request s with None => req | Some old => (old.1, req.2) end in
      Done (mkSchedule (curDone s) (nextDone s) true (Some reset) (dirtyAccounts s) (queuedEvents s), Some (nextDone s))
  | ReqPromote set =>
      let dirty := match dirtyAccounts s with None => set | Some d => accountSet.merge set d end in
      Done (mkSchedule (curDone s) (nextDone s) true (reset_request s) (Some dirty) (queuedEvents s), Some (nextDone s))
  | TxEvent tx =>
      addr ← sender st tx;
      '(_, m) ← txsSortedMap.Put (V := st) tx (default txsSortedMap.newTxSortedMap (queuedEvents s !! addr));
      Done (mkSchedule (curDone s) (nextDone s) (launchNextRun s) (reset_request s) (dirtyAccounts s) (<[addr := m]> (queuedEvents s)), None)
  | RunDone => Done (mkSchedule None (nextDone s) (launchNextRun s) (reset_request s) (dirtyAccounts s) (queuedEvents s), None)
  | Shutdown => Done (mkSchedule None (nextDone s) (launchNextRun s) (reset_request s) (dirtyAccounts s) (queuedEvents s), None)
  end.

(** What happens, in order. *)
Inductive Output : Type :=
| Launched (r : Run)
| Answered (m : Message) (done : nat)
| Ended
| Closed (done : nat).

Definition launched (r : option Run) : list Output := match r with Some r => [Launched r] | None => [] end.
Definition answered (m : Message) (d : option nat) : list Output := match d with Some d => [Answered m d] | None => [] end.
Definition ended (s : Schedule) : list Output := match curDone s with Some _ => [Ended] | None => [] end.

(** One turn: the end of a run can only be received while one is active, and at the end
    the loop waits for it. *)
Definition turn (st : Store) (m : Message) (s : Schedule) : outcome (Schedule * list Output) :=
  let '(s, r) := launch s in
  '(s', d) ← receive st m s;
  Done (s', launched r ++ match m with RunDone => ended s | Shutdown => ended s ++ [Closed (nextDone s)] | _ => answered m d end).

Fixpoint scheduleLoop (st : Store) (ms : list Message) (s : Schedule) (outs : list Output) : outcome (Schedule * list Output) :=
  match ms with
  | [] => Done (s, outs)
  | m :: ms =>
      '(s, o) ← turn st m s;
      match m with Shutdown => Done (s, outs ++ o) | _ => scheduleLoop st ms s (outs ++ o) end
  end.

(** ** What the scheduler promises *)

(** The requests that were answered with a channel. *)
Definition answers (d : nat) (outs : list Output) : list Message := omap (fun o => match o with Answered m d' => if decide (d = d') then Some m else None | _ => None end) outs.
Definition resets (ms : list Message) : list Request := omap (fun m => match m with ReqReset req => Some req | _ => None end) ms.
Definition promotes (ms : list Message) : list accountSet.Accounts := omap (fun m => match m with ReqPromote set => Some set | _ => None end) ms.

(** From the old head of the first to the new head of the last. *)
Definition span (reqs : list Request) : option Request := first ← head reqs; last ← list.last reqs; Some (first.1, last.2).

Definition all_accounts (sets : list accountSet.Accounts) : gset Z := ⋃ (accountSet.accounts <$> sets).

(** A run has merged these requests. *)
Record merged (reset : option Request) (dirty : option accountSet.Accounts) (reqs : list Message) : Prop := {
  mg_reset : reset = span (resets reqs);
  mg_none : dirty = None <-> promotes reqs = [];
  mg_dirty d : dirty = Some d -> accountSet.accounts d = all_accounts (promotes reqs)
}.

(** Runs follow each other. *)
Fixpoint alternates (active : bool) (outs : list Output) : option bool :=
  match outs with
  | [] => Some active
  | Launched _ :: outs => if active then None else alternates true outs
  | Ended :: outs => if active then alternates false outs else None
  | Answered _ _ :: outs | Closed _ :: outs => alternates active outs
  end.

Lemma alternates_app b o o' : alternates b (o ++ o') = alternates b o ≫= fun b => alternates b o'.
Proof. revert b. induction o as [|[r|m d| |d] o IH]; intros b; cbn; [done| |apply IH| |apply IH]; destruct b; done || apply IH. Qed.

Lemma answers_app d o o' : answers d (o ++ o') = answers d o ++ answers d o'.
Proof. apply omap_app. Qed.

Lemma resets_app l l' : resets (l ++ l') = resets l ++ resets l'.
Proof. apply omap_app. Qed.

Lemma promotes_app l l' : promotes (l ++ l') = promotes l ++ promotes l'.
Proof. apply omap_app. Qed.

Lemma span_snoc reqs req : span (reqs ++ [req]) = Some (match span reqs with None => req | Some old => (old.1, req.2) end).
Proof.
  unfold span. rewrite list.last_snoc. destruct reqs as [|first reqs]; [by destruct req|]. cbn [app head]. destruct (list.last (first :: reqs)) eqn:E; cbn; rewrite ?E; [done|]. by apply last_None in E.
Qed.

(** The state of the scheduler after what has happened. *)
Record scheduled (s : Schedule) (outs : list Output) : Prop := {
  sd_active : alternates false outs = Some (bool_decide (curDone s <> None));
  sd_merged : merged (reset_request s) (dirtyAccounts s) (answers (nextDone s) outs);
  sd_launch : launchNextRun s = true <-> answers (nextDone s) outs <> [];
  sd_future d : (nextDone s < d)%nat -> answers d outs = [];
  sd_runs r : Launched r ∈ outs -> (run_done r < nextDone s)%nat /\ answers (run_done r) outs <> [] /\ merged (run_reset r) (run_dirty r) (answers (run_done r) outs);
  sd_served d : (d < nextDone s)%nat -> exists r, Launched r ∈ outs /\ run_done r = d
}.

Lemma merged_none : merged None None [].
Proof. split; [done|done|]. by intros d [=]. Qed.

Lemma scheduled_new : scheduled new_schedule [].
Proof. split; cbn; [done|apply merged_none|done|done|by intros r ?%elem_of_nil|lia]. Qed.

Lemma scheduled_launch s outs : scheduled s outs -> scheduled (launch s).1 (outs ++ launched (launch s).2).
Proof.
  intros H. unfold launch. destruct (curDone s) as [c|] eqn:Ec; [by rewrite app_nil_r|]. destruct (launchNextRun s) eqn:El; [|by rewrite app_nil_r]. destruct H as [H1 H2 H3 H4 H5 H6]. cbn.
  assert (Ha : forall d, answers d (outs ++ [Launched (mkRun (nextDone s) (reset_request s) (dirtyAccounts s) (queuedEvents s))]) = answers d outs) by (intros d; by rewrite answers_app, app_nil_r).
  split; cbn [curDone nextDone launchNextRun reset_request dirtyAccounts].
  - rewrite alternates_app, H1, Ec. done.
  - rewrite Ha, H4 by lia. apply merged_none.
  - rewrite Ha, H4 by lia. done.
  - intros d Hd. rewrite Ha. apply H4. lia.
  - intros r. rewrite Ha. intros [Hr|Hr]%elem_of_app; [destruct (H5 r Hr); split; [lia|done]|]. apply list.elem_of_cons in Hr as [[= ->]|Hr%elem_of_nil]; [|done]. cbn.
    split_and!; [lia|by apply H3|done].
  - intros d Hd. destruct (decide (d = nextDone s)) as [->|Hne].
    + eexists. split; [apply elem_of_app; right; apply list.elem_of_cons; by left|done].
    + destruct (H6 d) as (r & Hr & Er); [lia|]. exists r. split; [apply elem_of_app; by left|done].
Qed.

Lemma merged_request reset dirty reqs m : merged reset dirty reqs ->
  match m with
  | ReqReset req => merged (Some (match reset with None => req | Some old => (old.1, req.2) end)) dirty (reqs ++ [m])
  | ReqPromote set => merged reset (Some (match dirty with None => set | Some d => accountSet.merge set d end)) (reqs ++ [m])
  | _ => True
  end.
Proof.
  intros [H1 H2 H3]. destruct m as [req|set|tx| |]; [| |done..].
  - split; rewrite ?resets_app, ?promotes_app; cbn; rewrite ?app_nil_r; [|done|done]. by rewrite span_snoc, H1.
  - split; rewrite ?resets_app, ?promotes_app; cbn; rewrite ?app_nil_r; [done| |].
    + split; [done|]. by intros [_ [=]]%app_eq_nil.
    + intros d [= <-]. unfold all_accounts. rewrite fmap_app, union_list_app_L. cbn. rewrite union_empty_r_L. destruct dirty as [d|]; cbn.
      * by rewrite (H3 d eq_refl).
      * rewrite (proj1 H2 eq_refl). cbn. set_solver.
Qed.

(** A request that is answered. *)
Lemma scheduled_answer s outs m s' : scheduled s outs -> curDone s' = curDone s -> nextDone s' = nextDone s -> launchNextRun s' = true ->
  merged (reset_request s') (dirtyAccounts s') (answers (nextDone s) outs ++ [m]) -> scheduled s' (outs ++ [Answered m (nextDone s)]).
Proof.
  intros [H1 H2 H3 H4 H5 H6] E1 E2 E3 Hm. assert (Ha : forall d, answers d (outs ++ [Answered m (nextDone s)]) = answers d outs ++ if decide (d = nextDone s) then [m] else []).
  { intros d. rewrite answers_app. cbn. by case_decide. }
  split; rewrite ?E1, ?E2, ?E3.
  - rewrite alternates_app, H1. done.
  - by rewrite Ha, decide_True.
  - rewrite Ha, decide_True by done. split; [|done]. intros _ E%app_eq_nil. by destruct E.
  - intros d Hd. rewrite Ha, decide_False by lia. by rewrite H4.
  - intros r [Hr|Hr]%elem_of_app; [|by apply list.elem_of_cons in Hr as [[=]|?%elem_of_nil]]. destruct (H5 r Hr) as (G1 & G2 & G3). rewrite Ha, decide_False, app_nil_r by lia. done.
  - intros d Hd. destruct (H6 d Hd) as (r & Hr & Er). exists r. split; [apply elem_of_app; by left|done].
Qed.

(** The run that was active, if any, has ended. *)
Lemma scheduled_end s outs o : scheduled s outs -> (forall d, answers d o = []) -> (forall r, Launched r ∉ o) -> alternates (bool_decide (curDone s <> None)) o = Some false ->
  scheduled (mkSchedule None (nextDone s) (launchNextRun s) (reset_request s) (dirtyAccounts s) (queuedEvents s)) (outs ++ o).
Proof.
  intros [H1 H2 H3 H4 H5 H6] Ho Hr Hb. assert (Ha : forall d, answers d (outs ++ o) = answers d outs) by (intros d; by rewrite answers_app, Ho, app_nil_r).
  split; cbn [curDone nextDone launchNextRun reset_request dirtyAccounts]; rewrite ?Ha; [|done|done| | |].
  - rewrite alternates_app, H1. done.
  - intros d Hd. rewrite Ha. by apply H4.
  - intros r [G|G]%elem_of_app; [rewrite Ha; by apply H5|by apply Hr in G].
  - intros d Hd. destruct (H6 d Hd) as (r & G & Er). exists r. split; [apply elem_of_app; by left|done].
Qed.

Lemma scheduled_turn st m s outs s' o : scheduled s outs -> turn st m s = Done (s', o) -> scheduled s' (outs ++ o).
Proof.
  intros H E. pose proof (scheduled_launch s outs H) as HL. unfold turn in E. destruct (launch s) as [s1 r]. cbn [fst snd] in HL. destruct m as [req|set|tx| |].
  - cbn in E. injection E as <- <-. rewrite app_assoc. apply (scheduled_answer s1); [done|done|done|done|]. apply (merged_request _ _ _ (ReqReset req)), HL.
  - cbn in E. injection E as <- <-. rewrite app_assoc. apply (scheduled_answer s1); [done|done|done|done|]. apply (merged_request _ _ _ (ReqPromote set)), HL.
  - cbn [receive] in E. assert (E' : exists ev, s' = mkSchedule (curDone s1) (nextDone s1) (launchNextRun s1) (reset_request s1) (dirtyAccounts s1) ev /\ o = launched r).
    { destruct (sender st tx) as [a| |]; [|done|done]. cbn [mbind outcome_bind] in E. destruct (txsSortedMap.Put _ _) as [[old mp]| |]; [|done|done]. cbn in E. injection E as <- <-. rewrite app_nil_r. by eexists. }
    destruct E' as (ev & -> & ->). by destruct HL.
  - cbn in E. injection E as <- <-. rewrite app_assoc. apply scheduled_end; [done|..]; unfold ended; destruct (curDone s1); cbn; try done; intros ?; set_solver.
  - cbn in E. injection E as <- <-. rewrite app_assoc. apply scheduled_end; [done|..]; unfold ended; destruct (curDone s1); cbn; try done; intros ?; set_solver.
Qed.

Lemma scheduled_loop st ms : forall s outs s' outs', scheduled s outs -> scheduleLoop st ms s outs = Done (s', outs') -> scheduled s' outs'.
Proof.
  induction ms as [|m ms IH]; intros s outs s' outs' H E; cbn [scheduleLoop] in E; [by injection E as <- <-|].
  destruct (turn st m s) as [[s1 o]| |] eqn:Et; [|done|done]. cbn in E. pose proof (scheduled_turn _ _ _ _ _ _ H Et) as H1. destruct m; try (by eapply IH); by injection E as <- <-.
Qed.

(** C15: the scheduler serves every request and runs one thing at a time.  A run never starts
    while another is active; a run has merged exactly the requests that were answered with
    the channel it closes, namely the reset from the old head of the first to the new head
    of the last, and all their accounts; every channel that is no longer handed out
    belongs to a run; and while requests wait, the next run is due as soon as none is
    active. *)
Theorem schedule_serves st ms s outs : scheduleLoop st ms new_schedule [] = Done (s, outs) ->
  alternates false outs = Some (bool_decide (curDone s <> None)) /\
  (forall r, Launched r ∈ outs -> merged (run_reset r) (run_dirty r) (answers (run_done r) outs)) /\
  (forall m d, Answered m d ∈ outs -> (exists r, Launched r ∈ outs /\ run_done r = d) \/ d = nextDone s /\ launchNextRun s = true) /\
  (launchNextRun s = true -> curDone s = None -> exists r, (launch s).2 = Some r /\ run_done r = nextDone s /\ merged (run_reset r) (run_dirty r) (answers (nextDone s) outs)).
Proof.
  intros E. pose proof (scheduled_loop st ms _ _ _ _ scheduled_new E) as [H1 H2 H3 H4 H5 H6]. split_and!; [done| | |].
  - intros r Hr. by apply H5.
  - intros m d Hd. assert (Ha : m ∈ answers d outs) by (apply list.list_elem_of_omap; exists (Answered m d); split; [done|by rewrite decide_True]).
    destruct (decide (d < nextDone s)%nat) as [Hlt|Hge]; [left; by apply H6|]. destruct (decide (d = nextDone s)) as [->|Hne].
    + right. split; [done|]. apply H3. intros E'. rewrite E' in Ha. by apply elem_of_nil in Ha.
    + rewrite H4 in Ha by lia. by apply elem_of_nil in Ha.
  - intros El Ec. unfold launch. rewrite Ec, El. eexists. split_and!; [done|done|done].
Qed.
