(* ===== verification/TxSystem.v ===== *)
(** * The transaction pool and its goroutines

    The pool, its scheduler, the background run, the callers of [addTxs] and the loop that
    follows the head, as one system: every step is what one goroutine does between two
    points where another can get in (the lock of the pool, a channel), and every sequence
    of steps is a run of the system.  Channels are unbuffered in the code; here a sender may
    go on, so that there are more runs. *)

From stdpp Require Import sorting.
From S2P Require Import Prelude Uint256 Wire Transaction Config Header Heap TxList TxListTheorems TxLookup TxPriced Ends TxPricedTheorems TxPool TxPoolBase TxPoolOps TxPoolAdd TxPoolPromote TxPoolDemote TxPoolLimits TxPoolRuns TxPoolTheorems TxSchedule.
Import TxsPoolConfig.

(** A call of [addTxs] that waits for the lock. *)
Record Call : Type := mkCall { call_errs : list (option PoolError); call_news : list Ptr; call_local : bool }.

Record System : Type := mkSystem {
  sys_pool : TxsPool;
  sys_sched : Schedule;
  sys_run : option Run;
  sys_calls : list Call;
  sys_promote : list accountSet.Accounts;
  sys_reset : option Request;
  sys_head : PoolBlock;
  sys_trace : list Output
}.

Definition set_pool (p : TxsPool) (s : System) : System := mkSystem p (sys_sched s) (sys_run s) (sys_calls s) (sys_promote s) (sys_reset s) (sys_head s) (sys_trace s).
Definition set_calls (calls : list Call) (s : System) : System := mkSystem (sys_pool s) (sys_sched s) (sys_run s) calls (sys_promote s) (sys_reset s) (sys_head s) (sys_trace s).
Definition set_promote (l : list accountSet.Accounts) (s : System) : System := mkSystem (sys_pool s) (sys_sched s) (sys_run s) (sys_calls s) l (sys_reset s) (sys_head s) (sys_trace s).
Definition set_reset (req : option Request) (head : PoolBlock) (s : System) : System := mkSystem (sys_pool s) (sys_sched s) (sys_run s) (sys_calls s) (sys_promote s) req head (sys_trace s).
Definition set_run (run : option Run) (s : System) : System := mkSystem (sys_pool s) (sys_sched s) run (sys_calls s) (sys_promote s) (sys_reset s) (sys_head s) (sys_trace s).

Inductive SysEvent : Type :=
| SysCall (txs : list Ptr) (local : bool)
| SysLock (i : nat)
| SysPending (enforceTips : bool)
| SysContent
| SysNonce (addr : Z)
| SysHead (block : PoolBlock)
| SysReset (block : PoolBlock)
| SysPromote (i : nat)
| SysTx
| SysLaunch
| SysRun
| SysDone.

(** The scheduler launches a run, which is a goroutine, if one is due. *)
Definition sys_launch (s : System) : System :=
  let '(sched, r) := launch (sys_sched s) in
  mkSystem (sys_pool s) sched (match r with Some r => Some r | None => sys_run s end) (sys_calls s) (sys_promote s) (sys_reset s) (sys_head s) (sys_trace s ++ launched r).

(** A turn of the scheduler. *)
Definition sys_turn (m : Message) (s : System) : outcome System :=
  let s := sys_launch s in
  '(sched, o) ← turn (txs_store (sys_pool s)) m (sys_sched s);
  Done (mkSystem (sys_pool s) sched (sys_run s) (sys_calls s) (sys_promote s) (sys_reset s) (sys_head s) (sys_trace s ++ o)).

Section System.
Context {U : Uint256}.
Context (iter : forall A : Type, list A -> list A) (Hash : Ptr -> Z) (Now : nat -> Z).
Context (config : Config) (chainconfig : ChainConfig) (bc : PoolChain).

(** [addTxs] up to the lock *)
Definition sys_call (txs : list Ptr) (local : bool) (s : System) : System :=
  let '(errs, news) := split_known Hash (all (sys_pool s)) txs in
  if (length news =? 0)%nat then s else set_calls (sys_calls s ++ [mkCall errs news local]) s.

(** [addTxs] from the lock on, up to the request *)
Definition sys_lock (i : nat) (s : System) : outcome System :=
  match sys_calls s !! i with
  | None => Done s
  | Some c =>
      '(newErrs, dirty, p) ← addTxsLocked iter Hash Now config (call_news c) (call_local c) (sys_pool s);
      _ ← merge_errs (call_errs c) newErrs 0;
      Done (set_promote (sys_promote s ++ [dirty]) (set_calls (delete i (sys_calls s)) (set_pool p s)))
  end.

Definition sys_op (op : PoolOp) (s : System) : outcome System :=
  '(_, p) ← perform iter Hash Now config chainconfig bc op (sys_pool s); Done (set_pool p s).

(** [blockChangeLoop] on an event: it reads the head and asks for a reset from the block it
    remembers. *)
Definition head_request (block : PoolBlock) (s : System) : System :=
  match sys_reset s with None => set_reset (Some (Some (sys_head s), block)) (sys_head s) s | Some _ => s end.

(** The request is answered; [blockChangeLoop] reads the head again and remembers it. *)
Definition head_answer (block : PoolBlock) (s : System) : outcome System :=
  match sys_reset s with None => Done s | Some req => s ← sys_turn (ReqReset req) s; Done (set_reset None block s) end.

(** A step that is not ready changes nothing. *)
Definition sys_step (e : SysEvent) (s : System) : outcome System :=
  match e with
  | SysCall txs local => Done (sys_call txs local s)
  | SysLock i => sys_lock i s
  | SysPending tips => sys_op (OpPending tips) s
  | SysContent => sys_op OpContent s
  | SysNonce a => sys_op (OpNonce a) s
  | SysHead b => Done (head_request b s)
  | SysReset b => head_answer b s
  | SysPromote i => match sys_promote s !! i with None => Done s | Some set => s ← sys_turn (ReqPromote set) s; Done (set_promote (delete i (sys_promote s)) s) end
  | SysTx => match queueTxEventCh (sys_pool s) with [] => Done s | tx :: txs => s ← sys_turn (TxEvent tx) s; Done (set_pool (set_events txs (sys_pool s)) s) end
  | SysLaunch => Done (sys_launch s)
  | SysRun => match sys_run s with None => Done s | Some r => s ← sys_op (OpRunReorg (run_reset r) (run_dirty r) (run_events r)) s; Done (set_run None s) end
  | SysDone => match sys_run s, curDone (sys_sched s) with None, Some _ => sys_turn RunDone s | _, _ => Done s end
  end.

(** Transactions have their pointers set, heads are blocks of the chain. *)
Definition event_ok (B : PoolBlock -> Prop) (s : System) (e : SysEvent) : Prop :=
  match e with
  | SysCall txs _ => Forall (good (txs_store (sys_pool s))) txs
  | SysHead b | SysReset b => B b
  | _ => True
  end.

(** No head takes a nonce back. *)
Definition event_forward (s : System) (e : SysEvent) : Prop :=
  match e with SysRun => forall r, sys_run s = Some r -> advances bc (currentState (sys_pool s)) (run_reset r) | _ => True end.

Definition sys_new (p : TxsPool) : System := mkSystem p new_schedule None [] [] None (CurrentBlock bc) [].

Inductive sys_reachable (st : Store) (B : PoolBlock -> Prop) (forward : bool) : System -> Prop :=
| sys_reach_new p : B (CurrentBlock bc) -> NewTxsPool iter Hash Now config chainconfig bc st = Done (Some p) -> sys_reachable st B forward (sys_new p)
| sys_reach_step s e s' : sys_reachable st B forward s -> event_ok B s e -> (forward = true -> event_forward s e) -> sys_step e s = Done s' -> sys_reachable st B forward s'.
End System.

(** ** The invariant *)

Notation fresh := (fun d : accountSet.Accounts => accountSet.cache d = None).
Notation nones errs := (length (base.filter (fun e : option PoolError => e = None) errs)).

(** What a run may be started with. *)
Record load_ok (B : PoolBlock -> Prop) (st : Store) (request : option Request) (dirty : option accountSet.Accounts) (events : Events) : Prop := {
  lo_request : request_ok B request;
  lo_dirty d : dirty = Some d -> fresh d;
  lo_events : events_ok st events
}.

Definition call_ok (st : Store) (c : Call) : Prop := Forall (good st) (call_news c) /\ (length (call_news c) <= nones (call_errs c))%nat.

Record sys_inv (Hash : Ptr -> Z) (st : Store) (B : PoolBlock -> Prop) (forward : bool) (s : System) : Prop := {
  si_sim : sim st (txs_store (sys_pool s));
  si_pool : exists P Q X, pool_inv Hash (mode_of forward) (sys_pool s) P Q X;
  si_sched : scheduled (sys_sched s) (sys_trace s);
  si_load : load_ok B (txs_store (sys_pool s)) (reset_request (sys_sched s)) (dirtyAccounts (sys_sched s)) (queuedEvents (sys_sched s));
  si_run r : sys_run s = Some r -> load_ok B (txs_store (sys_pool s)) (run_reset r) (run_dirty r) (run_events r) /\ Launched r ∈ sys_trace s /\ curDone (sys_sched s) = Some (run_done r);
  si_calls : Forall (call_ok (txs_store (sys_pool s))) (sys_calls s);
  si_promote : Forall fresh (sys_promote s);
  si_reset : request_ok B (sys_reset s);
  si_head : B (sys_head s)
}.

Lemma load_ok_sim B st st' request dirty events : sim st st' -> load_ok B st request dirty events -> load_ok B st' request dirty events.
Proof. intros S [H1 H2 H3]. split; [done|done|by eapply events_ok_sim]. Qed.

Lemma load_ok_none B st : load_ok B st None None ∅.
Proof. split; [by intros ? ? [=]|by intros ? [=]|by intros a m ?%lookup_empty_Some]. Qed.

Lemma call_ok_sim st st' c : sim st st' -> call_ok st c -> call_ok st' c.
Proof. intros S [H1 H2]. split; [|done]. eapply list.Forall_impl; [exact H1|]. intros t. by apply sim_good. Qed.

Lemma request_ok_merge B old req : request_ok B old -> request_ok B (Some req) -> request_ok B (Some (match old with None => req | Some old => (old.1, req.2) end)).
Proof.
  intros H1 H2. destruct old as [[o n]|]; [|done]. intros o' n' [= <- <-]. destruct req as [ro rn]. destruct (H1 o n eq_refl), (H2 ro rn eq_refl). done.
Qed.

(** A message that can be received. *)
Definition message_ok (B : PoolBlock -> Prop) (s : System) (m : Message) : Prop :=
  match m with
  | ReqReset req => request_ok B (Some req)
  | ReqPromote set => fresh set
  | TxEvent tx => good (txs_store (sys_pool s)) tx
  | RunDone => sys_run s = None /\ curDone (sys_sched s) <> None
  | Shutdown => False
  end.

Section Invariant.
Context (Hash : Ptr -> Z) (st : Store) (B : PoolBlock -> Prop) (forward : bool).
Notation sys_inv := (sys_inv Hash st B forward).

Lemma inv_set_pool p s : sys_inv s -> sim (txs_store (sys_pool s)) (txs_store p) -> (exists P Q X, pool_inv Hash (mode_of forward) p P Q X) -> sys_inv (set_pool p s).
Proof.
  intros [H1 H2 H3 H4 H5 H6 H7 H8 H9] S Hp. split; cbn; [by etransitivity|done|done|by eapply load_ok_sim| | |done|done|done].
  - intros r E. destruct (H5 r E) as [L ?]. split; [by eapply load_ok_sim|done].
  - eapply list.Forall_impl; [exact H6|]. intros c. by apply call_ok_sim.
Qed.

Lemma receive_ok m s sc : load_ok B (txs_store (sys_pool s)) (reset_request sc) (dirtyAccounts sc) (queuedEvents sc) -> message_ok B s m ->
  exists sc' d, receive (txs_store (sys_pool s)) m sc = Done (sc', d) /\ load_ok B (txs_store (sys_pool s)) (reset_request sc') (dirtyAccounts sc') (queuedEvents sc') /\ (m <> RunDone -> curDone sc' = curDone sc).
Proof.
  intros [H1 H2 H3] Hm. destruct m as [req|set|tx| |]; cbn in Hm; [| | | |done].
  - eexists _, _. split_and!; [done| |done]. split; [by apply request_ok_merge|done|done].
  - eexists _, _. split_and!; [done| |done]. split; [done| |done]. intros d [= <-]. by destruct (dirtyAccounts sc).
  - destruct (good_sender _ _ Hm) as (a & _ & Ea). destruct (event_put _ (queuedEvents sc) tx a Hm H3) as (r & m & E & Hev). cbn [receive]. rewrite Ea. cbn [mbind outcome_bind]. rewrite E.
    eexists _, _. split_and!; [done|by split|done].
  - eexists _, _. split_and!; [done|by split|done].
Qed.

Lemma sys_launch_inv s : sys_inv s -> sys_inv (sys_launch s).
Proof.
  intros H. pose proof (scheduled_launch _ _ (si_sched _ _ _ _ _ H)) as HL. unfold sys_launch, launch in *.
  assert (Hs : sys_inv (mkSystem (sys_pool s) (sys_sched s) (sys_run s) (sys_calls s) (sys_promote s) (sys_reset s) (sys_head s) (sys_trace s ++ []))) by (rewrite app_nil_r; by destruct s).
  destruct (curDone (sys_sched s)) as [c|]; [done|]. destruct (launchNextRun (sys_sched s)); [|done]. destruct H as [H1 H2 H3 H4 H5 H6 H7 H8 H9]. split; cbn in *; try done.
  intros r [= <-]. split_and!; [done|set_solver|done].
Qed.

Lemma launch_once s : launch (launch s).1 = ((launch s).1, None).
Proof. unfold launch. destruct (curDone s) eqn:Ec; cbn; [by rewrite Ec|]. destruct (launchNextRun s) eqn:El; cbn; [done|]. by rewrite Ec, El. Qed.

Lemma message_launch s m : message_ok B s m -> message_ok B (sys_launch s) m.
Proof.
  unfold sys_launch, launch. destruct m; try (destruct (curDone (sys_sched s)), (launchNextRun (sys_sched s)); done). intros [H1 H2]. cbn in *. destruct (curDone (sys_sched s)) eqn:Ec; [|done]. cbn. by rewrite Ec.
Qed.

Lemma sys_turn_ok m s : sys_inv s -> message_ok B s m -> exists s', sys_turn m s = Done s' /\ sys_inv s' /\ sys_pool s' = sys_pool s.
Proof.
  intros H%sys_launch_inv Hm%message_launch. assert (Ep : sys_pool (sys_launch s) = sys_pool s) by (unfold sys_launch; by destruct (launch (sys_sched s))).
  assert (Eo : launch (sys_sched (sys_launch s)) = (sys_sched (sys_launch s), None)) by (unfold sys_launch; pose proof (launch_once (sys_sched s)) as E; by destruct (launch (sys_sched s))).
  unfold sys_turn. rewrite <- Ep. generalize dependent (sys_launch s). intros s1 H Hm _ Eo. destruct H as [H1 H2 H3 H4 H5 H6 H7 H8 H9]. destruct (receive_ok m s1 _ H4 Hm) as (sc & d & E & Hload & Hcur).
  assert (exists o, turn (txs_store (sys_pool s1)) m (sys_sched s1) = Done (sc, o)) as [o Et] by (unfold turn; rewrite Eo, E; by eexists).
  rewrite Et. cbn. eexists. split_and!; [done| |done]. split; cbn; [done|done|by eapply scheduled_turn|done| |done|done|done|done].
  intros r Er. destruct (H5 r Er) as (G1 & G2 & G3). split_and!; [done|set_solver|]. rewrite Hcur; [done|]. intros ->. destruct Hm. congruence.
Qed.
End Invariant.

Section Total.
Context {U : Uint256} {UL : Uint256Laws U}.
Context (iter : forall A : Type, list A -> list A) (iter_perm : forall A (l : list A), iter A l ≡ₚ l) (Hash : Ptr -> Z) (Now : nat -> Z).
Context (config : Config) (cfg : config_ok config) (chainconfig : ChainConfig) (bc : PoolChain) (st : Store) (B : PoolBlock -> Prop) (HB : chain_ok chainconfig bc st B).
Notation sys_inv := (sys_inv Hash st B).
Notation sys_step := (sys_step iter Hash Now config chainconfig bc).
Notation run_op := (sys_op iter Hash Now config chainconfig bc).
Notation sys_reachable := (sys_reachable iter Hash Now config chainconfig bc st B).

Lemma sys_op_ok forward op s : sys_inv forward s -> op_ok B (sys_pool s) op -> (forward = true -> op_forward bc (sys_pool s) op) ->
  exists p, run_op op s = Done (set_pool p s) /\ sys_inv forward (set_pool p s).
Proof.
  intros H Hop Hf. pose proof H as [S (P & Q & X & Hp) _ _ _ _ _ _ _].
  destruct (perform_ends iter iter_perm Hash Now config cfg chainconfig bc B forward op (sys_pool s) P Q X (chain_ok_sim _ _ _ _ _ S HB) Hp Hop Hf) as ([] & p & E & S' & Hp').
  exists p. unfold sys_op. rewrite E. split; [done|]. by apply inv_set_pool.
Qed.

(** The sets of accounts of a batch have not been flattened. *)
Lemma add_each_fresh txs local : forall errs dirty p errs' dirty' p', add_each iter Hash Now config txs local errs dirty p = Done (errs', dirty', p') -> fresh dirty -> fresh dirty'.
Proof.
  induction txs as [|t txs IH]; intros errs dirty p errs' dirty' p' E Hd; cbn [add_each] in E; [by injection E as <- <- <-|].
  unfold mbind at 1, M_bind at 1 in E. destruct (add _ _ _ _ t local p) as [[[replaced err] p1]| |]; [|done|done]. cbv beta match in E. unfold get, mbind at 1, M_bind at 1 in E. cbv beta match in E. destruct (bool_decide (err = None) && negb replaced).
  - unfold outcome_to_M, accountSet.addTx, mbind, M_bind in E. destruct (sender (txs_store p1) t) as [a| |]; cbn in E; [|done|done]. by eapply IH.
  - unfold mbind, M_bind, mret, M_ret in E. by eapply IH.
Qed.

Lemma sys_call_inv forward txs local s : sys_inv forward s -> Forall (good (txs_store (sys_pool s))) txs -> sys_inv forward (sys_call Hash txs local s).
Proof.
  intros H Hg. unfold sys_call. pose proof (split_known_spec Hash (all (sys_pool s)) txs) as Hs. destruct (split_known Hash (all (sys_pool s)) txs) as [errs news]. destruct Hs as [-> ->].
  destruct (_ =? _)%nat; [done|]. destruct H as [H1 H2 H3 H4 H5 H6 H7 H8 H9]. split; cbn; try done. apply Forall_app. split; [done|]. constructor; [|done]. split; cbn.
  - apply list.Forall_forall. intros x [_ Hx]%list_elem_of_filter. rewrite list.Forall_forall in Hg. by apply Hg.
  - by rewrite nones_known.
Qed.

Lemma sys_lock_ok forward i s : sys_inv forward s -> exists s', sys_lock iter Hash Now config i s = Done s' /\ sys_inv forward s'.
Proof.
  intros H. unfold sys_lock. destruct (sys_calls s !! i) as [c|] eqn:Ec; [|by exists s]. pose proof H as [S (P & Q & X & Hp) _ _ _ Hc _ _ _].
  assert (Hci : call_ok (txs_store (sys_pool s)) c) by (rewrite list.Forall_forall in Hc; apply Hc; by eapply list_elem_of_lookup_2). destruct Hci as [Hg Hl].
  destruct (addTxsLocked_ends iter iter_perm Hash Now config cfg (mode_of forward) (call_news c) (call_local c) (sys_pool s) P Q X Hp Hg) as ([newErrs dirty] & p & E & [K _ _] & El & P' & Q' & X' & Hp' & _).
  pose proof (merge_errs_spec newErrs [] (call_errs c) ltac:(lia)) as Em. cbn [app length] in Em. rewrite E. cbn [mbind outcome_bind]. rewrite Em. cbn. eexists. split; [done|].
  assert (Hd : fresh dirty) by (eapply add_each_fresh; [exact E|done]). pose proof (inv_set_pool Hash st B forward p s H K ltac:(by exists P', Q', X')) as [G1 G2 G3 G4 G5 G6 G7 G8 G9].
  split; cbn; [done|done|done|done|done| | |done|done].
  - by apply Forall_delete.
  - apply Forall_app. split; [done|]. by constructor.
Qed.

Lemma sys_tx_ok forward s : sys_inv forward s -> exists s', sys_step SysTx s = Done s' /\ sys_inv forward s'.
Proof.
  intros H. cbn [TxSystem.sys_step]. destruct (queueTxEventCh (sys_pool s)) as [|tx txs] eqn:Eq; [by exists s|]. pose proof H as [_ (P & Q & X & Hp) _ _ _ _ _ _ _].
  pose proof (pk_events _ _ _ _ _ (pv_ok _ _ _ _ _ _ Hp)) as He. rewrite Eq in He. inversion He as [|? ? Ht Hts]; subst.
  destruct (sys_turn_ok Hash st B forward (TxEvent tx) s H Ht) as (s1 & E & H1 & E1). rewrite E. cbn. eexists. split; [done|]. rewrite E1. apply inv_set_pool; [done|by rewrite E1|].
  exists P, Q, X. eapply inv_quiet; [exact Hp| |by split]. by destruct (pv_ok _ _ _ _ _ _ Hp).
Qed.

Lemma sys_run_ok forward s r : sys_inv forward s -> sys_run s = Some r -> (forward = true -> advances bc (currentState (sys_pool s)) (run_reset r)) ->
  exists s', sys_step SysRun s = Done s' /\ sys_inv forward s'.
Proof.
  intros H Er Hf. cbn [TxSystem.sys_step]. rewrite Er. destruct (si_run _ _ _ _ _ H r Er) as ([L1 L2 L3] & _).
  destruct (sys_op_ok forward (OpRunReorg (run_reset r) (run_dirty r) (run_events r)) s H ltac:(done) Hf) as (p & E & [H1 H2 H3 H4 H5 H6 H7 H8 H9]). rewrite E. cbn. eexists. split; [done|]. by split.
Qed.

Lemma sys_step_ok forward e s : sys_inv forward s -> event_ok B s e -> (forward = true -> event_forward bc s e) -> exists s', sys_step e s = Done s' /\ sys_inv forward s'.
Proof.
  intros H He Hf. assert (Hread : forall op, op_ok B (sys_pool s) op -> (forward = true -> op_forward bc (sys_pool s) op) -> exists s', run_op op s = Done s' /\ sys_inv forward s').
  { intros op Hop Hf'. destruct (sys_op_ok forward op s H Hop Hf') as (p & E & Hp). by eexists. }
  destruct e as [txs local|i|tips| |a|b|b|i| | | |]; [| | | | | | | |by apply sys_tx_ok|eexists; split; [done|by apply sys_launch_inv]| |]; cbn [TxSystem.sys_step event_ok event_forward] in *.
  - eexists. split; [done|]. by apply sys_call_inv.
  - by apply sys_lock_ok.
  - by apply Hread.
  - by apply Hread.
  - by apply Hread.
  - eexists. split; [done|]. unfold head_request. destruct (sys_reset s) eqn:Er; [done|]. destruct H as [H1 H2 H3 H4 H5 H6 H7 H8 H9]. split; try done. cbn. intros o n [= <- <-]. split; [by intros ? [= <-]|done].
  - unfold head_answer. destruct (sys_reset s) as [req|] eqn:Er; [|by exists s]. destruct (sys_turn_ok Hash st B forward (ReqReset req) s H) as (s1 & E & [H1 H2 H3 H4 H5 H6 H7 H8 H9] & _); [cbn; rewrite <- Er; apply H|].
    rewrite E. cbn. eexists. split; [done|]. split; try done.
  - destruct (sys_promote s !! i) as [set|] eqn:Ei; [|by exists s]. destruct (sys_turn_ok Hash st B forward (ReqPromote set) s H) as (s1 & E & [H1 H2 H3 H4 H5 H6 H7 H8 H9] & _).
    { pose proof (si_promote _ _ _ _ _ H) as Hp. rewrite list.Forall_forall in Hp. apply Hp. by eapply list_elem_of_lookup_2. }
    rewrite E. cbn. eexists. split; [done|]. split; try done. cbn. by apply Forall_delete.
  - destruct (sys_run s) as [r|] eqn:Er; [|by exists s]. pose proof (sys_run_ok forward s r H Er) as G. cbn in G. rewrite Er in G. apply G. intros Ht. by apply Hf.
  - destruct (sys_run s) as [r|] eqn:Er; [by exists s|]. destruct (curDone (sys_sched s)) eqn:Ec; [|by exists s].
    destruct (sys_turn_ok Hash st B forward RunDone s H) as (s1 & E & H1 & _); [split; [done|by rewrite Ec]|]. by exists s1.
Qed.

Lemma sys_reachable_inv forward s : sys_reachable forward s -> sys_inv forward s.
Proof.
  induction 1 as [p Hb E|s e s' _ IH He Hf E].
  - destruct (NewTxsPool_ok iter iter_perm Hash Now config cfg chainconfig bc st B p HB E) as [E0 Hp]. split; cbn; try done.
    + by rewrite E0.
    + exists ∅, ∅, ∅. destruct forward; [done|]. by eapply inv_None.
    + apply scheduled_new.
  - destruct (sys_step_ok forward e s IH He Hf) as (s1 & E1 & H1). rewrite E1 in E. by injection E as <-.
Qed.

(** C6: no interleaving brings the pool down.  Callers add batches, each first looking up
    what is known without the lock; the head moves, while requests of earlier heads wait;
    the scheduler merges requests and launches runs; a run works on what it was given
    while more arrives.  Whatever the order of these steps, the next one comes to an end
    without a panic, and every run starts with heads of the chain and with events whose
    lists are in order. *)
Theorem system_total s e : sys_reachable false s -> event_ok B s e ->
  (exists s', sys_step e s = Done s') /\
  (forall r, sys_run s = Some r -> request_ok B (run_reset r) /\ events_ok (txs_store (sys_pool s)) (run_events r) /\ curDone (sys_sched s) = Some (run_done r)).
Proof.
  intros Hr He. pose proof (sys_reachable_inv false s Hr) as H. split.
  - destruct (sys_step_ok false e s H He ltac:(done)) as (s' & E & _). by exists s'.
  - intros r Er. by destruct (si_run _ _ _ _ _ H r Er) as ([L1 _ L3] & _ & Ec).
Qed.

(** C16: whoever waits for the channel that answered a promotion request finds the work
    done.  When a run that is not for a new head ends, whatever the order of the steps before
    it and whichever heads the chain had, then for every request that was answered with its
    channel and every account of that request, what is left in the queue lies beyond the
    nonce that the pool answers as the next, and within the limit for a remote account. *)
Theorem promotion_served s r : sys_reachable false s -> sys_run s = Some r -> run_reset r = None ->
  exists s', sys_step SysRun s = Done s' /\ forall set a l, Answered (ReqPromote set) (run_done r) ∈ sys_trace s -> a ∈ accountSet.accounts set -> queue (sys_pool s') !! a = Some l ->
    (forall n t, txsSortedMap.Get n (txsList.txs l) = Some t -> nonce_of a (sys_pool s') < n) /\
    (accountSet.contains a (locals (sys_pool s')) = false -> txsList.Len l <= AccountQueue config).
Proof.
  intros Hr Er En. pose proof (sys_reachable_inv false s Hr) as H. destruct (si_run _ _ _ _ _ H r Er) as ([L1 L2 L3] & Hl & _). pose proof H as [S (P & Q & X & Hp) Hsc _ _ _ _ _ _].
  destruct (sd_runs _ _ Hsc r Hl) as (_ & _ & [_ Mn Md]). cbn [TxSystem.sys_step]. rewrite Er, En. unfold sys_op. cbn [perform].
  destruct (runReorg_ends iter iter_perm Hash Now config cfg chainconfig bc None eq_refl B None (run_dirty r) (run_events r) (sys_pool s) P Q X (chain_ok_sim _ _ _ _ _ S HB) ltac:(done) Hp ltac:(done) L3)
    as (res & p' & E & _ & P' & Q' & X' & [[_ H2 _ _ _ _ _] _ _ _ _] & _ & _ & Hs).
  unfold mbind, M_bind. rewrite E. cbn. eexists. split; [done|]. cbn. intros set a l Ha Hin El.
  assert (Hset : set ∈ promotes (answers (run_done r) (sys_trace s))).
  { apply list.list_elem_of_omap. exists (ReqPromote set). split; [|done]. apply list.list_elem_of_omap. eexists. split; [exact Ha|]. cbn. by rewrite decide_True. }
  assert (Hask : asks (run_dirty r) a).
  { destruct (run_dirty r) as [d|]; [|rewrite (proj1 Mn eq_refl) in Hset; by apply elem_of_nil in Hset]. split; [by apply L2|]. rewrite (Md d eq_refl). unfold all_accounts.
    apply elem_of_union_list. exists (accountSet.accounts set). split; [|done]. by apply list_elem_of_fmap_2. }
  destruct (Hs eq_refl a Hask) as [S1 S2]. split.
  - intros n t Eg. assert (Hn : n ∈ (fun t => tx_Nonce (txs_store p' t)) <$> txs_at Q' a) by (apply (listed_Get _ _ _ _ _ _ H2); by exists l, t).
    apply elem_of_nonces in Hn as (x & Hx & <-). rewrite nonce_of_next. by apply S1.
  - intros Hc. specialize (S2 Hc). unfold txs_at in S2. destruct (reps_Some _ _ _ _ _ _ H2 El) as (ts & Ets & _ & Hw & _). rewrite Ets in S2. by rewrite (Len_wf (V := txs_store p') _ _ Hw).
Qed.
End Total.
