(* ===== verification/TxPoolExamples.v ===== *)
(** * The transaction pool: concrete runs

    A chain of a block and two children, an account that sends transactions, a pool that
    follows the head, and what a change of branch does to it; then runs of the scheduler
    and of the whole system. *)

From stdpp Require Import sorting.
From S2P Require Import Prelude Uint256 Wire Transaction Config Header Heap TxList TxListTheorems TxLookup TxPriced TxPool TxPoolBase TxPoolAdd TxPoolDemote TxPoolRuns TxPoolTheorems TxSchedule TxSystem.
Import TxsPoolConfig.

Section Run.
#[local] Existing Instances ref_uint256 uint256.ref_uint256_laws.
Notation in_order := (fun (A : Type) (l : list A) => l).

(** Transaction [n] has nonce [n]; the one with nonce 4 offers no price. *)
Definition sample_store : Store := fun p => pool_tx (Z.of_N p) (if (p =? 4)%N then 0 else 10) 21000 5.
Definition sample_hash (p : Ptr) : Z := 1000 + Z.of_N p.

(** Account 1 has nonce [n], and everyone enough to pay. *)
Definition sample_state (n : Z) : ChainState := mkChainState (fun a => if a =? 1 then n else 0) (fun _ => 10 ^ 18).

Definition old_block : PoolBlock := mkPoolBlock 100 (sample_header 99 7 0) [].
Definition left_block : PoolBlock := mkPoolBlock 101 (sample_header 100 8 0) [3%N; 4%N].
Definition right_block : PoolBlock := mkPoolBlock 201 (sample_header 100 8 1) [].
Definition sample_blocks (b : PoolBlock) : Prop := b = old_block \/ b = left_block \/ b = right_block.

Definition pool_chain : PoolChain := mkPoolChain
  (fun h => if h =? 100 then Some old_block else if h =? 101 then Some left_block else if h =? 201 then Some right_block else None)
  left_block
  (fun h => if h =? 100 then Some (sample_state 3) else if h =? 101 then Some (sample_state 5) else if h =? 201 then Some (sample_state 3) else None).

Definition pool_config : Config := DefaultTxPoolConfig.
Notation pool_reachable := (reachable in_order sample_hash Z.of_nat pool_config AmazeChainConfig pool_chain sample_store sample_blocks).
Notation pool_perform := (perform in_order sample_hash Z.of_nat pool_config AmazeChainConfig pool_chain).

(** The pool at the left block. *)
Definition pool0 : TxsPool := mkPool (sample_state 5) (txNoncer.newTxNoncer (sample_state 5)) 30000000 true true true false (accountSet.newAccountSet []) ∅ ∅ ∅ txLookup.newTxLookup
  txPricedList.newTxPricedList 1 0 sample_store 0 [].

Definition exec (op : PoolOp) (p : TxsPool) : TxsPool := match pool_perform op p with Done (_, p) => p | _ => p end.

Definition dirty1 : accountSet.Accounts := accountSet.mkAccounts {[1]} None.

(** Three transactions arrive, two of them can be executed; then the head moves to the
    right block, on which the account has an older nonce. *)
Definition pool1 : TxsPool := exec (OpAddRemotes [5%N; 6%N; 8%N]) pool0.
Definition pool2 : TxsPool := exec (OpRunReorg None (Some dirty1) ∅) pool1.
Definition pool3 : TxsPool := exec (OpRunReorg (Some (Some left_block, right_block)) None ∅) pool2.

(** The nonces in the list of account 1. *)
Definition nonces_in (m : gmap Z PoolList) : list Z := match m !! 1 with Some l => merge_sort Z.le (map_to_list (txsSortedMap.items (txsList.txs l))).*1 | None => [] end.

Lemma sample_good p : is_address p -> good sample_store p.
Proof.
  intros Hp. unfold is_address in Hp. split; [|by eexists|done|cbn; lia]. assert (Hw : word (if (p =? 4)%N then 0 else 10)) by (destruct (p =? 4)%N; unfold word; lia).
  split; cbn; [by eexists|by eexists|exists 5; split; [done|unfold word; lia]|lia|lia].
Qed.

Lemma pool_config_ok : config_ok pool_config.
Proof. split; cbn; lia. Qed.

Lemma pool_chain_ok : chain_ok AmazeChainConfig pool_chain sample_store sample_blocks.
Proof.
  split.
  - intros b q [->|[->| ->]] [= <-]; (split; [by left|done]).
  - intros b [->|[->| ->]]; cbn; lia.
  - intros b [->|[->| ->]]; repeat constructor; by apply sample_good.
  - intros b [->|[->| ->]] _; cbn; (split; [exists 1000; split; [done|lia]|lia]).
  - intros h cs E. cbn in E. repeat (destruct (h =? _); [injection E as <-; intros a; cbn; split; [destruct (a =? 1); lia|unfold word; lia]|]). done.
Qed.

Lemma reach0 forward : pool_reachable forward pool0.
Proof. constructor. vm_compute. reflexivity. Qed.

Lemma reach_exec forward op p : pool_reachable forward p -> op_ok sample_blocks p op -> (forward = true -> op_forward pool_chain p op) -> pool_reachable forward (exec op p).
Proof.
  intros Hr Hop Hf. destruct (reachable_inv in_order (fun A l => reflexivity l) _ _ _ pool_config_ok _ _ _ _ _ _ pool_chain_ok Hr) as [S (P & Q & X & H)].
  destruct (perform_ends in_order (fun A l => reflexivity l) _ Z.of_nat _ pool_config_ok _ _ _ forward op p P Q X (chain_ok_sim _ _ _ _ _ S pool_chain_ok) H Hop Hf) as ([] & p' & E & _).
  apply (reach_op _ _ _ _ _ _ _ _ _ p op); [done|done|done|]. unfold exec. by rewrite E.
Qed.

Lemma no_events st : events_ok st ∅.
Proof. by intros a m ?%lookup_empty_Some. Qed.

Lemma right_request : request_ok sample_blocks (Some (Some left_block, right_block)).
Proof. intros old new [= <- <-]. split; [intros b [= <-]; right; by left|by right; right]. Qed.

Lemma reach1 forward : pool_reachable forward pool1.
Proof. apply (reach_exec forward (OpAddRemotes [5%N; 6%N; 8%N]) pool0); [apply reach0| |done]. repeat constructor; by apply sample_good. Qed.

Lemma reach2 forward : pool_reachable forward pool2.
Proof. apply (reach_exec forward (OpRunReorg None (Some dirty1) ∅) pool1); [apply reach1|split; [done|apply no_events]|]. intros _ old new cs [=]. Qed.

Lemma reach3 : pool_reachable false pool3.
Proof. apply (reach_exec false (OpRunReorg (Some (Some left_block, right_block)) None ∅) pool2); [apply reach2|split; [apply right_request|apply no_events]|intros [=]]. Qed.

Example pool2_lists : (nonces_in (pending pool2), nonces_in (queue pool2), nonce_of 1 pool2) = ([5; 6], [8], 7).
Proof. vm_compute. reflexivity. Qed.

(** A change of branch can leave a gap between pending transactions.  The head moves to
    a block on which the account has an older nonce; of the two transactions that come
    back one is refused for its price, the other is promoted in front of those that were
    pending, and the check for a gap looks only at the first.  The pool then reports the
    nonce after the last transaction as the next. *)
Theorem pending_gap : pool_reachable false pool3 /\ GetNonce (currentState pool3) 1 = 3 /\ nonces_in (pending pool3) = [3; 5; 6] /\ nonces_in (queue pool3) = [8] /\ nonce_of 1 pool3 = 7.
Proof. split; [apply reach3|]. vm_compute. split_and!; reflexivity. Qed.

(** A comparison of two transactions in a heap with a base fee changes their prices: 800
    units are taken from a legacy transaction that offers 1000. *)
Example comparison_changes_price :
  let st : Store := fun _ => pool_tx 0 1000 21000 5 in
  match priceHeap.cmp (Some 800) 0%N 1%N st with Done (_, st) => (tx_GasPrice (st 0%N), tx_GasPrice (st 1%N), tx_GasPrice (st 2%N)) | _ => (None, None, None) end
  = (Some 200, Some 200, Some 1000).
Proof. vm_compute. reflexivity. Qed.

Notation ordered := (fun (A : Type) (l : list A) => reflexivity l).

Lemma pool_total_witness : exists p', pool_perform (OpRunReorg (Some (Some left_block, right_block)) None ∅) pool2 = Done ((), p').
Proof.
  apply (pool_total in_order ordered sample_hash Z.of_nat pool_config pool_config_ok AmazeChainConfig pool_chain sample_store sample_blocks pool_chain_ok pool2 _ (reach2 false)).
  split; [apply right_request|apply no_events].
Defined.

Lemma pool_consistent_witness : count_in in_order (pending pool2) + count_in in_order (queue pool2) = txLookup.Slots (all pool2).
Proof. apply (pool_consistent in_order ordered sample_hash Z.of_nat pool_config pool_config_ok AmazeChainConfig pool_chain sample_store sample_blocks pool_chain_ok pool2 (reach2 false)). Defined.

Lemma pending_contiguous_witness :
  (exists l t, pending pool2 !! 1 = Some l /\ txsSortedMap.Get 6 (txsList.txs l) = Some t) <-> GetNonce (currentState pool2) 1 <= 6 < nonce_of 1 pool2.
Proof. apply (pending_contiguous in_order ordered sample_hash Z.of_nat pool_config pool_config_ok AmazeChainConfig pool_chain sample_store sample_blocks pool_chain_ok pool2 (reach2 true) 1 6). Defined.

Lemma runReorg_limits_witness : exists r p', runReorg in_order sample_hash Z.of_nat pool_config AmazeChainConfig pool_chain (Some (Some left_block, right_block)) None ∅ pool2 = Done (r, p') /\
  forall a, accountSet.contains a (locals p') = false ->
    (5120 < count_in in_order (pending p') -> forall l, pending p' !! a = Some l -> txsList.Len l <= 16) /\ (1024 < count_in in_order (queue p') -> queue p' !! a = None).
Proof.
  apply (runReorg_limits in_order ordered sample_hash Z.of_nat pool_config pool_config_ok AmazeChainConfig pool_chain sample_store sample_blocks pool_chain_ok pool2 _ None ∅ (reach2 false) right_request (no_events _)).
Defined.

Lemma runReorg_promotes_witness : exists r p', runReorg in_order sample_hash Z.of_nat pool_config AmazeChainConfig pool_chain None (Some dirty1) ∅ pool1 = Done (r, p') /\
  forall a l, a ∈ accountSet.accounts dirty1 -> queue p' !! a = Some l ->
    (forall n t, txsSortedMap.Get n (txsList.txs l) = Some t -> nonce_of a p' < n) /\ (accountSet.contains a (locals p') = false -> txsList.Len l <= 64).
Proof.
  apply (runReorg_promotes in_order ordered sample_hash Z.of_nat pool_config pool_config_ok AmazeChainConfig pool_chain sample_store sample_blocks pool_chain_ok pool1 dirty1 ∅ (reach1 false) (no_events _) eq_refl).
Defined.

Lemma reset_fronts_witness : exists r p', runReorg in_order sample_hash Z.of_nat pool_config AmazeChainConfig pool_chain (Some (Some left_block, right_block)) None ∅ pool2 = Done (r, p') /\
  forall a l, pending p' !! a = Some l -> (exists t, txsSortedMap.Get (GetNonce (currentState p') a) (txsList.txs l) = Some t) /\
    (forall n t, txsSortedMap.Get n (txsList.txs l) = Some t -> GetNonce (currentState p') a <= n).
Proof.
  apply (reset_fronts in_order ordered sample_hash Z.of_nat pool_config pool_config_ok AmazeChainConfig pool_chain sample_store sample_blocks pool_chain_ok pool2 _ _ None ∅ (reach2 false) right_request (no_events _)).
Defined.

Lemma addTxs_answers_witness : exists r p', addTxs in_order sample_hash Z.of_nat pool_config [5%N; 7%N] false pool0 = Done (r, p') /\ length (errors r) = 2%nat /\
  (forall i t, [5%N; 7%N] !! i = Some t -> Has (sample_hash t) pool0 = true -> errors r !! i = Some (Some ErrAlreadyKnown)) /\
  (forall h t, GetTx h p' = Some t -> GetTx h pool0 = Some t \/ t ∈ [5%N; 7%N]).
Proof.
  apply (addTxs_answers in_order ordered sample_hash Z.of_nat pool_config pool_config_ok AmazeChainConfig pool_chain sample_store sample_blocks pool_chain_ok pool0 [5%N; 7%N] false (reach0 false)).
  repeat constructor; by apply sample_good.
Defined.

(** *** The scheduler *)

(** Two requests; the second finds a run active and waits for its end. *)
Definition messages : list Message := [ReqPromote dirty1; ReqReset (Some left_block, right_block); ReqPromote dirty1; RunDone; ReqPromote dirty1; Shutdown].

(** What the outputs are about, with the number of the channel. *)
Definition brief (o : Output) : nat * nat := match o with Launched r => (0, run_done r) | Answered _ d => (1, d) | Ended => (2, 0) | Closed d => (3, d) end%nat.

Example messages_run :
  match scheduleLoop sample_store messages new_schedule [] with Done (_, outs) => map brief outs | _ => [] end
  = [(1, 0); (0, 0); (1, 1); (1, 1); (2, 0); (0, 1); (1, 2); (2, 0); (3, 2)]%nat.
Proof. vm_compute. reflexivity. Qed.

Lemma schedule_serves_witness : match scheduleLoop sample_store messages new_schedule [] with
  | Done (s, outs) => alternates false outs = Some (bool_decide (curDone s <> None)) /\ (forall r, Launched r ∈ outs -> merged (run_reset r) (run_dirty r) (answers (run_done r) outs))
  | _ => False
  end.
Proof.
  destruct (scheduleLoop sample_store messages new_schedule []) as [[s outs]| |] eqn:E; [|vm_compute in E; discriminate..].
  destruct (schedule_serves sample_store messages s outs E) as (H1 & H2 & _). exact (conj H1 H2).
Defined.

(** *** The system *)

Notation sample_reachable := (sys_reachable in_order sample_hash Z.of_nat pool_config AmazeChainConfig pool_chain sample_store sample_blocks).
Notation sample_step := (sys_step in_order sample_hash Z.of_nat pool_config AmazeChainConfig pool_chain).

Definition sys_exec (s : System) (e : SysEvent) : System := match sample_step e s with Done s => s | _ => s end.
Definition sys_execs (es : list SysEvent) : System := foldl sys_exec (sys_new pool_chain pool0) es.

(** Any transactions and blocks; no run for the heads that only move forward. *)
Definition fair (forward : bool) (e : SysEvent) : Prop :=
  match e with
  | SysCall txs _ => Forall is_address txs
  | SysHead b | SysReset b => sample_blocks b
  | SysRun => forward = false
  | _ => True
  end.

Lemma sys_reach_execs forward es : Forall (fair forward) es -> sample_reachable forward (sys_execs es).
Proof.
  unfold sys_execs. assert (H0 : sample_reachable forward (sys_new pool_chain pool0)) by (constructor; [right; by left|vm_compute; reflexivity]).
  revert H0. generalize (sys_new pool_chain pool0). induction es as [|e es IH]; intros s Hr Hes; [done|]. inversion Hes as [|? ? He Hes']; subst. cbn [foldl]. apply IH; [|done].
  pose proof (sys_reachable_inv in_order ordered sample_hash Z.of_nat pool_config pool_config_ok AmazeChainConfig pool_chain sample_store sample_blocks pool_chain_ok forward s Hr) as Hi.
  assert (Hok : event_ok sample_blocks s e).
  { destruct e; try done. cbn in *. eapply list.Forall_impl; [exact He|]. intros t Ht. eapply sim_good; [apply Hi|by apply sample_good]. }
  assert (Hf : forward = true -> event_forward pool_chain s e) by (intros ->; by destruct e).
  destruct (sys_step_ok in_order ordered sample_hash Z.of_nat pool_config pool_config_ok AmazeChainConfig pool_chain sample_store sample_blocks pool_chain_ok forward e s Hi Hok Hf) as (s' & E & _).
  apply (sys_reach_step _ _ _ _ _ _ _ _ _ s e); [done|done|done|]. unfold sys_exec. by rewrite E.
Qed.

(** A batch is added and its request has launched a run, while another batch arrives. *)
Definition batch_events : list SysEvent := [SysCall [5%N; 6%N; 8%N] false; SysLock 0; SysPromote 0; SysLaunch; SysCall [7%N] false].

Lemma batch_reachable forward : sample_reachable forward (sys_execs batch_events).
Proof. apply sys_reach_execs. repeat constructor. Qed.

Lemma system_total_witness : exists s', sample_step SysRun (sys_execs batch_events) = Done s'.
Proof. apply (system_total in_order ordered sample_hash Z.of_nat pool_config pool_config_ok AmazeChainConfig pool_chain sample_store sample_blocks pool_chain_ok _ SysRun (batch_reachable false) I). Defined.

Definition batch_run : Run := mkRun 0 None (Some dirty1) ∅.

Lemma promotion_served_witness : exists s', sample_step SysRun (sys_execs batch_events) = Done s' /\ forall set a l, Answered (ReqPromote set) 0 ∈ sys_trace (sys_execs batch_events) ->
  a ∈ accountSet.accounts set -> queue (sys_pool s') !! a = Some l ->
    (forall n t, txsSortedMap.Get n (txsList.txs l) = Some t -> nonce_of a (sys_pool s') < n) /\ (accountSet.contains a (locals (sys_pool s')) = false -> txsList.Len l <= 64).
Proof.
  apply (promotion_served in_order ordered sample_hash Z.of_nat pool_config pool_config_ok AmazeChainConfig pool_chain sample_store sample_blocks pool_chain_ok _ batch_run (batch_reachable false)); [|reflexivity].
  vm_compute. reflexivity.
Defined.

(** The head moves to the right block between the two reads of [blockChangeLoop]. *)
Definition missed_events : list SysEvent :=
  [SysHead left_block; SysReset right_block; SysLaunch; SysRun; SysDone; SysHead right_block; SysReset right_block; SysLaunch; SysRun; SysDone].

(** The loop that follows the head can miss a change of branch.  It reads the current
    block twice, once for the request and once to remember it; if the head moves in
    between, the next request goes from the new head to itself.  Everything has come to
    rest, the pool is at the new head, and transaction 3 of the block that was left is not
    in the pool; a request from the old head to the new one brings it back. *)
Theorem head_change_missed : let s := sys_execs missed_events in
  sample_reachable false s /\ sys_run s = None /\ sys_reset s = None /\ launchNextRun (sys_sched s) = false /\ sys_head s = right_block /\
  GetNonce (currentState (sys_pool s)) 1 = 3 /\ Has (sample_hash 3%N) (sys_pool s) = false /\ Has (sample_hash 3%N) pool3 = true.
Proof.
  split; [|vm_compute; split_and!; reflexivity]. apply sys_reach_execs. repeat constructor; cbn; unfold sample_blocks; tauto.
Qed.
End Run.
