(* ===== verification/Chain.v ===== *)
(** * Chain management ([internal/blockchain.go])

    The tables of the chain ([modules/rawdb/accessors_chain.go], [accessors_indexes.go]),
    the choice between branches ([internal/forkchoice.go]), the validation of bodies
    ([internal/block_validator.go]), the iterator over a batch
    ([internal/blockchain_insert.go]) and the import of a batch with its reorganisations.

    A table is a map from its keys to what was encoded.  A block is the content of its
    header and the hashes of its transactions; [Number64] hands out the address of the
    number, which the code compares at one place, so a block has an address as well, and
    reading one from the database allocates.  [BlockHash] is the hash of a block.  In the
    code it is the hash of the header alone ([common/block/header.go]); the body is tied to
    it by the root of the transactions, one of its fields, so two contents with the same
    header and different transactions are taken for a collision here.  The fields of a
    header that are hashed and not read by this code are one value, [c_Rest].

    Outside of the model, and parameters: the engine's verdict on a header, the execution
    of a block with the check of its results (an error, or whether there are receipts),
    the BLS library, the coin of the fork choice, the stop flag that another goroutine can
    set at any time, the clock, what the caches forget, which keys the store lets a table
    append (logs and receipts of a block are appended together, the keys of the logs never
    above those of the receipts), and what it does with a transaction that was committed.
    What can differ from one time to the next is numbered by a counter; the caches forget
    by one function of what they hold, of which only that it adds nothing is used. *)

From stdpp Require Import gmap.
From S2P Require Import Prelude Uint256.

(** ** Blocks and tables *)

Record Content : Type := mkContent {
  c_ParentHash : Z;
  c_Number : Z;
  c_Difficulty : Z;
  c_Time : Z;
  c_Root : Z;
  c_TxHash : Z;
  c_Rest : Z;
  c_txs : list Z
}.

Record Blk : Type := mkBlk { content : Content; address : N }.

Definition num (c : Content) : Z := u64 (c_Number c).

Record ChainDB : Type := mkDB {
  t_blocks : gmap (Z * Z) Content;
  t_numbers : gmap Z Z;
  t_canonical : gmap Z Z;
  t_td : gmap (Z * Z) Z;
  t_head : Z;
  t_lookup : gmap Z Z;
  t_receipts : gset Z
}.

Definition with_blocks (b : gmap (Z * Z) Content) (n : gmap Z Z) (d : ChainDB) : ChainDB := mkDB b n (t_canonical d) (t_td d) (t_head d) (t_lookup d) (t_receipts d).
Definition with_canonical (m : gmap Z Z) (d : ChainDB) : ChainDB := mkDB (t_blocks d) (t_numbers d) m (t_td d) (t_head d) (t_lookup d) (t_receipts d).
Definition with_td (m : gmap (Z * Z) Z) (d : ChainDB) : ChainDB := mkDB (t_blocks d) (t_numbers d) (t_canonical d) m (t_head d) (t_lookup d) (t_receipts d).
Definition with_head (h : Z) (d : ChainDB) : ChainDB := mkDB (t_blocks d) (t_numbers d) (t_canonical d) (t_td d) h (t_lookup d) (t_receipts d).
Definition with_lookup (m : gmap Z Z) (d : ChainDB) : ChainDB := mkDB (t_blocks d) (t_numbers d) (t_canonical d) (t_td d) (t_head d) m (t_receipts d).
Definition with_receipts (r : gset Z) (d : ChainDB) : ChainDB := mkDB (t_blocks d) (t_numbers d) (t_canonical d) (t_td d) (t_head d) (t_lookup d) r.

Inductive ChainError : Type :=
| ErrKnownBlock | ErrUnknownAncestor | ErrPrunedAncestor | ErrFutureBlock | errInsertionInterrupted
| consensusErrUnknownAncestor | errNonContiguous | errInvalidOldChain | errInvalidNewChain | errGhostState
| errMissingParent | errFutureTime | errTxRoot | errAppend | BLSError (e : Z) | EngineError (e : Z) | ProcessError (e : Z)
| ClosedTx (e : Z).
#[global] Instance ChainError_eq_dec : EqDecision ChainError.
Proof. solve_decision. Defined.

(** The zero hash stands for no hash. *)
Definition ReadCanonicalHash (d : ChainDB) (number : Z) : Z := default 0 (t_canonical d !! number).
Definition WriteCanonicalHash (hash number : Z) (d : ChainDB) : ChainDB := with_canonical (<[number := hash]> (t_canonical d)) d.
Definition TruncateCanonicalHash (blockFrom : Z) (d : ChainDB) : ChainDB := with_canonical (base.filter (fun e => e.1 < blockFrom) (t_canonical d)) d.
Definition ReadHeaderNumber (d : ChainDB) (hash : Z) : option Z := t_numbers d !! hash.
Definition IsCanonicalHash (d : ChainDB) (hash : Z) : bool :=
  match ReadHeaderNumber d hash with
  | None => false
  | Some number => let c := ReadCanonicalHash d number in negb (c =? 0) && (c =? hash)
  end.
Definition HasHeader (d : ChainDB) (hash number : Z) : bool := bool_decide (t_blocks d !! (number, hash) <> None).
Definition ReadBlock (d : ChainDB) (hash number : Z) : option Content := t_blocks d !! (number, hash).
Definition ReadTd (d : ChainDB) (hash number : Z) : option Z := t_td d !! (number, hash).
Definition WriteTd (hash number td : Z) (d : ChainDB) : ChainDB := with_td (<[(number, hash) := td]> (t_td d)) d.
Definition WriteHeadBlockHash (hash : Z) (d : ChainDB) : ChainDB := with_head hash d.
Definition WriteTxLookupEntries (c : Content) (d : ChainDB) : ChainDB :=
  with_lookup (foldl (fun m h => <[h := c_Number c]> m) (t_lookup d) (c_txs c)) d.
Definition DeleteTxLookupEntry (hash : Z) (d : ChainDB) : ChainDB := with_lookup (delete hash (t_lookup d)) d.

(** [types.HashDifference] *)
Definition HashDifference (a b : list Z) : list Z := base.filter (fun h => h ∉ (list_to_set b : gset Z)) a.

(** ** The chain *)

Record BlockChain : Type := mkChain {
  ChainDB_ : ChainDB;
  currentBlock : Blk;
  tdCache : gmap Z (option Z);
  futureBlocks : gmap Z Blk;
  objects : gmap N Content;
  turns : nat
}.

Notation MC := (M BlockChain).

Definition set_db (d : ChainDB) (bc : BlockChain) : BlockChain := mkChain d (currentBlock bc) (tdCache bc) (futureBlocks bc) (objects bc) (turns bc).
Definition set_current (b : Blk) (bc : BlockChain) : BlockChain := mkChain (ChainDB_ bc) b (tdCache bc) (futureBlocks bc) (objects bc) (turns bc).
Definition set_tdCache (m : gmap Z (option Z)) (bc : BlockChain) : BlockChain := mkChain (ChainDB_ bc) (currentBlock bc) m (futureBlocks bc) (objects bc) (turns bc).
Definition set_future (m : gmap Z Blk) (bc : BlockChain) : BlockChain := mkChain (ChainDB_ bc) (currentBlock bc) (tdCache bc) m (objects bc) (turns bc).
Definition set_objects (m : gmap N Content) (bc : BlockChain) : BlockChain := mkChain (ChainDB_ bc) (currentBlock bc) (tdCache bc) (futureBlocks bc) m (turns bc).

(** The next turn of whatever is outside. *)
Definition turn_ : MC nat := fun bc => Done (turns bc, mkChain (ChainDB_ bc) (currentBlock bc) (tdCache bc) (futureBlocks bc) (objects bc) (S (turns bc))).

(** A new object. *)
Definition allocate (c : Content) : MC Blk := fun bc =>
  let a := fresh (dom (objects bc)) in Done (mkBlk c a, set_objects (<[a := c]> (objects bc)) bc).

Definition on_db (f : ChainDB -> ChainDB) : MC () := modify (fun bc => set_db (f (ChainDB_ bc)) bc).

(** The iterator over a batch; [results] are the engine's verdicts on the headers. *)
Record insertIterator : Type := mkIterator { it_chain : list Blk; it_results : nat -> option Z; it_index : Z }.

Inductive WriteStatus : Type := CanonStatTy | SideStatTy.

Section Chain.
Context (BlockHash : Content -> Z) (DeriveSha : list Z -> Z).
Context (bls : Blk -> option Z) (verify : nat -> list Content -> nat -> option Z) (execute : nat -> Content -> Z + bool).
Context (coin stop : nat -> bool) (Now : nat -> Z) (evict : forall A : Type, gmap Z A -> gmap Z A).
Context (appends : gset Z -> Z -> bool) (write_closed : outcome Z).

Notation Hash b := (BlockHash (content b)).
Notation Number b := (num (content b)).
Notation ParentHash b := (c_ParentHash (content b)).

(** Body and header in one; both tables are written together. *)
Definition WriteBlock (c : Content) (d : ChainDB) : ChainDB :=
  with_blocks (<[(num c, BlockHash c) := c]> (t_blocks d)) (<[BlockHash c := num c]> (t_numbers d)) d.

Definition GetBlock (hash number : Z) : MC (option Blk) :=
  if hash =? 0 then mret None else
  d ← gets ChainDB_;
  match ReadBlock d hash number with
  | None => mret None
  | Some c => b ← allocate c; mret (Some b)
  end.

Definition HasState (d : ChainDB) (hash : Z) : bool := IsCanonicalHash d hash.
Definition HasBlockAndState (d : ChainDB) (hash number : Z) : bool :=
  if hash =? 0 then false else
  match ReadBlock d hash number with None => false | Some c => HasState d (BlockHash c) end.
Definition HasBlock (d : ChainDB) (hash number : Z) : bool := HasHeader d hash number.

(** The cache keeps what it was given, a nil pointer as well. *)
Definition GetTd (hash number : Z) : MC (option Z) :=
  bc ← get;
  match tdCache bc !! hash with
  | Some td => mret td
  | None =>
      let td := ReadTd (ChainDB_ bc) hash (u64 number) in
      _ ← modify (set_tdCache (evict _ (<[hash := td]> (tdCache bc))));
      mret td
  end.

(** A block by its number.  No hash gives nil; a hash without a block gives an interface
    around nil, on which every call panics. *)
Definition GetBlockByNumber (number : Z) : MC (option Content) :=
  d ← gets ChainDB_;
  let hash := ReadCanonicalHash d (u64 number) in
  if hash =? 0 then mret None else
  c ← must (ReadBlock d hash (u64 number));
  mret (Some c).

Definition GetCanonicalHash (number : Z) : MC Z :=
  c ← GetBlockByNumber number;
  c ← must c;
  mret (BlockHash c).

(** ** Fork choice ([ReorgNeeded]); no block is preserved *)

Definition ReorgNeeded (current header : Content) : MC bool :=
  localTD ← GetTd (BlockHash current) (c_Number current);
  externTd ← GetTd (BlockHash header) (c_Number header);
  localTD ← must localTD;
  externTd ← must externTd;
  if localTD <? externTd then mret true else
  if negb (externTd =? localTD) then mret false else
  if num header <? num current then mret true else
  if num header =? num current then n ← turn_; mret (coin n) else mret false.

(** ** Validation *)

Definition ValidateBody (b : Blk) : MC (option ChainError) :=
  match bls b with
  | Some e => mret (Some (BLSError e))
  | None =>
      d ← gets ChainDB_;
      if HasBlockAndState d (Hash b) (Number b) then mret (Some ErrKnownBlock) else
      if negb (DeriveSha (c_txs (content b)) =? c_TxHash (content b)) then mret (Some errTxRoot) else
      if negb (HasBlockAndState d (ParentHash b) (u64 (Number b - 1))) then
        if negb (HasBlock d (ParentHash b) (u64 (Number b - 1))) then mret (Some ErrUnknownAncestor)
        else mret (Some ErrPrunedAncestor)
      else mret None
  end.

(** ** The iterator *)

Definition next (it : insertIterator) : MC (insertIterator * option Blk * option ChainError) :=
  let i := it_index it + 1 in
  match it_chain it !! Z.to_nat i with
  | None => mret (mkIterator (it_chain it) (it_results it) (zlen (it_chain it)), None, None)
  | Some b =>
      let it := mkIterator (it_chain it) (it_results it) i in
      match it_results it (Z.to_nat i) with
      | Some e => mret (it, Some b, Some (EngineError e))
      | None => err ← ValidateBody b; mret (it, Some b, err)
      end
  end.

Definition previous (it : insertIterator) : option Blk := if it_index it <? 1 then None else it_chain it !! Z.to_nat (it_index it - 1).

(** ** Writing *)

Definition writeHeadBlock (b : Blk) : MC () :=
  _ ← on_db (fun d => WriteCanonicalHash (Hash b) (Number b) (WriteHeadBlockHash (Hash b) (WriteBlock (content b) d)));
  modify (set_current b).

(** The old chain down to the number of the new block. *)
Fixpoint shorten_old (fuel : nat) (old : option Blk) (number : Z) (oldChain : list Blk) : MC (option Blk * list Blk) :=
  match fuel with
  | O => fun _ => NoFuel
  | S fuel =>
      match old with
      | None => mret (None, oldChain)
      | Some b =>
          if Number b =? number then mret (Some b, oldChain) else
          old ← GetBlock (ParentHash b) (u64 (Number b - 1));
          shorten_old fuel old number (oldChain ++ [b])
      end
  end.

(** The new chain; the addresses of the numbers are compared, not the numbers. *)
Fixpoint shorten_new (fuel : nat) (new : option Blk) (oldNumber : N) (newChain : list Blk) : MC (option Blk * list Blk) :=
  match fuel with
  | O => fun _ => NoFuel
  | S fuel =>
      match new with
      | None => mret (None, newChain)
      | Some b =>
          if (address b =? oldNumber)%N then mret (Some b, newChain) else
          new ← GetBlock (ParentHash b) (u64 (Number b - 1));
          shorten_new fuel new oldNumber (newChain ++ [b])
      end
  end.

(** Back to the common block; a block that is missing is an interface around nil. *)
Fixpoint common_block (fuel : nat) (old new : Blk) (oldChain newChain : list Blk) : MC (Blk * list Blk * list Blk) :=
  match fuel with
  | O => fun _ => NoFuel
  | S fuel =>
      if Hash old =? Hash new then mret (old, oldChain, newChain) else
      d ← gets ChainDB_;
      o ← must (ReadBlock d (ParentHash old) (u64 (Number old - 1)));
      n ← must (ReadBlock d (ParentHash new) (u64 (Number new - 1)));
      o ← allocate o;
      n ← allocate n;
      common_block fuel o n (oldChain ++ [old]) (newChain ++ [new])
  end.

Fixpoint write_heads (l : list Blk) : MC () := match l with [] => mret () | b :: l => _ ← writeHeadBlock b; write_heads l end.

(** Delete the markers from a number on, as long as there is one. *)
Fixpoint truncate_from (fuel : nat) (i : Z) : MC () :=
  match fuel with
  | O => fun _ => NoFuel
  | S fuel =>
      d ← gets ChainDB_;
      if ReadCanonicalHash d (u64 i) =? 0 then mret () else
      _ ← on_db (TruncateCanonicalHash (u64 i));
      truncate_from fuel (i + 1)
  end.

Definition reorg (oldBlock newBlock : Blk) : MC (option ChainError) :=
  '(old, new, oldChain, newChain) ←
    (if Number newBlock <? Number oldBlock then
       '(old, oldChain) ← shorten_old (S (S (Z.to_nat (Number oldBlock)))) (Some oldBlock) (Number newBlock) [];
       mret (old, Some newBlock, oldChain, [])
     else
       '(new, newChain) ← shorten_new (S (S (Z.to_nat (Number newBlock)))) (Some newBlock) (address oldBlock) [];
       mret (Some oldBlock, new, [], newChain));
  match old, new with
  | None, _ => mret (Some errInvalidOldChain)
  | _, None => mret (Some errInvalidNewChain)
  | Some old, Some new =>
      '(commonBlock, oldChain, newChain) ← common_block (S (S (Z.to_nat (Number old)))) old new oldChain newChain;
      _ ← write_heads (reverse (drop 1 newChain));
      let deletedTxs := oldChain ≫= fun b => c_txs (content b) in
      let addedTxs := reverse (drop 1 newChain) ≫= fun b => c_txs (content b) in
      _ ← on_db (fun d => foldl (fun d t => DeleteTxLookupEntry t d) d (HashDifference deletedTxs addedTxs));
      let number := match newChain !! 1%nat with Some b => Number b | None => Number commonBlock end in
      _ ← truncate_from 3 (number + 1);
      mret None
  end.

(** The first transaction: total difficulty, receipts, block and lookup entries; it is
    rolled back on an error. *)
Definition store_block (b : Blk) (receipts : bool) (d : ChainDB) : ChainDB + ChainError :=
  match ReadTd d (ParentHash b) (u64 (wrap256 (c_Number (content b) - 1))) with
  | None => inr consensusErrUnknownAncestor
  | Some ptd =>
      let externTd := wrap256 (ptd + c_Difficulty (content b)) in
      let d := WriteTd (Hash b) (Number b) externTd d in
      if receipts && negb (appends (t_receipts d) (Number b)) then inr errAppend else
      let d := if receipts then with_receipts ({[Number b]} ∪ t_receipts d) d else d in
      inl (WriteTxLookupEntries (content b) (WriteBlock (content b) d))
  end.

Definition writeBlockWithState (b : Blk) (receipts : bool) : MC (WriteStatus + ChainError) :=
  bc ← get;
  match store_block b receipts (ChainDB_ bc) with
  | inr e => mret (inr e)
  | inl d =>
      _ ← modify (set_db d);
      current ← gets currentBlock;
      needed ← ReorgNeeded (content current) (content b);
      if negb needed then
        _ ← modify (fun bc => set_future (delete (Hash b) (futureBlocks bc)) bc);
        mret (inl SideStatTy)
      else
        err ← (if ParentHash b =? Hash current then mret None else reorg current b);
        match (err : option ChainError) with
        | Some e => mret (inr e)
        | None =>
            _ ← writeHeadBlock b;
            _ ← modify (fun bc => set_future (delete (Hash b) (futureBlocks bc)) bc);
            mret (inl CanonStatTy)
        end
  end.

(** [reorg] commits the transaction that it is given. *)
Definition writeKnownBlock (b : Blk) : MC (option ChainError) :=
  current ← gets currentBlock;
  if ParentHash b =? Hash current then _ ← writeHeadBlock b; mret None else
  err ← reorg current b;
  match (err : option ChainError) with
  | Some e => mret (Some e)
  | None => e ← outcome_to_M write_closed; mret (Some (ClosedTx e))
  end.

Definition insertStopped : MC bool := n ← turn_; mret (stop n).

Definition WriteBlockWithoutState (b : Blk) : MC (option ChainError) :=
  stopped ← insertStopped;
  if (stopped : bool) then mret (Some errInsertionInterrupted) else
  _ ← on_db (WriteBlock (content b));
  mret None.

Definition maxTimeFutureBlocks : Z := 5 * 60.

Definition addFutureBlock (b : Blk) : MC (option ChainError) :=
  n ← turn_;
  let max := u64 (Now n + maxTimeFutureBlocks) in
  if max <? c_Time (content b) then mret (Some errFutureTime) else
  if u64 (c_Difficulty (content b)) =? 0 then mret None else
  _ ← modify (fun bc => set_future (evict _ (<[Hash b := b]> (futureBlocks bc))) bc);
  mret None.

(** ** Import *)

(** Known blocks are skipped unless the fork choice wants one that is not canonical. *)
Fixpoint skip_known (fuel : nat) (current : Content) (it : insertIterator) (block : option Blk) (err : option ChainError) : MC (insertIterator * option Blk * option ChainError) :=
  match fuel with
  | O => fun _ => NoFuel
  | S fuel =>
      match block with
      | Some b =>
          if bool_decide (err = Some ErrKnownBlock) then
            needed ← ReorgNeeded current (content b);
            out ← (if (needed : bool) then
                     if num current <? Number b then mret true else
                     h ← GetCanonicalHash (c_Number (content b)); mret (negb (h =? Hash b))
                   else mret false);
            if (out : bool) then mret (it, block, None) else
            '(it, block, err) ← next it;
            skip_known fuel current it block err
          else mret (it, block, err)
      | None => mret (it, block, err)
      end
  end.

(** Known blocks that are wanted become canonical. *)
Fixpoint write_known (fuel : nat) (it : insertIterator) (block : option Blk) (err : option ChainError) : MC (insertIterator * option Blk * option ChainError + Z * option ChainError) :=
  match fuel with
  | O => fun _ => NoFuel
  | S fuel =>
      match block with
      | Some b =>
          if bool_decide (err = Some ErrKnownBlock) then
            e ← writeKnownBlock b;
            match (e : option ChainError) with
            | Some e => mret (inr (it_index it, Some e))
            | None => '(it, block, err) ← next it; write_known fuel it block err
            end
          else mret (inl (it, block, err))
      | None => mret (inl (it, block, err))
      end
  end.

(** Blocks of the future are queued, while [more] says so. *)
Fixpoint queue_future (fuel : nat) (more : insertIterator -> option ChainError -> bool) (it : insertIterator) (block : option Blk) (err : option ChainError) :
    MC (insertIterator * option ChainError + Z * option ChainError) :=
  match fuel with
  | O => fun _ => NoFuel
  | S fuel =>
      match block with
      | Some b =>
          if more it err then
            e ← addFutureBlock b;
            match (e : option ChainError) with
            | Some e => mret (inr (it_index it, Some e))
            | None => '(it, block, err) ← next it; queue_future fuel more it block err
            end
          else mret (inl (it, err))
      | None => mret (inl (it, err))
      end
  end.

(** Execute and write block after block; answers where it stopped. *)
Fixpoint import_blocks (fuel : nat) (it : insertIterator) (block : option Blk) (err : option ChainError) : MC (insertIterator * option Blk * option ChainError + Z * option ChainError) :=
  match fuel with
  | O => fun _ => NoFuel
  | S fuel =>
      match block with
      | Some b =>
          if bool_decide (err = None) || bool_decide (err = Some ErrKnownBlock) then
            stopped ← insertStopped;
            if (stopped : bool) then mret (inl (it, block, err)) else
            n ← turn_;
            match execute n (content b) with
            | inl e => mret (inr (it_index it, Some (ProcessError e)))
            | inr receipts =>
                status ← writeBlockWithState b receipts;
                match (status : WriteStatus + ChainError) with
                | inr e => mret (inr (it_index it, Some e))
                | inl _ => '(it, block, err) ← next it; import_blocks fuel it block err
                end
            end
          else mret (inl (it, block, err))
      | None => mret (inl (it, block, err))
      end
  end.

(** The blocks of a side chain are written without state; answers the last one. *)
Fixpoint write_side (fuel : nat) (current : Content) (it : insertIterator) (block : option Blk) (err : option ChainError) (externTd : Z) (lastBlock : Blk) :
    MC (insertIterator * Blk + Z * option ChainError) :=
  match fuel with
  | O => fun _ => NoFuel
  | S fuel =>
      match block with
      | Some b =>
          if bool_decide (err = Some ErrPrunedAncestor) then
            canonical ← (if c_Number (content b) <=? c_Number current then GetBlockByNumber (c_Number (content b)) else mret None);
            match (canonical : option Content) with
            | Some c =>
                if BlockHash c =? Hash b then
                  td ← GetTd (Hash b) (c_Number (content b));
                  td ← must td;
                  '(it, block, err) ← next it;
                  write_side fuel current it block err td lastBlock
                else if c_Root c =? c_Root (content b) then mret (inr (it_index it, Some errGhostState))
                else write_side_block fuel current it b externTd
            | None => write_side_block fuel current it b externTd
            end
          else mret (inl (it, lastBlock))
      | None => mret (inl (it, lastBlock))
      end
  end
with write_side_block (fuel : nat) (current : Content) (it : insertIterator) (b : Blk) (externTd : Z) : MC (insertIterator * Blk + Z * option ChainError) :=
  match fuel with
  | O => fun _ => NoFuel
  | S fuel =>
      td ← (if externTd =? 0 then td ← GetTd (ParentHash b) (wrap256 (c_Number (content b) - 1)); must td else mret externTd);
      let externTd := wrap256 (td + c_Difficulty (content b)) in
      d ← gets ChainDB_;
      e ← (if HasBlock d (Hash b) (Number b) then mret None else WriteBlockWithoutState b);
      match (e : option ChainError) with
      | Some e => mret (inr (it_index it, Some e))
      | None => '(it, block, err) ← next it; write_side fuel current it block err externTd b
      end
  end.

(** Collect the headers down to one whose state is there; the state root is taken for a
    block hash, and a header that is missing is an interface around nil. *)
Fixpoint collect_pruned (fuel : nat) (parent : Content) (hashes : list (Z * Z)) : MC (list (Z * Z)) :=
  match fuel with
  | O => fun _ => NoFuel
  | S fuel =>
      d ← gets ChainDB_;
      if HasState d (c_Root parent) then mret hashes else
      n ← must (ReadHeaderNumber d (c_ParentHash parent));
      p ← must (ReadBlock d (c_ParentHash parent) n);
      collect_pruned fuel p (hashes ++ [(BlockHash parent, num parent)])
  end.

Section Side.
Context (insertChain : list Blk -> MC (Z * option ChainError)).

(** Import the collected blocks, in segments of 2048; a block that is missing is a nil in
    the batch. *)
Fixpoint import_pruned (l : list (Z * Z)) (blocks : list Blk) : MC (Z * option ChainError) :=
  match l with
  | [] => if (length blocks =? 0)%nat then mret (0, None) else insertChain blocks
  | (h, n) :: l =>
      b ← GetBlock h n;
      b ← must b;
      let blocks := blocks ++ [b] in
      if (length blocks <? 2048)%nat then import_pruned l blocks else
      '(_, err) ← insertChain blocks;
      match (err : option ChainError) with
      | Some e => mret (0, Some e)
      | None =>
          stopped ← insertStopped;
          if (stopped : bool) then mret (0, None) else import_pruned l []
      end
  end.

Definition insertSideChain (b : Blk) (it : insertIterator) : MC (Z * option ChainError) :=
  current ← gets currentBlock;
  let fuel := (2 * S (length (it_chain it)))%nat in
  r ← write_side fuel (content current) it (Some b) (Some ErrPrunedAncestor) 0 b;
  match (r : insertIterator * Blk + Z * option ChainError) with
  | inr r => mret r
  | inl (it, lastBlock) =>
      needed ← ReorgNeeded (content current) (content lastBlock);
      if negb needed then
        _ ← GetTd (Hash current) (c_Number (content current));
        _ ← must (previous it);
        mret (it_index it, None)
      else
        match previous it with
        | None => mret (it_index it, Some errMissingParent)
        | Some parent =>
            hashes ← collect_pruned (S (S (Z.to_nat (Number parent)))) (content parent) [];
            import_pruned (reverse hashes) []
        end
  end.
End Side.

(** The import loop, and the blocks of the future behind it. *)
Definition import_rest (fuel : nat) (it : insertIterator) (block : option Blk) (err : option ChainError) : MC (Z * option ChainError) :=
  r ← import_blocks fuel it block err;
  match (r : insertIterator * option Blk * option ChainError + Z * option ChainError) with
  | inr r => mret r
  | inl (it, Some b, Some ErrFutureBlock) =>
      e ← addFutureBlock b;
      match (e : option ChainError) with
      | Some e => mret (it_index it, Some e)
      | None =>
          '(it, block, err) ← next it;
          r ← queue_future fuel (fun _ err => bool_decide (err = Some ErrUnknownAncestor)) it block err;
          match (r : insertIterator * option ChainError + Z * option ChainError) with
          | inr r => mret r
          | inl (it, err) => mret (it_index it, err)
          end
      end
  | inl (it, _, err) => mret (it_index it, err)
  end.

Fixpoint insertChain (fuel : nat) (chain : list Blk) : MC (Z * option ChainError) :=
  match fuel with
  | O => fun _ => NoFuel
  | S fuel =>
      let turns := S (length chain) in
      stopped ← insertStopped;
      if (stopped : bool) then mret (0, None) else
      n ← turn_;
      '(it, block, err) ← next (mkIterator chain (verify n (content <$> chain)) (-1));
      current ← gets currentBlock;
      r ← (if bool_decide (err = Some ErrKnownBlock) then
             '(it, block, err) ← skip_known turns (content current) it block err;
             write_known turns it block err
           else mret (inl (it, block, err)));
      match (r : insertIterator * option Blk * option ChainError + Z * option ChainError) with
      | inr r => mret r
      | inl (it, block, err) =>
          bc ← get;
          match block, err with
          | Some b, Some ErrPrunedAncestor => insertSideChain (insertChain fuel) b it
          | _, Some e =>
              if bool_decide (e = ErrFutureBlock) || bool_decide (e = ErrUnknownAncestor) && bool_decide ((b ← head chain; futureBlocks bc !! ParentHash b) <> None) then
                r ← queue_future turns (fun it err => (it_index it =? 0) || bool_decide (err = Some ErrUnknownAncestor)) it block err;
                match (r : insertIterator * option ChainError + Z * option ChainError) with
                | inr r => mret r
                | inl (it, err) => mret (it_index it, err)
                end
              else if bool_decide (e = ErrKnownBlock) then import_rest turns it block err
              else
                b ← must block;
                _ ← modify (fun bc => set_future (delete (Hash b) (futureBlocks bc)) bc);
                mret (it_index it, Some e)
          | _, None => import_rest turns it block err
          end
      end
  end.

(** Batches must be contiguous. *)
Fixpoint contiguous (prev : Blk) (l : list Blk) : bool :=
  match l with
  | [] => true
  | b :: l => (c_Number (content b) =? wrap256 (c_Number (content prev) + 1)) && (ParentHash b =? Hash prev) && contiguous b l
  end.

Definition InsertChain (fuel : nat) (chain : list Blk) : MC (Z * option ChainError) :=
  match chain with
  | [] => mret (0, None)
  | b :: l => if negb (contiguous b l) then mret (0, Some errNonContiguous) else insertChain fuel chain
  end.

(** [newBlockLoop] on a block from the network; answers whether it was inserted. *)
Definition newBlock (fuel : nat) (b : Blk) : MC bool :=
  current ← gets currentBlock;
  if u64 (Number current + 1) <? Number b then _ ← addFutureBlock b; mret false else
  '(_, err) ← InsertChain fuel [b];
  mret (bool_decide (err = None)).

(** ** The queue of future blocks ([updateFutureBlocksLoop]) *)

(** One tick.  [sorted] lists the queue by number; the last log line indexes the batch
    with the number of blocks that were inserted. *)
Definition updateFutureBlocks (sorted : nat -> gmap Z Blk -> list Blk) (fuel : nat) : MC () :=
  bc ← get;
  if bool_decide (futureBlocks bc = ∅) then mret () else
  n ← turn_;
  let blocks := sorted n (futureBlocks bc) in
  first ← must (head blocks);
  if u64 (Number (currentBlock bc) + 1) <? Number first then mret () else
  '(n, err) ← InsertChain fuel blocks;
  match (err : option ChainError) with
  | Some _ => mret ()
  | None =>
      _ ← modify (set_future ∅);
      _ ← must (if n =? 0 then None else blocks !! Z.to_nat (n - 1));
      mret ()
  end.

(** ** Opening the chain *)

(** [GenesisBlock.Write] into an empty database *)
Definition WriteGenesis (g : Content) : ChainDB :=
  WriteHeadBlockHash (BlockHash g) (WriteCanonicalHash (BlockHash g) (num g)
    (with_receipts {[num g]} (WriteBlock g (WriteTd (BlockHash g) (num g) 0 (mkDB ∅ ∅ ∅ ∅ 0 ∅ ∅))))).

Definition ReadCurrentBlock (d : ChainDB) : option Content :=
  n ← ReadHeaderNumber d (t_head d);
  ReadBlock d (t_head d) n.

(** [mem] are the objects that exist, [n] the turns taken before. *)
Definition NewBlockChain (genesisBlock : Blk) (d : ChainDB) (mem : gmap N Content) (n : nat) : BlockChain :=
  match ReadCurrentBlock d with
  | Some c => let a := fresh (dom mem) in mkChain d (mkBlk c a) ∅ ∅ (<[a := c]> mem) n
  | None => mkChain d genesisBlock ∅ ∅ mem n
  end.
End Chain.
