(* ===== verification/ChainTheorems.v ===== *)
(** * What chain management guarantees

    In whatever order batches are imported, the canonical chain is a chain of stored
    blocks from the genesis block to the head, whose total difficulty never decreases; what
    the import does with a batch on top of the head, with a heavier block beside the head
    and with a block on a side chain. *)

From stdpp Require Import gmap.
From S2P Require Import Prelude Uint256 TxLookup Ends Chain.

(** ** The invariant *)

(** Numbers stay below the largest one of 64 bits. *)
Record sound (c : Content) : Prop := {
  so_number : 0 <= c_Number c < two64 - 1;
  so_difficulty : word (c_Difficulty c)
}.

Lemma num_sound c : sound c -> num c = c_Number c.
Proof. intros [H _]. unfold num, u64. rewrite Z.mod_small; [done|lia]. Qed.

Lemma u64_pred c : sound c -> u64 (num c - 1) = if c_Number c =? 0 then two64 - 1 else c_Number c - 1.
Proof.
  intros Hc. pose proof (so_number _ Hc). rewrite num_sound by done. unfold u64. destruct (Z.eqb_spec (c_Number c) 0) as [->|Hne]; [done|]. rewrite Z.mod_small; lia.
Qed.

Definition valid (bc : BlockChain) (b : Blk) : Prop := objects bc !! address b = Some (content b).

Section Invariant.
Context (BlockHash : Content -> Z) (collision_free : Inj (=) (=) BlockHash) (hash_nonzero : forall c, BlockHash c <> 0) (genesis : Content).
Notation Hash b := (BlockHash (content b)).
Notation Number b := (c_Number (content b)).
Notation blocks bc := (t_blocks (ChainDB_ bc)).
Notation numbers bc := (t_numbers (ChainDB_ bc)).
Notation canonical bc := (t_canonical (ChainDB_ bc)).
Notation tds bc := (t_td (ChainDB_ bc)).

(** Blocks and total difficulties. *)
Record store_ok (d : ChainDB) : Prop := {
  st_keyed n h c : t_blocks d !! (n, h) = Some c -> h = BlockHash c /\ n = c_Number c /\ sound c;
  st_parent n h c : t_blocks d !! (n, h) = Some c -> 0 < n -> is_Some (t_blocks d !! (n - 1, c_ParentHash c));
  st_zero h c : t_blocks d !! (0, h) = Some c -> c = genesis;
  st_numbers h n : t_numbers d !! h = Some n <-> exists c, t_blocks d !! (n, h) = Some c;
  st_td n h t : t_td d !! (n, h) = Some t -> word t /\ exists c, t_blocks d !! (n, h) = Some c /\
    (0 < n -> exists tp, t_td d !! (n - 1, c_ParentHash c) = Some tp /\ t = wrap256 (tp + c_Difficulty c))
}.

(** The markers of the canonical chain below a number. *)
Definition linked (d : ChainDB) (n : Z) (h : Z) : Prop :=
  0 <= n /\ is_Some (t_td d !! (n, h)) /\ (0 < n -> exists c, t_blocks d !! (n, h) = Some c /\ t_canonical d !! (n - 1) = Some (c_ParentHash c)).

Record chain_inv (bc : BlockChain) : Prop := {
  ci_store : store_ok (ChainDB_ bc);
  ci_valid : valid bc (currentBlock bc);
  ci_sound : sound (content (currentBlock bc));
  ci_head : t_head (ChainDB_ bc) = Hash (currentBlock bc);
  ci_top : canonical bc !! Number (currentBlock bc) = Some (Hash (currentBlock bc));
  ci_canon n h : canonical bc !! n = Some h -> n <= Number (currentBlock bc) /\ linked (ChainDB_ bc) n h;
  ci_cache h t : tdCache bc !! h = Some t -> exists n t', t = Some t' /\ tds bc !! (n, h) = Some t';
  ci_genesis : canonical bc !! 0 = Some (BlockHash genesis);
  ci_future h b : futureBlocks bc !! h = Some b -> valid bc b /\ sound (content b)
}.

Definition head_td (bc : BlockChain) : Z := default 0 (tds bc !! (Number (currentBlock bc), Hash (currentBlock bc))).

(** What the chain keeps. *)
Record grows (bc bc' : BlockChain) : Prop := {
  gr_objects : objects bc ⊆ objects bc';
  gr_td : head_td bc <= head_td bc'
}.

#[local] Instance grows_preorder : PreOrder grows.
Proof. split; [by split|]. intros a b c [H1 H2] [K1 K2]. split; [by etransitivity|lia]. Qed.

Lemma valid_grows bc bc' b : grows bc bc' -> valid bc b -> valid bc' b.
Proof. intros [H _] E. by eapply lookup_weaken. Qed.

Lemma hash_content d n n' h c c' : store_ok d -> t_blocks d !! (n, h) = Some c -> t_blocks d !! (n', h) = Some c' -> n' = n /\ c' = c.
Proof.
  intros [H _ _ _ _] E E'. destruct (H _ _ _ E) as (-> & -> & _), (H _ _ _ E') as (Eh & -> & _). apply collision_free in Eh. by subst.
Qed.

Lemma canonical_stored bc n h : chain_inv bc -> canonical bc !! n = Some h -> exists c, blocks bc !! (n, h) = Some c.
Proof. intros H E. destruct (ci_canon _ H n h E) as (_ & _ & [t Ht] & _). destruct (st_td _ (ci_store _ H) _ _ _ Ht) as (_ & c & Ec & _). by exists c. Qed.

(** The markers go down to the genesis block. *)
Lemma canonical_below bc n m h : chain_inv bc -> canonical bc !! n = Some h -> 0 <= m <= n -> is_Some (canonical bc !! m).
Proof.
  intros H E Hm. assert (Hj : forall (j : nat) n h, canonical bc !! n = Some h -> 0 <= n - Z.of_nat j -> is_Some (canonical bc !! (n - Z.of_nat j))).
  { intros j. induction j as [|j IH]; intros n' h' E' Hj.
    - rewrite Z.sub_0_r. by eexists.
    - destruct (ci_canon _ H n' h' E') as (_ & _ & _ & Hp). destruct (Hp ltac:(lia)) as (c & _ & Ep). replace (n' - Z.of_nat (S j)) with (n' - 1 - Z.of_nat j) by lia. apply (IH _ _ Ep). lia. }
  specialize (Hj (Z.to_nat (n - m)) n h E). rewrite Z2Nat.id in Hj by lia. replace (n - (n - m)) with m in Hj by lia. apply Hj. lia.
Qed.

Lemma current_stored bc : chain_inv bc -> blocks bc !! (Number (currentBlock bc), Hash (currentBlock bc)) = Some (content (currentBlock bc)).
Proof.
  intros H. destruct (canonical_stored bc _ _ H (ci_top _ H)) as (c & E). destruct (st_keyed _ (ci_store _ H) _ _ _ E) as (Eh & _ & _). apply collision_free in Eh. rewrite E. by rewrite Eh.
Qed.

Lemma canonical_content bc n h c : chain_inv bc -> canonical bc !! n = Some h -> blocks bc !! (n, h) = Some c -> 0 < n -> canonical bc !! (n - 1) = Some (c_ParentHash c).
Proof. intros H E Ec Hn. destruct (ci_canon _ H n h E) as (_ & _ & _ & Hp). destruct (Hp Hn) as (c' & Ec' & Ep). congruence. Qed.

Lemma head_td_spec bc : chain_inv bc -> tds bc !! (Number (currentBlock bc), Hash (currentBlock bc)) = Some (head_td bc).
Proof. intros H. destruct (ci_canon _ H _ _ (ci_top _ H)) as (_ & _ & [t Ht] & _). unfold head_td. by rewrite Ht. Qed.

(** Operations that leave the tables and the head. *)
Lemma inv_same bc bc' : chain_inv bc -> ChainDB_ bc' = ChainDB_ bc -> currentBlock bc' = currentBlock bc -> tdCache bc' ⊆ tdCache bc -> objects bc ⊆ objects bc' -> futureBlocks bc' ⊆ futureBlocks bc -> chain_inv bc' /\ grows bc bc'.
Proof.
  intros [H1 H2 H3 H4 H5 H6 H7 H8 H9] Ed Ec Et Eo Ef. split.
  - split; rewrite ?Ed, ?Ec; [done| |done|done|done|done| |done|].
    + unfold valid in *. by eapply lookup_weaken.
    + intros h t E. apply (H7 h t). by eapply lookup_weaken.
    + intros h b E. destruct (H9 h b) as [Hv Hs]; [by eapply lookup_weaken|]. split; [by eapply lookup_weaken|done].
  - split; [done|]. unfold head_td. by rewrite Ed, Ec.
Qed.

Lemma turn_yields {F : Prop} bc Q : (forall n bc', ChainDB_ bc' = ChainDB_ bc -> currentBlock bc' = currentBlock bc -> tdCache bc' = tdCache bc -> objects bc' = objects bc -> futureBlocks bc' = futureBlocks bc -> Q n bc') -> yields F turn_ bc Q.
Proof. intros H. by apply H. Qed.

Lemma allocate_yields {F : Prop} c bc Q : (forall b bc', content b = c -> ChainDB_ bc' = ChainDB_ bc -> currentBlock bc' = currentBlock bc -> tdCache bc' = tdCache bc -> objects bc ⊆ objects bc' -> valid bc' b ->
  objects bc !! address b = None -> futureBlocks bc' = futureBlocks bc -> Q b bc') -> yields F (allocate c) bc Q.
Proof.
  intros H. assert (Hf : objects bc !! fresh (dom (objects bc)) = None) by (apply not_elem_of_dom, is_fresh). unfold yields, allocate. apply H; cbn; try done.
  - by apply insert_subseteq.
  - unfold valid. cbn. by rewrite lookup_insert_eq.
Qed.

Lemma GetBlock_yields {F : Prop} hash number bc Q : 
  (forall b bc', blocks bc !! (number, hash) = Some (content b) -> ChainDB_ bc' = ChainDB_ bc -> currentBlock bc' = currentBlock bc -> tdCache bc' = tdCache bc -> objects bc ⊆ objects bc' -> valid bc' b ->
    objects bc !! address b = None -> futureBlocks bc' = futureBlocks bc -> Q (Some b) bc') ->
  (blocks bc !! (number, hash) = None \/ hash = 0 -> Q None bc) -> yields F (GetBlock hash number) bc Q.
Proof.
  intros H1 H2. unfold GetBlock. destruct (Z.eqb_spec hash 0) as [->|Hne]; [ye; apply H2; by right|]. ye. unfold ReadBlock. destruct (blocks bc !! (number, hash)) as [c|] eqn:E; ye; [|apply H2; by left].
  use (apply (allocate_yields c bc (fun b bc' => Q (Some b) bc')); intros b bc' Eb Hd Hc Ht Ho Hv Hf Hq; apply H1; by rewrite ?Eb). intros b bc' Hb. by ye.
Qed.

(** The tables and the head are as before. *)
Record same (bc bc' : BlockChain) : Prop := {
  sm_db : ChainDB_ bc' = ChainDB_ bc;
  sm_current : currentBlock bc' = currentBlock bc;
  sm_objects : objects bc ⊆ objects bc';
  sm_future : futureBlocks bc' ⊆ futureBlocks bc
}.

#[local] Instance same_preorder : PreOrder same.
Proof. split; [by split|]. intros a b c [H1 H2 H3 H4] [K1 K2 K3 K4]. split; [congruence|congruence|by etransitivity|by etransitivity]. Qed.

Lemma same_grows bc bc' : same bc bc' -> grows bc bc'.
Proof. intros [H1 H2 H3 _]. split; [done|]. unfold head_td. by rewrite H1, H2. Qed.

Context (evict : forall A : Type, gmap Z A -> gmap Z A) (evict_sub : forall A (m : gmap Z A), evict A m ⊆ m).

Lemma td_key d n c t : store_ok d -> t_td d !! (n, BlockHash c) = Some t -> n = c_Number c /\ t_blocks d !! (n, BlockHash c) = Some c.
Proof.
  intros H E. destruct (st_td _ H _ _ _ E) as (_ & c' & Ec & _). destruct (st_keyed _ H _ _ _ Ec) as (Eh & -> & _). apply collision_free in Eh as <-. done.
Qed.

(** The answer of the cache is that of the table; a nil is cached as well. *)
Lemma GetTd_yields {F : Prop} hash number bc : chain_inv bc -> yields F (GetTd evict hash number) bc (fun r bc' => same bc bc' /\
  match r with None => tds bc !! (u64 number, hash) = None | Some t => chain_inv bc' /\ exists n, tds bc !! (n, hash) = Some t end).
Proof.
  intros H. unfold GetTd. ye. destruct (tdCache bc !! hash) as [r|] eqn:Ec; ye.
  - split; [done|]. destruct (ci_cache _ H _ _ Ec) as (n & t & -> & Ht). split; [done|]. by exists n.
  - split; [by split|]. unfold ReadTd. destruct (tds bc !! (u64 number, hash)) as [t|] eqn:Et; [|done]. split; [|by eexists].
    destruct H as [H1 H2 H3 H4 H5 H6 H7 H8 H9]. split; try done. cbn. intros h r E. eapply lookup_weaken in E; [|apply evict_sub]. destruct (decide (h = hash)) as [->|Hne].
    + rewrite lookup_insert_eq in E. injection E as <-. by exists (u64 number), t.
    + rewrite lookup_insert_ne in E by done. by apply (H7 h r).
Qed.

Lemma ReorgNeeded_yields {F : Prop} coin current header bc : chain_inv bc -> yields F (ReorgNeeded BlockHash coin evict current header) bc (fun r bc' => chain_inv bc' /\ same bc bc' /\
  (exists tl te, tds bc !! (c_Number current, BlockHash current) = Some tl /\ tds bc !! (c_Number header, BlockHash header) = Some te /\ (r = true -> tl <= te) /\ (r = false -> te <= tl))).
Proof.
  intros H. unfold ReorgNeeded. ye. use (by apply GetTd_yields). intros [tl|] bc1 [S1 H1].
  2: { ye. unfold GetTd at 1. ye. destruct (tdCache bc1 !! _); ye; by apply yields_must. }
  destruct H1 as (H1 & nl & El). ye. use (by apply GetTd_yields). intros [te|] bc2 [S2 H2]; ye; [|apply yields_must; intros ? [= <-]; ye; by apply yields_must]. destruct H2 as (H2 & ne & Ee).
  rewrite (sm_db _ _ S1) in Ee. apply yields_must. intros ? [= <-]. ye. apply yields_must. intros ? [= <-]. assert (S12 : same bc bc2) by by etransitivity.
  destruct (td_key _ _ _ _ (ci_store _ H) El) as [-> _], (td_key _ _ _ _ (ci_store _ H) Ee) as [-> _].
  assert (Hex : forall r : bool, (r = true -> tl <= te) -> (r = false -> te <= tl) -> exists tl te, tds bc !! (c_Number current, BlockHash current) = Some tl /\ tds bc !! (c_Number header, BlockHash header) = Some te /\ (r = true -> tl <= te) /\ (r = false -> te <= tl)) by (intros r Ha Hb; by exists tl, te).
  destruct (Z.ltb_spec tl te); [ye; split_and!; [done|done|apply Hex; intros; [lia|done]]|]. destruct (Z.eqb_spec te tl) as [->|Hne]; cbn [negb]; [|ye; split_and!; [done|done|apply Hex; intros; [done|lia]]].
  assert (He : forall r : bool, exists tl0 te, tds bc !! (c_Number current, BlockHash current) = Some tl0 /\ tds bc !! (c_Number header, BlockHash header) = Some te /\ (r = true -> tl0 <= te) /\ (r = false -> te <= tl0)) by (intros r; apply Hex; lia).
  destruct (num header <? num current); [ye; by split_and!|]. destruct (num header =? num current); ye; [|by split_and!]. apply turn_yields. intros n bc3 E1 E2 E3 E4 E5. ye.
  destruct (inv_same bc2 bc3 H2 E1 E2) as [H3 _]; [by rewrite E3|by rewrite E4|by rewrite E5|]. split_and!; [done|etransitivity; [exact S12|split; [done|done|by rewrite E4|by rewrite E5]]|apply He].
Qed.

(** ** Validation *)

(** The parent is canonical. *)
Definition ready (bc : BlockChain) (c : Content) : Prop := 0 < c_Number c -> canonical bc !! (c_Number c - 1) = Some (c_ParentHash c).

(** The block is canonical. *)
Definition known (bc : BlockChain) (c : Content) : Prop := canonical bc !! c_Number c = Some (BlockHash c).

Lemma known_ready bc c : chain_inv bc -> known bc c -> ready bc c.
Proof.
  intros H Hk Hn. destruct (canonical_stored bc _ _ H Hk) as (c' & E). destruct (st_keyed _ (ci_store _ H) _ _ _ E) as (Eh & _ & _). apply collision_free in Eh as <-. by eapply canonical_content.
Qed.

Lemma HasState_iff bc hash : chain_inv bc -> HasState (ChainDB_ bc) hash = true <-> exists n, canonical bc !! n = Some hash.
Proof.
  intros H. unfold HasState, IsCanonicalHash, ReadHeaderNumber, ReadCanonicalHash. split.
  - destruct (numbers bc !! hash) as [n|]; [|done]. intros [E0%negb_true_iff%Z.eqb_neq E%Z.eqb_eq]%andb_prop. destruct (canonical bc !! n) as [h|] eqn:Ec; cbn in *; [|done]. exists n. by rewrite Ec, E.
  - intros (n & E). destruct (canonical_stored bc _ _ H E) as (c & Ec). destruct (st_keyed _ (ci_store _ H) _ _ _ Ec) as (-> & -> & _).
    assert (numbers bc !! BlockHash c = Some (c_Number c)) as -> by (apply (st_numbers _ (ci_store _ H)); by exists c). rewrite E. cbn.
    apply andb_true_intro. split; [apply negb_true_iff, Z.eqb_neq, hash_nonzero|by apply Z.eqb_eq].
Qed.

Lemma HasBlockAndState_iff bc hash number : chain_inv bc -> HasBlockAndState BlockHash (ChainDB_ bc) hash number = true <-> canonical bc !! number = Some hash.
Proof.
  intros H. unfold HasBlockAndState, ReadBlock. destruct (Z.eqb_spec hash 0) as [->|Hne].
  { split; [done|]. intros E. destruct (canonical_stored bc _ _ H E) as (c & Ec). destruct (st_keyed _ (ci_store _ H) _ _ _ Ec) as (Eh & _). by destruct (hash_nonzero c). }
  destruct (blocks bc !! (number, hash)) as [c|] eqn:Ec.
  - destruct (st_keyed _ (ci_store _ H) _ _ _ Ec) as (Eh & _ & _). rewrite <- Eh, HasState_iff by done. split; [|by eexists]. intros (n & E).
    destruct (canonical_stored bc _ _ H E) as (c' & Ec'). by destruct (hash_content _ _ _ _ _ _ (ci_store _ H) Ec Ec') as [-> _].
  - split; [done|]. intros E. destruct (canonical_stored bc _ _ H E) as (c & Ec'). congruence.
Qed.

(** No block has the largest number. *)
Lemma no_last bc hash : chain_inv bc -> canonical bc !! (two64 - 1) <> Some hash.
Proof. intros H E. destruct (ci_canon _ H _ _ E) as (Hle & _). pose proof (so_number _ (ci_sound _ H)). lia. Qed.

Lemma no_block_last bc h : chain_inv bc -> blocks bc !! (two64 - 1, h) = None.
Proof. intros H. destruct (blocks bc !! (two64 - 1, h)) as [c|] eqn:E; [|done]. destruct (st_keyed _ (ci_store _ H) _ _ _ E) as (_ & En & Hs). pose proof (so_number _ Hs). lia. Qed.

(** What a verdict says of the block. *)
Definition fits (bc : BlockChain) (b : Blk) (err : option ChainError) : Prop :=
  match err with
  | None => 0 < Number b /\ ready bc (content b)
  | Some ErrKnownBlock => known bc (content b)
  | Some ErrPrunedAncestor => 0 < Number b /\ is_Some (blocks bc !! (Number b - 1, c_ParentHash (content b)))
  | _ => True
  end.

Lemma fits_ready bc b err : chain_inv bc -> fits bc b err -> (err = None \/ err = Some ErrKnownBlock) -> ready bc (content b).
Proof. intros H Hf [->| ->]; [apply Hf|by apply known_ready]. Qed.

Lemma fits_same bc bc' b err : ChainDB_ bc' = ChainDB_ bc -> fits bc b err -> fits bc' b err.
Proof. intros E. unfold fits, ready, known. by rewrite E. Qed.

Context (DeriveSha : list Z -> Z) (bls : Blk -> option Z).

Lemma ValidateBody_yields {F : Prop} b bc : chain_inv bc -> sound (content b) -> yields F (ValidateBody BlockHash DeriveSha bls b) bc (fun err bc' => bc' = bc /\ fits bc b err).
Proof.
  intros H Hs. unfold ValidateBody. destruct (bls b); [by ye|]. ye. rewrite num_sound by done.
  destruct (HasBlockAndState _ _ (Hash b) _) eqn:E1; [apply HasBlockAndState_iff in E1; [|done]; by ye|]. destruct (negb (DeriveSha _ =? _)); [by ye|].
  rewrite <- (num_sound (content b)), u64_pred by done. pose proof (so_number _ Hs). destruct (HasBlockAndState _ _ (c_ParentHash _) _) eqn:E2; cbn [negb].
  - ye. split; [done|]. apply HasBlockAndState_iff in E2; [|done]. destruct (Z.eqb_spec (Number b) 0) as [E0|Hne]; [by apply no_last in E2|]. split; [lia|by intros _].
  - destruct (HasBlock _ _ _) eqn:E3; cbn [negb]; ye; [|done]. split; [done|]. unfold HasBlock, HasHeader in E3. apply bool_decide_eq_true in E3. destruct (Z.eqb_spec (Number b) 0) as [E0|Hne]; [by rewrite no_block_last in E3|].
    split; [lia|]. destruct (blocks bc !! _); [by eexists|done].
Qed.

(** The blocks of a batch. *)
Definition batch (bc : BlockChain) (chain : list Blk) : Prop := Forall (fun b => valid bc b /\ sound (content b)) chain.

Lemma batch_grows bc bc' chain : grows bc bc' -> batch bc chain -> batch bc' chain.
Proof. intros G H. eapply list.Forall_impl; [exact H|]. intros b [Hv Hs]. split; [by eapply valid_grows|done]. Qed.

(** A block of the batch with the verdict on it. *)
Definition verdict (bc : BlockChain) (it : insertIterator) (block : option Blk) (err : option ChainError) : Prop :=
  match block with None => True | Some b => (0 <= it_index it /\ it_chain it !! Z.to_nat (it_index it) = Some b) /\ fits bc b err end.

(** The number of blocks that are left, with this one. *)
Definition left_over (it : insertIterator) (block : option Blk) : nat :=
  match block with None => 0 | Some _ => length (it_chain it) - Z.to_nat (it_index it) end.

Lemma left_over_pos bc it b err : verdict bc it (Some b) err -> (0 < left_over it (Some b) <= length (it_chain it))%nat.
Proof. intros [[_ E%lookup_lt_Some] _]. cbn. lia. Qed.

Lemma verdict_same bc bc' it block err : ChainDB_ bc' = ChainDB_ bc -> verdict bc it block err -> verdict bc' it block err.
Proof. destruct block; [|done]. intros E [H1 H2]. split; [done|by eapply fits_same]. Qed.

(** The iterator has moved on from a block. *)
Definition moved (it it' : insertIterator) (block' : option Blk) : Prop :=
  forall b, 0 <= it_index it -> it_chain it !! Z.to_nat (it_index it) = Some b -> (left_over it' block' < left_over it (Some b))%nat /\ previous it' = Some b.

Lemma next_yields {F : Prop} it bc : chain_inv bc -> batch bc (it_chain it) -> -1 <= it_index it ->
  yields F (next BlockHash DeriveSha bls it) bc (fun '(it', block, err) bc' => bc' = bc /\ it_chain it' = it_chain it /\ verdict bc it' block err /\ moved it it' block).
Proof.
  intros H Hb Hi. unfold next. destruct (it_chain it !! _) as [b|] eqn:E.
  - assert (Hm : moved it (mkIterator (it_chain it) (it_results it) (it_index it + 1)) (Some b)).
    { intros b0 H0 E0. unfold previous. cbn. destruct (Z.ltb_spec (it_index it + 1) 1); [lia|]. apply lookup_lt_Some in E. replace (it_index it + 1 - 1) with (it_index it) by lia. split; [lia|done]. }
    assert (Hp : 0 <= it_index it + 1) by lia. pose proof (list_elem_of_lookup_2 _ _ _ E) as Hin. cbn [it_results it_chain]. destruct (it_results it _); [by ye|].
    assert (Hs : sound (content b)) by (unfold batch in Hb; rewrite list.Forall_forall in Hb; by apply Hb).
    ye. use (by apply ValidateBody_yields). intros err bc' [-> Hf]. ye. by split_and!.
  - ye. split_and!; [done|done|done|]. intros b0 H0 E0. apply lookup_ge_None_1 in E. pose proof (lookup_lt_Some _ _ _ E0). unfold previous, left_over. cbn. unfold zlen. split; [lia|].
    destruct (Z.ltb_spec (Z.of_nat (length (it_chain it))) 1); [lia|]. replace (Z.to_nat (Z.of_nat (length (it_chain it)) - 1)) with (Z.to_nat (it_index it)) by lia. done.
Qed.

(** ** Writing *)

(** A table of blocks or total difficulties that only gets more entries. *)
Record extends (d d' : ChainDB) : Prop := {
  ex_blocks : t_blocks d ⊆ t_blocks d';
  ex_td : t_td d ⊆ t_td d';
  ex_canonical : t_canonical d' = t_canonical d;
  ex_head : t_head d' = t_head d
}.

Definition stored (d : ChainDB) (c : Content) : Prop := t_blocks d !! (c_Number c, BlockHash c) = Some c.

Lemma linked_extends d d' n h : extends d d' -> linked d n h -> linked d' n h.
Proof.
  intros [H1 H2 H3 _] (Hn & [t Ht] & Hp). split_and!; [done|exists t; by eapply lookup_weaken|]. intros H0. destruct (Hp H0) as (c & Ec & Ep). exists c. rewrite H3. split; [by eapply lookup_weaken|done].
Qed.

Lemma inv_extends bc d' : chain_inv bc -> store_ok d' -> extends (ChainDB_ bc) d' -> chain_inv (set_db d' bc) /\ grows bc (set_db d' bc).
Proof.
  intros H Hs Hx. pose proof (head_td_spec bc H) as Ht. pose proof H as [H1 H2 H3 H4 H5 H6 H7 H8 H9]. pose proof Hx as [X1 X2 X3 X4]. split.
  - split; cbn; rewrite ?X3, ?X4; try done.
    + intros n h E. destruct (H6 n h E) as [Hle Hl]. split; [done|by eapply linked_extends].
    + intros h t E. destruct (H7 h t E) as (n & t' & -> & Et). exists n, t'. split; [done|by eapply lookup_weaken].
  - split; [done|]. unfold head_td at 2. cbn. erewrite lookup_weaken; [|exact Ht|done]. done.
Qed.

Lemma WriteBlock_ok c d : store_ok d -> sound c -> 0 < c_Number c -> is_Some (t_blocks d !! (c_Number c - 1, c_ParentHash c)) ->
  store_ok (WriteBlock BlockHash c d) /\ extends d (WriteBlock BlockHash c d) /\ stored (WriteBlock BlockHash c d) c.
Proof.
  intros H Hs Hpos Hpar. assert (Hb : t_blocks d ⊆ <[(num c, BlockHash c) := c]> (t_blocks d)).
  { destruct (t_blocks d !! (num c, BlockHash c)) as [c'|] eqn:E; [|by apply insert_subseteq]. destruct (st_keyed _ H _ _ _ E) as (Eh & _). apply collision_free in Eh as <-. by rewrite insert_id. }
  unfold stored. cbn. rewrite num_sound in * by done. split_and!; [|split; cbn; rewrite ?num_sound by done; done|by rewrite lookup_insert_eq]. pose proof H as [H1 Hp Hz H2 H3]. split; cbn; rewrite ?num_sound by done.
  - intros n h c' [[[= <- <-] <-]|[Hne E]]%lookup_insert_Some; [done|by apply H1].
  - intros n h c' [[[= <- <-] <-]|[Hne E]]%lookup_insert_Some Hn; [destruct Hpar as [p Ep]|destruct (Hp _ _ _ E Hn) as [p Ep]]; exists p; by eapply lookup_weaken.
  - intros h c' [[[= E0 <-] <-]|[Hne E]]%lookup_insert_Some; [lia|by apply (Hz h)].
  - intros h n. rewrite lookup_insert_Some. split.
    + intros [[<- <-]|[Hne E]]; [exists c; by rewrite lookup_insert_eq|]. apply H2 in E as (c' & E). exists c'. by eapply lookup_weaken.
    + intros (c' & [[[= <- <-] <-]|[Hne E]]%lookup_insert_Some); [by left|]. destruct (H1 _ _ _ E) as (-> & -> & _). right.
      split; [intros Eh; apply collision_free in Eh; by subst|]. apply H2. by exists c'.
  - intros n h t E. destruct (H3 n h t E) as (Hw & c' & Ec & Hpt). split; [done|]. exists c'. split; [by eapply lookup_weaken|done].
Qed.

Lemma store_block_ok appends b receipts d d' : store_ok d -> sound (content b) -> store_block BlockHash appends b receipts d = inl d' ->
  0 < Number b /\ store_ok d' /\ extends d d' /\ stored d' (content b) /\ is_Some (t_td d' !! (Number b, Hash b)).
Proof.
  intros H Hs E. unfold store_block, ReadTd in E. destruct (t_td d !! _) as [ptd|] eqn:Ep; [|done]. pose proof (so_number _ Hs) as Hn. pose proof (so_difficulty _ Hs).
  assert (Hpos : 0 < Number b).
  { destruct (decide (0 < Number b)) as [|Hn0]; [done|]. assert (E0 : Number b = 0) by lia. rewrite E0 in Ep. destruct (st_td _ H _ _ _ Ep) as (_ & c & Ec & _).
    destruct (st_keyed _ H _ _ _ Ec) as (_ & Ec' & Hsc). pose proof (so_number _ Hsc) as Hb. rewrite <- Ec' in Hb. change (u64 (wrap256 (0 - 1))) with (two64 - 1) in Hb. lia. }
  assert (Ek : u64 (wrap256 (Number b - 1)) = Number b - 1) by (unfold u64, wrap256; rewrite (Z.mod_small _ two256), (Z.mod_small _ two64) by lia; done). rewrite Ek in Ep. rewrite num_sound in E by done.
  set (td := wrap256 (ptd + c_Difficulty (content b))) in *. set (d1 := WriteTd (Hash b) (Number b) td d) in *. destruct (receipts && negb _); [done|]. injection E as <-.
  assert (Hsub : t_td d ⊆ t_td d1).
  { cbn. destruct (t_td d !! (Number b, Hash b)) as [t|] eqn:Et; [|by apply insert_subseteq]. destruct (st_td _ H _ _ _ Et) as (_ & c & Ec & Hp). destruct (st_keyed _ H _ _ _ Ec) as (Eh & _ & _).
    apply collision_free in Eh as <-. destruct (Hp Hpos) as (tp & Etp & ->). assert (tp = ptd) as -> by congruence. by rewrite insert_id. }
  destruct (st_td _ H _ _ _ Ep) as (_ & cp & Ecp & _). destruct (WriteBlock_ok (content b) d H Hs Hpos) as ([W1 Wp Wz W2 W3] & [X1 X2 X3 X4] & W); [by eexists|].
  set (d2 := WriteTxLookupEntries _ _). assert (Ed : t_blocks d2 = t_blocks (WriteBlock BlockHash (content b) d) /\ t_numbers d2 = t_numbers (WriteBlock BlockHash (content b) d) /\
    t_td d2 = <[(Number b, Hash b) := td]> (t_td d) /\ t_canonical d2 = t_canonical d /\ t_head d2 = t_head d) by (by destruct receipts). destruct Ed as (E1 & E2 & E3 & E4 & E5).
  split_and!; [done| | | |].
  - split; rewrite ?E1, ?E2, ?E3; [exact W1|exact Wp|exact Wz|exact W2|]. intros n h t [[[= <- <-] <-]|[Hne E]]%lookup_insert_Some.
    + split; [apply wrap256_word|]. exists (content b). split; [done|]. intros _. exists ptd. split; [|done]. by eapply lookup_weaken.
    + destruct (W3 n h t E) as (Hw & c & Ec & Hp). split; [done|]. exists c. split; [done|]. intros Hn0. destruct (Hp Hn0) as (tp & Etp & ->). exists tp. split; [by eapply lookup_weaken|done].
  - split; rewrite ?E1, ?E3; done.
  - unfold stored. by rewrite E1.
  - exists td. by rewrite E3, lookup_insert_eq.
Qed.

(** The markers from a number on are gone, or the one at the number is left. *)
Record cut (bc bc' : BlockChain) (n : Z) : Prop := {
  ct_blocks : blocks bc' = blocks bc;
  ct_numbers : numbers bc' = numbers bc;
  ct_td : tds bc' = tds bc;
  ct_below m : m < n -> canonical bc' !! m = canonical bc !! m;
  ct_above m : n < m -> canonical bc' !! m = None;
  ct_cache : tdCache bc' = tdCache bc;
  ct_objects : objects bc ⊆ objects bc';
  ct_future : futureBlocks bc' ⊆ futureBlocks bc
}.

Lemma writeHead_yields {F : Prop} bc bc2 b t : chain_inv bc -> cut bc bc2 (Number b) -> valid bc2 b -> sound (content b) -> stored (ChainDB_ bc) (content b) ->
  tds bc !! (Number b, Hash b) = Some t -> ready bc (content b) -> 0 < Number b -> head_td bc <= t -> yields F (writeHeadBlock BlockHash b) bc2 (fun _ bc' => chain_inv bc' /\ grows bc bc').
Proof.
  intros H [C1 C2 C3 C4 C5 C6 C7 C8] Hv Hs Hst Ht Hr Hpos Hle. unfold writeHeadBlock, on_db. ye. cbn.
  assert (Eb : <[(num (content b), Hash b) := content b]> (blocks bc2) = blocks bc) by (rewrite num_sound, C1 by done; by rewrite insert_id).
  assert (En : <[Hash b := num (content b)]> (numbers bc2) = numbers bc).
  { rewrite num_sound, C2 by done. apply insert_id. apply (st_numbers _ (ci_store _ H)). by exists (content b). }
  split.
  - pose proof (ci_store _ H) as [S1 Sp Sz S2 S3]. split; cbn; rewrite ?Eb, ?En, ?C3, ?C6; [by split; cbn; rewrite ?Eb, ?En, ?C3|done|done|done| | |apply H| |].
    + by rewrite num_sound, lookup_insert_eq.
    + rewrite num_sound by done. intros n h [[<- <-]|[Hne E]]%lookup_insert_Some.
      * split; [done|]. unfold linked. cbn. rewrite Eb, C3. pose proof (so_number _ Hs). split_and!; [lia|by eexists|]. intros Hn0. exists (content b). split; [done|].
        rewrite lookup_insert_ne by lia. rewrite C4 by lia. by apply Hr.
      * assert (Hlt : n < Number b) by (destruct (decide (n < Number b)); [done|]; rewrite C5 in E by lia; done). rewrite C4 in E by done. destruct (ci_canon _ H n h E) as (_ & L1 & L2 & L3).
        split; [lia|]. unfold linked. cbn. rewrite Eb, C3. split_and!; [done|done|]. intros Hn0. destruct (L3 Hn0) as (c & Ec & Ep). exists c. split; [done|].
        rewrite lookup_insert_ne by lia. rewrite C4 by lia. done.
    + rewrite num_sound, lookup_insert_ne, C4 by (done || lia). apply H.
    + intros h b' E. destruct (ci_future _ H h b') as [Hv' Hs']; [by eapply lookup_weaken|]. split; [by eapply lookup_weaken|done].
  - split; [done|]. unfold head_td at 2. cbn. by rewrite C3, Ht.
Qed.

(** ** Reorganisation *)

Lemma same_cut bc bc' n : chain_inv bc -> same bc bc' -> tdCache bc' = tdCache bc -> (forall m, n < m -> canonical bc !! m = None) -> cut bc bc' n.
Proof. intros H [S1 S2 S3 S4] Ec Ha. split; rewrite ?S1; done. Qed.

(** Old blocks are canonical. *)
Definition on_chain (bc : BlockChain) (b : Blk) : Prop := stored (ChainDB_ bc) (content b) /\ known bc (content b).

Lemma on_chain_current bc : chain_inv bc -> on_chain bc (currentBlock bc).
Proof. intros H. split; [by apply current_stored|apply H]. Qed.

Lemma on_chain_same bc bc' b : ChainDB_ bc' = ChainDB_ bc -> on_chain bc b -> on_chain bc' b.
Proof. intros E. unfold on_chain, known, stored. by rewrite E. Qed.

Lemma stored_sound d c : store_ok d -> stored d c -> sound c.
Proof. intros H E. by destruct (st_keyed _ H _ _ _ E) as (_ & _ & Hs). Qed.

Lemma parent_on_chain bc b c : chain_inv bc -> on_chain bc b -> 0 < Number b -> blocks bc !! (Number b - 1, c_ParentHash (content b)) = Some c -> stored (ChainDB_ bc) c /\ known bc c /\ c_Number c = Number b - 1.
Proof.
  intros H [Hst Hk] Hn E. destruct (st_keyed _ (ci_store _ H) _ _ _ E) as (Eh & En & _). pose proof (canonical_content _ _ _ _ H Hk Hst Hn) as Ep.
  unfold stored, known. rewrite <- Eh, <- En. done.
Qed.

(** The tables, the head and the cache are as before. *)
Record calm (bc bc' : BlockChain) : Prop := {
  cm_same : same bc bc';
  cm_cache : tdCache bc' = tdCache bc
}.

#[local] Instance calm_preorder : PreOrder calm.
Proof. split; [by split|]. intros a b c [H1 H2] [K1 K2]. split; [by etransitivity|congruence]. Qed.

Lemma calm_inv bc bc' : chain_inv bc -> calm bc bc' -> chain_inv bc'.
Proof. intros H [[S1 S2 S3 S4] E]. apply (inv_same bc bc'); by rewrite ?E. Qed.

Lemma calm_on_chain bc bc' b : calm bc bc' -> on_chain bc' b -> on_chain bc b.
Proof. intros [S _]. apply on_chain_same. by rewrite (sm_db _ _ S). Qed.

Lemma allocate_ends c bc : ends (allocate c) bc (fun b bc' => content b = c /\ valid bc' b /\ objects bc !! address b = None /\ calm bc bc').
Proof.
  eexists _, _. split; [done|]. assert (Hf : objects bc !! fresh (dom (objects bc)) = None) by (apply not_elem_of_dom, is_fresh). split_and!; [done| |done|].
  - unfold valid. cbn. by rewrite lookup_insert_eq.
  - split; [|done]. split; cbn; [done|done|by apply insert_subseteq|done].
Qed.

Lemma GetBlock_ends hash number c bc : chain_inv bc -> blocks bc !! (number, hash) = Some c -> ends (GetBlock hash number) bc (fun r bc' => exists b, r = Some b /\ content b = c /\ objects bc !! address b = None /\ calm bc bc').
Proof.
  intros H E. unfold GetBlock. destruct (st_keyed _ (ci_store _ H) _ _ _ E) as (-> & _). destruct (Z.eqb_spec (BlockHash c) 0) as [E0|_]; [by destruct (hash_nonzero c)|]. go. unfold ReadBlock. rewrite E. go.
  call (apply allocate_ends). intros b bc' (Ec & _ & Hf & Hc). go. by exists b.
Qed.

Lemma shorten_old_ends n fuel : forall b acc bc, chain_inv bc -> on_chain bc b -> 0 <= n <= Number b -> (Z.to_nat (Number b - n) < fuel)%nat ->
  ends (shorten_old fuel (Some b) n acc) bc (fun '(o, _) bc' => calm bc bc' /\ exists b', o = Some b' /\ on_chain bc b' /\ Number b' = n).
Proof.
  induction fuel as [|fuel IH]; intros b acc bc H Ho Hn Hf; [lia|]. cbn [shorten_old]. pose proof (stored_sound _ _ (ci_store _ H) (proj1 Ho)) as Hsb. rewrite num_sound by done.
  destruct (Z.eqb_spec (Number b) n) as [En|Hne]; [go; split; [done|by exists b]|]. assert (Hpos : 0 < Number b) by lia. destruct (st_parent _ (ci_store _ H) _ _ _ (proj1 Ho) Hpos) as [c Ec].
  go. rewrite <- (num_sound (content b)), u64_pred by done. destruct (Z.eqb_spec (Number b) 0) as [E0|_]; [lia|]. call (by apply (GetBlock_ends _ _ c)). intros r bc' (b' & -> & Eb & _ & Hc).
  destruct (parent_on_chain bc b c H Ho Hpos Ec) as (P1 & P2 & P3). assert (Ho' : on_chain bc' b') by (apply (on_chain_same bc); [apply Hc|rewrite <- Eb in P1, P2; done]).
  call (apply IH; [by eapply calm_inv|done|rewrite Eb; lia|rewrite Eb; lia]). intros [o l] bc2 (Hc2 & b2 & -> & Ho2 & En2). split; [by etransitivity|]. exists b2. split_and!; [done|by eapply calm_on_chain|done].
Qed.

(** The loop never finds the number of the old block: it goes past the genesis block.
    The addresses of what is read from the database are new. *)
Lemma shorten_new_ends a fuel : forall b acc bc, chain_inv bc -> sound (content b) -> address b <> a -> is_Some (objects bc !! a) -> (S (Z.to_nat (Number b)) < fuel)%nat ->
  ends (shorten_new fuel (Some b) a acc) bc (fun '(n, _) bc' => n = None /\ calm bc bc').
Proof.
  induction fuel as [|fuel IH]; intros b acc bc H Hs Hne Ha Hf; [lia|]. cbn [shorten_new]. destruct (N.eqb_spec (address b) a) as [|_]; [done|]. pose proof (so_number _ Hs).
  assert (Hend : forall acc', ends (shorten_new fuel None a acc') bc (fun '(n, _) bc' => n = None /\ calm bc bc')) by (intros acc'; destruct fuel; [lia|]; cbn [shorten_new]; by go).
  rewrite u64_pred by done. destruct (blocks bc !! (if Number b =? 0 then two64 - 1 else Number b - 1, c_ParentHash (content b))) as [c|] eqn:E.
  - destruct (Z.eqb_spec (Number b) 0) as [E0|Hn0]; [by rewrite no_block_last in E|]. destruct (st_keyed _ (ci_store _ H) _ _ _ E) as (_ & En & Hsc). go. call (by apply (GetBlock_ends _ _ c)). intros r bc' (b' & -> & Eb & Hfr & Hc).
    destruct Ha as [x Ex]. call (apply IH; [by eapply calm_inv|by rewrite Eb|intros <-; congruence|exists x; eapply lookup_weaken; [exact Ex|apply Hc]|rewrite Eb; lia]). intros [n l] bc2 (-> & Hc2). split; [done|by etransitivity].
  - go. unfold GetBlock, ReadBlock. destruct (c_ParentHash (content b) =? 0); go; [apply Hend|]. rewrite E. go. apply Hend.
Qed.

Lemma common_block_ends fuel old b oldChain bc : chain_inv bc -> on_chain bc old -> sound (content b) -> Number old = Number b -> 0 < Number b -> ready bc (content b) -> (1 < fuel)%nat ->
  ends (common_block BlockHash fuel old b oldChain []) bc (fun '(c, _, newChain) bc' => calm bc bc' /\ (newChain = [] /\ Number c = Number b \/ newChain = [b] /\ Number c = Number b - 1) /\ sound (content c)).
Proof.
  intros H Ho Hsb En Hpos Hr Hf. destruct fuel as [|fuel]; [lia|]. cbn [common_block]. pose proof (stored_sound _ _ (ci_store _ H) (proj1 Ho)) as Hso.
  destruct (Z.eqb_spec (Hash old) (Hash b)) as [Eh|Hne]; [go; split_and!; [done|left; done|done]|]. go. assert (Hpo : 0 < Number old) by lia. destruct (st_parent _ (ci_store _ H) _ _ _ (proj1 Ho) Hpo) as [o Eo].
  destruct (parent_on_chain bc old o H Ho Hpo Eo) as (P1 & P2 & P3). assert (Ep : c_ParentHash (content old) = c_ParentHash (content b)).
  { pose proof (canonical_content _ _ _ _ H (proj2 Ho) (proj1 Ho) Hpo) as E1. rewrite En, (Hr Hpos) in E1. congruence. }
  rewrite !u64_pred by done. rewrite <- En. destruct (Z.eqb_spec (Number old) 0) as [E0|_]; [lia|]. eapply ends_must; [exact Eo|]. go. rewrite <- Ep. eapply ends_must; [exact Eo|]. go.
  call (apply allocate_ends). intros o' bc1 (Eo' & _ & _ & C1). go. call (apply allocate_ends). intros n' bc2 (En' & _ & _ & C2). destruct fuel as [|fuel]; [lia|]. cbn [common_block]. rewrite Eo', En', Z.eqb_refl. go. split_and!.
  - by etransitivity.
  - right. split; [done|]. rewrite Eo'. lia.
  - rewrite Eo'. by apply (stored_sound _ _ (ci_store _ H)).
Qed.

Lemma truncate_ends i bc : chain_inv bc -> 0 < i <= Number (currentBlock bc) + 1 -> forall bc1, canonical bc1 = canonical bc -> ends (truncate_from 3 i) bc1 (fun _ bc' =>
  (exists m, bc' = set_db (with_canonical m (ChainDB_ bc1)) bc1) /\ (forall m, m < i -> canonical bc' !! m = canonical bc !! m) /\ (forall m, i <= m -> canonical bc' !! m = None)).
Proof.
  intros H Hi bc1 Ec. pose proof (so_number _ (ci_sound _ H)) as Hn. cbn [truncate_from]. go. unfold ReadCanonicalHash. rewrite Ec.
  assert (Eu : u64 i = i) by (unfold u64; rewrite Z.mod_small; lia). rewrite Eu. destruct (canonical bc !! i) as [h|] eqn:E.
  - destruct (canonical_stored bc _ _ H E) as (c & Es). destruct (st_keyed _ (ci_store _ H) _ _ _ Es) as (-> & _). change (default 0 (Some (BlockHash c))) with (BlockHash c). destruct (Z.eqb_spec (BlockHash c) 0) as [E0|_]; [by destruct (hash_nonzero c)|].
    destruct (ci_canon _ H _ _ E) as (Hle & _). unfold on_db. go. cbn. rewrite Ec.
    assert (Hf : forall m, base.filter (fun e : Z * Z => e.1 < i) (canonical bc) !! m = if decide (m < i) then canonical bc !! m else None).
    { intros m. apply option_eq. intros x. rewrite map_lookup_filter_Some. cbn. case_decide; [tauto|]. split; [tauto|done]. }
    rewrite Hf. assert (Eu' : u64 (i + 1) = i + 1) by (unfold u64; rewrite Z.mod_small; lia). rewrite Eu', decide_False by lia. cbn. go. split_and!.
    + by eexists.
    + intros m Hm. cbn. rewrite Ec, Hf, decide_True by done. done.
    + intros m Hm. cbn. rewrite Ec, Hf, decide_False by lia. done.
  - cbn. go. split_and!; [exists (canonical bc1); by destruct bc1 as [[]]|by rewrite Ec|]. intros m Hm. rewrite Ec. destruct (canonical bc !! m) as [h|] eqn:Em; [|done].
    destruct (canonical_below bc m i h H Em ltac:(lia)) as [h' E']. congruence.
Qed.

Lemma foldl_lookup_only l : forall d, let d' := foldl (fun d t => DeleteTxLookupEntry t d) d l in
  t_blocks d' = t_blocks d /\ t_numbers d' = t_numbers d /\ t_td d' = t_td d /\ t_canonical d' = t_canonical d /\ t_head d' = t_head d.
Proof. induction l as [|t l IH]; intros d; [done|]. cbn [foldl]. apply (IH (DeleteTxLookupEntry t d)). Qed.

(** A reorganisation to a block below the head succeeds and removes the markers from the
    block on; one to another block that is not below it fails. *)
Lemma reorg_ends b bc : chain_inv bc -> valid bc b -> sound (content b) -> 0 < Number b -> ready bc (content b) ->
  ends (reorg BlockHash (currentBlock bc) b) bc (fun err bc' => match err with Some e => e = errInvalidNewChain /\ Number (currentBlock bc) <= Number b /\ calm bc bc' | None => cut bc bc' (Number b) end).
Proof.
  intros H Hv Hs Hpos Hr. pose proof (ci_sound _ H) as Hc. unfold reorg. rewrite !num_sound by done.
  set (Q := fun (err : option ChainError) bc' => match err with Some e => e = errInvalidNewChain /\ Number (currentBlock bc) <= Number b /\ calm bc bc' | None => cut bc bc' (Number b) end).
  assert (Htail : forall bc1 c oc nc, calm bc bc1 -> (nc = [] /\ Number c = Number b \/ nc = [b] /\ Number c = Number b - 1) -> sound (content c) -> Number b <= Number (currentBlock bc) ->
    ends (_ ← write_heads BlockHash (reverse (drop 1 nc)); _ ← on_db (fun d => foldl (fun d t => DeleteTxLookupEntry t d) d (HashDifference (oc ≫= fun b => c_txs (content b)) (reverse (drop 1 nc) ≫= fun b => c_txs (content b))));
      _ ← truncate_from 3 (match nc !! 1%nat with Some b => num (content b) | None => num (content c) end + 1); mret None) bc1 Q).
  { intros bc1 c oc nc [Hsm Ht] Hnc Hsc Hle. assert (Hd : drop 1 nc = [] /\ nc !! 1%nat = None) by (destruct Hnc as [[-> _]|[-> _]]; done). destruct Hd as [-> ->]. change (reverse []) with (@nil Blk). cbn [write_heads].
    match goal with |- context [HashDifference ?a ?b] => generalize (HashDifference a b); intros l end. unfold on_db. go.
    destruct (foldl_lookup_only l (ChainDB_ bc1)) as (F1 & F2 & F3 & F4 & F5). rewrite num_sound by done. assert (Hi : 0 < Number c + 1 <= Number (currentBlock bc) + 1) by (pose proof (so_number _ Hsc); destruct Hnc as [[_ ->]|[_ ->]]; lia).
    call (apply (truncate_ends (Number c + 1) bc H Hi); cbn; by rewrite F4, (sm_db _ _ Hsm)). intros _ bc2 ((m & ->) & T1 & T2). go. unfold Q. rewrite (sm_db _ _ Hsm) in F1, F2, F3.
    split; cbn; rewrite ?(sm_db _ _ Hsm); [done|done|done| | |done|apply Hsm|apply Hsm].
    - intros k Hk. apply T1. destruct Hnc as [[_ ->]|[_ ->]]; lia.
    - intros k Hk. apply T2. destruct Hnc as [[_ ->]|[_ ->]]; lia. }
  destruct (Z.ltb_spec (Number b) (Number (currentBlock bc))) as [Hlt|Hge].
  - go. call (apply shorten_old_ends; [done|by apply on_chain_current|lia|lia]). intros [o oc] bc1 (C1 & o' & -> & Hon & Eno). go. pose proof (stored_sound _ _ (ci_store _ H) (proj1 Hon)) as Hso. rewrite num_sound by done.
    call (apply common_block_ends; [by eapply calm_inv|by eapply on_chain_same; [apply C1|]|done|done|done|unfold ready; by rewrite (sm_db _ _ (cm_same _ _ C1))|lia]).
    intros [[c oc'] nc] bc2 (C2 & Hnc & Hsc). apply Htail; [by etransitivity|done|done|lia].
  - destruct (decide (address b = address (currentBlock bc))) as [Ea|Hne].
    + assert (Ec : content b = content (currentBlock bc)) by (pose proof (ci_valid _ H) as V; unfold valid in *; congruence). apply ends_bind. cbn [shorten_new]. rewrite Ea, N.eqb_refl. go. cbn [common_block]. rewrite Ec, Z.eqb_refl. apply ends_ret. cbv beta match.
      apply Htail; [done|left; split; [done|by rewrite Ec]|done|by rewrite Ec].
    + go. call (apply shorten_new_ends; [done|done|done|eexists; apply H|lia]). intros [n nc] bc1 (-> & C1). go. unfold Q. by split_and!.
Qed.

Definition keeps_inv {A} (F : Prop) (bc : BlockChain) (m : MC A) : Prop := yields F m bc (fun _ bc' => chain_inv bc' /\ grows bc bc').

Lemma keeps_done {A F} bc (m : MC A) a bc' : keeps_inv F bc m -> m bc = Done (a, bc') -> chain_inv bc' /\ grows bc bc'.
Proof. intros H E. by apply (yields_done _ _ _ _ _ H E). Qed.

Lemma inv_future bc m : chain_inv bc -> (forall h b, m !! h = Some b -> valid bc b /\ sound (content b)) -> chain_inv (set_future m bc) /\ grows bc (set_future m bc).
Proof. intros [H1 H2 H3 H4 H5 H6 H7 H8 _] Hm. by split; [split|]. Qed.

Lemma inv_done bc h : chain_inv bc -> chain_inv (set_future (delete h (futureBlocks bc)) bc) /\ grows bc (set_future (delete h (futureBlocks bc)) bc).
Proof. intros H. apply inv_future; [done|]. intros h' b [_ E]%lookup_delete_Some. by apply (ci_future _ H h'). Qed.

Lemma writeBlockWithState_yields {F : Prop} coin appends b receipts bc : chain_inv bc -> valid bc b -> sound (content b) -> ready bc (content b) ->
  keeps_inv F bc (writeBlockWithState BlockHash coin evict appends b receipts).
Proof.
  intros H Hv Hs Hr. unfold keeps_inv, writeBlockWithState. ye. destruct (store_block BlockHash appends b receipts (ChainDB_ bc)) as [d|e] eqn:E; [|by ye].
  destruct (store_block_ok _ _ _ _ _ (ci_store _ H) Hs E) as (Hpos & Hok & Hx & Hst & [t Ht]). destruct (inv_extends bc d H Hok Hx) as [H1 G1]. ye.
  use (by apply ReorgNeeded_yields). intros needed bc2 (H2 & S2 & tl & te & El & Ee & Hyes & Hno). assert (G2 : grows bc bc2) by (etransitivity; [exact G1|by apply same_grows]).
  destruct needed; cbn [negb].
  2: { ye. destruct (inv_done bc2 (Hash b) H2) as [H3 G3]. split; [done|by etransitivity]. }
  cbn in El, Ee. assert (Hr2 : ready bc2 (content b)) by (unfold ready; rewrite (sm_db _ _ S2); cbn; by rewrite (ex_canonical _ _ Hx)).
  assert (Hst2 : stored (ChainDB_ bc2) (content b)) by (unfold stored; by rewrite (sm_db _ _ S2)). assert (Ht2 : tds bc2 !! (Number b, Hash b) = Some te) by by rewrite (sm_db _ _ S2).
  assert (Hle : head_td bc2 <= te) by (unfold head_td; rewrite (sm_db _ _ S2), (sm_current _ _ S2); cbn; rewrite El; by apply Hyes).
  assert (Hfin : forall bc3, cut bc2 bc3 (Number b) -> yields F (_ ← writeHeadBlock BlockHash b; _ ← modify (fun bc => set_future (delete (Hash b) (futureBlocks bc)) bc); mret (inl CanonStatTy : WriteStatus + ChainError)) bc3
    (fun _ bc' => chain_inv bc' /\ grows bc bc')).
  { intros bc3 Hcut. ye. assert (Hv3 : valid bc3 b) by (eapply lookup_weaken; [by eapply valid_grows|apply Hcut]). use (by apply (writeHead_yields bc2 bc3 b te)). intros _ bc4 [H4 G4]. ye.
    destruct (inv_done bc4 (Hash b) H4) as [H5 G5]. split; [done|]. etransitivity; [exact G2|by etransitivity]. }
  replace (currentBlock (set_db d bc)) with (currentBlock bc2) by by rewrite (sm_current _ _ S2). destruct (Z.eqb_spec (c_ParentHash (content b)) (Hash (currentBlock bc2))) as [Ep|Hne].
  - apply yields_bind, yields_ret. cbv beta match. apply Hfin. apply same_cut; [done|done|done|]. intros m Hm. destruct (canonical bc2 !! m) as [h|] eqn:Em; [|done]. destruct (ci_canon _ H2 _ _ Em) as (Hle' & _).
    specialize (Hr2 Hpos). rewrite Ep in Hr2. destruct (canonical_stored bc2 _ _ H2 Hr2) as (c & Ec). destruct (hash_content _ _ _ _ _ _ (ci_store _ H2) (current_stored bc2 H2) Ec) as [En _]. lia.
  - apply yields_bind. use (apply yields_ends, (reorg_ends b bc2); [done|by eapply valid_grows|done|done|done]). intros [e|] bc3 Hq; [|by apply Hfin]. ye. destruct Hq as (_ & _ & C3).
    split; [by eapply calm_inv|]. etransitivity; [exact G2|apply same_grows, C3].
Qed.

(** ** Import *)

Context (coin stop : nat -> bool) (Now : nat -> Z) (appends : gset Z -> Z -> bool) (write_closed : outcome Z) (execute : nat -> Content -> Z + bool) (verify : nat -> list Content -> nat -> option Z).

Lemma keeps_turn {F : Prop} bc : chain_inv bc -> yields F turn_ bc (fun _ bc' => chain_inv bc' /\ same bc bc').
Proof. intros H. apply turn_yields. intros n bc' E1 E2 E3 E4 E5. destruct (inv_same bc bc' H E1 E2) as [H' _]; [by rewrite E3|by rewrite E4|by rewrite E5|]. split; [done|]. split; [done|done|by rewrite E4|by rewrite E5]. Qed.

Lemma stopped_yields {F : Prop} bc : chain_inv bc -> yields F (insertStopped stop) bc (fun _ bc' => chain_inv bc' /\ same bc bc').
Proof. intros H. unfold insertStopped. ye. use (by apply keeps_turn). intros n bc' Hn. by ye. Qed.

Lemma addFutureBlock_yields {F : Prop} b bc : chain_inv bc -> valid bc b -> sound (content b) -> keeps_inv F bc (addFutureBlock BlockHash Now evict b).
Proof.
  intros H Hv Hs. unfold keeps_inv, addFutureBlock. ye. use (by apply keeps_turn). intros n bc1 [H1 S1]. apply same_grows in S1. destruct (_ <? _); [by ye|]. destruct (_ =? 0); [by ye|]. ye.
  destruct (inv_future bc1 (evict _ (<[Hash b := b]> (futureBlocks bc1))) H1) as [H2 G2].
  - intros h b' E. eapply lookup_weaken in E; [|apply evict_sub]. apply lookup_insert_Some in E as [[_ <-]|[_ E]]; [split; [by eapply valid_grows|done]|by apply (ci_future _ H1 h)].
  - split; [done|by etransitivity].
Qed.

(** What a loop over the batch hands on. *)
Definition handed (bc : BlockChain) (chain : list Blk) (it : insertIterator) (block : option Blk) (err : option ChainError) (bc' : BlockChain) : Prop :=
  chain_inv bc' /\ grows bc bc' /\ it_chain it = chain /\ verdict bc' it block err.

Lemma next_handed {F : Prop} bc chain it bc1 : chain_inv bc1 -> grows bc bc1 -> batch bc chain -> it_chain it = chain -> -1 <= it_index it ->
  yields F (next BlockHash DeriveSha bls it) bc1 (fun '(it', block, err) bc' => bc' = bc1 /\ handed bc chain it' block err bc' /\ moved it it' block).
Proof.
  intros H G Hb <- Hi. use (apply next_yields; [done|by eapply batch_grows|done]). intros [[it' block] err] bc' (-> & E & Hv & Hm). split_and!; [done| |done]. by split.
Qed.

(** The same behind a block that was handed on. *)
Lemma next_after {F : Prop} bc chain it b err bc0 bc1 : batch bc chain -> handed bc chain it (Some b) err bc0 -> chain_inv bc1 -> grows bc bc1 ->
  yields F (next BlockHash DeriveSha bls it) bc1 (fun '(it', block', err') bc' => bc' = bc1 /\ handed bc chain it' block' err' bc' /\ (left_over it' block' < left_over it (Some b))%nat /\ previous it' = Some b).
Proof.
  intros Hb (_ & _ & E & [Hi Hl] & _) H G. use (apply (next_handed bc chain); [done|done|done|done|lia]). intros [[it' block'] err'] bc' (-> & Hh & Hm). split_and!; [done|done|by apply Hm|by apply Hm].
Qed.

Lemma handed_block bc chain it b err bc1 : batch bc chain -> handed bc chain it (Some b) err bc1 -> valid bc1 b /\ sound (content b) /\ b ∈ chain.
Proof.
  intros Hb (_ & G & <- & [_ E%list_elem_of_lookup_2] & _). apply (batch_grows _ _ _ G) in Hb. unfold batch in Hb. rewrite list.Forall_forall in Hb. destruct (Hb _ E). done.
Qed.

Lemma handed_left bc chain it block err bc1 : handed bc chain it block err bc1 -> (left_over it block <= length chain)%nat.
Proof. intros (_ & _ & <- & Hv). destruct block as [b|]; [apply left_over_pos in Hv; lia|cbn; lia]. Qed.

Lemma skip_known_yields {F : Prop} current chain fuel : forall it block err bc bc1, batch bc chain -> handed bc chain it block err bc1 -> (left_over it block < fuel)%nat ->
  yields F (skip_known BlockHash DeriveSha bls coin evict fuel current it block err) bc1 (fun '(it', block', err') bc' =>
    handed bc chain it' block' err' bc' /\ ChainDB_ bc' = ChainDB_ bc1 /\ (block' <> None -> err' <> Some ErrKnownBlock)).
Proof.
  induction fuel as [|fuel IH]; intros it block err bc bc1 Hb Hh Hf; [lia|]. cbn [skip_known]. destruct block as [b|]; [|by ye]. destruct (bool_decide_reflect (err = Some ErrKnownBlock)) as [->|Hne]; [|by ye].
  pose proof Hh as (H & G & E & Hpl & Hk). cbn in Hk. ye. use (by apply ReorgNeeded_yields). intros needed bc2 (H2 & S2 & _). apply yields_bind.
  destruct (handed_block _ _ _ _ _ _ Hb Hh) as (_ & Hs & _). pose proof (sm_db _ _ S2) as Ed.
  assert (Hk2 : known bc2 (content b)) by (unfold known; by rewrite Ed). pose proof (so_number _ Hs) as Hn.
  apply (yields_mono _ _ (fun (out : bool) bc' => bc' = bc2 /\ (out = true -> 0 < Number b))).
  { destruct needed; [|by ye]. destruct (Z.ltb_spec (num current) (num (content b))) as [Hlt|_].
    - ye. split; [done|]. intros _. rewrite (num_sound (content b)) in Hlt by done. pose proof (Z.mod_pos_bound (c_Number current) two64 ltac:(lia)). unfold num, u64 in Hlt. lia.
    - unfold GetCanonicalHash, GetBlockByNumber. ye. unfold ReadCanonicalHash. assert (Eu : u64 (Number b) = Number b) by (unfold u64; rewrite Z.mod_small; lia). rewrite Eu, Hk2.
      change (default 0 (Some (Hash b))) with (Hash b). destruct (Z.eqb_spec (Hash b) 0) as [E0|_]; [by destruct (hash_nonzero (content b))|]. ye. apply yields_must. intros c Ec. ye. apply yields_must. intros ? [= <-]. ye.
      destruct (st_keyed _ (ci_store _ H2) _ _ _ Ec) as (Eh & _). split; [done|]. rewrite <- Eh. unfold known in Hk2. rewrite Hk2. cbn. by rewrite Z.eqb_refl. }
  intros out bc3 [-> Hout]. assert (G2 : grows bc bc2) by (etransitivity; [exact G|by apply same_grows]). destruct out.
  - ye. split_and!; [|done|done]. split_and!; [done|done|done|]. split; [done|]. cbn. split; [by apply Hout|by apply known_ready].
  - apply yields_bind. use (by apply (next_after bc chain it b (Some ErrKnownBlock) bc1)). intros [[it' block'] err'] bc3 (-> & Hh' & Hlt & _). use (apply IH; [done|done|lia]). intros [[it'' block''] err''] bc4. by rewrite Ed.
Qed.

Lemma write_known_yields {F : Prop} fuel it block err bc1 : (block <> None -> err <> Some ErrKnownBlock) -> (0 < fuel)%nat ->
  yields F (write_known BlockHash DeriveSha bls write_closed fuel it block err) bc1 (fun r bc' => bc' = bc1 /\ r = inl (it, block, err)).
Proof.
  intros Hne Hf. destruct fuel as [|fuel]; [lia|]. cbn [write_known]. destruct block as [b|]; [|by ye]. rewrite bool_decide_eq_false_2 by by apply Hne. by ye.
Qed.

Lemma queue_future_yields {F : Prop} chain more fuel : forall it block err bc bc1, batch bc chain -> handed bc chain it block err bc1 -> (left_over it block < fuel)%nat ->
  yields F (queue_future BlockHash DeriveSha bls Now evict fuel more it block err) bc1 (fun _ bc' => chain_inv bc' /\ grows bc bc').
Proof.
  induction fuel as [|fuel IH]; intros it block err bc bc1 Hb Hh Hf; [lia|]. cbn [queue_future]. pose proof Hh as (H & G & E & Hv). destruct block as [b|]; [|by ye]. destruct (more it err); [|by ye].
  destruct (handed_block _ _ _ _ _ _ Hb Hh) as (Hvb & Hsb & _). ye. use (by apply addFutureBlock_yields). intros e bc2 [H2 S2]. assert (G2 : grows bc bc2) by by etransitivity. destruct e; [by ye|]. ye.
  use (by apply (next_after bc chain it b err bc1)). intros [[it' block'] err'] bc3 (-> & Hh' & Hlt & _). apply IH; [done|done|lia].
Qed.

Lemma import_blocks_yields {F : Prop} chain fuel : forall it block err bc bc1, batch bc chain -> handed bc chain it block err bc1 -> (left_over it block < fuel)%nat ->
  yields F (import_blocks BlockHash DeriveSha bls execute coin stop evict appends fuel it block err) bc1 (fun r bc' => chain_inv bc' /\ grows bc bc' /\
    match r with inl (it', block', err') => handed bc chain it' block' err' bc' | inr _ => True end).
Proof.
  induction fuel as [|fuel IH]; intros it block err bc bc1 Hb Hh Hf; [lia|]. cbn [import_blocks]. pose proof Hh as (H & G & E & Hv). destruct block as [b|]; [|by ye].
  destruct (bool_decide (err = None) || bool_decide (err = Some ErrKnownBlock)) eqn:Eg; [|by ye]. ye. use (by apply stopped_yields). intros st bc2 [H2 S2].
  assert (G2 : grows bc bc2) by (etransitivity; [exact G|by apply same_grows]). destruct st.
  { ye. split_and!; [done|done|]. split_and!; [done|done|done|]. eapply verdict_same; [apply S2|done]. }
  ye. use (by apply keeps_turn). intros n bc3 [H3 S3]. assert (G3 : grows bc bc3) by (etransitivity; [exact G2|by apply same_grows]). destruct (execute n (content b)) as [e|receipts]; [by ye|]. ye.
  destruct Hv as [Hpl Hft]. destruct (handed_block _ _ _ _ _ _ Hb Hh) as (Hvb & Hs & _).
  assert (Hr : ready bc3 (content b)).
  { apply (fits_ready bc3 b err H3); [|apply orb_prop in Eg as [Eg|Eg]; apply bool_decide_eq_true in Eg; tauto]. eapply fits_same; [|exact Hft]. by rewrite (sm_db _ _ S3), (sm_db _ _ S2). }
  use (apply (writeBlockWithState_yields coin appends b receipts bc3); [done|by eapply valid_grows; [|exact Hvb]; etransitivity; apply same_grows|done|done]). intros status bc4 [H4 G4]. assert (G5 : grows bc bc4) by by etransitivity.
  destruct status as [w|e]; [|by ye]. ye. use (by apply (next_after bc chain it b err bc1)). intros [[it' block'] err'] bc5 (-> & Hh' & Hlt & _). apply IH; [done|done|lia].
Qed.

(** *** Side chains *)

(** The parent is stored. *)
Definition attached (bc : BlockChain) (c : Content) : Prop := 0 < c_Number c /\ is_Some (blocks bc !! (c_Number c - 1, c_ParentHash c)).

Lemma WriteBlockWithoutState_yields {F : Prop} b bc : chain_inv bc -> sound (content b) -> attached bc (content b) ->
  yields F (WriteBlockWithoutState BlockHash stop b) bc (fun _ bc' => chain_inv bc' /\ grows bc bc' /\ extends (ChainDB_ bc) (ChainDB_ bc') /\ forall c, stored (ChainDB_ bc') c -> stored (ChainDB_ bc) c \/ c = content b).
Proof.
  intros H Hs [Hpos Hpar]. unfold WriteBlockWithoutState. ye. use (by apply stopped_yields). intros st bc1 [H1 S1]. pose proof (same_grows _ _ S1) as G1. apply sm_db in S1. destruct st; [ye; rewrite S1; split_and!; [done|done|by split|by left]|]. unfold on_db. ye.
  destruct (WriteBlock_ok (content b) _ (ci_store _ H1) Hs Hpos) as (W1 & W2 & _); [by rewrite S1|]. destruct (inv_extends bc1 _ H1 W1 W2) as [H2 G2]. rewrite <- S1. split_and!; [done|by etransitivity|done|].
  unfold stored. cbn. intros c [[_ <-]|[_ E]]%lookup_insert_Some; [by right|by left].
Qed.

Lemma GetBlockByNumber_yields {F : Prop} number bc : yields F (GetBlockByNumber number) bc (fun _ bc' => bc' = bc).
Proof. unfold GetBlockByNumber. ye. destruct (_ =? 0); ye; [done|]. apply yields_must. intros c _. by ye. Qed.

Lemma must_td_yields {F : Prop} hash number bc : chain_inv bc -> yields F (td ← GetTd evict hash number; must td) bc (fun _ bc' => chain_inv bc' /\ same bc bc').
Proof.
  intros H. ye. use (by apply GetTd_yields). intros [t|] bc1 [S1 H1]; apply yields_must; [|done]. intros ? _. split; [apply H1|done].
Qed.

(** No state root is the hash of a canonical block, and nothing precedes the genesis
    block. *)
Definition rootless (bc : BlockChain) (chain : list Blk) : Prop :=
  c_ParentHash genesis = 0 /\ forall c, stored (ChainDB_ bc) c \/ c ∈ content <$> chain -> forall n, canonical bc !! n <> Some (c_Root c).

(** What the loop over a side chain keeps, and what it answers. *)
Definition aside (chain : list Blk) (bc bc' : BlockChain) : Prop :=
  chain_inv bc' /\ grows bc bc' /\ extends (ChainDB_ bc) (ChainDB_ bc') /\ forall c, stored (ChainDB_ bc') c -> stored (ChainDB_ bc) c \/ c ∈ content <$> chain.

Lemma aside_same chain bc bc' : chain_inv bc' -> same bc bc' -> aside chain bc bc'.
Proof. intros H S. pose proof (same_grows _ _ S). apply sm_db in S. split_and!; [done|done|by split; rewrite S|rewrite S; by left]. Qed.

Lemma aside_trans chain bc bc1 bc2 : aside chain bc bc1 -> aside chain bc1 bc2 -> aside chain bc bc2.
Proof.
  intros (H1 & G1 & [X1 X2 X3 X4] & N1) (H2 & G2 & [Y1 Y2 Y3 Y4] & N2). split_and!; [done|by etransitivity|split; [by etransitivity|by etransitivity|congruence|congruence]|].
  intros c Hc. destruct (N2 c Hc) as [Hc'|]; [by apply N1|by right].
Qed.

Lemma aside_rootless chain bc bc' : aside chain bc bc' -> rootless bc chain -> rootless bc' chain.
Proof. intros (_ & _ & [_ _ X _] & N) [Hg Hr]. split; [done|]. rewrite X. intros c Hc. apply Hr. destruct Hc as [Hc|Hc]; [by apply N|by right]. Qed.

Lemma attached_aside chain bc bc' c : aside chain bc bc' -> attached bc c -> attached bc' c.
Proof. intros (_ & _ & [X _ _ _] & _) [Hn [p Ep]]. split; [done|]. exists p. by eapply lookup_weaken. Qed.

Definition sided (chain : list Blk) (bc1 : BlockChain) (r : insertIterator * Blk + Z * option ChainError) (bc' : BlockChain) : Prop :=
  aside chain bc1 bc' /\ match r with inl (it', _) => forall p, previous it' = Some p -> p ∈ chain /\ attached bc' (content p) | inr _ => True end.

Lemma sided_trans chain bc bc1 r bc2 : aside chain bc bc1 -> sided chain bc1 r bc2 -> sided chain bc r bc2.
Proof. intros A [A' Hr]. split; [by eapply aside_trans|done]. Qed.

(** The block before this one is attached, or this one is looked at first. *)
Definition behind (chain : list Blk) (bc : BlockChain) (it : insertIterator) (block : option Blk) (err : option ChainError) : Prop :=
  (block <> None /\ err = Some ErrPrunedAncestor) \/ forall p, previous it = Some p -> p ∈ chain /\ attached bc (content p).

Lemma write_side_yields {F : Prop} current chain bc fuel : batch bc chain ->
  (forall it block err td last bc1, handed bc chain it block err bc1 -> behind chain bc1 it block err -> (2 * left_over it block < fuel)%nat ->
    yields F (write_side BlockHash DeriveSha bls stop evict fuel current it block err td last) bc1 (sided chain bc1)) /\
  (forall it b td bc1, handed bc chain it (Some b) (Some ErrPrunedAncestor) bc1 -> (2 * left_over it (Some b) <= fuel)%nat ->
    yields F (write_side_block BlockHash DeriveSha bls stop evict fuel current it b td) bc1 (sided chain bc1)).
Proof.
  intros Hb. induction fuel as [|fuel [IH1 IH2]]; split.
  - intros. lia.
  - intros it b td bc1 (_ & _ & _ & Hv) Hf. apply left_over_pos in Hv. lia.
  - intros it block err td last bc1 Hh Hbe Hf. cbn [write_side]. pose proof Hh as (H & G & E & Hv). destruct block as [b|]; [|ye; split; [by apply aside_same|by destruct Hbe as [[? _]|?]]].
    destruct (bool_decide_reflect (err = Some ErrPrunedAncestor)) as [->|Hne]; [|ye; split; [by apply aside_same|by destruct Hbe as [[_ ?]|?]]]. pose proof (left_over_pos _ _ _ _ Hv) as Hp. apply yields_bind.
    apply (yields_mono _ _ (fun _ bc' => bc' = bc1)); [destruct (_ <=? _); [apply GetBlockByNumber_yields|by ye]|]. intros canon bc2 ->. assert (Hblk : yields F (write_side_block BlockHash DeriveSha bls stop evict fuel current it b td) bc1 (sided chain bc1)) by (apply IH2; [done|lia]).
    destruct canon as [c|]; [|done]. destruct (_ =? _); [|destruct (_ =? _); [ye; split; [by apply aside_same|done]|done]].
    pose proof (must_td_yields (F := F) (Hash b) (Number b) bc1 H) as Ht. ye. apply (yields_mono _ _ (fun r bc' => yields F (must r) bc' (fun _ bc' => chain_inv bc' /\ same bc1 bc'))).
    { unfold yields, mbind, M_bind in Ht |- *. by destruct (GetTd _ _ _ bc1) as [[r bc']| |]. }
    intros r bc2 Hm. ye. use (exact Hm). intros t bc3 [H3 S3]. ye. use (apply (next_after bc chain it b (Some ErrPrunedAncestor) bc1); [done|done|done|]; etransitivity; [exact G|by apply same_grows]).
    intros [[it' block'] err'] bc4 (-> & Hh' & Hlt & Hpr). use (apply IH1; [done| |lia]); [|intros r' bc5; apply sided_trans; by apply aside_same].
    right. rewrite Hpr. intros p [= <-]. destruct (handed_block _ _ _ _ _ _ Hb Hh) as (_ & _ & Hin). split; [done|]. apply (attached_aside chain bc1); [by apply aside_same|apply Hv].
  - intros it b td bc1 Hh Hf. cbn [write_side_block]. pose proof Hh as (H & G & E & Hv). destruct (handed_block _ _ _ _ _ _ Hb Hh) as (_ & Hs & Hin). pose proof (left_over_pos _ _ _ _ Hv) as Hp. apply yields_bind.
    apply (yields_mono _ _ (fun _ bc' => chain_inv bc' /\ same bc1 bc')); [destruct (_ =? _); [by apply must_td_yields|by ye]|]. intros t bc2 [H2 S2]. ye. pose proof (aside_same chain _ _ H2 S2) as A2.
    assert (Hat : attached bc2 (content b)) by (apply (attached_aside chain bc1); [done|apply Hv]).
    apply (yields_mono _ _ (fun _ bc' => aside chain bc1 bc')).
    { destruct (HasBlock _ _ _); [by ye|]. use (by apply WriteBlockWithoutState_yields). intros e bc3 (H3 & G3 & X3 & N3). eapply aside_trans; [exact A2|]. split_and!; [done|done|done|].
      intros c Hc. destruct (N3 c Hc) as [?| ->]; [by left|right; by apply list_elem_of_fmap_2]. }
    intros e bc3 A3. destruct e; [by ye|]. ye. use (apply (next_after bc chain it b (Some ErrPrunedAncestor) bc1); [done|done|apply A3|]; etransitivity; [exact G|apply A3]).
    intros [[it' block'] err'] bc4 (-> & Hh' & Hlt & Hpr). use (apply IH1; [done| |lia]); [|intros r' bc5; by apply sided_trans].
    right. rewrite Hpr. intros p [= <-]. split; [done|]. apply (attached_aside chain bc1); [done|apply Hv].
Qed.

Lemma collect_pruned_yields {F : Prop} fuel : forall parent hashes bc, F -> yields F (collect_pruned BlockHash fuel parent hashes) bc (fun _ bc' => bc' = bc).
Proof. induction fuel as [|fuel IH]; intros parent hashes bc HF; cbn [collect_pruned]; [by ye|]. ye. destruct (HasState _ _); [by ye|]. ye. apply yields_must. intros n _. ye. apply yields_must. intros p _. by apply IH. Qed.

(** The search for a header with state goes past the genesis block. *)
Lemma collect_pruned_stuck {F : Prop} chain fuel bc : chain_inv bc -> rootless bc chain -> forall parent hashes, (0 < c_Number parent -> attached bc parent) -> (c_Number parent <= 0 -> parent = genesis) ->
  stored (ChainDB_ bc) parent \/ parent ∈ content <$> chain -> (Z.to_nat (c_Number parent) < fuel)%nat -> yields F (collect_pruned BlockHash fuel parent hashes) bc (fun _ _ => False).
Proof.
  intros H [Hg Hr]. induction fuel as [|fuel IH]; intros parent hashes Hat Hz Hin Hf; [lia|]. cbn [collect_pruned]. ye.
  assert (Es : HasState (ChainDB_ bc) (c_Root parent) = false) by (apply not_true_is_false; rewrite HasState_iff by done; intros (n & E); by apply (Hr parent Hin n)). rewrite Es. ye. apply yields_must. intros n En. ye. apply yields_must. intros p Ep.
  unfold ReadHeaderNumber, ReadBlock in *. destruct (st_keyed _ (ci_store _ H) _ _ _ Ep) as (Eh & -> & Hs). destruct (decide (0 < c_Number parent)) as [Hpos|Hn0].
  - destruct (Hat Hpos) as [_ [p' Ep']]. destruct (hash_content _ _ _ _ _ _ (ci_store _ H) Ep' Ep) as [E _]. apply IH; [|intros Hle|left; unfold stored; by rewrite <- Eh|lia].
    + intros Hp. split; [done|]. by apply (st_parent _ (ci_store _ H) _ _ _ Ep).
    + pose proof (so_number _ Hs). assert (E0 : c_Number p = 0) by lia. rewrite E0 in Ep. by apply (st_zero _ (ci_store _ H) _ _ Ep).
  - rewrite Hz in Eh by lia. rewrite Hg in Eh. by destruct (hash_nonzero p).
Qed.

Section Side.
Context {F : Prop} (ic : list Blk -> MC (Z * option ChainError)) (ic_keeps : F -> forall bc chain, chain_inv bc -> batch bc chain -> keeps_inv F bc (ic chain)).

Lemma import_pruned_yields l : F -> forall acc bc, chain_inv bc -> batch bc acc -> keeps_inv F bc (import_pruned stop ic l acc).
Proof.
  intros HF. unfold keeps_inv in *. induction l as [|[h n] l IH]; intros acc bc H Hb; cbn [import_pruned]; [destruct (_ =? _)%nat; [by ye|by apply ic_keeps]|]. ye.
  apply GetBlock_yields; [|intros _; ye; by apply yields_must]. intros b bc1 Eb E1 E2 E3 E4 Hv _ E5. ye. apply yields_must. intros ? [= <-].
  destruct (inv_same bc bc1 H E1 E2) as [H1 G1]; [by rewrite E3|done|by rewrite E5|]. destruct (st_keyed _ (ci_store _ H) _ _ _ Eb) as (_ & _ & Hs).
  assert (Hb1 : batch bc1 (acc ++ [b])) by (apply list.Forall_app; split; [by eapply batch_grows|by constructor]).
  destruct (_ <? _)%nat; [use (by apply IH); intros r bc2 [H2 G2]; split; [done|by etransitivity]|]. ye. use (by apply ic_keeps). intros [z e] bc2 [H2 G2].
  assert (G : grows bc bc2) by by etransitivity. destruct e; [by ye|]. ye. use (by apply stopped_yields). intros st bc3 [H3 S3]. assert (G3 : grows bc bc3) by (etransitivity; [exact G|by apply same_grows]). destruct st; [by ye|].
  use (apply IH; [done|by constructor]). intros r bc4 [H4 G4]. split; [done|by etransitivity].
Qed.

Lemma insertSideChain_yields chain b it bc bc1 : batch bc chain -> handed bc chain it (Some b) (Some ErrPrunedAncestor) bc1 -> F \/ rootless bc1 chain ->
  yields F (insertSideChain BlockHash DeriveSha bls coin stop evict ic b it) bc1 (fun _ bc' => chain_inv bc' /\ grows bc bc').
Proof.
  intros Hb Hh HF. pose proof (handed_left _ _ _ _ _ _ Hh) as Hl. pose proof Hh as (_ & G1 & E & _). unfold insertSideChain. ye. use (apply (write_side_yields _ chain bc); [done|done|by left|rewrite E; lia]).
  intros [[it' last]|r] bc2 [A2 Hr]; [|ye; split; [apply A2|etransitivity; [exact G1|apply A2]]]. pose proof A2 as (H2 & G12 & _). ye.
  use (by apply ReorgNeeded_yields). intros needed bc3 (H3 & S3 & tl & te & El & _). assert (G3 : grows bc bc3) by (etransitivity; [exact G1|etransitivity; [exact G12|by apply same_grows]]). destruct needed; cbn [negb].
  - destruct (previous it') as [p|] eqn:Ep; [|by ye]. destruct (Hr p eq_refl) as [Hin Hat]. ye. destruct HF as [HF|HF].
    + use (by apply collect_pruned_yields). intros hs bc4 ->. use (apply import_pruned_yields; [done|done|by constructor]). intros r bc4 [H4 G4]. split; [done|by etransitivity].
    + pose proof (aside_same chain _ _ H3 S3) as A3. assert (Hs : sound (content p)) by (unfold batch in Hb; rewrite list.Forall_forall in Hb; by apply Hb).
      use (apply (collect_pruned_stuck chain); [done|by eapply aside_rootless, aside_rootless|intros _; by eapply attached_aside|destruct Hat; lia|right; by apply list_elem_of_fmap_2|rewrite num_sound by done; lia]). done.
  - ye. use (by apply GetTd_yields). intros r bc4 [S4 Hr4]. ye. apply yields_must. intros p _. ye. split; [|etransitivity; [exact G3|by apply same_grows]].
    destruct r as [t|]; [apply Hr4|]. rewrite (sm_db _ _ S3) in Hr4. pose proof Hh as (H1 & _). pose proof (so_number _ (ci_sound _ H1)). unfold u64 in Hr4. rewrite Z.mod_small in Hr4 by lia. congruence.
Qed.
End Side.

Lemma import_rest_yields {F : Prop} chain fuel it block err bc bc1 : batch bc chain -> handed bc chain it block err bc1 -> (length chain < fuel)%nat ->
  yields F (import_rest BlockHash DeriveSha bls execute coin stop Now evict appends fuel it block err) bc1 (fun _ bc' => chain_inv bc' /\ grows bc bc').
Proof.
  intros Hb Hh Hf. pose proof (handed_left _ _ _ _ _ _ Hh). unfold import_rest. ye. use (apply (import_blocks_yields chain); [done|done|lia]). intros [[[it' block'] err']|r] bc2 (H2 & G2 & Hh'); [|by ye].
  destruct block' as [b|]; [|by ye]. destruct err' as [e|]; [|by ye]. destruct e; try by ye. destruct (handed_block _ _ _ _ _ _ Hb Hh') as (Hvb & Hsb & _). ye. use (by apply addFutureBlock_yields). intros e bc3 [H3 S3].
  assert (G3 : grows bc bc3) by by etransitivity. destruct e; [by ye|]. ye. use (by apply (next_after bc chain it' b (Some ErrFutureBlock) bc2)). intros [[it'' block''] err''] bc4 (-> & Hh'' & _).
  pose proof (handed_left _ _ _ _ _ _ Hh''). ye. use (apply (queue_future_yields chain); [done|done|lia]). intros [[? ?]|?] bc4 Hq; by ye.
Qed.

Lemma insertChain_yields {F : Prop} fuel : forall chain bc, chain_inv bc -> batch bc chain -> F \/ (0 < fuel)%nat /\ rootless bc chain ->
  keeps_inv F bc (insertChain BlockHash DeriveSha bls verify execute coin stop Now evict appends write_closed fuel chain).
Proof.
  unfold keeps_inv. induction fuel as [|fuel IH]; intros chain bc H Hb HF; cbn [insertChain]; [ye; destruct HF as [|[? _]]; [done|lia]|]. ye. use (by apply stopped_yields). intros st bc1 [H1 S1]. pose proof (same_grows _ _ S1) as G1. destruct st; [by ye|]. ye.
  use (by apply keeps_turn). intros n bc2 [H2 S2]. assert (G2 : grows bc bc2) by (etransitivity; [exact G1|by apply same_grows]). ye. use (by apply (next_handed bc chain _ bc2)). intros [[it block] err] bc3 (-> & Hh & _).
  pose proof (handed_left _ _ _ _ _ _ Hh). ye. apply (yields_mono _ _ (fun r bc' => exists it' block' err', r = inl (it', block', err') /\ handed bc chain it' block' err' bc' /\ ChainDB_ bc' = ChainDB_ bc2)).
  { destruct (bool_decide _); ye; [|by eauto 10]. use (apply (skip_known_yields _ chain); [done|done|lia]). intros [[it' block'] err'] bc4 (Hh' & Ed & Hne). use (apply write_known_yields; [done|lia]). intros r bc5 [-> ->]. eauto 10. }
  intros r bc4 (it' & block' & err' & -> & Hh' & Ed). pose proof Hh' as (H4 & G4 & _). ye. assert (Hrest := import_rest_yields (F := F) chain (S (length chain)) it' block' err' bc bc4 Hb Hh' ltac:(lia)). pose proof (handed_left _ _ _ _ _ _ Hh') as Hl4.
  assert (Hqueue : yields F (r ← queue_future BlockHash DeriveSha bls Now evict (S (length chain)) (fun it err => (it_index it =? 0) || bool_decide (err = Some ErrUnknownAncestor)) it' block' err';
    match (r : insertIterator * option ChainError + Z * option ChainError) with inr r => mret r | inl (it, err) => mret (it_index it, err) end) bc4 (fun _ bc' => chain_inv bc' /\ grows bc bc')).
  { ye. use (apply (queue_future_yields chain); [done|done|lia]). intros [[? ?]|?] bc5 Hq; by ye. }
  assert (Hfail : forall e : ChainError, yields F (b ← (must block' : MC Blk); _ ← modify (fun bc => set_future (delete (Hash b) (futureBlocks bc)) bc); mret (it_index it', Some e)) bc4 (fun _ bc' => chain_inv bc' /\ grows bc bc')).
  { intros e. ye. apply yields_must. intros b _. ye. destruct (inv_done bc4 (Hash b) H4) as [H5 G5]. split; [done|by etransitivity]. }
  destruct err' as [e|]; [|by destruct block'; apply Hrest]. destruct block' as [b|].
  2: { destruct (_ || _); [apply Hqueue|]. destruct (bool_decide (e = ErrKnownBlock)); [apply Hrest|apply Hfail]. }
  destruct e; try (destruct (_ || _); [apply Hqueue|]; match goal with |- context [bool_decide (?e = ErrKnownBlock)] => destruct (bool_decide (e = ErrKnownBlock)) end; [apply Hrest|apply Hfail]).
  apply (insertSideChain_yields _ (fun HF bc chain H Hb => IH chain bc H Hb (or_introl HF)) chain); [done|done|]. destruct HF as [HF|[_ HF]]; [by left|right]. unfold rootless. by rewrite Ed, (sm_db _ _ S2), (sm_db _ _ S1).
Qed.

Lemma InsertChain_yields {F : Prop} fuel chain bc : chain_inv bc -> batch bc chain -> F \/ (0 < fuel)%nat /\ rootless bc chain ->
  keeps_inv F bc (InsertChain BlockHash DeriveSha bls verify execute coin stop Now evict appends write_closed fuel chain).
Proof. intros H Hb HF. unfold keeps_inv, InsertChain. destruct chain as [|b l]; [by ye|]. destruct (negb _); [by ye|]. by apply insertChain_yields. Qed.

Lemma newBlock_yields fuel b bc : chain_inv bc -> valid bc b -> sound (content b) -> keeps_inv True bc (newBlock BlockHash DeriveSha bls verify execute coin stop Now evict appends write_closed fuel b).
Proof.
  intros H Hv Hs. unfold keeps_inv, newBlock. ye. destruct (_ <? _); ye; [use (by apply addFutureBlock_yields)|use (apply InsertChain_yields; [done|by apply list.Forall_singleton|by left])].
  - intros e bc1 H1. by ye.
  - intros [z e] bc1 H1. by ye.
Qed.

Context (sorted : nat -> gmap Z Blk -> list Blk) (sorted_perm : forall n m, sorted n m ≡ₚ (map_to_list m).*2).

Lemma updateFutureBlocks_yields fuel bc : chain_inv bc -> keeps_inv True bc (updateFutureBlocks BlockHash DeriveSha bls verify execute coin stop Now evict appends write_closed sorted fuel).
Proof.
  intros H. unfold keeps_inv, updateFutureBlocks. ye. destruct (bool_decide _); [by ye|]. ye. use (by apply keeps_turn). intros n bc1 [H1 S1]. apply same_grows in S1. ye. apply yields_must. intros b0 _. destruct (_ <? _); [by ye|]. ye.
  use (apply InsertChain_yields; [done| |by left]).
  { apply (batch_grows _ _ _ S1). unfold batch. rewrite sorted_perm. rewrite list.Forall_fmap, list.Forall_forall. intros [h b] Hb%elem_of_map_to_list. by apply (ci_future _ H h). }
  intros [k e] bc2 [H2 G2]. assert (G : grows bc bc2) by by etransitivity. destruct e; [by ye|]. ye. apply yields_must. intros b _. ye.
  destruct (inv_future bc2 ∅ H2) as [H3 G3]; [intros h b'; by rewrite lookup_empty|]. split; [done|by etransitivity].
Qed.

(** ** Every run *)

Context (genesis_address : N).
Notation InsertChain := (InsertChain BlockHash DeriveSha bls verify execute coin stop Now evict appends write_closed).
Notation newBlock := (newBlock BlockHash DeriveSha bls verify execute coin stop Now evict appends write_closed).
Notation updateFutureBlocks := (updateFutureBlocks BlockHash DeriveSha bls verify execute coin stop Now evict appends write_closed sorted).

(** What happens to the chain between two points at which nobody holds its lock: operations
    that return, and restarts between them.  A panic, or the death of the process inside an
    operation, is not a step: the code commits a reorganisation and the new head in two
    transactions, and only the second one makes the markers complete again. *)
Inductive chain_step (bc : BlockChain) : BlockChain -> Prop :=
| step_decode c b bc' : sound c -> allocate c bc = Done (b, bc') -> chain_step bc bc'
| step_import fuel chain r bc' : batch bc chain -> InsertChain fuel chain bc = Done (r, bc') -> chain_step bc bc'
| step_network fuel b r bc' : valid bc b -> sound (content b) -> newBlock fuel b bc = Done (r, bc') -> chain_step bc bc'
| step_tick fuel r bc' : updateFutureBlocks fuel bc = Done (r, bc') -> chain_step bc bc'
| step_restart n : chain_step bc (NewBlockChain (mkBlk genesis genesis_address) (ChainDB_ bc) (objects bc) n).

Definition chain_start : BlockChain := NewBlockChain (mkBlk genesis genesis_address) (WriteGenesis BlockHash genesis) {[genesis_address := genesis]} 0.

Lemma reopen_inv bc n : chain_inv bc -> let bc' := NewBlockChain (mkBlk genesis genesis_address) (ChainDB_ bc) (objects bc) n in chain_inv bc' /\ grows bc bc'.
Proof.
  intros H. cbv zeta. unfold NewBlockChain. assert (Er : ReadCurrentBlock (ChainDB_ bc) = Some (content (currentBlock bc))).
  { unfold ReadCurrentBlock, ReadHeaderNumber. rewrite (ci_head _ H). pose proof (current_stored bc H) as E. assert (En : numbers bc !! Hash (currentBlock bc) = Some (Number (currentBlock bc))) by (apply (st_numbers _ (ci_store _ H)); by eexists). by rewrite En. }
  rewrite Er. destruct H as [H1 H2 H3 H4 H5 H6 H7 H8 H9]. split.
  - split; cbn; try done. unfold valid. cbn. by rewrite lookup_insert_eq.
  - split; cbn; [apply insert_subseteq, not_elem_of_dom, is_fresh|done].
Qed.

Lemma step_inv bc bc' : chain_inv bc -> chain_step bc bc' -> chain_inv bc' /\ grows bc bc'.
Proof.
  intros H [c b bc1 Hs E|fuel chain r bc1 Hb E|fuel b r bc1 Hv Hs E|fuel r bc1 E|n].
  - revert b bc1 E. intros b bc1. apply (yields_done (F := True) (allocate c) bc (fun _ bc' => chain_inv bc' /\ grows bc bc')), allocate_yields. intros b' bc2 _ E1 E2 E3 E4 _ _ E5. apply inv_same; by rewrite ?E3, ?E5.
  - eapply (keeps_done (F := True)); [|exact E]. apply InsertChain_yields; [done|done|by left].
  - eapply keeps_done; [by apply newBlock_yields|exact E].
  - eapply keeps_done; [by apply updateFutureBlocks_yields|exact E].
  - by apply reopen_inv.
Qed.

Lemma steps_inv bc bc' : chain_inv bc -> rtc chain_step bc bc' -> chain_inv bc' /\ grows bc bc'.
Proof. intros H Hr. induction Hr as [bc|bc bc1 bc2 Hst _ IH]; [done|]. destruct (step_inv _ _ H Hst) as [H1 G1]. destruct (IH H1) as [H2 G2]. split; [done|by etransitivity]. Qed.

Section Started.
Context (genesis_sound : sound genesis) (genesis_zero : c_Number genesis = 0).

Lemma start_inv : chain_inv chain_start.
Proof.
  unfold chain_start, NewBlockChain. set (d := WriteGenesis BlockHash genesis). assert (En : num genesis = 0) by by rewrite num_sound.
  assert (E : t_blocks d = {[(0, BlockHash genesis) := genesis]} /\ t_numbers d = {[BlockHash genesis := 0]} /\ t_td d = {[(0, BlockHash genesis) := 0]} /\ t_canonical d = {[0 := BlockHash genesis]} /\ t_head d = BlockHash genesis).
  { unfold d, WriteGenesis. cbn. by rewrite En. }
  destruct E as (E1 & E2 & E3 & E4 & E5). assert (Er : ReadCurrentBlock d = Some genesis).
  { unfold ReadCurrentBlock, ReadHeaderNumber, ReadBlock. rewrite E5, E2, E1, lookup_singleton_eq. cbn [mbind option_bind]. by rewrite lookup_singleton_eq. }
  rewrite Er. clearbody d. cbn. split; cbn; rewrite ?E4, ?E5, ?genesis_zero, ?lookup_singleton_eq; try done.
  - split; rewrite ?E1, ?E2, ?E3.
    + intros n h c [[= <- <-] <-]%lookup_singleton_Some. by rewrite genesis_zero.
    + intros n h c [[= <- <-] <-]%lookup_singleton_Some. lia.
    + by intros h c [_ <-]%lookup_singleton_Some.
    + intros h n. rewrite lookup_singleton_Some. split; [intros [<- <-]; exists genesis; by rewrite lookup_singleton_eq|by intros (c & [[= <- <-] _]%lookup_singleton_Some)].
    + intros n h t [[= <- <-] <-]%lookup_singleton_Some. split; [done|]. exists genesis. rewrite lookup_singleton_eq. split; [done|lia].
  - unfold valid. cbn. by rewrite lookup_insert_eq.
  - intros n h [<- <-]%lookup_singleton_Some. split; [done|]. unfold linked. rewrite E3, lookup_singleton_eq. split_and!; [done|by eexists|lia].
Qed.

(** The canonical chain, from the genesis block to the head. *)
Record canonical_chain (bc : BlockChain) : Prop := {
  cc_genesis : canonical bc !! 0 = Some (BlockHash genesis);
  cc_head : canonical bc !! Number (currentBlock bc) = Some (Hash (currentBlock bc)) /\ t_head (ChainDB_ bc) = Hash (currentBlock bc);
  cc_nothing_above n : is_Some (canonical bc !! n) -> 0 <= n <= Number (currentBlock bc);
  cc_blocks n : 0 <= n <= Number (currentBlock bc) -> exists c td, canonical bc !! n = Some (BlockHash c) /\ c_Number c = n /\
    blocks bc !! (n, BlockHash c) = Some c /\ tds bc !! (n, BlockHash c) = Some td /\
    (0 < n -> canonical bc !! (n - 1) = Some (c_ParentHash c) /\ exists ptd, tds bc !! (n - 1, c_ParentHash c) = Some ptd /\ td = wrap256 (ptd + c_Difficulty c))
}.

Lemma inv_canonical bc : chain_inv bc -> canonical_chain bc.
Proof.
  intros H. split; [apply H|split; apply H| |].
  - intros n [h E]. destruct (ci_canon _ H n h E) as (Hle & Hn & _). lia.
  - intros n Hn. destruct (canonical_below bc _ n _ H (ci_top _ H) Hn) as [h E]. destruct (ci_canon _ H n h E) as (_ & _ & [td Ht] & _).
    destruct (st_td _ (ci_store _ H) _ _ _ Ht) as (_ & c & Ec & Hp). destruct (st_keyed _ (ci_store _ H) _ _ _ Ec) as (-> & Ecn & _). exists c, td. split_and!; [done|done|done|done|].
    intros H0. split; [by apply (canonical_content bc n (BlockHash c))|by apply Hp].
Qed.

(** C5: In whatever order blocks are decoded, batches and blocks of the network are
    imported, the queue of future blocks is worked off and the node is restarted, whatever
    the engine, the processor, the stop flag, the clock, the coin and the caches do: the
    markers are those of a chain of stored blocks from the genesis block to the head, none
    is above the head, and every total difficulty is that of the parent plus the block's.
    The steps are operations that return; a process that dies inside one is not covered. *)
Theorem canonical_chain_kept bc : rtc chain_step chain_start bc -> canonical_chain bc.
Proof. intros Hr. apply inv_canonical. by apply (steps_inv chain_start bc start_inv). Qed.

(** C17: The total difficulty of the head never decreases, by any of the operations that
    return and by restarts between them. *)
Theorem head_difficulty_grows bc bc' : rtc chain_step chain_start bc -> rtc chain_step bc bc' -> head_td bc <= head_td bc'.
Proof. intros Hr Hr'. destruct (steps_inv _ _ start_inv Hr) as [H _]. by destruct (steps_inv _ _ H Hr') as [_ [_ G]]. Qed.

(** C13: Every import of a batch comes to an end: no loop goes on for ever, and the import
    of a side chain does not call itself, as long as no state root is the hash of a
    canonical block. *)
Theorem import_ends fuel chain bc : rtc chain_step chain_start bc -> batch bc chain -> c_ParentHash genesis = 0 ->
  (forall c, stored (ChainDB_ bc) c \/ c ∈ content <$> chain -> forall n, canonical bc !! n <> Some (c_Root c)) -> InsertChain (S fuel) chain bc <> NoFuel.
Proof.
  intros Hr Hb Hg Hroot E. destruct (steps_inv _ _ start_inv Hr) as [H _].
  assert (Hy : keeps_inv False bc (InsertChain (S fuel) chain)) by (apply InsertChain_yields; [done|done|right; split; [lia|done]]). unfold keeps_inv, yields in Hy. by rewrite E in Hy.
Qed.
End Started.

(** ** What an import does *)

Lemma turn_ends bc : chain_inv bc -> ends turn_ bc (fun _ bc' => chain_inv bc' /\ same bc bc').
Proof. intros H. eexists _, _. split; [done|]. exact (keeps_turn (F := True) bc H). Qed.

Lemma GetTd_ends hash number t bc : chain_inv bc -> tds bc !! (number, hash) = Some t -> ends (GetTd evict hash number) bc (fun r bc' => r = Some t /\ chain_inv bc' /\ same bc bc').
Proof.
  intros H E. destruct (st_td _ (ci_store _ H) _ _ _ E) as (_ & c & Ec & _). destruct (st_keyed _ (ci_store _ H) _ _ _ Ec) as (-> & -> & Hs). pose proof (so_number _ Hs).
  assert (Eu : u64 (c_Number c) = c_Number c) by (unfold u64; rewrite Z.mod_small; lia). pose proof (GetTd_yields (F := True) (BlockHash c) (c_Number c) bc H) as Hy. rewrite Eu in Hy.
  assert (He : ends (GetTd evict (BlockHash c) (c_Number c)) bc (fun _ _ => True)) by (unfold GetTd; go; destruct (tdCache bc !! _); by go).
  call (apply (ends_yields _ _ _ _ He Hy)). intros r bc' (_ & S1 & Hr). destruct r as [t'|]; [|congruence]. destruct Hr as (H' & n & Et). destruct (td_key _ _ _ _ (ci_store _ H) Et) as [-> _]. split_and!; [congruence|done|done].
Qed.

Lemma ReorgNeeded_heavier current header tl te bc : chain_inv bc -> tds bc !! (c_Number current, BlockHash current) = Some tl -> tds bc !! (c_Number header, BlockHash header) = Some te -> tl < te ->
  ends (ReorgNeeded BlockHash coin evict current header) bc (fun r bc' => r = true /\ chain_inv bc' /\ same bc bc').
Proof.
  intros H El Ee Hlt. unfold ReorgNeeded. go. call (by apply GetTd_ends). intros r bc1 (-> & H1 & S1). go. call (apply (GetTd_ends _ _ te); [done|by rewrite (sm_db _ _ S1)]). intros r bc2 (-> & H2 & S2). go.
  eapply ends_must; [done|]. go. eapply ends_must; [done|]. destruct (Z.ltb_spec tl te); [|lia]. go. split_and!; [done|done|by etransitivity].
Qed.

(** The block with its total difficulty is stored. *)
Lemma store_block_run b receipts bc tp : sound (content b) -> 0 < Number b -> tds bc !! (Number b - 1, c_ParentHash (content b)) = Some tp ->
  (receipts = true -> appends (t_receipts (ChainDB_ bc)) (Number b) = true) -> exists d, store_block BlockHash appends b receipts (ChainDB_ bc) = inl d /\
  t_td d = <[(Number b, Hash b) := wrap256 (tp + c_Difficulty (content b))]> (tds bc) /\ t_receipts (ChainDB_ bc) ⊆ t_receipts d ⊆ {[Number b]} ∪ t_receipts (ChainDB_ bc).
Proof.
  intros Hs Hpos Ep Ha. pose proof (so_number _ Hs). unfold store_block, ReadTd.
  assert (Ek : u64 (wrap256 (Number b - 1)) = Number b - 1) by (unfold u64, wrap256; rewrite (Z.mod_small _ two256), (Z.mod_small _ two64) by lia; done). rewrite Ek, Ep, num_sound by done.
  destruct receipts; cbn; [rewrite Ha by done; cbn|]; eexists; (split; [done|]); cbn; (split; [done|set_solver]).
Qed.

(** Receipts below the last ones are not appended, and the transaction is rolled back. *)
Lemma write_refused b bc tp : sound (content b) -> 0 < Number b -> tds bc !! (Number b - 1, c_ParentHash (content b)) = Some tp -> appends (t_receipts (ChainDB_ bc)) (Number b) = false ->
  ends (writeBlockWithState BlockHash coin evict appends b true) bc (fun r bc' => r = inr errAppend /\ bc' = bc).
Proof.
  intros Hs Hpos Ep Ha. pose proof (so_number _ Hs). unfold writeBlockWithState, store_block, ReadTd.
  assert (Ek : u64 (wrap256 (Number b - 1)) = Number b - 1) by (unfold u64, wrap256; rewrite (Z.mod_small _ two256), (Z.mod_small _ two64) by lia; done). go. rewrite Ek, Ep, num_sound by done.
  cbn [t_receipts WriteTd with_td]. rewrite Ha. cbn [andb negb]. go. done.
Qed.

(** A stored block that is heavier than the head, with what is left to do. *)
Record heavier (bc : BlockChain) (b : Blk) (te : Z) (bc' : BlockChain) : Prop := {
  hv_inv : chain_inv bc';
  hv_current : currentBlock bc' = currentBlock bc;
  hv_canonical : canonical bc' = canonical bc;
  hv_objects : objects bc ⊆ objects bc';
  hv_td : tds bc' !! (Number b, Hash b) = Some te;
  hv_receipts : t_receipts (ChainDB_ bc) ⊆ t_receipts (ChainDB_ bc') ⊆ {[Number b]} ∪ t_receipts (ChainDB_ bc)
}.

Definition adopt (b : Blk) (current : Blk) : MC (WriteStatus + ChainError) :=
  err ← (if c_ParentHash (content b) =? Hash current then mret None else reorg BlockHash current b);
  match (err : option ChainError) with
  | Some e => mret (inr e)
  | None =>
      _ ← writeHeadBlock BlockHash b;
      _ ← modify (fun bc => set_future (delete (Hash b) (futureBlocks bc)) bc);
      mret (inl CanonStatTy)
  end.

Lemma write_heavier b receipts tp bc Q : chain_inv bc -> sound (content b) -> 0 < Number b -> tds bc !! (Number b - 1, c_ParentHash (content b)) = Some tp -> head_td bc < wrap256 (tp + c_Difficulty (content b)) ->
  (receipts = true -> appends (t_receipts (ChainDB_ bc)) (Number b) = true) -> (forall bc', heavier bc b (wrap256 (tp + c_Difficulty (content b))) bc' -> ends (adopt b (currentBlock bc)) bc' Q) ->
  ends (writeBlockWithState BlockHash coin evict appends b receipts) bc Q.
Proof.
  intros H Hs Hpos Ht Hlt Happ HQ. destruct (store_block_run b receipts bc tp Hs Hpos Ht Happ) as (d & Es & Etd & Hrec).
  unfold writeBlockWithState. go. rewrite Es. destruct (store_block_ok _ _ _ _ _ (ci_store _ H) Hs Es) as (_ & Hok & Hx & Hst & _). destruct (inv_extends bc d H Hok Hx) as [H1 _]. go.
  call (apply (ReorgNeeded_heavier _ _ (head_td bc) (wrap256 (tp + c_Difficulty (content b)))); [done|cbn; eapply lookup_weaken; [exact (head_td_spec bc H)|apply Hx]|by cbn; rewrite Etd, lookup_insert_eq|done]).
  intros r bc2 (-> & H2 & S2). cbn [negb currentBlock set_db]. apply HQ. pose proof (sm_db _ _ S2) as Ed. cbn in Ed. split; [done|apply S2|by rewrite Ed, (ex_canonical _ _ Hx)|apply S2|by rewrite Ed, Etd, lookup_insert_eq|by rewrite Ed].
Qed.

Lemma write_on_head b receipts bc : chain_inv bc -> valid bc b -> sound (content b) -> c_ParentHash (content b) = Hash (currentBlock bc) -> Number b = Number (currentBlock bc) + 1 ->
  0 < c_Difficulty (content b) -> head_td bc + c_Difficulty (content b) < two256 -> (receipts = true -> appends (t_receipts (ChainDB_ bc)) (Number b) = true) ->
  ends (writeBlockWithState BlockHash coin evict appends b receipts) bc (fun r bc' => (r = inl CanonStatTy /\ currentBlock bc' = b /\ head_td bc' = head_td bc + c_Difficulty (content b) /\
    t_receipts (ChainDB_ bc) ⊆ t_receipts (ChainDB_ bc') ⊆ {[Number b]} ∪ t_receipts (ChainDB_ bc)) /\ chain_inv bc' /\ grows bc bc').
Proof.
  intros H Hv Hs Ep En Hd Hov Ha. pose proof (so_number _ (ci_sound _ H)) as Hn. assert (Em : Number b - 1 = Number (currentBlock bc)) by lia. assert (Hr : ready bc (content b)) by (intros _; rewrite Ep, Em; apply H).
  pose proof (head_td_spec bc H) as Ht. destruct (st_td _ (ci_store _ H) _ _ _ Ht) as (Hw & _).
  assert (Ew : wrap256 (head_td bc + c_Difficulty (content b)) = head_td bc + c_Difficulty (content b)) by (pose proof (so_difficulty _ Hs); unfold word in *; unfold wrap256; rewrite Z.mod_small; lia).
  apply (ends_yields (F := True)); [|by apply writeBlockWithState_yields]. apply (write_heavier b receipts (head_td bc)); [done|done|lia|by rewrite Ep, Em|lia|done|]. intros bc2 Hb. unfold adopt. rewrite Ep, Z.eqb_refl. unfold writeHeadBlock, on_db. go. cbn.
  split_and!; [done|done| |apply (hv_receipts _ _ _ _ Hb)..]. unfold head_td at 1. cbn. by rewrite (hv_td _ _ _ _ Hb).
Qed.

(** The verdict on a block that the engine and the checks of the body accept. *)
Definition link (bc : BlockChain) (b : Blk) : option ChainError :=
  if decide (canonical bc !! (Number b - 1) = Some (c_ParentHash (content b))) then None else
  if decide (is_Some (blocks bc !! (Number b - 1, c_ParentHash (content b)))) then Some ErrPrunedAncestor else Some ErrUnknownAncestor.

(** A block without a fault of its own. *)
Record fine (b : Blk) : Prop := {
  fi_bls : bls b = None;
  fi_root : DeriveSha (c_txs (content b)) = c_TxHash (content b);
  fi_sound : sound (content b);
  fi_number : 0 < Number b
}.

Lemma next_ends it b bc : chain_inv bc -> it_chain it !! Z.to_nat (it_index it + 1) = Some b -> it_results it (Z.to_nat (it_index it + 1)) = None -> fine b -> canonical bc !! Number b <> Some (Hash b) ->
  ends (next BlockHash DeriveSha bls it) bc (fun r bc' => bc' = bc /\ r = (mkIterator (it_chain it) (it_results it) (it_index it + 1), Some b, link bc b)).
Proof.
  intros H E Ev [F1 F2 F3 F4] Hc. unfold next. rewrite E. cbn [it_results]. rewrite Ev. unfold ValidateBody. rewrite F1. go. rewrite num_sound, F2, Z.eqb_refl by done.
  assert (E1 : HasBlockAndState BlockHash (ChainDB_ bc) (Hash b) (Number b) = false) by (apply not_true_is_false; by rewrite HasBlockAndState_iff). rewrite E1. cbn [negb].
  rewrite <- (num_sound (content b)), u64_pred by done. destruct (Z.eqb_spec (Number b) 0) as [E0|_]; [lia|]. pose proof (HasBlockAndState_iff bc (c_ParentHash (content b)) (Number b - 1) H) as Hp.
  assert (El : link bc b = if HasBlockAndState BlockHash (ChainDB_ bc) (c_ParentHash (content b)) (Number b - 1) then None else if HasBlock (ChainDB_ bc) (c_ParentHash (content b)) (Number b - 1) then Some ErrPrunedAncestor else Some ErrUnknownAncestor).
  { unfold link, HasBlock, HasHeader. destruct (HasBlockAndState _ _ (c_ParentHash _) _); case_decide as Hd; [done|by destruct Hd; apply Hp|by apply Hp in Hd|].
    destruct (blocks bc !! _) as [c|]; [by rewrite decide_True, bool_decide_eq_true_2 by done|by rewrite decide_False, bool_decide_eq_false_2 by (by intros [? ?] || by intros Hk; apply Hk)]. }
  rewrite El. destruct (HasBlockAndState _ _ (c_ParentHash _) _); cbn [negb]; [by go|]. destruct (HasBlock _ _ _); cbn [negb]; by go.
Qed.

Section Accepted.
Context (running : forall n, stop n = false).
Notation insertChain := (insertChain BlockHash DeriveSha bls verify execute coin stop Now evict appends write_closed).

Lemma running_ends bc : chain_inv bc -> ends (insertStopped stop) bc (fun r bc' => r = false /\ chain_inv bc' /\ same bc bc').
Proof. intros H. unfold insertStopped. go. call (by apply turn_ends). intros n bc' Hn. go. by rewrite running. Qed.

(** *** A batch on top of the head *)

Definition work (l : list Blk) : Z := foldr (fun b t => c_Difficulty (content b) + t) 0 l.

Lemma canonical_above bc n : chain_inv bc -> Number (currentBlock bc) < n -> canonical bc !! n = None.
Proof. intros H Hn. destruct (canonical bc !! n) as [h|] eqn:E; [|done]. destruct (ci_canon _ H n h E) as (Hle & _). lia. Qed.

Lemma next_number p b l : sound (content p) -> contiguous BlockHash p (b :: l) = true -> Number b = Number p + 1 /\ c_ParentHash (content b) = Hash p /\ contiguous BlockHash b l = true.
Proof.
  intros Hs. pose proof (so_number _ Hs). cbn. rewrite !andb_true_iff, !Z.eqb_eq. intros [[E1 E2] E3]. split_and!; [|done|done]. rewrite E1. unfold wrap256. rewrite Z.mod_small; lia.
Qed.

Lemma link_head bc b : chain_inv bc -> Number b = Number (currentBlock bc) + 1 -> c_ParentHash (content b) = Hash (currentBlock bc) -> link bc b = None.
Proof. intros H En Ep. unfold link. rewrite decide_True; [done|]. rewrite Ep, En. replace (Number (currentBlock bc) + 1 - 1) with (Number (currentBlock bc)) by lia. apply H. Qed.

Section Batch.
Context (appends_last : forall s n, appends s n = true <-> forall m, m ∈ s -> m < n) (receipts_of : Content -> bool).

(** A block that is executed without an error and adds to the difficulty. *)
Record importable (b : Blk) : Prop := {
  im_fine : fine b;
  im_difficulty : 0 < c_Difficulty (content b);
  im_execute n : execute n (content b) = inr (receipts_of (content b))
}.

(** The next block of a batch that continues the head. *)
Lemma next_batch pre b l it bc : chain_inv bc -> it_chain it = pre ++ b :: l -> it_index it = zlen pre -> (forall i, it_results it i = None) -> Forall importable l -> currentBlock bc = b -> contiguous BlockHash b l = true ->
  ends (next BlockHash DeriveSha bls it) bc (fun r bc' => bc' = bc /\ r = (mkIterator (it_chain it) (it_results it) (zlen (pre ++ [b])), head l, None)).
Proof.
  intros H E Ei Ev Hl Hcur Hc. assert (Ez : zlen (pre ++ [b]) = zlen pre + 1) by (unfold zlen; rewrite length_app; cbn; lia). destruct l as [|b' l].
  - unfold next. rewrite E, lookup_ge_None_2 by (rewrite length_app, Ei; unfold zlen; cbn; lia). by go.
  - rewrite list.Forall_cons in Hl. destruct Hl as [Hb _]. subst b. destruct (next_number _ _ _ (ci_sound _ H) Hc) as (En & Ep & _).
    call (apply (next_ends it b'); [done| |apply Ev|apply Hb|rewrite canonical_above by (done || lia); done]).
    + rewrite E, Ei, (Z2Nat.inj_add _ 1) by (unfold zlen; lia). unfold zlen. rewrite Nat2Z.id, lookup_app_r by lia. by replace (length pre + Z.to_nat 1 - length pre)%nat with 1%nat by lia.
    + intros r bc' [-> ->]. split; [done|]. by rewrite link_head, Ei, Ez.
Qed.

(** What the import of the batch leaves. *)
Definition imported (bc : BlockChain) (l : list Blk) (bc' : BlockChain) : Prop :=
  chain_inv bc' /\ currentBlock bc' = default (currentBlock bc) (list.last l) /\ head_td bc' = head_td bc + work l.

(** The blocks up to the first one with receipts that the store does not append to [keys]. *)
Fixpoint admitted (keys : gset Z) (l : list Blk) : list Blk :=
  match l with
  | [] => []
  | b :: l => if receipts_of (content b) && negb (appends keys (Number b)) then [] else b :: admitted keys l
  end.

(** The answer to a batch of which the blocks [done] were imported. *)
Definition import_answer (done l : list Blk) : Z * option ChainError := (zlen done, if (length done =? length l)%nat then None else Some errAppend).

(** The keys of receipts, which were [keys] before the batch. *)
Record keyed (keys : gset Z) (bc : BlockChain) : Prop := {
  ky_all m : m ∈ keys -> m ∈ t_receipts (ChainDB_ bc);
  ky_new m : m ∈ t_receipts (ChainDB_ bc) -> m ∈ keys \/ m <= Number (currentBlock bc)
}.

Lemma keyed_appends keys bc n : keyed keys bc -> Number (currentBlock bc) < n -> appends (t_receipts (ChainDB_ bc)) n = appends keys n.
Proof.
  intros [K1 K2] Hn. apply eq_true_iff_eq. rewrite !appends_last. split; [intros H m Hm; by apply H, K1|].
  intros H m [Hm|Hm]%K2; [by apply H|lia].
Qed.

Lemma import_run l : forall pre it fuel bc keys, chain_inv bc -> it_chain it = pre ++ l -> it_index it = zlen pre -> (forall i, it_results it i = None) -> Forall importable l -> batch bc l -> contiguous BlockHash (currentBlock bc) l = true ->
  head_td bc + work l < two256 -> keyed keys bc -> (length l < fuel)%nat ->
  ends (import_blocks BlockHash DeriveSha bls execute coin stop evict appends fuel it (head l) None) bc (fun r bc' => imported bc (admitted keys l) bc' /\
    r = if (length (admitted keys l) =? length l)%nat then inl (mkIterator (it_chain it) (it_results it) (zlen (it_chain it)), None, None) else inr (zlen pre + zlen (admitted keys l), Some errAppend)).
Proof.
  induction l as [|b l IH]; intros pre it fuel bc keys H E Ei Ev Hl Hb Hc Hw Hk Hf; destruct fuel as [|fuel]; cbn in Hf; [lia| |lia|]; cbn [import_blocks head].
  - go. rewrite app_nil_r in E. split; [split_and!; [done|done|cbn; lia]|]. cbn. f_equal. destruct it; cbn in *; congruence.
  - rewrite list.Forall_cons in Hl. destruct Hl as [[F1 F2 F3] Hl]. pose proof (next_number _ _ _ (ci_sound _ H) Hc) as (En & Ep & Hc'). unfold batch in Hb. rewrite list.Forall_cons in Hb. destruct Hb as [[Hv Hs] Hb]. change (work (b :: l)) with (c_Difficulty (content b) + work l) in Hw |- *.
    assert (Hwl : 0 <= work l) by (clear -Hl; unfold work; induction Hl as [|x l [_ Hx _] _ IH]; cbn in *; lia).
    rewrite (bool_decide_eq_true_2 (None = None)) by done. cbn [orb]. go. call (by apply running_ends). intros r bc1 (-> & H1 & S1). go. call (by apply turn_ends). intros n bc2 (H2 & S2). assert (S12 : same bc bc2) by by etransitivity. rewrite F3. go.
    assert (Et : head_td bc2 = head_td bc) by (unfold head_td; by rewrite (sm_db _ _ S12), (sm_current _ _ S12)). pose proof (sm_current _ _ S12) as Ecur. pose proof (sm_db _ _ S12) as Edb.
    cbn [admitted]. rewrite <- (keyed_appends keys bc) by (done || lia). destruct (receipts_of (content b) && negb (appends (t_receipts (ChainDB_ bc)) (Number b))) eqn:Hadm.
    + apply andb_true_iff in Hadm as [-> Hna%negb_true_iff]. call (apply (write_refused b bc2 (head_td bc)); [done|apply F1| |by rewrite Edb]).
      { rewrite Edb, Ep, En. replace (Number (currentBlock bc) + 1 - 1) with (Number (currentBlock bc)) by lia. by apply head_td_spec. }
      intros r bc3 [-> ->]. go. split; [split_and!; [done|done|cbn; lia]|]. cbn [length zlen Nat.eqb]. rewrite Ei. unfold zlen. cbn. by rewrite Z.add_0_r.
    + call (apply write_on_head; [done|by eapply valid_grows; [apply same_grows|]|done|by rewrite Ecur|by rewrite Ecur|done|rewrite Et; lia|]).
      { intros Hrc. rewrite Hrc in Hadm. by rewrite Edb, <- negb_false_iff. }
      intros r bc3 ((-> & Ecur3 & Et3 & Hrec3) & H3 & G3). go. call (by apply (next_batch pre b l)). intros r bc4 [-> ->].
      call (apply (IH (pre ++ [b]) _ _ _ keys); [done|cbn; by rewrite E, <- app_assoc|done|done|done| |by rewrite Ecur3|rewrite Et3, Et; lia| |lia]).
      * eapply batch_grows; [exact G3|]. eapply batch_grows; [by apply same_grows|done].
      * rewrite Edb in Hrec3. destruct Hrec3 as [R1 R2], Hk as [K1 K2]. split; [intros m Hm; by apply R1, K1|]. intros m Hm. rewrite Ecur3. apply R2, elem_of_union in Hm as [->%elem_of_singleton|Hm]; [by right|].
        apply K2 in Hm as [Hm|Hm]; [by left|right; lia].
      * cbn [it_chain it_results]. intros r bc5 ((H5 & E5 & T5) & ->). split.
        -- split_and!; [done|rewrite E5, Ecur3; by rewrite list.last_cons; destruct (list.last _)|rewrite T5, Et3, Et; change (work (b :: ?l)) with (c_Difficulty (content b) + work l); cbn; lia].
        -- cbn [length Nat.eqb]. destruct (_ =? _)%nat; [done|]. do 2 f_equal. unfold zlen. rewrite length_app. cbn. lia.
Qed.

(** A batch that continues the head is imported up to the first block whose receipts are
    not appended. *)
Lemma InsertChain_run fuel l bc : chain_inv bc -> l <> [] -> batch bc l -> contiguous BlockHash (currentBlock bc) l = true -> Forall importable l -> (forall n i, verify n (content <$> l) i = None) -> head_td bc + work l < two256 ->
  ends (InsertChain (S fuel) l) bc (fun r bc' => r = import_answer (admitted (t_receipts (ChainDB_ bc)) l) l /\ imported bc (admitted (t_receipts (ChainDB_ bc)) l) bc').
Proof.
  intros H Hne Hb Hc Hl Hv Hw. set (keys := t_receipts (ChainDB_ bc)). destruct l as [|b l]; [done|]. pose proof (next_number _ _ _ (ci_sound _ H) Hc) as (En & Ep & Hc'). unfold Chain.InsertChain. rewrite Hc'. cbn [negb]. set (chain := b :: l) in *. cbn [Chain.insertChain].
  go. call (by apply running_ends). intros r bc1 (-> & H1 & S1). go. call (by apply turn_ends). intros n bc2 (H2 & S2). assert (S12 : same bc bc2) by by etransitivity. pose proof (sm_current _ _ S12) as Ecur. go.
  assert (Hf : importable b) by (by inversion Hl). call (apply (next_ends _ b); [done|done|apply Hv|apply Hf|rewrite canonical_above by (done || rewrite Ecur; lia); done]). intros r bc3 [-> ->]. rewrite link_head by (done || by rewrite Ecur).
  cbv beta match. go. rewrite (bool_decide_eq_false_2 (None = Some ErrKnownBlock)) by done. go. unfold import_rest. go. assert (Et : head_td bc2 = head_td bc) by (unfold head_td; by rewrite (sm_db _ _ S12), (sm_current _ _ S12)).
  call (apply (import_run chain [] _ _ _ keys); [done|done|done|intros i; apply Hv|done|eapply batch_grows; [by apply same_grows|done]|by rewrite Ecur|by rewrite Et| |lia]).
  { unfold keys. split; rewrite (sm_db _ _ S12); [done|by left]. }
  intros r bc4 ((H4 & E4 & T4) & ->). unfold import_answer. assert (Hi : imported bc (admitted keys chain) bc4) by (split_and!; [done|by rewrite E4, Ecur|by rewrite T4, Et]).
  destruct (length (admitted keys chain) =? length chain)%nat eqn:El; go; [|by split].
  split; [|done]. apply Nat.eqb_eq in El. unfold zlen. by rewrite El.
Qed.
End Batch.

(** *** A heavier block beside the head *)

Lemma reorg_other b bc : chain_inv bc -> address b <> address (currentBlock bc) -> sound (content b) -> Number (currentBlock bc) <= Number b ->
  ends (reorg BlockHash (currentBlock bc) b) bc (fun err bc' => err = Some errInvalidNewChain /\ calm bc bc').
Proof.
  intros H Hne Hs Hle. unfold reorg. rewrite !num_sound by (done || apply H). destruct (Z.ltb_spec (Number b) (Number (currentBlock bc))); [lia|]. go.
  call (apply shorten_new_ends; [done|done|done|eexists; apply H|lia]). intros [n l] bc1 (-> & C1). by go.
Qed.

(** *** One block whose parent is canonical *)

Lemma single_run fuel b receipts bc Q : chain_inv bc -> fine b -> canonical bc !! Number b <> Some (Hash b) -> canonical bc !! (Number b - 1) = Some (c_ParentHash (content b)) ->
  (forall n i, verify n [content b] i = None) -> (forall n, execute n (content b) = inr receipts) ->
  (forall bc', chain_inv bc' -> same bc bc' -> ends (writeBlockWithState BlockHash coin evict appends b receipts) bc' (fun status bc'' => match status with inr e => Q (0, Some e) bc'' | inl _ => Q (1, None) bc'' end)) ->
  ends (InsertChain (S fuel) [b]) bc Q.
Proof.
  intros H Hf Hnk Hp Hver Hex HQ. unfold Chain.InsertChain. cbn [contiguous negb Chain.insertChain]. go. call (by apply running_ends). intros r bc1 (-> & H1 & S1). go. call (by apply turn_ends). intros n bc2 (H2 & S2). assert (S12 : same bc bc2) by by etransitivity. go.
  call (apply (next_ends _ b); [done|done|apply Hver|done|by rewrite (sm_db _ _ S12)]). intros r bc3 [-> ->]. assert (El : link bc2 b = None) by (unfold link; rewrite (sm_db _ _ S12); by rewrite decide_True). rewrite El. go.
  rewrite (bool_decide_eq_false_2 (None = Some ErrKnownBlock)) by done. go. unfold import_rest. cbn [import_blocks]. rewrite (bool_decide_eq_true_2 (None = None)) by done. cbn [orb]. go.
  call (by apply running_ends). intros r bc3 (-> & H3 & S3). go. call (by apply turn_ends). intros n' bc4 (H4 & S4). assert (S14 : same bc bc4) by (etransitivity; [exact S12|by etransitivity]). rewrite Hex. go.
  call (by apply HQ). intros status bc5. destruct status as [w|e]; intros Hq; go; [|done]. unfold next. cbn [it_chain it_index]. change ([b] !! Z.to_nat (-1 + 1 + 1)) with (@None Blk). go. cbn [length import_blocks]. by go.
Qed.

(** A block that is not above the head is not its child. *)
Lemma not_child bc b : chain_inv bc -> Number b <= Number (currentBlock bc) -> canonical bc !! (Number b - 1) = Some (c_ParentHash (content b)) -> c_ParentHash (content b) <> Hash (currentBlock bc).
Proof.
  intros H Hle Hp E. rewrite E in Hp. destruct (canonical_stored bc _ _ H Hp) as (c & Ec). destruct (hash_content _ _ _ _ _ _ (ci_store _ H) (current_stored bc H) Ec) as [En _]. lia.
Qed.

(** A block whose receipts are refused leaves no trace. *)
Lemma refused_run fuel b tp bc : chain_inv bc -> fine b -> canonical bc !! Number b <> Some (Hash b) -> canonical bc !! (Number b - 1) = Some (c_ParentHash (content b)) -> tds bc !! (Number b - 1, c_ParentHash (content b)) = Some tp ->
  (forall n i, verify n [content b] i = None) -> (forall n, execute n (content b) = inr true) -> appends (t_receipts (ChainDB_ bc)) (Number b) = false ->
  ends (InsertChain (S fuel) [b]) bc (fun r bc' => r = (0, Some errAppend) /\ currentBlock bc' = currentBlock bc /\ ChainDB_ bc' = ChainDB_ bc).
Proof.
  intros H Hf Hnk Hp Ht Hver Hex Ha. apply (single_run fuel b true); [done..|]. intros bc1 H1 S1. pose proof (sm_db _ _ S1) as Ed. call (apply (write_refused b bc1 tp); [apply Hf|apply Hf|by rewrite Ed..]).
  intros status bc2 [-> ->]. split_and!; [done|apply S1|done].
Qed.

Lemma sibling_run fuel b receipts tp bc : chain_inv bc -> fine b -> address b <> address (currentBlock bc) -> Number b = Number (currentBlock bc) -> Hash b <> Hash (currentBlock bc) ->
  canonical bc !! (Number b - 1) = Some (c_ParentHash (content b)) -> tds bc !! (Number b - 1, c_ParentHash (content b)) = Some tp -> head_td bc < wrap256 (tp + c_Difficulty (content b)) ->
  (forall n i, verify n [content b] i = None) -> (forall n, execute n (content b) = inr receipts) -> (receipts = true -> appends (t_receipts (ChainDB_ bc)) (Number b) = true) ->
  ends (InsertChain (S fuel) [b]) bc (fun r bc' => r = (0, Some errInvalidNewChain) /\ currentBlock bc' = currentBlock bc /\ canonical bc' = canonical bc /\ tds bc' !! (Number b, Hash b) = Some (wrap256 (tp + c_Difficulty (content b)))).
Proof.
  intros H Hf Hadd En Hne Hp Ht Hlt Hver Hex Happ. pose proof (fi_sound _ Hf) as Hs. apply (single_run fuel b receipts); [done|done|rewrite En, (ci_top _ H); congruence|done|done|done|]. intros bc1 H1 S1. pose proof (sm_db _ _ S1) as Ed. pose proof (sm_current _ _ S1) as Ecur.
  apply (write_heavier b receipts tp); [done|done|apply Hf|by rewrite Ed|unfold head_td; by rewrite Ed, Ecur|by rewrite Ed|]. intros bc2 [H2 C2 K2 O2 T2 _]. rewrite <- C2. unfold adopt.
  pose proof (not_child bc2 b H2) as Hnc. rewrite C2, K2, Ecur, Ed in Hnc. destruct (Z.eqb_spec (c_ParentHash (content b)) (Hash (currentBlock bc2))) as [E|_]; [rewrite C2, Ecur in E; by destruct (Hnc ltac:(lia) Hp E)|].
  go. call (apply (reorg_other b bc2); [done|by rewrite C2, Ecur|done|rewrite C2, Ecur; lia]). intros r bc3 (-> & C3 & _). go. split_and!; [done|by rewrite (sm_current _ _ C3), C2|by rewrite (sm_db _ _ C3), K2, Ed|by rewrite (sm_db _ _ C3)].
Qed.

Lemma shorter_run fuel b receipts tp bc : chain_inv bc -> valid bc b -> fine b -> Number b < Number (currentBlock bc) -> canonical bc !! Number b <> Some (Hash b) ->
  canonical bc !! (Number b - 1) = Some (c_ParentHash (content b)) -> tds bc !! (Number b - 1, c_ParentHash (content b)) = Some tp -> head_td bc < wrap256 (tp + c_Difficulty (content b)) ->
  (forall n i, verify n [content b] i = None) -> (forall n, execute n (content b) = inr receipts) -> (receipts = true -> appends (t_receipts (ChainDB_ bc)) (Number b) = true) ->
  ends (InsertChain (S fuel) [b]) bc (fun r bc' => r = (1, None) /\ currentBlock bc' = b /\ (forall n, n < Number b -> canonical bc' !! n = canonical bc !! n) /\ (forall n, Number b < n -> canonical bc' !! n = None)).
Proof.
  intros H Hv Hf Hlow Hnk Hp Ht Hlt Hver Hex Happ. pose proof (fi_sound _ Hf) as Hs. apply (single_run fuel b receipts); [done|done|done|done|done|done|]. intros bc1 H1 S1. pose proof (sm_db _ _ S1) as Ed. pose proof (sm_current _ _ S1) as Ecur.
  apply (write_heavier b receipts tp); [done|done|apply Hf|by rewrite Ed|unfold head_td; by rewrite Ed, Ecur|by rewrite Ed|]. intros bc2 [H2 C2 K2 O2 T2 _]. rewrite <- C2. unfold adopt.
  pose proof (not_child bc2 b H2) as Hnc. rewrite C2, K2, Ecur, Ed in Hnc. destruct (Z.eqb_spec (c_ParentHash (content b)) (Hash (currentBlock bc2))) as [E|_]; [rewrite C2, Ecur in E; by destruct (Hnc ltac:(lia) Hp E)|].
  assert (Hv2 : valid bc2 b) by (eapply lookup_weaken; [|exact O2]; eapply lookup_weaken; [exact Hv|apply S1]).
  go. call (apply (reorg_ends b bc2); [done|done|done|apply Hf|intros _; by rewrite K2, Ed]). intros [e|] bc3 Hq; [destruct Hq as (_ & Hle & _); rewrite C2, Ecur in Hle; lia|].
  unfold writeHeadBlock, on_db. go. cbn. rewrite num_sound by done.  split_and!; [done|done| |].
  - intros n Hn. rewrite lookup_insert_ne by lia. rewrite (ct_below _ _ _ Hq n Hn). by rewrite K2, Ed.
  - intros n Hn. rewrite lookup_insert_ne by lia. by apply (ct_above _ _ _ Hq).
Qed.

(** *** A block on a side chain *)

Definition panics {A} (m : MC A) (bc : BlockChain) : Prop := m bc = GoPanic.

Lemma panics_bind {A B} (m : MC A) (f : A -> MC B) bc : panics m bc -> panics (m ≫= f) bc.
Proof. unfold panics, mbind, M_bind. by intros ->. Qed.

Lemma panics_after {A B} (m : MC A) (f : A -> MC B) bc : ends m bc (fun a bc' => panics (f a) bc') -> panics (m ≫= f) bc.
Proof. intros (a & bc' & E & H). unfold panics, mbind, M_bind. by rewrite E. Qed.

(** No total difficulty: the fork choice dereferences nil. *)
Lemma ReorgNeeded_panics header bc : chain_inv bc -> tds bc !! (c_Number header, BlockHash header) = None -> panics (ReorgNeeded BlockHash coin evict (content (currentBlock bc)) header) bc.
Proof.
  intros H E. unfold ReorgNeeded. apply panics_after. call (by apply (GetTd_ends _ _ (head_td bc)), head_td_spec). intros r bc1 (-> & H1 & S1).
  assert (Hn : forall r bc', GetTd evict (BlockHash header) (c_Number header) bc1 = Done (r, bc') -> r = None).
  { intros r bc' Er. destruct (yields_done _ _ _ _ _ (GetTd_yields (F := True) _ _ _ H1) Er) as [_ Hr]. destruct r as [t|]; [|done]. destruct Hr as (_ & n & Et). destruct (td_key _ _ _ _ (ci_store _ H1) Et) as [-> _]. rewrite (sm_db _ _ S1) in Et. congruence. }
  assert (He : ends (GetTd evict (BlockHash header) (c_Number header)) bc1 (fun r _ => r = None)).
  { assert (He : ends (GetTd evict (BlockHash header) (c_Number header)) bc1 (fun _ _ => True)) by (unfold GetTd; go; destruct (tdCache bc1 !! _); by go). destruct He as (r & bc' & Er & _). exists r, bc'. split; [done|by eapply Hn]. }
  apply panics_after. call (exact He). intros r bc2 ->. done.
Qed.

Lemma GetBlockByNumber_run number bc : chain_inv bc -> 0 <= number < two64 -> ends (GetBlockByNumber number) bc (fun r bc' => bc' = bc /\ match r with Some c => canonical bc !! number = Some (BlockHash c) /\ stored (ChainDB_ bc) c | None => True end).
Proof.
  intros H Hn. unfold GetBlockByNumber, ReadCanonicalHash. go. unfold u64. rewrite Z.mod_small by done. destruct (canonical bc !! number) as [h|] eqn:E; [|cbn; by go]. cbn [default from_option].
  destruct (canonical_stored bc _ _ H E) as (c & Ec). destruct (st_keyed _ (ci_store _ H) _ _ _ Ec) as (-> & -> & _). cbn. destruct (Z.eqb_spec (BlockHash c) 0) as [E0|_]; [by destruct (hash_nonzero c)|].
  go. eapply ends_must; [exact Ec|]. by go.
Qed.

Lemma write_side_run b bc : chain_inv bc -> fine b -> is_Some (blocks bc !! (Number b - 1, c_ParentHash (content b))) -> tds bc !! (Number b, Hash b) = None -> (forall c, canonical bc !! Number b = Some (BlockHash c) -> stored (ChainDB_ bc) c -> c_Root c <> c_Root (content b)) ->
  forall results, let run := write_side BlockHash DeriveSha bls stop evict 4 (content (currentBlock bc)) (mkIterator [b] results 0) (Some b) (Some ErrPrunedAncestor) 0 b in
  panics run bc \/ ends run bc (fun r bc' => chain_inv bc' /\ currentBlock bc' = currentBlock bc /\ tds bc' = tds bc /\ exists it, r = inl (it, b)).
Proof.
  intros H Hf Hpar Ht Hroot results. cbv zeta. pose proof (fi_sound _ Hf) as Hs. pose proof (so_number _ Hs) as Hn. cbn [write_side]. rewrite bool_decide_eq_true_2 by done.
  set (rest := write_side_block BlockHash DeriveSha bls stop evict 3 (content (currentBlock bc)) (mkIterator [b] results 0) b 0).
  assert (Hrest : panics rest bc \/ ends rest bc (fun r bc' => chain_inv bc' /\ currentBlock bc' = currentBlock bc /\ tds bc' = tds bc /\ exists it, r = inl (it, b))).
  { unfold rest. cbn [write_side_block]. change (0 =? 0) with true. cbv match. set (td := td ← GetTd evict _ _; must td). destruct (td bc) as [[t bc1]| |] eqn:Etd; [right|left; by apply panics_bind|].
    - assert (Hy : chain_inv bc1 /\ same bc bc1) by exact (yields_done _ _ _ _ _ (must_td_yields (F := True) _ _ _ H) Etd). destruct Hy as [H1 S1]. go. exists t, bc1. split; [done|]. go. apply (ends_mono _ _ (fun r bc' => r = None /\ chain_inv bc' /\ currentBlock bc' = currentBlock bc /\ tds bc' = tds bc)).
      + destruct (HasBlock _ _ _); [go; rewrite (sm_current _ _ S1), (sm_db _ _ S1); by split_and!|]. unfold WriteBlockWithoutState. go. call (by apply running_ends). intros r bc2 (-> & H2 & S2). unfold on_db. go.
        destruct (WriteBlock_ok (content b) _ (ci_store _ H2) Hs (fi_number _ Hf)) as (W1 & W2 & _); [by rewrite (sm_db _ _ S2), (sm_db _ _ S1)|]. destruct (inv_extends bc2 _ H2 W1 W2) as [H3 _]. cbn. rewrite (sm_current _ _ S2), (sm_current _ _ S1). split_and!; [done|done|done|]. by rewrite (sm_db _ _ S2), (sm_db _ _ S1).
      + intros r bc2 (-> & H2 & E2 & E3). go. unfold next. cbn [it_chain it_index]. change ([b] !! Z.to_nat (0 + 1)) with (@None Blk). go. cbn [write_side]. go. split_and!; [done|done|done|by eexists].
    - exfalso. unfold td, GetTd in Etd. unfold mbind, M_bind in Etd. cbn in Etd. destruct (tdCache bc !! _) as [[?|]|]; try done. cbn in Etd. by destruct (ReadTd _ _ _). }
  destruct (Z.leb_spec (Number b) (Number (currentBlock bc))) as [Hle|Hgt].
  2: { destruct Hrest as [Hp|He]; [left; by apply panics_after, ends_ret|right; by apply ends_bind, ends_ret]. }
  destruct (GetBlockByNumber_run (Number b) bc H ltac:(lia)) as (r & bc' & Er & -> & Hr). destruct r as [c|].
  2: { destruct Hrest as [Hp|He]; [left; apply panics_after; by exists None, bc|right; apply ends_bind; by exists None, bc]. }
  destruct Hr as [Hc Hst]. assert (Hne : BlockHash c <> Hash b).
  { intros E. rewrite E in Hc. destruct (ci_canon _ H _ _ Hc) as (_ & _ & [t Et] & _). congruence. }
  assert (Hrt : (c_Root c =? c_Root (content b)) = false) by by apply Z.eqb_neq, Hroot. apply Z.eqb_neq in Hne.
  destruct Hrest as [Hp|He]; [left; apply panics_after; exists (Some c), bc; split; [done|]|right; apply ends_bind; exists (Some c), bc; split; [done|]]; by rewrite Hne, Hrt.
Qed.

Lemma side_run fuel b bc : chain_inv bc -> fine b -> (forall n i, verify n [content b] i = None) -> is_Some (blocks bc !! (Number b - 1, c_ParentHash (content b))) -> canonical bc !! (Number b - 1) <> Some (c_ParentHash (content b)) ->
  tds bc !! (Number b, Hash b) = None -> (forall c, canonical bc !! Number b = Some (BlockHash c) -> stored (ChainDB_ bc) c -> c_Root c <> c_Root (content b)) -> panics (InsertChain (S fuel) [b]) bc.
Proof.
  intros H Hf Hver Hpar Hnc Ht Hroot. unfold Chain.InsertChain. cbn [contiguous negb Chain.insertChain].
  apply panics_after. call (by apply running_ends). intros r bc1 (-> & H1 & S1). apply panics_after. call (by apply turn_ends). intros n bc2 (H2 & S2). assert (S12 : same bc bc2) by by etransitivity. pose proof (sm_db _ _ S12) as Edb.
  assert (Hnk : canonical bc2 !! Number b <> Some (Hash b)) by (rewrite Edb; intros Hk; destruct (ci_canon _ H _ _ Hk) as (_ & _ & [t Et] & _); congruence).
  apply panics_after. call (apply (next_ends _ b); [done|done|apply Hver|done|done]). intros r bc3 [-> ->]. assert (El : link bc2 b = Some ErrPrunedAncestor) by (unfold link; rewrite Edb, decide_False, decide_True by done; done). rewrite El.
  apply panics_after. go. apply panics_after. rewrite (bool_decide_eq_false_2 (Some ErrPrunedAncestor = Some ErrKnownBlock)) by done. go. apply panics_after. go. unfold insertSideChain. apply panics_after. go.
  destruct (write_side_run b bc2 H2 Hf) with (results := verify n (content <$> [b])) as [Hp|He]; [by rewrite Edb|by rewrite Edb|by rewrite Edb|by apply panics_bind|]. apply panics_after. call (exact He). intros r bc4 (H4 & Ec4 & Et4 & it & ->).
  rewrite <- Ec4. apply panics_bind, ReorgNeeded_panics; [done|]. by rewrite Et4, Edb.
Qed.
End Accepted.

(** ** The node at work *)

Section Reached.
Context (genesis_sound : sound genesis) (genesis_zero : c_Number genesis = 0) (running : forall n, stop n = false).

(** C21: A batch that continues the head, whose blocks the engine accepts and which execute
    without an error, is imported up to the first block with receipts whose number is not
    above every number that has receipts in the database (the store appends them in the
    order of their keys; a head that moved down to a shorter branch leaves receipts above
    it).  The import answers how many blocks were imported, with an error if that is not
    the whole batch; the last of them is the head, and the total difficulty grows by their
    work. *)
Theorem batch_imported receipts_of fuel l bc : rtc chain_step chain_start bc -> l <> [] -> batch bc l -> contiguous BlockHash (currentBlock bc) l = true -> Forall (importable receipts_of) l ->
  (forall n i, verify n (content <$> l) i = None) -> head_td bc + work l < two256 -> (forall s n, appends s n = true <-> forall m, m ∈ s -> m < n) ->
  let done := admitted receipts_of (t_receipts (ChainDB_ bc)) l in
  ends (InsertChain (S fuel) l) bc (fun r bc' => r = (zlen done, if (length done =? length l)%nat then None else Some errAppend) /\
    currentBlock bc' = default (currentBlock bc) (list.last done) /\ head_td bc' = head_td bc + work done).
Proof.
  intros Hr Hne Hb Hc Hl Hv Hw Ha. destruct (steps_inv _ _ (start_inv genesis_sound genesis_zero) Hr) as [H _]. call (by apply (InsertChain_run running Ha receipts_of)). by intros r bc' (-> & _ & E & T).
Qed.



(** C40: A block whose parent is stored but not canonical stops the node: the import of a
    side chain writes no total difficulty, and the fork choice dereferences the one that it
    does not find.  It is enough that the engine accepts the header and that the block at
    its number, if there is one, has another state root. *)
Theorem side_chain_panics fuel b bc : rtc chain_step chain_start bc -> fine b -> (forall n i, verify n [content b] i = None) -> is_Some (blocks bc !! (Number b - 1, c_ParentHash (content b))) ->
  canonical bc !! (Number b - 1) <> Some (c_ParentHash (content b)) -> tds bc !! (Number b, Hash b) = None -> (forall c, canonical bc !! Number b = Some (BlockHash c) -> stored (ChainDB_ bc) c -> c_Root c <> c_Root (content b)) ->
  InsertChain (S fuel) [b] bc = GoPanic.
Proof. intros Hr. intros. destruct (steps_inv _ _ (start_inv genesis_sound genesis_zero) Hr) as [H' _]. by apply side_run. Qed.
End Reached.
End Invariant.

(** ** A fork of two blocks *)

Module Fork.
Definition hash (c : Content) : Z := Z.pos (encode (c_ParentHash c :: c_Number c :: c_Difficulty c :: c_Time c :: c_Root c :: c_TxHash c :: c_Rest c :: c_txs c)).

Lemma hash_inj : Inj (=) (=) hash.
Proof. intros [] [] E. injection E as E. apply (inj encode) in E. cbn in E. congruence. Qed.

Lemma hash_pos c : hash c <> 0.
Proof. done. Qed.

Definition appends (s : gset Z) (n : Z) : bool := bool_decide (set_Forall (fun m => m < n) s).

Lemma appends_last s n : appends s n = true <-> forall m, m ∈ s -> m < n.
Proof. unfold appends. by rewrite bool_decide_eq_true. Qed.

Definition sorted (n : nat) (m : gmap Z Blk) : list Blk := (map_to_list m).*2.

Definition genesis : Content := mkContent 0 0 1 0 0 0 0 [].
Definition block_a : Content := mkContent (hash genesis) 1 1 10 1 0 0 [].
Definition block_b : Content := mkContent (hash genesis) 1 2 10 2 0 0 [].
Definition block_c : Content := mkContent (hash block_b) 2 1 20 3 0 0 [].
Definition block_d : Content := mkContent (hash block_a) 2 1 20 4 0 0 [].
Definition block_e : Content := mkContent (hash genesis) 1 9 10 5 0 0 [].

Notation Insert := (InsertChain hash (fun _ => 0) (fun _ => None) (fun _ _ _ => None) (fun _ _ => inr false) (fun _ => false) (fun _ => false) (fun _ => 0) (fun _ m => m) appends GoPanic).
Notation step := (chain_step hash genesis (fun _ m => m) (fun _ => 0) (fun _ => None) (fun _ => false) (fun _ => false) (fun _ => 0) appends GoPanic (fun _ _ => inr false) (fun _ _ _ => None) sorted 0%N).
Notation start := (chain_start hash genesis 0%N).

Definition after {A} (m : M BlockChain A) (bc : BlockChain) : BlockChain := match m bc with Done (_, bc') => bc' | _ => bc end.

Definition decoded : BlockChain := after (allocate block_e) (after (allocate block_d) (after (allocate block_c) (after (allocate block_b) (after (allocate block_a) start)))).
Definition head_a : BlockChain := after (Insert 2 [mkBlk block_a 2]) decoded.
Definition head_d : BlockChain := after (Insert 2 [mkBlk block_d 5]) head_a.
Definition forked : BlockChain := after (Insert 2 [mkBlk block_b 3]) head_a.

Lemma content_sound c : c ∈ [genesis; block_a; block_b; block_c; block_d; block_e] -> sound c.
Proof. intros Hc. repeat (apply elem_of_cons in Hc as [->|Hc]; [split; cbn; unfold word; lia|]). by apply not_elem_of_nil in Hc. Qed.

Lemma after_done {A} (m : M BlockChain A) bc : match m bc with Done _ => true | _ => false end = true -> exists r, m bc = Done (r, after m bc).
Proof. unfold after. destruct (m bc) as [[r bc']| |]; [by eexists|done|done]. Qed.

Lemma reach_decode c bc : c ∈ [genesis; block_a; block_b; block_c; block_d; block_e] -> rtc step start bc -> rtc step start (after (allocate c) bc).
Proof. intros Hc Hr. eapply rtc_r; [exact Hr|]. eapply step_decode; [by apply content_sound|reflexivity]. Qed.

Lemma batch_one c n bc : c ∈ [genesis; block_a; block_b; block_c; block_d; block_e] -> objects bc !! n = Some c -> batch bc [mkBlk c n].
Proof. intros Hc Ho. apply list.Forall_singleton. split; [done|by apply content_sound]. Qed.

Lemma import_step c n bc : c ∈ [genesis; block_a; block_b; block_c; block_d; block_e] -> objects bc !! n = Some c -> match Insert 2 [mkBlk c n] bc with Done _ => true | _ => false end = true -> step bc (after (Insert 2 [mkBlk c n]) bc).
Proof. intros Hc Ho He. destruct (after_done _ _ He) as [r E]. eapply step_import; [|exact E]. by apply batch_one. Qed.

Lemma decoded_reached : rtc step start decoded.
Proof. repeat (apply reach_decode; [set_solver|]). done. Qed.

Lemma head_a_reached : rtc step start head_a.
Proof. eapply rtc_r; [apply decoded_reached|]. apply import_step; [set_solver|by vm_compute|by vm_compute]. Qed.

Lemma head_d_reached : rtc step start head_d.
Proof. eapply rtc_r; [apply head_a_reached|]. apply import_step; [set_solver|by vm_compute|by vm_compute]. Qed.

Lemma forked_reached : rtc step start forked.
Proof. eapply rtc_r; [apply head_a_reached|]. apply import_step; [set_solver|by vm_compute|by vm_compute]. Qed.

Lemma sorted_perm n m : sorted n m ≡ₚ (map_to_list m).*2.
Proof. done. Qed.

Lemma fine_block c n : c ∈ [block_a; block_b; block_c; block_d; block_e] -> fine (fun _ => 0) (fun _ => None) (mkBlk c n).
Proof. intros Hc. split; [done| |apply content_sound; set_solver|]; repeat (apply elem_of_cons in Hc as [->|Hc]; [done|]); by apply not_elem_of_nil in Hc. Qed.

(** The block beside the head is stored and not canonical. *)
Lemma canonical_chain_kept_witness : canonical_chain hash genesis forked /\ currentBlock forked = mkBlk block_a 2.
Proof.
  split; [|by vm_compute]. eapply (canonical_chain_kept hash hash_inj hash_pos genesis (fun _ m => m) ltac:(done)); [exact sorted_perm|by apply content_sound; set_solver|done|exact forked_reached].
Defined.

Lemma head_difficulty_grows_witness : head_td hash decoded <= head_td hash head_a /\ head_td hash head_a = 1.
Proof.
  split; [|by vm_compute]. eapply (head_difficulty_grows hash hash_inj hash_pos genesis (fun _ m => m) ltac:(done)); [exact sorted_perm|by apply content_sound; set_solver|done|exact decoded_reached|].
  apply rtc_once, import_step; [set_solver|by vm_compute|by vm_compute].
Defined.

Lemma batch_imported_witness : ends (Insert 2 [mkBlk block_a 2]) decoded (fun r bc' => r = (1, None) /\ currentBlock bc' = mkBlk block_a 2 /\ head_td hash bc' = head_td hash decoded + 1).
Proof.
  eapply (batch_imported hash hash_inj hash_pos genesis (fun _ m => m) ltac:(done)) with (receipts_of := fun _ => false) (l := [mkBlk block_a 2]);
    [exact sorted_perm|by apply content_sound; set_solver|done|done|exact decoded_reached|done| |by vm_compute| |done|by vm_compute|exact appends_last].
  - apply batch_one; [set_solver|by vm_compute].
  - apply list.Forall_singleton. split; [apply fine_block; set_solver|done|done].
Defined.

Lemma import_ends_witness : Insert 1 [mkBlk block_a 2] decoded <> NoFuel.
Proof.
  eapply (import_ends hash hash_inj hash_pos genesis (fun _ m => m) ltac:(done)); [exact sorted_perm|by apply content_sound; set_solver|done|exact decoded_reached|apply batch_one; [set_solver|by vm_compute]|done|].
  assert (E : t_blocks (ChainDB_ decoded) = {[(0, hash genesis) := genesis]} /\ t_canonical (ChainDB_ decoded) = {[0 := hash genesis]}) by by vm_compute. destruct E as [E1 E2].
  intros c Hc n. rewrite E2. intros [_ Eh]%lookup_singleton_Some. assert (Hr : c_Root c = 0 \/ c_Root c = 1); [|by destruct Hr as [Hr|Hr]; rewrite Hr in Eh].
  destruct Hc as [Hc|Hc]; [unfold stored in Hc; rewrite E1 in Hc; apply lookup_singleton_Some in Hc as [_ <-]; by left|apply list_elem_of_singleton in Hc as ->; by right].
Defined.



(** With receipts in every block, the heavier block below the head is refused by the
    append, and the head stays. *)
Definition InsertR := InsertChain hash (fun _ => 0) (fun _ => None) (fun _ _ _ => None) (fun _ _ => inr true) (fun _ => false) (fun _ => false) (fun _ => 0) (fun _ m => m) appends GoPanic.
Definition head_dr : BlockChain := after (InsertR 2 [mkBlk block_d 5]) (after (InsertR 2 [mkBlk block_a 2]) decoded).

Lemma receipts_refused : currentBlock head_dr = mkBlk block_d 5 /\ match InsertR 2 [mkBlk block_e 6] head_dr with
  | Done (r, bc') => r = (0, Some errAppend) /\ currentBlock bc' = mkBlk block_d 5 | _ => False end.
Proof. vm_compute. done. Qed.

Lemma side_chain_panics_witness : Insert 2 [mkBlk block_c 4] forked = GoPanic.
Proof.
  eapply (side_chain_panics hash hash_inj hash_pos genesis (fun _ m => m) ltac:(done)) with (b := mkBlk block_c 4);
    [exact sorted_perm|by apply content_sound; set_solver|done|done|exact forked_reached|apply fine_block; set_solver|done|exists block_b; by vm_compute|by vm_compute|by vm_compute|].
  intros c Hc. by vm_compute in Hc.
Defined.

(** Once the import is told to stop, the next tick with a block in the queue panics: the
    batch is indexed with the number of inserted blocks less one. *)
Definition queued : BlockChain := after (addFutureBlock hash (fun _ => 0) (fun _ m => m) (mkBlk block_a 2)) decoded.

Lemma stopped_tick_panics :
  updateFutureBlocks hash (fun _ => 0) (fun _ => None) (fun _ _ _ => None) (fun _ _ => inr false) (fun _ => false) (fun _ => true) (fun _ => 0) (fun _ m => m) appends GoPanic sorted 2 queued = GoPanic.
Proof. by vm_compute. Qed.
End Fork.
